(* ===== verification/_CoqProject ===== *)
-Q . S2P
Prelude.v
GoStr.v
Utf8.v
Rbac.v
NodeScope.v
Sha.v
AuditWal.v
IpAddr.v
IpNet.v
Totp.v
Auth.v
Groups.v
NetPolicy.v
Nft.v
NetGuard.v
NetGuardLint.v
NetEgress.v
GuardAnchors.v
Outbound.v
Incidents.v
IncidentEval.v
IncidentStory.v
PathDegraded.v
Clock.v
Outbox.v
Delivery.v
DeliverySafety.v
Versions.v
StoreState.v
Tasks.v
LineChain.v
Stitch.v
TraceHops.v
TaskLeases.v
PluginBroker.v
PluginHost.v
Approvals.v
