(* ===== verification/Prelude.v ===== *)
(** * A verification of lattice-server

    lattice-server is the control plane of a fleet of nodes: operators and
    plugins submit plans, plans become approvals, approvals become tasks that
    agents poll for, and every decision is written to a hash-chained log.  This
    library models the parts that decide who may do what, what is handed to
    which node, and what survives a crash, and proves the properties those
    parts are trusted for.  All sources are under [src/internal].

    ** Conventions

    Go code is translated to total functions.  Integers are [Z] with their
    wrap-around written out ([wrap64], [wrapu64]); a [time.Time] is a number of
    nanoseconds with zero for the zero time; strings are byte strings; a map is
    a [gmap], and where the source ranges over one, the order is an argument or
    the theorem holds for every order.  Errors are values of a sum.  Clocks,
    random tokens, limiter answers and the outcome of a write to disk are
    arguments, so a theorem quantifies over them.  An operation of the store
    runs under one lock and is one function from state to state; sequences of
    operations are paths of a step relation.  A handler that takes the lock
    more than once is split into steps where a theorem depends on what runs in
    between ([loginStep] in Auth.v, the decisions of Approvals.v, the attempts
    of Delivery.v).  Counters that no run can bring near their width (log
    sequence numbers, active host calls, versions of bindings) are plain [Z];
    the JSON of a record stored in bolt reads back as the record.  The SDK's model package is not
    part of the repository: its records appear with the fields the code reads,
    its string constants and encoders are class parameters with the laws the
    code relies on ([Sdk] in StoreState.v, [NetSdk] in NetPolicy.v, [GuardSdk]
    in NetGuard.v, the codec class of AuditWal.v), each with a concrete
    instance; so are [strconv.Quote] ([Quote] in Nft.v), the time stamps of
    messages, the case mappings of [strings], the time zone database, the names
    of the plugin and trace SDK, the thresholds of degraded paths and the
    permutation an unstable sort leaves among equals.

    ** Parts

    - Prelude.v: this header, the error type, tactics, lists, sorting, machine
      integers and time.  GoStr.v: the functions of [strings] and [strconv]
      the code uses.  Utf8.v: runes.  Sha.v: SHA-1, SHA-256, HMAC, hex, pinned
      by test vectors.  IpAddr.v, IpNet.v: address parsing and printing of
      [net], and prefixes of [net/netip], with the proof that printed
      addresses read back.
    - Rbac.v ([rbac/rbac.go]): scopes, compatibility aliases, explicit-only
      scopes, server allowlists, delegation.
    - NodeScope.v ([server/authz_nodeset.go]): the resolver that carries a
      principal through the plan compilers, over Rbac.v.
    - AuditWal.v ([audit/wal.go]): the log file with its sidecar anchor, opening,
      appending, verifying, and crashes as prefixes of the written bytes.
    - Totp.v, Auth.v ([auth/totp.go], the session, challenge and user
      operations of [store/store.go], the login, step-up, password and 2FA
      handlers of [server/]): second factors and sessions.
    - Groups.v ([groups/]): membership, selectors, bulk targets.
    - NetPolicy.v ([netpolicy/netpolicy.go], [netpolicy/expand.go]): policy
      normalization, the policy graph, expansion of group policies, over
      Groups.v and IpAddr.v.
    - Nft.v ([network/nft.go]): nftables plans, their normalization and text,
      and what a rule does to a packet.  NetGuard.v ([netguard/compile.go],
      [netguard/convert.go]): the guard model compiled to such plans.
      NetGuardLint.v ([netguard/lint.go], [netguard/admits.go]): the checks
      made on a compiled plan.  GuardAnchors.v ([store/store.go],
      [store/node_group_guard.go], [store/group_usage.go], the guard steps of
      [store/cascade.go], the approval check of
      [server/server_netguard.go]): the guard records and the plan anchors
      every edit of them clears.  NetEgress.v ([netpolicy/compile.go], reported
      addresses of [server/server.go]): policies compiled to rulesets.
    - Outbound.v ([outbound/outbound.go]): the address guard, resolution under
      a policy, the dial loop, redirects and operator targets.
    - Incidents.v ([store/incidents.go], [store/bolt_incidents.go]): incident
      records, their indexes, eviction and the hot store behind them.
      IncidentEval.v ([server/incidents.go], the actions of
      [server/server_incidents.go]): opening, resolving, acknowledging, the
      sweep and its messages.  IncidentStory.v: all of it as steps of a world
      with a log of what was sent.
    - PathDegraded.v ([server/monitor_degraded.go],
      [store/monitor_degraded.go]): the state machine of degraded paths, its
      stored records and the incidents it opens and closes.
    - Clock.v (quiet hours of [server/server_notify_outbox.go] over a time
      zone), Outbox.v ([store/notify_outbox.go],
      [store/bolt_notify_outbox.go]): delivery rows, channel health and digest
      entries.  Delivery.v ([server/notify_outbox.go],
      [server/notify_channel_fallback.go], the webhook of
      [server/server_notify_webhook.go]): planning, attempting, retrying and
      falling back.  DeliverySafety.v: all of it as steps with a log of what
      was sent.
    - Versions.v ([plugin/versionrange.go], [plugin/serverfloor.go], version
      part of [store/task_attempts.go]): version orders and ranges.
    - StoreState.v: the records and the part of the store's state the next
      three files share.  Tasks.v ([store/store.go], [store/task_attempts.go]):
      results, receipts, progress, cancellation, the lease predicates.
      LineChain.v ([store/line_chain.go]): plan, reserve, approve, complete,
      reconcile.  TaskLeases.v ([store/store.go] [leaseTaskDeliveries],
      [store/guard_writers.go]): the whole poll, over the other two.
    - Stitch.v ([tracestitch/tracestitch.go]): hop paths joined from trace
      records.  TraceHops.v ([tracestore/query.go],
      [server/server_trace_timeline.go]): the pages of records it reads and
      the view it answers.
    - PluginBroker.v ([plugin/broker.go], [plugin/host_store_schedule.go],
      [plugin/kv_compare.go], [plugin/operation.go], [plugin/rpc.go],
      [plugin/invoke_budget.go], the host-call loop of
      [plugin/system_runner.go]): grants, the gate each host call passes, its
      budget and revocation.  PluginHost.v ([server/plugin_host.go] and its
      siblings, [server/server_plugin_operation.go], [store/kv_compare.go]):
      the services behind the gate and operations approved by an operator.

    - Approvals.v ([server/server_approval_policy.go], the decision path of
      [server/server.go], the approval operations of [store/store.go]): manual
      and automatic decisions as steps of concurrent requests.

    ** What the theorems show

    - Authority: a delegated token passes no check its delegator fails; the
      runtime check equals a declarative grant relation; whatever a compiler
      asks, its caller learns nothing about nodes it cannot read.
    - Evidence: a verified log determines its records up to a digest
      collision, which the statement exhibits; appending keeps the log
      verifiable while events encode as they decode; after a crash in the
      middle of an append, wherever its order of writes lets one happen, the
      log reopens.
    - Delivery: a poll hands out only work the node owes, under a lease on
      record; a live lease is exclusive; attempts are bounded; a batch is of one
      protocol; durable completion happens once.
    - Line chains: along every sequence of operations, polls included, the
      chain graph is acyclic and a source has one active attempt; the cycle
      search is exact; plans of one revision exclude each other.
    - Second factors: a one-time code or recovery code is accepted once while
      no older user record is written back, a challenge answers a bounded
      number of wrong factors (five, and one more for each request that
      overlaps another), an epoch bump ends earlier sessions.
    - Policies: normalized policies are well formed; expansion is exact with
      distinct ids; the graph shows what the policies do.
    - Firewalls: compiled guard plans without blank sources, and policies
      after their fixed lines, accept exactly what the models they come from
      say, first match wins; no value adds a line to a
      ruleset; the lockout finding and the admission check mean what they say.
    - Requests: no client dials a forbidden address under rebinding resolvers
      and redirects, the guard decides by where an address leads, operator
      requests stay on origin and path, and both loops end.
    - Incidents: one unresolved record per problem, across restarts; over any
      run whose restarts find the records on disk a recovery answers an
      opening, an escalation happens once, a
      flapping incident is heard of once an hour, and what is owed is sent by
      the first sweep that may.
    - Degraded paths: the state machine decides exactly what the history of
      judgements says; memory and stored records agree along every run outside
      four named gaps, deletes and refused writes included.
    - Notifications: while the disk takes its writes sends of a message are
      bounded and each pass of the drainer brings a due message forward; held
      messages go out in order, quiet hours are exact, the outbox survives
      restarts.
    - Plan anchors: while the version of an anchored binding stands still, no
      edit outside the named gaps changes what its node compiles to; the reach
      check lists every node a ruleset depends on.
    - Traces: along acyclic edges the stitcher makes exactly the joins a plain
      search decides and answers on every input; pages read each matching
      record once; the view shows only readable nodes.
    - Plugins: an approved operation queues what was approved (RPC to other
      services and schedules apart), a plugin reaches
      only its own storage, conditional writes lose nothing, revocation drains
      the calls under way.
    - Decisions: along every interleaving of requests a task applies a plan
      decided under its own hash, a NetGuard plan is applied once, and rules
      approve only what they match, within their caps when decided on the day
      of creation.
    - Limits found: theorems that exhibit what the code does against its own
      comments (a failed sync, a trimmed history, a cancelled task reopened by
      a late result, a lost update of a user record, a long rule id, a zone in
      a reported address, a refused write of a resolution, a base path of two
      slashes, a blank source, a catch-all of one family, a refused receipt
      sent again, quiet hours lost where clocks change at midnight, a hop view
      open to a caller whose only node is deleted, a window that hides a fork,
      edits that leave an anchor, a resolved incident that is open again after a
      restart, a decision overwritten by a later write).

    ** Fuel

    The cycle search runs with two units more than the graph has nodes, and
    [cycle_detection_exact] is about exactly that amount; the search for a free rule id has one
    try more than there are ids in use ([freeID_total]); trimming, decimal and
    address loops consume a byte or a digit per step and start with the
    length.  Judging an address has fuel two and a request fuel five, and
    [outbound_terminates] shows both enough.  The walk of the stitcher has one
    unit more than there are records, and [stitch_partition] shows that it
    answers.  No result depends on running out.

    ** Not modelled

    HTTP decoding and responses, file and database I/O, cryptographic
    libraries beyond the digests, floating point (token buckets, the judgement
    of a path's loss and latency), the plugin process pool and bundle loading,
    the WireGuard and proxy text generators, agent update scripts, telemetry
    storage, the rest of the delete cascade and the remaining tables of the
    store; the writers of the beacon registry; the rewriting of a pending
    approval's plan by the line-metadata sync and the return of line approvals
    to pending after failed tasks.  A pass of the drainer over its snapshot is
    one step.  Next in order: the plugin worker pool as a step relation, the
    registry of line identities, the delete cascade as a
    whole. *)

From Stdlib Require Import ZArith Lia.
From stdpp Require Export sorting.
From stdpp Require Export base numbers list gmap strings relations.

(** ** Fallible code

    A Go function that returns [(T, error)] is a function into [res E T]. *)

Inductive res (E A : Type) : Type :=
| Ok (a : A)
| Err (e : E).
Arguments Ok {E A} a.
Arguments Err {E A} e.

#[export] Instance res_ret {E} : MRet (res E) := fun A a => Ok a.
#[export] Instance res_bind {E} : MBind (res E) := fun A B f m =>
  match m with Ok a => f a | Err e => Err e end.
#[export] Instance res_fmap {E} : FMap (res E) := fun A B f m =>
  match m with Ok a => Ok (f a) | Err e => Err e end.

#[export] Instance res_eq_dec {E A} `{EqDecision E, EqDecision A} :
  EqDecision (res E A).
Proof. solve_decision. Defined.

(** [guard_err b e k]: the early return [if b { return e }] followed by [k]. *)
Definition guard_err {E A} (b : bool) (e : E) (k : res E A) : res E A :=
  if b then Err e else k.

Declare Scope lattice_scope.
Delimit Scope lattice_scope with lattice.
Open Scope lattice_scope.
Notation "'fail_if' b 'with' e ; k" := (guard_err b e k)
  (at level 100, b at level 99, e at level 99, k at level 200,
   right associativity) : lattice_scope.

(** The boolean tests of the source on comparable values. *)
Notation "x =?? y" := (bool_decide (x = y)) (at level 70) : lattice_scope.

(** ** Automation *)

Create HintDb lattice discriminated.
Create HintDb lattice_rw.

Lemma bind_Ok {E A B} (m : res E A) (f : A → res E B) b :
  m ≫= f = Ok b ↔ ∃ a, m = Ok a ∧ f a = Ok b.
Proof. destruct m; naive_solver. Qed.

Lemma guard_Ok {E A} (b : bool) (e : E) (k : res E A) a :
  guard_err b e k = Ok a ↔ b = false ∧ k = Ok a.
Proof. destruct b; naive_solver. Qed.

Lemma guard_Err {E A} (b : bool) (e e' : E) (k : res E A) :
  guard_err b e k = Err e' ↔ (b = true ∧ e = e') ∨ (b = false ∧ k = Err e').
Proof. destruct b; naive_solver. Qed.

(** [go_bool] turns boolean equations about the source's tests into the
    propositions they decide. *)
Ltac go_bool :=
  repeat first
    [ rewrite andb_true_iff in * | rewrite orb_true_iff in *
    | rewrite andb_false_iff in * | rewrite orb_false_iff in *
    | rewrite negb_true_iff in * | rewrite negb_false_iff in *
    | rewrite bool_decide_eq_true in * | rewrite bool_decide_eq_false in *
    | rewrite Z.ltb_lt in * | rewrite Z.ltb_ge in *
    | rewrite Z.leb_le in * | rewrite Z.leb_gt in *
    | rewrite Z.eqb_eq in * | rewrite Z.eqb_neq in * ].

(** [ok_inv H] splits [H : m1 ≫= ... guard ... = Ok x] into its successful
    steps. *)
Ltac ok_inv :=
  repeat match goal with
  | H : guard_err _ _ _ = Ok _ |- _ => apply guard_Ok in H as [? H]
  | H : _ ≫= _ = Ok _ |- _ => apply bind_Ok in H as (? & ? & H)
  | H : Ok _ = Ok _ |- _ => injection H as H; try subst
  | H : Err _ = Ok _ |- _ => discriminate H
  | H : mret _ = Ok _ |- _ => injection H as H; try subst
  end.

(** ** Lists *)

Lemma existsb_eq_elem {A} `{EqDecision A} (x : A) (l : list A) :
  existsb (fun y => bool_decide (y = x)) l = true ↔ x ∈ l.
Proof.
  rewrite existsb_exists. setoid_rewrite bool_decide_eq_true.
  rewrite list_elem_of_In. naive_solver.
Qed.

Lemma existsb_elem_of {A} (p : A → bool) (l : list A) :
  existsb p l = true ↔ ∃ x, x ∈ l ∧ p x = true.
Proof. rewrite existsb_exists. by setoid_rewrite list_elem_of_In. Qed.

Lemma forallb_elem_of {A} (p : A → bool) (l : list A) :
  forallb p l = true ↔ ∀ x, x ∈ l → p x = true.
Proof. rewrite forallb_forall. by setoid_rewrite list_elem_of_In. Qed.

Lemma existsb_ext_elem {A} (p q : A → bool) (l : list A) :
  (∀ x, x ∈ l → p x = q x) → existsb p l = existsb q l.
Proof.
  induction l as [|a l IH]; intros H; [done|]. simpl.
  rewrite (H a) by left. f_equal. apply IH. intros x Hx. apply H. by right.
Qed.

(** [mem x l] is Go's [slices.Contains] and the loops that spell it out. *)
Definition mem {A} `{EqDecision A} (x : A) (l : list A) : bool :=
  existsb (fun y => bool_decide (y = x)) l.

Lemma mem_spec {A} `{EqDecision A} (x : A) (l : list A) :
  mem x l = true ↔ x ∈ l.
Proof. apply existsb_eq_elem. Qed.

Lemma mem_false {A} `{EqDecision A} (x : A) (l : list A) :
  mem x l = false ↔ x ∉ l.
Proof. rewrite <- not_true_iff_false, mem_spec. done. Qed.

(** The "seen set" loop: keep the first occurrence of every element, in
    order. *)
Fixpoint dedup_go {A} `{EqDecision A} (seen l : list A) : list A :=
  match l with
  | [] => []
  | x :: l => if mem x seen then dedup_go seen l else x :: dedup_go (x :: seen) l
  end.
Definition dedup {A} `{EqDecision A} (l : list A) : list A := dedup_go [] l.

Lemma elem_of_dedup_go {A} `{EqDecision A} (x : A) (seen l : list A) :
  x ∈ dedup_go seen l ↔ x ∈ l ∧ x ∉ seen.
Proof.
  revert seen. induction l as [|a l IH]; intros seen; simpl; [set_solver|].
  destruct (mem a seen) eqn:E.
  - apply mem_spec in E. rewrite IH. set_solver.
  - apply mem_false in E. rewrite elem_of_cons, IH.
    destruct (decide (x = a)) as [->|]; set_solver.
Qed.

Lemma NoDup_dedup_go {A} `{EqDecision A} (seen l : list A) : NoDup (dedup_go seen l).
Proof.
  revert seen. induction l as [|a l IH]; intros seen; simpl; [constructor|].
  destruct (mem a seen); [done|]. constructor; [|done].
  rewrite elem_of_dedup_go. set_solver.
Qed.

Lemma elem_of_dedup {A} `{EqDecision A} (x : A) (l : list A) : x ∈ dedup l ↔ x ∈ l.
Proof. unfold dedup. rewrite elem_of_dedup_go. set_solver. Qed.

Lemma NoDup_dedup {A} `{EqDecision A} (l : list A) : NoDup (dedup l).
Proof. apply NoDup_dedup_go. Qed.

Lemma dedup_go_id {A} `{EqDecision A} (seen l : list A) :
  NoDup l → (∀ x, x ∈ l → x ∉ seen) → dedup_go seen l = l.
Proof.
  revert seen. induction l as [|a l IH]; intros seen Hnd Hs; simpl; [done|].
  apply NoDup_cons in Hnd as [Ha Hnd].
  assert (mem a seen = false) as -> by (apply mem_false, Hs; left).
  f_equal. apply IH; set_solver.
Qed.

Lemma dedup_id {A} `{EqDecision A} (l : list A) : NoDup l → dedup l = l.
Proof. intros. apply dedup_go_id; set_solver. Qed.

(** ** Sorting

    [sort.Strings] and [sort.Ints] order a slice by a total order, so the
    result depends only on the multiset of elements. *)

Definition sort_strings : list string → list string := merge_sort String.le.
Definition sort_ints : list Z → list Z := merge_sort Z.le.

Lemma sort_strings_perm l : sort_strings l ≡ₚ l.
Proof. apply merge_sort_Permutation. Qed.
Lemma sort_strings_sorted l : StronglySorted String.le (sort_strings l).
Proof. apply (StronglySorted_merge_sort String.le). Qed.
Lemma sort_ints_perm l : sort_ints l ≡ₚ l.
Proof. apply merge_sort_Permutation. Qed.
Lemma sort_ints_sorted l : StronglySorted Z.le (sort_ints l).
Proof. apply (StronglySorted_merge_sort Z.le). Qed.

Lemma elem_of_sort_strings x l : x ∈ sort_strings l ↔ x ∈ l.
Proof. by rewrite sort_strings_perm. Qed.
Lemma elem_of_sort_ints x l : x ∈ sort_ints l ↔ x ∈ l.
Proof. by rewrite sort_ints_perm. Qed.
Lemma NoDup_sort_strings l : NoDup (sort_strings l) ↔ NoDup l.
Proof. by rewrite sort_strings_perm. Qed.
Lemma NoDup_sort_ints l : NoDup (sort_ints l) ↔ NoDup l.
Proof. by rewrite sort_ints_perm. Qed.

Lemma sort_strings_id l : StronglySorted String.le l → sort_strings l = l.
Proof.
  intros H. apply (StronglySorted_unique String.le);
    [apply sort_strings_sorted|done|apply sort_strings_perm].
Qed.
Lemma sort_ints_id l : StronglySorted Z.le l → sort_ints l = l.
Proof.
  intros H. apply (StronglySorted_unique Z.le);
    [apply sort_ints_sorted|done|apply sort_ints_perm].
Qed.
Lemma sort_strings_ext l k : l ≡ₚ k → sort_strings l = sort_strings k.
Proof.
  intros H. apply (StronglySorted_unique String.le); [apply sort_strings_sorted..|].
  by rewrite !sort_strings_perm.
Qed.
Lemma sort_ints_ext l k : l ≡ₚ k → sort_ints l = sort_ints k.
Proof.
  intros H. apply (StronglySorted_unique Z.le); [apply sort_ints_sorted..|].
  by rewrite !sort_ints_perm.
Qed.

(** A Go [map[string]struct{}] drained into a slice and sorted. *)
Definition sorted_set (s : gset string) : list string := sort_strings (elements s).

Lemma elem_of_sorted_set x s : x ∈ sorted_set s ↔ x ∈ s.
Proof. unfold sorted_set. by rewrite elem_of_sort_strings, elem_of_elements. Qed.
Lemma sorted_set_NoDup s : NoDup (sorted_set s).
Proof. apply NoDup_sort_strings, NoDup_elements. Qed.
Lemma sorted_set_sorted s : StronglySorted String.le (sorted_set s).
Proof. apply sort_strings_sorted. Qed.
Lemma sorted_set_unique (s : gset string) l :
  NoDup l → StronglySorted String.le l → (∀ x, x ∈ l ↔ x ∈ s) → sorted_set s = l.
Proof.
  intros Hnd Hs Hx. apply (StronglySorted_unique String.le);
    [apply sorted_set_sorted|done|].
  apply NoDup_Permutation; [apply sorted_set_NoDup|done|].
  intros x. by rewrite elem_of_sorted_set, Hx.
Qed.

#[export] Hint Resolve sort_strings_sorted sort_ints_sorted sorted_set_sorted
  sorted_set_NoDup NoDup_dedup : lattice.
#[export] Hint Rewrite @elem_of_sort_strings @elem_of_sort_ints @elem_of_sorted_set
  @NoDup_sort_strings @NoDup_sort_ints : lattice_rw.
#[export] Hint Rewrite @elem_of_dedup using (typeclasses eauto) : lattice_rw.

(** ** Machine integers and time

    [int] is 64 bits wide. An instant is counted in nanoseconds from
    January 1 of year 1, 00:00:00 UTC, so that Go's zero [time.Time] is [0];
    a [time.Duration] is a 64-bit count of nanoseconds. *)

Definition int64_min : Z := (- 2 ^ 63)%Z.
Definition int64_max : Z := (2 ^ 63 - 1)%Z.
Definition uint64_max : Z := (2 ^ 64 - 1)%Z.

(** Two's complement wrap-around of a 64-bit signed result. *)
Definition wrap64 (z : Z) : Z := ((z + 2 ^ 63) mod 2 ^ 64 - 2 ^ 63)%Z.
(** Wrap-around of unsigned results. *)
Definition wrapu64 (z : Z) : Z := (z mod 2 ^ 64)%Z.
Definition wrapu32 (z : Z) : Z := (z mod 2 ^ 32)%Z.

Lemma wrap64_id z : (int64_min ≤ z ≤ int64_max)%Z → wrap64 z = z.
Proof. unfold wrap64, int64_min, int64_max. intros. rewrite Z.mod_small; lia. Qed.

Definition time : Type := Z.
Definition zero_time : time := 0%Z.
Definition is_zero (t : time) : bool := (t =? 0)%Z.
Definition duration : Type := Z.
Definition second : duration := 1000000000%Z.
Definition minute : duration := (60 * second)%Z.

(** [t.Sub(u)] saturates at the extreme durations. *)
Definition time_sub (t u : time) : duration :=
  Z.max int64_min (Z.min int64_max (t - u)).
Definition before (t u : time) : bool := (t <? u)%Z.
Definition after (t u : time) : bool := (u <? t)%Z.
Definition time_add (t : time) (d : duration) : time := (t + d)%Z.

Lemma time_sub_exact t u :
  (int64_min ≤ t - u ≤ int64_max)%Z → time_sub t u = (t - u)%Z.
Proof. unfold time_sub. lia. Qed.

Lemma time_sub_mono t t' u : (t ≤ t')%Z → (time_sub t u ≤ time_sub t' u)%Z.
Proof. unfold time_sub. lia. Qed.
