(* ===== verification/GoStr.v ===== *)
(** * Go's string functions

    A Go string is a sequence of bytes; [ascii] is the byte.  This file models
    the functions of package [strings], [strconv] and [fmt] that the source
    calls, with the lemmas the components share. *)

From Stdlib Require Import ZArith Lia Ascii.
From S2P Require Import Prelude.

#[local] Arguments String.append !_ _ / : simpl nomatch.

Definition byte_of (n : nat) : ascii := ascii_of_nat n.
Definition str1 (c : ascii) : string := String c "".
Definition str_of_bytes (l : list nat) : string :=
  foldr (fun n s => String (byte_of n) s) "" l.

Fixpoint bytes_of (s : string) : list ascii :=
  match s with "" => [] | String c s => c :: bytes_of s end.
Fixpoint of_bytes (l : list ascii) : string :=
  match l with [] => "" | c :: l => String c (of_bytes l) end.

Lemma of_bytes_of s : of_bytes (bytes_of s) = s.
Proof. induction s; simpl; congruence. Qed.
Lemma bytes_of_of l : bytes_of (of_bytes l) = l.
Proof. induction l; simpl; congruence. Qed.
Lemma bytes_of_app s t : bytes_of (s +:+ t) = bytes_of s ++ bytes_of t.
Proof. induction s; cbn; congruence. Qed.
Lemma of_bytes_app l k : of_bytes (l ++ k) = of_bytes l +:+ of_bytes k.
Proof. induction l; cbn; congruence. Qed.
Lemma length_bytes_of s : length (bytes_of s) = String.length s.
Proof. induction s; simpl; congruence. Qed.
#[export] Instance bytes_of_inj : Inj (=) (=) bytes_of.
Proof. intros s t H. by rewrite <- (of_bytes_of s), H, of_bytes_of. Qed.
#[export] Hint Rewrite of_bytes_of bytes_of_of bytes_of_app of_bytes_app length_bytes_of : lattice_rw.

Lemma str_app_assoc s t u : (s +:+ t) +:+ u = s +:+ t +:+ u.
Proof. apply (inj bytes_of). rewrite !bytes_of_app. by rewrite app_assoc. Qed.
Lemma str_app_nil_r s : s +:+ "" = s.
Proof. apply (inj bytes_of). rewrite bytes_of_app. apply app_nil_r. Qed.
Lemma str_length_app s t : String.length (s +:+ t) = String.length s + String.length t.
Proof. by rewrite <- !length_bytes_of, bytes_of_app, length_app. Qed.
Lemma str_app_inj_r s t u : s +:+ u = t +:+ u → s = t.
Proof.
  intros H. apply (f_equal bytes_of) in H. rewrite !bytes_of_app in H.
  apply app_inj_2 in H as [H _]; [|done]. by apply (inj bytes_of) in H.
Qed.

(** [strings.HasPrefix], [HasSuffix], [TrimPrefix], [TrimSuffix] *)

Fixpoint has_prefix (s p : string) {struct p} : bool :=
  match p, s with
  | "", _ => true
  | String c p, String d s => (c =?? d) && has_prefix s p
  | String _ _, "" => false
  end.

Fixpoint str_drop (n : nat) (s : string) : string :=
  match n, s with
  | 0, _ => s
  | S n, String _ s => str_drop n s
  | S _, "" => ""
  end.
Fixpoint str_take (n : nat) (s : string) : string :=
  match n, s with
  | 0, _ => ""
  | S n, String c s => String c (str_take n s)
  | S _, "" => ""
  end.

Definition str_rev (s : string) : string := of_bytes (reverse (bytes_of s)).
Definition has_suffix (s p : string) : bool := has_prefix (str_rev s) (str_rev p).
Definition trim_prefix (s p : string) : string :=
  if has_prefix s p then str_drop (String.length p) s else s.
Definition trim_suffix (s p : string) : string :=
  if has_suffix s p then str_take (String.length s - String.length p) s else s.

Lemma has_prefix_spec s p : has_prefix s p = true ↔ ∃ r, s = p +:+ r.
Proof.
  revert s. induction p as [|c p IH]; intros s; cbn; [by split; eauto|].
  destruct s as [|d s]; cbn.
  - split; [done|]. intros [r ?]; done.
  - rewrite andb_true_iff, bool_decide_eq_true, IH. split.
    + intros [-> [r ->]]. by exists r.
    + intros [r [= -> ->]]. eauto.
Qed.

Lemma str_drop_app p r : str_drop (String.length p) (p +:+ r) = r.
Proof. induction p; cbn; done. Qed.
Lemma str_take_app p r : str_take (String.length p) (p +:+ r) = p.
Proof. induction p; cbn; congruence. Qed.
Lemma str_take_drop n s : str_take n s +:+ str_drop n s = s.
Proof. revert s; induction n; intros [|c s]; cbn; congruence. Qed.

Lemma str_rev_app s t : str_rev (s +:+ t) = str_rev t +:+ str_rev s.
Proof. unfold str_rev. by rewrite bytes_of_app, reverse_app, of_bytes_app. Qed.
Lemma str_rev_involutive s : str_rev (str_rev s) = s.
Proof. unfold str_rev. by rewrite bytes_of_of, reverse_involutive, of_bytes_of. Qed.
Lemma str_rev_length s : String.length (str_rev s) = String.length s.
Proof. unfold str_rev. by rewrite <- length_bytes_of, bytes_of_of, length_reverse, length_bytes_of. Qed.

Lemma has_suffix_spec s p : has_suffix s p = true ↔ ∃ r, s = r +:+ p.
Proof.
  unfold has_suffix. rewrite has_prefix_spec. split.
  - intros [r H]. exists (str_rev r).
    rewrite <- (str_rev_involutive s), H, str_rev_app. by rewrite str_rev_involutive.
  - intros [r ->]. exists (str_rev r). apply str_rev_app.
Qed.

Lemma trim_suffix_app r p : trim_suffix (r +:+ p) p = r.
Proof.
  unfold trim_suffix.
  assert (has_suffix (r +:+ p) p = true) as -> by (apply has_suffix_spec; eauto).
  rewrite str_length_app. replace (_ + _ - _) with (String.length r) by lia.
  apply str_take_app.
Qed.

(** [strings.TrimSpace].  [white_runes] lists the UTF-8 encodings of the runes
    [unicode.IsSpace] accepts; trimming removes them at both ends until none
    is left. *)

Definition white_runes : list string :=
  map str_of_bytes
    ([ [9]; [10]; [11]; [12]; [13]; [32]; [194; 133]; [194; 160]; [225; 154; 128] ]
     ++ map (fun b => [226; 128; b]) [128;129;130;131;132;133;134;135;136;137;138;168;169;175]
     ++ [ [226; 129; 159]; [227; 128; 128] ]).

Fixpoint trim_left_go (ws : list string) (fuel : nat) (s : string) : string :=
  match fuel with
  | 0 => s
  | S fuel =>
    match List.find (has_prefix s) ws with
    | None => s
    | Some w => trim_left_go ws fuel (str_drop (String.length w) s)
    end
  end.
Definition trim_left (s : string) : string :=
  trim_left_go white_runes (String.length s) s.
Definition trim_right (s : string) : string :=
  str_rev (trim_left_go (map str_rev white_runes) (String.length s) (str_rev s)).
Definition trim_space (s : string) : string := trim_right (trim_left s).

Example trim_space_ex : trim_space (str_of_bytes [32;9;194;160;97;32;98;227;128;128;10]) = "a b".
Proof. vm_compute. reflexivity. Qed.

Definition clean (ws : list string) (s : string) : Prop :=
  List.find (has_prefix s) ws = None.

Lemma trim_left_go_id ws n s : clean ws s → trim_left_go ws n s = s.
Proof. intros H. destruct n; cbn; [done|]. by rewrite H. Qed.

Lemma trim_left_go_suffix ws n s : ∃ p, s = p +:+ trim_left_go ws n s.
Proof.
  revert s. induction n as [|n IH]; intros s; cbn; [by exists ""|].
  destruct (List.find _ ws) as [w|] eqn:E; [|by exists ""].
  apply List.find_some in E as [_ E]. apply has_prefix_spec in E as [r ->].
  rewrite str_drop_app. destruct (IH r) as [p Hp]. exists (w +:+ p).
  rewrite str_app_assoc. by rewrite <- Hp.
Qed.

Lemma trim_left_go_clean ws n s :
  Forall (fun w => String.length w ≠ 0) ws → String.length s ≤ n →
  clean ws (trim_left_go ws n s).
Proof.
  intros Hws. revert s. induction n as [|n IH]; intros s Hn; cbn.
  - destruct s; [|cbn in Hn; lia]. unfold clean. clear Hn.
    induction Hws as [|w ws Hw _ IHw]; cbn; [done|]. by destruct w.
  - destruct (List.find _ ws) as [w|] eqn:E; [|done].
    apply IH. apply List.find_some in E as [Hin E].
    apply has_prefix_spec in E as [r ->]. rewrite str_drop_app.
    rewrite str_length_app in Hn. rewrite List.Forall_forall in Hws.
    specialize (Hws w Hin). lia.
Qed.

Lemma clean_spec ws s : clean ws s ↔ ∀ w, w ∈ ws → has_prefix s w = false.
Proof.
  unfold clean. split.
  - intros H w Hw. eapply List.find_none; [done|]. by apply list_elem_of_In.
  - intros H. destruct (List.find _ ws) as [w|] eqn:E; [|done].
    apply List.find_some in E as [Hin E]. apply list_elem_of_In in Hin.
    by rewrite H in E.
Qed.

Lemma clean_prefix ws s t : clean ws (s +:+ t) → clean ws s.
Proof.
  rewrite !clean_spec. intros H w Hin. specialize (H w Hin).
  apply not_true_iff_false. intros Hp. apply has_prefix_spec in Hp as [r ->].
  rewrite str_app_assoc in H.
  assert (has_prefix (w +:+ r +:+ t) w = true) by (apply has_prefix_spec; eauto).
  congruence.
Qed.

Lemma white_runes_nonempty :
  Forall (fun w => String.length w ≠ 0) white_runes ∧
  Forall (fun w => String.length w ≠ 0) (map str_rev white_runes).
Proof. split; apply (bool_decide_unpack _); vm_compute; exact I. Qed.

(** A trimmed string has no white space at either end, so trimming is
    idempotent. *)
Lemma trim_left_clean s : clean white_runes (trim_left s).
Proof. apply trim_left_go_clean; [apply white_runes_nonempty|done]. Qed.

Lemma trim_right_prefix s : ∃ t, s = trim_right s +:+ t.
Proof.
  unfold trim_right.
  destruct (trim_left_go_suffix (map str_rev white_runes) (String.length s) (str_rev s)) as [p Hp].
  exists (str_rev p). by rewrite <- str_rev_app, <- Hp, str_rev_involutive.
Qed.

Lemma trim_space_idem s : trim_space (trim_space s) = trim_space s.
Proof.
  unfold trim_space at 1. set (t := trim_space s).
  assert (clean white_runes t) as Hl.
  { destruct (trim_right_prefix (trim_left s)) as [u Hu].
    apply (clean_prefix _ _ u). unfold t, trim_space. rewrite <- Hu. apply trim_left_clean. }
  unfold trim_left. rewrite (trim_left_go_id _ _ _ Hl).
  unfold trim_right. rewrite trim_left_go_id; [apply str_rev_involutive|].
  unfold t, trim_space, trim_right. rewrite str_rev_involutive.
  apply trim_left_go_clean; [apply white_runes_nonempty|]. by rewrite str_rev_length.
Qed.
#[export] Hint Rewrite trim_space_idem : lattice_rw.

(** [strings.IndexByte]: position of the first occurrence. *)
Fixpoint index_byte (s : string) (c : ascii) : option nat :=
  match s with
  | "" => None
  | String d s => if c =?? d then Some 0 else S <$> index_byte s c
  end.

Lemma index_byte_Some s c i :
  index_byte s c = Some i →
  s = str_take i s +:+ String c (str_drop (S i) s) ∧ index_byte (str_take i s) c = None
  ∧ String.length (str_take i s) = i.
Proof.
  revert i. induction s as [|d s IH]; intros i; cbn; [done|].
  case_bool_decide as Hd.
  - intros [= <-]. by subst.
  - destruct (index_byte s c) as [j|]; [|done]. intros [= <-].
    destruct (IH j eq_refl) as (H1 & H2 & H3). cbn in H1. cbn.
    rewrite bool_decide_eq_false_2 by done. rewrite H2, H3.
    split_and!; [|done..]. by f_equal.
Qed.

Lemma index_byte_None s c : index_byte s c = None ↔ c ∉ bytes_of s.
Proof.
  induction s as [|d s IH]; cbn; [set_solver|].
  case_bool_decide; [set_solver|]. rewrite fmap_None, IH. set_solver.
Qed.

Lemma index_byte_app s c t :
  index_byte s c = None → index_byte (s +:+ String c t) c = Some (String.length s).
Proof.
  induction s as [|d s IH]; cbn; [by rewrite bool_decide_eq_true_2|].
  case_bool_decide; [done|]. rewrite fmap_None. intros H'. by rewrite (IH H').
Qed.

(** [strings.Split] on a single byte. *)
Fixpoint split_go (c : ascii) (cur : string) (s : string) : list string :=
  match s with
  | "" => [cur]
  | String d s => if d =?? c then cur :: split_go c "" s else split_go c (cur +:+ str1 d) s
  end.
Definition split (s : string) (c : ascii) : list string := split_go c "" s.

(** [strings.FieldsFunc]: the maximal runs of bytes outside [p]; [p] holds of
    ASCII bytes only, so runes and bytes agree. *)
Fixpoint fields_go (p : ascii → bool) (cur : string) (s : string) : list string :=
  match s with
  | "" => if cur =?? "" then [] else [cur]
  | String d s =>
    if p d then (if cur =?? "" then fields_go p "" s else cur :: fields_go p "" s)
    else fields_go p (cur +:+ str1 d) s
  end.
Definition fields_func (s : string) (p : ascii → bool) : list string := fields_go p "" s.

(** Byte classes and ASCII case mapping. *)
Definition code (c : ascii) : Z := Z.of_N (N_of_ascii c).
Definition in_range (lo hi c : ascii) : bool := (code lo <=? code c)%Z && (code c <=? code hi)%Z.
Definition is_digit : ascii → bool := in_range "0" "9".
Definition is_lower : ascii → bool := in_range "a" "z".
Definition is_upper : ascii → bool := in_range "A" "Z".
Definition is_hex_lower (c : ascii) : bool := is_digit c || in_range "a" "f" c.

Definition upper_byte (c : ascii) : ascii :=
  if is_lower c then ascii_of_N (N_of_ascii c - 32) else c.
Definition lower_byte (c : ascii) : ascii :=
  if is_upper c then ascii_of_N (N_of_ascii c + 32) else c.
Definition to_upper (s : string) : string := of_bytes (map upper_byte (bytes_of s)).
Definition to_lower (s : string) : string := of_bytes (map lower_byte (bytes_of s)).
(** [strings.ToLower] and [strings.ToUpper] on any text, which follow the
    Unicode tables of the Go release. *)
Class GoCase := { ToLower : string → string; ToUpper : string → string }.

(** [strings.EqualFold]: ASCII letters fold to one case, and so do the two
    other runes whose simple folding is an ASCII letter, the Kelvin sign and
    the long s.  The source compares with ISO codes, on which this is
    exact. *)
Fixpoint fold_ascii (s : string) : string :=
  match s with
  | String c1 (String c2 (String c3 r as r3) as r2) =>
    if (c1 =?? byte_of 226) && (c2 =?? byte_of 132) && (c3 =?? byte_of 170)
    then String "k" (fold_ascii r)
    else if (c1 =?? byte_of 197) && (c2 =?? byte_of 191)
    then String "s" (fold_ascii r3)
    else String (lower_byte c1) (fold_ascii r2)
  | String c1 (String c2 "") =>
    if (c1 =?? byte_of 197) && (c2 =?? byte_of 191) then "s"
    else String (lower_byte c1) (String (lower_byte c2) "")
  | String c "" => String (lower_byte c) ""
  | "" => ""
  end.
Definition equal_fold (s t : string) : bool := fold_ascii s =?? fold_ascii t.

(** Decimal digits of [fmt]'s [%d] for a non-negative number. *)
Fixpoint digits_go (fuel : nat) (n : N) (acc : string) : string :=
  match fuel with
  | 0 => acc
  | S fuel =>
    let acc := String (ascii_of_N (48 + N.modulo n 10)) acc in
    if (n <? 10)%N then acc else digits_go fuel (N.div n 10) acc
  end.
Definition dec_of_N (n : N) : string := digits_go (S (N.to_nat (N.size n))) n "".
Definition dec_of_Z (z : Z) : string :=
  match z with
  | Z.neg p => "-" +:+ dec_of_N (Npos p)
  | _ => dec_of_N (Z.to_N z)
  end.

Example dec_ex : dec_of_Z 1203 = "1203" ∧ dec_of_Z 0 = "0" ∧ dec_of_Z (-17) = "-17".
Proof. vm_compute. done. Qed.

(** Reading decimal digits back: [dec_of_N] is injective and its digits are
    never separators. *)
Fixpoint dec_value_go (acc : N) (s : string) : N :=
  match s with
  | "" => acc
  | String c s => dec_value_go (10 * acc + (N_of_ascii c - 48)) s
  end.

Lemma digit_value n : (N_of_ascii (ascii_of_N (48 + n mod 10)) - 48 = n mod 10)%N.
Proof.
  assert (n mod 10 < 10)%N as H by (apply N.mod_upper_bound; lia).
  revert H. generalize (n mod 10)%N. intros m H. rewrite N_ascii_embedding; lia.
Qed.

Lemma dec_value_digits_go fuel n acc :
  (n < 10 ^ N.of_nat fuel)%N → fuel ≠ 0 →
  dec_value_go 0 (digits_go fuel n acc) = dec_value_go n acc.
Proof.
  revert n acc. induction fuel as [|fuel IH]; intros n acc Hn Hf; [done|].
  cbn [digits_go]. destruct (n <? 10)%N eqn:E.
  - cbn [dec_value_go]. rewrite digit_value. apply N.ltb_lt in E.
    rewrite N.mod_small by lia. done.
  - apply N.ltb_ge in E.
    assert (fuel ≠ 0). { intros ->. cbn in Hn. lia. }
    rewrite Nat2N.inj_succ, N.pow_succ_r' in Hn.
    rewrite IH; [|apply N.Div0.div_lt_upper_bound; lia|done].
    cbn [dec_value_go]. rewrite digit_value. f_equal.
    pose proof (N.div_mod' n 10). lia.
Qed.

Lemma N_size_pow10 n : (n < 10 ^ N.of_nat (S (N.to_nat (N.size n))))%N.
Proof.
  rewrite Nat2N.inj_succ, N2Nat.id.
  pose proof (N.size_gt n) as H.
  eapply N.lt_le_trans; [exact H|].
  transitivity (10 ^ N.size n)%N; [apply N.pow_le_mono_l; lia|].
  apply N.pow_le_mono_r; lia.
Qed.

Lemma dec_value_of_N n : dec_value_go 0 (dec_of_N n) = n.
Proof.
  unfold dec_of_N. rewrite dec_value_digits_go; [done| |done]. apply N_size_pow10.
Qed.

#[export] Instance dec_of_N_inj : Inj (=) (=) dec_of_N.
Proof. intros n m H. by rewrite <- (dec_value_of_N n), H, dec_value_of_N. Qed.

Lemma digits_go_digit fuel n acc c :
  c ∈ bytes_of (digits_go fuel n acc) → is_digit c = true ∨ c ∈ bytes_of acc.
Proof.
  revert n acc. induction fuel as [|fuel IH]; intros n acc; cbn [digits_go]; [by right|].
  set (d := ascii_of_N (48 + n mod 10)).
  assert (is_digit d = true) as Hd.
  { assert (n mod 10 < 10)%N as H by (apply N.mod_upper_bound; lia).
    unfold is_digit, in_range, code, d. revert H. generalize (n mod 10)%N.
    intros m H. rewrite N_ascii_embedding by lia. apply andb_true_iff.
    rewrite !Z.leb_le. change (N_of_ascii "0") with 48%N.
    change (N_of_ascii "9") with 57%N. lia. }
  clearbody d.
  destruct (n <? 10)%N.
  - cbn. rewrite elem_of_cons. naive_solver.
  - intros [H|H]%IH; [by left|]. cbn in H. rewrite elem_of_cons in H. naive_solver.
Qed.

Lemma dec_of_N_digit n c : c ∈ bytes_of (dec_of_N n) → is_digit c = true.
Proof. intros [?|H]%digits_go_digit; [done|]. cbn in H. set_solver. Qed.

(** Splitting at a separator that the first part does not contain is
    unambiguous. *)
Lemma sep_inj (c : ascii) s1 t1 s2 t2 :
  c ∉ bytes_of s1 → c ∉ bytes_of s2 →
  s1 +:+ String c t1 = s2 +:+ String c t2 → s1 = s2 ∧ t1 = t2.
Proof.
  intros H1 H2 H.
  assert (String.length s1 = String.length s2) as Hl.
  { apply index_byte_None in H1, H2.
    pose proof (index_byte_app _ _ t1 H1) as E1.
    pose proof (index_byte_app _ _ t2 H2) as E2. congruence. }
  apply (f_equal bytes_of) in H. rewrite !bytes_of_app in H. cbn in H.
  apply app_inj_1 in H as [Hs Ht]; [|by rewrite !length_bytes_of].
  simplify_eq. split; [by apply (inj bytes_of)|by apply (inj bytes_of)].
Qed.

Lemma is_digit_not c d : is_digit d = false → is_digit c = true → c ≠ d.
Proof. congruence. Qed.

(** [strings.Split] of newline-terminated lines. *)
Definition newline : ascii := byte_of 10.
Definition join_lines (ls : list string) : string :=
  foldr (fun l acc => l +:+ String newline acc) "" ls.

Lemma split_go_app c cur l rest :
  c ∉ bytes_of l → split_go c cur (l +:+ String c rest) = (cur +:+ l) :: split_go c "" rest.
Proof.
  revert cur. induction l as [|d l IH]; intros cur Hl; cbn.
  - rewrite bool_decide_eq_true_2 by done. by rewrite str_app_nil_r.
  - cbn in Hl. rewrite bool_decide_eq_false_2 by set_solver.
    rewrite IH by set_solver. by rewrite str_app_assoc.
Qed.

Lemma split_go_last c cur l : c ∉ bytes_of l → split_go c cur l = [cur +:+ l].
Proof.
  revert cur. induction l as [|d l IH]; intros cur Hl; cbn.
  - by rewrite str_app_nil_r.
  - cbn in Hl. rewrite bool_decide_eq_false_2 by set_solver.
    rewrite IH by set_solver. by rewrite str_app_assoc.
Qed.

Lemma split_join_lines ls t :
  Forall (fun l => newline ∉ bytes_of l) ls → newline ∉ bytes_of t →
  split (join_lines ls +:+ t) newline = ls ++ [t].
Proof.
  intros Hls Ht. unfold split. induction Hls as [|l ls Hl _ IH].
  - cbn. by rewrite split_go_last.
  - change (join_lines (l :: ls)) with (l +:+ String newline (join_lines ls)).
    rewrite str_app_assoc. cbn [String.append]. rewrite split_go_app by done.
    by rewrite IH.
Qed.

Lemma join_lines_app ls ks : join_lines (ls ++ ks) = join_lines ls +:+ join_lines ks.
Proof.
  induction ls as [|l ls IH]; [done|].
  change (join_lines ((l :: ls) ++ ks)) with (l +:+ String newline (join_lines (ls ++ ks))).
  change (join_lines (l :: ls)) with (l +:+ String newline (join_lines ls)).
  rewrite IH, str_app_assoc. done.
Qed.
