(* ===== verification/Utf8.v ===== *)
(** * Runes of a byte string

    What [for _, r := range s] yields: the UTF-8 decoding of [unicode/utf8],
    in which every byte that does not start a valid sequence is the rune
    U+FFFD of width one, with the bytes [WriteRune] emits for each rune. *)

From Stdlib Require Import ZArith Lia Ascii.
From S2P Require Import Prelude GoStr.

Local Open Scope Z_scope.

Definition RuneError : Z := 0xFFFD.
Definition rune_error_bytes : list ascii := map byte_of [239; 191; 189]%nat.
Definition cont (c : ascii) : bool := (128 <=? code c) && (code c <=? 191).

(** The rune at the front and its width. *)
Definition decode (l : list ascii) : Z * nat :=
  match l with
  | [] => (RuneError, O)
  | a :: l' =>
    let x := code a in
    if x <? 128 then (x, 1%nat)
    else if (194 <=? x) && (x <=? 223) then
      match l' with
      | b :: _ => if cont b then ((x - 192) * 64 + (code b - 128), 2%nat) else (RuneError, 1%nat)
      | _ => (RuneError, 1%nat)
      end
    else if (224 <=? x) && (x <=? 239) then
      match l' with
      | b :: c :: _ =>
        let lo := if x =? 224 then 160 else 128 in
        let hi := if x =? 237 then 159 else 191 in
        if (lo <=? code b) && (code b <=? hi) && cont c
        then ((x - 224) * 4096 + (code b - 128) * 64 + (code c - 128), 3%nat) else (RuneError, 1%nat)
      | _ => (RuneError, 1%nat)
      end
    else if (240 <=? x) && (x <=? 244) then
      match l' with
      | b :: c :: d :: _ =>
        let lo := if x =? 240 then 144 else 128 in
        let hi := if x =? 244 then 143 else 191 in
        if (lo <=? code b) && (code b <=? hi) && cont c && cont d
        then ((x - 240) * 262144 + (code b - 128) * 4096 + (code c - 128) * 64 + (code d - 128), 4%nat)
        else (RuneError, 1%nat)
      | _ => (RuneError, 1%nat)
      end
    else (RuneError, 1%nat)
  end.

(** Each rune with the bytes it is written back as: its own bytes when they
    were valid, the encoding of U+FFFD when a byte was not. *)
Fixpoint runes_go (fuel : nat) (l : list ascii) : list (Z * list ascii) :=
  match fuel with
  | O => []
  | S fuel =>
    match l with
    | [] => []
    | _ =>
      let '(r, w) := decode l in
      let b := if (r =? RuneError) && (w =? 1)%nat then rune_error_bytes else take w l in
      (r, b) :: runes_go fuel (drop w l)
    end
  end.
Definition runes (s : string) : list (Z * list ascii) :=
  runes_go (String.length s) (bytes_of s).

Example runes_mixed :
  map fst (runes (str_of_bytes [97; 195; 169; 226; 132; 170; 240; 159; 144; 152; 255; 226; 130]%nat))
  = [97; 233; 8490; 128024; RuneError; RuneError; RuneError].
Proof. vm_compute. reflexivity. Qed.

Definition ascii_byte (c : ascii) : Prop := code c < 128.

Lemma decode_ascii c l : ascii_byte c → decode (c :: l) = (code c, 1%nat).
Proof. unfold ascii_byte, decode. intros H. by rewrite (proj2 (Z.ltb_lt _ _) H). Qed.

(** ASCII text decodes byte by byte, whatever follows. *)
Lemma runes_go_ascii l k fuel :
  Forall ascii_byte l → (length l <= fuel)%nat →
  runes_go fuel (l ++ k) = map (fun c => (code c, [c])) l ++ runes_go (fuel - length l) k.
Proof.
  intros Hl. revert fuel. induction Hl as [|c l Hc Hl IH]; intros fuel Hf; cbn [length app map].
  - by rewrite Nat.sub_0_r.
  - destruct fuel as [|fuel]; cbn [length] in Hf; [lia|]. cbn [runes_go]. rewrite decode_ascii by done.
    unfold ascii_byte in Hc.
    assert (code c =? RuneError = false) as -> by (apply Z.eqb_neq; unfold RuneError; lia).
    cbn [andb]. cbn [take drop Nat.sub]. f_equal. apply IH. lia.
Qed.

Lemma runes_ascii_app s t :
  Forall ascii_byte (bytes_of s) →
  runes (s +:+ t) = map (fun c => (code c, [c])) (bytes_of s) ++ runes t.
Proof.
  intros Hs. unfold runes. rewrite bytes_of_app, runes_go_ascii; [|done|].
  - f_equal. f_equal. rewrite str_length_app, length_bytes_of. lia.
  - rewrite length_bytes_of, str_length_app. lia.
Qed.

Lemma runes_ascii s :
  Forall ascii_byte (bytes_of s) → runes s = map (fun c => (code c, [c])) (bytes_of s).
Proof. intros Hs. rewrite <- (str_app_nil_r s) at 1. rewrite runes_ascii_app by done. cbn. apply app_nil_r. Qed.
