(* ===== verification/Rbac.v ===== *)
(** * Scope and server-allowlist authorization (internal/rbac/rbac.go)

    Principals, the runtime check [Allows], the delegation rule
    [CanDelegateScope] and the scope catalogue. *)

From Stdlib Require Import ZArith Lia.
From S2P Require Import Prelude GoStr.

Record Principal := mkPrincipal {
  ActorID : string;
  TokenID : string;
  Scopes : list string;
  ServerAllowlist : list string;
}.

Definition SecretRevealScope : string := "secrets:reveal".

Definition explicitOnlyScopes : gmap string bool := {[ SecretRevealScope := true ]}.

(** A Go map read returns the zero value for an absent key. *)
Definition ExplicitOnly (scope : string) : bool := default false (explicitOnlyScopes !! scope).

Definition HoldsExplicitScope (scopes : list string) (scope : string) : bool :=
  existsb (fun held => held =?? scope) scopes.

Definition grants1 (scope required : string) : bool :=
  (scope =?? "*") || (scope =?? required)
  || (has_suffix scope ":*" && has_prefix required (trim_suffix scope "*")).

Definition directlyAllows (scopes : list string) (required : string) : bool :=
  if ExplicitOnly required then HoldsExplicitScope scopes required
  else existsb (fun scope => grants1 scope required) scopes.

Definition compatibleScopes (required : string) : list string :=
  if required =?? "sshguard:read" then ["sshguard:admin"]
  else if required =?? "proxy:read" then ["vpncore:read"]
  else if required =?? "proxy:admin" then ["vpncore:admin"]
  else if (required =?? "vpncore:read") || (required =?? "substore:read") then ["proxy:read"]
  else if (required =?? "vpncore:admin") || (required =?? "substore:admin") then ["proxy:admin"]
  else [].

Definition scopeAllowed (scopes : list string) (required : string) : bool :=
  directlyAllows scopes required
  || existsb (directlyAllows scopes) (compatibleScopes required).

Definition Allows (p : Principal) (scope nodeID : string) : bool :=
  if negb (scopeAllowed (Scopes p) scope) then false
  else if (length (ServerAllowlist p) =?? 0) || (nodeID =?? "") then true
  else existsb (fun allowed => (allowed =?? "*") || (allowed =?? nodeID)) (ServerAllowlist p).

Definition KnownScopes : list string :=
  [ "audit:read"; "ddns:admin"; "dns:admin"; "geo:admin"; "geo:read"; "group:admin";
    "group:read"; "inventory:admin"; "inventory:read"; "kv:admin"; "kv:read"; "kv:write";
    "log:admin"; "log:read"; "log:write"; "monitor:admin"; "monitor:read"; "netguard:admin";
    "netguard:read"; "netpolicy:admin"; "netpolicy:read"; "network:apply"; "network:plan";
    "node:admin"; "node:read"; "notify:admin"; "notify:send"; "oidc:admin"; "plugin:admin";
    "plugin:verify"; "proxy:admin"; "proxy:read"; "secrets:reveal"; "sshguard:admin";
    "sshguard:read"; "substore:admin"; "substore:read"; "static:admin"; "static:read";
    "static:write"; "task:read"; "task:run"; "terminal:open"; "token:admin"; "tunnel:admin";
    "user:admin"; "vpn:probe"; "vpncore:admin"; "vpncore:read"; "wireguard:admin";
    "wireguard:read" ].

Definition ValidScope (s : string) : bool :=
  if s =?? "*" then true
  else if mem s KnownScopes then true
  else has_suffix s ":*"
       && existsb (fun k => has_prefix k (trim_suffix s "*") && negb (ExplicitOnly k)) KnownScopes.

Definition CanDelegateScope (p : Principal) (delegated : string) : bool :=
  if negb (ValidScope delegated) then false
  else if directlyAllows (Scopes p) delegated then true
  else if (delegated =?? "vpncore:read") || (delegated =?? "substore:read")
       then directlyAllows (Scopes p) "proxy:read"
  else if (delegated =?? "vpncore:admin") || (delegated =?? "substore:admin")
       then directlyAllows (Scopes p) "proxy:admin"
  else if (delegated =?? "vpncore:*") || (delegated =?? "substore:*")
       then directlyAllows (Scopes p) "proxy:*"
  else false.

(** ** Declarative specification

    [Grants s r]: holding exactly [s] satisfies a check for [r]. *)

Inductive Grants : string → string → Prop :=
| GrantSame s : Grants s s
| GrantAll r : ExplicitOnly r = false → Grants "*" r
| GrantDomain e t :
    ExplicitOnly (e +:+ ":" +:+ t) = false → Grants (e +:+ ":*") (e +:+ ":" +:+ t).

Lemma Grants_cases s r :
  Grants s r ↔ s = r ∨ (ExplicitOnly r = false ∧
    (s = "*" ∨ ∃ e t, s = e +:+ ":*" ∧ r = e +:+ ":" +:+ t)).
Proof.
  split.
  - intros [|? ?|e t ?]; [by left|right; by auto|right; split; [done|right; by exists e, t]].
  - intros [->|[? [->|(e & t & -> & ->)]]]; by constructor.
Qed.

Lemma ExplicitOnly_spec s : ExplicitOnly s = true ↔ s = SecretRevealScope.
Proof.
  unfold ExplicitOnly, explicitOnlyScopes. destruct (decide (s = SecretRevealScope)) as [->|Hne].
  - by rewrite lookup_singleton_eq.
  - by rewrite lookup_singleton_ne.
Qed.

Lemma wildcard_trim e : trim_suffix (e +:+ ":*") "*" = e +:+ ":".
Proof.
  replace (e +:+ ":*") with ((e +:+ ":") +:+ "*") by (rewrite str_app_assoc; done).
  apply trim_suffix_app.
Qed.

Lemma domain_grant_spec s r :
  has_suffix s ":*" && has_prefix r (trim_suffix s "*") = true ↔
  ∃ e t, s = e +:+ ":*" ∧ r = e +:+ ":" +:+ t.
Proof.
  rewrite andb_true_iff, has_suffix_spec. split.
  - intros [[e ->] H]. rewrite wildcard_trim in H. apply has_prefix_spec in H as [t ->].
    exists e, t. by rewrite str_app_assoc.
  - intros (e & t & -> & ->). split; [by exists e|]. rewrite wildcard_trim.
    apply has_prefix_spec. exists t. by rewrite str_app_assoc.
Qed.

Lemma directlyAllows_spec scopes r :
  directlyAllows scopes r = true ↔ ∃ s, s ∈ scopes ∧ Grants s r.
Proof.
  unfold directlyAllows, HoldsExplicitScope, grants1.
  destruct (ExplicitOnly r) eqn:Hex; rewrite existsb_elem_of.
  - split.
    + intros (s & Hs & Heq). go_bool. subst. eauto using Grants.
    + intros (s & Hs & HG). exists s. split; [done|]. go_bool. inversion HG; congruence.
  - split.
    + intros (s & Hs & H). rewrite !orb_true_iff in H. destruct H as [[H|H]|H].
      * go_bool. subst. eauto using Grants.
      * go_bool. subst. eauto using Grants.
      * apply domain_grant_spec in H as (e & t & -> & ->). eauto using Grants.
    + intros (s & Hs & HG). exists s. split; [done|]. rewrite !orb_true_iff, !bool_decide_eq_true.
      inversion HG; subst; [by auto|by auto|]. right. apply domain_grant_spec. eauto.
Qed.

(** Declarative form of the whole runtime check. *)
Definition AllowsSpec (p : Principal) (scope nodeID : string) : Prop :=
  (∃ s, s ∈ Scopes p ∧
     (Grants s scope ∨ ∃ c, c ∈ compatibleScopes scope ∧ Grants s c)) ∧
  (ServerAllowlist p = [] ∨ nodeID = "" ∨ "*" ∈ ServerAllowlist p ∨ nodeID ∈ ServerAllowlist p).

Lemma scopeAllowed_spec scopes r :
  scopeAllowed scopes r = true ↔
  ∃ s, s ∈ scopes ∧ (Grants s r ∨ ∃ c, c ∈ compatibleScopes r ∧ Grants s c).
Proof.
  unfold scopeAllowed. rewrite orb_true_iff, existsb_elem_of, directlyAllows_spec.
  setoid_rewrite directlyAllows_spec. naive_solver.
Qed.

(** The runtime authorization check decides exactly its declarative
    specification: some held scope grants the required one, by name, by the
    superuser or a domain wildcard (never for an explicit-only scope) or through
    a compatibility alias, and the node is inside the server allowlist. *)
Theorem Allows_refines_spec (p : Principal) (scope nodeID : string) :
  Allows p scope nodeID = true ↔ AllowsSpec p scope nodeID.
Proof.
  unfold Allows, AllowsSpec. rewrite <- scopeAllowed_spec.
  destruct (scopeAllowed (Scopes p) scope); simpl; [|naive_solver].
  destruct (ServerAllowlist p) as [|a l] eqn:E; [naive_solver|].
  simpl length. rewrite bool_decide_eq_false_2, orb_false_l by done.
  case_bool_decide; [naive_solver|]. rewrite existsb_elem_of.
  setoid_rewrite orb_true_iff. setoid_rewrite bool_decide_eq_true. naive_solver.
Qed.

(** ** Delegation *)

Lemma str_app_split_eq e1 t1 e2 :
  e1 +:+ ":" +:+ t1 = e2 +:+ ":*" →
  t1 ≠ "" → ∃ u, e2 +:+ ":" = e1 +:+ ":" +:+ u.
Proof.
  intros H Ht.
  assert (∃ u c, t1 = u +:+ str1 c) as (u & c & ->).
  { clear H. induction t1 as [|d t1 IH]; [done|]. destruct t1 as [|d' t1].
    - by exists "", d.
    - destruct (IH ltac:(done)) as (u & c & Hu). exists (String d u), c. by rewrite Hu. }
  exists u. replace (e2 +:+ ":*") with ((e2 +:+ ":") +:+ "*") in H
    by (rewrite str_app_assoc; done).
  apply (f_equal bytes_of) in H. apply (inj bytes_of). autorewrite with lattice_rw in *.
  rewrite !app_assoc in H. apply app_inj_2 in H as [H _]; [|done].
  by rewrite <- H, <- app_assoc.
Qed.

Lemma domain_prefix_trans e1 t1 e2 t2 :
  e1 +:+ ":" +:+ t1 = e2 +:+ ":*" →
  ∃ t, e2 +:+ ":" +:+ t2 = e1 +:+ ":" +:+ t.
Proof.
  intros H. destruct (decide (t1 = "")) as [->|Ht].
  - exfalso. apply (f_equal (fun s => last (bytes_of s))) in H.
    autorewrite with lattice_rw in H. rewrite !last_app in H. done.
  - destruct (str_app_split_eq _ _ _ H Ht) as [u Hu]. exists (u +:+ t2).
    rewrite <- !str_app_assoc. rewrite Hu. by rewrite !str_app_assoc.
Qed.

Lemma star_not_domain e t : "*" ≠ e +:+ ":" +:+ t.
Proof.
  intros H. apply (f_equal bytes_of) in H. autorewrite with lattice_rw in H.
  destruct (bytes_of e) as [|c [|]]; done.
Qed.

(** Granting is transitive: whoever holds a grant for [d] holds whatever [d]
    itself grants. *)
Lemma Grants_trans s d r : Grants s d → Grants d r → Grants s r.
Proof.
  rewrite !Grants_cases.
  intros [->|[Hd Hs]] [->|[Hr Hd']]; [by left|by right|by right|right].
  split; [done|]. destruct Hs as [->|(e' & t' & -> & Heq)]; [by left|right].
  destruct Hd' as [->|(e & t & -> & ->)].
  - by apply star_not_domain in Heq.
  - destruct (domain_prefix_trans e' t' e t) as [u Hu]; [done|]. eauto.
Qed.

Lemma directlyAllows_trans scopes d r :
  directlyAllows scopes d = true → directlyAllows [d] r = true →
  directlyAllows scopes r = true.
Proof.
  rewrite !directlyAllows_spec. intros (s & Hs & H1) (d' & Hd & H2).
  apply list_elem_of_singleton in Hd as ->. eauto using Grants_trans.
Qed.

Lemma scopeAllowed_trans scopes d r :
  directlyAllows scopes d = true → scopeAllowed [d] r = true →
  scopeAllowed scopes r = true.
Proof.
  unfold scopeAllowed. rewrite !orb_true_iff, !existsb_elem_of.
  naive_solver eauto using directlyAllows_trans.
Qed.

(** Where delegation goes through the legacy proxy aliases, the delegated
    scope reaches only catalogue scopes the proxy scope itself satisfies. *)
Definition alias_delegations : list (string * string) :=
  [ ("vpncore:read", "proxy:read"); ("substore:read", "proxy:read");
    ("vpncore:admin", "proxy:admin"); ("substore:admin", "proxy:admin");
    ("vpncore:*", "proxy:*"); ("substore:*", "proxy:*") ].

Lemma alias_delegation_covered d via r :
  (d, via) ∈ alias_delegations → r ∈ KnownScopes →
  scopeAllowed [d] r = true → scopeAllowed [via] r = true.
Proof.
  assert (forallb (fun '(d, via) =>
    forallb (fun r => implb (scopeAllowed [d] r) (scopeAllowed [via] r)) KnownScopes)
    alias_delegations = true) as H by (vm_compute; reflexivity).
  intros Hd Hr Ha. rewrite forallb_elem_of in H. specialize (H _ Hd). cbv beta iota in H.
  rewrite forallb_elem_of in H. specialize (H _ Hr). by rewrite Ha in H.
Qed.

Lemma CanDelegateScope_cases p d :
  CanDelegateScope p d = true →
  directlyAllows (Scopes p) d = true ∨
  ∃ via, (d, via) ∈ alias_delegations ∧ directlyAllows (Scopes p) via = true.
Proof.
  unfold CanDelegateScope. destruct (negb _); [done|].
  destruct (directlyAllows (Scopes p) d); [by left|]. intros H. right.
  repeat (case_bool_decide; simpl in H; subst); try done;
    eexists; (split; [|exact H]); set_solver.
Qed.

(** C16. Delegation cannot escalate: for every catalogue scope, a token minted
    with a scope the principal may delegate passes no runtime scope check that
    the principal itself fails, compatibility aliases included. *)
Theorem delegation_no_escalation (p : Principal) (d r : string) :
  CanDelegateScope p d = true → r ∈ KnownScopes →
  scopeAllowed [d] r = true → scopeAllowed (Scopes p) r = true.
Proof.
  intros [H|(via & Hin & H)]%CanDelegateScope_cases Hr Hd.
  - by eapply scopeAllowed_trans.
  - eapply scopeAllowed_trans; [exact H|]. by eapply alias_delegation_covered.
Qed.

Definition legacy_admin : Principal := mkPrincipal "alice" "tok" ["proxy:*"] ["n1"].

Lemma delegation_no_escalation_witness :
  scopeAllowed ["vpncore:*"] "proxy:admin" = true ∧
  scopeAllowed (Scopes legacy_admin) "proxy:admin" = true.
Proof.
  split; [reflexivity|].
  apply (delegation_no_escalation legacy_admin "vpncore:*" "proxy:admin");
    [reflexivity| |reflexivity].
  apply mem_spec. reflexivity.
Defined.

(** Secret material is revealed only to a principal whose scope list names
    the reveal scope itself: neither the superuser scope, nor any domain
    wildcard, nor a compatibility alias satisfies the check, and no principal
    lacking it can delegate it. *)
Theorem secret_reveal_explicit (p : Principal) (nodeID : string) :
  (Allows p SecretRevealScope nodeID = true ∨ CanDelegateScope p SecretRevealScope = true) →
  SecretRevealScope ∈ Scopes p.
Proof.
  assert (∀ scopes, directlyAllows scopes SecretRevealScope = true →
    SecretRevealScope ∈ scopes) as Hd by (intros scopes H; by apply existsb_eq_elem in H).
  intros [H|H].
  - apply Hd. unfold Allows, scopeAllowed in H. simpl in H. rewrite orb_false_r in H.
    by destruct (directlyAllows (Scopes p) SecretRevealScope).
  - apply Hd. unfold CanDelegateScope in H. simpl in H.
    by destruct (directlyAllows (Scopes p) SecretRevealScope).
Qed.

Lemma secret_reveal_explicit_witness :
  SecretRevealScope ∈ Scopes (mkPrincipal "bob" "" ["node:read"; "secrets:reveal"] []).
Proof.
  apply (secret_reveal_explicit (mkPrincipal "bob" "" ["node:read"; "secrets:reveal"] []) "n1").
  left. reflexivity.
Defined.
