(* ===== verification/NodeScope.v ===== *)
(** * Node-set authorization ([internal/server/authz_nodeset.go])

    The resolver that carries a principal through the compilers, and the
    count-only refusal.  A compiler is any computation that consults a node
    resolver and may choose its next question by the last answer; it is a tree
    of questions ([compiler]).  The theorems say what a caller can learn. *)

From Stdlib Require Import ZArith Lia Ascii.
From stdpp Require Import gmap strings.
From S2P Require Import Prelude GoStr Rbac.

Local Open Scope Z_scope.

(** ** Definitions *)

(** [deniedNodeCount]: the loop with its [seen] set. *)
Fixpoint denied_go (p : Principal) (scope : string) (seen : gset string) (denied : Z) (ids : list string) : Z :=
  match ids with
  | [] => denied
  | nodeID :: ids =>
    let nodeID := trim_space nodeID in
    if nodeID =?? "" then denied_go p scope seen denied ids
    else if bool_decide (nodeID ∈ seen) then denied_go p scope seen denied ids
    else denied_go p scope ({[nodeID]} ∪ seen)
           (if Allows p scope nodeID then denied else denied + 1) ids
  end.
Definition deniedNodeCount (p : Principal) (scope : string) (ids : list string) : Z :=
  denied_go p scope ∅ 0 ids.

(** The refusal as the caller sees it: the count and nothing about identity. *)
Record refusal := mkRefusal { rfCount : Z; rfScope : string; rfWhat : string }.
Definition unreadableNodesError (count : Z) (scope what : string) : refusal := mkRefusal count scope what.

Definition requireReadableNodes (p : Principal) (scope what : string) (ids : list string) : option refusal :=
  let denied := deniedNodeCount p scope ids in
  if denied =? 0 then None else Some (unreadableNodesError denied scope what).

Section resolver.
Context {Node : Type}.

Record scopedNodeResolver := mkResolver {
  lookupNode : string → option Node; rsP : Principal; rsScope : string; rsWhat : string;
  exempt : gset string; denied : gset string; system : bool }.
Definition with_denied (d : gset string) (r : scopedNodeResolver) : scopedNodeResolver :=
  mkResolver (lookupNode r) (rsP r) (rsScope r) (rsWhat r) (exempt r) d (system r).

Definition nodeResolverOver (lookup : string → option Node) (p : Principal) (scope what : string)
    (ex : list string) : scopedNodeResolver :=
  mkResolver lookup p scope what
    (list_to_set (List.filter (fun id => negb (id =?? "")) (trim_space <$> ex))) ∅ false.
(** A system resolver has no principal; its zero fields are never read. *)
Definition systemNodeResolverOver (lookup : string → option Node) : scopedNodeResolver :=
  mkResolver lookup (mkPrincipal "" "" [] []) "" "" ∅ ∅ true.

Definition Resolve (nodeID : string) (r : scopedNodeResolver) : scopedNodeResolver * option Node :=
  let trimmed := trim_space nodeID in
  if trimmed =?? "" then (r, None)
  else if system r then (r, lookupNode r trimmed)
  else if negb (bool_decide (trimmed ∈ exempt r)) && negb (Allows (rsP r) (rsScope r) trimmed)
  then (with_denied ({[trimmed]} ∪ denied r) r, None)
  else (r, lookupNode r trimmed).

Definition Denied (r : scopedNodeResolver) : Z := Z.of_nat (size (denied r)).
Definition DeniedIDs (r : scopedNodeResolver) : list string := sorted_set (denied r).
Definition Refused (r : scopedNodeResolver) : option refusal :=
  if bool_decide (denied r = ∅) then None else Some (unreadableNodesError (Denied r) (rsScope r) (rsWhat r)).

(** ** Compilers *)

Inductive compiler (A : Type) :=
| Done (a : A)
| Ask (nodeID : string) (k : option Node → compiler A).
Arguments Done {A} a.
Arguments Ask {A} nodeID k.

Fixpoint compile {A} (c : compiler A) (r : scopedNodeResolver) : scopedNodeResolver * A :=
  match c with
  | Done a => (r, a)
  | Ask nodeID k => let '(r, n) := Resolve nodeID r in compile (k n) r
  end.

(** What the handlers do with it: the refusal is looked at first. *)
Definition plan {A} (c : compiler A) (r : scopedNodeResolver) : refusal + A :=
  let '(r, a) := compile c r in
  match Refused r with Some e => inl e | None => inr a end.

(** ** What the caller can learn *)

Definition readable (p : Principal) (scope : string) (ex : list string) (id : string) : Prop :=
  id ∈ (trim_space <$> ex) ∨ Allows p scope id = true.

(** The part of two resolvers a caller could tell apart. *)
Definition agree (r1 r2 : scopedNodeResolver) : Prop :=
  rsP r1 = rsP r2 ∧ rsScope r1 = rsScope r2 ∧ rsWhat r1 = rsWhat r2 ∧ exempt r1 = exempt r2 ∧
  denied r1 = denied r2 ∧ system r1 = false ∧ system r2 = false ∧
  ∀ id, id ≠ "" → id ∈ exempt r1 ∨ Allows (rsP r1) (rsScope r1) id = true → lookupNode r1 id = lookupNode r2 id.

Lemma Resolve_agree id r1 r2 :
  agree r1 r2 → agree (Resolve id r1).1 (Resolve id r2).1 ∧ (Resolve id r1).2 = (Resolve id r2).2.
Proof.
  intros (Hp & Hs & Hw & He & Hd & Hy1 & Hy2 & Hl). unfold Resolve. case_bool_decide; [by split_and!|].
  rewrite Hy1, Hy2, <- He, <- Hp, <- Hs. destruct (_ && _) eqn:E; cbn [fst snd].
  - split; [|done]. unfold agree. cbn. rewrite Hd. by split_and!.
  - split; [by split_and!|]. apply Hl; [done|]. apply andb_false_iff in E as [E|E]; go_bool; [by left|by right].
Qed.

Lemma compile_agree {A} (c : compiler A) r1 r2 :
  agree r1 r2 → agree (compile c r1).1 (compile c r2).1 ∧ (compile c r1).2 = (compile c r2).2.
Proof.
  revert r1 r2. induction c as [a|id k IH]; intros r1 r2 H; [done|]. cbn [compile].
  destruct (Resolve_agree id r1 r2 H) as [Hr Hn].
  destruct (Resolve id r1) as [r1' n1], (Resolve id r2) as [r2' n2]. cbn in Hr, Hn. subst n2. by apply IH.
Qed.

(** C11. No lookup oracle: whatever a compiler asks, two fleets that agree on
    the nodes the principal may read (and the exempt ones) give the caller the
    same answer, refusal or artefact; so nothing about any other node, not
    even whether it exists, can be learnt. *)
Theorem plan_noninterference {A} (c : compiler A) lookup1 lookup2 p scope what ex :
  (∀ id, id ≠ "" → readable p scope ex id → lookup1 id = lookup2 id) →
  plan c (nodeResolverOver lookup1 p scope what ex) = plan c (nodeResolverOver lookup2 p scope what ex).
Proof.
  intros Hl. unfold plan.
  assert (agree (nodeResolverOver lookup1 p scope what ex) (nodeResolverOver lookup2 p scope what ex)) as Ha.
  { unfold agree, nodeResolverOver. cbn. split_and!; try done. intros id Hne H.
    apply Hl; [done|]. destruct H as [H|H]; [left|by right].
    apply elem_of_list_to_set, list_elem_of_In, filter_In in H as [H _]. by apply list_elem_of_In. }
  destruct (compile_agree c _ _ Ha) as [(_ & Hs & Hw & _ & Hd & _) Hr].
  destruct (compile c (nodeResolverOver lookup1 p scope what ex)) as [r1 a1].
  destruct (compile c (nodeResolverOver lookup2 p scope what ex)) as [r2 a2]. cbn in *. subst a2.
  unfold Refused, Denied. by rewrite Hd, Hs, Hw.
Qed.

(** An artefact is returned only when every question was about a readable
    node; the denied set holds exactly the unreadable nodes asked about. *)
Lemma compile_denied {A} (c : compiler A) r :
  system r = false →
  denied r ⊆ denied (compile c r).1 ∧
  (∀ id, id ∈ denied (compile c r).1 → id ∈ denied r ∨
     (id ≠ "" ∧ id ∉ exempt r ∧ Allows (rsP r) (rsScope r) id = false)).
Proof.
  revert r. induction c as [a|nid k IH]; intros r Hy; cbn [compile]; [set_solver|].
  unfold Resolve. case_bool_decide; [by apply IH|]. rewrite Hy.
  destruct (_ && _) eqn:E; [|by apply IH].
  apply andb_true_iff in E as [E1 E2]. go_bool.
  destruct (IH None (with_denied ({[trim_space nid]} ∪ denied r) r) Hy) as [H1 H2]. cbn in H1, H2.
  split; [set_solver|]. intros id [Hid|Hid]%H2; [|by right].
  apply elem_of_union in Hid as [->%elem_of_singleton|?]; [right|by left]. done.
Qed.

End resolver.
Arguments compiler Node A : clear implicits.
Arguments Done {Node A} a.
Arguments Ask {Node A} nodeID k.

Lemma size_add (a : string) (X : gset string) : a ∉ X → size ({[a]} ∪ X) = S (size X).
Proof. intros H. rewrite size_union, size_singleton by set_solver. done. Qed.

(** The refusal counts exactly the distinct nodes the caller cannot read:
    blank and repeated ids, and ids that differ only in surrounding white
    space, are not counted twice; and the artefact goes ahead exactly when
    there is none. *)
Theorem denied_count_exact p scope what ids :
  let unread : gset string :=
    list_to_set (List.filter (fun id => negb (id =?? "") && negb (Allows p scope id)) (trim_space <$> ids)) in
  deniedNodeCount p scope ids = Z.of_nat (size unread) ∧
  (requireReadableNodes p scope what ids = None ↔
   ∀ id, id ∈ ids → trim_space id ≠ "" → Allows p scope (trim_space id) = true).
Proof.
  intros unread.
  assert (deniedNodeCount p scope ids = Z.of_nat (size unread)) as Hc.
  { enough (∀ seen n, denied_go p scope seen n ids = n + Z.of_nat (size (unread ∖ seen))) as H.
    { unfold deniedNodeCount. rewrite H, difference_empty_L. lia. }
    unfold unread. clear unread. induction ids as [|id ids IH]; intros seen n; cbn [denied_go fmap list_fmap List.filter].
    - cbn. assert (∅ ∖ seen = (∅ : gset string)) as -> by set_solver. rewrite size_empty. lia.
    - destruct (bool_decide (trim_space id = "")) eqn:Eb; cbn [negb andb]; [apply IH|].
      destruct (bool_decide (trim_space id ∈ seen)) eqn:Hin; go_bool.
      + rewrite IH. destruct (negb (Allows p scope (trim_space id))); [|done]. cbn [list_to_set]. do 2 f_equal. f_equal. set_solver.
      + rewrite IH. destruct (Allows p scope (trim_space id)) eqn:Ea; cbn [negb].
        * do 2 f_equal. f_equal. apply set_eq. intros x.
          rewrite !elem_of_difference, elem_of_union, elem_of_singleton, !elem_of_list_to_set, !list_elem_of_In, !filter_In.
          split; [naive_solver|]. intros [[Hx Hf] Hns]. split; [done|]. intros [->|?]; [|done]. rewrite Ea in Hf. 
          by rewrite andb_false_r in Hf.
        * cbn [list_to_set].
          match goal with |- context [({[trim_space id]} ∪ ?X) ∖ seen] =>
            assert (({[trim_space id]} ∪ X) ∖ seen = {[trim_space id]} ∪ X ∖ ({[trim_space id]} ∪ seen)) as -> end.
          { apply set_eq. intros x. destruct (decide (x = trim_space id)) as [->|]; set_solver. }
          rewrite size_add by set_solver. lia. }
  split; [done|]. unfold requireReadableNodes. rewrite Hc. destruct (Z.eqb_spec (Z.of_nat (size unread)) 0) as [E|E].
  - split; [|done]. intros _ id Hid Hne. apply not_false_iff_true. intros Ha.
    assert (trim_space id ∈ unread) as Hin.
    { apply elem_of_list_to_set, list_elem_of_In, filter_In. rewrite <- list_elem_of_In. split; [by apply list_elem_of_fmap_2|].
      rewrite Ha, bool_decide_eq_false_2; done. }
    assert (unread = ∅) as Hemp by (apply leibniz_equiv, size_empty_inv; lia). set_solver.
  - split; [done|]. intros H. exfalso. apply E.
    enough (unread = ∅) as -> by done. apply set_eq. intros x. split; [|set_solver].
    intros Hx%elem_of_list_to_set. apply list_elem_of_In, filter_In in Hx as [Hx Hf].
    apply list_elem_of_In, list_elem_of_fmap in Hx as (id & -> & Hid). go_bool. destruct Hf as [Hf1 Hf2].
    rewrite H in Hf2; done.
Qed.

Module ScopeDemo.
Definition p : Principal := mkPrincipal "u" "" ["netpolicy:read"] ["n1"].
Definition c : compiler Z (option Z) :=
  Ask "n1" (fun a => Ask "n2" (fun b => Done (match a with Some _ => b | None => a end))).
Definition fleet1 (id : string) : option Z := Some 1%Z.
Definition fleet2 (id : string) : option Z := if id =?? "n1" then Some 1%Z else None.
End ScopeDemo.

Lemma plan_noninterference_witness :
  plan ScopeDemo.c (nodeResolverOver ScopeDemo.fleet1 ScopeDemo.p "netpolicy:read" "planning" [])
  = plan ScopeDemo.c (nodeResolverOver ScopeDemo.fleet2 ScopeDemo.p "netpolicy:read" "planning" []).
Proof.
  apply (plan_noninterference ScopeDemo.c). intros id Hne [Hin|Ha]; [by apply elem_of_nil in Hin|].
  unfold ScopeDemo.fleet1, ScopeDemo.fleet2.
  case_bool_decide as E; [done|]. exfalso. revert Ha. unfold Allows, ScopeDemo.p. cbn [Scopes ServerAllowlist length].
  rewrite (bool_decide_eq_false_2 (id = "")) by done. cbn [existsb].
  rewrite (bool_decide_eq_false_2 ("n1" = id)) by congruence. vm_compute. discriminate.
Defined.
