(* ===== verification/Sha.v ===== *)
(** * SHA-1, SHA-256, HMAC and hexadecimal

    Executable definitions of the digests of [crypto/sha1], [crypto/sha256]
    and [crypto/hmac] (FIPS 180-4, RFC 2104) on byte strings, with the test
    vectors that pin them.  The lemmas about them used elsewhere are the
    length of a digest and the alphabet of its hexadecimal form; nothing here
    or elsewhere assumes that a digest is injective. *)

From Stdlib Require Import ZArith Lia Ascii.
From S2P Require Import Prelude GoStr.

Local Open Scope Z_scope.

Definition mask32 : Z := 0xFFFFFFFF.
Definition w32 (x : Z) : Z := Z.land x mask32.
Definition add32 (x y : Z) : Z := w32 (x + y).
Definition not32 (x : Z) : Z := Z.lxor x mask32.
Definition shr (n x : Z) : Z := Z.shiftr x n.
Definition rotr (n x : Z) : Z := Z.lor (Z.shiftr x n) (w32 (Z.shiftl x (32 - n))).
Definition rotl (n x : Z) : Z := Z.lor (w32 (Z.shiftl x n)) (Z.shiftr x (32 - n)).
Definition xor3 (x y z : Z) : Z := Z.lxor x (Z.lxor y z).

(** Big-endian words of a byte list and back. *)
Definition word_of (b0 b1 b2 b3 : Z) : Z :=
  Z.lor (Z.shiftl b0 24) (Z.lor (Z.shiftl b1 16) (Z.lor (Z.shiftl b2 8) b3)).
Fixpoint words_of (l : list Z) : list Z :=
  match l with
  | b0 :: b1 :: b2 :: b3 :: l => word_of b0 b1 b2 b3 :: words_of l
  | _ => []
  end.
Definition bytes_of_word (w : Z) : list Z :=
  [Z.land (shr 24 w) 255; Z.land (shr 16 w) 255; Z.land (shr 8 w) 255; Z.land w 255].

(** Padding to 64-byte blocks with the bit length at the end. *)
Definition pad (msg : list Z) : list Z :=
  let n := Z.of_nat (length msg) in
  let zeros := Z.to_nat ((55 - n) mod 64) in
  msg ++ [128] ++ replicate zeros 0
  ++ bytes_of_word (shr 32 (8 * n)) ++ bytes_of_word (w32 (8 * n)).

Fixpoint blocks_go (fuel : nat) (ws : list Z) : list (list Z) :=
  match fuel with
  | O => []
  | S fuel =>
    match ws with
    | [] => []
    | _ => take 16 ws :: blocks_go fuel (drop 16 ws)
    end
  end.
Definition blocks (ws : list Z) : list (list Z) := blocks_go (length ws) ws.

(** Message schedules: the most recent word is at the head. *)
Definition nthz (n : nat) (l : list Z) : Z := nth n l 0.
Fixpoint schedule (next : list Z → Z) (n : nat) (acc : list Z) : list Z :=
  match n with
  | O => reverse acc
  | S n => schedule next n (next acc :: acc)
  end.

(** The round constants are the first 32 bits of the fractional parts of the
    cube roots of the first 64 primes: the integer cube root of [p * 2 ^ 96],
    modulo [2 ^ 32], found bit by bit. *)
Fixpoint cbrt_go (bits : nat) (root x : Z) : Z :=
  match bits with
  | O => root
  | S b =>
    let t := root + Z.shiftl 1 (Z.of_nat b) in
    cbrt_go b (if t * t * t <=? x then t else root) x
  end.
Definition is_prime (n : nat) : bool :=
  forallb (fun d => negb (Nat.modulo n d =? 0)%nat) (seq 2 (n - 2)).
Definition primes64 : list Z := Z.of_nat <$> List.filter is_prime (seq 2 310).
Definition sha256_k : list Z :=
  Eval vm_compute in (fun p => w32 (cbrt_go 36 0 (Z.shiftl p 96))) <$> primes64.

Definition sha256_next (l : list Z) : Z :=
  let x := nthz 14 l in let y := nthz 1 l in
  add32 (xor3 (rotr 17 y) (rotr 19 y) (shr 10 y))
    (add32 (nthz 6 l) (add32 (xor3 (rotr 7 x) (rotr 18 x) (shr 3 x)) (nthz 15 l))).

Record st8 := mk8 { ra : Z; rb : Z; rc : Z; rd : Z; re : Z; rf : Z; rg : Z; rh : Z }.

Definition sha256_round (s : st8) (kw : Z * Z) : st8 :=
  let '(mk8 a b c d e f g h) := s in
  let t1 := add32 (add32 h (xor3 (rotr 6 e) (rotr 11 e) (rotr 25 e)))
              (add32 (Z.lxor (Z.land e f) (Z.land (not32 e) g)) (add32 kw.1 kw.2)) in
  let t2 := add32 (xor3 (rotr 2 a) (rotr 13 a) (rotr 22 a))
              (xor3 (Z.land a b) (Z.land a c) (Z.land b c)) in
  mk8 (add32 t1 t2) a b c (add32 d t1) e f g.

Definition sha256_block (s : st8) (blk : list Z) : st8 :=
  let ws := schedule sha256_next 48 (reverse blk) in
  let '(mk8 a b c d e f g h) := fold_left sha256_round (combine sha256_k ws) s in
  mk8 (add32 (ra s) a) (add32 (rb s) b) (add32 (rc s) c) (add32 (rd s) d)
      (add32 (re s) e) (add32 (rf s) f) (add32 (rg s) g) (add32 (rh s) h).

Definition sha256_init : st8 :=
  mk8 0x6a09e667 0xbb67ae85 0x3c6ef372 0xa54ff53a 0x510e527f 0x9b05688c 0x1f83d9ab 0x5be0cd19.

Definition sha256_bytes (msg : list Z) : list Z :=
  let '(mk8 a b c d e f g h) := fold_left sha256_block (blocks (words_of (pad msg))) sha256_init in
  concat (map bytes_of_word [a;b;c;d;e;f;g;h]).

(** SHA-1 *)
Definition sha1_next (l : list Z) : Z :=
  rotl 1 (Z.lxor (nthz 2 l) (xor3 (nthz 7 l) (nthz 13 l) (nthz 15 l))).
Definition sha1_kf (t : nat) (b c d : Z) : Z * Z :=
  if Nat.ltb t 20 then (0x5A827999, Z.lor (Z.land b c) (Z.land (not32 b) d))
  else if Nat.ltb t 40 then (0x6ED9EBA1, xor3 b c d)
  else if Nat.ltb t 60 then
    (0x8F1BBCDC, Z.lor (Z.land b c) (Z.lor (Z.land b d) (Z.land c d)))
  else (0xCA62C1D6, xor3 b c d).
Definition sha1_round (s : Z * Z * Z * Z * Z) (tw : nat * Z) : Z * Z * Z * Z * Z :=
  let '(a, b, c, d, e) := s in
  let '(k, f) := sha1_kf tw.1 b c d in
  (add32 (rotl 5 a) (add32 f (add32 e (add32 k tw.2))), a, rotl 30 b, c, d).
Definition sha1_block (s : Z * Z * Z * Z * Z) (blk : list Z) : Z * Z * Z * Z * Z :=
  let ws := schedule sha1_next 64 (reverse blk) in
  let '(a, b, c, d, e) := s in
  let '(a', b', c', d', e') := fold_left sha1_round (combine (seq 0 80) ws) s in
  (add32 a a', add32 b b', add32 c c', add32 d d', add32 e e').
Definition sha1_bytes (msg : list Z) : list Z :=
  let '(a, b, c, d, e) := fold_left sha1_block (blocks (words_of (pad msg)))
     (0x67452301, 0xEFCDAB89, 0x98BADCFE, 0x10325476, 0xC3D2E1F0) in
  concat (map bytes_of_word [a;b;c;d;e]).

(** HMAC over a digest with 64-byte blocks. *)
Definition hmac (h : list Z → list Z) (key msg : list Z) : list Z :=
  let k := if Nat.ltb 64 (length key) then h key else key in
  let k := k ++ replicate (64 - length k) 0 in
  h (map (Z.lxor 0x5c) k ++ h (map (Z.lxor 0x36) k ++ msg)).

(** Byte strings. *)
Definition zbytes (s : string) : list Z := map code (bytes_of s).
Definition hex_digit (n : Z) : ascii :=
  default "0"%char (bytes_of "0123456789abcdef" !! Z.to_nat n).
Definition hex_encode (l : list Z) : string :=
  of_bytes (concat (map (fun b => [hex_digit (Z.land (shr 4 b) 15); hex_digit (Z.land b 15)]) l)).
Definition sha256_hex (s : string) : string := hex_encode (sha256_bytes (zbytes s)).

(** ** Test vectors *)

Example sha256_abc :
  sha256_hex "abc" = "ba7816bf8f01cfea414140de5dae2223b00361a396177a9cb410ff61f20015ad".
Proof. vm_compute. reflexivity. Qed.
Example sha256_empty :
  sha256_hex "" = "e3b0c44298fc1c149afbf4c8996fb92427ae41e4649b934ca495991b7852b855".
Proof. vm_compute. reflexivity. Qed.
Example sha256_two_blocks :
  sha256_hex "abcdbcdecdefdefgefghfghighijhijkijkljklmklmnlmnomnopnopq"
  = "248d6a61d20638b8e5c026930c3e6039a33ce45964ff2167f6ecedd419db06c1".
Proof. vm_compute. reflexivity. Qed.
Example sha1_abc :
  hex_encode (sha1_bytes (zbytes "abc")) = "a9993e364706816aba3e25717850c26c9cd0d89d".
Proof. vm_compute. reflexivity. Qed.
Example hmac_sha1_rfc2202_2 :
  hex_encode (hmac sha1_bytes (zbytes "Jefe") (zbytes "what do ya want for nothing?"))
  = "effcdf6ae5eb2fa2d27416d5f184df9c259a7c79".
Proof. vm_compute. reflexivity. Qed.

(** ** What the clients use *)

Lemma length_sha256_bytes msg : length (sha256_bytes msg) = 32%nat.
Proof. unfold sha256_bytes. by destruct (fold_left _ _ _). Qed.
Lemma length_sha1_bytes msg : length (sha1_bytes msg) = 20%nat.
Proof. unfold sha1_bytes. by destruct (fold_left _ _ _) as [[[[? ?] ?] ?] ?]. Qed.

Lemma sha1_bytes_range msg : Forall (fun b => 0 <= b < 256) (sha1_bytes msg).
Proof.
  assert (∀ w, Forall (fun b => 0 <= b < 256) (bytes_of_word w)) as H.
  { intros w. unfold bytes_of_word.
    assert (∀ x, 0 <= Z.land x 255 < 256) as Hx.
    { intros x. change 255 with (Z.ones 8). rewrite Z.land_ones by lia.
      apply Z.mod_pos_bound. lia. }
    repeat constructor; apply Hx. }
  unfold sha1_bytes. destruct (fold_left _ _ _) as [[[[? ?] ?] ?] ?].
  cbn [map concat]. rewrite !Forall_app. eauto 10.
Qed.

Lemma hex_digit_alphabet n : is_hex_lower (hex_digit n) = true.
Proof.
  unfold hex_digit. destruct (_ !! Z.to_nat n) as [c|] eqn:E; [|done]. simpl.
  apply list_elem_of_lookup_2 in E. revert c E. apply Forall_forall.
  apply (bool_decide_unpack _). vm_compute. exact I.
Qed.

Lemma hex_encode_alphabet l c : c ∈ bytes_of (hex_encode l) → is_hex_lower c = true.
Proof.
  unfold hex_encode. rewrite bytes_of_of.
  induction l as [|b l IH]; cbn [map concat]; [by intros ?%elem_of_nil|].
  rewrite elem_of_app. intros [H|H]; [|by apply IH].
  rewrite !elem_of_cons, elem_of_nil in H. destruct H as [->|[->|[]]];
    apply hex_digit_alphabet.
Qed.

Lemma length_hex_encode l : String.length (hex_encode l) = (2 * length l)%nat.
Proof.
  unfold hex_encode. rewrite <- length_bytes_of, bytes_of_of.
  induction l; cbn [map concat]; [done|]. rewrite length_app, IHl. cbn. lia.
Qed.

Lemma length_sha256_hex s : String.length (sha256_hex s) = 64%nat.
Proof. unfold sha256_hex. rewrite length_hex_encode, length_sha256_bytes. lia. Qed.

Lemma sha256_hex_alphabet s c : c ∈ bytes_of (sha256_hex s) → is_hex_lower c = true.
Proof. apply hex_encode_alphabet. Qed.

#[global] Opaque sha256_bytes sha1_bytes.
