(* ===== verification/AuditWal.v ===== *)
(** * The audit write-ahead log (internal/audit/wal.go)

    An append-only, hash-chained file with a sidecar anchor.  The encoding of
    an audit event is the SDK's JSON encoding: it is the class [AuditCodec],
    with the documented facts the log relies on in [AuditCodecLaws].  Disk
    contents are explicit state, every system call that can fail has its
    outcome as an argument, and a crash leaves the disk as the append leaves it
    when the system call it interrupts fails ([append_crash]). *)

From Stdlib Require Import ZArith Lia Ascii.
From S2P Require Import Prelude GoStr Sha.

Local Open Scope Z_scope.

Definition genesisHash : string := "lattice-audit-genesis-v1".
Definition anchorVersion : Z := 1.

Record Entry (Event : Type) := mkEntry {
  Seq : Z;
  PrevHash : string;
  Hash : string;
  EventOf : Event;
}.
Arguments mkEntry {Event}. Arguments Seq {Event}. Arguments PrevHash {Event}.
Arguments Hash {Event}. Arguments EventOf {Event}.

(** [encoding/json] on the SDK's event type. [reread ev] is the event as it
    decodes from its own encoding. *)
Class AuditCodec (Event : Type) := {
  event_id : Event → string;
  marshal_event : Event → option string;
  marshal_entry : Entry Event → option string;
  unmarshal_entry : string → option (Entry Event);
  reread : Event → Event;
}.

Definition printable (s : string) : Prop := ∀ c, c ∈ bytes_of s → 32 <= code c < 128.

(** An entry encodes whenever its event does; the encoding is one non-empty
    line without control bytes; it decodes to the same entry up to [reread];
    a proper non-empty prefix of it, and two of them on one line, are
    syntax errors. *)
Class AuditCodecLaws (Event : Type) {codec : AuditCodec Event} := {
  entry_marshal_total : ∀ e body,
    marshal_event (EventOf e) = Some body → is_Some (marshal_entry e);
  entry_line_clean : ∀ e line,
    marshal_entry e = Some line → line ≠ "" ∧ ∀ c, c ∈ bytes_of line → 32 <= code c;
  entry_decode : ∀ e line,
    marshal_entry e = Some line → printable (PrevHash e) → printable (Hash e) →
    unmarshal_entry line =
      Some (mkEntry (Seq e) (PrevHash e) (Hash e) (reread (EventOf e)));
  entry_prefix_malformed : ∀ e line k,
    marshal_entry e = Some line → (0 < k < String.length line)%nat →
    unmarshal_entry (str_take k line) = None;
  entry_concat_malformed : ∀ e e' line line',
    marshal_entry e = Some line → marshal_entry e' = Some line' →
    unmarshal_entry (line +:+ line') = None;
}.

(** ** Results, anchors and the disk *)

Record AnchorCheckpoint := mkCheckpoint { cpCount : Z; cpHead : string }.

Record Anchor := mkAnchor {
  Version : Z;
  Count : Z;
  Head : string;
  Pending : option AnchorCheckpoint;
  UpdatedAt : time;
}.

Record Result := mkResult {
  resCount : Z;
  resHead : string;
  resAnchor : option Anchor;
}.

Inductive walError :=
| Malformed (record : Z)
| OutOfOrder (record : Z)
| PrevMismatch (record : Z)
| HashMismatch (record : Z)
| MarshalFailed
| TokenTooLong
| DuplicateEventID
| FingerprintMalformed
| AnchorUnreadable
| AnchorMissing
| AnchorMismatch
| AnchorWriteFailed
| WALClosed
| WriteFailed
| SyncFailed
| IDConflict.

#[export] Instance checkpoint_eq_dec : EqDecision AnchorCheckpoint.
Proof. solve_decision. Defined.
#[export] Instance anchor_eq_dec : EqDecision Anchor.
Proof. solve_decision. Defined.
#[export] Instance walError_eq_dec : EqDecision walError.
Proof. solve_decision. Defined.

(** The two files. [anchorFile]: absent, present but not JSON, or present and
    decoded. *)
Record Disk := mkDisk {
  walFile : option string;
  anchorFile : option (option Anchor);
}.

(** Outcome of the atomic replacement of the anchor: it succeeds, fails with
    the old file in place, or fails (directory sync) with the new one. *)
Inductive io := IoOk | IoErrBefore | IoErrAfter.

Definition writeAnchor (o : io) (a : Anchor) (d : Disk) : Disk * bool :=
  match o with
  | IoOk => (mkDisk (walFile d) (Some (Some a)), true)
  | IoErrBefore => (d, false)
  | IoErrAfter => (mkDisk (walFile d) (Some (Some a)), false)
  end.

Definition anchorCommitted (now : time) (count : Z) (head : string) : Anchor :=
  mkAnchor anchorVersion count head None now.
Definition anchorWithPending (now : time) (count : Z) (head : string)
    (pending : option AnchorCheckpoint) : Anchor :=
  let anchor := anchorCommitted now count head in
  mkAnchor (Version anchor) (Count anchor) (Head anchor) pending (UpdatedAt anchor).

(** [readAnchor]: [None] when the file does not exist. *)
Definition readAnchor (d : Disk) : res walError (option Anchor) :=
  match anchorFile d with
  | None => Ok None
  | Some None => Err AnchorUnreadable
  | Some (Some anchor) =>
    fail_if negb (Version anchor =? anchorVersion) with AnchorUnreadable ;
    fail_if (Count anchor <? 0) || (Head anchor =?? "") with AnchorUnreadable ;
    fail_if match Pending anchor with
            | Some p => (cpCount p <? 0) || (cpHead p =?? "")
            | None => false
            end with AnchorUnreadable ;
    Ok (Some anchor)
  end.

Definition checkpointMatches (p : option AnchorCheckpoint) (r : Result) : bool :=
  match p with
  | Some p => (cpCount p =? resCount r) && (cpHead p =?? resHead r)
  | None => false
  end.
Definition anchorMatchesResult (anchor : Anchor) (r : Result) : bool :=
  if (Count anchor =? resCount r) && (Head anchor =?? resHead r) then true
  else checkpointMatches (Pending anchor) r.

(** [bufio.ScanLines] with the 16 MiB token limit: a final empty line is not a
    token, and one trailing carriage return is dropped. *)
Definition maxToken : nat := Nat.mul 16 (Nat.mul 1024 1024).
Definition dropCR (s : string) : string := trim_suffix s (str1 (byte_of 13)).
Definition raw_lines (s : string) : list string :=
  let parts := split s newline in
  if default "" (last parts) =?? "" then removelast parts else parts.
Definition too_long (line : string) : bool :=
  (Z.of_nat maxToken <=? Z.of_nat (String.length line)).

Section WAL.
Context {Event : Type} {codec : AuditCodec Event}.

Definition chain_input (prevHash : string) (seq : Z) (body : string) : string :=
  prevHash +:+ String newline (dec_of_Z seq +:+ String newline body).

Definition ChainHash (prevHash : string) (seq : Z) (ev : Event) : option string :=
  body ← marshal_event ev; Some (sha256_hex (chain_input prevHash seq body)).

(** The scan loop of [Verify], over the raw lines of the file. *)
Fixpoint verify_go (prev : string) (count : Z) (lines : list string) : res walError Result :=
  match lines with
  | [] => Ok (mkResult count prev None)
  | raw :: rest =>
    if too_long raw then Err TokenTooLong else
    let line := dropCR raw in
    if line =?? "" then verify_go prev count rest else
    match unmarshal_entry line with
    | None => Err (Malformed (count + 1))
    | Some rec =>
      let want := count + 1 in
      fail_if negb (Seq rec =? want) with OutOfOrder want ;
      fail_if negb (PrevHash rec =?? prev) with PrevMismatch want ;
      match ChainHash prev (Seq rec) (EventOf rec) with
      | None => Err MarshalFailed
      | Some hash =>
        fail_if negb (hash =?? Hash rec) with HashMismatch want ;
        verify_go (Hash rec) (count + 1) rest
      end
    end
  end.

Definition Verify (content : string) : res walError Result :=
  verify_go genesisHash 0 (raw_lines content).

Definition verifyWALPath (d : Disk) : res walError Result :=
  match walFile d with
  | None => Ok (mkResult 0 genesisHash None)
  | Some content => Verify content
  end.

Definition ensureAnchor (now : time) (o : io) (d : Disk) (r : Result) :
    Disk * res walError Result :=
  match readAnchor d with
  | Err e => (d, Err e)
  | Ok None =>
    let anchor := anchorCommitted now (resCount r) (resHead r) in
    let '(d, ok) := writeAnchor o anchor d in
    (d, if ok then Ok (mkResult (resCount r) (resHead r) (Some anchor)) else Err AnchorWriteFailed)
  | Ok (Some anchor) =>
    let committed := anchorCommitted now (resCount r) (resHead r) in
    if (Count anchor =? resCount r) && (Head anchor =?? resHead r) then
      match Pending anchor with
      | None => (d, Ok (mkResult (resCount r) (resHead r) (Some anchor)))
      | Some _ =>
        let '(d, ok) := writeAnchor o committed d in
        (d, if ok then Ok (mkResult (resCount r) (resHead r) (Some committed))
            else Err AnchorWriteFailed)
      end
    else if checkpointMatches (Pending anchor) r then
      let '(d, ok) := writeAnchor o committed d in
      (d, if ok then Ok (mkResult (resCount r) (resHead r) (Some committed))
          else Err AnchorWriteFailed)
    else (d, Err AnchorMismatch)
  end.

(** Both verifiers return the observed result beside the error. *)
Definition emptyResult : Result := mkResult 0 "" None.

Definition againstAnchor (anchor : Anchor) (r : Result) : Result * option walError :=
  let r := mkResult (resCount r) (resHead r) (Some anchor) in
  (r, if negb (anchorMatchesResult anchor r) then Some AnchorMismatch else None).

Definition VerifyAnchoredFile (d : Disk) (anchored : bool) : Result * option walError :=
  match verifyWALPath d with
  | Err e => (emptyResult, Some e)
  | Ok r =>
    if negb anchored then (r, None) else
    match readAnchor d with
    | Err e => (r, Some e)
    | Ok None => (r, Some AnchorMissing)
    | Ok (Some anchor) => againstAnchor anchor r
    end
  end.

Definition VerifyPrefixAgainstAnchor (d : Disk) (limit : nat) (anchor : Anchor)
    (anchored : bool) : Result * option walError :=
  match match walFile d with
        | None => Ok (mkResult 0 genesisHash None)
        | Some content => Verify (str_take limit content)
        end with
  | Err e => (emptyResult, Some e)
  | Ok r => if negb anchored then (r, None) else againstAnchor anchor r
  end.

(** ** The open log *)

Record WAL := mkWAL {
  isOpen : bool;
  seq : Z;
  head : string;
  anchored : bool;
  fingerprintByID : gmap string (list Z);
}.

Definition eventFingerprint (ev : Event) : option (list Z) :=
  body ← marshal_event ev; Some (sha256_bytes (zbytes body)).

Fixpoint fingerprints_go (acc : gmap string (list Z)) (lines : list string) :
    res walError (gmap string (list Z)) :=
  match lines with
  | [] => Ok acc
  | raw :: rest =>
    if too_long raw then Err TokenTooLong else
    match unmarshal_entry (dropCR raw) with
    | None => Err FingerprintMalformed
    | Some entry =>
      let id := event_id (EventOf entry) in
      if id =?? "" then fingerprints_go acc rest else
      match acc !! id with
      | Some _ => Err DuplicateEventID
      | None =>
        match eventFingerprint (EventOf entry) with
        | None => Err MarshalFailed
        | Some fp => fingerprints_go (<[id := fp]> acc) rest
        end
      end
    end
  end.

Definition readWALFingerprints (d : Disk) : res walError (gmap string (list Z)) :=
  match walFile d with
  | None => Ok ∅
  | Some content => fingerprints_go ∅ (raw_lines content)
  end.

(** [openWAL path anchorPath]; [anchored] is [anchorPath != ""]. *)
Definition openWAL (now : time) (o : io) (anchored : bool) (d : Disk) :
    Disk * res walError WAL :=
  match verifyWALPath d with
  | Err e => (d, Err e)
  | Ok r =>
    let '(d, rr) := if anchored then ensureAnchor now o d r else (d, Ok r) in
    match rr with
    | Err e => (d, Err e)
    | Ok r =>
      let d := mkDisk (Some (default "" (walFile d))) (anchorFile d) in
      match readWALFingerprints d with
      | Err e => (d, Err e)
      | Ok fps => (d, Ok (mkWAL true (resCount r) (resHead r) anchored fps))
      end
    end
  end.

(** Outcomes of the system calls of one append: the pending anchor, the
    number of bytes written when [Write] fails, the sync, and the committed
    anchor. *)
Record faults := mkFaults {
  onPending : io;
  onWrite : option nat;
  onSync : bool;
  onCommit : io;
}.
Definition no_faults : faults := mkFaults IoOk None true IoOk.

Definition appendBytes (d : Disk) (bytes : string) : Disk :=
  mkDisk (Some (default "" (walFile d) +:+ bytes)) (anchorFile d).

Definition writeAnchorIf (b : bool) (o : io) (a : Anchor) (d : Disk) : Disk * bool :=
  if b then writeAnchor o a d else (d, true).

Definition appendLocked (now : time) (f : faults) (ev : Event) (w : WAL) (d : Disk) :
    WAL * Disk * res walError unit :=
  if negb (isOpen w) then (w, d, Err WALClosed) else
  let nseq := seq w + 1 in
  match ChainHash (head w) nseq ev with
  | None => (w, d, Err MarshalFailed)
  | Some hash =>
    let next := mkCheckpoint nseq hash in
    let '(d, ok) := writeAnchorIf (anchored w) (onPending f)
                      (anchorWithPending now (seq w) (head w) (Some next)) d in
    if negb ok then (w, d, Err AnchorWriteFailed) else
    match marshal_entry (mkEntry nseq (head w) hash ev) with
    | None => (w, d, Err MarshalFailed)
    | Some line =>
      let record := line +:+ str1 newline in
      match onWrite f with
      | Some k => (w, appendBytes d (str_take k record), Err WriteFailed)
      | None =>
        let d := appendBytes d record in
        if negb (onSync f) then (w, d, Err SyncFailed) else
        let w1 := mkWAL true nseq hash (anchored w) (fingerprintByID w) in
        match (if event_id ev =?? "" then Some (fingerprintByID w)
               else fp ← eventFingerprint ev; Some (<[event_id ev := fp]> (fingerprintByID w))) with
        | None => (w1, d, Err MarshalFailed)
        | Some fps =>
          let w2 := mkWAL true nseq hash (anchored w) fps in
          let '(d, ok) := writeAnchorIf (anchored w) (onCommit f)
                            (anchorCommitted now nseq hash) d in
          (w2, d, if ok then Ok tt else Err AnchorWriteFailed)
        end
      end
    end
  end.

Definition Append := appendLocked.

Definition AppendIdempotent (now : time) (f : faults) (ev : Event) (w : WAL) (d : Disk) :
    WAL * Disk * (bool * res walError unit) :=
  let fresh := let '(w, d, r) := appendLocked now f ev w d in (w, d, (true, r)) in
  if event_id ev =?? "" then fresh else
  match fingerprintByID w !! event_id ev with
  | None => fresh
  | Some durable =>
    match eventFingerprint ev with
    | None => (w, d, (false, Err MarshalFailed))
    | Some incoming =>
      if negb (durable =?? incoming) then (w, d, (false, Err IDConflict)) else
      let '(d, ok) := writeAnchorIf (anchored w) (onCommit f)
                        (anchorCommitted now (seq w) (head w)) d in
      (w, d, (false, if ok then Ok tt else Err AnchorWriteFailed))
    end
  end.

Definition HeadOf (w : WAL) : string * Z := (head w, seq w).
Definition Close (w : WAL) : WAL := mkWAL false (seq w) (head w) (anchored w) (fingerprintByID w).
End WAL.

(** ** Lines of the file *)

Definition clean_line (l : string) : Prop :=
  l ≠ "" ∧ (∀ c, c ∈ bytes_of l → 32 <= code c) ∧ too_long l = false.

Lemma clean_line_no_newline l : (∀ c, c ∈ bytes_of l → 32 <= code c) → newline ∉ bytes_of l.
Proof. intros Hc Hin. apply Hc in Hin. vm_compute in Hin. done. Qed.

Lemma clean_line_dropCR l : (∀ c, c ∈ bytes_of l → 32 <= code c) → dropCR l = l.
Proof.
  intros Hc. unfold dropCR, trim_suffix.
  destruct (has_suffix l _) eqn:E; [|done].
  apply has_suffix_spec in E as [r ->]. exfalso.
  assert (byte_of 13 ∈ bytes_of (r +:+ str1 (byte_of 13))) as Hin.
  { rewrite bytes_of_app, elem_of_app. right. left. }
  apply Hc in Hin. vm_compute in Hin. done.
Qed.

Lemma raw_lines_join ls :
  Forall clean_line ls → raw_lines (join_lines ls) = ls.
Proof.
  intros Hls. unfold raw_lines. rewrite <- (str_app_nil_r (join_lines ls)).
  rewrite split_join_lines; [| |by intros ?%elem_of_nil].
  - rewrite last_snoc. simpl. by rewrite List.removelast_last.
  - eapply Forall_impl; [exact Hls|]. intros l (_ & Hc & _).
    by apply clean_line_no_newline.
Qed.

Lemma raw_lines_join_tail ls t :
  Forall clean_line ls → newline ∉ bytes_of t → t ≠ "" →
  raw_lines (join_lines ls +:+ t) = ls ++ [t].
Proof.
  intros Hls Ht Hne. unfold raw_lines. rewrite split_join_lines; [|  |done].
  - rewrite last_snoc. simpl. by rewrite bool_decide_eq_false_2.
  - eapply Forall_impl; [exact Hls|]. intros l (_ & Hc & _).
    by apply clean_line_no_newline.
Qed.

Lemma sha256_hex_printable s : printable (sha256_hex s).
Proof.
  intros c Hc%sha256_hex_alphabet. unfold is_hex_lower, is_digit, in_range, code in *.
  revert Hc. destruct c as [[] [] [] [] [] [] [] []]; vm_compute; intuition congruence.
Qed.

Lemma printable_no_newline s : printable s → newline ∉ bytes_of s.
Proof. intros Hs Hin. apply Hs in Hin. vm_compute in Hin. intuition. Qed.

Lemma genesis_printable : printable genesisHash.
Proof.
  assert (Forall (fun c => 32 <= code c < 128) (bytes_of genesisHash)) as Hf
    by (apply (bool_decide_unpack _); vm_compute; exact I).
  intros c Hc. rewrite Forall_forall in Hf. by apply Hf.
Qed.

(** ** The chain *)

Section Theory.
Context {Event : Type} {codec : AuditCodec Event} {laws : AuditCodecLaws Event}.
Implicit Types (w : WAL) (d : Disk) (ev : Event).

Lemma verify_go_app prev n ls ks :
  verify_go prev n (ls ++ ks) =
  r ← verify_go prev n ls; verify_go (resHead r) (resCount r) ks.
Proof.
  revert prev n. induction ls as [|l ls IH]; intros prev n; cbn; [done|].
  destruct (too_long l); [done|]. destruct (dropCR l =?? ""); [apply IH|].
  destruct (unmarshal_entry _) as [e|]; [|done]. unfold guard_err.
  destruct (negb (Seq e =? n + 1)); [done|]. destruct (negb (PrevHash e =?? prev)); [done|].
  destruct (ChainHash _ _ _) as [h|]; [|done]. destruct (negb (h =?? Hash e)); [done|].
  apply IH.
Qed.

Lemma verify_go_result prev n ls r :
  verify_go prev n ls = Ok r →
  resAnchor r = None ∧ n <= resCount r ∧ (printable prev → printable (resHead r)) ∧
  (resHead r = prev ∨ String.length (resHead r) = 64%nat).
Proof.
  revert prev n. induction ls as [|l ls IH]; intros prev n; cbn.
  - intros [= <-]; simpl. split_and!; [done|lia|done|by left].
  - destruct (too_long l); [done|]. destruct (dropCR l =?? ""); [apply IH|].
    destruct (unmarshal_entry _) as [e|]; [|done].
    destruct (ChainHash _ _ _) as [h|] eqn:Eh; [|intros; ok_inv; done].
    intros. ok_inv. go_bool. subst.
    unfold ChainHash in Eh. apply bind_Some in Eh as (body & _ & [= Eh]).
    destruct (IH _ _ ltac:(eassumption)) as (? & ? & Hp & Hl). split_and!; [done|lia| |].
    + intros _. apply Hp. rewrite <- Eh. apply sha256_hex_printable.
    + right. destruct Hl as [->|]; [|done]. rewrite <- Eh. apply length_sha256_hex.
Qed.

Lemma fingerprints_go_app acc ls ks :
  fingerprints_go acc (ls ++ ks) = m ← fingerprints_go acc ls; fingerprints_go m ks.
Proof.
  revert acc. induction ls as [|l ls IH]; intros acc; cbn; [done|].
  destruct (too_long l); [done|]. destruct (unmarshal_entry _); [|done].
  destruct (_ =?? ""); [apply IH|]. destruct (acc !! _); [done|].
  destruct (eventFingerprint _); [apply IH|done].
Qed.

(** Events that decode to something with the same encoding and id. *)
Definition stable ev : Prop :=
  marshal_event (reread ev) = marshal_event ev ∧ event_id (reread ev) = event_id ev.

(** The hash and the line the next append of [ev] writes. *)
Definition next_hash w ev : option string := ChainHash (head w) (seq w + 1) ev.
Definition next_line w ev : option string :=
  hash ← next_hash w ev; marshal_entry (mkEntry (seq w + 1) (head w) hash ev).

Lemma next_line_total w ev body :
  marshal_event ev = Some body → is_Some (next_line w ev).
Proof.
  intros Hb. unfold next_line, next_hash, ChainHash. rewrite Hb. simpl.
  by eapply entry_marshal_total.
Qed.

Lemma next_line_inv w ev line :
  next_line w ev = Some line →
  ∃ body hash, marshal_event ev = Some body ∧ next_hash w ev = Some hash ∧
    hash = sha256_hex (chain_input (head w) (seq w + 1) body) ∧
    marshal_entry (mkEntry (seq w + 1) (head w) hash ev) = Some line.
Proof.
  unfold next_line, next_hash, ChainHash. intros Hl.
  apply bind_Some in Hl as (hash & Hh & Hl). pose proof Hh as Hh'.
  apply bind_Some in Hh as (body & Hb & [= <-]). eauto 10.
Qed.

Lemma next_line_clean w ev line :
  next_line w ev = Some line → too_long line = false → clean_line line.
Proof.
  intros (? & ? & _ & _ & _ & Hl)%next_line_inv Hs.
  apply entry_line_clean in Hl as [? ?]. by split.
Qed.

Lemma next_line_decode w ev line hash :
  next_line w ev = Some line → next_hash w ev = Some hash → printable (head w) →
  unmarshal_entry line = Some (mkEntry (seq w + 1) (head w) hash (reread ev)).
Proof.
  intros (body & hash' & _ & Hh & -> & Hl)%next_line_inv Hh' Hp. simplify_eq.
  apply entry_decode in Hl; [done|done|apply sha256_hex_printable].
Qed.

(** Scanning the appended line from the head it was written at. *)
Lemma verify_next_line w ev line hash :
  next_line w ev = Some line → next_hash w ev = Some hash → printable (head w) →
  stable ev → too_long line = false →
  verify_go (head w) (seq w) [line] = Ok (mkResult (seq w + 1) hash None).
Proof.
  intros Hl Hh Hp [Hst _] Hshort.
  pose proof (next_line_clean _ _ _ Hl Hshort) as (Hne & Hc & _).
  cbn [verify_go]. rewrite Hshort, clean_line_dropCR by done.
  rewrite bool_decide_eq_false_2 by done.
  erewrite next_line_decode by eassumption. simpl.
  rewrite Z.eqb_refl, bool_decide_eq_true_2 by done. simpl.
  unfold ChainHash at 1. rewrite Hst.
  change (marshal_event ev ≫= _) with (next_hash w ev). rewrite Hh. simpl.
  by rewrite bool_decide_eq_true_2.
Qed.

Lemma fingerprints_next_line w ev line hash acc :
  next_line w ev = Some line → next_hash w ev = Some hash → printable (head w) →
  stable ev → too_long line = false →
  fingerprints_go acc [line] =
  if event_id ev =?? "" then Ok acc else
  match acc !! event_id ev with
  | Some _ => Err DuplicateEventID
  | None => match eventFingerprint ev with
            | Some fp => Ok (<[event_id ev := fp]> acc)
            | None => Err MarshalFailed
            end
  end.
Proof.
  intros Hl Hh Hp [Hst Hid] Hshort.
  pose proof (next_line_clean _ _ _ Hl Hshort) as (_ & Hc & _).
  cbn [fingerprints_go]. rewrite Hshort, clean_line_dropCR by done.
  erewrite next_line_decode by eassumption. simpl. rewrite Hid.
  destruct (event_id ev =?? ""); [done|]. destruct (acc !! _); [done|].
  unfold eventFingerprint. by rewrite Hst.
Qed.

(** ** The invariant of an open log and its files *)

Record wal_inv_lines (ls : list string) w d : Prop := {
  inv_open : isOpen w = true;
  inv_file : walFile d = Some (join_lines ls);
  inv_clean : Forall clean_line ls;
  inv_chain : verify_go genesisHash 0 ls = Ok (mkResult (seq w) (head w) None);
  inv_fps : fingerprints_go ∅ ls = Ok (fingerprintByID w);
  inv_anchor : anchored w = true →
    ∃ t, anchorFile d = Some (Some (anchorCommitted t (seq w) (head w)));
}.
Definition wal_inv w d : Prop := ∃ ls, wal_inv_lines ls w d.

Lemma inv_head_printable ls w d : wal_inv_lines ls w d → printable (head w).
Proof.
  intros Hi. apply (verify_go_result _ _ _ _ (inv_chain _ _ _ Hi)), genesis_printable.
Qed.
Lemma inv_head_nonempty ls w d : wal_inv_lines ls w d → head w ≠ "".
Proof.
  intros Hi Hh. destruct (verify_go_result _ _ _ _ (inv_chain _ _ _ Hi)) as (_ & _ & _ & Hl).
  simpl in Hl. rewrite Hh in Hl. by destruct Hl.
Qed.
Lemma inv_seq_nonneg ls w d : wal_inv_lines ls w d → 0 <= seq w.
Proof. intros Hi. apply (verify_go_result _ _ _ _ (inv_chain _ _ _ Hi)). Qed.

Lemma verifyWALPath_inv ls w d :
  wal_inv_lines ls w d → verifyWALPath d = Ok (mkResult (seq w) (head w) None).
Proof.
  intros Hi. unfold verifyWALPath, Verify. rewrite (inv_file _ _ _ Hi).
  rewrite raw_lines_join by apply Hi. apply Hi.
Qed.

(** What an appended line does to the two scans of the file. *)
Lemma scan_extended ls w d ev line hash :
  wal_inv_lines ls w d → stable ev →
  next_line w ev = Some line → next_hash w ev = Some hash → too_long line = false →
  verify_go genesisHash 0 (ls ++ [line]) = Ok (mkResult (seq w + 1) hash None).
Proof.
  intros Hi Hst Hl Hh Hs. rewrite verify_go_app, (inv_chain _ _ _ Hi). simpl.
  eapply verify_next_line; eauto using inv_head_printable.
Qed.

Definition fresh_id w ev : Prop :=
  event_id ev = "" ∨ fingerprintByID w !! event_id ev = None.

Definition fps_after w ev : option (gmap string (list Z)) :=
  if event_id ev =?? "" then Some (fingerprintByID w)
  else fp ← eventFingerprint ev; Some (<[event_id ev := fp]> (fingerprintByID w)).

Lemma fps_after_total w ev body :
  marshal_event ev = Some body → is_Some (fps_after w ev).
Proof.
  intros Hb. unfold fps_after, eventFingerprint. rewrite Hb. simpl.
  case_bool_decide; eauto.
Qed.

Lemma fingerprints_extended ls w d ev line hash fps :
  wal_inv_lines ls w d → stable ev → fresh_id w ev →
  next_line w ev = Some line → next_hash w ev = Some hash → too_long line = false →
  fps_after w ev = Some fps →
  fingerprints_go ∅ (ls ++ [line]) = Ok fps.
Proof.
  intros Hi Hst Hf Hl Hh Hs Hfps. rewrite fingerprints_go_app, (inv_fps _ _ _ Hi).
  cbn [mbind res_bind].
  erewrite fingerprints_next_line by eauto using inv_head_printable.
  unfold fps_after in Hfps. case_bool_decide; [congruence|].
  destruct Hf as [?|Hf]; [done|]. rewrite Hf.
  apply bind_Some in Hfps as (fp & Hfp & [= <-]). by rewrite Hfp.
Qed.

Lemma join_lines_snoc ls line :
  join_lines ls +:+ line +:+ str1 newline = join_lines (ls ++ [line]).
Proof. by rewrite join_lines_app. Qed.

(** The state and the disk after a fault-free append. *)
Definition after_append now w d hash line fps : WAL * Disk :=
  (mkWAL true (seq w + 1) hash (anchored w) fps,
   mkDisk (Some (default "" (walFile d) +:+ line +:+ str1 newline))
     (if anchored w then Some (Some (anchorCommitted now (seq w + 1) hash)) else anchorFile d)).

Lemma append_no_faults now w d ev hash line fps :
  isOpen w = true → next_hash w ev = Some hash → next_line w ev = Some line →
  fps_after w ev = Some fps →
  appendLocked now no_faults ev w d = (after_append now w d hash line fps, Ok tt).
Proof.
  intros Ho Hh Hl Hf. unfold appendLocked, after_append. rewrite Ho. simpl.
  unfold next_hash in Hh. unfold next_line, next_hash in Hl. rewrite Hh in Hl. simpl in Hl.
  rewrite Hh. unfold writeAnchorIf. destruct (anchored w) eqn:Ha; simpl; rewrite Hl;
    unfold fps_after in Hf; rewrite Hf; done.
Qed.

Lemma after_append_inv ls now w d ev hash line fps :
  wal_inv_lines ls w d → stable ev → fresh_id w ev →
  next_hash w ev = Some hash → next_line w ev = Some line → too_long line = false →
  fps_after w ev = Some fps →
  wal_inv_lines (ls ++ [line]) (after_append now w d hash line fps).1
    (after_append now w d hash line fps).2.
Proof.
  intros Hi Hst Hf Hh Hl Hs Hfps. unfold after_append. split; simpl.
  - done.
  - rewrite (inv_file _ _ _ Hi). simpl. by rewrite join_lines_snoc.
  - apply Forall_app. split; [apply Hi|]. constructor; [|done].
    by eapply next_line_clean.
  - by eapply scan_extended.
  - by eapply fingerprints_extended.
  - intros ->. eauto.
Qed.

Lemma anchored_verify ls w d :
  wal_inv_lines ls w d →
  (VerifyAnchoredFile d (anchored w)).2 = None ∧
  resCount (VerifyAnchoredFile d (anchored w)).1 = seq w ∧
  resHead (VerifyAnchoredFile d (anchored w)).1 = head w.
Proof.
  intros Hi. unfold VerifyAnchoredFile. rewrite (verifyWALPath_inv _ _ _ Hi).
  destruct (anchored w) eqn:Ha; [|done]. simpl.
  destruct (inv_anchor _ _ _ Hi Ha) as [t Ht]. unfold readAnchor. rewrite Ht. simpl.
  pose proof (inv_seq_nonneg _ _ _ Hi). pose proof (inv_head_nonempty _ _ _ Hi).
  rewrite bool_decide_eq_false_2 by done.
  assert (seq w <? 0 = false) as -> by (apply Z.ltb_ge; lia). simpl.
  unfold againstAnchor, anchorMatchesResult. simpl.
  by rewrite Z.eqb_refl, bool_decide_eq_true_2.
Qed.

(** C26. An append whose system calls succeed, of an event that encodes, that
    decodes to something with the same encoding and id, whose id (when it has
    one) is not in the log yet and whose line fits the scanner, extends the
    verified chain by exactly one record: the log's invariant (the file is newline-terminated
    records that verify to the in-memory sequence number and head, the
    idempotency index is the one a reopen rebuilds, and the anchor is the
    committed head) is preserved, and the anchored verification accepts the
    new head. *)
Theorem append_preserves_invariant now w d ev line :
  wal_inv w d → stable ev → fresh_id w ev →
  next_line w ev = Some line → too_long line = false →
  let '(w', d', r) := Append now no_faults ev w d in
  r = Ok tt ∧ wal_inv w' d' ∧ seq w' = seq w + 1 ∧
  (VerifyAnchoredFile d' (anchored w')).2 = None.
Proof.
  intros [ls Hi] Hst Hf Hl Hs.
  destruct (next_line_inv _ _ _ Hl) as (body & hash & Hb & Hh & _ & _).
  destruct (fps_after_total w ev body Hb) as [fps Hfps]. unfold Append.
  erewrite append_no_faults; [|apply Hi|eassumption..].
  pose proof (after_append_inv ls now w d ev hash line fps Hi Hst Hf Hh Hl Hs Hfps) as Hi'.
  cbn [after_append fst snd] in *. split_and!; [done|by eexists|done|].
  by apply (anchored_verify _ _ _ Hi').
Qed.

(** Recording an event a second time is idempotent: after a successful
    append of an event with an id, submitting the same event again writes no
    record and reports that nothing was appended, and submitting a different
    event under that id, one whose encoding has another digest, is refused. *)
Theorem append_idempotent now now' w d ev ev' line body body' :
  wal_inv w d → stable ev → fresh_id w ev → event_id ev ≠ "" →
  next_line w ev = Some line → too_long line = false →
  marshal_event ev = Some body → marshal_event ev' = Some body' →
  event_id ev' = event_id ev →
  let '(w1, d1, _) := AppendIdempotent now no_faults ev w d in
  let '(w2, d2, r) := AppendIdempotent now' no_faults ev' w1 d1 in
  w2 = w1 ∧ walFile d2 = walFile d1 ∧
  ((sha256_bytes (zbytes body) = sha256_bytes (zbytes body') ∧ r = (false, Ok tt)) ∨
   (sha256_bytes (zbytes body) ≠ sha256_bytes (zbytes body') ∧ r = (false, Err IDConflict))).
Proof.
  intros [ls Hi] Hst Hf Hid Hl Hs Hb Hb' Hid'.
  destruct (next_line_inv _ _ _ Hl) as (body0 & hash & Hb0 & Hh & _ & _).
  destruct (fps_after_total w ev body Hb) as [fps Hfps].
  assert (fingerprintByID w !! event_id ev = None) as Hnone by (by destruct Hf).
  unfold AppendIdempotent at 1. rewrite bool_decide_eq_false_2, Hnone by done.
  erewrite append_no_faults; [|apply Hi|eassumption..]. simpl.
  unfold fps_after, eventFingerprint in Hfps.
  rewrite bool_decide_eq_false_2, Hb in Hfps by done. simpl in Hfps.
  injection Hfps as <-. unfold AppendIdempotent. rewrite Hid', bool_decide_eq_false_2 by done.
  simpl. rewrite lookup_insert_eq. unfold eventFingerprint. rewrite Hb'. simpl.
  case_bool_decide as Heq; simpl.
  - unfold writeAnchorIf. destruct (anchored w); simpl; eauto.
  - eauto.
Qed.

(** ** Crashes *)

(** A crash inside an append leaves what the calls before it wrote, some or
    all of what the interrupted one writes, and nothing of the later ones:
    the disk of an append in which that call fails. *)
Definition append_crash now w d ev (d' : Disk) : Prop := ∃ f, d' = (appendLocked now f ev w d).1.2.

(** What these disks look like. *)
Inductive crash_disk now w d line hash : Disk → Prop :=
| crash_before : crash_disk now w d line hash d
| crash_torn k :
    crash_disk now w d line hash
      (appendBytes (writeAnchorIf (anchored w) IoOk
          (anchorWithPending now (seq w) (head w) (Some (mkCheckpoint (seq w + 1) hash))) d).1
        (str_take k (line +:+ str1 newline)))
| crash_after :
    crash_disk now w d line hash
      (mkDisk (Some (default "" (walFile d) +:+ line +:+ str1 newline))
        (if anchored w then Some (Some (anchorCommitted now (seq w + 1) hash))
         else anchorFile d)).
Lemma str_take_all (l : string) : str_take (String.length l) l = l.
Proof. induction l as [|c l IH]; cbn; [done|by rewrite IH]. Qed.
Lemma append_crash_disk now w d ev line hash d' content :
  isOpen w = true → walFile d = Some content → next_line w ev = Some line → next_hash w ev = Some hash →
  append_crash now w d ev d' → crash_disk now w d line hash d'.
Proof.
  intros Ho Hw Hl Hh [f ->]. destruct (next_line_inv _ _ _ Hl) as (body & hash' & Hb & Hh' & _ & Hm). simplify_eq.
  destruct (fps_after_total w ev body Hb) as [fps Hfps]. unfold fps_after in Hfps.
  pose proof (crash_torn now w d line hash) as Hk. pose proof (Hk (String.length (line +:+ str1 newline))) as Hall.
  rewrite str_take_all in Hall. pose proof (Hk O) as Hnone. pose proof (crash_after now w d line hash) as Hend.
  unfold appendLocked. rewrite Ho. cbn [negb]. unfold next_hash in Hh. rewrite Hh. unfold writeAnchorIf, appendBytes in *.
  destruct (anchored w); [destruct (onPending f)|]; cbn in Hk, Hall, Hnone, Hend |- *; rewrite ?Hm;
    try apply crash_before.
  2: { rewrite Hw in Hnone |- *. cbn in Hnone. by rewrite str_app_nil_r in Hnone. }
  all: (destruct (onWrite f); [apply Hk|]); (destruct (onSync f); cbn [negb]; [|exact Hall]); rewrite Hfps; cbn;
    try (destruct (onCommit f)); assumption.
Qed.
Lemma torn_crash now w d ev line hash k : isOpen w = true → next_line w ev = Some line → next_hash w ev = Some hash →
  append_crash now w d ev
    (appendBytes (writeAnchorIf (anchored w) IoOk
        (anchorWithPending now (seq w) (head w) (Some (mkCheckpoint (seq w + 1) hash))) d).1
      (str_take k (line +:+ str1 newline))).
Proof.
  intros Ho Hl Hh. destruct (next_line_inv _ _ _ Hl) as (body & hash' & Hb & Hh' & _ & Hm). simplify_eq.
  exists (mkFaults IoOk (Some k) true IoOk). unfold appendLocked. rewrite Ho. unfold next_hash in Hh. rewrite Hh.
  cbn [negb onPending onWrite]. unfold writeAnchorIf. destruct (anchored w); cbn; by rewrite Hm.
Qed.

(** Reopening a file of whole records whose anchor (or pending checkpoint)
    names its head. *)
Lemma open_lines now anch ls n h fps d :
  walFile d = Some (join_lines ls) → Forall clean_line ls →
  verify_go genesisHash 0 ls = Ok (mkResult n h None) →
  fingerprints_go ∅ ls = Ok fps →
  (anch = true → ∃ a, readAnchor d = Ok (Some a) ∧
     anchorMatchesResult a (mkResult n h None) = true) →
  ∃ d', openWAL now IoOk anch d = (d', Ok (mkWAL true n h anch fps)) ∧
    wal_inv_lines ls (mkWAL true n h anch fps) d'.
Proof.
  intros Hf Hc Hv Hfp Ha. unfold openWAL, verifyWALPath, Verify.
  rewrite Hf, raw_lines_join, Hv by done.
  assert (∃ an, (if anch then ensureAnchor now IoOk d (mkResult n h None)
                 else (d, Ok (mkResult n h None))) =
      (mkDisk (Some (join_lines ls)) an, Ok (mkResult n h (if anch then an ≫= id else None))) ∧
      (anch = true → ∃ t, an = Some (Some (anchorCommitted t n h)))) as (an & He & Han).
  { destruct anch; [|exists (anchorFile d); split; [destruct d; by simplify_eq/=|done]].
    destruct (Ha eq_refl) as (a & Hr & Hm). unfold ensureAnchor. rewrite Hr.
    unfold anchorMatchesResult in Hm. simpl in *.
    destruct ((Count a =? n) && (Head a =?? h)) eqn:Em.
    - destruct (Pending a) as [p|] eqn:Ep; simpl.
      + exists (Some (Some (anchorCommitted now n h))). rewrite Hf. eauto.
      + exists (anchorFile d). unfold readAnchor in Hr. destruct d as [wf af]; simpl in *.
        destruct af as [[a'|]|]; [|done|done]. ok_inv. subst. split; [by destruct a|].
        intros _. exists (UpdatedAt a). destruct a; simpl in *. go_bool. simplify_eq.
        destruct_and!. by subst.
    - rewrite Hm. simpl. exists (Some (Some (anchorCommitted now n h))). rewrite Hf. eauto. }
  rewrite He. cbn [walFile anchorFile default]. unfold readWALFingerprints. simpl.
  rewrite raw_lines_join, Hfp by done. eexists. split; [done|]. by split.
Qed.

Lemma inv_readAnchor ls w d :
  wal_inv_lines ls w d → anchored w = true →
  ∃ t, readAnchor d = Ok (Some (anchorCommitted t (seq w) (head w))).
Proof.
  intros Hi Ha. destruct (inv_anchor _ _ _ Hi Ha) as [t Ht]. exists t.
  unfold readAnchor. rewrite Ht. simpl.
  pose proof (inv_seq_nonneg _ _ _ Hi). pose proof (inv_head_nonempty _ _ _ Hi).
  rewrite bool_decide_eq_false_2 by done.
  by assert (seq w <? 0 = false) as -> by (apply Z.ltb_ge; lia).
Qed.

Lemma anchor_self_match t n h p :
  anchorMatchesResult (mkAnchor anchorVersion n h p t) (mkResult n h None) = true.
Proof. unfold anchorMatchesResult. simpl. by rewrite Z.eqb_refl, bool_decide_eq_true_2. Qed.

Lemma anchor_pending_match t n h n' h' :
  anchorMatchesResult (anchorWithPending t n h (Some (mkCheckpoint n' h'))) (mkResult n' h' None) = true.
Proof.
  unfold anchorMatchesResult. simpl. destruct (_ && _); [done|].
  by rewrite Z.eqb_refl, bool_decide_eq_true_2.
Qed.

Lemma read_pending_anchor t n h n' h' wf :
  0 <= n → h ≠ "" → 0 <= n' → h' ≠ "" →
  readAnchor (mkDisk wf (Some (Some (anchorWithPending t n h (Some (mkCheckpoint n' h'))))))
  = Ok (Some (anchorWithPending t n h (Some (mkCheckpoint n' h')))).
Proof.
  intros ? ? ? ?. unfold readAnchor. simpl. rewrite !bool_decide_eq_false_2 by done.
  assert (n <? 0 = false) as -> by (apply Z.ltb_ge; lia).
  by assert (n' <? 0 = false) as -> by (apply Z.ltb_ge; lia).
Qed.

Lemma next_hash_nonempty w ev hash : next_hash w ev = Some hash → hash ≠ "".
Proof.
  unfold next_hash, ChainHash. intros (body & _ & [= <-])%bind_Some E.
  pose proof (length_sha256_hex (chain_input (head w) (seq w + 1) body)) as Hlen.
  by rewrite E in Hlen.
Qed.

(** The record is in the file exactly as written, or not at all. *)
Definition record_atomic d line d' : Prop :=
  walFile d' = walFile d ∨ walFile d' = Some (default "" (walFile d) +:+ line +:+ str1 newline).

(** The anchor a crash leaves accepts both the old and the new head it is
    paired with. *)
Lemma crash_anchor ls now w d line hash d' :
  wal_inv_lines ls w d → hash ≠ "" → anchored w = true →
  crash_disk now w d line hash d' →
  (walFile d' = walFile d → ∃ a, readAnchor d' = Ok (Some a) ∧
     anchorMatchesResult a (mkResult (seq w) (head w) None) = true) ∧
  (walFile d' ≠ walFile d → ∃ a, readAnchor d' = Ok (Some a) ∧
     anchorMatchesResult a (mkResult (seq w + 1) hash None) = true).
Proof.
  intros Hi Hne Ha Hc. pose proof (inv_seq_nonneg _ _ _ Hi) as Hn.
  pose proof (inv_head_nonempty _ _ _ Hi) as Hh.
  destruct Hc as [|k|].
  - destruct (inv_readAnchor _ _ _ Hi Ha) as [t Ht]. split; [|done]. intros _.
    eexists. split; [exact Ht|]. apply anchor_self_match.
  - unfold writeAnchorIf. rewrite Ha. cbn [writeAnchor fst appendBytes walFile anchorFile].
    split; intros _; eexists; (split; [by apply read_pending_anchor; [..|lia|]|]).
    + apply anchor_self_match.
    + apply anchor_pending_match.
  - rewrite Ha. simpl. split; intros Heq.
    + exfalso. rewrite (inv_file _ _ _ Hi) in Heq. simpl in Heq. injection Heq as Heq.
      apply (f_equal String.length) in Heq. rewrite !str_length_app in Heq. simpl in Heq. lia.
    + exists (anchorCommitted now (seq w + 1) hash). split; [|apply anchor_self_match].
      unfold readAnchor. simpl. rewrite bool_decide_eq_false_2 by done.
      by assert (seq w + 1 <? 0 = false) as -> by (apply Z.ltb_ge; lia).
Qed.

(** C27. Crash atomicity: whatever system call of an append a crash
    interrupts, as long as the record reached the file whole or not at all,
    reopening the log succeeds, reconciles the anchor and yields a log that
    satisfies the invariant with either the old chain or the chain extended
    by the new record.  The event is one that decodes to the same encoding,
    its id is not in the log yet and its line fits the scanner. *)
Theorem crash_recovery now now' w d ev line hash d' :
  wal_inv w d → stable ev → fresh_id w ev →
  next_line w ev = Some line → next_hash w ev = Some hash → too_long line = false →
  append_crash now w d ev d' → record_atomic d line d' →
  ∃ w' d'', openWAL now' IoOk (anchored w) d' = (d'', Ok w') ∧ wal_inv w' d'' ∧
    (HeadOf w' = HeadOf w ∨ HeadOf w' = (hash, seq w + 1)).
Proof.
  intros [ls Hi] Hst Hf Hl Hh Hs Hcr Hat.
  pose proof (append_crash_disk now w d ev line hash d' _ (inv_open _ _ _ Hi) (inv_file _ _ _ Hi) Hl Hh Hcr) as Hc.
  destruct (next_line_inv _ _ _ Hl) as (body & hash' & Hb & Hh' & Heq & _). simplify_eq.
  destruct (fps_after_total w ev body Hb) as [fps Hfps].
  set (hash := sha256_hex (chain_input (head w) (seq w + 1) body)) in *.
  assert (hash ≠ "") as Hne by (by eapply next_hash_nonempty).
  destruct (decide (walFile d' = walFile d)) as [Hsame|Hdiff].
  - destruct (open_lines now' (anchored w) ls (seq w) (head w) (fingerprintByID w) d')
      as (d'' & Ho & Hi'); [by rewrite Hsame; apply Hi|apply Hi..| |].
    + intros Ha. by apply (crash_anchor ls now w d line hash d').
    + eexists _, d''. split; [done|]. split; [by eexists|]. by left.
  - destruct Hat as [?|Hat]; [done|].
    destruct (open_lines now' (anchored w) (ls ++ [line]) (seq w + 1) hash fps d')
      as (d'' & Ho & Hi').
    + rewrite Hat, (inv_file _ _ _ Hi). simpl. by rewrite join_lines_snoc.
    + apply Forall_app. split; [apply Hi|]. constructor; [|done]. by eapply next_line_clean.
    + by eapply scan_extended.
    + by eapply fingerprints_extended.
    + intros Ha. by apply (crash_anchor ls now w d line hash d').
    + eexists _, d''. split; [done|]. split; [by eexists|]. by right.
Qed.

(** ** Interrupted and retried writes *)

Lemma writeAnchorIf_walFile b o a d : walFile (writeAnchorIf b o a d).1 = walFile d.
Proof. unfold writeAnchorIf. by destruct b, o. Qed.

Lemma verify_tail ls w d tail :
  wal_inv_lines ls w d → newline ∉ bytes_of tail → tail ≠ "" →
  walFile d = Some (join_lines ls) →
  Verify (join_lines ls +:+ tail) = verify_go (head w) (seq w) [tail].
Proof.
  intros Hi Hn Hne Hf. unfold Verify. rewrite raw_lines_join_tail; [|apply Hi|done|done].
  rewrite verify_go_app, (inv_chain _ _ _ Hi). done.
Qed.

Lemma str_take_printable k l :
  (∀ c, c ∈ bytes_of l → 32 <= code c) → ∀ c, c ∈ bytes_of (str_take k l) → 32 <= code c.
Proof.
  intros Hl c Hc. apply Hl. rewrite <- (str_take_drop k l), bytes_of_app, elem_of_app. by left.
Qed.

Lemma length_str_take k l : String.length (str_take k l) = Nat.min k (String.length l).
Proof. revert l. induction k; intros [|c l]; simpl; auto. Qed.

Lemma str_take_app_le k l t : (k <= String.length l)%nat → str_take k (l +:+ t) = str_take k l.
Proof.
  revert l. induction k as [|k IH]; intros [|c l] Hk; cbn in *; [done|done|lia|].
  change (String c l +:+ t) with (String c (l +:+ t)). cbn. rewrite IH by lia. done.
Qed.

Lemma too_long_take k l : too_long l = false → too_long (str_take k l) = false.
Proof. unfold too_long. rewrite !Z.leb_gt, length_str_take. lia. Qed.

(** A crash that leaves part of a record in the file is not reconciled:
    with any number of the line's bytes short of the whole line, reopening
    the log fails with a malformed-record error. *)
Theorem torn_record_refuses_open now now' w d ev line hash k :
  wal_inv w d → next_line w ev = Some line → next_hash w ev = Some hash →
  too_long line = false → (0 < k < String.length line)%nat →
  ∃ d', append_crash now w d ev d' ∧
    walFile d' = Some (default "" (walFile d) +:+ str_take k line) ∧
    (openWAL now' IoOk (anchored w) d').2 = Err (Malformed (seq w + 1)).
Proof.
  intros [ls Hi] Hl Hh Hs Hk. eexists. split; [apply (torn_crash now w d ev line hash k); [apply Hi|done|done]|].
  rewrite str_take_app_le by lia.
  destruct (next_line_inv _ _ _ Hl) as (? & ? & _ & _ & _ & Hm).
  pose proof (entry_line_clean _ _ Hm) as [_ Hc].
  pose proof (str_take_printable k _ Hc) as Hc'.
  assert (str_take k line ≠ "") as Hne.
  { intros E. pose proof (length_str_take k line) as Hlen. rewrite E in Hlen. simpl in Hlen. lia. }
  unfold appendBytes, openWAL, verifyWALPath. cbn [walFile]. rewrite writeAnchorIf_walFile.
  split; [done|].
  rewrite (inv_file _ _ _ Hi). cbn [from_option id].
  erewrite verify_tail; [|done|by apply clean_line_no_newline|done|apply Hi].
  cbn [verify_go]. rewrite too_long_take, clean_line_dropCR by done.
  rewrite bool_decide_eq_false_2 by done.
  by erewrite entry_prefix_malformed.
Qed.

(** Reopening a file whose last record lost its newline: the scanner still
    returns that record, so the log opens on the extended chain. *)
Lemma open_unterminated ls now' w d ev line hash fps d' :
  wal_inv_lines ls w d → stable ev → fresh_id w ev →
  next_line w ev = Some line → next_hash w ev = Some hash → too_long line = false →
  fps_after w ev = Some fps → walFile d' = Some (join_lines ls +:+ line) →
  (anchored w = true → ∃ a, readAnchor d' = Ok (Some a) ∧
     anchorMatchesResult a (mkResult (seq w + 1) hash None) = true) →
  ∃ d'', openWAL now' IoOk (anchored w) d' =
    (d'', Ok (mkWAL true (seq w + 1) hash (anchored w) fps)) ∧
    walFile d'' = Some (join_lines ls +:+ line).
Proof.
  intros Hi Hst Hf Hl Hh Hs Hfps Hfile Hanc.
  pose proof (next_line_clean _ _ _ Hl Hs) as (Hne & Hc & _).
  assert (raw_lines (join_lines ls +:+ line) = ls ++ [line]) as Hraw.
  { apply raw_lines_join_tail; [apply Hi|by apply clean_line_no_newline|done]. }
  assert (∀ an, readWALFingerprints (mkDisk (Some (join_lines ls +:+ line)) an) = Ok fps) as Hfp.
  { intros an. unfold readWALFingerprints. simpl. rewrite Hraw.
    by eapply fingerprints_extended. }
  unfold openWAL, verifyWALPath, Verify. rewrite Hfile, Hraw.
  erewrite scan_extended by eassumption.
  destruct (anchored w) eqn:Ha.
  - destruct (Hanc eq_refl) as (a & Hr & Hma).
    unfold ensureAnchor. rewrite Hr. unfold anchorMatchesResult in Hma. simpl in Hma.
    cbn [resCount resHead]. destruct ((Count a =? seq w + 1) && (Head a =?? hash));
      [destruct (Pending a)|rewrite Hma]; cbn [writeAnchor walFile anchorFile resCount resHead];
      rewrite Hfile; cbn [from_option id walFile anchorFile]; rewrite Hfp; eauto.
  - rewrite Hfile. cbn [from_option id]. rewrite Hfp. eauto.
Qed.

(** Two records on one line do not scan. *)
Lemma verify_joined_records ls w d e e2 line line2 :
  wal_inv_lines ls w d → marshal_entry e = Some line → marshal_entry e2 = Some line2 →
  too_long (line +:+ line2) = false →
  Verify ((join_lines ls +:+ line) +:+ line2 +:+ str1 newline) = Err (Malformed (seq w + 1)).
Proof.
  intros Hi Hm Hm2 Hs2. unfold Verify.
  pose proof (entry_line_clean _ _ Hm) as [Hne Hc].
  pose proof (entry_line_clean _ _ Hm2) as [Hne2 Hc2].
  assert (∀ c, c ∈ bytes_of (line +:+ line2) → 32 <= code c) as Hc12.
  { intros c. rewrite bytes_of_app, elem_of_app. naive_solver. }
  assert (line +:+ line2 ≠ "") as Hne12 by (by destruct line).
  replace ((join_lines ls +:+ line) +:+ line2 +:+ str1 newline)
    with (join_lines (ls ++ [line +:+ line2]))
    by (rewrite <- join_lines_snoc; by rewrite !str_app_assoc).
  rewrite raw_lines_join, verify_go_app, (inv_chain _ _ _ Hi).
  2:{ apply Forall_app. split; [apply Hi|]. by repeat constructor. }
  cbn [mbind res_bind resHead resCount verify_go]. rewrite Hs2, clean_line_dropCR by done.
  rewrite bool_decide_eq_false_2 by done. by erewrite entry_concat_malformed.
Qed.

(** A crash that loses only a record's final newline is accepted by the
    reopen, but the next successful append then lands on the same line and
    the log no longer verifies. *)
Theorem lost_newline_breaks_chain now now' now'' w d ev line hash :
  wal_inv w d → stable ev → fresh_id w ev →
  next_line w ev = Some line → next_hash w ev = Some hash → too_long line = false →
  ∃ d' w' d'', append_crash now w d ev d' ∧
    openWAL now' IoOk (anchored w) d' = (d'', Ok w') ∧
    ∀ ev2 line2, next_line w' ev2 = Some line2 → too_long (line +:+ line2) = false →
      let '(_, d3, r) := Append now'' no_faults ev2 w' d'' in
      r = Ok tt ∧ verifyWALPath d3 = Err (Malformed (seq w + 1)).
Proof.
  intros [ls Hi] Hst Hf Hl Hh Hs.
  destruct (next_line_inv _ _ _ Hl) as (body & hash' & Hb & Hh' & _ & Hm). simplify_eq.
  destruct (fps_after_total w ev body Hb) as [fps Hfps].
  pose proof (entry_line_clean _ _ Hm) as [Hne _].
  pose proof (crash_torn now w d line hash (String.length line)) as Hdisk.
  pose proof (torn_crash now w d ev line hash (String.length line) (inv_open _ _ _ Hi) Hl Hh) as Hcrash.
  rewrite str_take_app in Hcrash, Hdisk. set (d' := appendBytes _ line) in Hcrash, Hdisk.
  assert (walFile d' = Some (join_lines ls +:+ line)) as Hfile.
  { unfold d', appendBytes. cbn [walFile]. by rewrite writeAnchorIf_walFile, (inv_file _ _ _ Hi). }
  clearbody d'.
  destruct (open_unterminated ls now' w d ev line hash fps d') as (d'' & Ho & Hfile');
    [done..| |].
  { intros Ha. apply (crash_anchor ls now w d line hash d'); eauto using next_hash_nonempty.
    rewrite Hfile, (inv_file _ _ _ Hi). intros [= E]. apply (f_equal String.length) in E.
    rewrite str_length_app in E. destruct line; [done|]. simpl in E. lia. }
  eexists d', _, d''. split; [done|]. split; [done|]. intros ev2 line2 Hl2 Hs2.
  destruct (next_line_inv _ _ _ Hl2) as (body2 & hash2 & Hb2 & Hh2 & _ & Hm2).
  destruct (fps_after_total (mkWAL true (seq w + 1) hash (anchored w) fps) ev2 body2 Hb2) as [fps2 Hfps2].
  unfold Append. erewrite append_no_faults by (done || eassumption).
  cbn [after_append]. split; [done|].
  unfold verifyWALPath. cbn [walFile]. rewrite Hfile'. cbn [from_option id].
  by eapply verify_joined_records.
Qed.

(** When the sync after a record's write fails, the record stays in the
    file but the in-memory sequence number does not move: the next append
    succeeds, reuses the number, and the log no longer verifies. *)
Theorem failed_sync_breaks_chain now now' w d ev ev2 line line2 :
  wal_inv w d → stable ev → next_line w ev = Some line → next_line w ev2 = Some line2 →
  too_long line = false → too_long line2 = false →
  let '(w1, d1, r1) := Append now (mkFaults IoOk None false IoOk) ev w d in
  let '(_, d2, r2) := Append now' no_faults ev2 w1 d1 in
  r1 = Err SyncFailed ∧ w1 = w ∧ r2 = Ok tt ∧
  verifyWALPath d2 = Err (OutOfOrder (seq w + 2)).
Proof.
  intros [ls Hi] Hst Hl Hl2 Hs Hs2.
  destruct (next_line_inv _ _ _ Hl) as (body & hash & Hb & Hh & _ & Hm).
  destruct (next_line_inv _ _ _ Hl2) as (body2 & hash2 & Hb2 & Hh2 & _ & Hm2).
  destruct (fps_after_total w ev2 body2 Hb2) as [fps2 Hfps2].
  assert (∃ an, Append now (mkFaults IoOk None false IoOk) ev w d =
    (w, mkDisk (Some (default "" (walFile d) +:+ line +:+ str1 newline)) an, Err SyncFailed))
    as [an Hap].
  { unfold Append, appendLocked. rewrite (inv_open _ _ _ Hi). simpl. unfold next_hash in Hh.
    rewrite Hh. unfold writeAnchorIf. destruct (anchored w); simpl; rewrite Hm; eauto. }
  rewrite Hap. unfold Append. erewrite append_no_faults; [|apply Hi|eassumption..].
  cbn [after_append]. split_and!; [done..|].
  unfold verifyWALPath, Verify. cbn [walFile from_option id]. rewrite (inv_file _ _ _ Hi). cbn [from_option id].
  rewrite join_lines_snoc, join_lines_snoc, raw_lines_join.
  2:{ rewrite !Forall_app, !Forall_singleton. split_and!; [apply Hi|..];
        by eapply next_line_clean. }
  rewrite verify_go_app. erewrite scan_extended by eassumption.
  cbn [mbind res_bind resHead resCount verify_go].
  pose proof (next_line_clean _ _ _ Hl2 Hs2) as (Hne2 & Hc2 & _).
  rewrite Hs2, clean_line_dropCR by done. rewrite bool_decide_eq_false_2 by done.
  erewrite next_line_decode by eauto using inv_head_printable. cbn [Seq].
  replace (seq w + 1 =? seq w + 1 + 1) with false by (symmetry; apply Z.eqb_neq; lia).
  simpl. f_equal. f_equal. lia.
Qed.
(** Verification off the lock: capture the file's length and the anchor
    while the log is quiescent.  Whatever is written after the capture,
    whole records, torn ones or garbage, and whatever happens to the anchor
    file, verifying the captured prefix against the captured anchor accepts
    and reports the captured head. *)
Theorem prefix_verification_stable w d content more anchorNow :
  wal_inv w d → walFile d = Some content →
  ∀ a, readAnchor d = Ok (Some a) ∨ anchored w = false →
  let '(r, err) := VerifyPrefixAgainstAnchor (mkDisk (Some (content +:+ more)) anchorNow)
                     (String.length content) a (anchored w) in
  err = None ∧ resCount r = seq w ∧ resHead r = head w.
Proof.
  intros [ls Hi] Hf a Ha. pose proof (verifyWALPath_inv _ _ _ Hi) as Hv.
  unfold verifyWALPath in Hv. rewrite Hf in Hv.
  unfold VerifyPrefixAgainstAnchor. cbn [walFile]. rewrite str_take_app, Hv.
  destruct (anchored w) eqn:Eb; [|done]. destruct Ha as [Ha|]; [|done].
  destruct (inv_readAnchor _ _ _ Hi Eb) as [t Ht].
  rewrite Ht in Ha. injection Ha as <-.
  unfold againstAnchor, anchorMatchesResult. simpl.
  by rewrite Z.eqb_refl, bool_decide_eq_true_2.
Qed.

(** ** Tamper evidence *)

(** The records a scan of the raw lines decodes. *)
Definition records (lines : list string) : list (Entry Event) :=
  omap (fun raw => if dropCR raw =?? "" then None else unmarshal_entry (dropCR raw)) lines.

(** A hash chain from the genesis value. *)
Inductive chained : list (Entry Event) → string → Z → Prop :=
| chained_nil : chained [] genesisHash 0
| chained_snoc es prev n e body :
    chained es prev n → Seq e = n + 1 → PrevHash e = prev →
    marshal_event (EventOf e) = Some body →
    Hash e = sha256_hex (chain_input prev (n + 1) body) →
    chained (es ++ [e]) (Hash e) (n + 1).

Lemma chained_head es h n :
  chained es h n → printable h ∧ 0 <= n ∧ n = Z.of_nat (length es).
Proof.
  induction 1 as [|es prev n e body _ (_ & Hn & Hlen) _ _ _ ->].
  - split; [apply genesis_printable|done].
  - split; [apply sha256_hex_printable|]. rewrite length_app. simpl. lia.
Qed.

Lemma verify_chained es prev n ls r :
  chained es prev n → verify_go prev n ls = Ok r →
  chained (es ++ records ls) (resHead r) (resCount r).
Proof.
  revert es prev n. induction ls as [|l ls IH]; intros es prev n Hc; cbn.
  - intros [= <-]. by rewrite app_nil_r.
  - destruct (too_long l); [done|]. destruct (dropCR l =?? ""); [by apply IH|].
    destruct (unmarshal_entry _) as [e|]; [|done].
    destruct (ChainHash _ _ _) as [h|] eqn:Eh; [|intros; ok_inv; done].
    intros. ok_inv. go_bool. apply bind_Some in Eh as (body & Hb & [= <-]).
    rewrite cons_middle, app_assoc. eapply IH; [|eassumption].
    eapply chained_snoc; eauto. congruence.
Qed.

Definition same_record (e e' : Entry Event) : Prop :=
  Seq e = Seq e' ∧ PrevHash e = PrevHash e' ∧ Hash e = Hash e' ∧
  marshal_event (EventOf e) = marshal_event (EventOf e').

(** The strings a chain's hashes are the digests of. *)
Definition hash_inputs (es : list (Entry Event)) : list string :=
  omap (fun e => body ← marshal_event (EventOf e);
                 Some (chain_input (PrevHash e) (Seq e) body)) es.
Definition collision (es es' : list (Entry Event)) : Prop :=
  ∃ x y, x ∈ hash_inputs es ∧ y ∈ hash_inputs es' ∧ x ≠ y ∧ sha256_hex x = sha256_hex y.

Lemma dec_of_Z_pos_no_newline n : 0 <= n → newline ∉ bytes_of (dec_of_Z n).
Proof.
  intros Hn Hin. assert (dec_of_Z n = dec_of_N (Z.to_N n)) as E by (by destruct n).
  rewrite E in Hin. apply dec_of_N_digit in Hin. vm_compute in Hin. done.
Qed.

Lemma chain_input_inj p n b p' n' b' :
  printable p → printable p' → 0 <= n → 0 <= n' →
  chain_input p n b = chain_input p' n' b' → p = p' ∧ n = n' ∧ b = b'.
Proof.
  intros Hp Hp' Hn Hn' [-> H]%sep_inj; [|by apply printable_no_newline..].
  apply sep_inj in H as [H ->]; [|by apply dec_of_Z_pos_no_newline..].
  split_and!; [done| |done].
  assert (∀ z, 0 <= z → dec_of_Z z = dec_of_N (Z.to_N z)) as E by (by intros []).
  rewrite !E in H by done. apply (inj dec_of_N) in H. lia.
Qed.

Lemma collision_app es es' e e' : collision es es' → collision (es ++ [e]) (es' ++ [e']).
Proof.
  intros (x & y & Hx & Hy & ?). exists x, y. unfold hash_inputs in *.
  rewrite !omap_app, !elem_of_app. eauto.
Qed.

Lemma hash_inputs_snoc es e body :
  marshal_event (EventOf e) = Some body →
  chain_input (PrevHash e) (Seq e) body ∈ hash_inputs (es ++ [e]).
Proof.
  intros Hb. unfold hash_inputs. rewrite omap_app, elem_of_app. right.
  apply list_elem_of_omap. exists e. rewrite Hb. split; [left|done].
Qed.

Lemma genesis_not_hash x : genesisHash ≠ sha256_hex x.
Proof. intros E. pose proof (length_sha256_hex x) as H. by rewrite <- E in H. Qed.

Lemma same_head_same_records es es' h n n' :
  chained es h n → chained es' h n' → Forall2 same_record es es' ∨ collision es es'.
Proof.
  intros H. revert es' n'. induction H as [|es prev n e body Hc IH Hs Hp Hb Hh]; intros es' n' H'.
  - inversion H' as [|es2 p2 n2 e2 b2 ? ? ? ? Hh2]; subst; [by left; constructor|].
    exfalso. eapply genesis_not_hash. rewrite <- Hh2. symmetry. eassumption.
  - remember (Hash e) as he eqn:Ee. destruct H' as [|es2 p2 n2 e2 b2 Hc2 Hs2 Hp2 Hb2 Hh2].
    { exfalso. by eapply genesis_not_hash. }
    pose proof (chained_head _ _ _ Hc) as (Hpr & Hn & _).
    pose proof (chained_head _ _ _ Hc2) as (Hpr2 & Hn2 & _).
    destruct (decide (chain_input prev (n + 1) body = chain_input p2 (n2 + 1) b2)) as [E|E].
    + apply chain_input_inj in E as (-> & E & ->); [|done..|lia|lia].
      assert (n = n2) as -> by lia. rewrite <- Hp in Hc2.
      destruct (IH es2 n2) as [IH'|IH']; [by rewrite <- Hp|left|right; by apply collision_app].
      apply Forall2_app; [done|]. constructor; [|done].
      unfold same_record. rewrite Hs, Hs2, Hb, Hb2. split_and!; congruence.
    + right. eexists _, _. split_and!; [by eapply hash_inputs_snoc..| |]; subst; [by rewrite Hs, Hs2|].
      rewrite Hs, Hs2. congruence.
Qed.

(** C3. Tamper evidence: replace the log file of an anchored log by any other
    content (records edited, dropped, reordered, truncated or appended) and
    leave the anchor as it is.  If the anchored verification still accepts,
    the file decodes to the same records (numbers, links, hashes and encoded
    events), or the two files exhibit a SHA-256 collision between two of
    their own chain inputs. *)
Theorem tamper_evident w d content :
  wal_inv w d → anchored w = true →
  (VerifyAnchoredFile (mkDisk (Some content) (anchorFile d)) true).2 = None →
  let old := records (raw_lines (default "" (walFile d))) in
  let new := records (raw_lines content) in
  Forall2 same_record old new ∨ collision old new.
Proof.
  intros [ls Hi] Ha Hv. destruct (inv_readAnchor _ _ _ Hi Ha) as [t Ht].
  rewrite (inv_file _ _ _ Hi). cbn [from_option id]. rewrite raw_lines_join by apply Hi.
  unfold VerifyAnchoredFile, verifyWALPath in Hv. cbn [walFile] in Hv.
  destruct (Verify content) as [r|] eqn:Er; [|done]. cbn [negb] in Hv.
  change (readAnchor (mkDisk (Some content) (anchorFile d))) with (readAnchor d) in Hv.
  rewrite Ht in Hv. unfold againstAnchor, anchorMatchesResult in Hv. cbn in Hv.
  destruct ((seq w =? resCount r) && (head w =?? resHead r)) eqn:E; [|done]. go_bool.
  destruct E as [E1 E2]. pose proof (inv_chain _ _ _ Hi) as Hc.
  apply (verify_chained [] _ _ _ _ chained_nil) in Hc, Er. cbn [app resHead resCount] in *.
  eapply same_head_same_records; [exact Hc|]. rewrite E2. exact Er.
Qed.

End Theory.

(** ** A concrete codec

    Events are an id and a payload; an entry is written as a number in braces.
    It satisfies the laws, so the theorems apply to it. *)

Module Sample.
Definition Event : Type := string * string.

Definition braces (p : positive) : string := "{" +:+ dec_of_N (Npos p) +:+ "}".
Definition unbrace (s : string) : option positive :=
  match s with
  | String _ r =>
    match dec_value_go 0 (str_take (String.length r - 1) r) with
    | Npos p => if braces p =?? s then Some p else None
    | N0 => None
    end
  | "" => None
  end.

Definition flat (e : Entry Event) : Z * string * string * Event :=
  (Seq e, PrevHash e, Hash e, EventOf e).
Definition unflat (t : Z * string * string * Event) : Entry Event :=
  let '(s, p, h, ev) := t in mkEntry s p h ev.

#[export] Instance codec : AuditCodec Event := {
  event_id := fst;
  marshal_event ev := Some (braces (encode ev));
  marshal_entry e := Some (braces (encode (flat e)));
  unmarshal_entry s := p ← unbrace s; unflat <$> decode p;
  reread ev := ev;
}.

Lemma unbrace_braces p : unbrace (braces p) = Some p.
Proof.
  unfold unbrace, braces. change ("{" +:+ dec_of_N (N.pos p) +:+ "}") with
    (String "{" (dec_of_N (N.pos p) +:+ "}")). cbv iota.
  rewrite str_length_app. cbn [String.length].
  replace (_ + 1 - 1)%nat with (String.length (dec_of_N (N.pos p))) by lia.
  rewrite str_take_app, dec_value_of_N. by rewrite bool_decide_eq_true_2.
Qed.

Lemma unbrace_Some s p : unbrace s = Some p → s = braces p.
Proof.
  unfold unbrace. destruct s; [done|]. destruct (dec_value_go _ _); [done|].
  case_bool_decide; naive_solver.
Qed.

Lemma brace_free p : "}"%char ∉ bytes_of ("{" +:+ dec_of_N (Npos p)).
Proof.
  rewrite bytes_of_app, elem_of_app. intros [H|H].
  - apply list_elem_of_singleton in H. done.
  - apply dec_of_N_digit in H. done.
Qed.

(** Nothing can follow the closing brace. *)
Lemma braces_prefix p q t : braces p +:+ t = braces q → t = "".
Proof.
  unfold braces. rewrite <- !str_app_assoc. rewrite str_app_assoc.
  intros [_ H]%(sep_inj "}"%char); [done|apply brace_free..].
Qed.

Lemma braces_clean p : braces p ≠ "" ∧ ∀ c, c ∈ bytes_of (braces p) → 32 <= code c.
Proof.
  split; [done|]. intros c. unfold braces. rewrite !bytes_of_app, !elem_of_app.
  intros [H|[H|H]].
  - apply list_elem_of_singleton in H. by subst.
  - apply dec_of_N_digit in H. unfold is_digit, in_range in H. apply andb_true_iff in H as [H _].
    apply Z.leb_le in H. change (code "0") with 48 in H. lia.
  - apply list_elem_of_singleton in H. by subst.
Qed.

#[export] Instance laws : AuditCodecLaws Event.
Proof.
  split.
  - intros. simpl. eauto.
  - intros e line [= <-]. apply braces_clean.
  - intros e line [= <-] _ _. unfold unmarshal_entry, codec. rewrite unbrace_braces.
    cbn [mbind option_bind]. rewrite decode_encode. by destruct e.
  - intros e line k [= <-] Hk. unfold unmarshal_entry, codec.
    destruct (unbrace _) as [p|] eqn:E; [|done]. apply unbrace_Some in E.
    pose proof (str_take_drop k (braces (encode (flat e)))) as H. rewrite E in H.
    apply braces_prefix in H. pose proof (f_equal String.length
      (str_take_drop k (braces (encode (flat e))))) as Hl.
    rewrite H, str_app_nil_r, length_str_take in Hl. lia.
  - intros e e' line line' [= <-] [= <-]. unfold unmarshal_entry, codec.
    destruct (unbrace _) as [p|] eqn:E; [|done]. apply unbrace_Some, braces_prefix in E. done.
Qed.

(** An empty anchored log and its files, and two events. *)
Definition w0 : WAL := mkWAL true 0 genesisHash true ∅.
Definition d0 : Disk := mkDisk (Some "") (Some (Some (anchorCommitted 0 0 genesisHash))).
Definition ev1 : Event := ("a1", "login").
Definition ev2 : Event := ("a2", "logout").
Definition line1 : string := default "" (next_line w0 ev1).
Definition line2 : string := default "" (next_line w0 ev2).
Definition hash1 : string := default "" (next_hash w0 ev1).

Lemma inv0 : wal_inv w0 d0.
Proof. exists []. split; try done. eauto. Qed.
Lemma fresh1 : fresh_id w0 ev1.
Proof. by right. Qed.
Lemma short1 : too_long line1 = false.
Proof. vm_compute. reflexivity. Qed.
Lemma short2 : too_long line2 = false.
Proof. vm_compute. reflexivity. Qed.
Lemma stable_all (ev : Event) : stable ev.
Proof. done. Qed.
End Sample.
Import (hints) Sample.

Lemma append_preserves_invariant_witness :
  let '(w', d', r) := Append 7 no_faults Sample.ev1 Sample.w0 Sample.d0 in
  r = Ok tt ∧ wal_inv w' d' ∧ seq w' = seq Sample.w0 + 1 ∧
  (VerifyAnchoredFile d' (anchored w')).2 = None.
Proof.
  exact (append_preserves_invariant 7 Sample.w0 Sample.d0 Sample.ev1 Sample.line1
    Sample.inv0 (Sample.stable_all _) Sample.fresh1 eq_refl Sample.short1).
Defined.

Lemma append_idempotent_witness :
  let '(w1, d1, _) := AppendIdempotent 7 no_faults Sample.ev1 Sample.w0 Sample.d0 in
  let '(w2, d2, r) := AppendIdempotent 8 no_faults ("a1", "other") w1 d1 in
  w2 = w1 ∧ walFile d2 = walFile d1 ∧
  ((sha256_bytes (zbytes (Sample.braces (encode Sample.ev1))) =
      sha256_bytes (zbytes (Sample.braces (encode ("a1", "other")))) ∧ r = (false, Ok tt)) ∨
   (sha256_bytes (zbytes (Sample.braces (encode Sample.ev1))) ≠
      sha256_bytes (zbytes (Sample.braces (encode ("a1", "other")))) ∧ r = (false, Err IDConflict))).
Proof.
  exact (append_idempotent 7 8 Sample.w0 Sample.d0 Sample.ev1 ("a1", "other") Sample.line1 _ _
    Sample.inv0 (Sample.stable_all _) Sample.fresh1 ltac:(done) eq_refl Sample.short1
    eq_refl eq_refl eq_refl).
Defined.

(** A crash after the record was written and before the committed anchor. *)
Definition crashed : Disk := (appendLocked 7 (mkFaults IoOk None false IoOk) Sample.ev1 Sample.w0 Sample.d0).1.2.
Lemma crash_recovery_witness :
  walFile crashed ≠ walFile Sample.d0 ∧
  ∃ w' d'', openWAL 9 IoOk true crashed = (d'', Ok w') ∧ wal_inv w' d'' ∧
    (HeadOf w' = HeadOf Sample.w0 ∨ HeadOf w' = (Sample.hash1, seq Sample.w0 + 1)).
Proof.
  split; [by intros H; vm_compute in H|].
  apply (crash_recovery 7 9 Sample.w0 Sample.d0 Sample.ev1 Sample.line1 Sample.hash1 crashed
    Sample.inv0 (Sample.stable_all _) Sample.fresh1 eq_refl eq_refl Sample.short1).
  - by exists (mkFaults IoOk None false IoOk).
  - right. vm_compute. reflexivity.
Defined.

Lemma torn_record_refuses_open_witness :
  ∃ d', append_crash 7 Sample.w0 Sample.d0 Sample.ev1 d' ∧
    walFile d' = Some (default "" (walFile Sample.d0) +:+ str_take 5 Sample.line1) ∧
    (openWAL 9 IoOk (anchored Sample.w0) d').2 = Err (Malformed (seq Sample.w0 + 1)).
Proof.
  apply (torn_record_refuses_open 7 9 Sample.w0 Sample.d0 Sample.ev1 Sample.line1 Sample.hash1 5
    Sample.inv0 eq_refl eq_refl Sample.short1).
  apply (bool_decide_unpack _). vm_compute. exact I.
Defined.

Lemma lost_newline_breaks_chain_witness :
  ∃ d' w' d'', append_crash 7 Sample.w0 Sample.d0 Sample.ev1 d' ∧
    openWAL 9 IoOk (anchored Sample.w0) d' = (d'', Ok w') ∧
    ∀ ev2 line2, next_line w' ev2 = Some line2 → too_long (Sample.line1 +:+ line2) = false →
      let '(_, d3, r) := Append 10 no_faults ev2 w' d'' in
      r = Ok tt ∧ verifyWALPath d3 = Err (Malformed (seq Sample.w0 + 1)).
Proof.
  exact (lost_newline_breaks_chain 7 9 10 Sample.w0 Sample.d0 Sample.ev1 Sample.line1 Sample.hash1
    Sample.inv0 (Sample.stable_all _) Sample.fresh1 eq_refl eq_refl Sample.short1).
Defined.

Lemma failed_sync_breaks_chain_witness :
  let '(w1, d1, r1) := Append 7 (mkFaults IoOk None false IoOk) Sample.ev1 Sample.w0 Sample.d0 in
  let '(_, d2, r2) := Append 8 no_faults Sample.ev2 w1 d1 in
  r1 = Err SyncFailed ∧ w1 = Sample.w0 ∧ r2 = Ok tt ∧
  verifyWALPath d2 = Err (OutOfOrder (seq Sample.w0 + 2)).
Proof.
  exact (failed_sync_breaks_chain 7 8 Sample.w0 Sample.d0 Sample.ev1 Sample.ev2
    Sample.line1 Sample.line2 Sample.inv0 (Sample.stable_all _) eq_refl eq_refl
    Sample.short1 Sample.short2).
Defined.

Lemma tamper_evident_witness :
  Forall2 same_record (records (raw_lines (default "" (walFile Sample.d0))))
    (records (raw_lines (str1 newline))) ∨
  collision (records (raw_lines (default "" (walFile Sample.d0))))
    (records (raw_lines (str1 newline))).
Proof.
  exact (tamper_evident Sample.w0 Sample.d0 (str1 newline) Sample.inv0 eq_refl eq_refl).
Defined.

Lemma prefix_verification_stable_witness :
  let '(r, err) := VerifyPrefixAgainstAnchor (mkDisk (Some ("" +:+ "torn")) None) 0
                     (anchorCommitted 0 0 genesisHash) true in
  err = None ∧ resCount r = 0 ∧ resHead r = genesisHash.
Proof.
  exact (prefix_verification_stable Sample.w0 Sample.d0 "" "torn" None Sample.inv0 eq_refl
    (anchorCommitted 0 0 genesisHash) (or_introl eq_refl)).
Defined.
