(* ===== verification/IpAddr.v ===== *)
(** * Addresses of [net] and [net/netip]

    What the policy packages use of the Go address parsers and printers:
    [net.ParseIP], [net.ParseCIDR], [IP.String] and [IPNet.String], written
    after [netip.ParseAddr] and [netip.Addr.String].  A zone is never accepted
    by these entry points, so it is left out. *)

From Stdlib Require Import ZArith Lia Ascii.
From S2P Require Import Prelude GoStr Sha.

Local Open Scope Z_scope.

(** An address as [netip.ParseAddr] returns it: four bytes or sixteen. *)
Inductive addr := A4 (b : list Z) | A16 (b : list Z).

(** ** Parsing *)

(** Dotted quads: fields of one to three digits up to 255 with no leading
    zero, exactly four of them.  [val] is the field so far and [len] its
    number of digits. *)
Fixpoint v4_fields (acc : list Z) (val : Z) (len : nat) (s : list ascii) : option (list Z) :=
  match s with
  | [] => if ((length acc =? 3) && negb (len =? 0))%nat then Some (acc ++ [val]) else None
  | c :: s =>
    if is_digit c then
      if (len =? 1)%nat && (val =? 0) then None else
      let val := val * 10 + (code c - 48) in
      if 255 <? val then None else v4_fields acc val (S len) s
    else if c =?? "."%char then
      if (len =? 0)%nat || (length acc =? 3)%nat then None else v4_fields (acc ++ [val]) 0 0 s
    else None
  end.
Definition parseIPv4 (s : list ascii) : option (list Z) := v4_fields [] 0 0 s.

Definition hex_value (c : ascii) : option Z :=
  if is_digit c then Some (code c - 48)
  else if in_range "a" "f" c then Some (code c - 87)
  else if in_range "A" "F" c then Some (code c - 55)
  else None.

(** One hexadecimal group: its value, its number of digits and the rest; more
    than four digits fail. *)
Fixpoint hex_group (off : nat) (acc : Z) (s : list ascii) : option (Z * nat * list ascii) :=
  match s with
  | c :: s' =>
    match hex_value c with
    | Some d => if (3 <? off)%nat then None else hex_group (S off) (acc * 16 + d) s'
    | None => Some (acc, off, s)
    end
  | [] => Some (acc, off, [])
  end.

(** The group loop; [ip] is what was read so far, [ell] the position of the
    ellipsis.  The loop body runs at most eight times. *)
Fixpoint v6_groups (fuel : nat) (ip : list Z) (ell : option nat) (s : list ascii)
  : option (list Z * option nat * list ascii) :=
  match fuel with
  | O => Some (ip, ell, s)
  | S fuel =>
    '(acc, off, rest) ← hex_group 0 0 s;
    if (off =? 0)%nat then None else
    match rest with
    | [] => Some (ip ++ [shr 8 acc; Z.land acc 255], ell, [])
    | c :: rest' =>
      if c =?? "."%char then
        if (match ell with None => negb (length ip =? 12)%nat | Some _ => false end)
           || (16 <? length ip + 4)%nat then None
        else quad ← parseIPv4 s; Some (ip ++ quad, ell, [])
      else if negb (c =?? ":"%char) then None
      else match rest' with
      | [] => None
      | c2 :: rest2 =>
        let ip := ip ++ [shr 8 acc; Z.land acc 255] in
        if c2 =?? ":"%char then
          match ell with
          | Some _ => None
          | None =>
            match rest2 with
            | [] => Some (ip, Some (length ip), [])
            | _ => v6_groups fuel ip (Some (length ip)) rest2
            end
          end
        else v6_groups fuel ip ell rest'
      end
    end
  end.

Definition v6_finish (r : list Z * option nat * list ascii) : option (list Z) :=
  let '(ip, ell, s) := r in
  match s with
  | _ :: _ => None
  | [] =>
    if (length ip <? 16)%nat then
      match ell with
      | None => None
      | Some e => Some (take e ip ++ replicate (16 - length ip) 0 ++ drop e ip)
      end
    else match ell with Some _ => None | None => Some ip end
  end.
Definition parseIPv6 (s : list ascii) : option (list Z) :=
  match s with
  | ":"%char :: ":"%char :: [] => Some (replicate 16 0)
  | ":"%char :: ":"%char :: s => v6_groups 8 [] (Some 0%nat) s ≫= v6_finish
  | _ => v6_groups 8 [] None s ≫= v6_finish
  end.

(** [netip.ParseAddr] looks for the first dot or colon; a percent sign would
    start a zone. *)
Fixpoint addr_family (s : list ascii) : option bool :=
  match s with
  | [] => None
  | c :: s => if c =?? "."%char then Some false else if c =?? ":"%char then Some true
              else if c =?? "%"%char then None else addr_family s
  end.
Definition ParseAddr (s : string) : option addr :=
  let l := bytes_of s in
  if existsb (fun c => c =?? "%"%char) l then None else
  is6 ← addr_family l;
  if (is6 : bool) then A16 <$> parseIPv6 l else A4 <$> parseIPv4 l.

Definition v4_prefix : list Z := replicate 10 0 ++ [255; 255].
Definition As16 (a : addr) : list Z := match a with A4 b => v4_prefix ++ b | A16 b => b end.
Definition BitLen (a : addr) : Z := match a with A4 _ => 32 | A16 _ => 128 end.

(** [net.ParseIP]: the sixteen-byte form. *)
Definition ParseIP (s : string) : option (list Z) := As16 <$> ParseAddr s.

(** [IP.To4] *)
Definition To4 (ip : list Z) : option (list Z) :=
  if (length ip =? 4)%nat then Some ip
  else if (length ip =? 16)%nat && (take 12 ip =?? v4_prefix) then Some (drop 12 ip)
  else None.

(** ** Printing *)

Definition v4_string (b : list Z) : string :=
  String.concat "." (map dec_of_Z b).

(** A group without leading zeros. *)
Fixpoint hex_go (fuel : nat) (v : Z) (acc : string) : string :=
  match fuel with
  | O => acc
  | S fuel =>
    let acc := String (hex_digit (Z.land v 15)) acc in
    if v <? 16 then acc else hex_go fuel (shr 4 v) acc
  end.
Definition hex_string (v : Z) : string := hex_go 4 v "".

Fixpoint groups_of (b : list Z) : list Z :=
  match b with hi :: lo :: b => Z.lor (Z.shiftl hi 8) lo :: groups_of b | _ => [] end.

(** Length of the run of zero groups at the front. *)
Fixpoint zeros (g : list Z) : nat :=
  match g with x :: g => if x =? 0 then S (zeros g) else O | [] => O end.
(** The first longest run of at least two zero groups, as start and length. *)
Fixpoint longest_run (i : nat) (g : list Z) (best : nat * nat) : nat * nat :=
  match g with
  | [] => best
  | _ :: g' =>
    let n := zeros g in
    let best := if ((2 <=? n) && (best.2 <? n))%nat then (i, n) else best in
    longest_run (S i) g' best
  end.
Definition v6_string (b : list Z) : string :=
  let g := groups_of b in
  let '(start, n) := longest_run 0 g (0%nat, 0%nat) in
  let part l := String.concat ":" (map hex_string l) in
  if (n =? 0)%nat then part g
  else part (take start g) +:+ "::" +:+ part (drop (start + n) g).

(** [IP.String] on sixteen or four bytes. *)
Definition IPString (ip : list Z) : string :=
  match To4 ip with Some b => v4_string b | None => v6_string ip end.

(** ** Prefixes *)

(** [dtoi]: leading decimal digits, refusing values of [0xFFFFFF] and up; the
    whole mask must be digits. *)
Fixpoint dtoi (n : Z) (s : list ascii) : option Z :=
  match s with
  | [] => Some n
  | c :: s => if is_digit c then let n := n * 10 + (code c - 48) in
                if 0xFFFFFF <=? n then None else dtoi n s
              else None
  end.
Definition mask_byte (n : Z) (i : nat) (b : Z) : Z :=
  let k := Z.max 0 (Z.min 8 (n - 8 * Z.of_nat i)) in
  Z.land b (Z.shiftl (Z.ones k) (8 - k)).
Definition mask_bytes (n : Z) (b : list Z) : list Z := imap (mask_byte n) b.

(** [net.ParseCIDR]: the address and the network with its prefix length.  An
    IPv4 network is kept in four bytes. *)
Record IPNet := mkNet { netIP : list Z; ones : Z; maskLen : nat }.
Definition ParseCIDR (s : string) : option (list Z * IPNet) :=
  i ← index_byte s "/";
  a ← ParseAddr (str_take i s);
  let m := str_drop (S i) s in
  if m =?? "" then None else
  n ← dtoi 0 (bytes_of m);
  if BitLen a <? n then None else
  Some (As16 a, match a with
                | A4 b => mkNet (mask_bytes n b) n 4
                | A16 b => mkNet (mask_bytes n b) n 16
                end).

(** [IPNet.String]: a sixteen-byte network that is IPv4-mapped prints in four
    bytes with the last four bytes of its mask. *)
Definition NetString (n : IPNet) : string :=
  match To4 (netIP n) with
  | Some b => v4_string b +:+ "/" +:+
              dec_of_Z (if (maskLen n =? 16)%nat then Z.max 0 (ones n - 96) else ones n)
  | None => v6_string (netIP n) +:+ "/" +:+ dec_of_Z (ones n)
  end.

(** ** Vectors *)

Example ip_strings :
  map (fun s => IPString <$> ParseIP s)
    ["192.0.2.1"; "2001:db8:0:0:1:0:0:1"; "::"; "::1"; "fe80::"; "::ffff:192.0.2.9"; "1:2:3:4:5:6:7:8";
     "2001:DB8::A0:0:0"; "1::2:3:4:5:6.7.8.9"; "0:1:0:1:0:1:0:1"]
  = Some <$> ["192.0.2.1"; "2001:db8::1:0:0:1"; "::"; "::1"; "fe80::"; "192.0.2.9"; "1:2:3:4:5:6:7:8";
     "2001:db8::a0:0:0"; "1:0:2:3:4:5:607:809"; "0:1:0:1:0:1:0:1"].
Proof. vm_compute. reflexivity. Qed.
Example ip_refused :
  map ParseIP [""; "1.2.3"; "1.2.3.04"; "1.2.3.256"; "1.2.3.4.5"; ":1"; "1:"; "1::2::3"; "12345::"; "1:2:3:4:5:6:7";
               "1:2:3:4:5:6:7::8:9"; "fe80::1%eth0"; "1:2:3:4:5:6:7:1.2.3.4"; "::1.2.3"; "example.com"]
  = replicate 15 None.
Proof. vm_compute. reflexivity. Qed.
Example cidr_strings :
  map (fun s => (fun r => NetString r.2) <$> ParseCIDR s)
    ["10.1.2.3/8"; "10.1.2.3/32"; "2001:db8:ffff::1/33"; "::/0"; "0.0.0.0/0"; "::ffff:10.1.2.3/104"; "10.0.0.0/033"]
  = [Some "10.0.0.0/8"; Some "10.1.2.3/32"; Some "2001:db8:8000::/33"; Some "::/0"; Some "0.0.0.0/0"; Some "10.0.0.0/8";
     None].
Proof. vm_compute. reflexivity. Qed.
