(* ===== verification/IpNet.v ===== *)
(** * Printing and parsing addresses back, and prefixes of [net/netip]

    The printed form of an address is read back as the same address, for
    dotted quads, for colon form with an elided run of zeros, and for
    prefixes.  The second half adds what the firewall packages use of
    [netip.Prefix]: parsing, masking and containment. *)

From Stdlib Require Import ZArith Lia Ascii.
From S2P Require Import Prelude GoStr Sha IpAddr.

Local Open Scope Z_scope.

#[export] Instance addr_eq_dec : EqDecision addr.
Proof. solve_decision. Defined.

Definition byte_range (b : Z) : Prop := 0 <= b < 256.
Definition wf_bytes (n : nat) (b : list Z) : Prop := length b = n ∧ Forall byte_range b.

(** ** Dotted quads *)

Fixpoint v4_digits (val : Z) (len : nat) (s : list ascii) : option (Z * nat) :=
  match s with
  | [] => Some (val, len)
  | c :: s =>
    if is_digit c then
      if (len =? 1)%nat && (val =? 0) then None else
      let val := val * 10 + (code c - 48) in
      if 255 <? val then None else v4_digits val (S len) s
    else None
  end.
Lemma v4_fields_digits acc ds val len v l rest :
  v4_digits val len ds = Some (v, l) → v4_fields acc val len (ds ++ rest) = v4_fields acc v l rest.
Proof.
  revert val len. induction ds as [|c ds IH]; intros val len; cbn [v4_digits v4_fields app].
  - by intros [= -> ->].
  - destruct (is_digit c); [|done]. destruct (_ && _); [done|].
    destruct (255 <? _); [done|]. apply IH.
Qed.
Lemma v4_digits_byte b : byte_range b → ∃ l, v4_digits 0 0 (bytes_of (dec_of_Z b)) = Some (b, S l).
Proof.
  intros Hb.
  assert (forallb (fun b => match v4_digits 0 0 (bytes_of (dec_of_Z b)) with
    | Some (v, S _) => v =? b | _ => false end) (seqZ 0 256) = true) as H by (vm_compute; reflexivity).
  rewrite forallb_elem_of in H. specialize (H b). rewrite elem_of_seqZ in H.
  specialize (H ltac:(unfold byte_range in Hb; lia)).
  destruct (v4_digits _ _ _) as [[v [|l]]|]; [done| |done].
  apply Z.eqb_eq in H as ->. eauto.
Qed.
Lemma v4_fields_byte acc b rest :
  byte_range b → ∃ l, v4_fields acc 0 0 (bytes_of (dec_of_Z b) ++ rest) = v4_fields acc b (S l) rest.
Proof. intros [l H]%v4_digits_byte. exists l. by apply v4_fields_digits. Qed.

Lemma wf_bytes_4 b : wf_bytes 4 b → ∃ b0 b1 b2 b3, b = [b0; b1; b2; b3] ∧
  byte_range b0 ∧ byte_range b1 ∧ byte_range b2 ∧ byte_range b3.
Proof.
  intros [Hl Hb]. destruct b as [|b0 [|b1 [|b2 [|b3 [|? ?]]]]]; try done.
  rewrite !Forall_cons in Hb. naive_solver.
Qed.

Lemma v4_fields_dot acc b rest :
  byte_range b → (length acc < 3)%nat →
  v4_fields acc 0 0 (bytes_of (dec_of_Z b) ++ "."%char :: rest) = v4_fields (acc ++ [b]) 0 0 rest.
Proof.
  intros Hb Hl. destruct (v4_fields_byte acc b ("."%char :: rest) Hb) as [l ->].
  cbn [v4_fields]. change (is_digit ".") with false. rewrite bool_decide_eq_true_2 by done.
  destruct (length acc =? 3)%nat eqn:E; [apply Nat.eqb_eq in E; lia|]. done.
Qed.

Lemma parseIPv4_print b : wf_bytes 4 b → parseIPv4 (bytes_of (v4_string b)) = Some b.
Proof.
  intros (b0 & b1 & b2 & b3 & -> & H0 & H1 & H2 & H3)%wf_bytes_4.
  unfold v4_string, parseIPv4. cbn [map String.concat]. rewrite !bytes_of_app. cbn [bytes_of app].
  do 3 (rewrite v4_fields_dot by (done || (cbn [length app]; lia))). cbn [app].
  destruct (v4_fields_byte [b0; b1; b2] b3 [] H3) as [l3 E3]. rewrite app_nil_r in E3.
  by rewrite E3.
Qed.

(** ** Hexadecimal groups *)

Lemma hex_value_digit d : 0 <= d < 16 → hex_value (hex_digit d) = Some d.
Proof.
  intros Hd.
  assert (forallb (fun d => bool_decide (hex_value (hex_digit d) = Some d)) (seqZ 0 16) = true) as H
    by (vm_compute; reflexivity).
  rewrite forallb_elem_of in H. specialize (H d). rewrite elem_of_seqZ in H.
  specialize (H ltac:(lia)). by apply bool_decide_eq_true in H.
Qed.
Lemma land_15 v : Z.land v 15 = v mod 16.
Proof. change 15 with (Z.ones 4). by rewrite Z.land_ones. Qed.
Lemma shr_4 v : shr 4 v = v / 16.
Proof. unfold shr. by rewrite Z.shiftr_div_pow2. Qed.

Lemma hex_group_go fuel v :
  0 <= v < 16 ^ Z.of_nat (S fuel) →
  ∃ k, (1 <= k <= S fuel)%nat ∧ ∀ off acc s, (off + k <= 4)%nat →
    hex_group off acc (bytes_of (hex_go (S fuel) v s)) =
    hex_group (off + k) (acc * 16 ^ Z.of_nat k + v) (bytes_of s).
Proof.
  revert v. induction fuel as [|fuel IH]; intros v Hv.
  - exists 1%nat. split; [lia|]. intros off acc s Ho. change (16 ^ Z.of_nat 1) with 16 in *.
    cbn [hex_go]. destruct (v <? 16) eqn:E; [|apply Z.ltb_ge in E; lia]. cbn [bytes_of hex_group].
    rewrite land_15, Z.mod_small, hex_value_digit by lia.
    destruct (3 <? off)%nat eqn:E3; [apply Nat.ltb_lt in E3; lia|].
    by rewrite Nat.add_1_r.
  - destruct (v <? 16) eqn:E.
    + exists 1%nat. split; [lia|]. intros off acc s Ho.
      change (hex_go (S (S fuel)) v s) with
        (if v <? 16 then String (hex_digit (Z.land v 15)) s
         else hex_go (S fuel) (shr 4 v) (String (hex_digit (Z.land v 15)) s)).
      rewrite E. cbn [bytes_of hex_group]. apply Z.ltb_lt in E.
      rewrite land_15, Z.mod_small, hex_value_digit by lia.
      destruct (3 <? off)%nat eqn:E3; [apply Nat.ltb_lt in E3; lia|].
      change (16 ^ Z.of_nat 1) with 16. by rewrite Nat.add_1_r.
    + apply Z.ltb_ge in E. rewrite Nat2Z.inj_succ, Z.pow_succ_r in Hv by lia.
      destruct (IH (v / 16)) as (k & Hk & IH').
      { split; [apply Z.div_pos; lia|]. apply Z.div_lt_upper_bound; lia. }
      exists (S k). split; [lia|]. intros off acc s Ho.
      change (hex_go (S (S fuel)) v s) with
        (if v <? 16 then String (hex_digit (Z.land v 15)) s
         else hex_go (S fuel) (shr 4 v) (String (hex_digit (Z.land v 15)) s)).
      destruct (v <? 16) eqn:E'; [apply Z.ltb_lt in E'; lia|]. rewrite shr_4, IH' by lia.
      cbn [bytes_of hex_group]. pose proof (Z.mod_pos_bound v 16 ltac:(lia)).
      rewrite land_15, hex_value_digit by lia.
      destruct (3 <? off + k)%nat eqn:E3; [apply Nat.ltb_lt in E3; lia|].
      f_equal; [lia|]. rewrite Nat2Z.inj_succ, Z.pow_succ_r by lia.
      pose proof (Z.div_mod v 16 ltac:(lia)). lia.
Qed.

Definition group_range (g : Z) : Prop := 0 <= g < 65536.
Definition not_hex (s : list ascii) : Prop := match s with [] => True | c :: _ => hex_value c = None end.

Lemma hex_group_string g rest :
  group_range g → not_hex rest →
  ∃ k, hex_group 0 0 (bytes_of (hex_string g) ++ rest) = Some (g, S k, rest).
Proof.
  intros Hg Hr. destruct (hex_group_go 3 g) as (k & Hk & H); [exact Hg|].
  destruct k as [|k]; [lia|]. exists k.
  assert (∀ fuel v s, bytes_of (hex_go fuel v s) = bytes_of (hex_go fuel v "") ++ bytes_of s) as Happ.
  { induction fuel as [|fuel IH]; intros v s; cbn [hex_go]; [done|].
    destruct (v <? 16); [done|]. rewrite IH, (IH _ (String _ "")). by rewrite <- app_assoc. }
  specialize (H 0%nat 0 (of_bytes rest) ltac:(lia)).
  rewrite Happ, bytes_of_of in H. unfold hex_string. rewrite H.
  cbn [Nat.add]. rewrite Z.mul_0_l, Z.add_0_l.
  destruct rest as [|c rest]; cbn [hex_group]; [done|]. by rewrite Hr.
Qed.

(** ** Colon form *)

Definition part (l : list Z) : string := String.concat ":" (map hex_string l).
(** The two bytes of each group. *)
Definition group_bytes (l : list Z) : list Z := flat_map (fun g => [shr 8 g; Z.land g 255]) l.

Lemma part_cons g h l : part (g :: h :: l) = hex_string g +:+ ":" +:+ part (h :: l).
Proof. done. Qed.
Lemma length_group_bytes l : length (group_bytes l) = (2 * length l)%nat.
Proof. unfold group_bytes. induction l; cbn [flat_map length app]; lia. Qed.

(** The group loop on groups that end the text, with or without an ellipsis
    before them. *)
Lemma v6_groups_tail fuel ip ell g gs :
  Forall group_range (g :: gs) → (length gs < fuel)%nat →
  v6_groups fuel ip ell (bytes_of (part (g :: gs))) = Some (ip ++ group_bytes (g :: gs), ell, []).
Proof.
  revert fuel ip g. induction gs as [|h gs IH]; intros fuel ip g Hg Hf;
    (destruct fuel as [|fuel]; [lia|]); apply Forall_cons in Hg as [Hg Hgs].
  - destruct (hex_group_string g [] Hg I) as [k Hk]. rewrite app_nil_r in Hk.
    cbn [v6_groups]. change (part [g]) with (hex_string g). rewrite Hk. done.
  - rewrite part_cons, bytes_of_app, bytes_of_app. cbn [v6_groups].
    destruct (hex_group_string g (bytes_of ":" ++ bytes_of (part (h :: gs))) Hg eq_refl) as [k Hk].
    rewrite Hk. cbn [mbind option_bind Nat.eqb bytes_of app].
    rewrite bool_decide_eq_false_2 by done. rewrite bool_decide_eq_true_2 by done. cbn [negb].
    destruct (bytes_of (part (h :: gs))) as [|c2 rest] eqn:E.
    { exfalso. destruct gs as [|? gs].
      - change (part [h]) with (hex_string h) in E.
        destruct (hex_group_string h [] (Forall_inv Hgs) I) as [k' Hk']. by rewrite E in Hk'.
      - rewrite part_cons, bytes_of_app in E. apply app_nil in E as [_ E]. done. }
    assert (c2 ≠ ":"%char) as Hc.
    { intros ->. destruct gs as [|h' gs].
      - change (part [h]) with (hex_string h) in E.
        destruct (hex_group_string h [] (Forall_inv Hgs) I) as [k' Hk'].
        rewrite app_nil_r, E in Hk'. done.
      - rewrite part_cons, bytes_of_app in E.
        destruct (hex_group_string h (bytes_of (":" +:+ part (h' :: gs))) (Forall_inv Hgs) eq_refl) as [k' Hk'].
        rewrite E in Hk'. done. }
    rewrite bool_decide_eq_false_2 by done. rewrite <- E, IH by (done || cbn [length] in Hf; lia).
    by rewrite <- app_assoc.
Qed.

(** The group loop on groups followed by the ellipsis. *)
Lemma v6_groups_ellipsis fuel ip g gs hs :
  Forall group_range (g :: gs) → Forall group_range hs → (length gs + length hs < fuel)%nat →
  let ip' := ip ++ group_bytes (g :: gs) in
  v6_groups fuel ip None (bytes_of (part (g :: gs) +:+ "::" +:+ part hs)) =
  Some (ip' ++ group_bytes hs, Some (length ip'), []).
Proof.
  revert fuel ip g. induction gs as [|h gs IH]; intros fuel ip g Hg Hh Hf; cbn zeta;
    (destruct fuel as [|fuel]; [lia|]); apply Forall_cons in Hg as [Hg Hgs].
  - rewrite bytes_of_app, bytes_of_app. change (part [g]) with (hex_string g). cbn [v6_groups].
    destruct (hex_group_string g (bytes_of "::" ++ bytes_of (part hs)) Hg eq_refl) as [k Hk].
    rewrite Hk. cbn [mbind option_bind Nat.eqb bytes_of app].
    rewrite bool_decide_eq_false_2 by done. rewrite bool_decide_eq_true_2 by done. cbn [negb].
    change (group_bytes [g]) with [shr 8 g; Z.land g 255].
    destruct hs as [|h hs].
    { cbn. by rewrite app_nil_r. }
    destruct (bytes_of (part (h :: hs))) as [|c rest] eqn:E.
    { exfalso. pose proof (v6_groups_tail (S (length hs)) [] None h hs Hh ltac:(lia)) as H.
      rewrite E in H. done. }
    rewrite <- E, v6_groups_tail by (done || cbn [length] in Hf; lia). done.
  - rewrite part_cons, !str_app_assoc, bytes_of_app, bytes_of_app. cbn [v6_groups].
    destruct (hex_group_string g (bytes_of ":" ++ bytes_of (part (h :: gs) +:+ "::" +:+ part hs)) Hg eq_refl)
      as [k Hk].
    rewrite Hk. cbn [mbind option_bind Nat.eqb bytes_of app].
    rewrite bool_decide_eq_false_2 by done. rewrite bool_decide_eq_true_2 by done. cbn [negb].
    specialize (IH fuel (ip ++ [shr 8 g; Z.land g 255]) h Hgs Hh ltac:(cbn [length] in Hf; lia)).
    destruct (bytes_of (part (h :: gs) +:+ "::" +:+ part hs)) as [|c2 rest] eqn:E.
    { destruct fuel; done. }
    destruct (decide (c2 = ":"%char)) as [->|Hc].
    { exfalso. destruct fuel; [cbn [length] in Hf; lia|done]. }
    rewrite bool_decide_eq_false_2 by done. rewrite IH. cbn zeta. rewrite <- !app_assoc. done.
Qed.

(** The run the printer elides consists of zero groups. *)
Lemma zeros_spec g : take (zeros g) g = replicate (zeros g) 0 ∧ (zeros g <= length g)%nat.
Proof.
  induction g as [|x g [IH1 IH2]]; cbn [zeros]; [done|].
  destruct (x =? 0) eqn:E; [|cbn; split; [done|lia]]. apply Z.eqb_eq in E as ->.
  cbn [take replicate length]. rewrite IH1. split; [done|lia].
Qed.
Definition is_run (g : list Z) (r : nat * nat) : Prop :=
  r.2 = 0%nat ∨ ((2 <= r.2)%nat ∧ (r.1 + r.2 <= length g)%nat ∧ take r.2 (drop r.1 g) = replicate r.2 0).
Lemma longest_run_spec g0 i g best :
  drop i g0 = g → (i <= length g0)%nat → is_run g0 best → is_run g0 (longest_run i g best).
Proof.
  revert i best. induction g as [|x g IH]; intros i best Hd Hi Hb; [done|].
  change (longest_run i (x :: g) best) with (longest_run (S i) g
    (if ((2 <=? zeros (x :: g)) && (best.2 <? zeros (x :: g)))%nat then (i, zeros (x :: g)) else best)).
  assert (length g0 = (i + S (length g))%nat) as Hl.
  { rewrite <- (take_drop i g0), length_app, Hd, length_take_le by lia. done. }
  apply IH; [|lia|].
  - rewrite <- (Nat.add_1_r i), <- drop_drop, Hd. done.
  - destruct (_ && _)%nat eqn:E; [|done]. apply andb_true_iff in E as [E _]. apply Nat.leb_le in E.
    destruct (zeros_spec (x :: g)) as [Hz Hzl]. right. cbn [fst snd]. rewrite Hd.
    cbn [length] in Hzl. split_and!; [done|lia|done].
Qed.
Lemma run_split g start n :
  is_run g (start, n) → g = take start g ++ replicate n 0 ++ drop (start + n) g.
Proof.
  intros [H|(_ & _ & H)]; cbn [fst snd] in H.
  - subst. rewrite Nat.add_0_r. cbn. by rewrite take_drop.
  - rewrite <- H. rewrite <- drop_drop, take_drop, take_drop. done.
Qed.

Lemma byte_pair hi lo : byte_range hi → byte_range lo →
  let g := Z.lor (Z.shiftl hi 8) lo in group_range g ∧ shr 8 g = hi ∧ Z.land g 255 = lo.
Proof.
  unfold byte_range, group_range, shr. intros Hh Hl. cbn zeta.
  assert (Z.lor (Z.shiftl hi 8) lo = hi * 256 + lo) as ->.
  { rewrite Z.shiftl_mul_pow2 by lia. pose proof (Z.add_lor_land (hi * 2 ^ 8) lo) as Ha.
    assert (Z.land (hi * 2 ^ 8) lo = 0) as Hz; [|lia]. clear Ha.
    apply Z.bits_inj'. intros i Hi. rewrite Z.land_spec, Z.bits_0.
    destruct (Z.ltb_spec i 8).
    - by rewrite Z.mul_pow2_bits_low.
    - rewrite (Z.bits_above_log2 lo), andb_false_r; [done|lia|].
      destruct (decide (lo = 0)) as [->|]; [cbn; lia|].
      apply Z.log2_lt_pow2; [lia|]. eapply Z.lt_le_trans; [apply Hl|].
      change 256 with (2 ^ 8). apply Z.pow_le_mono_r; lia. }
  rewrite Z.shiftr_div_pow2 by lia. change 255 with (Z.ones 8). rewrite Z.land_ones by lia.
  change (2 ^ 8) with 256. split_and!; [lia|lia| |].
  - rewrite Z.div_add_l by lia. rewrite Z.div_small; lia.
  - rewrite Z.add_comm, Z_mod_plus_full, Z.mod_small; lia.
Qed.
Lemma groups_of_spec n b :
  wf_bytes (2 * n) b →
  length (groups_of b) = n ∧ Forall group_range (groups_of b) ∧ group_bytes (groups_of b) = b.
Proof.
  revert b. induction n as [|n IH]; intros b [Hl Hb].
  { destruct b; [|done]. cbn. auto. }
  replace (2 * S n)%nat with (S (S (2 * n))) in Hl by lia.
  destruct b as [|hi [|lo b]]; try done. injection Hl as Hl.
  apply Forall_cons in Hb as [Hhi Hb]. apply Forall_cons in Hb as [Hlo Hb].
  destruct (IH b (conj Hl Hb)) as (H1 & H2 & H3). destruct (byte_pair hi lo Hhi Hlo) as (Hg & Eh & El).
  cbn [groups_of length]. split_and!; [lia|by constructor|].
  change (group_bytes (?g :: ?l)) with ([shr 8 g; Z.land g 255] ++ group_bytes l).
  by rewrite Eh, El, H3.
Qed.

Lemma parseIPv6_plain c l : c ≠ ":"%char → parseIPv6 (c :: l) = v6_groups 8 [] None (c :: l) ≫= v6_finish.
Proof. intros Hc. destruct c as [[] [] [] [] [] [] [] []]; done. Qed.
Lemma parseIPv6_elided c l :
  parseIPv6 (":"%char :: ":"%char :: c :: l) = v6_groups 8 [] (Some 0%nat) (c :: l) ≫= v6_finish.
Proof. done. Qed.
(** Printed groups start with a hexadecimal digit. *)
Lemma part_head g gs t :
  group_range g → not_hex (bytes_of t) →
  ∃ c rest, bytes_of (part (g :: gs) +:+ t) = c :: rest ∧ is_Some (hex_value c).
Proof.
  intros Hg Ht. set (u := match gs with [] => t | h :: gs => ":" +:+ part (h :: gs) +:+ t end).
  assert (bytes_of (part (g :: gs) +:+ t) = bytes_of (hex_string g) ++ bytes_of u) as ->.
  { rewrite <- bytes_of_app. f_equal. destruct gs; [done|]. rewrite part_cons, !str_app_assoc. done. }
  destruct (hex_group_string g (bytes_of u) Hg) as [k Hk]; [by destruct gs|].
  destruct (bytes_of (hex_string g)) as [|c l].
  { cbn [app] in Hk. exfalso. destruct (bytes_of u) as [|c l] eqn:E; [done|].
    cbn [hex_group] in Hk. assert (hex_value c = None) as Hc.
    { destruct gs; subst u; [by rewrite E in Ht|]. by injection E as <- _. }
    by rewrite Hc in Hk. }
  exists c, (l ++ bytes_of u). split; [done|]. cbn [app hex_group] in Hk.
  destruct (hex_value c); [eauto|done].
Qed.
Lemma hex_not_colon c : is_Some (hex_value c) → c ≠ ":"%char.
Proof. intros [v Hv] ->. done. Qed.

Lemma replicate_group_bytes n : group_bytes (replicate n 0) = replicate (2 * n) 0.
Proof.
  induction n as [|n IH]; [done|]. replace (2 * S n)%nat with (S (S (2 * n))) by lia.
  cbn [replicate]. rewrite <- IH. done.
Qed.
Lemma group_bytes_app l k : group_bytes (l ++ k) = group_bytes l ++ group_bytes k.
Proof. apply flat_map_app. Qed.

(** Putting the elided zeros back. *)
Lemma v6_finish_elided gs hs n :
  (length gs + n + length hs = 8)%nat → (2 <= n)%nat →
  v6_finish (group_bytes gs ++ group_bytes hs, Some (length (group_bytes gs)), []) =
  Some (group_bytes (gs ++ replicate n 0 ++ hs)).
Proof.
  intros Hl Hn. unfold v6_finish. rewrite length_app, !length_group_bytes.
  destruct (_ <? 16)%nat eqn:E; [|apply Nat.ltb_ge in E; lia].
  rewrite !group_bytes_app, replicate_group_bytes. f_equal.
  rewrite take_app_length', drop_app_length' by (by rewrite length_group_bytes).
  do 3 f_equal. lia.
Qed.

Lemma parseIPv6_print b : wf_bytes 16 b → parseIPv6 (bytes_of (v6_string b)) = Some b.
Proof.
  intros Hb. destruct (groups_of_spec 8 b Hb) as (Hl & Hr & Hgb). unfold v6_string.
  fold part. pose proof (longest_run_spec (groups_of b) 0 (groups_of b) (0, 0)%nat eq_refl ltac:(lia)
    (or_introl eq_refl)) as Hrun.
  revert Hl Hr Hgb Hrun. generalize (groups_of b) as g. intros g Hl Hr Hgb Hrun.
  destruct (longest_run 0 g (0, 0)%nat) as [start n]. fold (part g).
  destruct (n =? 0)%nat eqn:En.
  - destruct g as [|g0 g]; [done|].
    destruct (part_head g0 g "" (Forall_inv Hr) I) as (c & rest & E & Hc). rewrite str_app_nil_r in E.
    rewrite E, parseIPv6_plain by (by apply hex_not_colon). rewrite <- E.
    rewrite v6_groups_tail by (done || (cbn [length] in Hl; lia)).
    cbn [mbind option_bind app]. rewrite Hgb. unfold v6_finish. destruct Hb as [-> _]. done.
  - apply Nat.eqb_neq in En. pose proof (run_split _ _ _ Hrun) as Hs.
    destruct Hrun as [?|(Hn2 & Hsn & _)]; [done|]. cbn [fst snd] in Hn2, Hsn.
    fold (part (take start g)) (part (drop (start + n) g)).
    assert (length (take start g) + n + length (drop (start + n) g) = 8)%nat as Hlen.
    { rewrite length_take, length_drop. lia. }
    assert (Forall group_range (take start g)) as Hrt by (by apply Forall_take).
    assert (Forall group_range (drop (start + n) g)) as Hrd by (by apply Forall_drop).
    replace (Some b) with (Some (group_bytes (take start g ++ replicate n 0 ++ drop (start + n) g)))
      by (by rewrite <- Hs, Hgb).
    revert Hlen Hrt Hrd. generalize (take start g) as gs, (drop (start + n) g) as hs. clear -Hn2.
    intros gs hs Hlen Hgs Hhs. rewrite <- (v6_finish_elided _ _ _ Hlen Hn2).
    destruct gs as [|g0 gs].
    + destruct hs as [|h hs]; [done|]. change (part [] +:+ ?t) with t.
      rewrite bytes_of_app.
      destruct (part_head h hs "" (Forall_inv Hhs) I) as (c & rest & E & Hc). rewrite str_app_nil_r in E.
      rewrite E. cbn [bytes_of app]. rewrite parseIPv6_elided, <- E, v6_groups_tail; [done|done|].
      cbn [length] in Hlen. lia.
    + destruct (part_head g0 gs ("::" +:+ part hs) (Forall_inv Hgs) eq_refl) as (c & rest & E & Hc).
      rewrite E, parseIPv6_plain by (by apply hex_not_colon). rewrite <- E.
      rewrite v6_groups_ellipsis; [done|done|done|]. cbn [length] in Hlen. lia.
Qed.

(** ** Addresses *)

Definition wf_addr (a : addr) : Prop :=
  match a with A4 b => wf_bytes 4 b | A16 b => wf_bytes 16 b end.

Lemma v4_fields_wf acc val len s b :
  Forall byte_range acc → (length acc <= 3)%nat → byte_range val →
  v4_fields acc val len s = Some b → wf_bytes 4 b.
Proof.
  revert acc val len. induction s as [|c s IH]; intros acc val len Ha Hl Hv; cbn [v4_fields].
  - destruct (_ && _)%nat eqn:E; [|done]. intros [= <-]. apply andb_true_iff in E as [E _].
    apply Nat.eqb_eq in E. split; [rewrite length_app; cbn; lia|]. apply Forall_app; auto.
  - destruct (is_digit c) eqn:Ed.
    + destruct (_ && _); [done|]. destruct (255 <? _) eqn:E; [done|]. apply IH; [done..|].
      apply Z.ltb_ge in E. unfold is_digit, in_range in Ed. change (code "0") with 48 in Ed. go_bool.
      unfold byte_range in *. lia.
    + destruct (c =?? _); [|done]. destruct (_ || _)%nat eqn:E; [done|].
      apply orb_false_iff in E as [_ E]. apply Nat.eqb_neq in E.
      apply IH; [by apply Forall_app; auto|rewrite length_app; cbn; lia|unfold byte_range; lia].
Qed.
Lemma parseIPv4_wf s b : parseIPv4 s = Some b → wf_bytes 4 b.
Proof. apply v4_fields_wf; [done|cbn; lia|unfold byte_range; lia]. Qed.

Lemma hex_value_range c d : hex_value c = Some d → 0 <= d < 16.
Proof.
  unfold hex_value, is_digit, in_range. intros H. repeat case_match; simplify_eq; go_bool;
  change (code "0") with 48 in *; change (code "9") with 57 in *; change (code "a") with 97 in *;
  change (code "f") with 102 in *; change (code "A") with 65 in *; change (code "F") with 70 in *; lia.
Qed.
Lemma hex_group_range off acc s v k rest :
  0 <= acc < 16 ^ Z.of_nat off → (off <= 4)%nat →
  hex_group off acc s = Some (v, k, rest) → 0 <= v < 65536.
Proof.
  assert (∀ o a, 0 <= a < 16 ^ Z.of_nat o → (o <= 4)%nat → 0 <= a < 65536) as Hb.
  { intros o a Ha Ho. split; [lia|]. eapply Z.lt_le_trans; [apply Ha|].
    change 65536 with (16 ^ 4). apply Z.pow_le_mono_r; lia. }
  revert off acc. induction s as [|c s IH]; intros off acc Ha Ho; cbn [hex_group].
  - intros [= <- _ _]. eauto.
  - destruct (hex_value c) as [d|] eqn:Ec; [|intros [= <- _ _]; eauto].
    destruct (3 <? off)%nat eqn:E; [done|]. apply Nat.ltb_ge in E. apply hex_value_range in Ec.
    apply IH; [|lia]. rewrite Nat2Z.inj_succ, Z.pow_succ_r by lia. lia.
Qed.
Lemma group_bytes_range g : 0 <= g < 65536 → Forall byte_range [shr 8 g; Z.land g 255].
Proof.
  intros Hg. unfold shr. rewrite Z.shiftr_div_pow2 by lia.
  change 255 with (Z.ones 8). rewrite Z.land_ones by lia. change (2 ^ 8) with 256.
  repeat constructor; unfold byte_range; try (apply Z.div_pos; lia); try (apply Z.div_lt_upper_bound; lia);
    apply Z.mod_pos_bound; lia.
Qed.
Lemma v6_groups_wf fuel ip ell s ip' ell' s' :
  Forall byte_range ip → (length ip + 2 * fuel = 16)%nat → (∀ e, ell = Some e → (e <= length ip)%nat) →
  v6_groups fuel ip ell s = Some (ip', ell', s') →
  Forall byte_range ip' ∧ (length ip' <= 16)%nat ∧ ∀ e, ell' = Some e → (e <= length ip')%nat.
Proof.
  revert ip ell s. induction fuel as [|fuel IH]; intros ip ell s Hip Hl He; cbn [v6_groups].
  { intros [= <- <- <-]. split_and!; [done|lia|done]. }
  destruct (hex_group 0 0 s) as [[[acc off] rest]|] eqn:Eg; [|done]. cbn [mbind option_bind].
  apply hex_group_range in Eg; [|cbn; lia|lia].
  assert (Forall byte_range (ip ++ [shr 8 acc; Z.land acc 255])) as Hip'
    by (apply Forall_app; split; [done|by apply group_bytes_range]).
  assert (length (ip ++ [shr 8 acc; Z.land acc 255]) = length ip + 2)%nat as Hlen
    by (rewrite length_app; done).
  destruct (off =? 0)%nat; [done|]. destruct rest as [|c rest'].
  { intros [= <- <- <-]. rewrite Hlen. split_and!; [done|lia|]. intros e H%He. lia. }
  destruct (c =?? "."%char).
  { destruct (_ || _) eqn:E16; [done|]. apply orb_false_iff in E16 as [_ E16]. apply Nat.ltb_ge in E16.
    destruct (parseIPv4 s) as [quad|] eqn:Eq; [|done]. intros [= <- <- <-].
    apply parseIPv4_wf in Eq as [Hq1 Hq2]. rewrite length_app, Hq1.
    split_and!; [by apply Forall_app|lia|]. intros e H%He. lia. }
  destruct (negb _); [done|]. destruct rest' as [|c2 rest2]; [done|].
  destruct (c2 =?? ":"%char).
  - destruct ell; [done|]. destruct rest2.
    + intros [= <- <- <-]. split_and!; [done|rewrite Hlen; lia|]. intros e [= <-]. lia.
    + apply IH; [done|rewrite Hlen; lia|]. intros e [= <-]. lia.
  - apply IH; [done|rewrite Hlen; lia|]. intros e H%He. lia.
Qed.
Lemma v6_finish_wf ip ell s b :
  Forall byte_range ip → (length ip <= 16)%nat → (∀ e, ell = Some e → (e <= length ip)%nat) →
  v6_finish (ip, ell, s) = Some b → wf_bytes 16 b.
Proof.
  intros Hip Hl He. unfold v6_finish. destruct s; [|done]. destruct (_ <? 16)%nat eqn:E.
  - apply Nat.ltb_lt in E. destruct ell as [e|]; [|done]. intros [= <-]. specialize (He e eq_refl). split.
    + rewrite !length_app, length_replicate, length_take, length_drop. lia.
    + rewrite !Forall_app. split_and!; [by apply Forall_take| |by apply Forall_drop].
      apply Forall_replicate. unfold byte_range. lia.
  - apply Nat.ltb_ge in E. destruct ell; [done|]. intros [= <-]. split; [lia|done].
Qed.
Lemma parseIPv6_wf s b : parseIPv6 s = Some b → wf_bytes 16 b.
Proof.
  assert (∀ ell s, (∀ e, ell = Some e → (e <= 0)%nat) →
    v6_groups 8 [] ell s ≫= v6_finish = Some b → wf_bytes 16 b) as H.
  { intros ell s' He H. destruct (v6_groups 8 [] ell s') as [[[ip' ell'] s'']|] eqn:Eg; [|done].
    apply v6_groups_wf in Eg as (H1 & H2 & H3); [|done..]. by apply v6_finish_wf in H. }
  destruct s as [|c1 s]; [by apply H|]. destruct (decide (c1 = ":"%char)) as [->|Hc1].
  - destruct s as [|c2 s]; [by apply H|]. destruct (decide (c2 = ":"%char)) as [->|Hc2].
    + destruct s as [|c3 s]; [intros [= <-]|].
      * split; [done|]. by repeat (constructor; [unfold byte_range; lia|]).
      * rewrite parseIPv6_elided. apply H. intros e [= <-]. lia.
    + intros Hp. apply (H None (":"%char :: c2 :: s)); [done|].
      rewrite <- Hp. destruct c2 as [[] [] [] [] [] [] [] []]; done.
  - rewrite parseIPv6_plain by done. by apply H.
Qed.
Lemma ParseAddr_wf s a : ParseAddr s = Some a → wf_addr a.
Proof.
  unfold ParseAddr. destruct (existsb _ _); [done|]. destruct (addr_family _) as [[]|]; [| |done];
    cbn [mbind option_bind].
  - destruct (parseIPv6 _) as [b|] eqn:E; [|done]. intros [= <-]. by apply parseIPv6_wf in E.
  - destruct (parseIPv4 _) as [b|] eqn:E; [|done]. intros [= <-]. by apply parseIPv4_wf in E.
Qed.

Lemma addr_family_spec sep l :
  (sep = "."%char ∨ sep = ":"%char) → sep ∈ l →
  (∀ c, c ∈ l → c = sep ∨ (c ≠ "."%char ∧ c ≠ ":"%char ∧ c ≠ "%"%char)) →
  addr_family l = Some (sep =?? ":"%char) ∧ existsb (fun c => c =?? "%"%char) l = false.
Proof.
  intros Hs Hin Hl. split.
  - induction l as [|c l IH]; [by apply elem_of_nil in Hin|]. cbn [addr_family].
    destruct (Hl c ltac:(left)) as [->|(H1 & H2 & H3)].
    + destruct Hs as [-> | ->]; done.
    + rewrite !bool_decide_eq_false_2 by done. apply IH; [|set_solver].
      apply elem_of_cons in Hin as [->|]; [|done]. naive_solver.
  - apply not_true_iff_false. rewrite existsb_elem_of. intros (c & Hc & E%bool_decide_eq_true). subst.
    destruct (Hl _ Hc) as [H|H]; [|naive_solver]. destruct Hs; congruence.
Qed.

Lemma dec_of_Z_digit b c : 0 <= b → c ∈ bytes_of (dec_of_Z b) → is_digit c = true.
Proof. intros Hb. destruct b; [| |lia]; apply dec_of_N_digit. Qed.
Lemma digit_plain c : is_digit c = true → c ≠ "."%char ∧ c ≠ ":"%char ∧ c ≠ "%"%char ∧ c ≠ "/"%char.
Proof. intros H. split_and!; intros ->; done. Qed.

Lemma concat_bytes sep l c :
  c ∈ bytes_of (String.concat sep l) → c ∈ bytes_of sep ∨ ∃ s, s ∈ l ∧ c ∈ bytes_of s.
Proof.
  induction l as [|s l IH]; cbn [String.concat]; [by intros ?%elem_of_nil|]. destruct l as [|t l].
  - right. exists s. set_solver.
  - rewrite !bytes_of_app, !elem_of_app. intros [H|[H|H]]; [set_solver|by left|].
    destruct (IH H) as [?|(u & ? & ?)]; [by left|]. right. exists u. set_solver.
Qed.

Lemma v4_string_bytes b c :
  Forall byte_range b → c ∈ bytes_of (v4_string b) → is_digit c = true ∨ c = "."%char.
Proof.
  intros Hb [H|(s & Hs & Hc)]%concat_bytes; [cbn in H; set_solver|].
  apply list_elem_of_In, in_map_iff in Hs as (z & <- & Hz). left. apply dec_of_Z_digit in Hc; [done|].
  rewrite Forall_forall in Hb. specialize (Hb z). rewrite list_elem_of_In in Hb. apply Hb in Hz.
  unfold byte_range in Hz. lia.
Qed.
Lemma ParseAddr_v4 b : wf_bytes 4 b → ParseAddr (v4_string b) = Some (A4 b).
Proof.
  intros Hb. destruct (addr_family_spec "." (bytes_of (v4_string b))) as [E1 E2]; [by left| | |].
  - pose proof (wf_bytes_4 b Hb) as (b0 & b1 & b2 & b3 & -> & _). unfold v4_string. cbn [map String.concat].
    rewrite !bytes_of_app. cbn. set_solver.
  - intros c [H%digit_plain|H]%v4_string_bytes; [naive_solver|by left|apply Hb].
  - unfold ParseAddr. rewrite E1, E2. cbn [mbind option_bind]. rewrite bool_decide_eq_false_2 by done.
    by rewrite parseIPv4_print.
Qed.

Lemma hex_go_bytes fuel v s c :
  c ∈ bytes_of (hex_go fuel v s) → is_hex_lower c = true ∨ c ∈ bytes_of s.
Proof.
  revert v s. induction fuel as [|fuel IH]; intros v s; cbn [hex_go]; [by right|].
  destruct (v <? 16).
  - cbn. rewrite elem_of_cons. intros [->|]; [left; apply hex_digit_alphabet|by right].
  - intros [?|H]%IH; [by left|]. cbn in H. rewrite elem_of_cons in H.
    destruct H as [->|]; [left; apply hex_digit_alphabet|by right].
Qed.
Lemma hex_plain c : is_hex_lower c = true → c ≠ "."%char ∧ c ≠ ":"%char ∧ c ≠ "%"%char ∧ c ≠ "/"%char.
Proof. intros H. split_and!; intros ->; done. Qed.
Lemma part_bytes l c : c ∈ bytes_of (part l) → is_hex_lower c = true ∨ c = ":"%char.
Proof.
  intros [H|(s & Hs & Hc)]%concat_bytes; [cbn in H; set_solver|].
  apply list_elem_of_In, in_map_iff in Hs as (z & <- & _). apply hex_go_bytes in Hc as [?|Hc]; [by left|].
  by apply elem_of_nil in Hc.
Qed.
Lemma v6_string_bytes b c : c ∈ bytes_of (v6_string b) → is_hex_lower c = true ∨ c = ":"%char.
Proof.
  unfold v6_string. destruct (longest_run _ _ _) as [start n].
  destruct (n =? 0)%nat; [apply part_bytes|].
  rewrite !bytes_of_app, !elem_of_app. intros [H|[H|H]]; [by apply part_bytes in H| |by apply part_bytes in H].
  cbn in H. set_solver.
Qed.
Lemma ParseAddr_v6 b : wf_bytes 16 b → ParseAddr (v6_string b) = Some (A16 b).
Proof.
  intros Hb. destruct (addr_family_spec ":" (bytes_of (v6_string b))) as [E1 E2]; [by right| | |].
  - unfold v6_string. destruct (groups_of_spec 8 b Hb) as (Hl & _ & _).
    destruct (longest_run _ _ _) as [start n]. destruct (n =? 0)%nat.
    + destruct (groups_of b) as [|g0 [|g1 g]]; try done. fold (part (g0 :: g1 :: g)).
      rewrite part_cons, !bytes_of_app. cbn. set_solver.
    + rewrite !bytes_of_app. cbn. set_solver.
  - intros c [H%hex_plain|H]%v6_string_bytes; [naive_solver|by left].
  - unfold ParseAddr. rewrite E1, E2. cbn [mbind option_bind]. rewrite bool_decide_eq_true_2 by done.
    by rewrite parseIPv6_print.
Qed.

(** ** [netip.Addr] and [netip.Prefix] *)

Definition addr_bytes (a : addr) : list Z := match a with A4 b | A16 b => b end.
Definition Is4 (a : addr) : bool := match a with A4 _ => true | A16 _ => false end.
Definition Is4In6 (a : addr) : bool :=
  match a with A4 _ => false | A16 b => take 12 b =?? v4_prefix end.
Definition Unmap (a : addr) : addr :=
  match a with A16 b => if take 12 b =?? v4_prefix then A4 (drop 12 b) else a | A4 _ => a end.
Definition AddrString (a : addr) : string :=
  match a with
  | A4 b => v4_string b
  | A16 b => if take 12 b =?? v4_prefix then "::ffff:" +:+ v4_string (drop 12 b) else v6_string b
  end.
(** [netip.ParseAddr] with its zone. *)
Definition ParseAddrZone (s : string) : option (addr * string) :=
  is6 ← addr_family (bytes_of s);
  if (is6 : bool) then
    match index_byte s "%" with
    | None => (fun b => (A16 b, "")) <$> parseIPv6 (bytes_of s)
    | Some i =>
      let zone := str_drop (S i) s in
      if zone =?? "" then None else (fun b => (A16 b, zone)) <$> parseIPv6 (bytes_of (str_take i s))
    end
  else (fun b => (A4 b, "")) <$> parseIPv4 (bytes_of s).

Record Prefix := mkPrefix { pAddr : addr; pBits : Z }.
Definition last_index_byte (s : string) (c : ascii) : option nat :=
  (fun j => (String.length s - 1 - j)%nat) <$> index_byte (str_rev s) c.
(** The digits of a prefix length: a number of more than one digit starts
    with one to nine. *)
Definition prefix_bits (s : string) : option Z :=
  match bytes_of s with
  | [] => None
  | c :: l =>
    if negb (length l =? 0)%nat && negb (in_range "1" "9" c) then None
    else if forallb is_digit (c :: l) then Some (Z.of_N (dec_value_go 0 s)) else None
  end.
Definition ParsePrefix (s : string) : option Prefix :=
  i ← last_index_byte s "/";
  a ← ParseAddr (str_take i s);
  n ← prefix_bits (str_drop (S i) s);
  if BitLen a <? n then None else Some (mkPrefix a n).
Definition Masked (p : Prefix) : Prefix :=
  mkPrefix (match pAddr p with A4 b => A4 (mask_bytes (pBits p) b) | A16 b => A16 (mask_bytes (pBits p) b) end)
    (pBits p).
(** [Prefix.Contains]: same family, and equal on the bits of the prefix. *)
Definition Contains (p : Prefix) (a : addr) : bool :=
  (BitLen (pAddr p) =? BitLen a) &&
  (mask_bytes (pBits p) (addr_bytes (pAddr p)) =?? mask_bytes (pBits p) (addr_bytes a)).
Definition PrefixString (p : Prefix) : string := AddrString (pAddr p) +:+ "/" +:+ dec_of_Z (pBits p).

(** ** Masks *)

Lemma mask8_le j k : 0 <= j <= k → k <= 8 →
  Z.land (Z.shiftl (Z.ones k) (8 - k)) (Z.shiftl (Z.ones j) (8 - j)) = Z.shiftl (Z.ones j) (8 - j).
Proof.
  intros Hj Hk. apply Z.bits_inj'. intros i Hi. rewrite Z.land_spec, !Z.shiftl_spec by lia.
  destruct (Z.ltb_spec i (8 - j)).
  - by rewrite (Z.testbit_neg_r _ (i - (8 - j))), andb_false_r by lia.
  - rewrite !Z.testbit_ones by lia. apply eq_iff_eq_true. go_bool. lia.
Qed.
Lemma mask_bytes_le m n b : m <= n → mask_bytes m (mask_bytes n b) = mask_bytes m b.
Proof.
  intros Hm. apply list_eq. intros i. unfold mask_bytes. rewrite !list_lookup_imap.
  destruct (b !! i) as [x|]; [|done]. cbn. f_equal. unfold mask_byte.
  rewrite <- Z.land_assoc. f_equal. apply mask8_le; lia.
Qed.
Lemma mask_bytes_idem n b : mask_bytes n (mask_bytes n b) = mask_bytes n b.
Proof. apply mask_bytes_le. lia. Qed.
Lemma mask_bytes_wf k n b : wf_bytes k b → wf_bytes k (mask_bytes n b).
Proof.
  intros [Hl Hb]. split; [unfold mask_bytes; by rewrite length_imap|].
  apply Forall_lookup. intros i x. unfold mask_bytes. rewrite list_lookup_imap.
  destruct (b !! i) as [y|] eqn:E; [|done]. intros [= <-].
  rewrite Forall_lookup in Hb. specialize (Hb _ _ E). unfold byte_range, mask_byte in *.
  set (m := Z.shiftl _ _).
  assert (Z.land y m = Z.land y m mod 2 ^ 8) as ->; [|apply Z.mod_pos_bound; lia].
  rewrite <- Z.land_ones, <- Z.land_assoc, (Z.land_comm m), Z.land_assoc, Z.land_ones by lia.
  rewrite (Z.mod_small y); [done|]. change (2 ^ 8) with 256. lia.
Qed.
Lemma mask_all k n b : wf_bytes k b → 8 * Z.of_nat k <= n → mask_bytes n b = b.
Proof.
  intros [Hl Hb] Hn. apply list_eq. intros i. unfold mask_bytes. rewrite list_lookup_imap.
  destruct (b !! i) as [y|] eqn:E; [|done]. cbn. f_equal.
  pose proof (lookup_lt_Some _ _ _ E). rewrite Forall_lookup in Hb. specialize (Hb _ _ E).
  unfold mask_byte, byte_range in *. replace (Z.max 0 (Z.min 8 (n - 8 * Z.of_nat i))) with 8 by lia.
  change (Z.shiftl (Z.ones 8) (8 - 8)) with (Z.ones 8). rewrite Z.land_ones by lia. apply Z.mod_small. lia.
Qed.
Lemma mask_none n b : n <= 0 → mask_bytes n b = replicate (length b) 0.
Proof.
  intros Hn. apply list_eq. intros i. unfold mask_bytes. rewrite list_lookup_imap.
  destruct (b !! i) as [y|] eqn:E.
  - cbn. symmetry. rewrite lookup_replicate. split; [|by eapply lookup_lt_Some].
    unfold mask_byte. replace (Z.max 0 (Z.min 8 (n - 8 * Z.of_nat i))) with 0 by lia.
    cbn. by rewrite Z.land_0_r.
  - cbn. symmetry. apply lookup_ge_None. rewrite length_replicate. by apply lookup_ge_None.
Qed.

Lemma Contains_Masked p a : Contains (Masked p) a = Contains p a.
Proof.
  unfold Contains, Masked. destruct p as [[b|b] n]; cbn [pAddr pBits BitLen addr_bytes]; by rewrite mask_bytes_idem.
Qed.
(** A prefix inside another: what it contains, the other contains. *)
Lemma Contains_trans outer inner a :
  pBits outer <= pBits inner → Contains outer (pAddr inner) = true →
  Contains inner a = true → Contains outer a = true.
Proof.
  unfold Contains. intros Hb. rewrite !andb_true_iff, !Z.eqb_eq, !bool_decide_eq_true.
  intros [H1 H2] [H3 H4]. split; [congruence|]. rewrite H2.
  apply (f_equal (mask_bytes (pBits outer))) in H4. by rewrite !mask_bytes_le in H4 by done.
Qed.
(** Two prefixes of one family that share an address are nested. *)
Lemma Contains_overlap p q a :
  Contains p a = true → Contains q a = true →
  Contains p (pAddr q) = true ∨ Contains q (pAddr p) = true.
Proof.
  unfold Contains. rewrite !andb_true_iff, !Z.eqb_eq, !bool_decide_eq_true.
  intros [H1 H2] [H3 H4]. destruct (Z.le_ge_cases (pBits p) (pBits q)) as [Hle|Hle]; [left|right].
  - split; [congruence|]. rewrite H2. apply (f_equal (mask_bytes (pBits p))) in H4.
    rewrite !mask_bytes_le in H4 by done. done.
  - split; [congruence|]. rewrite H4. apply (f_equal (mask_bytes (pBits q))) in H2.
    rewrite !mask_bytes_le in H2 by done. done.
Qed.
Lemma Contains_self_addr p a :
  wf_addr (pAddr p) → wf_addr a → BitLen (pAddr p) <= pBits p → Contains p a = true → a = pAddr p.
Proof.
  intros Hp Ha Hb. unfold Contains. rewrite andb_true_iff, Z.eqb_eq, bool_decide_eq_true.
  destruct p as [[b|b] n], a as [c|c]; cbn [pAddr pBits BitLen addr_bytes wf_addr] in *; intros [? H]; try lia.
  - rewrite !(mask_all 4) in H by (done || lia). congruence.
  - rewrite !(mask_all 16) in H by (done || lia). congruence.
Qed.

(** ** Printed prefixes *)

Lemma prefix_len_digits n : 0 <= n <= 128 →
  prefix_bits (dec_of_Z n) = Some n ∧ dtoi 0 (bytes_of (dec_of_Z n)) = Some n ∧ dec_of_Z n ≠ "".
Proof.
  intros Hn.
  assert (forallb (fun n => bool_decide (prefix_bits (dec_of_Z n) = Some n ∧
    dtoi 0 (bytes_of (dec_of_Z n)) = Some n ∧ dec_of_Z n ≠ "")) (seqZ 0 129) = true) as H
    by (vm_compute; reflexivity).
  rewrite forallb_elem_of in H. specialize (H n). rewrite elem_of_seqZ in H.
  specialize (H ltac:(lia)). by apply bool_decide_eq_true in H.
Qed.
Lemma dec_no_slash n : 0 <= n → "/"%char ∉ bytes_of (dec_of_Z n).
Proof. by intros Hn H%dec_of_Z_digit. Qed.
Lemma v4_no_slash b : Forall byte_range b → "/"%char ∉ bytes_of (v4_string b).
Proof. by intros Hb [H|H]%v4_string_bytes. Qed.
Lemma v6_no_slash b : "/"%char ∉ bytes_of (v6_string b).
Proof. by intros [H|H]%v6_string_bytes. Qed.

Lemma last_index_slash s d :
  "/"%char ∉ bytes_of d → last_index_byte (s +:+ "/" +:+ d) "/" = Some (String.length s).
Proof.
  intros Hd. unfold last_index_byte. rewrite !str_rev_app, !str_app_assoc. change (str_rev "/") with "/".
  change ("/" +:+ str_rev s) with (String "/" (str_rev s)). rewrite index_byte_app.
  - cbn [fmap option_fmap option_map]. f_equal. rewrite str_rev_length, !str_length_app. cbn [String.length]. lia.
  - apply index_byte_None. unfold str_rev. rewrite bytes_of_of. by rewrite elem_of_reverse.
Qed.
Lemma index_slash s d : "/"%char ∉ bytes_of s → index_byte (s +:+ "/" +:+ d) "/" = Some (String.length s).
Proof. intros Hs. by apply (index_byte_app s "/" d), index_byte_None. Qed.
Lemma slash_split s d :
  str_take (String.length s) (s +:+ "/" +:+ d) = s ∧ str_drop (S (String.length s)) (s +:+ "/" +:+ d) = d.
Proof. split; [apply str_take_app|]. induction s as [|c s IH]; [done|exact IH]. Qed.

Lemma ParsePrefix_print s a n :
  ParseAddr s = Some a → 0 <= n <= BitLen a → ParsePrefix (s +:+ "/" +:+ dec_of_Z n) = Some (mkPrefix a n).
Proof.
  intros Ha Hn. assert (0 <= n <= 128) as Hn' by (destruct a; cbn in Hn; lia).
  unfold ParsePrefix. rewrite last_index_slash by (apply dec_no_slash; lia). cbn [mbind option_bind].
  destruct (slash_split s (dec_of_Z n)) as [-> ->]. rewrite Ha. cbn [mbind option_bind].
  destruct (prefix_len_digits n Hn') as (-> & _). cbn [mbind option_bind].
  destruct (BitLen a <? n) eqn:E; [apply Z.ltb_lt in E; lia|done].
Qed.
Lemma ParseCIDR_print s a n :
  ParseAddr s = Some a → "/"%char ∉ bytes_of s → 0 <= n <= BitLen a →
  ParseCIDR (s +:+ "/" +:+ dec_of_Z n) = Some (As16 a, match a with
    | A4 b => mkNet (mask_bytes n b) n 4 | A16 b => mkNet (mask_bytes n b) n 16 end).
Proof.
  intros Ha Hs Hn. assert (0 <= n <= 128) as Hn' by (destruct a; cbn in Hn; lia).
  unfold ParseCIDR. rewrite index_slash by done. cbn [mbind option_bind].
  destruct (slash_split s (dec_of_Z n)) as [-> ->]. rewrite Ha. cbn [mbind option_bind].
  destruct (prefix_len_digits n Hn') as (_ & -> & Hd). rewrite bool_decide_eq_false_2 by done.
  cbn [mbind option_bind]. destruct (BitLen a <? n) eqn:E; [apply Z.ltb_lt in E; lia|done].
Qed.

(** The alphabet of addresses: a slash is never part of one. *)
Definition addr_byte (c : ascii) : Prop := is_Some (hex_value c) ∨ c = "."%char ∨ c = ":"%char.
Lemma v4_fields_bytes acc val len s b : v4_fields acc val len s = Some b → Forall addr_byte s.
Proof.
  revert acc val len. induction s as [|c s IH]; intros acc val len; cbn [v4_fields]; [done|].
  destruct (is_digit c) eqn:Ed.
  - destruct (_ && _); [done|]. destruct (255 <? _); [done|]. intros H%IH. constructor; [|done].
    left. unfold hex_value. rewrite Ed. eauto.
  - destruct (c =?? _) eqn:E; [|done]. destruct (_ || _)%nat; [done|]. intros H%IH. constructor; [|done].
    apply bool_decide_eq_true in E. unfold addr_byte. auto.
Qed.
Lemma hex_group_bytes off acc s v k rest :
  hex_group off acc s = Some (v, k, rest) → ∃ p, s = p ++ rest ∧ Forall addr_byte p.
Proof.
  revert off acc. induction s as [|c s IH]; intros off acc; cbn [hex_group].
  - intros [= _ _ <-]. by exists [].
  - destruct (hex_value c) eqn:Ec.
    + destruct (3 <? off)%nat; [done|]. intros (p & -> & Hp)%IH. exists (c :: p). split; [done|].
      constructor; [left; eauto|done].
    + intros [= _ _ <-]. by exists [].
Qed.
Lemma v6_groups_bytes fuel ip ell s ip' ell' s' :
  v6_groups fuel ip ell s = Some (ip', ell', s') → Forall addr_byte s' → Forall addr_byte s.
Proof.
  revert ip ell s. induction fuel as [|fuel IH]; intros ip ell s; cbn [v6_groups].
  { by intros [= <- <- <-]. }
  destruct (hex_group 0 0 s) as [[[acc off] rest]|] eqn:Eg; [|done]. cbn [mbind option_bind].
  apply hex_group_bytes in Eg as (p & -> & Hp). destruct (off =? 0)%nat; [done|].
  rewrite Forall_app. destruct rest as [|c rest]; [done|].
  assert (addr_byte ":") as Hcol by (unfold addr_byte; auto).
  destruct (c =?? "."%char) eqn:Ed.
  { destruct (_ || _); [done|]. destruct (parseIPv4 _) as [q|] eqn:Eq; [|done]. intros [= <- <- <-] _.
    apply v4_fields_bytes in Eq. by rewrite Forall_app in Eq. }
  destruct (c =?? ":"%char) eqn:Ec; [|done]. apply bool_decide_eq_true in Ec as ->. cbn [negb].
  destruct rest as [|c2 rest2]; [done|]. destruct (c2 =?? ":"%char) eqn:Ec2.
  - apply bool_decide_eq_true in Ec2 as ->. destruct ell; [done|]. destruct rest2.
    + intros [= <- <- <-] _. auto.
    + intros H Hs. split; [done|]. constructor; [done|]. constructor; [done|by eapply IH].
  - intros H Hs. split; [done|]. constructor; [done|by eapply IH].
Qed.
Lemma parseIPv6_bytes s b : parseIPv6 s = Some b → Forall addr_byte s.
Proof.
  assert (addr_byte ":") as Hcol by (unfold addr_byte; auto).
  assert (∀ ell s, v6_groups 8 [] ell s ≫= v6_finish = Some b → Forall addr_byte s) as H.
  { intros ell s' H. destruct (v6_groups 8 [] ell s') as [[[ip' ell'] s'']|] eqn:Eg; [|done].
    apply v6_groups_bytes in Eg; [done|]. cbn in H. by destruct s''. }
  destruct s as [|c1 s]; [by apply H|]. destruct (decide (c1 = ":"%char)) as [->|Hc1].
  - destruct s as [|c2 s]; [by apply H|]. destruct (decide (c2 = ":"%char)) as [->|Hc2].
    + destruct s as [|c3 s]; [by repeat constructor|].
      rewrite parseIPv6_elided. intros Hs%H. by repeat (constructor; [done|]).
    + intros Hp. apply (H None (":"%char :: c2 :: s)).
      rewrite <- Hp. destruct c2 as [[] [] [] [] [] [] [] []]; done.
  - rewrite parseIPv6_plain by done. by apply H.
Qed.
Lemma ParseAddr_bytes s a : ParseAddr s = Some a → Forall addr_byte (bytes_of s).
Proof.
  unfold ParseAddr. destruct (existsb _ _); [done|]. destruct (addr_family _) as [[]|]; [| |done];
    cbn [mbind option_bind].
  - destruct (parseIPv6 _) eqn:E; [|done]. intros _. by eapply parseIPv6_bytes.
  - destruct (parseIPv4 _) eqn:E; [|done]. intros _. by eapply v4_fields_bytes.
Qed.
Lemma ParseAddr_no_slash s a : ParseAddr s = Some a → "/"%char ∉ bytes_of s.
Proof.
  intros H%ParseAddr_bytes Hin. rewrite Forall_forall in H. destruct (H _ Hin) as [[v Hv]|[?|?]]; done.
Qed.
Lemma ParseAddr_prefix_None s d : ParseAddr (s +:+ "/" +:+ d) = None.
Proof.
  destruct (ParseAddr _) eqn:E; [|done]. apply ParseAddr_no_slash in E. exfalso. apply E.
  rewrite !bytes_of_app. cbn. set_solver.
Qed.
Lemma ParsePrefix_addr_None s a : ParseAddr s = Some a → ParsePrefix s = None.
Proof.
  intros H%ParseAddr_no_slash. unfold ParsePrefix, last_index_byte.
  assert (index_byte (str_rev s) "/" = None) as ->; [|done].
  apply index_byte_None. unfold str_rev. by rewrite bytes_of_of, elem_of_reverse.
Qed.

(** ** Mapped addresses and networks *)

Definition mapped (b : list Z) : bool := take 12 b =?? v4_prefix.
Lemma To4_16 b : wf_bytes 16 b → To4 b = if mapped b then Some (drop 12 b) else None.
Proof. intros [Hl _]. unfold To4, mapped. rewrite Hl. done. Qed.
Lemma To4_4 b : wf_bytes 4 b → To4 b = Some b.
Proof. intros [Hl _]. unfold To4. by rewrite Hl. Qed.
Lemma mapped_join b : mapped b = true → b = v4_prefix ++ drop 12 b.
Proof. unfold mapped. rewrite bool_decide_eq_true. intros <-. by rewrite take_drop. Qed.
Lemma mapped_prefix b : mapped (v4_prefix ++ b) = true ∧ drop 12 (v4_prefix ++ b) = b.
Proof. done. Qed.
Lemma wf_bytes_drop12 b : wf_bytes 16 b → wf_bytes 4 (drop 12 b).
Proof. intros [Hl Hb]. split; [rewrite length_drop; lia|by apply Forall_drop]. Qed.
Lemma wf_bytes_v4_prefix b : wf_bytes 4 b → wf_bytes 16 (v4_prefix ++ b).
Proof.
  intros [Hl Hb]. split; [rewrite length_app; cbn; lia|]. apply Forall_app. split; [|done].
  by repeat (constructor; [unfold byte_range; lia|]).
Qed.
Lemma wf_As16 a : wf_addr a → wf_bytes 16 (As16 a).
Proof. destruct a; [apply wf_bytes_v4_prefix|done]. Qed.

Lemma mask_byte_full n i x : byte_range x → mask_byte n i x = 255 → 8 * Z.of_nat i + 8 <= n.
Proof.
  intros Hx. unfold mask_byte. set (k := Z.max 0 (Z.min 8 (n - 8 * Z.of_nat i))). intros H.
  destruct (decide (k = 8)); [lia|]. exfalso.
  assert (Z.testbit (Z.land x (Z.shiftl (Z.ones k) (8 - k))) 0 = false) as H0.
  { rewrite Z.land_spec, Z.shiftl_spec by lia. rewrite (Z.testbit_neg_r _ (0 - (8 - k))) by lia.
    by rewrite andb_false_r. }
  rewrite H in H0. done.
Qed.
Lemma mask_byte_id n i x : byte_range x → 8 * Z.of_nat i + 8 <= n → mask_byte n i x = x.
Proof.
  intros Hx Hn. unfold mask_byte. replace (Z.max 0 (Z.min 8 (n - 8 * Z.of_nat i))) with 8 by lia.
  change (Z.shiftl (Z.ones 8) (8 - 8)) with (Z.ones 8). rewrite Z.land_ones by lia. apply Z.mod_small.
  unfold byte_range in Hx. lia.
Qed.
(** Masking keeps an address inside, and outside, the mapped range, or takes
    it out. *)
Lemma mapped_mask n b : wf_bytes 16 b → mapped (mask_bytes n b) = true → 96 <= n ∧ mapped b = true.
Proof.
  intros [Hl Hb] Hm. unfold mapped in *. rewrite bool_decide_eq_true in *.
  assert (96 <= n) as Hn.
  { apply (f_equal (fun l => l !! 11%nat)) in Hm.
    rewrite lookup_take_lt in Hm by lia. unfold mask_bytes in Hm. rewrite list_lookup_imap in Hm.
    destruct (b !! 11%nat) as [x|] eqn:E; [|done]. injection Hm as Hm.
    rewrite Forall_lookup in Hb. apply mask_byte_full in Hm; [lia|eauto]. }
  split; [done|]. rewrite <- Hm. apply list_eq. intros i.
  destruct (decide (i < 12)%nat) as [Hi|]; [|by rewrite !lookup_take_ge by lia].
  rewrite !lookup_take_lt by done. unfold mask_bytes. rewrite list_lookup_imap.
  destruct (b !! i) as [x|] eqn:E; [|done]. cbn. f_equal. symmetry. rewrite Forall_lookup in Hb.
  apply mask_byte_id; [eauto|lia].
Qed.
Lemma drop_mask n b : drop 12 (mask_bytes n b) = mask_bytes (n - 96) (drop 12 b).
Proof.
  apply list_eq. intros i. rewrite lookup_drop. unfold mask_bytes. rewrite !list_lookup_imap, lookup_drop.
  destruct (b !! (12 + i)%nat) as [x|]; [|done]. cbn. f_equal. unfold mask_byte.
  replace (n - 96 - 8 * Z.of_nat i) with (n - 8 * Z.of_nat (12 + i)) by lia. done.
Qed.
Lemma dtoi_nonneg n l v : 0 <= n → dtoi n l = Some v → 0 <= v.
Proof.
  revert n. induction l as [|c l IH]; intros n Hn; cbn [dtoi]; [by intros [= <-]|].
  destruct (is_digit c) eqn:E; [|done]. destruct (_ <=? _); [done|]. apply IH.
  unfold is_digit, in_range in E. change (code "0") with 48 in E. go_bool. lia.
Qed.
Lemma ParseCIDR_inv s ip net :
  ParseCIDR s = Some (ip, net) → ∃ a, wf_addr a ∧ ip = As16 a ∧ 0 <= ones net <= BitLen a ∧
    net = match a with A4 b => mkNet (mask_bytes (ones net) b) (ones net) 4
                     | A16 b => mkNet (mask_bytes (ones net) b) (ones net) 16 end.
Proof.
  unfold ParseCIDR. destruct (index_byte s "/") as [i|]; [|done]. cbn [mbind option_bind].
  destruct (ParseAddr _) as [a|] eqn:Ea; [|done]. cbn [mbind option_bind]. case_bool_decide; [done|].
  destruct (dtoi _ _) as [n|] eqn:En; [|done]. cbn [mbind option_bind].
  destruct (BitLen a <? n) eqn:E; [done|]. apply Z.ltb_ge in E. intros [= <- <-].
  apply ParseAddr_wf in Ea. apply dtoi_nonneg in En; [|done]. exists a. by destruct a.
Qed.

(** ** What a source stands for

    [denotes v] is the prefix an operator's address or network [v] names:
    the parsed address alone, or the parsed network, with the mapped range
    read as IPv4. *)
Definition full (a : addr) : Prefix := mkPrefix a (BitLen a).
Definition denotes (v : string) : option Prefix :=
  match ParseIP v with
  | Some ip => Some (full (Unmap (A16 ip)))
  | None =>
    '(_, net) ← ParseCIDR v;
    match To4 (netIP net) with
    | Some b => Some (mkPrefix (A4 b) (if (maskLen net =? 16)%nat then ones net - 96 else ones net))
    | None => Some (mkPrefix (A16 (netIP net)) (ones net))
    end
  end.

(** Canonical text of a prefix, as the normalizers print it. *)
Definition native (a : addr) : Prop := match a with A4 _ => True | A16 b => mapped b = false end.
Definition addr_text (a : addr) : string := match a with A4 b => v4_string b | A16 b => v6_string b end.
Inductive canonical : string → Prefix → Prop :=
| canonical_addr a : wf_addr a → native a → canonical (addr_text a) (full a)
| canonical_prefix a n :
    wf_addr a → native a → 0 <= n <= BitLen a → pAddr (Masked (mkPrefix a n)) = a →
    canonical (addr_text a +:+ "/" +:+ dec_of_Z n) (mkPrefix a n).

Lemma ParseAddr_text a : wf_addr a → ParseAddr (addr_text a) = Some a.
Proof. destruct a; [apply ParseAddr_v4|apply ParseAddr_v6]. Qed.
Lemma canonical_wf c p : canonical c p →
  wf_addr (pAddr p) ∧ native (pAddr p) ∧ 0 <= pBits p <= BitLen (pAddr p) ∧ pAddr (Masked p) = pAddr p.
Proof.
  intros H. destruct H as [a Ha Hn|a n Ha Hn Hb Hm]; [|done].
  destruct a as [b|b]; (split; [exact Ha|split; [exact Hn|split; [cbn; lia|]]]); cbn; f_equal.
  - by apply (mask_all 4).
  - by apply (mask_all 16).
Qed.
Lemma Unmap_As16 a : native a → Unmap (A16 (As16 a)) = a.
Proof.
  destruct a as [b|b]; cbn [native As16 Unmap].
  - intros _. destruct (mapped_prefix b) as [Hm Hd]. unfold mapped in Hm. by rewrite Hm, Hd.
  - unfold mapped. by intros ->.
Qed.
Lemma denotes_canonical c p : canonical c p → denotes c = Some p.
Proof.
  intros H. pose proof (canonical_wf _ _ H) as (Hw & Hna & Hr & Hma). unfold denotes, ParseIP.
  destruct H as [a Ha Hn|a n Ha Hn Hb Hm].
  - rewrite ParseAddr_text by done. cbn [fmap option_fmap option_map]. by rewrite Unmap_As16.
  - rewrite ParseAddr_prefix_None. cbn [fmap option_fmap option_map].
    rewrite (ParseCIDR_print _ a) by (eauto using ParseAddr_text, ParseAddr_no_slash).
    destruct a as [b|b]; cbn in *; injection Hm as Hm; rewrite Hm.
    + by rewrite To4_4.
    + by rewrite To4_16, Hn.
Qed.
Lemma netip_canonical c p : canonical c p →
  (ParsePrefix c = Some p ∧ ParseAddr c = None) ∨
  (ParsePrefix c = None ∧ ParseAddr c = Some (pAddr p) ∧ p = full (pAddr p)).
Proof.
  intros [a Ha Hn|a n Ha Hn Hb Hm].
  - right. pose proof (ParseAddr_text a Ha) as E. split_and!; [by eapply ParsePrefix_addr_None|done|done].
  - left. split; [|apply ParseAddr_prefix_None]. apply ParsePrefix_print; [by apply ParseAddr_text|done].
Qed.

(** Text without white space, quotes or controls. *)
Definition plain_byte (c : ascii) : Prop := 33 <= code c <= 126 ∧ code c ≠ 34 ∧ code c ≠ 92.
Lemma canonical_bytes c p x : canonical c p → x ∈ bytes_of c → plain_byte x.
Proof.
  assert (∀ x, is_hex_lower x = true → plain_byte x) as Hhex.
  { intros y. unfold is_hex_lower, is_digit, in_range, plain_byte.
    change (code "0") with 48; change (code "9") with 57; change (code "a") with 97; change (code "f") with 102.
    rewrite orb_true_iff, !andb_true_iff, !Z.leb_le. lia. }
  assert (∀ x, is_digit x = true → plain_byte x) as Hdig.
  { intros y Hy. apply Hhex. unfold is_hex_lower. by rewrite Hy. }
  assert (∀ a x, wf_addr a → x ∈ bytes_of (addr_text a) → plain_byte x) as Haddr.
  { intros [b|b] y Ha; cbn [addr_text].
    - intros [?| ->]%v4_string_bytes; [eauto|done|apply Ha].
    - intros [?| ->]%v6_string_bytes; [eauto|done]. }
  intros [a Ha Hn|a n Ha Hn Hb Hm]; [by eapply Haddr|].
  rewrite !bytes_of_app, !elem_of_app. intros [H|[H|H]]; [by eapply Haddr| |].
  - apply list_elem_of_singleton in H as ->. done.
  - apply Hdig. eapply dec_of_Z_digit; [|exact H]. lia.
Qed.

Lemma plain_clean s :
  Forall plain_byte (bytes_of s) → clean white_runes s ∧ clean (map str_rev white_runes) s.
Proof.
  intros Hs. destruct s as [|c s]; [split; vm_compute; reflexivity|].
  cbn [bytes_of] in Hs. apply Forall_inv in Hs as [Hc _].
  assert (∀ ws, forallb (fun w => match w with "" => false | String d _ => negb ((33 <=? code d) && (code d <=? 126)) end) ws = true →
    clean ws (String c s)) as H.
  { intros ws Hw. apply clean_spec. intros w Hin. rewrite forallb_elem_of in Hw. specialize (Hw w Hin).
    destruct w as [|d w]; [done|]. cbn [has_prefix]. rewrite andb_false_iff. left.
    apply bool_decide_eq_false. intros ->. go_bool. lia. }
  split; apply H; vm_compute; reflexivity.
Qed.
Lemma trim_space_plain s : Forall plain_byte (bytes_of s) → trim_space s = s.
Proof.
  intros Hs. unfold trim_space, trim_left.
  rewrite (trim_left_go_id _ _ _ (proj1 (plain_clean s Hs))).
  assert (Forall plain_byte (bytes_of (str_rev s))) as Hr
    by (unfold str_rev; rewrite bytes_of_of; by apply Forall_reverse).
  unfold trim_right. rewrite (trim_left_go_id _ _ _ (proj2 (plain_clean _ Hr))). apply str_rev_involutive.
Qed.
Lemma trim_canonical c p : canonical c p → trim_space c = c.
Proof.
  intros H. apply trim_space_plain, Forall_forall. intros x. by apply (canonical_bytes c p).
Qed.
Lemma canonical_nonempty c p : canonical c p → c ≠ "".
Proof. intros H ->. apply denotes_canonical in H. done. Qed.

(** The network of a parsed prefix, printed, is canonical. *)
Definition net_prefix (net : IPNet) : Prefix :=
  match To4 (netIP net) with
  | Some b => mkPrefix (A4 b) (if (maskLen net =? 16)%nat then ones net - 96 else ones net)
  | None => mkPrefix (A16 (netIP net)) (ones net)
  end.
Lemma ParseCIDR_shape v ip net : ParseCIDR v = Some (ip, net) →
  Forall plain_byte (bytes_of v) ∧ "/"%char ∈ bytes_of v.
Proof.
  unfold ParseCIDR. destruct (index_byte v "/") as [i|] eqn:Ei; [|done]. cbn [mbind option_bind].
  destruct (ParseAddr _) as [a|] eqn:Ea; [|done]. cbn [mbind option_bind]. case_bool_decide; [done|].
  destruct (dtoi _ _) as [n|] eqn:En; [|done]. intros _.
  apply index_byte_Some in Ei as (Hv & _ & _).
  assert (Forall plain_byte (bytes_of (str_take i v))) as H1.
  { eapply Forall_impl; [by apply (ParseAddr_bytes _ _ Ea)|].
    intros x [[d Hd]|[-> | ->]]; [|done..]. unfold hex_value, is_digit, in_range in Hd. unfold plain_byte.
    repeat case_match; simplify_eq; go_bool;
    change (code "0") with 48 in *; change (code "9") with 57 in *; change (code "a") with 97 in *;
    change (code "f") with 102 in *; change (code "A") with 65 in *; change (code "F") with 70 in *; lia. }
  assert (∀ l m k, dtoi m l = Some k → Forall plain_byte l) as Hd.
  { induction l as [|c l IH]; intros m k; cbn [dtoi]; [constructor|]. destruct (is_digit c) eqn:E; [|done].
    destruct (_ <=? _); [done|]. intros H2%IH. constructor; [|done]. unfold is_digit, in_range in E.
    change (code "0") with 48 in *; change (code "9") with 57 in *. unfold plain_byte. go_bool. lia. }
  apply Hd in En. rewrite Hv, bytes_of_app. cbn [bytes_of]. split; [|set_solver].
  apply Forall_app. split; [done|]. constructor; [done|]. done.
Qed.
Lemma ParseCIDR_denotes v ip net : ParseCIDR v = Some (ip, net) → denotes v = Some (net_prefix net) ∧ trim_space v = v.
Proof.
  intros H. destruct (ParseCIDR_shape _ _ _ H) as [Hp Hs]. split; [|by apply trim_space_plain].
  unfold denotes, ParseIP. destruct (ParseAddr v) eqn:Ea; [by apply ParseAddr_no_slash in Ea|].
  cbn [fmap option_fmap option_map]. rewrite H. cbn [mbind option_bind]. unfold net_prefix. by destruct (To4 _).
Qed.
Lemma NetString_canonical v ip net :
  ParseCIDR v = Some (ip, net) → canonical (NetString net) (net_prefix net).
Proof.
  intros (a & Ha & _ & Hn & Hnet)%ParseCIDR_inv. revert Hnet. generalize dependent (ones net). intros n Hn ->.
  unfold NetString, net_prefix. destruct a as [b|b]; cbn [netIP ones maskLen BitLen wf_addr] in *.
  - pose proof (mask_bytes_wf 4 n b Ha) as Hw. rewrite To4_4 by done.
    apply (canonical_prefix (A4 _)); [done|done|done|]. cbn. by rewrite mask_bytes_idem.
  - pose proof (mask_bytes_wf 16 n b Ha) as Hw. rewrite To4_16 by done.
    destruct (mapped (mask_bytes n b)) eqn:Hm.
    + destruct (mapped_mask n b Ha Hm) as [Hn96 _]. rewrite drop_mask, Z.max_r by lia. cbn [Nat.eqb].
      apply (canonical_prefix (A4 _)); [|done|cbn; lia|].
      * by apply mask_bytes_wf, wf_bytes_drop12.
      * cbn. by rewrite mask_bytes_idem.
    + apply (canonical_prefix (A16 _)); [done|done|cbn; lia|]. cbn. by rewrite mask_bytes_idem.
Qed.
Lemma IPString_canonical ip : wf_bytes 16 ip → canonical (IPString ip) (full (Unmap (A16 ip))).
Proof.
  intros Hw. unfold IPString, Unmap. rewrite To4_16 by done. fold (mapped ip).
  destruct (mapped ip) eqn:Hm.
  - apply (canonical_addr (A4 _)); [by apply wf_bytes_drop12|done].
  - by apply (canonical_addr (A16 _)).
Qed.
Lemma ParseAddrZone_plain s a : ParseAddr s = Some a → ParseAddrZone s = Some (a, "").
Proof.
  unfold ParseAddr, ParseAddrZone. destruct (existsb _ _) eqn:E; [done|].
  assert (index_byte s "%" = None) as Hi.
  { apply index_byte_None. intros Hin. apply not_true_iff_false in E. apply E, existsb_elem_of.
    exists "%"%char. split; [done|]. by apply bool_decide_eq_true. }
  destruct (addr_family _) as [[]|]; [| |done]; cbn [mbind option_bind].
  - rewrite Hi. destruct (parseIPv6 _); [|done]. by intros [= <-].
  - destruct (parseIPv4 _); [|done]. by intros [= <-].
Qed.
Lemma AddrString_native a : native a → AddrString a = addr_text a.
Proof. destruct a as [b|b]; [done|]. cbn [native AddrString addr_text]. unfold mapped. by intros ->. Qed.
Lemma canonical_slash c p : canonical c p → "/"%char ∈ bytes_of c →
  c = addr_text (pAddr p) +:+ "/" +:+ dec_of_Z (pBits p).
Proof.
  intros [a Ha Hn|a n Ha Hn Hb Hm] Hs; [|done]. pose proof (ParseAddr_text a Ha) as E.
  by apply ParseAddr_no_slash in E.
Qed.
Lemma NetString_slash net : "/"%char ∈ bytes_of (NetString net).
Proof. unfold NetString. destruct (To4 _); rewrite !bytes_of_app; cbn; set_solver. Qed.
Lemma last_index_byte_Some s c i :
  last_index_byte s c = Some i → ∃ p t, s = p +:+ String c t ∧ String.length p = i.
Proof.
  unfold last_index_byte. destruct (index_byte (str_rev s) c) as [j|] eqn:Ej; [|done]. intros [= <-].
  apply index_byte_Some in Ej as (Hs & _ & Hj). set (x := str_take j (str_rev s)) in *.
  set (y := str_drop (S j) (str_rev s)) in *. exists (str_rev y), (str_rev x).
  assert (s = str_rev y +:+ String c (str_rev x)) as E.
  { rewrite <- (str_rev_involutive s), Hs, str_rev_app. change (String c y) with (str1 c +:+ y).
    rewrite str_rev_app, str_app_assoc. done. }
  split; [done|]. rewrite E at 1. rewrite str_length_app. cbn [String.length].
  rewrite !str_rev_length, Hj. lia.
Qed.
