(* ===== verification/Totp.v ===== *)
(** * Time-based one-time codes ([internal/auth/totp.go])

    Base32 secrets, the HOTP truncation over HMAC-SHA1 and the validation of a
    submitted code against the three steps around the clock. *)

From Stdlib Require Import ZArith Lia Ascii.
From S2P Require Import Prelude GoStr Sha.

Local Open Scope Z_scope.

Definition totpDigits : nat := 6.
Definition totpPeriodSecs : Z := 30.

(** Seconds from the zero time to 1970. *)
Definition unix_zero : Z := 62135596800.
Definition unix (t : time) : Z := t / second - unix_zero.

(** ** Base32 *)

(** The standard alphabet; [None] is a byte outside it. *)
Definition base32_value (c : ascii) : option Z :=
  if in_range "A" "Z" c then Some (code c - 65)
  else if in_range "2" "7" c then Some (code c - 24)
  else None.

(** One group of at most eight digits.  A short group ends the input; the
    decoder without padding emits the whole bytes it has bits for, and drops
    what is left without an error. *)
Definition base32_group (d : list Z) : list Z :=
  let d' := d ++ replicate (8 - length d) 0 in
  let x i := nthz i d' in
  let b0 := Z.land (Z.lor (Z.shiftl (x 0%nat) 3) (shr 2 (x 1%nat))) 255 in
  let b1 := Z.land (Z.lor (Z.shiftl (x 1%nat) 6) (Z.lor (Z.shiftl (x 2%nat) 1) (shr 4 (x 3%nat)))) 255 in
  let b2 := Z.land (Z.lor (Z.shiftl (x 3%nat) 4) (shr 1 (x 4%nat))) 255 in
  let b3 := Z.land (Z.lor (Z.shiftl (x 4%nat) 7) (Z.lor (Z.shiftl (x 5%nat) 2) (shr 3 (x 6%nat)))) 255 in
  let b4 := Z.land (Z.lor (Z.shiftl (x 6%nat) 5) (x 7%nat)) 255 in
  match length d with
  | 8%nat => [b0; b1; b2; b3; b4]
  | 7%nat => [b0; b1; b2; b3]
  | 5%nat => [b0; b1; b2]
  | 4%nat => [b0; b1]
  | 2%nat => [b0]
  | _ => []
  end.

Fixpoint base32_decode (fuel : nat) (s : list ascii) : option (list Z) :=
  match fuel with
  | O => Some []
  | S fuel =>
    match s with
    | [] => Some []
    | _ =>
      ds ← mapM base32_value (take 8 s);
      rest ← base32_decode fuel (drop 8 s);
      Some (base32_group ds ++ rest)
    end
  end.

(** [strings.TrimRight(s, "=")] and [strings.ReplaceAll(s, " ", "")]. *)
Fixpoint drop_eqs (l : list ascii) : list ascii :=
  match l with c :: l' => if c =?? "="%char then drop_eqs l' else l | [] => [] end.
Definition trim_right_eq (s : string) : string :=
  of_bytes (reverse (drop_eqs (reverse (bytes_of s)))).
Definition remove_bytes (p : ascii → bool) (s : string) : string :=
  of_bytes (List.filter (fun c => negb (p c)) (bytes_of s)).

(** Two runes outside ASCII have an ASCII upper case: long s (C5 BF) and
    dotless i (C4 B1).  Every other one stays outside the base32 alphabet. *)
Fixpoint upper_runes (l : list ascii) : list ascii :=
  match l with
  | a :: ((b :: l') as t) =>
    if (code a =? 197) && (code b =? 191) then "S"%char :: upper_runes l'
    else if (code a =? 196) && (code b =? 177) then "I"%char :: upper_runes l'
    else upper_byte a :: upper_runes t
  | [a] => [upper_byte a]
  | [] => []
  end.

Definition is_eol (c : ascii) : bool := (code c =? 10) || (code c =? 13).

Definition decodeTOTPSecret (secret : string) : option (list Z) :=
  let s := trim_right_eq (remove_bytes (fun c => code c =? 32) (trim_space secret)) in
  let l := List.filter (fun c => negb (is_eol c)) (upper_runes (bytes_of s)) in
  base32_decode (length l) l.

(** ** HOTP *)

Definition counter_bytes (counter : Z) : list Z :=
  bytes_of_word (shr 32 counter) ++ bytes_of_word (w32 counter).

Definition truncated (sum : list Z) : Z :=
  let offset := Z.to_nat (Z.land (nthz (length sum - 1) sum) 0x0f) in
  word_of (Z.land (nthz offset sum) 0x7f) (nthz (offset + 1) sum) (nthz (offset + 2) sum)
    (nthz (offset + 3) sum).

(** The digit loop writes from the right. *)
Definition digits : string := "0123456789".
Fixpoint code_go (i : nat) (v : Z) (out : string) : string :=
  match i with
  | O => out
  | S i => code_go i (v / 10) (String (default "0"%char (bytes_of digits !! Z.to_nat (v mod 10))) out)
  end.
Definition hotp (key : list Z) (counter : Z) : string :=
  let sum := hmac sha1_bytes key (counter_bytes counter) in
  code_go totpDigits (truncated sum mod 1000000) "".

Definition counterAt (t : time) : Z := wrapu64 (unix t) / totpPeriodSecs.

Definition TOTPCodeAt (secret : string) (t : time) : option string :=
  key ← decodeTOTPSecret secret; Some (hotp key (counterAt t)).

(** The candidate loop keeps the last match. *)
Definition totpSteps (counter : Z) : list Z :=
  [counter; wrapu64 (counter + 1)] ++ (if 0 <? counter then [counter - 1] else []).
Definition ValidateTOTPStep (secret code : string) (t : time) : option Z :=
  let code := trim_space code in
  if negb (String.length code =? totpDigits)%nat then None
  else match decodeTOTPSecret secret with
  | None | Some [] => None
  | Some key =>
    fold_left (fun matched c => if hotp key c =?? code then Some c else matched)
      (totpSteps (counterAt t)) None
  end.
Definition ValidateTOTP (secret code : string) (t : time) : bool :=
  match ValidateTOTPStep secret code t with Some _ => true | None => false end.

(** [HashRecoveryCode] and [HashBindingToken]. *)
Definition HashRecoveryCode (c : string) : string := sha256_hex (trim_space c).
Definition HashBindingToken (token : string) : string := sha256_hex token.

(** ** The RFC 4226 vectors, and the RFC 6238 secret in base32 *)

Definition rfc_key : list Z := zbytes "12345678901234567890".
Example hotp_vectors :
  map (hotp rfc_key) [0; 1; 2; 3; 4; 5; 6; 7; 8; 9]
  = ["755224"; "287082"; "359152"; "969429"; "338314"; "254676"; "287922"; "162583"; "399871"; "520489"].
Proof. vm_compute. reflexivity. Qed.
Definition rfc_secret : string := "gezd gnbv gy3t qojq gezd gnbv gy3t qojq==".
Example rfc_secret_decodes : decodeTOTPSecret rfc_secret = Some rfc_key.
Proof. vm_compute. reflexivity. Qed.
Definition unix_time (s : Z) : time := (s + unix_zero) * second.
Example totp_vector : TOTPCodeAt rfc_secret (unix_time 1111111109) = Some "081804".
Proof. vm_compute. reflexivity. Qed.
Example totp_skew :
  map (fun s => ValidateTOTPStep rfc_secret " 081804" (unix_time s))
    [1111111109 - 60; 1111111109 - 30; 1111111109; 1111111109 + 30; 1111111109 + 60]
  = [None; Some 37037036; Some 37037036; Some 37037036; None].
Proof. vm_compute. reflexivity. Qed.

(** ** What validation establishes *)

Lemma fold_match (p : Z → bool) l acc s :
  fold_left (fun matched c => if p c then Some c else matched) l acc = Some s →
  acc = Some s ∨ (s ∈ l ∧ p s = true).
Proof.
  revert acc. induction l as [|c l IH]; intros acc; cbn [fold_left]; [by left|].
  intros [H|[? ?]]%IH; [|set_solver]. destruct (p c) eqn:E; [|by left].
  simplify_eq. set_solver.
Qed.
Lemma fold_match_some (p : Z → bool) l acc :
  (∃ c, c ∈ l ∧ p c = true) →
  is_Some (fold_left (fun matched c => if p c then Some c else matched) l acc).
Proof.
  assert (∀ l acc, is_Some acc →
    is_Some (fold_left (fun matched c => if p c then Some c else matched) l acc)) as Hs.
  { clear. intros l. induction l as [|c l IH]; intros acc Hacc; cbn [fold_left]; [done|].
    apply IH. destruct (p c); [by eexists|done]. }
  intros (c & Hin & Hp). revert acc. induction Hin as [c l|c c' l Hin IH]; intros acc; cbn [fold_left].
  - apply Hs. rewrite Hp. by eexists.
  - by apply IH.
Qed.

Lemma counterAt_range t : 0 <= counterAt t < 2 ^ 60.
Proof.
  unfold counterAt, wrapu64, totpPeriodSecs. pose proof (Z.mod_pos_bound (unix t) (2 ^ 64) ltac:(lia)).
  split; [apply Z.div_pos; lia|apply Z.div_lt_upper_bound; lia].
Qed.

Lemma elem_of_totpSteps t c : c ∈ totpSteps (counterAt t) ↔ 0 <= c ∧ Z.abs (c - counterAt t) <= 1.
Proof.
  pose proof (counterAt_range t). unfold totpSteps, wrapu64.
  rewrite Z.mod_small by lia. destruct (Z.ltb_spec 0 (counterAt t)).
  - rewrite elem_of_app, !elem_of_cons, !elem_of_nil. lia.
  - rewrite app_nil_r, !elem_of_cons, elem_of_nil. lia.
Qed.

Lemma digit_at n : is_digit (default "0"%char (bytes_of digits !! n)) = true.
Proof.
  destruct (bytes_of digits !! n) as [y|] eqn:E; [|done].
  apply list_elem_of_lookup_2 in E. cbn [default]. revert y E. apply Forall_forall.
  apply (bool_decide_unpack _). vm_compute. exact I.
Qed.

Lemma code_go_spec i v out :
  0 <= v →
  ∃ d, code_go i v out = d +:+ out ∧ String.length d = i ∧
       (∀ c, c ∈ bytes_of d → is_digit c = true).
Proof.
  revert v out. induction i as [|i IH]; intros v out Hv; cbn [code_go].
  - exists "". split_and!; [done..|]. cbn. intros c Hc. set_solver.
  - destruct (IH (v / 10) (String (default "0"%char (bytes_of digits !! Z.to_nat (v mod 10))) out)) as (d & -> & Hd & Hc);
      [apply Z.div_pos; lia|].
    set (x := default _ _). exists (d +:+ String x ""). rewrite str_app_assoc. split; [done|].
    rewrite str_length_app, Hd. split; [cbn; lia|]. intros c.
    rewrite bytes_of_app, elem_of_app. intros [?|Hx]; [by apply Hc|].
    cbn in Hx. apply list_elem_of_singleton in Hx as ->. apply digit_at.
Qed.

(** Every code is six decimal digits. *)
Lemma hotp_digits key counter :
  String.length (hotp key counter) = totpDigits ∧
  ∀ c, c ∈ bytes_of (hotp key counter) → is_digit c = true.
Proof.
  unfold hotp. destruct (code_go_spec totpDigits (truncated (hmac sha1_bytes key (counter_bytes counter)) mod 1000000) "")
    as (d & -> & Hl & Hd); [apply Z.mod_pos_bound; lia|]. by rewrite str_app_nil_r.
Qed.

Lemma ValidateTOTPStep_spec secret c t s :
  ValidateTOTPStep secret c t = Some s →
  0 <= s ∧ Z.abs (s - counterAt t) <= 1 ∧
  ∃ key, decodeTOTPSecret secret = Some key ∧ key ≠ [] ∧ hotp key s = trim_space c.
Proof.
  unfold ValidateTOTPStep. destruct (negb _); [done|].
  destruct (decodeTOTPSecret secret) as [[|k key]|] eqn:Ek; [done| |done].
  intros [?|[Hin Hp]]%fold_match; [done|]. apply elem_of_totpSteps in Hin as [? ?].
  apply bool_decide_eq_true in Hp. split_and!; [done..|]. by exists (k :: key).
Qed.

Lemma ValidateTOTPStep_complete secret c t key s :
  decodeTOTPSecret secret = Some key → key ≠ [] → 0 <= s → Z.abs (s - counterAt t) <= 1 →
  hotp key s = trim_space c → is_Some (ValidateTOTPStep secret c t).
Proof.
  intros Hk Hne H0 Hs Hc. unfold ValidateTOTPStep. rewrite Hk, <- Hc.
  destruct (hotp_digits key s) as [-> _]. cbn [negb Nat.eqb totpDigits].
  destruct key as [|k key]; [done|]. apply fold_match_some. exists s.
  split; [by apply elem_of_totpSteps|by apply bool_decide_eq_true].
Qed.
