(* ===== verification/Auth.v ===== *)
(** * Sessions, challenges and second factors

    The authentication tables of the store ([internal/store/store.go]:
    [PutSession] to [BumpSecurityEpoch], [evictOldestSessionLocked],
    [UpsertUser]; records of [internal/auth]) and the server handlers that
    drive them ([handleLoginTOTP], [ssoChallengeFromCookie],
    [startSessionAudited], the cookie half of [principalFromRequest],
    [handlePasswordChange], [handle2FADisable] in [internal/server]).

    [Save] writes the state file after memory has changed, so every operation
    takes the outcome of the write and returns it beside the new state.  The
    clock, the random tokens, the limiter answers and the order in which a map
    is ranged over are arguments.  A handler is modelled from the point where
    its request is decoded. *)

From Stdlib Require Import ZArith Lia Ascii.
From stdpp Require Import gmap strings.
From S2P Require Import Prelude GoStr Sha Totp.

Local Open Scope Z_scope.

(** ** Records *)

Record Session := mkSession {
  seID : string; seActorID : string; CSRFToken : string; Epoch : Z;
  seCreatedAt : time; seExpiresAt : time; Revoked : bool }.

Record TOTPChallenge := mkChallenge {
  chID : string; chUserID : string; chClientIP : string;
  chCreatedAt : time; chExpiresAt : time; Used : bool; chAttempts : Z;
  SSOProviderID : string; SSOBindingHash : string }.
Definition with_Attempts (n : Z) (c : TOTPChallenge) : TOTPChallenge :=
  mkChallenge (chID c) (chUserID c) (chClientIP c) (chCreatedAt c) (chExpiresAt c) (Used c) n
    (SSOProviderID c) (SSOBindingHash c).

(** The fields of [model.User] the second factor and the session check read. *)
Record User := mkUser {
  uID : string; PasswordHash : string; TOTPEnabled : bool; TOTPSecret : string;
  RecoveryCodeHashes : list string; LastTOTPStep : Z; SecurityEpoch : Z }.
Definition with_RecoveryCodeHashes (l : list string) (u : User) : User :=
  mkUser (uID u) (PasswordHash u) (TOTPEnabled u) (TOTPSecret u) l (LastTOTPStep u) (SecurityEpoch u).
Definition with_LastTOTPStep (s : Z) (u : User) : User :=
  mkUser (uID u) (PasswordHash u) (TOTPEnabled u) (TOTPSecret u) (RecoveryCodeHashes u) s (SecurityEpoch u).
Definition with_SecurityEpoch (e : Z) (u : User) : User :=
  mkUser (uID u) (PasswordHash u) (TOTPEnabled u) (TOTPSecret u) (RecoveryCodeHashes u) (LastTOTPStep u) e.
Definition with_PasswordHash (h : string) (u : User) : User :=
  mkUser (uID u) h (TOTPEnabled u) (TOTPSecret u) (RecoveryCodeHashes u) (LastTOTPStep u) (SecurityEpoch u).

Record AuthState := mkAuth {
  Users : gmap string User; Sessions : gmap string Session; TOTPChallenges : gmap string TOTPChallenge }.
Definition with_Users (m : gmap string User) (st : AuthState) : AuthState :=
  mkAuth m (Sessions st) (TOTPChallenges st).
Definition with_Sessions (m : gmap string Session) (st : AuthState) : AuthState :=
  mkAuth (Users st) m (TOTPChallenges st).
Definition with_TOTPChallenges (m : gmap string TOTPChallenge) (st : AuthState) : AuthState :=
  mkAuth (Users st) (Sessions st) m.

Inductive authError := ErrSave | ErrTooManyChallenges.
Definition save_error (saved : bool) : option authError := if saved then None else Some ErrSave.

(** ** Sessions *)

Definition maxSessions : nat := 4096.
Definition sessionActive (s : Session) (now : time) : bool :=
  negb (Revoked s) && negb (before (seExpiresAt s) now).

Definition older (acc : option (string * time)) (e : string * Session) : option (string * time) :=
  match acc with
  | None => Some (e.1, seCreatedAt e.2)
  | Some (_, oldest) => if before (seCreatedAt e.2) oldest then Some (e.1, seCreatedAt e.2) else acc
  end.
Definition evictOldestSessionLocked (order : gmap string Session → list (string * Session))
    (ss : gmap string Session) : gmap string Session :=
  match fold_left older (order ss) None with
  | Some (id, _) => delete id ss
  | None => ss
  end.

Definition PutSession (now : time) order (saved : bool) (sess : Session) (st : AuthState)
  : AuthState * option authError :=
  let ss := filter (fun e => sessionActive e.2 now = true) (Sessions st) in
  let ss := <[seID sess := sess]> ss in
  let ss := if (maxSessions <? size ss)%nat then evictOldestSessionLocked order ss else ss in
  (with_Sessions ss st, save_error saved).

Definition SessionOf (now : time) (id : string) (st : AuthState) : option Session :=
  s ← Sessions st !! id; if sessionActive s now then Some s else None.

Definition DeleteSession (saved : bool) (id : string) (st : AuthState) : AuthState * option authError :=
  match Sessions st !! id with
  | None => (st, None)
  | Some _ => (with_Sessions (delete id (Sessions st)) st, save_error saved)
  end.

(** ** Second-factor challenges *)

Definition maxTOTPChallenges : nat := 4096.
Definition challengeActive (c : TOTPChallenge) (now : time) : bool :=
  negb (Used c) && negb (before (chExpiresAt c) now).

Definition PutTOTPChallenge (now : time) (saved : bool) (c : TOTPChallenge) (st : AuthState)
  : AuthState * option authError :=
  let cs := filter (fun e => challengeActive e.2 now = true) (TOTPChallenges st) in
  if (maxTOTPChallenges <=? size cs)%nat then (with_TOTPChallenges cs st, Some ErrTooManyChallenges)
  else (with_TOTPChallenges (<[chID c := c]> cs) st, save_error saved).

Definition TOTPChallengeOf (now : time) (id : string) (st : AuthState) : option TOTPChallenge :=
  c ← TOTPChallenges st !! id; if challengeActive c now then Some c else None.

Definition ConsumeTOTPChallenge (saved : bool) (id : string) (st : AuthState) : AuthState * option authError :=
  match TOTPChallenges st !! id with
  | None => (st, None)
  | Some _ => (with_TOTPChallenges (delete id (TOTPChallenges st)) st, save_error saved)
  end.

Definition FailTOTPChallenge (saved : bool) (id : string) (maxAttempts : Z) (st : AuthState)
  : AuthState * option authError :=
  match TOTPChallenges st !! id with
  | None => (st, None)
  | Some c =>
    let n := wrap64 (chAttempts c + 1) in
    let cs := if (0 <? maxAttempts) && (maxAttempts <=? n) then delete id (TOTPChallenges st)
              else <[id := with_Attempts n c]> (TOTPChallenges st) in
    (with_TOTPChallenges cs st, save_error saved)
  end.

(** ** Users *)

Definition UserOf (id : string) (st : AuthState) : option User := Users st !! id.
Definition UpsertUser (saved : bool) (u : User) (st : AuthState) : AuthState * option authError :=
  (with_Users (<[uID u := u]> (Users st)) st, save_error saved).

(** The loop runs over all hashes and keeps the last index that matches. *)
Fixpoint lastIndex (want : string) (i : nat) (acc : option nat) (l : list string) : option nat :=
  match l with
  | [] => acc
  | h :: l => lastIndex want (S i) (if h =?? want then Some i else acc) l
  end.
Definition ConsumeRecoveryCode (saved : bool) (userID c : string) (st : AuthState)
  : AuthState * (bool * option authError) :=
  let c := trim_space c in
  if c =?? "" then (st, (false, None)) else
  let want := HashRecoveryCode c in
  match Users st !! userID with
  | None => (st, (false, None))
  | Some u =>
    match lastIndex want 0 None (RecoveryCodeHashes u) with
    | None => (st, (false, None))
    | Some idx =>
      let u := with_RecoveryCodeHashes
                 (take idx (RecoveryCodeHashes u) ++ drop (S idx) (RecoveryCodeHashes u)) u in
      (with_Users (<[userID := u]> (Users st)) st, (saved, save_error saved))
    end
  end.

Definition AdvanceTOTPStep (saved : bool) (userID : string) (step : Z) (st : AuthState)
  : AuthState * (bool * option authError) :=
  match Users st !! userID with
  | None => (st, (false, None))
  | Some u =>
    if step <=? LastTOTPStep u then (st, (false, None))
    else (with_Users (<[userID := with_LastTOTPStep step u]> (Users st)) st, (saved, save_error saved))
  end.

Definition BumpSecurityEpoch (saved : bool) (userID : string) (st : AuthState)
  : AuthState * (Z * option authError) :=
  match Users st !! userID with
  | None => (st, (0, None))
  | Some u =>
    let e := wrapu64 (SecurityEpoch u + 1) in
    (with_Users (<[userID := with_SecurityEpoch e u]> (Users st)) st,
     (if saved then e else 0, save_error saved))
  end.

(** ** Handlers *)

Definition hour : duration := 60 * minute.
Definition maxTOTPChallengeAttempts : Z := 5.

(** [auth.NewSession]; [None] is a failed read of the random source. *)
Definition NewSession (actorID : string) (ttl : duration) (tokens : option (string * string)) (now : time)
  : option Session :=
  '(id, csrf) ← tokens; Some (mkSession id actorID csrf 0 now (time_add now ttl) false).
Definition with_Epoch (e : Z) (s : Session) : Session :=
  mkSession (seID s) (seActorID s) (CSRFToken s) e (seCreatedAt s) (seExpiresAt s) (Revoked s).

(** [startSessionAudited] for a user: mint, stamp with the epoch, store. *)
Definition startSession (now : time) order (saved : bool) (tokens : option (string * string)) (user : User)
    (st : AuthState) : AuthState * option Session :=
  match NewSession (uID user) (12 * hour) tokens now with
  | None => (st, None)
  | Some s =>
    let s := with_Epoch (SecurityEpoch user) s in
    let '(st, err) := PutSession now order saved s st in
    (st, match err with None => Some s | Some _ => None end)
  end.

(** The cookie half of [principalFromRequest]. *)
Definition principalFromSession (now : time) (cookie : string) (st : AuthState) : option User :=
  s ← SessionOf now cookie st;
  u ← UserOf (seActorID s) st;
  if Epoch s <? SecurityEpoch u then None else Some u.

Record totpRequest := mkTotpRequest {
  rqChallengeID : string; rqCode : string; rqRecoveryCode : string;
  rqClientIP : string; rqCookie : option string }.

(** What the environment of one call answers: the two limiters, the clocks of
    the store and of the server, the random tokens and the three writes. *)
Record callEnv := mkEnv {
  loginAllowed : bool; totpAllowed : bool; evNow : time; evClock : time;
  evTokens : option (string * string); svFactor : bool; svConsume : bool; svSession : bool }.

Definition ssoChallengeFromCookie (now : time) (rq : totpRequest) (st : AuthState) : option TOTPChallenge :=
  v ← rqCookie rq;
  i ← index_byte v ".";
  let challengeID := str_take i v in
  let secret := str_drop (S i) v in
  if (challengeID =?? "") || (secret =?? "") then None else
  c ← TOTPChallengeOf now challengeID st;
  if (SSOProviderID c =?? "") || (SSOBindingHash c =?? "") || negb (chClientIP c =?? rqClientIP rq) then None
  else if negb (HashBindingToken secret =?? SSOBindingHash c) then None
  else Some c.

(** What the response says; [LoggedIn] carries whether the identity-provider
    link was confirmed and whether a recovery code paid for the login. *)
Inductive loginReply :=
| Throttled | InvalidChallenge | ChallengeSpent | SecondFactorRefused | SecondFactorLimit | ServerError
| LoggedIn (s : Session) (confirmsLink usedRecovery : bool).

(** Checks that come before the second factor is looked at. *)
Definition admitChallenge (ev : callEnv) (rq : totpRequest) (st : AuthState)
  : loginReply + (TOTPChallenge * bool * User) :=
  if negb (loginAllowed ev) then inl Throttled else
  match TOTPChallengeOf (evNow ev) (rqChallengeID rq) st with
  | None => inl InvalidChallenge
  | Some c =>
    if negb (chClientIP c =?? rqClientIP rq) then inl InvalidChallenge else
    let sso := negb (SSOProviderID c =?? "") in
    let held := match ssoChallengeFromCookie (evNow ev) rq st with
                | Some h => chID h =?? chID c
                | None => false
                end in
    if sso && negb held then inl InvalidChallenge else
    match UserOf (chUserID c) st with
    | None => inl InvalidChallenge
    | Some u => if TOTPEnabled u then inr (c, sso, u) else inl InvalidChallenge
    end
  end.

(** The factor itself: [inl] is the error of a failed write, [inr] whether it
    held and whether a recovery code was used. *)
Definition checkFactor (ev : callEnv) (rq : totpRequest) (user : User) (st : AuthState)
  : AuthState * (authError + bool * bool) :=
  if negb (rqCode rq =?? "") then
    match ValidateTOTPStep (TOTPSecret user) (rqCode rq) (evClock ev) with
    | None => (st, inr (false, false))
    | Some step =>
      let '(st, (advanced, err)) := AdvanceTOTPStep (svFactor ev) (uID user) step st in
      (st, match err with Some e => inl e | None => inr (advanced, false) end)
    end
  else if negb (rqRecoveryCode rq =?? "") then
    let '(st, (consumed, err)) := ConsumeRecoveryCode (svFactor ev) (uID user) (rqRecoveryCode rq) st in
    (st, match err with Some e => inl e | None => inr (consumed, consumed) end)
  else (st, inr (false, false)).

Definition handleLoginTOTP order (ev : callEnv) (rq : totpRequest) (st : AuthState)
  : AuthState * loginReply :=
  match admitChallenge ev rq st with
  | inl r => (st, r)
  | inr (c, sso, user) =>
    if maxTOTPChallengeAttempts <=? chAttempts c then
      ((ConsumeTOTPChallenge (svConsume ev) (chID c) st).1, ChallengeSpent)
    else match checkFactor ev rq user st with
    | (st, inl _) => (st, ServerError)
    | (st, inr (false, _)) =>
      let st := (FailTOTPChallenge (svConsume ev) (chID c) maxTOTPChallengeAttempts st).1 in
      if negb (totpAllowed ev) then ((ConsumeTOTPChallenge (svConsume ev) (chID c) st).1, SecondFactorLimit)
      else (st, SecondFactorRefused)
    | (st, inr (true, usedRecovery)) =>
      let '(st, err) := ConsumeTOTPChallenge (svConsume ev) (chID c) st in
      match err with
      | Some _ => (st, ServerError)
      | None =>
        let '(st, s) := startSession (evNow ev) order (svSession ev) (evTokens ev) user st in
        (st, match s with Some s => LoggedIn s (sso && negb usedRecovery) usedRecovery | None => ServerError end)
      end
    end
  end.

(** The same handler as it runs beside others: the store lock is taken once
    per read and once per write, so the request passes through stages, and a
    step is what it does under one acquisition.  [handleLoginTOTP] is a
    request that nothing interrupts ([login_alone]). *)
Inductive loginStage :=
| AtStart (rq : totpRequest)
| AtCookie (rq : totpRequest) (c : TOTPChallenge)
| AtUser (rq : totpRequest) (c : TOTPChallenge) (sso : bool)
| AtSpent (rq : totpRequest) (c : TOTPChallenge)
| AtFactor (rq : totpRequest) (c : TOTPChallenge) (sso : bool) (u : User)
| AtFail (rq : totpRequest) (c : TOTPChallenge)
| AtLimit (rq : totpRequest) (c : TOTPChallenge)
| AtConsume (rq : totpRequest) (c : TOTPChallenge) (sso : bool) (u : User) (usedRecovery : bool)
| AtIssue (rq : totpRequest) (sso : bool) (u : User) (usedRecovery : bool)
| Replied (r : loginReply).
Definition loginStep order (ev : callEnv) (st : AuthState) (g : loginStage) : AuthState * loginStage :=
  match g with
  | AtStart rq =>
    (st, if negb (loginAllowed ev) then Replied Throttled else
         match TOTPChallengeOf (evNow ev) (rqChallengeID rq) st with
         | None => Replied InvalidChallenge
         | Some c => if negb (chClientIP c =?? rqClientIP rq) then Replied InvalidChallenge else AtCookie rq c
         end)
  | AtCookie rq c =>
    let sso := negb (SSOProviderID c =?? "") in
    let held := match ssoChallengeFromCookie (evNow ev) rq st with Some h => chID h =?? chID c | None => false end in
    (st, if sso && negb held then Replied InvalidChallenge else AtUser rq c sso)
  | AtUser rq c sso =>
    (st, match UserOf (chUserID c) st with
         | None => Replied InvalidChallenge
         | Some u =>
           if negb (TOTPEnabled u) then Replied InvalidChallenge
           else if maxTOTPChallengeAttempts <=? chAttempts c then AtSpent rq c else AtFactor rq c sso u
         end)
  | AtSpent rq c => ((ConsumeTOTPChallenge (svConsume ev) (chID c) st).1, Replied ChallengeSpent)
  | AtFactor rq c sso u =>
    let '(st, r) := checkFactor ev rq u st in
    (st, match r with
         | inl _ => Replied ServerError
         | inr (true, usedRecovery) => AtConsume rq c sso u usedRecovery
         | inr (false, _) => AtFail rq c
         end)
  | AtFail rq c =>
    ((FailTOTPChallenge (svConsume ev) (chID c) maxTOTPChallengeAttempts st).1,
     if totpAllowed ev then Replied SecondFactorRefused else AtLimit rq c)
  | AtLimit rq c => ((ConsumeTOTPChallenge (svConsume ev) (chID c) st).1, Replied SecondFactorLimit)
  | AtConsume rq c sso u usedRecovery =>
    let '(st, err) := ConsumeTOTPChallenge (svConsume ev) (chID c) st in
    (st, match err with Some _ => Replied ServerError | None => AtIssue rq sso u usedRecovery end)
  | AtIssue rq sso u usedRecovery =>
    let '(st, s) := startSession (evNow ev) order (svSession ev) (evTokens ev) u st in
    (st, Replied (match s with Some s => LoggedIn s (sso && negb usedRecovery) usedRecovery | None => ServerError end))
  | Replied r => (st, Replied r)
  end.
Fixpoint loginSteps order (ev : callEnv) (n : nat) (st : AuthState) (g : loginStage) : AuthState * loginStage :=
  match n with
  | O => (st, g)
  | S n => let '(st, g) := loginStep order ev st g in loginSteps order ev n st g
  end.
Lemma replied_stays order ev n st r : loginSteps order ev n st (Replied r) = (st, Replied r).
Proof. by induction n. Qed.
Lemma login_alone order ev rq st :
  loginSteps order ev 6 st (AtStart rq) = ((handleLoginTOTP order ev rq st).1, Replied (handleLoginTOTP order ev rq st).2).
Proof.
  unfold handleLoginTOTP, admitChallenge. cbn [loginSteps loginStep].
  destruct (loginAllowed ev); cbn [negb loginStep]; [|done].
  destruct (TOTPChallengeOf _ _ _) as [c|]; [|done]. destruct (negb _); [done|]. cbn [loginStep].
  destruct (_ && negb _); [done|]. cbn [loginStep]. destruct (UserOf _ _) as [u|]; [|done].
  destruct (TOTPEnabled u); cbn [negb]; [|done]. destruct (_ <=? _); [done|]. cbn [loginStep].
  destruct (checkFactor ev rq u st) as [st1 [e|[[] rec]]]; cbn [loginStep]; [done| |].
  - destruct (ConsumeTOTPChallenge _ _ _) as [st2 [e|]]; cbn [loginStep]; [done|].
    by destruct (startSession _ _ _ _ _ _) as [st3 [s|]].
  - by destruct (totpAllowed ev).
Qed.

(** [handlePasswordChange] in two steps, since the store lock is not held
    between them: it reads the user and works on the passwords, then writes
    the whole record back.  [locked] is the attempt limiter's answer, [currentOK]
    and [same] are [VerifySecret] of the stored hash against the current and
    the new password, [hash] is [HashSecret] of the new one. *)
Inductive passwordReply :=
| PwForbidden | PwMissing | PwUnknown | PwThrottled | PwInvalid | PwSame | PwWeak | PwError | PwChanged.
Definition handlePasswordChange_read (bearer : bool) (actorID current new : string)
    (locked currentOK same : bool) (hash : option string) (st : AuthState) : passwordReply + User :=
  if bearer then inl PwForbidden
  else if (current =?? "") || (new =?? "") then inl PwMissing
  else match UserOf actorID st with
  | None => inl PwUnknown
  | Some user =>
    if locked then inl PwThrottled
    else if negb currentOK then inl PwInvalid
    else if same then inl PwSame
    else match hash with
    | None => inl PwWeak
    | Some h => inr (with_SecurityEpoch (wrapu64 (SecurityEpoch user + 1)) (with_PasswordHash h user))
    end
  end.
Definition handlePasswordChange_write (saved : bool) (user : User) (st : AuthState)
  : AuthState * passwordReply :=
  let '(st, err) := UpsertUser saved user st in
  (st, match err with Some _ => PwError | None => PwChanged end).

(** [handle2FADisable] for a session of [actorID]. *)
Inductive disableReply := DisableUnknown | AlreadyDisabled | DisableRefused | DisableError | Disabled.
Definition handle2FADisable (now : time) (svConsumed saved : bool) (actorID c : string) (st : AuthState)
  : AuthState * disableReply :=
  match UserOf actorID st with
  | None => (st, DisableUnknown)
  | Some user =>
    if negb (TOTPEnabled user) then (st, AlreadyDisabled) else
    let '(st, verified) :=
      if ValidateTOTP (TOTPSecret user) c now then (st, inr true)
      else let '(st, (consumed, err)) := ConsumeRecoveryCode svConsumed (uID user) c st in
           (st, match err with Some e => inl e | None => inr consumed end) in
    match verified with
    | inl _ => (st, DisableError)
    | inr false => (st, DisableRefused)
    | inr true =>
      let user := mkUser (uID user) (PasswordHash user) false "" [] (LastTOTPStep user)
                    (wrapu64 (SecurityEpoch user + 1)) in
      let '(st, err) := UpsertUser saved user st in
      (st, match err with Some _ => DisableError | None => Disabled end)
    end
  end.

(** ** Step-up grants ([server_stepup.go]) *)

Definition stepUpGrantTTL : duration := minute.
Record stepUpGrant := mkGrant { grID : string; grActorID : string; grSessionID : string; grExpiresAt : time }.
Record sessionPrincipal := mkPrincipal { pActorID : string; pSessionID : string; viaBearer : bool }.

Definition sweepGrants (now : time) (g : gmap string stepUpGrant) : gmap string stepUpGrant :=
  filter (fun e => after (grExpiresAt e.2) now = true) g.
Definition issueStepUpGrant (now : time) (token : option string) (p : sessionPrincipal)
    (g : gmap string stepUpGrant) : gmap string stepUpGrant * option (string * time) :=
  match token with
  | None => (g, None)
  | Some tok =>
    let expiresAt := time_add now stepUpGrantTTL in
    (<[tok := mkGrant tok (pActorID p) (pSessionID p) expiresAt]> (sweepGrants now g), Some (tok, expiresAt))
  end.
Definition interactive (p : sessionPrincipal) : bool :=
  negb (viaBearer p || (pActorID p =?? "") || (pSessionID p =?? "")).
Definition stepUpGrantHeld (now : time) (p : sessionPrincipal) (grantID : string)
    (g : gmap string stepUpGrant) : gmap string stepUpGrant * bool :=
  if negb (interactive p) || (grantID =?? "") then (g, false) else
  let g := sweepGrants now g in
  (g, match g !! grantID with
      | Some gr => (grActorID gr =?? pActorID p) && (grSessionID gr =?? pSessionID p)
                   && after (grExpiresAt gr) now
      | None => false
      end).

(** [handleSecurityStepUp] *)
Definition handleSecurityStepUp (clock : time) (saved : bool) (token : option string) (p : sessionPrincipal)
    (c : string) (st : AuthState) (g : gmap string stepUpGrant)
  : AuthState * gmap string stepUpGrant * option string :=
  if negb (interactive p) then (st, g, None) else
  match UserOf (pActorID p) st with
  | None => (st, g, None)
  | Some user =>
    if negb (TOTPEnabled user) || (TOTPSecret user =?? "") then (st, g, None) else
    match ValidateTOTPStep (TOTPSecret user) c clock with
    | None => (st, g, None)
    | Some step =>
      let '(st, (advanced, err)) := AdvanceTOTPStep saved (uID user) step st in
      match err with
      | Some _ => (st, g, None)
      | None =>
        if negb advanced then (st, g, None) else
        let '(g, r) := issueStepUpGrant clock token p g in
        (st, g, fst <$> r)
      end
    end
  end.

(** ** Operations as steps

    One step is one locked operation of the store.  [okUser] and [okCh] say
    which whole-record user writes and which new challenges a run may contain. *)

Inductive auth_op (okUser : AuthState → User → Prop) (okCh : TOTPChallenge → Prop) (st : AuthState)
  : AuthState → Prop :=
| op_put_session now order saved s : auth_op okUser okCh st (PutSession now order saved s st).1
| op_delete_session saved id : auth_op okUser okCh st (DeleteSession saved id st).1
| op_put_challenge now saved c : okCh c → auth_op okUser okCh st (PutTOTPChallenge now saved c st).1
| op_consume_challenge saved id : auth_op okUser okCh st (ConsumeTOTPChallenge saved id st).1
| op_fail_challenge saved id :
    auth_op okUser okCh st (FailTOTPChallenge saved id maxTOTPChallengeAttempts st).1
| op_recovery saved id c : auth_op okUser okCh st (ConsumeRecoveryCode saved id c st).1
| op_advance saved id step : auth_op okUser okCh st (AdvanceTOTPStep saved id step st).1
| op_bump saved id :
    (∀ u, Users st !! id = Some u → 0 <= SecurityEpoch u < uint64_max) →
    auth_op okUser okCh st (BumpSecurityEpoch saved id st).1
| op_user saved u : okUser st u → auth_op okUser okCh st (UpsertUser saved u st).1.

Section runs.
Context (okUser : AuthState → User → Prop) (okCh : TOTPChallenge → Prop).

Lemma startSession_ops now order saved tokens u st st' s :
  startSession now order saved tokens u st = (st', s) → rtc (auth_op okUser okCh) st st'.
Proof.
  unfold startSession. destruct (NewSession _ _ _ _) as [s0|]; [|by intros [= <- _]].
  destruct (PutSession _ _ _ _ _) as [st1 err] eqn:E. intros [= <- _].
  apply rtc_once. rewrite <- (f_equal fst E : (PutSession _ _ _ _ _).1 = st1). constructor.
Qed.

Lemma checkFactor_ops ev rq u st st' r :
  checkFactor ev rq u st = (st', r) → rtc (auth_op okUser okCh) st st'.
Proof.
  unfold checkFactor. destruct (negb _).
  - destruct (ValidateTOTPStep _ _ _) as [step|]; [|by intros [= <- _]].
    destruct (AdvanceTOTPStep _ _ _ _) as [st1 [adv err]] eqn:E. intros [= <- _].
    apply rtc_once. rewrite <- (f_equal fst E : (AdvanceTOTPStep _ _ _ _).1 = st1). constructor.
  - destruct (negb _); [|by intros [= <- _]].
    destruct (ConsumeRecoveryCode _ _ _ _) as [st1 [con err]] eqn:E. intros [= <- _].
    apply rtc_once. rewrite <- (f_equal fst E : (ConsumeRecoveryCode _ _ _ _).1 = st1). constructor.
Qed.

(** A login is a sequence of such steps. *)
Lemma login_ops order ev rq st : rtc (auth_op okUser okCh) st (handleLoginTOTP order ev rq st).1.
Proof.
  unfold handleLoginTOTP. destruct (admitChallenge ev rq st) as [r|[[c sso] u]]; [done|].
  destruct (_ <=? _); [apply rtc_once; constructor|].
  destruct (checkFactor ev rq u st) as [st1 [e|[[] rec]]] eqn:Ef; apply checkFactor_ops in Ef; [done| |].
  - etrans; [exact Ef|].
    destruct (ConsumeTOTPChallenge _ _ _) as [st2 err] eqn:Ec.
    apply (f_equal fst) in Ec. cbn in Ec. subst st2.
    apply rtc_l with (ConsumeTOTPChallenge (svConsume ev) (chID c) st1).1; [constructor|].
    destruct err; [done|]. destruct (startSession _ _ _ _ _ _) as [st3 s] eqn:Es. cbn.
    by eapply startSession_ops.
  - etrans; [exact Ef|]. apply rtc_l with (FailTOTPChallenge (svConsume ev) (chID c) maxTOTPChallengeAttempts st1).1;
      [constructor|]. destruct (negb _); [apply rtc_once; constructor|done].
Qed.
End runs.

(** ** Single use of one-time codes *)

Definition users_keyed (st : AuthState) : Prop := ∀ id u, Users st !! id = Some u → uID u = id.

(** A whole-record write that does not go back on what the store knows. *)
Definition current (st : AuthState) (u : User) : Prop :=
  ∀ old, Users st !! uID u = Some old →
    LastTOTPStep old <= LastTOTPStep u ∧ SecurityEpoch old <= SecurityEpoch u.

Definition users_le (st st' : AuthState) : Prop :=
  ∀ id u, Users st !! id = Some u → ∃ u', Users st' !! id = Some u' ∧
    LastTOTPStep u <= LastTOTPStep u' ∧ SecurityEpoch u <= SecurityEpoch u'.

#[export] Instance users_le_pre : PreOrder users_le.
Proof.
  split.
  - intros st id u H. exists u. split_and!; [done|lia..].
  - intros s1 s2 s3 H1 H2 id u H. destruct (H1 _ _ H) as (u' & H' & ? & ?).
    destruct (H2 _ _ H') as (u'' & H'' & ? & ?). exists u''. split_and!; [done|lia..].
Qed.

Lemma users_le_same st st' : Users st' = Users st → users_le st st'.
Proof. intros E id u H. exists u. rewrite E. split_and!; [done|lia..]. Qed.

Lemma users_le_insert st id u u' :
  Users st !! id = Some u → LastTOTPStep u <= LastTOTPStep u' → SecurityEpoch u <= SecurityEpoch u' →
  users_le st (with_Users (<[id := u']> (Users st)) st).
Proof.
  intros Hu Hl He k v Hk. cbn. destruct (decide (id = k)) as [<-|Hne].
  - rewrite lookup_insert_eq. exists u'. simplify_eq. done.
  - rewrite lookup_insert_ne by done. exists v. split_and!; [done|lia..].
Qed.

Lemma users_keyed_insert st id u :
  uID u = id → users_keyed st → users_keyed (with_Users (<[id := u]> (Users st)) st).
Proof.
  intros Hu Hk k v. cbn. destruct (decide (id = k)) as [<-|Hne].
  - rewrite lookup_insert_eq. by intros [= <-].
  - rewrite lookup_insert_ne by done. apply Hk.
Qed.

Ltac same_users := match goal with H : users_keyed _ |- _ => split; [exact H|by apply users_le_same] end.

Lemma op_users okCh st st' :
  auth_op current okCh st st' → users_keyed st → users_keyed st' ∧ users_le st st'.
Proof.
  intros H Hk. destruct H as [now order saved s|saved id|now saved c _|saved id|saved id|saved id c
    |saved id step|saved id Hb|saved u Hok].
  - same_users.
  - unfold DeleteSession. destruct (_ !! _); [|same_users]. same_users.
  - unfold PutTOTPChallenge. destruct (_ <=? _)%nat; same_users.
  - unfold ConsumeTOTPChallenge. destruct (_ !! _); [|same_users]. same_users.
  - unfold FailTOTPChallenge. destruct (_ !! _); [|same_users]. same_users.
  - unfold ConsumeRecoveryCode. destruct (bool_decide _); [same_users|]. destruct (Users st !! id) as [u|] eqn:Eu; [|same_users].
    destruct (lastIndex _ _ _ _); [|same_users].
    split; [apply users_keyed_insert; [exact (Hk _ _ Eu)|done]|by eapply users_le_insert].
  - unfold AdvanceTOTPStep. destruct (Users st !! id) as [u|] eqn:Eu; [|same_users].
    destruct (Z.leb_spec step (LastTOTPStep u)); [same_users|].
    split; [apply users_keyed_insert; [exact (Hk _ _ Eu)|done]|eapply users_le_insert; [done|cbn; lia|done]].
  - unfold BumpSecurityEpoch. destruct (Users st !! id) as [u|] eqn:Eu; [|same_users].
    specialize (Hb u eq_refl). unfold uint64_max in Hb.
    split; [apply users_keyed_insert; [exact (Hk _ _ Eu)|done]|].
    eapply users_le_insert; [done|done|]. cbn. unfold wrapu64. rewrite Z.mod_small; lia.
  - split; [by apply users_keyed_insert|]. destruct (Users st !! uID u) as [old|] eqn:Eo.
    + destruct (Hok _ Eo). by eapply users_le_insert.
    + intros k v Hk'. exists v. cbn. rewrite lookup_insert_ne by congruence. split_and!; [done|lia..].
Qed.

Lemma ops_users okCh st st' :
  rtc (auth_op current okCh) st st' → users_keyed st → users_keyed st' ∧ users_le st st'.
Proof.
  induction 1 as [|x y z Hop _ IH]; intros Hk; [done|].
  destruct (op_users _ _ _ Hop Hk) as [Hk' Hle]. destruct (IH Hk') as [? Hle']. split; [done|].
  by transitivity y.
Qed.

Lemma admit_inv ev rq st c sso u :
  admitChallenge ev rq st = inr (c, sso, u) →
  TOTPChallengeOf (evNow ev) (rqChallengeID rq) st = Some c ∧ chClientIP c = rqClientIP rq ∧
  UserOf (chUserID c) st = Some u ∧ TOTPEnabled u = true ∧
  (SSOProviderID c ≠ "" → ∃ h, ssoChallengeFromCookie (evNow ev) rq st = Some h ∧ chID h = chID c).
Proof.
  unfold admitChallenge. destruct (negb _); [done|].
  destruct (TOTPChallengeOf _ _ _) as [c0|]; [|done].
  destruct (bool_decide (chClientIP c0 = _)) eqn:Ei; [|done]. cbn [negb].
  destruct (_ && _) eqn:Es; [done|]. destruct (UserOf _ _) as [u0|] eqn:Eu; [|done].
  destruct (TOTPEnabled u0) eqn:Et; [|done]. intros [= <- _ <-]. go_bool.
  split_and!; [done..|]. intros Hsso. destruct Es as [?|Hh]; [done|].
  destruct (ssoChallengeFromCookie _ _ _) as [h|]; [|done]. go_bool. by exists h.
Qed.

Lemma admit_refuses ev rq st s b r : admitChallenge ev rq st ≠ inl (LoggedIn s b r).
Proof. unfold admitChallenge. repeat case_match; done. Qed.

Lemma startSession_inv now order saved tokens u st st' s :
  startSession now order saved tokens u st = (st', Some s) →
  seActorID s = uID u ∧ Epoch s = SecurityEpoch u ∧ TOTPChallenges st' = TOTPChallenges st ∧ Users st' = Users st.
Proof.
  unfold startSession, NewSession. destruct tokens as [[id csrf]|]; [|done].
  cbn [mbind option_bind]. unfold PutSession. destruct saved; [|done].
  by intros [= <- <-].
Qed.

(** A login stems from an admitted challenge and a factor that held. *)
Lemma login_inv order ev rq st st' s b r :
  handleLoginTOTP order ev rq st = (st', LoggedIn s b r) →
  ∃ c sso u st1, admitChallenge ev rq st = inr (c, sso, u) ∧ chAttempts c < maxTOTPChallengeAttempts ∧
    checkFactor ev rq u st = (st1, inr (true, r)) ∧ rtc (auth_op current (fun _ => True)) st1 st' ∧
    seActorID s = uID u ∧ Epoch s = SecurityEpoch u ∧ TOTPChallenges st' = delete (chID c) (TOTPChallenges st1) ∧
    Users st' = Users st1.
Proof.
  unfold handleLoginTOTP. pose proof (admit_refuses ev rq st s b r) as Hno.
  destruct (admitChallenge ev rq st) as [?|[[c sso] u]] eqn:Ha; [intros [= <- ->]; by destruct Hno|].
  destruct (Z.leb_spec maxTOTPChallengeAttempts (chAttempts c)); [by intros ?|].
  destruct (checkFactor ev rq u st) as [st1 [e|[[] rec]]] eqn:Ef; [by intros ?| |by destruct (negb _)].
  destruct (ConsumeTOTPChallenge _ _ _) as [st2 [|]] eqn:Ec; [by intros ?|].
  destruct (startSession _ _ _ _ _ _) as [st3 s0] eqn:Es. destruct s0 as [s0|]; [|done].
  intros [= <- <- _ <-]. exists c, sso, u, st1. split_and!; [done|lia|done| | | | |].
  - apply (f_equal fst) in Ec. cbn in Ec. subst st2.
    apply rtc_l with (ConsumeTOTPChallenge (svConsume ev) (chID c) st1).1; [constructor|].
    by eapply startSession_ops.
  - by apply startSession_inv in Es as (? & _).
  - by apply startSession_inv in Es as (_ & ? & _).
  - apply startSession_inv in Es as (_ & _ & -> & _).
    unfold ConsumeTOTPChallenge in Ec. destruct (TOTPChallenges st1 !! chID c) eqn:E; simplify_eq; [done|].
    by rewrite delete_id.
  - apply startSession_inv in Es as (_ & _ & _ & ->).
    unfold ConsumeTOTPChallenge in Ec. by destruct (TOTPChallenges st1 !! chID c); simplify_eq.
Qed.

Lemma checkFactor_code ev rq u st st' r :
  rqCode rq ≠ "" → checkFactor ev rq u st = (st', inr (true, r)) →
  ∃ step old, ValidateTOTPStep (TOTPSecret u) (rqCode rq) (evClock ev) = Some step ∧
    Users st !! uID u = Some old ∧ LastTOTPStep old < step ∧
    Users st' !! uID u = Some (with_LastTOTPStep step old).
Proof.
  intros Hc. unfold checkFactor. rewrite bool_decide_eq_false_2 by done. cbn [negb].
  destruct (ValidateTOTPStep _ _ _) as [step|]; [|done]. unfold AdvanceTOTPStep.
  destruct (Users st !! uID u) as [old|] eqn:Eo; [|done].
  destruct (Z.leb_spec step (LastTOTPStep old)); [done|]. destruct (svFactor ev); [|done].
  intros [= <- _]. exists step, old. cbn. by rewrite lookup_insert_eq.
Qed.

Lemma checkFactor_stale ev rq u st old step :
  rqCode rq ≠ "" → ValidateTOTPStep (TOTPSecret u) (rqCode rq) (evClock ev) = Some step →
  Users st !! uID u = Some old → step <= LastTOTPStep old →
  checkFactor ev rq u st = (st, inr (false, false)).
Proof.
  intros Hc Hv Hu Hs. unfold checkFactor. rewrite bool_decide_eq_false_2 by done. cbn [negb].
  rewrite Hv. unfold AdvanceTOTPStep. rewrite Hu. apply Z.leb_le in Hs. by rewrite Hs.
Qed.

(** C10. A one-time code is accepted once, also between requests that
    overlap: when a login request gets past its factor check with a code, the
    code belongs to a step above the user's high-water mark; and after any
    further store operations, whatever they are as long as no whole-record
    user write carries an older mark, every request that reaches its factor
    check for that user with a code of that step or an earlier one is refused,
    however old its own reading of the user is, and so is every step-up. *)
Theorem totp_code_single_use order ev rq c sso u rec st st1 :
  users_keyed st → rqCode rq ≠ "" → loginStep order ev st (AtFactor rq c sso u) = (st1, AtConsume rq c sso u rec) →
  ∃ step old, ValidateTOTPStep (TOTPSecret u) (rqCode rq) (evClock ev) = Some step ∧
    Users st !! uID u = Some old ∧ LastTOTPStep old < step ∧
    ∀ st2, rtc (auth_op current (fun _ => True)) st1 st2 →
    (∀ order' ev' rq' c' sso' u' step', uID u' = uID u → rqCode rq' ≠ "" →
       ValidateTOTPStep (TOTPSecret u') (rqCode rq') (evClock ev') = Some step' → step' <= step →
       loginStep order' ev' st2 (AtFactor rq' c' sso' u') = (st2, AtFail rq' c')) ∧
    (∀ clock saved token p u' code step' g, pActorID p = uID u → UserOf (uID u) st2 = Some u' →
       ValidateTOTPStep (TOTPSecret u') code clock = Some step' → step' <= step →
       (handleSecurityStepUp clock saved token p code st2 g).2 = None).
Proof.
  intros Hk Hc H. cbn [loginStep] in H.
  destruct (checkFactor ev rq u st) as [st0 [e|[[] r]]] eqn:Hf; [done| |done]. injection H as <- <-.
  pose proof (checkFactor_ops current (fun _ => True) _ _ _ _ _ _ Hf) as Hops0.
  destruct (checkFactor_code _ _ _ _ _ _ Hc Hf) as (step & old & Hv & Hold & Hlt & Hnew).
  exists step, old. split_and!; [done..|]. intros st2 Hrun.
  assert (users_keyed st2 ∧ users_le st0 st2) as [Hk2 Hle].
  { apply (ops_users (fun _ => True)); [done|]. by apply (ops_users (fun _ => True) st st0). }
  destruct (Hle _ _ Hnew) as (u2 & Hu2 & Hstep & _). cbn in Hstep. split.
  - intros order' ev' rq' c' sso' u' step' Hid Hrq Hv' Hs'. cbn [loginStep].
    rewrite (checkFactor_stale ev' rq' u' st2 u2 step'); [done..|by rewrite Hid|lia].
  - intros clock saved token p u' code0 step' g Hp Hu' Hv' Hs'. unfold handleSecurityStepUp, UserOf in *.
    rewrite Hu2 in Hu'. injection Hu' as <-. rewrite Hp, Hu2.
    destruct (negb (interactive p)); [done|]. destruct (_ || _); [done|]. rewrite Hv'.
    unfold AdvanceTOTPStep. rewrite (Hk2 _ _ Hu2), Hu2.
    assert (step' <=? LastTOTPStep u2 = true) as -> by (apply Z.leb_le; lia). done.
Qed.

(** ** Bounded guessing *)

Definition challenge_ok (cid : string) (st : AuthState) : Prop :=
  ∀ c, TOTPChallenges st !! cid = Some c → chID c = cid ∧ 0 <= chAttempts c <= maxTOTPChallengeAttempts.
(** Guesses a challenge still has. *)
Definition budget (cid : string) (st : AuthState) : Z :=
  match TOTPChallenges st !! cid with
  | Some c => Z.max 0 (maxTOTPChallengeAttempts - chAttempts c)
  | None => 0
  end.

Lemma budget_nonneg cid st : 0 <= budget cid st.
Proof. unfold budget. destruct (_ !! _); lia. Qed.

Lemma budget_same cid st st' :
  TOTPChallenges st' !! cid = TOTPChallenges st !! cid →
  challenge_ok cid st → challenge_ok cid st' ∧ budget cid st' <= budget cid st.
Proof. intros E Hok. unfold challenge_ok, budget. rewrite E. split; [exact Hok|lia]. Qed.
Lemma budget_gone cid st st' :
  TOTPChallenges st' !! cid = None → challenge_ok cid st' ∧ budget cid st' <= budget cid st.
Proof.
  intros E. pose proof (budget_nonneg cid st). unfold challenge_ok. unfold budget at 1. rewrite E.
  split; [done|lia].
Qed.

(** A failed attempt costs one guess. *)
Lemma fail_budget cid saved st :
  challenge_ok cid st →
  let st' := (FailTOTPChallenge saved cid maxTOTPChallengeAttempts st).1 in
  challenge_ok cid st' ∧ budget cid st' <= Z.max 0 (budget cid st - 1).
Proof.
  intros Hok. unfold FailTOTPChallenge. unfold budget at 2. destruct (TOTPChallenges st !! cid) as [c|] eqn:E; cbn [fst].
  - destruct (Hok _ E) as [Hid H0]. unfold maxTOTPChallengeAttempts at 1. cbn [Z.ltb Z.compare andb].
    destruct (Z.leb_spec maxTOTPChallengeAttempts (wrap64 (chAttempts c + 1))).
    + unfold challenge_ok, budget. cbn. rewrite lookup_delete_eq. split; [done|lia].
    + unfold challenge_ok, budget. cbn. rewrite lookup_insert_eq. unfold maxTOTPChallengeAttempts in *.
      assert (wrap64 (chAttempts c + 1) = chAttempts c + 1) as Hw
        by (apply wrap64_id; unfold int64_min, int64_max; lia).
      rewrite Hw in *. split; [intros c' [= <-]; split; [done|cbn; lia]|cbn; lia].
  - unfold challenge_ok, budget. rewrite E. split; [done|lia].
Qed.

Lemma consume_lookup saved id st cid :
  TOTPChallenges (ConsumeTOTPChallenge saved id st).1 !! cid =
  if decide (id = cid) then None else TOTPChallenges st !! cid.
Proof.
  unfold ConsumeTOTPChallenge. destruct (TOTPChallenges st !! id) eqn:E; cbn [fst].
  - cbn. destruct (decide (id = cid)) as [<-|]; [apply lookup_delete_eq|by apply lookup_delete_ne].
  - by destruct (decide (id = cid)) as [<-|].
Qed.

Lemma op_budget okUser cid st st' :
  auth_op okUser (fun c => chID c ≠ cid) st st' →
  challenge_ok cid st → challenge_ok cid st' ∧ budget cid st' <= budget cid st.
Proof.
  intros H Hok. destruct H as [now order saved s|saved id|now saved c Hc|saved id|saved id|saved id c
    |saved id step|saved id _|saved u _].
  - by apply budget_same.
  - apply budget_same; [|done]. unfold DeleteSession. by destruct (Sessions st !! id).
  - unfold PutTOTPChallenge. set (cs := filter _ _).
    assert (cs !! cid = TOTPChallenges st !! cid ∨ cs !! cid = None) as Hcs.
    { unfold cs. rewrite map_lookup_filter. destruct (TOTPChallenges st !! cid); cbn; [|by left].
      case_guard; [by left|by right]. }
    destruct (_ <=? _)%nat; cbn [fst]; (destruct Hcs; [apply budget_same|apply budget_gone]);
      cbn; try done; by rewrite lookup_insert_ne.
  - pose proof (consume_lookup saved id st cid) as E. destruct (decide (id = cid)).
    + by apply budget_gone.
    + by apply budget_same.
  - destruct (decide (id = cid)) as [->|Hne].
    + destruct (fail_budget cid saved st Hok) as [? ?]. split; [done|]. pose proof (budget_nonneg cid st). lia.
    + apply budget_same; [|done]. unfold FailTOTPChallenge. destruct (TOTPChallenges st !! id); [|done]. cbn.
      destruct (_ <=? _); [by rewrite lookup_delete_ne|by rewrite lookup_insert_ne].
  - apply budget_same; [|done]. unfold ConsumeRecoveryCode. by repeat case_match.
  - apply budget_same; [|done]. unfold AdvanceTOTPStep. by repeat case_match.
  - apply budget_same; [|done]. unfold BumpSecurityEpoch. by repeat case_match.
  - by apply budget_same.
Qed.

Lemma checkFactor_challenges ev rq u st st' r :
  checkFactor ev rq u st = (st', r) → TOTPChallenges st' = TOTPChallenges st.
Proof.
  unfold checkFactor. destruct (negb _).
  - destruct (ValidateTOTPStep _ _ _); [|by intros [= <- _]]. unfold AdvanceTOTPStep.
    repeat case_match; by intros; simplify_eq.
  - destruct (negb _); [|by intros [= <- _]]. unfold ConsumeRecoveryCode.
    repeat case_match; by intros; simplify_eq.
Qed.

(** Requests under way and what happens beside them; each step may find its
    own clock, limiter answers and disk. *)
Definition loginWorld : Type := AuthState * gmap nat loginStage.
Definition request_of (g : loginStage) : option (totpRequest * TOTPChallenge) :=
  match g with
  | AtCookie rq c | AtUser rq c _ | AtFactor rq c _ _ | AtFail rq c => Some (rq, c)
  | _ => None
  end.
(** The request holds a reading of challenge [cid] that lets it check a
    factor, and has not recorded a failure. *)
Definition holds (cid : string) (g : loginStage) : bool :=
  match request_of g with
  | Some (rq, c) => (rqChallengeID rq =?? cid) && (chAttempts c <? maxTOTPChallengeAttempts)
  | None => false
  end.
Definition failing (cid : string) (g : loginStage) : bool :=
  match g with AtFail rq c => holds cid g | _ => false end.
Definition counted (P : loginStage → bool) (m : gmap nat loginStage) : Z :=
  Z.of_nat (size (filter (fun kv : nat * loginStage => P kv.2 = true) m)).
(** One acquisition of the store lock; [wrong] says that it told a request
    for [cid] its factor is wrong. *)
Definition wrong_step (cid : string) (g g' : loginStage) : bool :=
  match g, g' with AtFactor rq _ _ _, AtFail _ _ => rqChallengeID rq =?? cid | _, _ => false end.
Inductive login_world (cid : string) : loginWorld → bool → loginWorld → Prop :=
| world_other st st' ts : auth_op (fun _ _ => True) (fun c => chID c ≠ cid) st st' → login_world cid (st, ts) false (st', ts)
| world_request st ts i rq : ts !! i = None → login_world cid (st, ts) false (st, <[i := AtStart rq]> ts)
| world_step st ts i g order ev st' g' : ts !! i = Some g → loginStep order ev st g = (st', g') →
    login_world cid (st, ts) (wrong_step cid g g') (st', <[i := g']> ts).
(** [n] wrong answers on the way from [w] to [w'], with never more than [m]
    requests holding a reading of [cid]. *)
Inductive guesses (cid : string) (m : Z) (w : loginWorld) : nat → loginWorld → Prop :=
| guesses_start : guesses cid m w 0 w
| guesses_more n b w1 w2 : guesses cid m w n w1 → login_world cid w1 b w2 → counted (holds cid) w2.2 <= m →
    guesses cid m w (if b then S n else n) w2.

Lemma counted_fresh P ts i g : ts !! i = None → counted P (<[i := g]> ts) = counted P ts + (if P g then 1 else 0).
Proof.
  intros Hi. unfold counted. rewrite map_filter_insert. cbn. destruct (P g) eqn:E.
  - rewrite decide_True, map_size_insert_None by (done || by apply map_lookup_filter_None; left). lia.
  - rewrite decide_False by done. rewrite delete_id by done. lia.
Qed.
Lemma counted_update P ts i g g' : ts !! i = Some g →
  counted P (<[i := g']> ts) + (if P g then 1 else 0) = counted P ts + (if P g' then 1 else 0).
Proof.
  intros Hi. rewrite <- (insert_delete_id ts i g Hi) at 2. rewrite <- insert_delete_eq.
  rewrite !counted_fresh by apply lookup_delete_eq. lia.
Qed.

Lemma counted_le cid ts : counted (failing cid) ts <= counted (holds cid) ts.
Proof.
  unfold counted. apply inj_le, map_subseteq_size, map_filter_subseteq_ext. intros i g _. cbn.
  by destruct g.
Qed.

(** What is true of every stage a request reaches: its reading is of the
    challenge it names, and it checks a factor only on a reading with guesses
    left. *)
Definition stage_ok (cid : string) (g : loginStage) : Prop :=
  (∀ rq c, request_of g = Some (rq, c) → rqChallengeID rq = cid → chID c = cid) ∧
  match g with
  | AtFactor _ c _ _ | AtFail _ c => chAttempts c < maxTOTPChallengeAttempts
  | _ => True
  end.
(** What the run keeps: while the challenge takes guesses, wrong answers are
    recorded or about to be; afterwards only the requests that hold a reading
    can still get one. *)
Definition guess_inv (cid : string) (m b0 n : Z) (w : loginWorld) : Prop :=
  challenge_ok cid w.1 ∧ map_Forall (fun _ g => stage_ok cid g) w.2 ∧ counted (holds cid) w.2 <= m ∧
  (if 0 <? budget cid w.1 then n <= b0 - budget cid w.1 + counted (failing cid) w.2
   else n + (counted (holds cid) w.2 - counted (failing cid) w.2) <= b0 + m - 1).

#[local] Notation one b := (if b then 1 else 0).
(** A step of one request in numbers: it leaves the counts alone or takes a
    reading of a challenge that still has guesses, or hears that its factor is
    wrong, or records that. *)
Definition step_counts (cid : string) (st : AuthState) (g : loginStage) (st' : AuthState) (g' : loginStage) : Prop :=
  challenge_ok cid st' ∧ stage_ok cid g' ∧ budget cid st' <= budget cid st ∧
  ((wrong_step cid g g' = false ∧ failing cid g = false ∧ failing cid g' = false ∧
      (one (holds cid g') <= one (holds cid g) ∨ 0 < budget cid st' ∧ budget cid st' = budget cid st))
   ∨ (wrong_step cid g g' = true ∧ holds cid g = true ∧ failing cid g = false ∧
      holds cid g' = true ∧ failing cid g' = true ∧ budget cid st' = budget cid st)
   ∨ (wrong_step cid g g' = false ∧ holds cid g = true ∧ failing cid g = true ∧
      holds cid g' = false ∧ failing cid g' = false ∧ budget cid st' <= Z.max 0 (budget cid st - 1))).

Lemma counts_quiet cid st g st' g' :
  challenge_ok cid st' ∧ budget cid st' <= budget cid st → request_of g' = None → failing cid g = false →
  step_counts cid st g st' g'.
Proof.
  intros [Hok Hb] Hr Hf. assert (holds cid g' = false ∧ failing cid g' = false ∧ wrong_step cid g g' = false) as (H1 & H2 & H3).
  { unfold holds. rewrite Hr. destruct g'; try done; destruct g; done. }
  unfold step_counts. rewrite H1, H2, H3. split_and!; [done| |done|].
  - split; [by rewrite Hr|by destruct g'].
  - left. split_and!; [done..|]. left. destruct (holds cid g); lia.
Qed.
Lemma counts_forward cid st g g' rq c :
  challenge_ok cid st → stage_ok cid g → request_of g = Some (rq, c) → request_of g' = Some (rq, c) →
  failing cid g = false → failing cid g' = false → wrong_step cid g g' = false →
  (match g' with AtFactor _ c _ _ | AtFail _ c => chAttempts c < maxTOTPChallengeAttempts | _ => True end) →
  step_counts cid st g st g'.
Proof.
  intros Hok [Hs _] Hg Hg' Hf Hf' Hw Hm. unfold step_counts, holds. rewrite Hf, Hf', Hw, Hg, Hg'.
  split_and!; [done| |lia|left; split_and!; [done..|]; left; lia].
  split; [|done]. rewrite Hg'. intros rq' c' [= <- <-]. by apply Hs.
Qed.
Lemma reading_budget cid st now id c :
  challenge_ok cid st → TOTPChallengeOf now id st = Some c → id = cid →
  chID c = cid ∧ (chAttempts c < maxTOTPChallengeAttempts → 0 < budget cid st).
Proof.
  intros Hok H ->. assert (TOTPChallenges st !! cid = Some c) as E.
  { unfold TOTPChallengeOf in H. destruct (TOTPChallenges st !! cid) as [c0|]; [|done].
    cbn in H. by destruct (challengeActive c0 now); simplify_eq. }
  split; [by destruct (Hok _ E)|]. unfold budget. rewrite E. lia.
Qed.
Lemma start_counts cid order ev st rq st' g' :
  challenge_ok cid st → loginStep order ev st (AtStart rq) = (st', g') → step_counts cid st (AtStart rq) st' g'.
Proof.
  intros Hok H. cbn [loginStep] in H. injection H as <- <-.
  assert (∀ r, step_counts cid st (AtStart rq) st (Replied r)) as Hr by (intros r; apply counts_quiet; [split; [done|lia]|done..]).
  destruct (negb _); [apply Hr|]. destruct (TOTPChallengeOf _ _ _) as [c|] eqn:E; [|apply Hr].
  destruct (negb _); [apply Hr|].
  pose proof (reading_budget cid st _ _ c Hok E) as Hc.
  split_and!; [done| |lia|].
  - split; [|done]. intros rq0 c0 [= <- <-] Hid. by apply Hc.
  - left. split_and!; [done..|]. unfold holds. cbn [request_of].
    destruct (bool_decide _) eqn:Eq; cbn [andb]; [|left; lia].
    destruct (Z.ltb_spec (chAttempts c) maxTOTPChallengeAttempts); [|left; lia].
    right. apply bool_decide_eq_true in Eq. destruct (Hc Eq) as [_ Hb]. split; [auto|done].
Qed.
Lemma factor_counts cid order ev st rq c sso u st' g' :
  challenge_ok cid st → stage_ok cid (AtFactor rq c sso u) → loginStep order ev st (AtFactor rq c sso u) = (st', g') →
  step_counts cid st (AtFactor rq c sso u) st' g'.
Proof.
  intros Hok [Hs Ha] H. cbn [loginStep] in H. destruct (checkFactor ev rq u st) as [st1 r] eqn:E. injection H as <- <-.
  apply checkFactor_challenges in E.
  assert (TOTPChallenges st1 !! cid = TOTPChallenges st !! cid) as El by by rewrite E.
  destruct (budget_same cid st st1 El Hok) as [Hok1 Hb].
  assert (budget cid st1 = budget cid st) as Hbe by (unfold budget; by rewrite E).
  destruct r as [e|[[] rec]]; [by apply counts_quiet..|].
  apply Z.ltb_lt in Ha as Ha'. split_and!; [done|split; [exact Hs|exact Ha]|done|].
  unfold wrong_step, failing, holds. cbn [request_of]. rewrite Ha'.
  destruct (bool_decide (rqChallengeID rq = cid)); cbn [andb].
  - right; left. by split_and!.
  - left. split_and!; [done..|]. left; lia.
Qed.
Lemma fail_counts cid order ev st rq c st' g' :
  challenge_ok cid st → stage_ok cid (AtFail rq c) → loginStep order ev st (AtFail rq c) = (st', g') →
  step_counts cid st (AtFail rq c) st' g'.
Proof.
  intros Hok [Hs Ha] H. cbn [loginStep] in H. injection H as <- <-. set (st' := (FailTOTPChallenge _ _ _ _).1).
  destruct (op_budget (fun _ _ => True) cid st st' (op_fail_challenge _ _ _ _ _) Hok) as [Hok' Hb].
  assert (∀ g', request_of g' = None → step_counts cid st (AtFail rq c) st' g') as Hg.
  { intros g' Hr. destruct (decide (rqChallengeID rq = cid)) as [Hid|Hne].
    - assert (holds cid g' = false ∧ failing cid g' = false ∧ wrong_step cid (AtFail rq c) g' = false) as (H1 & H2 & H3).
      { unfold holds. rewrite Hr. by destruct g'. }
      split_and!; [done| |done|]; [split; [by rewrite Hr|by destruct g']|].
      right; right. rewrite H1, H2, H3. apply Z.ltb_lt in Ha as Ha'. unfold failing, holds. cbn [request_of].
      rewrite Ha', bool_decide_eq_true_2 by done. split_and!; [done..|].
      specialize (Hs rq c eq_refl Hid). subst st'. rewrite Hs. by apply fail_budget.
    - apply counts_quiet; [done..|]. unfold failing, holds. cbn [request_of]. by rewrite bool_decide_eq_false_2. }
  destruct (totpAllowed ev); by apply Hg.
Qed.

Lemma login_step_counts cid order ev st g st' g' :
  challenge_ok cid st → stage_ok cid g → loginStep order ev st g = (st', g') → step_counts cid st g st' g'.
Proof.
  intros Hok Hg H.
  destruct g as [rq|rq c|rq c sso|rq c|rq c sso u|rq c|rq c|rq c sso u rec|rq sso u rec|r].
  - by eapply start_counts.
  - cbn [loginStep] in H. injection H as <- <-. destruct (_ && _).
    + apply counts_quiet; [split; [done|lia]|done..].
    + by apply (counts_forward cid st _ _ rq c).
  - cbn [loginStep] in H. injection H as <- <-.
    destruct (UserOf _ _) as [u|]; [|apply counts_quiet; [split; [done|lia]|done..]].
    destruct (negb _); [apply counts_quiet; [split; [done|lia]|done..]|].
    destruct (Z.leb_spec maxTOTPChallengeAttempts (chAttempts c)).
    + apply counts_quiet; [split; [done|lia]|done..].
    + by apply (counts_forward cid st _ _ rq c).
  - cbn [loginStep] in H. injection H as <- <-. apply counts_quiet; [|done..].
    apply (op_budget (fun _ _ => True)); [constructor|done].
  - by eapply factor_counts.
  - by eapply fail_counts.
  - cbn [loginStep] in H. injection H as <- <-. apply counts_quiet; [|done..].
    apply (op_budget (fun _ _ => True)); [constructor|done].
  - cbn [loginStep] in H. destruct (ConsumeTOTPChallenge _ _ _) as [st1 err] eqn:E. injection H as <- <-.
    apply (f_equal fst) in E. cbn in E. subst st1. apply counts_quiet; [|by destruct err|done].
    apply (op_budget (fun _ _ => True)); [constructor|done].
  - cbn [loginStep] in H. destruct (startSession _ _ _ _ _ _) as [st1 s] eqn:E. injection H as <- <-.
    apply counts_quiet; [|done..]. apply budget_same; [|done]. unfold startSession in E.
    destruct (NewSession _ _ _ _); [|by simplify_eq]. unfold PutSession in E.
    by repeat case_match; simplify_eq.
  - cbn [loginStep] in H. injection H as <- <-. apply counts_quiet; [split; [done|lia]|done..].
Qed.

Lemma world_guess_inv cid m b0 n w b w' :
  guess_inv cid m b0 (Z.of_nat n) w → login_world cid w b w' → counted (holds cid) w'.2 <= m →
  guess_inv cid m b0 (Z.of_nat (if b then S n else n)) w'.
Proof.
  intros (Hok & Hst & Hm & Hn) H Hm'.
  destruct H as [st st' ts Hop|st ts i rq Hi|st ts i g order ev st' g' Hi Hg]; cbn [fst snd] in *.
  - destruct (op_budget _ _ _ _ Hop Hok) as [Hok' Hb]. split_and!; [done..|]. cbn [fst snd].
    pose proof (budget_nonneg cid st'). pose proof (budget_nonneg cid st).
    destruct (Z.ltb_spec 0 (budget cid st)), (Z.ltb_spec 0 (budget cid st')); lia.
  - split_and!; cbn [fst snd]; [done| |done|].
    + apply map_Forall_insert_2; [|done]. by split.
    + by rewrite !counted_fresh, !Z.add_0_r.
  - destruct (login_step_counts cid order ev st g st' g' Hok (Hst _ _ Hi) Hg) as (Hok' & Hst' & Hb & Hcase).
    split_and!; cbn [fst snd]; [done|by apply map_Forall_insert_2|done|].
    pose proof (counted_update (holds cid) ts i g g' Hi) as Hh.
    pose proof (counted_update (failing cid) ts i g g' Hi) as Hf.
    pose proof (budget_nonneg cid st'). pose proof (budget_nonneg cid st).
    destruct Hcase as [(Hw & H1 & H2 & Hc)|[(Hw & H1 & H2 & H3 & H4 & Hc)|(Hw & H1 & H2 & H3 & H4 & Hc)]];
      rewrite Hw; repeat match goal with H : _ cid _ = _ |- _ => rewrite H in * end;
      destruct (Z.ltb_spec 0 (budget cid st)), (Z.ltb_spec 0 (budget cid st')); lia.
Qed.

(** C21. Second-factor guessing is bounded under any interleaving of login
    requests, each taking the store lock once to read the challenge, once to
    check the factor and once to record a failure, with every other operation
    of the store: while at most [m] requests at a time hold a reading of the
    challenge they have not answered for, the requests are told that a factor
    is wrong at most [m - 1] times more often than the challenge has guesses
    left.  With one request at a time that is five, less the recorded failures. *)
Theorem challenge_guesses_bounded cid m n st w' :
  challenge_ok cid st → 1 <= m → guesses cid m (st, ∅) n w' → Z.of_nat n <= budget cid st + m - 1.
Proof.
  intros Hok Hm H. assert (guess_inv cid m (budget cid st) (Z.of_nat n) w') as Hinv.
  { remember (st, ∅) as w eqn:Ew. induction H as [|n b w1 w2 _ IH Hw Hm2].
    - subst w. split_and!; cbn [fst snd]; [done|apply map_Forall_empty|unfold counted; rewrite map_filter_empty, map_size_empty; lia|].
      unfold counted. rewrite !map_filter_empty, !map_size_empty.
      pose proof (budget_nonneg cid st). destruct (Z.ltb_spec 0 (budget cid st)); lia.
    - by apply (world_guess_inv cid m _ n w1 b w2). }
  destruct Hinv as (_ & _ & Hh & Hn). pose proof (counted_le cid w'.2). pose proof (budget_nonneg cid w'.1).
  destruct (Z.ltb_spec 0 (budget cid w'.1)); lia.
Qed.

(** ** Sessions *)

Lemma older_spec l acc id t :
  fold_left older l acc = Some (id, t) →
  (acc = Some (id, t) ∨ ∃ s, (id, s) ∈ l ∧ seCreatedAt s = t) ∧
  (∀ i t0, acc = Some (i, t0) → t <= t0) ∧ (∀ e, e ∈ l → t <= seCreatedAt e.2).
Proof.
  revert acc. induction l as [|e l IH]; intros acc; cbn [fold_left].
  - intros ->. split_and!; [by left|intros ? ? [= <- <-]; lia|set_solver].
  - intros (Hsrc & Hacc & Hall)%IH. unfold older, before in *. destruct acc as [[i0 t0]|].
    + destruct (Z.ltb_spec (seCreatedAt e.2) t0); split_and!.
      * destruct Hsrc as [[= <- <-]|(s & ? & ?)]; right; [|exists s; set_solver].
        exists e.2. destruct e. set_solver.
      * intros i t1 [= <- <-]. specialize (Hacc _ _ eq_refl). lia.
      * intros e' [->|?]%elem_of_cons; [by eapply Hacc|by apply Hall].
      * destruct Hsrc as [?|(s & ? & ?)]; [by left|right]. exists s. set_solver.
      * done.
      * intros e' [->|?]%elem_of_cons; [|by apply Hall]. specialize (Hacc _ _ eq_refl). lia.
    + split_and!.
      * destruct Hsrc as [[= <- <-]|(s & ? & ?)]; right; [|exists s; set_solver].
        exists e.2. destruct e. set_solver.
      * done.
      * intros e' [->|?]%elem_of_cons; [by eapply Hacc|by apply Hall].
Qed.

Lemma older_some l acc : (acc ≠ None ∨ l ≠ []) → ∃ e, fold_left older l acc = Some e.
Proof.
  revert acc. induction l as [|e l IH]; intros acc; cbn [fold_left].
  - intros [?|?]; [|done]. destruct acc; [by eexists|done].
  - intros _. apply IH. left. unfold older. destruct acc as [[? ?]|]; [|done]. by destruct (before _ _).
Qed.

Lemma evict_spec order ss :
  (∀ m, order m ≡ₚ map_to_list m) → ss ≠ ∅ →
  ∃ id s, ss !! id = Some s ∧ evictOldestSessionLocked order ss = delete id ss ∧
    ∀ id' s', ss !! id' = Some s' → seCreatedAt s <= seCreatedAt s'.
Proof.
  intros Ho Hne. unfold evictOldestSessionLocked.
  destruct (older_some (order ss) None) as [[id t] E].
  { right. intros E. apply Hne, map_to_list_empty_iff, Permutation_nil_r. by rewrite <- Ho, E. }
  rewrite E. apply older_spec in E as ([?|(s & Hin & Ht)] & _ & Hall); [done|].
  rewrite Ho, elem_of_map_to_list in Hin. exists id, s. split_and!; [done..|].
  intros id' s' H'. apply elem_of_map_to_list in H'. rewrite <- Ho in H'. apply Hall in H'. cbn in H'. lia.
Qed.

(** Storing a session keeps the table within its cap: whatever order the
    map is ranged in, at most [maxSessions] sessions remain, all of them the
    new one or sessions that were active and are unchanged; and a session that
    was active (or the new one) and is not kept was created no later than any
    that is. *)
Theorem sessions_bounded now order saved sess st :
  (∀ m, order m ≡ₚ map_to_list m) → (size (Sessions st) <= maxSessions)%nat →
  let st' := (PutSession now order saved sess st).1 in
  (size (Sessions st') <= maxSessions)%nat ∧
  (∀ id s, Sessions st' !! id = Some s →
     (id = seID sess ∧ s = sess) ∨ (Sessions st !! id = Some s ∧ sessionActive s now = true)) ∧
  (∀ id s, (id = seID sess ∧ s = sess) ∨
           (id ≠ seID sess ∧ Sessions st !! id = Some s ∧ sessionActive s now = true) →
     Sessions st' !! id = Some s ∨
     ∀ id' s', Sessions st' !! id' = Some s' → seCreatedAt s <= seCreatedAt s').
Proof.
  intros Ho Hsz. unfold PutSession. cbn [fst Sessions with_Sessions]. set (ss := <[_ := _]> _).
  assert (∀ id s, ss !! id = Some s ↔ (id = seID sess ∧ s = sess) ∨
    (id ≠ seID sess ∧ Sessions st !! id = Some s ∧ sessionActive s now = true)) as Hss.
  { intros id s. unfold ss. rewrite lookup_insert_Some, map_lookup_filter_Some. cbn. naive_solver. }
  assert (size ss <= S maxSessions)%nat as Hsize.
  { assert (size (filter (fun e => sessionActive e.2 now = true) (Sessions st)) <= maxSessions)%nat
      by (etrans; [apply map_subseteq_size, map_filter_subseteq|exact Hsz]).
    unfold ss. rewrite map_size_insert. destruct (_ !! _); unfold id; lia. }
  destruct (Nat.ltb_spec maxSessions (size ss)) as [Hlt|Hge].
  - destruct (evict_spec order ss Ho) as (id0 & s0 & H0 & -> & Hold).
    { intros E. rewrite E, map_size_empty in Hlt. lia. }
    split_and!.
    + rewrite map_size_delete, H0. cbn. lia.
    + intros id s [_ H]%lookup_delete_Some. apply Hss in H. naive_solver.
    + intros id s H%Hss. destruct (decide (id0 = id)) as [->|Hne].
      * right. intros id' s' [_ H']%lookup_delete_Some. rewrite H0 in H. injection H as <-. by eapply Hold.
      * left. by rewrite lookup_delete_ne.
  - split_and!; [done| |].
    + intros id s H%Hss. naive_solver.
    + intros id s H%Hss. by left.
Qed.

(** Bumping a user's security epoch ends every session minted before it:
    the session of a login carries the epoch of that moment, and after a bump
    and any further operations that do not lower epochs, no request presenting
    that session is authenticated. *)
Theorem epoch_bump_revokes order ev rq st st1 s b r uid saved st2 st3 :
  users_keyed st → handleLoginTOTP order ev rq st = (st1, LoggedIn s b r) → uid = seActorID s →
  (∀ u, UserOf uid st = Some u → 0 <= SecurityEpoch u) →
  rtc (auth_op current (fun _ => True)) st1 st2 →
  (∀ u, UserOf uid st2 = Some u → SecurityEpoch u < uint64_max) →
  rtc (auth_op current (fun _ => True)) (BumpSecurityEpoch saved uid st2).1 st3 →
  ∀ now cookie, Sessions st3 !! cookie = Some s → principalFromSession now cookie st3 = None.
Proof.
  intros Hk H -> H0 Hrun Hmax Hrun3 now cookie Hs.
  destruct (login_inv _ _ _ _ _ _ _ _ H) as (c & sso & u & st0 & Ha & _ & Hf & Hops & Hact & Hep & _).
  apply admit_inv in Ha as (_ & _ & Hu & _). unfold UserOf in *. pose proof (Hk _ _ Hu) as Hid.
  pose proof (login_ops current (fun _ => True) order ev rq st) as Hlog. rewrite H in Hlog. cbn [fst] in Hlog.
  destruct (ops_users (fun _ => True) st st2 ltac:(by etrans) Hk) as [Hk2 Hle].
  destruct (Hle _ _ Hu) as (u2 & Hu2 & _ & He2). rewrite <- Hid in Hu2, Hu. rewrite Hact in *.
  specialize (H0 _ Hu). specialize (Hmax _ Hu2).
  assert (users_keyed (BumpSecurityEpoch saved (uID u) st2).1) as Hk3.
  { apply (op_users (fun _ => True) st2); [|done]. constructor. intros v Hv. rewrite Hu2 in Hv. injection Hv as <-. lia. }
  unfold BumpSecurityEpoch in Hrun3, Hk3. rewrite Hu2 in Hrun3, Hk3. cbn [fst] in Hrun3, Hk3.
  destruct (ops_users (fun _ => True) _ _ Hrun3 Hk3) as [_ Hle3].
  destruct (Hle3 (uID u) (with_SecurityEpoch (wrapu64 (SecurityEpoch u2 + 1)) u2)) as (u3 & Hu3 & _ & He3).
  { cbn. apply lookup_insert_eq. }
  cbn in He3. unfold wrapu64 in He3. unfold uint64_max in Hmax. rewrite Z.mod_small in He3 by lia.
  unfold principalFromSession, SessionOf, UserOf. rewrite Hs. cbn. destruct (sessionActive s now); [|done]. cbn.
  rewrite Hact, Hu3. cbn. assert (Epoch s <? SecurityEpoch u3 = true) as -> by (apply Z.ltb_lt; lia). done.
Qed.

(** ** Recovery codes *)

Lemma lastIndex_Some want i acc l k :
  lastIndex want i acc l = Some k → acc = Some k ∨ ((i <= k)%nat ∧ l !! (k - i)%nat = Some want).
Proof.
  revert i acc. induction l as [|h l IH]; intros i acc; cbn [lastIndex]; [by left|].
  intros [H|[Hle H]]%IH.
  - case_bool_decide; [|by left]. simplify_eq. right. split; [done|]. by rewrite Nat.sub_diag.
  - right. split; [lia|]. replace (k - i)%nat with (S (k - S i)) by lia. done.
Qed.
Lemma lastIndex_acc want i acc l : acc ≠ None → lastIndex want i acc l ≠ None.
Proof.
  revert i acc. induction l as [|h l IH]; intros i acc H; cbn [lastIndex]; [done|].
  apply IH. by case_bool_decide.
Qed.
Lemma lastIndex_None want i l : lastIndex want i None l = None ↔ want ∉ l.
Proof.
  revert i. induction l as [|h l IH]; intros i; cbn [lastIndex]; [set_solver|].
  rewrite not_elem_of_cons. case_bool_decide as Hh.
  - split; [intros E; by apply lastIndex_acc in E|]. intros [? _]. by destruct Hh.
  - rewrite IH. naive_solver.
Qed.

Lemma ConsumeRecoveryCode_cases saved uid c st :
  let h := HashRecoveryCode (trim_space c) in
  (ConsumeRecoveryCode saved uid c st = (st, (false, None)) ∧
   (trim_space c = "" ∨ ∀ u, Users st !! uid = Some u → h ∉ RecoveryCodeHashes u)) ∨
  (∃ u idx, trim_space c ≠ "" ∧ Users st !! uid = Some u ∧ RecoveryCodeHashes u !! idx = Some h ∧
     ConsumeRecoveryCode saved uid c st =
     (with_Users (<[uid := with_RecoveryCodeHashes
        (take idx (RecoveryCodeHashes u) ++ drop (S idx) (RecoveryCodeHashes u)) u]> (Users st)) st,
      (saved, save_error saved))).
Proof.
  intros h. unfold ConsumeRecoveryCode. fold h. case_bool_decide as Hc; [left; by auto|].
  destruct (Users st !! uid) as [u|] eqn:Eu; [|left; split; [done|by right]].
  destruct (lastIndex h 0 None (RecoveryCodeHashes u)) as [idx|] eqn:El.
  - right. apply lastIndex_Some in El as [?|[_ El]]; [done|]. rewrite Nat.sub_0_r in El.
    exists u, idx. done.
  - left. split; [done|right]. intros u' [= <-]. by apply lastIndex_None in El.
Qed.

(** The user holds no code with hash [h]. *)
Definition spent (uid h : string) (st : AuthState) : Prop :=
  ∀ u, Users st !! uid = Some u → h ∉ RecoveryCodeHashes u.
Definition keeps_spent (uid h : string) (st : AuthState) (u : User) : Prop :=
  uID u = uid → h ∉ RecoveryCodeHashes u.

Lemma spent_insert uid h st id u :
  (id = uid → h ∉ RecoveryCodeHashes u) → spent uid h st →
  spent uid h (with_Users (<[id := u]> (Users st)) st).
Proof.
  intros Hu Hs v. cbn. destruct (decide (id = uid)) as [->|Hne].
  - rewrite lookup_insert_eq. intros [= <-]. by apply Hu.
  - rewrite lookup_insert_ne by done. apply Hs.
Qed.

Lemma op_spent okCh uid h st st' :
  auth_op (keeps_spent uid h) okCh st st' → spent uid h st → spent uid h st'.
Proof.
  intros H Hs. destruct H as [now order saved s|saved id|now saved c _|saved id|saved id|saved id c
    |saved id step|saved id Hb|saved u Hok]; try exact Hs.
  - unfold DeleteSession. by destruct (Sessions st !! id).
  - unfold PutTOTPChallenge. by destruct (_ <=? _)%nat.
  - unfold ConsumeTOTPChallenge. by destruct (TOTPChallenges st !! id).
  - unfold FailTOTPChallenge. by destruct (TOTPChallenges st !! id).
  - destruct (ConsumeRecoveryCode_cases saved id c st) as [[-> _]|(u & idx & _ & Hu & _ & ->)]; [done|].
    apply spent_insert; [|done]. intros ->. cbn. intros Hin. apply (Hs _ Hu).
    rewrite <- (take_drop idx (RecoveryCodeHashes u)). apply elem_of_app in Hin as [?|Hin]; apply elem_of_app; [by left|right].
    apply list_elem_of_lookup in Hin as [i Hi]. rewrite lookup_drop in Hi. apply list_elem_of_lookup.
    exists (S i). rewrite lookup_drop. by rewrite Nat.add_succ_r.
  - unfold AdvanceTOTPStep. destruct (Users st !! id) as [u|] eqn:Eu; [|done].
    destruct (_ <=? _); [done|]. apply spent_insert; [|done]. intros ->. exact (Hs _ Eu).
  - unfold BumpSecurityEpoch. destruct (Users st !! id) as [u|] eqn:Eu; [|done].
    apply spent_insert; [|done]. intros ->. exact (Hs _ Eu).
  - by apply spent_insert.
Qed.

(** A recovery code pays for one login: a successful consumption removes
    exactly one stored hash, that of the presented code; if the stored hashes
    were distinct, the code is refused after any further store operations that
    do not write its hash back. *)
Theorem recovery_code_single_use saved uid c st st1 err :
  ConsumeRecoveryCode saved uid c st = (st1, (true, err)) →
  let h := HashRecoveryCode (trim_space c) in
  ∃ u u1, Users st !! uid = Some u ∧ Users st1 !! uid = Some u1 ∧
    RecoveryCodeHashes u ≡ₚ h :: RecoveryCodeHashes u1 ∧
    (NoDup (RecoveryCodeHashes u) →
     ∀ st2 saved', rtc (auth_op (keeps_spent uid h) (fun _ => True)) st1 st2 →
     ConsumeRecoveryCode saved' uid c st2 = (st2, (false, None))).
Proof.
  intros H h. destruct (ConsumeRecoveryCode_cases saved uid c st) as [[E _]|(u & idx & Hc & Hu & Hidx & E)];
    rewrite E in H; [done|]. injection H as <- _ _. fold h in Hidx.
  set (l := RecoveryCodeHashes u) in *. exists u, (with_RecoveryCodeHashes (take idx l ++ drop (S idx) l) u).
  assert (l ≡ₚ h :: take idx l ++ drop (S idx) l) as Hp.
  { rewrite <- (take_drop_middle _ _ _ Hidx) at 1. by rewrite Permutation_middle. }
  split_and!; [done|cbn; by rewrite lookup_insert_eq|done|]. intros Hnd st2 saved' Hrun.
  assert (spent uid h st2) as Hs.
  { eapply (rtc_ind_l (fun x => spent uid h x → spent uid h st2)); [done| |exact Hrun|].
    - intros x y Hop _ IH Hx. by eapply IH, op_spent.
    - intros v. cbn. rewrite lookup_insert_eq. intros [= <-]. cbn. fold l.
      assert (NoDup (h :: take idx l ++ drop (S idx) l)) as [? _]%NoDup_cons by (by rewrite <- Hp). done. }
  destruct (ConsumeRecoveryCode_cases saved' uid c st2) as [[? _]|(u2 & idx2 & _ & Hu2 & Hin & _)]; [done|].
  destruct (Hs _ Hu2). by eapply list_elem_of_lookup_2.
Qed.

(** A password change can bring a spent second factor back: the handler
    writes the user record it read before hashing the passwords, so a recovery
    code consumed or a one-time code accepted in between is accepted again. *)
Theorem lost_update_restores_factors current new hash uid c step st st1 st2 written :
  users_keyed st →
  handlePasswordChange_read false uid current new false true false (Some hash) st = inr written →
  ConsumeRecoveryCode true uid c st = (st1, (true, None)) →
  AdvanceTOTPStep true uid step st1 = (st2, (true, None)) →
  let '(st3, reply) := handlePasswordChange_write true written st2 in
  reply = PwChanged ∧
  (ConsumeRecoveryCode true uid c st3).2 = (true, None) ∧
  (AdvanceTOTPStep true uid step st3).2 = (true, None).
Proof.
  intros Hk Hw H1 H2.
  destruct (ConsumeRecoveryCode_cases true uid c st) as [[E _]|(u & idx & Hc & Hu & Hidx & E)];
    rewrite E in H1; [done|]. injection H1 as <-.
  unfold handlePasswordChange_read, UserOf in Hw. rewrite Hu in Hw. destruct (_ || _); [done|].
  injection Hw as <-. pose proof (Hk _ _ Hu) as Hid.
  unfold AdvanceTOTPStep in H2. cbn [Users with_Users] in H2. rewrite lookup_insert_eq in H2. cbn in H2.
  destruct (Z.leb_spec step (LastTOTPStep u)) as [|Hlt]; [done|]. injection H2 as <-.
  unfold handlePasswordChange_write, UpsertUser. cbn [save_error]. split; [done|]. cbn [uID with_SecurityEpoch with_PasswordHash].
  rewrite Hid. match goal with |- context [ConsumeRecoveryCode true uid c ?s] => set (st3 := s) end.
  assert (Users st3 !! uid = Some (with_SecurityEpoch (wrapu64 (SecurityEpoch u + 1)) (with_PasswordHash hash u))) as H3
    by apply lookup_insert_eq.
  split.
  - destruct (ConsumeRecoveryCode_cases true uid c st3) as [[_ [?|Hn]]|(? & ? & _ & _ & _ & ->)]; [done| |done].
    destruct (Hn _ H3). by eapply list_elem_of_lookup_2.
  - unfold AdvanceTOTPStep. rewrite H3. cbn. by rewrite (proj2 (Z.leb_gt _ _) Hlt).
Qed.

(** Turning the second factor off does not spend the code it checks: the
    one-time code of a login that just succeeded turns the factor off. *)
Theorem disable_accepts_spent_code order ev rq st st1 s b r sv :
  users_keyed st → handleLoginTOTP order ev rq st = (st1, LoggedIn s b r) → rqCode rq ≠ "" →
  (handle2FADisable (evClock ev) sv true (seActorID s) (rqCode rq) st1).2 = Disabled.
Proof.
  intros Hk H Hc.
  destruct (login_inv _ _ _ _ _ _ _ _ H) as (c & sso & u & st0 & Ha & _ & Hf & _ & Hact & _ & _ & Hus).
  apply admit_inv in Ha as (_ & _ & Hu & Hen & _). pose proof (Hk _ _ Hu) as Hid.
  destruct (checkFactor_code _ _ _ _ _ _ Hc Hf) as (step & old & Hv & Hold & _ & Hnew).
  unfold UserOf in Hu. rewrite Hid, Hu in Hold. injection Hold as <-.
  unfold handle2FADisable, UserOf. rewrite Hact, Hus, Hnew. cbn [TOTPEnabled with_LastTOTPStep]. rewrite Hen.
  cbn [negb]. unfold ValidateTOTP. cbn [TOTPSecret with_LastTOTPStep]. by rewrite Hv.
Qed.

(** ** A concrete login *)

Module AuthDemo.
Definition user : User :=
  mkUser "u1" "pbkdf2" true rfc_secret [HashRecoveryCode "first-code-12"; HashRecoveryCode "second-code-34"] 0 7.
Definition at_ (s : Z) : time := unix_time s.
Definition challenge : TOTPChallenge :=
  mkChallenge "ch1" "u1" "192.0.2.7" (at_ 1111111100) (at_ 1111111400) false 2 "" "".
Definition st : AuthState := mkAuth {["u1" := user]} ∅ {["ch1" := challenge]}.
Definition ev : callEnv :=
  mkEnv true true (at_ 1111111109) (at_ 1111111109) (Some ("sess1", "csrf1")) true true true.
Definition rq (c : string) : totpRequest := mkTotpRequest "ch1" c "" "192.0.2.7" None.
Definition st1 : AuthState := Eval vm_compute in (handleLoginTOTP map_to_list ev (rq "081804") st).1.
Definition sess : Session :=
  mkSession "sess1" "u1" "csrf1" 7 (at_ 1111111109) (at_ (1111111109 + 43200)) false.
Lemma login_ok : handleLoginTOTP map_to_list ev (rq "081804") st = (st1, LoggedIn sess false false).
Proof. vm_compute. reflexivity. Qed.
Lemma keyed : users_keyed st.
Proof. intros id u H. cbn in H. apply lookup_singleton_Some in H as [<- <-]. done. Qed.
Lemma ch_ok : challenge_ok "ch1" st.
Proof. intros c. cbn. rewrite lookup_singleton_eq. intros [= <-]. done. Qed.
Lemma code_given : rqCode (rq "081804") ≠ "".
Proof. cbn. discriminate. Qed.
Definition stA : AuthState :=
  Eval vm_compute in (loginStep map_to_list ev st (AtFactor (rq "081804") challenge false user)).1.
Lemma factor_ok : loginStep map_to_list ev st (AtFactor (rq "081804") challenge false user)
  = (stA, AtConsume (rq "081804") challenge false user false).
Proof. vm_compute. reflexivity. Qed.
(** Runs of login requests from a script: a request arrives, or takes its
    next step. *)
Fixpoint play (cid : string) (m : Z) (script : list (nat * option totpRequest)) (n : nat) (w : loginWorld)
  : option (nat * loginWorld) :=
  match script with
  | [] => Some (n, w)
  | (i, arrives) :: script =>
    let next :=
      match arrives, w.2 !! i with
      | Some q, None => Some (n, (w.1, <[i := AtStart q]> w.2))
      | None, Some g =>
        let '(st', g') := loginStep map_to_list ev w.1 g in
        Some (if wrong_step cid g g' then S n else n, (st', <[i := g']> w.2))
      | _, _ => None
      end in
    match next with
    | Some (n, w) => if counted (holds cid) w.2 <=? m then play cid m script n w else None
    | None => None
    end
  end.
Lemma play_guesses cid m w0 script n w n' w' :
  guesses cid m w0 n w → play cid m script n w = Some (n', w') → guesses cid m w0 n' w'.
Proof.
  revert n w. induction script as [|[i a] script IH]; intros n [s ts] Hg H; cbn [play fst snd] in H.
  { by injection H as <- <-. }
  destruct a as [q|], (ts !! i) as [g|] eqn:Ei; try done.
  - cbn [snd fst] in H. destruct (Z.leb_spec (counted (holds cid) (<[i := AtStart q]> ts)) m); [|done].
    eapply IH; [|exact H]. apply (guesses_more cid m w0 n false _ _ Hg); [by apply world_request|done].
  - destruct (loginStep map_to_list ev s g) as [st' g'] eqn:Es. cbn [snd] in H.
    destruct (Z.leb_spec (counted (holds cid) (<[i := g']> ts)) m); [|done].
    eapply IH; [|exact H].
    by apply (guesses_more cid m w0 n _ _ _ Hg); [apply (world_step cid s ts i g map_to_list ev)|].
Qed.
(** Three guesses are left ([challenge] has two failures on record); a second
    request that read the challenge before the third failure was recorded
    makes it four wrong answers. *)
Definition alone (i : nat) : list (nat * option totpRequest) :=
  (i, Some (rq "000000")) :: repeat (i, None) 5.
Definition overlapping : list (nat * option totpRequest) :=
  alone 0 ++ alone 1 ++ [(2%nat, Some (rq "000000")); (2%nat, None)] ++ alone 3 ++ repeat (2%nat, None) 4.
Lemma overlap : ∃ w', guesses "ch1" 2 (st, ∅) 4 w'.
Proof.
  destruct (play "ch1" 2 overlapping 0 (st, ∅)) as [[n w']|] eqn:E; [|by vm_compute in E].
  assert (n = 4%nat) as ->.
  { apply (f_equal (fmap fst)) in E. vm_compute in E. congruence. }
  exists w'. exact (play_guesses "ch1" 2 _ _ _ _ _ _ (guesses_start "ch1" 2 (st, ∅)) E).
Qed.
Definition written : User := with_SecurityEpoch 8 (with_PasswordHash "new" user).
Definition spent1 : AuthState := Eval vm_compute in (ConsumeRecoveryCode true "u1" "first-code-12" st).1.
Definition spent2 : AuthState := Eval vm_compute in (AdvanceTOTPStep true "u1" 9 spent1).1.
(** The wrong code of another step, then the right one. *)
Example wrong_then_right :
  let '(st1, r1) := handleLoginTOTP map_to_list ev (rq "000000") st in
  let '(st2, r2) := handleLoginTOTP map_to_list ev (rq "081804") st1 in
  r1 = SecondFactorRefused ∧ r2 = LoggedIn sess false false ∧ TOTPChallenges st2 = ∅.
Proof. vm_compute. split_and!; reflexivity. Qed.
End AuthDemo.

Lemma totp_code_single_use_witness :
  loginStep map_to_list AuthDemo.ev AuthDemo.stA (AtFactor (AuthDemo.rq "081804") AuthDemo.challenge false AuthDemo.user)
    = (AuthDemo.stA, AtFail (AuthDemo.rq "081804") AuthDemo.challenge) ∧
  (handleSecurityStepUp (AuthDemo.at_ 1111111120) true (Some "grant") (mkPrincipal "u1" "sess1" false)
     "081804" AuthDemo.stA ∅).2 = None.
Proof.
  destruct (totp_code_single_use map_to_list AuthDemo.ev (AuthDemo.rq "081804") AuthDemo.challenge false AuthDemo.user
    false AuthDemo.st AuthDemo.stA AuthDemo.keyed AuthDemo.code_given AuthDemo.factor_ok)
    as (step & old & Hv & _ & _ & H).
  assert (ValidateTOTPStep (TOTPSecret AuthDemo.user) "081804" (AuthDemo.at_ 1111111109) = Some 37037036) as Hv'
    by (vm_compute; reflexivity).
  change (rqCode (AuthDemo.rq "081804")) with "081804" in Hv.
  change (evClock AuthDemo.ev) with (AuthDemo.at_ 1111111109) in Hv. rewrite Hv' in Hv. injection Hv as <-.
  destruct (H AuthDemo.stA (rtc_refl _ _)) as [Hl Hs]. split.
  - exact (Hl map_to_list AuthDemo.ev (AuthDemo.rq "081804") AuthDemo.challenge false AuthDemo.user 37037036 eq_refl
      AuthDemo.code_given Hv' (Z.le_refl _)).
  - refine (Hs (AuthDemo.at_ 1111111120) true (Some "grant") (mkPrincipal "u1" "sess1" false)
      (with_LastTOTPStep 37037036 AuthDemo.user) "081804" 37037036 ∅ eq_refl _ _ (Z.le_refl _)); vm_compute; reflexivity.
Defined.

Lemma challenge_guesses_bounded_witness :
  ∃ w', guesses "ch1" 2 (AuthDemo.st, ∅) 4 w' ∧ Z.of_nat 4 <= budget "ch1" AuthDemo.st + 2 - 1.
Proof.
  destruct AuthDemo.overlap as [w' Hg]. exists w'. split; [exact Hg|].
  refine (challenge_guesses_bounded "ch1" 2 4 AuthDemo.st w' AuthDemo.ch_ok _ Hg). lia.
Defined.

Lemma sessions_bounded_witness :
  (size (Sessions (PutSession 5%Z map_to_list true AuthDemo.sess AuthDemo.st).1) <= maxSessions)%nat.
Proof.
  refine (proj1 (sessions_bounded 5%Z map_to_list true AuthDemo.sess AuthDemo.st _ _)).
  - reflexivity.
  - apply (bool_decide_unpack _). vm_compute. exact I.
Defined.

Lemma epoch_bump_revokes_witness :
  principalFromSession (AuthDemo.at_ 1111111110) "sess1" (BumpSecurityEpoch true "u1" AuthDemo.st1).1 = None.
Proof.
  refine (epoch_bump_revokes map_to_list AuthDemo.ev (AuthDemo.rq "081804") AuthDemo.st AuthDemo.st1
    AuthDemo.sess false false "u1" true AuthDemo.st1 _ AuthDemo.keyed AuthDemo.login_ok eq_refl _
    (rtc_refl _ _) _ (rtc_refl _ _) _ "sess1" _).
  - intros u [= <-]. vm_compute. discriminate.
  - assert (UserOf "u1" AuthDemo.st1 = Some (with_LastTOTPStep 37037036 AuthDemo.user)) as E
      by (vm_compute; reflexivity).
    intros u Hu. rewrite E in Hu. injection Hu as <-. vm_compute. reflexivity.
  - vm_compute. reflexivity.
Defined.

Lemma recovery_code_single_use_witness :
  ∃ u u1, Users AuthDemo.st !! "u1" = Some u ∧
    Users (ConsumeRecoveryCode true "u1" "first-code-12" AuthDemo.st).1 !! "u1" = Some u1 ∧
    RecoveryCodeHashes u ≡ₚ HashRecoveryCode (trim_space "first-code-12") :: RecoveryCodeHashes u1.
Proof.
  destruct (recovery_code_single_use true "u1" "first-code-12" AuthDemo.st
    (ConsumeRecoveryCode true "u1" "first-code-12" AuthDemo.st).1 None) as (u & u1 & H1 & H2 & H3 & _).
  - vm_compute. reflexivity.
  - exists u, u1. exact (conj H1 (conj H2 H3)).
Defined.

Lemma lost_update_restores_factors_witness :
  (ConsumeRecoveryCode true "u1" "first-code-12"
     (handlePasswordChange_write true AuthDemo.written AuthDemo.spent2).1).2 = (true, None).
Proof.
  pose proof (lost_update_restores_factors "old" "next" "new" "u1" "first-code-12" 9 AuthDemo.st
    AuthDemo.spent1 AuthDemo.spent2 AuthDemo.written AuthDemo.keyed
    ltac:(vm_compute; reflexivity) ltac:(vm_compute; reflexivity) ltac:(vm_compute; reflexivity)) as H.
  destruct (handlePasswordChange_write _ _ _) as [st3 r]. exact (proj1 (proj2 H)).
Defined.

Lemma disable_accepts_spent_code_witness :
  (handle2FADisable (AuthDemo.at_ 1111111109) true true "u1" "081804" AuthDemo.st1).2 = Disabled.
Proof.
  refine (disable_accepts_spent_code map_to_list AuthDemo.ev (AuthDemo.rq "081804") AuthDemo.st AuthDemo.st1
    AuthDemo.sess false false true AuthDemo.keyed AuthDemo.login_ok AuthDemo.code_given).
Defined.
