(* ===== verification/Groups.v ===== *)
(** * Fleet groups (internal/groups)

    Resolution of group membership and of target selectors.  The node, group
    and selector types are the SDK's: only the fields the package reads are
    kept. *)

From Stdlib Require Import ZArith Lia Ascii.
From S2P Require Import Prelude GoStr.

Record GeoPoint := mkGeo { Country : string }.
Record Node := mkNode {
  NodeID : string;
  Tags : list string;
  Role : string;
  Geo : option GeoPoint;
}.
Record GroupSelector := mkSelector {
  MatchTagsAny : list string;
  MatchRoles : list string;
  MatchCountry : list string;
  MatchContinent : list string;
}.
Record Group := mkGroup {
  GroupID : string;
  GroupName : string;
  Members : list string;
  Selector : option GroupSelector;
}.
Record TargetSelector := mkTarget {
  All : bool;
  TNodes : list string;
  TGroups : list string;
  Exclude : list string;
}.

(** ** Continents *)

Definition asia : list string :=
  ["AE"; "AF"; "AM"; "AZ"; "BD"; "BH"; "BN"; "BT"; "CN"; "CY"; "GE"; "HK"; "ID"; "IL"; "IN";
   "IQ"; "IR"; "JO"; "JP"; "KG"; "KH"; "KP"; "KR"; "KW"; "KZ"; "LA"; "LB"; "LK"; "MM";
   "MN"; "MO"; "MV"; "MY"; "NP"; "OM"; "PH"; "PK"; "PS"; "QA"; "SA"; "SG"; "SY"; "TH";
   "TJ"; "TL"; "TM"; "TR"; "TW"; "UZ"; "VN"; "YE"].
Definition europe : list string :=
  ["AD"; "AL"; "AT"; "BA"; "BE"; "BG"; "BY"; "CH"; "CZ"; "DE"; "DK"; "EE"; "ES"; "FI"; "FO";
   "FR"; "GB"; "GG"; "GI"; "GR"; "HR"; "HU"; "IE"; "IM"; "IS"; "IT"; "JE"; "LI"; "LT";
   "LU"; "LV"; "MC"; "MD"; "ME"; "MK"; "MT"; "NL"; "NO"; "PL"; "PT"; "RO"; "RS"; "RU";
   "SE"; "SI"; "SK"; "SM"; "UA"; "VA"; "XK"].
Definition north_america : list string :=
  ["AG"; "AI"; "AW"; "BB"; "BL"; "BM"; "BS"; "BZ"; "CA"; "CR"; "CU"; "CW"; "DM"; "DO"; "GD";
   "GL"; "GP"; "GT"; "HN"; "HT"; "JM"; "KN"; "KY"; "LC"; "MF"; "MQ"; "MS"; "MX"; "NI";
   "PA"; "PM"; "PR"; "SV"; "SX"; "TC"; "TT"; "US"; "VC"; "VG"; "VI"].
Definition south_america : list string :=
  ["AR"; "BO"; "BR"; "CL"; "CO"; "EC"; "FK"; "GF"; "GY"; "PE"; "PY"; "SR"; "UY"; "VE"].
Definition africa : list string :=
  ["AO"; "BF"; "BI"; "BJ"; "BW"; "CD"; "CF"; "CG"; "CI"; "CM"; "CV"; "DJ"; "DZ"; "EG"; "EH";
   "ER"; "ET"; "GA"; "GH"; "GM"; "GN"; "GQ"; "GW"; "KE"; "KM"; "LR"; "LS"; "LY"; "MA";
   "MG"; "ML"; "MR"; "MU"; "MW"; "MZ"; "NA"; "NE"; "NG"; "RE"; "RW"; "SC"; "SD"; "SL";
   "SN"; "SO"; "SS"; "ST"; "SZ"; "TD"; "TG"; "TN"; "TZ"; "UG"; "YT"; "ZA"; "ZM"; "ZW"].
Definition oceania : list string :=
  ["AS"; "AU"; "CK"; "FJ"; "FM"; "GU"; "KI"; "MH"; "MP"; "NC"; "NF"; "NR"; "NU"; "NZ"; "PF";
   "PG"; "PW"; "SB"; "TK"; "TO"; "TV"; "VU"; "WF"; "WS"].
Definition antarctica : list string :=
  ["AQ"].

Definition countryContinent (code : string) : option string :=
  if mem code asia then Some "AS"
  else if mem code europe then Some "EU"
  else if mem code north_america then Some "NA"
  else if mem code south_america then Some "SA"
  else if mem code africa then Some "AF"
  else if mem code oceania then Some "OC"
  else if mem code antarctica then Some "AN"
  else None.

Definition continentOf (code : string) : string :=
  if negb (String.length code =? 2)%nat then "??"
  else default "??" (countryContinent (to_upper code)).

(** No code is listed twice, so the order of the tests does not matter. *)
Example continents_disjoint :
  NoDup (asia ++ europe ++ north_america ++ south_america ++ africa ++ oceania ++ antarctica).
Proof. apply (bool_decide_unpack _). vm_compute. exact I. Qed.

(** ** Matching *)

Definition nodeCountry (n : Node) : string :=
  match Geo n with None => "" | Some g => Country g end.

Definition anyTagMatches (nodeTags wanted : list string) : bool :=
  existsb (fun w => existsb (fun t => t =?? w) nodeTags) wanted.
Definition containsExact (set : list string) (want : string) : bool :=
  existsb (fun s => s =?? want) set.
Definition containsFold (set : list string) (want : string) : bool :=
  if want =?? "" then false else existsb (fun s => equal_fold s want) set.

(** One criterion: unpopulated, or tested. *)
Definition criterion (values : list string) (test : bool) (k : bool → bool) (populated : bool) : bool :=
  match values with
  | [] => k populated
  | _ => if negb test then false else k true
  end.

Definition selectorMatches (sel : option GroupSelector) (n : Node) : bool :=
  match sel with
  | None => false
  | Some sel =>
    criterion (MatchTagsAny sel) (anyTagMatches (Tags n) (MatchTagsAny sel))
   (criterion (MatchRoles sel) (containsExact (MatchRoles sel) (trim_space (Role n)))
   (criterion (MatchCountry sel) (containsFold (MatchCountry sel) (nodeCountry n))
   (criterion (MatchContinent sel) (containsFold (MatchContinent sel) (continentOf (nodeCountry n)))
     (fun populated => populated)))) false
  end.

Definition is_some {A} (o : option A) : bool :=
  match o with Some _ => true | None => false end.

(** ** Members *)

Definition memberSet (g : Group) (allNodes : list Node) : gset string :=
  list_to_set (List.filter (fun id => negb (id =?? "")) (Members g))
  ∪ (if is_some (Selector g)
     then list_to_set (NodeID <$> List.filter (selectorMatches (Selector g)) allNodes)
     else ∅).
Definition ResolveMembers (g : Group) (allNodes : list Node) : list string :=
  sorted_set (memberSet g allNodes).

Definition Contains (g : Group) (n : Node) : bool :=
  if NodeID n =?? "" then false
  else if existsb (fun id => id =?? NodeID n) (Members g) then true
  else is_some (Selector g) && selectorMatches (Selector g) n.

Definition ResolveAll (gs : list Group) (nodes : list Node) : gmap string (list string) :=
  foldl (fun out g => <[GroupID g := ResolveMembers g nodes]> out) ∅ gs.

Definition GroupIDsForNode (nodeID : string) (resolved : gmap string (list string)) : list string :=
  sort_strings (omap (fun '(gid, members) =>
    if existsb (fun m => m =?? nodeID) members then Some gid else None) (map_to_list resolved)).

(** ** Targets *)

Definition fleetOf (nodes : list Node) : gset string := list_to_set (NodeID <$> nodes).
Definition addTarget (fleet : gset string) (set : gset string) (id : string) : gset string :=
  let id := trim_space id in
  if decide (id ∈ fleet) then {[id]} ∪ set else set.
Definition groupsByID (gs : list Group) : gmap string Group :=
  foldl (fun byID g => <[GroupID g := g]> byID) ∅ gs.

Definition ResolveTargets (sel : TargetSelector) (nodes : list Node) (gs : list Group) : list string :=
  let fleet := fleetOf nodes in
  let set : gset string := if All sel then fleet else ∅ in
  let set := foldl (addTarget fleet) set (TNodes sel) in
  let set := foldl (fun set gid =>
    match groupsByID gs !! trim_space gid with
    | None => set
    | Some g => foldl (addTarget fleet) set (ResolveMembers g nodes)
    end) set (TGroups sel) in
  let set := foldl (fun set id => set ∖ {[trim_space id]}) set (Exclude sel) in
  sorted_set set.

(** ** Lemmas *)

Definition nonempty (l : list string) : bool := match l with [] => false | _ => true end.

Lemma criterion_true values test k p :
  criterion values test k p = true ↔
  (values = [] ∨ test = true) ∧ k (p || nonempty values) = true.
Proof.
  destruct values, test; cbn; rewrite ?orb_true_r, ?orb_false_r; naive_solver.
Qed.
Lemma nonempty_true l : nonempty l = true ↔ l ≠ [].
Proof. by destruct l. Qed.

(** What a selector means: some criterion is populated, and each populated one
    is satisfied by the node. *)
Record SelectorSpec (sel : GroupSelector) (n : Node) : Prop := {
  spec_populated : MatchTagsAny sel ≠ [] ∨ MatchRoles sel ≠ [] ∨ MatchCountry sel ≠ [] ∨
    MatchContinent sel ≠ [];
  spec_tags : MatchTagsAny sel = [] ∨ ∃ t, t ∈ Tags n ∧ t ∈ MatchTagsAny sel;
  spec_roles : MatchRoles sel = [] ∨ trim_space (Role n) ∈ MatchRoles sel;
  spec_country : MatchCountry sel = [] ∨
    ∃ c, c ∈ MatchCountry sel ∧ nodeCountry n ≠ "" ∧ equal_fold c (nodeCountry n) = true;
  spec_continent : MatchContinent sel = [] ∨
    ∃ c, c ∈ MatchContinent sel ∧ equal_fold c (continentOf (nodeCountry n)) = true;
}.

Lemma anyTagMatches_spec ts ws : anyTagMatches ts ws = true ↔ ∃ t, t ∈ ts ∧ t ∈ ws.
Proof.
  unfold anyTagMatches. rewrite existsb_elem_of. setoid_rewrite existsb_eq_elem. naive_solver.
Qed.
Lemma containsExact_spec l x : containsExact l x = true ↔ x ∈ l.
Proof. apply existsb_eq_elem. Qed.
Lemma containsFold_spec l x :
  containsFold l x = true ↔ ∃ c, c ∈ l ∧ x ≠ "" ∧ equal_fold c x = true.
Proof.
  unfold containsFold. case_bool_decide; [naive_solver|].
  rewrite existsb_elem_of. naive_solver.
Qed.
Lemma continentOf_nonempty c : continentOf c ≠ "".
Proof.
  unfold continentOf, countryContinent. destruct (negb _); [done|].
  repeat case_match; by simplify_eq/=.
Qed.

Lemma selectorMatches_spec sel n : selectorMatches (Some sel) n = true ↔ SelectorSpec sel n.
Proof.
  cbn [selectorMatches]. rewrite !criterion_true.
  rewrite anyTagMatches_spec, containsExact_spec, !containsFold_spec.
  rewrite !orb_true_iff, !nonempty_true.
  pose proof (continentOf_nonempty (nodeCountry n)) as Hc. split.
  - intros (H1 & H2 & H3 & H4 & H5). split; [|done..|].
    + destruct H5 as [[[[?|?]|?]|?]|?]; auto.
    + destruct H4 as [?|(c & ? & _ & ?)]; eauto.
  - intros [H1 H2 H3 H4 H5]. split_and!; [done..| |].
    + destruct H5 as [?|(c & ? & ?)]; eauto 6.
    + destruct H1 as [?|[?|[?|?]]]; auto.
Qed.

Lemma elem_of_filter_ids (p : Node → bool) (nodes : list Node) x :
  x ∈ NodeID <$> List.filter p nodes ↔ ∃ n, n ∈ nodes ∧ p n = true ∧ NodeID n = x.
Proof.
  rewrite list_elem_of_fmap. setoid_rewrite list_elem_of_In. setoid_rewrite List.filter_In.
  naive_solver.
Qed.

Lemma elem_of_ResolveMembers g nodes x :
  x ∈ ResolveMembers g nodes ↔
  (x ∈ Members g ∧ x ≠ "") ∨
  (∃ n, n ∈ nodes ∧ selectorMatches (Selector g) n = true ∧ NodeID n = x).
Proof.
  unfold ResolveMembers, memberSet. rewrite elem_of_sorted_set, elem_of_union.
  apply Morphisms_Prop.or_iff_morphism.
  - rewrite elem_of_list_to_set, list_elem_of_In, List.filter_In, <- list_elem_of_In.
    rewrite negb_true_iff, bool_decide_eq_false. done.
  - destruct (Selector g) as [sel|]; cbn [is_some].
    + by rewrite elem_of_list_to_set, elem_of_filter_ids.
    + split; [set_solver|]. intros (n & _ & H & _). done.
Qed.

(** Membership: a group resolves to its non-empty explicit members and the
    nodes that satisfy every populated criterion of its selector, in strictly
    increasing order; a selector with no populated criterion adds nothing. *)
Theorem ResolveMembers_spec g nodes :
  (∀ x, x ∈ ResolveMembers g nodes ↔
    (x ∈ Members g ∧ x ≠ "") ∨
    (∃ sel n, Selector g = Some sel ∧ n ∈ nodes ∧ SelectorSpec sel n ∧ NodeID n = x)) ∧
  NoDup (ResolveMembers g nodes) ∧ StronglySorted String.le (ResolveMembers g nodes).
Proof.
  split; [|split; [apply sorted_set_NoDup|apply sorted_set_sorted]].
  intros x. rewrite elem_of_ResolveMembers. destruct (Selector g) as [sel|].
  - setoid_rewrite selectorMatches_spec. naive_solver.
  - naive_solver.
Qed.

Lemma Contains_true g n :
  Contains g n = true ↔
  NodeID n ≠ "" ∧ (NodeID n ∈ Members g ∨ selectorMatches (Selector g) n = true).
Proof.
  unfold Contains. case_bool_decide; [naive_solver|].
  destruct (existsb _ (Members g)) eqn:E.
  - apply existsb_eq_elem in E. naive_solver.
  - apply not_true_iff_false in E. rewrite existsb_eq_elem in E.
    rewrite andb_true_iff. destruct (Selector g); cbn; naive_solver.
Qed.

(** [Contains] answers the same question as [ResolveMembers] for one node
    of the fleet, provided the node has an id no other node of the fleet
    shares. *)
Theorem Contains_agrees g n nodes :
  NodeID n ≠ "" → n ∈ nodes → (∀ m, m ∈ nodes → NodeID m = NodeID n → m = n) →
  Contains g n = true ↔ NodeID n ∈ ResolveMembers g nodes.
Proof.
  intros Hne Hin Hu. rewrite Contains_true, elem_of_ResolveMembers. naive_solver.
Qed.

Definition exNode : Node := mkNode "n1" ["edge"] "relay" (Some (mkGeo "de")).
Definition exGroup : Group :=
  mkGroup "g1" "europe" ["n9"; ""; "n9"] (Some (mkSelector [] [] [] ["eu"])).
Example ResolveMembers_ex : ResolveMembers exGroup [exNode] = ["n1"; "n9"].
Proof. vm_compute. reflexivity. Qed.

Lemma Contains_agrees_witness :
  Contains exGroup exNode = true ↔ NodeID exNode ∈ ResolveMembers exGroup [exNode].
Proof.
  apply (Contains_agrees exGroup exNode [exNode]); [done|left|].
  intros m Hm _. by apply list_elem_of_singleton in Hm.
Defined.

(** ** Targets *)

Lemma elem_of_addTargets fleet set ids x :
  x ∈ foldl (addTarget fleet) set ids ↔
  x ∈ set ∨ (x ∈ fleet ∧ ∃ id, id ∈ ids ∧ trim_space id = x).
Proof.
  revert set. induction ids as [|id ids IH]; intros set; cbn; [set_solver|].
  rewrite IH. unfold addTarget. case_decide; set_solver.
Qed.

Lemma elem_of_addGroups (f : string → option (list string)) fleet set gids x :
  x ∈ foldl (fun set gid => match f gid with
                            | None => set
                            | Some ids => foldl (addTarget fleet) set ids
                            end) set gids ↔
  x ∈ set ∨ (x ∈ fleet ∧ ∃ gid ids id, gid ∈ gids ∧ f gid = Some ids ∧ id ∈ ids ∧ trim_space id = x).
Proof.
  revert set. induction gids as [|gid gids IH]; intros set; cbn; [set_solver|].
  rewrite IH. destruct (f gid) as [ids|] eqn:E.
  - rewrite elem_of_addTargets. setoid_rewrite elem_of_cons. split.
    + intros [[?|(?&id&?&?)]|(?&gid'&ids'&id&?&?&?&?)]; eauto 12.
    + intros [?|(?&gid'&ids'&id&[->|?]&?&?&?)]; simplify_eq; eauto 12.
  - setoid_rewrite elem_of_cons. naive_solver.
Qed.

Lemma elem_of_excludes (set : gset string) ids x :
  x ∈ foldl (fun set id => set ∖ {[trim_space id]}) set ids ↔
  x ∈ set ∧ ∀ id, id ∈ ids → trim_space id ≠ x.
Proof.
  revert set. induction ids as [|id ids IH]; intros set; cbn; [set_solver|].
  rewrite IH. set_solver.
Qed.

Lemma groupsByID_snoc gs g : groupsByID (gs ++ [g]) = <[GroupID g := g]> (groupsByID gs).
Proof. unfold groupsByID. by rewrite foldl_app. Qed.

(** A lookup finds the last group with the id. *)
Lemma groupsByID_Some gs gid g :
  groupsByID gs !! gid = Some g → g ∈ gs ∧ GroupID g = gid.
Proof.
  induction gs as [|h gs IH] using rev_ind; [done|]. rewrite groupsByID_snoc.
  destruct (decide (GroupID h = gid)) as [<-|Hne].
  - rewrite lookup_insert_eq. intros [= ->]. set_solver.
  - rewrite lookup_insert_ne by done. set_solver.
Qed.

(** Target resolution: the result is exactly the fleet's nodes that are
    named, belong to a named known group or are covered by [All], minus the
    excluded ones; exclusion wins over every inclusion, unknown ids and groups
    add nothing, and the result is strictly increasing. *)
Theorem ResolveTargets_spec sel nodes gs :
  (∀ x, x ∈ ResolveTargets sel nodes gs ↔
    x ∈ NodeID <$> nodes ∧
    (All sel = true ∨
     (∃ id, id ∈ TNodes sel ∧ trim_space id = x) ∨
     (∃ gid g id, gid ∈ TGroups sel ∧ groupsByID gs !! trim_space gid = Some g ∧
        id ∈ ResolveMembers g nodes ∧ trim_space id = x)) ∧
    (∀ id, id ∈ Exclude sel → trim_space id ≠ x)) ∧
  NoDup (ResolveTargets sel nodes gs) ∧ StronglySorted String.le (ResolveTargets sel nodes gs).
Proof.
  split; [|split; [apply sorted_set_NoDup|apply sorted_set_sorted]].
  intros x. unfold ResolveTargets. rewrite elem_of_sorted_set, elem_of_excludes.
  assert (∀ set, foldl (fun set gid => match groupsByID gs !! trim_space gid with
      | None => set | Some g => foldl (addTarget (fleetOf nodes)) set (ResolveMembers g nodes) end)
      set (TGroups sel) =
    foldl (fun set gid => match (fun g => ResolveMembers g nodes) <$> groupsByID gs !! trim_space gid with
      | None => set | Some ids => foldl (addTarget (fleetOf nodes)) set ids end)
      set (TGroups sel)) as Hg.
  { induction (TGroups sel) as [|gid l IH]; intros set; cbn; [done|].
    rewrite IH. by destruct (groupsByID gs !! _). }
  rewrite Hg, (elem_of_addGroups (fun gid => (fun g => ResolveMembers g nodes) <$> _)).
  rewrite elem_of_addTargets. unfold fleetOf. setoid_rewrite fmap_Some.
  rewrite elem_of_list_to_set. destruct (All sel).
  - rewrite elem_of_list_to_set. naive_solver.
  - rewrite elem_of_empty. naive_solver.
Qed.

(** ** The reverse lookup *)

Lemma ResolveAll_snoc gs g nodes :
  ResolveAll (gs ++ [g]) nodes = <[GroupID g := ResolveMembers g nodes]> (ResolveAll gs nodes).
Proof. unfold ResolveAll. by rewrite foldl_app. Qed.

Lemma ResolveAll_lookup gs nodes gid :
  ResolveAll gs nodes !! gid = (fun g => ResolveMembers g nodes) <$> groupsByID gs !! gid.
Proof.
  induction gs as [|h gs IH] using rev_ind; [done|].
  rewrite ResolveAll_snoc, groupsByID_snoc.
  destruct (decide (GroupID h = gid)) as [<-|Hne].
  - by rewrite !lookup_insert_eq.
  - by rewrite !lookup_insert_ne.
Qed.

(** The group ids written on a node are those of the groups that contain
    it: the reverse lookup over the resolution of every group inverts it. *)
Theorem GroupIDsForNode_spec gs nodes nodeID gid :
  gid ∈ GroupIDsForNode nodeID (ResolveAll gs nodes) ↔
  ∃ g, groupsByID gs !! gid = Some g ∧ nodeID ∈ ResolveMembers g nodes.
Proof.
  unfold GroupIDsForNode. rewrite elem_of_sort_strings, list_elem_of_omap. split.
  - intros ([gid' ms] & Hin & Hm). apply elem_of_map_to_list in Hin.
    destruct (existsb _ ms) eqn:E; [|done]. simplify_eq. apply existsb_eq_elem in E.
    rewrite ResolveAll_lookup in Hin. apply fmap_Some in Hin as (g & Hg & ->). eauto.
  - intros (g & Hg & Hm). exists (gid, ResolveMembers g nodes). split.
    + apply elem_of_map_to_list. by rewrite ResolveAll_lookup, Hg.
    + apply existsb_eq_elem in Hm. by rewrite Hm.
Qed.
