(* ===== verification/NetPolicy.v ===== *)
(** * Network policies ([internal/netpolicy])

    [NormalizePolicy] and its helpers and [BuildGraph] ([netpolicy.go]), and
    the expansion of group policies into per-node policies ([expand.go]).  The
    compiler to nftables text is not here.

    The string constants of the SDK's model package and the letter and digit
    tables of [unicode] beyond ASCII are parameters; [sort.Slice], which makes
    no promise about equal elements, is a parameter with the law that its
    result is a permutation. *)

From Stdlib Require Import ZArith Lia Ascii.
From stdpp Require Import gmap strings sorting.
From S2P Require Import Prelude GoStr Utf8 IpAddr Groups.

Local Open Scope Z_scope.

Class NetSdk := {
  NetRuleAllow : string; NetRuleDeny : string;
  NetDirEgress : string; NetDirIngress : string;
  NetProtoTCP : string; NetProtoUDP : string; NetProtoAny : string;
  NetRefNode : string; NetRefCIDR : string; NetRefDomain : string; NetRefAny : string; NetRefGroup : string;
  (** [unicode.IsLetter] or [unicode.IsDigit] for a rune above 127. *)
  wideLetterOrDigit : Z → bool;
  (** [sort.Slice] by a strict order. *)
  sortSlice : ∀ {A}, (A → A → bool) → list A → list A;
}.
Class NetSdkLaws `{NetSdk} := {
  sortSlice_perm : ∀ A (lt : A → A → bool) l, sortSlice lt l ≡ₚ l;
}.

Record NetEndpoint := mkEndpoint { Kind : string; NodeID : string; CIDR : string; Domain : string; GroupID : string }.
Record NetRule := mkRule {
  rlID : string; rlComment : string; rlAction : string; rlDirection : string; rlProtocol : string;
  rlPorts : list Z; rlRemote : NetEndpoint; rlDisabled : bool }.
Record NetPolicy := mkPolicy {
  npID : string; TargetNodeID : string; npEnabled : bool; GroupDerived : bool; npRules : list NetRule }.

Inductive polError :=
| ErrTargetRequired | ErrTargetNotFound | ErrDuplicateRule (id : string) | ErrAction (id : string)
| ErrDirection (id : string) | ErrProtocol (id : string) | ErrPorts (id : string) | ErrAnyPorts (id : string)
| ErrNodeRequired (id : string) | ErrNodeNotFound (id : string) | ErrCIDR (id : string) | ErrDomain (id : string)
| ErrKind (id : string) | ErrDomainIngress (id : string).

Section netpolicy.
Context `{sdk : NetSdk} {Node : Type}.
Implicit Types (resolve : string → option Node).

(** ** Text *)

Definition token_byte (c : ascii) : bool :=
  is_lower c || is_upper c || is_digit c || (c =?? "_"%char) || (c =?? "-"%char) || (c =?? "."%char).
Definition token_rune (r : Z) : bool :=
  if r <? 128 then token_byte (ascii_of_N (Z.to_N r)) else wideLetterOrDigit r.

(** The builder loop: a rune is written when it passes, and the loop stops
    once [max] bytes are there. *)
Fixpoint write_runes (pass : Z → bool) (max : nat) (out : list ascii) (l : list (Z * list ascii)) : list ascii :=
  match l with
  | [] => out
  | (r, b) :: l =>
    let out := if pass r then out ++ b else out in
    if (max <=? length out)%nat then out else write_runes pass max out l
  end.
Definition sanitizeToken (value : string) (max : nat) : string :=
  let out := write_runes token_rune max [] (runes (trim_space value)) in
  match out with [] => "rule" | _ => of_bytes out end.

Definition is_control (r : Z) : bool := (r <=? 31) || ((127 <=? r) && (r <=? 159)).
(** A control rune is skipped without looking at the length. *)
Fixpoint write_comment (max : nat) (out : list ascii) (l : list (Z * list ascii)) : list ascii :=
  match l with
  | [] => out
  | (r, b) :: l =>
    if is_control r then write_comment max out l else
    let out := out ++ b in
    if (max <=? length out)%nat then out else write_comment max out l
  end.
Definition sanitizeComment (value : string) (max : nat) : string :=
  of_bytes (write_comment max [] (runes (trim_space value))).

Definition oneOf (value : string) (allowed : list string) : bool := mem value allowed.

(** ** Ports, domains, prefixes *)

Fixpoint ports_go (seen out values : list Z) : option (list Z) :=
  match values with
  | [] => Some out
  | p :: values =>
    if (p <? 1) || (65535 <? p) then None
    else if mem p seen then ports_go seen out values
    else ports_go (p :: seen) (out ++ [p]) values
  end.
Definition normalizePorts (values : list Z) : option (list Z) := sort_ints <$> ports_go [] [] values.

(** [strings.ToLower]: of the runes outside ASCII only the Kelvin sign
    (E2 84 AA) and dotted capital I (C4 B0) become ASCII; any other keeps the
    domain invalid. *)
Fixpoint lower_runes (l : list ascii) : list ascii :=
  match l with
  | a :: ((b :: ((c :: l'') as t2)) as t1) =>
    if (code a =? 226) && (code b =? 132) && (code c =? 170) then "k"%char :: lower_runes l''
    else if (code a =? 196) && (code b =? 176) then "i"%char :: lower_runes t2
    else lower_byte a :: lower_runes t1
  | [a; b] => if (code a =? 196) && (code b =? 176) then ["i"%char] else [lower_byte a; lower_byte b]
  | [a] => [lower_byte a]
  | [] => []
  end.
Definition label_byte (c : ascii) : bool := is_lower c || is_digit c || (c =?? "-"%char).
Definition label_ok (label : string) : bool :=
  negb (label =?? "") && (String.length label <=? 63)%nat &&
  negb (has_prefix label "-") && negb (has_suffix label "-") && forallb label_byte (bytes_of label).
Definition normalizeDomainName (value : string) : option string :=
  let domain := of_bytes (lower_runes (bytes_of (trim_suffix (trim_space value) "."))) in
  if domain =?? "" then None
  else if (253 <? String.length domain)%nat then None
  else if negb (existsb (fun c => c =?? "."%char) (bytes_of domain)) then None
  else match ParseIP domain with
  | Some _ => None
  | None => if forallb label_ok (split domain ".") then Some domain else None
  end.

Definition normalizeIPCIDR (value : string) : option string :=
  let value := trim_space value in
  if value =?? "" then None else
  match ParseIP value with
  | Some ip => Some (IPString ip)
  | None =>
    '(ip, ipNet) ← ParseCIDR value;
    match To4 ip, To4 (netIP ipNet) with
    | Some _, Some _ => Some (NetString ipNet)
    | None, _ => Some (NetString ipNet)
    | _, _ => None
    end
  end.

(** ** Rules and policies *)

Definition normalizeEndpoint (id : string) (e : NetEndpoint) resolve : res polError NetEndpoint :=
  let kind := trim_space (Kind e) in
  if kind =?? NetRefNode then
    let node := trim_space (NodeID e) in
    fail_if (node =?? "") with ErrNodeRequired id;
    match resolve node with
    | None => Err (ErrNodeNotFound id)
    | Some _ => Ok (mkEndpoint kind node "" "" (GroupID e))
    end
  else if kind =?? NetRefCIDR then
    match normalizeIPCIDR (CIDR e) with
    | None => Err (ErrCIDR id)
    | Some cidr => Ok (mkEndpoint kind "" cidr "" (GroupID e))
    end
  else if kind =?? NetRefDomain then
    match normalizeDomainName (Domain e) with
    | None => Err (ErrDomain id)
    | Some domain => Ok (mkEndpoint kind "" "" domain (GroupID e))
    end
  else if kind =?? NetRefAny then Ok (mkEndpoint kind "" "" "" (GroupID e))
  else Err (ErrKind id).

(** [fmt.Sprintf("rule_%03d", n)] *)
Definition pad3 (s : string) : string :=
  match String.length s with 1%nat => "00" +:+ s | 2%nat => "0" +:+ s | _ => s end.
Definition ruleID (index : nat) (id : string) : string :=
  if trim_space id =?? "" then "rule_" +:+ pad3 (dec_of_Z (Z.of_nat index + 1)) else sanitizeToken id 64.

Definition normalizeRule (index : nat) (rule : NetRule) resolve : res polError NetRule :=
  let id := ruleID index (rlID rule) in
  let comment := sanitizeComment (rlComment rule) 160 in
  fail_if (negb (oneOf (rlAction rule) [NetRuleAllow; NetRuleDeny])) with ErrAction id;
  fail_if (negb (oneOf (rlDirection rule) [NetDirEgress; NetDirIngress])) with ErrDirection id;
  fail_if (negb (oneOf (rlProtocol rule) [NetProtoTCP; NetProtoUDP; NetProtoAny])) with ErrProtocol id;
  match normalizePorts (rlPorts rule) with
  | None => Err (ErrPorts id)
  | Some ports =>
    fail_if ((rlProtocol rule =?? NetProtoAny) && negb (length ports =? 0)%nat) with ErrAnyPorts id;
    match normalizeEndpoint id (rlRemote rule) resolve with
    | Err e => Err e
    | Ok remote =>
      fail_if ((Kind remote =?? NetRefDomain) && negb (rlDirection rule =?? NetDirEgress)) with ErrDomainIngress id;
      Ok (mkRule id comment (rlAction rule) (rlDirection rule) (rlProtocol rule) ports remote (rlDisabled rule))
    end
  end.

Fixpoint normalizeRules (index : nat) (seen : list string) (rules : list NetRule) resolve
  : res polError (list NetRule) :=
  match rules with
  | [] => Ok []
  | rule :: rules =>
    match normalizeRule index rule resolve with
    | Err e => Err e
    | Ok r =>
      fail_if (mem (rlID r) seen) with ErrDuplicateRule (rlID r);
      match normalizeRules (S index) (rlID r :: seen) rules resolve with
      | Err e => Err e
      | Ok rs => Ok (r :: rs)
      end
    end
  end.

Definition NormalizePolicy (p : NetPolicy) resolve : res polError NetPolicy :=
  let target := trim_space (TargetNodeID p) in
  fail_if (target =?? "") with ErrTargetRequired;
  match resolve target with
  | None => Err ErrTargetNotFound
  | Some _ =>
    match normalizeRules 0 [] (npRules p) resolve with
    | Err e => Err e
    | Ok rules => Ok (mkPolicy target target (npEnabled p) (GroupDerived p) rules)
    end
  end.
End netpolicy.

(** ** Group policies *)

Section expand.
Context `{sdk : NetSdk}.

Record GroupNetRule := mkGroupRule {
  grlID : string; grlComment : string; grlAction : string; grlDirection : string; grlProtocol : string;
  grlPorts : list Z; grlRemote : NetEndpoint; grlDisabled : bool }.
(** [gpTargetScope] is the value of the SDK's [TargetScope()]. *)
Record GroupNetPolicy := mkGroupPolicy {
  gpID : string; gpEnabled : bool; Priority : Z; gpTargetScope : TargetSelector; gpRules : list GroupNetRule }.

Definition PolicyTargets (policies : list GroupNetPolicy) (nodes : list Groups.Node) (groupList : list Group)
  : gmap string (list string) :=
  fold_left (fun out gp => <[gpID gp := ResolveTargets (gpTargetScope gp) nodes groupList]> out) policies ∅.

Definition expandRule (target : string) (resolved : gmap string (list string)) (r : GroupNetRule) : list NetRule :=
  if grlDisabled r then [] else
  if Kind (grlRemote r) =?? NetRefGroup then
    (fun member => mkRule (grlID r +:+ ":" +:+ member) (grlComment r) (grlAction r) (grlDirection r)
       (grlProtocol r) (grlPorts r) (mkEndpoint NetRefNode member "" "" "") false)
    <$> List.filter (fun member => negb (member =?? target)) (default [] (resolved !! GroupID (grlRemote r)))
  else [mkRule (grlID r) (grlComment r) (grlAction r) (grlDirection r) (grlProtocol r) (grlPorts r)
          (grlRemote r) false].
Definition expandRulesForTarget (rules : list GroupNetRule) (target : string)
    (resolved : gmap string (list string)) : list NetRule :=
  flat_map (expandRule target resolved) rules.

(** The search for a free id: [n] counts up until a candidate is free.  The
    fuel is one more than the number of ids in use; see [freeID_total]. *)
Definition numbered (policyID rID : string) (n : Z) : string := policyID +:+ ":" +:+ rID +:+ ":" +:+ dec_of_Z n.
Fixpoint freeID (fuel : nat) (policyID rID candidate : string) (n : Z) (used : gset string) : option string :=
  if bool_decide (candidate ∈ used) then
    match fuel with
    | O => None
    | S fuel => freeID fuel policyID rID (numbered policyID rID n) (n + 1) used
    end
  else Some candidate.
Definition uniqueRuleID (rID policyID : string) (used : gset string) : string * gset string :=
  let candidate :=
    if bool_decide (rID ∈ used)
    then default rID (freeID (S (size used)) policyID rID (policyID +:+ ":" +:+ rID) 2 used)
    else rID in
  (candidate, {[candidate]} ∪ used).

Definition with_rlID (id : string) (r : NetRule) : NetRule :=
  mkRule id (rlComment r) (rlAction r) (rlDirection r) (rlProtocol r) (rlPorts r) (rlRemote r) (rlDisabled r).
Fixpoint renameRules (policyID : string) (rules : list NetRule) (used : gset string)
  : list NetRule * gset string :=
  match rules with
  | [] => ([], used)
  | r :: rules =>
    let '(id, used) := uniqueRuleID (rlID r) policyID used in
    let '(rs, used) := renameRules policyID rules used in
    (with_rlID id r :: rs, used)
  end.

Definition policy_before (a b : GroupNetPolicy) : bool :=
  if Priority a =? Priority b then String.ltb (gpID a) (gpID b) else Priority a <? Priority b.

(** One policy on one of its targets. *)
Definition expandOnto (gp : GroupNetPolicy) (resolved : gmap string (list string)) (target : string)
    (acc : gmap string NetPolicy * gmap string (gset string)) : gmap string NetPolicy * gmap string (gset string) :=
  let '(out, usedIDs) := acc in
  match expandRulesForTarget (gpRules gp) target resolved with
  | [] => acc
  | rules =>
    let np := default (mkPolicy target target true true []) (out !! target) in
    let '(rules, used) := renameRules (gpID gp) rules (default ∅ (usedIDs !! target)) in
    (<[target := mkPolicy (npID np) (TargetNodeID np) (npEnabled np) (GroupDerived np) (npRules np ++ rules)]> out,
     <[target := used]> usedIDs)
  end.
Definition expandPolicy (targets resolved : gmap string (list string))
    (acc : gmap string NetPolicy * gmap string (gset string)) (gp : GroupNetPolicy)
  : gmap string NetPolicy * gmap string (gset string) :=
  if gpEnabled gp then
    fold_left (fun acc target => expandOnto gp resolved target acc) (default [] (targets !! gpID gp)) acc
  else acc.
Definition ExpandGroupPolicies (policies : list GroupNetPolicy) (targets resolved : gmap string (list string))
  : gmap string NetPolicy :=
  (fold_left (expandPolicy targets resolved) (sortSlice policy_before policies) (∅, ∅)).1.

(** ** Fresh rule ids *)

Lemma dec_of_Z_inj n m : 0 <= n → 0 <= m → dec_of_Z n = dec_of_Z m → n = m.
Proof.
  intros Hn Hm E.
  assert (∀ z, 0 <= z → dec_of_Z z = dec_of_N (Z.to_N z)) as H by (by intros []).
  rewrite !H in E by done. apply (f_equal (dec_value_go 0)) in E. rewrite !dec_value_of_N in E. lia.
Qed.
Lemma str_app_inj_l (s t u : string) : s +:+ t = s +:+ u → t = u.
Proof. induction s as [|c s IH]; cbn; [done|]. intros [= H]. by apply IH. Qed.
Lemma numbered_inj p r n m : 0 <= n → 0 <= m → numbered p r n = numbered p r m → n = m.
Proof.
  unfold numbered. intros Hn Hm H%str_app_inj_l. apply (str_app_inj_l ":" _ _) in H.
  apply str_app_inj_l, (str_app_inj_l ":") in H. by apply dec_of_Z_inj.
Qed.

Lemma freeID_Some fuel p r c n used x : freeID fuel p r c n used = Some x → x ∉ used.
Proof.
  revert c n. induction fuel as [|fuel IH]; intros c n; cbn [freeID]; case_bool_decide; try done.
  - by intros [= <-].
  - apply IH.
  - by intros [= <-].
Qed.
Lemma freeID_None fuel p r c n used :
  freeID fuel p r c n used = None → ∀ k : nat, (k < fuel)%nat → numbered p r (n + Z.of_nat k) ∈ used.
Proof.
  revert c n. induction fuel as [|fuel IH]; intros c n; cbn [freeID]; [lia|].
  case_bool_decide; [|done]. intros Hf [|k] Hk.
  - rewrite Z.add_0_r. destruct fuel; cbn [freeID] in Hf; case_bool_decide; done.
  - specialize (IH _ _ Hf k ltac:(lia)). by replace (n + Z.of_nat (S k)) with (n + 1 + Z.of_nat k) by lia.
Qed.
(** With one more try than ids in use, a free one is found. *)
Lemma freeID_total p r c n (used : gset string) :
  0 <= n → is_Some (freeID (S (size used)) p r c n used).
Proof.
  intros Hn. destruct (freeID (S (size used)) p r c n used) as [x|] eqn:E; [by eexists|exfalso].
  set (l := (fun k => numbered p r (n + Z.of_nat k)) <$> seq 0 (S (size used))).
  assert (NoDup l) as Hnd.
  { apply NoDup_fmap_2_strong; [|apply NoDup_seq]. intros x y _ _ Hxy%numbered_inj; lia. }
  assert ((list_to_set l : gset string) ⊆ used) as Hsub.
  { intros x Hx%elem_of_list_to_set. unfold l in Hx. apply list_elem_of_fmap in Hx as (k & -> & Hk%elem_of_seq).
    eapply freeID_None; [exact E|lia]. }
  apply subseteq_size in Hsub. rewrite size_list_to_set in Hsub by done.
  unfold l in Hsub. rewrite length_fmap, length_seq in Hsub. lia.
Qed.

Lemma uniqueRuleID_spec rID pID used :
  let '(id, used') := uniqueRuleID rID pID used in
  id ∉ used ∧ used' = {[id]} ∪ used ∧ (rID ∉ used → id = rID).
Proof.
  unfold uniqueRuleID. case_bool_decide as Hr; [|done].
  destruct (freeID_total pID rID (pID +:+ ":" +:+ rID) 2 used ltac:(lia)) as [x Hx]. rewrite Hx. cbn.
  apply freeID_Some in Hx. done.
Qed.

Definition strip (r : NetRule) : NetRule := with_rlID "" r.
Lemma with_rlID_id r : with_rlID (rlID r) r = r.
Proof. by destruct r. Qed.

Lemma renameRules_spec pID rules used rs used' :
  renameRules pID rules used = (rs, used') →
  NoDup (rlID <$> rs) ∧ (∀ x, x ∈ rlID <$> rs → x ∉ used) ∧
  used' = list_to_set (rlID <$> rs) ∪ used ∧ strip <$> rs = strip <$> rules ∧
  (NoDup (rlID <$> rules) → (∀ x, x ∈ rlID <$> rules → x ∉ used) → rs = rules).
Proof.
  revert used rs used'. induction rules as [|r rules IH]; intros used rs used'; cbn [renameRules].
  - intros [= <- <-]. split_and!; [constructor|set_solver|set_solver|done|done].
  - pose proof (uniqueRuleID_spec (rlID r) pID used) as Hu.
    destruct (uniqueRuleID (rlID r) pID used) as [id u1]. destruct Hu as (Hid & -> & Hkeep).
    destruct (renameRules pID rules _) as [rs1 u2] eqn:E. intros [= <- <-].
    apply IH in E as (Hnd & Hfresh & -> & Hs & Hk). cbn [fmap list_fmap rlID with_rlID]. split_and!.
    + constructor; [|done]. intros Hin%Hfresh. set_solver.
    + intros x [->|Hx]%elem_of_cons; [done|]. apply Hfresh in Hx. set_solver.
    + cbn. set_solver.
    + f_equal; done.
    + intros [Hr Hnd']%NoDup_cons Hall. assert (id = rlID r) as -> by (apply Hkeep, Hall; left).
      rewrite with_rlID_id. f_equal. apply Hk; [done|]. intros x Hx.
      rewrite not_elem_of_union, not_elem_of_singleton. split; [by intros ->|]. apply Hall. by right.
Qed.

(** ** What an expansion is *)

(** The rules the policies, in their order, put on a node. *)
Definition onto (gp : GroupNetPolicy) (resolved : gmap string (list string)) (target t : string) : list NetRule :=
  if t =?? target then expandRulesForTarget (gpRules gp) target resolved else [].
Definition contribution (targets resolved : gmap string (list string)) (target : string) (gp : GroupNetPolicy)
  : list NetRule :=
  if gpEnabled gp then flat_map (onto gp resolved target) (default [] (targets !! gpID gp)) else [].

(** The accumulator describes [F], the rules so far per node. *)
Definition describes (acc : gmap string NetPolicy * gmap string (gset string)) (F : string → list NetRule) : Prop :=
  ∀ target,
  default ∅ (acc.2 !! target) = list_to_set (rlID <$> default [] (npRules <$> acc.1 !! target)) ∧
  match acc.1 !! target with
  | None => F target = []
  | Some np =>
    F target ≠ [] ∧ npID np = target ∧ TargetNodeID np = target ∧ npEnabled np = true ∧ GroupDerived np = true ∧
    strip <$> npRules np = strip <$> F target ∧ NoDup (rlID <$> npRules np) ∧
    (NoDup (rlID <$> F target) → npRules np = F target)
  end.

Lemma describes_ext acc F G : (∀ t, F t = G t) → describes acc F → describes acc G.
Proof. intros E H t. specialize (H t). by rewrite <- E. Qed.

Lemma expandOnto_describes gp resolved target acc F :
  describes acc F →
  describes (expandOnto gp resolved target acc) (fun t => F t ++ onto gp resolved t target).
Proof.
  intros HF. unfold expandOnto, onto. destruct acc as [out usedIDs].
  destruct (expandRulesForTarget (gpRules gp) target resolved) as [|r0 rules0] eqn:Er.
  { eapply describes_ext; [|exact HF]. intros t. cbn. case_bool_decide as E; [|by rewrite app_nil_r].
    subst t. by rewrite Er, app_nil_r. }
  rewrite <- Er. set (rules := expandRulesForTarget (gpRules gp) target resolved) in *.
  destruct (renameRules (gpID gp) rules _) as [rs used] eqn:En.
  apply renameRules_spec in En as (Hnd & Hfresh & -> & Hs & Hk). intros t. cbn [fst snd].
  destruct (decide (target = t)) as [<-|Hne].
  - rewrite !lookup_insert_eq, bool_decide_eq_true_2 by done.
    fold rules. destruct (HF target) as [Hu Hm]. cbn [fst snd] in Hu, Hm. rewrite Hu in *. clear Hu.
    assert (∀ l, l ++ rules ≠ []) as Hrules.
    { intros l E. apply app_eq_nil in E as [_ E]. rewrite Er in E. done. }
    destruct (out !! target) as [np|]; cbn in *.
    + destruct Hm as (_ & ? & ? & ? & ? & Hst & Hnp & Hkeep). rewrite !fmap_app, !list_to_set_app_L. split; [set_solver|].
      split_and!; [by apply Hrules|done..|by f_equal| |].
      * rewrite NoDup_app. split_and!; [done| |done]. intros x Hx Hx2. apply Hfresh in Hx2. set_solver.
      * rewrite NoDup_app. intros (HF1 & HF2 & HF3). rewrite Hkeep, Hk; [done..| |done].
        intros x Hx Hin. apply elem_of_list_to_set in Hin. rewrite Hkeep in Hin by done. by apply (HF2 x).
    + rewrite Hm. cbn [app]. split; [set_solver|]. split_and!; [by apply (Hrules [])|done..|]. intros Hr. apply Hk; [done|]. set_solver.
  - rewrite !lookup_insert_ne by done. rewrite bool_decide_eq_false_2, app_nil_r by done. apply HF.
Qed.

Lemma expandPolicy_describes targets resolved gp acc F :
  describes acc F →
  describes (expandPolicy targets resolved acc gp) (fun t => F t ++ contribution targets resolved t gp).
Proof.
  intros HF. unfold expandPolicy, contribution. destruct (gpEnabled gp).
  - generalize (default [] (targets !! gpID gp)). intros l. revert acc F HF.
    induction l as [|x l IH]; intros acc F HF; cbn [fold_left flat_map].
    + eapply describes_ext; [|exact HF]. intros t. by rewrite app_nil_r.
    + eapply describes_ext; [|apply IH, expandOnto_describes, HF]. intros t. cbn. by rewrite app_assoc.
  - eapply describes_ext; [|exact HF]. intros t. by rewrite app_nil_r.
Qed.

(** Expansion is exact: a node gets a policy exactly when some enabled
    policy that targets it yields a rule for it; the policy holds, in policy
    order and rule order, the rules the policies yield, changed at most in
    their ids; the ids are distinct; and if the ids were already distinct
    nothing is changed at all. *)
Theorem ExpandGroupPolicies_spec policies targets resolved target :
  let rules := flat_map (contribution targets resolved target) (sortSlice policy_before policies) in
  match ExpandGroupPolicies policies targets resolved !! target with
  | None => rules = []
  | Some np =>
    rules ≠ [] ∧ npID np = target ∧ TargetNodeID np = target ∧ npEnabled np = true ∧ GroupDerived np = true ∧
    strip <$> npRules np = strip <$> rules ∧ NoDup (rlID <$> npRules np) ∧
    (NoDup (rlID <$> rules) → npRules np = rules)
  end.
Proof.
  intros rules. unfold ExpandGroupPolicies.
  assert (∀ l acc F, describes acc F → describes (fold_left (expandPolicy targets resolved) l acc)
    (fun t => F t ++ flat_map (contribution targets resolved t) l)) as H.
  { induction l as [|gp l IH]; intros acc F HF; cbn [fold_left flat_map].
    - eapply describes_ext; [|exact HF]. intros t. by rewrite app_nil_r.
    - eapply describes_ext; [|apply IH, expandPolicy_describes, HF]. intros t. cbn. by rewrite app_assoc. }
  destruct (H (sortSlice policy_before policies) (∅, ∅) (fun _ => []) ltac:(done) target) as [_ Hm]. exact Hm.
Qed.

(** A fanned-out rule never points at the node it is installed on. *)
Lemma expand_no_self rules target resolved r :
  r ∈ expandRulesForTarget rules target resolved →
  ∃ g, g ∈ rules ∧ grlDisabled g = false ∧ rlAction r = grlAction g ∧ rlPorts r = grlPorts g ∧
    ((Kind (grlRemote g) = NetRefGroup ∧ Kind (rlRemote r) = NetRefNode ∧ NodeID (rlRemote r) ≠ target ∧
      NodeID (rlRemote r) ∈ default [] (resolved !! GroupID (grlRemote g))) ∨
     (Kind (grlRemote g) ≠ NetRefGroup ∧ rlRemote r = grlRemote g)).
Proof.
  unfold expandRulesForTarget. rewrite list_elem_of_In, in_flat_map. intros (g & Hg & Hr).
  exists g. rewrite list_elem_of_In. split; [done|]. unfold expandRule in Hr.
  destruct (grlDisabled g); [done|]. split; [done|]. case_bool_decide as Hk.
  - rewrite <- list_elem_of_In, list_elem_of_fmap in Hr. destruct Hr as (m & -> & Hm).
    apply list_elem_of_In, filter_In in Hm as [Hm Hne]. go_bool. split_and!; [done..|]. left.
    cbn. split_and!; [done..|]. by apply list_elem_of_In.
  - destruct Hr as [<-|[]]. split_and!; [done..|]. by right.
Qed.
End expand.

(** ** What a normalized policy is *)

Section normalized.
Context `{sdk : NetSdk} {Node : Type} (resolve : string → option Node).

Lemma ports_go_spec seen out values ps :
  ports_go seen out values = Some ps → NoDup out → (∀ x, x ∈ out ↔ x ∈ seen) →
  NoDup ps ∧ (∀ x, x ∈ ps ↔ x ∈ out ∨ x ∈ values) ∧ Forall (fun p => 1 <= p <= 65535) values.
Proof.
  revert seen out. induction values as [|p values IH]; intros seen out; cbn [ports_go].
  - intros [= <-] Hnd _. split_and!; [done|set_solver|constructor].
  - destruct (_ || _) eqn:Er; [done|]. go_bool. destruct Er as [Er1 Er2].
    destruct (mem p seen) eqn:Em.
    + apply mem_spec in Em. intros H Hnd Hs. destruct (IH _ _ H Hnd Hs) as (? & Hin & ?).
      split_and!; [done| |constructor; [lia|done]]. intros x. rewrite Hin, elem_of_cons. specialize (Hs x).
      split; [naive_solver|]. intros [?|[->|?]]; naive_solver.
    + apply mem_false in Em. intros H Hnd Hs.
      destruct (IH (p :: seen) (out ++ [p]) H) as (? & Hin & ?).
      * rewrite NoDup_app. split_and!; [done| |apply NoDup_singleton].
        intros x Hx ->%list_elem_of_singleton. by apply Em, Hs.
      * intros x. rewrite elem_of_app, list_elem_of_singleton, elem_of_cons, Hs. naive_solver.
      * split_and!; [done| |constructor; [lia|done]].
        intros x. rewrite Hin, elem_of_app, list_elem_of_singleton, elem_of_cons. naive_solver.
Qed.

Lemma normalizePorts_spec values ps :
  normalizePorts values = Some ps →
  StronglySorted Z.le ps ∧ NoDup ps ∧ (∀ x, x ∈ ps ↔ x ∈ values) ∧ Forall (fun p => 1 <= p <= 65535) ps.
Proof.
  unfold normalizePorts. destruct (ports_go [] [] values) as [out|] eqn:E; [|done]. intros [= <-].
  apply ports_go_spec in E as (Hnd & Hin & Hr); [|constructor|done].
  assert (∀ x, x ∈ sort_ints out ↔ x ∈ values) as Hel.
  { intros x. rewrite elem_of_sort_ints, Hin. set_solver. }
  split_and!; [apply sort_ints_sorted|by apply NoDup_sort_ints|done|].
  rewrite Forall_forall in *. intros x Hx%Hel. by apply Hr.
Qed.

(** A fully qualified host name in canonical form. *)
Definition domain_wf (d : string) : Prop :=
  d ≠ "" ∧ (String.length d <= 253)%nat ∧ "."%char ∈ bytes_of d ∧ ParseIP d = None ∧
  Forall (fun l => label_ok l = true) (split d ".").

Lemma normalizeDomainName_wf v d : normalizeDomainName v = Some d → domain_wf d.
Proof.
  unfold normalizeDomainName. set (x := of_bytes _). case_bool_decide; [done|].
  destruct (Nat.ltb_spec 253 (String.length x)); [done|].
  destruct (existsb _ _) eqn:E; [|done]. cbn [negb]. destruct (ParseIP x) eqn:Ep; [done|].
  destruct (forallb _ _) eqn:Ef; [|done]. intros [= <-]. split_and!; [done|lia| |done|].
  - apply existsb_elem_of in E as (c & Hc & Hd). go_bool. by subst.
  - rewrite Forall_forall. intros l Hl. rewrite forallb_elem_of in Ef. by apply Ef.
Qed.

Definition endpoint_wf (e : NetEndpoint) : Prop :=
  (Kind e = NetRefNode ∧ NodeID e ≠ "" ∧ is_Some (resolve (NodeID e)) ∧ CIDR e = "" ∧ Domain e = "") ∨
  (Kind e = NetRefCIDR ∧ NodeID e = "" ∧ (∃ raw, normalizeIPCIDR raw = Some (CIDR e)) ∧ Domain e = "") ∨
  (Kind e = NetRefDomain ∧ NodeID e = "" ∧ CIDR e = "" ∧ domain_wf (Domain e)) ∨
  (Kind e = NetRefAny ∧ NodeID e = "" ∧ CIDR e = "" ∧ Domain e = "").

Lemma normalizeEndpoint_wf id e e' : normalizeEndpoint id e resolve = Ok e' → endpoint_wf e'.
Proof.
  unfold normalizeEndpoint, endpoint_wf. set (kind := trim_space (Kind e)).
  case_bool_decide; [|case_bool_decide; [|case_bool_decide; [|case_bool_decide; [|done]]]].
  - intros [Hn HE]%guard_Ok. destruct (resolve _) eqn:Er; [|done]. injection HE as <-. go_bool. left. cbn.
    by rewrite Er.
  - destruct (normalizeIPCIDR _) eqn:E; [|done]. intros [= <-]. right; left. cbn. eauto.
  - destruct (normalizeDomainName _) eqn:E; [|done]. intros [= <-]. right; right; left. cbn.
    split_and!; [done..|]. by eapply normalizeDomainName_wf.
  - intros [= <-]. right; right; right. done.
Qed.

Definition rule_wf (r : NetRule) : Prop :=
  rlAction r ∈ [NetRuleAllow; NetRuleDeny] ∧ rlDirection r ∈ [NetDirEgress; NetDirIngress] ∧
  rlProtocol r ∈ [NetProtoTCP; NetProtoUDP; NetProtoAny] ∧
  StronglySorted Z.le (rlPorts r) ∧ NoDup (rlPorts r) ∧ Forall (fun p => 1 <= p <= 65535) (rlPorts r) ∧
  (rlProtocol r = NetProtoAny → rlPorts r = []) ∧ endpoint_wf (rlRemote r) ∧
  (Kind (rlRemote r) = NetRefDomain → rlDirection r = NetDirEgress).

Lemma normalizeRule_wf i r r' :
  normalizeRule i r resolve = Ok r' →
  rule_wf r' ∧ rlID r' = ruleID i (rlID r) ∧ rlAction r' = rlAction r ∧ rlDirection r' = rlDirection r ∧
  rlProtocol r' = rlProtocol r ∧ rlDisabled r' = rlDisabled r ∧ (∀ x, x ∈ rlPorts r' ↔ x ∈ rlPorts r).
Proof.
  unfold normalizeRule. intros [Ha [Hd [Hp H]%guard_Ok]%guard_Ok]%guard_Ok.
  destruct (normalizePorts _) as [ps|] eqn:Eps; [|done]. apply guard_Ok in H as [Hany H].
  destruct (normalizeEndpoint _ _ _) as [e|] eqn:Ee; [|done]. apply guard_Ok in H as [Hdom H].
  injection H as <-. unfold oneOf in *. rewrite negb_false_iff, mem_spec in Ha, Hd, Hp.
  apply normalizePorts_spec in Eps as (? & ? & ? & ?). apply normalizeEndpoint_wf in Ee.
  unfold rule_wf. cbn. split_and!; try done.
  - intros E. rewrite bool_decide_eq_true_2 in Hany by done. cbn in Hany. by destruct ps.
  - intros E. rewrite bool_decide_eq_true_2 in Hdom by done. cbn in Hdom. by go_bool.
Qed.

Lemma normalizeRules_wf i seen rules rs :
  normalizeRules i seen rules resolve = Ok rs →
  Forall rule_wf rs ∧ NoDup (rlID <$> rs) ∧ (∀ x, x ∈ rlID <$> rs → x ∉ seen) ∧
  rlID <$> rs = imap (fun k r => ruleID (i + k) (rlID r)) rules.
Proof.
  revert i seen rs. induction rules as [|r rules IH]; intros i seen rs; cbn [normalizeRules].
  - intros [= <-]. split_and!; [constructor|constructor|set_solver|done].
  - destruct (normalizeRule i r resolve) as [r'|] eqn:Er; [|done]. intros [Hm H]%guard_Ok.
    destruct (normalizeRules _ _ _ _) as [rs'|] eqn:E; [|done]. injection H as <-.
    apply IH in E as (Hwf & Hnd & Hfresh & Hids). apply normalizeRule_wf in Er as (? & Hid & _).
    apply mem_false in Hm. cbn [fmap list_fmap imap]. split_and!.
    + by constructor.
    + constructor; [|done]. intros Hin%Hfresh. set_solver.
    + intros x [->|Hx]%elem_of_cons; [done|]. apply Hfresh in Hx. set_solver.
    + rewrite Nat.add_0_r. f_equal; [done|]. rewrite Hids. apply imap_ext. intros k x _. cbn. by rewrite Nat.add_succ_r.
Qed.

Lemma NormalizePolicy_rules p p' : NormalizePolicy p resolve = Ok p' → Forall rule_wf (npRules p').
Proof.
  unfold NormalizePolicy. intros [_ H]%guard_Ok. destruct (resolve _) eqn:Er; [|done].
  destruct (normalizeRules _ _ _ _) as [rs|] eqn:E; [|done]. injection H as <-.
  by apply normalizeRules_wf in E as (? & _).
Qed.
(** A policy that passes normalization is well formed: it belongs to a node
    that exists and is identified by it, its rule ids are distinct, every rule
    has a known action, direction and protocol, ports that are in range,
    sorted and distinct and absent without a transport protocol, and a remote
    of exactly one kind: an existing node, a canonical address or prefix, a
    canonical fully qualified name on egress only, or anything. *)
Theorem NormalizePolicy_wf p p' :
  NormalizePolicy p resolve = Ok p' →
  TargetNodeID p' ≠ "" ∧ npID p' = TargetNodeID p' ∧ is_Some (resolve (TargetNodeID p')) ∧
  NoDup (rlID <$> npRules p') ∧ Forall rule_wf (npRules p').
Proof.
  unfold NormalizePolicy. intros [Ht H]%guard_Ok. destruct (resolve _) eqn:Er; [|done].
  destruct (normalizeRules _ _ _ _) as [rs|] eqn:E; [|done]. injection H as <-.
  apply normalizeRules_wf in E as (? & ? & _). go_bool. cbn. by rewrite Er.
Qed.
End normalized.

(** ** Expansion against normalization *)

Section clash.
Context `{sdk : NetSdk}.

Lemma token_byte_ascii c : token_byte c = true → ascii_byte c.
Proof. unfold ascii_byte. destruct c as [[] [] [] [] [] [] [] []]; vm_compute; done. Qed.
Lemma code_byte c : ascii_of_N (Z.to_N (code c)) = c.
Proof. unfold code. by rewrite N2Z.id, ascii_N_embedding. Qed.
Lemma token_rune_byte c : token_byte c = true → token_rune (code c) = true.
Proof.
  intros H. unfold token_rune. rewrite (proj2 (Z.ltb_lt _ _) (token_byte_ascii _ H)). by rewrite code_byte.
Qed.

Lemma write_runes_tokens max out l k :
  Forall (fun c => token_byte c = true) l → (length out < max <= length out + length l)%nat →
  write_runes token_rune max out (map (fun c => (code c, [c])) l ++ k) = take max (out ++ l).
Proof.
  intros Hl. revert out. induction Hl as [|c l Hc Hl IH]; intros out Hm; cbn [length] in Hm; [lia|].
  cbn [map app write_runes]. rewrite token_rune_byte by done. rewrite length_app. cbn [length].
  destruct (Nat.leb_spec max (length out + 1)).
  - rewrite take_app_ge by lia. replace (max - length out)%nat with 1%nat by lia. done.
  - rewrite IH; [by rewrite <- app_assoc|]. rewrite length_app. cbn. lia.
Qed.

Lemma sanitizeToken_long rid t :
  Forall (fun c => token_byte c = true) (bytes_of rid) → (64 <= String.length rid)%nat →
  trim_space (rid +:+ t) = rid +:+ t →
  sanitizeToken (rid +:+ t) 64 = of_bytes (take 64 (bytes_of rid)).
Proof.
  intros Hr Hl Ht. unfold sanitizeToken. rewrite Ht, runes_ascii_app.
  2:{ eapply Forall_impl; [exact Hr|]. intros c. apply token_byte_ascii. }
  rewrite write_runes_tokens; [|done|rewrite length_bytes_of; cbn; lia]. cbn [app].
  destruct (take 64 (bytes_of rid)) eqn:E; [|done].
  apply (f_equal length) in E. rewrite length_take, length_bytes_of in E. cbn [length] in E. lia.
Qed.

Lemma ruleID_long i rid t :
  Forall (fun c => token_byte c = true) (bytes_of rid) → (64 <= String.length rid)%nat →
  trim_space (rid +:+ t) = rid +:+ t →
  ruleID i (rid +:+ t) = of_bytes (take 64 (bytes_of rid)).
Proof.
  intros Hr Hl Ht. unfold ruleID. rewrite bool_decide_eq_false_2; [by apply sanitizeToken_long|].
  rewrite Ht. intros E. apply (f_equal String.length) in E. rewrite str_length_app in E. cbn in E. lia.
Qed.

(** A rule with a long id cannot be fanned out: when the id has 64 or more
    token characters and the remote group has two members besides the target,
    the ids of the fanned-out rules are distinct for the expansion, but
    sanitizing cuts them at the id they share, and normalization refuses the
    expanded policy whatever nodes exist. *)
Theorem long_id_fanout_refused {Node} (resolve : string → option Node) g target resolved m1 m2 :
  grlDisabled g = false → Kind (grlRemote g) = NetRefGroup →
  m1 ≠ m2 → m1 ≠ target → m2 ≠ target →
  m1 ∈ default [] (resolved !! GroupID (grlRemote g)) → m2 ∈ default [] (resolved !! GroupID (grlRemote g)) →
  Forall (fun c => token_byte c = true) (bytes_of (grlID g)) → (64 <= String.length (grlID g))%nat →
  (∀ m, m ∈ [m1; m2] → trim_space (grlID g +:+ ":" +:+ m) = grlID g +:+ ":" +:+ m) →
  ∃ e, NormalizePolicy (mkPolicy target target true true (expandRulesForTarget [g] target resolved)) resolve = Err e.
Proof.
  intros Hdis Hk Hne H1 H2 Hm1 Hm2 Htok Hlen Htrim.
  destruct (NormalizePolicy _ resolve) as [p'|e] eqn:E; [exfalso|by eexists].
  unfold NormalizePolicy in E. apply guard_Ok in E as [_ E]. destruct (resolve _); [|done].
  destruct (normalizeRules _ _ _ _) as [rs|] eqn:En; [|done]. cbn [npRules] in En.
  apply normalizeRules_wf in En as (_ & Hnd & _ & Hids). rewrite Hids in Hnd.
  cbn [expandRulesForTarget flat_map] in Hnd. unfold expandRulesForTarget in Hnd. cbn [flat_map] in Hnd.
  rewrite app_nil_r in Hnd. unfold expandRule in Hnd. rewrite Hdis, bool_decide_eq_true_2 in Hnd by done.
  set (ms := List.filter _ _) in Hnd.
  assert (∀ m, m ∈ default [] (resolved !! GroupID (grlRemote g)) → m ≠ target → ∃ i, ms !! i = Some m) as Hin.
  { intros m Hm Hmt. apply list_elem_of_lookup, list_elem_of_In, filter_In. rewrite <- list_elem_of_In.
    split; [done|]. by rewrite bool_decide_eq_false_2. }
  destruct (Hin m1 Hm1 H1) as [i Hi]. destruct (Hin m2 Hm2 H2) as [j Hj].
  assert (∀ k m, ms !! k = Some m → m ∈ [m1; m2] → imap (fun k r => ruleID (0 + k) (rlID r))
    ((fun member => mkRule (grlID g +:+ ":" +:+ member) (grlComment g) (grlAction g) (grlDirection g)
       (grlProtocol g) (grlPorts g) (mkEndpoint NetRefNode member "" "" "") false) <$> ms) !! k
    = Some (of_bytes (take 64 (bytes_of (grlID g))))) as Hat.
  { intros k m Hkm Hm. rewrite list_lookup_imap, list_lookup_fmap, Hkm. cbn [fmap option_fmap option_map rlID].
    f_equal. apply ruleID_long; [done..|by apply Htrim]. }
  assert (i = j) as -> by (eapply NoDup_lookup; [exact Hnd|eapply Hat; [exact Hi|set_solver]|eapply Hat; [exact Hj|set_solver]]).
  congruence.
Qed.
End clash.

(** ** The policy graph ([BuildGraph]) *)

Section graph.
Context `{sdk : NetSdk}.

Record GraphNode := mkGraphNode { gnID : string; gnName : string; gnOnline : bool }.
Record GraphEdge := mkEdge {
  From : string; To : string; geAction : string; geProtocol : string; gePorts : list Z; geDirection : string; geRuleID : string }.
Record GraphExternal := mkExternal {
  exTarget : string; exAction : string; exRemote : string; exProtocol : string; exPorts : list Z;
  exDirection : string; exRuleID : string }.
Record Graph := mkGraph { gNodes : list GraphNode; gEdges : list GraphEdge; gExternals : list GraphExternal }.

Definition externalForRule (target : string) (r : NetRule) (remote : string) : GraphExternal :=
  mkExternal target (rlAction r) remote (rlProtocol r) (rlPorts r) (rlDirection r) (rlID r).

(** What one rule adds: at most one edge or one external. *)
Definition ruleEdges (known : string → bool) (target : string) (r : NetRule) : list GraphEdge * list GraphExternal :=
  if rlDisabled r then ([], []) else
  let e := rlRemote r in
  if Kind e =?? NetRefNode then
    if known (NodeID e) then
      let '(from, to) := if rlDirection r =?? NetDirIngress then (NodeID e, target) else (target, NodeID e) in
      ([mkEdge from to (rlAction r) (rlProtocol r) (rlPorts r) (rlDirection r) (rlID r)], [])
    else ([], [])
  else if Kind e =?? NetRefCIDR then ([], [externalForRule target r (CIDR e)])
  else if Kind e =?? NetRefDomain then ([], [externalForRule target r (Domain e)])
  else if Kind e =?? NetRefAny then ([], [externalForRule target r "any"])
  else ([], []).

Definition policyRules (known : string → bool) (p : NetPolicy) : list (string * NetRule) :=
  if npEnabled p && known (TargetNodeID p) then pair (TargetNodeID p) <$> npRules p else [].

Definition BuildGraph (nodes : list GraphNode) (policies : list NetPolicy) : Graph :=
  let known id := existsb (fun n => gnID n =?? id) nodes in
  let rules := flat_map (policyRules known) policies in
  mkGraph
    (sortSlice (fun a b => String.ltb (gnID a) (gnID b)) nodes)
    (sortSlice (fun a b => if From a =?? From b then String.ltb (To a) (To b) else String.ltb (From a) (From b))
       (flat_map (fun '(t, r) => (ruleEdges known t r).1) rules))
    (sortSlice (fun a b => if exTarget a =?? exTarget b then String.ltb (exRemote a) (exRemote b)
                           else String.ltb (exTarget a) (exTarget b))
       (flat_map (fun '(t, r) => (ruleEdges known t r).2) rules)).

Context {laws : NetSdkLaws}.

(** The graph shows the policies as they act: between two nodes there is an
    edge exactly when an enabled rule of an enabled policy of a known node
    names the other, known, node, pointing the way the traffic flows; and it
    shows nothing else between nodes, whatever order equal edges come in. *)
Theorem BuildGraph_edges nodes policies e :
  let known id := ∃ n, n ∈ nodes ∧ gnID n = id in
  e ∈ gEdges (BuildGraph nodes policies) ↔
  ∃ p r, p ∈ policies ∧ npEnabled p = true ∧ known (TargetNodeID p) ∧
    r ∈ npRules p ∧ rlDisabled r = false ∧ Kind (rlRemote r) = NetRefNode ∧ known (NodeID (rlRemote r)) ∧
    (From e, To e) = (if decide (rlDirection r = NetDirIngress) then (NodeID (rlRemote r), TargetNodeID p)
                      else (TargetNodeID p, NodeID (rlRemote r))) ∧
    geAction e = rlAction r ∧ geProtocol e = rlProtocol r ∧ gePorts e = rlPorts r ∧
    geDirection e = rlDirection r ∧ geRuleID e = rlID r.
Proof.
  intros known. unfold BuildGraph. cbn [gEdges]. rewrite sortSlice_perm.
  assert (∀ id, existsb (fun n => gnID n =?? id) nodes = true ↔ known id) as Hkn.
  { intros id. rewrite existsb_elem_of. unfold known. split; intros (n & ? & ?); exists n; go_bool; by auto. }
  rewrite list_elem_of_In, in_flat_map. setoid_rewrite <- list_elem_of_In. split.
  - intros ([t r] & Hr & He). apply list_elem_of_In, in_flat_map in Hr as (p & Hp & Hr).
    rewrite <- list_elem_of_In in Hp. unfold policyRules in Hr.
    destruct (_ && _) eqn:Ek; [|done]. apply andb_true_iff in Ek as [Hen Hk%Hkn].
    rewrite <- list_elem_of_In, list_elem_of_fmap in Hr. destruct Hr as (r' & [= -> <-] & Hr).
    unfold ruleEdges in He. destruct (rlDisabled r) eqn:Ed; [by apply elem_of_nil in He|].
    case_bool_decide as Hkind; [|by repeat case_match; apply elem_of_nil in He].
    destruct (existsb _ _) eqn:Er; [|by apply elem_of_nil in He]. apply Hkn in Er.
    exists p, r. destruct (bool_decide (rlDirection r = NetDirIngress)) eqn:Hdir; go_bool; cbn in He;
      apply list_elem_of_singleton in He as ->; cbn; split_and!; try done;
      by destruct (decide (rlDirection r = NetDirIngress)).
  - intros (p & r & Hp & Hen & Hk & Hr & Hd & Hkind & Hkr & Hft & Ha & Hpr & Hpo & Hdi & Hid).
    exists (TargetNodeID p, r). split.
    + apply list_elem_of_In, in_flat_map. exists p. rewrite <- list_elem_of_In. split; [done|].
      unfold policyRules. rewrite Hen, (proj2 (Hkn _) Hk). cbn. rewrite <- list_elem_of_In. apply list_elem_of_fmap. eauto.
    + unfold ruleEdges. rewrite Hd, bool_decide_eq_true_2, (proj2 (Hkn _) Hkr) by done.
      destruct e as [f t a pr po di ri]. cbn in *. subst.
      destruct (decide _) as [E|E]; simplify_eq; [rewrite bool_decide_eq_true_2 by done|rewrite bool_decide_eq_false_2 by done];
        cbn; by apply list_elem_of_singleton.
Qed.
End graph.

(** ** A concrete fleet *)

Module NetDemo.
#[export] Instance net_sdk : NetSdk :=
  Build_NetSdk "allow" "deny" "egress" "ingress" "tcp" "udp" "any" "node" "cidr" "domain" "anywhere" "group"
    (fun _ => false) (fun A lt l => l).
Lemma net_laws : NetSdkLaws.
Proof. by split. Qed.
Definition fleet (id : string) : option unit := if mem id ["n1"; "n2"; "n3"] then Some () else None.
Definition rule (id : string) : GroupNetRule :=
  mkGroupRule id "" "allow" "egress" "tcp" [443; 80; 443] (mkEndpoint "group" "" "" "" "g") false.
Definition gp (id rid : string) (prio : Z) : GroupNetPolicy := mkGroupPolicy id true prio (mkTarget true [] [] []) [rule rid].
Definition targets : gmap string (list string) := {["p1" := ["n1"]; "p2" := ["n1"; "n2"]]}.
Definition resolved : gmap string (list string) := {["g" := ["n1"; "n2"; "n3"]]}.
Definition out := ExpandGroupPolicies [gp "p1" "r" 0; gp "p2" "r" 1] targets resolved.
(** Two policies reuse a rule id: the second is renamed on the node they share. *)
Example expanded_ids : (fun p => rlID <$> npRules p) <$> (out !! "n1")
  = Some ["r:n2"; "r:n3"; "p2:r:n2"; "p2:r:n3"].
Proof. vm_compute. reflexivity. Qed.
Definition none : NetPolicy := mkPolicy "" "" false false [].
Definition p1 : NetPolicy := Eval vm_compute in default none (out !! "n1").
Definition p1' : NetPolicy :=
  Eval vm_compute in match NormalizePolicy p1 fleet with Ok p => p | Err _ => none end.
Example normal_ids : (fun r => (rlID r, rlPorts r)) <$> npRules p1'
  = [("rn2", [80; 443]); ("rn3", [80; 443]); ("p2rn2", [80; 443]); ("p2rn3", [80; 443])].
Proof. vm_compute. reflexivity. Qed.
Definition long_id : string := "allow-egress-from-web-frontends-to-database-replicas.rule.0000001".
End NetDemo.

Import (hints) NetDemo.
Lemma NormalizePolicy_wf_witness : NoDup (rlID <$> npRules NetDemo.p1').
Proof.
  assert (NormalizePolicy NetDemo.p1 NetDemo.fleet = Ok NetDemo.p1') as H by (vm_compute; reflexivity).
  destruct (NormalizePolicy_wf NetDemo.fleet NetDemo.p1 NetDemo.p1' H) as (_ & _ & _ & Hnd & _). exact Hnd.
Defined.

Lemma long_id_fanout_refused_witness :
  ∃ e, NormalizePolicy (mkPolicy "n1" "n1" true true
    (expandRulesForTarget [NetDemo.rule NetDemo.long_id] "n1" NetDemo.resolved)) NetDemo.fleet = Err e.
Proof.
  apply (long_id_fanout_refused NetDemo.fleet (NetDemo.rule NetDemo.long_id) "n1" NetDemo.resolved "n2" "n3");
    try (vm_compute; reflexivity); try discriminate.
  - apply (bool_decide_unpack _). vm_compute. exact I.
  - apply (bool_decide_unpack _). vm_compute. exact I.
  - apply (bool_decide_unpack _). vm_compute. exact I.
  - apply (bool_decide_unpack _). vm_compute. exact I.
  - intros m [->|[->|[]%elem_of_nil]%elem_of_cons]%elem_of_cons; vm_compute; reflexivity.
Defined.

Lemma BuildGraph_edges_witness :
  mkEdge "n1" "n2" "allow" "tcp" [80] "egress" "r1" ∈
  gEdges (BuildGraph [mkGraphNode "n2" "" true; mkGraphNode "n1" "" true]
    [mkPolicy "n1" "n1" true false
       [mkRule "r1" "" "allow" "egress" "tcp" [80] (mkEndpoint "node" "n2" "" "" "") false]]).
Proof.
  apply (BuildGraph_edges (laws := NetDemo.net_laws)).
  eexists _, _. split; [apply list_elem_of_singleton; reflexivity|]. split; [reflexivity|].
  split; [exists (mkGraphNode "n1" "" true); split; [right; left|reflexivity]|].
  split; [apply list_elem_of_singleton; reflexivity|].
  split; [reflexivity|]. split; [reflexivity|].
  split; [exists (mkGraphNode "n2" "" true); split; [left|reflexivity]|].
  split_and!; vm_compute; reflexivity.
Defined.
