(* ===== verification/Nft.v ===== *)
(** * The guard ruleset ([internal/network/nft.go])

    [NormalizeNFTPlan] and its helpers and the renderer [GenerateNFTPlan].  A
    plan is given a meaning as a packet filter: the chain of rules in the order
    the renderer writes them, first match wins, drop at the end.  The theorems
    say that normalization keeps that meaning, that the rendered statements
    have it, and that no value of a plan can add a line to the ruleset.

    [strconv.Quote], whose choice of escapes depends on the tables of
    [unicode], is a parameter with the two laws the renderer relies on. *)

From Stdlib Require Import ZArith Lia Ascii.
From stdpp Require Import gmap strings sorting.
From S2P Require Import Prelude GoStr IpAddr IpNet.

Local Open Scope Z_scope.

Record NFTInputRule := mkInput {
  rInterface : string; SourceCIDRs : list string; rProtocol : string; rPorts : list Z;
  rAction : string; rComment : string }.
Record NFTNotrackUDP := mkNotrack { ntAddr : string; ntPort : Z }.
Record NFTPlan := mkNFTPlan {
  InterfaceName : string; WireGuardCIDR : string;
  PublicTCP : list Z; PublicUDP : list Z; WireGuardTCP : list Z; WireGuardUDP : list Z;
  InputRules : list NFTInputRule; NotrackUDP : list NFTNotrackUDP }.

#[export] Instance NFTInputRule_eq_dec : EqDecision NFTInputRule.
Proof. solve_decision. Defined.
#[export] Instance NFTNotrackUDP_eq_dec : EqDecision NFTNotrackUDP.
Proof. solve_decision. Defined.
#[export] Instance NFTPlan_eq_dec : EqDecision NFTPlan.
Proof. solve_decision. Defined.

Definition NFTActionAccept : string := "accept".
Definition NFTActionDrop : string := "drop".
Definition NFTProtoTCP : string := "tcp".
Definition NFTProtoUDP : string := "udp".
Definition NFTProtoAny : string := "any".

Inductive nftError :=
| ErrIfaceName (name : string) | ErrWgCIDR (v : string) | ErrWgNotIPv4 (v : string)
| ErrPort (p : Z) | ErrPublicTCP (e : nftError) | ErrPublicUDP (e : nftError)
| ErrWireGuardTCP (e : nftError) | ErrWireGuardUDP (e : nftError)
| ErrInputRule (i : nat) (e : nftError) | ErrRuleAction (v : string) | ErrRuleProtocol (v : string)
| ErrRulePorts (e : nftError) | ErrAnyCarriesPorts | ErrSource (v : string)
| ErrNotrack (i : nat) (addr : string) (port : Z).

#[export] Instance nftError_eq_dec : EqDecision nftError.
Proof. intros x y. unfold Decision. repeat decide equality. Defined.

Definition wrap_err {E F A} (f : E → F) (m : res E A) : res F A :=
  match m with Ok a => Ok a | Err e => Err (f e) end.

(** ** Normalization *)

(** [ifaceNameRe]: one to fifteen of a conservative set. *)
Definition iface_byte (c : ascii) : bool :=
  is_upper c || is_lower c || is_digit c || (c =?? "_"%char) || (c =?? "."%char) || (c =?? "-"%char).
Definition ifaceNameRe (s : string) : bool :=
  let l := bytes_of s in ((1 <=? length l) && (length l <=? 15))%nat && forallb iface_byte l.

Fixpoint ports_loop (seen ports : list Z) : res nftError (list Z) :=
  match ports with
  | [] => Ok []
  | p :: ports =>
    if (p <? 1) || (65535 <? p) then Err (ErrPort p)
    else if mem p seen then ports_loop seen ports
    else cons p <$> ports_loop (p :: seen) ports
  end.
Definition normalizePorts (ports : list Z) : res nftError (list Z) := sort_ints <$> ports_loop [] ports.

Definition normalizeSourceCIDR (value : string) : res nftError string :=
  match ParseIP value with
  | Some ip =>
    match To4 ip with
    | Some v4 => Ok (v4_string v4)
    | None => Ok (IPString ip)
    end
  | None =>
    match ParseCIDR value with
    | None => Err (ErrSource value)
    | Some (ip, ipNet) =>
      match To4 ip, To4 (netIP ipNet) with
      | Some _, Some v4 =>
        if (maskLen ipNet =? 4)%nat && (ones ipNet =? 32) then Ok (v4_string v4) else Ok (NetString ipNet)
      | None, _ =>
        if (maskLen ipNet =? 16)%nat && (ones ipNet =? 128) then Ok (IPString (netIP ipNet))
        else Ok (NetString ipNet)
      | Some _, None => Err (ErrSource value)
      end
    end
  end.

Definition sourceCIDRSortKey (value : string) : string :=
  let family a := if negb (Is4 a) && negb (Is4In6 a) then "6:" else "4:" in
  match ParsePrefix value with
  | Some p => family (pAddr p) +:+ PrefixString p
  | None =>
    match ParseAddrZone value with
    | Some (a, zone) => family a +:+ AddrString a +:+ (if zone =?? "" then "" else "%" +:+ zone)
    | None => value
    end
  end.
(** The keys of distinct normalized values are distinct, so [sort.Slice] has
    one result and any sort finds it ([source_sort_unique]). *)
Definition source_le (a b : string) : Prop := String.le (sourceCIDRSortKey a) (sourceCIDRSortKey b).
#[export] Instance source_le_dec : RelDecision source_le.
Proof. intros a b. unfold source_le. apply _. Defined.

Fixpoint sources_loop (seen values : list string) : res nftError (list string) :=
  match values with
  | [] => Ok []
  | raw :: values =>
    let value := trim_space raw in
    if value =?? "" then sources_loop seen values else
    match normalizeSourceCIDR value with
    | Err e => Err e
    | Ok normalized =>
      if mem normalized seen then sources_loop seen values
      else cons normalized <$> sources_loop (normalized :: seen) values
    end
  end.
Definition normalizeSourceCIDRs (values : list string) : res nftError (list string) :=
  merge_sort source_le <$> sources_loop [] values.

Definition normalizeInputRule (rule : NFTInputRule) : res nftError NFTInputRule :=
  fail_if negb (mem (rAction rule) [NFTActionAccept; NFTActionDrop]) with ErrRuleAction (rAction rule);
  fail_if negb (mem (rProtocol rule) [NFTProtoTCP; NFTProtoUDP; NFTProtoAny])
    with ErrRuleProtocol (rProtocol rule);
  fail_if negb (rInterface rule =?? "") && negb (ifaceNameRe (rInterface rule))
    with ErrIfaceName (rInterface rule);
  ports ← wrap_err ErrRulePorts (normalizePorts (rPorts rule));
  fail_if (rProtocol rule =?? NFTProtoAny) && negb (length ports =? 0)%nat with ErrAnyCarriesPorts;
  sources ← normalizeSourceCIDRs (SourceCIDRs rule);
  Ok (mkInput (rInterface rule) sources (rProtocol rule) ports (rAction rule) (trim_space (rComment rule))).

Fixpoint normalizeInputRules (i : nat) (rules : list NFTInputRule) : res nftError (list NFTInputRule) :=
  match rules with
  | [] => Ok []
  | rule :: rules =>
    normalized ← wrap_err (ErrInputRule (i + 1)) (normalizeInputRule rule);
    cons normalized <$> normalizeInputRules (S i) rules
  end.

Fixpoint normalizeNotrack (i : nat) (l : list NFTNotrackUDP) : res nftError (list NFTNotrackUDP) :=
  match l with
  | [] => Ok []
  | e :: l =>
    match ParseAddrZone (trim_space (ntAddr e)) with
    | Some (A4 b, _) =>
      fail_if (ntPort e <? 1) || (65535 <? ntPort e) with ErrNotrack (i + 1) (ntAddr e) (ntPort e);
      cons (mkNotrack (v4_string b) (ntPort e)) <$> normalizeNotrack (S i) l
    | _ => Err (ErrNotrack (i + 1) (ntAddr e) (ntPort e))
    end
  end.

Definition NormalizeNFTPlan (p : NFTPlan) : res nftError NFTPlan :=
  let iface := if InterfaceName p =?? "" then "eth0" else InterfaceName p in
  fail_if negb (ifaceNameRe iface) with ErrIfaceName iface;
  let wg := if WireGuardCIDR p =?? "" then "10.66.0.0/24" else WireGuardCIDR p in
  match ParseCIDR wg with
  | None => Err (ErrWgCIDR wg)
  | Some (_, ipNet) =>
    match To4 (netIP ipNet) with
    | None => Err (ErrWgNotIPv4 wg)
    | Some _ =>
      publicTCP ← wrap_err ErrPublicTCP (normalizePorts (PublicTCP p));
      publicUDP ← wrap_err ErrPublicUDP (normalizePorts (PublicUDP p));
      wgTCP ← wrap_err ErrWireGuardTCP (normalizePorts (WireGuardTCP p));
      wgUDP ← wrap_err ErrWireGuardUDP (normalizePorts (WireGuardUDP p));
      rules ← normalizeInputRules 0 (InputRules p);
      notrack ← normalizeNotrack 0 (NotrackUDP p);
      Ok (mkNFTPlan iface (NetString ipNet) publicTCP publicUDP wgTCP wgUDP rules notrack)
    end
  end.

(** ** Rendering *)

Class Quote := {
  (** [strconv.Quote] and the verb [%q]. *)
  quote : string → string;
}.
Class QuoteLaws `{Quote} := {
  (** Plain text is put between quotes; control characters are escaped. *)
  quote_iface : ∀ s, ifaceNameRe s = true → quote s = String (byte_of 34) (s +:+ str1 (byte_of 34));
  quote_no_newline : ∀ s, newline ∉ bytes_of (quote s);
}.

Definition join (sep : string) (l : list string) : string := String.concat sep l.
Definition joinPorts (ports : list Z) : string := join ", " (map dec_of_Z ports).
Definition dq (s : string) : string := String (byte_of 34) (s +:+ str1 (byte_of 34)).

Definition sourceAddr (value : string) : option addr :=
  match ParsePrefix value with
  | Some p => Some (pAddr p)
  | None => fst <$> ParseAddrZone value
  end.
Definition sourceExpr (family : string) (values : list string) : string :=
  match values with
  | [v] => family +:+ " saddr " +:+ v
  | _ => family +:+ " saddr { " +:+ join ", " values +:+ " }"
  end.
Definition is_v4 (value : string) : bool :=
  match sourceAddr value with Some a => Is4 a | None => false end.
Definition is_v6 (value : string) : bool :=
  match sourceAddr value with Some a => negb (Is4 a) && negb (Is4In6 a) | None => false end.
Definition inputSourceExprs (values : list string) : list string :=
  let v4 := List.filter is_v4 values in
  let v6 := List.filter is_v6 values in
  (if (length v4 =? 0)%nat then [] else [sourceExpr "ip" v4]) ++
  (if (length v6 =? 0)%nat then [] else [sourceExpr "ip6" v6]).

Section render.
Context `{Quote}.

Definition renderInputRule (rule : NFTInputRule) : list string :=
  let sourceExprs := match inputSourceExprs (SourceCIDRs rule) with [] => [""] | l => l end in
  map (fun sourceExpr =>
    join " " (
      (if rInterface rule =?? "" then [] else ["iifname " +:+ quote (rInterface rule)]) ++
      (if sourceExpr =?? "" then [] else [sourceExpr]) ++
      (if rProtocol rule =?? NFTProtoAny then []
       else if (length (rPorts rule) =? 0)%nat then ["meta l4proto " +:+ rProtocol rule]
       else [rProtocol rule +:+ " dport { " +:+ joinPorts (rPorts rule) +:+ " }"]) ++
      [rAction rule] ++
      (if rComment rule =?? "" then [] else ["comment"; quote (rComment rule)])))
  sourceExprs.

Definition ScaffoldICMPv4Types : string :=
  "echo-request, destination-unreachable, time-exceeded, parameter-problem".
Definition ScaffoldICMPv6Types : string :=
  "nd-neighbor-solicit, nd-neighbor-advert, nd-router-solicit, nd-router-advert, nd-redirect, echo-request, destination-unreachable, packet-too-big, time-exceeded, parameter-problem".
Definition ScaffoldICMPv4Match : string := "meta l4proto icmp icmp type { " +:+ ScaffoldICMPv4Types +:+ " }".
Definition ScaffoldICMPv6Match : string := "meta l4proto ipv6-icmp icmpv6 type { " +:+ ScaffoldICMPv6Types +:+ " }".

Definition broad_line (p : NFTPlan) (public : bool) (proto : string) (ports : list Z) (comment : string)
  : list string :=
  if (length ports =? 0)%nat then [] else
  ["    " +:+ (if public then "iifname " +:+ dq (InterfaceName p) else "ip saddr @wg_peers4") +:+
   " " +:+ proto +:+ " dport { " +:+ joinPorts ports +:+ " } accept comment " +:+ dq comment].

(** The lines of the ruleset; the text is the lines, each with its newline. *)
Definition nft_lines (p : NFTPlan) : list string :=
  ["add table inet lattice_guard"; "delete table inet lattice_guard"; "table inet lattice_guard {";
   "  set wg_peers4 {"; "    type ipv4_addr"; "    flags interval";
   "    elements = { " +:+ WireGuardCIDR p +:+ " }"; "  }"; "";
   "  chain input {"; "    type filter hook input priority 0; policy drop;";
   "    ct state established,related accept"; "    iif lo accept";
   "    " +:+ ScaffoldICMPv4Match +:+ " accept comment " +:+ dq "icmp control";
   "    " +:+ ScaffoldICMPv6Match +:+ " accept comment " +:+ dq "icmpv6 control and neighbour discovery"] ++
  map (fun line => "    " +:+ line) (flat_map renderInputRule (InputRules p)) ++
  broad_line p true NFTProtoTCP (PublicTCP p) "public lattice tcp ports" ++
  broad_line p true NFTProtoUDP (PublicUDP p) "public lattice udp ports" ++
  broad_line p false NFTProtoTCP (WireGuardTCP p) "wg tcp services" ++
  broad_line p false NFTProtoUDP (WireGuardUDP p) "wg udp services" ++
  ["    counter drop"; "  }"] ++
  (if (length (NotrackUDP p) =? 0)%nat then [] else
   [""; "  chain beacon_notrack_in {"; "    type filter hook prerouting priority raw; policy accept;"] ++
   map (fun e => "    ip daddr " +:+ ntAddr e +:+ " udp dport " +:+ dec_of_Z (ntPort e) +:+
          " notrack comment " +:+ dq "lattice beacon") (NotrackUDP p) ++
   ["  }"; ""; "  chain beacon_notrack_out {"; "    type filter hook output priority raw; policy accept;"] ++
   map (fun e => "    ip saddr " +:+ ntAddr e +:+ " udp sport " +:+ dec_of_Z (ntPort e) +:+
          " notrack comment " +:+ dq "lattice beacon") (NotrackUDP p) ++
   ["  }"]) ++
  ["}"].
Definition GenerateNFTPlan (p : NFTPlan) : res nftError string :=
  p ← NormalizeNFTPlan p; Ok (join_lines (nft_lines p)).
End render.

(** ** Canonical sources *)

Lemma normalizeSourceCIDR_spec v c :
  normalizeSourceCIDR v = Ok c → ∃ p, canonical c p ∧ denotes v = Some p.
Proof.
  unfold normalizeSourceCIDR. destruct (ParseIP v) as [ip|] eqn:Ei.
  - unfold ParseIP in Ei. destruct (ParseAddr v) as [a|] eqn:Ea; [|done]. injection Ei as <-.
    pose proof (wf_As16 a (ParseAddr_wf _ _ Ea)) as Hw. intros H.
    exists (full (Unmap (A16 (As16 a)))). split; [|unfold denotes, ParseIP; by rewrite Ea].
    assert (c = IPString (As16 a)) as ->; [|by apply IPString_canonical].
    unfold IPString in *. by destruct (To4 (As16 a)); injection H as <-.
  - destruct (ParseCIDR v) as [[ip net]|] eqn:Ec; [|done]. intros H.
    exists (net_prefix net). split; [|by apply ParseCIDR_denotes in Ec as [? _]].
    pose proof (NetString_canonical _ _ _ Ec) as Hcan.
    destruct (ParseCIDR_inv _ _ _ Ec) as (a & Ha & -> & Hn & Hnet).
    destruct (To4 (As16 a)) as [v4'|] eqn:E1; [destruct (To4 (netIP net)) as [v4|] eqn:E2|].
    + destruct (_ && _) eqn:E; [|by injection H as <-]. injection H as <-.
      apply andb_true_iff in E as [El Eo]. apply Nat.eqb_eq in El. apply Z.eqb_eq in Eo.
      unfold net_prefix in *. rewrite E2 in *. rewrite El, Eo in *.
      apply (canonical_addr (A4 v4)); [|done]. by apply canonical_wf in Hcan as [? _].
    + done.
    + destruct (_ && _) eqn:E; [|by injection H as <-]. injection H as <-.
      apply andb_true_iff in E as [El Eo]. apply Nat.eqb_eq in El. apply Z.eqb_eq in Eo.
      assert (To4 (netIP net) = None) as E2.
      { destruct a as [b|b].
        - rewrite Hnet in El. done.
        - rewrite Hnet. cbn [netIP]. cbn [As16] in E1. rewrite To4_16 in E1 by done.
          rewrite To4_16 by (by apply mask_bytes_wf). destruct (mapped (mask_bytes _ b)) eqn:Hm; [|done].
          apply mapped_mask in Hm as [_ Hm]; [|done]. by rewrite Hm in E1. }
      unfold net_prefix, IPString in *. rewrite E2 in *. rewrite Eo in *.
      apply canonical_wf in Hcan as (? & ? & _). by apply (canonical_addr (A16 _)).
Qed.

(** ** The meaning of a plan

    A new inbound connection: the interface it arrives on, its source, its
    protocol and destination port.  (Connections already tracked, loopback and
    the fixed control messages are accepted ahead of every rule and are not
    described by it.) *)

Record packet := mkPacket { pkIface : string; pkSrc : addr; pkProto : string; pkPort : Z }.

Definition source_has (v : string) (a : addr) : bool :=
  match denotes (trim_space v) with Some p => Contains p a | None => false end.
Definition rule_matches (r : NFTInputRule) (pk : packet) : bool :=
  ((rInterface r =?? "") || (rInterface r =?? pkIface pk)) &&
  ((length (SourceCIDRs r) =? 0)%nat || existsb (fun v => source_has v (pkSrc pk)) (SourceCIDRs r)) &&
  ((rProtocol r =?? NFTProtoAny) ||
   ((rProtocol r =?? pkProto pk) && ((length (rPorts r) =? 0)%nat || mem (pkPort pk) (rPorts r)))).

(** First match wins; the chain ends in a drop. *)
Fixpoint verdict (chain : list NFTInputRule) (pk : packet) : bool :=
  match chain with
  | [] => false
  | r :: chain => if rule_matches r pk then rAction r =?? NFTActionAccept else verdict chain pk
  end.

(** The broad port lists come after every rule. *)
Definition plan_iface (p : NFTPlan) : string := if InterfaceName p =?? "" then "eth0" else InterfaceName p.
Definition plan_wg (p : NFTPlan) : string := if WireGuardCIDR p =?? "" then "10.66.0.0/24" else WireGuardCIDR p.
Definition broad (iface : string) (sources : list string) (proto : string) (ports : list Z) (comment : string)
  : list NFTInputRule :=
  if (length ports =? 0)%nat then [] else [mkInput iface sources proto ports NFTActionAccept comment].
Definition broad_rules (p : NFTPlan) : list NFTInputRule :=
  broad (plan_iface p) [] NFTProtoTCP (PublicTCP p) "public lattice tcp ports" ++
  broad (plan_iface p) [] NFTProtoUDP (PublicUDP p) "public lattice udp ports" ++
  broad "" [plan_wg p] NFTProtoTCP (WireGuardTCP p) "wg tcp services" ++
  broad "" [plan_wg p] NFTProtoUDP (WireGuardUDP p) "wg udp services".
Definition chain (p : NFTPlan) : list NFTInputRule := InputRules p ++ broad_rules p.
Definition plan_accepts (p : NFTPlan) (pk : packet) : bool := verdict (chain p) pk.

(** Two chains that agree rule by rule decide alike. *)
Definition same_rule (r s : NFTInputRule) : Prop :=
  rAction r = rAction s ∧ ∀ pk, rule_matches r pk = rule_matches s pk.
Lemma verdict_ext c d pk : Forall2 same_rule c d → verdict c pk = verdict d pk.
Proof.
  induction 1 as [|r s c d [Ha Hm] _ IH]; [done|]. cbn [verdict]. rewrite Hm, IH, Ha. done.
Qed.
Lemma verdict_app c d pk :
  verdict (c ++ d) pk = if existsb (fun r => rule_matches r pk) c then verdict c pk else verdict d pk.
Proof.
  induction c as [|r c IH]; [done|]. cbn [app verdict existsb]. destruct (rule_matches r pk); [done|]. apply IH.
Qed.
Lemma verdict_no_match c pk : existsb (fun r => rule_matches r pk) c = false → verdict c pk = false.
Proof.
  induction c as [|r c IH]; [done|]. cbn [existsb verdict]. by destruct (rule_matches r pk).
Qed.
(** A chain of accepts decides by membership alone. *)
Lemma verdict_accepts c pk :
  Forall (fun r => rAction r = NFTActionAccept) c → verdict c pk = existsb (fun r => rule_matches r pk) c.
Proof.
  induction 1 as [|r c Hr _ IH]; [done|]. cbn [verdict existsb]. rewrite IH, Hr. by destruct (rule_matches r pk).
Qed.

(** ** Normalization keeps the meaning *)

Definition port_ok (p : Z) : Prop := 1 <= p <= 65535.
Lemma ports_loop_Ok seen ports out :
  ports_loop seen ports = Ok out ↔ Forall port_ok ports ∧ out = dedup_go seen ports.
Proof.
  revert seen out. induction ports as [|p ports IH]; intros seen out; cbn [ports_loop dedup_go].
  - split; [by intros [= <-]|by intros [_ ->]].
  - rewrite Forall_cons. unfold port_ok at 1. destruct (_ || _) eqn:E; [|destruct (mem p seen)].
    + go_bool. split; [done|]. lia.
    + go_bool. rewrite IH. split; [intros [??]; split_and!; try done; lia|naive_solver].
    + go_bool. split.
      * destruct (ports_loop _ _) as [l|] eqn:El; [|done]. intros [= <-]. apply IH in El as [? ->].
        split_and!; try done; lia.
      * intros [[_ Hf] ->]. assert (ports_loop (p :: seen) ports = Ok (dedup_go (p :: seen) ports)) as ->; [|done].
        by apply IH.
Qed.
Lemma normalizePorts_Ok ports out :
  normalizePorts ports = Ok out ↔ Forall port_ok ports ∧ out = sort_ints (dedup ports).
Proof.
  unfold normalizePorts, dedup. destruct (ports_loop [] ports) as [l|] eqn:E; cbn [fmap res_fmap].
  - apply ports_loop_Ok in E as [Hf ->]. naive_solver.
  - split; [done|]. intros [Hf ->]. assert (ports_loop [] ports = Ok (dedup_go [] ports)) as E'; [|congruence].
    by apply ports_loop_Ok.
Qed.
Lemma sorted_ports_wf ports : let out := sort_ints (dedup ports) in
  StronglySorted Z.le out ∧ NoDup out ∧ (∀ p, p ∈ out ↔ p ∈ ports) ∧ (length out = 0 ↔ length ports = 0)%nat.
Proof.
  cbn zeta. assert (∀ p, p ∈ sort_ints (dedup ports) ↔ p ∈ ports) as Hel
    by (intros p; by rewrite elem_of_sort_ints, elem_of_dedup).
  split_and!; [apply sort_ints_sorted|apply NoDup_sort_ints, NoDup_dedup|done|].
  rewrite !length_zero_iff_nil. split; intros H.
  - apply elem_of_nil_inv. intros p Hp%Hel. rewrite H in Hp. by apply elem_of_nil in Hp.
  - apply elem_of_nil_inv. intros p Hp%Hel. rewrite H in Hp. by apply elem_of_nil in Hp.
Qed.
Lemma mem_ports p ports : mem p (sort_ints (dedup ports)) = mem p ports.
Proof.
  apply eq_iff_eq_true. rewrite !mem_spec. apply (sorted_ports_wf ports).
Qed.
Lemma empty_ports ports : (length (sort_ints (dedup ports)) =? 0)%nat = (length ports =? 0)%nat.
Proof. apply eq_iff_eq_true. rewrite !Nat.eqb_eq. apply (sorted_ports_wf ports). Qed.
(** Normal port lists are fixed points. *)
Lemma normalizePorts_normal ports :
  StronglySorted Z.le ports → NoDup ports → Forall port_ok ports → normalizePorts ports = Ok ports.
Proof.
  intros Hs Hn Hr. apply normalizePorts_Ok. split; [done|].
  by rewrite dedup_id, sort_ints_id.
Qed.

(** [canonical_of v] is the canonical text a source is replaced by. *)
Definition blank (v : string) : bool := trim_space v =?? "".
Lemma sources_loop_Ok seen values out :
  sources_loop seen values = Ok out →
  Forall (fun c => ∃ p, canonical c p) out ∧ NoDup out ∧ (∀ c, c ∈ out → c ∉ seen) ∧
  (∀ c, c ∈ out → ∃ v, v ∈ values ∧ blank v = false ∧ normalizeSourceCIDR (trim_space v) = Ok c) ∧
  (∀ v, v ∈ values → blank v = false → ∃ c, normalizeSourceCIDR (trim_space v) = Ok c ∧ (c ∈ out ∨ c ∈ seen)).
Proof.
  revert seen out. induction values as [|raw values IH]; intros seen out; cbn [sources_loop].
  { intros [= <-]. split_and!; [done|constructor|set_solver..]. }
  fold (blank raw). destruct (blank raw) eqn:Eb.
  { intros (H1 & H2 & H3 & H4 & H5)%IH. split_and!; try done.
    - intros c Hc. destruct (H4 c Hc) as (v & ? & ?). exists v. set_solver.
    - intros v [->|Hv]%elem_of_cons Hvb; [congruence|eauto]. }
  destruct (normalizeSourceCIDR (trim_space raw)) as [c0|] eqn:En; [|done].
  destruct (mem c0 seen) eqn:Em.
  - apply mem_spec in Em. intros (H1 & H2 & H3 & H4 & H5)%IH. split_and!; try done.
    + intros c Hc. destruct (H4 c Hc) as (v & ? & ?). exists v. set_solver.
    + intros v [->|Hv]%elem_of_cons Hvb; eauto.
  - apply mem_false in Em. destruct (sources_loop _ values) as [l|] eqn:El; [|done]. intros [= <-].
    apply IH in El as (H1 & H2 & H3 & H4 & H5). split_and!.
    + constructor; [|done]. apply normalizeSourceCIDR_spec in En as (p & ? & _). eauto.
    + constructor; [|done]. intros Hc. apply (H3 _ Hc). left.
    + intros c [->|Hc]%elem_of_cons; [done|]. specialize (H3 c Hc). set_solver.
    + intros c [->|Hc]%elem_of_cons; [exists raw; set_solver|].
      destruct (H4 c Hc) as (v & ? & ?). exists v. set_solver.
    + intros v [->|Hv]%elem_of_cons Hvb; [exists c0; set_solver|].
      destruct (H5 v Hv Hvb) as (c & ? & ?). exists c. set_solver.
Qed.

(** The sort key of a canonical source is the source itself behind its
    family. *)
Lemma key_canonical c p :
  canonical c p → sourceCIDRSortKey c = (if Is4 (pAddr p) then "4:" else "6:") +:+ c.
Proof.
  intros H. unfold sourceCIDRSortKey. pose proof (canonical_wf _ _ H) as (Hw & Hn & _).
  assert ((if negb (Is4 (pAddr p)) && negb (Is4In6 (pAddr p)) then "6:" else "4:") =
          (if Is4 (pAddr p) then "4:" else "6:")) as Hf.
  { destruct (pAddr p) as [b|b]; [done|]. cbn [native Is4 Is4In6] in *. unfold mapped in Hn. by rewrite Hn. }
  destruct H as [a Ha _|a n Ha _ Hb _]; cbn [full pAddr] in *; pose proof (ParseAddr_text a Ha) as E.
  - rewrite (ParsePrefix_addr_None _ _ E), (ParseAddrZone_plain _ _ E), Hf.
    rewrite bool_decide_eq_true_2, str_app_nil_r, AddrString_native by done. done.
  - rewrite (ParsePrefix_print _ _ _ E Hb). cbn [pAddr]. rewrite Hf. f_equal.
    unfold PrefixString. cbn [pAddr pBits]. by rewrite AddrString_native.
Qed.
Lemma key_inj c d p q :
  canonical c p → canonical d q → sourceCIDRSortKey c = sourceCIDRSortKey d → c = d.
Proof.
  intros Hc Hd. rewrite (key_canonical _ _ Hc), (key_canonical _ _ Hd).
  destruct (Is4 (pAddr p)), (Is4 (pAddr q)); intros [= H]; done.
Qed.
#[export] Instance source_le_total : Total source_le.
Proof. intros a b. apply (total String.le). Qed.
#[export] Instance source_le_trans : Transitive source_le.
Proof. intros a b c. apply (transitivity (R := String.le)). Qed.
(** Any sort by key orders canonical sources the same way. *)
Lemma source_sort_unique l k :
  Forall (fun c => ∃ p, canonical c p) l → k ≡ₚ l → StronglySorted source_le k → k = merge_sort source_le l.
Proof.
  intros Hl Hp Hk.
  assert (Forall (fun c => ∃ p, canonical c p) k) as Hck by (by rewrite Hp).
  assert (merge_sort source_le l ≡ₚ k) as Hp' by (rewrite merge_sort_Permutation; by symmetry).
  pose proof (StronglySorted_merge_sort source_le l) as Hm. revert Hp' Hm.
  generalize (merge_sort source_le l) as m. clear Hl Hp l. revert Hck Hk.
  induction k as [|c k IH]; intros Hck Hk m Hp Hm.
  { symmetry in Hp. by apply Permutation_nil in Hp. }
  destruct m as [|d m]; [by apply Permutation_nil_cons in Hp|].
  apply Forall_cons in Hck as [[p Hc] Hck]. inversion_clear Hk as [|? ? Hk' Hkc].
  inversion_clear Hm as [|? ? Hm' Hmd].
  assert (d = c) as ->.
  { assert (d ∈ c :: k) as [->|Hd]%elem_of_cons by (rewrite <- Hp; left); [done|].
    assert (c ∈ d :: m) as [->|Hc']%elem_of_cons by (rewrite Hp; left); [done|].
    rewrite Forall_forall in Hkc, Hmd, Hck. destruct (Hck _ Hd) as [q Hq].
    apply (key_inj d c q p); [done..|]. apply (anti_symm String.le); [by apply Hmd|by apply Hkc]. }
  f_equal. apply IH; [done..|by eapply Permutation_cons_inv|done].
Qed.

Lemma source_has_canonical c p a : canonical c p → source_has c a = Contains p a.
Proof. intros H. unfold source_has. by rewrite (trim_canonical _ _ H), (denotes_canonical _ _ H). Qed.
Lemma normalizeSource_has v c a :
  normalizeSourceCIDR (trim_space v) = Ok c → source_has c a = source_has v a.
Proof.
  intros (p & Hc & Hd)%normalizeSourceCIDR_spec. rewrite (source_has_canonical _ _ _ Hc).
  unfold source_has. by rewrite Hd.
Qed.
Definition sources_match (values : list string) (a : addr) : bool :=
  (length values =? 0)%nat || existsb (fun v => source_has v a) values.
Lemma normalizeSourceCIDRs_spec values out :
  normalizeSourceCIDRs values = Ok out →
  Forall (fun c => ∃ p, canonical c p) out ∧ NoDup out ∧
  (Forall (fun v => blank v = false) values → ∀ a, sources_match out a = sources_match values a).
Proof.
  unfold normalizeSourceCIDRs. destruct (sources_loop [] values) as [l|] eqn:El; [|done]. intros [= <-].
  apply sources_loop_Ok in El as (H1 & H2 & _ & H4 & H5).
  pose proof (merge_sort_Permutation source_le l) as Hp.
  split_and!; [by rewrite Hp|by rewrite Hp|].
  intros Hb a. rewrite Forall_forall in Hb. unfold sources_match.
  assert (∀ c, c ∈ merge_sort source_le l ↔ c ∈ l) as Hel by (intros; by rewrite Hp).
  apply eq_iff_eq_true. rewrite !orb_true_iff, !existsb_elem_of, !Nat.eqb_eq, !length_zero_iff_nil.
  setoid_rewrite Hel. split; (intros [Hnil|(x & Hx & Hs)]; [left|right]).
  - apply elem_of_nil_inv. intros v Hv. destruct (H5 v Hv (Hb v Hv)) as (c & _ & [Hc|Hc]); [|set_solver].
    apply Hel in Hc. rewrite Hnil in Hc. by apply elem_of_nil in Hc.
  - destruct (H4 x Hx) as (v & Hv & _ & Hn). exists v. split; [done|]. by rewrite <- (normalizeSource_has v x).
  - subst values. apply elem_of_nil_inv. intros c Hc%Hel. destruct (H4 c Hc) as (v & Hv & _). by apply elem_of_nil in Hv.
  - destruct (H5 x Hx (Hb x Hx)) as (c & Hn & [Hc|Hc]); [|set_solver]. exists c. split; [done|].
    by rewrite (normalizeSource_has x c).
Qed.

(** What holds of every rule and plan the normalizer returns. *)
Definition ports_normal (ps : list Z) : Prop := StronglySorted Z.le ps ∧ NoDup ps ∧ Forall port_ok ps.
Record rule_normal (r : NFTInputRule) : Prop := {
  rn_action : rAction r = NFTActionAccept ∨ rAction r = NFTActionDrop;
  rn_protocol : rProtocol r ∈ [NFTProtoTCP; NFTProtoUDP; NFTProtoAny];
  rn_iface : rInterface r = "" ∨ ifaceNameRe (rInterface r) = true;
  rn_ports : ports_normal (rPorts r);
  rn_any : rProtocol r = NFTProtoAny → rPorts r = [];
  rn_sources : Forall (fun c => ∃ p, canonical c p) (SourceCIDRs r);
}.
Record plan_normal (p : NFTPlan) : Prop := {
  pn_iface : ifaceNameRe (InterfaceName p) = true;
  pn_wg : ∃ q, canonical (WireGuardCIDR p) q ∧ Is4 (pAddr q) = true ∧ "/"%char ∈ bytes_of (WireGuardCIDR p);
  pn_ports : ports_normal (PublicTCP p) ∧ ports_normal (PublicUDP p) ∧
             ports_normal (WireGuardTCP p) ∧ ports_normal (WireGuardUDP p);
  pn_rules : Forall rule_normal (InputRules p);
  pn_notrack : Forall (fun e => (∃ b, wf_bytes 4 b ∧ ntAddr e = v4_string b) ∧ port_ok (ntPort e)) (NotrackUDP p);
}.
Definition no_blank (r : NFTInputRule) : Prop := Forall (fun v => blank v = false) (SourceCIDRs r).

Lemma wrap_Ok {E F A} (f : E → F) (m : res E A) a : wrap_err f m = Ok a ↔ m = Ok a.
Proof. destruct m; naive_solver. Qed.
Lemma normalizePorts_normal_out ports out : normalizePorts ports = Ok out → ports_normal out.
Proof.
  intros [Hf ->]%normalizePorts_Ok. destruct (sorted_ports_wf ports) as (H1 & H2 & H3 & _).
  split_and!; [done..|]. rewrite Forall_forall in *. intros p Hp%H3. by apply Hf.
Qed.
Lemma rule_matches_eq r pk : rule_matches r pk =
  ((rInterface r =?? "") || (rInterface r =?? pkIface pk)) && sources_match (SourceCIDRs r) (pkSrc pk) &&
  ((rProtocol r =?? NFTProtoAny) ||
   ((rProtocol r =?? pkProto pk) && ((length (rPorts r) =? 0)%nat || mem (pkPort pk) (rPorts r)))).
Proof. done. Qed.

Lemma normalizeInputRule_Ok r r' :
  normalizeInputRule r = Ok r' → ∃ ports sources,
    rAction r ∈ [NFTActionAccept; NFTActionDrop] ∧ rProtocol r ∈ [NFTProtoTCP; NFTProtoUDP; NFTProtoAny] ∧
    (rInterface r = "" ∨ ifaceNameRe (rInterface r) = true) ∧ normalizePorts (rPorts r) = Ok ports ∧
    (rProtocol r = NFTProtoAny → ports = []) ∧ normalizeSourceCIDRs (SourceCIDRs r) = Ok sources ∧
    r' = mkInput (rInterface r) sources (rProtocol r) ports (rAction r) (trim_space (rComment r)).
Proof.
  unfold normalizeInputRule. intros H. ok_inv. rename x into ports, x0 into sources.
  rewrite wrap_Ok in *. rewrite negb_false_iff, mem_spec in *. exists ports, sources.
  split_and!; try done.
  - go_bool. tauto.
  - intros E. rewrite bool_decide_eq_true_2 in * by done.
    match goal with Hl : true && negb (length ports =? 0)%nat = false |- _ => rename Hl into Hl' end.
    apply negb_false_iff in Hl'. by apply Nat.eqb_eq, length_zero_iff_nil in Hl'.
Qed.
Lemma normalizeInputRule_spec r r' :
  normalizeInputRule r = Ok r' → rule_normal r' ∧ rAction r' = rAction r ∧ (no_blank r → same_rule r' r).
Proof.
  intros (ports & sources & Ha & Hpr & Hi & Hp & Hany & Hs & ->)%normalizeInputRule_Ok.
  pose proof (normalizePorts_normal_out _ _ Hp) as Hpn. apply normalizePorts_Ok in Hp as [_ Hp].
  apply normalizeSourceCIDRs_spec in Hs as (Hc & _ & Hm).
  split_and!; [constructor; cbn; try done; set_solver|done|].
  intros Hb. split; [done|]. intros pk. rewrite !rule_matches_eq.
  cbn [rInterface SourceCIDRs rProtocol rPorts]. rewrite Hm by done. subst ports. by rewrite mem_ports, empty_ports.
Qed.
Lemma normalizeInputRules_spec i rules out :
  normalizeInputRules i rules = Ok out →
  Forall rule_normal out ∧ Forall2 (fun r' r => rAction r' = rAction r ∧ (no_blank r → same_rule r' r)) out rules.
Proof.
  revert i out. induction rules as [|r rules IH]; intros i out; cbn [normalizeInputRules].
  { intros [= <-]. split; constructor. }
  intros (r' & Hr & H)%bind_Ok. rewrite wrap_Ok in Hr. apply normalizeInputRule_spec in Hr as (? & ? & ?).
  destruct (normalizeInputRules (S i) rules) as [l|] eqn:El; [|done]. injection H as <-.
  apply IH in El as [? ?]. split; by constructor.
Qed.
Lemma normalizeNotrack_spec i l out : normalizeNotrack i l = Ok out →
  Forall (fun e => (∃ b, wf_bytes 4 b ∧ ntAddr e = v4_string b) ∧ port_ok (ntPort e)) out.
Proof.
  revert i out. induction l as [|e l IH]; intros i out; cbn [normalizeNotrack].
  { intros [= <-]. constructor. }
  destruct (ParseAddrZone _) as [[[b|b] z]|] eqn:Ep; [|done..]. intros [Hp H]%guard_Ok.
  destruct (normalizeNotrack (S i) l) as [l'|] eqn:El; [|done]. injection H as <-.
  constructor; [|by eapply IH]. cbn. go_bool. split; [|unfold port_ok; lia]. exists b. split; [|done].
  unfold ParseAddrZone in Ep. destruct (addr_family _) as [[]|]; [| |done]; cbn [mbind option_bind] in Ep.
  - destruct (index_byte _ _); [case_bool_decide; [done|]|]; by destruct (parseIPv6 _).
  - destruct (parseIPv4 _) eqn:E4; [|done]. injection Ep as -> _. by apply parseIPv4_wf in E4.
Qed.

Lemma NormalizeNFTPlan_Ok p q :
  NormalizeNFTPlan p = Ok q → ∃ ip net,
    InterfaceName q = plan_iface p ∧ ifaceNameRe (plan_iface p) = true ∧
    ParseCIDR (plan_wg p) = Some (ip, net) ∧ is_Some (To4 (netIP net)) ∧ WireGuardCIDR q = NetString net ∧
    normalizePorts (PublicTCP p) = Ok (PublicTCP q) ∧ normalizePorts (PublicUDP p) = Ok (PublicUDP q) ∧
    normalizePorts (WireGuardTCP p) = Ok (WireGuardTCP q) ∧ normalizePorts (WireGuardUDP p) = Ok (WireGuardUDP q) ∧
    normalizeInputRules 0 (InputRules p) = Ok (InputRules q) ∧ normalizeNotrack 0 (NotrackUDP p) = Ok (NotrackUDP q).
Proof.
  unfold NormalizeNFTPlan. fold (plan_iface p) (plan_wg p). intros [Hi H]%guard_Ok.
  destruct (ParseCIDR (plan_wg p)) as [[ip net]|]; [|done]. destruct (To4 (netIP net)) eqn:E4; [|done].
  ok_inv. rewrite wrap_Ok in *. apply negb_false_iff in Hi. exists ip, net. cbn. rewrite E4. split_and!; eauto.
Qed.
Lemma NormalizeNFTPlan_normal p q : NormalizeNFTPlan p = Ok q → plan_normal q.
Proof.
  intros (ip & net & Hi & Hir & Hc & [b Hb] & Hw & H1 & H2 & H3 & H4 & H5 & H6)%NormalizeNFTPlan_Ok.
  constructor.
  - by rewrite Hi.
  - exists (net_prefix net). rewrite Hw. split; [by eapply NetString_canonical|].
    unfold net_prefix. rewrite Hb. split; [done|apply NetString_slash].
  - split_and!; by eapply normalizePorts_normal_out.
  - by apply normalizeInputRules_spec in H5 as [? _].
  - by eapply normalizeNotrack_spec.
Qed.
Lemma ifaceNameRe_nonempty s : ifaceNameRe s = true → s ≠ "".
Proof. by intros H ->. Qed.
Lemma plan_normal_defaults q : plan_normal q → plan_iface q = InterfaceName q ∧ plan_wg q = WireGuardCIDR q.
Proof.
  intros [Hi (w & Hw & _ & _) _ _ _]. unfold plan_iface, plan_wg.
  rewrite !bool_decide_eq_false_2; [done|by eapply canonical_nonempty|by apply ifaceNameRe_nonempty].
Qed.

(** A broad list of the normalized plan is the broad list of the plan. *)
Lemma broad_same iface s1 s2 proto ports out comment :
  normalizePorts ports = Ok out → (∀ a, sources_match s1 a = sources_match s2 a) →
  Forall2 same_rule (broad iface s1 proto out comment) (broad iface s2 proto ports comment).
Proof.
  intros [_ ->]%normalizePorts_Ok Hs. unfold broad. rewrite empty_ports.
  destruct (length ports =? 0)%nat; constructor; [|done]. split; [done|]. intros pk.
  rewrite !rule_matches_eq. cbn [rInterface SourceCIDRs rProtocol rPorts].
  by rewrite Hs, mem_ports, empty_ports.
Qed.
Lemma broad_rules_same p q : NormalizeNFTPlan p = Ok q → Forall2 same_rule (broad_rules q) (broad_rules p).
Proof.
  intros H. pose proof (NormalizeNFTPlan_normal _ _ H) as Hn. destruct (plan_normal_defaults _ Hn) as [Hi Hw].
  apply NormalizeNFTPlan_Ok in H as (ip & net & Hiq & _ & Hc & _ & Hwq & H1 & H2 & H3 & H4 & _).
  unfold broad_rules. rewrite Hi, Hw, Hiq, Hwq.
  assert (∀ a, sources_match [NetString net] a = sources_match [plan_wg p] a) as Hs.
  { intros a. unfold sources_match. cbn [length Nat.eqb existsb orb]. f_equal.
    rewrite (source_has_canonical _ _ _ (NetString_canonical _ _ _ Hc)).
    apply ParseCIDR_denotes in Hc as [Hd Ht]. unfold source_has. by rewrite Ht, Hd. }
  repeat apply Forall2_app; by apply broad_same.
Qed.

Lemma NormalizeNFTPlan_same p q :
  NormalizeNFTPlan p = Ok q → Forall no_blank (InputRules p) → Forall2 same_rule (chain q) (chain p).
Proof.
  intros H Hb. unfold chain. apply Forall2_app; [|by apply broad_rules_same].
  apply NormalizeNFTPlan_Ok in H as (ip & net & _ & _ & _ & _ & _ & _ & _ & _ & _ & H5 & _).
  apply normalizeInputRules_spec in H5 as [_ H5]. clear -H5 Hb.
  induction H5 as [|r' r l' l [_ Hs] _ IH]; constructor.
  - apply Hs. by apply Forall_cons in Hb as [? _].
  - apply IH. by apply Forall_cons in Hb as [_ ?].
Qed.

(** Normalization decides nothing: when no rule names a blank source, the
    normalized plan accepts exactly the connections the plan accepts. *)
Theorem normalization_keeps_meaning p q :
  NormalizeNFTPlan p = Ok q → Forall no_blank (InputRules p) → ∀ pk, plan_accepts q pk = plan_accepts p pk.
Proof. intros H Hb pk. apply verdict_ext. by apply NormalizeNFTPlan_same. Qed.

(** A normalized rule names no blank source, so every later normalization
    keeps the meaning as well. *)
Lemma canonical_not_blank c p : canonical c p → blank c = false.
Proof.
  intros H. unfold blank. rewrite (trim_canonical _ _ H). apply bool_decide_eq_false. by eapply canonical_nonempty.
Qed.
Lemma rule_normal_no_blank r : rule_normal r → no_blank r.
Proof.
  intros [_ _ _ _ _ Hs]. eapply Forall_impl; [exact Hs|]. intros c [p Hp]. by eapply canonical_not_blank.
Qed.
Lemma plan_normal_no_blank p : plan_normal p → Forall no_blank (InputRules p).
Proof. intros [_ _ _ Hr _]. eapply Forall_impl; [exact Hr|]. apply rule_normal_no_blank. Qed.

(** ** A normalized plan normalizes *)

Lemma normalizeSourceCIDR_canonical c p : canonical c p → ∃ c', normalizeSourceCIDR c = Ok c'.
Proof.
  intros [a Ha Hn|a n Ha Hn Hb Hm]; unfold normalizeSourceCIDR, ParseIP.
  - rewrite ParseAddr_text by done. cbn [fmap option_fmap option_map]. destruct (To4 _); eauto.
  - rewrite ParseAddr_prefix_None. cbn [fmap option_fmap option_map].
    rewrite (ParseCIDR_print _ a) by (eauto using ParseAddr_text, ParseAddr_no_slash).
    destruct a as [b|b]; cbn [As16 netIP].
    + rewrite To4_16 by (by apply wf_bytes_v4_prefix). rewrite (proj1 (mapped_prefix b)).
      rewrite To4_4 by (by apply mask_bytes_wf). destruct (_ && _); eauto.
    + rewrite To4_16 by done. cbn [native] in Hn. rewrite Hn. destruct (_ && _); eauto.
Qed.
Lemma normalizeSourceCIDRs_canonical l :
  Forall (fun c => ∃ p, canonical c p) l → ∃ out, normalizeSourceCIDRs l = Ok out.
Proof.
  intros Hl. unfold normalizeSourceCIDRs. assert (∀ seen, ∃ out, sources_loop seen l = Ok out) as H.
  { induction Hl as [|c l [p Hc] _ IH]; intros seen; cbn [sources_loop]; [eauto|].
    fold (blank c). rewrite (canonical_not_blank _ _ Hc), (trim_canonical _ _ Hc).
    destruct (normalizeSourceCIDR_canonical _ _ Hc) as [c' ->]. destruct (mem c' seen); [apply IH|].
    destruct (IH (c' :: seen)) as [out ->]. eauto. }
  destruct (H []) as [out ->]. eauto.
Qed.
Lemma normalizeInputRule_normal r : rule_normal r → ∃ r', normalizeInputRule r = Ok r'.
Proof.
  intros [Ha Hp Hi [Hs1 [Hs2 Hs3]] Hany Hs]. unfold normalizeInputRule.
  destruct (normalizeSourceCIDRs_canonical _ Hs) as [out Eo]. rewrite normalizePorts_normal, Eo by done.
  assert (mem (rAction r) [NFTActionAccept; NFTActionDrop] = true) as -> by (apply mem_spec; set_solver).
  assert (mem (rProtocol r) [NFTProtoTCP; NFTProtoUDP; NFTProtoAny] = true) as -> by (by apply mem_spec).
  assert (negb (rInterface r =?? "") && negb (ifaceNameRe (rInterface r)) = false) as ->.
  { destruct Hi as [->| ->]; [done|apply andb_false_r]. }
  assert ((rProtocol r =?? NFTProtoAny) && negb (length (rPorts r) =? 0)%nat = false) as Hx.
  { case_bool_decide; [|done]. by rewrite Hany. }
  cbn. rewrite Hx. cbn. eauto.
Qed.
Lemma normalizeInputRules_normal i l : Forall rule_normal l → ∃ l', normalizeInputRules i l = Ok l'.
Proof.
  intros Hl. revert i. induction Hl as [|r l Hr _ IH]; intros i; cbn [normalizeInputRules]; [eauto|].
  destruct (normalizeInputRule_normal r Hr) as [r' ->]. cbn. destruct (IH (S i)) as [l' ->]. eauto.
Qed.
Lemma normalizeNotrack_normal i l :
  Forall (fun e => (∃ b, wf_bytes 4 b ∧ ntAddr e = v4_string b) ∧ port_ok (ntPort e)) l →
  normalizeNotrack i l = Ok l.
Proof.
  intros Hl. revert i. induction Hl as [|[a p] l [(b & Hb & Ha) Hp] _ IH]; intros i; cbn [normalizeNotrack]; [done|].
  cbn in Ha, Hp. subst a. cbn [ntAddr ntPort].
  rewrite (trim_canonical _ (full (A4 b))) by (by apply (canonical_addr (A4 b))).
  rewrite (ParseAddrZone_plain _ (A4 b)) by (by apply ParseAddr_v4).
  assert ((p <? 1) || (65535 <? p) = false) as ->; [unfold port_ok in Hp; go_bool; lia|].
  cbn. by rewrite IH.
Qed.
Lemma plan_normal_normalizes q : plan_normal q → ∃ q', NormalizeNFTPlan q = Ok q'.
Proof.
  intros Hq. destruct (plan_normal_defaults q Hq) as [Ei Ew].
  destruct Hq as [Hi (w & Hw & Hw4 & Hsl) (P1 & P2 & P3 & P4) Hr Hnt].
  unfold NormalizeNFTPlan. fold (plan_iface q) (plan_wg q). rewrite Ei, Ew, Hi.
  pose proof (canonical_wf _ _ Hw) as (Hwf & _ & Hbits & _). rewrite (canonical_slash _ _ Hw Hsl).
  rewrite (ParseCIDR_print _ (pAddr w)) by (eauto using ParseAddr_text, ParseAddr_no_slash).
  destruct (pAddr w) as [b|b]; [|done]. cbn [netIP negb guard_err].
  rewrite To4_4 by (by apply mask_bytes_wf).
  rewrite !normalizePorts_normal by (apply P1 || apply P2 || apply P3 || apply P4).
  destruct (normalizeInputRules_normal 0 _ Hr) as [l ->]. rewrite normalizeNotrack_normal by done.
  cbn. eauto.
Qed.

(** ** The rendered rules

    A rule becomes one line per address family it names. *)

Definition with_sources (l : list string) (r : NFTInputRule) : NFTInputRule :=
  mkInput (rInterface r) l (rProtocol r) (rPorts r) (rAction r) (rComment r).
Definition family_rules (r : NFTInputRule) : list NFTInputRule :=
  match SourceCIDRs r with
  | [] => [r]
  | l =>
    (match List.filter is_v4 l with [] => [] | v4 => [with_sources v4 r] end) ++
    (match List.filter is_v6 l with [] => [] | v6 => [with_sources v6 r] end)
  end.

Lemma canonical_family c p : canonical c p → is_v4 c = Is4 (pAddr p) ∧ is_v6 c = negb (Is4 (pAddr p)).
Proof.
  intros H. pose proof (canonical_wf _ _ H) as (_ & Hn & _).
  assert (sourceAddr c = Some (pAddr p)) as E.
  { unfold sourceAddr. destruct (netip_canonical _ _ H) as [[-> _]|(-> & Ha & _)]; [done|].
    by rewrite (ParseAddrZone_plain _ _ Ha). }
  unfold is_v4, is_v6. rewrite E. destruct (pAddr p) as [b|b]; [done|].
  cbn [native Is4 Is4In6] in *. unfold mapped in Hn. by rewrite Hn.
Qed.
Lemma filter_all {A} (f : A → bool) l : (∀ x, x ∈ l → f x = true) → List.filter f l = l.
Proof.
  induction l as [|x l IH]; intros H; cbn [List.filter]; [done|].
  rewrite (H x) by left. f_equal. apply IH. intros y Hy. apply H. by right.
Qed.
Lemma filter_none {A} (f : A → bool) l : (∀ x, x ∈ l → f x = false) → List.filter f l = [].
Proof.
  induction l as [|x l IH]; intros H; cbn [List.filter]; [done|].
  rewrite (H x) by left. apply IH. intros y Hy. apply H. by right.
Qed.

Section rendered.
Context `{Quote}.

Definition line_of (rule : NFTInputRule) (sourceExpr : string) : string :=
  join " " (
    (if rInterface rule =?? "" then [] else ["iifname " +:+ quote (rInterface rule)]) ++
    (if sourceExpr =?? "" then [] else [sourceExpr]) ++
    (if rProtocol rule =?? NFTProtoAny then []
     else if (length (rPorts rule) =? 0)%nat then ["meta l4proto " +:+ rProtocol rule]
     else [rProtocol rule +:+ " dport { " +:+ joinPorts (rPorts rule) +:+ " }"]) ++
    [rAction rule] ++
    (if rComment rule =?? "" then [] else ["comment"; quote (rComment rule)])).
Lemma render_line_of r : renderInputRule r =
  map (line_of r) (match inputSourceExprs (SourceCIDRs r) with [] => [""] | l => l end).
Proof. done. Qed.

(** Every family rule renders as one line, and a rule renders as the lines of
    its family rules. *)
Lemma render_families r :
  rule_normal r →
  renderInputRule r = flat_map renderInputRule (family_rules r) ∧
  Forall (fun f => ∃ line, renderInputRule f = [line]) (family_rules r).
Proof.
  intros [_ _ _ _ _ Hs]. unfold family_rules. destruct (SourceCIDRs r) as [|s0 l0] eqn:Es.
  { cbn [flat_map]. rewrite app_nil_r. split; [done|]. constructor; [|done].
    rewrite render_line_of, Es. cbn. eauto. }
  set (l := s0 :: l0) in *. rewrite Forall_forall in Hs.
  set (v4 := List.filter is_v4 l). set (v6 := List.filter is_v6 l).
  assert (List.filter is_v4 v4 = v4 ∧ List.filter is_v6 v4 = []) as [F1 F2].
  { split; [apply filter_all|apply filter_none]; intros x [Hx E]%list_elem_of_In%filter_In; [done|].
    apply list_elem_of_In in Hx. destruct (Hs x Hx) as [p Hp]. destruct (canonical_family _ _ Hp) as [E4 ->].
    by rewrite <- E4, E. }
  assert (List.filter is_v4 v6 = [] ∧ List.filter is_v6 v6 = v6) as [F3 F4].
  { split; [apply filter_none|apply filter_all]; intros x [Hx E]%list_elem_of_In%filter_In; [|done].
    apply list_elem_of_In in Hx. destruct (Hs x Hx) as [p Hp]. destruct (canonical_family _ _ Hp) as [-> E6].
    rewrite E in E6. by destruct (Is4 _). }
  assert (v4 ++ v6 ≠ []) as Hne.
  { destruct (Hs s0) as [p Hp]; [left|]. destruct (canonical_family _ _ Hp) as [E4 E6].
    unfold v4, v6, l. cbn [List.filter]. rewrite E4, E6. destruct (Is4 _); [done|]. cbn [negb].
    intros E. apply app_eq_nil in E as [_ E]. done. }
  assert (inputSourceExprs l =
    (if (length v4 =? 0)%nat then [] else [sourceExpr "ip" v4]) ++
    (if (length v6 =? 0)%nat then [] else [sourceExpr "ip6" v6])) as El by done.
  rewrite render_line_of, Es. fold l. rewrite El. clearbody v4 v6. clear El.
  assert (v4 ≠ [] → renderInputRule (with_sources v4 r) = [line_of r (sourceExpr "ip" v4)]) as R4.
  { intros Hn. rewrite render_line_of. unfold inputSourceExprs. cbn [with_sources SourceCIDRs]. rewrite F1, F2.
    by destruct v4. }
  assert (v6 ≠ [] → renderInputRule (with_sources v6 r) = [line_of r (sourceExpr "ip6" v6)]) as R6.
  { intros Hn. rewrite render_line_of. unfold inputSourceExprs. cbn [with_sources SourceCIDRs]. rewrite F3, F4.
    by destruct v6. }
  destruct v4 as [|x4 v4], v6 as [|x6 v6]; cbn [app flat_map]; try done;
    rewrite ?R4, ?R6 by done; (split; [done|]); repeat constructor; eauto.
Qed.
End rendered.

Lemma sources_match_families l a :
  Forall (fun c => ∃ p, canonical c p) l →
  existsb (fun v => source_has v a) l =
  existsb (fun v => source_has v a) (List.filter is_v4 l) || existsb (fun v => source_has v a) (List.filter is_v6 l).
Proof.
  induction 1 as [|c l [p Hc] _ IH]; [done|]. destruct (canonical_family _ _ Hc) as [E4 E6].
  cbn [List.filter existsb]. rewrite E4, E6, IH. destruct (Is4 _); cbn [negb existsb].
  - by rewrite orb_assoc.
  - rewrite !orb_assoc. f_equal. apply orb_comm.
Qed.
Lemma rule_matches_sources l r pk : l ≠ [] → rule_matches (with_sources l r) pk =
  existsb (fun v => source_has v (pkSrc pk)) l && rule_matches (with_sources [] r) pk.
Proof.
  intros Hl. rewrite !rule_matches_eq. unfold sources_match. cbn [with_sources rInterface SourceCIDRs rProtocol rPorts].
  destruct l as [|x l]; [done|]. cbn [length Nat.eqb orb].
  rewrite andb_true_r, andb_assoc. f_equal. apply andb_comm.
Qed.
Lemma family_rules_match r pk :
  rule_normal r → existsb (fun f => rule_matches f pk) (family_rules r) = rule_matches r pk.
Proof.
  intros [_ _ _ _ _ Hs]. unfold family_rules. destruct (SourceCIDRs r) as [|s0 l0] eqn:Es.
  { cbn. apply orb_false_r. }
  rewrite <- Es in *. assert (r = with_sources (SourceCIDRs r) r) as Er by (by destruct r).
  rewrite Er at 3. rewrite rule_matches_sources, sources_match_families by (done || by rewrite Es).
  rewrite existsb_app, andb_orb_distrib_l. f_equal.
  - destruct (List.filter is_v4 (SourceCIDRs r)) as [|x l] eqn:E; [done|].
    cbn [existsb]. rewrite orb_false_r. by apply rule_matches_sources.
  - destruct (List.filter is_v6 (SourceCIDRs r)) as [|x l] eqn:E; [done|].
    cbn [existsb]. rewrite orb_false_r. by apply rule_matches_sources.
Qed.
Lemma family_rules_action r : Forall (fun f => rAction f = rAction r) (family_rules r).
Proof.
  unfold family_rules. destruct (SourceCIDRs r) as [|s l]; [by repeat constructor|].
  apply Forall_app. split; [destruct (List.filter is_v4 _)|destruct (List.filter is_v6 _)]; by repeat constructor.
Qed.
(** The lines decide what the rules decide. *)
Lemma verdict_families rules pk :
  Forall rule_normal rules → verdict (flat_map family_rules rules) pk = verdict rules pk.
Proof.
  induction 1 as [|r rules Hr _ IH]; [done|]. cbn [flat_map verdict].
  rewrite verdict_app, family_rules_match, IH by done. destruct (rule_matches r pk) eqn:E; [|done].
  pose proof (family_rules_match r pk Hr) as Hm. rewrite E in Hm.
  pose proof (family_rules_action r) as Ha. revert Hm Ha. generalize (family_rules r). clear.
  induction l as [|f l IH]; [done|]. cbn [existsb verdict]. intros Hm [Hf Ha]%Forall_cons.
  destruct (rule_matches f pk); [by rewrite Hf|]. by apply IH.
Qed.

(** ** No value adds a line *)

Definition one_line (s : string) : Prop := newline ∉ bytes_of s.
Lemma one_line_app s t : one_line s → one_line t → one_line (s +:+ t).
Proof. unfold one_line. rewrite bytes_of_app. set_solver. Qed.
Lemma one_line_join sep l : one_line sep → Forall one_line l → one_line (join sep l).
Proof.
  intros Hs Hl [H|(s & Hin & H)]%concat_bytes; [done|]. rewrite Forall_forall in Hl. by apply (Hl s Hin).
Qed.
Lemma one_line_dec n : one_line (dec_of_Z n).
Proof.
  destruct n as [|p|p]; try by intros H%dec_of_N_digit.
  apply (one_line_app "-"); [by intros H%list_elem_of_singleton|]. by intros H%dec_of_N_digit.
Qed.
Lemma one_line_ports ps : one_line (joinPorts ps).
Proof.
  apply one_line_join; [unfold one_line; cbn; set_solver|]. apply Forall_map, Forall_true. intros. apply one_line_dec.
Qed.
Lemma one_line_canonical c p : canonical c p → one_line c.
Proof. intros Hc H. eapply canonical_bytes in H as [H _]; [|done]. change (code newline) with 10 in H. lia. Qed.
Lemma one_line_iface s : ifaceNameRe s = true → one_line s.
Proof.
  intros H Hin. apply andb_true_iff in H as [_ H]. rewrite forallb_elem_of in H. by apply H in Hin.
Qed.
Lemma one_line_dq s : one_line s → one_line (dq s).
Proof.
  intros Hs. unfold dq. apply (one_line_app (str1 (byte_of 34)) (s +:+ str1 (byte_of 34))).
  - by intros H%list_elem_of_singleton.
  - apply one_line_app; [done|]. by intros H%list_elem_of_singleton.
Qed.
(** Decides [one_line] of a literal. *)
Lemma one_line_dec_true s : bool_decide (newline ∉ bytes_of s) = true → one_line s.
Proof. by intros H%bool_decide_eq_true. Qed.
Ltac literal := apply one_line_dec_true; vm_compute; reflexivity.
Ltac one_line :=
  lazymatch goal with
  | H : one_line ?s |- one_line ?s => exact H
  | H : ifaceNameRe ?s = true |- one_line ?s => exact (one_line_iface s H)
  | |- one_line (joinPorts _) => apply one_line_ports
  | |- one_line (dec_of_Z _) => apply one_line_dec
  | |- one_line (quote _) => apply quote_no_newline
  | |- one_line (dq _) => apply one_line_dq; one_line
  | |- one_line (String.append _ _) => apply one_line_app; one_line
  | |- one_line _ => literal
  end.

Section lines.
Context `{QuoteLaws}.

Lemma one_line_expr f l : one_line f → Forall one_line l → one_line (sourceExpr f l).
Proof.
  intros Hf Hl. unfold sourceExpr. destruct l as [|x [|y l]].
  - one_line.
  - apply Forall_inv in Hl. one_line.
  - apply one_line_app; [done|]. apply one_line_app; [literal|]. apply one_line_app; [|literal].
    apply one_line_join; [literal|done].
Qed.
Lemma one_line_exprs l : Forall (fun c => ∃ p, canonical c p) l → Forall one_line (inputSourceExprs l).
Proof.
  intros Hl. assert (∀ f, Forall one_line (List.filter f l)) as Hf.
  { intros f. rewrite Forall_forall in *. intros x [Hx _]%list_elem_of_In%filter_In.
    apply list_elem_of_In in Hx. destruct (Hl x Hx) as [p Hp]. by eapply one_line_canonical. }
  unfold inputSourceExprs. apply Forall_app.
  split; (destruct (_ =? 0)%nat; constructor; [|done]); apply one_line_expr; (literal || apply Hf).
Qed.
Lemma one_line_rule r : rule_normal r → Forall one_line (renderInputRule r).
Proof.
  intros [Ha Hp Hi _ _ Hs]. rewrite render_line_of. apply one_line_exprs in Hs.
  assert (one_line (rProtocol r)) as Hpl.
  { repeat (apply elem_of_cons in Hp as [->|Hp]; [literal|]). by apply elem_of_nil in Hp. }
  assert (one_line (rAction r)) as Hal by (destruct Ha as [->| ->]; literal).
  assert (∀ e, one_line e → one_line (line_of r e)) as Hline.
  { intros e He. apply one_line_join; [literal|]. rewrite !Forall_app. split_and!.
    - case_bool_decide; repeat constructor. one_line.
    - case_bool_decide; by repeat constructor.
    - case_bool_decide; [constructor|]. destruct (_ =? 0)%nat; repeat constructor; one_line.
    - by repeat constructor.
    - case_bool_decide; repeat constructor; one_line. }
  destruct (inputSourceExprs _) as [|e l].
  - repeat constructor. apply Hline. literal.
  - apply Forall_map. eapply Forall_impl; [exact Hs|]. done.
Qed.
Lemma one_line_broad p public proto ports comment :
  plan_normal p → one_line proto → one_line comment → Forall one_line (broad_line p public proto ports comment).
Proof.
  intros [Hi _ _ _ _] Hp Hc. unfold broad_line. destruct (_ =? 0)%nat; constructor; [|done].
  destruct public; one_line.
Qed.

Lemma one_line_nft p : plan_normal p → Forall one_line (nft_lines p).
Proof.
  intros Hp. pose proof Hp as [Hi (w & Hw & _) _ Hr Hn]. apply one_line_canonical in Hw.
  assert (Forall (fun e => one_line (ntAddr e)) (NotrackUDP p)) as Hn'.
  { eapply Forall_impl; [exact Hn|]. intros e [(b & Hb & ->) _].
    eapply one_line_canonical. by apply (canonical_addr (A4 b)). }
  unfold nft_lines. rewrite !Forall_app. split_and!.
  - repeat (constructor; [one_line|]). constructor.
  - apply Forall_map, Forall_flat_map. eapply Forall_impl; [exact Hr|]. intros r Hr'.
    eapply Forall_impl; [by apply one_line_rule|]. intros l Hl. cbn. one_line.
  - apply one_line_broad; [done|literal..].
  - apply one_line_broad; [done|literal..].
  - apply one_line_broad; [done|literal..].
  - apply one_line_broad; [done|literal..].
  - repeat (constructor; [literal|]). constructor.
  - destruct (_ =? 0)%nat; [constructor|]. rewrite !Forall_app. split_and!.
    all: try (repeat (constructor; [literal|]); constructor).
    all: apply Forall_map; eapply Forall_impl; [exact Hn'|]; intros e He; cbn beta in He |- *; one_line.
  - repeat (constructor; [literal|]). constructor.
Qed.

(** Injection: whatever names, sources and comments a plan carries, the
    ruleset's lines are the lines written for the normalized plan, so no
    value ends a statement or adds one. *)
Theorem ruleset_lines p text :
  GenerateNFTPlan p = Ok text →
  ∃ q, NormalizeNFTPlan p = Ok q ∧ split text newline = nft_lines q ++ [""].
Proof.
  unfold GenerateNFTPlan. intros (q & Hq & Ht)%bind_Ok.
  assert (text = join_lines (nft_lines q)) as -> by congruence. exists q. split; [done|].
  rewrite <- (str_app_nil_r (join_lines _)). apply split_join_lines; [|by intros ?%elem_of_nil].
  apply one_line_nft. by eapply NormalizeNFTPlan_normal.
Qed.
End lines.

(** ** Witnesses *)

(** Quoting that escapes every byte outside the plain set. *)
Definition quote_byte (c : ascii) : list ascii :=
  if iface_byte c || (c =?? " "%char) then [c]
  else bytes_of "\x" ++ [Sha.hex_digit (Sha.shr 4 (code c)); Sha.hex_digit (Z.land (code c) 15)].
Definition quote_simple (s : string) : string := dq (of_bytes (flat_map quote_byte (bytes_of s))).
Definition simple_quote : Quote := {| quote := quote_simple |}.
Lemma simple_quote_laws : @QuoteLaws simple_quote.
Proof.
  split; cbn.
  - intros s [_ Hs]%andb_true_iff. unfold quote_simple, dq. f_equal. f_equal.
    rewrite <- (of_bytes_of s) at 2. f_equal. rewrite forallb_elem_of in Hs. revert Hs.
    generalize (bytes_of s). intros l Hl. induction l as [|c l IH]; [done|].
    cbn [flat_map]. rewrite IH by (intros x Hx; apply Hl; by right). unfold quote_byte. by rewrite (Hl c) by left.
  - intros s. apply one_line_dq. unfold one_line. rewrite bytes_of_of.
    rewrite list_elem_of_In, in_flat_map. intros (c & _ & Hc). unfold quote_byte in Hc.
    destruct (iface_byte c || (c =?? " "%char)) eqn:E.
    + destruct Hc as [->|[]]. done.
    + apply list_elem_of_In in Hc. rewrite elem_of_app in Hc. destruct Hc as [Hc|Hc].
      * cbn in Hc. set_solver.
      * assert (∀ n, Sha.hex_digit n ≠ newline) as Hd.
        { intros n En. pose proof (Sha.hex_digit_alphabet n) as Ha. by rewrite En in Ha. }
        apply elem_of_cons in Hc as [Hc|Hc]; [by apply (Hd _ (eq_sym Hc))|].
        apply list_elem_of_singleton in Hc. by apply (Hd _ (eq_sym Hc)).
Qed.

Definition ex_plan : NFTPlan :=
  mkNFTPlan "" "10.66.0.9/24" [443; 80; 443] [] [9100] []
    [mkInput "wg0" [] "any" [] "accept" " overlay ";
     mkInput "" ["2001:db8::1/32"; " 192.0.2.7/32"; "192.0.2.7"; "::ffff:198.51.100.0/120"] "tcp" [22; 22] "drop" "bad"]
    [mkNotrack " 192.0.2.1 " 7000].
Definition ex_normal : NFTPlan :=
  mkNFTPlan "eth0" "10.66.0.0/24" [80; 443] [] [9100] []
    [mkInput "wg0" [] "any" [] "accept" "overlay";
     mkInput "" ["192.0.2.7"; "198.51.100.0/24"; "2001:db8::/32"] "tcp" [22] "drop" "bad"]
    [mkNotrack "192.0.2.1" 7000].
Example ex_normalizes : NormalizeNFTPlan ex_plan = Ok ex_normal.
Proof. vm_compute. reflexivity. Qed.
Example ex_rendered : renderInputRule (H := simple_quote) <$> InputRules ex_normal =
  [["iifname " +:+ dq "wg0" +:+ " accept comment " +:+ dq "overlay"];
   ["ip saddr { 192.0.2.7, 198.51.100.0/24 } tcp dport { 22 } drop comment " +:+ dq "bad";
    "ip6 saddr 2001:db8::/32 tcp dport { 22 } drop comment " +:+ dq "bad"]].
Proof. vm_compute. reflexivity. Qed.

Lemma normalization_keeps_meaning_witness :
  NormalizeNFTPlan ex_plan = Ok ex_normal ∧
  plan_accepts ex_normal (mkPacket "eth0" (A4 [198; 51; 100; 7]) "tcp" 22) =
  plan_accepts ex_plan (mkPacket "eth0" (A4 [198; 51; 100; 7]) "tcp" 22).
Proof.
  refine (conj ex_normalizes (normalization_keeps_meaning ex_plan ex_normal ex_normalizes _ _)).
  apply (bool_decide_unpack _). vm_compute. exact I.
Defined.
Lemma ruleset_lines_witness :
  ∃ q, NormalizeNFTPlan ex_plan = Ok q ∧
    split (join_lines (@nft_lines simple_quote ex_normal)) newline = @nft_lines simple_quote q ++ [""].
Proof.
  apply (@ruleset_lines simple_quote simple_quote_laws). unfold GenerateNFTPlan. rewrite ex_normalizes. reflexivity.
Defined.
