(* ===== verification/NetGuard.v ===== *)
(** * NetGuard: lowering security groups to the guard ruleset

    [internal/netguard]: the compiler ([compile.go]) with the conversion of a
    legacy baseline ([convert.go]).  The guard model has its own meaning: for a
    node, the beacon companion and the trusted zones accept first, then the
    node's overrides and the attached groups decide in the order they were
    written, first match wins, and what nothing matches is dropped
    ([guard_accepts]).  The compiler's theorem is that the plan it returns means
    that, although it moves the legacy shaped allows into port lists that are
    rendered last.

    The constants of the SDK's model package are parameters; the protocol
    names are the ones nftables uses. *)

From Stdlib Require Import ZArith Lia Ascii Btauto.
From stdpp Require Import gmap strings sorting.
From S2P Require Import Prelude GoStr IpAddr IpNet NetPolicy Nft.

Local Open Scope Z_scope.

Class GuardSdk `{NetSdk} := {
  NetRefZone : string;
  GuardZonePublic : string; GuardZoneWireGuard : string; GuardZoneLoopback : string;
  GuardProtoICMP : string; GuardProtoICMPv6 : string;
}.
Class GuardSdkLaws `{GuardSdk} := {
  guard_protocols : NetProtoTCP = NFTProtoTCP ∧ NetProtoUDP = NFTProtoUDP ∧ NetProtoAny = NFTProtoAny;
  guard_actions : NetRuleAllow ≠ NetRuleDeny;
  guard_kinds : NoDup [""; NetRefAny; NetRefCIDR; NetRefNode; NetRefZone; NetRefDomain; NetRefGroup];
  guard_zones : NoDup [GuardZonePublic; GuardZoneWireGuard; GuardZoneLoopback];
}.

Record GuardPortRange := mkRange { From : Z; To : Z }.
Record GuardEndpoint := mkGuardEnd {
  geKind : string; geNodeID : string; geCIDR : string; geGroupID : string; geZoneID : string }.
Record GuardRule := mkGuardRule {
  gID : string; gComment : string; gAction : string; gDirection : string; gProtocol : string;
  gPorts : list GuardPortRange; gRemote : GuardEndpoint; gDisabled : bool; gLog : bool }.
Record SecurityGroup := mkSecurityGroup { sgID : string; sgRules : list GuardRule }.
Record NodeGuardBinding := mkBinding {
  bNodeID : string; GroupIDs : list string; ZoneIDs : list string; Overrides : list GuardRule; Managed : bool }.
Record GuardZone := mkZone { zID : string; zInterfaces : list string; zCIDRs : list string }.
Record GuardNode := mkGuardNode { WireGuardIP : string; PublicIP : string }.
Record BeaconCompanion := mkBeacon { Bind : string; bcPort : Z; Allow : list string }.
(** [Resolve] and [GroupMembers] may be nil functions. *)
Record CompileInput := mkCompile {
  Binding : NodeGuardBinding; ciGroups : list SecurityGroup; Zones : gmap string GuardZone;
  Resolve : option (string → option GuardNode); GroupMembers : option (string → option (list string));
  Beacon : option BeaconCompanion }.

Inductive guardError :=
| ErrNodeUnmanaged | ErrResolverRequired | ErrBeaconPort (p : Z) | ErrTrustedZoneNotFound (id : string)
| ErrPublicZoneTrusted | ErrZoneEmpty (id : string) | ErrRule (id : string) (e : guardError)
| ErrRuleDirection (d : string) | ErrInvalidAction (a : string) | ErrICMP (p : string) | ErrInvalidProtocol (p : string)
| ErrLog | ErrInvalidRange (from to : Z) | ErrInvertedRange (from to : Z) | ErrTooManyPorts | ErrAnyHasPorts
| ErrCIDRRequired | ErrRemoteNodeNotFound (id : string) | ErrRemoteNodeNoAddress (id : string)
| ErrRemoteZoneNotFound (id : string) | ErrZoneManyInterfaces (id : string) | ErrDomainRemote
| ErrNoMembers | ErrRemoteGroupNotFound (id : string) | ErrRemoteKind (k : string)
| ErrPlan (e : nftError).

Definition defaultInterface : string := "eth0".
Definition defaultWireGuardCIDR : string := "10.66.0.0/24".
Definition MaxExpandedPortsPerRule : Z := 1024.
Definition beaconCompanionComment : string := "lattice beacon".

(** ** Ports *)

Definition range_ports (r : GuardPortRange) : list Z := seqZ (From r) (To r - From r + 1).
Fixpoint check_ranges (total : Z) (ranges : list GuardPortRange) : res guardError unit :=
  match ranges with
  | [] => Ok tt
  | r :: ranges =>
    fail_if (From r <? 1) || (65535 <? From r) || (To r <? 1) || (65535 <? To r)
      with ErrInvalidRange (From r) (To r);
    fail_if To r <? From r with ErrInvertedRange (From r) (To r);
    let total := total + (To r - From r + 1) in
    fail_if MaxExpandedPortsPerRule <? total with ErrTooManyPorts;
    check_ranges total ranges
  end.
(** The second pair of loops collects each port once, in order. *)
Definition ExpandPortRanges (ranges : list GuardPortRange) : res guardError (list Z) :=
  match ranges with
  | [] => Ok []
  | _ => check_ranges 0 ranges ≫= (fun _ => Ok (sort_ints (dedup (flat_map range_ports ranges))))
  end.

Fixpoint ranges_go (last : GuardPortRange) (out : list GuardPortRange) (l : list Z) : list GuardPortRange :=
  match l with
  | [] => out ++ [last]
  | p :: l =>
    if p =? To last then ranges_go last out l
    else if p =? To last + 1 then ranges_go (mkRange (From last) p) out l
    else ranges_go (mkRange p p) (out ++ [last]) l
  end.
Definition PortRanges (ports : list Z) : list GuardPortRange :=
  match sort_ints (List.filter (fun p => (1 <=? p) && (p <=? 65535)) ports) with
  | [] => []
  | p :: l => ranges_go (mkRange p p) [] l
  end.

(** ** Sources *)

Definition hostCIDR (addr : string) : string :=
  let host := trim_space addr in
  if host =?? "" then "" else
  match (if mem "/"%char (bytes_of host) then (fun r => IPString r.1) <$> ParseCIDR host else Some host) with
  | None => ""
  | Some host =>
    match ParseIP host with
    | None => ""
    | Some parsed => IPString parsed +:+ (match To4 parsed with None => "/128" | Some _ => "/32" end)
    end
  end.
Definition nodeSources (node : GuardNode) : list string :=
  List.filter (fun h => negb (h =?? "")) (map hostCIDR [WireGuardIP node; PublicIP node]).

Section compile.
Context `{GuardSdk}.

Definition groupSources (resolve : string → option GuardNode) (members : list string) : list string :=
  sort_strings (dedup (flat_map (fun m => match resolve m with Some n => nodeSources n | None => [] end) members)).

Definition ruleSource (rule : GuardRule) (resolve : string → option GuardNode) (inp : CompileInput)
  : res guardError (list string * string) :=
  let remote := gRemote rule in
  if (geKind remote =?? NetRefAny) || (geKind remote =?? "") then Ok ([], "")
  else if geKind remote =?? NetRefCIDR then
    fail_if geCIDR remote =?? "" with ErrCIDRRequired; Ok ([geCIDR remote], "")
  else if geKind remote =?? NetRefNode then
    match resolve (geNodeID remote) with
    | None => Err (ErrRemoteNodeNotFound (geNodeID remote))
    | Some node =>
      fail_if (length (nodeSources node) =? 0)%nat with ErrRemoteNodeNoAddress (geNodeID remote);
      Ok (nodeSources node, "")
    end
  else if geKind remote =?? NetRefZone then
    match Zones inp !! geZoneID remote with
    | None => Err (ErrRemoteZoneNotFound (geZoneID remote))
    | Some zone =>
      if negb (length (zCIDRs zone) =? 0)%nat then Ok (zCIDRs zone, "") else
      match zInterfaces zone with
      | [iface] => Ok ([], iface)
      | [] => Err (ErrZoneEmpty (zID zone))
      | _ => Err (ErrZoneManyInterfaces (zID zone))
      end
    end
  else if geKind remote =?? NetRefDomain then Err ErrDomainRemote
  else if geKind remote =?? NetRefGroup then
    match GroupMembers inp with
    | None => Err ErrNoMembers
    | Some groupMembers =>
      match groupMembers (geGroupID remote) with
      | None => Err (ErrRemoteGroupNotFound (geGroupID remote))
      | Some members => Ok (groupSources resolve members, "")
      end
    end
  else Err (ErrRemoteKind (geKind remote)).

(** ** Rules *)

Inductive bucket := BPublicTCP | BPublicUDP | BWireGuardTCP | BWireGuardUDP.
Definition fastPathBucket (rule : GuardRule) (ports : list Z) : option bucket :=
  if negb (gAction rule =?? NetRuleAllow) || (length ports =? 0)%nat then None
  else if negb (geKind (gRemote rule) =?? NetRefZone) then None
  else if geZoneID (gRemote rule) =?? GuardZonePublic then
    if gProtocol rule =?? NetProtoTCP then Some BPublicTCP
    else if gProtocol rule =?? NetProtoUDP then Some BPublicUDP else None
  else if geZoneID (gRemote rule) =?? GuardZoneWireGuard then
    if gProtocol rule =?? NetProtoTCP then Some BWireGuardTCP
    else if gProtocol rule =?? NetProtoUDP then Some BWireGuardUDP else None
  else None.

Definition add_rule (r : NFTInputRule) (p : NFTPlan) : NFTPlan :=
  mkNFTPlan (InterfaceName p) (WireGuardCIDR p) (PublicTCP p) (PublicUDP p) (WireGuardTCP p) (WireGuardUDP p)
    (InputRules p ++ [r]) (NotrackUDP p).
Definition add_ports (b : bucket) (ports : list Z) (p : NFTPlan) : NFTPlan :=
  let add b' l := match b, b' with
    | BPublicTCP, BPublicTCP | BPublicUDP, BPublicUDP | BWireGuardTCP, BWireGuardTCP
    | BWireGuardUDP, BWireGuardUDP => l ++ ports | _, _ => l end in
  mkNFTPlan (InterfaceName p) (WireGuardCIDR p) (add BPublicTCP (PublicTCP p)) (add BPublicUDP (PublicUDP p))
    (add BWireGuardTCP (WireGuardTCP p)) (add BWireGuardUDP (WireGuardUDP p)) (InputRules p) (NotrackUDP p).

Definition nftAction (action : string) : string := if action =?? NetRuleDeny then NFTActionDrop else NFTActionAccept.
Definition ruleComment (rule : GuardRule) : string := if gComment rule =?? "" then gID rule else gComment rule.

Definition lowerRule (plan : NFTPlan) (rule : GuardRule) (resolve : string → option GuardNode) (inp : CompileInput)
    (fastPath : bool) : res guardError NFTPlan :=
  fail_if negb (gDirection rule =?? NetDirIngress) with ErrRuleDirection (gDirection rule);
  fail_if negb (mem (gAction rule) [NetRuleAllow; NetRuleDeny]) with ErrInvalidAction (gAction rule);
  (if mem (gProtocol rule) [NetProtoTCP; NetProtoUDP; NetProtoAny] then
    fail_if gLog rule with ErrLog;
    match ExpandPortRanges (gPorts rule) with
    | Err e => Err e
    | Ok ports =>
      fail_if (gProtocol rule =?? NetProtoAny) && negb (length ports =? 0)%nat with ErrAnyHasPorts;
      match fastPathBucket rule ports with
      | Some fast =>
        if fastPath then Ok (add_ports fast ports plan) else
        if geZoneID (gRemote rule) =?? GuardZonePublic then
          Ok (add_rule (mkInput (InterfaceName plan) [] (gProtocol rule) ports NFTActionAccept (ruleComment rule)) plan)
        else
          Ok (add_rule (mkInput "" [WireGuardCIDR plan] (gProtocol rule) ports NFTActionAccept (ruleComment rule)) plan)
      | None =>
        match ruleSource rule resolve inp with
        | Err e => Err e
        | Ok (sources, iface) =>
          if (geKind (gRemote rule) =?? NetRefGroup) && (length sources =? 0)%nat then Ok plan
          else Ok (add_rule (mkInput iface sources (gProtocol rule) ports (nftAction (gAction rule)) (ruleComment rule))
                     plan)
        end
      end
    end
  else if mem (gProtocol rule) [GuardProtoICMP; GuardProtoICMPv6] then Err (ErrICMP (gProtocol rule))
  else Err (ErrInvalidProtocol (gProtocol rule))).

Fixpoint lowerRules (plan : NFTPlan) (rules : list GuardRule) (resolve : string → option GuardNode)
    (inp : CompileInput) (fastPath : bool) : res guardError NFTPlan :=
  match rules with
  | [] => Ok plan
  | rule :: rules =>
    if gDisabled rule then lowerRules plan rules resolve inp fastPath else
    match lowerRule plan rule resolve inp fastPath with
    | Err e => Err (ErrRule (gID rule) e)
    | Ok plan => lowerRules plan rules resolve inp fastPath
    end
  end.

Definition trustedZoneRules (zone : GuardZone) : res guardError (list NFTInputRule) :=
  fail_if ((length (zInterfaces zone) =? 0) && (length (zCIDRs zone) =? 0))%nat with ErrZoneEmpty (zID zone);
  Ok (map (fun iface => mkInput iface [] NFTProtoAny [] NFTActionAccept ("trusted zone " +:+ zID zone))
        (zInterfaces zone) ++
      (if (length (zCIDRs zone) =? 0)%nat then []
       else [mkInput "" (zCIDRs zone) NFTProtoAny [] NFTActionAccept ("trusted zone " +:+ zID zone)])).
Fixpoint trustedZones (zones : gmap string GuardZone) (ids : list string) : res guardError (list NFTInputRule) :=
  match ids with
  | [] => Ok []
  | zoneID :: ids =>
    match zones !! zoneID with
    | None => Err (ErrTrustedZoneNotFound zoneID)
    | Some zone =>
      fail_if zoneID =?? GuardZonePublic with ErrPublicZoneTrusted;
      rules ← trustedZoneRules zone;
      app rules <$> trustedZones zones ids
    end
  end.

Definition zoneInterface (zones : gmap string GuardZone) (id fallback : string) : string :=
  match zInterfaces <$> zones !! id with Some (iface :: _) => iface | _ => fallback end.
Definition zoneCIDR (zones : gmap string GuardZone) (id fallback : string) : string :=
  match zCIDRs <$> zones !! id with Some (cidr :: _) => cidr | _ => fallback end.
Definition ZoneMap (zones : list GuardZone) : gmap string GuardZone :=
  fold_left (fun out zone => <[zID zone := zone]> out) zones ∅.

Definition beaconRules (b : BeaconCompanion) : list NFTInputRule :=
  if (length (Allow b) =? 0)%nat then []
  else [mkInput "" (Allow b) NFTProtoUDP [bcPort b] NFTActionAccept beaconCompanionComment].
Definition orderedRules (inp : CompileInput) : list GuardRule :=
  Overrides (Binding inp) ++ flat_map sgRules (ciGroups inp).
Definition enabledDeny (rule : GuardRule) : bool := negb (gDisabled rule) && (gAction rule =?? NetRuleDeny).

Definition Compile (inp : CompileInput) : res guardError NFTPlan :=
  fail_if negb (Managed (Binding inp)) with ErrNodeUnmanaged;
  match Resolve inp with
  | None => Err ErrResolverRequired
  | Some resolve =>
    match (match Beacon inp with
           | None => Ok ([], [])
           | Some b =>
             fail_if (bcPort b <? 1) || (65535 <? bcPort b) with ErrBeaconPort (bcPort b);
             Ok (beaconRules b, [mkNotrack (Bind b) (bcPort b)])
           end) with
    | Err e => Err e
    | Ok (beacon, notrack) =>
      match trustedZones (Zones inp) (ZoneIDs (Binding inp)) with
      | Err e => Err e
      | Ok trusted =>
        let plan := mkNFTPlan (zoneInterface (Zones inp) GuardZonePublic defaultInterface)
          (zoneCIDR (Zones inp) GuardZoneWireGuard defaultWireGuardCIDR) [] [] [] [] (beacon ++ trusted) notrack in
        let ordered := orderedRules inp in
        let fastPath := negb (existsb enabledDeny ordered) in
        plan ← lowerRules plan ordered resolve inp fastPath;
        wrap_err ErrPlan (NormalizeNFTPlan plan)
      end
    end
  end.
Definition CompileRuleset `{Quote} (inp : CompileInput) : res guardError string :=
  plan ← Compile inp; wrap_err ErrPlan (GenerateNFTPlan plan).
End compile.

(** ** The meaning of the guard model *)

(** The address a node record gives, without its prefix length. *)
Definition host_addr (s : string) : option addr :=
  let host := trim_space s in
  Unmap <$> (A16 <$> (if mem "/"%char (bytes_of host) then fst <$> ParseCIDR host else ParseIP host)).

Section meaning.
Context `{GuardSdk}.

Definition node_has (node : GuardNode) (a : addr) : bool :=
  (host_addr (WireGuardIP node) =?? Some a) || (host_addr (PublicIP node) =?? Some a).
Definition in_range_port (p : Z) (r : GuardPortRange) : bool := (From r <=? p) && (p <=? To r).
Definition service_matches (rule : GuardRule) (pk : packet) : bool :=
  (gProtocol rule =?? NetProtoAny) ||
  ((gProtocol rule =?? pkProto pk) &&
   ((length (gPorts rule) =? 0)%nat || existsb (in_range_port (pkPort pk)) (gPorts rule))).

(** The legacy shape, an allow of tcp or udp ports from the public or the
    WireGuard zone, means the node's public interface, or the node's WireGuard
    range. *)
Definition legacy_shape (rule : GuardRule) : bool :=
  (gAction rule =?? NetRuleAllow) && negb (length (gPorts rule) =? 0)%nat && (geKind (gRemote rule) =?? NetRefZone) &&
  ((geZoneID (gRemote rule) =?? GuardZonePublic) || (geZoneID (gRemote rule) =?? GuardZoneWireGuard)) &&
  ((gProtocol rule =?? NetProtoTCP) || (gProtocol rule =?? NetProtoUDP)).
Definition zone_matches (zone : GuardZone) (pk : packet) : bool :=
  if (length (zCIDRs zone) =? 0)%nat then mem (pkIface pk) (zInterfaces zone)
  else existsb (fun c => source_has c (pkSrc pk)) (zCIDRs zone).
Definition remote_matches (inp : CompileInput) (rule : GuardRule) (pk : packet) : bool :=
  let remote := gRemote rule in
  let resolve id := Resolve inp ≫= (fun f => f id) in
  let node_matches id := match resolve id with Some node => node_has node (pkSrc pk) | None => false end in
  if legacy_shape rule then
    if geZoneID remote =?? GuardZonePublic
    then pkIface pk =?? zoneInterface (Zones inp) GuardZonePublic defaultInterface
    else source_has (zoneCIDR (Zones inp) GuardZoneWireGuard defaultWireGuardCIDR) (pkSrc pk)
  else if (geKind remote =?? NetRefAny) || (geKind remote =?? "") then true
  else if geKind remote =?? NetRefCIDR then source_has (geCIDR remote) (pkSrc pk)
  else if geKind remote =?? NetRefNode then node_matches (geNodeID remote)
  else if geKind remote =?? NetRefZone then
    match Zones inp !! geZoneID remote with Some zone => zone_matches zone pk | None => false end
  else if geKind remote =?? NetRefGroup then
    existsb node_matches (default [] (GroupMembers inp ≫= (fun f => f (geGroupID remote))))
  else false.
Definition guard_matches (inp : CompileInput) (pk : packet) (rule : GuardRule) : bool :=
  service_matches rule pk && remote_matches inp rule pk.

Definition trusted_matches (zone : GuardZone) (pk : packet) : bool :=
  mem (pkIface pk) (zInterfaces zone) || existsb (fun c => source_has c (pkSrc pk)) (zCIDRs zone).
Definition beacon_matches (b : BeaconCompanion) (pk : packet) : bool :=
  (pkProto pk =?? NFTProtoUDP) && (pkPort pk =? bcPort b) && existsb (fun c => source_has c (pkSrc pk)) (Allow b).

Definition guard_accepts (inp : CompileInput) (pk : packet) : bool :=
  match Beacon inp with Some b => beacon_matches b pk | None => false end ||
  existsb (fun id => match Zones inp !! id with Some zone => trusted_matches zone pk | None => false end)
    (ZoneIDs (Binding inp)) ||
  match List.find (fun rule => negb (gDisabled rule) && guard_matches inp pk rule) (orderedRules inp) with
  | Some rule => gAction rule =?? NetRuleAllow
  | None => false
  end.

(** An input without blank sources or interface names. *)
Record input_wf (inp : CompileInput) : Prop := {
  iw_zones : ∀ id zone, Zones inp !! id = Some zone →
    Forall (fun c => blank c = false) (zCIDRs zone) ∧ Forall (fun i => i ≠ "") (zInterfaces zone);
  iw_rules : ∀ rule, rule ∈ orderedRules inp → geKind (gRemote rule) = NetRefCIDR → blank (geCIDR (gRemote rule)) = false;
  iw_beacon : ∀ b, Beacon inp = Some b → Forall (fun c => blank c = false) (Allow b);
}.
(** A source as it appears on the wire. *)
Definition packet_wf (pk : packet) : Prop := wf_addr (pkSrc pk) ∧ native (pkSrc pk).

(** ** Ports mean the ranges *)

Lemma check_ranges_Ok total ranges :
  check_ranges total ranges = Ok tt → 0 <= total →
  Forall (fun r => 1 <= From r ∧ From r <= To r ∧ To r <= 65535) ranges ∧
  total + Z.of_nat (length (flat_map range_ports ranges)) <= Z.max total MaxExpandedPortsPerRule.
Proof.
  revert total. induction ranges as [|r ranges IH]; intros total; cbn [check_ranges].
  { intros _ Ht. split; [constructor|]. cbn. lia. }
  intros Hc Ht. ok_inv. go_bool. apply IH in Hc as [IH1 IH2]; [|lia].
  split; [constructor; [lia|done]|]. cbn [flat_map]. rewrite length_app.
  unfold range_ports at 1. rewrite length_seqZ. lia.
Qed.
Lemma ExpandPortRanges_Ok ranges ports :
  ExpandPortRanges ranges = Ok ports →
  ports = sort_ints (dedup (flat_map range_ports ranges)) ∧
  Forall (fun r => 1 <= From r ∧ From r <= To r ∧ To r <= 65535) ranges.
Proof.
  unfold ExpandPortRanges. destruct ranges as [|r l].
  - by intros [= <-].
  - intros Hc. destruct (check_ranges 0 (r :: l)) as [[]|] eqn:E; [|done]. cbn in Hc. injection Hc as <-.
    apply check_ranges_Ok in E as [? _]; [done|lia].
Qed.
Lemma elem_of_ranges p ranges :
  p ∈ flat_map range_ports ranges ↔ existsb (in_range_port p) ranges = true.
Proof.
  rewrite list_elem_of_In, in_flat_map, existsb_exists. unfold range_ports, in_range_port.
  split; intros (r & Hr & Hp); exists r; (split; [done|]).
  - apply list_elem_of_In, elem_of_seqZ in Hp. go_bool. lia.
  - go_bool. apply list_elem_of_In, elem_of_seqZ. lia.
Qed.
Lemma expanded_ports ranges ports p :
  ExpandPortRanges ranges = Ok ports →
  (length ports =? 0)%nat || mem p ports = (length ranges =? 0)%nat || existsb (in_range_port p) ranges ∧
  (length ports =? 0)%nat = (length ranges =? 0)%nat.
Proof.
  intros [-> Hr]%ExpandPortRanges_Ok.
  assert ((length (sort_ints (dedup (flat_map range_ports ranges))) =? 0)%nat = (length ranges =? 0)%nat) as El.
  { rewrite empty_ports. apply eq_iff_eq_true. rewrite !Nat.eqb_eq, !length_zero_iff_nil.
    split; [|by intros ->]. destruct ranges as [|r l]; [done|]. apply Forall_inv in Hr.
    cbn [flat_map]. unfold range_ports at 1. intros [E _]%app_eq_nil.
    apply (f_equal length) in E. rewrite length_seqZ in E. cbn in E. lia. }
  split; [|done]. rewrite El. f_equal. apply eq_iff_eq_true.
  rewrite mem_ports, mem_spec. apply elem_of_ranges.
Qed.

(** ** Sources mean the remotes *)

Lemma As16_Unmap ip : wf_bytes 16 ip → As16 (Unmap (A16 ip)) = ip.
Proof.
  intros Hw. unfold Unmap. fold (mapped ip). destruct (mapped ip) eqn:Hm; [|done]. symmetry. by apply mapped_join.
Qed.
Lemma native_Unmap ip : wf_bytes 16 ip → wf_addr (Unmap (A16 ip)) ∧ native (Unmap (A16 ip)).
Proof.
  intros Hw. unfold Unmap. fold (mapped ip). destruct (mapped ip) eqn:Hm; [|done].
  split; [by apply wf_bytes_drop12|done].
Qed.
Lemma IPString_text ip : wf_bytes 16 ip → IPString ip = addr_text (Unmap (A16 ip)).
Proof.
  intros Hw. unfold IPString, Unmap. rewrite To4_16 by done. fold (mapped ip). by destruct (mapped ip).
Qed.
Lemma ParseIP_wf s ip : ParseIP s = Some ip → wf_bytes 16 ip.
Proof.
  unfold ParseIP. destruct (ParseAddr s) as [a|] eqn:E; [|done]. intros [= <-]. by eapply wf_As16, ParseAddr_wf.
Qed.
(** Printing an address and reading it back gives the address. *)
Lemma ParseIP_IPString ip : wf_bytes 16 ip → ParseIP (IPString ip) = Some ip.
Proof.
  intros Hw. rewrite IPString_text by done. unfold ParseIP. rewrite ParseAddr_text by (by apply native_Unmap).
  cbn [fmap option_fmap option_map]. by rewrite As16_Unmap.
Qed.
Definition host_ip (s : string) : option (list Z) :=
  let host := trim_space s in
  if mem "/"%char (bytes_of host) then fst <$> ParseCIDR host else ParseIP host.
Lemma host_ip_wf s ip : host_ip s = Some ip → wf_bytes 16 ip.
Proof.
  unfold host_ip. destruct (mem _ _); [|apply ParseIP_wf].
  destruct (ParseCIDR _) as [[i n]|] eqn:E; [|done]. intros [= <-].
  apply ParseCIDR_inv in E as (a & Ha & -> & _). by apply wf_As16.
Qed.
Lemma hostCIDR_eq s : hostCIDR s =
  match host_ip s with
  | Some ip => addr_text (Unmap (A16 ip)) +:+ "/" +:+ dec_of_Z (BitLen (Unmap (A16 ip)))
  | None => ""
  end.
Proof.
  unfold hostCIDR, host_ip. case_bool_decide as E; [by rewrite E|].
  assert (∀ ip, wf_bytes 16 ip → IPString ip +:+ (match To4 ip with None => "/128" | Some _ => "/32" end) =
    addr_text (Unmap (A16 ip)) +:+ "/" +:+ dec_of_Z (BitLen (Unmap (A16 ip)))) as Hip.
  { intros ip Hw. rewrite IPString_text, To4_16 by done. f_equal. unfold Unmap. fold (mapped ip).
    by destruct (mapped ip). }
  destruct (mem _ _).
  - destruct (ParseCIDR _) as [[ip n]|] eqn:Ec; [|done]. cbn [fmap option_fmap option_map fst].
    assert (wf_bytes 16 ip) as Hw by (apply ParseCIDR_inv in Ec as (a & Ha & -> & _); by apply wf_As16).
    rewrite ParseIP_IPString by done. by apply Hip.
  - destruct (ParseIP _) as [ip|] eqn:Ep; [|done]. apply Hip. by eapply ParseIP_wf.
Qed.
Lemma hostCIDR_has s a :
  wf_addr a → native a →
  (hostCIDR s =?? "") = false ∧ source_has (hostCIDR s) a = true ↔ host_addr s = Some a.
Proof.
  intros Ha Hn. rewrite hostCIDR_eq. unfold host_addr. fold (host_ip s).
  destruct (host_ip s) as [ip|] eqn:E; [|by split; [intros [??]|]].
  cbn [fmap option_fmap option_map]. apply host_ip_wf in E as Hw.
  destruct (native_Unmap ip Hw) as [Hu Hun]. set (u := Unmap (A16 ip)) in *.
  assert (canonical (addr_text u +:+ "/" +:+ dec_of_Z (BitLen u)) (mkPrefix u (BitLen u))) as Hc.
  { apply canonical_prefix; [done..|destruct u; cbn; lia|].
    change (mkPrefix u (BitLen u)) with (full u). by apply (canonical_wf (addr_text u)), canonical_addr. }
  rewrite (source_has_canonical _ _ _ Hc). split.
  - intros [_ Hx]. f_equal. symmetry. by apply (Contains_self_addr (full u)).
  - intros [= <-]. split.
    + apply bool_decide_eq_false. by eapply canonical_nonempty.
    + unfold Contains. cbn [pAddr pBits]. rewrite Z.eqb_refl. by apply bool_decide_eq_true.
Qed.

Lemma node_sources_has node a :
  wf_addr a → native a → existsb (fun c => source_has c a) (nodeSources node) = node_has node a.
Proof.
  intros Ha Hn. apply eq_iff_eq_true. unfold nodeSources, node_has.
  rewrite existsb_elem_of, orb_true_iff, !bool_decide_eq_true, <- !hostCIDR_has by done.
  split.
  - intros (c & [Hc Hne]%list_elem_of_In%filter_In & Hs). cbn [map] in Hc.
    destruct Hc as [<-|[<-|[]]]; [left|right]; by rewrite negb_true_iff in Hne.
  - intros [[Hne Hs]|[Hne Hs]]; eexists; (split; [|exact Hs]); apply list_elem_of_In, filter_In;
      rewrite Hne; cbn; auto.
Qed.
Lemma group_sources_has resolve members a :
  wf_addr a → native a →
  existsb (fun c => source_has c a) (groupSources resolve members) =
  existsb (fun m => match resolve m with Some n => node_has n a | None => false end) members.
Proof.
  intros Ha Hn. apply eq_iff_eq_true. unfold groupSources. rewrite !existsb_elem_of.
  setoid_rewrite elem_of_sort_strings. setoid_rewrite elem_of_dedup.
  split.
  - intros (c & (m & Hm & Hc)%list_elem_of_In%in_flat_map & Hs). exists m. rewrite list_elem_of_In. split; [done|].
    destruct (resolve m) as [n|]; [|done]. rewrite <- node_sources_has by done. apply existsb_exists. eauto.
  - intros (m & Hm & Hs). destruct (resolve m) as [n|] eqn:E; [|done].
    rewrite <- node_sources_has in Hs by done. apply existsb_elem_of in Hs as (c & Hc & Hs).
    exists c. split; [|done]. apply list_elem_of_In, in_flat_map. exists m. rewrite E.
    by rewrite <- !list_elem_of_In.
Qed.
End meaning.

(** ** Lowering one rule *)

Section lowering.
Context `{GuardSdkLaws} (inp : CompileInput) (resolve : string → option GuardNode).
Context (Hresolve : Resolve inp = Some resolve) (Hwf : input_wf inp).
Let zi := zoneInterface (Zones inp) GuardZonePublic defaultInterface.
Let zc := zoneCIDR (Zones inp) GuardZoneWireGuard defaultWireGuardCIDR.

Lemma zone_defaults : zi ≠ "" ∧ blank zc = false.
Proof.
  unfold zi, zc, zoneInterface, zoneCIDR. split.
  - destruct (Zones inp !! GuardZonePublic) as [z|] eqn:E; [|done]. cbn.
    apply (iw_zones _ Hwf) in E as [_ E]. destruct (zInterfaces z); [done|]. by apply Forall_inv in E.
  - destruct (Zones inp !! GuardZoneWireGuard) as [z|] eqn:E; [|vm_compute; reflexivity]. cbn.
    apply (iw_zones _ Hwf) in E as [E _]. destruct (zCIDRs z); [vm_compute; reflexivity|]. by apply Forall_inv in E.
Qed.

Lemma host_not_blank s : hostCIDR s ≠ "" → blank (hostCIDR s) = false.
Proof.
  rewrite hostCIDR_eq. destruct (host_ip s) as [ip|] eqn:E; [|done]. intros _. apply host_ip_wf in E.
  destruct (native_Unmap ip E) as [Hu Hn]. set (u := Unmap (A16 ip)) in *.
  eapply (canonical_not_blank _ (full u)). apply canonical_prefix; [done..|destruct u; cbn; lia|].
  by apply (canonical_wf (addr_text u)), canonical_addr.
Qed.
Lemma nodeSources_not_blank n c : c ∈ nodeSources n → blank c = false.
Proof.
  intros [Hc Hne]%list_elem_of_In%filter_In. apply negb_true_iff, bool_decide_eq_false in Hne.
  apply in_map_iff in Hc as (s & <- & _). by apply host_not_blank.
Qed.

Lemma kinds_distinct (x y : string) i j :
  [""; NetRefAny; NetRefCIDR; NetRefNode; NetRefZone; NetRefDomain; NetRefGroup] !! i = Some x →
  [""; NetRefAny; NetRefCIDR; NetRefNode; NetRefZone; NetRefDomain; NetRefGroup] !! j = Some y →
  i ≠ j → x ≠ y.
Proof.
  intros Hi Hj Hij ->. apply Hij. eapply NoDup_lookup; [apply guard_kinds|done|done].
Qed.

Lemma zones_distinct i j :
  [GuardZonePublic; GuardZoneWireGuard; GuardZoneLoopback] !! i =
  [GuardZonePublic; GuardZoneWireGuard; GuardZoneLoopback] !! j → (i < 3)%nat → i = j.
Proof.
  intros E Hi. destruct (lookup_lt_is_Some_2 [GuardZonePublic; GuardZoneWireGuard; GuardZoneLoopback] i) as [x Hx];
    [done|]. eapply NoDup_lookup; [apply guard_zones|done|by rewrite <- E].
Qed.
Lemma ruleSource_spec rule sources iface pk :
  rule ∈ orderedRules inp → legacy_shape rule = false → ruleSource rule resolve inp = Ok (sources, iface) → packet_wf pk →
  remote_matches inp rule pk =
    (if (geKind (gRemote rule) =?? NetRefGroup) && (length sources =? 0)%nat then false
     else ((iface =?? "") || (iface =?? pkIface pk)) && sources_match sources (pkSrc pk)) ∧
  Forall (fun c => blank c = false) sources.
Proof.
  intros Hin Hleg Hsrc [Ha Hn]. unfold remote_matches, ruleSource in *. rewrite Hleg, Hresolve. cbn [mbind option_bind].
  set (k := geKind (gRemote rule)) in *.
  destruct ((k =?? NetRefAny) || (k =?? "")) eqn:Eany.
  { injection Hsrc as <- <-. split; [|constructor]. rewrite bool_decide_eq_false_2; [done|].
    intros Hg. rewrite Hg in Eany. go_bool. destruct Eany as [E|E]; revert E.
    - by apply (kinds_distinct _ _ 6 1).
    - by apply (kinds_distinct _ _ 6 0). }
  case_bool_decide as Ecidr.
  { apply guard_Ok in Hsrc as [_ Hsrc]. injection Hsrc as <- <-.
    rewrite (bool_decide_eq_false_2 (k = NetRefGroup)) by (rewrite Ecidr; by apply (kinds_distinct _ _ 2 6)).
    split; [cbn; by rewrite orb_false_r|]. constructor; [|constructor]. by apply (iw_rules _ Hwf). }
  case_bool_decide as Enode.
  { destruct (resolve _) as [node|]; [|done]. apply guard_Ok in Hsrc as [Hne Hsrc]. injection Hsrc as <- <-.
    rewrite (bool_decide_eq_false_2 (k = NetRefGroup)) by (rewrite Enode; by apply (kinds_distinct _ _ 3 6)).
    split; [|apply Forall_forall; apply nodeSources_not_blank].
    cbn [andb orb]. rewrite bool_decide_eq_true_2 by done. unfold sources_match. rewrite Hne. cbn [orb andb].
    by rewrite node_sources_has. }
  case_bool_decide as Ezone.
  { destruct (Zones inp !! _) as [zone|] eqn:Ez; [|done]. apply (iw_zones _ Hwf) in Ez as [Hzc Hzi].
    rewrite (bool_decide_eq_false_2 (k = NetRefGroup)) by (rewrite Ezone; by apply (kinds_distinct _ _ 4 6)).
    unfold zone_matches. destruct (length (zCIDRs zone) =? 0)%nat eqn:El; cbn [negb] in Hsrc.
    - destruct (zInterfaces zone) as [|i [|? ?]]; try done. injection Hsrc as <- <-.
      apply Forall_inv in Hzi. split; [|constructor]. cbn.
      rewrite (bool_decide_eq_false_2 (i = "")), !orb_false_r, andb_true_r by done. done.
    - injection Hsrc as <- <-. split; [|done]. cbn [andb]. rewrite (bool_decide_eq_true_2 ("" = "")) by done.
      unfold sources_match. by rewrite El. }
  case_bool_decide as Edom; [done|]. case_bool_decide as Egroup; [|done].
  destruct (GroupMembers inp) as [members|]; [|done]. cbn [mbind option_bind].
  destruct (members _) as [l|]; [|done]. injection Hsrc as <- <-. cbn [default from_option id andb]. split.
  - rewrite <- group_sources_has by done. unfold sources_match.
    destruct (length (groupSources resolve l) =? 0)%nat eqn:El.
    + apply Nat.eqb_eq, length_zero_iff_nil in El. by rewrite El.
    + cbn [orb andb]. by rewrite bool_decide_eq_true_2.
  - apply Forall_forall. intros c. unfold groupSources. rewrite elem_of_sort_strings, elem_of_dedup.
    rewrite list_elem_of_In, in_flat_map. intros (m & _ & Hc). destruct (resolve m); [|done].
    eapply nodeSources_not_blank. by apply list_elem_of_In.
Qed.

Lemma bucket_legacy rule ports :
  (length ports =? 0)%nat = (length (gPorts rule) =? 0)%nat →
  match fastPathBucket rule ports with
  | None => legacy_shape rule = false
  | Some b => legacy_shape rule = true ∧ gAction rule = NetRuleAllow ∧
    match b with
    | BPublicTCP => geZoneID (gRemote rule) = GuardZonePublic ∧ gProtocol rule = NFTProtoTCP
    | BPublicUDP => geZoneID (gRemote rule) = GuardZonePublic ∧ gProtocol rule = NFTProtoUDP
    | BWireGuardTCP => geZoneID (gRemote rule) = GuardZoneWireGuard ∧ gProtocol rule = NFTProtoTCP
    | BWireGuardUDP => geZoneID (gRemote rule) = GuardZoneWireGuard ∧ gProtocol rule = NFTProtoUDP
    end
  end.
Proof.
  intros Hl. destruct guard_protocols as (Et & Eu & _). unfold fastPathBucket, legacy_shape. rewrite Hl.
  destruct (gAction rule =?? NetRuleAllow) eqn:Ea; [|done]. cbn [negb orb andb].
  destruct (length (gPorts rule) =? 0)%nat; [done|]. cbn [negb andb].
  destruct (geKind (gRemote rule) =?? NetRefZone) eqn:Ek; [|done]. cbn [negb andb].
  apply bool_decide_eq_true in Ea.
  destruct (geZoneID (gRemote rule) =?? GuardZonePublic) eqn:Ep; cbn [orb];
    [|destruct (geZoneID (gRemote rule) =?? GuardZoneWireGuard) eqn:Ew; cbn [orb]; [|done]];
    go_bool; (destruct (gProtocol rule =?? NetProtoTCP) eqn:E1;
      [|destruct (gProtocol rule =?? NetProtoUDP) eqn:E2; [|done]]); go_bool; rewrite <- ?Et, <- ?Eu; (done || tauto).
Qed.

(** What lowering does to the plan: the ports of a legacy shaped allow go to
    a list, or one rule is appended that means the guard rule, or nothing is
    appended and the rule matches nothing. *)
Definition means (r : NFTInputRule) (rule : GuardRule) : Prop :=
  no_blank r ∧ rAction r = nftAction (gAction rule) ∧
  ∀ pk, packet_wf pk → rule_matches r pk = guard_matches inp pk rule.
Inductive lowered (plan : NFTPlan) (rule : GuardRule) : bool → NFTPlan → Prop :=
| lowered_fast b ports :
    fastPathBucket rule ports = Some b → ExpandPortRanges (gPorts rule) = Ok ports →
    lowered plan rule true (add_ports b ports plan)
| lowered_none fast : (∀ pk, packet_wf pk → guard_matches inp pk rule = false) → lowered plan rule fast plan
| lowered_rule fast r : means r rule → lowered plan rule fast (add_rule r plan).

Lemma service_spec rule ports pk iface sources action comment :
  ExpandPortRanges (gPorts rule) = Ok ports →
  rule_matches (mkInput iface sources (gProtocol rule) ports action comment) pk =
  ((iface =?? "") || (iface =?? pkIface pk)) && sources_match sources (pkSrc pk) && service_matches rule pk.
Proof.
  intros He. rewrite rule_matches_eq. cbn [rInterface SourceCIDRs rProtocol rPorts]. unfold service_matches.
  destruct guard_protocols as (_ & _ & ->). by rewrite (proj1 (expanded_ports _ _ (pkPort pk) He)).
Qed.

Lemma lowerRule_spec plan rule fast plan' :
  rule ∈ orderedRules inp → InterfaceName plan = zi → WireGuardCIDR plan = zc →
  lowerRule plan rule resolve inp fast = Ok plan' →
  (gAction rule = NetRuleAllow ∨ gAction rule = NetRuleDeny) ∧ lowered plan rule fast plan'.
Proof.
  intros Hin Ei Ew. destruct zone_defaults as [Hzi Hzc]. unfold lowerRule. intros [_ Hl]%guard_Ok.
  apply guard_Ok in Hl as [Hact Hl]. apply negb_false_iff, mem_spec in Hact. split; [set_solver|].
  destruct (mem (gProtocol rule) _); [|by destruct (mem _ _)]. apply guard_Ok in Hl as [_ Hl].
  destruct (ExpandPortRanges (gPorts rule)) as [ports|] eqn:Ee; [|done]. apply guard_Ok in Hl as [_ Hl].
  pose proof (bucket_legacy rule ports (proj2 (expanded_ports _ _ 0 Ee))) as Hb.
  destruct (fastPathBucket rule ports) as [b|] eqn:Eb.
  - destruct Hb as (Hleg & Hal & Hb). destruct fast.
    { injection Hl as <-. by apply lowered_fast. }
    assert (nftAction (gAction rule) = NFTActionAccept) as Hna.
    { unfold nftAction. rewrite Hal, bool_decide_eq_false_2; [done|]. apply guard_actions. }
    case_bool_decide as Ez; injection Hl as <-; apply lowered_rule; (split; [|split; [by rewrite Hna|]]).
    + constructor.
    + intros pk Hpk. rewrite (service_spec _ _ _ _ _ _ _ Ee). unfold guard_matches, remote_matches.
      rewrite Hleg, (bool_decide_eq_true_2 (geZoneID (gRemote rule) = GuardZonePublic)) by done.
      rewrite Ei. fold zi. rewrite (bool_decide_eq_false_2 (zi = "")) by done. cbn [orb sources_match length Nat.eqb].
      rewrite andb_true_r, andb_comm. f_equal. by apply bool_decide_ext.
    + constructor; [by rewrite Ew|constructor].
    + intros pk Hpk. rewrite (service_spec _ _ _ _ _ _ _ Ee). unfold guard_matches, remote_matches.
      rewrite Hleg, (bool_decide_eq_false_2 (geZoneID (gRemote rule) = GuardZonePublic)) by done.
      rewrite Ew. fold zc. unfold sources_match. cbn [length Nat.eqb existsb orb andb].
      rewrite (bool_decide_eq_true_2 ("" = "")), orb_false_r by done. apply andb_comm.
  - destruct (ruleSource rule resolve inp) as [[sources iface]|] eqn:Es; [|done].
    assert (∀ pk, packet_wf pk → _) as Hspec by (intros pk Hpk; exact (ruleSource_spec _ _ _ pk Hin Hb Es Hpk)).
    destruct ((geKind (gRemote rule) =?? NetRefGroup) && (length sources =? 0)%nat) eqn:Eg.
    + injection Hl as <-. apply lowered_none. intros pk Hpk. unfold guard_matches.
      destruct (Hspec pk Hpk) as [-> _]. apply andb_false_r.
    + injection Hl as <-. apply lowered_rule. split; [|split; [done|]].
      * by destruct (Hspec (mkPacket "" (A4 [0; 0; 0; 0]) "" 0) ltac:(by repeat constructor)) as [_ ?].
      * intros pk Hpk. rewrite (service_spec _ _ _ _ _ _ _ Ee). unfold guard_matches.
        destruct (Hspec pk Hpk) as [-> _]. apply andb_comm.
Qed.

(** ** Lowering every rule *)

Definition enabled_match (pk : packet) (rule : GuardRule) : bool := negb (gDisabled rule) && guard_matches inp pk rule.
Definition first_allows (rules : list GuardRule) (pk : packet) : bool :=
  match List.find (enabled_match pk) rules with Some rule => gAction rule =?? NetRuleAllow | None => false end.

(** The part of a plan under construction the proof keeps track of. *)
Record building (plan : NFTPlan) : Prop := {
  bd_iface : InterfaceName plan = zi;
  bd_wg : WireGuardCIDR plan = zc;
  bd_blank : Forall no_blank (InputRules plan);
}.
Lemma building_defaults plan : building plan → plan_iface plan = zi ∧ plan_wg plan = zc.
Proof.
  intros [Ei Ew _]. destruct zone_defaults as [Hzi Hzc]. unfold plan_iface, plan_wg. rewrite Ei, Ew.
  rewrite !bool_decide_eq_false_2; [done| |done]. intros E. rewrite E in Hzc. done.
Qed.
Lemma lowered_building plan rule fast plan' : building plan → lowered plan rule fast plan' → building plan'.
Proof.
  intros [Ei Ew Hb] [b ports _ _|fast' _|fast' r [Hr _]]; constructor; cbn; try done.
  apply Forall_app. split; [done|]. by constructor.
Qed.

(** With the fast path on, every rule accepts and matching is a union. *)
Definition matches_some (pk : packet) (l : list NFTInputRule) : bool := existsb (fun r => rule_matches r pk) l.
Lemma broad_app iface s proto l1 l2 c pk :
  matches_some pk (broad iface s proto (l1 ++ l2) c) =
  matches_some pk (broad iface s proto l1 c) || matches_some pk (broad iface s proto l2 c).
Proof.
  unfold broad, matches_some. destruct l1 as [|x1 l1]; [done|]. destruct l2 as [|x2 l2]; [by rewrite app_nil_r, orb_false_r|].
  cbn [app length Nat.eqb existsb]. rewrite !orb_false_r, !rule_matches_eq.
  cbn [rInterface SourceCIDRs rProtocol rPorts length Nat.eqb orb].
  assert (mem (pkPort pk) (x1 :: l1 ++ x2 :: l2) = mem (pkPort pk) (x1 :: l1) || mem (pkPort pk) (x2 :: l2)) as ->.
  { unfold mem. rewrite <- existsb_app. done. }
  destruct (_ && sources_match _ _); [|done]. cbn [andb].
  destruct (proto =?? NFTProtoAny); [done|]. cbn [orb]. by rewrite andb_orb_distrib_r.
Qed.
Lemma broad_service iface s proto ports c pk rule :
  ExpandPortRanges (gPorts rule) = Ok ports → (length ports =? 0)%nat = false → gProtocol rule = proto →
  matches_some pk (broad iface s proto ports c) =
  ((iface =?? "") || (iface =?? pkIface pk)) && sources_match s (pkSrc pk) && service_matches rule pk.
Proof.
  intros He Hl <-. unfold broad, matches_some. rewrite Hl. cbn [existsb]. rewrite orb_false_r. by apply service_spec.
Qed.
Lemma add_ports_matches plan rule b ports pk :
  building plan → fastPathBucket rule ports = Some b → ExpandPortRanges (gPorts rule) = Ok ports →
  matches_some pk (chain (add_ports b ports plan)) = matches_some pk (chain plan) || guard_matches inp pk rule.
Proof.
  intros Hbd Eb He. destruct zone_defaults as [Hzi Hzc]. destruct (building_defaults _ Hbd) as [Pi Pw].
  assert (plan_iface (add_ports b ports plan) = zi ∧ plan_wg (add_ports b ports plan) = zc) as [Pi' Pw'] by done.
  destruct (expanded_ports _ _ 0 He) as [_ El].
  pose proof (bucket_legacy rule ports El) as Hb. rewrite Eb in Hb. destruct Hb as (Hleg & _ & Hb).
  assert ((length ports =? 0)%nat = false) as Hpl.
  { unfold fastPathBucket in Eb. destruct (length ports =? 0)%nat; [by rewrite orb_true_r in Eb|done]. }
  assert (guard_matches inp pk rule = service_matches rule pk &&
    (if geZoneID (gRemote rule) =?? GuardZonePublic then pkIface pk =?? zi else source_has zc (pkSrc pk))) as ->
    by (unfold guard_matches, remote_matches; by rewrite Hleg).
  assert (geZoneID (gRemote rule) = GuardZonePublic → matches_some pk (broad zi [] (gProtocol rule) ports "") =
    service_matches rule pk && (if geZoneID (gRemote rule) =?? GuardZonePublic then pkIface pk =?? zi else source_has zc (pkSrc pk))) as Hpub.
  { intros Ez. rewrite (broad_service _ _ _ _ _ _ _ He Hpl eq_refl), (bool_decide_eq_true_2 (_ = GuardZonePublic)) by done.
    rewrite (bool_decide_eq_false_2 (zi = "")) by done. cbn [orb sources_match length Nat.eqb].
    rewrite andb_true_r, andb_comm. f_equal. by apply bool_decide_ext. }
  assert (geZoneID (gRemote rule) = GuardZoneWireGuard → matches_some pk (broad "" [zc] (gProtocol rule) ports "") =
    service_matches rule pk && (if geZoneID (gRemote rule) =?? GuardZonePublic then pkIface pk =?? zi else source_has zc (pkSrc pk))) as Hwg.
  { intros Ez. rewrite (broad_service _ _ _ _ _ _ _ He Hpl eq_refl), (bool_decide_eq_false_2 (_ = GuardZonePublic))
      by (rewrite Ez; intros E; specialize (zones_distinct 0 1); cbn; rewrite E; intros Hx; specialize (Hx eq_refl); lia).
    rewrite (bool_decide_eq_true_2 ("" = "")) by done. unfold sources_match. cbn [length Nat.eqb existsb orb andb].
    rewrite orb_false_r. apply andb_comm. }
  assert (∀ i s p l c c', matches_some pk (broad i s p l c) = matches_some pk (broad i s p l c')) as Hc
    by (intros i s p l c c'; unfold broad, matches_some; destruct (length l =? 0)%nat; reflexivity).
  unfold chain, broad_rules, matches_some. rewrite Pi, Pw, Pi', Pw'. rewrite !existsb_app.
  fold (matches_some pk).
  destruct b; cbn [add_ports PublicTCP PublicUDP WireGuardTCP WireGuardUDP InputRules]; destruct Hb as [Hz Hp];
    change (existsb (fun r => rule_matches r pk)) with (matches_some pk);
    rewrite broad_app; rewrite <- Hp; [rewrite <- (Hpub Hz)|rewrite <- (Hpub Hz)|rewrite <- (Hwg Hz)|rewrite <- (Hwg Hz)];
    rewrite (Hc _ _ _ ports _ ""); btauto.
Qed.

Definition all_accept (l : list NFTInputRule) : Prop := Forall (fun r => rAction r = NFTActionAccept) l.
Definition no_lists (p : NFTPlan) : Prop :=
  PublicTCP p = [] ∧ PublicUDP p = [] ∧ WireGuardTCP p = [] ∧ WireGuardUDP p = [].

Lemma nftAction_accept a :
  a = NetRuleAllow ∨ a = NetRuleDeny → (nftAction a =?? NFTActionAccept) = (a =?? NetRuleAllow).
Proof.
  pose proof guard_actions as Hne. unfold nftAction. intros [-> | ->].
  - by rewrite (bool_decide_eq_false_2 (NetRuleAllow = NetRuleDeny)), !bool_decide_eq_true_2.
  - rewrite (bool_decide_eq_true_2 (NetRuleDeny = NetRuleDeny)) by done.
    by rewrite !bool_decide_eq_false_2 by (congruence || (intros E; discriminate E)).
Qed.
Lemma lowerRules_fast plan rules plan' pk :
  (∀ rule, rule ∈ rules → rule ∈ orderedRules inp ∧ enabledDeny rule = false) → packet_wf pk →
  building plan → all_accept (InputRules plan) → lowerRules plan rules resolve inp true = Ok plan' →
  building plan' ∧ all_accept (InputRules plan') ∧
  matches_some pk (chain plan') = matches_some pk (chain plan) || first_allows rules pk.
Proof.
  intros Hin Hpk. revert plan. induction rules as [|rule rules IH]; intros plan Hb Ha; cbn [lowerRules].
  { intros [= <-]. split_and!; [done..|]. unfold first_allows. cbn. by rewrite orb_false_r. }
  assert (∀ r, r ∈ rules → r ∈ orderedRules inp ∧ enabledDeny r = false) as Hin' by (intros; apply Hin; by right).
  unfold first_allows. cbn [List.find]. unfold enabled_match at 1. destruct (gDisabled rule) eqn:Ed.
  { cbn [negb andb]. by apply IH. }
  destruct (lowerRule plan rule resolve inp true) as [plan1|] eqn:El; [|done]. intros Hl.
  destruct (Hin rule ltac:(left)) as [Hord Hden].
  destruct (lowerRule_spec _ _ _ _ Hord (bd_iface _ Hb) (bd_wg _ Hb) El) as [Hact Hlow].
  assert (gAction rule = NetRuleAllow) as Hal.
  { unfold enabledDeny in Hden. rewrite Ed in Hden. cbn in Hden. go_bool. tauto. }
  assert (all_accept (InputRules plan1) ∧
    matches_some pk (chain plan1) = matches_some pk (chain plan) || guard_matches inp pk rule) as [Ha1 Hm1].
  { inversion Hlow as [b ports Eb Ee|fast Hno|fast r (Hr1 & Hr2 & Hr3)]; subst.
    - split; [done|]. by apply add_ports_matches.
    - split; [done|]. by rewrite Hno, orb_false_r.
    - split.
      + apply Forall_app. split; [done|]. constructor; [|done]. rewrite Hr2. unfold nftAction.
        rewrite Hal, bool_decide_eq_false_2; [done|apply guard_actions].
      + unfold chain, matches_some. cbn [add_rule InputRules]. rewrite !existsb_app. cbn [existsb].
        rewrite Hr3 by done. change (broad_rules (add_rule r plan)) with (broad_rules plan). btauto. }
  apply IH in Hl as (Hb' & Ha' & ->); [|done|by eapply lowered_building|done].
  split_and!; [done..|]. rewrite Hm1. unfold first_allows. cbn [negb andb].
  destruct (guard_matches inp pk rule).
  - rewrite Hal, bool_decide_eq_true_2 by done. btauto.
  - by rewrite orb_false_r.
Qed.
Lemma lowerRules_ordered plan rules plan' pk :
  (∀ rule, rule ∈ rules → rule ∈ orderedRules inp) → packet_wf pk →
  building plan → no_lists plan → lowerRules plan rules resolve inp false = Ok plan' →
  building plan' ∧ no_lists plan' ∧
  verdict (InputRules plan') pk =
    if matches_some pk (InputRules plan) then verdict (InputRules plan) pk else first_allows rules pk.
Proof.
  intros Hin Hpk. revert plan. induction rules as [|rule rules IH]; intros plan Hb Hn; cbn [lowerRules].
  { intros [= <-]. split_and!; [done..|]. unfold first_allows. cbn. destruct (matches_some _ _) eqn:E; [done|].
    by apply verdict_no_match. }
  assert (∀ r, r ∈ rules → r ∈ orderedRules inp) as Hin' by (intros; apply Hin; by right).
  unfold first_allows. cbn [List.find]. unfold enabled_match at 1. destruct (gDisabled rule) eqn:Ed.
  { cbn [negb andb]. by apply IH. }
  destruct (lowerRule plan rule resolve inp false) as [plan1|] eqn:El; [|done]. intros Hl.
  destruct (lowerRule_spec _ _ _ _ (Hin rule ltac:(left)) (bd_iface _ Hb) (bd_wg _ Hb) El) as [Hact Hlow].
  cbn [negb andb]. inversion Hlow as [b ports Eb Ee|fast Hno|fast r (Hr1 & Hr2 & Hr3)]; subst.
  - rewrite Hno by done. by apply IH.
  - apply IH in Hl as (Hb' & Hn' & ->); [|done|by eapply lowered_building|done].
    split_and!; [done..|]. cbn [add_rule InputRules]. unfold matches_some at 1. rewrite existsb_app, verdict_app.
    fold (matches_some pk (InputRules plan)). cbn [existsb verdict]. rewrite Hr3 by done.
    destruct (matches_some pk (InputRules plan)); [done|]. cbn [orb].
    destruct (guard_matches inp pk rule); [|done]. cbn [orb]. rewrite Hr2. by apply nftAction_accept.
Qed.

(** ** The trusted zones and the beacon *)

Lemma trustedZones_spec ids rules pk :
  trustedZones (Zones inp) ids = Ok rules →
  all_accept rules ∧ Forall no_blank rules ∧ GuardZonePublic ∉ ids ∧
  matches_some pk rules =
    existsb (fun id => match Zones inp !! id with Some zone => trusted_matches zone pk | None => false end) ids.
Proof.
  revert rules. induction ids as [|id ids IH]; intros rules; cbn [trustedZones].
  { intros [= <-]. split_and!; try constructor. set_solver. }
  destruct (Zones inp !! id) as [zone|] eqn:Ez; [|done]. intros [Hid Ht]%guard_Ok.
  apply bind_Ok in Ht as (l1 & Hl1 & Ht). destruct (trustedZones _ ids) as [l2|]; [|done]. injection Ht as <-.
  destruct (IH l2 eq_refl) as (IH1 & IH2 & IH3 & IH4). apply guard_Ok in Hl1 as [_ Hl1]. injection Hl1 as <-.
  apply (iw_zones _ Hwf) in Ez as Hz. destruct Hz as [Hzc Hzi]. go_bool.
  split; [|split; [|split]].
  - unfold all_accept. rewrite !Forall_app, !Forall_map. split; [split|exact IH1].
    + by apply Forall_true.
    + destruct (length (zCIDRs zone) =? 0)%nat; by repeat constructor.
  - rewrite !Forall_app, !Forall_map. split; [split|exact IH2].
    + apply Forall_true. constructor.
    + destruct (length (zCIDRs zone) =? 0)%nat; by repeat constructor.
  - intros [E|E]%elem_of_cons; [by apply Hid|by apply IH3].
  - unfold matches_some. rewrite !existsb_app. fold (matches_some pk l2). rewrite IH4. cbn [existsb]. rewrite Ez.
    f_equal. unfold trusted_matches. f_equal.
    + clear -Hzi. induction Hzi as [|i l Hi _ IHl]; [done|]. cbn [map existsb mem]. unfold mem in *.
      cbn [existsb]. rewrite <- IHl. f_equal. rewrite rule_matches_eq. cbn.
      rewrite (bool_decide_eq_false_2 (i = "")), !andb_true_r by done. done.
    + destruct (zCIDRs zone) as [|c l]; [done|]. cbn [length Nat.eqb existsb]. rewrite orb_false_r, rule_matches_eq.
      cbn [rInterface SourceCIDRs rProtocol rPorts]. rewrite (bool_decide_eq_true_2 ("" = "")) by done.
      rewrite (bool_decide_eq_true_2 (NFTProtoAny = NFTProtoAny)) by done. cbn [orb andb].
      rewrite andb_true_r. done.
Qed.
Lemma beaconRules_spec b pk :
  Beacon inp = Some b →
  all_accept (beaconRules b) ∧ Forall no_blank (beaconRules b) ∧ matches_some pk (beaconRules b) = beacon_matches b pk.
Proof.
  intros Hb. pose proof (iw_beacon _ Hwf b Hb) as Hbl. unfold beaconRules, beacon_matches.
  destruct (Allow b) as [|c l]; cbn [length Nat.eqb].
  - split; [constructor|split; [constructor|]]. cbn. by rewrite andb_false_r.
  - split; [by constructor|split; [by constructor|]].
    unfold matches_some. cbn [existsb]. rewrite orb_false_r, rule_matches_eq.
    cbn [rInterface SourceCIDRs rProtocol rPorts]. rewrite (bool_decide_eq_true_2 ("" = "")) by done.
    rewrite (bool_decide_eq_false_2 (NFTProtoUDP = NFTProtoAny)) by done. unfold sources_match, mem.
    cbn [orb andb length Nat.eqb existsb]. rewrite orb_false_r.
    assert ((NFTProtoUDP =?? pkProto pk) = (pkProto pk =?? NFTProtoUDP)) as -> by (by apply bool_decide_ext).
    assert ((bcPort b =?? pkPort pk) = (pkPort pk =? bcPort b)) as -> by
      (apply eq_iff_eq_true; rewrite bool_decide_eq_true, Z.eqb_eq; done).
    btauto.
Qed.
End lowering.

(** ** The compiler *)

Section compiled.
Context `{GuardSdkLaws}.

Lemma Compile_Ok inp plan :
  Compile inp = Ok plan → ∃ resolve beacon trusted notrack low,
    Managed (Binding inp) = true ∧ Resolve inp = Some resolve ∧
    match Beacon inp with None => beacon = [] | Some b => beacon = beaconRules b end ∧
    trustedZones (Zones inp) (ZoneIDs (Binding inp)) = Ok trusted ∧
    lowerRules (mkNFTPlan (zoneInterface (Zones inp) GuardZonePublic defaultInterface)
      (zoneCIDR (Zones inp) GuardZoneWireGuard defaultWireGuardCIDR) [] [] [] [] (beacon ++ trusted) notrack)
      (orderedRules inp) resolve inp (negb (existsb enabledDeny (orderedRules inp))) = Ok low ∧
    NormalizeNFTPlan low = Ok plan.
Proof.
  unfold Compile. intros [Hm Hc]%guard_Ok. apply negb_false_iff in Hm.
  destruct (Resolve inp) as [resolve|]; [|done].
  destruct (Beacon inp) as [b|].
  - destruct (guard_err _ _ _) as [[beacon notrack]|] eqn:Eb; [|done]. apply guard_Ok in Eb as [_ Eb].
    injection Eb as <- <-. destruct (trustedZones _ _) as [trusted|]; [|done].
    apply bind_Ok in Hc as (low & Hl & Hn). apply wrap_Ok in Hn. eauto 15.
  - destruct (trustedZones _ _) as [trusted|]; [|done].
    apply bind_Ok in Hc as (low & Hl & Hn). apply wrap_Ok in Hn. eauto 15.
Qed.

(** C4. The compiler implements the guard model: whatever the compiled plan
    is, with or without denies, for every new connection it accepts exactly
    what the beacon companion, the trusted zones and then the enabled rules
    in the order they were written decide, first match wins; provided no
    CIDR of a zone, of an ordered rule or of the beacon's allow list is blank
    and no zone interface is empty ([blank_source_admits_everyone] below is
    what happens otherwise), and for sources as they appear on the wire. *)
Theorem compile_refines_guard inp plan :
  Compile inp = Ok plan → input_wf inp →
  ∀ pk, packet_wf pk → plan_accepts plan pk = guard_accepts inp pk.
Proof.
  intros (resolve & beacon & trusted & notrack & low & _ & Hres & Hbe & Htr & Hlow & Hnorm)%Compile_Ok Hwf pk Hpk.
  set (start := mkNFTPlan _ _ [] [] [] [] (beacon ++ trusted) notrack) in Hlow.
  destruct (trustedZones_spec inp resolve Hres Hwf _ _ pk Htr) as (Ta & Tb & _ & Tm).
  assert (all_accept beacon ∧ Forall no_blank beacon ∧
    matches_some pk beacon = match Beacon inp with Some b => beacon_matches b pk | None => false end) as (Ba & Bb & Bm).
  { destruct (Beacon inp) as [b|] eqn:Eb; subst beacon; [by apply (beaconRules_spec inp Hwf)|].
    split; [constructor|split; [constructor|done]]. }
  assert (building inp start) as Hstart by (constructor; [done..|by apply Forall_app]).
  assert (all_accept (InputRules start)) as Hsa by (by apply Forall_app).
  assert (matches_some pk (InputRules start) =
    match Beacon inp with Some b => beacon_matches b pk | None => false end ||
    existsb (fun id => match Zones inp !! id with Some zone => trusted_matches zone pk | None => false end)
      (ZoneIDs (Binding inp))) as Hsm.
  { unfold start. cbn [InputRules]. unfold matches_some. rewrite existsb_app. fold (matches_some pk).
    by rewrite <- Bm, <- Tm. }
  unfold guard_accepts. fold (enabled_match inp pk). fold (first_allows inp (orderedRules inp) pk).
  rewrite <- Hsm. clear Hsm Tm Bm Ta Tb Ba Bb.
  assert (building inp low → plan_accepts plan pk = plan_accepts low pk) as Hn.
  { intros [_ _ Hb]. apply verdict_ext. by apply NormalizeNFTPlan_same. }
  destruct (existsb enabledDeny (orderedRules inp)) eqn:Ed; cbn [negb] in Hlow.
  - apply (lowerRules_ordered inp resolve Hres Hwf _ _ _ pk) in Hlow as (Hb & (E1 & E2 & E3 & E4) & Hv); [|done..].
    rewrite Hn by done. unfold plan_accepts, chain, broad_rules. rewrite E1, E2, E3, E4. cbn [broad length Nat.eqb app].
    rewrite app_nil_r, Hv. destruct (matches_some pk (InputRules start)) eqn:Em; [|done].
    rewrite verdict_accepts by done. exact Em.
  - apply (lowerRules_fast inp resolve Hres Hwf _ _ _ pk) in Hlow as (Hb & Ha & Hv); [| |done..].
    + rewrite Hn by done. unfold plan_accepts. rewrite verdict_accepts.
      * unfold matches_some in Hv. rewrite Hv. unfold chain. cbn [start broad_rules].
        rewrite app_nil_r. done.
      * apply Forall_app. split; [done|]. unfold broad_rules.
        repeat (apply Forall_app; split); unfold broad; destruct (_ =? 0)%nat; by repeat constructor.
    + intros rule Hr. split; [done|]. rewrite <- not_true_iff_false in Ed |- *. intros E. apply Ed.
      apply existsb_elem_of. eauto.
Qed.
End compiled.

(** ** Port lists as ranges *)

Lemma valid_filter ports : Forall port_ok ports → List.filter (fun p => (1 <=? p) && (p <=? 65535)) ports = ports.
Proof.
  intros Hp. apply filter_all. intros p Hin. rewrite Forall_forall in Hp. apply Hp in Hin. unfold port_ok in Hin.
  go_bool. lia.
Qed.
Lemma StronglySorted_lt_app (l k : list Z) :
  StronglySorted Z.lt l → StronglySorted Z.lt k → (∀ x y, x ∈ l → y ∈ k → x < y) → StronglySorted Z.lt (l ++ k).
Proof.
  induction 1 as [|x l Hs IH Hx]; intros Hk Hlk; [done|]. cbn. constructor.
  - apply IH; [done|]. intros y z Hy. apply Hlk. by right.
  - apply Forall_app. split; [done|]. apply Forall_forall. intros y Hy. apply Hlk; [left|done].
Qed.
Lemma seqZ_sorted m n : StronglySorted Z.lt (seqZ m n).
Proof.
  unfold seqZ. generalize 0%nat as i. induction (Z.to_nat n) as [|k IH]; intros i; cbn; constructor.
  - apply IH.
  - apply Forall_forall. intros x (j & -> & Hj)%list_elem_of_fmap. apply elem_of_seq in Hj. lia.
Qed.
Lemma flat_ranges_app l k : flat_map range_ports (l ++ k) = flat_map range_ports l ++ flat_map range_ports k.
Proof. apply flat_map_app. Qed.
(** The loop invariant: what was collected is increasing, ends with the last
    range, and holds exactly the ports seen. *)
Lemma ranges_go_spec last out l :
  StronglySorted Z.le (To last :: l) → From last <= To last →
  StronglySorted Z.lt (flat_map range_ports (out ++ [last])) →
  (∀ x, x ∈ flat_map range_ports (out ++ [last]) → x <= To last) →
  StronglySorted Z.lt (flat_map range_ports (ranges_go last out l)) ∧
  (∀ x, x ∈ flat_map range_ports (ranges_go last out l) ↔ x ∈ flat_map range_ports (out ++ [last]) ∨ x ∈ l).
Proof.
  revert last out. induction l as [|p l IH]; intros last out Hs Hft Hl Hmax; cbn [ranges_go].
  { split; [done|]. intros x. set_solver. }
  inversion_clear Hs as [|? ? Hs1 Hs2]. apply Forall_cons in Hs2 as [Hp Hs2].
  assert (∀ q, q ∈ flat_map range_ports [last] ↔ From last <= q <= To last) as Hlast.
  { intros q. cbn [flat_map]. rewrite app_nil_r. unfold range_ports. rewrite elem_of_seqZ. lia. }
  destruct (p =? To last) eqn:E1; [|destruct (p =? To last + 1) eqn:E2].
  - apply Z.eqb_eq in E1 as ->. destruct (IH last out) as [IH1 IH2]; [done..|]. split; [done|].
    intros x. rewrite IH2, elem_of_cons, flat_ranges_app, elem_of_app, Hlast. naive_solver lia.
  - apply Z.eqb_eq in E2 as ->. set (last' := mkRange (From last) (To last + 1)).
    assert (flat_map range_ports [last'] = flat_map range_ports [last] ++ [To last + 1]) as Ext.
    { cbn [flat_map]. rewrite !app_nil_r. unfold range_ports, last'. cbn [From To].
      replace (To last + 1 - From last + 1) with ((To last - From last + 1) + 1) by lia.
      rewrite seqZ_app by lia. f_equal. unfold seqZ. change (Z.to_nat 1) with 1%nat. cbn [seq fmap list_fmap].
      f_equal. lia. }
    assert (flat_map range_ports (out ++ [last']) = flat_map range_ports (out ++ [last]) ++ [To last + 1]) as Ext'.
    { rewrite !flat_ranges_app, Ext. by rewrite app_assoc. }
    destruct (IH last' out) as [IH1 IH2].
    + done.
    + cbn. lia.
    + rewrite Ext'. apply StronglySorted_lt_app; [done|repeat constructor|].
      intros x y Hx%Hmax Hy%list_elem_of_singleton. lia.
    + intros x. rewrite Ext', elem_of_app, list_elem_of_singleton. cbn [last' To]. intros [Hx%Hmax|Hx]; lia.
    + split; [done|]. intros x. rewrite IH2, Ext', elem_of_app, list_elem_of_singleton, elem_of_cons. naive_solver.
  - apply Z.eqb_neq in E1, E2. destruct (IH (mkRange p p) (out ++ [last])) as [IH1 IH2].
    + done.
    + cbn. lia.
    + rewrite flat_ranges_app. apply StronglySorted_lt_app; [done| |].
      * cbn [flat_map]. rewrite app_nil_r. apply seqZ_sorted.
      * intros x y Hx%Hmax. cbn [flat_map]. rewrite app_nil_r. unfold range_ports. rewrite elem_of_seqZ. cbn. lia.
    + intros x. rewrite flat_ranges_app, elem_of_app. cbn [flat_map To]. rewrite app_nil_r. unfold range_ports at 2.
      rewrite elem_of_seqZ. cbn. intros [Hx%Hmax|Hx]; lia.
    + split; [done|]. intros x. rewrite IH2, (flat_ranges_app (_ ++ _)), elem_of_app, elem_of_cons.
      cbn [flat_map]. rewrite app_nil_r. unfold range_ports at 2. rewrite elem_of_seqZ. cbn [From To].
      split; [intros [[?|?]|?]; auto; right; left; lia|].
      intros [?|[->|?]]; auto. left. right. lia.
Qed.
Lemma sorted_lt_le l : StronglySorted Z.lt l → StronglySorted Z.le l ∧ NoDup l.
Proof.
  induction 1 as [|x l Hs [IH1 IH2] Hx]; [split; constructor|]. split; constructor; try done.
  - eapply Forall_impl; [exact Hx|]. cbn. lia.
  - rewrite Forall_forall in Hx. intros Hin. apply Hx in Hin. lia.
Qed.
Lemma sorted_lt_sort l k : StronglySorted Z.lt l → (∀ x, x ∈ l ↔ x ∈ k) → l = sort_ints (dedup k).
Proof.
  intros [Hs Hn]%sorted_lt_le Hx. symmetry. apply (StronglySorted_unique Z.le); [apply sort_ints_sorted|done|].
  rewrite sort_ints_perm. apply NoDup_Permutation; [apply NoDup_dedup|done|].
  intros x. by rewrite elem_of_dedup, Hx.
Qed.
Lemma PortRanges_flat ports :
  Forall port_ok ports → flat_map range_ports (PortRanges ports) = sort_ints (dedup ports).
Proof.
  intros Hp. apply sorted_lt_sort; unfold PortRanges; rewrite valid_filter by done;
    (destruct (sort_ints ports) as [|p l] eqn:E; [|
      destruct (ranges_go_spec (mkRange p p) [] l) as [H1 H2];
      [cbn [To]; rewrite <- E; apply sort_ints_sorted|cbn; lia|cbn [app flat_map]; rewrite app_nil_r; apply seqZ_sorted
      |cbn [app flat_map]; rewrite app_nil_r; unfold range_ports; intros x; rewrite elem_of_seqZ; cbn; lia|]]).
  - constructor.
  - done.
  - intros x. rewrite <- (elem_of_sort_ints x ports), E. done.
  - intros x. rewrite H2, <- (elem_of_sort_ints x ports), E, elem_of_cons. cbn [app flat_map]. rewrite app_nil_r.
    unfold range_ports. rewrite elem_of_seqZ. cbn. split; (intros [?|?]; [left; lia|by right]).
Qed.
Lemma PortRanges_valid ports :
  Forall port_ok ports → Forall (fun r => 1 <= From r ∧ From r <= To r ∧ To r <= 65535) (PortRanges ports).
Proof.
  intros Hp. unfold PortRanges. rewrite valid_filter by done.
  assert (Forall port_ok (sort_ints ports)) as Hs by (by rewrite sort_ints_perm).
  pose proof (sort_ints_sorted ports) as Hso. destruct (sort_ints ports) as [|p l]; [constructor|].
  apply Forall_cons in Hs as [Hp0 Hs]. unfold port_ok in Hp0.
  assert (∀ last out, Forall (fun r => 1 <= From r ∧ From r <= To r ∧ To r <= 65535) (out ++ [last]) →
    Forall (fun q => To last <= q) l →
    Forall (fun r => 1 <= From r ∧ From r <= To r ∧ To r <= 65535) (ranges_go last out l)) as H.
  { inversion_clear Hso as [|? ? Hso' _]. clear p Hp0 Hp. induction l as [|q l IH]; intros last out Hout Hge;
      cbn [ranges_go]; [done|].
    apply Forall_cons in Hs as [Hq Hs]. unfold port_ok in Hq. apply Forall_cons in Hge as [Hqg Hge].
    inversion_clear Hso' as [|? ? Hso1 Hso2]. apply Forall_app in Hout as Ho. destruct Ho as [Ho1 Ho2].
    apply Forall_inv in Ho2. destruct (q =? _) eqn:E1; [|destruct (q =? _ + 1) eqn:E2].
    - apply IH; done.
    - apply IH; [done..| |].
      + apply Forall_app. split; [done|]. constructor; [cbn; lia|constructor].
      + exact Hso2.
    - apply IH; [done..| |exact Hso2]. apply Forall_app. split; [done|].
      constructor; [cbn; lia|constructor]. }
  apply H; [constructor; [cbn; lia|constructor]|]. by inversion_clear Hso.
Qed.
Lemma check_ranges_complete total ranges :
  Forall (fun r => 1 <= From r ∧ From r <= To r ∧ To r <= 65535) ranges →
  total + Z.of_nat (length (flat_map range_ports ranges)) <= MaxExpandedPortsPerRule →
  check_ranges total ranges = Ok tt.
Proof.
  intros Hr. revert total. induction Hr as [|r ranges Hr _ IH]; intros total Ht; cbn [check_ranges]; [done|].
  cbn [flat_map] in Ht. rewrite length_app in Ht. unfold range_ports in Ht at 1. rewrite length_seqZ in Ht.
  unfold guard_err.
  assert ((From r <? 1) || (65535 <? From r) || (To r <? 1) || (65535 <? To r) = false) as -> by (go_bool; lia).
  assert ((To r <? From r) = false) as -> by (go_bool; lia).
  assert ((MaxExpandedPortsPerRule <? total + (To r - From r + 1)) = false) as -> by (go_bool; lia).
  apply IH. lia.
Qed.

Lemma PortRanges_expand ports :
  Forall port_ok ports → Z.of_nat (length (dedup ports)) <= MaxExpandedPortsPerRule →
  ExpandPortRanges (PortRanges ports) = Ok (sort_ints (dedup ports)).
Proof.
  intros Hp Hl. pose proof (PortRanges_flat ports Hp) as Hf. pose proof (PortRanges_valid ports Hp) as Hv.
  assert (check_ranges 0 (PortRanges ports) = Ok tt) as Hc.
  { apply check_ranges_complete; [done|]. rewrite Hf. rewrite (Permutation_length (sort_ints_perm _)). lia. }
  unfold ExpandPortRanges. destruct (PortRanges ports) as [|r l] eqn:E.
  - cbn in Hf. by rewrite Hf.
  - rewrite Hc. cbn [mbind res_bind]. rewrite Hf. f_equal.
    rewrite dedup_id, sort_ints_id; [done|apply sort_ints_sorted|apply NoDup_sort_ints, NoDup_dedup].
Qed.
(** Ports survive the trip through ranges: a valid port list of at most
    1024 distinct ports, compressed into ranges and expanded again, comes
    back sorted and without duplicates. *)
Theorem port_ranges_roundtrip ports :
  Forall port_ok ports → Z.of_nat (length (dedup ports)) <= MaxExpandedPortsPerRule →
  ExpandPortRanges (PortRanges ports) = Ok (sort_ints (dedup ports)).
Proof. apply PortRanges_expand. Qed.
Lemma port_ranges_roundtrip_witness :
  ExpandPortRanges (PortRanges [9010; 80; 9009; 9011; 80]) = Ok [80; 9009; 9010; 9011].
Proof.
  exact (port_ranges_roundtrip [9010; 80; 9009; 9011; 80] ltac:(repeat constructor; unfold port_ok; lia)
    ltac:(vm_compute; discriminate)).
Defined.

(** ** Legacy baselines *)

Record NFTInputs := mkInputs {
  niNodeID : string; niInterfaceName : string; niWireGuardCIDR : string;
  niPublicTCP : list Z; niPublicUDP : list Z; niWireGuardTCP : list Z; niWireGuardUDP : list Z }.
Record LegacyView := mkView { vGroup : SecurityGroup; vBinding : NodeGuardBinding; vZones : list GuardZone }.
Definition nftPlanFromStoredInputs (i : NFTInputs) : NFTPlan :=
  mkNFTPlan (niInterfaceName i) (niWireGuardCIDR i) (niPublicTCP i) (niPublicUDP i) (niWireGuardTCP i)
    (niWireGuardUDP i) [] [].
Definition LegacyGroupPrefix : string := "sg-legacy-".

Section legacy.
Context `{GuardSdk}.

Definition legacyRule (id proto comment : string) (ports : list Z) (zone : string) : list GuardRule :=
  match PortRanges ports with
  | [] => []
  | ranges => [mkGuardRule id comment NetRuleAllow NetDirIngress proto ranges
                 (mkGuardEnd NetRefZone "" "" "" zone) false false]
  end.
Definition LegacyBaseline (i : NFTInputs) : LegacyView :=
  let iface := if niInterfaceName i =?? "" then defaultInterface else niInterfaceName i in
  let wgCIDR := if niWireGuardCIDR i =?? "" then defaultWireGuardCIDR else niWireGuardCIDR i in
  let rules :=
    legacyRule "legacy-public-tcp" NetProtoTCP "public lattice tcp ports" (niPublicTCP i) GuardZonePublic ++
    legacyRule "legacy-public-udp" NetProtoUDP "public lattice udp ports" (niPublicUDP i) GuardZonePublic ++
    legacyRule "legacy-wg-tcp" NetProtoTCP "wg tcp services" (niWireGuardTCP i) GuardZoneWireGuard ++
    legacyRule "legacy-wg-udp" NetProtoUDP "wg udp services" (niWireGuardUDP i) GuardZoneWireGuard in
  let groupID := LegacyGroupPrefix +:+ niNodeID i in
  mkView (mkSecurityGroup groupID rules) (mkBinding (niNodeID i) [groupID] [] [] false)
    [mkZone GuardZonePublic [iface] []; mkZone GuardZoneWireGuard [] [wgCIDR]; mkZone GuardZoneLoopback ["lo"] []].

(** The zone map of a node: the operator's zones, with the builtin ones
    filled in from the node's inputs. *)
Definition resolveNodeZonesFrom (guardZones : list GuardZone) (inputs : NFTInputs) (hasInputs : bool)
  : gmap string GuardZone :=
  let zones := ZoneMap guardZones in
  let empty := mkZone "" [] [] in
  let public := default empty (zones !! GuardZonePublic) in
  let ifaces := match zInterfaces public with
    | [] => [if hasInputs && negb (niInterfaceName inputs =?? "") then niInterfaceName inputs else "eth0"]
    | l => l end in
  let zones := <[GuardZonePublic := mkZone GuardZonePublic ifaces (zCIDRs public)]> zones in
  let wg := default empty (zones !! GuardZoneWireGuard) in
  let cidrs := match zCIDRs wg with
    | [] => [if hasInputs && negb (niWireGuardCIDR inputs =?? "") then niWireGuardCIDR inputs else "10.66.0.0/24"]
    | l => l end in
  let zones := <[GuardZoneWireGuard := mkZone GuardZoneWireGuard (zInterfaces wg) cidrs]> zones in
  match zones !! GuardZoneLoopback with
  | Some _ => zones
  | None => <[GuardZoneLoopback := mkZone GuardZoneLoopback ["lo"] []]> zones
  end.

(** The compile input of a node adopted from its baseline, in a fleet with no
    operator zones. *)
Definition adopted (i : NFTInputs) (resolve : string → option GuardNode) : CompileInput :=
  let view := LegacyBaseline i in
  mkCompile (mkBinding (niNodeID i) [sgID (vGroup view)] [] [] true) [vGroup view]
    (resolveNodeZonesFrom [] i true) (Some resolve) None None.
End legacy.

Section parity.
Context `{GuardSdkLaws}.

Definition ports_fit (ports : list Z) : Prop :=
  Forall port_ok ports ∧ Z.of_nat (length (dedup ports)) <= MaxExpandedPortsPerRule.

Lemma adopted_zones i :
  zoneInterface (resolveNodeZonesFrom [] i true) GuardZonePublic defaultInterface =
    plan_iface (nftPlanFromStoredInputs i) ∧
  zoneCIDR (resolveNodeZonesFrom [] i true) GuardZoneWireGuard defaultWireGuardCIDR =
    plan_wg (nftPlanFromStoredInputs i).
Proof.
  pose proof guard_zones as [Hn1 [Hn2 _]%NoDup_cons]%NoDup_cons.
  rewrite !not_elem_of_cons in Hn1. rewrite !not_elem_of_cons in Hn2.
  unfold resolveNodeZonesFrom. cbn [ZoneMap fold_left].
  rewrite lookup_empty. cbn [default from_option zInterfaces zCIDRs].
  rewrite (lookup_insert_ne _ GuardZonePublic GuardZoneWireGuard), lookup_empty by naive_solver.
  cbn [default from_option zInterfaces zCIDRs].
  rewrite (lookup_insert_ne _ GuardZoneWireGuard GuardZoneLoopback) by naive_solver.
  rewrite (lookup_insert_ne _ GuardZonePublic GuardZoneLoopback), lookup_empty by naive_solver.
  unfold zoneInterface, zoneCIDR, plan_iface, plan_wg. cbn [nftPlanFromStoredInputs InterfaceName WireGuardCIDR].
  rewrite (lookup_insert_ne _ GuardZoneLoopback GuardZonePublic) by naive_solver.
  rewrite (lookup_insert_ne _ GuardZoneWireGuard GuardZonePublic), lookup_insert_eq by naive_solver.
  rewrite (lookup_insert_ne _ GuardZoneLoopback GuardZoneWireGuard), lookup_insert_eq by naive_solver.
  cbn. by destruct (niInterfaceName i =?? ""), (niWireGuardCIDR i =?? "").
Qed.

(** One legacy rule is lowered to its port list. *)
Lemma lower_legacy plan id proto comment ports zone b resolve inp rest :
  ports_fit ports → zone = match b with BPublicTCP | BPublicUDP => GuardZonePublic | _ => GuardZoneWireGuard end →
  proto = match b with BPublicTCP | BWireGuardTCP => NetProtoTCP | _ => NetProtoUDP end →
  lowerRules plan (legacyRule id proto comment ports zone ++ rest) resolve inp true =
  lowerRules (add_ports b (sort_ints (dedup ports)) plan) rest resolve inp true.
Proof.
  intros [Hp Hl] -> ->. pose proof (PortRanges_expand ports Hp Hl) as He.
  pose proof (PortRanges_flat ports Hp) as Hf.
  destruct guard_protocols as (Et & Eu & Ea).
  pose proof guard_zones as [Hn1 _]%NoDup_cons. rewrite !not_elem_of_cons in Hn1. destruct Hn1 as [Hn1 _].
  unfold legacyRule. destruct (PortRanges ports) as [|r l] eqn:Er.
  { cbn in Hf. rewrite <- Hf. cbn [app]. f_equal. destruct plan; unfold add_ports; cbn.
    by destruct b; rewrite !app_nil_r. }
  cbn [app lowerRules gDisabled].
  assert (length (sort_ints (dedup ports)) =? 0 = false)%nat as Hlen.
  { rewrite <- Hf. cbn [flat_map]. rewrite length_app. unfold range_ports at 1. rewrite length_seqZ.
    pose proof (PortRanges_valid ports Hp) as Hv. rewrite Er in Hv. apply Forall_inv in Hv.
    apply Nat.eqb_neq. lia. }
  set (rule := mkGuardRule _ _ _ _ _ _ _ _ _).
  assert (fastPathBucket rule (sort_ints (dedup ports)) = Some b) as Hb.
  { unfold fastPathBucket. rewrite Hlen. cbn [rule gAction gRemote geKind geZoneID gProtocol].
    rewrite (bool_decide_eq_true_2 (NetRuleAllow = _)), (bool_decide_eq_true_2 (NetRefZone = _)) by done. cbn [negb orb].
    assert (NetProtoUDP ≠ NetProtoTCP) by (rewrite Et, Eu; done).
    destruct b; repeat (case_bool_decide; try congruence). }
  assert (lowerRule plan rule resolve inp true = Ok (add_ports b (sort_ints (dedup ports)) plan)) as ->; [|done].
  unfold lowerRule. change (ExpandPortRanges (gPorts rule)) with (ExpandPortRanges (r :: l)). rewrite He, Hb.
  cbn [rule gDirection gAction gProtocol gLog gPorts].
  assert (mem NetRuleAllow [NetRuleAllow; NetRuleDeny] = true) as -> by (apply mem_spec; left).
  rewrite (bool_decide_eq_true_2 (NetDirIngress = NetDirIngress)) by done.
  assert (∀ p, p = match b with BPublicTCP | BWireGuardTCP => NetProtoTCP | _ => NetProtoUDP end →
    mem p [NetProtoTCP; NetProtoUDP; NetProtoAny] = true ∧ (p =?? NetProtoAny) = false) as Hpr.
  { intros p ->. rewrite mem_spec, bool_decide_eq_false, Et, Eu, Ea. destruct b; split; (set_solver || done). }
  destruct (Hpr _ eq_refl) as [-> ->]. done.
Qed.

(** Parity: a node adopted from its legacy baseline compiles to the very
    plan the legacy path renders, errors included, when its port lists are
    valid and hold at most 1024 distinct ports each. *)
Theorem legacy_parity i resolve :
  ports_fit (niPublicTCP i) → ports_fit (niPublicUDP i) → ports_fit (niWireGuardTCP i) → ports_fit (niWireGuardUDP i) →
  Compile (adopted i resolve) = wrap_err ErrPlan (NormalizeNFTPlan (nftPlanFromStoredInputs i)).
Proof.
  intros HP1 HP2 HP3 HP4. unfold Compile. cbn [adopted Binding Managed negb guard_err Resolve Beacon Zones ZoneIDs trustedZones].
  destruct (adopted_zones i) as [-> ->].
  assert (existsb enabledDeny (orderedRules (adopted i resolve)) = false) as ->.
  { apply not_true_iff_false. rewrite existsb_elem_of. intros (rule & Hr & Hd). unfold orderedRules in Hr.
    cbn in Hr. rewrite app_nil_r, !elem_of_app in Hr.
    assert (∀ id pr c ps z, rule ∈ legacyRule id pr c ps z → gAction rule = NetRuleAllow) as Hact.
    { intros id pr c ps z. unfold legacyRule. destruct (PortRanges ps); [by intros ?%elem_of_nil|].
      by intros ->%list_elem_of_singleton. }
    assert (gAction rule = NetRuleAllow) as Ha by (destruct Hr as [?|[?|[?|?]]]; eauto).
    unfold enabledDeny in Hd. rewrite Ha, bool_decide_eq_false_2, andb_false_r in Hd by apply guard_actions. done. }
  assert (orderedRules (adopted i resolve) = sgRules (vGroup (LegacyBaseline i)) ++ []) as -> by done.
  cbn [LegacyBaseline vGroup sgRules negb]. rewrite <- !app_assoc.
  rewrite (lower_legacy _ _ _ _ _ _ BPublicTCP), (lower_legacy _ _ _ _ _ _ BPublicUDP),
    (lower_legacy _ _ _ _ _ _ BWireGuardTCP), (lower_legacy _ _ _ _ _ _ BWireGuardUDP) by done.
  cbn [lowerRules mbind res_bind app]. f_equal.
  set (low := add_ports BWireGuardUDP _ _).
  assert (low = mkNFTPlan (plan_iface (nftPlanFromStoredInputs i)) (plan_wg (nftPlanFromStoredInputs i))
    (sort_ints (dedup (niPublicTCP i))) (sort_ints (dedup (niPublicUDP i))) (sort_ints (dedup (niWireGuardTCP i)))
    (sort_ints (dedup (niWireGuardUDP i))) [] []) as -> by reflexivity.
  assert (∀ ps, ports_fit ps → normalizePorts (sort_ints (dedup ps)) = normalizePorts ps) as Hn.
  { intros ps [Hp _]. transitivity (Ok (E := nftError) (sort_ints (dedup ps))).
    - assert (normalizePorts ps = Ok (sort_ints (dedup ps))) as E by (by apply normalizePorts_Ok).
      pose proof (normalizePorts_normal_out _ _ E) as (? & ? & ?). by apply normalizePorts_normal.
    - symmetry. by apply normalizePorts_Ok. }
  unfold NormalizeNFTPlan.
  cbn [nftPlanFromStoredInputs PublicTCP PublicUDP WireGuardTCP WireGuardUDP InputRules NotrackUDP InterfaceName WireGuardCIDR].
  fold (plan_iface (nftPlanFromStoredInputs i)) (plan_wg (nftPlanFromStoredInputs i)).
  rewrite !Hn by done. unfold plan_iface, plan_wg. cbn [InterfaceName WireGuardCIDR nftPlanFromStoredInputs].
  destruct (niInterfaceName i =?? "") eqn:Ei, (niWireGuardCIDR i =?? "") eqn:Ew; rewrite ?Ei, ?Ew; done.
Qed.
End parity.

(** ** Blank sources *)

Section blank_source.
Context `{GuardSdkLaws}.

Definition allow_from (cidr : string) : GuardRule :=
  mkGuardRule "office" "" NetRuleAllow NetDirIngress NetProtoAny [] (mkGuardEnd NetRefCIDR "" cidr "" "") false false.
Definition one_rule (rule : GuardRule) : CompileInput :=
  mkCompile (mkBinding "n1" [] [] [rule] true) [] ∅ (Some (fun _ => None)) None None.

(** A source of white space opens the node: a rule that allows from a
    CIDR of blanks passes the check that a CIDR is there, its source is
    dropped by the normalizer, and the compiled plan accepts every
    connection. *)
Theorem blank_source_admits_everyone cidr :
  cidr ≠ "" → blank cidr = true →
  ∃ plan, Compile (one_rule (allow_from cidr)) = Ok plan ∧ ∀ pk, plan_accepts plan pk = true.
Proof.
  intros Hne Hb. destruct guard_protocols as (Et & Eu & Ea).
  set (r := mkInput "" [] NetProtoAny [] NFTActionAccept "office").
  exists (mkNFTPlan "eth0" "10.66.0.0/24" [] [] [] [] [r] []). split.
  - assert (ruleSource (allow_from cidr) (fun _ => None) (one_rule (allow_from cidr)) = Ok ([cidr], "")) as Hs.
    { unfold ruleSource. cbn [allow_from gRemote geKind geCIDR].
      rewrite (bool_decide_eq_false_2 (NetRefCIDR = NetRefAny)) by (by apply (kinds_distinct _ _ 2 1)).
      rewrite (bool_decide_eq_false_2 (NetRefCIDR = "")) by (by apply (kinds_distinct _ _ 2 0)).
      by rewrite (bool_decide_eq_true_2 (NetRefCIDR = NetRefCIDR)), bool_decide_eq_false_2. }
    assert (∀ plan, lowerRule plan (allow_from cidr) (fun _ => None) (one_rule (allow_from cidr)) true =
      Ok (add_rule (mkInput "" [cidr] NetProtoAny [] NFTActionAccept "office") plan)) as Hl.
    { intros plan. unfold lowerRule. rewrite Hs.
      cbn [allow_from gDirection gAction gProtocol gLog gPorts gRemote geKind ExpandPortRanges length Nat.eqb negb].
      assert (mem NetRuleAllow [NetRuleAllow; NetRuleDeny] = true) as -> by (apply mem_spec; left).
      assert (mem NetProtoAny [NetProtoTCP; NetProtoUDP; NetProtoAny] = true) as -> by (apply mem_spec; set_solver).
      rewrite (bool_decide_eq_true_2 (NetDirIngress = NetDirIngress)) by done.
      unfold fastPathBucket. cbn [length Nat.eqb]. rewrite orb_true_r, andb_false_r. cbn [guard_err negb].
      rewrite (bool_decide_eq_false_2 (NetRefCIDR = NetRefGroup)) by (by apply (kinds_distinct _ _ 2 6)).
      cbn [andb]. unfold nftAction. by rewrite bool_decide_eq_false_2 by apply guard_actions. }
    assert (existsb enabledDeny (orderedRules (one_rule (allow_from cidr))) = false) as Hd.
    { cbn. unfold enabledDeny. cbn. by rewrite bool_decide_eq_false_2 by apply guard_actions. }
    unfold Compile. cbn [one_rule Binding Managed negb guard_err Resolve Beacon Zones ZoneIDs trustedZones].
    fold (one_rule (allow_from cidr)). rewrite Hd.
    change (orderedRules (one_rule (allow_from cidr))) with [allow_from cidr]. cbn [lowerRules negb].
    change (gDisabled (allow_from cidr)) with false. rewrite Hl. cbn [mbind res_bind].
    unfold zoneInterface, zoneCIDR. rewrite !lookup_empty. cbn [fmap option_fmap option_map].
    unfold NormalizeNFTPlan. cbn [add_rule InterfaceName WireGuardCIDR PublicTCP PublicUDP WireGuardTCP WireGuardUDP
      InputRules NotrackUDP app normalizeInputRules].
    assert (normalizeInputRule (mkInput "" [cidr] NetProtoAny [] NFTActionAccept "office") = Ok r) as ->.
    { unfold normalizeInputRule. cbn [rAction rProtocol rInterface rPorts SourceCIDRs rComment].
      unfold normalizeSourceCIDRs. cbn [sources_loop]. fold (blank cidr). rewrite Hb. unfold r. rewrite Ea.
      vm_compute. reflexivity. }
    vm_compute. reflexivity.
  - intros pk. unfold plan_accepts, chain. cbn [InputRules app verdict]. rewrite rule_matches_eq. cbn [r rInterface
      SourceCIDRs rProtocol rPorts rAction]. rewrite (bool_decide_eq_true_2 ("" = "")) by done.
    rewrite (bool_decide_eq_true_2 (NetProtoAny = _)) by done. done.
Qed.
End blank_source.

(** ** A concrete node *)

Module GuardDemo.
#[export] Existing Instance NetDemo.net_sdk.
#[export] Instance guard_sdk : GuardSdk := Build_GuardSdk _ "zone" "public" "wireguard" "loopback" "icmp" "icmpv6".
Lemma guard_laws : GuardSdkLaws.
Proof. split; try (split; reflexivity); try done; apply (bool_decide_unpack _); vm_compute; exact I. Qed.
Definition fleet (id : string) : option GuardNode :=
  if id =?? "n2" then Some (mkGuardNode "10.66.0.2/24" "2001:db8::2") else
  if id =?? "n3" then Some (mkGuardNode "" "198.51.100.3") else None.
Definition rule id action proto ports remote := mkGuardRule id "" action "ingress" proto ports remote false false.
Definition zone z := mkGuardEnd "zone" "" "" "" z.
(** A deny ahead of an allow of the same port, and a group remote. *)
Definition inp : CompileInput :=
  mkCompile
    (mkBinding "n1" ["web"] ["tail"] [rule "no-db" "deny" "tcp" [mkRange 5432 5433] (mkGuardEnd "" "" "" "" "")] true)
    [mkSecurityGroup "web" [rule "web" "allow" "tcp" [mkRange 80 80; mkRange 5432 5432] (zone "public");
                            rule "peers" "allow" "any" [] (mkGuardEnd "group" "" "" "g" "");
                            rule "office" "allow" "udp" [] (mkGuardEnd "cidr" "" "203.0.113.9/24" "" "")]]
    {["public" := mkZone "public" ["ens3"] []; "wireguard" := mkZone "wireguard" [] ["10.66.0.0/24"];
      "tail" := mkZone "tail" ["tailscale0"] []]}
    (Some fleet) (Some (fun g => if g =?? "g" then Some ["n2"; "gone"; "n3"] else None))
    (Some (mkBeacon "192.0.2.1" 7000 ["198.51.100.0/24"])).
Definition plan : NFTPlan := Eval vm_compute in match Compile inp with Ok p => p | Err _ => Nft.ex_plan end.
Lemma compiled : Compile inp = Ok plan.
Proof. vm_compute. reflexivity. Qed.
Lemma inp_wf : input_wf inp.
Proof.
  split.
  - intros id z H.
    assert (∀ x, x ∈ (map_to_list (Zones inp)).*2 → Forall (fun c => blank c = false) (zCIDRs x) ∧
      Forall (fun i => i ≠ "") (zInterfaces x)) as Hall.
    { apply Forall_forall. vm_compute. repeat constructor; discriminate. }
    apply Hall, list_elem_of_fmap. exists (id, z). split; [done|]. by apply elem_of_map_to_list.
  - apply (Forall_forall (fun rule => geKind (gRemote rule) = NetRefCIDR → blank (geCIDR (gRemote rule)) = false)).
    apply (bool_decide_unpack _). vm_compute. exact I.
  - intros b [= <-]. apply (bool_decide_unpack _). vm_compute. exact I.
Qed.
Definition pk src iface port : packet := mkPacket iface (A4 src) "tcp" port.
End GuardDemo.

Import (hints) GuardDemo.
Lemma compile_refines_guard_witness :
  plan_accepts GuardDemo.plan (GuardDemo.pk [198; 51; 100; 3] "ens3" 22) =
  guard_accepts GuardDemo.inp (GuardDemo.pk [198; 51; 100; 3] "ens3" 22).
Proof.
  refine (compile_refines_guard (H1 := GuardDemo.guard_laws) GuardDemo.inp GuardDemo.plan GuardDemo.compiled
    GuardDemo.inp_wf _ _).
  split; [|exact I]. split; [reflexivity|]. repeat constructor; unfold byte_range; lia.
Defined.
Lemma legacy_parity_witness :
  Compile (adopted (mkInputs "n1" "" "10.66.1.7/24" [443; 80] [] [] [51820]) (fun _ => None)) =
  wrap_err ErrPlan (NormalizeNFTPlan (nftPlanFromStoredInputs (mkInputs "n1" "" "10.66.1.7/24" [443; 80] [] [] [51820]))).
Proof.
  apply (legacy_parity (H1 := GuardDemo.guard_laws));
    (split; [repeat constructor; unfold port_ok; lia|vm_compute; discriminate]).
Defined.
Lemma blank_source_admits_everyone_witness :
  ∃ plan, Compile (one_rule (allow_from "  ")) = Ok plan ∧ ∀ pk, plan_accepts plan pk = true.
Proof.
  apply (blank_source_admits_everyone (H1 := GuardDemo.guard_laws)); [discriminate|vm_compute; reflexivity].
Defined.
