(* ===== verification/NetGuardLint.v ===== *)
(** * NetGuard: what a compiled plan lets in

    [internal/netguard/lint.go], the lockout lint that stands between a
    default-drop plan and an unreachable node, and [internal/netguard/admits.go],
    the check that a listener on the node is reachable by its audience.  Both
    walk the chain of a plan first match wins; the theorems relate their
    answers to the packet filter of Nft.v. *)

From Stdlib Require Import ZArith Lia Ascii.
From stdpp Require Import gmap strings sorting.
From S2P Require Import Prelude GoStr IpAddr IpNet Nft.

Local Open Scope Z_scope.

(** ** Prefixes as the checks read them *)

Definition parseSourcePrefix (value : string) : option Prefix :=
  let value := trim_space value in
  match ParsePrefix value with
  | Some prefix => Some (Masked prefix)
  | None =>
    match ParseAddrZone value with
    | Some (a, _) => Some (full (Unmap a))
    | None => None
    end
  end.
Definition sourceWithinAny (source : string) (prefixes : list string) : bool :=
  match parseSourcePrefix source with
  | None => false
  | Some inner =>
    existsb (fun raw =>
      match parseSourcePrefix raw with
      | None => false
      | Some outer =>
        Bool.eqb (Is4 (pAddr outer)) (Is4 (pAddr inner)) && (pBits outer <=? pBits inner) &&
        Contains outer (pAddr inner)
      end) prefixes
  end.

(** ** The lockout lint *)

Definition FindingLockoutRiskSSH : string := "lockout_risk_ssh".
Definition FindingUnverifiedApply : string := "unverified_apply".
Definition FindingManagementPortAssumed : string := "management_port_assumed".
Definition FindingInterfaceMissing : string := "interface_missing".
Definition FindingInterfaceUnverified : string := "interface_unverified".
Definition SeverityBlock : string := "block".
Definition SeverityWarn : string := "warn".
Definition ManagementPort : Z := 22.
Definition shellDaemons : list string := ["sshd"; "dropbear"].

Record GuardListener := mkListener { lProtocol : string; lPort : Z; lProcess : string; lAddress : string }.
Record GuardNodeReality := mkReality { Listeners : list GuardListener; Interfaces : list string }.
Record LintOptions := mkOptions { PublicURLConfigured : bool; Reality : option GuardNodeReality }.
(** [fArgs] are the values the message of a finding is formatted from. *)
Record Finding := mkFinding { fCode : string; fSeverity : string; fArgs : list string }.

(** No rune outside ASCII lowers to a letter of a daemon's name, so lowering
    bytes is enough. *)
Definition isShellDaemon (process : string) : bool :=
  let name := to_lower (trim_space process) in
  if name =?? "" then false else
  let name := match index_byte name "(" with Some i => trim_space (str_take i name) | None => name end in
  let name := match last_index_byte name "/" with Some i => str_drop (S i) name | None => name end in
  existsb (has_prefix name) shellDaemons.
Definition isLoopbackAddress (address : string) : bool :=
  let address := trim_space address in
  if address =?? "" then false else (address =?? "::1") || has_prefix address "127.".

Definition shellListener (l : GuardListener) : bool :=
  equal_fold (trim_space (lProtocol l)) "tcp" && negb ((lPort l <? 1) || (65535 <? lPort l)) &&
  isShellDaemon (lProcess l) && negb (isLoopbackAddress (lAddress l)).
Definition managementPorts (reality : option GuardNodeReality) : list Z * bool :=
  match reality with
  | None => ([ManagementPort], false)
  | Some reality =>
    match dedup (map lPort (List.filter shellListener (Listeners reality))) with
    | [] => ([ManagementPort], false)
    | ports => (sort_ints ports, true)
    end
  end.

Definition matchesTCPPort (rule : NFTInputRule) (port : Z) : bool :=
  if rProtocol rule =?? NFTProtoAny then true
  else if rProtocol rule =?? NFTProtoTCP then (length (rPorts rule) =? 0)%nat || mem port (rPorts rule)
  else false.
Definition shadows (accept drop : NFTInputRule) : bool :=
  if negb (rInterface drop =?? "") && negb (rInterface drop =?? rInterface accept) then false
  else if (length (SourceCIDRs drop) =? 0)%nat then true
  else if (length (SourceCIDRs accept) =? 0)%nat then false
  else forallb (fun source => sourceWithinAny source (SourceCIDRs drop)) (SourceCIDRs accept).
Definition shadowingDrop (drops : list NFTInputRule) (accept : NFTInputRule) : option NFTInputRule :=
  List.find (shadows accept) drops.
Definition ruleName (rule : NFTInputRule) : string :=
  let name := trim_space (rComment rule) in if name =?? "" then "an unnamed drop" else name.

(** One port: the walk over the chain, with the drops and the names so far. *)
Fixpoint walk (port : Z) (drops : list NFTInputRule) (shadowedBy : list string) (chain : list NFTInputRule)
  : bool * list string :=
  match chain with
  | [] => (false, shadowedBy)
  | rule :: chain =>
    if negb (matchesTCPPort rule port) then walk port drops shadowedBy chain
    else if negb (rAction rule =?? NFTActionAccept) then walk port (drops ++ [rule]) shadowedBy chain
    else match shadowingDrop drops rule with
    | Some drop =>
      let name := ruleName drop in
      walk port drops (if mem name shadowedBy then shadowedBy else shadowedBy ++ [name]) chain
    | None => (true, [])
    end
  end.
Fixpoint walk_ports (ports : list Z) (shadowedBy : list string) (chain : list NFTInputRule) : bool * list string :=
  match ports with
  | [] => (false, shadowedBy)
  | port :: ports =>
    match walk port [] shadowedBy chain with
    | (true, _) => (true, [])
    | (false, shadowedBy) => walk_ports ports shadowedBy chain
    end
  end.
Definition renormalized (plan : NFTPlan) : NFTPlan :=
  match NormalizeNFTPlan plan with Ok normalized => normalized | Err _ => plan end.
Definition management_chain (plan : NFTPlan) : list NFTInputRule :=
  InputRules plan ++
  (if (length (PublicTCP plan) =? 0)%nat then []
   else [mkInput (InterfaceName plan) [] NFTProtoTCP (PublicTCP plan) NFTActionAccept "public lattice tcp ports"]) ++
  (if (length (WireGuardTCP plan) =? 0)%nat then []
   else [mkInput "" [WireGuardCIDR plan] NFTProtoTCP (WireGuardTCP plan) NFTActionAccept "wg tcp services"]).
Definition managementPathOpen (plan : NFTPlan) (ports : list Z) : bool * list string :=
  walk_ports ports [] (management_chain (renormalized plan)).
Definition AcceptsTCPPort (plan : NFTPlan) (port : Z) : bool := (managementPathOpen plan [port]).1.

Definition planInterfaces (plan : NFTPlan) : list string :=
  let named :=
    (if negb (length (PublicTCP plan) =? 0)%nat || negb (length (PublicUDP plan) =? 0)%nat
     then [trim_space (InterfaceName plan)] else []) ++
    map (fun rule => trim_space (rInterface rule)) (InputRules plan) in
  sort_strings (dedup (List.filter (fun name => negb (name =?? "")) named)).
Definition reportsInterfaces (reality : option GuardNodeReality) : bool :=
  match reality with Some r => negb (length (Interfaces r) =? 0)%nat | None => false end.
Definition missingInterfaces (named : list string) (reality : option GuardNodeReality) : list string :=
  match reality with
  | Some r => if (length (Interfaces r) =? 0)%nat then [] else
    List.filter (fun name => negb (mem name (map trim_space (Interfaces r)))) named
  | None => []
  end.

Definition Lint (plan : NFTPlan) (opts : LintOptions) : list Finding :=
  let '(ports, evidence) := managementPorts (Reality opts) in
  let '(open, shadowedBy) := managementPathOpen plan ports in
  let named := planInterfaces plan in
  (if open then [] else [mkFinding FindingLockoutRiskSSH SeverityBlock (map dec_of_Z ports ++ shadowedBy)]) ++
  (if negb (length named =? 0)%nat && negb (reportsInterfaces (Reality opts))
   then [mkFinding FindingInterfaceUnverified SeverityBlock named]
   else map (fun name => mkFinding FindingInterfaceMissing SeverityBlock [name])
          (missingInterfaces named (Reality opts))) ++
  (if evidence then [] else [mkFinding FindingManagementPortAssumed SeverityWarn []]) ++
  (if PublicURLConfigured opts then [] else [mkFinding FindingUnverifiedApply SeverityWarn []]).
Definition Blocking (findings : list Finding) : bool :=
  existsb (fun f => fSeverity f =?? SeverityBlock) findings.

(** ** Listeners and their audience *)

Record Audience := mkAudience { Mesh : bool; MeshInterfaces : list string }.
Definition matchesPort (rule : NFTInputRule) (protocol : string) (port : Z) : bool :=
  if rProtocol rule =?? NFTProtoAny then true
  else (rProtocol rule =?? protocol) && ((length (rPorts rule) =? 0)%nat || mem port (rPorts rule)).
Definition onAudienceInterface (plan : NFTPlan) (rule : NFTInputRule) (audience : Audience) : bool :=
  if rInterface rule =?? "" then true
  else if Mesh audience then mem (rInterface rule) (MeshInterfaces audience)
  else rInterface rule =?? InterfaceName plan.
Definition unrestrictedSources (sources : list string) : bool :=
  (length sources =? 0)%nat ||
  existsb (fun raw => match parseSourcePrefix raw with Some prefix => pBits prefix =? 0 | None => false end) sources.
Definition reachesAudience (plan : NFTPlan) (rule : NFTInputRule) (audience : Audience) : bool :=
  if negb (onAudienceInterface plan rule audience) then false
  else if (length (SourceCIDRs rule) =? 0)%nat || negb (Mesh audience) then true
  else match parseSourcePrefix (WireGuardCIDR plan) with
  | None => true
  | Some mesh =>
    existsb (fun raw =>
      match parseSourcePrefix raw with
      | Some src => Bool.eqb (Is4 (pAddr src)) (Is4 (pAddr mesh)) &&
                    (Contains src (pAddr mesh) || Contains mesh (pAddr src))
      | None => false
      end) (SourceCIDRs rule)
  end.
Definition coversAudience (plan : NFTPlan) (rule : NFTInputRule) (audience : Audience) : bool :=
  if negb (onAudienceInterface plan rule audience) then false
  else if Mesh audience
  then (length (SourceCIDRs rule) =? 0)%nat || sourceWithinAny (WireGuardCIDR plan) (SourceCIDRs rule)
  else unrestrictedSources (SourceCIDRs rule).
Fixpoint admits_walk (plan : NFTPlan) (protocol : string) (port : Z) (audience : Audience) (chain : list NFTInputRule)
  : bool :=
  match chain with
  | [] => false
  | rule :: chain =>
    if negb (matchesPort rule protocol port) || negb (reachesAudience plan rule audience)
    then admits_walk plan protocol port audience chain
    else if negb (rAction rule =?? NFTActionAccept) then
      if coversAudience plan rule audience then false else admits_walk plan protocol port audience chain
    else if coversAudience plan rule audience then true
    else admits_walk plan protocol port audience chain
  end.
Definition admits_chain (plan : NFTPlan) : list NFTInputRule :=
  let list ports protocol (mesh : bool) :=
    if (length ports =? 0)%nat then []
    else [mkInput (if mesh then "" else InterfaceName plan) (if mesh then [WireGuardCIDR plan] else [])
            protocol ports NFTActionAccept ""] in
  InputRules plan ++
  list (PublicTCP plan) NFTProtoTCP false ++ list (PublicUDP plan) NFTProtoUDP false ++
  list (WireGuardTCP plan) NFTProtoTCP true ++ list (WireGuardUDP plan) NFTProtoUDP true.
Definition Admits (plan : NFTPlan) (protocol : string) (port : Z) (audience : Audience) : bool :=
  let plan := renormalized plan in admits_walk plan protocol port audience (admits_chain plan).

(** ** Prefix tests are about addresses *)

Lemma Unmap_native a : native a → Unmap a = a.
Proof. destruct a as [b|b]; [done|]. cbn [native Unmap]. unfold mapped. by intros ->. Qed.
Lemma parse_canonical c p : canonical c p → parseSourcePrefix c = Some p.
Proof.
  intros H. unfold parseSourcePrefix. rewrite (trim_canonical _ _ H).
  pose proof (canonical_wf _ _ H) as (_ & Hn & _ & Hm).
  destruct (netip_canonical _ _ H) as [[-> _]|(-> & Ha & Hp)].
  - f_equal. destruct p as [a n]. unfold Masked in *. cbn [pAddr pBits] in *. by rewrite Hm.
  - rewrite (ParseAddrZone_plain _ _ Ha). destruct p as [a n]. cbn [pAddr] in *. rewrite Hp. do 2 f_equal.
    by apply Unmap_native.
Qed.
Definition canonicals (l : list string) : Prop := Forall (fun c => ∃ p, canonical c p) l.
Lemma within_sound s p l a :
  canonical s p → canonicals l → sourceWithinAny s l = true → Contains p a = true →
  existsb (fun v => source_has v a) l = true.
Proof.
  intros Hs Hl. unfold sourceWithinAny. rewrite (parse_canonical _ _ Hs). rewrite !existsb_elem_of.
  intros (raw & Hraw & H) Ha. exists raw. split; [done|]. unfold canonicals in Hl. rewrite Forall_forall in Hl.
  destruct (Hl raw Hraw) as [q Hq]. rewrite (parse_canonical _ _ Hq) in H. go_bool. destruct H as [[_ Hb] Hc].
  rewrite (source_has_canonical _ _ _ Hq). by apply (Contains_trans q p).
Qed.

Definition tcp_packet (pk : packet) (port : Z) : Prop := pkProto pk = NFTProtoTCP ∧ pkPort pk = port.
Lemma matches_tcp r pk port : tcp_packet pk port → rule_matches r pk =
  ((rInterface r =?? "") || (rInterface r =?? pkIface pk)) && sources_match (SourceCIDRs r) (pkSrc pk) &&
  matchesTCPPort r port.
Proof.
  intros [Hp Hq]. rewrite rule_matches_eq. f_equal. unfold matchesTCPPort. rewrite Hp, Hq.
  by destruct (rProtocol r =?? NFTProtoAny), (rProtocol r =?? NFTProtoTCP).
Qed.
Lemma shadows_sound accept drop port pk :
  rule_normal accept → rule_normal drop → tcp_packet pk port → matchesTCPPort drop port = true →
  shadows accept drop = true → rule_matches accept pk = true → rule_matches drop pk = true.
Proof.
  intros [_ _ _ _ _ Ha] [_ _ _ _ _ Hd] Hpk Hm. unfold shadows.
  destruct (negb (rInterface drop =?? "") && negb (rInterface drop =?? rInterface accept)) eqn:Ei; [done|].
  rewrite !(matches_tcp _ _ _ Hpk), Hm, andb_true_r. intros Hs. rewrite !andb_true_iff. intros [[Hif Hsrc] _].
  split.
  - go_bool. destruct Ei as [Ei|Ei]; [by left|]. destruct Hif as [Hif|Hif]; [left; congruence|right; congruence].
  - unfold sources_match in *. destruct (length (SourceCIDRs drop) =? 0)%nat; [done|].
    destruct (length (SourceCIDRs accept) =? 0)%nat; [done|]. cbn [orb] in *.
    apply existsb_elem_of in Hsrc as (v & Hv & Hvs). rewrite forallb_elem_of in Hs. rewrite Forall_forall in Ha.
    destruct (Ha v Hv) as [p Hp]. eapply within_sound; [exact Hp|exact Hd|by apply Hs|].
    by rewrite <- (source_has_canonical _ _ _ Hp).
Qed.

Lemma walk_closed port drops sb chain sb' pk :
  Forall rule_normal chain → Forall (fun d => rule_normal d ∧ matchesTCPPort d port = true) drops →
  tcp_packet pk port → Forall (fun d => rule_matches d pk = false) drops →
  walk port drops sb chain = (false, sb') → verdict chain pk = false.
Proof.
  intros Hc Hd Hpk. revert drops sb Hd. induction Hc as [|r chain Hr _ IH]; intros drops sb Hd Hno; [done|].
  cbn [walk verdict]. destruct (matchesTCPPort r port) eqn:Em; cbn [negb].
  - destruct (rAction r =?? NFTActionAccept) eqn:Ea; cbn [negb].
    + destruct (shadowingDrop drops r) as [d|] eqn:Es; [|done].
      apply List.find_some in Es as [Hin Hs]. apply list_elem_of_In in Hin. intros Hw.
      destruct (rule_matches r pk) eqn:Emr; [|by eapply IH].
      rewrite Forall_forall in Hd, Hno. destruct (Hd d Hin) as [Hdn Hdm].
      by rewrite <- (Hno d Hin), (shadows_sound r d port pk).
    + intros Hw. destruct (rule_matches r pk) eqn:Emr; [done|]. eapply IH; [| |exact Hw].
      * apply Forall_app. split; [done|]. by constructor.
      * apply Forall_app. split; [done|]. by constructor.
  - intros Hw. rewrite (matches_tcp _ _ _ Hpk), Em, andb_false_r. by eapply IH.
Qed.
Lemma walk_ports_closed ports sb chain sb' port pk :
  Forall rule_normal chain → walk_ports ports sb chain = (false, sb') → port ∈ ports → tcp_packet pk port →
  verdict chain pk = false.
Proof.
  intros Hc. revert sb. induction ports as [|q ports IH]; intros sb; cbn [walk_ports]; [by intros _ ?%elem_of_nil|].
  destruct (walk q [] sb chain) as [[] sb1] eqn:Ew; [done|]. intros Hw [->|Hin]%elem_of_cons Hpk.
  - by eapply walk_closed; [done| | |constructor|exact Ew].
  - by eapply IH.
Qed.

(** The management chain decides tcp connections as the plan does. *)
Lemma verdict_skip a u b pk :
  existsb (fun r => rule_matches r pk) u = false → verdict (a ++ u ++ b) pk = verdict (a ++ b) pk.
Proof.
  intros Hu. rewrite !verdict_app. destruct (existsb _ a); [done|]. by rewrite Hu.
Qed.
Lemma broad_udp_tcp iface s ports c pk port :
  tcp_packet pk port → existsb (fun r => rule_matches r pk) (broad iface s NFTProtoUDP ports c) = false.
Proof.
  intros Hpk. unfold broad. destruct (_ =? 0)%nat; [done|]. cbn [existsb].
  by rewrite (matches_tcp _ _ _ Hpk), andb_false_r.
Qed.
Lemma management_chain_verdict q pk port :
  plan_normal q → tcp_packet pk port → verdict (management_chain q) pk = plan_accepts q pk.
Proof.
  intros Hn Hpk. destruct (plan_normal_defaults _ Hn) as [Hi Hw]. unfold plan_accepts, chain, broad_rules. rewrite Hi, Hw.
  unfold management_chain. change (if (length (PublicTCP q) =? 0)%nat then [] else _) with
    (broad (InterfaceName q) [] NFTProtoTCP (PublicTCP q) "public lattice tcp ports").
  change (if (length (WireGuardTCP q) =? 0)%nat then [] else _) with
    (broad "" [WireGuardCIDR q] NFTProtoTCP (WireGuardTCP q) "wg tcp services").
  rewrite (app_assoc (InputRules q)), (app_assoc (InputRules q) (broad _ _ NFTProtoTCP (PublicTCP q) _)).
  rewrite verdict_skip by (by eapply broad_udp_tcp).
  rewrite <- (app_nil_r (broad "" [WireGuardCIDR q] NFTProtoUDP _ _)), (app_assoc _ (broad _ _ NFTProtoTCP (WireGuardTCP q) _)).
  rewrite verdict_skip by (by eapply broad_udp_tcp). by rewrite app_nil_r.
Qed.
Lemma broad_normal iface s proto ports c :
  (iface = "" ∨ ifaceNameRe iface = true) → proto ∈ [NFTProtoTCP; NFTProtoUDP] → ports_normal ports → canonicals s →
  Forall rule_normal (broad iface s proto ports c).
Proof.
  intros Hi Hp Hn Hs. unfold broad. destruct (length ports =? 0)%nat eqn:E; constructor; [|constructor].
  constructor; cbn; [by left| |done|done| |done].
  - set_solver.
  - intros ->. exfalso. repeat (apply elem_of_cons in Hp as [Hp|Hp]; [done|]). by apply elem_of_nil in Hp.
Qed.
Lemma plan_normal_chain q : plan_normal q → Forall rule_normal (chain q).
Proof.
  intros Hn. destruct (plan_normal_defaults _ Hn) as [Hi Hw]. unfold chain, broad_rules. rewrite Hi, Hw.
  destruct Hn as [Hif (w & Hwc & _) (P1 & P2 & P3 & P4) Hr _].
  assert (canonicals [WireGuardCIDR q]) as Hc by (constructor; [eauto|constructor]).
  apply Forall_app. split; [done|].
  repeat (apply Forall_app; split); apply broad_normal;
    first [assumption | by right | by left | exact (Forall_nil_2 _) | apply (bool_decide_unpack _); vm_compute; exact I].
Qed.
Lemma management_chain_normal q : plan_normal q → Forall rule_normal (management_chain q).
Proof.
  intros Hn. pose proof (plan_normal_chain q Hn) as Hc. destruct (plan_normal_defaults _ Hn) as [Hi Hw].
  unfold chain, broad_rules in Hc. rewrite Hi, Hw, !Forall_app in Hc. destruct Hc as (H1 & H2 & _ & H3 & _).
  unfold management_chain. rewrite !Forall_app. auto.
Qed.
Lemma renormalized_spec plan : plan_normal plan →
  NormalizeNFTPlan plan = Ok (renormalized plan) ∧ plan_normal (renormalized plan) ∧
  ∀ pk, plan_accepts (renormalized plan) pk = plan_accepts plan pk.
Proof.
  intros Hn. destruct (plan_normal_normalizes plan Hn) as [q Hq]. unfold renormalized. rewrite Hq.
  split_and!; [done|by eapply NormalizeNFTPlan_normal|]. intros pk. apply verdict_ext.
  apply NormalizeNFTPlan_same; [done|]. by apply plan_normal_no_blank.
Qed.

(** C35. The lockout finding never cries wolf: when the check says no path is
    left to the management ports of a compiled plan, the plan really drops
    every new tcp connection to each of them, from anywhere, on any
    interface. *)
Theorem lockout_finding_sound plan ports names port pk :
  plan_normal plan → managementPathOpen plan ports = (false, names) → port ∈ ports → tcp_packet pk port →
  plan_accepts plan pk = false.
Proof.
  intros Hn Hw Hp Hpk. destruct (renormalized_spec plan Hn) as (_ & Hq & <-).
  rewrite <- (management_chain_verdict _ _ _ Hq Hpk).
  eapply walk_ports_closed; [by apply management_chain_normal|exact Hw|done|done].
Qed.

(** ** Admission *)

(** A connection of the audience: for the public audience one that arrives on
    the public interface; for the mesh one from the WireGuard range, on the
    interface the audience names, or, when it names none, on one no rule
    names. *)
Definition in_audience (plan : NFTPlan) (audience : Audience) (pk : packet) : Prop :=
  if Mesh audience then
    source_has (WireGuardCIDR plan) (pkSrc pk) = true ∧
    match MeshInterfaces audience with
    | [] => ∀ r, r ∈ admits_chain plan → rInterface r ≠ "" → rInterface r ≠ pkIface pk
    | l => l = [pkIface pk]
    end
  else pkIface pk = InterfaceName plan.
(** The catch-all sources of the plan are of the connection's family. *)
Definition zero_family (plan : NFTPlan) (a : addr) : Prop :=
  ∀ r s p, r ∈ admits_chain plan → s ∈ SourceCIDRs r → parseSourcePrefix s = Some p → pBits p = 0 →
    BitLen (pAddr p) = BitLen a.

Lemma Contains_zero p a :
  wf_addr (pAddr p) → wf_addr a → pBits p = 0 → BitLen (pAddr p) = BitLen a → Contains p a = true.
Proof.
  intros Hp Ha Hb Hf. unfold Contains. rewrite Hb, Hf, Z.eqb_refl. apply bool_decide_eq_true.
  rewrite !mask_none by lia. destruct (pAddr p), a; try done; cbn in *; destruct Hp as [-> _], Ha as [-> _]; done.
Qed.

Section admission.
Context (q : NFTPlan) (audience : Audience) (pk : packet).
Context (Hq : plan_normal q) (Haud : in_audience q audience pk) (Hzero : zero_family q (pkSrc pk)).
Context (Hpk : wf_addr (pkSrc pk)).

Definition walked (r : NFTInputRule) : Prop := rule_normal r ∧ r ∈ admits_chain q.
Lemma wg_canonical : ∃ w, canonical (WireGuardCIDR q) w.
Proof. destruct Hq as [_ (w & Hw & _) _ _ _]. eauto. Qed.

Lemma on_interface r : walked r → onAudienceInterface q r audience =
  (rInterface r =?? "") || (rInterface r =?? pkIface pk).
Proof.
  intros [_ Hr]. unfold onAudienceInterface, in_audience in *.
  destruct (rInterface r =?? "") eqn:Ee; [done|]. cbn [orb].
  apply bool_decide_eq_false in Ee. destruct (Mesh audience) eqn:Em.
  - destruct Haud as [_ Hm]. destruct (MeshInterfaces audience) as [|i l].
    + symmetry. apply bool_decide_eq_false. by apply Hm.
    + injection Hm as -> ->. apply eq_iff_eq_true. rewrite mem_spec, list_elem_of_singleton, bool_decide_eq_true. done.
  - apply bool_decide_ext. by rewrite Haud.
Qed.
Lemma ports_match r : matchesPort r (pkProto pk) (pkPort pk) =
  (rProtocol r =?? NFTProtoAny) ||
  ((rProtocol r =?? pkProto pk) && ((length (rPorts r) =? 0)%nat || mem (pkPort pk) (rPorts r))).
Proof. unfold matchesPort. by destruct (rProtocol r =?? NFTProtoAny). Qed.

(** What covers the audience matches its connections. *)
Lemma covers_matches r :
  walked r → coversAudience q r audience = true → matchesPort r (pkProto pk) (pkPort pk) = true →
  rule_matches r pk = true.
Proof.
  intros Hr Hcov Hport. rewrite rule_matches_eq, <- ports_match, Hport, <- on_interface, andb_true_r by done.
  unfold coversAudience in Hcov. destruct (onAudienceInterface q r audience); [|done]. cbn [negb andb] in *.
  destruct Hr as [[_ _ _ _ _ Hs] Hr]. destruct wg_canonical as (w & Hw). unfold in_audience in Haud.
  unfold sources_match. destruct (length (SourceCIDRs r) =? 0)%nat eqn:El; [done|]. cbn [orb].
  destruct (Mesh audience) eqn:Em.
  - cbn [orb] in Hcov. destruct Haud as [Hsrc _]. rewrite (source_has_canonical _ _ _ Hw) in Hsrc.
    by eapply within_sound.
  - unfold unrestrictedSources in Hcov. rewrite El in Hcov. cbn [orb] in Hcov.
    apply existsb_elem_of in Hcov as (s & Hin & Hb). rewrite Forall_forall in Hs.
    destruct (Hs s Hin) as [p Hp]. rewrite (parse_canonical _ _ Hp) in Hb. apply Z.eqb_eq in Hb.
    apply existsb_elem_of. exists s. split; [done|]. rewrite (source_has_canonical _ _ _ Hp).
    apply Contains_zero; [by apply (canonical_wf _ _ Hp)|done|done|].
    apply (Hzero r s p); [done|done|by apply parse_canonical|done].
Qed.
(** What does not reach the audience matches none of its connections. *)
Lemma unreached_no_match r :
  walked r → reachesAudience q r audience = false → rule_matches r pk = false.
Proof.
  intros Hr Hre. rewrite rule_matches_eq, <- on_interface by done.
  unfold reachesAudience in Hre. destruct (onAudienceInterface q r audience); [|done]. cbn [negb andb] in *.
  destruct Hr as [[_ _ _ _ _ Hs] Hr]. destruct wg_canonical as (w & Hw). unfold in_audience in Haud.
  unfold sources_match. destruct (length (SourceCIDRs r) =? 0)%nat; [done|]. cbn [orb] in *.
  destruct (Mesh audience); [|done]. cbn [negb] in Hre. rewrite (parse_canonical _ _ Hw) in Hre.
  destruct Haud as [Hsrc _]. rewrite (source_has_canonical _ _ _ Hw) in Hsrc.
  rewrite andb_false_iff. left. apply not_true_iff_false. rewrite existsb_elem_of. intros (s & Hin & Hsa).
  apply not_true_iff_false in Hre. apply Hre, existsb_elem_of. exists s. split; [done|].
  rewrite Forall_forall in Hs. destruct (Hs s Hin) as [p Hp]. rewrite (source_has_canonical _ _ _ Hp) in Hsa.
  rewrite (parse_canonical _ _ Hp). apply andb_true_iff. split.
  - unfold Contains in Hsrc, Hsa. go_bool. destruct Hsrc as [E1 _], Hsa as [E2 _].
    destruct (pAddr p), (pAddr w), (pkSrc pk); done.
  - apply orb_true_iff. by apply (Contains_overlap p w (pkSrc pk)).
Qed.
Lemma walk_admits chain :
  Forall walked chain → admits_walk q (pkProto pk) (pkPort pk) audience chain = true →
  verdict chain pk = true ∨
  ∃ d, d ∈ chain ∧ rAction d ≠ NFTActionAccept ∧ rule_matches d pk = true ∧ coversAudience q d audience = false.
Proof.
  induction 1 as [|r chain Hr _ IH]; [done|]. cbn [admits_walk verdict].
  assert ((∃ d, d ∈ chain ∧ rAction d ≠ NFTActionAccept ∧ rule_matches d pk = true ∧ coversAudience q d audience = false) →
    ∃ d, d ∈ r :: chain ∧ rAction d ≠ NFTActionAccept ∧ rule_matches d pk = true ∧ coversAudience q d audience = false)
    as Hmore by (intros (d & ? & ?); exists d; set_solver).
  destruct (matchesPort r (pkProto pk) (pkPort pk)) eqn:Emp; cbn [negb orb].
  - destruct (reachesAudience q r audience) eqn:Ere; cbn [negb].
    + destruct (rAction r =?? NFTActionAccept) eqn:Ea; cbn [negb].
      * destruct (coversAudience q r audience) eqn:Ec; [|destruct (rule_matches r pk); [by left|intros [?|?]%IH; auto]].
        intros _. left. by rewrite covers_matches.
      * destruct (coversAudience q r audience) eqn:Ec; [done|]. intros [?|?]%IH; [|by auto].
        destruct (rule_matches r pk) eqn:Em; [|by left]. right. exists r. apply bool_decide_eq_false in Ea.
        split; [left|done].
    + intros [?|?]%IH; [|by auto]. left. by rewrite unreached_no_match.
  - assert (rule_matches r pk = false) as -> by (rewrite rule_matches_eq, <- ports_match, Emp; apply andb_false_r).
    intros [?|?]%IH; auto.
Qed.
End admission.

(** The walked chain is the plan's chain but for comments. *)
Lemma admits_chain_same q : plan_normal q →
  Forall rule_normal (admits_chain q) ∧ ∀ pk, verdict (admits_chain q) pk = plan_accepts q pk.
Proof.
  intros Hn. pose proof (plan_normal_chain q Hn) as Hc. destruct (plan_normal_defaults _ Hn) as [Hi Hw].
  assert (∀ i s p l c, Forall rule_normal (broad i s p l c) → Forall rule_normal (broad i s p l "")) as Hb.
  { intros i s p l c. unfold broad. destruct (_ =? 0)%nat; [done|]. intros [[] _]%Forall_cons.
    constructor; [by constructor|constructor]. }
  assert (∀ i s p l c, Forall2 same_rule (broad i s p l "") (broad i s p l c)) as Hs.
  { intros i s p l c. unfold broad. destruct (_ =? 0)%nat; constructor; [by split|constructor]. }
  assert (admits_chain q = InputRules q ++ broad (plan_iface q) [] NFTProtoTCP (PublicTCP q) "" ++
    broad (plan_iface q) [] NFTProtoUDP (PublicUDP q) "" ++ broad "" [plan_wg q] NFTProtoTCP (WireGuardTCP q) "" ++
    broad "" [plan_wg q] NFTProtoUDP (WireGuardUDP q) "") as -> by (by rewrite Hi, Hw).
  split.
  - unfold chain, broad_rules in Hc. rewrite !Forall_app in *. destruct Hc as (? & ? & ? & ? & ?). eauto 10.
  - intros pk. apply verdict_ext. unfold chain, broad_rules. repeat apply Forall2_app; try apply Hs.
    apply Forall_Forall2_diag, Forall_true. by split.
Qed.

(** Admission is sound: when the check admits a listener of a compiled
    plan to an audience, every connection of the audience to it is accepted,
    or was dropped by a rule for a part of the audience only. *)
Theorem admits_sound plan audience pk :
  plan_normal plan → in_audience (renormalized plan) audience pk → zero_family (renormalized plan) (pkSrc pk) →
  wf_addr (pkSrc pk) → Admits plan (pkProto pk) (pkPort pk) audience = true →
  plan_accepts plan pk = true ∨
  ∃ d, d ∈ admits_chain (renormalized plan) ∧ rAction d ≠ NFTActionAccept ∧ rule_matches d pk = true ∧
    coversAudience (renormalized plan) d audience = false.
Proof.
  intros Hn Hin Hz Hw Ha. destruct (renormalized_spec plan Hn) as (_ & Hq & <-).
  destruct (admits_chain_same _ Hq) as [Hr <-].
  apply (walk_admits _ _ _ Hq Hin Hz Hw); [|exact Ha].
  apply Forall_forall. intros r Hrin. rewrite Forall_forall in Hr. split; auto.
Qed.

(** ** Plans without a blocking finding *)

Lemma walk_open port drops sb chain names :
  walk port drops sb chain = (true, names) →
  ∃ pre r post, chain = pre ++ r :: post ∧ rAction r = NFTActionAccept ∧ matchesTCPPort r port = true ∧
    (∀ d, d ∈ drops → shadows r d = false) ∧
    (∀ d, d ∈ pre → rAction d ≠ NFTActionAccept → matchesTCPPort d port = true → shadows r d = false).
Proof.
  revert drops sb. induction chain as [|x chain IH]; intros drops sb; cbn [walk]; [done|].
  assert (∀ drops' sb', walk port drops' sb' chain = (true, names) → (∀ d, d ∈ drops → d ∈ drops') →
    (rAction x ≠ NFTActionAccept → matchesTCPPort x port = true → x ∈ drops') →
    ∃ pre r post, x :: chain = pre ++ r :: post ∧ rAction r = NFTActionAccept ∧ matchesTCPPort r port = true ∧
    (∀ d, d ∈ drops → shadows r d = false) ∧
    (∀ d, d ∈ pre → rAction d ≠ NFTActionAccept → matchesTCPPort d port = true → shadows r d = false)) as Hstep.
  { intros drops' sb' Hw Hsub Hx. apply IH in Hw as (pre & r & post & -> & Ha & Hm & Hd & Hp).
    exists (x :: pre), r, post. split_and!; try done; [eauto|].
    intros d [->|Hin]%elem_of_cons; [|by apply Hp]. intros H1 H2. apply Hd. auto. }
  destruct (matchesTCPPort x port) eqn:Em; cbn [negb].
  - destruct (rAction x =?? NFTActionAccept) eqn:Ea; cbn [negb].
    + apply bool_decide_eq_true in Ea. destruct (shadowingDrop drops x) eqn:Es.
      * intros Hw. eapply Hstep; [exact Hw|done|]. done.
      * intros _. exists [], x, chain. split_and!; try done; [|by intros d ?%elem_of_nil].
        intros d Hd. unfold shadowingDrop in Es. eapply List.find_none in Es; [exact Es|]. by apply list_elem_of_In.
    + intros Hw. eapply Hstep; [exact Hw|set_solver|set_solver].
  - intros Hw. eapply Hstep; [exact Hw|done|]. done.
Qed.
Lemma walk_ports_open ports sb chain names :
  walk_ports ports sb chain = (true, names) → ∃ port pre r post, port ∈ ports ∧ chain = pre ++ r :: post ∧
    rAction r = NFTActionAccept ∧ matchesTCPPort r port = true ∧
    (∀ d, d ∈ pre → rAction d ≠ NFTActionAccept → matchesTCPPort d port = true → shadows r d = false).
Proof.
  revert sb. induction ports as [|port ports IH]; intros sb; cbn [walk_ports]; [done|].
  destruct (walk port [] sb chain) as [[] sb1] eqn:Ew.
  - intros _. apply walk_open in Ew as (pre & r & post & ? & ? & ? & _ & ?). exists port, pre, r, post.
    split_and!; try done. left.
  - intros (port' & pre & r & post & ? & ?)%IH. exists port', pre, r, post. split; [by right|done].
Qed.

Lemma iface_plain s : ifaceNameRe s = true → trim_space s = s.
Proof.
  intros H. apply trim_space_plain, Forall_forall. intros c Hc. apply andb_true_iff in H as [_ H].
  rewrite forallb_elem_of in H. apply H in Hc. unfold iface_byte, is_upper, is_lower, is_digit, in_range in Hc.
  unfold plain_byte. change (code "A") with 65 in Hc. change (code "Z") with 90 in Hc. change (code "a") with 97 in Hc.
  change (code "z") with 122 in Hc. change (code "0") with 48 in Hc. change (code "9") with 57 in Hc.
  go_bool. destruct Hc as [[[[[?|?]|?]| ->]| ->]| ->]; try lia; vm_compute; repeat split; discriminate.
Qed.
Lemma elem_of_planInterfaces plan name : plan_normal plan →
  (name ∈ planInterfaces plan ↔
   (name = InterfaceName plan ∧ (PublicTCP plan ≠ [] ∨ PublicUDP plan ≠ [])) ∨
   ∃ r, r ∈ InputRules plan ∧ rInterface r = name ∧ name ≠ "").
Proof.
  intros [Hi _ _ Hr _]. unfold planInterfaces. rewrite elem_of_sort_strings, elem_of_dedup.
  rewrite list_elem_of_In, filter_In, <- list_elem_of_In, elem_of_app, negb_true_iff, bool_decide_eq_false.
  assert (∀ l : list Z, negb (length l =? 0)%nat = true ↔ l ≠ []) as Hl
    by (intros l; rewrite negb_true_iff, Nat.eqb_neq, length_zero_iff_nil; done).
  rewrite Forall_forall in Hr.
  assert (∀ r, r ∈ InputRules plan → rInterface r ≠ "" → trim_space (rInterface r) = rInterface r) as Htrim.
  { intros r Hin Hne. destruct (Hr r Hin) as [_ _ [?|?] _ _ _]; [done|]. by apply iface_plain. }
  split.
  - intros [[Hn|Hn] Hne].
    + left. destruct (_ || _) eqn:E; [|by apply elem_of_nil in Hn]. apply list_elem_of_singleton in Hn as ->.
      rewrite iface_plain by done. split; [done|]. apply orb_true_iff in E as [E|E]; [left|right]; by apply Hl.
    + right. apply list_elem_of_In, in_map_iff in Hn as (r & <- & Hin). apply list_elem_of_In in Hin. exists r.
      split; [done|]. destruct (decide (rInterface r = "")) as [E|E]; [by rewrite E in Hne|]. by rewrite Htrim.
  - intros [[-> Hp]|(r & Hin & <- & Hne)].
    + split; [|by apply ifaceNameRe_nonempty]. left.
      assert (negb (length (PublicTCP plan) =? 0)%nat || negb (length (PublicUDP plan) =? 0)%nat = true) as ->
        by (apply orb_true_iff; rewrite !Hl; done).
      apply list_elem_of_singleton. by rewrite iface_plain.
    + split; [|done]. right. apply list_elem_of_In, in_map_iff. exists r. rewrite Htrim by done.
      by rewrite <- list_elem_of_In.
Qed.

(** A compiled plan the lint does not block keeps a way in on the
    evidence there is: some accept of a management port has no earlier drop
    that swallows it whole, and every interface the plan matches on is one
    the node reported. *)
Theorem unblocked_plan plan opts :
  plan_normal plan → Blocking (Lint plan opts) = false →
  (∃ port pre r post, port ∈ (managementPorts (Reality opts)).1 ∧
    management_chain (renormalized plan) = pre ++ r :: post ∧ rAction r = NFTActionAccept ∧
    matchesTCPPort r port = true ∧
    ∀ d, d ∈ pre → rAction d ≠ NFTActionAccept → matchesTCPPort d port = true → shadows r d = false) ∧
  ∀ name, (name = InterfaceName plan ∧ (PublicTCP plan ≠ [] ∨ PublicUDP plan ≠ [])) ∨
    (∃ r, r ∈ InputRules plan ∧ rInterface r = name ∧ name ≠ "") →
    ∃ reality, Reality opts = Some reality ∧ name ∈ map trim_space (Interfaces reality).
Proof.
  intros Hn. unfold Lint. destruct (managementPorts (Reality opts)) as [ports evidence].
  destruct (managementPathOpen plan ports) as [open names] eqn:Eo. unfold Blocking. rewrite !existsb_app, !orb_false_iff.
  intros (H1 & H2 & _). split.
  - destruct open; [|done]. by apply walk_ports_open in Eo.
  - intros name Hname%(elem_of_planInterfaces _ _ Hn).
    destruct (length (planInterfaces plan) =? 0)%nat eqn:El.
    { apply Nat.eqb_eq, length_zero_iff_nil in El. rewrite El in Hname. by apply elem_of_nil in Hname. }
    cbn [negb andb] in H2. unfold reportsInterfaces, missingInterfaces in H2.
    destruct (Reality opts) as [reality|]; [|done]. exists reality. split; [done|].
    destruct (length (Interfaces reality) =? 0)%nat; [done|]. cbn [negb] in H2.
    destruct (mem name (map trim_space (Interfaces reality))) eqn:Em; [by apply mem_spec|].
    apply not_true_iff_false in H2. exfalso. apply H2, existsb_elem_of.
    exists (mkFinding FindingInterfaceMissing SeverityBlock [name]). split; [|done].
    apply list_elem_of_In, in_map_iff. exists name. split; [done|]. apply filter_In. split; [by apply list_elem_of_In|].
    by rewrite Em.
Qed.

(** ** Families *)

Definition v6_only : NFTPlan :=
  mkNFTPlan "eth0" "10.66.0.0/24" [] [] [] [] [mkInput "" ["::/0"] NFTProtoUDP [53] NFTActionAccept "dns"] [].

(** The catch-all test does not look at the family: an accept from
    [::/0] alone counts as an accept from everyone, so the check admits the
    listener although the plan drops every IPv4 source. *)
Theorem ipv6_catch_all_admits_public :
  Admits v6_only NFTProtoUDP 53 (mkAudience false []) = true ∧
  ∀ iface b proto port, plan_accepts v6_only (mkPacket iface (A4 b) proto port) = false.
Proof.
  split; [vm_compute; reflexivity|]. intros iface b proto port. unfold plan_accepts, chain.
  cbn [v6_only InputRules app verdict]. rewrite rule_matches_eq. cbn [rInterface SourceCIDRs rProtocol rPorts pkSrc].
  assert (sources_match ["::/0"] (A4 b) = false) as ->.
  { unfold sources_match, source_has. cbn [length Nat.eqb existsb orb].
    assert (denotes (trim_space "::/0") = Some (mkPrefix (A16 (replicate 16 0)) 0)) as -> by (vm_compute; reflexivity).
    done. }
  by rewrite andb_false_r.
Qed.

(** ** Witnesses *)

Module LintDemo.
(** The drop of every source stands ahead of the accept. *)
Definition closed : NFTPlan :=
  mkNFTPlan "ens3" "10.66.0.0/24" [] [] [] []
    [mkInput "" ["203.0.113.0/24"] NFTProtoTCP [22] NFTActionDrop "noise";
     mkInput "" ["203.0.113.7"] NFTProtoTCP [22] NFTActionAccept "admin"] [].
Definition opened : NFTPlan :=
  mkNFTPlan "ens3" "10.66.0.0/24" [22; 443] [] [] []
    [mkInput "" ["203.0.113.0/24"] NFTProtoTCP [22] NFTActionDrop "noise"] [].
Lemma closed_normal : plan_normal closed.
Proof. apply (NormalizeNFTPlan_normal closed). vm_compute. reflexivity. Qed.
Lemma opened_normal : plan_normal opened.
Proof. apply (NormalizeNFTPlan_normal opened). vm_compute. reflexivity. Qed.
Definition opts : LintOptions :=
  mkOptions true (Some (mkReality [mkListener "TCP" 22 "/usr/sbin/sshd(711)" "0.0.0.0"] ["lo"; "ens3"])).
End LintDemo.

Lemma lockout_finding_sound_witness :
  managementPathOpen LintDemo.closed [22] = (false, ["noise"]) ∧
  plan_accepts LintDemo.closed (mkPacket "ens3" (A4 [203; 0; 113; 7]) NFTProtoTCP 22) = false.
Proof.
  assert (managementPathOpen LintDemo.closed [22] = (false, ["noise"])) as H by (vm_compute; reflexivity).
  refine (conj H (lockout_finding_sound LintDemo.closed [22] ["noise"] 22 _ LintDemo.closed_normal H _ _)).
  - left.
  - split; reflexivity.
Defined.
Lemma unblocked_plan_witness :
  Blocking (Lint LintDemo.opened LintDemo.opts) = false ∧
  ∃ reality, Reality LintDemo.opts = Some reality ∧ "ens3" ∈ map trim_space (Interfaces reality).
Proof.
  assert (Blocking (Lint LintDemo.opened LintDemo.opts) = false) as H by (vm_compute; reflexivity).
  refine (conj H (proj2 (unblocked_plan LintDemo.opened LintDemo.opts LintDemo.opened_normal H) "ens3" _)).
  left. split; [reflexivity|left; discriminate].
Defined.
Lemma admits_sound_witness :
  plan_accepts LintDemo.opened (mkPacket "ens3" (A4 [198; 51; 100; 1]) NFTProtoTCP 443) = true ∨
  ∃ d, d ∈ admits_chain (renormalized LintDemo.opened) ∧ rAction d ≠ NFTActionAccept ∧
    rule_matches d (mkPacket "ens3" (A4 [198; 51; 100; 1]) NFTProtoTCP 443) = true ∧
    coversAudience (renormalized LintDemo.opened) d (mkAudience false []) = false.
Proof.
  apply (admits_sound LintDemo.opened (mkAudience false [])).
  - exact LintDemo.opened_normal.
  - vm_compute. reflexivity.
  - intros r s p Hr Hs Hp Hb.
    assert (forallb (fun r => forallb (fun s => match parseSourcePrefix s with
      | Some p => negb (pBits p =? 0) | None => true end) (SourceCIDRs r)) (admits_chain (renormalized LintDemo.opened))
      = true) as Hall by (vm_compute; reflexivity).
    rewrite forallb_elem_of in Hall. specialize (Hall r Hr). rewrite forallb_elem_of in Hall. specialize (Hall s Hs).
    cbn beta in Hall. rewrite Hp, Hb in Hall. discriminate Hall.
  - split; [reflexivity|]. repeat constructor; unfold byte_range; lia.
  - vm_compute. reflexivity.
Defined.
