(* ===== verification/NetEgress.v ===== *)
(** * Compiling network policies ([internal/netpolicy/compile.go])

    The egress side of a node's policy as the text of its own nftables table,
    and the ingress side as rules of the guard chain (Nft.v).  A line of the
    egress chain is given a meaning as a filter on outgoing connections; the
    theorems say that the compiled chain is what the policy says, that the
    control plane stays reachable whatever the policy is, and that no value
    of a policy adds a line. *)

From Stdlib Require Import ZArith Lia Ascii.
From stdpp Require Import gmap strings sorting.
From S2P Require Import Prelude GoStr Sha IpAddr IpNet NetPolicy Nft.

Local Open Scope Z_scope.

Record PolicyNode := mkPolicyNode { pnID : string; pnWireGuardIP : string; pnPublicIP : string; pnPublicIPv6 : string }.
(** An address with its zone. *)
Definition zoned : Type := (addr * string).
Record CompileOptions := mkOptions {
  ControlPlaneIPv4 : option zoned; ControlPlaneIPv6 : option zoned;
  ControlPlaneHost : string; ControlPlanePort : Z }.
Record DomainSet := mkDomainSet { dsHost : string; Set4 : string; Set6 : string }.
Record EgressPlan := mkEgress { Ruleset : string; DomainSets : list DomainSet }.

Inductive egressError :=
| EEDisabled | EEPort (p : Z) | EEOneControlPlane | EENotIPv4 | EENotIPv6 | EEHostNotNormalized
| EEPolicy (e : polError) | EETargetNotFound (id : string) | EEDirection (id dir : string) | EESelf (id : string)
| EENodeNotFound (id node : string) | EENoAddress (id node : string) | EEKind (id kind : string)
| EENoSet (id domain : string) | EEAnyPorts (id : string) | EEProtocol (id proto : string).

(** ** Addresses of nodes *)

Definition zoned_string (z : zoned) : string :=
  AddrString z.1 +:+ (if z.2 =?? "" then "" else "%" +:+ z.2).
Definition usable (a : addr) : bool := Is4 a || (negb (Is4 a) && negb (Is4In6 a)).
Definition parseNodeAddr (raw : string) : option zoned :=
  let raw := trim_space raw in
  if raw =?? "" then None else
  match ParsePrefix raw with
  | Some prefix => if usable (pAddr prefix) then Some (pAddr prefix, "") else None
  | None =>
    match ParseAddrZone raw with
    | Some (a, zone) => if usable a then Some (a, zone) else None
    | None => None
    end
  end.

(** [netip.Addr.Compare] on addresses of one family: by bytes, then zone. *)
Fixpoint bytes_leb (a b : list Z) : bool :=
  match a, b with
  | [], _ => true
  | _, [] => false
  | x :: a, y :: b => (x <? y) || ((x =? y) && bytes_leb a b)
  end.
Definition addr_le (s t : string) : Prop :=
  match ParseAddrZone s, ParseAddrZone t with
  | Some (a, za), Some (b, zb) =>
    if addr_bytes a =?? addr_bytes b then String.le za zb else bytes_leb (addr_bytes a) (addr_bytes b) = true
  | None, _ => True
  | Some _, None => False
  end.
#[export] Instance addr_le_dec : RelDecision addr_le.
Proof.
  intros s t. unfold addr_le. destruct (ParseAddrZone s) as [[a za]|], (ParseAddrZone t) as [[b zb]|]; try apply _.
  destruct (addr_bytes a =?? addr_bytes b); apply _.
Defined.
Definition sortedAddrs (seen : list string) : list string := merge_sort addr_le (dedup seen).
Definition nodeIPAddrs (node : PolicyNode) : list string * list string :=
  let addrs := omap parseNodeAddr [pnWireGuardIP node; pnPublicIP node; pnPublicIPv6 node] in
  (sortedAddrs (map zoned_string (List.filter (fun z => Is4 z.1) addrs)),
   sortedAddrs (map zoned_string (List.filter (fun z => negb (Is4 z.1)) addrs))).

Section compile.
Context `{NetSdk} `{Quote}.
Implicit Types (resolve : string → option PolicyNode).

(** ** Ingress *)

Definition ruleComment (rule : NetRule) : string :=
  let base := "lattice rule " +:+ rlID rule in
  if rlComment rule =?? "" then base else base +:+ " " +:+ rlComment rule.
Definition nftInputProtocol (proto : string) : string :=
  if proto =?? NetProtoTCP then NFTProtoTCP else if proto =?? NetProtoUDP then NFTProtoUDP else NFTProtoAny.
Definition nftInputAction (action : string) : string :=
  if action =?? NetRuleAllow then NFTActionAccept else NFTActionDrop.

Definition ingressSourceCIDRs (rule : NetRule) (target : PolicyNode) resolve : res egressError (list string) :=
  let remote := rlRemote rule in
  if Kind remote =?? NetRefAny then Ok []
  else if Kind remote =?? NetRefCIDR then Ok [CIDR remote]
  else if Kind remote =?? NetRefNode then
    fail_if NodeID remote =?? pnID target with EESelf (rlID rule);
    match resolve (NodeID remote) with
    | None => Err (EENodeNotFound (rlID rule) (NodeID remote))
    | Some node =>
      let '(v4, v6) := nodeIPAddrs node in
      fail_if (length v4 + length v6 =? 0)%nat with EENoAddress (rlID rule) (NodeID remote);
      Ok (v4 ++ v6)
    end
  else Err (EEKind (rlID rule) (Kind remote)).

Fixpoint ingressRules (rules : list NetRule) (target : PolicyNode) resolve : res egressError (list NFTInputRule) :=
  match rules with
  | [] => Ok []
  | rule :: rules =>
    if negb (rlDirection rule =?? NetDirIngress) || rlDisabled rule then ingressRules rules target resolve else
    sources ← ingressSourceCIDRs rule target resolve;
    cons (mkInput "" sources (nftInputProtocol (rlProtocol rule)) (rlPorts rule) (nftInputAction (rlAction rule))
            (ruleComment rule)) <$> ingressRules rules target resolve
  end.
Definition CompileIngressInputRules (policy : NetPolicy) resolve : res egressError (list NFTInputRule) :=
  if negb (npEnabled policy) then Ok [] else
  match NormalizePolicy policy resolve with
  | Err e => Err (EEPolicy e)
  | Ok normalized =>
    match resolve (TargetNodeID normalized) with
    | None => Err (EETargetNotFound (TargetNodeID normalized))
    | Some target => ingressRules (npRules normalized) target resolve
    end
  end.

(** ** Egress *)

Definition domainSetForHost (host : string) : DomainSet :=
  let suffix := str_take 16 (sha256_hex ("lattice-netpolicy-domain" +:+ str1 (byte_of 0) +:+ host)) in
  let base := "lattice_dom_" +:+ suffix in
  mkDomainSet host (base +:+ "4") (base +:+ "6").
Definition collectEgressDomainSets (rules : list NetRule) : list DomainSet :=
  map domainSetForHost (sort_strings (dedup (map (fun rule => Domain (rlRemote rule))
    (List.filter (fun rule => negb (rlDisabled rule || negb (rlDirection rule =?? NetDirEgress) ||
       negb (Kind (rlRemote rule) =?? NetRefDomain))) rules)))).

Definition is_some {A} (o : option A) : bool := match o with Some _ => true | None => false end.
Definition countTrue (values : list bool) : nat := length (List.filter id values).
Definition validateCompileOptions (opts : CompileOptions) : res egressError unit :=
  fail_if (ControlPlanePort opts <? 1) || (65535 <? ControlPlanePort opts) with EEPort (ControlPlanePort opts);
  let hasIPv4 := is_some (ControlPlaneIPv4 opts) in
  let hasIPv6 := is_some (ControlPlaneIPv6 opts) in
  let hasHost := negb (trim_space (ControlPlaneHost opts) =?? "") in
  fail_if negb (countTrue [hasIPv4; hasIPv6; hasHost] =? 1)%nat with EEOneControlPlane;
  if hasIPv4 then
    fail_if negb (match ControlPlaneIPv4 opts with Some z => Is4 z.1 | None => false end) with EENotIPv4; Ok tt
  else if hasIPv6 then
    fail_if match ControlPlaneIPv6 opts with Some z => Is4 z.1 || Is4In6 z.1 | None => true end with EENotIPv6; Ok tt
  else
    fail_if negb (trim_space (ControlPlaneHost opts) =?? ControlPlaneHost opts) with EEHostNotNormalized; Ok tt.

Definition tab : string := str1 (byte_of 9).
Definition controlPlaneAllowLine (opts : CompileOptions) : list string :=
  if negb (ControlPlaneHost opts =?? "") then
    [tab +:+ tab +:+ "ip daddr @lattice_control4 tcp dport " +:+ dec_of_Z (ControlPlanePort opts) +:+
       " accept comment " +:+ dq "lattice control-plane domain";
     tab +:+ tab +:+ "ip6 daddr @lattice_control6 tcp dport " +:+ dec_of_Z (ControlPlanePort opts) +:+
       " accept comment " +:+ dq "lattice control-plane domain6"]
  else match ControlPlaneIPv6 opts with
  | Some z => [tab +:+ tab +:+ "ip6 daddr " +:+ zoned_string z +:+ " tcp dport " +:+ dec_of_Z (ControlPlanePort opts) +:+
                 " accept comment " +:+ dq "lattice control-plane"]
  | None =>
    [tab +:+ tab +:+ "ip daddr " +:+
       (match ControlPlaneIPv4 opts with Some z => zoned_string z | None => "invalid IP" end) +:+
       " tcp dport " +:+ dec_of_Z (ControlPlanePort opts) +:+ " accept comment " +:+ dq "lattice control-plane"]
  end.

Definition nftAddrExpr (field : string) (addrs : list string) : string :=
  let family := match addrs with
    | a :: _ => match parseNodeAddr a with
                | Some z => if negb (Is4 z.1) && negb (Is4In6 z.1) then "ip6" else "ip"
                | None => "ip" end
    | [] => "ip" end in
  match addrs with
  | [a] => family +:+ " " +:+ field +:+ " " +:+ a
  | _ => family +:+ " " +:+ field +:+ " { " +:+ join ", " addrs +:+ " }"
  end.
Definition nftPortSet (ports : list Z) : string :=
  match ports with
  | [p] => dec_of_Z p
  | _ => "{ " +:+ join ", " (map dec_of_Z ports) +:+ " }"
  end.
Definition egressProtoExpr (rule : NetRule) : res egressError string :=
  if rlProtocol rule =?? NetProtoAny then
    fail_if negb (length (rlPorts rule) =? 0)%nat with EEAnyPorts (rlID rule); Ok ""
  else if (rlProtocol rule =?? NetProtoTCP) || (rlProtocol rule =?? NetProtoUDP) then
    if (length (rlPorts rule) =? 0)%nat then Ok ("meta l4proto " +:+ rlProtocol rule)
    else Ok (rlProtocol rule +:+ " dport " +:+ nftPortSet (rlPorts rule))
  else Err (EEProtocol (rlID rule) (rlProtocol rule)).
Definition egressRemoteExprs (rule : NetRule) (target : PolicyNode) resolve (sets : list DomainSet)
  : res egressError (list string) :=
  let remote := rlRemote rule in
  if Kind remote =?? NetRefAny then Ok []
  else if Kind remote =?? NetRefCIDR then Ok [nftAddrExpr "daddr" [CIDR remote]]
  else if Kind remote =?? NetRefDomain then
    match List.find (fun s => dsHost s =?? Domain remote) sets with
    | None => Err (EENoSet (rlID rule) (Domain remote))
    | Some set => Ok ["ip daddr @" +:+ Set4 set; "ip6 daddr @" +:+ Set6 set]
    end
  else if Kind remote =?? NetRefNode then
    fail_if NodeID remote =?? pnID target with EESelf (rlID rule);
    match resolve (NodeID remote) with
    | None => Err (EENodeNotFound (rlID rule) (NodeID remote))
    | Some node =>
      let '(v4, v6) := nodeIPAddrs node in
      fail_if (length v4 + length v6 =? 0)%nat with EENoAddress (rlID rule) (NodeID remote);
      Ok ((if (length v4 =? 0)%nat then [] else [nftAddrExpr "daddr" v4]) ++
          (if (length v6 =? 0)%nat then [] else [nftAddrExpr "daddr" v6]))
    end
  else Err (EEKind (rlID rule) (Kind remote)).
Definition compileEgressRule (rule : NetRule) (target : PolicyNode) resolve (sets : list DomainSet)
  : res egressError (list string) :=
  remoteExprs ← egressRemoteExprs rule target resolve sets;
  protoExpr ← egressProtoExpr rule;
  let action := if rlAction rule =?? NetRuleAllow then "accept" else "drop" in
  Ok (map (fun remoteExpr => join " "
        ((if remoteExpr =?? "" then [] else [remoteExpr]) ++ (if protoExpr =?? "" then [] else [protoExpr]) ++
         [action; "comment"; quote (ruleComment rule)]))
      (match remoteExprs with [] => [""] | l => l end)).
Fixpoint compileEgressRules (rules : list NetRule) (target : PolicyNode) resolve (sets : list DomainSet)
  : res egressError (list string) :=
  match rules with
  | [] => Ok []
  | rule :: rules =>
    fail_if negb (rlDirection rule =?? NetDirEgress) with EEDirection (rlID rule) (rlDirection rule);
    if rlDisabled rule then compileEgressRules rules target resolve sets else
    lines ← compileEgressRule rule target resolve sets;
    app lines <$> compileEgressRules rules target resolve sets
  end.

Definition set_lines (name type : string) : list string :=
  [tab +:+ "set " +:+ name +:+ " {"; tab +:+ tab +:+ "type " +:+ type; tab +:+ tab +:+ "flags interval"; tab +:+ "}"; ""].
Definition egress_head (opts : CompileOptions) (sets : list DomainSet) : list string :=
  ["add table inet lattice_policy"; "delete table inet lattice_policy"; "table inet lattice_policy {"] ++
  (if ControlPlaneHost opts =?? "" then [] else
   set_lines "lattice_control4" "ipv4_addr" ++ set_lines "lattice_control6" "ipv6_addr") ++
  flat_map (fun s => set_lines (Set4 s) "ipv4_addr" ++ set_lines (Set6 s) "ipv6_addr") sets ++
  [tab +:+ "chain output {"; tab +:+ tab +:+ "type filter hook output priority 0; policy drop;";
   tab +:+ tab +:+ "ct state established,related accept comment " +:+ dq "lattice established";
   tab +:+ tab +:+ "oifname " +:+ dq "lo" +:+ " accept comment " +:+ dq "lattice loopback";
   tab +:+ tab +:+ ScaffoldICMPv6Match +:+ " accept comment " +:+ dq "lattice icmpv6 neighbour discovery"].
Definition dns_lines : list string :=
  [tab +:+ tab +:+ "udp dport 53 accept comment " +:+ dq "lattice dns udp";
   tab +:+ tab +:+ "tcp dport 53 accept comment " +:+ dq "lattice dns tcp"].
Definition egress_tail : list string :=
  [tab +:+ tab +:+ "counter drop comment " +:+ dq "lattice default drop"; tab +:+ "}"; "}"].

Definition CompileEgressPlan (policy : NetPolicy) resolve (opts : CompileOptions) : res egressError EgressPlan :=
  fail_if negb (npEnabled policy) with EEDisabled;
  match validateCompileOptions opts with
  | Err e => Err e
  | Ok _ =>
    match NormalizePolicy policy resolve with
    | Err e => Err (EEPolicy e)
    | Ok normalized =>
      match resolve (TargetNodeID normalized) with
      | None => Err (EETargetNotFound (TargetNodeID normalized))
      | Some target =>
        let sets := collectEgressDomainSets (npRules normalized) in
        lines ← compileEgressRules (npRules normalized) target resolve sets;
        Ok (mkEgress (join_lines (egress_head opts sets ++ controlPlaneAllowLine opts ++ dns_lines ++
                        map (fun line => tab +:+ tab +:+ line) lines ++ egress_tail)) sets)
      end
    end
  end.
Definition CompileEgressRuleset (policy : NetPolicy) resolve (opts : CompileOptions) : res egressError string :=
  Ruleset <$> CompileEgressPlan policy resolve opts.
End compile.

(** The wire names the compiler relies on. *)
Class NetSdkNames `{NetSdk} := {
  proto_names : NetProtoTCP = "tcp" ∧ NetProtoUDP = "udp" ∧ NetProtoAny = "any";
  kinds_distinct : NoDup [NetRefAny; NetRefCIDR; NetRefDomain; NetRefNode];
  directions_distinct : NetDirEgress ≠ NetDirIngress;
}.

Section meaning.
Context `{NetSdk} `{Quote}.

(** ** What a policy says

    A connection to or from a remote address.  [names] is what a host name
    resolves to. *)

Record conn := mkConn { cnRemote : addr; cnProto : string; cnPort : Z }.
Definition node_addrs (n : PolicyNode) : list zoned :=
  omap parseNodeAddr [pnWireGuardIP n; pnPublicIP n; pnPublicIPv6 n].
Definition remote_has (names : string → list addr) (resolve : string → option PolicyNode) (e : NetEndpoint) (a : addr)
  : bool :=
  if Kind e =?? NetRefAny then true
  else if Kind e =?? NetRefCIDR then match denotes (CIDR e) with Some p => Contains p a | None => false end
  else if Kind e =?? NetRefDomain then mem a (names (Domain e))
  else match resolve (NodeID e) with Some n => mem a (map fst (node_addrs n)) | None => false end.
Definition service_matches (proto : string) (ports : list Z) (c : conn) : bool :=
  (proto =?? NetProtoAny) || ((proto =?? cnProto c) && ((length ports =? 0)%nat || mem (cnPort c) ports)).
(** The first enabled rule of the direction that matches decides. *)
Fixpoint policy_verdict names resolve (direction : string) (rules : list NetRule) (c : conn) : bool :=
  match rules with
  | [] => false
  | r :: rules =>
    if negb (rlDisabled r) && (rlDirection r =?? direction) && remote_has names resolve (rlRemote r) (cnRemote c) &&
       service_matches (rlProtocol r) (rlPorts r) c
    then rlAction r =?? NetRuleAllow else policy_verdict names resolve direction rules c
  end.
(** No address of a node carries a zone. *)
Definition zone_free (n : PolicyNode) : Prop := Forall (fun z => z.2 = "") (node_addrs n).

(** ** What the compiled lines say *)

Inductive dest := DAny | DAddrs (v6 : bool) (l : list string) | DSet (v6 : bool) (name : string).
Record stmt := mkStmt { sDest : dest; sProto : string; sPorts : list Z; sAccept : bool; sComment : string }.
Definition dest_matches (sets : string → list addr) (d : dest) (a : addr) : bool :=
  match d with
  | DAny => true
  | DAddrs _ l => existsb (fun v => source_has v a) l
  | DSet v6 name => xorb v6 (Is4 a) && mem a (sets name)
  end.
Definition stmt_matches sets (s : stmt) (c : conn) : bool :=
  dest_matches sets (sDest s) (cnRemote c) && service_matches (sProto s) (sPorts s) c.
Fixpoint stmts_verdict sets (l : list stmt) (c : conn) : bool :=
  match l with
  | [] => false
  | s :: l => if stmt_matches sets s c then sAccept s else stmts_verdict sets l c
  end.
(** The expressions of a line are all of one family, the line's own. *)
Definition dest_typed (d : dest) : Prop :=
  match d with
  | DAddrs v6 l => l ≠ [] ∧ Forall (fun v => ∃ p, canonical v p ∧ Is4 (pAddr p) = negb v6) l
  | _ => True
  end.
Definition family (v6 : bool) : string := if v6 then "ip6" else "ip".
Definition dest_expr (d : dest) : string :=
  match d with
  | DAny => ""
  | DAddrs v6 [a] => family v6 +:+ " daddr " +:+ a
  | DAddrs v6 l => family v6 +:+ " daddr { " +:+ join ", " l +:+ " }"
  | DSet v6 name => family v6 +:+ " daddr @" +:+ name
  end.
Definition service_expr (proto : string) (ports : list Z) : string :=
  if proto =?? NetProtoAny then ""
  else if (length ports =? 0)%nat then "meta l4proto " +:+ proto
  else proto +:+ " dport " +:+ nftPortSet ports.
Definition stmt_line (s : stmt) : string :=
  join " " ((if dest_expr (sDest s) =?? "" then [] else [dest_expr (sDest s)]) ++
    (if service_expr (sProto s) (sPorts s) =?? "" then [] else [service_expr (sProto s) (sPorts s)]) ++
    [if sAccept s then "accept" else "drop"; "comment"; quote (sComment s)]).


(** ** The pieces of a line *)

Lemma normalizeIPCIDR_canonical raw c :
  normalizeIPCIDR raw = Some c → ∃ p, canonical c p ∧ denotes (trim_space raw) = Some p.
Proof.
  unfold normalizeIPCIDR. set (v := trim_space raw). case_bool_decide; [done|]. destruct (ParseIP v) as [ip|] eqn:Ei.
  - intros [= <-]. unfold ParseIP in Ei. destruct (ParseAddr v) as [a|] eqn:Ea; [|done]. injection Ei as <-.
    exists (full (Unmap (A16 (As16 a)))). split; [|unfold denotes, ParseIP; by rewrite Ea].
    apply IPString_canonical, wf_As16. by eapply ParseAddr_wf.
  - destruct (ParseCIDR v) as [[ip net]|] eqn:Ec; [|done]. cbn [mbind option_bind]. intros Hc.
    exists (net_prefix net). split; [|by apply ParseCIDR_denotes in Ec as [? _]].
    assert (c = NetString net) as -> by (destruct (To4 ip), (To4 (netIP net)); congruence).
    by eapply NetString_canonical.
Qed.
Lemma egress_source_canonical c p a : canonical c p → source_has c a = Contains p a.
Proof. intros Hc. unfold source_has. by rewrite (trim_canonical _ _ Hc), (denotes_canonical _ _ Hc). Qed.
Lemma parseNodeAddr_canonical c p : canonical c p → parseNodeAddr c = Some (pAddr p, "").
Proof.
  intros Hc. pose proof (canonical_wf _ _ Hc) as (_ & Hn & _). unfold parseNodeAddr.
  rewrite (trim_canonical _ _ Hc), bool_decide_eq_false_2 by (by eapply canonical_nonempty).
  assert (usable (pAddr p) = true) as Hu.
  { destruct (pAddr p) as [b|b]; [done|]. cbn in Hn. unfold mapped in Hn. unfold usable, Is4In6. by rewrite Hn. }
  destruct (netip_canonical _ _ Hc) as [[-> _]|(-> & Ha & _)]; [by rewrite Hu|].
  by rewrite (ParseAddrZone_plain _ _ Ha), Hu.
Qed.
Lemma ParseAddrZone_wf s a z : ParseAddrZone s = Some (a, z) → wf_addr a.
Proof.
  unfold ParseAddrZone. destruct (addr_family _) as [[]|]; [| |done]; cbn [mbind option_bind].
  - destruct (index_byte _ _); [case_bool_decide; [done|]|]; destruct (parseIPv6 _) eqn:E; try done;
      cbn; intros [= <- _]; by eapply parseIPv6_wf.
  - destruct (parseIPv4 _) eqn:E; [|done]. cbn. intros [= <- _]. by eapply parseIPv4_wf.
Qed.
Lemma parseNodeAddr_wf raw a z : parseNodeAddr raw = Some (a, z) → wf_addr a ∧ native a.
Proof.
  assert (∀ a, usable a = true → native a) as Hu.
  { intros [b|b]; [done|]. unfold usable, Is4In6. cbn. unfold mapped. by destruct (_ =?? _). }
  unfold parseNodeAddr. case_bool_decide; [done|]. destruct (ParsePrefix _) as [p|] eqn:Ep.
  - destruct (usable _) eqn:Eu; [|done]. intros [= <- _]. split; [|auto].
    unfold ParsePrefix in Ep. destruct (last_index_byte _ _); [|done]. cbn in Ep.
    destruct (ParseAddr _) eqn:Ea; [|done]. cbn in Ep. destruct (prefix_bits _); [|done]. cbn in Ep.
    destruct (_ <? _); [done|]. injection Ep as <-. by eapply ParseAddr_wf.
  - destruct (ParseAddrZone _) as [[b zb]|] eqn:Ea; [|done]. destruct (usable b) eqn:Eu; [|done].
    intros [= <- _]. split; [by eapply ParseAddrZone_wf|auto].
Qed.
Lemma Contains_full a b : wf_addr a → wf_addr b → Contains (full a) b = (b =?? a).
Proof.
  intros Ha Hb. apply eq_iff_eq_true. rewrite bool_decide_eq_true. split.
  - by apply Contains_self_addr.
  - intros ->. unfold Contains. by rewrite Z.eqb_refl, bool_decide_eq_true_2.
Qed.

Lemma zone_free_addrs n z : zone_free n → z ∈ node_addrs n →
  wf_addr z.1 ∧ canonical (zoned_string z) (full z.1).
Proof.
  unfold zone_free. rewrite Forall_forall. intros Hz Hin. pose proof (Hz z Hin) as E.
  apply list_elem_of_omap in Hin as (raw & _ & Hraw). destruct z as [a zn]. cbn in *. subst zn.
  apply parseNodeAddr_wf in Hraw as [Hw Hn]. split; [done|]. unfold zoned_string. cbn [fst snd].
  rewrite bool_decide_eq_true_2, str_app_nil_r by done. rewrite AddrString_native by done. by apply canonical_addr.
Qed.
Lemma elem_of_sortedAddrs s l : s ∈ sortedAddrs l ↔ s ∈ l.
Proof. unfold sortedAddrs. rewrite merge_sort_Permutation. apply elem_of_dedup. Qed.
(** The addresses of one family, as the lines name them. *)
Definition family_addrs (v6 : bool) (n : PolicyNode) : list string :=
  sortedAddrs (map zoned_string (List.filter (fun z => xorb v6 (Is4 z.1)) (node_addrs n))).
Lemma nodeIPAddrs_families n : nodeIPAddrs n = (family_addrs false n, family_addrs true n).
Proof.
  unfold nodeIPAddrs, family_addrs, node_addrs. f_equal; do 2 f_equal.
Qed.
Lemma elem_of_family_addrs v6 n s :
  s ∈ family_addrs v6 n ↔ ∃ z, s = zoned_string z ∧ z ∈ node_addrs n ∧ Is4 z.1 = negb v6.
Proof.
  unfold family_addrs. rewrite elem_of_sortedAddrs, list_elem_of_fmap. split; intros (z & -> & Hz); exists z.
  - apply list_elem_of_In, filter_In in Hz as [Hz E]. apply list_elem_of_In in Hz. by destruct v6, (Is4 z.1).
  - destruct Hz as [Hz E]. split; [done|]. apply list_elem_of_In, filter_In. rewrite <- list_elem_of_In, E. by destruct v6.
Qed.
Lemma family_addrs_typed v6 n : zone_free n →
  Forall (fun v => ∃ p, canonical v p ∧ Is4 (pAddr p) = negb v6) (family_addrs v6 n).
Proof.
  intros Hn. apply Forall_forall. intros s (z & -> & Hz & E)%elem_of_family_addrs.
  exists (full z.1). split; [by eapply zone_free_addrs|done].
Qed.
Lemma node_addrs_match n a : zone_free n → wf_addr a →
  existsb (fun v => source_has v a) (family_addrs false n) || existsb (fun v => source_has v a) (family_addrs true n) =
  mem a (map fst (node_addrs n)).
Proof.
  intros Hn Ha. rewrite <- existsb_app. apply eq_iff_eq_true. unfold mem. rewrite existsb_eq_elem, existsb_elem_of, list_elem_of_fmap.
  assert (∀ z, z ∈ node_addrs n → source_has (zoned_string z) a = (a =?? z.1)) as Hs.
  { intros z Hz. destruct (zone_free_addrs n z Hn Hz) as [Hw Hc].
    rewrite (egress_source_canonical _ _ _ Hc). by apply Contains_full. }
  split.
  - intros (s & Hin & Hm). rewrite elem_of_app, !elem_of_family_addrs in Hin.
    destruct Hin as [(z & -> & Hz & _)|(z & -> & Hz & _)]; rewrite Hs in Hm by done;
      apply bool_decide_eq_true in Hm; eauto.
  - intros (z & -> & Hz). exists (zoned_string z). rewrite Hs by done. split; [|by apply bool_decide_eq_true].
    rewrite elem_of_app, !elem_of_family_addrs. destruct (Is4 z.1) eqn:E; [left|right]; by exists z.
Qed.

(** ** One rule *)

Definition dests (resolve : string → option PolicyNode) (e : NetEndpoint) : list dest :=
  if Kind e =?? NetRefAny then [DAny]
  else if Kind e =?? NetRefCIDR then [DAddrs (is_v6 (CIDR e)) [CIDR e]]
  else if Kind e =?? NetRefDomain then
    [DSet false (Set4 (domainSetForHost (Domain e))); DSet true (Set6 (domainSetForHost (Domain e)))]
  else match resolve (NodeID e) with
  | None => []
  | Some n =>
    flat_map (fun v6 => if (length (family_addrs v6 n) =? 0)%nat then [] else [DAddrs v6 (family_addrs v6 n)]) [false; true]
  end.
Definition stmts_of resolve (r : NetRule) : list stmt :=
  map (fun d => mkStmt d (rlProtocol r) (rlPorts r) (rlAction r =?? NetRuleAllow) (ruleComment r))
    (dests resolve (rlRemote r)).

Lemma nftAddrExpr_typed v6 l :
  l ≠ [] → Forall (fun v => ∃ p, canonical v p ∧ Is4 (pAddr p) = negb v6) l →
  nftAddrExpr "daddr" l = dest_expr (DAddrs v6 l).
Proof.
  intros Hl Ht. destruct l as [|v l]; [done|]. destruct (Forall_inv Ht) as (p & Hc & E). unfold nftAddrExpr.
  rewrite (parseNodeAddr_canonical _ _ Hc). cbn [fst]. rewrite E.
  assert (native (pAddr p)) as Hn by apply (canonical_wf _ _ Hc).
  assert ((if negb (negb v6) && negb (Is4In6 (pAddr p)) then "ip6" else "ip") = family v6) as ->.
  { destruct v6; [|done]. destruct (pAddr p) as [b|b]; [done|]. cbn in Hn. unfold Is4In6. fold (mapped b). by rewrite Hn. }
  destruct l as [|w l]; cbn [dest_expr]; by rewrite ?str_app_assoc.
Qed.
(** The set of a host holds the addresses the host resolves to. *)
Definition populated (sets names : string → list addr) (host : string) : Prop :=
  ∀ a, mem a (sets (if Is4 a then Set4 (domainSetForHost host) else Set6 (domainSetForHost host))) = mem a (names host).
Definition node_zone_free (resolve : string → option PolicyNode) (e : NetEndpoint) : Prop :=
  ∀ n, Kind e = NetRefNode → resolve (NodeID e) = Some n → zone_free n.

Section rules.
Context `{!NetSdkNames}.
Variable resolve : string → option PolicyNode.

Lemma endpoint_kinds e : endpoint_wf resolve e →
  (Kind e = NetRefAny) ∨
  (Kind e = NetRefCIDR ∧ Kind e ≠ NetRefAny ∧ ∃ p, canonical (CIDR e) p) ∨
  (Kind e = NetRefDomain ∧ Kind e ≠ NetRefAny ∧ Kind e ≠ NetRefCIDR) ∨
  (Kind e = NetRefNode ∧ Kind e ≠ NetRefAny ∧ Kind e ≠ NetRefCIDR ∧ Kind e ≠ NetRefDomain ∧ ∃ n, resolve (NodeID e) = Some n).
Proof.
  pose proof kinds_distinct as Hk. rewrite !NoDup_cons, !not_elem_of_cons in Hk.
  destruct Hk as ((K1 & K2 & K3 & _) & (K4 & K5 & _) & (K6 & _) & _).
  intros [(E & _ & [n Hr] & _)|[(E & _ & [raw Hraw] & _)|[(E & _)|(E & _)]]].
  - do 3 right. rewrite E. split_and!; [done|congruence..|eauto].
  - right; left. rewrite E. apply normalizeIPCIDR_canonical in Hraw as (p & Hp & _).
    split_and!; [done|congruence|eauto].
  - right; right; left. rewrite E. split_and!; [done|congruence..].
  - by left.
Qed.
Lemma dests_typed e : endpoint_wf resolve e → node_zone_free resolve e → Forall dest_typed (dests resolve e).
Proof.
  intros [E|[(E & N1 & p & Hp)|[(E & N1 & N2)|(E & N1 & N2 & N3 & n & Hn)]]]%endpoint_kinds Hz; unfold dests.
  - rewrite bool_decide_eq_true_2 by done. by repeat constructor.
  - rewrite bool_decide_eq_false_2, bool_decide_eq_true_2 by done. constructor; [|constructor].
    split; [done|]. constructor; [|constructor]. exists p. split; [done|].
    destruct (canonical_family _ _ Hp) as [_ ->]. by rewrite negb_involutive.
  - rewrite !bool_decide_eq_false_2, bool_decide_eq_true_2 by done. by repeat constructor.
  - rewrite !bool_decide_eq_false_2 by done. rewrite Hn. apply Forall_forall. intros d Hd.
    apply list_elem_of_In, in_flat_map in Hd as (v6 & _ & Hd).
    destruct (Nat.eqb_spec (length (family_addrs v6 n)) 0) as [|Hl]; [done|].
    destruct Hd as [<-|[]]. split; [by intros El; rewrite El in Hl|]. apply family_addrs_typed. by eapply Hz.
Qed.
Lemma dests_match e sets names a :
  endpoint_wf resolve e → node_zone_free resolve e → wf_addr a → (Kind e = NetRefDomain → populated sets names (Domain e)) →
  existsb (fun d => dest_matches sets d a) (dests resolve e) = remote_has names resolve e a.
Proof.
  intros [E|[(E & N1 & p & Hp)|[(E & N1 & N2)|(E & N1 & N2 & N3 & n & Hn)]]]%endpoint_kinds Hz Ha Hpop;
    unfold dests, remote_has.
  - by rewrite bool_decide_eq_true_2.
  - rewrite bool_decide_eq_false_2, bool_decide_eq_true_2 by done. cbn. rewrite !orb_false_r.
    by rewrite (egress_source_canonical _ _ _ Hp), (denotes_canonical _ _ Hp).
  - rewrite !bool_decide_eq_false_2, bool_decide_eq_true_2 by done. rewrite <- (Hpop E a). cbn.
    by destruct (Is4 a); rewrite ?orb_false_r.
  - rewrite !bool_decide_eq_false_2 by done. rewrite Hn.
    rewrite <- (node_addrs_match n a) by (done || by eapply Hz).
    cbn [flat_map]. rewrite app_nil_r, existsb_app.
    assert (∀ v6, existsb (fun d => dest_matches sets d a)
      (if (length (family_addrs v6 n) =? 0)%nat then [] else [DAddrs v6 (family_addrs v6 n)]) =
      existsb (fun v => source_has v a) (family_addrs v6 n)) as Hv; [|by rewrite !Hv].
    intros v6. destruct (family_addrs v6 n); cbn; [done|]. by rewrite orb_false_r.
Qed.
Lemma egressRemoteExprs_dests r target sets exprs :
  endpoint_wf resolve (rlRemote r) → node_zone_free resolve (rlRemote r) →
  Forall (fun s => s = domainSetForHost (dsHost s)) sets →
  egressRemoteExprs r target resolve sets = Ok exprs →
  (match exprs with [] => [""] | l => l end) = map dest_expr (dests resolve (rlRemote r)).
Proof.
  intros Hwf Hz Hsets. pose proof (dests_typed _ Hwf Hz) as Ht. revert Ht.
  unfold egressRemoteExprs, dests.
  destruct (endpoint_kinds _ Hwf) as [E|[(E & N1 & p & Hp)|[(E & N1 & N2)|(E & N1 & N2 & N3 & n & Hn)]]].
  - rewrite !bool_decide_eq_true_2 by done. by intros _ [= <-].
  - rewrite !(bool_decide_eq_false_2 (Kind _ = NetRefAny)), !(bool_decide_eq_true_2 (Kind _ = NetRefCIDR)) by done.
    intros [[Hne Hd] _]%Forall_cons He.
    assert (exprs = [nftAddrExpr "daddr" [CIDR (rlRemote r)]]) as -> by congruence. cbn [map].
    by rewrite (nftAddrExpr_typed (is_v6 (CIDR (rlRemote r)))).
  - rewrite !(bool_decide_eq_false_2 (Kind _ = NetRefAny)), !(bool_decide_eq_false_2 (Kind _ = NetRefCIDR)),
      !(bool_decide_eq_true_2 (Kind _ = NetRefDomain)) by done.
    destruct (List.find _ _) as [st|] eqn:Ef; [|done]. intros _ [= <-].
    apply List.find_some in Ef as [Hin Hh]. apply bool_decide_eq_true in Hh. rewrite Forall_forall in Hsets.
    apply list_elem_of_In, Hsets in Hin. rewrite Hin, Hh. done.
  - rewrite !(bool_decide_eq_false_2 (Kind _ = NetRefAny)), !(bool_decide_eq_false_2 (Kind _ = NetRefCIDR)),
      !(bool_decide_eq_false_2 (Kind _ = NetRefDomain)), (bool_decide_eq_true_2 (Kind _ = NetRefNode)) by done.
    rewrite Hn, nodeIPAddrs_families. intros Ht [_ [Hne He]%guard_Ok]%guard_Ok.
    apply Nat.eqb_neq in Hne. cbn [flat_map] in *. rewrite app_nil_r in *. rewrite map_app.
    assert (∀ v6, (if (length (family_addrs v6 n) =? 0)%nat then [] else [nftAddrExpr "daddr" (family_addrs v6 n)]) =
      map dest_expr (if (length (family_addrs v6 n) =? 0)%nat then [] else [DAddrs v6 (family_addrs v6 n)])) as Hv.
    { intros v6. destruct (Nat.eqb_spec (length (family_addrs v6 n)) 0) as [|Hl]; [done|]. cbn [map].
      rewrite (nftAddrExpr_typed v6); [done| |apply family_addrs_typed; by eapply Hz].
      intros El. by rewrite El in Hl. }
    rewrite <- !Hv. clear Ht Hv. set (e4 := if (length (family_addrs false n) =? 0)%nat then [] else _) in *.
    set (e6 := if (length (family_addrs true n) =? 0)%nat then [] else _) in *.
    assert (exprs = e4 ++ e6) as -> by congruence. destruct e4 eqn:E4, e6 eqn:E6; try done.
    unfold e4, e6 in *. destruct (family_addrs false n), (family_addrs true n); done.
Qed.
Lemma service_exprs r e : rlProtocol r ∈ [NetProtoTCP; NetProtoUDP; NetProtoAny] →
  egressProtoExpr r = Ok e → e = service_expr (rlProtocol r) (rlPorts r).
Proof.
  unfold egressProtoExpr, service_expr. intros Hp. case_bool_decide as Ha.
  - intros [_ He]%guard_Ok. congruence.
  - assert ((rlProtocol r =?? NetProtoTCP) || (rlProtocol r =?? NetProtoUDP) = true) as ->.
    { rewrite orb_true_iff, !bool_decide_eq_true. rewrite !elem_of_cons, elem_of_nil in Hp. tauto. }
    destruct (_ =? 0)%nat; congruence.
Qed.
Definition rule_ready (r : NetRule) : Prop := rule_wf resolve r ∧ node_zone_free resolve (rlRemote r).
Definition sets_of_hosts (sets : list DomainSet) : Prop := Forall (fun s => s = domainSetForHost (dsHost s)) sets.
Lemma compileEgressRule_stmts r target sets lines :
  rule_ready r → sets_of_hosts sets → compileEgressRule r target resolve sets = Ok lines →
  lines = map stmt_line (stmts_of resolve r).
Proof.
  intros [(_ & _ & Hp & _ & _ & _ & _ & He & _) Hz] Hs. unfold compileEgressRule.
  destruct (egressRemoteExprs _ _ _ _) as [exprs|] eqn:Er; [|done]. cbn [mbind res_bind].
  destruct (egressProtoExpr r) as [pe|] eqn:Ep; [|done]. cbn [mbind res_bind]. intros Hl.
  apply service_exprs in Ep; [|done]. eapply egressRemoteExprs_dests in Er; [|done..]. rewrite Er, map_map in Hl.
  unfold stmts_of. rewrite map_map. assert (lines = _) as -> by (symmetry; injection Hl as Hl; exact Hl).
  apply map_ext. intros d. unfold stmt_line. cbn [sDest sProto sPorts sAccept sComment]. by rewrite <- Ep.
Qed.
Lemma compileEgressRules_stmts rules target sets lines :
  Forall rule_ready rules → sets_of_hosts sets → compileEgressRules rules target resolve sets = Ok lines →
  lines = map stmt_line (flat_map (stmts_of resolve) (List.filter (fun r => negb (rlDisabled r)) rules)) ∧
  Forall (fun r => rlDirection r = NetDirEgress) rules.
Proof.
  intros Hr Hs. revert lines. induction Hr as [|r rules Hr _ IH]; intros lines; cbn [compileEgressRules].
  { intros Hl. assert (lines = []) as -> by congruence. by split. }
  intros [Hd Hl]%guard_Ok. apply negb_false_iff, bool_decide_eq_true in Hd. cbn [List.filter].
  destruct (rlDisabled r) eqn:Edis; cbn [negb].
  - apply IH in Hl as [-> ?]. split; [done|by constructor].
  - destruct (compileEgressRule _ _ _ _) as [l1|] eqn:E1; [|done]. cbn [mbind res_bind] in Hl.
    destruct (compileEgressRules _ _ _ _) as [l2|] eqn:E2; [|done].
    destruct (IH l2 eq_refl) as [-> ?]. apply compileEgressRule_stmts in E1; [|done..]. subst l1.
    cbn [flat_map]. rewrite map_app. split; [|by constructor]. cbn in Hl. congruence.
Qed.

(** ** The lines decide what the policy decides *)

Lemma stmts_verdict_app sets l k c :
  stmts_verdict sets (l ++ k) c =
  if existsb (fun s => stmt_matches sets s c) l then stmts_verdict sets l c else stmts_verdict sets k c.
Proof.
  induction l as [|s l IH]; [done|]. cbn [app stmts_verdict existsb]. destruct (stmt_matches sets s c); [done|]. apply IH.
Qed.
Lemma stmts_verdict_same sets l c b :
  Forall (fun s => sAccept s = b) l → existsb (fun s => stmt_matches sets s c) l = true → stmts_verdict sets l c = b.
Proof.
  induction 1 as [|s l Hs _ IH]; [done|]. cbn [existsb stmts_verdict]. by destruct (stmt_matches sets s c).
Qed.
Lemma stmts_of_match sets names r c :
  rule_ready r → wf_addr (cnRemote c) → (Kind (rlRemote r) = NetRefDomain → populated sets names (Domain (rlRemote r))) →
  existsb (fun s => stmt_matches sets s c) (stmts_of resolve r) =
  remote_has names resolve (rlRemote r) (cnRemote c) && service_matches (rlProtocol r) (rlPorts r) c.
Proof.
  intros [(_ & _ & _ & _ & _ & _ & _ & He & _) Hz] Ha Hp. rewrite <- (dests_match _ sets) by done.
  unfold stmts_of. induction (dests resolve (rlRemote r)) as [|d l IH]; [done|].
  cbn [map existsb]. rewrite IH, andb_orb_distrib_l. done.
Qed.
Lemma stmts_verdict_policy sets names rules c :
  Forall rule_ready rules → Forall (fun r => rlDirection r = NetDirEgress) rules → wf_addr (cnRemote c) →
  (∀ r, r ∈ rules → rlDisabled r = false → Kind (rlRemote r) = NetRefDomain → populated sets names (Domain (rlRemote r))) →
  stmts_verdict sets (flat_map (stmts_of resolve) (List.filter (fun r => negb (rlDisabled r)) rules)) c =
  policy_verdict names resolve NetDirEgress rules c.
Proof.
  intros Hr Hd Ha. induction Hr as [|r rules Hr _ IH]; [done|]. intros Hp. apply Forall_cons in Hd as [Hdr Hd].
  assert (stmts_verdict sets (flat_map (stmts_of resolve) (List.filter (fun r => negb (rlDisabled r)) rules)) c =
    policy_verdict names resolve NetDirEgress rules c) as E by (apply IH; [done|]; intros; apply Hp; set_solver).
  cbn [policy_verdict List.filter]. rewrite Hdr, (bool_decide_eq_true_2 (NetDirEgress = NetDirEgress)), andb_true_r by done.
  destruct (rlDisabled r) eqn:Edis; cbn [negb andb]; [done|]. cbn [flat_map].
  rewrite stmts_verdict_app, E, (stmts_of_match sets names) by (done || intros; apply Hp; set_solver).
  destruct (_ && _) eqn:Em; [|done]. apply stmts_verdict_same.
  - unfold stmts_of. by apply Forall_map, Forall_true.
  - rewrite (stmts_of_match sets names); [done|done|done|]. intros. apply Hp; set_solver.
Qed.

(** The ingress rules as rules of the guard chain. *)
Lemma ingress_rule_matches r target sources pk :
  rule_ready r → rlDirection r = NetDirIngress → wf_addr (pkSrc pk) → ingressSourceCIDRs r target resolve = Ok sources →
  rule_matches (mkInput "" sources (nftInputProtocol (rlProtocol r)) (rlPorts r) (nftInputAction (rlAction r)) (ruleComment r)) pk =
  remote_has (fun _ => []) resolve (rlRemote r) (pkSrc pk) &&
  service_matches (rlProtocol r) (rlPorts r) (mkConn (pkSrc pk) (pkProto pk) (pkPort pk)).
Proof.
  intros [(_ & _ & Hp & _ & _ & _ & _ & He & Hdom) Hz] Hdir Ha Hs. unfold rule_matches, service_matches.
  cbn [rInterface SourceCIDRs rProtocol rPorts cnProto cnPort]. rewrite bool_decide_eq_true_2 by done. cbn [orb andb]. f_equal.
  - revert Hs. unfold ingressSourceCIDRs, remote_has.
    destruct (endpoint_kinds _ He) as [E|[(E & N1 & p & Hp')|[(E & N1 & N2)|(E & N1 & N2 & N3 & n & Hn)]]].
    + rewrite !(bool_decide_eq_true_2 (Kind _ = NetRefAny)) by done. by intros [= <-].
    + rewrite !(bool_decide_eq_false_2 (Kind _ = NetRefAny)), !(bool_decide_eq_true_2 (Kind _ = NetRefCIDR)) by done.
      intros [= <-]. cbn [length Nat.eqb existsb orb]. rewrite orb_false_r.
      by rewrite (egress_source_canonical _ _ _ Hp'), (denotes_canonical _ _ Hp').
    + exfalso. apply directions_distinct. rewrite <- Hdir. symmetry. by apply Hdom.
    + rewrite !(bool_decide_eq_false_2 (Kind _ = NetRefAny)), !(bool_decide_eq_false_2 (Kind _ = NetRefCIDR)),
        !(bool_decide_eq_false_2 (Kind _ = NetRefDomain)), (bool_decide_eq_true_2 (Kind _ = NetRefNode)) by done.
      rewrite Hn, nodeIPAddrs_families. intros [_ [Hne Hs]%guard_Ok]%guard_Ok.
      assert (sources = family_addrs false n ++ family_addrs true n) as -> by congruence.
      rewrite length_app, Hne. cbn [orb]. rewrite existsb_app. apply node_addrs_match; [by eapply Hz|done].
  - pose proof proto_names as (E1 & E2 & E3). unfold nftInputProtocol, NFTProtoAny, NFTProtoTCP, NFTProtoUDP.
    rewrite E1, E2, E3 in *.
    repeat (apply elem_of_cons in Hp as [->|Hp]; [done|]). by apply elem_of_nil in Hp.
Qed.
Lemma nftInputAction_accept a : (nftInputAction a =?? NFTActionAccept) = (a =?? NetRuleAllow).
Proof. unfold nftInputAction. by destruct (a =?? NetRuleAllow). Qed.
Lemma ingressRules_verdict rules target out pk :
  Forall rule_ready rules → wf_addr (pkSrc pk) → ingressRules rules target resolve = Ok out →
  verdict out pk = policy_verdict (fun _ => []) resolve NetDirIngress rules (mkConn (pkSrc pk) (pkProto pk) (pkPort pk)).
Proof.
  intros Hr Ha. revert out. induction Hr as [|r rules Hr _ IH]; intros out; cbn [ingressRules policy_verdict].
  { intros Ho. by assert (out = []) as -> by congruence. }
  case_bool_decide as Hd; cbn [negb orb andb].
  - destruct (rlDisabled r) eqn:Edis; cbn [negb andb]; [apply IH|].
    destruct (ingressSourceCIDRs r target resolve) as [srcs|] eqn:Es; [|done]. cbn [mbind res_bind].
    destruct (ingressRules rules target resolve) as [rest|] eqn:Er; [|done]. intros Ho.
    assert (out = mkInput "" srcs (nftInputProtocol (rlProtocol r)) (rlPorts r) (nftInputAction (rlAction r))
      (ruleComment r) :: rest) as -> by (cbn in Ho; congruence).
    cbn [verdict cnRemote]. rewrite (ingress_rule_matches r target srcs pk), (IH rest) by done.
    cbn [rAction]. by rewrite nftInputAction_accept.
  - intros Ho. rewrite andb_false_r. cbn [andb]. by apply IH.
Qed.

Lemma NormalizePolicy_ready p q :
  NormalizePolicy p resolve = Ok q → (∀ r, r ∈ npRules q → node_zone_free resolve (rlRemote r)) →
  Forall rule_ready (npRules q).
Proof.
  intros Hn Hz. pose proof (NormalizePolicy_rules resolve p q Hn) as Hr. rewrite Forall_forall in *.
  intros r Hin. split; auto.
Qed.
Lemma collect_sets rules : sets_of_hosts (collectEgressDomainSets rules).
Proof. by apply Forall_map, Forall_true. Qed.
Lemma collect_host rules r :
  r ∈ rules → rlDisabled r = false → rlDirection r = NetDirEgress → Kind (rlRemote r) = NetRefDomain →
  Domain (rlRemote r) ∈ map dsHost (collectEgressDomainSets rules).
Proof.
  intros Hr Hdis Hdir Hk. unfold collectEgressDomainSets. rewrite map_map. cbn [domainSetForHost dsHost].
  rewrite map_id. unfold sort_strings. rewrite merge_sort_Permutation, elem_of_dedup.
  apply list_elem_of_fmap. exists r. split; [done|]. apply list_elem_of_In, filter_In.
  split; [by apply list_elem_of_In|]. by rewrite Hdis, Hdir, Hk, !bool_decide_eq_true_2.
Qed.

Lemma one_line_hex s n : one_line (str_take n (sha256_hex s)).
Proof.
  intros Hin. assert (newline ∈ bytes_of (sha256_hex s)) as Hh.
  { rewrite <- (str_take_drop n (sha256_hex s)), bytes_of_app. set_solver. }
  apply sha256_hex_alphabet in Hh. done.
Qed.
Lemma one_line_sets host : one_line (Set4 (domainSetForHost host)) ∧ one_line (Set6 (domainSetForHost host)).
Proof.
  split; (apply one_line_app; [|literal]); (apply one_line_app; [literal|apply one_line_hex]).
Qed.
Context `{!QuoteLaws}.
Lemma one_line_stmt r : rule_ready r → Forall (fun s => one_line (stmt_line s)) (stmts_of resolve r).
Proof.
  intros [(_ & _ & Hp & _ & _ & _ & _ & He & _) Hz]. pose proof (dests_typed _ He Hz) as Ht.
  unfold stmts_of. apply Forall_map.
  assert (Forall (fun d => dest_typed d ∧ ∀ v6 n, d = DSet v6 n → one_line n) (dests resolve (rlRemote r))) as Hd.
  { rewrite Forall_forall in *. intros d Hd. split; [auto|]. intros v6 n ->. unfold dests in Hd.
    pose proof (one_line_sets (Domain (rlRemote r))) as [H4 H6].
    destruct (_ =?? NetRefAny); [by apply list_elem_of_singleton in Hd|].
    destruct (_ =?? NetRefCIDR); [by apply list_elem_of_singleton in Hd|].
    destruct (_ =?? NetRefDomain); [|destruct (resolve _); [|by apply elem_of_nil in Hd]].
    - rewrite !elem_of_cons, elem_of_nil in Hd. destruct Hd as [Hd|[Hd|[]]];
        (assert (n = _) as -> by (injection Hd as _ Hd; exact Hd)); [exact H4|exact H6].
    - apply list_elem_of_In, in_flat_map in Hd as (b & _ & Hd). destruct (_ =? 0)%nat; [done|]. by destruct Hd as [|[]]. }
  apply (Forall_impl _ _ _ Hd). intros d [Hty Hset]. unfold stmt_line.
  cbn [sDest sProto sPorts sAccept sComment]. apply one_line_join; [literal|]. rewrite !Forall_app. split; [|split].
  - case_bool_decide; [constructor|]. constructor; [|constructor]. destruct d as [|v6 l|v6 n]; cbn [dest_expr]; [done| |].
    + destruct Hty as [_ Hl]. assert (Forall one_line l) as Hol.
      { apply (Forall_impl _ _ _ Hl). intros v (p & Hc & _). by eapply one_line_canonical. }
      assert (one_line (family v6)) by (destruct v6; literal).
      destruct l as [|a [|b l]].
      * apply one_line_app; [done|literal].
      * apply Forall_inv in Hol. one_line.
      * apply one_line_app; [done|]. apply one_line_app; [literal|]. apply one_line_app; [|literal].
        apply one_line_join; [literal|done].
    + specialize (Hset v6 n eq_refl). assert (one_line (family v6)) by (destruct v6; literal). one_line.
  - case_bool_decide; [constructor|]. constructor; [|constructor]. unfold service_expr.
    assert (one_line (rlProtocol r)) as Hpl.
    { pose proof proto_names as (E1 & E2 & E3). rewrite E1, E2, E3 in Hp.
      repeat (apply elem_of_cons in Hp as [->|Hp]; [literal|]). by apply elem_of_nil in Hp. }
    assert (one_line (nftPortSet (rlPorts r))) as Hports.
    { unfold nftPortSet. destruct (rlPorts r) as [|x [|y l]]; [literal|apply one_line_dec|].
      apply one_line_app; [literal|]. apply one_line_app; [apply one_line_ports|literal]. }
    case_bool_decide; [literal|]. destruct (_ =? 0)%nat; one_line.
  - constructor; [destruct (_ =?? _); literal|]. constructor; [literal|]. constructor; [one_line|constructor].
Qed.

(** C17. The rules of the compiled egress chain are the policy.  Between its
    fixed head, which accepts established and loopback traffic and neighbour
    discovery, the control-plane and name-service accepts and the final drop,
    the ruleset has one line per statement and nothing else; no value of the
    policy starts a line of its own; every line names addresses of its own
    family only; and on every connection those fixed lines leave to them the
    statements, tried in order, decide what the first matching enabled rule of
    the policy says.  This needs the nodes the policy names to have addresses
    without an IPv6 zone, and the sets of the domains to hold exactly the
    addresses their names resolve to. *)
Theorem egress_refines_policy p opts plan q :
  CompileEgressPlan p resolve opts = Ok plan → NormalizePolicy p resolve = Ok q →
  (∀ r, r ∈ npRules q → node_zone_free resolve (rlRemote r)) →
  ∃ stmts,
    Ruleset plan = join_lines (egress_head opts (DomainSets plan) ++ controlPlaneAllowLine opts ++ dns_lines ++
      map (fun s => tab +:+ tab +:+ stmt_line s) stmts ++ egress_tail) ∧
    Forall (fun s => one_line (stmt_line s) ∧ dest_typed (sDest s)) stmts ∧
    ∀ sets names c, wf_addr (cnRemote c) →
      Forall (populated sets names) (map dsHost (DomainSets plan)) →
      stmts_verdict sets stmts c = policy_verdict names resolve NetDirEgress (npRules q) c.
Proof.
  intros Hc Hn Hz. unfold CompileEgressPlan in Hc. apply guard_Ok in Hc as [_ Hc].
  destruct (validateCompileOptions opts) as [u|]; [|done]. rewrite Hn in Hc.
  destruct (resolve (TargetNodeID q)) as [target|]; [|done].
  destruct (compileEgressRules _ _ _ _) as [lines|] eqn:El; [|done]. cbn [mbind res_bind] in Hc.
  pose proof (NormalizePolicy_ready p q Hn Hz) as Hr.
  apply compileEgressRules_stmts in El as [-> Hdir]; [|done|apply collect_sets].
  set (enabled := List.filter (fun r => negb (rlDisabled r)) (npRules q)).
  exists (flat_map (stmts_of resolve) enabled).
  assert (plan = mkEgress _ _) as -> by (symmetry; injection Hc as Hc; exact Hc). cbn [Ruleset DomainSets].
  split; [by rewrite map_map|split].
  - apply Forall_flat_map. apply Forall_forall. intros r [Hin _]%list_elem_of_In%filter_In.
    apply list_elem_of_In in Hin. pose proof Hr as Hr'. rewrite Forall_forall in Hr'. pose proof (Hr' r Hin) as Hready.
    apply Forall_and. split; [by apply one_line_stmt|]. unfold stmts_of. apply Forall_map. cbn.
    destruct Hready as [(_ & _ & _ & _ & _ & _ & _ & He & _) Hzr]. by apply dests_typed.
  - intros sets names c Hw Hpop. apply stmts_verdict_policy; [done..|].
    intros r Hin Hdis Hk. rewrite Forall_forall in Hpop. rewrite Forall_forall in Hdir. apply Hpop, collect_host; auto.
Qed.
(** The compiled ingress rules, as rules of the guard chain, decide
    every inbound connection the way the policy's ingress rules do. *)
Theorem ingress_refines_policy p out q pk :
  npEnabled p = true → CompileIngressInputRules p resolve = Ok out → NormalizePolicy p resolve = Ok q →
  (∀ r, r ∈ npRules q → node_zone_free resolve (rlRemote r)) → wf_addr (pkSrc pk) →
  verdict out pk =
  policy_verdict (fun _ => []) resolve NetDirIngress (npRules q) (mkConn (pkSrc pk) (pkProto pk) (pkPort pk)).
Proof.
  intros Hen Hc Hn Hz Hw. unfold CompileIngressInputRules in Hc. rewrite Hen, Hn in Hc. cbn [negb] in Hc.
  destruct (resolve (TargetNodeID q)) as [target|]; [|done].
  eapply ingressRules_verdict; [|done..]. by eapply NormalizePolicy_ready.
Qed.
End rules.
End meaning.

(** ** Addresses agents report ([server/server.go])

    The classes of [netip.Addr]; an unspecified address is recognized only
    without a zone, and a prefix contains no address with one. *)

Definition at_byte (i : nat) (b : list Z) : Z := default 0 (b !! i).
Definition IsUnspecified (z : zoned) : bool :=
  match Unmap z.1 with A4 b => (z.1 =?? A4 b) && (b =?? [0; 0; 0; 0]) | A16 b => (b =?? replicate 16 0) && (z.2 =?? "") end.
Definition IsLoopback (z : zoned) : bool :=
  match Unmap z.1 with A4 b => at_byte 0 b =? 127 | A16 b => b =?? replicate 15 0 ++ [1] end.
Definition IsMulticast (z : zoned) : bool :=
  match Unmap z.1 with A4 b => Z.land (at_byte 0 b) 240 =? 224 | A16 b => at_byte 0 b =? 255 end.
Definition IsLinkLocalUnicast (z : zoned) : bool :=
  match Unmap z.1 with
  | A4 b => (at_byte 0 b =? 169) && (at_byte 1 b =? 254)
  | A16 b => (at_byte 0 b =? 254) && (Z.land (at_byte 1 b) 192 =? 128) end.
Definition IsPrivate (z : zoned) : bool :=
  match Unmap z.1 with
  | A4 b => (at_byte 0 b =? 10) || ((at_byte 0 b =? 172) && (Z.land (at_byte 1 b) 240 =? 16)) ||
            ((at_byte 0 b =? 192) && (at_byte 1 b =? 168))
  | A16 b => Z.land (at_byte 0 b) 254 =? 252 end.
Definition IsGlobalUnicast (z : zoned) : bool :=
  match Unmap z.1 with
  | A4 b => negb (b =?? [0; 0; 0; 0]) && negb (b =?? [255; 255; 255; 255])
  | A16 b => negb ((b =?? replicate 16 0) && (z.2 =?? "")) end &&
  negb (IsLoopback z) && negb (IsMulticast z) && negb (IsLinkLocalUnicast z).
Definition ContainsZoned (p : Prefix) (z : zoned) : bool := (z.2 =?? "") && Contains p z.1.

Inductive reportError := ErrInvalidIP | ErrNotIPv4 | ErrNotIPv6 | ErrNotRoutable | ErrReserved.
Definition blockedReportedPublicPrefixes : list Prefix :=
  omap ParsePrefix ["100.64.0.0/10"; "192.0.2.0/24"; "198.18.0.0/15"; "198.51.100.0/24"; "203.0.113.0/24"; "2001:db8::/32"].
Definition validateReportedPublicIP (value : string) (wantIPv4 : bool) : res reportError unit :=
  if value =?? "" then Ok tt else
  match ParseAddrZone value with
  | None => Err ErrInvalidIP
  | Some z =>
    fail_if wantIPv4 && negb (Is4 z.1) with ErrNotIPv4;
    fail_if negb wantIPv4 && Is4 z.1 with ErrNotIPv6;
    fail_if negb (IsGlobalUnicast z) || IsPrivate z || IsLoopback z || IsLinkLocalUnicast z || IsMulticast z ||
      IsUnspecified z with ErrNotRoutable;
    fail_if existsb (fun p => ContainsZoned p z) blockedReportedPublicPrefixes with ErrReserved;
    Ok tt
  end.
(** [pickPublicIP]: the reported value wins. [observed] is the client's
    address. *)
Definition pickPublicIP (observed : option (list Z)) (reported current : string) (wantV4 : bool) : string :=
  let ok s := match validateReportedPublicIP s wantV4 with Ok _ => true | Err _ => false end in
  let fallback :=
    let current := trim_space current in
    if negb (current =?? "") && ok current then current else "" in
  let reported := trim_space reported in
  if negb (reported =?? "") then reported else
  match observed with
  | Some ip => if Bool.eqb (is_some (To4 ip)) wantV4 && ok (IPString ip) then IPString ip else fallback
  | None => fallback
  end.

Definition report (s : string) : res reportError unit := validateReportedPublicIP s false.
Example reported_ips :
  map report ["2606:4700::1111"; "2001:db8::7"; "fe80::1"; "fd00::1"; "::1"; "ff02::1"; "1.1.1.1"; "x"] =
  [Ok tt; Err ErrReserved; Err ErrNotRoutable; Err ErrNotRoutable; Err ErrNotRoutable; Err ErrNotRoutable;
   Err ErrNotIPv6; Err ErrInvalidIP].
Proof. vm_compute. reflexivity. Qed.

(** An address with a zone passes the report check whatever the zone is. *)
Definition zoned_report (zone : string) : string := "2606:4700::1111%" +:+ zone.
Definition zoned_addr : addr := Eval vm_compute in default (A4 []) (ParseAddr "2606:4700::1111").
Lemma index_percent zone : index_byte (zoned_report zone) "%" = Some 15%nat.
Proof. unfold zoned_report. apply (index_byte_app "2606:4700::1111" "%" zone). vm_compute. reflexivity. Qed.
Lemma ParseAddrZone_report zone : zone ≠ "" → ParseAddrZone (zoned_report zone) = Some (zoned_addr, zone).
Proof.
  intros Hz. unfold ParseAddrZone. rewrite index_percent.
  assert (addr_family (bytes_of (zoned_report zone)) = Some true) as -> by done.
  assert (str_take 15 (zoned_report zone) = "2606:4700::1111" ∧ str_drop 16 (zoned_report zone) = zone) as [-> ->] by done.
  cbn [mbind option_bind]. rewrite bool_decide_eq_false_2 by done. vm_compute parseIPv6. reflexivity.
Qed.
Lemma zoned_report_accepted zone : zone ≠ "" → validateReportedPublicIP (zoned_report zone) false = Ok tt.
Proof.
  intros Hz. unfold validateReportedPublicIP. rewrite ParseAddrZone_report by done.
  assert (existsb (fun p => ContainsZoned p (zoned_addr, zone)) blockedReportedPublicPrefixes = false) as ->.
  { apply not_true_iff_false. rewrite existsb_elem_of. intros (p & _ & Hp). unfold ContainsZoned in Hp.
    cbn [snd] in Hp. rewrite bool_decide_eq_false_2 in Hp by done. done. }
  assert (IsUnspecified (zoned_addr, zone) = false) as -> by done.
  assert (IsGlobalUnicast (zoned_addr, zone) = true) as -> by done.
  assert (zoned_report zone =?? "" = false) as -> by done. done.
Qed.

Lemma ParsePrefix_report zone : ParsePrefix (zoned_report zone) = None.
Proof.
  unfold ParsePrefix. destruct (last_index_byte (zoned_report zone) "/") as [i|] eqn:E; [|done]. cbn [mbind option_bind].
  assert (ParseAddr (str_take i (zoned_report zone)) = None) as ->; [|done].
  apply last_index_byte_Some in E as (p & t & Hs & <-). rewrite Hs, str_take_app.
  set (head := bytes_of "2606:4700::1111%").
  assert (bytes_of (zoned_report zone) = head ++ bytes_of zone) as Hb by done.
  assert (head ++ bytes_of zone = bytes_of p ++ "/"%char :: bytes_of t) as Hsplit by (by rewrite <- Hb, Hs, bytes_of_app).
  assert ("%"%char ∈ bytes_of p) as Hp.
  { destruct (le_lt_dec (length (bytes_of p)) 15) as [Hle|Hgt].
    - exfalso. assert ("/"%char ∈ head) as Hin.
      2: { assert ("/"%char ∉ head) as Hn by (apply (bool_decide_unpack _); vm_compute; exact I). by destruct Hn. }
      apply (list_elem_of_lookup_2 _ (length (bytes_of p))).
      rewrite <- (lookup_app_l head (bytes_of zone)) by (cbn; lia).
      by rewrite Hsplit, lookup_app_r, Nat.sub_diag.
    - apply (list_elem_of_lookup_2 _ 15).
      rewrite <- (lookup_app_l (bytes_of p) ("/"%char :: bytes_of t)) by lia. by rewrite <- Hsplit. }
  unfold ParseAddr. assert (existsb (fun c => c =?? "%"%char) (bytes_of p) = true) as ->; [|done].
  apply existsb_elem_of. exists "%"%char. split; [done|]. by apply bool_decide_eq_true.
Qed.
Lemma parseNodeAddr_report zone :
  zone ≠ "" → trim_space (zoned_report zone) = zoned_report zone →
  parseNodeAddr (zoned_report zone) = Some (zoned_addr, zone).
Proof.
  intros Hz Ht. unfold parseNodeAddr. rewrite Ht, ParsePrefix_report, ParseAddrZone_report by done.
  by rewrite bool_decide_eq_false_2.
Qed.

Lemma zoned_string_report zone : zone ≠ "" → zoned_string (zoned_addr, zone) = zoned_report zone.
Proof.
  intros Hz. unfold zoned_string. cbn [fst snd]. rewrite bool_decide_eq_false_2 by done.
  assert (AddrString zoned_addr = "2606:4700::1111") as -> by (vm_compute; reflexivity). done.
Qed.
Lemma sortedAddrs_one s : sortedAddrs [s] = [s].
Proof. apply Permutation_singleton_r. unfold sortedAddrs. by rewrite merge_sort_Permutation. Qed.
Lemma nodeIPAddrs_report id zone :
  zone ≠ "" → trim_space (zoned_report zone) = zoned_report zone →
  nodeIPAddrs (mkPolicyNode id "" "" (zoned_report zone)) = ([], [zoned_report zone]).
Proof.
  intros Hz Ht. unfold nodeIPAddrs. cbn [pnWireGuardIP pnPublicIP pnPublicIPv6].
  assert (omap parseNodeAddr [""; ""; zoned_report zone] = [(zoned_addr, zone)]) as ->.
  { cbn [omap list_omap]. change (parseNodeAddr "") with (@None zoned). by rewrite parseNodeAddr_report. }
  cbn [List.filter fst Is4 zoned_addr negb map]. fold zoned_addr. rewrite zoned_string_report by done.
  by rewrite sortedAddrs_one.
Qed.

Section injection.
Context `{Quote}.
#[local] Existing Instance NetDemo.net_sdk.

(** A policy of [n1] that allows traffic to the node [n2]. *)
Definition to_peer : NetPolicy :=
  mkPolicy "n1" "n1" true false [mkRule "peer" "" "allow" "egress" "any" [] (mkEndpoint "node" "n2" "" "" "") false].
Definition two_nodes (ip6 : string) (id : string) : option PolicyNode :=
  if id =?? "n1" then Some (mkPolicyNode "n1" "" "" "")
  else if id =?? "n2" then Some (mkPolicyNode "n2" "" "" ip6) else None.
Definition control_opts : CompileOptions := mkOptions (Some (A4 [198; 51; 100; 1], "")) None "" 443.

(** A zone in a reported address reaches other nodes' firewalls: an
    agent may report a public IPv6 address followed by any zone text, the
    check accepts it, and the text is copied, as it is, into the ruleset of
    every node whose policy names the reporting node. *)
Theorem reported_zone_reaches_ruleset zone :
  zone ≠ "" → trim_space (zoned_report zone) = zoned_report zone →
  validateReportedPublicIP (zoned_report zone) false = Ok tt ∧
  ∃ plan pre post,
    CompileEgressPlan to_peer (two_nodes (pickPublicIP None (zoned_report zone) "" false)) control_opts = Ok plan ∧
    Ruleset plan = pre +:+ zone +:+ post.
Proof.
  intros Hz Ht. split; [by apply zoned_report_accepted|].
  assert (pickPublicIP None (zoned_report zone) "" false = zoned_report zone) as ->.
  { unfold pickPublicIP. by rewrite Ht. }
  set (rule := mkRule "peer" "" "allow" "egress" "any" [] (mkEndpoint "node" "n2" "" "" "") false).
  assert (∀ ip6, NormalizePolicy to_peer (two_nodes ip6) = Ok (mkPolicy "n1" "n1" true false [rule])) as Hnorm
    by (intros ip6; vm_compute; reflexivity).
  set (line := join " " ["ip6 daddr " +:+ zoned_report zone; "accept"; "comment"; quote (ruleComment rule)]).
  assert (compileEgressRules [rule] (mkPolicyNode "n1" "" "" "") (two_nodes (zoned_report zone)) [] = Ok [line]) as Hc.
  { cbn [compileEgressRules]. change (negb (rlDirection rule =?? NetDirEgress)) with false.
    change (rlDisabled rule) with false. cbn [guard_err]. unfold compileEgressRule.
    assert (egressRemoteExprs rule (mkPolicyNode "n1" "" "" "") (two_nodes (zoned_report zone)) [] =
      Ok ["ip6 daddr " +:+ zoned_report zone]) as ->; [|done].
    unfold egressRemoteExprs.
    change (Kind (rlRemote rule) =?? NetRefAny) with false. change (Kind (rlRemote rule) =?? NetRefCIDR) with false.
    change (Kind (rlRemote rule) =?? NetRefDomain) with false. change (Kind (rlRemote rule) =?? NetRefNode) with true.
    change (NodeID (rlRemote rule) =?? _) with false. cbn [guard_err].
    change (two_nodes (zoned_report zone) (NodeID (rlRemote rule))) with
      (Some (mkPolicyNode "n2" "" "" (zoned_report zone))).
    cbv beta iota. rewrite nodeIPAddrs_report by done. cbv beta iota.
    cbn [length Nat.add Nat.eqb guard_err app]. unfold nftAddrExpr. rewrite parseNodeAddr_report by done. done. }
  unfold CompileEgressPlan. change (negb (npEnabled to_peer)) with false. cbn [guard_err].
  assert (validateCompileOptions control_opts = Ok tt) as -> by (vm_compute; reflexivity).
  rewrite Hnorm. cbn [TargetNodeID].
  change (two_nodes (zoned_report zone) "n1") with (Some (mkPolicyNode "n1" "" "" "")). cbn [npRules].
  change (collectEgressDomainSets [rule]) with (@nil DomainSet). rewrite Hc. cbn [mbind res_bind].
  eexists _, _, _. split; [reflexivity|]. cbn [Ruleset map].
  rewrite (app_assoc (egress_head _ _)), (app_assoc _ dns_lines), join_lines_app.
  assert (join_lines ([tab +:+ tab +:+ line] ++ egress_tail) =
    (tab +:+ tab +:+ "ip6 daddr 2606:4700::1111%") +:+ zone +:+
    (" accept comment " +:+ quote (ruleComment rule) +:+ String newline (join_lines egress_tail))) as ->.
  { unfold line, zoned_report. cbn [join_lines foldr app]. rewrite !str_app_assoc.
    do 2 f_equal. change (join " " _) with (("ip6 daddr 2606:4700::1111%" +:+ zone) +:+ " " +:+ "accept" +:+ " " +:+
      "comment" +:+ " " +:+ quote (ruleComment rule)). by rewrite !str_app_assoc. }
  rewrite <- str_app_assoc. reflexivity.
Qed.
End injection.
Lemma reported_zone_reaches_ruleset_witness :
  let zone := "x accept; add rule inet filter" in
  ∃ plan pre post, CompileEgressPlan (H := NetDemo.net_sdk) (H0 := simple_quote) to_peer
    (two_nodes (pickPublicIP None (zoned_report zone) "" false)) control_opts = Ok plan ∧
    Ruleset plan = pre +:+ zone +:+ post.
Proof.
  intros zone. apply (reported_zone_reaches_ruleset (H := simple_quote) zone); [done|vm_compute; reflexivity].
Defined.

(** ** A concrete policy *)

Module EgressDemo.
#[local] Existing Instance NetDemo.net_sdk.
#[local] Existing Instance simple_quote.
Lemma names : NetSdkNames.
Proof.
  split; [by split_and!| |done]. repeat constructor; apply (bool_decide_unpack _); vm_compute; exact I.
Qed.
Definition nodes (id : string) : option PolicyNode :=
  if id =?? "n1" then Some (mkPolicyNode "n1" "10.66.0.1" "" "")
  else if id =?? "n2" then Some (mkPolicyNode "n2" "10.66.0.2/32" "198.51.100.7" "2606:4700::1111") else None.
Definition egress : NetPolicy := mkPolicy "n1" "n1" true false
  [mkRule "peer" "" "allow" "egress" "tcp" [443; 80] (mkEndpoint "node" "n2" "" "" "") false;
   mkRule "lan" "no lan" "deny" "egress" "any" [] (mkEndpoint "cidr" "" "10.1.2.3/8" "" "") false;
   mkRule "api" "" "allow" "egress" "any" [] (mkEndpoint "domain" "" "" "API.example.com" "") false].
Definition ingress : NetPolicy := mkPolicy "n1" "n1" true false
  [mkRule "peer" "" "allow" "ingress" "udp" [] (mkEndpoint "node" "n2" "" "" "") false;
   mkRule "ssh" "" "allow" "ingress" "tcp" [22] (mkEndpoint "anywhere" "" "" "" "") false].
Definition no_policy : NetPolicy := mkPolicy "" "" false false [].
Definition of_res {E A} (d : A) (r : res E A) : A := match r with Ok x => x | Err _ => d end.
Definition egress' : NetPolicy := Eval vm_compute in of_res no_policy (NormalizePolicy egress nodes).
Definition ingress' : NetPolicy := Eval vm_compute in of_res no_policy (NormalizePolicy ingress nodes).
Definition plan : EgressPlan := Eval vm_compute in of_res (mkEgress "" []) (CompileEgressPlan egress nodes control_opts).
Definition input : list NFTInputRule := Eval vm_compute in of_res [] (CompileIngressInputRules ingress nodes).
Lemma nodes_zone_free id n : nodes id = Some n → zone_free n.
Proof.
  unfold nodes. case_bool_decide; [|case_bool_decide; [|done]]; intros [= <-]; unfold zone_free;
    apply (bool_decide_unpack _); vm_compute; exact I.
Qed.
(** What the one domain of the policy resolves to, and the sets filled with
    it. *)
Definition api_names (host : string) : list addr := if host =?? "api.example.com" then [A4 [203; 0; 113; 9]] else [].
Definition api_sets (set : string) : list addr :=
  if set =?? Set4 (domainSetForHost "api.example.com") then [A4 [203; 0; 113; 9]] else [].
Lemma api_populated : Forall (populated api_sets api_names) (map dsHost (DomainSets plan)).
Proof.
  assert (map dsHost (DomainSets plan) = ["api.example.com"]) as -> by (vm_compute; reflexivity).
  apply Forall_cons. split; [|by apply Forall_nil]. intros a.
  assert (api_names "api.example.com" = [A4 [203; 0; 113; 9]]) as -> by (vm_compute; reflexivity).
  assert (api_sets (Set4 (domainSetForHost "api.example.com")) = [A4 [203; 0; 113; 9]]) as E4 by (vm_compute; reflexivity).
  assert (api_sets (Set6 (domainSetForHost "api.example.com")) = []) as E6 by (vm_compute; reflexivity).
  destruct (Is4 a) eqn:Ea; [by rewrite E4|]. rewrite E6. symmetry. apply mem_false. rewrite list_elem_of_singleton.
  intros E'. rewrite E' in Ea. discriminate Ea.
Qed.
Example egress_text : skipn 21 (split (Ruleset plan) newline) = map (fun l => tab +:+ tab +:+ l)
  ["ip daddr { 10.66.0.2, 198.51.100.7 } tcp dport { 80, 443 } accept comment " +:+ dq "lattice rule peer";
   "ip6 daddr 2606:4700::1111 tcp dport { 80, 443 } accept comment " +:+ dq "lattice rule peer";
   "ip daddr 10.0.0.0/8 drop comment " +:+ dq "lattice rule lan no lan"] ++ skipn 24 (split (Ruleset plan) newline).
Proof. vm_compute. reflexivity. Qed.
End EgressDemo.

#[local] Existing Instance NetDemo.net_sdk.
#[local] Existing Instance simple_quote.

Lemma egress_refines_policy_witness :
  ∃ stmts, (λ '(a, proto, port), stmts_verdict EgressDemo.api_sets stmts (mkConn (A4 a) proto port)) <$>
      [([203; 0; 113; 9], "tcp", 443); ([198; 51; 100; 7], "tcp", 80); ([198; 51; 100; 7], "tcp", 81); ([10; 9; 9; 9], "udp", 9)]
    = [true; true; false; false].
Proof.
  assert (CompileEgressPlan EgressDemo.egress EgressDemo.nodes control_opts =
    Ok EgressDemo.plan) as Hc by (vm_compute; reflexivity).
  assert (NormalizePolicy EgressDemo.egress EgressDemo.nodes = Ok EgressDemo.egress') as Hn
    by (vm_compute; reflexivity).
  destruct (egress_refines_policy (H1 := EgressDemo.names) (H2 := simple_quote_laws) EgressDemo.nodes _ _ _ _ Hc Hn) as (stmts & Ht & _ & Hv).
  { intros r _ n _ Hr. by eapply EgressDemo.nodes_zone_free. }
  exists stmts. cbn [fmap list_fmap]. rewrite !(Hv EgressDemo.api_sets EgressDemo.api_names _) by
    (apply EgressDemo.api_populated || (split; [done|];
      repeat (constructor; [split; [vm_compute; discriminate|vm_compute; reflexivity]|]); constructor)).
  vm_compute. reflexivity.
Defined.
Lemma ingress_refines_policy_witness :
  let pk := mkPacket "eth0" (A4 [198; 51; 100; 7]) "udp" 53 in
  verdict EgressDemo.input pk = true.
Proof.
  intros pk. rewrite (ingress_refines_policy (H1 := EgressDemo.names)
    EgressDemo.nodes EgressDemo.ingress EgressDemo.input EgressDemo.ingress' pk).
  - vm_compute. reflexivity.
  - reflexivity.
  - vm_compute. reflexivity.
  - vm_compute. reflexivity.
  - intros r _ n _ Hr. by eapply EgressDemo.nodes_zone_free.
  - split; [done|]. repeat (constructor; [split; [vm_compute; discriminate|vm_compute; reflexivity]|]). constructor.
Defined.
