(* ===== verification/GuardAnchors.v ===== *)
(** * NetGuard plan anchors (internal/store/store.go, node_group_guard.go, group_usage.go)

    A NetGuard plan is reviewed by an operator some time before it runs.  The
    store keeps, on the binding of the node, the hash of the last plan (the
    anchor) and a version; the comment above [invalidateGuardBindingLocked]
    promises that every store mutation that can change the compiled rules
    clears the anchor and moves the version in the same critical section, so
    that an approved task is withheld when the policy moved under it.

    This file models the records a compile reads, the operations of the store
    that write them with the clearing of anchors each one performs, the
    snapshot a compile is made from and the freshness check of the server.
    Timestamps are left out: nothing here reads them.  A failed save leaves
    the changed records in memory, so the operations that end in [s.Save()]
    have the same effect on the state whether it succeeds or not. *)

From Stdlib Require Import ZArith Lia.
From stdpp Require Import gmap strings sorting.
From S2P Require Import Prelude GoStr Sha IpAddr IpNet Groups NetPolicy Nft NetGuard.

Local Open Scope Z_scope.

(** ** Records *)

(** The SDK's node: the fields selectors read and the addresses a compile
    renders. *)
#[export] Instance GuardNode_eq_dec : EqDecision GuardNode.
Proof. solve_decision. Defined.
Record FleetNode := mkFleet { fnNode : Groups.Node; fnAddr : GuardNode }.
Record FleetGroup := mkFleetGroup { fgGroup : Group; ParentID : string; LeaderID : string }.
Record StoredSecurityGroup := mkStoredGroup { ssGroup : SecurityGroup; ssVersion : Z }.
Record DerivedGuardGroup := mkDerived {
  dSecurityGroupID : string; dNodeGroupID : string; dNodeGroupName : string }.
Record StoredBinding := mkStored {
  sbIntent : NodeGuardBinding; sbVersion : Z; LastPlanSHA : string; LastError : string }.
Record NodeGroupGuardBinding := mkGroupBinding {
  ngGroupID : string; SecurityGroupIDs : list string; ngVersion : Z }.
Record CheckDefinition := mkCheck { cdID : string; cdSourceGroups : list string; cdTargetGroups : list string }.
Record BeaconTarget := mkTarget { btEnabled : bool; btCompanion : option BeaconCompanion }.

(** The part of the store's state a compile of some node can read, with the
    records that keep a node group from being deleted. *)
Record GuardState := mkState {
  gsNodes : gmap string FleetNode;
  gsGroups : gmap string FleetGroup;
  gsPolicies : gmap string GroupNetPolicy;
  gsChecks : gmap string CheckDefinition;
  gsSecurityGroups : gmap string StoredSecurityGroup;
  gsZones : gmap string GuardZone;
  gsInputs : gmap string NFTInputs;
  gsBindings : gmap string StoredBinding;
  gsGroupBindings : gmap string NodeGroupGuardBinding;
  gsBeacon : gmap string BeaconTarget }.

Definition set_nodes m (st : GuardState) : GuardState :=
  mkState m (gsGroups st) (gsPolicies st) (gsChecks st) (gsSecurityGroups st) (gsZones st) (gsInputs st)
    (gsBindings st) (gsGroupBindings st) (gsBeacon st).
Definition set_groups m (st : GuardState) : GuardState :=
  mkState (gsNodes st) m (gsPolicies st) (gsChecks st) (gsSecurityGroups st) (gsZones st) (gsInputs st)
    (gsBindings st) (gsGroupBindings st) (gsBeacon st).
Definition set_security_groups m (st : GuardState) : GuardState :=
  mkState (gsNodes st) (gsGroups st) (gsPolicies st) (gsChecks st) m (gsZones st) (gsInputs st)
    (gsBindings st) (gsGroupBindings st) (gsBeacon st).
Definition set_zones m (st : GuardState) : GuardState :=
  mkState (gsNodes st) (gsGroups st) (gsPolicies st) (gsChecks st) (gsSecurityGroups st) m (gsInputs st)
    (gsBindings st) (gsGroupBindings st) (gsBeacon st).
Definition set_inputs m (st : GuardState) : GuardState :=
  mkState (gsNodes st) (gsGroups st) (gsPolicies st) (gsChecks st) (gsSecurityGroups st) (gsZones st) m
    (gsBindings st) (gsGroupBindings st) (gsBeacon st).
Definition set_bindings m (st : GuardState) : GuardState :=
  mkState (gsNodes st) (gsGroups st) (gsPolicies st) (gsChecks st) (gsSecurityGroups st) (gsZones st) (gsInputs st)
    m (gsGroupBindings st) (gsBeacon st).
Definition set_group_bindings m (st : GuardState) : GuardState :=
  mkState (gsNodes st) (gsGroups st) (gsPolicies st) (gsChecks st) (gsSecurityGroups st) (gsZones st) (gsInputs st)
    (gsBindings st) m (gsBeacon st).
Definition set_beacon m (st : GuardState) : GuardState :=
  mkState (gsNodes st) (gsGroups st) (gsPolicies st) (gsChecks st) (gsSecurityGroups st) (gsZones st) (gsInputs st)
    (gsBindings st) (gsGroupBindings st) m.

Inductive guardStoreError :=
| ErrGuardVersionConflict
| ErrGuardReferenceMissing (what id : string)
| ErrSecurityGroupInUse (id : string) (nodeIDs nodeGroupIDs : list string)
| ErrGuardBindingManaged
| ErrGroupInUse (id : string) (children policies checks : list string) (binding : bool)
    (securityGroups overrideNodes : list string)
| ErrGuardPlanConflict (nodeID : string)
| ErrNodeNotFound (nodeID : string).

(** ** What a binding compiles from *)

Section reads.
Context `{GuardSdk}.

(** The node groups that bind security groups and contain the node, in the
    order their bindings are compiled. *)
Definition bound_before (a b : Group * NodeGroupGuardBinding) : bool :=
  let ga := a.1 in let gb := b.1 in
  if negb (GroupName ga =?? GroupName gb) then String.ltb (GroupName ga) (GroupName gb)
  else String.ltb (Groups.GroupID ga) (Groups.GroupID gb).
Definition through (st : GuardState) (node : Groups.Node) : gmap string (Group * NodeGroupGuardBinding) :=
  map_imap (fun groupID b =>
    if (length (SecurityGroupIDs b) =? 0)%nat then None else
    match gsGroups st !! groupID with
    | None => None
    | Some g => if Contains (fgGroup g) node then Some (fgGroup g, b) else None
    end) (gsGroupBindings st).
Fixpoint derive (seen : list string) (l : list (Group * string)) : list DerivedGuardGroup :=
  match l with
  | [] => []
  | (g, id) :: l =>
    if mem id seen then derive seen l
    else mkDerived id (Groups.GroupID g) (GroupName g) :: derive (id :: seen) l
  end.
Definition derivedGuardGroupsLocked (st : GuardState) (node : FleetNode) (own : list string) : list DerivedGuardGroup :=
  let bounds := sortSlice bound_before (map_to_list (through st (fnNode node))).*2 in
  derive own (flat_map (fun b => pair b.1 <$> SecurityGroupIDs b.2) bounds).

Definition rulesOf (st : GuardState) (groupID : string) : list GuardRule :=
  match gsSecurityGroups st !! groupID with Some g => sgRules (ssGroup g) | None => [] end.
Definition bindingRulesLocked (st : GuardState) (nodeID : string) (binding : NodeGuardBinding) : list GuardRule :=
  Overrides binding ++ flat_map (rulesOf st) (GroupIDs binding) ++
  (if Managed binding then
     match gsNodes st !! nodeID with
     | Some node => flat_map (fun d => rulesOf st (dSecurityGroupID d))
                      (derivedGuardGroupsLocked st node (GroupIDs binding))
     | None => []
     end
   else []).

Definition names_zone (zoneID : string) (rule : GuardRule) : bool :=
  (geKind (gRemote rule) =?? NetRefZone) && (geZoneID (gRemote rule) =?? zoneID).
Definition names_node (nodeID : string) (rule : GuardRule) : bool :=
  (geKind (gRemote rule) =?? NetRefNode) && (geNodeID (gRemote rule) =?? nodeID).
Definition names_group (groupID : string) (rule : GuardRule) : bool :=
  (geKind (gRemote rule) =?? NetRefGroup) && (geGroupID (gRemote rule) =?? groupID).
Definition guardRulesReferenceZone (rules : list GuardRule) (zoneID : string) : bool := existsb (names_zone zoneID) rules.
Definition guardRulesReferenceNode (rules : list GuardRule) (nodeID : string) : bool := existsb (names_node nodeID) rules.
Definition guardRulesReferenceGroup (rules : list GuardRule) (groupID : string) : bool :=
  existsb (names_group groupID) rules.

Definition NodeDerivedGuardGroups (st : GuardState) (nodeID : string) : list DerivedGuardGroup :=
  match gsNodes st !! nodeID with
  | None => []
  | Some node => derivedGuardGroupsLocked st node
      (match gsBindings st !! nodeID with Some b => GroupIDs (sbIntent b) | None => [] end)
  end.
Definition netGuardCoverageLocked (st : GuardState) (nodeID : string) : bool * string :=
  let managed := match gsBindings st !! nodeID with Some b => Managed (sbIntent b) | None => false end in
  match gsNodes st !! nodeID with
  | None => (managed, "")
  | Some node =>
    (managed,
     fold_left (fun viaGroup '(groupID, b) =>
       if (length (SecurityGroupIDs b) =? 0)%nat then viaGroup else
       match gsGroups st !! groupID with
       | None => viaGroup
       | Some g =>
         if negb (Contains (fgGroup g) (fnNode node)) then viaGroup
         else if (viaGroup =?? "") || String.ltb (GroupName (fgGroup g)) viaGroup then GroupName (fgGroup g)
         else viaGroup
       end) (map_to_list (gsGroupBindings st)) "")
  end.
Definition fleet (st : GuardState) : list Groups.Node := fnNode <$> (map_to_list (gsNodes st)).*2.

(** The nodes other than [nodeID] whose addresses its rules name. *)
Definition remoteNodesOf (st : GuardState) (rule : GuardRule) : gset string :=
  if geKind (gRemote rule) =?? NetRefNode then {[geNodeID (gRemote rule)]}
  else if geKind (gRemote rule) =?? NetRefGroup then
    match gsGroups st !! geGroupID (gRemote rule) with
    | None => ∅
    | Some g =>
      list_to_set (Members (fgGroup g)) ∪
      (if is_some (Selector (fgGroup g))
       then list_to_set (Groups.NodeID <$> List.filter (Contains (fgGroup g)) (fleet st)) else ∅)
    end
  else ∅.
Definition NetGuardRuleRemoteNodes (st : GuardState) (nodeID : string) : list string :=
  match gsBindings st !! nodeID with
  | None => []
  | Some b =>
    sorted_set (foldr (fun rule set => remoteNodesOf st rule ∪ set) ∅
                  (bindingRulesLocked st nodeID (sbIntent b)) ∖ {[nodeID; ""]})
  end.

(** ** The compile snapshot *)

Record NetGuardCompileSnapshot := mkSnapshot {
  snNode : FleetNode; snBinding : StoredBinding; HasBinding : bool; snGroups : list SecurityGroup;
  snZones : list GuardZone; snInputs : option NFTInputs; snNodes : gmap string FleetNode;
  Derived : list DerivedGuardGroup; RemoteGroups : gmap string (list string) }.
Inductive snapshotError :=
| ErrCompileNodeNotFound (nodeID : string)
| ErrOwnGroupNotFound (groupID : string)
| ErrDerivedGroupNotFound (groupID nodeGroup : string)
| ErrCompile (e : guardError).

Definition remoteGroupStep (st : GuardState) (out : gmap string (list string)) (rule : GuardRule)
  : gmap string (list string) :=
  if negb (geKind (gRemote rule) =?? NetRefGroup) then out else
  match out !! geGroupID (gRemote rule) with
  | Some _ => out
  | None =>
    match gsGroups st !! geGroupID (gRemote rule) with
    | None => out
    | Some g => <[Groups.GroupID (fgGroup g) := ResolveMembers (fgGroup g) (fleet st)]> out
    end
  end.
Definition remoteGroupMembersLocked (st : GuardState) (overrides : list GuardRule) (compiled : list SecurityGroup)
  : gmap string (list string) :=
  fold_left (remoteGroupStep st) (overrides ++ flat_map sgRules compiled) ∅.

Fixpoint collectGroups {A} (st : GuardState) (idOf : A → string) (missing : A → snapshotError) (l : list A)
  : res snapshotError (list SecurityGroup) :=
  match l with
  | [] => Ok []
  | a :: l =>
    match gsSecurityGroups st !! idOf a with
    | None => Err (missing a)
    | Some g => cons (ssGroup g) <$> collectGroups st idOf missing l
    end
  end.

Definition zone_le (a b : GuardZone) : Prop := String.ltb (zID b) (zID a) = false.
#[export] Instance zone_le_dec : RelDecision zone_le.
Proof. intros a b. unfold zone_le. apply _. Defined.

Definition compileSnapshot (st : GuardState) (nodeID : string) : res snapshotError NetGuardCompileSnapshot :=
  match gsNodes st !! nodeID with
  | None => Err (ErrCompileNodeNotFound nodeID)
  | Some node =>
    let hasBinding := is_some (gsBindings st !! nodeID) in
    let binding := default (mkStored (mkBinding nodeID [] [] [] false) 0 "" "") (gsBindings st !! nodeID) in
    let intent := sbIntent binding in
    groups ← collectGroups st id ErrOwnGroupNotFound (GroupIDs intent);
    let derived := derivedGuardGroupsLocked st node (GroupIDs intent) in
    more ← (if hasBinding && Managed intent
            then collectGroups st dSecurityGroupID (fun d => ErrDerivedGroupNotFound (dSecurityGroupID d) (dNodeGroupName d))
                   derived
            else Ok []);
    let groups := groups ++ more in
    Ok (mkSnapshot node binding hasBinding groups
          (merge_sort zone_le (map_to_list (gsZones st)).*2) (gsInputs st !! nodeID) (gsNodes st)
          derived (remoteGroupMembersLocked st (Overrides intent) groups))
  end.

Definition beaconCompanionFor (st : GuardState) (nodeID : string) : option BeaconCompanion :=
  match gsBeacon st !! nodeID with
  | None => None
  | Some t => if negb (btEnabled t) then None else btCompanion t
  end.
Definition compileInputSnapshotForSystem (st : GuardState) (nodeID : string)
  : res snapshotError (CompileInput * NetGuardCompileSnapshot) :=
  snapshot ← compileSnapshot st nodeID;
  let inputs := default (mkInputs "" "" "" [] [] [] []) (snInputs snapshot) in
  Ok (mkCompile (sbIntent (snBinding snapshot)) (snGroups snapshot)
        (resolveNodeZonesFrom (snZones snapshot) inputs (is_some (snInputs snapshot)))
        (Some (fun id => fnAddr <$> snNodes snapshot !! id))
        (Some (fun groupID => RemoteGroups snapshot !! groupID))
        (beaconCompanionFor st nodeID), snapshot).

(** The ruleset the node's records compile to now. *)
Definition currentRuleset `{Quote} (st : GuardState) (nodeID : string) : res snapshotError string :=
  input ← compileInputSnapshotForSystem st nodeID;
  wrap_err ErrCompile (CompileRuleset input.1).
Definition currentNetGuardPlan `{Quote} (st : GuardState) (nodeID : string)
  : res snapshotError (string * list (string * string)) :=
  ruleset ← currentRuleset st nodeID;
  input ← compileInputSnapshotForSystem st nodeID;
  Ok (sha256_hex ruleset, (fun d => (dSecurityGroupID d, dNodeGroupID d)) <$> Derived input.2).

Record Approval := mkApproval { apNodeID : string; apPlugin : string; apAction : string; apPlan : string }.
Definition netGuardApprovalAction : string := "apply-ruleset:netguard-v1".
Definition isNetGuardApproval (approval : Approval) : bool :=
  (apPlugin approval =?? "nft") && (apAction approval =?? netGuardApprovalAction).
Inductive approvalRefusal :=
| BindingNotFound | BindingChanged | CannotCompile (e : snapshotError) | DependenciesChanged | ListenerClosed.
(** The freshness test of an approval.  [closes] says whether the compile
    closes a port of a running resolver, which the DNS records decide. *)
Definition requireCurrentNetGuardApproval `{Quote} (st : GuardState) (approval : Approval) (closes : bool)
  : res approvalRefusal unit :=
  if negb (isNetGuardApproval approval) then Ok tt else
  match gsBindings st !! apNodeID approval with
  | None => Err BindingNotFound
  | Some b =>
    let planSHA := sha256_hex (apPlan approval) in
    fail_if (LastPlanSHA b =?? "") || negb (equal_fold (LastPlanSHA b) planSHA) with BindingChanged;
    match currentNetGuardPlan st (apNodeID approval) with
    | Err e => Err (CannotCompile e)
    | Ok (currentSHA, _) =>
      fail_if negb (equal_fold currentSHA planSHA) with DependenciesChanged;
      fail_if closes with ListenerClosed;
      Ok tt
    end
  end.
End reads.

(** ** Clearing anchors *)

Definition guardPlanInvalidatedReason : string :=
  "netguard dependency changed since the last plan; create a new plan before applying".
Definition invalidated (b : StoredBinding) : StoredBinding :=
  mkStored (sbIntent b) (sbVersion b + 1) "" guardPlanInvalidatedReason.
Definition invalidateGuardBindingLocked (nodeID : string) (st : GuardState) : GuardState :=
  match gsBindings st !! nodeID with
  | None => st
  | Some b => if LastPlanSHA b =?? "" then st else set_bindings (<[nodeID := invalidated b]> (gsBindings st)) st
  end.
(** A loop over the bindings that invalidates those a test selects.  The
    tests read the other records of the state, which the loop leaves alone. *)
Definition invalidateWhere (test : GuardState → string → StoredBinding → bool) (st : GuardState) : GuardState :=
  fold_left (fun st '(nodeID, b) => if test st nodeID b then invalidateGuardBindingLocked nodeID st else st)
    (map_to_list (gsBindings st)) st.

Section operations.
Context `{GuardSdk}.

Definition uses_group (groupID : string) (st : GuardState) (nodeID : string) (b : StoredBinding) : bool :=
  mem groupID (GroupIDs (sbIntent b)) ||
  match gsNodes st !! nodeID with
  | Some node => Managed (sbIntent b) &&
      existsb (fun d => dSecurityGroupID d =?? groupID) (derivedGuardGroupsLocked st node (GroupIDs (sbIntent b)))
  | None => false
  end.
Definition invalidateGuardBindingsForGroupLocked (groupID : string) : GuardState → GuardState :=
  invalidateWhere (uses_group groupID).

Definition uses_zone (zoneID : string) (st : GuardState) (nodeID : string) (b : StoredBinding) : bool :=
  negb (LastPlanSHA b =?? "") &&
  (mem zoneID (ZoneIDs (sbIntent b)) || guardRulesReferenceZone (bindingRulesLocked st nodeID (sbIntent b)) zoneID).
Definition invalidateGuardBindingsForZoneLocked (zoneID : string) : GuardState → GuardState :=
  invalidateWhere (uses_zone zoneID).

Definition names_member_group (st : GuardState) (referenced : FleetNode) (rule : GuardRule) : bool :=
  (geKind (gRemote rule) =?? NetRefGroup) &&
  match gsGroups st !! geGroupID (gRemote rule) with
  | Some g => Contains (fgGroup g) (fnNode referenced)
  | None => false
  end.
Definition uses_node (referencedNodeID : string) (st : GuardState) (nodeID : string) (b : StoredBinding) : bool :=
  negb (LastPlanSHA b =?? "") &&
  (guardRulesReferenceNode (bindingRulesLocked st nodeID (sbIntent b)) referencedNodeID ||
   match gsNodes st !! referencedNodeID with
   | None => false
   | Some referenced => existsb (names_member_group st referenced) (bindingRulesLocked st nodeID (sbIntent b))
   end).
Definition invalidateGuardBindingsForNodeLocked (referencedNodeID : string) : GuardState → GuardState :=
  invalidateWhere (uses_node referencedNodeID).

Definition uses_node_group (groupID : string) (members : bool) (st : GuardState) (nodeID : string) (b : StoredBinding)
  : bool :=
  negb (LastPlanSHA b =?? "") &&
  (match gsGroups st !! groupID, gsNodes st !! nodeID with
   | Some g, Some node => members && Managed (sbIntent b) && Contains (fgGroup g) (fnNode node)
   | _, _ => false
   end || guardRulesReferenceGroup (bindingRulesLocked st nodeID (sbIntent b)) groupID).
Definition invalidateGuardBindingsForNodeGroupLocked (groupID : string) (members : bool) : GuardState → GuardState :=
  invalidateWhere (uses_node_group groupID members).

Definition binds_some (st : GuardState) (groupID : string) : bool :=
  match gsGroupBindings st !! groupID with
  | Some b => negb (length (SecurityGroupIDs b) =? 0)%nat
  | None => false
  end.
Definition moveMembership (previous next : FleetNode) (st : GuardState) (g : string * FleetGroup) : GuardState :=
  if negb (is_some (Selector (fgGroup g.2))) ||
     Bool.eqb (Contains (fgGroup g.2) (fnNode previous)) (Contains (fgGroup g.2) (fnNode next)) then st
  else
    let st := if binds_some st g.1 then invalidateGuardBindingLocked (Groups.NodeID (fnNode next)) st else st in
    invalidateGuardBindingsForNodeGroupLocked g.1 false st.
Definition invalidateGuardBindingsForMembershipLocked (previous next : FleetNode) (st : GuardState) : GuardState :=
  if (size (gsBindings st) =? 0)%nat then st
  else fold_left (moveMembership previous next) (map_to_list (gsGroups st)) st.

Definition invalidateGuardBindingsForGroupEditLocked (groupID : string) (st : GuardState) : GuardState :=
  invalidateGuardBindingsForNodeGroupLocked groupID (binds_some st groupID) st.

(** ** Security groups and zones *)

Definition UpsertSecurityGroup (group : StoredSecurityGroup) (st : GuardState)
  : GuardState * res guardStoreError StoredSecurityGroup :=
  let id := sgID (ssGroup group) in
  let current := match gsSecurityGroups st !! id with Some existing => ssVersion existing | None => 0 end in
  if negb (ssVersion group =? current) then (st, Err ErrGuardVersionConflict) else
  let group := mkStoredGroup (ssGroup group) (ssVersion group + 1) in
  let st := set_security_groups (<[id := group]> (gsSecurityGroups st)) st in
  (invalidateGuardBindingsForGroupLocked id st, Ok group).

Definition DeleteSecurityGroup (id : string) (st : GuardState) : GuardState * res guardStoreError unit :=
  match gsSecurityGroups st !! id with
  | None => (st, Ok tt)
  | Some _ =>
    let nodeIDs := omap (fun '(nodeID, b) => if mem id (GroupIDs (sbIntent b)) then Some nodeID else None)
      (map_to_list (gsBindings st)) in
    let nodeGroupIDs := omap (fun '(groupID, b) => if mem id (SecurityGroupIDs b) then Some groupID else None)
      (map_to_list (gsGroupBindings st)) in
    if negb (length nodeIDs =? 0)%nat || negb (length nodeGroupIDs =? 0)%nat
    then (st, Err (ErrSecurityGroupInUse id (sort_strings nodeIDs) (sort_strings nodeGroupIDs)))
    else (invalidateGuardBindingsForGroupLocked id (set_security_groups (delete id (gsSecurityGroups st)) st), Ok tt)
  end.

Definition UpsertGuardZone (zone : GuardZone) (st : GuardState) : GuardState :=
  invalidateGuardBindingsForZoneLocked (zID zone) (set_zones (<[zID zone := zone]> (gsZones st)) st).
Definition DeleteGuardZone (id : string) (st : GuardState) : GuardState :=
  match gsZones st !! id with
  | None => st
  | Some _ => invalidateGuardBindingsForZoneLocked id (set_zones (delete id (gsZones st)) st)
  end.

(** ** Bindings *)

Definition UpsertNodeGuardBinding (binding : StoredBinding) (st : GuardState)
  : GuardState * res guardStoreError StoredBinding :=
  let nodeID := bNodeID (sbIntent binding) in
  let current := match gsBindings st !! nodeID with Some existing => sbVersion existing | None => 0 end in
  if negb (sbVersion binding =? current) then (st, Err ErrGuardVersionConflict) else
  let binding := mkStored (sbIntent binding) (sbVersion binding + 1) (LastPlanSHA binding) (LastError binding) in
  (set_bindings (<[nodeID := binding]> (gsBindings st)) st, Ok binding).

Definition DeleteNodeGuardBinding (nodeID : string) (st : GuardState)
  : GuardState * res guardStoreError (option StoredBinding) :=
  match gsBindings st !! nodeID with
  | None => (st, Ok None)
  | Some b =>
    if Managed (sbIntent b) then (st, Err ErrGuardBindingManaged)
    else (set_bindings (delete nodeID (gsBindings st)) st, Ok (Some b))
  end.

(** The batch of a group plan: all of its anchors or none. *)
Fixpoint stagePlans (plans : list StoredBinding) (m : gmap string StoredBinding)
  : res guardStoreError (gmap string StoredBinding) :=
  match plans with
  | [] => Ok m
  | b :: plans =>
    let nodeID := bNodeID (sbIntent b) in
    match m !! nodeID with
    | None => Err (ErrGuardPlanConflict nodeID)
    | Some existing =>
      fail_if negb (sbVersion existing =? sbVersion b) with ErrGuardPlanConflict nodeID;
      stagePlans plans (<[nodeID := mkStored (sbIntent b) (sbVersion b + 1) (LastPlanSHA b) (LastError b)]> m)
    end
  end.
Definition CommitGuardPlans (plans : list StoredBinding) (persisted : bool) (st : GuardState)
  : GuardState * res guardStoreError bool :=
  match stagePlans plans (gsBindings st) with
  | Err e => (st, Err e)
  | Ok m => if persisted then (set_bindings m st, Ok true) else (st, Ok false)
  end.

Definition UpsertNodeGroupGuardBinding (b : NodeGroupGuardBinding) (st : GuardState)
  : GuardState * res guardStoreError NodeGroupGuardBinding :=
  match gsGroups st !! ngGroupID b with
  | None => (st, Err (ErrGuardReferenceMissing "node group" (ngGroupID b)))
  | Some _ =>
    match List.find (fun id => negb (is_some (gsSecurityGroups st !! id))) (SecurityGroupIDs b) with
    | Some id => (st, Err (ErrGuardReferenceMissing "security group" id))
    | None =>
      let current := match gsGroupBindings st !! ngGroupID b with Some existing => ngVersion existing | None => 0 end in
      if negb (ngVersion b =? current) then (st, Err ErrGuardVersionConflict) else
      let b := mkGroupBinding (ngGroupID b) (SecurityGroupIDs b) (ngVersion b + 1) in
      let st := set_group_bindings (<[ngGroupID b := b]> (gsGroupBindings st)) st in
      (invalidateGuardBindingsForNodeGroupLocked (ngGroupID b) true st, Ok b)
    end
  end.
Definition DeleteNodeGroupGuardBinding (groupID : string) (st : GuardState) : GuardState * bool :=
  match gsGroupBindings st !! groupID with
  | None => (st, false)
  | Some _ =>
    let st := invalidateGuardBindingsForNodeGroupLocked groupID true st in
    (set_group_bindings (delete groupID (gsGroupBindings st)) st, true)
  end.

(** ** Node groups *)

Definition GroupPolicyNamesGroup (gp : GroupNetPolicy) (groupID : string) : bool :=
  mem groupID (TGroups (gpTargetScope gp)) ||
  existsb (fun rule => (Kind (grlRemote rule) =?? NetRefGroup) && (GroupID (grlRemote rule) =?? groupID)) (gpRules gp).
Definition CheckDefinitionNamesGroup (def : CheckDefinition) (groupID : string) : bool * bool :=
  (mem groupID (cdSourceGroups def), mem groupID (cdTargetGroups def)).
Record groupGuardUses := mkUses { guBinding : bool; guSecurityGroupIDs : list string; guOverrideNodeIDs : list string }.
Definition guardUsesOfGroupLocked (st : GuardState) (groupID : string) : groupGuardUses :=
  mkUses (binds_some st groupID)
    (omap (fun '(id, sg) => if guardRulesReferenceGroup (sgRules (ssGroup sg)) groupID then Some id else None)
       (map_to_list (gsSecurityGroups st)))
    (omap (fun '(nodeID, b) => if guardRulesReferenceGroup (Overrides (sbIntent b)) groupID then Some nodeID else None)
       (map_to_list (gsBindings st))).
Definition groupInUse (id : string) (groups : list FleetGroup) (policies : list GroupNetPolicy)
    (defs : list CheckDefinition) (guard : groupGuardUses) : option guardStoreError :=
  let children := Groups.GroupID <$> (fgGroup <$> List.filter (fun child => ParentID child =?? id) groups) in
  let policyIDs := gpID <$> List.filter (fun gp => GroupPolicyNamesGroup gp id) policies in
  let checkIDs := cdID <$> List.filter (fun def => let '(source, target) := CheckDefinitionNamesGroup def id in
                                          source || target) defs in
  if ((length children =? 0) && (length policyIDs =? 0) && (length checkIDs =? 0) && negb (guBinding guard) &&
      (length (guSecurityGroupIDs guard) =? 0) && (length (guOverrideNodeIDs guard) =? 0))%nat then None
  else Some (ErrGroupInUse id (sort_strings children) (sort_strings policyIDs) (sort_strings checkIDs)
               (guBinding guard) (sort_strings (guSecurityGroupIDs guard)) (sort_strings (guOverrideNodeIDs guard))).

Definition UpsertGroup (g : FleetGroup) (st : GuardState) : GuardState :=
  let id := Groups.GroupID (fgGroup g) in
  let st := invalidateGuardBindingsForGroupEditLocked id st in
  let st := set_groups (<[id := g]> (gsGroups st)) st in
  invalidateGuardBindingsForGroupEditLocked id st.
Definition DeleteGroup (id : string) (st : GuardState) : GuardState * res guardStoreError unit :=
  match gsGroups st !! id with
  | None => (st, Ok tt)
  | Some _ =>
    match groupInUse id (map_to_list (gsGroups st)).*2 (map_to_list (gsPolicies st)).*2 (map_to_list (gsChecks st)).*2
            (guardUsesOfGroupLocked st id) with
    | Some e => (st, Err e)
    | None =>
      let st := invalidateGuardBindingsForGroupEditLocked id st in
      let st := set_groups (delete id (gsGroups st)) st in
      (set_group_bindings (delete id (gsGroupBindings st)) st, Ok tt)
    end
  end.

(** ** Nodes and their inputs *)

Definition UpsertNFTInputs (inputs : NFTInputs) (st : GuardState) : GuardState :=
  invalidateGuardBindingLocked (niNodeID inputs) (set_inputs (<[niNodeID inputs := inputs]> (gsInputs st)) st).
Definition DeleteNFTInputs (nodeID : string) (st : GuardState) : GuardState :=
  match gsInputs st !! nodeID with
  | None => st
  | Some _ => invalidateGuardBindingLocked nodeID (set_inputs (delete nodeID (gsInputs st)) st)
  end.

Definition addr_differs (a b : FleetNode) : bool :=
  negb (PublicIP (fnAddr a) =?? PublicIP (fnAddr b)) || negb (WireGuardIP (fnAddr a) =?? WireGuardIP (fnAddr b)).
Definition UpsertNode (n : FleetNode) (st : GuardState) : GuardState :=
  let id := Groups.NodeID (fnNode n) in
  let previous := gsNodes st !! id in
  let st := set_nodes (<[id := n]> (gsNodes st)) st in
  match previous with
  | None => st
  | Some previous =>
    let st := if addr_differs previous n then invalidateGuardBindingsForNodeLocked id st else st in
    invalidateGuardBindingsForMembershipLocked previous n st
  end.
Definition UpdateNodeGeo (nodeID : string) (geo : option GeoPoint) (st : GuardState) : GuardState :=
  match gsNodes st !! nodeID with
  | None => st
  | Some previous =>
    let n := fnNode previous in
    let next := mkFleet (mkNode (Groups.NodeID n) (Tags n) (Role n) geo) (fnAddr previous) in
    invalidateGuardBindingsForMembershipLocked previous next (set_nodes (<[nodeID := next]> (gsNodes st)) st)
  end.
Definition cleanTags (tags : list string) : list string :=
  sort_strings (dedup (List.filter (fun t => negb (t =?? "")) (trim_space <$> tags))).
Definition UpdateNodeMeta (nodeID role : string) (tags : list string) (st : GuardState) : GuardState :=
  match gsNodes st !! nodeID with
  | None => st
  | Some previous =>
    let n := fnNode previous in
    let next := mkFleet (mkNode (Groups.NodeID n) (cleanTags tags) role (Geo n)) (fnAddr previous) in
    invalidateGuardBindingsForMembershipLocked previous next (set_nodes (<[nodeID := next]> (gsNodes st)) st)
  end.
(** The address part of a heartbeat. *)
Definition UpdateMetrics (nodeID publicIP wgIP : string) (st : GuardState) : GuardState * res guardStoreError unit :=
  match gsNodes st !! nodeID with
  | None => (st, Err (ErrNodeNotFound nodeID))
  | Some previous =>
    let addr := mkGuardNode (if wgIP =?? "" then WireGuardIP (fnAddr previous) else wgIP)
      (if publicIP =?? "" then PublicIP (fnAddr previous) else publicIP) in
    let next := mkFleet (fnNode previous) addr in
    let st := set_nodes (<[nodeID := next]> (gsNodes st)) st in
    (if addr_differs previous next then invalidateGuardBindingsForNodeLocked nodeID st else st, Ok tt)
  end.

Definition withoutString (values : list string) (value : string) : list string :=
  List.filter (fun v => negb (v =?? value)) values.
(** The steps of the delete cascade that touch these records: the node's
    inputs (step 5), its beacon (9b), its place in groups (14), its binding
    (17b), and the node itself (18). *)
Definition stripMember (nodeID : string) (g : FleetGroup) : FleetGroup :=
  let grp := fgGroup g in
  if negb (mem nodeID (Members grp)) && negb (LeaderID g =?? nodeID) then g
  else mkFleetGroup (mkGroup (Groups.GroupID grp) (GroupName grp) (withoutString (Members grp) nodeID) (Selector grp))
         (ParentID g) (if LeaderID g =?? nodeID then "" else LeaderID g).
Definition deleteNodeGuardRecords (nodeID : string) (st : GuardState) : GuardState :=
  match gsNodes st !! nodeID with
  | None => st
  | Some _ =>
    let st := set_inputs (delete nodeID (gsInputs st)) st in
    let st := set_beacon (delete nodeID (gsBeacon st)) st in
    let st := set_groups (stripMember nodeID <$> gsGroups st) st in
    let st := set_bindings (delete nodeID (gsBindings st)) st in
    let st := invalidateGuardBindingsForNodeLocked nodeID st in
    set_nodes (delete nodeID (gsNodes st)) st
  end.

(** ** Steps *)

Inductive guardOp :=
| OpUpsertSecurityGroup (group : StoredSecurityGroup) | OpDeleteSecurityGroup (id : string)
| OpUpsertGuardZone (zone : GuardZone) | OpDeleteGuardZone (id : string)
| OpUpsertNodeGuardBinding (b : StoredBinding) | OpDeleteNodeGuardBinding (nodeID : string)
| OpCommitGuardPlans (plans : list StoredBinding) (persisted : bool)
| OpUpsertNodeGroupGuardBinding (b : NodeGroupGuardBinding) | OpDeleteNodeGroupGuardBinding (groupID : string)
| OpUpsertGroup (g : FleetGroup) | OpDeleteGroup (id : string)
| OpUpsertNFTInputs (inputs : NFTInputs) | OpDeleteNFTInputs (nodeID : string)
| OpUpsertNode (n : FleetNode) | OpUpdateNodeGeo (nodeID : string) (geo : option GeoPoint)
| OpUpdateNodeMeta (nodeID role : string) (tags : list string)
| OpUpdateMetrics (nodeID publicIP wgIP : string) | OpDeleteNode (nodeID : string).

Definition step (op : guardOp) (st : GuardState) : GuardState :=
  match op with
  | OpUpsertSecurityGroup group => (UpsertSecurityGroup group st).1
  | OpDeleteSecurityGroup id => (DeleteSecurityGroup id st).1
  | OpUpsertGuardZone zone => UpsertGuardZone zone st
  | OpDeleteGuardZone id => DeleteGuardZone id st
  | OpUpsertNodeGuardBinding b => (UpsertNodeGuardBinding b st).1
  | OpDeleteNodeGuardBinding nodeID => (DeleteNodeGuardBinding nodeID st).1
  | OpCommitGuardPlans plans persisted => (CommitGuardPlans plans persisted st).1
  | OpUpsertNodeGroupGuardBinding b => (UpsertNodeGroupGuardBinding b st).1
  | OpDeleteNodeGroupGuardBinding groupID => (DeleteNodeGroupGuardBinding groupID st).1
  | OpUpsertGroup g => UpsertGroup g st
  | OpDeleteGroup id => (DeleteGroup id st).1
  | OpUpsertNFTInputs inputs => UpsertNFTInputs inputs st
  | OpDeleteNFTInputs nodeID => DeleteNFTInputs nodeID st
  | OpUpsertNode n => UpsertNode n st
  | OpUpdateNodeGeo nodeID geo => UpdateNodeGeo nodeID geo st
  | OpUpdateNodeMeta nodeID role tags => UpdateNodeMeta nodeID role tags st
  | OpUpdateMetrics nodeID publicIP wgIP => (UpdateMetrics nodeID publicIP wgIP st).1
  | OpDeleteNode nodeID => deleteNodeGuardRecords nodeID st
  end.
Fixpoint run (ops : list guardOp) (st : GuardState) : GuardState :=
  match ops with [] => st | op :: ops => run ops (step op st) end.
End operations.

(** ** Lemmas on clearing *)

Definition clear (b : StoredBinding) : StoredBinding := if LastPlanSHA b =?? "" then b else invalidated b.
Lemma clear_sha b : LastPlanSHA (clear b) = "".
Proof. unfold clear. by case_bool_decide. Qed.
Lemma clear_intent b : sbIntent (clear b) = sbIntent b.
Proof. unfold clear. by case_bool_decide. Qed.
Lemma clear_version b : clear b = b ∨ sbVersion b < sbVersion (clear b).
Proof. unfold clear. case_bool_decide; [by left|right; cbn; lia]. Qed.

Lemma set_bindings_id st : set_bindings (gsBindings st) st = st.
Proof. by destruct st. Qed.
Lemma invalidate_eq nodeID st :
  invalidateGuardBindingLocked nodeID st = set_bindings (alter clear nodeID (gsBindings st)) st.
Proof.
  unfold invalidateGuardBindingLocked. destruct (gsBindings st !! nodeID) as [b|] eqn:E.
  - assert (alter clear nodeID (gsBindings st) = <[nodeID := clear b]> (gsBindings st)) as ->.
    { apply map_eq. intros i. destruct (decide (nodeID = i)) as [<-|Hne].
      - by rewrite lookup_alter_eq, lookup_insert_eq, E.
      - by rewrite lookup_alter_ne, lookup_insert_ne. }
    unfold clear. case_bool_decide; [|done]. by rewrite insert_id, set_bindings_id.
  - assert (alter clear nodeID (gsBindings st) = gsBindings st) as ->.
    { apply map_eq. intros i. destruct (decide (nodeID = i)) as [<-|Hne].
      - by rewrite lookup_alter_eq, E.
      - by rewrite lookup_alter_ne. }
    by rewrite set_bindings_id.
Qed.

(** A test that does not look at the bindings of the state. *)
Definition blind (test : GuardState → string → StoredBinding → bool) : Prop :=
  ∀ m st, test (set_bindings m st) = test st.

Definition clear_where (test : string → StoredBinding → bool) (m : gmap string StoredBinding)
  : gmap string StoredBinding := map_imap (fun n b => Some (if test n b then clear b else b)) m.
Lemma clear_where_lookup test m n :
  clear_where test m !! n = (fun b => if test n b then clear b else b) <$> m !! n.
Proof. unfold clear_where. rewrite map_lookup_imap. by destruct (m !! n). Qed.

Lemma invalidateWhere_eq test st : blind test →
  invalidateWhere test st = set_bindings (clear_where (test st) (gsBindings st)) st.
Proof.
  intros Hb. unfold invalidateWhere.
  assert (∀ l st', NoDup l.*1 → (∀ m, test (set_bindings m st') = test st) →
    (∀ n b, (n, b) ∈ l → gsBindings st' !! n = Some b) →
    ∃ m, fold_left (fun st '(nodeID, b) => if test st nodeID b then invalidateGuardBindingLocked nodeID st else st) l st'
         = set_bindings m st' ∧
      ∀ n, m !! n = match (list_to_map l : gmap string StoredBinding) !! n with
                    | Some b => Some (if test st n b then clear b else b)
                    | None => gsBindings st' !! n end) as Hl.
  { induction l as [|[n b] l IH]; intros st' Hnd Ht Hin; cbn [fold_left].
    - exists (gsBindings st'). by rewrite set_bindings_id.
    - apply NoDup_cons in Hnd as [Hn Hnd].
      assert (gsBindings st' !! n = Some b) as Hnb by (apply Hin; left).
      assert (test st' = test st) as Ht' by (rewrite <- (set_bindings_id st'); apply Ht).
      destruct (IH (if test st' n b then invalidateGuardBindingLocked n st' else st')) as (m & Hf & Hm).
      { done. }
      { intros m. destruct (test st' n b); [|apply Ht]. rewrite invalidate_eq. exact (Ht m). }
      { intros n' b' Hin'. assert (n' ≠ n) by (intros ->; apply Hn, list_elem_of_fmap; by exists (n, b')).
        destruct (test st' n b); [|by apply Hin; right].
        rewrite invalidate_eq. cbn. rewrite lookup_alter_ne by done. apply Hin. by right. }
      rewrite Hf. exists m. split; [by destruct (test st' n b); [rewrite invalidate_eq|]|].
      intros i. rewrite Hm. cbn [list_to_map foldr fst snd]. rewrite Ht' in *.
      destruct (decide (n = i)) as [<-|Hne].
      + rewrite lookup_insert_eq. rewrite not_elem_of_list_to_map_1 by done.
        destruct (test st n b); [|exact Hnb]. rewrite invalidate_eq. cbn. by rewrite lookup_alter_eq, Hnb.
      + rewrite lookup_insert_ne by done. destruct (list_to_map l !! i); [done|].
        destruct (test st n b); [|done]. rewrite invalidate_eq. cbn. by rewrite lookup_alter_ne. }
  destruct (Hl (map_to_list (gsBindings st)) st) as (m & -> & Hm).
  - apply NoDup_fst_map_to_list.
  - intros m. apply Hb.
  - intros n b. apply elem_of_map_to_list.
  - f_equal. apply map_eq. intros n. rewrite Hm, list_to_map_to_list, clear_where_lookup.
    by destruct (gsBindings st !! n).
Qed.

(** A binding whose plan is anchored. *)
Definition anchored (st : GuardState) (n : string) (b : StoredBinding) : Prop :=
  gsBindings st !! n = Some b ∧ LastPlanSHA b ≠ "".

Lemma where_anchored test st n b : blind test →
  anchored (invalidateWhere test st) n b → anchored st n b ∧ test st n b = false.
Proof.
  intros Hb [Hl Hs]. rewrite invalidateWhere_eq in Hl by done. cbn in Hl. rewrite clear_where_lookup in Hl.
  destruct (gsBindings st !! n) as [b'|] eqn:E; [|done]. cbn in Hl.
  destruct (test st n b') eqn:Et; simplify_eq.
  - by rewrite clear_sha in Hs.
  - done.
Qed.
Lemma invalidate_anchored i st n b :
  anchored (invalidateGuardBindingLocked i st) n b → anchored st n b ∧ n ≠ i.
Proof.
  intros [Hl Hs]. rewrite invalidate_eq in Hl. cbn in Hl. destruct (decide (i = n)) as [<-|Hne].
  - rewrite lookup_alter_eq in Hl. destruct (gsBindings st !! i); [|done]. cbn in Hl. simplify_eq.
    by rewrite clear_sha in Hs.
  - by rewrite lookup_alter_ne in Hl.
Qed.

(** The states that only clearing can reach. *)
Definition only_clears (st st' : GuardState) : Prop :=
  ∃ m, st' = set_bindings m st ∧ ∀ n, m !! n = gsBindings st !! n ∨ m !! n = clear <$> gsBindings st !! n.
Lemma clear_clear b : clear (clear b) = clear b.
Proof. unfold clear at 1. rewrite clear_sha. done. Qed.
Lemma only_clears_refl st : only_clears st st.
Proof. exists (gsBindings st). rewrite set_bindings_id. auto. Qed.
Lemma only_clears_trans st1 st2 st3 : only_clears st1 st2 → only_clears st2 st3 → only_clears st1 st3.
Proof.
  intros (m & -> & Hm) (m' & -> & Hm'). exists m'. split; [done|]. intros n.
  specialize (Hm n). destruct (Hm' n) as [->| ->]; cbn; [done|]. destruct Hm as [->| ->]; [auto|].
  right. rewrite <- option_fmap_compose. destruct (gsBindings st1 !! n); [|done]. cbn. by rewrite clear_clear.
Qed.
Lemma only_clears_where test st : blind test → only_clears st (invalidateWhere test st).
Proof.
  intros Hb. rewrite invalidateWhere_eq by done. eexists. split; [done|]. intros n. rewrite clear_where_lookup.
  destruct (gsBindings st !! n) as [b|]; cbn; [|auto]. destruct (test st n b); auto.
Qed.
Lemma only_clears_invalidate i st : only_clears st (invalidateGuardBindingLocked i st).
Proof.
  rewrite invalidate_eq. eexists. split; [done|]. intros n.
  destruct (decide (i = n)) as [<-|]; [rewrite lookup_alter_eq|rewrite lookup_alter_ne by done]; auto.
Qed.
Lemma only_clears_version st st' n b : only_clears st st' → gsBindings st !! n = Some b →
  ∃ b', gsBindings st' !! n = Some b' ∧ (b' = b ∨ sbVersion b < sbVersion b').
Proof.
  intros (m & -> & Hm) Hb. cbn. destruct (Hm n) as [->| ->]; rewrite Hb; cbn; eauto.
  eexists. split; [done|]. apply clear_version.
Qed.
Lemma only_clears_back st st' n b : only_clears st st' → anchored st' n b → anchored st n b.
Proof.
  intros (m & -> & Hm) [Hb Hs]. cbn in Hb. split; [|done]. destruct (Hm n) as [E|E]; rewrite E in Hb; [done|].
  destruct (gsBindings st !! n); [|done]. cbn in Hb. simplify_eq. by rewrite clear_sha in Hs.
Qed.
#[export] Hint Resolve only_clears_refl only_clears_where only_clears_invalidate : lattice.

(** ** What the compiler reads *)

Section compiler.
Context `{GuardSdk} `{Quote}.

Definition members_of (inp : CompileInput) (groupID : string) : option (list string) :=
  GroupMembers inp ≫= (fun f => f groupID).
(** Two inputs give a rule the same remote. *)
Record same_remote (inp inp' : CompileInput) (resolve resolve' : string → option GuardNode) (rule : GuardRule) : Prop := {
  sr_node : geKind (gRemote rule) = NetRefNode → resolve (geNodeID (gRemote rule)) = resolve' (geNodeID (gRemote rule));
  sr_zone : geKind (gRemote rule) = NetRefZone → Zones inp !! geZoneID (gRemote rule) = Zones inp' !! geZoneID (gRemote rule);
  sr_group : geKind (gRemote rule) = NetRefGroup →
    members_of inp (geGroupID (gRemote rule)) = members_of inp' (geGroupID (gRemote rule)) ∧
    ∀ members m, members_of inp (geGroupID (gRemote rule)) = Some members → m ∈ members → resolve m = resolve' m;
}.

Lemma groupSources_ext resolve resolve' members :
  (∀ m, m ∈ members → resolve m = resolve' m) → groupSources resolve members = groupSources resolve' members.
Proof.
  intros Hr. unfold groupSources. f_equal. f_equal.
  induction members as [|m l IH]; [done|]. cbn. rewrite Hr by left. f_equal. apply IH. intros; apply Hr. by right.
Qed.

Section two.
Context (inp inp' : CompileInput) (resolve resolve' : string → option GuardNode).
Context (Hgm : is_Some (GroupMembers inp)) (Hgm' : is_Some (GroupMembers inp')).

Lemma ruleSource_ext rule : same_remote inp inp' resolve resolve' rule →
  ruleSource rule resolve inp = ruleSource rule resolve' inp'.
Proof.
  intros [Hn Hz Hg]. unfold ruleSource. destruct Hgm as [f Hf], Hgm' as [f' Hf'].
  unfold members_of in Hg. rewrite Hf, Hf' in Hg |- *. cbn in Hg.
  destruct (_ || _); [done|]. destruct (_ =?? NetRefCIDR); [done|].
  case_bool_decide as Ek; [by rewrite Hn|]. case_bool_decide as Ez; [by rewrite Hz|].
  destruct (_ =?? NetRefDomain); [done|]. case_bool_decide as Eg; [|done]. destruct (Hg Eg) as [E Hm]. rewrite <- E.
  destruct (f _) as [members|] eqn:Em; [|done]. by rewrite (groupSources_ext resolve resolve') by eauto.
Qed.
Lemma lowerRule_ext plan rule fast : same_remote inp inp' resolve resolve' rule →
  lowerRule plan rule resolve inp fast = lowerRule plan rule resolve' inp' fast.
Proof. intros Hs. unfold lowerRule. by rewrite (ruleSource_ext rule Hs). Qed.
Lemma lowerRules_ext plan rules fast : (∀ r, r ∈ rules → same_remote inp inp' resolve resolve' r) →
  lowerRules plan rules resolve inp fast = lowerRules plan rules resolve' inp' fast.
Proof.
  revert plan. induction rules as [|r rules IH]; intros plan Hr; [done|]. cbn [lowerRules].
  rewrite lowerRule_ext by (apply Hr; left).
  assert (∀ plan, lowerRules plan rules resolve inp fast = lowerRules plan rules resolve' inp' fast) as IH'
    by (intros ?; apply IH; intros; apply Hr; by right).
  destruct (gDisabled r); [apply IH'|]. by case_match.
Qed.
Lemma trustedZones_ext ids : (∀ id, id ∈ ids → Zones inp !! id = Zones inp' !! id) →
  trustedZones (Zones inp) ids = trustedZones (Zones inp') ids.
Proof.
  induction ids as [|id ids IH]; intros Hz; [done|]. cbn [trustedZones]. rewrite Hz by left.
  rewrite IH by (intros; apply Hz; by right). done.
Qed.
End two.

(** A compile depends on its input through the remotes of its rules, the
    trusted zones and the two builtin zones every plan starts from. *)
Lemma CompileRuleset_ext inp inp' resolve resolve' :
  Binding inp = Binding inp' → ciGroups inp = ciGroups inp' → Beacon inp = Beacon inp' →
  Resolve inp = Some resolve → Resolve inp' = Some resolve' →
  is_Some (GroupMembers inp) → is_Some (GroupMembers inp') →
  (∀ id, id ∈ GuardZonePublic :: GuardZoneWireGuard :: ZoneIDs (Binding inp) → Zones inp !! id = Zones inp' !! id) →
  (∀ r, r ∈ orderedRules inp → same_remote inp inp' resolve resolve' r) →
  CompileRuleset inp = CompileRuleset inp'.
Proof.
  intros Hb Hg Hbe Hr Hr' Hm Hm' Hz Hrules. unfold CompileRuleset. f_equal. unfold Compile, orderedRules in *.
  rewrite Hr, Hr', <- Hb, <- Hg, <- Hbe.
  rewrite <- (trustedZones_ext inp inp') by (intros; apply Hz; by do 2 right).
  unfold zoneInterface, zoneCIDR. rewrite <- !Hz by set_solver.
  f_equal. destruct (match Beacon inp with Some _ => _ | None => _ end) as [[beacon notrack]|]; [|done].
  destruct (trustedZones (Zones inp) _); [|done].
  by rewrite <- (lowerRules_ext inp inp' resolve resolve').
Qed.
End compiler.

(** ** The invariant of the records *)

Record guard_inv (st : GuardState) : Prop := {
  inv_nodes : ∀ id n, gsNodes st !! id = Some n → Groups.NodeID (fnNode n) = id;
  inv_groups : ∀ id g, gsGroups st !! id = Some g → Groups.GroupID (fgGroup g) = id;
  inv_security_groups : ∀ id g, gsSecurityGroups st !! id = Some g → sgID (ssGroup g) = id;
  inv_zones : ∀ id z, gsZones st !! id = Some z → zID z = id;
  inv_bindings : ∀ id b, gsBindings st !! id = Some b → bNodeID (sbIntent b) = id;
  inv_group_bindings : ∀ id b, gsGroupBindings st !! id = Some b →
    ngGroupID b = id ∧ is_Some (gsGroups st !! id) ∧
    ∀ sg, sg ∈ SecurityGroupIDs b → is_Some (gsSecurityGroups st !! sg);
}.

Lemma ZoneMap_snoc l z : ZoneMap (l ++ [z]) = <[zID z := z]> (ZoneMap l).
Proof. unfold ZoneMap. by rewrite fold_left_app. Qed.
Lemma ZoneMap_case l id :
  match ZoneMap l !! id with
  | Some z => z ∈ l ∧ zID z = id
  | None => ∀ z, z ∈ l → zID z ≠ id
  end.
Proof.
  induction l as [|z l IH] using rev_ind.
  { unfold ZoneMap. cbn [fold_left]. rewrite lookup_empty. intros z Hz. by apply elem_of_nil in Hz. }
  rewrite ZoneMap_snoc.
  destruct (decide (zID z = id)) as [<-|Hne].
  - rewrite lookup_insert_eq. split; [|done]. apply elem_of_app. right. left.
  - rewrite lookup_insert_ne by done. destruct (ZoneMap l !! id).
    + destruct IH. split; [apply elem_of_app; by left|done].
    + intros z' [Hz| ->%list_elem_of_singleton]%elem_of_app; [by apply IH|done].
Qed.
Lemma stored_zones_lookup (m : gmap string GuardZone) id : (∀ id z, m !! id = Some z → zID z = id) →
  ZoneMap (merge_sort zone_le (map_to_list m).*2) !! id = m !! id.
Proof.
  intros Hk. pose proof (ZoneMap_case (merge_sort zone_le (map_to_list m).*2) id) as Hc.
  assert (∀ z, z ∈ merge_sort zone_le (map_to_list m).*2 ↔ m !! zID z = Some z) as Hin.
  { intros z. rewrite merge_sort_Permutation, list_elem_of_fmap. split.
    - intros ([i z'] & -> & Hi). apply elem_of_map_to_list in Hi. cbn. by rewrite (Hk i z').
    - intros Hz. exists (zID z, z). split; [done|]. by apply elem_of_map_to_list. }
  destruct (ZoneMap _ !! id) as [z|].
  - destruct Hc as [Hz <-]. symmetry. by apply Hin.
  - destruct (m !! id) as [z|] eqn:E; [|done]. pose proof (Hk _ _ E) as <-. by destruct (Hc z); [apply Hin|].
Qed.

Section state.
Context `{GuardSdk}.

Lemma insert_agree {A} (m m' : gmap string A) k v (l : list string) :
  (∀ i, i ∈ l → m !! i = m' !! i) → ∀ i, i ∈ l → <[k := v]> m !! i = <[k := v]> m' !! i.
Proof.
  intros Hm i Hi. destruct (decide (k = i)) as [<-|]; [by rewrite !lookup_insert_eq|].
  rewrite !lookup_insert_ne by done. by apply Hm.
Qed.
Lemma resolve_zones_ext zones zones' inputs has id :
  (∀ i, i ∈ [id; GuardZonePublic; GuardZoneWireGuard] → ZoneMap zones !! i = ZoneMap zones' !! i) →
  resolveNodeZonesFrom zones inputs has !! id = resolveNodeZonesFrom zones' inputs has !! id.
Proof.
  intros Hz. unfold resolveNodeZonesFrom. cbv zeta. rewrite <- (Hz GuardZonePublic) by set_solver.
  match goal with |- context [<[GuardZonePublic := ?v]> (ZoneMap zones)] => generalize v as p; intros p end.
  pose proof (insert_agree _ _ GuardZonePublic p _ Hz) as Hz1. rewrite <- (Hz1 GuardZoneWireGuard) by set_solver.
  match goal with |- context [<[GuardZoneWireGuard := ?v]> (<[_ := _]> (ZoneMap zones))] => generalize v as w; intros w end.
  pose proof (insert_agree _ _ GuardZoneWireGuard w _ Hz1 id ltac:(set_solver)) as Hw. revert Hw.
  generalize (<[GuardZoneWireGuard := w]> (<[GuardZonePublic := p]> (ZoneMap zones))) as m.
  generalize (<[GuardZoneWireGuard := w]> (<[GuardZonePublic := p]> (ZoneMap zones'))) as m'.
  intros m' m Hw. destruct (decide (GuardZoneLoopback = id)) as [El|Hne].
  - rewrite El, <- Hw. destruct (m !! id) eqn:E; [by rewrite E|]. by rewrite !lookup_insert_eq.
  - do 2 case_match; rewrite ?lookup_insert_ne by done; done.
Qed.

(** ** The derived groups *)

Lemma elem_of_derive seen l d : d ∈ derive seen l →
  ∃ g, (g, dSecurityGroupID d) ∈ l ∧ dNodeGroupID d = Groups.GroupID g ∧ dNodeGroupName d = GroupName g ∧
    dSecurityGroupID d ∉ seen.
Proof.
  revert seen. induction l as [|[g id] l IH]; intros seen; cbn [derive]; [by rewrite elem_of_nil|].
  destruct (mem id seen) eqn:E.
  - intros (g' & ? & ? & ? & ?)%IH. exists g'. split_and!; try done. by right.
  - rewrite elem_of_cons. intros [->|(g' & ? & ? & ? & ?)%IH].
    + exists g. cbn. apply mem_false in E. split_and!; try done. left.
    + exists g'. split_and!; try done; [by right|]. set_solver.
Qed.
End state.

(** ** Members of a group in the stored fleet *)

Lemma elem_of_fleet st n : n ∈ fleet st ↔ ∃ id x, gsNodes st !! id = Some x ∧ fnNode x = n.
Proof.
  unfold fleet. rewrite list_elem_of_fmap. setoid_rewrite list_elem_of_fmap. split.
  - intros (x & -> & [id x'] & -> & Hi%elem_of_map_to_list). eauto.
  - intros (id & x & Hx & <-). exists x. split; [done|]. exists (id, x). split; [done|]. by apply elem_of_map_to_list.
Qed.
Lemma ResolveMembers_eq g l l' :
  (∀ x, x ∈ ResolveMembers g l ↔ x ∈ ResolveMembers g l') → ResolveMembers g l = ResolveMembers g l'.
Proof.
  intros Hx. unfold ResolveMembers in *. apply sorted_set_unique; [apply sorted_set_NoDup|apply sorted_set_sorted|].
  intros x. rewrite <- Hx. apply elem_of_sorted_set.
Qed.

(** No node is stored under the empty id. *)
Definition named (st : GuardState) : Prop := gsNodes st !! "" = None.

Section members.
Context (st : GuardState) (Hnodes : ∀ id n, gsNodes st !! id = Some n → Groups.NodeID (fnNode n) = id).
Context (Hnamed : named st).

Lemma node_key_nonempty id x : gsNodes st !! id = Some x → id ≠ "".
Proof. intros Hx ->. unfold named in Hnamed. congruence. Qed.
Lemma member_known g id x : gsNodes st !! id = Some x →
  id ∈ ResolveMembers g (fleet st) ↔ Contains g (fnNode x) = true.
Proof.
  intros Hx. pose proof (node_key_nonempty _ _ Hx) as Hne. pose proof (Hnodes _ _ Hx) as Hid.
  rewrite Contains_true, elem_of_ResolveMembers, Hid. split.
  - intros [[? ?]|(n & Hn & Hs & E)]; [tauto|].
    apply elem_of_fleet in Hn as (id' & x' & Hx' & <-). pose proof (Hnodes _ _ Hx') as Hid'.
    assert (x' = x) as -> by congruence. tauto.
  - intros [_ [?|Hs]]; [by left|]. right. exists (fnNode x). split_and!; try done.
    apply elem_of_fleet. eauto.
Qed.
Lemma member_unknown g id : gsNodes st !! id = None →
  id ∈ ResolveMembers g (fleet st) ↔ id ∈ Members g ∧ id ≠ "".
Proof.
  intros Hx. rewrite elem_of_ResolveMembers. split; [|by left].
  intros [?|(n & Hn & Hs & E)]; [done|]. apply elem_of_fleet in Hn as (id' & x' & Hx' & <-).
  pose proof (Hnodes _ _ Hx'). congruence.
Qed.
End members.

Section agreement.
Context `{GuardSdk} `{Quote}.

Lemma existsb_false_elem {A} (p : A → bool) (l : list A) x : existsb p l = false → x ∈ l → p x = false.
Proof.
  intros Hf Hx. destruct (p x) eqn:E; [|done]. rewrite <- Hf. symmetry. apply existsb_elem_of. eauto.
Qed.
Lemma names_zone_true id r : names_zone id r = true ↔ geKind (gRemote r) = NetRefZone ∧ geZoneID (gRemote r) = id.
Proof. unfold names_zone. go_bool. tauto. Qed.
Lemma names_node_true id r : names_node id r = true ↔ geKind (gRemote r) = NetRefNode ∧ geNodeID (gRemote r) = id.
Proof. unfold names_node. go_bool. tauto. Qed.
Lemma names_group_true id r : names_group id r = true ↔ geKind (gRemote r) = NetRefGroup ∧ geGroupID (gRemote r) = id.
Proof. unfold names_group. go_bool. tauto. Qed.

Lemma remote_lookup st rules gid :
  (∀ id g, gsGroups st !! id = Some g → Groups.GroupID (fgGroup g) = id) →
  fold_left (remoteGroupStep st) rules ∅ !! gid =
  if guardRulesReferenceGroup rules gid then (fun g => ResolveMembers (fgGroup g) (fleet st)) <$> gsGroups st !! gid
  else None.
Proof.
  intros Hk. revert gid. induction rules as [|r rules IH] using rev_ind; intros gid; [done|].
  unfold guardRulesReferenceGroup in *. rewrite fold_left_app, existsb_app. cbn [fold_left existsb].
  rewrite orb_false_r. set (out := fold_left _ rules ∅) in *. unfold remoteGroupStep.
  unfold names_group at 2. case_bool_decide as Ek; cbn [negb andb]; [|by rewrite orb_false_r, IH].
  pose proof (IH (geGroupID (gRemote r))) as IHk. destruct (decide (geGroupID (gRemote r) = gid)) as [Eg|Eg];
    [rewrite (bool_decide_eq_true_2 _ Eg)|rewrite (bool_decide_eq_false_2 _ Eg)].
  - subst gid. rewrite orb_true_r. destruct (out !! geGroupID (gRemote r)) eqn:Eo.
    + rewrite Eo, IHk. by destruct (existsb _ rules).
    + destruct (gsGroups st !! geGroupID (gRemote r)) as [g|] eqn:E; [|by rewrite Eo].
      by rewrite (Hk _ _ E), lookup_insert_eq.
  - rewrite orb_false_r. destruct (out !! geGroupID (gRemote r)); [apply IH|].
    destruct (gsGroups st !! geGroupID (gRemote r)) as [g|] eqn:E; [|apply IH].
    rewrite (Hk _ _ E), lookup_insert_ne by done. apply IH.
Qed.

Lemma collect_ext {A} st st' (idOf : A → string) miss l :
  (∀ a, a ∈ l → ssGroup <$> gsSecurityGroups st !! idOf a = ssGroup <$> gsSecurityGroups st' !! idOf a) →
  collectGroups st idOf miss l = collectGroups st' idOf miss l.
Proof.
  induction l as [|a l IH]; intros Hl; [done|]. cbn [collectGroups]. rewrite <- IH by (intros; apply Hl; by right).
  specialize (Hl a ltac:(left)). destruct (gsSecurityGroups st !! idOf a), (gsSecurityGroups st' !! idOf a);
    cbn in Hl; simplify_eq; [by rewrite Hl|done].
Qed.
Lemma collect_rules {A} st (idOf : A → string) miss l gs :
  collectGroups st idOf miss l = Ok gs → flat_map sgRules gs = flat_map (fun a => rulesOf st (idOf a)) l.
Proof.
  revert gs. induction l as [|a l IH]; intros gs; cbn [collectGroups]; [intros; by simplify_eq|].
  cbn [flat_map]. unfold rulesOf at 1. destruct (gsSecurityGroups st !! idOf a); [|done].
  destruct (collectGroups st idOf miss l) as [gs'|]; [|done]. intros; simplify_eq/=. f_equal. by apply IH.
Qed.

(** Two states hold the same inputs for a compile of [n] under intent [i]. *)
Record agree (st st' : GuardState) (n : string) (i : NodeGuardBinding) : Prop := {
  ag_node : match gsNodes st !! n, gsNodes st' !! n with
            | Some x, Some y => Managed i = true → through st (fnNode x) = through st' (fnNode y)
            | None, None => True | _, _ => False end;
  ag_own : ∀ id, id ∈ GroupIDs i → ssGroup <$> gsSecurityGroups st !! id = ssGroup <$> gsSecurityGroups st' !! id;
  ag_derived : ∀ x d, Managed i = true → gsNodes st !! n = Some x → d ∈ derivedGuardGroupsLocked st x (GroupIDs i) →
    ssGroup <$> gsSecurityGroups st !! dSecurityGroupID d = ssGroup <$> gsSecurityGroups st' !! dSecurityGroupID d;
  ag_zones : ∀ id, id ∈ GuardZonePublic :: GuardZoneWireGuard :: ZoneIDs i ∨
    guardRulesReferenceZone (bindingRulesLocked st n i) id = true → gsZones st !! id = gsZones st' !! id;
  ag_inputs : gsInputs st !! n = gsInputs st' !! n;
  ag_beacon : beaconCompanionFor st n = beaconCompanionFor st' n;
  ag_remotes : ∀ id, guardRulesReferenceNode (bindingRulesLocked st n i) id = true →
    fnAddr <$> gsNodes st !! id = fnAddr <$> gsNodes st' !! id;
  ag_groups : ∀ gid, guardRulesReferenceGroup (bindingRulesLocked st n i) gid = true →
    fgGroup <$> gsGroups st !! gid = fgGroup <$> gsGroups st' !! gid;
  ag_members : ∀ gid g, guardRulesReferenceGroup (bindingRulesLocked st n i) gid = true → gsGroups st !! gid = Some g →
    ResolveMembers (fgGroup g) (fleet st) = ResolveMembers (fgGroup g) (fleet st') ∧
    ∀ m, m ∈ ResolveMembers (fgGroup g) (fleet st) → fnAddr <$> gsNodes st !! m = fnAddr <$> gsNodes st' !! m;
}.

Lemma agree_ruleset st st' n b : guard_inv st → guard_inv st' →
  gsBindings st !! n = Some b → gsBindings st' !! n = Some b → agree st st' n (sbIntent b) →
  currentRuleset st n = currentRuleset st' n.
Proof.
  intros Hi Hi' Hb Hb' Ha. unfold currentRuleset, compileInputSnapshotForSystem, compileSnapshot.
  rewrite Hb, Hb', <- (ag_inputs _ _ _ _ Ha), <- (ag_beacon _ _ _ _ Ha). pose proof (ag_node _ _ _ _ Ha) as Hn.
  destruct (gsNodes st !! n) as [x|] eqn:Ex, (gsNodes st' !! n) as [y|] eqn:Ey; try done. cbn [default is_some].
  change (id b) with b.
  rewrite <- (collect_ext st st' id) by (intros a Ha'; by apply (ag_own _ _ _ _ Ha)).
  destruct (collectGroups st id _ _) as [own|] eqn:Eo; [|done]. cbn [mbind res_bind andb].
  assert ((if Managed (sbIntent b) then collectGroups st dSecurityGroupID
             (fun d => ErrDerivedGroupNotFound (dSecurityGroupID d) (dNodeGroupName d))
             (derivedGuardGroupsLocked st x (GroupIDs (sbIntent b))) else Ok []) =
          (if Managed (sbIntent b) then collectGroups st' dSecurityGroupID
             (fun d => ErrDerivedGroupNotFound (dSecurityGroupID d) (dNodeGroupName d))
             (derivedGuardGroupsLocked st' y (GroupIDs (sbIntent b))) else Ok [])) as <-.
  { destruct (Managed (sbIntent b)) eqn:Em; [|done].
    assert (derivedGuardGroupsLocked st' y (GroupIDs (sbIntent b)) = derivedGuardGroupsLocked st x (GroupIDs (sbIntent b)))
      as -> by (unfold derivedGuardGroupsLocked; by rewrite Hn).
    apply collect_ext. intros d Hd. by eapply (ag_derived _ _ _ _ Ha). }
  destruct (if Managed _ then _ else _) as [more|] eqn:Em; [|done]. cbn [mbind res_bind fst snd snBinding snGroups].
  f_equal.
  assert (Overrides (sbIntent b) ++ flat_map sgRules (own ++ more) = bindingRulesLocked st n (sbIntent b)) as Hr.
  { unfold bindingRulesLocked. rewrite flat_map_app, (collect_rules _ _ _ _ _ Eo), Ex. f_equal. f_equal.
    destruct (Managed _); [by rewrite (collect_rules _ _ _ _ _ Em)|by simplify_eq]. }
  apply (CompileRuleset_ext _ _ (fun id => fnAddr <$> gsNodes st !! id) (fun id => fnAddr <$> gsNodes st' !! id)); try done.
  - cbn. intros id Hid. apply resolve_zones_ext. intros z Hz.
    rewrite !stored_zones_lookup by (by eapply inv_zones). apply (ag_zones _ _ _ _ Ha). left.
    apply elem_of_cons in Hz as [->|Hz]; [done|]. set_solver.
  - unfold orderedRules. cbn [Binding ciGroups]. rewrite Hr. intros r Hin. split; cbn [Zones snZones snInputs].
    + intros Hk. apply (ag_remotes _ _ _ _ Ha). apply existsb_elem_of. exists r. by rewrite names_node_true.
    + intros Hk. apply resolve_zones_ext. intros z Hz. rewrite !stored_zones_lookup by (by eapply inv_zones).
      apply (ag_zones _ _ _ _ Ha). apply elem_of_cons in Hz as [->|Hz]; [right|left; set_solver].
      apply existsb_elem_of. exists r. by rewrite names_zone_true.
    + intros Hk. unfold members_of. cbn [GroupMembers RemoteGroups]. unfold remoteGroupMembersLocked. cbn.
      rewrite Hr, !remote_lookup by (by eapply inv_groups).
      assert (guardRulesReferenceGroup (bindingRulesLocked st n (sbIntent b)) (geGroupID (gRemote r)) = true) as Hg.
      { apply existsb_elem_of. exists r. by rewrite names_group_true. }
      rewrite Hg. pose proof (ag_groups _ _ _ _ Ha _ Hg) as Hgg. pose proof (ag_members _ _ _ _ Ha) as Hmm.
      destruct (gsGroups st !! _) as [g|] eqn:E, (gsGroups st' !! _) as [g'|] eqn:E'; cbn in Hgg; simplify_eq; [|done].
      destruct (Hmm _ _ Hg E) as [HR Hm]. cbn. rewrite <- Hgg, <- HR. split; [done|]. intros; simplify_eq. by apply Hm.
Qed.
End agreement.

(** ** Every operation keeps the invariant *)

Section preservation.
Context `{GuardSdk}.

Lemma blind_group id : blind (uses_group id).
Proof. by intros m st. Qed.
Lemma blind_zone id : blind (uses_zone id).
Proof. by intros m st. Qed.
Lemma blind_node id : blind (uses_node id).
Proof. by intros m st. Qed.
Lemma blind_node_group id members : blind (uses_node_group id members).
Proof. by intros m st. Qed.
#[local] Hint Resolve blind_group blind_zone blind_node blind_node_group : lattice.

Lemma clears_group id st : only_clears st (invalidateGuardBindingsForGroupLocked id st).
Proof. apply only_clears_where, blind_group. Qed.
Lemma clears_zone id st : only_clears st (invalidateGuardBindingsForZoneLocked id st).
Proof. apply only_clears_where, blind_zone. Qed.
Lemma clears_node id st : only_clears st (invalidateGuardBindingsForNodeLocked id st).
Proof. apply only_clears_where, blind_node. Qed.
Lemma clears_node_group id members st : only_clears st (invalidateGuardBindingsForNodeGroupLocked id members st).
Proof. apply only_clears_where, blind_node_group. Qed.
Lemma clears_edit id st : only_clears st (invalidateGuardBindingsForGroupEditLocked id st).
Proof. apply clears_node_group. Qed.
Lemma clears_move previous next st g : only_clears st (moveMembership previous next st g).
Proof.
  unfold moveMembership. destruct (_ || _); [apply only_clears_refl|].
  eapply only_clears_trans; [|apply clears_node_group]. destruct (binds_some st g.1); auto with lattice.
Qed.
Lemma clears_moves previous next l st : only_clears st (fold_left (moveMembership previous next) l st).
Proof.
  revert st. induction l as [|g l IH]; intros st; [apply only_clears_refl|].
  eapply only_clears_trans; [apply clears_move|apply IH].
Qed.
Lemma clears_membership previous next st : only_clears st (invalidateGuardBindingsForMembershipLocked previous next st).
Proof. unfold invalidateGuardBindingsForMembershipLocked. destruct (_ =? _)%nat; auto using clears_moves with lattice. Qed.

Lemma inv_clears st st' : only_clears st st' → guard_inv st → guard_inv st'.
Proof.
  intros (m & -> & Hm) [H1 H2 H3 H4 H5 H6]. split; try done. cbn. intros id b Hb.
  destruct (Hm id) as [E|E]; rewrite E in Hb; [by apply H5|].
  destruct (gsBindings st !! id) as [b'|] eqn:Eb; [|done]. cbn in Hb. simplify_eq. rewrite clear_intent. by apply H5.
Qed.

(** A lookup in an updated map: the new entry or an old one. *)
Lemma insert_case {A} (m : gmap string A) k (v : A) i x :
  <[k := v]> m !! i = Some x → (i = k ∧ x = v) ∨ m !! i = Some x.
Proof. intros [[-> ->]|[? ?]]%lookup_insert_Some; auto. Qed.
Lemma delete_case {A} (m : gmap string A) k i (x : A) : delete k m !! i = Some x → i ≠ k ∧ m !! i = Some x.
Proof. intros [? ?]%lookup_delete_Some. auto. Qed.

Ltac inv_maps :=
  match goal with
  | |- guard_inv _ => split; cbn; try done
  end;
  intros; repeat match goal with
  | Hx : <[_ := _]> _ !! _ = Some _ |- _ => apply insert_case in Hx as [[-> ->]|Hx]
  | Hx : delete _ _ !! _ = Some _ |- _ => apply delete_case in Hx as [? Hx]
  end; eauto.

Lemma is_Some_insert {A} (m : gmap string A) k (v : A) i : is_Some (m !! i) → is_Some (<[k := v]> m !! i).
Proof. rewrite lookup_insert_is_Some. destruct (decide (k = i)); auto. Qed.

Lemma inv_set_nodes st id x : Groups.NodeID (fnNode x) = id → guard_inv st → guard_inv (set_nodes (<[id := x]> (gsNodes st)) st).
Proof. intros Hx [H1 H2 H3 H4 H5 H6]. inv_maps. Qed.
Lemma inv_set_inputs st m : guard_inv st → guard_inv (set_inputs m st).
Proof. by intros [H1 H2 H3 H4 H5 H6]. Qed.

Lemma stage_inv plans m m' :
  (∀ id b, m !! id = Some b → bNodeID (sbIntent b) = id) → stagePlans plans m = Ok m' →
  ∀ id b, m' !! id = Some b → bNodeID (sbIntent b) = id.
Proof.
  revert m. induction plans as [|p plans IH]; intros m Hm; cbn [stagePlans]; [by intros [= ->]|].
  destruct (m !! _) eqn:E; [|done]. intros [? Hs]%guard_Ok. eapply IH; [|exact Hs].
  intros id b [[-> ->]|Hb]%insert_case; [done|by apply Hm].
Qed.

Lemma inv_security_groups_step st op : guard_inv st →
  match op with OpUpsertSecurityGroup _ | OpDeleteSecurityGroup _ => True | _ => False end → guard_inv (step op st).
Proof.
  intros Hi. destruct op as [group|id| | | | | | | | | | | | | | | |]; try done; intros _; cbn [step].
  - unfold UpsertSecurityGroup. cbv zeta. destruct (negb _); [done|]. cbn [fst]. eapply inv_clears; [apply clears_group|].
    destruct Hi as [H1 H2 H3 H4 H5 H6]. inv_maps. destruct (H6 id b) as (? & ? & Hs); [done|]. split_and!; try done.
    intros sg Hsg. apply is_Some_insert. auto.
  - unfold DeleteSecurityGroup. destruct (gsSecurityGroups st !! id) eqn:E; [|done].
    destruct (negb _ || negb _) eqn:Eu; [done|]. cbn [fst]. eapply inv_clears; [apply clears_group|].
    destruct Hi as [H1 H2 H3 H4 H5 H6]. inv_maps. destruct (H6 id0 b) as (? & ? & Hs); [done|]. split_and!; try done.
    intros sg Hsg. destruct (decide (id = sg)) as [<-|]; [|rewrite lookup_delete_ne by done; auto]. exfalso.
    go_bool. destruct Eu as [_ Eu%Nat.eqb_eq]. apply nil_length_inv in Eu.
    apply (not_elem_of_nil id0). rewrite <- Eu. apply list_elem_of_omap. exists (id0, b).
    split; [by apply elem_of_map_to_list|]. by rewrite (proj2 (mem_spec _ _) Hsg).
Qed.

Lemma inv_group_steps st op : guard_inv st →
  match op with
  | OpUpsertNodeGroupGuardBinding _ | OpDeleteNodeGroupGuardBinding _ | OpUpsertGroup _ | OpDeleteGroup _ => True
  | _ => False end → guard_inv (step op st).
Proof.
  intros Hi. destruct op as [| | | | | | |gb|gid|g|gid| | | | | | |]; try done; intros _; cbn [step].
  - unfold UpsertNodeGroupGuardBinding. destruct (gsGroups st !! _) eqn:Eg; [|done].
    destruct (List.find _ _) eqn:Ef; [done|]. cbv zeta. destruct (negb _); [done|]. cbn [fst].
    eapply inv_clears; [apply clears_node_group|]. destruct Hi as [H1 H2 H3 H4 H5 H6]. inv_maps.
    split_and!; [done|by rewrite Eg|]. intros sg Hsg. pose proof (find_none _ _ Ef sg) as Hf.
    rewrite <- list_elem_of_In in Hf. apply Hf in Hsg. by destruct (gsSecurityGroups st !! sg).
  - unfold DeleteNodeGroupGuardBinding. destruct (gsGroupBindings st !! gid); [|done]. cbn [fst].
    apply (inv_clears _ _ (clears_node_group gid true st)) in Hi. revert Hi.
    generalize (invalidateGuardBindingsForNodeGroupLocked gid true st) as st1. intros st1 [H1 H2 H3 H4 H5 H6]. inv_maps.
  - unfold UpsertGroup. cbv zeta. eapply inv_clears; [apply clears_edit|].
    apply (inv_clears _ _ (clears_edit (Groups.GroupID (fgGroup g)) st)) in Hi. revert Hi.
    generalize (invalidateGuardBindingsForGroupEditLocked (Groups.GroupID (fgGroup g)) st) as st1.
    intros st1 [H1 H2 H3 H4 H5 H6]. inv_maps. destruct (H6 id b) as (? & ? & Hs); [done|].
    split_and!; try done. by apply is_Some_insert.
  - unfold DeleteGroup. destruct (gsGroups st !! gid); [|done]. destruct (groupInUse _ _ _ _ _); [done|]. cbn [fst].
    apply (inv_clears _ _ (clears_edit gid st)) in Hi. revert Hi.
    generalize (invalidateGuardBindingsForGroupEditLocked gid st) as st1. intros st1 [H1 H2 H3 H4 H5 H6]. inv_maps.
    destruct (H6 id b) as (? & ? & Hs); [done|]. by rewrite lookup_delete_ne.
Qed.

Lemma inv_node_steps st op : guard_inv st →
  match op with
  | OpUpsertNFTInputs _ | OpDeleteNFTInputs _ | OpUpsertNode _ | OpUpdateNodeGeo _ _ | OpUpdateNodeMeta _ _ _
  | OpUpdateMetrics _ _ _ | OpDeleteNode _ => True | _ => False end → guard_inv (step op st).
Proof.
  intros Hi. destruct op as [| | | | | | | | | | |i|nid|x|nid geo|nid role tags|nid pub wg|nid]; try done; intros _; cbn [step].
  - eapply inv_clears; [apply only_clears_invalidate|]. by apply inv_set_inputs.
  - unfold DeleteNFTInputs. destruct (gsInputs st !! nid); [|done].
    eapply inv_clears; [apply only_clears_invalidate|]. by apply inv_set_inputs.
  - unfold UpsertNode. cbv zeta. pose proof (inv_set_nodes st _ x eq_refl Hi) as Hi'.
    destruct (gsNodes st !! _); [|done]. eapply inv_clears; [apply clears_membership|].
    destruct (addr_differs _ _); [|done]. eapply inv_clears; [apply clears_node|done].
  - unfold UpdateNodeGeo. destruct (gsNodes st !! nid) as [p|] eqn:E; [|done]. cbv zeta.
    eapply inv_clears; [apply clears_membership|]. apply inv_set_nodes; [|done]. exact (inv_nodes _ Hi _ _ E).
  - unfold UpdateNodeMeta. destruct (gsNodes st !! nid) as [p|] eqn:E; [|done]. cbv zeta.
    eapply inv_clears; [apply clears_membership|]. apply inv_set_nodes; [|done]. exact (inv_nodes _ Hi _ _ E).
  - unfold UpdateMetrics. destruct (gsNodes st !! nid) as [p|] eqn:E; [|done]. cbv zeta. cbn [fst].
    assert (guard_inv (set_nodes (<[nid := mkFleet (fnNode p) (mkGuardNode (if wg =?? "" then WireGuardIP (fnAddr p) else wg)
      (if pub =?? "" then PublicIP (fnAddr p) else pub))]> (gsNodes st)) st)) as Hi'
      by (apply inv_set_nodes; [exact (inv_nodes _ Hi _ _ E)|done]).
    destruct (addr_differs _ _); [|done]. eapply inv_clears; [apply clears_node|done].
  - unfold deleteNodeGuardRecords. destruct (gsNodes st !! nid) as [p|] eqn:E; [|done]. cbv zeta.
    match goal with |- context [invalidateGuardBindingsForNodeLocked nid ?s] =>
      pose proof (clears_node nid s) as Hc; assert (guard_inv s) as Hs end.
    { destruct Hi as [H1 H2 H3 H4 H5 H6]. inv_maps.
      - rewrite lookup_fmap in H7. destruct (gsGroups st !! id) as [g0|] eqn:Eg; [|done]. cbn in H7. simplify_eq.
        rewrite <- (H2 _ _ Eg). unfold stripMember. by destruct (_ && _).
      - destruct (H6 id b) as (? & ? & Hs); [done|]. split_and!; try done. rewrite lookup_fmap. by apply fmap_is_Some. }
    apply (inv_clears _ _ Hc) in Hs. revert Hs. destruct Hc as (m & -> & _). intros [H1 H2 H3 H4 H5 H6]. inv_maps.
Qed.

Lemma step_inv op st : guard_inv st → guard_inv (step op st).
Proof.
  intros Hi. destruct op as [ | |z|id|b|nid|plans persisted| | | | | | | | | | |] eqn:Eop;
    try (by apply inv_security_groups_step); try (by apply inv_group_steps); try (by apply inv_node_steps); cbn [step].
  - eapply inv_clears; [apply clears_zone|]. destruct Hi as [H1 H2 H3 H4 H5 H6]. inv_maps.
  - unfold DeleteGuardZone. destruct (gsZones st !! id); [|done].
    eapply inv_clears; [apply clears_zone|]. destruct Hi as [H1 H2 H3 H4 H5 H6]. inv_maps.
  - unfold UpsertNodeGuardBinding. cbv zeta. destruct (negb _); [done|]. cbn [fst].
    destruct Hi as [H1 H2 H3 H4 H5 H6]. inv_maps.
  - unfold DeleteNodeGuardBinding. destruct (gsBindings st !! nid); [|done]. destruct (Managed _); [done|]. cbn [fst].
    destruct Hi as [H1 H2 H3 H4 H5 H6]. inv_maps.
  - unfold CommitGuardPlans. destruct (stagePlans plans _) as [m|] eqn:E; [|done]. destruct persisted; [|done]. cbn [fst].
    destruct Hi as [H1 H2 H3 H4 H5 H6]. split; try done. cbn. by eapply stage_inv.
Qed.
Lemma run_inv ops st : guard_inv st → guard_inv (run ops st).
Proof. revert st. induction ops as [|op ops IH]; intros st Hi; [done|]. apply IH, step_inv, Hi. Qed.
End preservation.

(** ** Which steps the anchors cover *)

Section tracking.
Context `{GuardSdk}.

Definition builtin_zone (id : string) : bool := mem id [GuardZonePublic; GuardZoneWireGuard].
(** A node that is new to the fleet and that no record mentions. *)
Definition unmentioned (st : GuardState) (x : FleetNode) : bool :=
  let id := Groups.NodeID (fnNode x) in
  negb (is_some (gsBindings st !! id)) &&
  forallb (fun g => negb (Contains (fgGroup g.2) (fnNode x))) (map_to_list (gsGroups st)) &&
  forallb (fun b => negb (guardRulesReferenceNode (bindingRulesLocked st b.1 (sbIntent b.2)) id))
    (map_to_list (gsBindings st)).
Definition covered (st : GuardState) (op : guardOp) : bool :=
  match op with
  | OpUpsertGuardZone zone => negb (builtin_zone (zID zone))
  | OpDeleteGuardZone id => negb (builtin_zone id)
  | OpUpsertNode x => negb (Groups.NodeID (fnNode x) =?? "") &&
      (is_some (gsNodes st !! Groups.NodeID (fnNode x)) || unmentioned st x)
  | OpDeleteNode id => forallb (fun g => negb (mem id (Members (fgGroup g.2)))) (map_to_list (gsGroups st))
  | _ => true
  end.
(** The operation removes the binding of [n]. *)
Definition deletes (n : string) (op : guardOp) : bool :=
  match op with OpDeleteNodeGuardBinding id | OpDeleteNode id => id =?? n | _ => false end.
Fixpoint covered_run (n : string) (ops : list guardOp) (st : GuardState) : bool :=
  match ops with
  | [] => true
  | op :: ops => covered st op && negb (deletes n op) && covered_run n ops (step op st)
  end.

(** ** Versions only grow *)

Lemma stage_version plans m m' n b : stagePlans plans m = Ok m' → m !! n = Some b →
  ∃ b', m' !! n = Some b' ∧ (b' = b ∨ sbVersion b < sbVersion b').
Proof.
  revert m b. induction plans as [|p plans IH]; intros m b; cbn [stagePlans]; [intros [= ->]; eauto|].
  destruct (m !! bNodeID (sbIntent p)) as [e|] eqn:E; [|done].
  intros [Hv Hs]%guard_Ok Hb. go_bool. destruct (decide (bNodeID (sbIntent p) = n)) as [<-|Hne].
  - edestruct IH as (b' & Hb' & Hor); [exact Hs|apply lookup_insert_eq|]. exists b'. split; [done|]. right.
    assert (e = b) as -> by congruence. destruct Hor as [->|Hor]; cbn in *; lia.
  - eapply IH; [exact Hs|]. by rewrite lookup_insert_ne.
Qed.

Lemma version_step op st n b : gsBindings st !! n = Some b → deletes n op = false →
  ∃ b', gsBindings (step op st) !! n = Some b' ∧ (b' = b ∨ sbVersion b < sbVersion b').
Proof.
  intros Hb Hd.
  assert (∀ st1, gsBindings st1 = gsBindings st → ∀ st2, only_clears st1 st2 →
    ∃ b', gsBindings st2 !! n = Some b' ∧ (b' = b ∨ sbVersion b < sbVersion b')) as Hc.
  { intros st1 E st2 H12. eapply only_clears_version; [exact H12|]. by rewrite E. }
  pose proof (Hc st eq_refl st (only_clears_refl st)) as Hsame.
  destruct op as [g|id|z|id|p|id|plans persisted|gb|gid|g|gid|i|id|x|id geo|id role tags|id pub wg|id]; cbn [step].
  - unfold UpsertSecurityGroup. cbv zeta. destruct (negb _); [done|]. eapply Hc; [|apply clears_group]. done.
  - unfold DeleteSecurityGroup. destruct (gsSecurityGroups st !! id); [|done]. destruct (_ || _); [done|].
    eapply Hc; [|apply clears_group]. done.
  - eapply Hc; [|apply clears_zone]. done.
  - unfold DeleteGuardZone. destruct (gsZones st !! id); [|done]. eapply Hc; [|apply clears_zone]. done.
  - unfold UpsertNodeGuardBinding. cbv zeta. destruct (negb _) eqn:Ev; [done|]. cbn.
    destruct (decide (bNodeID (sbIntent p) = n)) as [E|]; [|rewrite lookup_insert_ne; eauto].
    rewrite E, lookup_insert_eq. eexists. split; [done|]. right. rewrite E, Hb in Ev. go_bool. cbn. lia.
  - unfold DeleteNodeGuardBinding. destruct (gsBindings st !! id) eqn:E; [|done]. destruct (Managed _); [done|]. cbn.
    cbn in Hd. go_bool. rewrite lookup_delete_ne by done. eauto.
  - unfold CommitGuardPlans. destruct (stagePlans plans _) as [m|] eqn:E; [|done]. destruct persisted; [|done]. cbn.
    by eapply stage_version.
  - unfold UpsertNodeGroupGuardBinding. destruct (gsGroups st !! _); [|done]. destruct (List.find _ _); [done|].
    cbv zeta. destruct (negb _); [done|]. eapply Hc; [|apply clears_node_group]. done.
  - unfold DeleteNodeGroupGuardBinding. destruct (gsGroupBindings st !! gid); [|done]. cbn.
    eapply Hc; [|apply clears_node_group]. done.
  - unfold UpsertGroup. cbv zeta.
    set (id := Groups.GroupID (fgGroup g)).
    destruct (Hc st eq_refl _ (clears_edit id st)) as (b1 & Hb1 & Ho1).
    set (st1 := invalidateGuardBindingsForGroupEditLocked id st) in *.
    destruct (only_clears_version _ _ n b1 (clears_edit id (set_groups (<[id := g]> (gsGroups st1)) st1)) Hb1)
      as (b2 & Hb2 & Ho2).
    exists b2. split; [exact Hb2|]. destruct Ho1 as [->|], Ho2 as [->|]; auto. right. lia.
  - unfold DeleteGroup. destruct (gsGroups st !! gid); [|done]. destruct (groupInUse _ _ _ _ _); [done|]. cbn.
    eapply Hc; [|apply clears_edit]. done.
  - eapply Hc; [|apply only_clears_invalidate]. done.
  - unfold DeleteNFTInputs. destruct (gsInputs st !! id); [|done]. eapply Hc; [|apply only_clears_invalidate]. done.
  - unfold UpsertNode. cbv zeta. destruct (gsNodes st !! _); [|eauto].
    eapply (Hc (set_nodes (<[Groups.NodeID (fnNode x) := x]> (gsNodes st)) st)); [done|].
    eapply only_clears_trans; [|apply clears_membership]. destruct (addr_differs _ _); auto using clears_node with lattice.
  - unfold UpdateNodeGeo. destruct (gsNodes st !! id); [|done]. eapply Hc; [|apply clears_membership]. done.
  - unfold UpdateNodeMeta. destruct (gsNodes st !! id); [|done]. eapply Hc; [|apply clears_membership]. done.
  - unfold UpdateMetrics. destruct (gsNodes st !! id) as [p|]; [|done]. cbv zeta. cbn [fst].
    destruct (addr_differs _ _); [eapply Hc; [|apply clears_node]; done|]. cbn. eauto.
  - unfold deleteNodeGuardRecords. destruct (gsNodes st !! id); [|done]. cbv zeta. cbn in Hd. go_bool.
    change (gsBindings (set_nodes ?m ?s)) with (gsBindings s).
    eapply only_clears_version; [apply clears_node|]. cbn. by rewrite lookup_delete_ne.
Qed.

(** ** What an anchored binding shows of the step that left it in place *)

Lemma agree_refl st n i : agree st st n i.
Proof. split; try done. by destruct (gsNodes st !! n). Qed.
Lemma agree_clears_r st st1 st2 n i : only_clears st1 st2 → agree st st1 n i → agree st st2 n i.
Proof. intros (m & -> & _) []. by split. Qed.
Lemma agree_clears_l st st0 st1 n i : only_clears st st0 → agree st0 st1 n i → agree st st1 n i.
Proof. intros (m & -> & _) []. by split. Qed.

Lemma agree_bindings st m n i : agree st (set_bindings m st) n i.
Proof. split; try done. cbn. by destruct (gsNodes st !! n). Qed.
Lemma agree_security_group st m n b id :
  (∀ i, i ≠ id → m !! i = gsSecurityGroups st !! i) → uses_group id (set_security_groups m st) n b = false →
  agree st (set_security_groups m st) n (sbIntent b).
Proof.
  intros Hm Hu. unfold uses_group in Hu. go_bool. destruct Hu as [Ho Hd]. apply mem_false in Ho.
  split; try done; cbn.
  - by destruct (gsNodes st !! n).
  - intros i Hi. rewrite Hm; [done|]. by intros ->.
  - intros x d Hman Hx Hin. cbn in Hd. rewrite Hx, Hman in Hd. cbn in Hd. rewrite Hm; [done|].
    intros E. pose proof (existsb_false_elem _ _ _ Hd Hin) as Hf. by apply bool_decide_eq_false in Hf.
Qed.
Lemma agree_zone st m n b id : LastPlanSHA b ≠ "" → builtin_zone id = false →
  (∀ i, i ≠ id → m !! i = gsZones st !! i) → uses_zone id (set_zones m st) n b = false →
  agree st (set_zones m st) n (sbIntent b).
Proof.
  intros Hs Hb Hm Hu. unfold uses_zone in Hu. rewrite (bool_decide_eq_false_2 _ Hs) in Hu. cbn [negb andb] in Hu.
  go_bool. destruct Hu as [Hz Hr]. apply mem_false in Hb, Hz. split; try done; cbn.
  - by destruct (gsNodes st !! n).
  - intros i Hi. symmetry. apply Hm. intros ->. destruct Hi as [Hi|Hi]; [set_solver|].
    change (guardRulesReferenceZone (bindingRulesLocked st n (sbIntent b)) id = false) in Hr. congruence.
Qed.
Lemma agree_inputs st m n i : m !! n = gsInputs st !! n → agree st (set_inputs m st) n i.
Proof. intros Hm. split; try done. cbn. by destruct (gsNodes st !! n). Qed.

Lemma through_lookup st node gid : through st node !! gid =
  gsGroupBindings st !! gid ≫= (fun b => if (length (SecurityGroupIDs b) =? 0)%nat then None else
    match gsGroups st !! gid with
    | None => None | Some g => if Contains (fgGroup g) node then Some (fgGroup g, b) else None end).
Proof. unfold through. apply map_lookup_imap. Qed.

(** An edit of one node group and its binding. *)
Lemma agree_group st mg mb n i gid :
  (∀ j, j ≠ gid → mg !! j = gsGroups st !! j) → (∀ j, j ≠ gid → mb !! j = gsGroupBindings st !! j) →
  (∀ x, gsNodes st !! n = Some x → Managed i = true →
    through st (fnNode x) !! gid = None ∧ through (set_group_bindings mb (set_groups mg st)) (fnNode x) !! gid = None) →
  (mg = gsGroups st ∨ guardRulesReferenceGroup (bindingRulesLocked st n i) gid = false) →
  agree st (set_group_bindings mb (set_groups mg st)) n i.
Proof.
  intros Hg Hb Ht Hr.
  assert (∀ j, guardRulesReferenceGroup (bindingRulesLocked st n i) j = true → mg !! j = gsGroups st !! j) as Hj.
  { intros j Href. destruct Hr as [->|Hr]; [done|]. apply Hg. intros ->. congruence. }
  split; try done; cbn.
  - destruct (gsNodes st !! n) as [x|] eqn:Ex; [|done]. intros Hm. apply map_eq. intros j.
    destruct (decide (j = gid)) as [->|Hne].
    + destruct (Ht x eq_refl Hm) as [-> ->]. done.
    + rewrite !through_lookup. cbn. by rewrite Hb, Hg.
  - intros j Href. by rewrite Hj.
Qed.

Lemma through_uncontained st node gid : (∀ g, gsGroups st !! gid = Some g → Contains (fgGroup g) node = false) →
  through st node !! gid = None.
Proof.
  intros Hc. rewrite through_lookup. destruct (gsGroupBindings st !! gid); [|done]. cbn.
  destruct (_ =? _)%nat; [done|]. destruct (gsGroups st !! gid) eqn:E; [|done]. by rewrite Hc.
Qed.
Lemma through_unbound st node gid : binds_some st gid = false → through st node !! gid = None.
Proof.
  unfold binds_some. rewrite through_lookup. destruct (gsGroupBindings st !! gid); [|done]. cbn.
  by destruct (_ =? _)%nat.
Qed.
(** [NetGuardCoverage] names a node group exactly when the node receives
    security groups through one, provided groups have names, and the group it
    names is one of them. *)
Lemma coverage_spec st n x : gsNodes st !! n = Some x →
  (∀ gid e, through st (fnNode x) !! gid = Some e → GroupName e.1 ≠ "") →
  let via := (netGuardCoverageLocked st n).2 in
  (via = "" ↔ through st (fnNode x) = ∅) ∧
  (via ≠ "" → ∃ gid e, through st (fnNode x) !! gid = Some e ∧ GroupName e.1 = via).
Proof.
  intros Hx Hnames. unfold netGuardCoverageLocked. rewrite Hx. cbn [snd].
  set (F := fun (viaGroup : string) (p : string * NodeGroupGuardBinding) => _).
  set (t := through st (fnNode x)) in *. set (named_in := fun via => ∃ gid e, t !! gid = Some e ∧ GroupName e.1 = via).
  assert (∀ l via, (∀ p, p ∈ l → gsGroupBindings st !! p.1 = Some p.2) → (via ≠ "" → named_in via) →
    let via' := fold_left F l via in
    (via' ≠ "" → named_in via') ∧ (via' = "" ↔ via = "" ∧ ∀ p, p ∈ l → t !! p.1 = None)) as Hl.
  { induction l as [|[gid b] l IH]; intros via Hin Hvia; cbn [fold_left].
    - split; [done|]. split; [intros ->; split; [done|]; intros p Hp; by apply elem_of_nil in Hp|by intros [-> _]].
    - pose proof (Hin (gid, b) ltac:(left)) as Hb. cbn in Hb.
      assert ((F via (gid, b) = via ∧ t !! gid = None) ∨
              (F via (gid, b) ≠ "" ∧ named_in (F via (gid, b)) ∧ is_Some (t !! gid))) as HF.
      { unfold F, t in *. rewrite through_lookup, Hb. cbn. destruct (_ =? _)%nat eqn:Esz; [by left|].
        destruct (gsGroups st !! gid) as [g|] eqn:Eg; [|by left].
        destruct (Contains (fgGroup g) (fnNode x)) eqn:Ec; [|by left]. right. cbn.
        assert (through st (fnNode x) !! gid = Some (fgGroup g, b)) as Ht
          by (rewrite through_lookup, Hb; cbn; by rewrite Esz, Eg, Ec).
        pose proof (Hnames _ _ Ht) as Hne. cbn in Hne. destruct (_ || _) eqn:Eo.
        - split_and!; [done|by exists gid, (fgGroup g, b)|by eexists].
        - go_bool. destruct Eo as [Hv _]. split_and!; [done|by apply Hvia|by eexists]. }
      destruct (IH (F via (gid, b))) as [I1 I2].
      { intros p Hp. apply Hin. by right. }
      { destruct HF as [[-> _]|(_ & ? & _)]; auto. }
      split; [done|]. rewrite I2. setoid_rewrite elem_of_cons. destruct HF as [[-> Ht]|(Hne & _ & [y Hy])].
      + split; [intros [-> Hp]; split; [done|]; intros p [->|?]; auto|intros [-> Hp]; split; auto].
      + split; [by intros [? _]|]. intros [_ Hp]. specialize (Hp (gid, b) ltac:(by left)). cbn in Hp. congruence. }
  destruct (Hl (map_to_list (gsGroupBindings st)) "") as [H1' H2'].
  { intros [gid b]. apply elem_of_map_to_list. }
  { done. }
  split; [|done]. rewrite H2'. split.
  - intros [_ Hp]. apply map_empty. intros gid. destruct (gsGroupBindings st !! gid) as [b|] eqn:E.
    + apply (Hp (gid, b)). by apply elem_of_map_to_list.
    + unfold t. by rewrite through_lookup, E.
  - intros ->. split; [done|]. intros p _. apply lookup_empty.
Qed.

(** What a spared binding says about a node group. *)
Lemma spared_by_group st gid members n b : LastPlanSHA b ≠ "" → uses_node_group gid members st n b = false →
  guardRulesReferenceGroup (bindingRulesLocked st n (sbIntent b)) gid = false ∧
  (members = true → Managed (sbIntent b) = true → ∀ x g, gsNodes st !! n = Some x → gsGroups st !! gid = Some g →
     Contains (fgGroup g) (fnNode x) = false).
Proof.
  intros Hs Hu. unfold uses_node_group in Hu. rewrite (bool_decide_eq_false_2 _ Hs) in Hu. cbn [negb andb] in Hu.
  apply orb_false_iff in Hu as [Hc Hr]. split; [done|]. intros -> Hm x g Hx Hg. rewrite Hg, Hx, Hm in Hc. exact Hc.
Qed.

(** ** Edits of a node *)

Lemma Contains_unselected g p x : Selector g = None → Groups.NodeID p = Groups.NodeID x → Contains g p = Contains g x.
Proof. intros Hs Hid. unfold Contains. by rewrite Hs, Hid. Qed.

Lemma moves_anchored p x l st n b : anchored (fold_left (moveMembership p x) l st) n b →
  anchored st n b ∧ ∀ g, g ∈ l → is_some (Selector (fgGroup g.2)) = true →
    Contains (fgGroup g.2) (fnNode p) ≠ Contains (fgGroup g.2) (fnNode x) →
    (binds_some st g.1 = true → n ≠ Groups.NodeID (fnNode x)) ∧
    guardRulesReferenceGroup (bindingRulesLocked st n (sbIntent b)) g.1 = false.
Proof.
  revert st. induction l as [|h l IH]; intros st; cbn [fold_left].
  - intros Ha. split; [done|]. intros g Hg. by apply elem_of_nil in Hg.
  - intros Ha. apply IH in Ha as [Ha Hl]. pose proof (clears_move p x st h) as (m & Em & _). rewrite Em in Hl.
    assert (anchored st n b) as Hst by (eapply only_clears_back; [apply clears_move|exact Ha]).
    split; [exact Hst|]. intros g [->|Hg]%elem_of_cons Hsel Hdiff; [|by apply (Hl g Hg Hsel Hdiff)].
    unfold moveMembership in Ha. rewrite Hsel in Ha. apply eqb_false_iff in Hdiff. rewrite Hdiff in Ha. cbn [negb orb] in Ha.
    apply where_anchored in Ha as [Ha Ht]; [|apply blind_node_group]. destruct Hst as [_ Hs].
    apply spared_by_group in Ht as [Hr _]; [|done]. destruct (binds_some st h.1) eqn:Eb.
    + split; [intros _; by apply invalidate_anchored in Ha as [_ ?]|]. by rewrite invalidate_eq in Hr.
    + by split.
Qed.
Lemma membership_anchored p x st n b : Groups.NodeID (fnNode p) = Groups.NodeID (fnNode x) →
  anchored (invalidateGuardBindingsForMembershipLocked p x st) n b →
  anchored st n b ∧ ∀ gid g, gsGroups st !! gid = Some g →
    Contains (fgGroup g) (fnNode p) ≠ Contains (fgGroup g) (fnNode x) →
    (binds_some st gid = true → n ≠ Groups.NodeID (fnNode x)) ∧
    guardRulesReferenceGroup (bindingRulesLocked st n (sbIntent b)) gid = false.
Proof.
  intros Hid Ha. unfold invalidateGuardBindingsForMembershipLocked in Ha. destruct (_ =? _)%nat eqn:Esz.
  - apply Nat.eqb_eq, map_size_empty_inv in Esz. destruct Ha as [Ha _]. by rewrite Esz in Ha.
  - apply moves_anchored in Ha as [Ha Hl]. split; [done|]. intros gid g Hg Hd.
    apply (Hl (gid, g)); [by apply elem_of_map_to_list| |done]. cbn.
    destruct (Selector (fgGroup g)) eqn:Es; [done|]. destruct Hd. by apply Contains_unselected.
Qed.

(** A change of one node's record: the addresses changed only if no rule
    renders them, the memberships only where no compile reads them. *)
Lemma agree_node st id p x n i :
  guard_inv st → named st → gsNodes st !! id = Some p → Groups.NodeID (fnNode x) = id →
  (fnAddr p ≠ fnAddr x → guardRulesReferenceNode (bindingRulesLocked (set_nodes (<[id := x]> (gsNodes st)) st) n i) id = false ∧
    ∀ gid g, guardRulesReferenceGroup (bindingRulesLocked (set_nodes (<[id := x]> (gsNodes st)) st) n i) gid = true →
      gsGroups st !! gid = Some g → Contains (fgGroup g) (fnNode x) = false) →
  (∀ gid g, gsGroups st !! gid = Some g → Contains (fgGroup g) (fnNode p) ≠ Contains (fgGroup g) (fnNode x) →
    (binds_some st gid = true → n ≠ id) ∧
    guardRulesReferenceGroup (bindingRulesLocked (set_nodes (<[id := x]> (gsNodes st)) st) n i) gid = false) →
  agree st (set_nodes (<[id := x]> (gsNodes st)) st) n i.
Proof.
  intros Hi Hn Hp Hid Haddr Hmem. set (st1 := set_nodes _ st) in *.
  assert (guard_inv st1) as Hi1 by (by apply inv_set_nodes).
  pose proof (node_key_nonempty st Hn _ _ Hp) as Hne.
  assert (named st1) as Hn1 by (unfold named, st1; cbn; by rewrite lookup_insert_ne).
  assert (match gsNodes st !! n, gsNodes st1 !! n with
          | Some y, Some z => Managed i = true → through st (fnNode y) = through st1 (fnNode z)
          | None, None => True | _, _ => False end) as Hth.
  { cbn. destruct (decide (id = n)) as [<-|Hd].
    - rewrite Hp, lookup_insert_eq. intros _. apply map_eq. intros gid. rewrite !through_lookup. cbn.
      destruct (gsGroupBindings st !! gid) as [gb|] eqn:Egb; [|done]. cbn. destruct (_ =? _)%nat eqn:Esz; [done|].
      destruct (gsGroups st !! gid) as [g|] eqn:Eg; [|done].
      destruct (decide (Contains (fgGroup g) (fnNode p) = Contains (fgGroup g) (fnNode x))) as [->|Hdiff]; [done|].
      exfalso. destruct (Hmem gid g Eg Hdiff) as [Hb _]. apply Hb; [|done]. unfold binds_some. by rewrite Egb, Esz.
    - rewrite lookup_insert_ne by done. by destruct (gsNodes st !! n). }
  assert (bindingRulesLocked st1 n i = bindingRulesLocked st n i) as Hrules.
  { unfold bindingRulesLocked. f_equal. f_equal. destruct (Managed i); [|done].
    destruct (gsNodes st !! n) as [y|], (gsNodes st1 !! n) as [z|]; try done.
    unfold derivedGuardGroupsLocked. by rewrite Hth. }
  rewrite Hrules in Haddr, Hmem. split; try done; cbn.
  - intros j Hj. destruct (decide (id = j)) as [<-|]; [|by rewrite lookup_insert_ne].
    rewrite Hp, lookup_insert_eq. cbn. f_equal. destruct (decide (fnAddr p = fnAddr x)) as [|Hd]; [done|].
    destruct (Haddr Hd). congruence.
  - intros gid g Href Hg. split.
    + apply ResolveMembers_eq. intros j. destruct (decide (id = j)) as [<-|Hd].
      * rewrite (member_known st (inv_nodes _ Hi) Hn _ _ _ Hp).
        rewrite (member_known st1 (inv_nodes _ Hi1) Hn1 _ id x) by apply lookup_insert_eq.
        destruct (decide (Contains (fgGroup g) (fnNode p) = Contains (fgGroup g) (fnNode x))) as [->|Hdiff]; [done|].
        destruct (Hmem gid g Hg Hdiff). congruence.
      * assert (gsNodes st1 !! j = gsNodes st !! j) as Ej by (cbn; by rewrite lookup_insert_ne).
        destruct (gsNodes st !! j) as [y|] eqn:Ey.
        -- by rewrite (member_known st (inv_nodes _ Hi) Hn _ _ _ Ey), (member_known st1 (inv_nodes _ Hi1) Hn1 _ _ _ Ej).
        -- by rewrite (member_unknown st (inv_nodes _ Hi) Hn _ _ Ey), (member_unknown st1 (inv_nodes _ Hi1) Hn1 _ _ Ej).
    + intros m Hm. destruct (decide (id = m)) as [<-|]; [|by rewrite lookup_insert_ne].
      rewrite Hp, lookup_insert_eq. cbn. f_equal. destruct (decide (fnAddr p = fnAddr x)) as [|Hd]; [done|].
      destruct (Haddr Hd) as [_ Hc]. specialize (Hc gid g Href Hg).
      apply (member_known st (inv_nodes _ Hi) Hn _ _ _ Hp) in Hm.
      destruct (Hmem gid g Hg); congruence.
Qed.

(** ** Edits composed *)

Lemma agree_rules st st1 n i : agree st st1 n i → bindingRulesLocked st1 n i = bindingRulesLocked st n i.
Proof.
  intros Ha. unfold bindingRulesLocked. pose proof (ag_node _ _ _ _ Ha) as Hn. pose proof (ag_derived _ _ _ _ Ha) as Hd.
  assert (∀ id, ssGroup <$> gsSecurityGroups st !! id = ssGroup <$> gsSecurityGroups st1 !! id → rulesOf st1 id = rulesOf st id)
    as Hr.
  { intros id E. unfold rulesOf. destruct (gsSecurityGroups st !! id), (gsSecurityGroups st1 !! id); cbn in E; congruence. }
  f_equal. f_equal.
  - pose proof (ag_own _ _ _ _ Ha) as Ho. revert Ho. clear -Hr.
    generalize (GroupIDs i) as l. induction l as [|id l IH]; intros Ho; [done|]. cbn. rewrite Hr by (apply Ho; left). f_equal. apply IH. intros; apply Ho. by right.
  - destruct (Managed i); [|done]. destruct (gsNodes st !! n) as [x|], (gsNodes st1 !! n) as [y|]; try done.
    assert (derivedGuardGroupsLocked st1 y (GroupIDs i) = derivedGuardGroupsLocked st x (GroupIDs i)) as ->
      by (unfold derivedGuardGroupsLocked; by rewrite Hn).
    specialize (fun d => Hd x d eq_refl eq_refl). revert Hd.
    generalize (derivedGuardGroupsLocked st x (GroupIDs i)) as l. induction l as [|d l IH]; intros Hd; [done|]. cbn.
    rewrite Hr by (apply Hd; left). f_equal. apply IH. intros; apply Hd. by right.
Qed.
Lemma agree_trans st st1 st2 n i : agree st st1 n i → agree st1 st2 n i → agree st st2 n i.
Proof.
  intros H1 H2. pose proof (agree_rules _ _ _ _ H1) as Hr.
  pose proof H1 as [A1 A2 A3 A4 A5 A6 A7 A8 A9]. pose proof H2 as [B1 B2 B3 B4 B5 B6 B7 B8 B9].
  rewrite Hr in B4, B7, B8, B9.
  split; [|intros id Hid; by rewrite A2, B2| |intros id Hid; by rewrite A4, B4|congruence|congruence
         |intros id Hid; by rewrite A7, B7|intros id Hid; by rewrite A8, B8|].
  - destruct (gsNodes st !! n) as [x|], (gsNodes st1 !! n) as [y|], (gsNodes st2 !! n) as [z|]; try done.
    intros Hm. by rewrite A1, B1.
  - intros x d Hm Hx Hin. rewrite (A3 x d) by done. rewrite Hx in A1.
    destruct (gsNodes st1 !! n) as [y|] eqn:Ey; [|done]. apply (B3 y d); [done..|].
    unfold derivedGuardGroupsLocked in *. by rewrite <- (A1 Hm).
  - intros gid g Href Hg. destruct (A9 gid g Href Hg) as [ER EM]. pose proof (A8 gid Href) as E8. rewrite Hg in E8.
    destruct (gsGroups st1 !! gid) as [g1|] eqn:Eg1; [|done]. cbn in E8. injection E8 as E8.
    destruct (B9 gid g1 Href Eg1) as [ER' EM']. rewrite <- E8 in ER', EM'. split; [congruence|].
    intros m Hm. rewrite EM by done. apply EM'. by rewrite <- ER.
Qed.

(** A node that no compile of [n] reads comes or goes. *)
Lemma agree_absent st m id n i :
  (∀ j x, gsNodes st !! j = Some x → Groups.NodeID (fnNode x) = j) → named st →
  (∀ j x, m !! j = Some x → Groups.NodeID (fnNode x) = j) → named (set_nodes m st) → n ≠ id →
  (∀ j, j ≠ id → m !! j = gsNodes st !! j) →
  guardRulesReferenceNode (bindingRulesLocked st n i) id = false →
  (∀ gid g, guardRulesReferenceGroup (bindingRulesLocked st n i) gid = true → gsGroups st !! gid = Some g →
    id ∉ ResolveMembers (fgGroup g) (fleet st) ∧ id ∉ ResolveMembers (fgGroup g) (fleet (set_nodes m st))) →
  agree st (set_nodes m st) n i.
Proof.
  intros Hi Hn Hi1 Hn1 Hne Hm Hr Hg. split; try done; cbn.
  - rewrite Hm by done. by destruct (gsNodes st !! n).
  - intros j Hj. rewrite Hm; [done|]. intros ->. congruence.
  - intros gid g Href Hgg. destruct (Hg gid g Href Hgg) as [Ha Hb]. split.
    + apply ResolveMembers_eq. intros j. destruct (decide (j = id)) as [->|Hj]; [tauto|].
      assert (gsNodes (set_nodes m st) !! j = gsNodes st !! j) as Ej by (cbn; by apply Hm).
      destruct (gsNodes st !! j) as [y|] eqn:Ey.
      * by rewrite (member_known st Hi Hn _ _ _ Ey), (member_known (set_nodes m st) Hi1 Hn1 _ _ _ Ej).
      * by rewrite (member_unknown st Hi Hn _ _ Ey), (member_unknown (set_nodes m st) Hi1 Hn1 _ _ Ej).
    + intros j Hj. rewrite Hm; [done|]. by intros ->.
Qed.
Lemma agree_same_groups st mg n i : (∀ j, fgGroup <$> mg !! j = fgGroup <$> gsGroups st !! j) →
  agree st (set_groups mg st) n i.
Proof.
  intros Hg. split; try done; cbn.
  - destruct (gsNodes st !! n) as [x|]; [|done]. intros _. apply map_eq. intros j. rewrite !through_lookup. cbn.
    specialize (Hg j). destruct (gsGroupBindings st !! j); [|done]. cbn. destruct (_ =? _)%nat; [done|].
    destruct (mg !! j), (gsGroups st !! j); cbn in Hg; simplify_eq; [by rewrite Hg|done].
Qed.
Lemma agree_beacon st m n i : m !! n = gsBeacon st !! n → agree st (set_beacon m st) n i.
Proof.
  intros Hm. split; try done; [cbn; by destruct (gsNodes st !! n)|]. unfold beaconCompanionFor. cbn. by rewrite Hm.
Qed.

(** ** One step *)

Lemma clears_nodes st st' : only_clears st st' → gsNodes st' = gsNodes st.
Proof. by intros (m & -> & _). Qed.
Lemma clears_groups st st' : only_clears st st' → gsGroups st' = gsGroups st ∧ gsGroupBindings st' = gsGroupBindings st.
Proof. by intros (m & -> & _). Qed.

Lemma addr_same p x : addr_differs p x = false → fnAddr p = fnAddr x.
Proof.
  unfold addr_differs. destruct p as [p [w pub]], x as [x [w' pub']]. cbn. intros E. go_bool.
  destruct E as [-> ->]. done.
Qed.
(** The node operations, from the two clearings each performs. *)
Lemma agree_node_op st id p x n b :
  guard_inv st → named st → gsNodes st !! id = Some p → Groups.NodeID (fnNode x) = id →
  anchored (invalidateGuardBindingsForMembershipLocked p x
    (if addr_differs p x then invalidateGuardBindingsForNodeLocked id (set_nodes (<[id := x]> (gsNodes st)) st)
     else set_nodes (<[id := x]> (gsNodes st)) st)) n b →
  agree st (set_nodes (<[id := x]> (gsNodes st)) st) n (sbIntent b).
Proof.
  intros Hi Hn Hp Hid Ha. set (st1 := set_nodes _ st) in *.
  assert (only_clears st1 (if addr_differs p x then invalidateGuardBindingsForNodeLocked id st1 else st1)) as Hcl
    by (destruct (addr_differs p x); [apply clears_node|apply only_clears_refl]).
  apply membership_anchored in Ha as [Ha Hmem]; [|by rewrite Hid; apply (inv_nodes _ Hi)].
  apply (agree_node st id p x); try done.
  - intros Hd. destruct (addr_differs p x) eqn:Ea; [|by apply addr_same in Ea].
    apply where_anchored in Ha as [[_ Hs] Ht]; [|apply blind_node]. unfold uses_node in Ht.
    rewrite (bool_decide_eq_false_2 _ Hs) in Ht. cbn [negb andb] in Ht. apply orb_false_iff in Ht as [Hr Hg].
    split; [done|]. intros gid g Href Hgg. unfold st1 in Hg at 1. cbn in Hg. rewrite lookup_insert_eq in Hg.
    apply existsb_elem_of in Href as (r & Hin & [Hk <-]%names_group_true).
    pose proof (existsb_false_elem _ _ _ Hg Hin) as Hf. unfold names_member_group in Hf. cbn in Hf.
    rewrite (bool_decide_eq_true_2 _ Hk), Hgg in Hf. exact Hf.
  - intros gid g Hg Hd. rewrite <- Hid at 1.
    assert (∀ s, only_clears st1 s → gsGroups s = gsGroups st ∧ binds_some s gid = binds_some st gid ∧
      bindingRulesLocked s n (sbIntent b) = bindingRulesLocked st1 n (sbIntent b)) as Hs by (by intros s (m & -> & _)).
    destruct (Hs _ Hcl) as (E1 & E2 & E3).
    destruct (Hmem gid g) as [? ?]; [by rewrite E1|done|]. rewrite E2, E3 in *. by rewrite Hid in *.
Qed.

Lemma step_agree_groups op st n b : anchored st n b → anchored (step op st) n b →
  match op with
  | OpUpsertNodeGroupGuardBinding _ | OpDeleteNodeGroupGuardBinding _ | OpUpsertGroup _ | OpDeleteGroup _ => True
  | _ => False end → agree st (step op st) n (sbIntent b).
Proof.
  intros Hst Ha. destruct op as [| | | | | | |gb|gid|g|gid| | | | | | |]; try done; intros _; cbn [step] in *.
  - unfold UpsertNodeGroupGuardBinding in *. destruct (gsGroups st !! _) eqn:Eg; [|apply agree_refl].
    destruct (List.find _ _); [apply agree_refl|]. cbv zeta in *. destruct (negb _); [apply agree_refl|]. cbn [fst ngGroupID] in *.
    eapply agree_clears_r; [apply clears_node_group|].
    apply where_anchored in Ha as [[_ Hs] Ht]; [|apply blind_node_group]. apply spared_by_group in Ht as [_ Hc]; [|done].
    apply (agree_group st (gsGroups st) _ n (sbIntent b) (ngGroupID gb)); try done; [|intros x Hx Hm|by left].
    + intros j Hj. by rewrite lookup_insert_ne.
    + split; apply through_uncontained; intros g' Hg'; by eapply (Hc eq_refl).
  - unfold DeleteNodeGroupGuardBinding in *. destruct (gsGroupBindings st !! gid) eqn:Eg; [|apply agree_refl]. cbn [fst] in *.
    pose proof (clears_node_group gid true st) as Hcl. set (st0 := invalidateGuardBindingsForNodeGroupLocked gid true st) in *.
    assert (anchored st0 n b) as Ha0 by exact Ha. apply where_anchored in Ha0 as [[_ Hs] Ht]; [|apply blind_node_group].
    apply spared_by_group in Ht as [_ Hc]; [|done]. eapply agree_clears_l; [exact Hcl|].
    pose proof (clears_groups _ _ Hcl) as [Egr Egb].
    apply (agree_group st0 (gsGroups st0) _ n (sbIntent b) gid); try done; [|intros x Hx Hm|by left].
    + intros j Hj. by rewrite lookup_delete_ne.
    + rewrite (clears_nodes _ _ Hcl) in Hx.
      split; apply through_uncontained; intros g' Hg'; eapply (Hc eq_refl Hm x); try done; by rewrite <- Egr.
  - unfold UpsertGroup in *. cbv zeta in *. set (id := Groups.GroupID (fgGroup g)) in *.
    pose proof (clears_edit id st) as Hcl. set (st0 := invalidateGuardBindingsForGroupEditLocked id st) in *.
    eapply agree_clears_r; [apply clears_edit|]. eapply agree_clears_l; [exact Hcl|].
    apply where_anchored in Ha as [Ha1 Ht]; [|apply blind_node_group].
    assert (anchored st0 n b) as Ha0 by exact Ha1. apply where_anchored in Ha0 as [[_ Hs] Ht0]; [|apply blind_node_group].
    apply spared_by_group in Ht as [_ Hc]; [|done]. apply spared_by_group in Ht0 as [Hr0 Hc0]; [|done].
    pose proof (clears_groups _ _ Hcl) as [Egr Egb]. pose proof (clears_nodes _ _ Hcl) as En.
    change (set_groups (<[id := g]> (gsGroups st0)) st0) with
      (set_group_bindings (gsGroupBindings st0) (set_groups (<[id := g]> (gsGroups st0)) st0)).
    apply (agree_group st0 (<[id := g]> (gsGroups st0)) (gsGroupBindings st0) n (sbIntent b) id); try done; [|intros x Hx Hm|].
    + intros j Hj. by rewrite lookup_insert_ne.
    + rewrite En in Hx. destruct (binds_some st id) eqn:Eb.
      * split; apply through_uncontained; intros g' Hg'.
        -- eapply (Hc0 eq_refl Hm x); [done|by rewrite <- Egr].
        -- eapply (Hc ltac:(unfold binds_some in *; cbn; by rewrite Egb) Hm x); [cbn; by rewrite En|done].
      * assert (binds_some st0 id = false) as Eb0 by (unfold binds_some in *; by rewrite Egb).
        split; apply through_unbound; [done|exact Eb0].
    + right. destruct Hcl as (m & Em & _). rewrite Em. exact Hr0.
  - unfold DeleteGroup in *. destruct (gsGroups st !! gid) eqn:Eg; [|apply agree_refl].
    destruct (groupInUse _ _ _ _ _) eqn:Eu; [apply agree_refl|]. cbn [fst] in *.
    pose proof (clears_edit gid st) as Hcl. set (st0 := invalidateGuardBindingsForGroupEditLocked gid st) in *.
    assert (anchored st0 n b) as Ha0 by exact Ha. apply where_anchored in Ha0 as [[_ Hs] Ht0]; [|apply blind_node_group].
    apply spared_by_group in Ht0 as [Hr0 _]; [|done]. eapply agree_clears_l; [exact Hcl|].
    pose proof (clears_groups _ _ Hcl) as [Egr Egb].
    apply (agree_group st0 _ _ n (sbIntent b) gid); [intros j Hj; by rewrite lookup_delete_ne..|intros x Hx Hm|].
    + assert (binds_some st gid = false) as Eb.
      { unfold groupInUse in Eu. cbv zeta in Eu.
        match type of Eu with (if ?c then _ else _) = _ => destruct c eqn:E; [|done] end.
        apply andb_true_iff in E as [E _]. apply andb_true_iff in E as [E _]. apply andb_true_iff in E as [_ E].
        apply negb_true_iff in E. exact E. }
      split; [apply through_unbound; unfold binds_some in *; by rewrite Egb|].
      rewrite through_lookup. cbn. by rewrite !lookup_delete_eq.
    + right. destruct Hcl as (m & Em & _). rewrite Em. exact Hr0.
Qed.

Lemma unmentioned_spec st x : unmentioned st x = true →
  gsBindings st !! Groups.NodeID (fnNode x) = None ∧
  (∀ gid g, gsGroups st !! gid = Some g → Contains (fgGroup g) (fnNode x) = false) ∧
  ∀ n b, gsBindings st !! n = Some b →
    guardRulesReferenceNode (bindingRulesLocked st n (sbIntent b)) (Groups.NodeID (fnNode x)) = false.
Proof.
  unfold unmentioned. rewrite !andb_true_iff, !forallb_elem_of. intros [[Hb Hg] Hr]. split_and!.
  - by destruct (gsBindings st !! _).
  - intros gid g Hgg. specialize (Hg (gid, g)). rewrite elem_of_map_to_list in Hg. by apply negb_true_iff, Hg.
  - intros n b Hnb. specialize (Hr (n, b)). rewrite elem_of_map_to_list in Hr. by apply negb_true_iff, Hr.
Qed.
Lemma named_insert st x : Groups.NodeID (fnNode x) ≠ "" → named st →
  named (set_nodes (<[Groups.NodeID (fnNode x) := x]> (gsNodes st)) st).
Proof. intros Hne Hn. unfold named. cbn. by rewrite lookup_insert_ne. Qed.

Lemma agree_fresh st x n b : guard_inv st → named st → gsNodes st !! Groups.NodeID (fnNode x) = None →
  Groups.NodeID (fnNode x) ≠ "" → unmentioned st x = true → gsBindings st !! n = Some b →
  agree st (set_nodes (<[Groups.NodeID (fnNode x) := x]> (gsNodes st)) st) n (sbIntent b).
Proof.
  intros Hi Hn Hx Hne (Hnb & Hg & Hr)%unmentioned_spec Hb.
  assert (guard_inv (set_nodes (<[Groups.NodeID (fnNode x) := x]> (gsNodes st)) st)) as Hi1 by (by apply inv_set_nodes).
  pose proof (named_insert st x Hne Hn) as Hn1.
  apply (agree_absent _ _ (Groups.NodeID (fnNode x))); try done; try exact (inv_nodes _ Hi); try exact (inv_nodes _ Hi1).
  - intros ->. congruence.
  - intros j Hj. by rewrite lookup_insert_ne.
  - by apply Hr.
  - intros gid g _ Hgg. specialize (Hg gid g Hgg). split.
    + rewrite (member_unknown st (inv_nodes _ Hi) Hn _ _ Hx). intros [Hm _].
      apply not_true_iff_false in Hg. apply Hg, Contains_true. auto.
    + rewrite (member_known _ (inv_nodes _ Hi1) Hn1 _ _ x) by apply lookup_insert_eq. by rewrite Hg.
Qed.

Lemma strip_unlisted id g : mem id (Members (fgGroup g)) = false → fgGroup (stripMember id g) = fgGroup g.
Proof.
  intros Hm. unfold stripMember. rewrite Hm. cbn. destruct (negb _); [done|]. cbn.
  destruct g as [[gid name members sel] parent leader]. cbn in *. f_equal. unfold withoutString.
  apply mem_false in Hm. induction members as [|m l IH]; [done|]. cbn.
  rewrite bool_decide_eq_false_2 by set_solver. cbn. f_equal. apply IH. set_solver.
Qed.

Lemma agree_delete_node st id p n b : guard_inv st → named st → gsNodes st !! id = Some p → n ≠ id →
  (∀ gid g, gsGroups st !! gid = Some g → mem id (Members (fgGroup g)) = false) →
  anchored (deleteNodeGuardRecords id st) n b → agree st (deleteNodeGuardRecords id st) n (sbIntent b).
Proof.
  intros Hi Hn Hp Hne Hl Ha. unfold deleteNodeGuardRecords in *. rewrite Hp in *. cbv zeta in *.
  set (sa := set_inputs (delete id (gsInputs st)) st) in *.
  set (sb := set_beacon (delete id (gsBeacon sa)) sa) in *.
  set (sc := set_groups (stripMember id <$> gsGroups sb) sb) in *.
  set (sd := set_bindings (delete id (gsBindings sc)) sc) in *.
  pose proof (clears_node id sd) as Hcl. set (se := invalidateGuardBindingsForNodeLocked id sd) in *.
  assert (anchored se n b) as Hse by exact Ha.
  apply where_anchored in Hse as [[_ Hs] Ht]; [|apply blind_node]. unfold uses_node in Ht.
  rewrite (bool_decide_eq_false_2 _ Hs) in Ht. cbn [negb andb] in Ht. apply orb_false_iff in Ht as [Hr Hg].
  assert (gsNodes sd !! id = Some p) as Hpd by exact Hp. rewrite Hpd in Hg.
  assert (agree st sd n (sbIntent b)) as Hsd.
  { eapply agree_trans; [apply (agree_inputs st); by rewrite lookup_delete_ne|].
    eapply agree_trans; [apply (agree_beacon sa); by rewrite lookup_delete_ne|].
    eapply agree_trans; [apply (agree_same_groups sb); intros j|apply agree_bindings].
    rewrite lookup_fmap. cbn. destruct (gsGroups st !! j) as [g|] eqn:Eg; [|done]. cbn. f_equal.
    by apply strip_unlisted, (Hl j). }
  eapply agree_trans; [exact Hsd|]. eapply agree_clears_l; [exact Hcl|].
  assert (gsNodes se = gsNodes st) as En by (rewrite (clears_nodes _ _ Hcl); done).
  assert (named se) as Hne' by (unfold named; by rewrite En).
  assert (∀ j x, gsNodes se !! j = Some x → Groups.NodeID (fnNode x) = j) as Hk by (rewrite En; by eapply inv_nodes).
  assert (bindingRulesLocked se n (sbIntent b) = bindingRulesLocked sd n (sbIntent b)) as Er
    by (by destruct Hcl as (m & -> & _)).
  assert (gsGroups se = gsGroups sd) as Eg by (by destruct (clears_groups _ _ Hcl)).
  apply (agree_absent se _ id); try done; [by intros j x [_ ?]%delete_case; eauto| | | |].
  - unfold named. cbn. apply lookup_delete_None. by right.
  - intros j Hj. by rewrite lookup_delete_ne.
  - by rewrite Er.
  - intros gid g Href Hgg. rewrite Er in Href. rewrite Eg in Hgg.
    apply existsb_elem_of in Href as (r & Hin & [Hkind <-]%names_group_true).
    pose proof (existsb_false_elem _ _ _ Hg Hin) as Hf. unfold names_member_group in Hf.
    rewrite (bool_decide_eq_true_2 _ Hkind), Hgg in Hf. cbn [andb] in Hf. split.
    + rewrite (member_known se Hk Hne' _ _ p) by (by rewrite En). by rewrite Hf.
    + intros Hin'. apply elem_of_ResolveMembers in Hin' as [[Hm _]|(y & Hy & _ & Ey)].
      * cbn in Hgg. rewrite lookup_fmap in Hgg. destruct (gsGroups st !! _) as [g0|] eqn:E0; [|done]. cbn in Hgg.
        simplify_eq. rewrite strip_unlisted in Hm by (by eapply Hl). apply mem_spec in Hm. by rewrite (Hl _ _ E0) in Hm.
      * apply elem_of_fleet in Hy as (j & z & Hz & <-). cbn in Hz. apply delete_case in Hz as [Hj Hz].
        apply Hj. rewrite <- Ey. symmetry. by apply Hk.
Qed.

Lemma step_agree_nodes op st n b : guard_inv st → named st → covered st op = true → deletes n op = false →
  anchored st n b → anchored (step op st) n b →
  match op with
  | OpUpsertNode _ | OpUpdateNodeGeo _ _ | OpUpdateNodeMeta _ _ _ | OpUpdateMetrics _ _ _ | OpDeleteNode _ => True
  | _ => False end → agree st (step op st) n (sbIntent b).
Proof.
  intros Hi Hn Hc Hd [Hb _] Ha.
  destruct op as [| | | | | | | | | | | | |x|id geo|id role tags|id pub wg|id]; try done; intros _; cbn [step] in *.
  - unfold UpsertNode in *. cbv zeta in *. cbn in Hc. go_bool. destruct Hc as [Hne Hc].
    destruct (gsNodes st !! _) as [p|] eqn:Ep.
    + eapply agree_clears_r; [|by eapply (agree_node_op st _ p x)].
      eapply only_clears_trans; [|apply clears_membership]. destruct (addr_differs p x); auto using clears_node with lattice.
    + destruct Hc as [Hc|Hc]; [done|]. by apply agree_fresh.
  - unfold UpdateNodeGeo in *. destruct (gsNodes st !! id) as [p|] eqn:Ep; [|apply agree_refl]. cbv zeta in *.
    eapply agree_clears_r; [apply clears_membership|]. apply (agree_node_op st id p); try done.
    + exact (inv_nodes _ Hi _ _ Ep).
    + unfold addr_differs. cbn. by rewrite !bool_decide_eq_true_2.
  - unfold UpdateNodeMeta in *. destruct (gsNodes st !! id) as [p|] eqn:Ep; [|apply agree_refl]. cbv zeta in *.
    eapply agree_clears_r; [apply clears_membership|]. apply (agree_node_op st id p); try done.
    + exact (inv_nodes _ Hi _ _ Ep).
    + unfold addr_differs. cbn. by rewrite !bool_decide_eq_true_2.
  - unfold UpdateMetrics in *. destruct (gsNodes st !! id) as [p|] eqn:Ep; [|apply agree_refl]. cbv zeta in *. cbn [fst] in *.
    set (x := mkFleet (fnNode p) _) in *.
    assert (agree st (set_nodes (<[id := x]> (gsNodes st)) st) n (sbIntent b)) as Hag.
    { apply (agree_node_op st id p); try done; [exact (inv_nodes _ Hi _ _ Ep)|].
      unfold invalidateGuardBindingsForMembershipLocked. destruct (_ =? _)%nat; [done|].
      generalize (map_to_list (gsGroups (if addr_differs p x then
        invalidateGuardBindingsForNodeLocked id (set_nodes (<[id := x]> (gsNodes st)) st)
        else set_nodes (<[id := x]> (gsNodes st)) st))) as l.
      intros l. revert Ha. generalize (if addr_differs p x then
        invalidateGuardBindingsForNodeLocked id (set_nodes (<[id := x]> (gsNodes st)) st)
        else set_nodes (<[id := x]> (gsNodes st)) st) as s. induction l as [|h l IH]; intros s Hs; [done|]. cbn.
      unfold moveMembership at 2. cbn. rewrite eqb_reflx, orb_true_r. by apply IH. }
    destruct (addr_differs p x); [eapply agree_clears_r; [apply clears_node|done]|done].
  - cbn in Hd, Hc. go_bool. destruct (gsNodes st !! id) as [p|] eqn:Ep.
    + apply (agree_delete_node st id p); try done. intros gid g Hg. rewrite forallb_elem_of in Hc.
      specialize (Hc (gid, g)). rewrite elem_of_map_to_list in Hc. by apply negb_true_iff, Hc.
    + unfold deleteNodeGuardRecords. rewrite Ep. apply agree_refl.
Qed.

Lemma step_agree op st n b : guard_inv st → named st → covered st op = true → deletes n op = false →
  anchored st n b → anchored (step op st) n b → agree st (step op st) n (sbIntent b).
Proof.
  intros Hi Hn Hc Hd Hst Ha. pose proof Ha as [_ Hs].
  destruct op as [g|id|z|id|p|id|plans persisted| | | | |i|id| | | | |] eqn:Eop;
    try (by apply step_agree_groups); try (by apply step_agree_nodes); cbn [step] in *.
  - unfold UpsertSecurityGroup in *. cbv zeta in *. destruct (negb _); [apply agree_refl|]. cbn [fst] in *.
    apply where_anchored in Ha as [_ Ht]; [|apply blind_group]. eapply agree_clears_r; [apply clears_group|].
    eapply agree_security_group; [|exact Ht]. intros j Hj. by rewrite lookup_insert_ne.
  - unfold DeleteSecurityGroup in *. destruct (gsSecurityGroups st !! id); [|apply agree_refl].
    destruct (_ || _); [apply agree_refl|]. cbn [fst] in *.
    apply where_anchored in Ha as [_ Ht]; [|apply blind_group]. eapply agree_clears_r; [apply clears_group|].
    eapply agree_security_group; [|exact Ht]. intros j Hj. by rewrite lookup_delete_ne.
  - cbn in Hc. apply negb_true_iff in Hc. apply where_anchored in Ha as [_ Ht]; [|apply blind_zone].
    eapply agree_clears_r; [apply clears_zone|]. eapply agree_zone; [done|exact Hc|intros j Hj; by rewrite lookup_insert_ne|exact Ht].
  - cbn in Hc. apply negb_true_iff in Hc. unfold DeleteGuardZone in *. destruct (gsZones st !! id); [|apply agree_refl].
    apply where_anchored in Ha as [_ Ht]; [|apply blind_zone].
    eapply agree_clears_r; [apply clears_zone|]. eapply agree_zone; [done|exact Hc|intros j Hj; by rewrite lookup_delete_ne|exact Ht].
  - unfold UpsertNodeGuardBinding. cbv zeta. destruct (negb _); [apply agree_refl|apply agree_bindings].
  - unfold DeleteNodeGuardBinding. destruct (gsBindings st !! id); [|apply agree_refl].
    destruct (Managed _); [apply agree_refl|apply agree_bindings].
  - unfold CommitGuardPlans. destruct (stagePlans plans _); [|apply agree_refl].
    destruct persisted; [apply agree_bindings|apply agree_refl].
  - apply invalidate_anchored in Ha as [_ Hne]. eapply agree_clears_r; [apply only_clears_invalidate|].
    apply agree_inputs. by rewrite lookup_insert_ne.
  - unfold DeleteNFTInputs in *. destruct (gsInputs st !! id); [|apply agree_refl].
    apply invalidate_anchored in Ha as [_ Hne]. eapply agree_clears_r; [apply only_clears_invalidate|].
    apply agree_inputs. by rewrite lookup_delete_ne.
Qed.

Lemma step_named op st : covered st op = true → named st → named (step op st).
Proof.
  intros Hc Hn. assert (∀ st1 st2, gsNodes st1 !! "" = None → only_clears st1 st2 → named st2) as Hcl.
  { intros st1 st2 H1 H2. unfold named. by rewrite (clears_nodes _ _ H2). }
  assert (∀ id p x, gsNodes st !! id = Some p → named (set_nodes (<[id := x]> (gsNodes st)) st)) as Hset.
  { intros id p x Hp. unfold named in *. cbn. rewrite lookup_insert_ne; [done|]. intros ->. congruence. }
  destruct op as [g|id|z|id|p|id|plans persisted|gb|gid|g|gid|i|id|x|id geo|id role tags|id pub wg|id]; cbn [step].
  - unfold UpsertSecurityGroup. cbv zeta. destruct (negb _); [done|]. by eapply Hcl; [|apply clears_group].
  - unfold DeleteSecurityGroup. destruct (gsSecurityGroups st !! id); [|done]. destruct (_ || _); [done|].
    by eapply Hcl; [|apply clears_group].
  - by eapply Hcl; [|apply clears_zone].
  - unfold DeleteGuardZone. destruct (gsZones st !! id); [|done]. by eapply Hcl; [|apply clears_zone].
  - unfold UpsertNodeGuardBinding. cbv zeta. by destruct (negb _).
  - unfold DeleteNodeGuardBinding. destruct (gsBindings st !! id); [|done]. by destruct (Managed _).
  - unfold CommitGuardPlans. destruct (stagePlans plans _); [|done]. by destruct persisted.
  - unfold UpsertNodeGroupGuardBinding. destruct (gsGroups st !! _); [|done]. destruct (List.find _ _); [done|].
    cbv zeta. destruct (negb _); [done|]. by eapply Hcl; [|apply clears_node_group].
  - unfold DeleteNodeGroupGuardBinding. destruct (gsGroupBindings st !! gid); [|done].
    by eapply (Hcl st (invalidateGuardBindingsForNodeGroupLocked gid true st)); [|apply clears_node_group].
  - unfold UpsertGroup. cbv zeta. eapply Hcl; [|apply clears_edit]. cbn.
    by eapply (Hcl st (invalidateGuardBindingsForGroupEditLocked (Groups.GroupID (fgGroup g)) st)); [|apply clears_edit].
  - unfold DeleteGroup. destruct (gsGroups st !! gid); [|done]. destruct (groupInUse _ _ _ _ _); [done|].
    by eapply (Hcl st (invalidateGuardBindingsForGroupEditLocked gid st)); [|apply clears_edit].
  - by eapply Hcl; [|apply only_clears_invalidate].
  - unfold DeleteNFTInputs. destruct (gsInputs st !! id); [|done]. by eapply Hcl; [|apply only_clears_invalidate].
  - cbn in Hc. go_bool. destruct Hc as [Hne _]. unfold UpsertNode. cbv zeta. pose proof (named_insert st x Hne Hn) as Hx.
    destruct (gsNodes st !! _) as [p|]; [|done]. eapply Hcl; [|apply clears_membership].
    destruct (addr_differs _ _); [|done]. by rewrite (clears_nodes _ _ (clears_node _ _)).
  - unfold UpdateNodeGeo. destruct (gsNodes st !! id) as [p|] eqn:E; [|done]. cbv zeta.
    eapply Hcl; [|apply clears_membership]. by eapply Hset.
  - unfold UpdateNodeMeta. destruct (gsNodes st !! id) as [p|] eqn:E; [|done]. cbv zeta.
    eapply Hcl; [|apply clears_membership]. by eapply Hset.
  - unfold UpdateMetrics. destruct (gsNodes st !! id) as [p|] eqn:E; [|done]. cbv zeta. cbn [fst].
    destruct (addr_differs _ _); [|by eapply Hset]. eapply Hcl; [|apply clears_node]. by eapply Hset.
  - unfold deleteNodeGuardRecords. destruct (gsNodes st !! id) as [p|] eqn:E; [|done]. cbv zeta. unfold named. cbn.
    rewrite (clears_nodes _ _ (clears_node _ _)). cbn. apply lookup_delete_None. by right.
Qed.
End tracking.

(** ** The anchors *)

Section theorems.
Context `{GuardSdk} `{Quote}.

Lemma run_version n ops st b : covered_run n ops st = true → gsBindings st !! n = Some b →
  ∃ b', gsBindings (run ops st) !! n = Some b' ∧ (b' = b ∨ sbVersion b < sbVersion b').
Proof.
  revert st b. induction ops as [|op ops IH]; intros st b; cbn [covered_run run]; [eauto|].
  rewrite !andb_true_iff, negb_true_iff. intros [[_ Hd] Hr] Hb.
  destruct (version_step op st n b Hb Hd) as (b1 & Hb1 & Ho1). destruct (IH _ _ Hr Hb1) as (b2 & Hb2 & Ho2).
  exists b2. split; [done|]. destruct Ho1 as [->|], Ho2 as [->|]; auto. right. lia.
Qed.

(** C5. The anchor promise.  Take a node whose binding carries a plan anchor
    and any sequence of store operations that does not remove that binding.
    If the version of the binding is the same at the end, then the binding
    itself is, and the ruleset the node's records compile to is the one they
    compiled to at the start; so an approval that passed the freshness check
    still passes it.  The operations are the edits of security groups, zones,
    bindings, batches of plans, node groups and their bindings, baseline
    inputs, nodes, heartbeats and deletions; left out are the edits of the two
    builtin zones every plan starts from, the enrolment of a node that a group
    or a rule already mentions, and the deletion of a node that a group lists
    by name, which clear too little. *)
Theorem anchors_track_compiles ops st n b b' approval closes :
  guard_inv st → named st → covered_run n ops st = true →
  gsBindings st !! n = Some b → LastPlanSHA b ≠ "" →
  gsBindings (run ops st) !! n = Some b' → sbVersion b' = sbVersion b →
  b' = b ∧ currentRuleset (run ops st) n = currentRuleset st n ∧
  (apNodeID approval = n → requireCurrentNetGuardApproval st approval closes = Ok tt →
   requireCurrentNetGuardApproval (run ops st) approval closes = Ok tt).
Proof.
  intros Hi Hn Hc Hb Hs Hb' Hv.
  assert (b' = b ∧ currentRuleset (run ops st) n = currentRuleset st n) as [-> Hr].
  { revert st Hi Hn Hc Hb Hb'. induction ops as [|op ops IH]; intros st Hi Hn Hc Hb Hb'; cbn [covered_run run] in *.
    - split; [congruence|done].
    - apply andb_true_iff in Hc as [Hc Hr]. apply andb_true_iff in Hc as [Hc Hd]. apply negb_true_iff in Hd.
      destruct (version_step op st n b Hb Hd) as (b1 & Hb1 & Ho1). destruct (run_version n ops _ _ Hr Hb1) as (b2 & Hb2 & Ho2).
      assert (b1 = b) as -> by (assert (b2 = b') as -> by congruence; destruct Ho1 as [|], Ho2 as [->|]; auto; lia).
      destruct (IH _ (step_inv op st Hi) (step_named op st Hc Hn) Hr Hb1 Hb') as [-> HR]. split; [done|].
      rewrite HR. symmetry. apply (agree_ruleset _ _ _ b); try done; [by apply step_inv|]. by apply step_agree. }
  split_and!; try done. intros Ha. unfold requireCurrentNetGuardApproval, currentNetGuardPlan.
  rewrite Ha, Hb, Hb', Hr. destruct (negb (isNetGuardApproval approval)); [done|].
  intros [Hg Hk]%guard_Ok. rewrite Hg. cbn. revert Hk. destruct (currentRuleset st n) as [r|] eqn:Er; [|done]. cbn.
  assert (∀ s, currentRuleset s n = Ok r → ∃ i, compileInputSnapshotForSystem s n = Ok i) as Hok.
  { intros s. unfold currentRuleset. destruct (compileInputSnapshotForSystem s n); eauto. done. }
  destruct (Hok _ Er) as [i ->]. destruct (Hok _ Hr) as [i' ->]. done.
Qed.

(** ** The nodes a compile reads *)

Lemma elem_of_remote_nodes st n b x : gsBindings st !! n = Some b →
  x ∈ NetGuardRuleRemoteNodes st n ↔
  (∃ r, r ∈ bindingRulesLocked st n (sbIntent b) ∧ x ∈ remoteNodesOf st r) ∧ x ≠ n ∧ x ≠ "".
Proof.
  intros Hb. unfold NetGuardRuleRemoteNodes. rewrite Hb, elem_of_sorted_set, elem_of_difference.
  assert (∀ l, x ∈ foldr (fun r set => remoteNodesOf st r ∪ set) ∅ l ↔ ∃ r, r ∈ l ∧ x ∈ remoteNodesOf st r) as ->.
  { induction l as [|r l IH]; cbn; [set_solver|]. rewrite elem_of_union, IH. set_solver. }
  set_solver.
Qed.
End theorems.

Section laws.
Context `{GuardSdkLaws} `{Quote}.

Lemma node_not_group : NetRefNode ≠ NetRefGroup.
Proof. pose proof guard_kinds as Hk. repeat (apply NoDup_cons in Hk as [? Hk]). set_solver. Qed.

(** C24. The reach check of the approvals list.  The nodes
    [NetGuardRuleRemoteNodes] lists for a node are all the other nodes its
    compile renders: whatever happens to the addresses of every node that is
    not listed, the ruleset of the node stays the same, so an operator who may
    read the listed nodes learns nothing of the rest from the plan. *)
Theorem remote_nodes_cover_compile st nodes' n b :
  guard_inv st → named st → gsBindings st !! n = Some b →
  (∀ id, fnNode <$> nodes' !! id = fnNode <$> gsNodes st !! id) →
  (∀ id, id = n ∨ id ∈ NetGuardRuleRemoteNodes st n → nodes' !! id = gsNodes st !! id) →
  currentRuleset (set_nodes nodes' st) n = currentRuleset st n.
Proof.
  intros Hi Hn Hb Hf Hr. symmetry. set (st1 := set_nodes nodes' st).
  assert (guard_inv st1) as Hi1.
  { destruct Hi as [H1' H2' H3' H4' H5' H6']. split; try done. intros id x Hx. specialize (Hf id). cbn in Hx. rewrite Hx in Hf.
    destruct (gsNodes st !! id) as [y|] eqn:Ey; [|done]. cbn in Hf. simplify_eq. rewrite Hf. by apply H1'. }
  assert (∀ z, z ∈ fleet st ↔ z ∈ fleet st1) as Hfl.
  { intros z. rewrite !elem_of_fleet. split; intros (id & x & Hx & <-); specialize (Hf id); cbn in *; rewrite Hx in Hf;
      [destruct (nodes' !! id) as [y|] eqn:Ey|destruct (gsNodes st !! id) as [y|] eqn:Ey]; try done;
      cbn in Hf; injection Hf as Hf; eauto. }
  assert (∀ id r, r ∈ bindingRulesLocked st n (sbIntent b) → id ∈ remoteNodesOf st r → gsNodes st !! id = nodes' !! id) as Hsame.
  { intros id r Hin Hid. destruct (decide (id = n)) as [->|]; [symmetry; apply Hr; by left|].
    destruct (decide (id = "")) as [->|]; [|symmetry; apply Hr; right; apply (elem_of_remote_nodes _ _ _ _ Hb); eauto].
    specialize (Hf ""). unfold named in Hn. rewrite Hn in *. by destruct (nodes' !! ""). }
  apply (agree_ruleset _ _ _ b); try done. split; try done; cbn.
  - rewrite (Hr n) by (by left). by destruct (gsNodes st !! n).
  - intros id (r & Hin & [Hk <-]%names_node_true)%existsb_elem_of. f_equal. apply (Hsame _ r Hin).
    unfold remoteNodesOf. rewrite bool_decide_eq_true_2 by done. set_solver.
  - intros gid g (r & Hin & [Hk <-]%names_group_true)%existsb_elem_of Hg. split.
    { apply ResolveMembers_eq. intros x. rewrite !elem_of_ResolveMembers. by setoid_rewrite Hfl. }
    intros m Hm. f_equal. apply (Hsame _ r Hin). unfold remoteNodesOf. rewrite (bool_decide_eq_true_2 _ Hk), Hg.
    case_bool_decide as Hk'; [by destruct node_not_group; rewrite <- Hk, <- Hk'|]. apply elem_of_union.
    apply elem_of_ResolveMembers in Hm as [[Hm _]|(x & Hx & Hsel & <-)];
      [left; by apply elem_of_list_to_set|right]. destruct (Selector (fgGroup g)) eqn:Es; [|done]. cbn.
    apply elem_of_list_to_set, elem_of_filter_ids. exists x. split_and!; try done.
    apply Contains_true. apply elem_of_fleet in Hx as (id & y & Hy & <-).
    pose proof (node_key_nonempty st Hn _ _ Hy). rewrite (inv_nodes _ Hi _ _ Hy). rewrite Es. auto.
Qed.

(** ** Derived groups exist *)

Lemma collect_missing {A} st (idOf : A → string) miss l e : collectGroups st idOf miss l = Err e →
  ∃ a, a ∈ l ∧ e = miss a ∧ gsSecurityGroups st !! idOf a = None.
Proof.
  induction l as [|a l IH]; cbn [collectGroups]; [done|].
  destruct (gsSecurityGroups st !! idOf a) eqn:E.
  - destruct (collectGroups st idOf miss l); [done|]. intros [= ->]. destruct (IH eq_refl) as (a' & ? & ? & ?).
    exists a'. split_and!; try done. by right.
  - intros [= <-]. exists a. split_and!; try done. left.
Qed.
Lemma derived_exist `{!NetSdkLaws} st node own d : guard_inv st → d ∈ derivedGuardGroupsLocked st node own →
  is_Some (gsSecurityGroups st !! dSecurityGroupID d) ∧ dSecurityGroupID d ∉ own.
Proof.
  intros Hi (g & Hin & _ & _ & Hown)%elem_of_derive. split; [|done].
  apply list_elem_of_In, in_flat_map in Hin as ([g' b] & Hb & Hg). apply list_elem_of_In in Hb, Hg.
  rewrite sortSlice_perm in Hb. apply list_elem_of_fmap in Hb as ([gid [g0 b0]] & [= <- <-] & Hl%elem_of_map_to_list).
  rewrite through_lookup in Hl. destruct (gsGroupBindings st !! gid) as [b1|] eqn:Eb; [|done]. cbn in Hl.
  destruct (_ =? _)%nat; [done|]. destruct (gsGroups st !! gid); [|done]. destruct (Contains _ _); [|done]. simplify_eq.
  apply list_elem_of_fmap in Hg as (sg & [= <- ->] & Hsg).
  destruct (inv_group_bindings _ Hi _ _ Eb) as (_ & _ & Hs). by apply Hs.
Qed.

(** C25. References stay whole.  From a store whose records are keyed by their
    own ids and whose node-group bindings name an existing group and existing
    security groups, every sequence of store operations reaches such a store
    again; so the compile of a managed node can never fail because a security
    group it receives through a node group is gone. *)
Theorem guard_records_closed `{!NetSdkLaws} ops st : guard_inv st →
  guard_inv (run ops st) ∧ ∀ n sg g, compileSnapshot (run ops st) n ≠ Err (ErrDerivedGroupNotFound sg g).
Proof.
  intros Hi0. pose proof (run_inv ops st Hi0) as Hi. split; [exact Hi|]. intros n sg g Hs.
  unfold compileSnapshot in Hs. destruct (gsNodes _ !! n) as [x|]; [|done]. cbv zeta in Hs.
  destruct (collectGroups (run ops st) id _ _) as [own|e] eqn:Eo.
  - cbn [mbind res_bind] in Hs. destruct (_ && _); [|done].
    destruct (collectGroups (run ops st) dSecurityGroupID _ _) eqn:Em; [done|].
    apply collect_missing in Em as (d & Hd & -> & Hnone). apply derived_exist in Hd as [[y Hy] _]; [congruence|done].
  - apply collect_missing in Eo as (a & _ & -> & _). done.
Qed.
End laws.

(** ** A concrete fleet *)

(** ** Where the anchor promise stops *)

Section gaps.
Context `{GuardSdk}.

(** Operations that leave the binding [b] of [n] as it is, anchor and version
    included, although [n] may compile to something else afterwards: a node
    that is new to the fleet, a zone that nothing of [n] names (the builtin
    zones are compiled into every plan unnamed), and the deletion of a node
    that no rule of [n] names and that, once it is taken out of the groups'
    member lists, no group a rule of [n] names contains. *)
Definition missed (st : GuardState) (n : string) (b : StoredBinding) (op : guardOp) : bool :=
  match op with
  | OpUpsertNode x => negb (is_some (gsNodes st !! Groups.NodeID (fnNode x)))
  | OpUpsertGuardZone z =>
    negb (mem (zID z) (ZoneIDs (sbIntent b))) && negb (guardRulesReferenceZone (bindingRulesLocked st n (sbIntent b)) (zID z))
  | OpDeleteNode id =>
    let st' := set_bindings (delete id (gsBindings st)) (set_groups (stripMember id <$> gsGroups st)
      (set_beacon (delete id (gsBeacon st)) (set_inputs (delete id (gsInputs st)) st))) in
    negb (id =?? n) && negb (uses_node id st' n b)
  | _ => false
  end.
(** Operations that write the binding of [n] itself. *)
Definition writes (n : string) (op : guardOp) : bool :=
  match op with
  | OpUpsertNodeGuardBinding b => bNodeID (sbIntent b) =?? n
  | OpCommitGuardPlans plans _ => existsb (fun b => bNodeID (sbIntent b) =?? n) plans
  | _ => deletes n op
  end.

Lemma missed_keeps st n b op : gsBindings st !! n = Some b → missed st n b op = true → gsBindings (step op st) !! n = Some b.
Proof.
  intros Hb. destruct op as [| |z| | | | | | | | | | |x| | | |id]; cbn [missed]; try done; cbn [step].
  - intros [H1 H2]%andb_true_iff. unfold UpsertGuardZone, invalidateGuardBindingsForZoneLocked.
    rewrite invalidateWhere_eq by apply blind_zone. cbn [gsBindings set_bindings set_zones]. rewrite clear_where_lookup, Hb. cbn.
    assert (uses_zone (zID z) (set_zones (<[zID z:=z]> (gsZones st)) st) n b = false) as ->; [|done].
    unfold uses_zone. rewrite negb_true_iff in H1, H2. rewrite H1.
    change (bindingRulesLocked (set_zones (<[zID z:=z]> (gsZones st)) st) n (sbIntent b)) with (bindingRulesLocked st n (sbIntent b)).
    rewrite H2. apply andb_false_r.
  - unfold UpsertNode. cbv zeta. by destruct (gsNodes st !! _).
  - intros [H1 H2]%andb_true_iff. apply negb_true_iff, bool_decide_eq_false in H1. unfold deleteNodeGuardRecords.
    destruct (gsNodes st !! id); [|done]. cbv zeta. unfold invalidateGuardBindingsForNodeLocked.
    rewrite invalidateWhere_eq by apply blind_node. apply negb_true_iff in H2.
    change (gsBindings (set_nodes ?m ?s)) with (gsBindings s). change (gsBindings (set_bindings ?m ?s)) with m.
    rewrite clear_where_lookup. change (gsBindings (set_bindings ?m ?s)) with m. rewrite lookup_delete_ne by done.
    change (gsBindings (set_groups _ _)) with (gsBindings st). rewrite Hb. cbn [fmap option_fmap option_map].
    cbn [gsGroups set_beacon set_inputs gsBeacon gsInputs] in *. by rewrite H2.
Qed.

Lemma only_clears_unanchored st st' n b : only_clears st st' → gsBindings st !! n = Some b → LastPlanSHA b = "" →
  gsBindings st' !! n = Some b.
Proof.
  intros (m & -> & Hm) Hb Hs. cbn. destruct (Hm n) as [->| ->]; rewrite Hb; [done|]. cbn. unfold clear.
  by rewrite bool_decide_eq_true_2.
Qed.
Lemma stage_other plans m m' n : stagePlans plans m = Ok m' → existsb (fun b => bNodeID (sbIntent b) =?? n) plans = false →
  m' !! n = m !! n.
Proof.
  revert m. induction plans as [|p plans IH]; intros m; cbn [stagePlans existsb]; [by intros [= ->]|].
  destruct (m !! bNodeID (sbIntent p)); [|done]. intros [_ Hs]%guard_Ok [Hp Hr]%orb_false_iff.
  apply bool_decide_eq_false in Hp. rewrite (IH _ Hs Hr). by rewrite lookup_insert_ne.
Qed.
Lemma unanchored_step op st n b : gsBindings st !! n = Some b → LastPlanSHA b = "" → writes n op = false →
  gsBindings (step op st) !! n = Some b.
Proof.
  intros Hb Hs Hw.
  assert (∀ st1, gsBindings st1 = gsBindings st → ∀ st2, only_clears st1 st2 → gsBindings st2 !! n = Some b) as Hc.
  { intros st1 E st2 H12. eapply only_clears_unanchored; [exact H12| |done]. by rewrite E. }
  destruct op as [g|id|z|id|p|id|plans persisted|gb|gid|g|gid|i|id|x|id geo|id role tags|id pub wg|id]; cbn [step writes] in *.
  - unfold UpsertSecurityGroup. cbv zeta. destruct (negb _); [done|]. eapply Hc; [|apply clears_group]. done.
  - unfold DeleteSecurityGroup. destruct (gsSecurityGroups st !! id); [|done]. destruct (_ || _); [done|].
    eapply Hc; [|apply clears_group]. done.
  - eapply Hc; [|apply clears_zone]. done.
  - unfold DeleteGuardZone. destruct (gsZones st !! id); [|done]. eapply Hc; [|apply clears_zone]. done.
  - unfold UpsertNodeGuardBinding. cbv zeta. destruct (negb _); [done|]. cbn. go_bool. by rewrite lookup_insert_ne.
  - unfold DeleteNodeGuardBinding. destruct (gsBindings st !! id) eqn:E; [|done]. destruct (Managed _); [done|]. cbn.
    cbn in Hw. go_bool. by rewrite lookup_delete_ne.
  - unfold CommitGuardPlans. destruct (stagePlans plans _) as [m|] eqn:E; [|done]. destruct persisted; [|done]. cbn.
    by rewrite (stage_other _ _ _ _ E Hw).
  - unfold UpsertNodeGroupGuardBinding. destruct (gsGroups st !! _); [|done]. destruct (List.find _ _); [done|].
    cbv zeta. destruct (negb _); [done|]. eapply Hc; [|apply clears_node_group]. done.
  - unfold DeleteNodeGroupGuardBinding. destruct (gsGroupBindings st !! gid); [|done]. cbn.
    eapply Hc; [|apply clears_node_group]. done.
  - unfold UpsertGroup. cbv zeta. eapply only_clears_unanchored; [apply clears_edit| |done].
    change (gsBindings (set_groups ?m ?s)) with (gsBindings s). eapply Hc; [|apply clears_edit]. done.
  - unfold DeleteGroup. destruct (gsGroups st !! gid); [|done]. destruct (groupInUse _ _ _ _ _); [done|]. cbn.
    eapply Hc; [|apply clears_edit]. done.
  - eapply Hc; [|apply only_clears_invalidate]. done.
  - unfold DeleteNFTInputs. destruct (gsInputs st !! id); [|done]. eapply Hc; [|apply only_clears_invalidate]. done.
  - unfold UpsertNode. cbv zeta. destruct (gsNodes st !! _); [|done].
    eapply (Hc (set_nodes (<[Groups.NodeID (fnNode x) := x]> (gsNodes st)) st)); [done|].
    eapply only_clears_trans; [|apply clears_membership]. destruct (addr_differs _ _); auto using clears_node with lattice.
  - unfold UpdateNodeGeo. destruct (gsNodes st !! id); [|done]. eapply Hc; [|apply clears_membership]. done.
  - unfold UpdateNodeMeta. destruct (gsNodes st !! id); [|done]. eapply Hc; [|apply clears_membership]. done.
  - unfold UpdateMetrics. destruct (gsNodes st !! id) as [p|]; [|done]. cbv zeta. cbn [fst].
    destruct (addr_differs _ _); [eapply Hc; [|apply clears_node]; done|]. done.
  - unfold deleteNodeGuardRecords. destruct (gsNodes st !! id); [|done]. cbv zeta. cbn in Hw. go_bool.
    change (gsBindings (set_nodes ?m ?s)) with (gsBindings s).
    eapply only_clears_unanchored; [apply clears_node| |done]. cbn. by rewrite lookup_delete_ne.
Qed.
Lemma unanchored_run ops st n b : gsBindings st !! n = Some b → LastPlanSHA b = "" →
  forallb (fun op => negb (writes n op)) ops = true → gsBindings (run ops st) !! n = Some b.
Proof.
  revert st. induction ops as [|op ops IH]; intros st Hb Hs; cbn [forallb run]; [done|].
  intros [Hw Hr]%andb_true_iff. apply negb_true_iff in Hw. apply IH; [|done|done]. by apply unanchored_step.
Qed.
(** A plan whose anchor is on record while its node compiles to another. *)
Lemma stale_refused `{Quote} st a b ruleset : isNetGuardApproval a = true → gsBindings st !! apNodeID a = Some b →
  equal_fold (LastPlanSHA b) (sha256_hex (apPlan a)) = true → LastPlanSHA b ≠ "" →
  currentRuleset st (apNodeID a) = Ok ruleset → equal_fold (sha256_hex ruleset) (sha256_hex (apPlan a)) = false →
  requireCurrentNetGuardApproval st a false = Err DependenciesChanged.
Proof.
  intros Ha Hb He Hs Hr Hne. unfold requireCurrentNetGuardApproval. rewrite Ha, Hb, He. cbn [negb].
  rewrite bool_decide_eq_false_2 by done. cbn [orb guard_err]. unfold currentNetGuardPlan. rewrite Hr. cbn.
  unfold currentRuleset in Hr. destruct (compileInputSnapshotForSystem st (apNodeID a)) as [i|]; [|done]. cbn. by rewrite Hne.
Qed.

(** C38. Where the anchor promise stops, in any state.  The enrolment of a new
    node, the edit of a zone that nothing of the node names and the deletion
    of a node that only member lists name leave a node's binding as it is,
    anchor and version, which is all the lease gate reads; so when the node
    compiles to something else afterwards, the anchor stands for a plan the
    freshness check refuses.  And a plan made for a binding without an anchor
    is stored over any later change of the policy: no sequence of operations
    that does not write the binding itself moves its version, so the write
    passes the version check, and the anchor it leaves may already be one the
    freshness check refuses. *)
Theorem anchor_gaps `{Quote} st n b a : gsBindings st !! n = Some b →
  isNetGuardApproval a = true → apNodeID a = n → sha256_hex (apPlan a) ≠ "" →
  (∀ op, missed st n b op = true → LastPlanSHA b = sha256_hex (apPlan a) →
     gsBindings (step op st) !! n = Some b ∧
     ∀ ruleset, currentRuleset (step op st) n = Ok ruleset → equal_fold (sha256_hex ruleset) (sha256_hex (apPlan a)) = false →
       requireCurrentNetGuardApproval (step op st) a false = Err DependenciesChanged) ∧
  (∀ ops intent, LastPlanSHA b = "" → forallb (fun op => negb (writes n op)) ops = true → bNodeID intent = n →
     let '(st', r) := UpsertNodeGuardBinding (mkStored intent (sbVersion b) (sha256_hex (apPlan a)) "") (run ops st) in
     r = Ok (mkStored intent (sbVersion b + 1) (sha256_hex (apPlan a)) "") ∧
     ∀ ruleset, currentRuleset st' n = Ok ruleset → equal_fold (sha256_hex ruleset) (sha256_hex (apPlan a)) = false →
       requireCurrentNetGuardApproval st' a false = Err DependenciesChanged).
Proof.
  intros Hb Ha <- Hsha. assert (∀ s, equal_fold s s = true) as Hfold by (intros s; by apply bool_decide_eq_true). split.
  - intros op Hm Hs. pose proof (missed_keeps st _ b op Hb Hm) as Hb'. split; [done|]. intros ruleset Hr Hne.
    apply (stale_refused _ a b ruleset); try done; rewrite Hs; [apply Hfold|done].
  - intros ops intent Hs Hw Hi. pose proof (unanchored_run ops st _ b Hb Hs Hw) as Hb'. unfold UpsertNodeGuardBinding.
    cbn [sbIntent sbVersion LastPlanSHA LastError]. rewrite Hi, Hb', Z.eqb_refl. cbn [negb]. split; [done|]. intros ruleset Hr Hne.
    eapply stale_refused; [done|cbn; apply lookup_insert_eq|apply Hfold|done|exact Hr|exact Hne].
Qed.
End gaps.

Module AnchorDemo.
#[export] Existing Instance NetDemo.net_sdk.
#[export] Existing Instance GuardDemo.guard_sdk.
#[export] Existing Instance simple_quote.
Definition node (id : string) (tags : list string) (ip : string) : FleetNode :=
  mkFleet (mkNode id tags "" None) (mkGuardNode ip "").
Definition group (id : string) (members tags : list string) : FleetGroup :=
  mkFleetGroup (mkGroup id id members (match tags with [] => None | _ => Some (mkSelector tags [] [] []) end)) "" "".
Definition from_group (id g : string) (port : Z) : GuardRule :=
  GuardDemo.rule id "allow" "tcp" [mkRange port port] (mkGuardEnd "group" "" "" g "").
Definition intent : NodeGuardBinding := mkBinding "n1" ["sg"] [] [from_group "o" "g" 22] true.
(** [n1] is managed: its override admits the listed group [g], its own
    security group the selected group [edge], and [g] binds one more. *)
Definition fleet_with (binding : StoredBinding) : GuardState :=
  mkState {["n1" := node "n1" [] "10.66.0.1"; "n2" := node "n2" [] "10.66.0.2"; "n3" := node "n3" ["edge"] "10.66.0.3";
            "n4" := node "n4" [] "10.66.0.4"]}
    {["g" := group "g" ["n2"; "n1"] []; "edge" := group "edge" [] ["edge"]]} ∅ ∅
    {["sg" := mkStoredGroup (mkSecurityGroup "sg" [from_group "e" "edge" 443]) 1;
      "more" := mkStoredGroup (mkSecurityGroup "more" [GuardDemo.rule "z" "allow" "udp" [mkRange 53 53] (GuardDemo.zone "office")]) 1]}
    {["office" := mkZone "office" [] ["198.51.100.0/24"]]} ∅ {["n1" := binding]}
    {["g" := mkGroupBinding "g" ["more"] 1]} ∅.
Definition unplanned : GuardState := fleet_with (mkStored intent 1 "" "").
Definition plan : string :=
  Eval vm_compute in match currentRuleset unplanned "n1" with Ok r => r | Err _ => "" end.
Definition anchor : string := Eval vm_compute in sha256_hex plan.
Definition approval : Approval := mkApproval "n1" "nft" netGuardApprovalAction plan.
Definition planned (version : Z) : StoredBinding := mkStored intent version anchor "".
Definition st : GuardState := fleet_with (planned 2).
Lemma st_inv : guard_inv st.
Proof.
  split; cbn; intros id x Hx; repeat (apply insert_case in Hx as [[-> ->]|Hx]; [by vm_compute|]);
    try (by rewrite lookup_empty in Hx).
  apply lookup_singleton_Some in Hx as [<- <-]. split_and!; [done|by vm_compute; eexists|].
  intros sg ->%list_elem_of_singleton. by vm_compute; eexists.
Qed.
Definition ops : list guardOp :=
  [OpUpdateMetrics "n4" "" "10.66.0.9"; OpUpsertGuardZone (mkZone "lab" [] ["203.0.113.0/24"]);
   OpUpsertNode (node "n9" [] "10.66.0.99"); OpDeleteSecurityGroup "sg"].

Lemma anchors_track_compiles_witness :
  planned 2 = planned 2 ∧ currentRuleset (run ops st) "n1" = currentRuleset st "n1" ∧
  (apNodeID approval = "n1" → requireCurrentNetGuardApproval st approval false = Ok tt →
   requireCurrentNetGuardApproval (run ops st) approval false = Ok tt).
Proof.
  apply (anchors_track_compiles ops st "n1" (planned 2) (planned 2) approval false st_inv); try done; by vm_compute.
Defined.

Lemma remote_nodes_cover_compile_witness :
  currentRuleset (set_nodes (<["n4" := node "n4" [] "192.0.2.4"]> (gsNodes st)) st) "n1" = currentRuleset st "n1".
Proof.
  apply (@remote_nodes_cover_compile _ _ GuardDemo.guard_laws _ st _ "n1" (planned 2) st_inv); [done|done| |].
  - intros id. destruct (decide (id = "n4")) as [->|]; [by vm_compute|by rewrite lookup_insert_ne].
  - intros id Hid. rewrite lookup_insert_ne; [done|]. intros <-.
    destruct Hid as [Hid|Hid]; [done|]. apply mem_spec in Hid. revert Hid. vm_compute. discriminate.
Defined.

Lemma guard_records_closed_witness :
  guard_inv (run ops st) ∧ ∀ n sg g, compileSnapshot (run ops st) n ≠ Err (ErrDerivedGroupNotFound sg g).
Proof. exact (@guard_records_closed _ _ NetDemo.net_laws ops st st_inv). Defined.

(** Three edits the clearing misses: the zone every plan's peer set is taken
    from, the deletion of a node a group lists by name, and the enrolment of
    a node a selector picks up. *)
Definition missed_edits : list guardOp :=
  [OpUpsertGuardZone (mkZone "wireguard" [] ["10.99.0.0/16"]); OpDeleteNode "n2"; OpUpsertNode (node "n9" ["edge"] "10.66.0.99")].
(** An edit of the node's own security group. *)
Definition edit : StoredSecurityGroup := mkStoredGroup (mkSecurityGroup "sg" [from_group "e" "edge" 8443]) 1.
Definition edited_rules : string :=
  Eval vm_compute in match currentRuleset (UpsertNodeGuardBinding (planned 1) (run [OpUpsertSecurityGroup edit] unplanned)).1 "n1" with
                     | Ok r => r | Err _ => "" end.
Example missed_edits_change :
  forallb (fun op => missed st "n1" (planned 2) op &&
    match currentRuleset (step op st) "n1" with Ok r => negb (equal_fold (sha256_hex r) anchor) | Err _ => false end) missed_edits = true.
Proof. by vm_compute. Qed.
Lemma anchor_gaps_witness :
  (UpsertNodeGuardBinding (planned 1) (run [OpUpsertSecurityGroup edit] unplanned)).2 = Ok (planned 2) ∧
  requireCurrentNetGuardApproval (UpsertNodeGuardBinding (planned 1) (run [OpUpsertSecurityGroup edit] unplanned)).1 approval false
    = Err DependenciesChanged.
Proof.
  destruct (anchor_gaps unplanned "n1" (mkStored intent 1 "" "") approval) as [_ H];
    [by vm_compute|by vm_compute|done|by vm_compute|].
  specialize (H [OpUpsertSecurityGroup edit] intent eq_refl eq_refl eq_refl).
  assert (sha256_hex (apPlan approval) = anchor) as Ea by (by vm_compute). rewrite Ea in H.
  change (mkStored intent (sbVersion (mkStored intent 1 "" "")) anchor "") with (planned 1) in H.
  assert (currentRuleset (UpsertNodeGuardBinding (planned 1) (run [OpUpsertSecurityGroup edit] unplanned)).1 "n1" = Ok edited_rules)
    as Hr by (by vm_compute).
  destruct (UpsertNodeGuardBinding (planned 1) (run [OpUpsertSecurityGroup edit] unplanned)) as [st' r].
  destruct H as [H1 H2]. split; [exact H1|]. apply (H2 edited_rules Hr). by vm_compute.
Defined.
End AnchorDemo.
