(* ===== verification/Outbound.v ===== *)
(** * Requests to addresses other people choose ([internal/outbound/outbound.go])

    The guard of webhook and operator clients: which addresses may be
    dialled, name resolution under a policy, the dial loop, redirects, and the
    binding of an operator target to a base URL.  Addresses are [net.IP] byte
    slices, [nil] the empty one.  Name resolution, connection attempts and the
    peers' answers are an environment that may answer every question
    differently each time. *)

From Stdlib Require Import ZArith Lia Ascii.
From S2P Require Import Prelude GoStr IpAddr IpNet.

Local Open Scope Z_scope.

(** ** Address classes of package [net] *)

Definition byte_at (i : nat) (b : list Z) : Z := default 0 (b !! i).
(** [IP.Equal]: an IPv4 address equals its mapped form. *)
Definition ip_equal (ip x : list Z) : bool :=
  if (length ip =? length x)%nat then ip =?? x
  else if ((length ip =? 4) && (length x =? 16))%nat then x =?? v4_prefix ++ ip
  else if ((length ip =? 16) && (length x =? 4))%nat then ip =?? v4_prefix ++ x
  else false.
Definition IPv4 (a b c d : Z) : list Z := v4_prefix ++ [a; b; c; d].
Definition ip_unspecified (ip : list Z) : bool := ip_equal ip (IPv4 0 0 0 0) || ip_equal ip (replicate 16 0).
Definition ip_loopback (ip : list Z) : bool :=
  match To4 ip with Some b => byte_at 0 b =? 127 | None => ip_equal ip (replicate 15 0 ++ [1]) end.
Definition ip_private (ip : list Z) : bool :=
  match To4 ip with
  | Some b => (byte_at 0 b =? 10) || ((byte_at 0 b =? 172) && (Z.land (byte_at 1 b) 240 =? 16)) ||
              ((byte_at 0 b =? 192) && (byte_at 1 b =? 168))
  | None => (length ip =? 16)%nat && (Z.land (byte_at 0 ip) 254 =? 252)
  end.
Definition ip_multicast (ip : list Z) : bool :=
  match To4 ip with
  | Some b => Z.land (byte_at 0 b) 240 =? 224
  | None => (length ip =? 16)%nat && (byte_at 0 ip =? 255)
  end.
Definition ip_interface_local_multicast (ip : list Z) : bool :=
  (length ip =? 16)%nat && (byte_at 0 ip =? 255) && (Z.land (byte_at 1 ip) 15 =? 1).
Definition ip_link_local_multicast (ip : list Z) : bool :=
  match To4 ip with
  | Some b => (byte_at 0 b =? 224) && (byte_at 1 b =? 0) && (byte_at 2 b =? 0)
  | None => (length ip =? 16)%nat && (byte_at 0 ip =? 255) && (Z.land (byte_at 1 ip) 15 =? 2)
  end.
Definition ip_link_local_unicast (ip : list Z) : bool :=
  match To4 ip with
  | Some b => (byte_at 0 b =? 169) && (byte_at 1 b =? 254)
  | None => (length ip =? 16)%nat && (byte_at 0 ip =? 254) && (Z.land (byte_at 1 ip) 192 =? 128)
  end.
Definition AddrFromSlice (ip : list Z) : option addr :=
  if (length ip =? 4)%nat then Some (A4 ip) else if (length ip =? 16)%nat then Some (A16 ip) else None.
Definition metadata_ip : list Z := IPv4 169 254 169 254.
Definition broadcast_ip : list Z := IPv4 255 255 255 255.

(** ** The guard on one address *)

Definition blockedSpecialUsePrefixes : list Prefix :=
  Eval vm_compute in
  omap ParsePrefix ["100.64.0.0/10"; "192.0.2.0/24"; "198.18.0.0/15"; "198.51.100.0/24"; "203.0.113.0/24"; "2001:db8::/32"].
Definition nat64WellKnownPrefix : Prefix :=
  Eval vm_compute in default (mkPrefix (A4 []) 0) (ParsePrefix "64:ff9b::/96").
Definition embeddedNAT64IPv4 (ip : list Z) : option (list Z) :=
  a ← AddrFromSlice ip;
  match Unmap a with
  | A4 _ => None
  | A16 b => if Contains nat64WellKnownPrefix (A16 b) then Some (IPv4 (byte_at 12 b) (byte_at 13 b) (byte_at 14 b) (byte_at 15 b))
             else None
  end.
(** [None]: the recursion did not end within the fuel. *)
Fixpoint isBlockedIP_go (fuel : nat) (ip : list Z) : option bool :=
  match fuel with
  | O => None
  | S fuel =>
    if (length ip =? 0)%nat then Some true else
    match embeddedNAT64IPv4 ip with
    | Some v4 => isBlockedIP_go fuel v4
    | None => Some (
      if ip_loopback ip || ip_unspecified ip || ip_link_local_unicast ip || ip_link_local_multicast ip || ip_multicast ip ||
         ip_private ip then true
      else if ip_equal ip metadata_ip then true
      else match AddrFromSlice ip with
           | Some a => existsb (fun p => Contains p (Unmap a)) blockedSpecialUsePrefixes
           | None => false
           end)
    end
  end.
Definition isBlockedIP (ip : list Z) : bool := default true (isBlockedIP_go 2 ip).
Fixpoint isBlockedOperatorIP_go (fuel : nat) (ip : list Z) : option bool :=
  match fuel with
  | O => None
  | S fuel =>
    match embeddedNAT64IPv4 ip with
    | Some v4 => isBlockedOperatorIP_go fuel v4
    | None => Some (
      if (length ip =? 0)%nat || ip_unspecified ip || ip_link_local_unicast ip || ip_link_local_multicast ip ||
         ip_interface_local_multicast ip || ip_multicast ip then true
      else ip_equal ip metadata_ip || ip_equal ip broadcast_ip)
    end
  end.
Definition isBlockedOperatorIP (ip : list Z) : bool := default true (isBlockedOperatorIP_go 2 ip).

Definition blocked (s : string) : bool := match ParseIP s with Some ip => isBlockedIP ip | None => true end.
Definition op_blocked (s : string) : bool := match ParseIP s with Some ip => isBlockedOperatorIP ip | None => true end.
Example blocked_table :
  map blocked ["127.0.0.1"; "10.0.0.1"; "172.31.0.1"; "192.168.1.1"; "169.254.169.254"; "64:ff9b::7f00:1"; "64:ff9b::a00:1";
               "::ffff:10.0.0.1"; "::1"; "fe80::1"; "fd00::1"; "ff02::1"; "100.64.0.1"; "203.0.113.9"; "2001:db8::1"; "::"; "0.0.0.0"]
  = replicate 17 true ∧
  map blocked ["1.1.1.1"; "172.32.0.1"; "2606:4700::1111"; "64:ff9b::101:101"; "255.255.255.255"] = replicate 5 false ∧
  map op_blocked ["127.0.0.1"; "10.0.0.1"; "::1"; "100.64.0.1"; "fd00::1"] = replicate 5 false ∧
  map op_blocked ["169.254.169.254"; "64:ff9b::a9fe:a9fe"; "0.0.0.0"; "fe80::1"; "ff01::1"; "255.255.255.255"] = replicate 6 true.
Proof. vm_compute. done. Qed.

(** ** Where an address leads, and what is off limits *)

Definition wf_ip (ip : list Z) : Prop := wf_bytes 4 ip ∨ wf_bytes 16 ip.
(** Mapped and NAT64 addresses lead to the IPv4 address inside. *)
Definition reaches (ip : list Z) : option addr :=
  a ← AddrFromSlice ip;
  match Unmap a with
  | A4 b => Some (A4 b)
  | A16 b => Some (if Contains nat64WellKnownPrefix (A16 b) then A4 (drop 12 b) else A16 b)
  end.
Definition multicast_link_local : list Prefix :=
  Eval vm_compute in
  omap ParsePrefix ["0.0.0.0/32"; "::/128"; "169.254.0.0/16"; "fe80::/10"; "224.0.0.0/4"; "ff00::/8"].
Definition local_private : list Prefix :=
  Eval vm_compute in
  omap ParsePrefix ["127.0.0.0/8"; "::1/128"; "10.0.0.0/8"; "172.16.0.0/12"; "192.168.0.0/16"; "fc00::/7"].
Definition broadcast : list Prefix := Eval vm_compute in omap ParsePrefix ["255.255.255.255/32"].
Definition within (ps : list Prefix) (a : addr) : bool := existsb (fun p => Contains p a) ps.
Definition forbidden : list Prefix := local_private ++ multicast_link_local ++ blockedSpecialUsePrefixes.
Definition operator_forbidden : list Prefix := multicast_link_local ++ broadcast.

Fixpoint bits_agree (n : Z) (i : nat) (l k : list Z) : bool :=
  match l, k with
  | x :: l, y :: k => (mask_byte n i x =? mask_byte n i y) && bits_agree n (S i) l k
  | [], [] => true
  | _, _ => false
  end.
Lemma mask_agree n l k : (mask_bytes n l =?? mask_bytes n k) = bits_agree n 0 l k.
Proof.
  unfold mask_bytes. assert (∀ i, (imap (λ j, mask_byte n (i + j)) l =?? imap (λ j, mask_byte n (i + j)) k) = bits_agree n i l k) as H.
  { revert k. induction l as [|x l IH]; intros [|y k] i; try done. cbn [imap bits_agree]. rewrite Nat.add_0_r.
    assert (∀ m : list Z, imap ((λ j, mask_byte n (i + j)) ∘ S) m = imap (λ j, mask_byte n (S i + j)) m) as E.
    { intros m. apply imap_ext. intros j z _. cbn. f_equal. lia. }
    rewrite !E, <- IH. destruct (Z.eqb_spec (mask_byte n i x) (mask_byte n i y)) as [->|Hne]; cbn [andb].
    - apply bool_decide_ext. split; [by intros [=]|congruence].
    - apply bool_decide_eq_false. congruence. }
  exact (H 0%nat).
Qed.
Lemma mask_byte_none n i x : n <= 8 * Z.of_nat i → mask_byte n i x = 0.
Proof.
  intros Hn. unfold mask_byte. replace (Z.max 0 (Z.min 8 (n - 8 * Z.of_nat i))) with 0 by lia. cbn. apply Z.land_0_r.
Qed.
Lemma bits_agree_tail n i l k : n <= 8 * Z.of_nat i → length l = length k → bits_agree n i l k = true.
Proof.
  revert i k. induction l as [|x l IH]; intros i [|y k] Hn Hl; try done. cbn [bits_agree].
  rewrite !mask_byte_none, IH by (done || lia || (cbn in Hl; lia)). done.
Qed.
Lemma bits_agree2 n x0 x1 l b0 b1 k : n <= 16 → length l = length k →
  bits_agree n 0 (x0 :: x1 :: l) (b0 :: b1 :: k) = (mask_byte n 0 x0 =? mask_byte n 0 b0) && (mask_byte n 1 x1 =? mask_byte n 1 b1).
Proof.
  intros Hn Hl. change (bits_agree n 0 (x0 :: x1 :: l) (b0 :: b1 :: k)) with
    ((mask_byte n 0 x0 =? mask_byte n 0 b0) && ((mask_byte n 1 x1 =? mask_byte n 1 b1) && bits_agree n 2 l k)).
  rewrite bits_agree_tail by (done || lia). by rewrite andb_true_r.
Qed.
Lemma Contains_v4 x n b : wf_bytes 4 b → length x = 4%nat → Contains (mkPrefix (A4 x) n) (A4 b) = bits_agree n 0 x b.
Proof. intros _ _. unfold Contains. cbn [pAddr pBits BitLen addr_bytes]. apply mask_agree. Qed.
Lemma Contains_v6 x n b : Contains (mkPrefix (A16 x) n) (A16 b) = bits_agree n 0 x b.
Proof. unfold Contains. cbn [pAddr pBits BitLen addr_bytes]. apply mask_agree. Qed.
Lemma Contains_46 x n b : Contains (mkPrefix (A4 x) n) (A16 b) = false.
Proof. done. Qed.
Lemma Contains_64 x n b : Contains (mkPrefix (A16 x) n) (A4 b) = false.
Proof. done. Qed.
Lemma Contains_host x b : wf_bytes 4 x → wf_bytes 4 b → Contains (mkPrefix (A4 x) 32) (A4 b) = (b =?? x).
Proof.
  intros Hx Hb. unfold Contains. cbn [pAddr pBits BitLen addr_bytes]. rewrite !(mask_all 4) by (done || lia). cbn [Z.eqb andb].
  apply bool_decide_ext. done.
Qed.
Lemma Contains_host6 x b : wf_bytes 16 x → wf_bytes 16 b → Contains (mkPrefix (A16 x) 128) (A16 b) = (b =?? x).
Proof.
  intros Hx Hb. unfold Contains. cbn [pAddr pBits BitLen addr_bytes]. rewrite !(mask_all 16) by (done || lia). cbn [Z.eqb andb].
  apply bool_decide_ext. done.
Qed.
Ltac masks := cbn [bits_agree];
  repeat match goal with
  | |- context [mask_byte ?n ?i ?x] =>
    first [rewrite (mask_byte_none n i x) by lia | rewrite (mask_byte_id n i x) by (done || lia || (unfold byte_range; lia))]
  end;
  rewrite ?Z.eqb_refl, ?andb_true_r.

(** The classes of an IPv4 address, by prefix. *)
Lemma classes_v4 ip b :
  wf_bytes 4 b → To4 ip = Some b → wf_ip ip →
  ip_loopback ip || ip_private ip = within local_private (A4 b) ∧
  ip_unspecified ip || ip_link_local_unicast ip || ip_multicast ip = within multicast_link_local (A4 b) ∧
  ip_equal ip broadcast_ip = within broadcast (A4 b) ∧
  (ip_link_local_multicast ip = true → ip_multicast ip = true) ∧ ip_interface_local_multicast ip = false ∧
  (ip_equal ip metadata_ip = true → ip_link_local_unicast ip = true).
Proof.
  intros Hb Ht Hip.
  assert (∀ x y z w, ip_equal ip (IPv4 x y z w) = (b =?? [x; y; z; w])) as Heq.
  { intros x y z w. unfold ip_equal, IPv4. destruct Hip as [Hip|Hip].
    - rewrite To4_4 in Ht by done. assert (ip = b) as -> by congruence. rewrite (proj1 Hip). cbn. apply bool_decide_ext.
      split; [intros E; by apply (inj (app v4_prefix)) in E|congruence].
    - rewrite To4_16 in Ht by done. destruct (mapped ip) eqn:Em; [|done]. rewrite (mapped_join ip Em).
      assert (drop 12 ip = b) as -> by congruence. rewrite length_app, (proj1 Hb). cbn. apply bool_decide_ext.
      split; [intros E; by apply (inj (app v4_prefix)) in E|congruence]. }
  assert (ip_equal ip (replicate 16 0) = false) as Hz.
  { unfold ip_equal. destruct Hip as [Hip|Hip].
    - rewrite (proj1 Hip). cbn [length replicate Nat.eqb andb]. apply bool_decide_eq_false. done.
    - rewrite (proj1 Hip). cbn [length replicate Nat.eqb]. apply bool_decide_eq_false. intros ->. done. }
  unfold ip_loopback, ip_private, ip_unspecified, ip_link_local_unicast, ip_multicast, ip_link_local_multicast, metadata_ip, broadcast_ip.
  rewrite Ht, !Heq, Hz. pose proof Hb as (b0 & b1 & b2 & b3 & -> & B0 & B1 & B2 & B3)%wf_bytes_4. unfold byte_at. cbn [lookup list_lookup default from_option]. unfold id.
  unfold within, local_private, multicast_link_local, broadcast. cbn [existsb].
  rewrite !Contains_64, !Contains_host by (done || by repeat constructor). rewrite !Contains_v4 by done. masks.
  split_and!.
  - change (mask_byte 12 1 16) with 16. change (mask_byte 12 1 b1) with (Z.land b1 240).
    rewrite ?(Z.eqb_sym 127), ?(Z.eqb_sym 10), ?(Z.eqb_sym 172), ?(Z.eqb_sym 192), ?(Z.eqb_sym 168), ?(Z.eqb_sym 16).
    rewrite !orb_false_r, !orb_false_l. by rewrite !orb_assoc.
  - change (mask_byte 4 0 224) with 224. change (mask_byte 4 0 b0) with (Z.land b0 240).
    rewrite ?(Z.eqb_sym 169), ?(Z.eqb_sym 254), ?(Z.eqb_sym 224). rewrite !orb_false_r, !orb_false_l. by rewrite !orb_assoc.
  - by rewrite orb_false_r.
  - intros [[E _]%andb_true_iff _]%andb_true_iff. apply Z.eqb_eq in E as ->. done.
  - unfold ip_interface_local_multicast. destruct Hip as [Hip|Hip]; [by rewrite (proj1 Hip)|].
    rewrite To4_16 in Ht by done. destruct (mapped ip) eqn:Em; [|done]. rewrite (mapped_join ip Em). by rewrite andb_comm.
  - intros E. apply bool_decide_eq_true in E as [= -> -> -> ->]. done.
Qed.
(** The classes of an IPv6 address, by prefix. *)
Lemma classes_v6 ip :
  wf_bytes 16 ip → mapped ip = false →
  ip_loopback ip || ip_private ip = within local_private (A16 ip) ∧
  ip_unspecified ip || ip_link_local_unicast ip || ip_multicast ip = within multicast_link_local (A16 ip) ∧
  ip_equal ip broadcast_ip = within broadcast (A16 ip) ∧
  (ip_link_local_multicast ip = true → ip_multicast ip = true) ∧ (ip_interface_local_multicast ip = true → ip_multicast ip = true) ∧
  ip_equal ip metadata_ip = false.
Proof.
  intros Hb Hm. assert (To4 ip = None) as Ht by (by rewrite To4_16, Hm).
  assert (∀ x y z w, ip_equal ip (IPv4 x y z w) = false) as Heq.
  { intros x y z w. unfold ip_equal. rewrite (proj1 Hb). cbn [length IPv4 app Nat.eqb]. apply bool_decide_eq_false. intros ->. done. }
  assert (∀ x, length x = 16%nat → ip_equal ip x = (ip =?? x)) as He by (intros x Hx; unfold ip_equal; by rewrite (proj1 Hb), Hx).
  unfold ip_loopback, ip_private, ip_unspecified, ip_link_local_unicast, ip_multicast, ip_link_local_multicast, ip_interface_local_multicast, metadata_ip, broadcast_ip.
  rewrite Ht, !Heq, !He by done. rewrite (proj1 Hb). cbn [Nat.eqb andb orb].
  assert (∀ n, wf_bytes 16 (replicate 15 0 ++ [n]) ↔ byte_range n) as Hz.
  { intros n. unfold wf_bytes. rewrite Forall_app, Forall_singleton, length_app, length_replicate. cbn. split; [tauto|].
    intros Hn. split_and!; [done| |done]. by repeat (constructor; [unfold byte_range; lia|]). }
  unfold within, local_private, multicast_link_local, broadcast. cbn [existsb]. rewrite !Contains_46.
  rewrite (Contains_host6 _ ip) by (done || apply (Hz 1); unfold byte_range; lia).
  rewrite (Contains_host6 _ ip) by (done || apply (Hz 0); unfold byte_range; lia).
  rewrite !Contains_v6. destruct Hb as [Hl Hb]. destruct ip as [|b0 [|b1 tl]]; [done..|]. unfold byte_at. cbn [lookup list_lookup default from_option].
  unfold id. rewrite !Forall_cons in Hb. destruct Hb as (B0 & B1 & _). cbn [length] in Hl.
  rewrite !bits_agree2 by (lia || (cbn [length]; lia)). masks. split_and!.
  - change (mask_byte 7 0 252) with 252. change (mask_byte 7 0 b0) with (Z.land b0 254). rewrite (Z.eqb_sym 252). by rewrite !orb_false_r.
  - change (mask_byte 10 1 128) with 128. change (mask_byte 10 1 b1) with (Z.land b1 192).
    rewrite (Z.eqb_sym 254), (Z.eqb_sym 128), (Z.eqb_sym 255). rewrite !orb_false_r, !orb_false_l. by rewrite !orb_assoc.
  - done.
  - by intros [E _]%andb_true_iff.
  - by intros [E _]%andb_true_iff.
  - done.
Qed.

Lemma embedded_v4 a b c d : embeddedNAT64IPv4 (IPv4 a b c d) = None.
Proof. reflexivity. Qed.
Lemma nat64_bytes ip b : wf_bytes 16 ip → embeddedNAT64IPv4 ip = Some b →
  b = v4_prefix ++ drop 12 ip ∧ mapped ip = false ∧ Contains nat64WellKnownPrefix (A16 ip) = true.
Proof.
  intros [Hl _]. unfold embeddedNAT64IPv4, AddrFromSlice. rewrite Hl. cbn [Nat.eqb mbind option_bind]. unfold Unmap, mapped.
  destruct (take 12 ip =?? v4_prefix); [done|]. destruct (Contains _ _); [|done]. intros [= <-]. split; [|done].
  do 16 (destruct ip as [|? ip]; [done|]). by destruct ip.
Qed.
Lemma embedded_None ip : wf_ip ip → embeddedNAT64IPv4 ip = None →
  reaches ip = Unmap <$> AddrFromSlice ip.
Proof.
  intros Hip. unfold embeddedNAT64IPv4, reaches. destruct (AddrFromSlice ip) as [a|]; [|done]. cbn [mbind option_bind fmap option_fmap option_map].
  destruct (Unmap a); [done|]. by destruct (Contains _ _).
Qed.
(** One address without a NAT64 layer. *)
Lemma judge ip :
  wf_ip ip → embeddedNAT64IPv4 ip = None →
  ∃ a, reaches ip = Some a ∧ isBlockedIP_go 1 ip = Some (within forbidden a) ∧ isBlockedOperatorIP_go 1 ip = Some (within operator_forbidden a).
Proof.
  intros Hip He. rewrite (embedded_None ip Hip He). cbn [isBlockedIP_go isBlockedOperatorIP_go]. rewrite He.
  assert ((length ip =? 0)%nat = false) as -> by (by destruct Hip as [[-> _]|[-> _]]). cbn [orb].
  assert (∃ a, Unmap <$> AddrFromSlice ip = Some a ∧ AddrFromSlice ip ≠ None ∧
    ip_loopback ip || ip_private ip = within local_private a ∧
    ip_unspecified ip || ip_link_local_unicast ip || ip_multicast ip = within multicast_link_local a ∧
    ip_equal ip broadcast_ip = within broadcast a ∧ (ip_link_local_multicast ip = true → ip_multicast ip = true) ∧
    (ip_interface_local_multicast ip = true → ip_multicast ip = true) ∧
    (ip_equal ip metadata_ip = true → ip_link_local_unicast ip = true)) as (a & Ea & Hn & C1 & C2 & C3 & C4 & C5 & C6).
  { unfold AddrFromSlice, Unmap. destruct Hip as [Hip|Hip]; rewrite (proj1 Hip); cbn [Nat.eqb fmap option_fmap option_map].
    - destruct (classes_v4 ip ip Hip (To4_4 _ Hip) (or_introl Hip)) as (? & ? & ? & ? & E & ?). eexists. split_and!; try done. congruence.
    - fold (mapped ip). destruct (mapped ip) eqn:Em.
      + destruct (classes_v4 ip (drop 12 ip)) as (? & ? & ? & ? & E & ?); [by apply wf_bytes_drop12|by rewrite To4_16, Em|by right|].
        eexists. split_and!; try done. congruence.
      + destruct (classes_v6 ip Hip Em) as (? & ? & ? & ? & ? & E). eexists. split_and!; try done. congruence. }
  exists a. split; [done|]. destruct (AddrFromSlice ip) as [a'|]; [|done]. cbn in Ea. assert (Unmap a' = a) as -> by congruence.
  unfold within, forbidden, operator_forbidden. rewrite !existsb_app. unfold within in C1, C2, C3. rewrite <- C1, <- C2, <- C3.
  revert C4 C5 C6. set (sp := existsb _ _).
  destruct (ip_loopback ip), (ip_unspecified ip), (ip_link_local_unicast ip), (ip_link_local_multicast ip), (ip_multicast ip), (ip_private ip),
    (ip_equal ip metadata_ip), (ip_interface_local_multicast ip), sp, (ip_equal ip broadcast_ip); intros C4 C5 C6;
    try (by discriminate C4); try (by discriminate C5); try (by discriminate C6); done.
Qed.
Lemma go_more n ip r : (isBlockedIP_go n ip = Some r → isBlockedIP_go (S n) ip = Some r) ∧
  (isBlockedOperatorIP_go n ip = Some r → isBlockedOperatorIP_go (S n) ip = Some r).
Proof.
  revert ip. induction n as [|n IH]; intros ip; [done|]. split.
  - cbn [isBlockedIP_go]. destruct (length ip =? 0)%nat; [done|]. destruct (embeddedNAT64IPv4 ip); [apply IH|done].
  - cbn [isBlockedOperatorIP_go]. destruct (embeddedNAT64IPv4 ip); [apply IH|done].
Qed.
Lemma judged ip :
  wf_ip ip → ∃ a, reaches ip = Some a ∧ isBlockedIP_go 2 ip = Some (within forbidden a) ∧
    isBlockedOperatorIP_go 2 ip = Some (within operator_forbidden a).
Proof.
  intros Hip. destruct (embeddedNAT64IPv4 ip) as [v4|] eqn:Ee.
  - destruct Hip as [Hip|Hip].
    { unfold embeddedNAT64IPv4, AddrFromSlice in Ee. by rewrite (proj1 Hip) in Ee. }
    destruct (nat64_bytes ip v4 Hip Ee) as (-> & Hm & Hc).
    pose proof (wf_bytes_drop12 ip Hip) as Hd. pose proof (wf_bytes_v4_prefix _ Hd) as Hw.
    assert (∃ a b c d, drop 12 ip = [a; b; c; d]) as (a & b & c & d & Ed).
    { apply wf_bytes_4 in Hd as (? & ? & ? & ? & ? & _). eauto. }
    destruct (judge (v4_prefix ++ drop 12 ip)) as (x & Hx & J1 & J2); [by right|by rewrite Ed|].
    exists x. change 2%nat with (S 1). cbn [isBlockedIP_go isBlockedOperatorIP_go]. rewrite Ee, (proj1 Hip). cbn [Nat.eqb].
    split_and!; [|exact J1|exact J2]. rewrite <- Hx. unfold reaches, AddrFromSlice. rewrite (proj1 Hip), (proj1 Hw). cbn [Nat.eqb mbind option_bind].
    unfold Unmap. unfold mapped in Hm. rewrite Hm, Hc. destruct (mapped_prefix (drop 12 ip)) as [Em Ed']. unfold mapped in Em.
    by rewrite Em, Ed'.
  - destruct (judge ip Hip Ee) as (a & Ha & J1 & J2). exists a. split; [done|]. split; by apply go_more.
Qed.

(** ** Names, URLs and the environment *)

Record URL := mkURL { uScheme : string; uUser : option string; uHost : string; uPath : string; uRawQuery : string; uFragment : string }.
Definition contains_byte (c : ascii) (s : string) : bool := match index_byte s c with Some _ => true | None => false end.
(** [URL.Hostname] and [URL.Port]. *)
Definition validOptionalPort (port : string) : bool :=
  match port with
  | "" => true
  | String c digits => (c =?? ":"%char) && forallb is_digit (bytes_of digits)
  end.
Definition url_host_port (u : URL) : string * string :=
  let hp := uHost u in
  let '(host, port) :=
    match last_index_byte hp ":" with
    | Some i => if validOptionalPort (str_drop i hp) then (str_take i hp, str_drop (S i) hp) else (hp, "")
    | None => (hp, "")
    end in
  (if has_prefix host "[" && has_suffix host "]" then str_take (String.length host - 2) (str_drop 1 host) else host, port).
Definition Hostname (u : URL) : string := (url_host_port u).1.
Definition Port (u : URL) : string := (url_host_port u).2.
Definition JoinHostPort (host port : string) : string :=
  if contains_byte ":" host then "[" +:+ host +:+ "]:" +:+ port else host +:+ ":" +:+ port.
Definition SplitHostPort (hp : string) : option (string * string) :=
  i ← last_index_byte hp ":";
  let port := str_drop (S i) hp in
  let no_brackets j k := negb (contains_byte "[" (str_drop j hp)) && negb (contains_byte "]" (str_drop k hp)) in
  if has_prefix hp "[" then
    e ← index_byte hp "]";
    if (e + 1 =? i)%nat && no_brackets 1%nat (e + 1)%nat then Some (str_take (e - 1) (str_drop 1 hp), port) else None
  else
    let host := str_take i hp in
    if contains_byte ":" host || negb (no_brackets 0%nat 0%nat) then None else Some (host, port).

(** What the clients cannot know in advance, by the number of the question:
    the parser and printer of URLs, the address a transport asks to dial, the
    answers of the resolver, of connection attempts and of peers, and when an
    idle connection is used again. *)
Record env := mkEnv {
  parse_url : string → option URL; url_string : URL → string; dial_address : URL → string; known_port : string → bool;
  lookup_ip : nat → string → option (list (list Z)); connects : nat → string → bool;
  redirects_to : nat → option URL; reuses : nat → bool }.
Inductive outError := ErrInvalidURL | ErrScheme | ErrMissingHost | ErrResolve | ErrNoAddresses | ErrBlocked
| ErrCredentials | ErrQuery | ErrRootPath | ErrDotSegment | ErrPort | ErrOrigin | ErrPath | ErrAddress | ErrTooManyRedirects.

(** ** Resolution under a policy *)

Fixpoint join_targets (allowed : list Z → bool) (port : string) (ips : list (list Z)) : res outError (list string) :=
  match ips with
  | [] => Ok []
  | ip :: ips =>
    fail_if negb (allowed ip) with ErrBlocked;
    cons (JoinHostPort (IPString ip) port) <$> join_targets allowed port ips
  end.
Definition resolveWithPolicy (e : env) (t : nat) (host port : string) (allowed : list Z → bool) : nat * res outError (list string) :=
  let '(t, ips) :=
    match ParseIP host with
    | Some ip => (t, Ok [ip])
    | None => (S t, match lookup_ip e t host with Some ips => Ok ips | None => Err ErrResolve end)
    end in
  (t, match ips with
      | Err err => Err err
      | Ok ips => fail_if (length ips =? 0)%nat with ErrNoAddresses; join_targets allowed port ips
      end).
Definition allowed_public (ip : list Z) : bool := negb (isBlockedIP ip).
Definition resolveAllowed (e : env) (t : nat) (host port : string) : nat * res outError (list string) :=
  resolveWithPolicy e t host port allowed_public.
Definition ResolveAllowed (e : env) (t : nat) (host port : string) : nat * res outError (list string) := resolveAllowed e t host port.
Definition allowed_operator (scheme : string) (ip : list Z) : bool :=
  if isBlockedOperatorIP ip then false else negb (scheme =?? "http") || ip_loopback ip.
Definition resolveOperatorTargetForScheme (e : env) (t : nat) (host port scheme : string) : nat * res outError (list string) :=
  resolveWithPolicy e t host port (allowed_operator scheme).

(** ** URLs *)

Definition effectivePort (u : URL) : string :=
  if negb (Port u =?? "") then Port u else if uScheme u =?? "https" then "443" else "80".
Definition sameOrigin (a b : URL) : bool :=
  equal_fold (uScheme a) (uScheme b) && equal_fold (Hostname a) (Hostname b) && (effectivePort a =?? effectivePort b).
Definition GuardURL (e : env) (t : nat) (raw : string) : nat * option outError :=
  match parse_url e raw with
  | None => (t, Some ErrInvalidURL)
  | Some u =>
    if negb (uScheme u =?? "http") && negb (uScheme u =?? "https") then (t, Some ErrScheme) else
    if Hostname u =?? "" then (t, Some ErrMissingHost) else
    let '(t, r) := resolveAllowed e t (Hostname u) (effectivePort u) in
    (t, match r with Ok _ => None | Err err => Some err end)
  end.
Definition parseOperatorURL (e : env) (raw : string) : res outError URL :=
  match parse_url e (trim_space raw) with
  | None => Err ErrInvalidURL
  | Some u =>
    fail_if negb (uScheme u =?? "http") && negb (uScheme u =?? "https") with ErrScheme;
    fail_if Hostname u =?? "" with ErrMissingHost;
    fail_if match uUser u with Some _ => true | None => false end with ErrCredentials;
    fail_if negb (uRawQuery u =?? "") || negb (uFragment u =?? "") with ErrQuery;
    fail_if (uPath u =?? "") || (uPath u =?? "/") with ErrRootPath;
    fail_if existsb (fun segment => (segment =?? ".") || (segment =?? "..")) (split (uPath u) "/") with ErrDotSegment;
    fail_if negb (Port u =?? "") && negb (known_port e (Port u)) with ErrPort;
    Ok u
  end.
Definition GuardOperatorURL (e : env) (t : nat) (raw : string) : nat * option outError :=
  match parseOperatorURL e raw with
  | Err err => (t, Some err)
  | Ok u =>
    let '(t, r) := resolveOperatorTargetForScheme e t (Hostname u) (effectivePort u) (uScheme u) in
    (t, match r with Ok _ => None | Err err => Some err end)
  end.

(** [path.Clean]: empty and dot segments go, a dot-dot takes the segment
    before it, and stays only at the front of a relative path. *)
Fixpoint clean_segments (rooted : bool) (out : list string) (segs : list string) : list string :=
  match segs with
  | [] => out
  | s :: segs =>
    let out :=
      if (s =?? "") || (s =?? ".") then out
      else if s =?? ".." then
        match last out with
        | Some l => if l =?? ".." then out ++ [".."] else take (length out - 1) out
        | None => if rooted then out else out ++ [".."]
        end
      else out ++ [s] in
    clean_segments rooted out segs
  end.
Definition path_segments (p : string) : list string := clean_segments (has_prefix p "/") [] (split p "/").
Definition path_Clean (p : string) : string :=
  let out := String.concat "/" (path_segments p) in
  if has_prefix p "/" then "/" +:+ out else if out =?? "" then "." else out.
Definition GuardOperatorTargetBinding (e : env) (baseRaw targetRaw : string) : option outError :=
  match parseOperatorURL e baseRaw with
  | Err err => Some err
  | Ok base =>
    match parseOperatorURL e targetRaw with
    | Err err => Some err
    | Ok target =>
      if negb (sameOrigin base target) then Some ErrOrigin else
      let basePath := trim_suffix (path_Clean (uPath base)) "/" in
      let targetPath := path_Clean (uPath target) in
      if negb (targetPath =?? basePath) && negb (has_prefix targetPath (basePath +:+ "/")) then Some ErrPath else None
    end
  end.

(** ** Clients *)

(** Targets are tried in order until one connects. *)
Fixpoint dial_targets (e : env) (t : nat) (targets : list string) : nat * list string * bool :=
  match targets with
  | [] => (t, [], false)
  | target :: targets =>
    if connects e t target then (S t, [target], true)
    else let '(t, dialed, ok) := dial_targets e (S t) targets in (t, target :: dialed, ok)
  end.
(** [DialContext]: the addresses that were dialled, and the outcome. *)
Definition dial (e : env) (t : nat) (allowed : list Z → bool) (address : string) : nat * list string * option outError :=
  match SplitHostPort address with
  | None => (t, [], Some ErrAddress)
  | Some (host, port) =>
    let '(t, r) := resolveWithPolicy e t host port allowed in
    match r with
    | Err err => (t, [], Some err)
    | Ok targets =>
      let '(t, dialed, ok) := dial_targets e t targets in
      (t, dialed, if ok then None else Some ErrNoAddresses)
    end
  end.
Record client := mkClient {
  cGuard : env → nat → string → nat * option outError; cAllowed : URL → list Z → bool; cSameOrigin : bool; cKeepAlive : bool }.
Definition NewClient : client := mkClient GuardURL (fun _ => allowed_public) false true.
Definition NewOperatorClient : client := mkClient GuardOperatorURL (fun u => allowed_operator (uScheme u)) true false.
Definition maxRedirects : nat := 5.
Definition RoundTrip (c : client) (e : env) (t : nat) (u : URL) : nat * list string * option outError :=
  let '(t, g) := cGuard c e t (url_string e u) in
  match g with
  | Some err => (t, [], Some err)
  | None => if cKeepAlive c && reuses e t then (S t, [], None) else dial e t (cAllowed c u) (dial_address e u)
  end.
Definition CheckRedirect (c : client) (e : env) (t : nat) (u : URL) (via : list URL) : nat * option outError :=
  if (maxRedirects <=? length via)%nat then (t, Some ErrTooManyRedirects)
  else if cSameOrigin c && match via with v :: _ => negb (sameOrigin v u) | [] => false end then (t, Some ErrOrigin)
  else cGuard c e t (url_string e u).
(** Each round trip with the addresses it dialled; [None]: out of fuel. *)
Fixpoint do_requests (fuel : nat) (c : client) (e : env) (t : nat) (via : list URL) (u : URL) : option (list (URL * list string)) :=
  match fuel with
  | O => None
  | S fuel =>
    let '(t, dialed, err) := RoundTrip c e t u in
    match err with
    | Some _ => Some [(u, dialed)]
    | None =>
      match redirects_to e t with
      | None => Some [(u, dialed)]
      | Some u' =>
        let '(t, refused) := CheckRedirect c e (S t) u' (via ++ [u]) in
        match refused with
        | Some _ => Some [(u, dialed)]
        | None => cons (u, dialed) <$> do_requests fuel c e t (via ++ [u]) u'
        end
      end
    end
  end.
Definition Do (c : client) (e : env) (u : URL) : option (list (URL * list string)) := do_requests maxRedirects c e 0 [] u.

(** ** Proofs *)

Lemma trips_bounded fuel c e t via u :
  (length via + fuel = maxRedirects)%nat → (0 < fuel)%nat → ∃ trips, do_requests fuel c e t via u = Some trips ∧ (length trips <= fuel)%nat.
Proof.
  revert t via u. induction fuel as [|fuel IH]; intros t via u Hl Hf; [lia|]. cbn [do_requests].
  destruct (RoundTrip c e t u) as [[t1 dialed] err]. destruct err; [eexists; split; [done|cbn; lia]|].
  destruct (redirects_to e t1) as [u'|]; [|eexists; split; [done|cbn; lia]].
  unfold CheckRedirect. rewrite length_app. cbn [length]. destruct (Nat.leb_spec maxRedirects (length via + 1)).
  { eexists. split; [done|cbn; lia]. }
  destruct (cSameOrigin c && _); [eexists; split; [done|cbn; lia]|].
  destruct (cGuard c e (S t1) (url_string e u')) as [t2 refused]. destruct refused; [eexists; split; [done|cbn; lia]|].
  destruct (IH t2 (via ++ [u]) u') as (trips & -> & Ht); [rewrite length_app; cbn; lia|lia|].
  eexists. split; [done|]. cbn. lia.
Qed.
(** The guard and the client loop end: judging an address unwraps at
    most one NAT64 layer, for every byte string, and a request is over after
    at most five round trips, whatever resolver, peers and redirects do. *)
Theorem outbound_terminates :
  (∀ ip, is_Some (isBlockedIP_go 2 ip) ∧ is_Some (isBlockedOperatorIP_go 2 ip)) ∧
  (∀ c e u, ∃ trips, Do c e u = Some trips ∧ (length trips <= maxRedirects)%nat).
Proof.
  split; [|intros c e u; apply trips_bounded; [done|unfold maxRedirects; lia]].
  assert (∀ ip v4, embeddedNAT64IPv4 ip = Some v4 → embeddedNAT64IPv4 v4 = None) as Honce.
  { intros ip v4. unfold embeddedNAT64IPv4 at 1. destruct (AddrFromSlice ip) as [a|]; [|done]. cbn [mbind option_bind].
    destruct (Unmap a); [done|]. destruct (Contains _ _); [|done]. intros [= <-]. apply embedded_v4. }
  intros ip. change 2%nat with (S 1). cbn [isBlockedIP_go isBlockedOperatorIP_go].
  destruct (embeddedNAT64IPv4 ip) as [v4|] eqn:E; [rewrite (Honce _ _ E)|]; split; repeat case_match; eauto.
Qed.
(** The guard decides by where an address leads: an address is refused to
    webhook clients exactly when the address it leads to, NAT64 and mapped
    forms unwrapped, lies in a loopback, private, unspecified, link-local,
    multicast, carrier-NAT, documentation or benchmarking prefix, and to
    operator clients exactly when it is unspecified, link-local, multicast or
    broadcast. *)
Theorem guard_decides_by_destination ip :
  wf_ip ip → ∃ a, reaches ip = Some a ∧ isBlockedIP ip = within forbidden a ∧ isBlockedOperatorIP ip = within operator_forbidden a.
Proof.
  intros (a & Ha & J1 & J2)%judged. exists a. unfold isBlockedIP, isBlockedOperatorIP. by rewrite J1, J2.
Qed.

Lemma parse_back ip : wf_ip ip → ∃ ip', ParseIP (IPString ip) = Some ip' ∧ reaches ip' = reaches ip ∧ ip_loopback ip' = ip_loopback ip.
Proof.
  intros Hip. destruct Hip as [Hip|Hip].
  - unfold IPString. rewrite To4_4 by done. unfold ParseIP. rewrite ParseAddr_v4 by done. exists (v4_prefix ++ ip). split; [done|].
    pose proof (wf_bytes_v4_prefix _ Hip) as Hw. destruct (mapped_prefix ip) as [Em Ed]. split.
    + unfold reaches, AddrFromSlice. rewrite (proj1 Hip), (proj1 Hw). cbn [Nat.eqb mbind option_bind Unmap]. unfold mapped in Em. by rewrite Em, Ed.
    + unfold ip_loopback. rewrite (To4_4 ip), (To4_16 (v4_prefix ++ ip)) by done. by rewrite Em, Ed.
  - exists ip. split; [|done]. unfold IPString, ParseIP. rewrite To4_16 by done. destruct (mapped ip) eqn:Em.
    + rewrite ParseAddr_v4 by (by apply wf_bytes_drop12). cbn [fmap option_fmap option_map As16]. f_equal. symmetry. by apply mapped_join.
    + by rewrite ParseAddr_v6.
Qed.
(** A dialled target: the text of an address the policy allows. *)
Definition target_ok (allowed : list Z → bool) (target : string) : Prop :=
  ∃ ip port, wf_ip ip ∧ allowed ip = true ∧ target = JoinHostPort (IPString ip) port.
Definition resolver_ok (e : env) : Prop := ∀ t host ips, lookup_ip e t host = Some ips → Forall wf_ip ips.
Lemma join_targets_ok allowed port ips targets :
  Forall wf_ip ips → join_targets allowed port ips = Ok targets → Forall (target_ok allowed) targets.
Proof.
  intros Hw. revert targets. induction Hw as [|ip ips Hip _ IH]; intros targets; cbn [join_targets]; [intros [= <-]; constructor|].
  intros [Ha H]%guard_Ok. apply negb_false_iff in Ha. destruct (join_targets allowed port ips) as [l|]; [|done].
  cbn in H. assert (targets = JoinHostPort (IPString ip) port :: l) as -> by congruence. constructor; [|by apply IH]. by exists ip, port.
Qed.
Lemma resolve_ok e t host port allowed t' targets : resolver_ok e →
  resolveWithPolicy e t host port allowed = (t', Ok targets) → Forall (target_ok allowed) targets.
Proof.
  intros He. unfold resolveWithPolicy. destruct (ParseIP host) as [ip|] eqn:Ep.
  - intros H. assert (join_targets allowed port [ip] = Ok targets) as Hj by (injection H; done). eapply join_targets_ok; [|exact Hj]. constructor; [|constructor]. right.
    unfold ParseIP in Ep. apply fmap_Some in Ep as (a & Ha & ->). by apply wf_As16, (ParseAddr_wf host).
  - destruct (lookup_ip e t host) as [ips|] eqn:El; [|done]. intros [= _ H]. apply guard_Ok in H as [_ H].
    eapply join_targets_ok; [|exact H]. by eapply He.
Qed.
Lemma dial_targets_sub e t targets t' dialed ok : dial_targets e t targets = (t', dialed, ok) → ∀ x, x ∈ dialed → x ∈ targets.
Proof.
  revert t t' dialed ok. induction targets as [|y targets IH]; intros t t' dialed ok; cbn [dial_targets].
  - intros [= _ <- _] x Hx. done.
  - destruct (connects e t y).
    + intros [= _ <- _] x ->%list_elem_of_singleton. by left.
    + destruct (dial_targets e (S t) targets) as [[t1 d] b] eqn:E. intros [= _ <- _] x [->|Hx]%elem_of_cons; [by left|]. right. by eapply IH.
Qed.
Lemma RoundTrip_ok c e t u t' dialed err : resolver_ok e →
  RoundTrip c e t u = (t', dialed, err) → Forall (target_ok (cAllowed c u)) dialed.
Proof.
  intros He. unfold RoundTrip. destruct (cGuard c e t (url_string e u)) as [t1 [g|]]; [intros [= _ <- _]; constructor|].
  destruct (cKeepAlive c && reuses e t1); [intros [= _ <- _]; constructor|]. unfold dial.
  destruct (SplitHostPort (dial_address e u)) as [[host port]|]; [|intros [= _ <- _]; constructor].
  destruct (resolveWithPolicy e t1 host port (cAllowed c u)) as [t2 [targets|]] eqn:Er; [|intros [= _ <- _]; constructor].
  apply resolve_ok in Er; [|done]. destruct (dial_targets e t2 targets) as [[t3 d] ok] eqn:Ed. intros [= _ <- _].
  rewrite Forall_forall in Er. apply Forall_forall. intros x Hx. by eapply Er, dial_targets_sub.
Qed.
Lemma do_requests_ok fuel c e t via u trips : resolver_ok e →
  do_requests fuel c e t via u = Some trips → ∀ v dialed, (v, dialed) ∈ trips →
  Forall (target_ok (cAllowed c v)) dialed ∧
  (cSameOrigin c = true → v = u ∨ sameOrigin (hd u via) v = true).
Proof.
  intros He. revert t via u trips. induction fuel as [|fuel IH]; intros t via u trips; [done|]. cbn [do_requests].
  destruct (RoundTrip c e t u) as [[t1 d] err] eqn:Er. apply RoundTrip_ok in Er; [|done].
  assert (∀ v dialed, (v, dialed) ∈ [(u, d)] → Forall (target_ok (cAllowed c v)) dialed ∧
    (cSameOrigin c = true → v = u ∨ sameOrigin (hd u via) v = true)) as Hone.
  { intros v dialed [= -> ->]%list_elem_of_singleton. split; [done|]. by left. }
  destruct err; [by intros [= <-]|]. destruct (redirects_to e t1) as [u'|]; [|by intros [= <-]].
  unfold CheckRedirect. destruct (maxRedirects <=? _)%nat; [by intros [= <-]|].
  destruct (cSameOrigin c && _) eqn:Es; [by intros [= <-]|].
  destruct (cGuard c e (S t1) (url_string e u')) as [t2 [g|]]; [by intros [= <-]|].
  destruct (do_requests fuel c e t2 (via ++ [u]) u') as [rest|] eqn:Ed; [|done]. intros [= <-] v dialed [E|Hin]%elem_of_cons.
  { apply Hone. apply list_elem_of_singleton. exact E. }
  pose proof (IH _ _ _ _ Ed v dialed Hin) as [I1 I2]. split; [done|]. intros Hc. right. rewrite Hc in Es. cbn [andb] in Es.
  assert (hd u' (via ++ [u]) = hd u via) as Eh by (by destruct via). rewrite Eh in I2.
  destruct (I2 Hc) as [-> |]; [|done]. destruct via as [|v0 via]; cbn [app hd] in *; by apply negb_false_iff in Es.
Qed.
(** C12. A webhook client dials no forbidden address, whatever it is asked to
    fetch: the resolver may answer differently at the guard and at the dial,
    any host may be named by number or name, and any peer may redirect. *)
Theorem no_forbidden_dial e u trips v dialed target :
  resolver_ok e → Do NewClient e u = Some trips → (v, dialed) ∈ trips → target ∈ dialed →
  ∃ host port ip a, target = JoinHostPort host port ∧ ParseIP host = Some ip ∧ reaches ip = Some a ∧ within forbidden a = false.
Proof.
  intros He Hd Hin Ht. destruct (do_requests_ok _ _ _ _ _ _ _ He Hd _ _ Hin) as [Hok _]. rewrite Forall_forall in Hok.
  apply Hok in Ht as (ip & port & Hip & Ha & ->). destruct (parse_back ip Hip) as (ip' & Hp & Hr & _).
  pose proof (judged ip Hip) as (a & Ea & J1 & _). exists (IPString ip), port, ip', a. split_and!; [done|done|congruence|].
  cbn [NewClient cAllowed] in Ha. unfold allowed_public, isBlockedIP in Ha. rewrite J1 in Ha. by apply negb_true_iff in Ha.
Qed.
(** An operator client may reach private services and still dials no
    unspecified, link-local, multicast or broadcast address; clear-text
    requests go to loopback addresses only; and every request of a redirect
    chain stays on the origin of the first. *)
Theorem operator_client_confined e u trips v dialed target :
  resolver_ok e → Do NewOperatorClient e u = Some trips → (v, dialed) ∈ trips → target ∈ dialed →
  (v = u ∨ sameOrigin u v = true) ∧
  ∃ host port ip a, target = JoinHostPort host port ∧ ParseIP host = Some ip ∧ reaches ip = Some a ∧
    within operator_forbidden a = false ∧ (uScheme v = "http" → ip_loopback ip = true).
Proof.
  intros He Hd Hin Ht. destruct (do_requests_ok _ _ _ _ _ _ _ He Hd _ _ Hin) as [Hok Ho]. split; [by apply Ho|].
  rewrite Forall_forall in Hok. apply Hok in Ht as (ip & port & Hip & Ha & ->). destruct (parse_back ip Hip) as (ip' & Hp & Hr & Hlb).
  pose proof (judged ip Hip) as (a & Ea & _ & J2). exists (IPString ip), port, ip', a. split; [done|]. split; [done|]. split; [congruence|].
  cbn [NewOperatorClient cAllowed] in Ha. unfold allowed_operator, isBlockedOperatorIP in Ha. rewrite J2 in Ha. cbn [default from_option] in Ha.
  unfold id in Ha. destruct (within operator_forbidden a); [done|]. split; [done|]. intros E. rewrite E, Hlb in *.
  by rewrite bool_decide_eq_true_2 in Ha.
Qed.

(** *** Paths *)
Definition plain_segment (s : string) : Prop := s ≠ "" ∧ "/"%char ∉ bytes_of s.
Lemma split_plain c cur s x : c ∉ bytes_of cur → x ∈ split_go c cur s → c ∉ bytes_of x.
Proof.
  revert cur. induction s as [|d s IH]; intros cur Hc; cbn [split_go].
  - by intros ->%list_elem_of_singleton.
  - destruct (bool_decide_reflect (d = c)) as [->|Hne].
    + intros [->|Hx]%elem_of_cons; [done|]. eapply (IH ""); [cbn; apply not_elem_of_nil|done].
    + apply IH. rewrite bytes_of_app. cbn. rewrite elem_of_app, list_elem_of_singleton. intros [?|?]; [done|congruence].
Qed.
Lemma split_no_sep c s x : x ∈ split s c → c ∉ bytes_of x.
Proof. apply split_plain. cbn. apply not_elem_of_nil. Qed.
Lemma clean_plain rooted out segs : Forall (fun s => "/"%char ∉ bytes_of s) segs → Forall plain_segment out →
  Forall plain_segment (clean_segments rooted out segs).
Proof.
  intros Hs. revert out. induction Hs as [|s segs Hs _ IH]; intros out Ho; [done|]. cbn [clean_segments]. apply IH.
  assert (plain_segment "..") as Hdd by (split; [done|cbn; set_solver]).
  destruct (s =?? "") eqn:E1; [done|]. destruct (s =?? "."); [done|]. cbn [orb]. destruct (s =?? "..").
  - destruct (last out) as [l|]; [destruct (l =?? "..")|destruct rooted]; [apply Forall_app; split; [done|by constructor]|by apply Forall_take|done|].
    apply Forall_app. split; [done|by constructor].
  - apply Forall_app. split; [done|]. constructor; [|constructor]. apply bool_decide_eq_false in E1. by split.
Qed.
Lemma segments_plain p : Forall plain_segment (path_segments p).
Proof. apply clean_plain; [|constructor]. apply Forall_forall. intros s Hs. by eapply split_no_sep. Qed.
Lemma split_concat segs : segs ≠ [] → Forall plain_segment segs → split (String.concat "/" segs) "/" = segs.
Proof.
  intros Hne Hp. induction Hp as [|s segs [_ Hs] Hp IH]; [done|]. destruct segs as [|s' segs].
  - cbn [String.concat]. unfold split. by rewrite split_go_last.
  - change (String.concat "/" (s :: s' :: segs)) with (s +:+ String "/" (String.concat "/" (s' :: segs))).
    unfold split. rewrite split_go_app by done. f_equal. by apply IH.
Qed.
Lemma split_prefix segs r : segs ≠ [] → Forall plain_segment segs → split (String.concat "/" segs +:+ "/" +:+ r) "/" = segs ++ split r "/".
Proof.
  intros Hne Hp. induction Hp as [|s segs [_ Hs] Hp IH]; [done|]. destruct segs as [|s' segs].
  - cbn [String.concat]. unfold split. change ("/" +:+ r) with (String "/" r). by rewrite split_go_app.
  - change (String.concat "/" (s :: s' :: segs)) with (s +:+ String "/" (String.concat "/" (s' :: segs))).
    set (X := String.concat "/" (s' :: segs)) in *. rewrite str_app_assoc.
    change (String "/" X +:+ "/" +:+ r) with (String "/" (X +:+ "/" +:+ r)). unfold split. rewrite split_go_app by done. cbn [app]. f_equal. by apply IH.
Qed.
Lemma concat_no_slash_end segs : segs ≠ [] → Forall plain_segment segs → has_suffix (String.concat "/" segs) "/" = false.
Proof.
  intros Hne Hp. apply not_true_iff_false. intros [r Hr]%has_suffix_spec. pose proof (split_concat segs Hne Hp) as E.
  destruct segs as [|s0 segs _] using rev_ind; [done|].
  assert (∀ s cur, List.last (split_go "/" cur (s +:+ "/")) "x" = "") as Hlast.
  { induction s as [|d s IH]; intros cur; [done|]. change (String d s +:+ "/") with (String d (s +:+ "/")). cbn [split_go].
    destruct (d =?? "/"%char); [|apply IH]. specialize (IH ""). destruct (split_go "/" "" (s +:+ "/")) eqn:Es; [done|]. exact IH. }
  specialize (Hlast r ""). rewrite <- Hr in Hlast. fold (split (String.concat "/" (segs ++ [s0])) "/") in Hlast.
  rewrite E, List.last_last in Hlast. apply Forall_app in Hp as [_ Hp]. rewrite Forall_singleton in Hp.
  by destruct Hp.
Qed.
(** A URL with a host has an empty or a rooted path. *)
Definition parser_ok (e : env) : Prop := ∀ raw u, parse_url e raw = Some u → uHost u ≠ "" → uPath u = "" ∨ has_prefix (uPath u) "/" = true.
Lemma operator_url_rooted e raw u : parser_ok e → parseOperatorURL e raw = Ok u → has_prefix (uPath u) "/" = true.
Proof.
  intros He. unfold parseOperatorURL. destruct (parse_url e (trim_space raw)) as [v|] eqn:Ep; [|done].
  intros [_ [Hh [_ [_ [Hp [_ [_ H]%guard_Ok]%guard_Ok]%guard_Ok]%guard_Ok]%guard_Ok]%guard_Ok]%guard_Ok.
  assert (v = u) as -> by congruence. apply orb_false_iff in Hp as [Hp _]. apply bool_decide_eq_false in Hp, Hh.
  destruct (He _ _ Ep) as [|]; [|done|done]. intros E. apply Hh. unfold Hostname, url_host_port. by rewrite E.
Qed.
Lemma base_path p : has_prefix p "/" = true →
  trim_suffix (path_Clean p) "/" = match path_segments p with [] => "" | segs => "/" +:+ String.concat "/" segs end.
Proof.
  intros Hp. unfold path_Clean. rewrite Hp. pose proof (segments_plain p) as Hs. destruct (path_segments p) as [|s segs] eqn:E; [done|].
  rewrite <- E in *. assert (path_segments p ≠ []) as Hne by (by rewrite E). pose proof (concat_no_slash_end _ Hne Hs) as Hc.
  unfold trim_suffix. assert (has_suffix ("/" +:+ String.concat "/" (path_segments p)) "/" = false) as ->; [|done].
  apply not_true_iff_false in Hc. apply not_true_iff_false. intros [r Hr]%has_suffix_spec. apply Hc, has_suffix_spec.
  destruct r as [|c r].
  - exfalso. injection Hr as Hr. rewrite E in Hr, Hs. rewrite Forall_cons in Hs. destruct Hs as [[Hs _] _].
    destruct s; [done|]. destruct segs; done.
  - exists r. by injection Hr.
Qed.
Lemma slash_inj X Y : "/" +:+ X = "/" +:+ Y → X = Y.
Proof. intros H. by injection H. Qed.
(** A target accepted for an invocation's base URL is on the base's
    origin and below its path, segment by segment: the segments of the base
    path are a prefix of those of the target, both cleaned. *)
Theorem operator_binding_confines e base target :
  parser_ok e → GuardOperatorTargetBinding e base target = None →
  ∃ b t rest, parseOperatorURL e base = Ok b ∧ parseOperatorURL e target = Ok t ∧ sameOrigin b t = true ∧
    path_segments (uPath t) = path_segments (uPath b) ++ rest.
Proof.
  intros He. unfold GuardOperatorTargetBinding. destruct (parseOperatorURL e base) as [b|] eqn:Eb; [|done].
  destruct (parseOperatorURL e target) as [t|] eqn:Et; [|done]. destruct (sameOrigin b t) eqn:Es; cbn [negb]; [|done].
  pose proof (operator_url_rooted _ _ _ He Eb) as Rb. pose proof (operator_url_rooted _ _ _ He Et) as Rt.
  rewrite base_path by done. destruct (negb _ && negb _) eqn:Eg; [done|]. intros _. exists b, t.
  assert (∃ rest, path_segments (uPath t) = path_segments (uPath b) ++ rest) as [rest Hrest]; [|by exists rest].
  pose proof (segments_plain (uPath b)) as Pb. pose proof (segments_plain (uPath t)) as Pt.
  destruct (path_segments (uPath b)) as [|s segs] eqn:Esb; [by eexists|]. rewrite <- Esb in *.
  assert (path_segments (uPath b) ≠ []) as Hne by (by rewrite Esb).
  unfold path_Clean in Eg. rewrite Rt in Eg. apply andb_false_iff in Eg as [Eg|Eg]; apply negb_false_iff in Eg.
  - apply bool_decide_eq_true, slash_inj in Eg. exists []. rewrite app_nil_r. rewrite <- (split_concat _ Hne Pb), <- Eg.
    symmetry. apply split_concat; [|done]. intros E. rewrite E in Eg. rewrite Esb in Eg, Pb. rewrite Forall_cons in Pb.
    destruct Pb as [[Hs _] _]. destruct s; [done|]. destruct segs; done.
  - apply has_prefix_spec in Eg as [r Hr]. rewrite !str_app_assoc in Hr. apply slash_inj in Hr. exists (split r "/").
    rewrite <- (split_prefix _ r Hne Pb), <- Hr. symmetry. apply split_concat; [|done]. intros E. rewrite E in Hr.
    by destruct (String.concat "/" (path_segments (uPath b))).
Qed.
(** A base URL whose path is two slashes passes the demand for a
    non-root path and confines nothing: every target on its origin is
    accepted. *)
Theorem double_slash_base_confines_nothing e base target u v :
  parser_ok e → parse_url e (trim_space base) = Some u → uScheme u = "https" → Hostname u ≠ "" → uUser u = None → uRawQuery u = "" →
  uFragment u = "" → Port u = "" → uPath u = "//" → parseOperatorURL e target = Ok v → sameOrigin u v = true →
  GuardOperatorTargetBinding e base target = None.
Proof.
  intros He Hp Hs Hh Hu Hq Hf Hpt Hpath Ht Ho.
  assert (parseOperatorURL e base = Ok u) as Hb.
  { unfold parseOperatorURL. rewrite Hp, Hs, Hu, Hq, Hf, Hpath, Hpt. rewrite (bool_decide_eq_false_2 (Hostname u = "")) by done. done. }
  unfold GuardOperatorTargetBinding. rewrite Hb, Ht, Ho. cbn [negb]. rewrite Hpath. change (trim_suffix (path_Clean "//") "/") with "".
  unfold path_Clean. rewrite (operator_url_rooted e target v) by done. change ("" +:+ "/") with "/".
  assert (has_prefix ("/" +:+ String.concat "/" (path_segments (uPath v))) "/" = true) as -> by (apply has_prefix_spec; by eexists).
  by rewrite andb_false_r.
Qed.

(** ** Runs *)
Module OutboundDemo.
Definition hook : URL := mkURL "https" None "hooks.example:8443" "/in" "" "".
Definition inner : URL := mkURL "http" None "10.0.0.1" "/" "" "".
(** The answer changes between the check and the dial; of the two addresses
    dialled the first does not answer, and the peer redirects to a private
    address. *)
Definition rebinding (t : nat) : option (list (list Z)) :=
  match t with
  | O | S (S (S O)) => Some [[93; 184; 216; 34]]
  | S O => Some [[93; 184; 216; 34]; [1; 1; 1; 1]]
  | _ => Some [IPv4 127 0 0 1]
  end.
Definition parse (s : string) : option URL :=
  if s =?? "hook" then Some hook else if s =?? "inner" then Some inner
  else if s =?? "base" then Some (mkURL "https" None "api.example" "//" "" "")
  else if s =?? "bound" then Some (mkURL "https" None "api.example" "/v1/tenant" "" "")
  else if s =?? "target" then Some (mkURL "https" None "API.example:443" "/v1/tenant/x" "" "") else None.
Definition e : env := mkEnv parse (fun u => if uHost u =?? "10.0.0.1" then "inner" else "hook")
  (fun u => if uHost u =?? "10.0.0.1" then "10.0.0.1:80" else "hooks.example:8443") (fun _ => true)
  (fun t _ => rebinding t) (fun t target => negb (target =?? "93.184.216.34:8443")) (fun _ => Some inner) (fun _ => false).
Lemma e_resolver : resolver_ok e.
Proof.
  intros t host ips. cbn. unfold rebinding. destruct t as [|[|[|[|t]]]]; intros [= <-];
    repeat (constructor; [(left; by repeat constructor) || (right; by repeat constructor)|]); constructor.
Qed.
Lemma e_parser : parser_ok e.
Proof. intros raw u. cbn. unfold parse. repeat case_bool_decide; intros [= <-]; by right. Qed.
Definition trips : list (URL * list string) := [(hook, ["93.184.216.34:8443"; "1.1.1.1:8443"])].
Lemma do_trips : Do NewClient e hook = Some trips.
Proof. vm_compute. reflexivity. Qed.
Lemma no_forbidden_dial_witness :
  Do NewClient e hook = Some trips ∧
  ∃ host port ip a, "1.1.1.1:8443" = JoinHostPort host port ∧ ParseIP host = Some ip ∧ reaches ip = Some a ∧ within forbidden a = false.
Proof.
  split; [apply do_trips|]. apply (no_forbidden_dial e hook trips hook ["93.184.216.34:8443"; "1.1.1.1:8443"] "1.1.1.1:8443");
    [apply e_resolver|apply do_trips|left|right; left].
Defined.
Definition loop_url : URL := mkURL "http" None "127.0.0.1:9000" "/api" "" "".
Definition op_env : env := mkEnv (fun _ => Some loop_url) (fun _ => "loop") (fun _ => "127.0.0.1:9000") (fun _ => true)
  (fun _ _ => None) (fun _ _ => true) (fun _ => None) (fun _ => true).
Lemma operator_client_confined_witness :
  Do NewOperatorClient op_env loop_url = Some [(loop_url, ["127.0.0.1:9000"])] ∧ (loop_url = loop_url ∨ sameOrigin loop_url loop_url = true).
Proof.
  assert (Do NewOperatorClient op_env loop_url = Some [(loop_url, ["127.0.0.1:9000"])]) as Hd by (vm_compute; reflexivity).
  split; [exact Hd|].
  apply (operator_client_confined op_env loop_url [(loop_url, ["127.0.0.1:9000"])] loop_url ["127.0.0.1:9000"] "127.0.0.1:9000");
    [intros t h ips Hl; discriminate Hl|exact Hd|left|left].
Defined.
Definition nat64_metadata : list Z := Eval vm_compute in default [] (ParseIP "64:ff9b::a9fe:a9fe").
Lemma guard_decides_by_destination_witness :
  ∃ a, reaches nat64_metadata = Some a ∧ isBlockedIP nat64_metadata = within forbidden a ∧
    isBlockedOperatorIP nat64_metadata = within operator_forbidden a.
Proof. apply (guard_decides_by_destination nat64_metadata). right. split; [reflexivity|]. by repeat constructor. Defined.
Lemma operator_binding_confines_witness :
  ∃ b t rest, parseOperatorURL e "bound" = Ok b ∧ parseOperatorURL e "target" = Ok t ∧ sameOrigin b t = true ∧
    path_segments (uPath t) = path_segments (uPath b) ++ rest.
Proof. apply (operator_binding_confines e "bound" "target"); [apply e_parser|vm_compute; reflexivity]. Defined.
Lemma double_slash_base_confines_nothing_witness : GuardOperatorTargetBinding e "base" "target" = None.
Proof.
  apply (double_slash_base_confines_nothing e "base" "target" (mkURL "https" None "api.example" "//" "" "")
    (mkURL "https" None "API.example:443" "/v1/tenant/x" "" "")); try (vm_compute; reflexivity); [apply e_parser|discriminate].
Defined.
End OutboundDemo.
