(* ===== verification/Incidents.v ===== *)
(** * Incident records ([internal/store/incidents.go])

    The book of incidents and maintenance windows the store keeps: one record
    per problem on one subject, an index of the unresolved record of each key
    and of the newest one, bounded text, eviction, and the mirror on the bolt
    hot store.  Maps are ranged over in an order the operation is given
    ([order]); [valid_order] says it lists the map's values. *)

From Stdlib Require Import ZArith Lia Ascii.
From stdpp Require Import gmap strings sorting.
From S2P Require Import Prelude GoStr.

Local Open Scope Z_scope.

Record Incident := mkIncident {
  iID : string;
  iKey : string;
  iKind : string;
  iSeverity : string;
  iNodeID : string;
  iMonitorID : string;
  iSubject : string;
  iState : string;
  iTitle : string;
  iDetail : string;
  iLine : string;
  iRecoveryTitle : string;
  iRecoveryDetail : string;
  iRecoveryLine : string;
  iSince : time;
  iFirstOpenedAt : time;
  iOpenedAt : time;
  iResolvedAt : time;
  iUpdatedAt : time;
  iAckedBy : string;
  iAckedAt : time;
  iAckCancelledOpen : bool;
  iSnoozedBy : string;
  iSnoozedUntil : time;
  iNotified : string;
  iNotifiedAt : time;
  iOpenNotifiedAt : time;
  iOwedOpen : bool;
  iOwedRecovery : bool;
  iOwedOpenRules : list string;
  iSuppressed : string;
  iSuppressedAt : time;
  iFlaps : Z;
  iFlapping : bool;
  iEscalated : gmap string time;
  iNoEscalate : bool;
}.
Definition with_iSubject (v : string) (i : Incident) : Incident :=
  mkIncident (iID i) (iKey i) (iKind i) (iSeverity i) (iNodeID i) (iMonitorID i) v (iState i)
    (iTitle i) (iDetail i) (iLine i) (iRecoveryTitle i) (iRecoveryDetail i) (iRecoveryLine i)
    (iSince i) (iFirstOpenedAt i) (iOpenedAt i) (iResolvedAt i) (iUpdatedAt i) (iAckedBy i)
    (iAckedAt i) (iAckCancelledOpen i) (iSnoozedBy i) (iSnoozedUntil i) (iNotified i)
    (iNotifiedAt i) (iOpenNotifiedAt i) (iOwedOpen i) (iOwedRecovery i) (iOwedOpenRules i)
    (iSuppressed i) (iSuppressedAt i) (iFlaps i) (iFlapping i) (iEscalated i) (iNoEscalate i).
Definition with_iState (v : string) (i : Incident) : Incident :=
  mkIncident (iID i) (iKey i) (iKind i) (iSeverity i) (iNodeID i) (iMonitorID i) (iSubject i) v
    (iTitle i) (iDetail i) (iLine i) (iRecoveryTitle i) (iRecoveryDetail i) (iRecoveryLine i)
    (iSince i) (iFirstOpenedAt i) (iOpenedAt i) (iResolvedAt i) (iUpdatedAt i) (iAckedBy i)
    (iAckedAt i) (iAckCancelledOpen i) (iSnoozedBy i) (iSnoozedUntil i) (iNotified i)
    (iNotifiedAt i) (iOpenNotifiedAt i) (iOwedOpen i) (iOwedRecovery i) (iOwedOpenRules i)
    (iSuppressed i) (iSuppressedAt i) (iFlaps i) (iFlapping i) (iEscalated i) (iNoEscalate i).
Definition with_iTitle (v : string) (i : Incident) : Incident :=
  mkIncident (iID i) (iKey i) (iKind i) (iSeverity i) (iNodeID i) (iMonitorID i) (iSubject i)
    (iState i) v (iDetail i) (iLine i) (iRecoveryTitle i) (iRecoveryDetail i) (iRecoveryLine i)
    (iSince i) (iFirstOpenedAt i) (iOpenedAt i) (iResolvedAt i) (iUpdatedAt i) (iAckedBy i)
    (iAckedAt i) (iAckCancelledOpen i) (iSnoozedBy i) (iSnoozedUntil i) (iNotified i)
    (iNotifiedAt i) (iOpenNotifiedAt i) (iOwedOpen i) (iOwedRecovery i) (iOwedOpenRules i)
    (iSuppressed i) (iSuppressedAt i) (iFlaps i) (iFlapping i) (iEscalated i) (iNoEscalate i).
Definition with_iDetail (v : string) (i : Incident) : Incident :=
  mkIncident (iID i) (iKey i) (iKind i) (iSeverity i) (iNodeID i) (iMonitorID i) (iSubject i)
    (iState i) (iTitle i) v (iLine i) (iRecoveryTitle i) (iRecoveryDetail i) (iRecoveryLine i)
    (iSince i) (iFirstOpenedAt i) (iOpenedAt i) (iResolvedAt i) (iUpdatedAt i) (iAckedBy i)
    (iAckedAt i) (iAckCancelledOpen i) (iSnoozedBy i) (iSnoozedUntil i) (iNotified i)
    (iNotifiedAt i) (iOpenNotifiedAt i) (iOwedOpen i) (iOwedRecovery i) (iOwedOpenRules i)
    (iSuppressed i) (iSuppressedAt i) (iFlaps i) (iFlapping i) (iEscalated i) (iNoEscalate i).
Definition with_iLine (v : string) (i : Incident) : Incident :=
  mkIncident (iID i) (iKey i) (iKind i) (iSeverity i) (iNodeID i) (iMonitorID i) (iSubject i)
    (iState i) (iTitle i) (iDetail i) v (iRecoveryTitle i) (iRecoveryDetail i) (iRecoveryLine i)
    (iSince i) (iFirstOpenedAt i) (iOpenedAt i) (iResolvedAt i) (iUpdatedAt i) (iAckedBy i)
    (iAckedAt i) (iAckCancelledOpen i) (iSnoozedBy i) (iSnoozedUntil i) (iNotified i)
    (iNotifiedAt i) (iOpenNotifiedAt i) (iOwedOpen i) (iOwedRecovery i) (iOwedOpenRules i)
    (iSuppressed i) (iSuppressedAt i) (iFlaps i) (iFlapping i) (iEscalated i) (iNoEscalate i).
Definition with_iRecoveryTitle (v : string) (i : Incident) : Incident :=
  mkIncident (iID i) (iKey i) (iKind i) (iSeverity i) (iNodeID i) (iMonitorID i) (iSubject i)
    (iState i) (iTitle i) (iDetail i) (iLine i) v (iRecoveryDetail i) (iRecoveryLine i)
    (iSince i) (iFirstOpenedAt i) (iOpenedAt i) (iResolvedAt i) (iUpdatedAt i) (iAckedBy i)
    (iAckedAt i) (iAckCancelledOpen i) (iSnoozedBy i) (iSnoozedUntil i) (iNotified i)
    (iNotifiedAt i) (iOpenNotifiedAt i) (iOwedOpen i) (iOwedRecovery i) (iOwedOpenRules i)
    (iSuppressed i) (iSuppressedAt i) (iFlaps i) (iFlapping i) (iEscalated i) (iNoEscalate i).
Definition with_iRecoveryDetail (v : string) (i : Incident) : Incident :=
  mkIncident (iID i) (iKey i) (iKind i) (iSeverity i) (iNodeID i) (iMonitorID i) (iSubject i)
    (iState i) (iTitle i) (iDetail i) (iLine i) (iRecoveryTitle i) v (iRecoveryLine i)
    (iSince i) (iFirstOpenedAt i) (iOpenedAt i) (iResolvedAt i) (iUpdatedAt i) (iAckedBy i)
    (iAckedAt i) (iAckCancelledOpen i) (iSnoozedBy i) (iSnoozedUntil i) (iNotified i)
    (iNotifiedAt i) (iOpenNotifiedAt i) (iOwedOpen i) (iOwedRecovery i) (iOwedOpenRules i)
    (iSuppressed i) (iSuppressedAt i) (iFlaps i) (iFlapping i) (iEscalated i) (iNoEscalate i).
Definition with_iRecoveryLine (v : string) (i : Incident) : Incident :=
  mkIncident (iID i) (iKey i) (iKind i) (iSeverity i) (iNodeID i) (iMonitorID i) (iSubject i)
    (iState i) (iTitle i) (iDetail i) (iLine i) (iRecoveryTitle i) (iRecoveryDetail i) v
    (iSince i) (iFirstOpenedAt i) (iOpenedAt i) (iResolvedAt i) (iUpdatedAt i) (iAckedBy i)
    (iAckedAt i) (iAckCancelledOpen i) (iSnoozedBy i) (iSnoozedUntil i) (iNotified i)
    (iNotifiedAt i) (iOpenNotifiedAt i) (iOwedOpen i) (iOwedRecovery i) (iOwedOpenRules i)
    (iSuppressed i) (iSuppressedAt i) (iFlaps i) (iFlapping i) (iEscalated i) (iNoEscalate i).
Definition with_iSince (v : time) (i : Incident) : Incident :=
  mkIncident (iID i) (iKey i) (iKind i) (iSeverity i) (iNodeID i) (iMonitorID i) (iSubject i)
    (iState i) (iTitle i) (iDetail i) (iLine i) (iRecoveryTitle i) (iRecoveryDetail i)
    (iRecoveryLine i) v (iFirstOpenedAt i) (iOpenedAt i) (iResolvedAt i) (iUpdatedAt i)
    (iAckedBy i) (iAckedAt i) (iAckCancelledOpen i) (iSnoozedBy i) (iSnoozedUntil i)
    (iNotified i) (iNotifiedAt i) (iOpenNotifiedAt i) (iOwedOpen i) (iOwedRecovery i)
    (iOwedOpenRules i) (iSuppressed i) (iSuppressedAt i) (iFlaps i) (iFlapping i) (iEscalated i)
    (iNoEscalate i).
Definition with_iOpenedAt (v : time) (i : Incident) : Incident :=
  mkIncident (iID i) (iKey i) (iKind i) (iSeverity i) (iNodeID i) (iMonitorID i) (iSubject i)
    (iState i) (iTitle i) (iDetail i) (iLine i) (iRecoveryTitle i) (iRecoveryDetail i)
    (iRecoveryLine i) (iSince i) (iFirstOpenedAt i) v (iResolvedAt i) (iUpdatedAt i)
    (iAckedBy i) (iAckedAt i) (iAckCancelledOpen i) (iSnoozedBy i) (iSnoozedUntil i)
    (iNotified i) (iNotifiedAt i) (iOpenNotifiedAt i) (iOwedOpen i) (iOwedRecovery i)
    (iOwedOpenRules i) (iSuppressed i) (iSuppressedAt i) (iFlaps i) (iFlapping i) (iEscalated i)
    (iNoEscalate i).
Definition with_iResolvedAt (v : time) (i : Incident) : Incident :=
  mkIncident (iID i) (iKey i) (iKind i) (iSeverity i) (iNodeID i) (iMonitorID i) (iSubject i)
    (iState i) (iTitle i) (iDetail i) (iLine i) (iRecoveryTitle i) (iRecoveryDetail i)
    (iRecoveryLine i) (iSince i) (iFirstOpenedAt i) (iOpenedAt i) v (iUpdatedAt i) (iAckedBy i)
    (iAckedAt i) (iAckCancelledOpen i) (iSnoozedBy i) (iSnoozedUntil i) (iNotified i)
    (iNotifiedAt i) (iOpenNotifiedAt i) (iOwedOpen i) (iOwedRecovery i) (iOwedOpenRules i)
    (iSuppressed i) (iSuppressedAt i) (iFlaps i) (iFlapping i) (iEscalated i) (iNoEscalate i).
Definition with_iUpdatedAt (v : time) (i : Incident) : Incident :=
  mkIncident (iID i) (iKey i) (iKind i) (iSeverity i) (iNodeID i) (iMonitorID i) (iSubject i)
    (iState i) (iTitle i) (iDetail i) (iLine i) (iRecoveryTitle i) (iRecoveryDetail i)
    (iRecoveryLine i) (iSince i) (iFirstOpenedAt i) (iOpenedAt i) (iResolvedAt i) v (iAckedBy i)
    (iAckedAt i) (iAckCancelledOpen i) (iSnoozedBy i) (iSnoozedUntil i) (iNotified i)
    (iNotifiedAt i) (iOpenNotifiedAt i) (iOwedOpen i) (iOwedRecovery i) (iOwedOpenRules i)
    (iSuppressed i) (iSuppressedAt i) (iFlaps i) (iFlapping i) (iEscalated i) (iNoEscalate i).
Definition with_iAckedBy (v : string) (i : Incident) : Incident :=
  mkIncident (iID i) (iKey i) (iKind i) (iSeverity i) (iNodeID i) (iMonitorID i) (iSubject i)
    (iState i) (iTitle i) (iDetail i) (iLine i) (iRecoveryTitle i) (iRecoveryDetail i)
    (iRecoveryLine i) (iSince i) (iFirstOpenedAt i) (iOpenedAt i) (iResolvedAt i) (iUpdatedAt i)
    v (iAckedAt i) (iAckCancelledOpen i) (iSnoozedBy i) (iSnoozedUntil i) (iNotified i)
    (iNotifiedAt i) (iOpenNotifiedAt i) (iOwedOpen i) (iOwedRecovery i) (iOwedOpenRules i)
    (iSuppressed i) (iSuppressedAt i) (iFlaps i) (iFlapping i) (iEscalated i) (iNoEscalate i).
Definition with_iAckedAt (v : time) (i : Incident) : Incident :=
  mkIncident (iID i) (iKey i) (iKind i) (iSeverity i) (iNodeID i) (iMonitorID i) (iSubject i)
    (iState i) (iTitle i) (iDetail i) (iLine i) (iRecoveryTitle i) (iRecoveryDetail i)
    (iRecoveryLine i) (iSince i) (iFirstOpenedAt i) (iOpenedAt i) (iResolvedAt i) (iUpdatedAt i)
    (iAckedBy i) v (iAckCancelledOpen i) (iSnoozedBy i) (iSnoozedUntil i) (iNotified i)
    (iNotifiedAt i) (iOpenNotifiedAt i) (iOwedOpen i) (iOwedRecovery i) (iOwedOpenRules i)
    (iSuppressed i) (iSuppressedAt i) (iFlaps i) (iFlapping i) (iEscalated i) (iNoEscalate i).
Definition with_iAckCancelledOpen (v : bool) (i : Incident) : Incident :=
  mkIncident (iID i) (iKey i) (iKind i) (iSeverity i) (iNodeID i) (iMonitorID i) (iSubject i)
    (iState i) (iTitle i) (iDetail i) (iLine i) (iRecoveryTitle i) (iRecoveryDetail i)
    (iRecoveryLine i) (iSince i) (iFirstOpenedAt i) (iOpenedAt i) (iResolvedAt i) (iUpdatedAt i)
    (iAckedBy i) (iAckedAt i) v (iSnoozedBy i) (iSnoozedUntil i) (iNotified i) (iNotifiedAt i)
    (iOpenNotifiedAt i) (iOwedOpen i) (iOwedRecovery i) (iOwedOpenRules i) (iSuppressed i)
    (iSuppressedAt i) (iFlaps i) (iFlapping i) (iEscalated i) (iNoEscalate i).
Definition with_iSnoozedBy (v : string) (i : Incident) : Incident :=
  mkIncident (iID i) (iKey i) (iKind i) (iSeverity i) (iNodeID i) (iMonitorID i) (iSubject i)
    (iState i) (iTitle i) (iDetail i) (iLine i) (iRecoveryTitle i) (iRecoveryDetail i)
    (iRecoveryLine i) (iSince i) (iFirstOpenedAt i) (iOpenedAt i) (iResolvedAt i) (iUpdatedAt i)
    (iAckedBy i) (iAckedAt i) (iAckCancelledOpen i) v (iSnoozedUntil i) (iNotified i)
    (iNotifiedAt i) (iOpenNotifiedAt i) (iOwedOpen i) (iOwedRecovery i) (iOwedOpenRules i)
    (iSuppressed i) (iSuppressedAt i) (iFlaps i) (iFlapping i) (iEscalated i) (iNoEscalate i).
Definition with_iSnoozedUntil (v : time) (i : Incident) : Incident :=
  mkIncident (iID i) (iKey i) (iKind i) (iSeverity i) (iNodeID i) (iMonitorID i) (iSubject i)
    (iState i) (iTitle i) (iDetail i) (iLine i) (iRecoveryTitle i) (iRecoveryDetail i)
    (iRecoveryLine i) (iSince i) (iFirstOpenedAt i) (iOpenedAt i) (iResolvedAt i) (iUpdatedAt i)
    (iAckedBy i) (iAckedAt i) (iAckCancelledOpen i) (iSnoozedBy i) v (iNotified i)
    (iNotifiedAt i) (iOpenNotifiedAt i) (iOwedOpen i) (iOwedRecovery i) (iOwedOpenRules i)
    (iSuppressed i) (iSuppressedAt i) (iFlaps i) (iFlapping i) (iEscalated i) (iNoEscalate i).
Definition with_iNotified (v : string) (i : Incident) : Incident :=
  mkIncident (iID i) (iKey i) (iKind i) (iSeverity i) (iNodeID i) (iMonitorID i) (iSubject i)
    (iState i) (iTitle i) (iDetail i) (iLine i) (iRecoveryTitle i) (iRecoveryDetail i)
    (iRecoveryLine i) (iSince i) (iFirstOpenedAt i) (iOpenedAt i) (iResolvedAt i) (iUpdatedAt i)
    (iAckedBy i) (iAckedAt i) (iAckCancelledOpen i) (iSnoozedBy i) (iSnoozedUntil i) v
    (iNotifiedAt i) (iOpenNotifiedAt i) (iOwedOpen i) (iOwedRecovery i) (iOwedOpenRules i)
    (iSuppressed i) (iSuppressedAt i) (iFlaps i) (iFlapping i) (iEscalated i) (iNoEscalate i).
Definition with_iNotifiedAt (v : time) (i : Incident) : Incident :=
  mkIncident (iID i) (iKey i) (iKind i) (iSeverity i) (iNodeID i) (iMonitorID i) (iSubject i)
    (iState i) (iTitle i) (iDetail i) (iLine i) (iRecoveryTitle i) (iRecoveryDetail i)
    (iRecoveryLine i) (iSince i) (iFirstOpenedAt i) (iOpenedAt i) (iResolvedAt i) (iUpdatedAt i)
    (iAckedBy i) (iAckedAt i) (iAckCancelledOpen i) (iSnoozedBy i) (iSnoozedUntil i)
    (iNotified i) v (iOpenNotifiedAt i) (iOwedOpen i) (iOwedRecovery i) (iOwedOpenRules i)
    (iSuppressed i) (iSuppressedAt i) (iFlaps i) (iFlapping i) (iEscalated i) (iNoEscalate i).
Definition with_iOpenNotifiedAt (v : time) (i : Incident) : Incident :=
  mkIncident (iID i) (iKey i) (iKind i) (iSeverity i) (iNodeID i) (iMonitorID i) (iSubject i)
    (iState i) (iTitle i) (iDetail i) (iLine i) (iRecoveryTitle i) (iRecoveryDetail i)
    (iRecoveryLine i) (iSince i) (iFirstOpenedAt i) (iOpenedAt i) (iResolvedAt i) (iUpdatedAt i)
    (iAckedBy i) (iAckedAt i) (iAckCancelledOpen i) (iSnoozedBy i) (iSnoozedUntil i)
    (iNotified i) (iNotifiedAt i) v (iOwedOpen i) (iOwedRecovery i) (iOwedOpenRules i)
    (iSuppressed i) (iSuppressedAt i) (iFlaps i) (iFlapping i) (iEscalated i) (iNoEscalate i).
Definition with_iOwedOpen (v : bool) (i : Incident) : Incident :=
  mkIncident (iID i) (iKey i) (iKind i) (iSeverity i) (iNodeID i) (iMonitorID i) (iSubject i)
    (iState i) (iTitle i) (iDetail i) (iLine i) (iRecoveryTitle i) (iRecoveryDetail i)
    (iRecoveryLine i) (iSince i) (iFirstOpenedAt i) (iOpenedAt i) (iResolvedAt i) (iUpdatedAt i)
    (iAckedBy i) (iAckedAt i) (iAckCancelledOpen i) (iSnoozedBy i) (iSnoozedUntil i)
    (iNotified i) (iNotifiedAt i) (iOpenNotifiedAt i) v (iOwedRecovery i) (iOwedOpenRules i)
    (iSuppressed i) (iSuppressedAt i) (iFlaps i) (iFlapping i) (iEscalated i) (iNoEscalate i).
Definition with_iOwedRecovery (v : bool) (i : Incident) : Incident :=
  mkIncident (iID i) (iKey i) (iKind i) (iSeverity i) (iNodeID i) (iMonitorID i) (iSubject i)
    (iState i) (iTitle i) (iDetail i) (iLine i) (iRecoveryTitle i) (iRecoveryDetail i)
    (iRecoveryLine i) (iSince i) (iFirstOpenedAt i) (iOpenedAt i) (iResolvedAt i) (iUpdatedAt i)
    (iAckedBy i) (iAckedAt i) (iAckCancelledOpen i) (iSnoozedBy i) (iSnoozedUntil i)
    (iNotified i) (iNotifiedAt i) (iOpenNotifiedAt i) (iOwedOpen i) v (iOwedOpenRules i)
    (iSuppressed i) (iSuppressedAt i) (iFlaps i) (iFlapping i) (iEscalated i) (iNoEscalate i).
Definition with_iOwedOpenRules (v : list string) (i : Incident) : Incident :=
  mkIncident (iID i) (iKey i) (iKind i) (iSeverity i) (iNodeID i) (iMonitorID i) (iSubject i)
    (iState i) (iTitle i) (iDetail i) (iLine i) (iRecoveryTitle i) (iRecoveryDetail i)
    (iRecoveryLine i) (iSince i) (iFirstOpenedAt i) (iOpenedAt i) (iResolvedAt i) (iUpdatedAt i)
    (iAckedBy i) (iAckedAt i) (iAckCancelledOpen i) (iSnoozedBy i) (iSnoozedUntil i)
    (iNotified i) (iNotifiedAt i) (iOpenNotifiedAt i) (iOwedOpen i) (iOwedRecovery i) v
    (iSuppressed i) (iSuppressedAt i) (iFlaps i) (iFlapping i) (iEscalated i) (iNoEscalate i).
Definition with_iSuppressed (v : string) (i : Incident) : Incident :=
  mkIncident (iID i) (iKey i) (iKind i) (iSeverity i) (iNodeID i) (iMonitorID i) (iSubject i)
    (iState i) (iTitle i) (iDetail i) (iLine i) (iRecoveryTitle i) (iRecoveryDetail i)
    (iRecoveryLine i) (iSince i) (iFirstOpenedAt i) (iOpenedAt i) (iResolvedAt i) (iUpdatedAt i)
    (iAckedBy i) (iAckedAt i) (iAckCancelledOpen i) (iSnoozedBy i) (iSnoozedUntil i)
    (iNotified i) (iNotifiedAt i) (iOpenNotifiedAt i) (iOwedOpen i) (iOwedRecovery i)
    (iOwedOpenRules i) v (iSuppressedAt i) (iFlaps i) (iFlapping i) (iEscalated i)
    (iNoEscalate i).
Definition with_iSuppressedAt (v : time) (i : Incident) : Incident :=
  mkIncident (iID i) (iKey i) (iKind i) (iSeverity i) (iNodeID i) (iMonitorID i) (iSubject i)
    (iState i) (iTitle i) (iDetail i) (iLine i) (iRecoveryTitle i) (iRecoveryDetail i)
    (iRecoveryLine i) (iSince i) (iFirstOpenedAt i) (iOpenedAt i) (iResolvedAt i) (iUpdatedAt i)
    (iAckedBy i) (iAckedAt i) (iAckCancelledOpen i) (iSnoozedBy i) (iSnoozedUntil i)
    (iNotified i) (iNotifiedAt i) (iOpenNotifiedAt i) (iOwedOpen i) (iOwedRecovery i)
    (iOwedOpenRules i) (iSuppressed i) v (iFlaps i) (iFlapping i) (iEscalated i) (iNoEscalate i).
Definition with_iFlaps (v : Z) (i : Incident) : Incident :=
  mkIncident (iID i) (iKey i) (iKind i) (iSeverity i) (iNodeID i) (iMonitorID i) (iSubject i)
    (iState i) (iTitle i) (iDetail i) (iLine i) (iRecoveryTitle i) (iRecoveryDetail i)
    (iRecoveryLine i) (iSince i) (iFirstOpenedAt i) (iOpenedAt i) (iResolvedAt i) (iUpdatedAt i)
    (iAckedBy i) (iAckedAt i) (iAckCancelledOpen i) (iSnoozedBy i) (iSnoozedUntil i)
    (iNotified i) (iNotifiedAt i) (iOpenNotifiedAt i) (iOwedOpen i) (iOwedRecovery i)
    (iOwedOpenRules i) (iSuppressed i) (iSuppressedAt i) v (iFlapping i) (iEscalated i)
    (iNoEscalate i).
Definition with_iFlapping (v : bool) (i : Incident) : Incident :=
  mkIncident (iID i) (iKey i) (iKind i) (iSeverity i) (iNodeID i) (iMonitorID i) (iSubject i)
    (iState i) (iTitle i) (iDetail i) (iLine i) (iRecoveryTitle i) (iRecoveryDetail i)
    (iRecoveryLine i) (iSince i) (iFirstOpenedAt i) (iOpenedAt i) (iResolvedAt i) (iUpdatedAt i)
    (iAckedBy i) (iAckedAt i) (iAckCancelledOpen i) (iSnoozedBy i) (iSnoozedUntil i)
    (iNotified i) (iNotifiedAt i) (iOpenNotifiedAt i) (iOwedOpen i) (iOwedRecovery i)
    (iOwedOpenRules i) (iSuppressed i) (iSuppressedAt i) (iFlaps i) v (iEscalated i)
    (iNoEscalate i).
Definition with_iEscalated (v : gmap string time) (i : Incident) : Incident :=
  mkIncident (iID i) (iKey i) (iKind i) (iSeverity i) (iNodeID i) (iMonitorID i) (iSubject i)
    (iState i) (iTitle i) (iDetail i) (iLine i) (iRecoveryTitle i) (iRecoveryDetail i)
    (iRecoveryLine i) (iSince i) (iFirstOpenedAt i) (iOpenedAt i) (iResolvedAt i) (iUpdatedAt i)
    (iAckedBy i) (iAckedAt i) (iAckCancelledOpen i) (iSnoozedBy i) (iSnoozedUntil i)
    (iNotified i) (iNotifiedAt i) (iOpenNotifiedAt i) (iOwedOpen i) (iOwedRecovery i)
    (iOwedOpenRules i) (iSuppressed i) (iSuppressedAt i) (iFlaps i) (iFlapping i) v
    (iNoEscalate i).
Definition zero_incident : Incident :=
  mkIncident "" "" "" "" "" "" "" "" "" "" "" "" "" "" 0 0 0 0 0 "" 0 false "" 0 "" 0 0 false false [] "" 0 0 false ∅ false.

Definition IncidentStateOpen : string := "open".
Definition IncidentStateAcknowledged : string := "acknowledged".
Definition IncidentStateResolved : string := "resolved".
Definition IncidentNotifiedOpen : string := "open".
Definition IncidentNotifiedResolved : string := "resolved".
Definition MaxIncidents : Z := 2000.
Definition hour : duration := 60 * minute.
Definition day : duration := 24 * hour.
Definition IncidentRetention : duration := 30 * day.
Definition MaxMaintenanceWindows : Z := 500.
Definition MaintenanceWindowRetention : duration := 30 * day.
Definition maxIncidentText : nat := 2048.
Definition MaxNotifyTitleBytes : nat := 512.

Definition Active (i : Incident) : bool := (iState i =?? IncidentStateOpen) || (iState i =?? IncidentStateAcknowledged).

Record MaintenanceWindow := mkWindow {
  mwID : string; mwName : string; mwReason : string; mwNodeIDs : list string; mwGroupIDs : list string;
  StartsAt : time; EndsAt : time; mwCreatedBy : string; mwCreatedAt : time; mwUpdatedAt : time }.
Definition ActiveAt (w : MaintenanceWindow) (t : time) : bool := negb (before t (StartsAt w)) && before t (EndsAt w).

(** ** Bounded text ([TruncateUTF8] of [store/notify_outbox.go]) *)

Definition RuneStart (c : ascii) : bool := negb (Z.land (code c) 192 =? 128).
Definition truncated_marker : string := " [truncated]".
Fixpoint rune_cut (s : list ascii) (cut : nat) : nat :=
  match cut with
  | O => O
  | S k => if RuneStart (default zero (s !! cut)) then cut else rune_cut s k
  end.
Definition TruncateUTF8 (s : string) (limit : nat) : string * bool :=
  if (String.length s <=? limit)%nat then (s, false)
  else if (limit <=? String.length truncated_marker)%nat then ("", true)
  else (str_take (rune_cut (bytes_of s) (limit - String.length truncated_marker)) s +:+ truncated_marker, true).
Definition boundIncidentText (i : Incident) : Incident :=
  let cut n s := (TruncateUTF8 s n).1 in
  with_iTitle (cut MaxNotifyTitleBytes (iTitle i)) (with_iDetail (cut maxIncidentText (iDetail i))
  (with_iLine (cut 512%nat (iLine i)) (with_iRecoveryTitle (cut MaxNotifyTitleBytes (iRecoveryTitle i))
  (with_iRecoveryDetail (cut maxIncidentText (iRecoveryDetail i)) (with_iRecoveryLine (cut 512%nat (iRecoveryLine i))
  (with_iSubject (cut 256%nat (iSubject i)) (with_iSuppressed (cut 512%nat (iSuppressed i)) i))))))).

(** ** The book and its indexes *)

Record incidentBook := mkBook {
  incidents : gmap string Incident; windows : gmap string MaintenanceWindow;
  bActive : gmap string string; bLatest : gmap string string }.
Definition empty_book : incidentBook := mkBook ∅ ∅ ∅ ∅.
(** An order in which Go ranges over the incidents. *)
Definition order : Type := gmap string Incident → list Incident.
Definition valid_order (o : order) : Prop := ∀ m, o m ≡ₚ (map_to_list m).*2.

Definition indexLocked (inc : Incident) (b : incidentBook) : incidentBook :=
  let active :=
    if Active inc then <[iKey inc := iID inc]> (bActive b)
    else if default "" (bActive b !! iKey inc) =?? iID inc then delete (iKey inc) (bActive b) else bActive b in
  let latest :=
    match incidents b !! default "" (bLatest b !! iKey inc) with
    | None => <[iKey inc := iID inc]> (bLatest b)
    | Some cur =>
      if (iID cur =?? iID inc) || negb (after (iOpenedAt cur) (iOpenedAt inc))
      then <[iKey inc := iID inc]> (bLatest b) else bLatest b
    end in
  mkBook (incidents b) (windows b) active latest.

(** The scan for the next newest record of the key. *)
Fixpoint newest (best : option Incident) (l : list Incident) : option Incident :=
  match l with
  | [] => best
  | other :: l =>
    newest (match best with
            | None => Some other
            | Some x => if after (iOpenedAt other) (iOpenedAt x) then Some other else best
            end) l
  end.
Definition unindexLocked (o : order) (inc : Incident) (b : incidentBook) : incidentBook :=
  let active := if default "" (bActive b !! iKey inc) =?? iID inc then delete (iKey inc) (bActive b) else bActive b in
  let latest :=
    if default "" (bLatest b !! iKey inc) =?? iID inc then
      let rest := delete (iKey inc) (bLatest b) in
      match newest None (List.filter (fun other => negb (negb (iKey other =?? iKey inc) || (iID other =?? iID inc)))
                           (o (incidents b))) with
      | Some best => <[iKey inc := iID best]> rest
      | None => rest
      end
    else bLatest b in
  mkBook (incidents b) (windows b) active latest.
Definition reindex (o : order) (b : incidentBook) : incidentBook :=
  foldl (fun b inc => indexLocked inc b) (mkBook (incidents b) (windows b) ∅ ∅) (o (incidents b)).

Record incidentWrite := mkWrite {
  putIncidents : list Incident; delIncidents : list string;
  putWindows : list MaintenanceWindow; delWindows : list string }.
Definition write_empty (w : incidentWrite) : bool :=
  ((length (putIncidents w) =? 0) && (length (delIncidents w) =? 0) && (length (putWindows w) =? 0) &&
   (length (delWindows w) =? 0))%nat.

Definition with_incidents (m : gmap string Incident) (b : incidentBook) : incidentBook :=
  mkBook m (windows b) (bActive b) (bLatest b).
Definition delete_one (o : order) (b : incidentBook) (id : string) : incidentBook :=
  match incidents b !! id with
  | Some prev => unindexLocked o prev (with_incidents (delete id (incidents b)) b)
  | None => b
  end.
Definition put_one (o : order) (b : incidentBook) (inc : Incident) : incidentBook :=
  let b := match incidents b !! iID inc with Some prev => unindexLocked o prev b | None => b end in
  indexLocked inc (with_incidents (<[iID inc := inc]> (incidents b)) b).
Definition apply_windows (w : incidentWrite) (m : gmap string MaintenanceWindow) : gmap string MaintenanceWindow :=
  foldl (fun m mw => <[mwID mw := mw]> m) (foldl (fun m id => delete id m) m (delWindows w)) (putWindows w).
Definition applyLocked (o : order) (w : incidentWrite) (b : incidentBook) : incidentBook :=
  let b := foldl (put_one o) (foldl (delete_one o) b (delIncidents w)) (putIncidents w) in
  mkBook (incidents b) (apply_windows w (windows b)) (bActive b) (bLatest b).

(** ** The hot store *)

Record hotIncidents := mkHot { hIncidents : gmap string Incident; hWindows : gmap string MaintenanceWindow }.
(** The bolt transaction: deletes, then puts. *)
Definition WriteIncidents (w : incidentWrite) (h : hotIncidents) : hotIncidents :=
  mkHot (foldl (fun m inc => <[iID inc := inc]> m) (foldl (fun m id => delete id m) (hIncidents h) (delIncidents w))
           (putIncidents w))
    (apply_windows w (hWindows h)).
(** [hot] is the sidecar when it is on, [loadedFrom] whether the book was
    read from it. *)
Record istore := mkIStore { ibook : incidentBook; loadedFrom : bool; hot : option hotIncidents }.
Definition empty_store (h : option hotIncidents) : istore := mkIStore empty_book false h.

(** What the disk does during the call: whether reading the buckets and
    whether a transaction succeeds. *)
Record disk := mkDisk { reads : bool; writes : bool }.
Inductive incError := ErrDisk | ErrIDKeyRequired | ErrUnresolvedExists (key : string) | ErrWindowID | ErrTooManyWindows.

Definition incidentBookLocked (o : order) (d : disk) (s : istore) : istore :=
  match hot s with
  | None => s
  | Some h =>
    if loadedFrom s then s else
    let b := ibook s in
    let carry := mkWrite (o (incidents b)) [] ((map_to_list (windows b)).*2) [] in
    let b' := reindex o (mkBook (if reads d then incidents b ∪ hIncidents h else incidents b)
                           (if reads d then windows b ∪ hWindows h else windows b) ∅ ∅) in
    mkIStore b' true (if write_empty carry then Some h else if writes d then Some (WriteIncidents carry h) else Some h)
  end.
Definition commitIncidentsLocked (d : disk) (w : incidentWrite) (s : istore) : res incError istore :=
  match hot s with
  | None => Ok s
  | Some h =>
    if write_empty w then Ok s else
    if writes d then Ok (mkIStore (ibook s) (loadedFrom s) (Some (WriteIncidents w h))) else Err ErrDisk
  end.
Definition apply_store (o : order) (w : incidentWrite) (s : istore) : istore :=
  mkIStore (applyLocked o w (ibook s)) (loadedFrom s) (hot s).

(** ** Operations *)

Fixpoint evict (excess : Z) (l : list Incident) : list string :=
  match l with
  | [] => []
  | inc :: l => if excess <=? 0 then [] else iID inc :: evict (excess - 1) l
  end.
Definition resolved_before (a b : Incident) : Prop := iResolvedAt a <= iResolvedAt b.
#[export] Instance resolved_before_dec : RelDecision resolved_before := fun a b => Z_le_dec _ _.
#[export] Instance resolved_before_trans : Transitive resolved_before.
Proof. intros a b c. unfold resolved_before. lia. Qed.
#[export] Instance resolved_before_total : Total resolved_before.
Proof. intros a b. unfold resolved_before. lia. Qed.
(** Rows not in the book yet, counted per row. *)
Definition new_rows (b : incidentBook) (adding : list Incident) : Z :=
  Z.of_nat (length (List.filter (fun inc => match incidents b !! iID inc with Some _ => false | None => true end) adding)).
Definition incidentEvictionLocked (o : order) (adding : list Incident) (b : incidentBook) : list string :=
  let excess := Z.of_nat (size (incidents b)) + new_rows b adding - MaxIncidents in
  if excess <=? 0 then [] else
  evict excess (merge_sort resolved_before
    (List.filter (fun inc => negb (Active inc) && negb (mem (iID inc) (map iID adding))) (o (incidents b)))).

Fixpoint clean_rows (active : gmap string string) (rows : list Incident) : res incError (list Incident) :=
  match rows with
  | [] => Ok []
  | inc :: rows =>
    fail_if (trim_space (iID inc) =?? "") || (trim_space (iKey inc) =?? "") with ErrIDKeyRequired;
    fail_if match active !! iKey inc with Some other => negb (other =?? iID inc) && Active inc | None => false end
      with ErrUnresolvedExists (iKey inc);
    cons (boundIncidentText inc) <$> clean_rows active rows
  end.
(** The change is applied in memory even when the disk refuses it. *)
Definition PutIncidents (o : order) (d : disk) (rows : list Incident) (s : istore) : istore * option incError :=
  match rows with [] => (s, None) | _ =>
  let s := incidentBookLocked o d s in
  match clean_rows (bActive (ibook s)) rows with
  | Err e => (s, Some e)
  | Ok clean =>
    let w := mkWrite clean (incidentEvictionLocked o clean (ibook s)) [] [] in
    match commitIncidentsLocked d w s with
    | Ok s => (apply_store o w s, None)
    | Err e => (apply_store o w s, Some e)
    end
  end end.
Definition delete_ids (o : order) (d : disk) (ids : list string) (s : istore) : istore * option incError :=
  let w := mkWrite [] ids [] [] in
  match commitIncidentsLocked d w s with
  | Err e => (s, Some e)
  | Ok s => (apply_store o w s, None)
  end.
Definition DeleteIncidents (o : order) (d : disk) (ids : list string) (s : istore) : istore * option incError :=
  match ids with [] => (s, None) | _ =>
  let s := incidentBookLocked o d s in
  delete_ids o d (List.filter (fun id => match incidents (ibook s) !! id with Some _ => true | None => false end) ids) s
  end.
Definition deleteIncidentsLocked (o : order) (d : disk) (matches : Incident → bool) (s : istore)
  : istore * option incError :=
  let s := incidentBookLocked o d s in
  delete_ids o d (map iID (List.filter matches (o (incidents (ibook s))))) s.
Definition PruneIncidents (o : order) (d : disk) (cutoff : time) (s : istore) : istore * option incError :=
  deleteIncidentsLocked o d (fun inc => negb (Active inc) && negb (iFlapping inc) && before (iResolvedAt inc) cutoff) s.

Definition opened_le (a b : Incident) : Prop :=
  if iOpenedAt a =? iOpenedAt b then String.le (iID a) (iID b) else iOpenedAt a <= iOpenedAt b.
#[export] Instance opened_le_dec : RelDecision opened_le.
Proof. intros a b. unfold opened_le. destruct (_ =? _); apply _. Defined.
Definition IncidentsWhere (o : order) (matches : Incident → bool) (b : incidentBook) : list Incident :=
  merge_sort opened_le (List.filter matches (o (incidents b))).
Definition get_incident (id : string) (b : incidentBook) : option Incident := incidents b !! id.
Definition ActiveIncident (key : string) (b : incidentBook) : option Incident :=
  id ← bActive b !! key; Some (default zero_incident (incidents b !! id)).
Definition LatestIncident (key : string) (b : incidentBook) : option Incident :=
  id ← bLatest b !! key; Some (default zero_incident (incidents b !! id)).

Definition PutMaintenanceWindow (o : order) (d : disk) (mw : MaintenanceWindow) (now : time) (s : istore)
  : istore * option incError :=
  if trim_space (mwID mw) =?? "" then (s, Some ErrWindowID) else
  let s := incidentBookLocked o d s in
  let old := (map_to_list (windows (ibook s))) in
  let ended := map fst (List.filter (fun '(id, e) => negb (id =?? mwID mw) &&
    (MaintenanceWindowRetention <? time_sub now (EndsAt e))) old) in
  if match windows (ibook s) !! mwID mw with Some _ => false | None => true end &&
     (MaxMaintenanceWindows <=? Z.of_nat (size (windows (ibook s))) - Z.of_nat (length ended))
  then (s, Some ErrTooManyWindows) else
  let w := mkWrite [] [] [mw] ended in
  match commitIncidentsLocked d w s with
  | Err e => (s, Some e)
  | Ok s => (apply_store o w s, None)
  end.
Definition DeleteMaintenanceWindow (o : order) (d : disk) (id : string) (s : istore) : istore * option incError :=
  let s := incidentBookLocked o d s in
  match windows (ibook s) !! id with
  | None => (s, None)
  | Some _ =>
    let w := mkWrite [] [] [] [id] in
    match commitIncidentsLocked d w s with
    | Err e => (s, Some e)
    | Ok s => (apply_store o w s, None)
    end
  end.

(** ** The invariant of the book

    Records are stored under their id; the index of unresolved records is
    exact, so a key has at most one; the newest record of a key is on file
    and none of the key opened later. *)

Definition active_exact (b : incidentBook) : Prop :=
  ∀ k id, bActive b !! k = Some id ↔ ∃ inc, incidents b !! id = Some inc ∧ iKey inc = k ∧ Active inc = true.
Definition latest_exact (b : incidentBook) : Prop :=
  (∀ k id, bLatest b !! k = Some id → ∃ inc, incidents b !! id = Some inc ∧ iKey inc = k ∧
     ∀ id' inc', incidents b !! id' = Some inc' → iKey inc' = k → iOpenedAt inc' <= iOpenedAt inc) ∧
  (∀ id inc, incidents b !! id = Some inc → is_Some (bLatest b !! iKey inc)).
Definition ids_ok (m : gmap string Incident) : Prop := ∀ id inc, m !! id = Some inc → iID inc = id ∧ id ≠ "".
Record book_ok (b : incidentBook) : Prop := {
  ok_ids : ids_ok (incidents b);
  ok_active : active_exact b;
  ok_latest : latest_exact b;
}.

(** The unresolved records of a key. *)
Lemma book_one_active b id id' inc inc' :
  book_ok b → incidents b !! id = Some inc → incidents b !! id' = Some inc' →
  Active inc = true → Active inc' = true → iKey inc = iKey inc' → id = id'.
Proof.
  intros [_ Ha _] H H' A A' Hk.
  assert (bActive b !! iKey inc = Some id) as E by (apply Ha; eauto).
  assert (bActive b !! iKey inc' = Some id') as E' by (apply Ha; eauto). congruence.
Qed.

(** An index of all records but one: what remains after the record is taken
    out, before it is replaced. *)
Definition but (id : string) (m : gmap string Incident) : gmap string Incident := delete id m.
Record indexes (m : gmap string Incident) (active latest : gmap string string) : Prop := {
  ix_ids : ids_ok m;
  ix_active : active_exact (mkBook m ∅ active latest);
  ix_latest : latest_exact (mkBook m ∅ active latest);
}.
Lemma book_ok_indexes b : book_ok b ↔ indexes (incidents b) (bActive b) (bLatest b).
Proof. split; intros [H1 H2 H3]; by split. Qed.

Section indexing.
Variable o : order.
Hypothesis Ho : valid_order o.
Lemma order_elem m inc : ids_ok m → inc ∈ o m ↔ m !! iID inc = Some inc.
Proof.
  intros Hm. rewrite (Ho m), list_elem_of_fmap. split.
  - intros ([id i] & -> & H%elem_of_map_to_list). cbn. by destruct (Hm _ _ H) as [-> _].
  - intros H. exists (iID inc, inc). by rewrite elem_of_map_to_list.
Qed.
Lemma newest_Some l best :
  match newest best l with
  | None => best = None ∧ l = []
  | Some x => (x ∈ l ∨ best = Some x) ∧ (∀ y, y ∈ l ∨ best = Some y → iOpenedAt y <= iOpenedAt x)
  end.
Proof.
  revert best. induction l as [|y l IH]; intros best; cbn [newest].
  { destruct best as [x|]; [|done]. split; [by right|]. intros y [Hy|[= <-]]; [by apply elem_of_nil in Hy|lia]. }
  set (best' := match best with Some _ => _ | None => _ end). specialize (IH best').
  destruct (newest best' l) as [x|].
  - destruct IH as [Hx Hmax]. split.
    + destruct Hx as [Hx|Hx]; [left; set_solver|]. unfold best' in Hx. destruct best as [z|].
      * destruct (after _ _); [|by right]. simplify_eq. left. set_solver.
      * simplify_eq. left. set_solver.
    + intros z Hz. unfold after in *. destruct best as [w|]; unfold best' in *.
      * destruct (Z.ltb_spec (iOpenedAt w) (iOpenedAt y)).
        -- pose proof (Hmax y (or_intror eq_refl)). destruct Hz as [[->|Hz]%elem_of_cons|[= ->]]; [done|auto|lia].
        -- pose proof (Hmax w (or_intror eq_refl)). destruct Hz as [[->|Hz]%elem_of_cons|[= ->]]; [lia|auto|done].
      * pose proof (Hmax y (or_intror eq_refl)). destruct Hz as [[->|Hz]%elem_of_cons|Hz]; [done|auto|done].
  - exfalso. destruct IH as [Hb _]. unfold best' in Hb. destruct best as [z|]; [|done]. by destruct (after _ _).
Qed.

Lemma unindex_active m A L prev :
  indexes m A L → m !! iID prev = Some prev →
  let A' := if default "" (A !! iKey prev) =?? iID prev then delete (iKey prev) A else A in
  ∀ k id, A' !! k = Some id ↔ ∃ inc, delete (iID prev) m !! id = Some inc ∧ iKey inc = k ∧ Active inc = true.
Proof.
  intros [Hids Hact _] Hp A' k id. cbn in Hact. unfold active_exact in Hact. cbn in Hact.
  destruct (Hids _ _ Hp) as [_ Hne].
  assert (A' !! k = Some id ↔ A !! k = Some id ∧ id ≠ iID prev) as ->.
  { unfold A'. case_bool_decide as E.
    - assert (A !! iKey prev = Some (iID prev)) as E' by (destruct (A !! iKey prev); cbn in E; congruence).
      destruct (decide (k = iKey prev)) as [->|Hk].
      + rewrite lookup_delete_eq. split; [done|]. intros [? ?]. congruence.
      + rewrite lookup_delete_ne by done. split; [|tauto]. intros H. split; [done|]. intros ->.
        apply Hact in H as (i & Hi & Hki & _). congruence.
    - split; [|tauto]. intros H. split; [done|]. intros ->. apply E.
      pose proof H as (i & Hi & Hki & _)%Hact. rewrite Hi in Hp. simplify_eq. by rewrite H. }
  rewrite Hact. split.
  - intros [(i & Hi & ? & ?) Hd]. exists i. by rewrite lookup_delete_ne.
  - intros (i & Hi & ? & ?). apply lookup_delete_Some in Hi as [? ?]. split; [eauto|congruence].
Qed.
Lemma unindex_latest m m' A L w prev :
  indexes m A L → m !! iID prev = Some prev → m' = m ∨ m' = delete (iID prev) m →
  latest_exact (mkBook (delete (iID prev) m) w ∅ (bLatest (unindexLocked o prev (mkBook m' w A L)))).
Proof.
  intros [Hids _ [HL1 HL2]] Hp Hm'. cbn in *. destruct (Hids _ _ Hp) as [_ Hne].
  assert (ids_ok m') as Hids'.
  { destruct Hm' as [->| ->]; [done|]. intros i x [_ H]%lookup_delete_Some. by apply Hids. }
  unfold unindexLocked. cbn [bLatest incidents bActive]. case_bool_decide as E.
  - assert (L !! iKey prev = Some (iID prev)) as E' by (destruct (L !! iKey prev); cbn in E; congruence).
    set (l := List.filter _ _).
    assert (∀ x, x ∈ l ↔ delete (iID prev) m !! iID x = Some x ∧ iKey x = iKey prev) as Hl.
    { intros x. unfold l. rewrite list_elem_of_In, filter_In, <- list_elem_of_In, order_elem by done.
      rewrite negb_true_iff, orb_false_iff, negb_false_iff, bool_decide_eq_true, bool_decide_eq_false.
      destruct Hm' as [->| ->].
      - split; [intros (? & ? & ?); split; [by rewrite lookup_delete_ne|done]|].
        intros [[? ?]%lookup_delete_Some ?]. split_and!; congruence.
      - split; [tauto|]. intros [H ?]. split_and!; [done..|]. apply lookup_delete_Some in H as [? _]. congruence. }
    pose proof (newest_Some l None) as Hn. destruct (newest None l) as [best|].
    + destruct Hn as [[Hb|?] Hmax]; [|done]. apply Hl in Hb as [Hb Hkb]. split; cbn.
      * intros k id. destruct (decide (k = iKey prev)) as [->|Hk].
        -- rewrite lookup_insert_eq. intros [= <-]. exists best. split_and!; [done..|].
           intros id' inc' H' Hk'. apply Hmax. left. apply Hl. pose proof H' as [_ H'']%lookup_delete_Some.
           by destruct (Hids _ _ H'') as [-> _].
        -- rewrite lookup_insert_ne, lookup_delete_ne by done. intros (i & Hi & Hki & Hm)%HL1.
           assert (id ≠ iID prev) by (intros ->; congruence).
           exists i. rewrite lookup_delete_ne by done. split_and!; [done..|].
           intros id' inc' [_ H']%lookup_delete_Some Hk'. exact (Hm _ _ H' Hk').
      * intros id inc [_ H]%lookup_delete_Some. apply HL2 in H as [z Hz].
        destruct (decide (iKey inc = iKey prev)) as [->|Hk]; [by rewrite lookup_insert_eq|].
        rewrite lookup_insert_ne, lookup_delete_ne by done. eauto.
    + destruct Hn as [_ Hnil]. split; cbn.
      * intros k id [Hk (i & Hi & Hki & Hm)%HL1]%lookup_delete_Some.
        assert (id ≠ iID prev) by (intros ->; congruence).
        exists i. rewrite lookup_delete_ne by done. split_and!; [done..|].
        intros id' inc' [_ H']%lookup_delete_Some Hk'. exact (Hm _ _ H' Hk').
      * intros id inc H. pose proof H as [_ H']%lookup_delete_Some.
        destruct (decide (iKey inc = iKey prev)) as [Hk|Hk].
        -- exfalso. assert (inc ∈ l) as Hin; [|rewrite Hnil in Hin; by apply elem_of_nil in Hin].
           apply Hl. by destruct (Hids _ _ H') as [-> _].
        -- rewrite lookup_delete_ne by done. by eapply HL2.
  - split; cbn.
    + intros k id Hlk. pose proof Hlk as (i & Hi & Hki & Hm)%HL1. exists i.
      assert (id ≠ iID prev). { intros ->. apply E. rewrite Hp in Hi. simplify_eq. by rewrite Hlk. }
      rewrite lookup_delete_ne by done. split_and!; [done..|].
      intros id' inc' [_ H']%lookup_delete_Some Hk'. exact (Hm _ _ H' Hk').
    + intros id inc [_ H]%lookup_delete_Some. by eapply HL2.
Qed.
Lemma unindex_spec m m' A L w prev :
  indexes m A L → m !! iID prev = Some prev → m' = m ∨ m' = delete (iID prev) m →
  let b := unindexLocked o prev (mkBook m' w A L) in
  indexes (delete (iID prev) m) (bActive b) (bLatest b).
Proof.
  intros Hx Hp Hm' b. split.
  - intros i x [_ H]%lookup_delete_Some. by apply (ix_ids _ _ _ Hx).
  - intros k id. by apply (unindex_active m A L prev).
  - by destruct (unindex_latest m m' A L w prev Hx Hp Hm').
Qed.
Lemma index_spec m A L w inc :
  indexes m A L → m !! iID inc = None → iID inc ≠ "" → (Active inc = true → A !! iKey inc = None) →
  let b := indexLocked inc (mkBook (<[iID inc := inc]> m) w A L) in
  indexes (<[iID inc := inc]> m) (bActive b) (bLatest b).
Proof.
  intros [Hids Hact [HL1 HL2]] Hn Hne Hfree b. cbn in *. unfold active_exact in Hact. cbn in Hact.
  assert (ids_ok (<[iID inc := inc]> m)) as Hids'.
  { intros i x. rewrite lookup_insert_Some. intros [[<- <-]|[_ H]]; [done|by apply Hids]. }
  split; [done| |].
  - intros k id. unfold b, indexLocked. cbn [bActive incidents]. destruct (Active inc) eqn:Ea.
    + destruct (decide (k = iKey inc)) as [->|Hk].
      * rewrite lookup_insert_eq. split.
        -- intros [= <-]. exists inc. by rewrite lookup_insert_eq.
        -- intros (i & [[<- <-]|[_ Hi]]%lookup_insert_Some & Hki & Hai); [done|].
           rewrite (proj2 (Hact (iKey inc) id)) in Hfree by eauto. by specialize (Hfree eq_refl).
      * rewrite lookup_insert_ne by done. rewrite Hact. split.
        -- intros (i & Hi & ? & ?). exists i. rewrite lookup_insert_ne; [done|congruence].
        -- intros (i & [[<- <-]|[_ Hi]]%lookup_insert_Some & Hki & Hai); [done|eauto].
    + assert (default "" (A !! iKey inc) =?? iID inc = false) as ->.
      { apply bool_decide_eq_false. destruct (A !! iKey inc) eqn:E; cbn; [|congruence].
        intros ->. apply Hact in E as (i & Hi & _). congruence. }
      rewrite Hact. split.
      * intros (i & Hi & ? & ?). exists i. rewrite lookup_insert_ne; [done|congruence].
      * intros (i & [[<- <-]|[_ Hi]]%lookup_insert_Some & Hki & Hai); [congruence|eauto].
  - unfold b, indexLocked. cbn [bLatest incidents].
    assert (∀ a l, (∀ k, k ≠ iKey inc → l !! k = L !! k) →
      ((l !! iKey inc = Some (iID inc) ∧ ∀ id' inc', m !! id' = Some inc' → iKey inc' = iKey inc → iOpenedAt inc' <= iOpenedAt inc) ∨
       (∃ id cur, l !! iKey inc = Some id ∧ L !! iKey inc = Some id ∧ m !! id = Some cur ∧ iOpenedAt inc < iOpenedAt cur)) →
      latest_exact (mkBook (<[iID inc := inc]> m) ∅ a l)) as Hgen.
    { intros a l Hl Hcase. split; cbn.
      - intros k id Hk. destruct (decide (k = iKey inc)) as [->|Hd].
        + destruct Hcase as [[E Hmax]|(id0 & cur & E & EL & Hc & Hlt)].
          * rewrite E in Hk. simplify_eq. exists inc. rewrite lookup_insert_eq. split_and!; [done..|].
            intros id' inc' [[<- <-]|[_ H']]%lookup_insert_Some Hk'; [lia|exact (Hmax _ _ H' Hk')].
          * rewrite E in Hk. simplify_eq. pose proof (HL1 _ _ EL) as (i & Hi & Hki & Hm). simplify_eq.
            exists cur. rewrite lookup_insert_ne by congruence. split_and!; [done..|].
            intros id' inc' [[<- <-]|[_ H']]%lookup_insert_Some Hk'; [lia|exact (Hm _ _ H' Hk')].
        + rewrite Hl in Hk by done. pose proof (HL1 _ _ Hk) as (i & Hi & Hki & Hm). exists i.
          rewrite lookup_insert_ne by congruence. split_and!; [done..|].
          intros id' inc' [[<- <-]|[_ H']]%lookup_insert_Some Hk'; [congruence|exact (Hm _ _ H' Hk')].
      - intros id i [[<- <-]|[_ H]]%lookup_insert_Some.
        + destruct Hcase as [[-> _]|(? & ? & -> & _)]; eauto.
        + destruct (decide (iKey i = iKey inc)) as [->|Hd].
          * destruct Hcase as [[-> _]|(? & ? & -> & _)]; eauto.
          * rewrite Hl by done. by eapply HL2. }
    assert (∀ a l, l = <[iKey inc := iID inc]> L → (∀ id' inc', m !! id' = Some inc' → iKey inc' = iKey inc → iOpenedAt inc' <= iOpenedAt inc) →
      latest_exact (mkBook (<[iID inc := inc]> m) ∅ a l)) as Hset.
    { intros a l -> Hmax. apply Hgen; [intros; by rewrite lookup_insert_ne|]. left. by rewrite lookup_insert_eq. }
    destruct (L !! iKey inc) as [id0|] eqn:EL; cbn [default from_option]; [change (id id0) with id0|].
    + pose proof (HL1 _ _ EL) as (cur & Hc & Hkc & Hm). rewrite lookup_insert_ne, Hc by congruence.
      destruct (Hids _ _ Hc) as [Hcid _].
      assert (iID cur =?? iID inc = false) as -> by (apply bool_decide_eq_false; congruence). cbn [orb].
      unfold after. destruct (Z.ltb_spec (iOpenedAt inc) (iOpenedAt cur)) as [Hlt|Hge]; cbn [negb].
      * apply Hgen; [done|]. right. rewrite EL. eauto 10.
      * apply Hset; [done|]. intros id' inc' H' Hk'. pose proof (Hm _ _ H' Hk'). lia.
    + assert (<[iID inc := inc]> m !! "" = None) as ->.
      { destruct (<[iID inc := inc]> m !! "") eqn:E; [|done]. apply Hids' in E as [_ ?]. done. }
      apply Hset; [done|]. intros id' inc' H' Hk'. apply HL2 in H' as [? H']. congruence.
Qed.

Lemma empty_indexes : indexes ∅ ∅ ∅.
Proof.
  split; [by intros ? ? ?%lookup_empty_Some| |split].
  - intros k id. cbn. rewrite lookup_empty. split; [done|]. by intros (? & ?%lookup_empty_Some & _).
  - intros k id. cbn. by rewrite lookup_empty.
  - cbn. by intros ? ? ?%lookup_empty_Some.
Qed.
(** Replacing or adding one record. *)
Lemma put_one_ok b inc :
  book_ok b → iID inc ≠ "" →
  (Active inc = true → ∀ id' i, incidents b !! id' = Some i → Active i = true → iKey i = iKey inc → id' = iID inc) →
  book_ok (put_one o b inc) ∧ incidents (put_one o b inc) = <[iID inc := inc]> (incidents b) ∧
  windows (put_one o b inc) = windows b.
Proof.
  intros Hb Hne Hfree. apply book_ok_indexes in Hb. destruct b as [m w A L]. cbn [incidents bActive bLatest] in *.
  assert (∃ A' L', indexes (delete (iID inc) m) A' L' ∧ put_one o (mkBook m w A L) inc =
    indexLocked inc (mkBook (<[iID inc := inc]> m) w A' L')) as (A' & L' & Hx & ->).
  { unfold put_one. cbn [incidents]. destruct (m !! iID inc) as [prev|] eqn:Ep.
    - destruct (ix_ids _ _ _ Hb _ _ Ep) as [Hid _]. rewrite <- Hid in *.
      pose proof (unindex_spec m m A L w prev Hb Ep (or_introl eq_refl)) as Hx.
      eexists _, _. split; [exact Hx|]. done.
    - exists A, L. rewrite delete_id by done. by split. }
  rewrite <- insert_delete_eq. split; [|done].
  apply book_ok_indexes. apply index_spec; [done|by apply lookup_delete_eq|done|].
  intros Ha. destruct (A' !! iKey inc) as [id'|] eqn:E; [|done]. exfalso.
  apply (ix_active _ _ _ Hx) in E as (i & Hi & Hk & Hai). cbn in Hi. apply lookup_delete_Some in Hi as [Hd Hi].
  apply Hd. symmetry. by eapply Hfree.
Qed.
Lemma delete_one_ok b id :
  book_ok b →
  book_ok (delete_one o b id) ∧ incidents (delete_one o b id) = delete id (incidents b) ∧
  windows (delete_one o b id) = windows b.
Proof.
  intros Hb. unfold delete_one. destruct (incidents b !! id) as [prev|] eqn:Ep.
  - pose proof Hb as Hx%book_ok_indexes. destruct (ok_ids _ Hb _ _ Ep) as [Hid _]. subst id.
    destruct b as [m w A L]. cbn [incidents bActive bLatest] in *. split; [|done]. apply book_ok_indexes.
    exact (unindex_spec m _ A L w prev Hx Ep (or_intror eq_refl)).
  - split; [done|]. by rewrite delete_id.
Qed.

(** A batch opens no second record for a key. *)
Definition conflict_free (m : gmap string Incident) (rows : list Incident) : Prop :=
  ∀ r, r ∈ rows → Active r = true →
    (∀ id i, m !! id = Some i → Active i = true → iKey i = iKey r → id = iID r) ∧
    (∀ r', r' ∈ rows → Active r' = true → iKey r' = iKey r → iID r' = iID r).
Definition puts (rows : list Incident) (m : gmap string Incident) : gmap string Incident :=
  foldl (fun m inc => <[iID inc := inc]> m) m rows.
Definition dels (ids : list string) (m : gmap string Incident) : gmap string Incident := foldl (fun m id => delete id m) m ids.
Lemma puts_ok b rows :
  book_ok b → Forall (fun r => iID r ≠ "") rows → conflict_free (incidents b) rows →
  book_ok (foldl (put_one o) b rows) ∧ incidents (foldl (put_one o) b rows) = puts rows (incidents b) ∧
  windows (foldl (put_one o) b rows) = windows b.
Proof.
  revert b. induction rows as [|r rows IH]; intros b Hb Hne Hcf; [done|]. cbn [foldl puts].
  apply Forall_cons in Hne as [Hr Hne].
  destruct (put_one_ok b r Hb Hr) as (Hb' & Hi & Hw).
  { intros Ha id' i Hi Hai Hk. destruct (Hcf r) as [H _]; [set_solver|done|]. by eapply H. }
  destruct (IH (put_one o b r)) as (H1 & H2 & H3); [done|done| |by rewrite H2, H3, Hi, Hw].
  rewrite Hi. intros r' Hr' Ha'. destruct (Hcf r') as [H1 H2]; [set_solver|done|]. split.
  - intros id i [[<- <-]|[_ Hid]]%lookup_insert_Some Hai Hki; [apply H2; [set_solver|done|done]|by eapply H1].
  - intros r'' Hr''. apply H2. set_solver.
Qed.
Lemma dels_ok b ids :
  book_ok b →
  book_ok (foldl (delete_one o) b ids) ∧ incidents (foldl (delete_one o) b ids) = dels ids (incidents b) ∧
  windows (foldl (delete_one o) b ids) = windows b.
Proof.
  revert b. induction ids as [|id ids IH]; intros b Hb; [done|]. cbn [foldl dels].
  destruct (delete_one_ok b id Hb) as (Hb' & Hi & Hw).
  destruct (IH (delete_one o b id) Hb') as (H1 & H2 & H3). by rewrite H2, H3, Hi, Hw.
Qed.
Lemma dels_lookup ids m id : dels ids m !! id = if mem id ids then None else m !! id.
Proof.
  revert m. induction ids as [|x ids IH]; intros m; [done|]. cbn [dels foldl]. fold (dels ids (delete x m)).
  rewrite IH. unfold mem in *. cbn [existsb]. destruct (existsb _ ids); [by rewrite orb_true_r|]. rewrite orb_false_r.
  case_bool_decide as E; [subst; apply lookup_delete_eq|by rewrite lookup_delete_ne].
Qed.
Lemma conflict_free_mono m m' rows : m' ⊆ m → conflict_free m rows → conflict_free m' rows.
Proof.
  intros Hsub Hcf r Hr Ha. destruct (Hcf r Hr Ha) as [H1 H2]. split; [|done].
  intros id i Hi. apply H1. by eapply lookup_weaken.
Qed.
Lemma dels_sub ids m : dels ids m ⊆ m.
Proof.
  apply map_subseteq_spec. intros id i. rewrite dels_lookup. by destruct (mem id ids).
Qed.
Lemma applyLocked_ok b w :
  book_ok b → Forall (fun r => iID r ≠ "") (putIncidents w) → conflict_free (incidents b) (putIncidents w) →
  book_ok (applyLocked o w b) ∧
  incidents (applyLocked o w b) = puts (putIncidents w) (dels (delIncidents w) (incidents b)) ∧
  windows (applyLocked o w b) = apply_windows w (windows b).
Proof.
  intros Hb Hne Hcf. destruct (dels_ok b (delIncidents w) Hb) as (H1 & H2 & H3).
  destruct (puts_ok (foldl (delete_one o) b (delIncidents w)) (putIncidents w)) as (H4 & H5 & H6); [done|done| |].
  { rewrite H2. eapply conflict_free_mono; [apply dels_sub|done]. }
  unfold applyLocked. cbn [incidents windows]. split; [|by rewrite H5, H2, H6, H3].
  destruct H4 as [? ? ?]. by split.
Qed.

(** Rebuilding the indexes. *)
Definition unique_active (m : gmap string Incident) : Prop :=
  ∀ id id' i i', m !! id = Some i → m !! id' = Some i' → Active i = true → Active i' = true → iKey i = iKey i' → id = id'.
Lemma index_irrelevant M m A L w w' inc :
  ids_ok M → <[iID inc := inc]> m ⊆ M → (∀ k id, L !! k = Some id → is_Some (m !! id)) →
  bActive (indexLocked inc (mkBook M w A L)) = bActive (indexLocked inc (mkBook (<[iID inc := inc]> m) w' A L)) ∧
  bLatest (indexLocked inc (mkBook M w A L)) = bLatest (indexLocked inc (mkBook (<[iID inc := inc]> m) w' A L)).
Proof.
  intros HM Hsub HL. split; [done|]. unfold indexLocked. cbn [bLatest incidents].
  assert (M !! default "" (L !! iKey inc) = <[iID inc := inc]> m !! default "" (L !! iKey inc)) as ->; [|done].
  destruct (L !! iKey inc) as [id|] eqn:E; cbn.
  - destruct (HL _ _ E) as [i Hi]. assert (is_Some (<[iID inc := inc]> m !! id)) as [j Hj].
    { destruct (decide (id = iID inc)) as [->|]; [rewrite lookup_insert_eq; eauto|]. rewrite lookup_insert_ne by done. eauto. }
    rewrite Hj. by eapply lookup_weaken.
  - assert (M !! "" = None) as E0. { destruct (M !! "") eqn:E0; [|done]. by apply HM in E0 as [_ ?]. }
    rewrite E0. symmetry. destruct (<[iID inc := inc]> m !! "") eqn:E1; [|done].
    eapply lookup_weaken in E1; [|done]. congruence.
Qed.
Lemma reindex_fold M w l m A L :
  ids_ok M → unique_active M → NoDup (map iID l) → (∀ i, i ∈ l → M !! iID i = Some i ∧ m !! iID i = None) →
  m ⊆ M → indexes m A L →
  let b := foldl (fun b inc => indexLocked inc b) (mkBook M w A L) l in
  incidents b = M ∧ windows b = w ∧ indexes (puts l m) (bActive b) (bLatest b).
Proof.
  intros HM Hu. revert m A L. induction l as [|inc l IH]; intros m A L Hnd Hl Hsub Hx; [done|]. cbn [foldl puts].
  cbn [map] in Hnd. apply NoDup_cons in Hnd as [Hni Hnd]. destruct (Hl inc) as [HMi Hmi]; [set_solver|].
  destruct (HM _ _ HMi) as [_ Hne].
  assert (<[iID inc := inc]> m ⊆ M) as Hsub' by (by apply insert_subseteq_l).
  assert (∀ k id, L !! k = Some id → is_Some (m !! id)) as HL.
  { intros k id E. destruct (ix_latest _ _ _ Hx) as [H1 _]. apply H1 in E as (i & Hi & _). eauto. }
  pose proof (index_irrelevant M m A L w ∅ inc HM Hsub' HL) as [EA EL].
  pose proof (index_spec m A L ∅ inc Hx Hmi Hne) as Hx'. cbn zeta in Hx'. rewrite <- EA, <- EL in Hx'.
  apply IH; [done| |done|].
  - intros i Hi. destruct (Hl i) as [HMii Hmii]; [set_solver|]. split; [done|]. rewrite lookup_insert_ne; [done|].
    intros E. apply Hni. rewrite E. apply list_elem_of_fmap. eauto.
  - apply Hx'. intros Ha. destruct (A !! iKey inc) as [id'|] eqn:E; [|done]. exfalso.
    apply (ix_active _ _ _ Hx) in E as (i & Hi & Hk & Hai). cbn in Hi.
    assert (id' = iID inc) by (eapply Hu; [by eapply lookup_weaken|done|done|done|done]). congruence.
Qed.
Lemma order_ids m : ids_ok m → map iID (o m) ≡ₚ (map_to_list m).*1.
Proof.
  intros Hm. change (map iID (o m)) with (iID <$> o m). rewrite (Ho m), <- list_fmap_compose.
  apply Permutation_refl'. apply list_fmap_ext. intros ? [id i] H%list_elem_of_lookup_2%elem_of_map_to_list. cbn.
  by destruct (Hm _ _ H) as [-> _].
Qed.
Lemma puts_order m : ids_ok m → puts (o m) ∅ = m.
Proof.
  intros Hm. apply map_eq. intros id.
  assert (∀ l (m0 : gmap string Incident), NoDup (map iID l) → puts l m0 !! id =
    match list_find (fun i => iID i = id) l with Some (_, i) => Some i | None => m0 !! id end) as Hgen.
  { induction l as [|i l IH]; intros m0 Hnd; [done|]. cbn [puts foldl list_find]. fold (puts l (<[iID i := i]> m0)).
    cbn [map] in Hnd. apply NoDup_cons in Hnd as [Hni Hnd]. rewrite IH by done. destruct (decide (iID i = id)) as [<-|Hne].
    - destruct (list_find _ l) as [[k j]|] eqn:E; [|by rewrite lookup_insert_eq].
      apply list_find_Some in E as (Hk & Hj & _). exfalso. apply Hni. rewrite <- Hj. apply list_elem_of_fmap.
      exists j. split; [done|]. by eapply list_elem_of_lookup_2.
    - destruct (list_find _ l) as [[k j]|]; cbn; [done|]. by rewrite lookup_insert_ne. }
  rewrite Hgen by (rewrite order_ids by done; apply NoDup_fst_map_to_list).
  destruct (list_find _ (o m)) as [[k i]|] eqn:E.
  - apply list_find_Some in E as (Hk & <- & _). apply list_elem_of_lookup_2, order_elem in Hk; [|done]. by rewrite Hk.
  - rewrite lookup_empty. destruct (m !! id) as [i|] eqn:Ei; [|done]. exfalso.
    apply list_find_None in E. rewrite Forall_forall in E. destruct (Hm _ _ Ei) as [Hid _]. apply (E i); [|done].
    apply order_elem; [done|]. by rewrite Hid.
Qed.
Lemma reindex_ok m w A L :
  ids_ok m → unique_active m →
  book_ok (reindex o (mkBook m w A L)) ∧ incidents (reindex o (mkBook m w A L)) = m ∧ windows (reindex o (mkBook m w A L)) = w.
Proof.
  intros Hm Hu. unfold reindex. cbn [incidents windows].
  destruct (reindex_fold m w (o m) ∅ ∅ ∅ Hm Hu) as (H1 & H2 & H3).
  - rewrite order_ids by done. apply NoDup_fst_map_to_list.
  - intros i Hi%order_elem; [|done]. by rewrite lookup_empty.
  - apply map_empty_subseteq.
  - apply empty_indexes.
  - rewrite puts_order in H3 by done. split; [|done]. apply book_ok_indexes. by rewrite H1.
Qed.
Lemma book_unique b : book_ok b → unique_active (incidents b).
Proof. intros Hb id id' i i' H H' A A' K. by eapply book_one_active. Qed.
End indexing.

(** ** Bounded text *)

Lemma rune_cut_le s n : (rune_cut s n <= n)%nat.
Proof. induction n as [|n IH]; [done|]. cbn [rune_cut]. destruct (RuneStart _); lia. Qed.
Lemma str_take_length n s : (String.length (str_take n s) <= n)%nat.
Proof.
  revert n. induction s as [|c s IH]; intros [|n]; cbn; try lia. specialize (IH n). lia.
Qed.
Lemma TruncateUTF8_bound s limit : (String.length (TruncateUTF8 s limit).1 <= limit)%nat.
Proof.
  unfold TruncateUTF8. destruct (Nat.leb_spec (String.length s) limit) as [|Hs]; [done|].
  destruct (Nat.leb_spec limit (String.length truncated_marker)) as [|Hm]; cbn [fst]; [cbn; lia|].
  rewrite str_length_app. pose proof (rune_cut_le (bytes_of s) (limit - String.length truncated_marker)).
  pose proof (str_take_length (rune_cut (bytes_of s) (limit - String.length truncated_marker)) s). lia.
Qed.
Lemma TruncateUTF8_idem s limit : TruncateUTF8 (TruncateUTF8 s limit).1 limit = ((TruncateUTF8 s limit).1, false).
Proof.
  pose proof (TruncateUTF8_bound s limit) as H. revert H. generalize (TruncateUTF8 s limit).1. intros t Ht.
  unfold TruncateUTF8. by destruct (Nat.leb_spec (String.length t) limit); [|lia].
Qed.
(** The fields the indexes and the evaluator's guards read are not text that
    is cut. *)
Definition same_core (i j : Incident) : Prop :=
  iID i = iID j ∧ iKey i = iKey j ∧ iKind i = iKind j ∧ iState i = iState j ∧ iOpenedAt i = iOpenedAt j ∧ iNodeID i = iNodeID j.
Lemma bound_core i : same_core (boundIncidentText i) i.
Proof. by destruct i. Qed.
Lemma bound_Active i : Active (boundIncidentText i) = Active i.
Proof. by destruct i. Qed.

(** ** The store *)

Definition loadable (m : gmap string Incident) : Prop := ids_ok m ∧ unique_active m.
Definition store_ok (s : istore) : Prop :=
  book_ok (ibook s) ∧
  match hot s with Some h => if loadedFrom s then True else loadable (incidents (ibook s) ∪ hIncidents h) | None => True end.
Lemma load_ok o d s : valid_order o → store_ok s →
  let s' := incidentBookLocked o d s in book_ok (ibook s') ∧ store_ok s' ∧ (hot s = None ∨ loadedFrom s' = true).
Proof.
  intros Ho [Hb Hh]. unfold incidentBookLocked. destruct (hot s) as [h|] eqn:Eh.
  2: { split; [done|]. split; [|by left]. unfold store_ok. by rewrite Eh. }
  destruct (loadedFrom s) eqn:El.
  { split; [done|]. split; [|by right]. unfold store_ok. by rewrite Eh, El. }
  cbn [ibook loadedFrom hot]. destruct Hh as [Hids Hu].
  set (m := if reads d then _ else _). set (w := if reads d then windows _ ∪ _ else _).
  assert (ids_ok m ∧ unique_active m) as [H1 H2].
  { unfold m. destruct (reads d); [done|]. split; [apply (ok_ids _ Hb)|by apply book_unique]. }
  destruct (reindex_ok o Ho m w ∅ ∅ H1 H2) as (H3 & _ & _).
  split; [done|]. split; [|by right]. split; [done|]. cbn [hot loadedFrom]. by destruct (write_empty _), (writes d).
Qed.
Lemma commit_book d w s s' : commitIncidentsLocked d w s = Ok s' → ibook s' = ibook s ∧ loadedFrom s' = loadedFrom s ∧
  (hot s' = None ↔ hot s = None).
Proof.
  unfold commitIncidentsLocked. destruct (hot s) as [h|] eqn:Eh.
  - destruct (write_empty w); [|destruct (writes d); [|done]]; intros [= <-]; cbn; rewrite ?Eh; done.
  - intros [= <-]. by rewrite Eh.
Qed.

Lemma clean_rows_Ok A rows clean :
  clean_rows A rows = Ok clean →
  clean = map boundIncidentText rows ∧
  Forall (fun r => iID r ≠ "" ∧ (Active r = true → ∀ id, A !! iKey r = Some id → id = iID r)) rows.
Proof.
  revert clean. induction rows as [|r rows IH]; intros clean; cbn [clean_rows].
  { intros [= <-]. by split. }
  intros [Hid [Hk Hc]%guard_Ok]%guard_Ok. destruct (clean_rows A rows) as [c|] eqn:E; [|done].
  destruct (IH c eq_refl) as [-> Hall]. split; [cbn in *; congruence|]. constructor; [|done].
  apply orb_false_iff in Hid as [Hid _]. apply bool_decide_eq_false in Hid. split.
  - intros E0. apply Hid. by rewrite E0.
  - intros Ha id Hl. rewrite Hl, Ha, andb_true_r in Hk. by apply negb_false_iff, bool_decide_eq_true in Hk.
Qed.
(** No two rows of the batch are unresolved records of one key. *)
Definition batch_ok (rows : list Incident) : Prop :=
  ∀ r r', r ∈ rows → r' ∈ rows → Active r = true → Active r' = true → iKey r' = iKey r → iID r' = iID r.
Lemma clean_conflict_free b rows :
  book_ok b → batch_ok rows →
  Forall (fun r => iID r ≠ "" ∧ (Active r = true → ∀ id, bActive b !! iKey r = Some id → id = iID r)) rows →
  conflict_free (incidents b) (map boundIncidentText rows).
Proof.
  intros Hb Hbatch Hall x (r & -> & Hr)%list_elem_of_fmap Ha. rewrite bound_Active in Ha.
  destruct (bound_core r) as (-> & -> & _). rewrite Forall_forall in Hall. destruct (Hall r Hr) as [_ Hfree]. split.
  - intros id i Hi Hai Hk. apply Hfree; [done|]. apply (ok_active _ Hb). eauto.
  - intros x' (r' & -> & Hr')%list_elem_of_fmap Ha'. rewrite bound_Active in Ha'.
    destruct (bound_core r') as (-> & -> & _). intros Hk. by apply Hbatch.
Qed.
Lemma store_ok_apply o w s : book_ok (applyLocked o w (ibook s)) → (hot s = None ∨ loadedFrom s = true) → store_ok (apply_store o w s).
Proof.
  intros Hb Hl. split; [done|]. cbn [apply_store hot loadedFrom]. destruct (hot s); [|done]. destruct Hl as [|Hl]; [done|]. by rewrite Hl.
Qed.

(** The records after a batch: refused, or the rows written over what
    eviction left. *)
Lemma PutIncidents_ok o d rows s s' e :
  valid_order o → store_ok s → batch_ok rows → PutIncidents o d rows s = (s', e) →
  store_ok s' ∧ (rows = [] ∨ hot s = None ∨ loadedFrom s' = true).
Proof.
  intros Ho Hs Hbatch. unfold PutIncidents. destruct rows as [|r0 rows0] eqn:Er; [intros [= <- _]; tauto|]. rewrite <- Er in *.
  destruct (load_ok o d s Ho Hs) as (Hb & Hs1 & Hl). set (s1 := incidentBookLocked o d s) in *.
  destruct (clean_rows _ _) as [clean|e'] eqn:Ec; [|intros [= <- _]; tauto].
  apply clean_rows_Ok in Ec as [-> Hall].
  set (w := mkWrite _ _ _ _).
  assert (book_ok (applyLocked o w (ibook s1))) as Hap.
  { apply (applyLocked_ok o Ho); [done| |].
    - apply Forall_map. eapply Forall_impl; [done|]. intros r [Hr _]. by destruct (bound_core r) as (-> & _).
    - by apply clean_conflict_free. }
  assert (hot s1 = None ∨ loadedFrom s1 = true) as Hl1.
  { destruct Hl as [Hn|]; [left|by right]. unfold s1, incidentBookLocked. by rewrite Hn. }
  destruct (commitIncidentsLocked d w s1) as [s2|] eqn:Ec; intros [= <- _].
  - apply commit_book in Ec as (E1 & E2 & E3). split; [|right; destruct Hl; [by left|right; cbn; congruence]].
    apply store_ok_apply; [by rewrite E1|]. rewrite E2. tauto.
  - split; [by apply store_ok_apply|]. right. destruct Hl; [by left|by right].
Qed.
Lemma delete_ids_ok o d ids s s' e :
  valid_order o → store_ok s → (hot s = None ∨ loadedFrom s = true) → delete_ids o d ids s = (s', e) →
  store_ok s'.
Proof.
  intros Ho Hs Hl. unfold delete_ids. set (w := mkWrite _ _ _ _).
  destruct (commitIncidentsLocked d w s) as [s2|] eqn:Ec; intros [= <- _]; [|done].
  apply commit_book in Ec as (E1 & E2 & E3). apply store_ok_apply; [|rewrite E2; tauto]. rewrite E1.
  apply (applyLocked_ok o Ho); [apply Hs|constructor|]. intros r Hr. by apply elem_of_nil in Hr.
Qed.

(** Records after a batch or a deletion, once the book is loaded. *)
Definition loaded (s : istore) : Prop := hot s = None ∨ loadedFrom s = true.
Lemma load_id o d s : loaded s → incidentBookLocked o d s = s.
Proof. unfold incidentBookLocked. intros [->|Hl]; [done|]. rewrite Hl. by destruct (hot s). Qed.
Lemma puts_lookup rows m id :
  NoDup (map iID rows) →
  puts rows m !! id = match List.find (fun r => iID r =?? id) rows with Some r => Some r | None => m !! id end.
Proof.
  revert m. induction rows as [|r rows IH]; intros m Hnd; [done|]. cbn [puts foldl List.find]. fold (puts rows (<[iID r := r]> m)).
  cbn [map] in Hnd. apply NoDup_cons in Hnd as [Hni Hnd]. rewrite IH by done. case_bool_decide as E.
  - destruct (List.find _ rows) as [x|] eqn:Ef; [|subst; by rewrite lookup_insert_eq].
    apply List.find_some in Ef as [Hin Hx]. apply bool_decide_eq_true in Hx. exfalso. apply Hni.
    rewrite E, <- Hx. apply list_elem_of_fmap. exists x. split; [done|]. by apply list_elem_of_In.
  - destruct (List.find _ rows); [done|]. by rewrite lookup_insert_ne.
Qed.
Lemma PutIncidents_cases o d rows s :
  valid_order o → store_ok s → loaded s → batch_ok rows → rows ≠ [] →
  let s' := (PutIncidents o d rows s).1 in
  store_ok s' ∧ loaded s' ∧
  match clean_rows (bActive (ibook s)) rows with
  | Err _ => s' = s
  | Ok clean => incidents (ibook s') = puts clean (dels (incidentEvictionLocked o clean (ibook s)) (incidents (ibook s)))
  end.
Proof.
  intros Ho Hs Hl Hbatch Hne s'. destruct (PutIncidents o d rows s) as [s1 e] eqn:E.
  pose proof (PutIncidents_ok o d rows s s1 e Ho Hs Hbatch E) as [Hok Hl']. unfold s'. cbn [fst]. split; [done|].
  unfold PutIncidents in E. destruct rows as [|r0 rows0] eqn:Er; [done|]. rewrite <- Er in *.
  rewrite load_id in E by done. destruct (clean_rows _ _) as [clean|e'] eqn:Ec.
  2: { assert (s1 = s) as -> by congruence. done. }
  pose proof Ec as [Hcl Hall]%clean_rows_Ok. set (w := mkWrite _ _ _ _) in E.
  destruct (applyLocked_ok o Ho (ibook s) w) as (_ & Hi & _).
  { apply Hs. } { cbn. rewrite Hcl. apply Forall_map. eapply Forall_impl; [done|]. intros r [H _]. by destruct (bound_core r) as (-> & _). }
  { cbn. rewrite Hcl. apply clean_conflict_free; [apply Hs|done..]. }
  destruct (commitIncidentsLocked d w s) as [s2|] eqn:Ecm.
  - apply commit_book in Ecm as (E1 & E2 & E3). assert (s1 = apply_store o w s2) as -> by congruence.
    split; [unfold loaded in *; cbn; rewrite E2; tauto|]. cbn [apply_store ibook]. by rewrite E1.
  - assert (s1 = apply_store o w s) as -> by congruence. split; [done|]. exact Hi.
Qed.
Lemma delete_ids_cases o d ids s :
  valid_order o → store_ok s → loaded s →
  let s' := (delete_ids o d ids s).1 in
  store_ok s' ∧ loaded s' ∧ incidents (ibook s') ⊆ incidents (ibook s).
Proof.
  intros Ho Hs Hl s'. destruct (delete_ids o d ids s) as [s1 e] eqn:E. unfold s'. cbn [fst].
  split; [by eapply delete_ids_ok|]. unfold delete_ids in E. set (w := mkWrite _ _ _ _) in E.
  destruct (commitIncidentsLocked d w s) as [s2|] eqn:Ecm; [|by assert (s1 = s) as -> by congruence].
  apply commit_book in Ecm as (E1 & E2 & E3). assert (s1 = apply_store o w s2) as -> by congruence.
  split; [unfold loaded in *; cbn; rewrite E2; tauto|]. cbn [apply_store ibook]. rewrite E1.
  destruct (applyLocked_ok o Ho (ibook s) w) as (_ & Hi & _); [apply Hs|constructor|intros r Hr; by apply elem_of_nil in Hr|].
  rewrite Hi. apply dels_sub.
Qed.

(** ** Eviction *)

Lemma evict_take n l : evict n l = map iID (take (Z.to_nat n) l).
Proof.
  revert n. induction l as [|i l IH]; intros n; [by rewrite take_nil|]. cbn [evict].
  destruct (Z.leb_spec n 0) as [Hn|Hn]; [by replace (Z.to_nat n) with 0%nat by lia|].
  rewrite IH. replace (Z.to_nat n) with (S (Z.to_nat (n - 1))) by lia. done.
Qed.
Lemma size_puts rows m :
  (size (puts rows m) <= size m + length (List.filter (fun i => match m !! iID i with Some _ => false | None => true end) rows))%nat.
Proof.
  revert m. induction rows as [|r rows IH]; intros m; [cbn; lia|]. cbn [puts foldl List.filter].
  fold (puts rows (<[iID r := r]> m)). specialize (IH (<[iID r := r]> m)).
  assert (length (List.filter (fun i => match <[iID r := r]> m !! iID i with Some _ => false | None => true end) rows) <=
          length (List.filter (fun i => match m !! iID i with Some _ => false | None => true end) rows))%nat as Hle.
  { clear IH. induction rows as [|x rows IH]; [done|]. cbn [List.filter].
    destruct (decide (iID x = iID r)) as [->|Hne].
    - rewrite lookup_insert_eq. destruct (m !! iID r); cbn [length]; lia.
    - rewrite lookup_insert_ne by done. destruct (m !! iID x); cbn [length]; lia. }
  destruct (m !! iID r) eqn:E.
  - rewrite map_size_insert_Some in IH by eauto. lia.
  - rewrite map_size_insert_None in IH by done. cbn [length]. lia.
Qed.
Lemma size_dels ids m : NoDup ids → (∀ id, id ∈ ids → is_Some (m !! id)) → (size (dels ids m) + length ids = size m)%nat.
Proof.
  revert m. induction ids as [|x ids IH]; intros m Hnd Hin; [cbn; lia|]. apply NoDup_cons in Hnd as [Hx Hnd].
  cbn [dels foldl length]. fold (dels ids (delete x m)). destruct (Hin x) as [i Hi]; [set_solver|].
  assert (size (delete x m) = pred (size m))%nat as Hs by (apply map_size_delete_Some; eauto).
  assert (size m ≠ 0)%nat by (intros E%map_size_empty_iff; subst; by rewrite lookup_empty in Hi).
  specialize (IH (delete x m) Hnd). rewrite Hs in IH. rewrite <- Nat.add_succ_comm. cbn. rewrite IH; [lia|].
  intros id Hid. rewrite lookup_delete_ne by (intros ->; done). apply Hin. set_solver.
Qed.

(** What eviction takes: resolved records, none of the batch, each resolved
    no later than any candidate that stays. *)
Section eviction.
Context (o : order) (Ho : valid_order o) (b : incidentBook) (Hb : book_ok b) (adding : list Incident).
Definition candidate (i : Incident) : Prop :=
  incidents b !! iID i = Some i ∧ Active i = false ∧ iID i ∉ map iID adding.
Let cands : list Incident := merge_sort resolved_before
    (List.filter (fun inc => negb (Active inc) && negb (mem (iID inc) (map iID adding))) (o (incidents b))).
Let excess : Z := Z.of_nat (size (incidents b)) + new_rows b adding - MaxIncidents.
Lemma cands_elem i : i ∈ cands ↔ candidate i.
Proof.
  unfold cands, candidate. rewrite merge_sort_Permutation, list_elem_of_In, filter_In, <- list_elem_of_In.
  rewrite (order_elem o Ho) by apply (ok_ids _ Hb). rewrite andb_true_iff, !negb_true_iff. unfold mem.
  rewrite <- (not_true_iff_false (existsb _ _)), existsb_eq_elem. done.
Qed.
Lemma cands_NoDup : NoDup (map iID cands).
Proof.
  unfold cands. change (map iID ?l) with (iID <$> l). rewrite merge_sort_Permutation.
  assert (NoDup (iID <$> o (incidents b))) as H.
  { pose proof (order_ids o Ho _ (ok_ids _ Hb)) as E. change (map iID ?l) with (iID <$> l) in E. rewrite E. apply NoDup_fst_map_to_list. }
  revert H. generalize (o (incidents b)). induction l as [|x l IH]; [done|]. cbn [List.filter fmap list_fmap].
  intros [Hx Hnd]%NoDup_cons. destruct (_ && _); [|auto]. cbn [fmap list_fmap]. apply NoDup_cons. split; [|auto].
  intros (y & Hy & Hin)%list_elem_of_fmap. apply Hx. apply list_elem_of_fmap. exists y. split; [done|].
  apply list_elem_of_In, filter_In in Hin as [Hin _]. by apply list_elem_of_In.
Qed.
Lemma victims_take : incidentEvictionLocked o adding b = map iID (take (Z.to_nat excess) cands).
Proof.
  unfold incidentEvictionLocked. fold excess. destruct (Z.leb_spec excess 0) as [He|He].
  - by replace (Z.to_nat excess) with 0%nat by lia.
  - apply evict_take.
Qed.
Lemma victims_elem id : id ∈ incidentEvictionLocked o adding b → ∃ i, candidate i ∧ iID i = id.
Proof.
  rewrite victims_take. intros (i & -> & Hi)%list_elem_of_fmap. exists i. split; [|done]. apply cands_elem.
  rewrite <- (take_drop (Z.to_nat excess) cands). set_solver.
Qed.
Lemma victims_oldest i j :
  candidate i → candidate j → iID i ∈ incidentEvictionLocked o adding b → iID j ∉ incidentEvictionLocked o adding b →
  iResolvedAt i <= iResolvedAt j.
Proof.
  intros Hi Hj. rewrite victims_take. set (n := Z.to_nat excess). intros (i' & Hii & Hin)%list_elem_of_fmap Hout.
  assert (i' = i) as ->.
  { assert (candidate i') as [Hi' _] by (apply cands_elem; rewrite <- (take_drop n cands); set_solver).
    destruct Hi as [Hi _]. rewrite Hii in Hi. congruence. }
  assert (j ∈ drop n cands) as Hjd.
  { apply cands_elem in Hj. rewrite <- (take_drop n cands) in Hj. apply elem_of_app in Hj as [Hj|]; [|done].
    exfalso. apply Hout. apply list_elem_of_fmap. eauto. }
  assert (StronglySorted resolved_before cands) as Hs.
  { unfold cands. apply (StronglySorted_merge_sort resolved_before). }
  rewrite <- (take_drop n cands) in Hs. by eapply StronglySorted_app_1_elem_of in Hs.
Qed.
Lemma evicted_size :
  let m := dels (incidentEvictionLocked o adding b) (incidents b) in
  Z.of_nat (size (puts adding m)) <= MaxIncidents ∨ (∀ i, candidate i → m !! iID i = None).
Proof.
  intros m. pose proof victims_take as Ev.
  assert (NoDup (incidentEvictionLocked o adding b)) as Hnd.
  { rewrite Ev. pose proof cands_NoDup as H. rewrite <- (take_drop (Z.to_nat excess) cands), map_app in H.
    by apply NoDup_app in H as [? _]. }
  pose proof (size_dels _ (incidents b) Hnd) as Hsize.
  assert (∀ id, id ∈ incidentEvictionLocked o adding b → is_Some (incidents b !! id)) as Hin.
  { intros id (i & [Hi _] & <-)%victims_elem. eauto. }
  specialize (Hsize Hin). fold m in Hsize. pose proof (size_puts adding m) as Hp.
  assert (List.filter (fun i => match m !! iID i with Some _ => false | None => true end) adding =
          List.filter (fun i => match incidents b !! iID i with Some _ => false | None => true end) adding) as Ef.
  { apply filter_ext_in. intros i Hi%list_elem_of_In. unfold m. rewrite dels_lookup.
    destruct (mem (iID i) _) eqn:E; [|done]. apply mem_spec, victims_elem in E as (j & (_ & _ & Hj) & Hij).
    destruct Hj. rewrite Hij. apply list_elem_of_fmap. eauto. }
  rewrite Ef in Hp.
  destruct (Z.le_gt_cases excess (Z.of_nat (length cands))) as [Hle|Hgt].
  - left. rewrite Ev, length_map, length_take in Hsize. unfold excess, new_rows in *. lia.
  - right. intros i Hi. unfold m. rewrite dels_lookup. assert (mem (iID i) (incidentEvictionLocked o adding b) = true) as ->; [|done].
    apply mem_spec. rewrite Ev, take_ge by lia. apply list_elem_of_fmap. exists i. split; [done|]. by apply cands_elem.
Qed.
End eviction.

(** ** Runs of the store *)

Inductive iop :=
| OpPut (rows : list Incident) | OpDelete (ids : list string) | OpDeleteWhere (matches : Incident → bool)
| OpPrune (cutoff : time) | OpPutWindow (mw : MaintenanceWindow) (now : time) | OpDeleteWindow (id : string)
| OpRestart.
Record icall := mkCall { cOrder : order; cDisk : disk; cOp : iop }.
Definition istep (s : istore) (c : icall) : istore :=
  let o := cOrder c in let d := cDisk c in
  match cOp c with
  | OpPut rows => (PutIncidents o d rows s).1
  | OpDelete ids => (DeleteIncidents o d ids s).1
  | OpDeleteWhere f => (deleteIncidentsLocked o d f s).1
  | OpPrune cutoff => (PruneIncidents o d cutoff s).1
  | OpPutWindow mw now => (PutMaintenanceWindow o d mw now s).1
  | OpDeleteWindow id => (DeleteMaintenanceWindow o d id s).1
  | OpRestart => empty_store (hot s)
  end.
Definition call_ok (c : icall) : Prop :=
  valid_order (cOrder c) ∧ match cOp c with OpPut rows => batch_ok rows | _ => True end.
Definition healthy (c : icall) : Prop := reads (cDisk c) = true ∧ writes (cDisk c) = true.
Definition run (s : istore) (cs : list icall) : istore := foldl istep s cs.

(** The sidecar holds what memory holds once it has been read; before that
    memory is empty. *)
Definition mirrored (s : istore) : Prop :=
  ∀ h, hot s = Some h →
    if loadedFrom s then hIncidents h = incidents (ibook s) ∧ hWindows h = windows (ibook s)
    else ibook s = empty_book.
Lemma load_mirrored o d s : valid_order o → reads d = true → store_ok s → mirrored s →
  let s' := incidentBookLocked o d s in mirrored s' ∧
  match hot s with Some h => loadedFrom s' = true ∧ incidents (ibook s') = hIncidents h ∧ windows (ibook s') = hWindows h | None => s' = s end.
Proof.
  intros Ho Hr [Hb Hh] Hm. unfold incidentBookLocked, mirrored in *. destruct (hot s) as [h|] eqn:Eh.
  2: { split; [|done]. intros h E. congruence. }
  specialize (Hm h eq_refl). destruct (loadedFrom s) eqn:El.
  { destruct Hm as [E1 E2]. split; [|done]. intros h' E. rewrite El. simplify_eq. done. }
  rewrite Hm in *. cbn [ibook loadedFrom hot incidents windows empty_book] in *. rewrite Hr.
  rewrite !(left_id_L ∅ (∪)) in *. destruct Hh as [Hids Hu].
  destruct (reindex_ok o Ho (hIncidents h) (hWindows h) ∅ ∅ Hids Hu) as (H1 & H2 & H3). rewrite H2, H3.
  assert (o ∅ = []) as E0. { apply Permutation_nil. by rewrite (Ho ∅), map_to_list_empty. }
  rewrite E0, map_to_list_empty. cbn. split; [|done]. by intros h' [= <-].
Qed.
Lemma write_mirrored o d w s s' :
  valid_order o → book_ok (ibook s) → Forall (fun r => iID r ≠ "") (putIncidents w) →
  conflict_free (incidents (ibook s)) (putIncidents w) → (hot s = None ∨ loadedFrom s = true) → mirrored s →
  commitIncidentsLocked d w s = Ok s' → mirrored (apply_store o w s').
Proof.
  intros Ho Hb Hne Hcf Hl Hm. destruct (applyLocked_ok o Ho (ibook s) w Hb Hne Hcf) as (_ & Hi & Hw).
  unfold commitIncidentsLocked. destruct (hot s) as [h|] eqn:Eh.
  2: { intros [= <-] h E. cbn in E. congruence. }
  destruct Hl as [|Hl]; [done|]. specialize (Hm h Eh). rewrite Hl in Hm. destruct Hm as [E1 E2].
  destruct (write_empty w) eqn:Ew.
  - intros [= <-] h' E. cbn in *. rewrite Hl. rewrite Hi, Hw. simplify_eq. unfold write_empty in Ew.
    rewrite !andb_true_iff, !Nat.eqb_eq in Ew. destruct Ew as [[[L1 L2] L3] L4]. apply nil_length_inv in L1, L2, L3, L4.
    unfold apply_windows. by rewrite L1, L2, L3, L4.
  - destruct (writes d); [|done]. intros [= <-] h' Eh'.
    assert (h' = WriteIncidents w h) as -> by (cbn in Eh'; congruence).
    cbn [apply_store ibook loadedFrom hIncidents hWindows WriteIncidents]. by rewrite Hl, Hi, Hw, <- E1, <- E2.
Qed.
Lemma write_ok o d w s :
  valid_order o → store_ok s → Forall (fun r => iID r ≠ "") (putIncidents w) →
  conflict_free (incidents (ibook s)) (putIncidents w) → (hot s = None ∨ loadedFrom s = true) →
  match commitIncidentsLocked d w s with Ok s' => store_ok (apply_store o w s') | Err _ => True end.
Proof.
  intros Ho Hs Hne Hcf Hl. destruct (commitIncidentsLocked d w s) as [s'|] eqn:E; [|done].
  apply commit_book in E as (E1 & E2 & E3). apply store_ok_apply; [|rewrite E2; tauto]. rewrite E1.
  by apply (applyLocked_ok o Ho); [apply Hs| |].
Qed.
Definition sound (s : istore) : Prop := store_ok s ∧ mirrored s.
(** A write that puts no incident row. *)
Lemma write_sound o d w s :
  valid_order o → sound s → putIncidents w = [] → (hot s = None ∨ loadedFrom s = true) →
  sound (match commitIncidentsLocked d w s with Ok s' => (apply_store o w s', @None incError) | Err e => (s, Some e) end).1.
Proof.
  intros Ho [Hs Hm] Hp Hl.
  assert (conflict_free (incidents (ibook s)) (putIncidents w)) as Hcf by (rewrite Hp; intros r Hr; by apply elem_of_nil in Hr).
  assert (Forall (fun r => iID r ≠ "") (putIncidents w)) as Hne by (rewrite Hp; constructor).
  pose proof (write_ok o d w s Ho Hs Hne Hcf Hl) as Hok. destruct (commitIncidentsLocked d w s) as [s'|] eqn:E; [|done].
  split; [done|]. eapply write_mirrored; [done|apply Hs|done..].
Qed.
Lemma load_sound o d s : valid_order o → reads d = true → sound s →
  let s' := incidentBookLocked o d s in sound s' ∧ (hot s' = None ∨ loadedFrom s' = true) ∧ book_ok (ibook s').
Proof.
  intros Ho Hr [Hs Hm]. destruct (load_ok o d s Ho Hs) as (H1 & H2 & _).
  destruct (load_mirrored o d s Ho Hr Hs Hm) as (H3 & H4). split; [by split|]. split; [|done].
  destruct (hot s) eqn:Eh; [right; tauto|]. left. by rewrite H4.
Qed.
Lemma put_sound o d rows s : valid_order o → reads d = true → writes d = true → batch_ok rows → sound s →
  sound (PutIncidents o d rows s).1.
Proof.
  intros Ho Hr Hwr Hbatch Hs. unfold PutIncidents. destruct rows as [|r0 rows0] eqn:Er; [done|]. rewrite <- Er in *.
  destruct (load_sound o d s Ho Hr Hs) as ([Hs1 Hm1] & Hl & Hb). set (s1 := incidentBookLocked o d s) in *.
  destruct (clean_rows _ _) as [clean|e] eqn:Ec; [|done]. apply clean_rows_Ok in Ec as [-> Hall].
  set (w := mkWrite _ _ _ _).
  assert (conflict_free (incidents (ibook s1)) (putIncidents w)) as Hcf by (by apply clean_conflict_free).
  assert (Forall (fun r => iID r ≠ "") (putIncidents w)) as Hne.
  { apply Forall_map. eapply Forall_impl; [done|]. intros r [H _]. by destruct (bound_core r) as (-> & _). }
  pose proof (write_ok o d w s1 Ho Hs1 Hne Hcf Hl) as Hok.
  destruct (commitIncidentsLocked d w s1) as [s2|] eqn:E.
  - split; [done|]. by eapply write_mirrored.
  - exfalso. unfold commitIncidentsLocked in E. destruct (hot s1); [|done]. by destruct (write_empty w); rewrite ?Hwr in E.
Qed.
Lemma istep_sound s c : call_ok c → healthy c → sound s → sound (istep s c).
Proof.
  intros [Ho Hop] [Hr Hw] Hs. unfold istep. destruct c as [o d op]. cbn [cOrder cDisk cOp] in *.
  destruct (load_sound o d s Ho Hr Hs) as (Hs1 & Hl & Hb).
  destruct op as [rows|ids|f|cutoff|mw now|id|].
  - by apply put_sound.
  - unfold DeleteIncidents. destruct ids; [done|]. unfold delete_ids. by apply write_sound.
  - unfold deleteIncidentsLocked, delete_ids. by apply write_sound.
  - unfold PruneIncidents, deleteIncidentsLocked, delete_ids. by apply write_sound.
  - unfold PutMaintenanceWindow. case_bool_decide; [done|]. set (s1 := incidentBookLocked o d s) in *.
    destruct (_ && _); [done|]. by apply write_sound.
  - unfold DeleteMaintenanceWindow. destruct (windows _ !! id); [|done]. by apply write_sound.
  - destruct Hs as [[Hb0 Hh] Hm]. split.
    + split; [apply book_ok_indexes, empty_indexes|].
      cbn. destruct (hot s) as [h|] eqn:Eh; [|done]. rewrite (left_id_L ∅ (∪)).
      specialize (Hm h Eh). destruct (loadedFrom s).
      * destruct Hm as [-> _]. split; [apply (ok_ids _ Hb0)|by apply book_unique].
      * rewrite Hm in Hh. cbn in Hh. by rewrite (left_id_L ∅ (∪)) in Hh.
    + intros h E. done.
Qed.
Lemma run_sound s cs : Forall call_ok cs → Forall healthy cs → sound s → sound (run s cs).
Proof.
  intros Hc Hh. revert s. induction cs as [|c cs IH]; intros s Hs; [done|].
  apply Forall_cons in Hc as [? Hc]. apply Forall_cons in Hh as [? Hh]. cbn. apply IH; [done..|]. by apply istep_sound.
Qed.

Lemma empty_sound h : match h with Some h => loadable (hIncidents h) | None => True end → sound (empty_store h).
Proof.
  intros Hh. split; [split; [apply book_ok_indexes, empty_indexes|]|].
  - cbn. destruct h as [h|]; [|done]. by rewrite (left_id_L ∅ (∪)).
  - by intros h' E.
Qed.
Lemma ActiveIncident_exact b key inc : book_ok b →
  ActiveIncident key b = Some inc ↔ get_incident (iID inc) b = Some inc ∧ iKey inc = key ∧ Active inc = true.
Proof.
  intros Hb. unfold ActiveIncident, get_incident. split.
  - destruct (bActive b !! key) as [id|] eqn:E; [|done]. cbn. intros [= <-].
    apply (ok_active _ Hb) in E as (i & Hi & Hk & Ha). rewrite Hi. cbn. destruct (ok_ids _ Hb _ _ Hi) as [-> _]. done.
  - intros (Hi & Hk & Ha). rewrite (proj2 (ok_active _ Hb key (iID inc))) by eauto. cbn. by rewrite Hi.
Qed.

(** C30. One problem, one record.  Along every run of the store's operations,
    restarts included, whatever order maps are ranged over in, the lookup of
    a key's unresolved incident finds exactly the unresolved records of the
    key, there is at most one, and the newest record of a key is one no
    record of the key opened after; a batch that would add a second is
    refused.  The runs are those in which the disk answers and no batch
    itself holds two unresolved records of a key. *)
Theorem one_unresolved_per_key h cs o d :
  match h with Some h => loadable (hIncidents h) | None => True end →
  Forall call_ok cs → Forall healthy cs → valid_order o → reads d = true →
  let b := ibook (incidentBookLocked o d (run (empty_store h) cs)) in
  (∀ key inc, ActiveIncident key b = Some inc ↔ get_incident (iID inc) b = Some inc ∧ iKey inc = key ∧ Active inc = true) ∧
  (∀ i i', get_incident (iID i) b = Some i → get_incident (iID i') b = Some i' → Active i = true → Active i' = true →
     iKey i = iKey i' → i = i') ∧
  (∀ key inc i, LatestIncident key b = Some inc → get_incident (iID i) b = Some i → iKey i = key → iOpenedAt i <= iOpenedAt inc).
Proof.
  intros Hh Hc Hhl Ho Hr b. pose proof (run_sound _ cs Hc Hhl (empty_sound h Hh)) as Hs.
  destruct (load_sound o d _ Ho Hr Hs) as (_ & _ & Hb). fold b in Hb. split; [|split].
  - intros key inc. by apply ActiveIncident_exact.
  - intros i i' Hi Hi' Ha Ha' Hk. pose proof (book_one_active b _ _ _ _ Hb Hi Hi' Ha Ha' Hk) as E.
    unfold get_incident in *. congruence.
  - intros key inc i. unfold LatestIncident, get_incident. destruct (bLatest b !! key) as [id|] eqn:E; [|done]. cbn.
    intros [= <-] Hi Hk. apply (ok_latest _ Hb) in E as (x & Hx & _ & Hmax). rewrite Hx. cbn. by eapply Hmax.
Qed.

(** No operation turns the sidecar on or off. *)
Lemma load_hot o d s : hot (incidentBookLocked o d s) = None ↔ hot s = None.
Proof.
  unfold incidentBookLocked. destruct (hot s) eqn:E; [|by rewrite E].
  destruct (loadedFrom s); [by rewrite E|]. cbn. by destruct (write_empty _), (writes d).
Qed.
Lemma write_hot o d w s :
  hot (match commitIncidentsLocked d w s with Ok s' => (apply_store o w s', @None incError) | Err e => (s, Some e) end).1 = None ↔
  hot s = None.
Proof. destruct (commitIncidentsLocked d w s) eqn:E; [|done]. by apply commit_book in E as (_ & _ & E). Qed.
Lemma istep_hot s c : hot (istep s c) = None ↔ hot s = None.
Proof.
  destruct c as [o d op]. unfold istep. cbn [cOrder cDisk cOp]. rewrite <- (load_hot o d s).
  destruct op as [rows|ids|f|cutoff|mw now|id|].
  - unfold PutIncidents. destruct rows; [by rewrite load_hot|]. destruct (clean_rows _ _); [|done].
    set (w := mkWrite _ _ _ _). destruct (commitIncidentsLocked d w _) eqn:E; [|done].
    by apply commit_book in E as (_ & _ & E).
  - unfold DeleteIncidents. destruct ids; [by rewrite load_hot|]. apply write_hot.
  - apply write_hot.
  - apply write_hot.
  - unfold PutMaintenanceWindow. case_bool_decide; [by rewrite load_hot|]. destruct (_ && _); [done|]. apply write_hot.
  - unfold DeleteMaintenanceWindow. destruct (windows _ !! id); [|done]. apply write_hot.
  - by rewrite load_hot.
Qed.
Lemma run_hot s cs : hot (run s cs) = None ↔ hot s = None.
Proof.
  revert s. induction cs as [|c cs IH]; intros s; [done|]. cbn. unfold run in IH. by rewrite IH, istep_hot.
Qed.

(** C31. Incidents survive a restart: on the hot store, after any run in which
    the disk answered, the book read back holds the incidents and maintenance
    windows the process had. *)
Theorem incidents_survive_restart h cs o d o' d' :
  loadable (hIncidents h) → Forall call_ok cs → Forall healthy cs →
  valid_order o → reads d = true → valid_order o' → reads d' = true →
  let s := incidentBookLocked o d (run (empty_store (Some h)) cs) in
  let s' := incidentBookLocked o' d' (empty_store (hot s)) in
  incidents (ibook s') = incidents (ibook s) ∧ windows (ibook s') = windows (ibook s) ∧
  (∀ key, ActiveIncident key (ibook s') = ActiveIncident key (ibook s)).
Proof.
  intros Hh Hc Hhl Ho Hr Ho' Hr' s s'.
  pose proof (run_sound _ cs Hc Hhl (empty_sound (Some h) Hh)) as Hs0.
  destruct (load_sound o d _ Ho Hr Hs0) as ([Hs Hm] & Hl & Hb). fold s in Hs, Hm, Hl, Hb.
  assert (hot s ≠ None) as Hhot by (unfold s; by rewrite load_hot, run_hot).
  destruct (hot s) as [h1|] eqn:E1; [|done]. destruct Hl as [|Hl]; [done|].
  specialize (Hm h1 E1). rewrite Hl in Hm. destruct Hm as [Ei Ew].
  assert (sound (empty_store (Some h1))) as [He Hme].
  { apply empty_sound. rewrite Ei. split; [apply (ok_ids _ Hb)|by apply book_unique]. }
  destruct (load_mirrored o' d' _ Ho' Hr' He Hme) as (_ & _ & Ei' & Ew'). fold s' in Ei', Ew'.
  destruct (load_ok o' d' _ Ho' He) as (Hb' & _). fold s' in Hb'.
  rewrite Ei', Ew'. split; [done|]. split; [done|]. intros key. apply option_eq. intros inc.
  rewrite !ActiveIncident_exact by done. unfold get_incident. by rewrite Ei', Ei.
Qed.

(** Eviction keeps the book bounded and never drops an unresolved
    record: after an accepted batch either at most 2000 records are kept or
    no resolved record outside the batch is left; what was dropped was
    resolved, not part of the batch, and resolved no later than every
    resolved record that stayed. *)
Theorem eviction_bounded o b rows w :
  valid_order o → book_ok b → batch_ok rows → clean_rows (bActive b) rows = Ok (putIncidents w) →
  delIncidents w = incidentEvictionLocked o (putIncidents w) b →
  let b' := applyLocked o w b in
  (Z.of_nat (size (incidents b')) <= MaxIncidents ∨
   ∀ i, get_incident (iID i) b' = Some i → Active i = false → iID i ∈ map iID rows) ∧
  (∀ i, get_incident (iID i) b = Some i → iID i ∉ map iID rows →
     get_incident (iID i) b' = Some i ∨
     (get_incident (iID i) b' = None ∧ Active i = false ∧
      ∀ j, get_incident (iID j) b' = Some j → Active j = false → iID j ∉ map iID rows → iResolvedAt i <= iResolvedAt j)).
Proof.
  intros Ho Hb Hbatch Hclean Hdel b'. pose proof Hclean as [Hrows Hall]%clean_rows_Ok.
  assert (map iID (putIncidents w) = map iID rows) as Eids.
  { rewrite Hrows, map_map. apply map_ext. intros r. by destruct (bound_core r) as (-> & _). }
  destruct (applyLocked_ok o Ho b w Hb) as (Hb' & Hi & _).
  { rewrite Hrows. apply Forall_map. eapply Forall_impl; [done|]. intros r [H _]. by destruct (bound_core r) as (-> & _). }
  { rewrite Hrows. by apply clean_conflict_free. }
  fold b' in Hb', Hi. rewrite Hdel in Hi.
  assert (∀ m id, id ∉ map iID rows → puts (putIncidents w) m !! id = m !! id) as Hout.
  { rewrite <- Eids. generalize (putIncidents w). induction l as [|r l IH]; intros m id Hid; [done|].
    cbn [puts foldl map] in *. fold (puts l (<[iID r := r]> m)). rewrite IH by set_solver. apply lookup_insert_ne. set_solver. }
  unfold get_incident. split.
  - destruct (evicted_size o Ho b Hb (putIncidents w)) as [Hs|Hs]; [left; by rewrite Hi|right].
    intros i Hi' Ha. destruct (decide (iID i ∈ map iID rows)) as [|Hn]; [done|]. exfalso.
    rewrite Hi, Hout in Hi' by done. rewrite (Hs i) in Hi'; [done|]. split_and!; [|done|by rewrite Eids].
    eapply lookup_weaken; [exact Hi'|]. apply dels_sub.
  - intros i Hib Hni. rewrite Hi, Hout, dels_lookup by done. destruct (mem _ _) eqn:E; [right|by left].
    apply mem_spec in E. pose proof E as (i' & Hci & Eid)%(victims_elem o Ho b Hb).
    assert (i' = i) as -> by (destruct Hci as [Hci _]; rewrite Eid in Hci; congruence).
    split; [done|]. split; [apply Hci|]. intros j Hj Ha Hnj. rewrite Hout, dels_lookup in Hj by done.
    destruct (mem (iID j) _) eqn:Ej; [done|]. apply mem_false in Ej.
    eapply (victims_oldest o Ho b Hb (putIncidents w)); [done| |done|done]. split_and!; [done|done|by rewrite Eids].
Qed.

(** A refused batch changes nothing. *)
Lemma load_loaded o d s : loadedFrom s = true → incidentBookLocked o d s = s.
Proof. intros Hl. unfold incidentBookLocked. rewrite Hl. by destruct (hot s). Qed.
Lemma PutIncidents_refused o d r rows s e :
  loadedFrom s = true → clean_rows (bActive (ibook s)) (r :: rows) = Err e → PutIncidents o d (r :: rows) s = (s, Some e).
Proof. intros Hl Hc. unfold PutIncidents. rewrite load_loaded by done. by rewrite Hc. Qed.
Lemma clean_rows_refused A r rows other :
  (trim_space (iID r) =?? "") = false → (trim_space (iKey r) =?? "") = false → A !! iKey r = Some other → other ≠ iID r →
  Active r = true → clean_rows A (r :: rows) = Err (ErrUnresolvedExists (iKey r)).
Proof.
  intros H1 H2 H3 H4 H5. cbn [clean_rows]. rewrite H1, H2, H3, H5, bool_decide_eq_false_2 by done. done.
Qed.

(** ** Concrete runs *)

Module IncidentDemo.
Definition ranged : order := fun m => (map_to_list m).*2.
Lemma ranged_valid : valid_order ranged.
Proof. intros m. reflexivity. Qed.
Definition up : disk := mkDisk true true.
Definition down : disk := mkDisk true false.
Definition inc (id key state : string) (opened resolved : time) : Incident :=
  with_iState state (with_iOpenedAt opened (with_iResolvedAt resolved
    (mkIncident id key "node.offline" "critical" "n1" "" "" "" "" "" "" "" "" "" 0 0 0 0 0 "" 0 false "" 0 "" 0 0
       false false [] "" 0 0 false ∅ false))).
Definition call (d : disk) (op : iop) : icall := mkCall ranged d op.
Definition opened : Incident := inc "inc_a" "node.offline/n1" "open" 10 0.
Definition resolved : Incident := inc "inc_a" "node.offline/n1" "resolved" 10 20.
Definition reopened : Incident := inc "inc_b" "node.offline/n1" "open" 40 0.
Definition cs : list icall := [call up (OpPut [opened]); call up (OpPut [resolved]); call up (OpPut [reopened]); call up OpRestart].
Lemma one_row i : batch_ok [i].
Proof. intros r r' ->%list_elem_of_singleton ->%list_elem_of_singleton. done. Qed.
Lemma cs_ok : Forall call_ok cs ∧ Forall healthy cs.
Proof.
  split; [|repeat (constructor; [by split|]); constructor].
  repeat (constructor; [split; [apply ranged_valid|try apply one_row; exact I]|]). constructor.
Qed.
Lemma empty_loadable : loadable ∅.
Proof. split; [by intros ? ? ?%lookup_empty_Some|by intros ? ? ? ? ?%lookup_empty_Some]. Qed.
(** The disk refuses the resolution of the first record and takes the
    opening of the second; the process restarts. *)
Definition split_run : list icall :=
  [call up (OpPut [opened]); call down (OpPut [resolved]); call up (OpPut [reopened]); call up OpRestart].
Definition split_store : istore := incidentBookLocked ranged up (run (empty_store (Some (mkHot ∅ ∅))) split_run).
End IncidentDemo.

Lemma one_unresolved_per_key_witness :
  let b := ibook (incidentBookLocked IncidentDemo.ranged IncidentDemo.up
             (run (empty_store (Some (mkHot ∅ ∅))) IncidentDemo.cs)) in
  ActiveIncident "node.offline/n1" b = Some IncidentDemo.reopened.
Proof.
  destruct IncidentDemo.cs_ok as [H1 H2].
  destruct (one_unresolved_per_key (Some (mkHot ∅ ∅)) IncidentDemo.cs IncidentDemo.ranged IncidentDemo.up
    IncidentDemo.empty_loadable H1 H2 IncidentDemo.ranged_valid eq_refl) as [H _].
  apply H. vm_compute. split_and!; reflexivity.
Defined.
Lemma incidents_survive_restart_witness :
  let s := incidentBookLocked IncidentDemo.ranged IncidentDemo.up (run (empty_store (Some (mkHot ∅ ∅))) IncidentDemo.cs) in
  incidents (ibook (incidentBookLocked IncidentDemo.ranged IncidentDemo.up (empty_store (hot s)))) !! "inc_b" =
  Some IncidentDemo.reopened.
Proof.
  cbv zeta. destruct IncidentDemo.cs_ok as [H1 H2].
  destruct (incidents_survive_restart (mkHot ∅ ∅) IncidentDemo.cs IncidentDemo.ranged IncidentDemo.up IncidentDemo.ranged
    IncidentDemo.up IncidentDemo.empty_loadable H1 H2 IncidentDemo.ranged_valid eq_refl IncidentDemo.ranged_valid eq_refl)
    as [-> _]. vm_compute. reflexivity.
Defined.
Lemma eviction_bounded_witness :
  let w := mkWrite [IncidentDemo.opened] [] [] [] in
  get_incident "inc_a" (applyLocked IncidentDemo.ranged w empty_book) = Some IncidentDemo.opened ∧
  (Z.of_nat (size (incidents (applyLocked IncidentDemo.ranged w empty_book))) <= MaxIncidents ∨
   ∀ i, get_incident (iID i) (applyLocked IncidentDemo.ranged w empty_book) = Some i → Active i = false →
     iID i ∈ map iID [IncidentDemo.opened]).
Proof.
  split; [vm_compute; reflexivity|].
  apply (eviction_bounded IncidentDemo.ranged empty_book [IncidentDemo.opened] (mkWrite [IncidentDemo.opened] [] [] [])
    IncidentDemo.ranged_valid).
  - apply book_ok_indexes, empty_indexes.
  - apply IncidentDemo.one_row.
  - vm_compute. reflexivity.
  - vm_compute. reflexivity.
Defined.

(** A write the disk refuses can leave two unresolved incidents for one
    key.  The disk refuses the resolution of a record, which memory keeps,
    and accepts the next opening: after a restart both records are
    unresolved, the index knows one of them, and every batch that contains a
    row of the other, the sweep's included, is refused whole. *)
Theorem refused_write_splits_incident :
  let b := ibook IncidentDemo.split_store in
  get_incident "inc_a" b = Some IncidentDemo.opened ∧ get_incident "inc_b" b = Some IncidentDemo.reopened ∧
  Active IncidentDemo.opened = true ∧ Active IncidentDemo.reopened = true ∧
  iKey IncidentDemo.opened = iKey IncidentDemo.reopened ∧
  ∃ lost, lost ∈ [IncidentDemo.opened; IncidentDemo.reopened] ∧
    ∀ d rows, PutIncidents IncidentDemo.ranged d (lost :: rows) IncidentDemo.split_store =
      (IncidentDemo.split_store, Some (ErrUnresolvedExists (iKey lost))).
Proof.
  split_and!; [vm_compute; reflexivity..|].
  assert (loadedFrom IncidentDemo.split_store = true) as Hl by (vm_compute; reflexivity).
  assert (bActive (ibook IncidentDemo.split_store) !! iKey IncidentDemo.opened = Some "inc_b") as E by (vm_compute; reflexivity).
  exists IncidentDemo.opened. split; [apply elem_of_cons; left; reflexivity|]. intros d rows. apply PutIncidents_refused; [exact Hl|].
  apply (clean_rows_refused _ _ _ "inc_b"); [vm_compute; reflexivity|vm_compute; reflexivity|exact E|discriminate|vm_compute; reflexivity].
Qed.
