(* ===== verification/IncidentEval.v ===== *)
(** * The incident evaluator ([internal/server/incidents.go], [server_incidents.go])

    Emitters report that a problem opened or is over; operators acknowledge,
    undo and snooze; a sweep every twenty seconds decides what the phone is
    told.  Each is a function of the store of Incidents.v.  What leaves the
    server is a list of effects, in the order of the source: messages through
    every rule, through one rule, escalations, and rows of the Sent log.  The
    outbox is read as a list of rows, newest first. *)

From Stdlib Require Import ZArith Lia Ascii.
From stdpp Require Import gmap strings sorting.
From S2P Require Import Prelude GoStr Rbac Groups Nft Incidents.

Local Open Scope Z_scope.

(** ** Kinds *)

Definition EventNodeOffline : string := "node.offline".
Definition EventNodeOnline : string := "node.online".
Definition EventServiceDown : string := "service.down".
Definition EventServiceRecovered : string := "service.recovered".
Definition EventMonitorDown : string := "monitor.down".
Definition EventMonitorRecovered : string := "monitor.recovered".
Definition EventAgentStalled : string := "agent.stalled".
Definition EventAgentRecovered : string := "agent.recovered".
Definition EventPathDegraded : string := "path.degraded".
Definition EventPathRecovered : string := "path.recovered".
Definition incidentSeverityWarning : string := "warning".
Definition incidentSeverityCritical : string := "critical".
Record incidentKind := mkKind { recovery : string; severity : string; noun : string }.
Definition incidentKinds : gmap string incidentKind :=
  {[ EventNodeOffline := mkKind EventNodeOnline incidentSeverityCritical "nodes";
     EventServiceDown := mkKind EventServiceRecovered incidentSeverityCritical "nodes";
     EventMonitorDown := mkKind EventMonitorRecovered incidentSeverityWarning "";
     EventAgentStalled := mkKind EventAgentRecovered incidentSeverityWarning "nodes";
     EventPathDegraded := mkKind EventPathRecovered incidentSeverityWarning "paths" ]}.
Definition zero_kind : incidentKind := mkKind "" "" "".
Definition kind_of (k : string) : incidentKind := default zero_kind (incidentKinds !! k).
Definition incidentRecoveryOf : gmap string string :=
  list_to_map (map (fun '(open, k) => (recovery k, open)) (map_to_list incidentKinds)).

Definition incidentFlapWindow : duration := 30 * minute.
Definition incidentFlapsToDamp : Z := 3.
Definition incidentDampEvery : duration := hour.
Definition incidentEscalateAfterDefault : duration := 30 * minute.
Definition incidentEscalationLevelDefault : string := "critical".
Definition incidentPruneEvery : duration := hour.
Definition maxIncidentSnooze : duration := 7 * day.

Definition incidentKey (kind nodeID monitorID : string) : string :=
  if negb (monitorID =?? "") then kind +:+ "/" +:+ monitorID +:+ "/" +:+ nodeID else kind +:+ "/" +:+ nodeID.

Record incidentMessage := mkMsg { mTitle : string; mDetail : string; mLine : string }.
Record incidentSignal := mkSignal {
  sgKind : string; sgNodeID : string; sgMonitorID : string; sgSubject : string; sgSince : time; sgMsg : incidentMessage }.

(** ** What is owed *)

Definition clearOwedOpen (i : Incident) : Incident :=
  with_iOwedOpen false (with_iOwedOpenRules [] (with_iAckCancelledOpen false i)).
Definition resolveOwed (i : Incident) : Incident :=
  let unreached := iOwedOpenRules i in
  let i := clearOwedOpen i in
  let i := with_iOwedRecovery (iNotified i =?? IncidentNotifiedOpen) i in
  if iOwedRecovery i then with_iOwedOpenRules unreached i else i.
Definition oweOpenTo (ruleIDs : list string) (i : Incident) : Incident :=
  with_iOwedOpenRules (sort_strings (foldl (fun acc r => if mem r acc then acc else acc ++ [r]) (iOwedOpenRules i) ruleIDs)) i.

(** ** What the outbox says about the latest open *)

Record OutRow := mkOutRow {
  orEventType : string; orEventID : string; orRuleID : string; orOutcome : string; orReason : string; orIncidentIDs : list string }.
Definition NotifyOutcomeSuppressed : string := "suppressed".
Definition notifyWithdrawnOpen : string :=
  "withdrawn when quiet hours ended: the incident was resolved, acknowledged or snoozed meanwhile".
Definition notifyWithheldRecovery : string := "withheld: the open message it answers never reached this rule".
Record openReach := mkReach { anyWithdrawn : bool; allWithdrawn : bool }.
(** The latest message of each pair of incident and rule: its event and what
    happened to its copies. *)
Definition reachMap : Type := gmap (string * string) (string * openReach).
Definition reach_row (want : list string) (row : OutRow) (acc : reachMap) : reachMap :=
  if orRuleID row =?? "" then acc else
  let withdrawn := (orOutcome row =?? NotifyOutcomeSuppressed) && (orReason row =?? notifyWithdrawnOpen) in
  foldl (fun acc incidentID =>
    if negb (mem incidentID want) then acc else
    let k := (incidentID, orRuleID row) in
    match acc !! k with
    | None => <[k := (orEventID row, mkReach withdrawn withdrawn)]> acc
    | Some (event, r) =>
      if event =?? orEventID row
      then <[k := (event, mkReach (anyWithdrawn r || withdrawn) (allWithdrawn r && withdrawn))]> acc else acc
    end) acc (orIncidentIDs row).
Definition latestOpenReach (kind : string) (incidentIDs : list string) (outbox : list OutRow) : reachMap :=
  foldl (fun acc row => reach_row incidentIDs row acc) ∅ (List.filter (fun row => orEventType row =?? kind) outbox).
Definition rulesThatMissedOpen (i : Incident) (outbox : list OutRow) : list string :=
  sort_strings (map (fun e => e.1.2) (List.filter (fun e => (e.1.1 =?? iID i) && anyWithdrawn e.2.2)
    (map_to_list (latestOpenReach (iKind i) [iID i] outbox)))).

(** ** Opening and resolving *)

(** The record an emitter's report opens: the last one of the key when it
    resolved within the flap window, else a new one under [newID]. *)
Definition opened_record (newID key : string) (k : incidentKind) (sig : incidentSignal) (now : time) (b : incidentBook) : Incident :=
  match LatestIncident key b with
  | Some last =>
    if negb (Active last) && negb (is_zero (iResolvedAt last)) && (time_sub now (iResolvedAt last) <=? incidentFlapWindow) then
      let i := with_iFlaps (iFlaps last + 1) last in
      if incidentFlapsToDamp <=? iFlaps i then with_iFlapping true i else i
    else mkIncident newID key (sgKind sig) (severity k) (sgNodeID sig) (sgMonitorID sig) "" "" "" "" "" "" "" "" 0 now 0 0 0
           "" 0 false "" 0 "" 0 0 false false [] "" 0 0 false ∅ false
  | None => mkIncident newID key (sgKind sig) (severity k) (sgNodeID sig) (sgMonitorID sig) "" "" "" "" "" "" "" "" 0 now 0 0 0
           "" 0 false "" 0 "" 0 0 false false [] "" 0 0 false ∅ false
  end.
Definition opened_incident (sig : incidentSignal) (now : time) (outbox : list OutRow) (i : Incident) : Incident :=
  let i := with_iState IncidentStateOpen (with_iSubject (sgSubject sig) (with_iSince (sgSince sig) (with_iOpenedAt now
           (with_iResolvedAt 0 (with_iUpdatedAt now (with_iTitle (mTitle (sgMsg sig)) (with_iDetail (mDetail (sgMsg sig))
           (with_iLine (mLine (sgMsg sig)) (with_iRecoveryTitle "" (with_iRecoveryDetail "" (with_iRecoveryLine ""
           (with_iAckedBy "" (with_iAckedAt 0 i))))))))))))) in
  let unreached := iOwedOpenRules i in
  let i := clearOwedOpen i in
  if iNotified i =?? IncidentNotifiedOpen then
    let i := with_iOwedOpen false (with_iOwedRecovery false i) in
    let i := oweOpenTo unreached i in
    oweOpenTo (rulesThatMissedOpen i outbox) i
  else with_iOwedOpen true (with_iOwedRecovery false i).
Definition openIncident (o : order) (d : disk) (newID : string) (sig : incidentSignal) (now : time) (outbox : list OutRow)
  (s : istore) : istore :=
  match incidentKinds !! sgKind sig with
  | None => s
  | Some k =>
    let key := incidentKey (sgKind sig) (sgNodeID sig) (sgMonitorID sig) in
    let s := incidentBookLocked o d s in
    match ActiveIncident key (ibook s) with
    | Some _ => s
    | None => (PutIncidents o d [opened_incident sig now outbox (opened_record newID key k sig now (ibook s))] s).1
    end
  end.
Definition resolved_incident (now : time) (msg : incidentMessage) (i : Incident) : Incident :=
  resolveOwed (with_iState IncidentStateResolved (with_iResolvedAt now (with_iUpdatedAt now
    (with_iRecoveryTitle (mTitle msg) (with_iRecoveryDetail (mDetail msg) (with_iRecoveryLine (mLine msg) i)))))).
Definition resolveIncident (o : order) (d : disk) (key : string) (now : time) (msg : incidentMessage) (s : istore) : istore :=
  let s := incidentBookLocked o d s in
  match ActiveIncident key (ibook s) with
  | None => s
  | Some i => (PutIncidents o d [resolved_incident now msg i] s).1
  end.

(** ** What operators do *)

Class IncidentText := {
  (** [t.UTC().Format(time.RFC3339)] *)
  stamp : time → string;
}.
(** A monitor, with the node its check names (its target node, or the one in
    the id of a generated check) and what its alert policy pages. *)
Record Monitor := mkMonitor {
  mnTargetNode : string;
  mnTLS : bool; mnAssignAll : bool; mnNodeIDs : list string; mnPausedNodeIDs : list string; mnEnabled : bool;
  pagesDown : bool; pagesDegraded : bool }.
Definition principalHasNodeRestriction (p : Principal) : bool :=
  if (length (ServerAllowlist p) =? 0)%nat then false
  else negb (existsb (fun nodeID => nodeID =?? "*") (ServerAllowlist p)).
Definition incidentVisible (p : Principal) (nodeID : string) : bool :=
  if nodeID =?? "" then negb (principalHasNodeRestriction p) && Allows p "monitor:read" ""
  else Allows p "monitor:read" nodeID.
Definition monitorVisibleToPrincipal (p : Principal) (scope : string) (mon : Monitor) : bool :=
  if negb (mnTargetNode mon =?? "") && negb (Allows p scope (mnTargetNode mon)) then false
  else if mnAssignAll mon then Allows p scope ""
  else if (length (mnNodeIDs mon) =? 0)%nat then negb (principalHasNodeRestriction p) && Allows p scope ""
  else existsb (Allows p scope) (mnNodeIDs mon).
Definition incidentVisibleTo (p : Principal) (monitors : gmap string Monitor) (i : Incident) : bool :=
  if negb (incidentVisible p (iNodeID i)) then false
  else if iMonitorID i =?? "" then true
  else match monitors !! iMonitorID i with None => true | Some mon => monitorVisibleToPrincipal p "monitor:read" mon end.
Definition principalLabel (p : Principal) : string :=
  if negb (ActorID p =?? "") then ActorID p
  else if negb (TokenID p =?? "") then "token:" +:+ TokenID p else "unknown".

Inductive actError := ErrIDRequired | ErrIncidentNotFound | ErrForbidden | ErrNotOpen | ErrMinutes.
Definition incidentActionTarget (p : Principal) (monitors : gmap string Monitor) (incidentID : string) (b : incidentBook)
  : option actError :=
  if trim_space incidentID =?? "" then Some ErrIDRequired else
  match get_incident incidentID b with
  | None => Some ErrIncidentNotFound
  | Some i =>
    if negb (incidentVisibleTo p monitors i) then Some ErrIncidentNotFound
    else if iNodeID i =?? "" then
      if principalHasNodeRestriction p || negb (Allows p "monitor:admin" "") then Some ErrForbidden else None
    else if negb (Allows p "monitor:admin" (iNodeID i)) then Some ErrForbidden else None
  end.
(** The audit record of an action that changed something. *)
Record IncidentAudit := mkIncidentAudit { auNodeID : string; auAction : string; auMetadata : gmap string string }.
Definition audit_of (action : string) (i : Incident) (more : list (string * string)) : IncidentAudit :=
  mkIncidentAudit (iNodeID i) action (list_to_map (more ++ [("incident_id", iID i); ("kind", iKind i)])).
(** Guarded, then read again under the lock. *)
Definition act_on (o : order) (d : disk) (p : Principal) (monitors : gmap string Monitor) (id : string)
  (f : Incident → option (Incident * IncidentAudit)) (s : istore) : res actError (istore * option IncidentAudit) :=
  let s := incidentBookLocked o d s in
  match incidentActionTarget p monitors id (ibook s) with
  | Some e => Err e
  | None =>
    match get_incident id (ibook s) with
    | None => Err ErrNotOpen
    | Some i =>
      fail_if negb (Active i) with ErrNotOpen;
      match f i with Some (i, audit) => Ok ((PutIncidents o d [i] s).1, Some audit) | None => Ok (s, None) end
    end
  end.
Definition acked (who : string) (now : time) (i : Incident) : option Incident :=
  if iState i =?? IncidentStateAcknowledged then None else
  let i := with_iState IncidentStateAcknowledged (with_iAckedBy who (with_iAckedAt now i)) in
  Some (with_iOwedOpen false (with_iUpdatedAt now (with_iAckCancelledOpen (iOwedOpen i) i))).
Definition unacked (now : time) (outbox : list OutRow) (i : Incident) : option Incident :=
  if negb (iState i =?? IncidentStateAcknowledged) then None else
  let i := with_iState IncidentStateOpen i in
  let i := with_iOwedOpen (iOwedOpen i || iAckCancelledOpen i || negb (iNotified i =?? IncidentNotifiedOpen)) i in
  let i := if iOwedOpen i then with_iOwedOpenRules [] i else oweOpenTo (rulesThatMissedOpen i outbox) i in
  Some (with_iAckCancelledOpen false (with_iAckedBy "" (with_iAckedAt 0 (with_iUpdatedAt now i)))).
Definition snoozed (who : string) (minutes : Z) (now : time) (outbox : list OutRow) (i : Incident) : Incident :=
  let i :=
    if minutes =? 0 then
      let i := if negb (is_zero (iSnoozedUntil i)) && negb (iOwedOpen i) then oweOpenTo (rulesThatMissedOpen i outbox) i else i in
      with_iSnoozedUntil 0 (with_iSnoozedBy "" i)
    else with_iSnoozedUntil (time_add now (wrap64 (minutes * minute))) (with_iSnoozedBy who i) in
  with_iUpdatedAt now i.
Section actions.
Context `{IncidentText}.
Definition handleIncidentAck (o : order) (d : disk) (p : Principal) (monitors : gmap string Monitor) (id : string) (now : time)
  (s : istore) : res actError (istore * option IncidentAudit) :=
  act_on o d p monitors id (fun i => j ← acked (principalLabel p) now i; Some (j, audit_of "incident.ack" j [])) s.
Definition handleIncidentUnack (o : order) (d : disk) (p : Principal) (monitors : gmap string Monitor) (id : string) (now : time)
  (outbox : list OutRow) (s : istore) : res actError (istore * option IncidentAudit) :=
  act_on o d p monitors id (fun i => j ← unacked now outbox i;
    Some (j, audit_of "incident.unack" j (if is_zero (iAckedAt i) then [] else [("acked_at", stamp (iAckedAt i))]))) s.
Definition handleIncidentSnooze (o : order) (d : disk) (p : Principal) (monitors : gmap string Monitor) (id : string)
  (minutes : option Z) (now : time) (outbox : list OutRow) (s : istore) : res actError (istore * option IncidentAudit) :=
  match minutes with
  | None => Err ErrMinutes
  | Some m =>
    fail_if (m <? 0) || (maxIncidentSnooze <? wrap64 (m * minute)) with ErrMinutes;
    act_on o d p monitors id (fun i =>
      let j := snoozed (principalLabel p) m now outbox i in
      Some (j, audit_of "incident.snooze" j (("minutes", dec_of_Z m) ::
        if is_zero (iSnoozedUntil j) then [] else [("until", stamp (iSnoozedUntil j))]))) s
  end.
End actions.

(** ** The sweep *)

Definition livenessSpan (d : duration) : string :=
  if d <? minute then "under a minute"
  else if d <? 2 * hour then dec_of_Z (d / minute) +:+ " min"
  else if d <? 48 * hour then dec_of_Z (d / hour) +:+ " h"
  else dec_of_Z (d / day) +:+ " days".

(** What the sweep reads besides the book. *)
Record NotifyRule := mkNotifyRule { nrID : string; nrName : string; nrEventTypes : list string }.
Record NotifyRuleOptions := mkRuleOptions { EscalationOff : bool; EscalateAfterMinutes : Z; EscalationBarkLevel : string }.
Record fleet := mkFleet {
  flNodes : list Node; flGroups : list Group; flMonitors : gmap string Monitor;
  flRules : list NotifyRule; flRuleOptions : gmap string NotifyRuleOptions; flOutbox : list OutRow }.

Definition monitorPairAssigned (mon : Monitor) (nodeID : string) : bool :=
  if mnTLS mon then nodeID =?? ""
  else negb (nodeID =?? "") && (mnAssignAll mon || mem nodeID (mnNodeIDs mon)) && negb (mem nodeID (mnPausedNodeIDs mon)).
Definition notifyRuleMatches (rule : NotifyRule) (eventType : string) : bool :=
  (length (nrEventTypes rule) =? 0)%nat ||
  existsb (fun candidate => (candidate =?? "*") || (candidate =?? eventType)) (nrEventTypes rule).

Definition maintenanceCover : Type := string → option MaintenanceWindow.
Definition ends_le (a b : MaintenanceWindow) : Prop :=
  if EndsAt a =? EndsAt b then String.le (mwID a) (mwID b) else EndsAt a <= EndsAt b.
#[export] Instance ends_le_dec : RelDecision ends_le.
Proof. intros a b. unfold ends_le. destruct (_ =? _); apply _. Defined.
Definition MaintenanceWindows (b : incidentBook) : list MaintenanceWindow := merge_sort ends_le (map_to_list (windows b)).*2.
Definition maintenanceCoverAt (now : time) (fl : fleet) (b : incidentBook) : maintenanceCover :=
  let active := List.filter (fun w => ActiveAt w now) (MaintenanceWindows b) in
  let needGroups := existsb (fun w => negb (length (mwGroupIDs w) =? 0)%nat) active in
  let members := if needGroups then ResolveAll (flGroups fl) (flNodes fl) else ∅ in
  fun nodeID =>
    if nodeID =?? "" then None
    else List.find (fun w => mem nodeID (mwNodeIDs w) ||
           existsb (fun g => mem nodeID (default [] (members !! g))) (mwGroupIDs w)) active.

Definition incidentFlapDamped (i : Incident) (now : time) : bool :=
  iFlapping i && negb (is_zero (iNotifiedAt i)) && (time_sub now (iNotifiedAt i) <? incidentDampEvery).
Definition flap_reason (i : Incident) : string :=
  "flapping (" +:+ dec_of_Z (iFlaps i) +:+ " reopenings within " +:+ livenessSpan incidentFlapWindow +:+
  "), at most one message an hour".
Definition flappingSuffix (i : Incident) : string :=
  if negb (iFlapping i) then "" else " (flapping, " +:+ dec_of_Z (iFlaps i) +:+ " reopenings)".

Record incidentOutgoing := mkOutgoing { ogID : string; ogSortKey : string; ogMsg : incidentMessage; ogUnreached : list string }.
Definition incidentSortKey (i : Incident) : string := iSubject i +:+ str1 (byte_of 0) +:+ iKey i.
Definition incidentOpenOutgoing (i : Incident) : incidentOutgoing :=
  let line := if iFlapping i then iLine i +:+ " (flapping)" else iLine i in
  mkOutgoing (iID i) (incidentSortKey i) (mkMsg (iTitle i +:+ flappingSuffix i) (iDetail i) line) [].

Inductive effect :=
| Send (eventType title body : string) (ids : list string)
| SendRule (rule eventType title body : string) (ids : list string)
| SendEscalation (rule : string) (broadcast : bool) (kind title body level : string) (ids : list string)
| Withheld (rule ruleName eventType title body : string) (ids : list string)
| Suppress (eventType id reason title body : string).

Section sweep.
Context `{IncidentText} `{Quote}.

Definition incidentOpenHold (i : Incident) (now : time) (cover : maintenanceCover) : string :=
  match cover (iNodeID i) with
  | Some w => "held by maintenance window " +:+ quote (mwName w) +:+ " until " +:+ stamp (EndsAt w)
  | None =>
    if after (iSnoozedUntil i) now then "snoozed until " +:+ stamp (iSnoozedUntil i)
    else if incidentFlapDamped i now then flap_reason i
    else ""
  end.

Definition monitorIncidentClosing (i : Incident) (mon : Monitor) : option incidentMessage :=
  let degraded := iKind i =?? EventPathDegraded in
  let state := if degraded then "degraded state" else "down state" in
  if negb (monitorPairAssigned mon (iNodeID i)) then
    if degraded then
      Some (mkMsg ("Path no longer checked: " +:+ iSubject i)
        (iSubject i +:+ " is no longer checked from its source, so its " +:+ state +:+ " is closed without a recovery.")
        (iSubject i +:+ ": no longer checked"))
    else
      Some (mkMsg ("Monitor no longer checks " +:+ iSubject i)
        (iSubject i +:+ " is no longer assigned, so its " +:+ state +:+ " is closed without a recovery result.")
        (iSubject i +:+ ": no longer checked"))
  else if negb (mnEnabled mon) then
    Some (mkMsg ((if degraded then "Path paused: " else "Monitor paused: ") +:+ iSubject i)
      (iSubject i +:+ " is paused, so its " +:+ state +:+ " is closed without a recovery result.")
      (iSubject i +:+ ": paused"))
  else if degraded && negb (pagesDegraded mon) then
    Some (mkMsg ("Degraded alerts off for " +:+ iSubject i)
      ("Degraded alerts are off for " +:+ iSubject i +:+ ", so its degraded state is closed without a recovery.")
      (iSubject i +:+ ": degraded alerts off"))
  else if negb degraded && negb (pagesDown mon) then
    Some (mkMsg ("Alerts off for " +:+ iSubject i)
      ("Alerts are off for " +:+ iSubject i +:+ ", so its down state is closed without a recovery result.")
      (iSubject i +:+ ": alerts off"))
  else None.

(** One candidate on its way through the sweep: the record, whether it
    changed, and its share of the messages. *)
Record ev := mkEv {
  vInc : Incident; vDirty : bool; vOpens : list incidentOutgoing; vRuleOpens : list (string * incidentOutgoing);
  vRecoveries : list incidentOutgoing; vHeld : list effect }.
Definition set_inc (i : Incident) (v : ev) : ev := mkEv i true (vOpens v) (vRuleOpens v) (vRecoveries v) (vHeld v).
Definition hold (now : time) (eventType reason title body : string) (v : ev) : ev :=
  let i := vInc v in
  if iSuppressed i =?? reason then v else
  mkEv (with_iSuppressed reason (with_iSuppressedAt now i)) true (vOpens v) (vRuleOpens v) (vRecoveries v)
    (vHeld v ++ [Suppress eventType (iID i) reason title body]).
Definition told (now : time) (i : Incident) : Incident := with_iNotifiedAt now (with_iSuppressed "" (with_iSuppressedAt 0 i)).

(** A snooze that ran out. *)
Definition stage_snooze (now : time) (v : ev) : ev :=
  let i := vInc v in
  if negb (is_zero (iSnoozedUntil i)) && negb (before now (iSnoozedUntil i)) then
    let i := with_iSnoozedUntil 0 (with_iSnoozedBy "" i) in
    set_inc (if iState i =?? IncidentStateOpen then with_iOwedOpen true i
             else if iState i =?? IncidentStateAcknowledged then with_iAckCancelledOpen true i else i) v
  else v.
(** The open message owed to every rule. *)
Definition stage_open (now : time) (cover : maintenanceCover) (v : ev) : ev :=
  let i := vInc v in
  if negb (iOwedOpen i) then v
  else if negb (Active i) || (iState i =?? IncidentStateAcknowledged) then
    set_inc (with_iOwedOpen false
      (with_iAckCancelledOpen (iAckCancelledOpen i || (iState i =?? IncidentStateAcknowledged)) i)) v
  else
    let out := incidentOpenOutgoing i in
    let reason := incidentOpenHold i now cover in
    if negb (reason =?? "") then hold now (iKind i) reason (mTitle (ogMsg out)) (iDetail i) v
    else
      mkEv (told now (with_iOwedOpen false (with_iOwedOpenRules [] (with_iNotified IncidentNotifiedOpen
             (with_iOpenNotifiedAt now i))))) true
        (vOpens v ++ [out]) (vRuleOpens v) (vRecoveries v) (vHeld v).
(** The open message owed to particular rules. *)
Definition stage_rules (now : time) (cover : maintenanceCover) (v : ev) : ev :=
  let i := vInc v in
  if negb (length (iOwedOpenRules i) =? 0)%nat && negb (iOwedOpen i) && (iState i =?? IncidentStateOpen) then
    let out := incidentOpenOutgoing i in
    let reason := incidentOpenHold i now cover in
    if negb (reason =?? "") then hold now (iKind i) reason (mTitle (ogMsg out)) (iDetail i) v
    else
      mkEv (told now (with_iOwedOpenRules [] i)) true (vOpens v)
        (vRuleOpens v ++ map (fun rule => (rule, out)) (iOwedOpenRules i)) (vRecoveries v) (vHeld v)
  else v.
Definition stage_recovery (now : time) (v : ev) : ev :=
  let i := vInc v in
  if negb (iOwedRecovery i) then v else
  let title := iRecoveryTitle i +:+ flappingSuffix i in
  if incidentFlapDamped i now then hold now (recovery (kind_of (iKind i))) (flap_reason i) title (iRecoveryDetail i) v
  else
    let line := if iFlapping i then iRecoveryLine i +:+ " (flapping)" else iRecoveryLine i in
    mkEv (told now (with_iOwedRecovery false (with_iOwedOpenRules [] (with_iNotified IncidentNotifiedResolved i)))) true
      (vOpens v) (vRuleOpens v)
      (vRecoveries v ++ [mkOutgoing (iID i) (incidentSortKey i) (mkMsg title (iRecoveryDetail i) line) (iOwedOpenRules i)])
      (vHeld v).
Definition stage_settle (now : time) (v : ev) : ev :=
  let i := vInc v in
  if iFlapping i && negb (Active i) && negb (iOwedRecovery i) && (incidentDampEvery <=? time_sub now (iResolvedAt i))
  then set_inc (with_iFlapping false i) v else v.

(** [None]: the incident's node or monitor is gone. *)
Definition close_monitor (fl : fleet) (now : time) (i : Incident) : option ev :=
  if negb (iNodeID i =?? "") && negb (existsb (fun n => NodeID n =?? iNodeID i) (flNodes fl)) then None
  else if Active i && negb (iMonitorID i =?? "") then
    match flMonitors fl !! iMonitorID i with
    | None => None
    | Some mon =>
      match monitorIncidentClosing i mon with
      | None => Some (mkEv i false [] [] [] [])
      | Some msg =>
        Some (mkEv (resolveOwed (with_iState IncidentStateResolved (with_iResolvedAt now
          (with_iRecoveryTitle (mTitle msg) (with_iRecoveryDetail (mDetail msg) (with_iRecoveryLine (mLine msg) i))))))
          true [] [] [] [])
      end
    end
  else Some (mkEv i false [] [] [] []).
Definition stamp_updated (now : time) (v : ev) : ev :=
  if vDirty v then mkEv (with_iUpdatedAt now (vInc v)) true (vOpens v) (vRuleOpens v) (vRecoveries v) (vHeld v) else v.
Definition eval_one (fl : fleet) (now : time) (cover : maintenanceCover) (i : Incident) : option ev :=
  v ← close_monitor fl now i;
  Some (stamp_updated now (stage_settle now (stage_recovery now (stage_rules now cover (stage_open now cover
    (stage_snooze now v)))))).
Definition escalates (now : time) (cover : maintenanceCover) (i : Incident) : bool :=
  Active i && (iState i =?? IncidentStateOpen) && (iSeverity i =?? incidentSeverityCritical) &&
  (iNotified i =?? IncidentNotifiedOpen) && negb (iNoEscalate i) && negb (iFlapping i) &&
  (incidentOpenHold i now cover =?? "").

(** *** Composing messages *)

Definition alertDigestTitle (kind : string) (n : Z) : string :=
  if kind =?? EventServiceDown then "sing-box down digest: " +:+ dec_of_Z n +:+ " nodes"
  else if kind =?? EventServiceRecovered then "sing-box recovered digest: " +:+ dec_of_Z n +:+ " nodes"
  else if kind =?? EventMonitorDown then "Monitor down digest: " +:+ dec_of_Z n
  else if kind =?? EventMonitorRecovered then "Monitor recovered digest: " +:+ dec_of_Z n
  else kind +:+ " digest: " +:+ dec_of_Z n.
Definition incidentDigestTitle (eventType : string) (n : Z) : string :=
  if eventType =?? EventNodeOffline then "Lattice node offline digest: " +:+ dec_of_Z n +:+ " nodes"
  else if eventType =?? EventNodeOnline then "Lattice node online digest: " +:+ dec_of_Z n +:+ " nodes"
  else if eventType =?? EventAgentStalled then "Lattice agent stalled digest: " +:+ dec_of_Z n +:+ " nodes"
  else if eventType =?? EventAgentRecovered then "Lattice agent recovered digest: " +:+ dec_of_Z n +:+ " nodes"
  else if eventType =?? EventPathDegraded then dec_of_Z n +:+ " paths degraded"
  else if eventType =?? EventPathRecovered then dec_of_Z n +:+ " paths recovered"
  else alertDigestTitle eventType n.
Definition sort_key_le (a b : incidentOutgoing) : Prop := String.le (ogSortKey a) (ogSortKey b).
#[local] Instance sort_key_le_dec : RelDecision sort_key_le := fun a b => _.
Definition incidentNotice (eventType : string) (items : list incidentOutgoing) : string * string * list string :=
  match items with
  | [it] => (mTitle (ogMsg it), mDetail (ogMsg it), [ogID it])
  | _ =>
    let items := merge_sort sort_key_le items in
    (incidentDigestTitle eventType (Z.of_nat (length items)), join (str1 newline) (map (fun it => mLine (ogMsg it)) items),
     map ogID items)
  end.
Definition sendIncidentMessages (eventType : string) (items : list incidentOutgoing) : list effect :=
  match items with
  | [] => []
  | _ => let '(title, body, ids) := incidentNotice eventType items in [Send eventType title body ids]
  end.
(** Items grouped by kind, kinds in order. *)
Definition kinds_of {A} (items : list (string * A)) : list string := sort_strings (dedup (map fst items)).
Definition of_kind {A} (k : string) (items : list (string * A)) : list A :=
  map snd (List.filter (fun e => e.1 =?? k) items).
Definition sendOpens (items : list (string * incidentOutgoing)) : list effect :=
  flat_map (fun k => sendIncidentMessages k (of_kind k items)) (kinds_of items).
(** [byRule]: rule, kind, item. *)
Definition sendRuleOpens (rules : list NotifyRule) (byRule : list (string * (string * incidentOutgoing))) : list effect :=
  flat_map (fun rule =>
    let items := of_kind (nrID rule) byRule in
    flat_map (fun k => let '(title, body, ids) := incidentNotice k (of_kind k items) in
                       [SendRule (nrID rule) k title body ids]) (kinds_of items)) rules.

Definition missed_rules (eventType : string) (fl : fleet) (items : list incidentOutgoing) : list (string * string) :=
  if (length (flRules fl) =? 0)%nat then [] else
  flat_map (fun it => map (fun r => (ogID it, r)) (ogUnreached it)) items ++
  map fst (List.filter (fun e => allWithdrawn e.2.2)
    (map_to_list (latestOpenReach (default "" (incidentRecoveryOf !! eventType)) (map ogID items) (flOutbox fl)))).
Definition sendRecoveries (eventType : string) (fl : fleet) (items : list incidentOutgoing) : list effect :=
  if (length items =? 0)%nat then [] else
  let missed := missed_rules eventType fl items in
  let routes rule := notifyRuleMatches rule eventType in
  if (length missed =? 0)%nat || negb (existsb routes (flRules fl)) then sendIncidentMessages eventType items
  else
    let split_for rule := List.partition (fun it => mem (ogID it, nrID rule) missed) items in
    let routing := List.filter routes (flRules fl) in
    flat_map (fun rule =>
      let told := (split_for rule).2 in
      if (length told =? 0)%nat then [] else
      let '(title, body, ids) := incidentNotice eventType told in [SendRule (nrID rule) eventType title body ids]) routing ++
    flat_map (fun rule =>
      let left := (split_for rule).1 in
      if (length left =? 0)%nat then [] else
      let '(title, body, ids) := incidentNotice eventType left in
      [Withheld (nrID rule) (nrName rule) eventType title body ids]) routing.

(** *** Escalation *)

Record incidentEscalation := mkEscalation { esKey : string; esBroadcast : bool; esAfter : duration; esLevel : string }.
Definition escalationPolicy (opts : NotifyRuleOptions) : bool * duration * string :=
  (negb (EscalationOff opts),
   if 0 <? EscalateAfterMinutes opts then wrap64 (EscalateAfterMinutes opts * minute) else incidentEscalateAfterDefault,
   if negb (EscalationBarkLevel opts =?? "") then EscalationBarkLevel opts else incidentEscalationLevelDefault).
Definition zero_options : NotifyRuleOptions := mkRuleOptions false 0 "".
Definition escalationsFor (eventType : string) (fl : fleet) : list incidentEscalation :=
  match flRules fl with
  | [] => let '(_, after, level) := escalationPolicy zero_options in [mkEscalation "" true after level]
  | rules =>
    omap (fun rule =>
      if negb (notifyRuleMatches rule eventType) then None else
      let '(on, after, level) := escalationPolicy (default zero_options (flRuleOptions fl !! nrID rule)) in
      if negb on then None else Some (mkEscalation (nrID rule) false after level)) rules
  end.
Definition escalation_due (i : Incident) (now : time) (esc : incidentEscalation) : bool :=
  let start := if after (iOpenNotifiedAt i) (iOpenedAt i) then iOpenNotifiedAt i else iOpenedAt i in
  is_zero (default 0 (iEscalated i !! esKey esc)) && negb (time_sub now start <? esAfter esc).
(** The escalations an incident is due, with the record once they are
    noted. *)
Definition escalate_one (fl : fleet) (now : time) (i : Incident) : Incident * list incidentEscalation :=
  foldl (fun '(i, due) esc =>
    if negb (escalation_due i now esc) then (i, due)
    else (with_iEscalated (<[esKey esc := now]> (iEscalated i)) i, due ++ [esc]))
    (i, []) (escalationsFor (iKind i) fl).
Definition escalation_text (after : duration) (items : list Incident) : string * string :=
  let span := livenessSpan after in
  match items with
  | [i] => ("Not acknowledged after " +:+ span +:+ ": " +:+ iTitle i,
            iDetail i +:+ str1 newline +:+ str1 newline +:+ "Open since " +:+ stamp (iOpenedAt i) +:+
            " and not acknowledged. This is the only reminder; acknowledge or snooze it in Lattice.")
  | _ => ("Not acknowledged after " +:+ span +:+ ": " +:+ dec_of_Z (Z.of_nat (length items)) +:+ " incidents",
          join (str1 newline) (map iLine items))
  end.
Definition batch_key : Type := string * string.
Definition batch_key_le (a b : batch_key) : Prop := if a.1 =?? b.1 then String.le a.2 b.2 else String.le a.1 b.1.
#[local] Instance batch_key_le_dec : RelDecision batch_key_le.
Proof. intros a b. unfold batch_key_le. destruct (_ =?? _); apply _. Defined.
Definition inc_sort_le (a b : Incident) : Prop := String.le (incidentSortKey a) (incidentSortKey b).
#[local] Instance inc_sort_le_dec : RelDecision inc_sort_le := fun a b => _.
Definition id_le (a b : Incident) : Prop := String.le (iID a) (iID b).
#[local] Instance id_le_dec : RelDecision id_le := fun a b => _.
Definition escalateIncidents (fl : fleet) (now : time) (incs : list Incident) : list effect * list Incident :=
  let done := map (escalate_one fl now) incs in
  let dues := flat_map (fun '(i, due) => map (fun esc => ((esKey esc, iKind i), (esc, i))) due) done in
  let order := merge_sort batch_key_le (dedup (map fst dues)) in
  (flat_map (fun k =>
     match map snd (List.filter (fun e => e.1 =?? k) dues) with
     | [] => []
     | (esc, _) :: _ as b =>
       let items := merge_sort inc_sort_le (map snd b) in
       let '(title, body) := escalation_text (esAfter esc) items in
       [SendEscalation k.1 (esBroadcast esc) k.2 title body (esLevel esc) (map iID items)]
     end) order,
   merge_sort id_le (map fst (List.filter (fun e => negb (length e.2 =? 0)%nat) done))).

(** *** The whole sweep *)

Record sweepState := mkSweep { swStore : istore; swPrunedAt : time }.
Definition is_candidate (i : Incident) : bool :=
  Active i || iOwedRecovery i || iFlapping i || negb (is_zero (iSnoozedUntil i)).
(** The records the sweep writes: those it changed, with the escalations
    noted on them, then those only an escalation touched. *)
Definition changed_rows (now : time) (dirty touched : list Incident) : list Incident :=
  map (fun i => match List.find (fun t => iID t =?? iID i) touched with
                | Some t => with_iEscalated (iEscalated t) i | None => i end) dirty ++
  map (with_iUpdatedAt now) (List.filter (fun t => negb (existsb (fun i => iID i =?? iID t) dirty)) touched).
Record sweepResult := mkSwept { srState : sweepState; srEffects : list effect; srEvs : list ev; srEscalated : list (string * list string) }.
Definition evaluateIncidents (o : order) (d : disk) (fl : fleet) (now : time) (s : sweepState) : sweepResult :=
  let due := incidentPruneEvery <=? time_sub now (swPrunedAt s) in
  let st := if due then (PruneIncidents o d (time_add now (- IncidentRetention)) (swStore s)).1 else swStore s in
  let st := incidentBookLocked o d st in
  let prunedAt := if due then now else swPrunedAt s in
  let candidates := IncidentsWhere o is_candidate (ibook st) in
  if (length candidates =? 0)%nat then mkSwept (mkSweep st prunedAt) [] [] [] else
  let cover := maintenanceCoverAt now fl (ibook st) in
  let results := map (fun i => (i, eval_one fl now cover i)) candidates in
  let evs := omap snd results in
  let gone := map (fun e => iID e.1) (List.filter (fun e => match e.2 with None => true | Some _ => false end) results) in
  let opens := flat_map (fun v => map (fun it => (iKind (vInc v), it)) (vOpens v)) evs in
  let ruleOpens := flat_map (fun v => map (fun e => (e.1, (iKind (vInc v), e.2))) (vRuleOpens v)) evs in
  let recoveries := flat_map (fun v => map (fun it => (recovery (kind_of (iKind (vInc v))), it)) (vRecoveries v)) evs in
  let escalating := List.filter (escalates now cover) (map vInc evs) in
  let '(escEffects, touched) := escalateIncidents fl now escalating in
  let changed := changed_rows now (map vInc (List.filter vDirty evs)) touched in
  let st := (DeleteIncidents o d gone st).1 in
  let st := (PutIncidents o d changed st).1 in
  mkSwept (mkSweep st prunedAt)
    (sendOpens opens ++ sendRuleOpens (flRules fl) ruleOpens ++
     flat_map (fun k => sendRecoveries k fl (of_kind k recoveries)) (kinds_of recoveries) ++
     escEffects ++ flat_map vHeld evs)
    evs (map (fun e => (iID e.1, map esKey e.2)) (map (escalate_one fl now) escalating)).
End sweep.

(** ** The invariant of a record

    A resolved record owes its recovery exactly while the phone says open,
    and owes no open; an unresolved one owes no recovery; an open one has
    been told or is owed its message. *)

Record inc_ok (i : Incident) : Prop := {
  io_state : iState i ∈ [IncidentStateOpen; IncidentStateAcknowledged; IncidentStateResolved];
  io_kind : is_Some (incidentKinds !! iKind i);
  io_active : Active i = true → iOwedRecovery i = false;
  io_resolved : Active i = false → iOwedRecovery i = (iNotified i =?? IncidentNotifiedOpen) ∧ iOwedOpen i = false;
  io_open : iState i = IncidentStateOpen → iNotified i = IncidentNotifiedOpen ∨ iOwedOpen i = true;
  io_ids : (trim_space (iID i) =?? "") = false ∧ (trim_space (iKey i) =?? "") = false;
}.
(** Records that differ in text and bookkeeping only. *)
Record inc_same (i j : Incident) : Prop := {
  is_id : iID i = iID j; is_key : iKey i = iKey j; is_kind : iKind i = iKind j; is_node : iNodeID i = iNodeID j;
  is_state : iState i = iState j; is_notified : iNotified i = iNotified j; is_notifiedAt : iNotifiedAt i = iNotifiedAt j;
  is_owedOpen : iOwedOpen i = iOwedOpen j; is_owedRecovery : iOwedRecovery i = iOwedRecovery j;
  is_escalated : iEscalated i = iEscalated j; is_flapping : iFlapping i = iFlapping j;
}.
Lemma inc_same_ok i j : inc_same i j → inc_ok j → inc_ok i.
Proof.
  intros [E1 E2 E3 _ E4 E5 _ E6 E7 _ _] [H1 H2 H3 H4 H5 H6].
  assert (Active i = Active j) as Ea by (unfold Active; by rewrite E4).
  split; rewrite ?E1, ?E2, ?E3, ?E4, ?E5, ?E6, ?E7, ?Ea; done.
Qed.
Lemma bound_same i : inc_same (boundIncidentText i) i.
Proof. by destruct i. Qed.
Lemma inc_same_refl i : inc_same i i.
Proof. by split. Qed.
Lemma Active_state i : Active i = true ↔ iState i = IncidentStateOpen ∨ iState i = IncidentStateAcknowledged.
Proof. unfold Active. by rewrite orb_true_iff, !bool_decide_eq_true. Qed.

Section evaluation.
Context `{IncidentText} `{Quote}.
Variables (now : time) (cover : maintenanceCover).

(** What one candidate is told. *)
Inductive phase := Quiet | SentOpen | SentRules | SentRecovery.
Definition damped_ok (i : Incident) : Prop :=
  iFlapping i = true → iNotifiedAt i = 0 ∨ incidentDampEvery <= time_sub now (iNotifiedAt i).
Definition sent (p : phase) (i : Incident) (v : ev) : Prop :=
  match p with
  | Quiet => vOpens v = [] ∧ vRuleOpens v = [] ∧ vRecoveries v = [] ∧
             iNotified (vInc v) = iNotified i ∧ iNotifiedAt (vInc v) = iNotifiedAt i
  | SentOpen => (∃ out, vOpens v = [out] ∧ ogID out = iID i) ∧ vRuleOpens v = [] ∧ vRecoveries v = [] ∧
                iNotified (vInc v) = IncidentNotifiedOpen ∧ iNotifiedAt (vInc v) = now ∧ iOwedOpen (vInc v) = false ∧
                iOwedOpenRules (vInc v) = [] ∧ iState (vInc v) = IncidentStateOpen ∧ iState i = IncidentStateOpen ∧
                cover (iNodeID i) = None ∧ iSnoozedUntil (vInc v) <= now ∧ damped_ok i
  | SentRules => vOpens v = [] ∧ (∃ rules out, vRuleOpens v = map (fun r => (r, out)) rules ∧ rules ≠ [] ∧ ogID out = iID i) ∧
                 vRecoveries v = [] ∧ iNotified (vInc v) = iNotified i ∧ iNotifiedAt (vInc v) = now ∧
                 iState (vInc v) = IncidentStateOpen ∧ iState i = IncidentStateOpen ∧
                 cover (iNodeID i) = None ∧ iSnoozedUntil (vInc v) <= now ∧ damped_ok i
  | SentRecovery => vOpens v = [] ∧ vRuleOpens v = [] ∧ (∃ out, vRecoveries v = [out] ∧ ogID out = iID i) ∧
                    iNotified i = IncidentNotifiedOpen ∧ iNotified (vInc v) = IncidentNotifiedResolved ∧
                    iNotifiedAt (vInc v) = now ∧ Active (vInc v) = false ∧ damped_ok i
  end.
Record ev_inv (i : Incident) (p : phase) (v : ev) : Prop := {
  ei_ok : inc_ok (vInc v);
  ei_id : iID (vInc v) = iID i; ei_key : iKey (vInc v) = iKey i; ei_kind : iKind (vInc v) = iKind i;
  ei_node : iNodeID (vInc v) = iNodeID i; ei_escalated : iEscalated (vInc v) = iEscalated i;
  ei_active : Active (vInc v) = true → iState (vInc v) = iState i;
  ei_flapping : iFlapping (vInc v) = iFlapping i;
  ei_sent : sent p i v;
}.

(** Replacing the record of a quiet candidate. *)
Lemma ev_inv_hold i p v et reason title body : ev_inv i p v → ev_inv i p (hold now et reason title body v).
Proof.
  intros [Hok E1 E2 E3 E4 E5 E6 E7 Hs]. unfold hold. case_bool_decide; [by split|].
  destruct v as [j dirty os rs cs held]. cbn in *.
  assert (inc_same (with_iSuppressed reason (with_iSuppressedAt now j)) j) as Hsame by (by destruct j).
  split; cbn; [by eapply inc_same_ok|..]; by destruct j.
Qed.
Lemma not_damped i : incidentFlapDamped i now = false → damped_ok i.
Proof.
  unfold incidentFlapDamped, damped_ok. intros Hd Hf. rewrite Hf in Hd. cbn [andb] in Hd.
  apply andb_false_iff in Hd as [Hd|Hd].
  - left. apply negb_false_iff, Z.eqb_eq in Hd. done.
  - right. by apply Z.ltb_ge in Hd.
Qed.
Lemma open_hold_free i : incidentOpenHold i now cover = "" →
  cover (iNodeID i) = None ∧ iSnoozedUntil i <= now ∧ incidentFlapDamped i now = false.
Proof.
  unfold incidentOpenHold. destruct (cover (iNodeID i)); [done|]. unfold after.
  destruct (Z.ltb_spec now (iSnoozedUntil i)); [done|]. by destruct (incidentFlapDamped i now).
Qed.

Lemma stage_snooze_inv i v : ev_inv i Quiet v → ev_inv i Quiet (stage_snooze now v).
Proof.
  intros [Hok E1 E2 E3 E4 E5 E6 E7 Hs]. unfold stage_snooze. destruct (_ && _); [|by split].
  destruct v as [j dirty os rs cs held]. cbn [vInc] in *. unfold set_inc.
  set (j' := with_iSnoozedUntil 0 (with_iSnoozedBy "" j)).
  assert (iState j' = iState j) as Ej by (by destruct j). rewrite Ej.
  destruct Hok as [H1 H2 H3 H4 H5 H6]. destruct (bool_decide_reflect (iState j = IncidentStateOpen)) as [Eo|Eo];
    [|destruct (bool_decide_reflect (iState j = IncidentStateAcknowledged)) as [Ea|Ea]].
  - split; cbn [vInc vOpens vRuleOpens vRecoveries]; try (by destruct j).
    split; try (by destruct j).
    + intros Hact. exfalso. assert (Active j = false) as Hj by (by destruct j).
      apply not_true_iff_false in Hj. apply Hj, Active_state. by left.
    + intros _; right; by destruct j.
  - split; cbn [vInc vOpens vRuleOpens vRecoveries]; try (by destruct j); split; by destruct j.
  - split; cbn [vInc vOpens vRuleOpens vRecoveries]; try (by destruct j); split; by destruct j.
Qed.

Lemma stage_open_inv i v : ev_inv i Quiet v → ∃ p, ev_inv i p (stage_open now cover v) ∧ (p = Quiet ∨ p = SentOpen).
Proof.
  intros Hv. pose proof Hv as [Hok E1 E2 E3 E4 E5 E6 E7 (S1 & S2 & S3 & S4 & S5)]. unfold stage_open.
  destruct (iOwedOpen (vInc v)) eqn:Eo; cbn [negb]; [|exists Quiet; tauto].
  destruct v as [j dirty os rs cs held]. cbn [vInc vOpens vRuleOpens vRecoveries vHeld] in *. subst os rs cs.
  destruct (negb (Active j) || (iState j =?? IncidentStateAcknowledged)) eqn:Eg.
  { exists Quiet. split; [|by left]. unfold set_inc. destruct Hok as [H1 H2 H3 H4 H5 H6].
    split; cbn [vInc vOpens vRuleOpens vRecoveries]; try (by destruct j).
    - split; try (by destruct j).
      + intros Ha. split; [|by destruct j]. assert (Active j = false) as Hj by (by destruct j). apply H4 in Hj as [Hj _]. by destruct j.
      + intros Hst. exfalso. assert (iState j = IncidentStateOpen) as Hj by (by destruct j).
        apply orb_true_iff in Eg as [Eg|Eg].
        * apply negb_true_iff, not_true_iff_false in Eg. apply Eg, Active_state. by left.
        * apply bool_decide_eq_true in Eg. by rewrite Hj in Eg. }
  apply orb_false_iff in Eg as [Ha Hna]. apply negb_false_iff in Ha. apply bool_decide_eq_false in Hna.
  assert (iState j = IncidentStateOpen) as Hopen by (apply Active_state in Ha as [|]; done).
  case_bool_decide as Er; cbn [negb].
  2: { exists Quiet. split; [|by left]. by apply ev_inv_hold. }
  apply open_hold_free in Er as (Hcov & Hsn & Hd). apply not_damped in Hd.
  exists SentOpen. split; [|by right]. destruct Hok as [H1 H2 H3 H4 H5 H6].
  split; cbn [vInc vOpens vRuleOpens vRecoveries]; try (by destruct j).
  - split; try (by destruct j).
    + intros Hf. exfalso. assert (Active j = false) by (by destruct j). congruence.
    + intros _. left. by destruct j.
  - assert (iState i = IncidentStateOpen) as Hi by (rewrite <- E6; done).
    split; [exists (incidentOpenOutgoing j); by rewrite <- E1|].
    assert (damped_ok i) as Hdi by (unfold damped_ok in *; by rewrite <- E7, <- S5).
    rewrite <- E4. destruct j; cbn in *. by split_and!.
Qed.
Lemma stage_rules_inv i p v : ev_inv i p v → (p = Quiet ∨ p = SentOpen) →
  ∃ p', ev_inv i p' (stage_rules now cover v) ∧ (p' = Quiet ∨ p' = SentOpen ∨ p' = SentRules).
Proof.
  intros Hv Hp. pose proof Hv as [Hok E1 E2 E3 E4 E5 E6 E7 Hs]. unfold stage_rules.
  destruct (_ && _) eqn:Eg; [|exists p; tauto].
  apply andb_true_iff in Eg as [Eg Hopen]. apply andb_true_iff in Eg as [Hrules Hno].
  apply bool_decide_eq_true in Hopen. apply negb_true_iff in Hno. apply negb_true_iff, Nat.eqb_neq in Hrules.
  case_bool_decide as Er; cbn [negb].
  2: { exists p. split; [by apply ev_inv_hold|tauto]. }
  destruct Hp as [->| ->].
  2: { destruct Hs as (_ & _ & _ & _ & _ & _ & Hnil & _). by rewrite Hnil in Hrules. }
  destruct Hs as (S1 & S2 & S3 & S4 & S5).
  destruct v as [j dirty os rs cs held]. cbn [vInc vOpens vRuleOpens vRecoveries vHeld] in *. subst os rs cs.
  apply open_hold_free in Er as (Hcov & Hsn & Hd). apply not_damped in Hd.
  exists SentRules. split; [|tauto]. destruct Hok as [H1 H2 H3 H4 H5 H6].
  split; cbn [vInc vOpens vRuleOpens vRecoveries]; try (by destruct j).
  assert (Active j = true) as Hact by (apply Active_state; by left).
  assert (iState i = IncidentStateOpen) as Hi by (rewrite <- E6; done).
  assert (damped_ok i) as Hdi by (unfold damped_ok in *; by rewrite <- E7, <- S5).
  split; [done|]. split; [exists (iOwedOpenRules j), (incidentOpenOutgoing j); split_and!; [done|by intros E0; rewrite E0 in Hrules|by rewrite <- E1]|].
  rewrite <- E4. destruct j; cbn in *. by split_and!.
Qed.
Lemma stage_recovery_inv i p v : ev_inv i p v → p ≠ SentRecovery → ∃ p', ev_inv i p' (stage_recovery now v).
Proof.
  intros Hv Hp. pose proof Hv as [Hok E1 E2 E3 E4 E5 E6 E7 Hs]. unfold stage_recovery.
  destruct (iOwedRecovery (vInc v)) eqn:Eo; cbn [negb]; [|by exists p].
  destruct (incidentFlapDamped (vInc v) now) eqn:Ed; [exists p; by apply ev_inv_hold|].
  assert (Active (vInc v) = false) as Hact.
  { destruct (Active (vInc v)) eqn:E; [|done]. rewrite (io_active _ Hok E) in Eo. done. }
  assert (p = Quiet) as ->.
  { destruct p; [done| | |done]; exfalso.
    - destruct Hs as (_ & _ & _ & _ & _ & _ & _ & Hst & _). apply not_true_iff_false in Hact. apply Hact, Active_state. by left.
    - destruct Hs as (_ & _ & _ & _ & _ & Hst & _). apply not_true_iff_false in Hact. apply Hact, Active_state. by left. }
  destruct Hs as (S1 & S2 & S3 & S4 & S5). apply not_damped in Ed.
  destruct (io_resolved _ Hok Hact) as [Hr _]. rewrite Eo in Hr. symmetry in Hr. apply bool_decide_eq_true in Hr.
  destruct v as [j dirty os rs cs held]. cbn [vInc vOpens vRuleOpens vRecoveries vHeld] in *. subst os rs cs.
  exists SentRecovery. destruct Hok as [H1 H2 H3 H4 H5 H6].
  split; cbn [vInc vOpens vRuleOpens vRecoveries]; try (by destruct j).
  - split; try (by destruct j).
    + intros _. destruct (H4 Hact) as [_ ?]. split; by destruct j.
    + intros Hst. exfalso. assert (iState j = IncidentStateOpen) by (by destruct j).
      apply not_true_iff_false in Hact. apply Hact, Active_state. by left.
  - assert (damped_ok i) as Hdi by (unfold damped_ok in *; by rewrite <- E7, <- S5).
    split; [done|]. split; [done|]. split; [by eexists; split; [done|]; cbn; rewrite <- E1|].
    rewrite <- S4. destruct j; cbn in *. by split_and!.
Qed.

Lemma resolveOwed_spec i :
  iOwedRecovery (resolveOwed i) = (iNotified i =?? IncidentNotifiedOpen) ∧ iOwedOpen (resolveOwed i) = false ∧
  iID (resolveOwed i) = iID i ∧ iKey (resolveOwed i) = iKey i ∧ iKind (resolveOwed i) = iKind i ∧
  iNodeID (resolveOwed i) = iNodeID i ∧ iState (resolveOwed i) = iState i ∧ iNotified (resolveOwed i) = iNotified i ∧
  iNotifiedAt (resolveOwed i) = iNotifiedAt i ∧ iEscalated (resolveOwed i) = iEscalated i ∧ iFlapping (resolveOwed i) = iFlapping i.
Proof.
  unfold resolveOwed. set (j := with_iOwedRecovery _ _). destruct (iOwedRecovery j) eqn:E; unfold j in *; destruct i; cbn in *;
    split_and!; by rewrite ?E.
Qed.
(** A record resolved, whatever its texts. *)
Lemma resolved_ok i j :
  inc_ok i → iID j = iID i → iKey j = iKey i → iKind j = iKind i → iState j = IncidentStateResolved → inc_ok (resolveOwed j).
Proof.
  intros [H1 H2 H3 H4 H5 H6] E1 E2 E3 E4. destruct (resolveOwed_spec j) as (R1 & R2 & R3 & R4 & R5 & _ & R7 & R8 & _).
  assert (Active (resolveOwed j) = false) as Ha by (unfold Active; by rewrite R7, E4).
  split; rewrite ?R3, ?R4, ?R5, ?R7, ?E1, ?E2, ?E3, ?E4; try done.
  - set_solver.
  - congruence.
  - intros _. by rewrite R1, R2, R8.
Qed.
Lemma close_monitor_inv fl i v : inc_ok i → close_monitor fl now i = Some v → ev_inv i Quiet v.
Proof.
  intros Hok. unfold close_monitor. destruct (_ && _); [done|].
  assert (ev_inv i Quiet (mkEv i false [] [] [] [])) as Hq by (split; done).
  destruct (_ && _); [|by intros [= <-]]. destruct (flMonitors fl !! _) as [mon|]; [|done].
  destruct (monitorIncidentClosing i mon) as [msg|]; [|by intros [= <-]].
  set (j := with_iState IncidentStateResolved _). intros Hv. assert (v = mkEv (resolveOwed j) true [] [] [] []) as -> by congruence.
  destruct (resolveOwed_spec j) as (R1 & R2 & R3 & R4 & R5 & R6 & R7 & R8 & R9 & R10 & R11).
  split; cbn [vInc].
  - apply (resolved_ok i); try done; by destruct i.
  - rewrite R3. by destruct i.
  - rewrite R4. by destruct i.
  - rewrite R5. by destruct i.
  - rewrite R6. by destruct i.
  - rewrite R10. by destruct i.
  - intros Ha. exfalso. apply Active_state in Ha. rewrite R7 in Ha. destruct i; cbn in Ha. by destruct Ha.
  - rewrite R11. by destruct i.
  - cbn. rewrite R8, R9. by destruct i.
Qed.

(** The whole evaluation of a candidate. *)
Record ev_post (i : Incident) (p : phase) (v : ev) : Prop := {
  ep_ok : inc_ok (vInc v);
  ep_id : iID (vInc v) = iID i; ep_key : iKey (vInc v) = iKey i; ep_kind : iKind (vInc v) = iKind i;
  ep_node : iNodeID (vInc v) = iNodeID i; ep_escalated : iEscalated (vInc v) = iEscalated i;
  ep_active : Active (vInc v) = true → iState (vInc v) = iState i;
  ep_sent : sent p i v;
}.
Lemma ev_post_inc i p v j :
  inc_same (with_iFlapping (iFlapping (vInc v)) j) (vInc v) → iSnoozedUntil j = iSnoozedUntil (vInc v) →
  iOwedOpenRules j = iOwedOpenRules (vInc v) → ev_inv i p v →
  ev_post i p (mkEv j true (vOpens v) (vRuleOpens v) (vRecoveries v) (vHeld v)).
Proof.
  intros [S1 S2 S3 S4 S5 S6 S7 S8 S9 S10 _] Hsn Hr [Hok E1 E2 E3 E4 E5 E6 _ Hs].
  assert (iID j = iID (vInc v) ∧ iKey j = iKey (vInc v) ∧ iKind j = iKind (vInc v) ∧ iNodeID j = iNodeID (vInc v) ∧
    iState j = iState (vInc v) ∧ iNotified j = iNotified (vInc v) ∧ iNotifiedAt j = iNotifiedAt (vInc v) ∧
    iOwedOpen j = iOwedOpen (vInc v) ∧ iOwedRecovery j = iOwedRecovery (vInc v) ∧ iEscalated j = iEscalated (vInc v))
    as (T1 & T2 & T3 & T4 & T5 & T6 & T7 & T8 & T9 & T10) by (destruct j; done).
  assert (Active j = Active (vInc v)) as Ta by (unfold Active; by rewrite T5).
  split; cbn [vInc]; try congruence.
  - destruct Hok as [H1 H2 H3 H4 H5 H6]. split; rewrite ?T1, ?T2, ?T3, ?T5, ?T6, ?T8, ?T9, ?Ta; done.
  - rewrite Ta, T5. done.
  - destruct p; cbn in *; by rewrite ?T5, ?T6, ?T7, ?T8, ?Hsn, ?Hr, ?Ta.
Qed.
Lemma ev_inv_post i p v : ev_inv i p v → ev_post i p v.
Proof. intros [? ? ? ? ? ? ? ? ?]. by split. Qed.
Lemma ev_post_stamp i p v : ev_post i p v → ev_post i p (stamp_updated now v).
Proof.
  intros Hp. unfold stamp_updated. destruct (vDirty v); [|done]. destruct Hp as [Hok E1 E2 E3 E4 E5 E6 Hs].
  destruct v as [j dirty os rs cs held]. cbn [vInc vOpens vRuleOpens vRecoveries vHeld] in *.
  split; cbn [vInc]; try (by destruct j). eapply inc_same_ok; [|exact Hok]. by destruct j.
Qed.
Lemma stage_settle_post i p v : ev_inv i p v → ev_post i p (stage_settle now v).
Proof.
  intros Hv. unfold stage_settle. destruct (_ && _); [|by apply ev_inv_post].
  unfold set_inc. apply ev_post_inc; [by destruct (vInc v)|by destruct (vInc v)|by destruct (vInc v)|done].
Qed.
Lemma eval_one_post fl i v : inc_ok i → eval_one fl now cover i = Some v → ∃ p, ev_post i p v.
Proof.
  intros Hok. unfold eval_one. destruct (close_monitor fl now i) as [v0|] eqn:Ec; [|done]. cbn [mbind option_bind].
  intros Hv. assert (v = _) as -> by (symmetry; injection Hv as Hv; exact Hv). clear Hv.
  apply (close_monitor_inv fl) in Ec; [|done]. apply stage_snooze_inv in Ec.
  apply stage_open_inv in Ec as (p1 & H1 & Hp1). apply stage_rules_inv in H1 as (p2 & H2 & Hp2); [|done].
  apply stage_recovery_inv in H2 as (p3 & H3); [|by destruct Hp2 as [->|[->| ->]]].
  exists p3. by apply ev_post_stamp, stage_settle_post.
Qed.

(** An unchanged record was told nothing. *)
Definition msgless (v : ev) : Prop := vOpens v = [] ∧ vRuleOpens v = [] ∧ vRecoveries v = [].
Lemma stage_clean (f : ev → ev) :
  (∀ v, vDirty v = true → vDirty (f v) = true) → (∀ v, vDirty (f v) = false → f v = v) →
  ∀ i v, (vDirty v = false → vInc v = i ∧ msgless v) → vDirty (f v) = false → vInc (f v) = i ∧ msgless (f v).
Proof. intros _ Hf i v Hv Hd. pose proof (Hf v Hd) as E. rewrite E in *. auto. Qed.
Lemma hold_dirty et reason title body v : vDirty (hold now et reason title body v) = false → hold now et reason title body v = v.
Proof. unfold hold. by destruct (_ =?? _). Qed.
Lemma eval_one_clean fl i v : eval_one fl now cover i = Some v → vDirty v = false → vInc v = i ∧ msgless v.
Proof.
  unfold eval_one. destruct (close_monitor fl now i) as [v0|] eqn:Ec; [|done]. cbn [mbind option_bind].
  intros Hv. assert (v = _) as -> by (symmetry; injection Hv as Hv; exact Hv). clear Hv.
  assert (vDirty v0 = false → v0 = mkEv i false [] [] [] []) as H0'.
  { unfold close_monitor in Ec. destruct (_ && _); [done|]. destruct (_ && _); [|by injection Ec as <-].
    destruct (flMonitors fl !! _); [|done]. destruct (monitorIncidentClosing i _); by injection Ec as <-. }
  assert (∀ v, vDirty (stage_snooze now v) = false → stage_snooze now v = v) as H1.
  { intros w. unfold stage_snooze. by destruct (_ && _). }
  assert (∀ v, vDirty (stage_open now cover v) = false → stage_open now cover v = v) as H2.
  { intros w. unfold stage_open. destruct (negb _); [done|]. destruct (_ || _); [done|]. destruct (negb _); [apply hold_dirty|done]. }
  assert (∀ v, vDirty (stage_rules now cover v) = false → stage_rules now cover v = v) as H3.
  { intros w. unfold stage_rules. destruct (_ && _); [|done]. destruct (negb _); [apply hold_dirty|done]. }
  assert (∀ v, vDirty (stage_recovery now v) = false → stage_recovery now v = v) as H4.
  { intros w. unfold stage_recovery. destruct (negb _); [done|]. destruct (incidentFlapDamped _ _); [apply hold_dirty|done]. }
  assert (∀ v, vDirty (stage_settle now v) = false → stage_settle now v = v) as H5.
  { intros w. unfold stage_settle. by destruct (_ && _). }
  assert (∀ v, vDirty (stamp_updated now v) = false → stamp_updated now v = v) as H6.
  { intros w. unfold stamp_updated. by destruct (vDirty w). }
  intros Hd. pose proof (H6 _ Hd) as E6. rewrite E6 in *. pose proof (H5 _ Hd) as E5. rewrite E5 in *.
  pose proof (H4 _ Hd) as E4. rewrite E4 in *. pose proof (H3 _ Hd) as E3. rewrite E3 in *.
  pose proof (H2 _ Hd) as E2. rewrite E2 in *. pose proof (H1 _ Hd) as E1. rewrite E1 in *.
  rewrite (H0' Hd). done.
Qed.

(** The incident's node and monitor are there and no closing message is due. *)
Definition watched (fl : fleet) (i : Incident) : Prop := close_monitor fl now i = Some (mkEv i false [] [] [] []).
Lemma stages_keep_opens v : vOpens (stamp_updated now (stage_settle now (stage_recovery now (stage_rules now cover v)))) = vOpens v.
Proof.
  assert (∀ et r t b w, vOpens (hold now et r t b w) = vOpens w) as Hh by (intros; unfold hold; by destruct (_ =?? _)).
  assert (∀ w, vOpens (stamp_updated now w) = vOpens w) as -> by (intros w; unfold stamp_updated; by destruct (vDirty w)).
  assert (∀ w, vOpens (stage_settle now w) = vOpens w) as -> by (intros w; unfold stage_settle; by destruct (_ && _)).
  assert (∀ w, vOpens (stage_recovery now w) = vOpens w) as ->.
  { intros w. unfold stage_recovery. destruct (negb _); [done|]. destruct (incidentFlapDamped _ _); [apply Hh|done]. }
  unfold stage_rules. destruct (_ && _); [|done]. destruct (negb _); [apply Hh|done].
Qed.
Lemma eval_one_sends_open fl i :
  0 <= now → inc_ok i → watched fl i → iState i = IncidentStateOpen → iNotified i ≠ IncidentNotifiedOpen →
  cover (iNodeID i) = None → iSnoozedUntil i <= now → incidentFlapDamped i now = false →
  ∃ v, eval_one fl now cover i = Some v ∧ ev_post i SentOpen v.
Proof.
  intros H0now Hok Hw Hst Hn Hcov Hsn Hd. unfold eval_one. rewrite Hw. cbn [mbind option_bind].
  set (v0 := mkEv i false [] [] [] []). set (v := stamp_updated now _).
  destruct (eval_one_post fl i v Hok) as [p Hp]; [unfold eval_one; by rewrite Hw|].
  exists v. split; [done|]. assert (vOpens v ≠ []) as Hne.
  { unfold v. rewrite stages_keep_opens. unfold stage_open.
    set (j := vInc (stage_snooze now v0)).
    assert (iOwedOpen j = true ∧ iState j = IncidentStateOpen ∧ iNodeID j = iNodeID i ∧ iSnoozedUntil j <= now ∧
      incidentFlapDamped j now = false) as (J1 & J2 & J3 & J4 & J5).
    { unfold j, stage_snooze. cbn [vInc v0]. destruct (_ && _).
      - assert (iState (with_iSnoozedUntil 0 (with_iSnoozedBy "" i)) = iState i) as -> by (by destruct i).
        rewrite Hst, bool_decide_eq_true_2 by done. cbn [set_inc vInc].
        destruct i; cbn in *. by split_and!.
      - destruct (io_open _ Hok Hst) as [|Ho]; [done|]. done. }
    rewrite J1. cbn [negb]. assert (Active j = true) as Ja by (apply Active_state; by left). rewrite Ja, J2.
    rewrite (bool_decide_eq_false_2 (IncidentStateOpen = IncidentStateAcknowledged)) by done. cbn [negb orb].
    unfold incidentOpenHold. rewrite J3, Hcov, J5. unfold after. destruct (Z.ltb_spec now (iSnoozedUntil j)); [lia|].
    rewrite bool_decide_eq_true_2 by done. cbn. intros E. by apply app_eq_nil in E as [_ ?]. }
  destruct p; [|done|..]; exfalso; apply Hne; apply Hp.
Qed.
Lemma eval_one_sends_recovery fl i :
  inc_ok i → watched fl i → Active i = false → iOwedRecovery i = true → incidentFlapDamped i now = false →
  ∃ v, eval_one fl now cover i = Some v ∧ ev_post i SentRecovery v.
Proof.
  intros Hok Hw Ha Ho Hd. unfold eval_one. rewrite Hw. cbn [mbind option_bind].
  set (v0 := mkEv i false [] [] [] []). set (v := stamp_updated now _).
  destruct (eval_one_post fl i v Hok) as [p Hp]; [unfold eval_one; by rewrite Hw|].
  exists v. split; [done|]. assert (vRecoveries v ≠ []) as Hne.
  { assert (∀ w, vRecoveries (stamp_updated now w) = vRecoveries w) as E1 by (intros w; unfold stamp_updated; by destruct (vDirty w)).
    assert (∀ w, vRecoveries (stage_settle now w) = vRecoveries w) as E2 by (intros w; unfold stage_settle; by destruct (_ && _)).
    unfold v. rewrite E1, E2. assert (¬ (iState i = IncidentStateOpen ∨ iState i = IncidentStateAcknowledged)) as Hst.
    { rewrite <- Active_state. congruence. }
    assert (∃ dirty u w, stage_snooze now v0 = mkEv (with_iSnoozedUntil u (with_iSnoozedBy w i)) dirty [] [] [] []) as (dirty & u & w & ->).
    { unfold stage_snooze. cbn [vInc v0]. destruct (_ && _).
      - exists true, 0, "". assert (iState (with_iSnoozedUntil 0 (with_iSnoozedBy "" i)) = iState i) as -> by (by destruct i).
        rewrite !bool_decide_eq_false_2 by tauto. done.
      - exists false, (iSnoozedUntil i), (iSnoozedBy i). unfold v0. by destruct i. }
    set (j := with_iSnoozedUntil u (with_iSnoozedBy w i)). set (v1 := mkEv j dirty [] [] [] []).
    destruct (io_resolved _ Hok Ha) as [_ Hoo].
    assert (stage_open now cover v1 = v1) as ->.
    { unfold stage_open. cbn [vInc v1]. assert (iOwedOpen j = false) as -> by (unfold j; by destruct i). done. }
    assert (stage_rules now cover v1 = v1) as ->.
    { unfold stage_rules. cbn [vInc v1]. assert (iState j = iState i) as -> by (unfold j; by destruct i).
      rewrite (bool_decide_eq_false_2 (iState i = IncidentStateOpen)) by tauto. by rewrite andb_false_r. }
    unfold stage_recovery. cbn [vInc v1]. assert (iOwedRecovery j = true) as -> by (unfold j; by destruct i). cbn [negb].
    assert (incidentFlapDamped j now = false) as -> by (unfold j; by destruct i). cbn. done. }
  destruct p; [..|done]; exfalso; apply Hne; apply Hp.
Qed.
End evaluation.
