(* ===== verification/IncidentStory.v ===== *)
(** * What the phone is told, over any run of the evaluator

    Steps are the operations of IncidentEval.v and the deletions of the
    store, in any order, with any disk behaviour; the log collects what was
    sent about which incident.  The theorems are about every reachable log. *)

From Stdlib Require Import ZArith Lia Ascii.
From stdpp Require Import gmap strings sorting.
From S2P Require Import Prelude GoStr Rbac Groups Nft Incidents IncidentEval.

Local Open Scope Z_scope.

(** Pages sent before incident records existed, taken over once at boot
    ([adoptLegacyAlerts]): each with the id its record gets. *)
Definition adopt_page (now : time) (newID : string) (sig : incidentSignal) : Incident :=
  let key := incidentKey (sgKind sig) (sgNodeID sig) (sgMonitorID sig) in
  mkIncident newID key (sgKind sig) (severity (kind_of (sgKind sig))) (sgNodeID sig) (sgMonitorID sig) (sgSubject sig)
    IncidentStateOpen (mTitle (sgMsg sig)) (mDetail (sgMsg sig)) (mLine (sgMsg sig)) "" "" "" (sgSince sig) now now 0 now
    "" 0 false "" 0 IncidentNotifiedOpen now now false false [] "" 0 0 false ∅ true.
Definition adopted (now : time) (pages : list (string * incidentSignal)) (b : incidentBook) : list Incident :=
  omap (fun '(newID, sig) =>
    match ActiveIncident (incidentKey (sgKind sig) (sgNodeID sig) (sgMonitorID sig)) b with
    | Some _ => None
    | None => Some (adopt_page now newID sig)
    end) pages.
Definition adoptLegacyAlerts (o : order) (d : disk) (now : time) (pages : list (string * incidentSignal)) (s : istore) : istore :=
  let s := incidentBookLocked o d s in
  match adopted now pages (ibook s) with [] => s | l => (PutIncidents o d l s).1 end.

(** ** Messages *)

Inductive msg := MOpen (id : string) | MAdopted (id : string) | MRule (id rule : string) | MRecovery (id : string)
| MEscalate (id rule : string).
Definition about (m : msg) : string :=
  match m with MOpen id | MAdopted id | MRule id _ | MRecovery id | MEscalate id _ => id end.
Definition ev_msgs (v : ev) : list msg :=
  map (fun it => MOpen (ogID it)) (vOpens v) ++ map (fun e => MRule (ogID e.2) e.1) (vRuleOpens v) ++
  map (fun it => MRecovery (ogID it)) (vRecoveries v).
Definition sweep_msgs (r : sweepResult) : list msg :=
  flat_map ev_msgs (srEvs r) ++ flat_map (fun e => map (MEscalate e.1) e.2) (srEscalated r).
(** What the phone was told about an incident: open is [true], over is
    [false]. *)
Definition told_of (id : string) (m : msg) : option bool :=
  match m with
  | MOpen x | MAdopted x => if x =?? id then Some true else None
  | MRecovery x => if x =?? id then Some false else None
  | _ => None
  end.
Definition story (id : string) (log : list (time * msg)) : list bool := omap (told_of id) log.*2.
(** Every "over" answers an "open" told since the last "over". *)
Definition story_ok (l : list bool) : Prop := ∀ a b, l = a ++ false :: b → last a = Some true.

(** ** Steps *)

Record world := mkWorld { wSweep : sweepState; wLog : list (time * msg) }.
Definition wbook (w : world) : incidentBook := ibook (swStore (wSweep w)).
Inductive wop :=
| WOpen (newID : string) (sig : incidentSignal) (outbox : list OutRow) | WResolve (key : string) (m : incidentMessage)
| WAck (p : Principal) (monitors : gmap string Monitor) (id : string)
| WUnack (p : Principal) (monitors : gmap string Monitor) (id : string) (outbox : list OutRow)
| WSnooze (p : Principal) (monitors : gmap string Monitor) (id : string) (minutes : option Z) (outbox : list OutRow) | WSweep (fl : fleet)
| WAdopt (pages : list (string * incidentSignal)) | WDelete (matches : Incident → bool)
| WPutWindow (mw : MaintenanceWindow) | WDeleteWindow (id : string)
| WRestart.
Record wcall := mkWCall { wcOrder : order; wcDisk : disk; wcNow : time; wcOp : wop }.

Lemma map_map_snd (now : time) (ms : list msg) : (map (pair now) ms).*2 = ms.
Proof. induction ms as [|m ms IH]; [done|]. cbn. by f_equal. Qed.

Section world.
Context `{IncidentText} `{Quote}.
Definition with_store (s : istore) (w : world) : world := mkWorld (mkSweep s (swPrunedAt (wSweep w))) (wLog w).
Definition or_same (r : res actError (istore * option IncidentAudit)) (s : istore) : istore := match r with Ok r => r.1 | Err _ => s end.
Definition wstep (w : world) (c : wcall) : world :=
  let o := wcOrder c in let d := wcDisk c in let now := wcNow c in let s := swStore (wSweep w) in
  match wcOp c with
  | WOpen newID sig outbox => with_store (openIncident o d newID sig now outbox s) w
  | WResolve key m => with_store (resolveIncident o d key now m s) w
  | WAck p monitors id => with_store (or_same (handleIncidentAck o d p monitors id now s) s) w
  | WUnack p monitors id outbox => with_store (or_same (handleIncidentUnack o d p monitors id now outbox s) s) w
  | WSnooze p monitors id minutes outbox =>
    with_store (or_same (handleIncidentSnooze o d p monitors id minutes now outbox s) s) w
  | WSweep fl =>
    let r := evaluateIncidents o d fl now (wSweep w) in
    mkWorld (srState r) (wLog w ++ map (pair now) (sweep_msgs r))
  | WAdopt pages =>
    mkWorld (mkSweep (adoptLegacyAlerts o d now pages s) (swPrunedAt (wSweep w)))
      (wLog w ++ map (fun i => (now, MAdopted (iID i))) (adopted now pages (ibook (incidentBookLocked o d s))))
  | WDelete f => with_store (deleteIncidentsLocked o d f s).1 w
  | WPutWindow mw => with_store (PutMaintenanceWindow o d mw now s).1 w
  | WDeleteWindow id => with_store (DeleteMaintenanceWindow o d id s).1 w
  | WRestart => mkWorld (mkSweep (incidentBookLocked o d (empty_store (hot s))) zero_time) (wLog w)
  end.
(** The sidecar is on and holds the incident records memory holds: every
    write of a record refused before was made good by a later one. *)
Definition settled (s : istore) : Prop := hIncidents <$> hot s = Some (incidents (ibook s)).
(** Ids come from a random source: an id handed out is on no record and in
    no message yet. *)
Definition fresh (id : string) (w : world) : Prop :=
  incidents (wbook w) !! id = None ∧ (∀ e, e ∈ wLog w → about e.2 ≠ id).
Definition wcall_ok (w : world) (c : wcall) : Prop :=
  valid_order (wcOrder c) ∧ 0 < wcNow c ∧
  match wcOp c with
  | WOpen newID _ _ => fresh newID w
  | WAdopt pages =>
    NoDup pages.*1 ∧ Forall (fun id => fresh id w) pages.*1 ∧ Forall (fun sig => is_Some (incidentKinds !! sgKind sig)) pages.*2 ∧
    NoDup ((fun sig => incidentKey (sgKind sig) (sgNodeID sig) (sgMonitorID sig)) <$> pages.*2)
  | WRestart => settled (swStore (wSweep w)) ∧ reads (wcDisk c) = true
  | _ => True
  end.
Inductive reachable : world → Prop :=
| reach_boot s prunedAt : store_ok s → loaded s → incidents (ibook s) = ∅ → reachable (mkWorld (mkSweep s prunedAt) [])
| reach_step w c : reachable w → wcall_ok w c → reachable (wstep w c).

(** ** The invariant *)

Definition agrees (log : list (time * msg)) (i : Incident) : Prop :=
  iNotified i = IncidentNotifiedOpen ↔ last (story (iID i) log) = Some true.
Definition noted (log : list (time * msg)) (i : Incident) : Prop :=
  ∀ key, MEscalate (iID i) key ∈ log.*2 → is_zero (default 0 (iEscalated i !! key)) = false.
(** The time of the last message about a record is on it. *)
Definition inc_told (m : msg) : bool := match m with MEscalate _ _ => false | _ => true end.
Definition last_told (log : list (time * msg)) (i : Incident) : Prop :=
  ∀ t m, last (List.filter (fun e => (about e.2 =?? iID i) && inc_told e.2) log) = Some (t, m) → iNotifiedAt i = t.
Record rec_ok (log : list (time * msg)) (i : Incident) : Prop := {
  ro_ok : inc_ok i; ro_agrees : agrees log i; ro_noted : noted log i; ro_last : last_told log i }.
Record world_ok (w : world) : Prop := {
  wo_store : store_ok (swStore (wSweep w)); wo_loaded : loaded (swStore (wSweep w));
  wo_recs : ∀ id i, incidents (wbook w) !! id = Some i → rec_ok (wLog w) i;
  wo_story : ∀ id, story_ok (story id (wLog w));
  wo_once : NoDup (List.filter (fun m => negb (inc_told m)) (wLog w).*2);
}.

Lemma rec_ok_same log i j : inc_same i j → rec_ok log j → rec_ok log i.
Proof.
  intros Hs [H1 H2 H3 H4]. split; [by eapply inc_same_ok|..]; destruct Hs as [E1 E2 E3 E4 E5 E6 E7 E8 E9 E10 E11].
  - unfold agrees in *. by rewrite E1, E6.
  - unfold noted in *. by rewrite E1, E10.
  - unfold last_told in *. by rewrite E1, E7.
Qed.
Lemma clean_rows_nonblank A rows c :
  clean_rows A rows = Ok c → Forall (fun r => (trim_space (iID r) =?? "") = false ∧ (trim_space (iKey r) =?? "") = false) rows.
Proof.
  revert c. induction rows as [|r rows IH]; intros c; [constructor|]. cbn [clean_rows].
  intros [Hid [_ Hc]%guard_Ok]%guard_Ok. apply orb_false_iff in Hid. destruct (clean_rows A rows); [|done].
  constructor; [done|]. by eapply IH.
Qed.
(** The records after a batch. *)
Lemma put_rows o d rows s :
  valid_order o → store_ok s → loaded s → batch_ok rows → NoDup (map iID rows) →
  let s' := (PutIncidents o d rows s).1 in
  store_ok s' ∧ loaded s' ∧
  ((s' = s ∧ ∀ c, clean_rows (bActive (ibook s)) rows = Ok c → rows = []) ∨
   Forall (fun r => (trim_space (iID r) =?? "") = false ∧ (trim_space (iKey r) =?? "") = false) rows ∧
   ∀ id j, incidents (ibook s') !! id = Some j →
     (∃ r, r ∈ rows ∧ iID r = id ∧ j = boundIncidentText r) ∨ (id ∉ map iID rows ∧ incidents (ibook s) !! id = Some j)).
Proof.
  intros Ho Hs Hl Hb Hnd s'. assert (rows = [] ∨ rows ≠ []) as [Er|Er] by (destruct rows; [by left|by right]).
  { unfold s'. rewrite Er. split; [exact Hs|]. split; [exact Hl|]. left. by split. }
  destruct (PutIncidents_cases o d rows s Ho Hs Hl Hb Er) as (H1 & H2 & H3).
  split; [exact H1|]. split; [exact H2|]. fold s' in H3.
  destruct (clean_rows (bActive (ibook s)) rows) as [clean|] eqn:Ec; [right|left; by split].
  split; [by eapply clean_rows_nonblank|].
  apply clean_rows_Ok in Ec as [-> _]. intros id j. rewrite H3, puts_lookup.
  2: { rewrite map_map. erewrite map_ext; [exact Hnd|]. intros r. by destruct (bound_core r) as (-> & _). }
  destruct (List.find _ _) as [x|] eqn:Ef.
  - intros [= <-]. apply List.find_some in Ef as [Hin Hx]. apply bool_decide_eq_true in Hx.
    apply list_elem_of_In, list_elem_of_fmap in Hin as (r & -> & Hr). left. exists r.
    destruct (bound_core r) as (E & _). by rewrite <- E.
  - intros Hj. right. split.
    + intros (r & -> & Hr)%list_elem_of_fmap.
      assert (boundIncidentText r ∈ map boundIncidentText rows) as Hin by (apply list_elem_of_fmap; eauto).
      apply list_elem_of_In in Hin. apply (List.find_none _ _ Ef) in Hin. apply bool_decide_eq_false in Hin. apply Hin.
      by destruct (bound_core r) as (-> & _).
    + eapply lookup_weaken; [exact Hj|]. apply dels_sub.
Qed.
Lemma world_put w o d r :
  valid_order o → world_ok w → rec_ok (wLog w) r → world_ok (with_store (PutIncidents o d [r] (swStore (wSweep w))).1 w).
Proof.
  intros Ho [H1 H2 H3 H4 H5] Hr.
  destruct (put_rows o d [r] _ Ho H1 H2 (IncidentDemo.one_row r)) as (S1 & S2 & S3).
  { cbn. apply NoDup_singleton. }
  split; [done|done| |done|done]. intros id j. unfold wbook. cbn [with_store wSweep swStore wLog].
  destruct S3 as [[-> _]|[_ S3]]; [apply H3|]. intros Hj. apply S3 in Hj as [(r' & ->%list_elem_of_singleton & _ & ->)|[_ Hj]].
  - eapply rec_ok_same; [apply bound_same|done].
  - by eapply H3.
Qed.
Lemma world_sub w s : store_ok s → loaded s → incidents (ibook s) ⊆ incidents (wbook w) → world_ok w → world_ok (with_store s w).
Proof.
  intros Hs Hl Hsub [H1 H2 H3 H4 H5]. split; [done|done| |done|done]. intros id j Hj. apply (H3 id). by eapply lookup_weaken.
Qed.
Lemma world_id w : world_ok w → world_ok (with_store (swStore (wSweep w)) w).
Proof. intros [H1 H2 H3 H4 H5]. by split. Qed.

(** Operations that send nothing. *)
Lemma record_kept w i j :
  rec_ok (wLog w) i → iID j = iID i → iNotified j = iNotified i → iEscalated j = iEscalated i → iNotifiedAt j = iNotifiedAt i →
  inc_ok j → rec_ok (wLog w) j.
Proof.
  intros [_ H2 H3 H4] E1 E2 E3 E4 Hok. split; [done|..].
  - unfold agrees in *. by rewrite E1, E2.
  - unfold noted in *. by rewrite E1, E3.
  - unfold last_told in *. by rewrite E1, E4.
Qed.
Lemma oweOpenTo_fields rs i :
  oweOpenTo rs i = with_iOwedOpenRules (iOwedOpenRules (oweOpenTo rs i)) i.
Proof. unfold oweOpenTo. by destruct i. Qed.
Lemma open_fields sig now outbox i :
  let j := opened_incident sig now outbox i in
  iID j = iID i ∧ iKey j = iKey i ∧ iKind j = iKind i ∧ iState j = IncidentStateOpen ∧ iNotified j = iNotified i ∧
  iNotifiedAt j = iNotifiedAt i ∧ iEscalated j = iEscalated i ∧ iOwedRecovery j = false ∧
  (iNotified i = IncidentNotifiedOpen ∨ iOwedOpen j = true).
Proof.
  cbv zeta. unfold opened_incident. set (k := clearOwedOpen _).
  assert (iNotified k = iNotified i) as -> by (unfold k; by destruct i).
  case_bool_decide as E.
  - rewrite (oweOpenTo_fields (rulesThatMissedOpen _ _)), (oweOpenTo_fields (iOwedOpenRules _)). unfold k. destruct i. cbn. tauto.
  - unfold k. destruct i. cbn. tauto.
Qed.
Lemma opened_ok sig now outbox i :
  is_Some (incidentKinds !! iKind i) → (trim_space (iID i) =?? "") = false → (trim_space (iKey i) =?? "") = false →
  inc_ok (opened_incident sig now outbox i).
Proof.
  intros Hk Hid Hkey. destruct (open_fields sig now outbox i) as (E1 & E2 & E3 & E4 & E5 & _ & _ & E7 & E8).
  assert (Active (opened_incident sig now outbox i) = true) as Ha by (apply Active_state; by left).
  split; rewrite ?E1, ?E2, ?E3, ?E4, ?E5, ?E7, ?Ha; try done. set_solver.
Qed.

(** A row with a blank id or key is refused. *)
Lemma put_blank o d r s :
  loaded s → (trim_space (iID r) =?? "") || (trim_space (iKey r) =?? "") = true → (PutIncidents o d [r] s).1 = s.
Proof. intros Hl Hb. unfold PutIncidents. rewrite load_id by done. cbn [clean_rows]. by rewrite Hb. Qed.
Lemma world_put_any w o d r :
  valid_order o → world_ok w →
  ((trim_space (iID r) =?? "") = false → (trim_space (iKey r) =?? "") = false → rec_ok (wLog w) r) →
  world_ok (with_store (PutIncidents o d [r] (swStore (wSweep w))).1 w).
Proof.
  intros Ho Hw Hr. destruct ((trim_space (iID r) =?? "") || (trim_space (iKey r) =?? "")) eqn:E.
  - rewrite put_blank by (done || apply Hw). by apply world_id.
  - apply orb_false_iff in E as [E1 E2]. apply world_put; auto.
Qed.
Lemma world_open w o d newID sig now outbox :
  valid_order o → world_ok w → fresh newID w → world_ok (with_store (openIncident o d newID sig now outbox (swStore (wSweep w))) w).
Proof.
  intros Ho Hw [Hf1 Hf2]. unfold openIncident. destruct (incidentKinds !! sgKind sig) as [k|] eqn:Ek; [|by apply world_id].
  rewrite load_id by apply Hw. fold (wbook w). destruct (ActiveIncident _ _); [by apply world_id|].
  apply world_put_any; [done|done|]. set (key := incidentKey _ _ _).
  destruct (open_fields sig now outbox (opened_record newID key k sig now (wbook w))) as (E1 & E2 & E3 & _ & E5 & E6 & E7 & _).
  rewrite E1, E2. intros Hid Hkey.
  assert (story newID (wLog w) = []) as Hst.
  { unfold story. revert Hf2. generalize (wLog w). induction l as [|[t m] l IH]; intros Hl; [done|]. cbn.
    assert (told_of newID m = None) as ->.
    { specialize (Hl (t, m)). cbn in Hl. assert (about m ≠ newID) by (apply Hl; set_solver).
      destruct m; cbn in *; by rewrite ?bool_decide_eq_false_2. }
    apply IH. intros e He. apply Hl. set_solver. }
  assert (∀ i, iID i = newID → iNotified i = "" → inc_ok (opened_incident sig now outbox i) → rec_ok (wLog w) (opened_incident sig now outbox i)) as Hnew.
  { intros i Ei En Hok. destruct (open_fields sig now outbox i) as (F1 & _ & _ & _ & F5 & F6 & F7 & _). split; [done|..].
    - unfold agrees. rewrite F1, F5, Ei, En, Hst. by split.
    - intros ky Hin. exfalso. apply list_elem_of_fmap in Hin as ([t m] & Em & Hin). cbn in Em. subst m.
      apply (Hf2 _ Hin). cbn. congruence.
    - intros t m Hlast. exfalso. apply last_Some_elem_of in Hlast. apply list_elem_of_In, filter_In in Hlast as [Hin Hb].
      apply andb_true_iff in Hb as [Hb _]. apply bool_decide_eq_true in Hb. apply list_elem_of_In, Hf2 in Hin. cbn in *. congruence. }
  unfold opened_record in *. destruct (LatestIncident key (wbook w)) as [last|] eqn:El.
  - unfold LatestIncident in El. destruct (bLatest (wbook w) !! key) as [lid|] eqn:Elk; [|done]. cbn in El.
    destruct (wo_store _ Hw) as [Hb _]. destruct (ok_latest _ Hb) as [HL _]. pose proof (HL _ _ Elk) as (i & Hi & _). fold (wbook w) in Hi.
    rewrite Hi in El. cbn in El. assert (i = last) as -> by congruence. pose proof (wo_recs _ Hw _ _ Hi) as Hrec.
    destruct (_ && _) eqn:Eg.
    + set (r := if incidentFlapsToDamp <=? _ then _ else _) in *.
      assert (iID r = iID last ∧ iNotified r = iNotified last ∧ iEscalated r = iEscalated last ∧ iNotifiedAt r = iNotifiedAt last ∧
        iKind r = iKind last ∧ iKey r = iKey last) as (R1 & R2 & R3 & R4 & R5 & R6).
      { unfold r. destruct (incidentFlapsToDamp <=? _); by destruct last. }
      apply (record_kept w last); [done|congruence..|]. apply opened_ok; [rewrite R5; apply Hrec|congruence..].
    + apply Hnew; [done|done|]. apply opened_ok; [cbn; eauto|done|done].
  - apply Hnew; [done|done|]. apply opened_ok; [cbn; eauto|done|done].
Qed.
Lemma active_in_book w key i : world_ok w → ActiveIncident key (wbook w) = Some i → rec_ok (wLog w) i ∧ Active i = true.
Proof.
  intros Hw Ha. destruct (wo_store _ Hw) as [Hb _]. apply (ActiveIncident_exact _ _ _ Hb) in Ha as (Hi & _ & Ha).
  split; [by eapply wo_recs|done].
Qed.
Lemma world_resolve w o d key now m :
  valid_order o → world_ok w → world_ok (with_store (resolveIncident o d key now m (swStore (wSweep w))) w).
Proof.
  intros Ho Hw. unfold resolveIncident. rewrite load_id by apply Hw. fold (wbook w).
  destruct (ActiveIncident key (wbook w)) as [i|] eqn:Ea; [|by apply world_id].
  apply active_in_book in Ea as [Hrec _]; [|done]. apply world_put; [done|done|].
  unfold resolved_incident. set (j := with_iState _ _).
  destruct (resolveOwed_spec j) as (_ & _ & R3 & R4 & R5 & _ & R7 & R8 & R9 & R10 & _).
  apply (record_kept w i); [done|rewrite R3|rewrite R8|rewrite R10|rewrite R9|]; try (by destruct i).
  apply (resolved_ok i); [apply Hrec|..]; by destruct i.
Qed.
Lemma world_act w o d p monitors id f :
  valid_order o → world_ok w →
  (∀ i j a, inc_ok i → Active i = true → f i = Some (j, a) →
     iID j = iID i ∧ iNotified j = iNotified i ∧ iEscalated j = iEscalated i ∧ iNotifiedAt j = iNotifiedAt i ∧ inc_ok j) →
  world_ok (with_store (or_same (act_on o d p monitors id f (swStore (wSweep w))) (swStore (wSweep w))) w).
Proof.
  intros Ho Hw Hf. unfold act_on. rewrite load_id by apply Hw. fold (wbook w).
  destruct (incidentActionTarget _ _ _ _); [by apply world_id|]. unfold get_incident.
  destruct (incidents (wbook w) !! id) as [i|] eqn:Ei; [|by apply world_id].
  destruct (Active i) eqn:Ea; cbn [negb guard_err]; [|by apply world_id].
  destruct (f i) as [[j a]|] eqn:Ef; [|by apply world_id]. cbn [or_same fst]. pose proof (wo_recs _ Hw _ _ Ei) as Hrec.
  destruct (Hf i j a) as (E1 & E2 & E3 & E4 & E5); [apply Hrec|done|done|]. apply world_put; [done|done|]. by eapply record_kept.
Qed.
Lemma acked_ok who now i j : inc_ok i → Active i = true → acked who now i = Some j →
  iID j = iID i ∧ iNotified j = iNotified i ∧ iEscalated j = iEscalated i ∧ iNotifiedAt j = iNotifiedAt i ∧ inc_ok j.
Proof.
  intros [H1 H2 H3 H4 H5 H6] Ha. unfold acked. destruct (iState i =?? IncidentStateAcknowledged); [done|]. intros Hj.
  assert (j = _) as -> by (symmetry; injection Hj as Hj; exact Hj).
  split_and!; try (by destruct i). split; try (by destruct i).
  - destruct i; cbn. set_solver.
  - intros _. rewrite <- (H3 Ha). by destruct i.
Qed.
Lemma unacked_ok now outbox i j : inc_ok i → Active i = true → unacked now outbox i = Some j →
  iID j = iID i ∧ iNotified j = iNotified i ∧ iEscalated j = iEscalated i ∧ iNotifiedAt j = iNotifiedAt i ∧ inc_ok j.
Proof.
  intros [H1 H2 H3 H4 H5 H6] Ha. unfold unacked. destruct (iState i =?? IncidentStateAcknowledged); [|done]. cbn [negb].
  set (a := with_iOwedOpen _ _). set (b := if iOwedOpen a then _ else _). intros Hj.
  assert (j = _) as -> by (symmetry; injection Hj as Hj; exact Hj). clear Hj.
  assert (∃ rs, b = with_iOwedOpenRules rs a) as [rs ->].
  { unfold b. destruct (iOwedOpen a); [eauto|]. rewrite oweOpenTo_fields. eauto. }
  split_and!; try (unfold a; by destruct i). split; try (unfold a; by destruct i).
  - unfold a. destruct i; cbn. set_solver.
  - intros _. rewrite <- (H3 Ha). unfold a. by destruct i.
  - intros _. assert (iNotified (with_iAckCancelledOpen false (with_iAckedBy "" (with_iAckedAt 0 (with_iUpdatedAt now
      (with_iOwedOpenRules rs a))))) = iNotified i) as -> by (unfold a; by destruct i).
    destruct (decide (iNotified i = IncidentNotifiedOpen)) as [|Hn]; [by left|right].
    unfold a. destruct i; cbn in *. rewrite (bool_decide_eq_false_2 _ Hn). cbn. apply orb_true_r.
Qed.
Lemma snoozed_ok who m now outbox i : inc_ok i →
  let j := snoozed who m now outbox i in
  iID j = iID i ∧ iNotified j = iNotified i ∧ iEscalated j = iEscalated i ∧ iNotifiedAt j = iNotifiedAt i ∧ inc_ok j.
Proof.
  intros Hok j. assert (∃ rs u w, j = with_iUpdatedAt now (with_iSnoozedUntil u (with_iSnoozedBy w (with_iOwedOpenRules rs i)))) as (rs & u & wh & ->).
  { unfold j, snoozed. destruct (m =? 0).
    - destruct (_ && _); [rewrite oweOpenTo_fields; eauto 10|]. exists (iOwedOpenRules i). destruct i. cbn. eauto.
    - exists (iOwedOpenRules i). destruct i. cbn. eauto. }
  split_and!; try (by destruct i). eapply inc_same_ok; [|exact Hok]. by destruct i.
Qed.

(** Writes that put no incident. *)
Lemma world_write w o d wr :
  valid_order o → world_ok w → putIncidents wr = [] →
  world_ok (with_store (match commitIncidentsLocked d wr (swStore (wSweep w)) with
    Ok s' => (apply_store o wr s', @None incError) | Err e => (swStore (wSweep w), Some e) end).1 w).
Proof.
  intros Ho Hw Hp. destruct (wo_store _ Hw) as [Hb Hh]. pose proof (wo_loaded _ Hw) as Hl.
  assert (conflict_free (incidents (wbook w)) (putIncidents wr)) as Hcf by (rewrite Hp; intros r Hr; by apply elem_of_nil in Hr).
  assert (Forall (fun r => iID r ≠ "") (putIncidents wr)) as Hne by (rewrite Hp; constructor).
  pose proof (write_ok o d wr _ Ho (wo_store _ Hw) Hne Hcf Hl) as Hok.
  destruct (commitIncidentsLocked d wr _) as [s'|] eqn:E; [|by apply world_id].
  apply commit_book in E as (E1 & E2 & E3). apply world_sub; [done| |  |done].
  - unfold loaded in *. cbn. rewrite E2. tauto.
  - cbn [fst apply_store ibook]. rewrite E1. destruct (applyLocked_ok o Ho (wbook w) wr Hb Hne Hcf) as (_ & Hi & _).
    unfold wbook in *. rewrite Hi, Hp. apply dels_sub.
Qed.
Lemma world_delete w o d f : valid_order o → world_ok w → world_ok (with_store (deleteIncidentsLocked o d f (swStore (wSweep w))).1 w).
Proof.
  intros Ho Hw. unfold deleteIncidentsLocked, delete_ids. rewrite load_id by apply Hw. by apply world_write.
Qed.
Lemma world_window w o d mw now : valid_order o → world_ok w → world_ok (with_store (PutMaintenanceWindow o d mw now (swStore (wSweep w))).1 w).
Proof.
  intros Ho Hw. unfold PutMaintenanceWindow. case_bool_decide; [by apply world_id|]. rewrite load_id by apply Hw.
  destruct (_ && _); [by apply world_id|]. by apply world_write.
Qed.
Lemma world_delete_window w o d id : valid_order o → world_ok w → world_ok (with_store (DeleteMaintenanceWindow o d id (swStore (wSweep w))).1 w).
Proof.
  intros Ho Hw. unfold DeleteMaintenanceWindow. rewrite load_id by apply Hw. destruct (windows _ !! id); [|by apply world_id].
  by apply world_write.
Qed.
(** A restart that reads back the records memory held changes nothing the
    invariant speaks of. *)
Lemma world_restart w o d : valid_order o → world_ok w → settled (swStore (wSweep w)) → reads d = true →
  world_ok (mkWorld (mkSweep (incidentBookLocked o d (empty_store (hot (swStore (wSweep w))))) zero_time) (wLog w)).
Proof.
  intros Ho [[Hb _] _ Hr Hst Hon] Hd Hrd. unfold settled in Hd. destruct (hot (swStore (wSweep w))) as [h|] eqn:Eh; [|done].
  cbn in Hd. injection Hd as Hd.
  assert (sound (empty_store (Some h))) as [Hs Hm].
  { apply empty_sound. rewrite Hd. split; [apply (ok_ids _ Hb)|by apply book_unique]. }
  destruct (load_ok o d _ Ho Hs) as (_ & Hs' & _). destruct (load_mirrored o d _ Ho Hrd Hs Hm) as (_ & Hl & Hi & _).
  split; cbn [wSweep swStore wLog]; [done|by right| |done|done].
  intros id i. unfold wbook. cbn [wSweep swStore]. rewrite Hi, Hd. apply Hr.
Qed.

(** Logs that grow. *)
Lemma story_app id l k : story id (l ++ k) = story id l ++ story id k.
Proof. unfold story. by rewrite fmap_app, omap_app. Qed.
Lemma story_ok_true l : story_ok l → story_ok (l ++ [true]).
Proof.
  intros Hl a b E. destruct b as [|x b _] using rev_ind.
  - apply app_inj_tail in E as [_ ?]. done.
  - rewrite app_comm_cons, app_assoc in E. apply app_inj_tail in E as [E _]. by eapply Hl.
Qed.
Lemma story_ok_false l : story_ok l → last l = Some true → story_ok (l ++ [false]).
Proof.
  intros Hl Hlast a b E. destruct b as [|x b _] using rev_ind.
  - apply app_inj_tail in E as [-> _]. done.
  - rewrite app_comm_cons, app_assoc in E. apply app_inj_tail in E as [E _]. by eapply Hl.
Qed.
Lemma story_none id (log : list (time * msg)) : (∀ e, e ∈ log → about e.2 ≠ id) → story id log = [].
Proof.
  unfold story. induction log as [|[t m] l IH]; intros Hl; [done|]. cbn.
  assert (told_of id m = None) as ->.
  { specialize (Hl (t, m)). cbn in Hl. assert (about m ≠ id) by (apply Hl; set_solver). destruct m; cbn in *; by rewrite ?bool_decide_eq_false_2. }
  apply IH. intros e He. apply Hl. set_solver.
Qed.
(** A log that says nothing new about a record. *)
Lemma rec_ok_quiet log new i : (∀ e, e ∈ new → about e.2 ≠ iID i) → rec_ok log i → rec_ok (log ++ new) i.
Proof.
  intros Hn [H1 H2 H3 H4]. split; [done|..].
  - unfold agrees in *. by rewrite story_app, (story_none _ new), app_nil_r.
  - intros key. rewrite fmap_app, elem_of_app. intros [Hin|Hin]; [by apply H3|]. exfalso.
    apply list_elem_of_fmap in Hin as ([t m] & Em & Hin). cbn in Em. apply (Hn _ Hin). cbn. by rewrite <- Em.
  - intros t m. rewrite List.filter_app.
    assert (List.filter (fun e : time * msg => (about e.2 =?? iID i) && inc_told e.2) new = []) as ->.
    { apply filter_none. intros e He. rewrite bool_decide_eq_false_2; [done|]. by apply Hn. }
    rewrite app_nil_r. apply H4.
Qed.

(** Adopting pages. *)
Lemma adopted_elem now pages b r : r ∈ adopted now pages b →
  ∃ newID sig, (newID, sig) ∈ pages ∧ r = adopt_page now newID sig.
Proof.
  unfold adopted. intros ([newID sig] & Hin & Hr)%list_elem_of_omap. exists newID, sig. split; [done|].
  destruct (ActiveIncident _ b); congruence.
Qed.
Lemma adopted_NoDup {B} `{EqDecision B} (f : Incident → B) (g : string * incidentSignal → B) now pages b :
  (∀ e, f (adopt_page now e.1 e.2) = g e) → NoDup (g <$> pages) → NoDup (map f (adopted now pages b)).
Proof.
  intros Hfg. induction pages as [|[newID sig] pages IH]; [constructor|]. cbn [fmap list_fmap]. intros [Hn Hnd]%NoDup_cons.
  unfold adopted. cbn. fold (adopted now pages b). destruct (ActiveIncident _ b); [by apply IH|].
  cbn [map]. apply NoDup_cons. split; [|by apply IH]. pose proof (Hfg (newID, sig)) as E1. cbn [fst snd] in E1. rewrite E1. intros (r & Er & Hr)%list_elem_of_fmap.
  apply adopted_elem in Hr as (id' & sig' & Hin & ->). pose proof (Hfg (id', sig')) as E2. cbn [fst snd] in E2.
  apply Hn. rewrite Er, E2. by apply list_elem_of_fmap_2.
Qed.
Lemma adopt_put o d now pages s : loaded s →
  adoptLegacyAlerts o d now pages s = (PutIncidents o d (adopted now pages (ibook s)) s).1.
Proof. intros Hl. unfold adoptLegacyAlerts. rewrite load_id by done. by destruct (adopted _ _ _). Qed.
Lemma world_adopt w o d now pages :
  valid_order o → world_ok w → wcall_ok w (mkWCall o d now (WAdopt pages)) →
  world_ok (wstep w (mkWCall o d now (WAdopt pages))).
Proof.
  intros Ho Hw (_ & _ & Hnd & Hfresh & Hkinds & Hkeys). cbn [wcOp wcNow] in *.
  unfold wstep. cbn [wcOp wcNow wcOrder wcDisk]. rewrite adopt_put, load_id by apply Hw. fold (wbook w).
  set (rows := adopted now pages (wbook w)).
  assert (NoDup (map iID rows)) as Hids by (apply (adopted_NoDup iID fst); [done|exact Hnd]).
  assert (NoDup (map iKey rows)) as Hks.
  { apply (adopted_NoDup iKey (fun e => incidentKey (sgKind e.2) (sgNodeID e.2) (sgMonitorID e.2))); [done|].
    by rewrite <- list_fmap_compose in Hkeys. }
  assert (batch_ok rows) as Hbatch.
  { intros r r' Hr Hr' _ _ Hk. assert (r = r') as ->; [|done]. apply list_elem_of_lookup in Hr as [a Ha].
    apply list_elem_of_lookup in Hr' as [c Hc]. assert (a = c) as ->; [|congruence].
    eapply NoDup_lookup; [exact Hks| |]; rewrite list_lookup_fmap; [by rewrite Ha|]. rewrite Hc. cbn. by rewrite Hk. }
  assert (∀ r, r ∈ rows → fresh (iID r) w ∧ is_Some (incidentKinds !! iKind r)) as Hrows.
  { intros r (newID & sig & Hin & ->)%adopted_elem. rewrite Forall_forall in Hfresh. rewrite Forall_forall in Hkinds. cbn. split.
    - apply Hfresh. apply list_elem_of_fmap. by exists (newID, sig).
    - apply Hkinds. apply list_elem_of_fmap. by exists (newID, sig). }
  set (new := map (fun i => (now, MAdopted (iID i))) rows).
  assert (∀ e, e ∈ new → ∃ r, r ∈ rows ∧ e = (now, MAdopted (iID r))) as Hnew.
  { intros e (r & -> & Hr)%list_elem_of_fmap. eauto. }
  assert (∀ id i, incidents (wbook w) !! id = Some i → rec_ok (wLog w ++ new) i) as Hold.
  { intros id i Hi. apply rec_ok_quiet; [|by eapply wo_recs]. intros e (r & Hr & ->)%Hnew. cbn. intros E.
    apply Hrows in Hr as [[Hf _] _]. destruct (wo_store _ Hw) as [Hb _]. destruct (ok_ids _ Hb _ _ Hi) as [Hid _]. rewrite E, Hid in Hf.
    unfold wbook in *. congruence. }
  assert (∀ r, r ∈ rows → story (iID r) new = [true] ∧
    List.filter (fun e => (about e.2 =?? iID r) && inc_told e.2) new = [(now, MAdopted (iID r))]) as Hstory.
  { unfold new. clear -Hids. induction rows as [|x rows IH]; intros r Hr; [by apply elem_of_nil in Hr|].
    cbn [map] in Hids. apply NoDup_cons in Hids as [Hx Hids].
    assert (∀ l, iID r ∉ map iID l → story (iID r) (map (fun i => (now, MAdopted (iID i))) l) = [] ∧
      List.filter (fun e => (about e.2 =?? iID r) && inc_told e.2) (map (fun i => (now, MAdopted (iID i))) l) = []) as Hnone.
    { clear. induction l as [|y l IH]; [done|]. cbn [map]. intros Hn. apply not_elem_of_cons in Hn as [Hy Hn].
      destruct (IH Hn) as [I1 I2]. unfold story in *. cbn. rewrite !bool_decide_eq_false_2 by congruence. done. }
    apply elem_of_cons in Hr as [->|Hr].
    - destruct (Hnone rows Hx) as [N1 N2]. unfold story in *. cbn. rewrite !bool_decide_eq_true_2 by done. cbn. by rewrite N1, N2.
    - assert (iID x ≠ iID r) by (intros E; apply Hx; rewrite E; apply list_elem_of_fmap; eauto).
      destruct (IH Hids r Hr) as [I1 I2]. unfold story in *. cbn. rewrite !bool_decide_eq_false_2 by done. done. }
  assert (∀ r, r ∈ rows → (∀ e, e ∈ wLog w → about e.2 ≠ iID r)) as Hlogfresh.
  { intros r Hr. apply Hrows in Hr as [[_ Hf] _]. done. }
  destruct (put_rows o d rows _ Ho (wo_store _ Hw) (wo_loaded _ Hw) Hbatch Hids) as (S1 & S2 & S3).
  split; cbn [wSweep swStore wLog]; [done|done| | |].
  - intros id j. unfold wbook. cbn [wSweep swStore]. destruct S3 as [[-> _]|[Hnb S3]]; [apply Hold|].
    intros Hj. apply S3 in Hj as [(r & Hr & _ & ->)|[_ Hj]]; [|by eapply Hold].
    eapply rec_ok_same; [apply bound_same|]. destruct (Hstory r Hr) as [T1 T2]. destruct (Hrows r Hr) as [_ Hk].
    pose proof (Hlogfresh r Hr) as Hlf. rewrite Forall_forall in Hnb. pose proof (Hnb r Hr) as Hnbr.
    apply adopted_elem in Hr as (newID & sig & _ & ->). split.
    + split; try done; [cbn; set_solver|by left].
    + unfold agrees. rewrite story_app, T1, (story_none _ (wLog w)) by done. done.
    + intros key Hin. exfalso. rewrite fmap_app, elem_of_app in Hin. destruct Hin as [Hin|Hin].
      * apply list_elem_of_fmap in Hin as ([t m] & Em & Hin). cbn in Em. apply (Hlf _ Hin). cbn. by rewrite <- Em.
      * apply list_elem_of_fmap in Hin as (e & Em & Hin). apply Hnew in Hin as (r & _ & ->). done.
    + intros t m. rewrite List.filter_app, T2, last_snoc. intros [= <- _]. done.
  - intros id. rewrite story_app. destruct (decide (id ∈ map iID rows)) as [Hin|Hin].
    + apply list_elem_of_fmap in Hin as (r & -> & Hr). destruct (Hstory r Hr) as [-> _]. apply story_ok_true, Hw.
    + rewrite (story_none _ new), app_nil_r; [apply Hw|]. intros e (r & Hr & ->)%Hnew. cbn. intros <-. apply Hin.
      apply list_elem_of_fmap. eauto.
  - rewrite fmap_app, List.filter_app. assert (List.filter (fun m => negb (inc_told m)) new.*2 = []) as ->.
    { apply filter_none. intros m ([t m'] & -> & Hin)%list_elem_of_fmap. apply Hnew in Hin as (r & _ & [= -> ->]). done. }
    rewrite app_nil_r. apply Hw.
Qed.

(** *** The escalations of one record *)
Lemma escalate_one_spec fl now i :
  0 < now →
  let r := escalate_one fl now i in
  (∃ m, r.1 = with_iEscalated m i) ∧ (r.2 = [] → r.1 = i) ∧ NoDup (map esKey r.2) ∧
  (∀ k, is_zero (default 0 (iEscalated i !! k)) = false → is_zero (default 0 (iEscalated r.1 !! k)) = false) ∧
  (∀ k, k ∈ map esKey r.2 → is_zero (default 0 (iEscalated i !! k)) = true ∧ is_zero (default 0 (iEscalated r.1 !! k)) = false).
Proof.
  intros Hnow. cbv zeta. unfold escalate_one. generalize (escalationsFor (iKind i) fl) as es. intros es.
  induction es as [|esc es IH] using rev_ind.
  { cbn. split; [exists (iEscalated i); by destruct i|]. split_and!; [done|constructor|done|]. intros k Hk. by apply elem_of_nil in Hk. }
  rewrite foldl_app. cbn [foldl]. destruct (foldl _ _ es) as [j due]. cbn [fst snd] in IH.
  destruct IH as ([m ->] & I2 & I3 & I4 & I5).
  destruct (escalation_due _ now esc) eqn:Ed; cbn [negb fst snd]; [|by split_and!; [eexists|..]].
  unfold escalation_due in Ed. apply andb_true_iff in Ed as [Ez _].
  assert (iEscalated (with_iEscalated m i) = m) as Em by (by destruct i). rewrite Em in *.
  split; [eexists; by destruct i|]. split; [by intros E; apply app_eq_nil in E as [_ ?]|].
  assert (∀ m', iEscalated (with_iEscalated m' (with_iEscalated m i)) = m') as Em' by (by destruct i). rewrite Em'.
  assert (is_zero (default 0 (Some now)) = false) as Hz by (unfold is_zero; cbn; apply Z.eqb_neq; lia).
  split_and!.
  - rewrite map_app. cbn [map]. apply NoDup_app. split; [done|]. split; [|apply NoDup_singleton].
    intros k Hk ->%list_elem_of_singleton. apply I5 in Hk as [_ Hk]. congruence.
  - intros k Hk. destruct (decide (k = esKey esc)) as [->|Hne]; [by rewrite lookup_insert_eq|]. rewrite lookup_insert_ne by done. auto.
  - intros k. rewrite map_app. cbn [map]. rewrite elem_of_app, list_elem_of_singleton. intros [Hk| ->].
    + pose proof (I5 k Hk) as [Z1 Z2]. split; [done|]. destruct (decide (k = esKey esc)) as [->|Hne]; [by rewrite lookup_insert_eq|].
      by rewrite lookup_insert_ne.
    + split; [|by rewrite lookup_insert_eq]. destruct (is_zero (default 0 (iEscalated i !! esKey esc))) eqn:E; [done|].
      apply I4 in E. congruence.
Qed.

(** *** The rows a sweep writes *)
Section rows.
Context (fl : fleet) (now : time) (cover : maintenanceCover) (evs : list ev).
Hypotheses (Hnow : 0 < now) (Hids : NoDup (map (fun v => iID (vInc v)) evs)).
Definition final (v : ev) : Incident :=
  if escalates now cover (vInc v) then (escalate_one fl now (vInc v)).1 else vInc v.
Definition due_keys (v : ev) : list string :=
  if escalates now cover (vInc v) then map esKey (escalate_one fl now (vInc v)).2 else [].
Definition sweep_rows : list Incident :=
  changed_rows now (map vInc (List.filter vDirty evs))
    (escalateIncidents fl now (List.filter (escalates now cover) (map vInc evs))).2.

Lemma final_spec v :
  (∃ m, final v = with_iEscalated m (vInc v)) ∧ (due_keys v = [] → final v = vInc v) ∧ NoDup (due_keys v) ∧
  (∀ k, is_zero (default 0 (iEscalated (vInc v) !! k)) = false → is_zero (default 0 (iEscalated (final v) !! k)) = false) ∧
  (∀ k, k ∈ due_keys v → is_zero (default 0 (iEscalated (vInc v) !! k)) = true ∧ is_zero (default 0 (iEscalated (final v) !! k)) = false).
Proof.
  unfold final, due_keys. destruct (escalates now cover (vInc v)).
  - destruct (escalate_one_spec fl now (vInc v) Hnow) as (H1 & H2 & H3 & H4 & H5). split_and!; [done| |done..].
    intros E. apply H2. by apply map_eq_nil in E.
  - split; [exists (iEscalated (vInc v)); by destruct (vInc v)|]. split_and!; [done|constructor|done|].
    intros k Hk. by apply elem_of_nil in Hk.
Qed.
Lemma final_id v : iID (final v) = iID (vInc v).
Proof. destruct (final_spec v) as [[m ->] _]. by destruct (vInc v). Qed.
Lemma same_ev v v' : v ∈ evs → v' ∈ evs → iID (vInc v) = iID (vInc v') → v = v'.
Proof.
  intros [a Ha]%list_elem_of_lookup [b Hb]%list_elem_of_lookup E. assert (a = b) as ->; [|congruence].
  eapply NoDup_lookup; [exact Hids| |]; rewrite list_lookup_fmap; [by rewrite Ha|]. rewrite Hb. cbn. by rewrite E.
Qed.
Lemma touched_elem t :
  t ∈ (escalateIncidents fl now (List.filter (escalates now cover) (map vInc evs))).2 ↔
  ∃ v, v ∈ evs ∧ due_keys v ≠ [] ∧ t = final v.
Proof.
  unfold escalateIncidents. cbn [snd]. rewrite merge_sort_Permutation, list_elem_of_fmap. split.
  - intros ([j due] & -> & Hin). apply list_elem_of_In, filter_In in Hin as [Hin Hd].
    apply list_elem_of_In, list_elem_of_fmap in Hin as (i & E & Hi).
    apply list_elem_of_In, filter_In in Hi as [Hi He]. apply list_elem_of_In, list_elem_of_fmap in Hi as (v & -> & Hv).
    exists v. unfold due_keys, final. rewrite He, <- E. cbn [fst snd] in *. split_and!; [done| |done]. by destruct due.
  - intros (v & Hv & Hd & ->). unfold due_keys, final in *. destruct (escalates now cover (vInc v)) eqn:He; [|done].
    exists (escalate_one fl now (vInc v)). split; [done|]. apply list_elem_of_In, filter_In. split.
    + apply in_map, filter_In. split; [|done]. apply in_map. by apply list_elem_of_In.
    + by destruct (escalate_one fl now (vInc v)).2.
Qed.
Lemma touched_NoDup :
  NoDup (map iID (escalateIncidents fl now (List.filter (escalates now cover) (map vInc evs))).2).
Proof.
  unfold escalateIncidents. cbn [snd]. rewrite merge_sort_Permutation. clear -Hids Hnow. induction evs as [|v l IH]; [constructor|].
  cbn [map] in Hids. apply NoDup_cons in Hids as [Hv Hl]. specialize (IH Hl). cbn [map List.filter].
  destruct (escalates now cover (vInc v)); [|done]. cbn [map List.filter]. destruct (negb _); [|done].
  cbn [map]. apply NoDup_cons. split; [|done]. destruct (escalate_one_spec fl now (vInc v) Hnow) as ([m ->] & _).
  intros (t & Et & Ht)%list_elem_of_fmap. apply list_elem_of_fmap in Ht as (e & -> & Ht).
  apply list_elem_of_In, filter_In in Ht as [Ht _]. apply list_elem_of_In, list_elem_of_fmap in Ht as (i & -> & Hi).
  destruct (escalate_one_spec fl now i Hnow) as ([m' E] & _). rewrite E in Et.
  apply list_elem_of_In, filter_In in Hi as [Hi _]. apply Hv.
  apply list_elem_of_In, list_elem_of_fmap in Hi as (v' & -> & Hi). apply list_elem_of_fmap. exists v'. split; [|done].
  destruct (vInc v), (vInc v'). done.
Qed.
Lemma row_is_final r : r ∈ sweep_rows → ∃ v, v ∈ evs ∧ inc_same r (final v).
Proof.
  unfold sweep_rows, changed_rows. rewrite elem_of_app. intros [Hr|Hr].
  - apply list_elem_of_fmap in Hr as (i & -> & Hi). apply list_elem_of_fmap in Hi as (v & -> & Hv).
    apply list_elem_of_In, filter_In in Hv as [Hv _]. apply list_elem_of_In in Hv. exists v. split; [done|].
    destruct (List.find _ _) as [t|] eqn:Ef.
    + apply List.find_some in Ef as [Ht Eid]. apply bool_decide_eq_true in Eid.
      apply list_elem_of_In, touched_elem in Ht as (v' & Hv' & _ & ->). rewrite final_id in Eid.
      assert (v' = v) as -> by (by apply same_ev). destruct (final_spec v) as [[m ->] _]. by destruct (vInc v).
    + assert (due_keys v = []) as Hd.
      { destruct (decide (due_keys v = [])) as [|Hne]; [done|]. exfalso.
        assert (final v ∈ (escalateIncidents fl now (List.filter (escalates now cover) (map vInc evs))).2) as Hin
          by (apply touched_elem; eauto).
        apply list_elem_of_In, (List.find_none _ _ Ef), bool_decide_eq_false in Hin. by rewrite final_id in Hin. }
      destruct (final_spec v) as (_ & -> & _); [apply inc_same_refl|done].
  - apply list_elem_of_fmap in Hr as (t & -> & Ht). apply list_elem_of_In, filter_In in Ht as [Ht _].
    apply list_elem_of_In, touched_elem in Ht as (v & Hv & _ & ->). exists v. split; [done|]. by destruct (final v).
Qed.
Lemma dirty_row_id (i : Incident) (touched : list Incident) :
  iID (match List.find (fun t => iID t =?? iID i) touched with Some t => with_iEscalated (iEscalated t) i | None => i end) = iID i.
Proof. destruct (List.find _ _); by destruct i. Qed.
Lemma filter_map_NoDup {A} (f : A → string) (P : A → bool) l : NoDup (map f l) → NoDup (map f (List.filter P l)).
Proof.
  induction l as [|x l IH]; [done|]. cbn [map List.filter]. intros [Hx Hl]%NoDup_cons. destruct (P x); [|by apply IH].
  cbn [map]. apply NoDup_cons. split; [|by apply IH]. intros (y & E & Hy)%list_elem_of_fmap. apply Hx.
  apply list_elem_of_In, filter_In in Hy as [Hy _]. apply list_elem_of_fmap. exists y. split; [done|]. by apply list_elem_of_In.
Qed.
Lemma sweep_rows_NoDup : NoDup (map iID sweep_rows).
Proof.
  unfold sweep_rows, changed_rows. set (touched := (escalateIncidents _ _ _).2). rewrite map_app, !map_map. apply NoDup_app. split_and!.
  - erewrite map_ext; [|intros v; apply dirty_row_id]. by apply (filter_map_NoDup (fun v => iID (vInc v))).
  - intros id Hin Hin'. apply list_elem_of_fmap in Hin as (v & -> & Hv). rewrite dirty_row_id in Hin'.
    apply list_elem_of_fmap in Hin' as (t & E & Ht). apply list_elem_of_In, filter_In in Ht as [_ Ht].
    apply negb_true_iff, not_true_iff_false in Ht. apply Ht, existsb_exists. exists (vInc v). split; [by apply in_map, list_elem_of_In|].
    apply bool_decide_eq_true. rewrite E. by destruct t.
  - erewrite map_ext; [|intros t; instantiate (1 := iID); by destruct t]. apply filter_map_NoDup, touched_NoDup.
Qed.
Lemma not_written v : v ∈ evs → iID (vInc v) ∉ map iID sweep_rows → vDirty v = false ∧ due_keys v = [].
Proof.
  intros Hv Hn. unfold sweep_rows, changed_rows in Hn. set (touched := (escalateIncidents _ _ _).2) in *.
  rewrite map_app, elem_of_app in Hn. assert (vDirty v = false) as Hd.
  { destruct (vDirty v) eqn:Ed; [|done]. exfalso. apply Hn. left. apply list_elem_of_In. rewrite !map_map. apply in_map_iff.
    exists v. split; [apply dirty_row_id|]. apply filter_In. split; [by apply list_elem_of_In|done]. }
  split; [done|]. destruct (decide (due_keys v = [])) as [|Hne]; [done|]. exfalso. apply Hn. right.
  apply list_elem_of_In. rewrite map_map. apply in_map_iff. exists (final v). split; [rewrite <- final_id; by destruct (final v)|].
  apply filter_In. split; [apply list_elem_of_In, touched_elem; eauto|]. apply negb_true_iff, not_true_iff_false.
  intros (i & Hi & E)%existsb_exists. apply bool_decide_eq_true in E. rewrite final_id in E.
  apply list_elem_of_In, list_elem_of_fmap in Hi as (v' & -> & Hi). apply list_elem_of_In, filter_In in Hi as [Hi Hd'].
  apply list_elem_of_In in Hi. assert (v' = v) as -> by (by apply same_ev). congruence.
Qed.

(** What is sent, by record. *)
Definition new_msgs : list msg :=
  flat_map ev_msgs evs ++ flat_map (fun v => map (MEscalate (iID (vInc v))) (due_keys v)) evs.
Lemma escalated_msgs :
  flat_map (fun e => map (MEscalate e.1) e.2)
    (map (fun e => (iID e.1, map esKey e.2)) (map (escalate_one fl now) (List.filter (escalates now cover) (map vInc evs)))) =
  flat_map (fun v => map (MEscalate (iID (vInc v))) (due_keys v)) evs.
Proof.
  clear Hids. induction evs as [|v l IH]; [done|]. cbn [map List.filter flat_map]. unfold due_keys at 1.
  destruct (escalates now cover (vInc v)); [|done]. cbn [map flat_map fst snd]. rewrite IH. f_equal.
  destruct (escalate_one_spec fl now (vInc v) Hnow) as ([m ->] & _). by destruct (vInc v).
Qed.
End rows.

Definition said (id : string) (ms : list msg) : list msg := List.filter (fun m => about m =?? id) ms.
Lemma said_none {A} (k : A → string) (g : A → list msg) l id :
  (∀ x m, x ∈ l → m ∈ g x → about m = k x) → id ∉ map k l → said id (flat_map g l) = [].
Proof.
  intros Hg Hn. apply filter_none. intros m (x & Hx & Hm)%list_elem_of_In%in_flat_map. apply bool_decide_eq_false. intros <-.
  apply Hn. rewrite (Hg x m); [|by apply list_elem_of_In..]. by apply list_elem_of_In, in_map.
Qed.
Lemma said_one {A} (k : A → string) (g : A → list msg) l x :
  (∀ x m, x ∈ l → m ∈ g x → about m = k x) → NoDup (map k l) → x ∈ l → said (k x) (flat_map g l) = g x.
Proof.
  induction l as [|y l IH]; intros Hg Hnd Hx; [by apply elem_of_nil in Hx|]. cbn [map flat_map] in *.
  apply NoDup_cons in Hnd as [Hy Hnd]. unfold said. rewrite List.filter_app.
  assert (∀ x m, x ∈ l → m ∈ g x → about m = k x) as Hg' by (intros; apply Hg; [by right|done]).
  apply elem_of_cons in Hx as [->|Hx].
  - fold (said (k y) (flat_map g l)). rewrite (said_none k g l) by done. rewrite app_nil_r. apply forallb_filter_id.
    apply forallb_forall. intros m Hm. apply bool_decide_eq_true, Hg; [by left|by apply list_elem_of_In].
  - fold (said (k x) (flat_map g l)). rewrite IH by done. rewrite filter_none; [done|].
    intros m Hm. apply bool_decide_eq_false. rewrite (Hg y) by (done || by left). intros E. apply Hy. rewrite E.
    by apply list_elem_of_In, in_map, list_elem_of_In.
Qed.
Lemma told_said id ms : omap (told_of id) ms = omap (told_of id) (said id ms).
Proof.
  induction ms as [|m ms IH]; [done|]. unfold said in *. cbn. destruct (bool_decide_reflect (about m = id)) as [<-|Hn].
  - cbn. by rewrite IH.
  - assert (told_of id m = None) as -> by (destruct m; cbn in *; by rewrite ?bool_decide_eq_false_2). exact IH.
Qed.
Lemma story_new id log now ms : story id (log ++ map (pair now) ms) = story id log ++ omap (told_of id) (said id ms).
Proof. rewrite story_app, <- told_said. unfold story. rewrite <- (map_map_snd now ms) at 2. done. Qed.

Lemma ev_post_msgs now cover i p v : ev_post now cover i p v →
  match p with
  | Quiet => ev_msgs v = []
  | SentOpen => ev_msgs v = [MOpen (iID i)]
  | SentRules => ∃ rules, rules ≠ [] ∧ ev_msgs v = map (MRule (iID i)) rules
  | SentRecovery => ev_msgs v = [MRecovery (iID i)]
  end.
Proof.
  intros Hp. pose proof (ep_sent _ _ _ _ _ Hp) as Hs. unfold ev_msgs. destruct p; cbn in Hs.
  - destruct Hs as (-> & -> & -> & _). done.
  - destruct Hs as ((out & -> & E) & -> & -> & _). cbn. by rewrite E.
  - destruct Hs as (-> & (rules & out & -> & Hne & E) & -> & _). exists rules. split; [done|]. cbn [map app].
    rewrite app_nil_r, map_map. cbn. by rewrite E.
  - destruct Hs as (-> & -> & (out & -> & E) & _). cbn. by rewrite E.
Qed.
Definition phase_told (p : phase) : list bool :=
  match p with SentOpen => [true] | SentRecovery => [false] | _ => [] end.
Lemma told_esc id keys : omap (told_of id) (map (MEscalate id) keys) = [].
Proof. by induction keys. Qed.
Lemma told_rules id rules : omap (told_of id) (map (MRule id) rules) = [].
Proof. by induction rules. Qed.
Lemma phase_said now cover i p v keys : ev_post now cover i p v →
  omap (told_of (iID i)) (ev_msgs v ++ map (MEscalate (iID i)) keys) = phase_told p.
Proof.
  intros Hm%ev_post_msgs. rewrite omap_app, told_esc, app_nil_r. destruct p; cbn [phase_told].
  - by rewrite Hm.
  - rewrite Hm. cbn. by rewrite bool_decide_eq_true_2.
  - destruct Hm as (rules & _ & ->). apply told_rules.
  - rewrite Hm. cbn. by rewrite bool_decide_eq_true_2.
Qed.
Lemma last_new log id (now : time) ms :
  last (List.filter (fun e : time * msg => (about e.2 =?? id) && inc_told e.2) (log ++ map (pair now) ms)) =
  match List.filter inc_told (said id ms) with
  | [] => last (List.filter (fun e : time * msg => (about e.2 =?? id) && inc_told e.2) log)
  | l => pair now <$> last l
  end.
Proof.
  rewrite List.filter_app.
  assert (List.filter (fun e : time * msg => (about e.2 =?? id) && inc_told e.2) (map (pair now) ms) =
    map (pair now) (List.filter inc_told (said id ms))) as ->.
  { induction ms as [|m ms IH]; [done|]. unfold said in *. cbn. destruct (about m =?? id); cbn; [|done].
    destruct (inc_told m); cbn; by rewrite IH. }
  destruct (List.filter inc_told (said id ms)) as [|m l]; [by rewrite app_nil_r|].
  rewrite last_app. change (map (pair now) (m :: l)) with (pair now <$> m :: l). rewrite fmap_last.
  destruct (last (m :: l)) eqn:E; [done|]. by apply last_None in E.
Qed.
Lemma filter_esc id keys : List.filter inc_told (map (MEscalate id) keys) = [].
Proof. by induction keys. Qed.

Section sweep.
Context (fl : fleet) (now : time) (cover : maintenanceCover).
Hypothesis Hnow : 0 < now.
Lemma rec_step log i p v r ms :
  rec_ok log i → ev_post now cover i p v → inc_same r (final fl now cover v) →
  said (iID i) ms = ev_msgs v ++ map (MEscalate (iID i)) (due_keys fl now cover v) →
  rec_ok (log ++ map (pair now) ms) r.
Proof.
  intros [H1 H2 H3 H4] Hp Hsame Hsaid. eapply rec_ok_same; [exact Hsame|]. clear r Hsame.
  pose proof (phase_said now cover i p v (due_keys fl now cover v) Hp) as Htold. pose proof (ev_post_msgs _ _ _ _ _ Hp) as Hmsgs.
  destruct Hp as [P1 P2 P3 P4 P5 P6 P7 Hs].
  destruct (final_spec fl now cover Hnow v) as ([m Em] & _ & _ & F4 & F5).
  assert (iID (final fl now cover v) = iID i) as Eid by (rewrite Em, <- P2; by destruct (vInc v)).
  assert (iNotified (final fl now cover v) = iNotified (vInc v)) as En by (rewrite Em; by destruct (vInc v)).
  assert (iNotifiedAt (final fl now cover v) = iNotifiedAt (vInc v)) as Ea by (rewrite Em; by destruct (vInc v)).
  split.
  - rewrite Em. destruct P1 as [Q1 Q2 Q3 Q4 Q5 Q6]. by split; destruct (vInc v).
  - unfold agrees. rewrite Eid, En, story_new, Hsaid, Htold. destruct p; cbn [phase_told sent] in *.
    + rewrite app_nil_r. destruct Hs as (_ & _ & _ & -> & _). exact H2.
    + rewrite last_snoc. tauto.
    + rewrite app_nil_r. destruct Hs as (_ & _ & _ & -> & _). exact H2.
    + rewrite last_snoc. destruct Hs as (_ & _ & _ & _ & -> & _). done.
  - intros key. rewrite Eid, fmap_app, elem_of_app, map_map_snd. intros [Hin|Hin].
    + apply F4. rewrite P6. by apply H3.
    + apply F5. assert (MEscalate (iID i) key ∈ said (iID i) ms) as Hin'.
      { apply list_elem_of_In, filter_In. split; [by apply list_elem_of_In|]. by apply bool_decide_eq_true. }
      rewrite Hsaid, elem_of_app in Hin'. destruct Hin' as [Hin'|Hin']; [exfalso|].
      * destruct p; [rewrite Hmsgs in Hin'; set_solver..| |rewrite Hmsgs in Hin'; set_solver].
        destruct Hmsgs as (rules & _ & E). rewrite E in Hin'. by apply list_elem_of_fmap in Hin' as (x & ? & _).
      * apply list_elem_of_fmap in Hin' as (k & [= ->] & Hk). done.
  - intros t x. rewrite Eid, Ea, last_new, Hsaid, List.filter_app, filter_esc, app_nil_r. destruct p; cbn [sent] in Hs.
    + rewrite Hmsgs. cbn. destruct Hs as (_ & _ & _ & _ & ->). apply H4.
    + rewrite Hmsgs. cbn. destruct Hs as (_ & _ & _ & _ & -> & _). congruence.
    + destruct Hmsgs as (rules & Hne & ->). destruct Hs as (_ & _ & _ & _ & -> & _). destruct rules as [|r rules]; [done|].
      cbn [map List.filter inc_told]. destruct (last _); cbn; congruence.
    + rewrite Hmsgs. cbn. destruct Hs as (_ & _ & _ & _ & _ & -> & _). congruence.
Qed.
Lemma story_step log i p v ms :
  rec_ok log i → ev_post now cover i p v → story_ok (story (iID i) log) →
  said (iID i) ms = ev_msgs v ++ map (MEscalate (iID i)) (due_keys fl now cover v) →
  story_ok (story (iID i) (log ++ map (pair now) ms)).
Proof.
  intros [_ H2 _ _] Hp Hst Hsaid. rewrite story_new, Hsaid, (phase_said now cover i p v) by done.
  pose proof (ep_sent _ _ _ _ _ Hp) as Hs. destruct p; cbn [phase_told sent] in *.
  - by rewrite app_nil_r.
  - by apply story_ok_true.
  - by rewrite app_nil_r.
  - apply story_ok_false; [done|]. apply H2, Hs.
Qed.

(** *** A sweep over a sound world *)
Context (w : world) (o : order) (d : disk) (Ho : valid_order o) (Hw : world_ok w).
Definition sweep_cands : list Incident := IncidentsWhere o is_candidate (wbook w).
Definition sweep_evs : list ev := omap (eval_one fl now cover) sweep_cands.
Definition sweep_gone : list string :=
  map (fun e => iID e.1) (List.filter (fun e : Incident * option ev => match e.2 with None => true | Some _ => false end)
    (map (fun i => (i, eval_one fl now cover i)) sweep_cands)).

Lemma cand_elem i : i ∈ sweep_cands ↔ incidents (wbook w) !! iID i = Some i ∧ is_candidate i = true.
Proof.
  unfold sweep_cands, IncidentsWhere. rewrite merge_sort_Permutation, list_elem_of_In, filter_In, <- list_elem_of_In.
  rewrite (order_elem o Ho) by (destruct (wo_store _ Hw) as [Hb _]; apply Hb). done.
Qed.
Lemma cand_NoDup : NoDup (map iID sweep_cands).
Proof.
  unfold sweep_cands, IncidentsWhere. rewrite merge_sort_Permutation. apply filter_map_NoDup.
  rewrite (order_ids o Ho) by (destruct (wo_store _ Hw) as [Hb _]; apply Hb). apply NoDup_fst_map_to_list.
Qed.
Lemma sweep_ev v : v ∈ sweep_evs →
  ∃ i p, incidents (wbook w) !! iID i = Some i ∧ rec_ok (wLog w) i ∧ eval_one fl now cover i = Some v ∧ ev_post now cover i p v.
Proof.
  intros (i & Hi & Hv)%list_elem_of_omap. apply cand_elem in Hi as [Hi _]. pose proof (wo_recs _ Hw _ _ Hi) as Hr.
  destruct (eval_one_post now cover fl i v) as [p Hp]; [apply Hr|done|]. eauto 10.
Qed.
Lemma sweep_evs_NoDup : NoDup (map (fun v => iID (vInc v)) sweep_evs).
Proof.
  pose proof cand_NoDup as Hnd. assert (∀ i, i ∈ sweep_cands → inc_ok i) as Hok.
  { intros i [Hi _]%cand_elem. by eapply wo_recs. }
  unfold sweep_evs. revert Hnd Hok. generalize sweep_cands as l.
  assert (∀ l v, (∀ i, i ∈ l → inc_ok i) → v ∈ omap (eval_one fl now cover) l → iID (vInc v) ∈ map iID l) as Hin.
  { intros l v Hok (i & Hi & Hv)%list_elem_of_omap. destruct (eval_one_post now cover fl i v) as [p Hp]; [by apply Hok|done|].
    rewrite (ep_id _ _ _ _ _ Hp). by apply list_elem_of_In, in_map, list_elem_of_In. }
  induction l as [|i l IH]; intros Hnd Hok; [constructor|]. cbn [map] in Hnd. apply NoDup_cons in Hnd as [Hi Hnd].
  assert (∀ i, i ∈ l → inc_ok i) as Hok' by (intros; apply Hok; by right). cbn. destruct (eval_one fl now cover i) as [v|] eqn:Ev; [|by apply IH].
  cbn [map]. apply NoDup_cons. split; [|by apply IH]. destruct (eval_one_post now cover fl i v) as [p Hp]; [apply Hok; by left|done|].
  rewrite (ep_id _ _ _ _ _ Hp). intros (v' & E & Hv')%list_elem_of_fmap. apply Hi. rewrite E. by apply Hin.
Qed.
Lemma sweep_ev_about v m : v ∈ sweep_evs → m ∈ ev_msgs v → about m = iID (vInc v).
Proof.
  intros Hv Hm. apply sweep_ev in Hv as (i & p & _ & _ & _ & Hp). rewrite (ep_id _ _ _ _ _ Hp).
  apply ev_post_msgs in Hp. destruct p; [..|destruct Hp as (rules & _ & Hp)|]; rewrite Hp in Hm; [set_solver| | |]; last first.
  1,3: by apply list_elem_of_singleton in Hm as ->.
  by apply list_elem_of_fmap in Hm as (x & -> & _).
Qed.
Lemma esc_about v m : m ∈ map (MEscalate (iID (vInc v))) (due_keys fl now cover v) → about m = iID (vInc v).
Proof. by intros (k & -> & _)%list_elem_of_fmap. Qed.
Lemma sweep_said v : v ∈ sweep_evs →
  said (iID (vInc v)) (new_msgs fl now cover sweep_evs) = ev_msgs v ++ map (MEscalate (iID (vInc v))) (due_keys fl now cover v).
Proof.
  intros Hv. unfold new_msgs, said. rewrite List.filter_app. f_equal.
  - apply (said_one (fun v => iID (vInc v)) ev_msgs); [apply sweep_ev_about|apply sweep_evs_NoDup|done].
  - apply (said_one (fun v => iID (vInc v)) (fun v => map (MEscalate (iID (vInc v))) (due_keys fl now cover v)));
      [intros; by apply esc_about|apply sweep_evs_NoDup|done].
Qed.
Lemma sweep_silent id : id ∉ map (fun v => iID (vInc v)) sweep_evs → said id (new_msgs fl now cover sweep_evs) = [].
Proof.
  intros Hn. unfold new_msgs, said. rewrite List.filter_app.
  pose proof (said_none (fun v => iID (vInc v)) ev_msgs sweep_evs id sweep_ev_about Hn) as E1.
  pose proof (said_none (fun v => iID (vInc v)) (fun v => map (MEscalate (iID (vInc v))) (due_keys fl now cover v)) sweep_evs id
    (fun v m _ => esc_about v m) Hn) as E2. unfold said in E1, E2. by rewrite E1, E2.
Qed.
(** The rows are never refused. *)
Lemma row_source r : r ∈ sweep_rows fl now cover sweep_evs →
  ∃ i p v, incidents (wbook w) !! iID i = Some i ∧ rec_ok (wLog w) i ∧ v ∈ sweep_evs ∧ ev_post now cover i p v ∧
    inc_same r (final fl now cover v) ∧ iID r = iID i ∧ iKey r = iKey i ∧ (Active r = true → Active i = true) ∧ inc_ok r.
Proof.
  intros (v & Hv & Hsame)%row_is_final; [|done|apply sweep_evs_NoDup].
  pose proof (sweep_ev v Hv) as (i & p & Hi & Hr & _ & Hp). exists i, p, v.
  destruct (final_spec fl now cover Hnow v) as ([m Em] & _). pose proof Hp as [P1 P2 P3 P4 P5 P6 P7 _].
  assert (inc_ok (final fl now cover v)) as Hf.
  { rewrite Em. destruct P1 as [Q1 Q2 Q3 Q4 Q5 Q6]. by split; destruct (vInc v). }
  assert (iID r = iID (vInc v) ∧ iKey r = iKey (vInc v) ∧ iState r = iState (vInc v)) as (E1 & E2 & E3).
  { destruct Hsame as [S1 S2 _ _ S3 _ _ _ _ _ _]. rewrite S1, S2, S3, Em. by destruct (vInc v). }
  split_and!; try done; try congruence; [|by eapply inc_same_ok].
  assert (Active r = Active (vInc v)) as -> by (unfold Active; by rewrite E3). intros Ha. unfold Active in *. by rewrite <- P7.
Qed.
Lemma rows_batch : batch_ok (sweep_rows fl now cover sweep_evs).
Proof.
  intros r r' (i & _ & _ & Hi & _ & _ & _ & _ & I1 & I2 & I3 & _)%row_source (j & _ & _ & Hj & _ & _ & _ & _ & J1 & J2 & J3 & _)%row_source Ha Ha' Ek.
  destruct (wo_store _ Hw) as [Hb _]. rewrite I1, J1.
  eapply book_one_active; [exact Hb|exact Hj|exact Hi|auto|auto|congruence].
Qed.
Lemma clean_rows_accepts A rows :
  Forall (fun r => (trim_space (iID r) =?? "") || (trim_space (iKey r) =?? "") = false ∧
    (∀ other, A !! iKey r = Some other → Active r = true → other = iID r)) rows → ∃ c, clean_rows A rows = Ok c.
Proof.
  induction 1 as [|r rows [H1 H2] _ [c Hc]]; [by eexists|]. cbn [clean_rows]. rewrite H1, Hc. cbn [guard_err].
  destruct (A !! iKey r) as [other|]; [|by eexists]. destruct (Active r); [|rewrite andb_false_r; by eexists].
  rewrite (bool_decide_eq_true_2 _ (H2 other eq_refl eq_refl)). by eexists.
Qed.
Lemma rows_accepted s : store_ok s → incidents (ibook s) ⊆ incidents (wbook w) →
  ∃ c, clean_rows (bActive (ibook s)) (sweep_rows fl now cover sweep_evs) = Ok c.
Proof.
  intros [Hb _] Hsub. apply clean_rows_accepts, Forall_forall. intros r Hr.
  apply row_source in Hr as (i & _ & _ & Hi & _ & _ & _ & _ & I1 & I2 & I3 & Hok). destruct (io_ids _ Hok) as [-> ->]. split; [done|].
  intros other Ha Hact. apply (ok_active _ Hb) in Ha as (j & Hj & Ej & Aj).
  rewrite I1. destruct (wo_store _ Hw) as [Hb0 _].
  eapply book_one_active; [exact Hb0|by eapply lookup_weaken|exact Hi|auto|auto|congruence].
Qed.

Lemma swept_store :
  let s' := (PutIncidents o d (sweep_rows fl now cover sweep_evs) (DeleteIncidents o d sweep_gone (swStore (wSweep w))).1).1 in
  store_ok s' ∧ loaded s' ∧
  ∀ id j, incidents (ibook s') !! id = Some j →
    (∃ r, r ∈ sweep_rows fl now cover sweep_evs ∧ iID r = id ∧ inc_same j r) ∨
    (id ∉ map iID (sweep_rows fl now cover sweep_evs) ∧ incidents (wbook w) !! id = Some j).
Proof.
  cbv zeta. set (rows := sweep_rows _ _ _ _). set (s := (DeleteIncidents _ _ _ _).1).
  assert (store_ok s ∧ loaded s ∧ incidents (ibook s) ⊆ incidents (wbook w)) as (S1 & S2 & S3).
  { unfold s, DeleteIncidents. destruct sweep_gone; [split_and!; [apply Hw|apply Hw|done]|].
    rewrite load_id by apply Hw. apply delete_ids_cases; [done|apply Hw|apply Hw]. }
  destruct (put_rows o d rows s Ho S1 S2 rows_batch) as (T1 & T2 & T3); [apply sweep_rows_NoDup; [done|apply sweep_evs_NoDup]|].
  split; [done|]. split; [done|]. intros id j Hj. destruct T3 as [[E Hnil]|[_ T3]].
  - destruct (rows_accepted s S1 S3) as [c Hc]. rewrite (Hnil c Hc). right. split; [apply not_elem_of_nil|].
    eapply lookup_weaken; [|exact S3]. by rewrite <- E.
  - apply T3 in Hj as [(r & Hr & Eid & ->)|[Hn Hj]]; [left|right; split; [done|by eapply lookup_weaken]].
    exists r. split_and!; [done|done|apply bound_same].
Qed.
Lemma rec_silent log i ms : said (iID i) ms = [] → rec_ok log i → rec_ok (log ++ map (pair now) ms) i.
Proof.
  intros Hs Hr. apply rec_ok_quiet; [|done]. intros e He E. apply list_elem_of_fmap in He as (m & -> & Hm). cbn in E.
  assert (m ∈ said (iID i) ms) as Hin by (apply list_elem_of_In, filter_In; split; [by apply list_elem_of_In|by apply bool_decide_eq_true]).
  rewrite Hs in Hin. by apply elem_of_nil in Hin.
Qed.
Lemma swept_recs id j :
  incidents (ibook (PutIncidents o d (sweep_rows fl now cover sweep_evs) (DeleteIncidents o d sweep_gone (swStore (wSweep w))).1).1)
    !! id = Some j →
  rec_ok (wLog w ++ map (pair now) (new_msgs fl now cover sweep_evs)) j.
Proof.
  intros Hj. destruct swept_store as (_ & _ & Hs). apply Hs in Hj as [(r & Hr & _ & Hsame)|[Hn Hj]].
  - eapply rec_ok_same; [exact Hsame|]. apply row_source in Hr as (i & p & v & _ & Hr & Hv & Hp & Hsame' & _).
    eapply rec_step; [exact Hr|exact Hp|done|]. rewrite <- (ep_id _ _ _ _ _ Hp). by apply sweep_said.
  - pose proof (wo_recs _ Hw _ _ Hj) as Hr. destruct (wo_store _ Hw) as [Hb _]. destruct (ok_ids _ Hb _ _ Hj) as [Eid _].
    destruct (decide (id ∈ map (fun v => iID (vInc v)) sweep_evs)) as [Hin|Hnin].
    + apply list_elem_of_fmap in Hin as (v & E & Hv). rewrite E in Hn.
      destruct (not_written fl now cover sweep_evs Hnow sweep_evs_NoDup v Hv Hn) as [Hd Hk].
      pose proof (sweep_ev v Hv) as (i & p & Hi & _ & Hev & Hp). pose proof (ep_id _ _ _ _ _ Hp) as Ei.
      assert (i = j) as -> by (unfold wbook in *; congruence).
      destruct (eval_one_clean now cover fl j v Hev Hd) as [Einc _].
      eapply rec_step; [exact Hr|exact Hp| |].
      * destruct (final_spec fl now cover Hnow v) as (_ & Ef & _). rewrite Ef, Einc by done. apply inc_same_refl.
      * rewrite <- Ei. by apply sweep_said.
    + apply rec_silent; [|done]. rewrite Eid. by apply sweep_silent.
Qed.
Lemma swept_story id : story_ok (story id (wLog w ++ map (pair now) (new_msgs fl now cover sweep_evs))).
Proof.
  destruct (decide (id ∈ map (fun v => iID (vInc v)) sweep_evs)) as [Hin|Hnin].
  - apply list_elem_of_fmap in Hin as (v & -> & Hv). pose proof (sweep_ev v Hv) as (i & p & _ & Hr & _ & Hp).
    rewrite (ep_id _ _ _ _ _ Hp). eapply story_step; [exact Hr|exact Hp|apply Hw|].
    rewrite <- (ep_id _ _ _ _ _ Hp). by apply sweep_said.
  - rewrite story_new, sweep_silent by done. rewrite app_nil_r. apply Hw.
Qed.
Lemma swept_once :
  NoDup (List.filter (fun m => negb (inc_told m)) (wLog w ++ map (pair now) (new_msgs fl now cover sweep_evs)).*2).
Proof.
  rewrite fmap_app, map_map_snd, List.filter_app.
  assert (List.filter (fun m => negb (inc_told m)) (new_msgs fl now cover sweep_evs) =
    flat_map (fun v => map (MEscalate (iID (vInc v))) (due_keys fl now cover v)) sweep_evs) as ->.
  { unfold new_msgs. rewrite List.filter_app, filter_none.
    - apply forallb_filter_id, forallb_forall. intros m (v & _ & Hm)%in_flat_map. by apply in_map_iff in Hm as (k & <- & _).
    - intros m (v & _ & Hm)%list_elem_of_In%in_flat_map. unfold ev_msgs in Hm. rewrite !in_app_iff, !in_map_iff in Hm.
      by destruct Hm as [(x & <- & _)|[(x & <- & _)|(x & <- & _)]]. }
  apply NoDup_app. split_and!; [apply Hw| |].
  - intros m Hold (v & Hv & Hm)%list_elem_of_In%in_flat_map. apply list_elem_of_In in Hv. apply in_map_iff in Hm as (k & <- & Hk).
    apply list_elem_of_In, filter_In in Hold as [Hold _]. apply list_elem_of_In in Hold.
    pose proof (sweep_ev v Hv) as (i & p & _ & Hr & _ & Hp). rewrite (ep_id _ _ _ _ _ Hp) in Hold.
    apply (ro_noted _ _ Hr) in Hold. destruct (final_spec fl now cover Hnow v) as (_ & _ & _ & _ & F5).
    apply list_elem_of_In, F5 in Hk as [Hk _]. rewrite (ep_escalated _ _ _ _ _ Hp) in Hk. congruence.
  - pose proof sweep_evs_NoDup as Hnd. revert Hnd. generalize sweep_evs as l. induction l as [|v l IH]; [constructor|].
    cbn [map flat_map]. intros [Hv Hnd]%NoDup_cons. apply NoDup_app. split_and!; [| |by apply IH].
    + apply NoDup_fmap_2; [by intros ? ? [=]|]. apply final_spec. done.
    + intros m (k & -> & _)%list_elem_of_fmap (v' & Hv' & Hm)%list_elem_of_In%in_flat_map.
      apply in_map_iff in Hm as (k' & [= E _] & _). apply Hv. rewrite <- E. apply list_elem_of_In, in_map_iff. eauto.
Qed.
End sweep.

Lemma omap_results {A B} (f : A → option B) l : omap snd (map (fun i => (i, f i)) l) = omap f l.
Proof. induction l as [|x l IH]; [done|]. cbn. destruct (f x); by rewrite IH. Qed.
Lemma world_sweep w o d now fl :
  valid_order o → 0 < now → world_ok w → world_ok (wstep w (mkWCall o d now (WSweep fl))).
Proof.
  intros Ho Hnow Hw. unfold wstep. cbn [wcOp wcNow wcOrder wcDisk]. unfold evaluateIncidents.
  set (due := incidentPruneEvery <=? _). set (st := if due then _ else _). set (prunedAt := if due then now else swPrunedAt (wSweep w)).
  assert (world_ok (with_store st w)) as Hw'.
  { unfold st. destruct due; [by apply world_delete|by apply world_id]. }
  assert (loaded st) as Hl by apply (wo_loaded _ Hw').
  rewrite load_id by done. clearbody st prunedAt. set (w0 := with_store st w) in *.
  change (ibook st) with (wbook w0). change (wLog w) with (wLog w0).
  change (IncidentsWhere o is_candidate (wbook w0)) with (sweep_cands w0 o).
  destruct (length (sweep_cands w0 o) =? 0)%nat.
  { cbn. rewrite app_nil_r. destruct Hw' as [H1 H2 H3 H4 H5]. by split. }
  set (cover := maintenanceCoverAt now fl (wbook w0)).
  rewrite (omap_results (eval_one fl now cover)). change (omap (eval_one fl now cover) (sweep_cands w0 o)) with (sweep_evs fl now cover w0 o).
  destruct (escalateIncidents fl now _) as [eff touched] eqn:Ee. cbv zeta. cbn [srState]. unfold sweep_msgs. cbn [srEvs srEscalated].
  rewrite (escalated_msgs fl now cover (sweep_evs fl now cover w0 o) Hnow).
  assert (changed_rows now (map vInc (List.filter vDirty (sweep_evs fl now cover w0 o))) touched =
    sweep_rows fl now cover (sweep_evs fl now cover w0 o)) as -> by (unfold sweep_rows; by rewrite Ee).
  change st with (swStore (wSweep w0)). fold (sweep_gone fl now cover w0 o).
  destruct (swept_store fl now cover Hnow w0 o d Ho Hw') as (S1 & S2 & _).
  split; cbn [wSweep swStore wLog].
  - exact S1.
  - exact S2.
  - intros id j Hj. eapply swept_recs; [exact Hnow|exact Ho|exact Hw'|exact Hj].
  - apply swept_story; done.
  - apply swept_once; done.
Qed.
Lemma world_step w c : world_ok w → wcall_ok w c → world_ok (wstep w c).
Proof.
  intros Hw Hc. pose proof Hc as (Ho & Hnow & Hop). destruct c as [o d now op]. cbn [wcOrder wcNow wcOp] in *. destruct op.
  - by apply world_open.
  - by apply world_resolve.
  - apply world_act; [done|done|]. intros i j a Hi Ha Hj. apply bind_Some in Hj as (k & Hk & [= <- _]). by eapply acked_ok.
  - apply world_act; [done|done|]. intros i j a Hi Ha Hj. apply bind_Some in Hj as (k & Hk & [= <- _]). by eapply unacked_ok.
  - unfold wstep, handleIncidentSnooze. cbn [wcOp wcNow wcOrder wcDisk]. destruct minutes as [m|]; [|by apply world_id].
    destruct (_ || _); cbn [guard_err]; [by apply world_id|]. apply world_act; [done|done|].
    intros i j a Hi _ [= <- _]. by apply snoozed_ok.
  - by apply world_sweep.
  - by apply world_adopt.
  - by apply world_delete.
  - by apply world_window.
  - by apply world_delete_window.
  - destruct Hop. by apply world_restart.
Qed.
Lemma reachable_ok w : reachable w → world_ok w.
Proof.
  induction 1 as [s prunedAt Hs Hl He|w c _ IH Hc]; [|by apply world_step]. split; cbn; [done|done| | |].
  - intros id i. unfold wbook. cbn. by rewrite He.
  - intros id a b E. by apply app_cons_not_nil in E.
  - constructor.
Qed.

(** ** What leaves the server *)
Lemma notice_ids et items : (incidentNotice et items).2 ≡ₚ map ogID items.
Proof.
  assert (∀ l, map ogID (merge_sort sort_key_le l) ≡ₚ map ogID l) as Hs by (intros l; by rewrite merge_sort_Permutation).
  unfold incidentNotice. destruct items as [|a [|b items]]; cbn [snd]; [apply Hs|done|apply Hs].
Qed.
Lemma of_kind_elem {A} k (it : A) items : it ∈ of_kind k items ↔ (k, it) ∈ items.
Proof.
  unfold of_kind. rewrite list_elem_of_fmap. split.
  - intros ([k' x] & -> & Hin). apply list_elem_of_In, filter_In in Hin as [Hin E]. apply bool_decide_eq_true in E. cbn in *.
    subst. by apply list_elem_of_In.
  - intros Hin. exists (k, it). split; [done|]. apply list_elem_of_In, filter_In. split; [by apply list_elem_of_In|by apply bool_decide_eq_true].
Qed.
Lemma kinds_of_elem {A} k (items : list (string * A)) : k ∈ kinds_of items ↔ ∃ it, (k, it) ∈ items.
Proof.
  unfold kinds_of, sort_strings. rewrite merge_sort_Permutation, elem_of_dedup, list_elem_of_fmap. split.
  - intros ([k' it] & -> & Hin). eauto.
  - intros [it Hin]. by exists (k, it).
Qed.
Lemma messages_carry et items it : it ∈ items → ∃ title body ids, sendIncidentMessages et items = [Send et title body ids] ∧ ogID it ∈ ids.
Proof.
  intros Hin. unfold sendIncidentMessages. destruct items as [|a items]; [by apply elem_of_nil in Hin|].
  pose proof (notice_ids et (a :: items)) as Hp. destruct (incidentNotice et (a :: items)) as [[title body] ids].
  exists title, body, ids. split; [done|]. cbn [snd] in Hp. rewrite Hp. by apply list_elem_of_In, in_map, list_elem_of_In.
Qed.
Lemma opens_carry items k it : (k, it) ∈ items → ∃ title body ids, Send k title body ids ∈ sendOpens items ∧ ogID it ∈ ids.
Proof.
  intros Hin. destruct (messages_carry k (of_kind k items) it) as (title & body & ids & E & Hid); [by apply of_kind_elem|].
  exists title, body, ids. split; [|done]. apply list_elem_of_In, in_flat_map. exists k. split.
  - apply list_elem_of_In, kinds_of_elem. eauto.
  - rewrite E. by left.
Qed.
(** The rule is told, or the Sent log says why not. *)
Definition rule_told (effs : list effect) (et : string) (rule : NotifyRule) (id : string) : Prop :=
  ∃ title body ids, id ∈ ids ∧ (Send et title body ids ∈ effs ∨ SendRule (nrID rule) et title body ids ∈ effs).
Definition rule_withheld (effs : list effect) (et : string) (rule : NotifyRule) (id : string) : Prop :=
  ∃ name title body ids, id ∈ ids ∧ Withheld (nrID rule) name et title body ids ∈ effs.
Lemma partition_elem {A} (P : A → bool) l x :
  (x ∈ (List.partition P l).1 ↔ x ∈ l ∧ P x = true) ∧ (x ∈ (List.partition P l).2 ↔ x ∈ l ∧ P x = false).
Proof.
  rewrite partition_as_filter. cbn [fst snd]. by rewrite !list_elem_of_In, !filter_In, negb_true_iff.
Qed.
(** The messages of one side of a split, per rule. *)
Lemma side_elem et (side : NotifyRule → list incidentOutgoing) (mk : NotifyRule → string → string → list string → effect) rules e :
  e ∈ flat_map (fun rule =>
      if (length (side rule) =? 0)%nat then [] else
      let '(title, body, ids) := incidentNotice et (side rule) in [mk rule title body ids]) rules ↔
  ∃ rule title body ids, rule ∈ rules ∧ side rule ≠ [] ∧ incidentNotice et (side rule) = (title, body, ids) ∧ e = mk rule title body ids.
Proof.
  rewrite list_elem_of_In, in_flat_map. split.
  - intros (rule & Hr & He). destruct (length (side rule) =? 0)%nat eqn:El; [done|]. apply Nat.eqb_neq in El.
    destruct (incidentNotice et (side rule)) as [[title body] ids] eqn:En. destruct He as [<-|[]].
    exists rule, title, body, ids. split_and!; [by apply list_elem_of_In|intros E; by rewrite E in El|done|done].
  - intros (rule & title & body & ids & Hr & Hne & En & ->). exists rule. split; [by apply list_elem_of_In|].
    destruct (length (side rule) =? 0)%nat eqn:El; [by apply Nat.eqb_eq, nil_length_inv in El|]. rewrite En. by left.
Qed.
Lemma notice_carries et items title body ids id :
  incidentNotice et items = (title, body, ids) → id ∈ ids ↔ ∃ it, it ∈ items ∧ ogID it = id.
Proof.
  intros En. pose proof (notice_ids et items) as Hp. rewrite En in Hp. cbn [snd] in Hp. rewrite Hp, list_elem_of_fmap.
  split; intros (it & ? & ?); eauto.
Qed.
Lemma split_effects et fl items missed rule it :
  rule ∈ flRules fl → notifyRuleMatches rule et = true → it ∈ items →
  let split_for rule := List.partition (fun it => mem (ogID it, nrID rule) missed) items in
  let routing := List.filter (fun rule => notifyRuleMatches rule et) (flRules fl) in
  let effs := flat_map (fun rule =>
      let told := (split_for rule).2 in
      if (length told =? 0)%nat then [] else
      let '(title, body, ids) := incidentNotice et told in [SendRule (nrID rule) et title body ids]) routing ++
    flat_map (fun rule =>
      let left := (split_for rule).1 in
      if (length left =? 0)%nat then [] else
      let '(title, body, ids) := incidentNotice et left in
      [Withheld (nrID rule) (nrName rule) et title body ids]) routing in
  (rule_told effs et rule (ogID it) ↔ (ogID it, nrID rule) ∉ missed) ∧
  (rule_withheld effs et rule (ogID it) ↔ (ogID it, nrID rule) ∈ missed).
Proof.
  intros Hrule Hm Hit split_for routing effs.
  assert (rule ∈ routing) as Hrt by (apply list_elem_of_In, filter_In; split; [by apply list_elem_of_In|done]).
  pose proof (fun e => side_elem et (fun rule => (split_for rule).2) (fun rule t b ids => SendRule (nrID rule) et t b ids) routing e) as HT.
  pose proof (fun e => side_elem et (fun rule => (split_for rule).1) (fun rule t b ids => Withheld (nrID rule) (nrName rule) et t b ids) routing e) as HL.
  cbv zeta in HT, HL.
  assert (∀ P r l, l = (if P : bool then (split_for r).1 else (split_for r).2) →
    ∀ x, x ∈ l ↔ x ∈ items ∧ mem (ogID x, nrID r) missed = P) as Hside.
  { intros P r l -> x. unfold split_for. destruct (partition_elem (fun it => mem (ogID it, nrID r) missed) items x) as [PA PB].
    by destruct P. }
  split; split.
  - intros (title & body & ids & Hid & [He|He]); unfold effs in He; rewrite elem_of_app, HT, HL in He;
      destruct He as [He|He]; destruct He as (r & t & b & ids' & _ & _ & En & E); try done.
    injection E as Er -> -> ->. pose proof (proj1 (notice_carries _ _ _ _ _ (ogID it) En) Hid) as (x & Hx & Ex).
    apply (Hside false r _ eq_refl) in Hx as [_ Hx]. rewrite Ex, <- Er in Hx. by apply mem_false.
  - intros Hn. destruct (incidentNotice et (split_for rule).2) as [[title body] ids] eqn:En.
    assert (it ∈ (split_for rule).2) as Hin by (apply (Hside false rule _ eq_refl); split; [done|by apply mem_false]).
    exists title, body, ids. split; [by eapply notice_carries; eauto|]. right. unfold effs. rewrite elem_of_app, HT. left.
    exists rule, title, body, ids. split_and!; try done. intros E. rewrite E in Hin. by apply elem_of_nil in Hin.
  - intros (name & title & body & ids & Hid & He); unfold effs in He; rewrite elem_of_app, HT, HL in He;
      destruct He as [He|He]; destruct He as (r & t & b & ids' & _ & _ & En & E); try done.
    injection E as Er _ -> -> ->. pose proof (proj1 (notice_carries _ _ _ _ _ (ogID it) En) Hid) as (x & Hx & Ex).
    apply (Hside true r _ eq_refl) in Hx as [_ Hx]. rewrite Ex, <- Er in Hx. by apply mem_spec.
  - intros Hn. destruct (incidentNotice et (split_for rule).1) as [[title body] ids] eqn:En.
    assert (it ∈ (split_for rule).1) as Hin by (apply (Hside true rule _ eq_refl); split; [done|by apply mem_spec]).
    exists (nrName rule), title, body, ids. split; [by eapply notice_carries; eauto|]. unfold effs. rewrite elem_of_app, HL. right.
    exists rule, title, body, ids. split_and!; try done. intros E. rewrite E in Hin. by apply elem_of_nil in Hin.
Qed.
Lemma recoveries_split et fl items rule it :
  rule ∈ flRules fl → notifyRuleMatches rule et = true → it ∈ items →
  let effs := sendRecoveries et fl items in
  (rule_told effs et rule (ogID it) ↔ (ogID it, nrID rule) ∉ missed_rules et fl items) ∧
  (rule_withheld effs et rule (ogID it) ↔ (ogID it, nrID rule) ∈ missed_rules et fl items).
Proof.
  intros Hrule Hm Hit. cbv zeta. unfold sendRecoveries. destruct (length items =? 0)%nat eqn:El.
  { apply Nat.eqb_eq, nil_length_inv in El as ->. by apply elem_of_nil in Hit. }
  set (missed := missed_rules et fl items). assert (existsb (fun rule => notifyRuleMatches rule et) (flRules fl) = true) as ->.
  { apply existsb_exists. exists rule. split; [by apply list_elem_of_In|done]. }
  rewrite orb_false_r. destruct (length missed =? 0)%nat eqn:Em.
  - apply Nat.eqb_eq, nil_length_inv in Em as ->. destruct (messages_carry et items it Hit) as (title & body & ids & -> & Hid).
    split; split; try (by intros ?%elem_of_nil); [intros _; apply not_elem_of_nil| |].
    + intros _. exists title, body, ids. split; [done|]. left. by apply list_elem_of_singleton.
    + intros (name & t & b & ids' & _ & E%list_elem_of_singleton). done.
  - set (split_for := fun rule => List.partition (fun it => mem (ogID it, nrID rule) missed) items).
    apply split_effects; [done|done|done].
Qed.

(** ** A sweep, seen from outside *)
Definition pruned (now : time) (i : Incident) : bool :=
  negb (Active i) && negb (iFlapping i) && before (iResolvedAt i) (time_add now (- IncidentRetention)).
Lemma prune_keeps o d now s : valid_order o → store_ok s → loaded s →
  let s' := (PruneIncidents o d (time_add now (- IncidentRetention)) s).1 in
  windows (ibook s') = windows (ibook s) ∧ incidents (ibook s') ⊆ incidents (ibook s) ∧
  ∀ id i, incidents (ibook s) !! id = Some i → pruned now i = false → incidents (ibook s') !! id = Some i.
Proof.
  intros Ho Hs Hl. cbv zeta. unfold PruneIncidents, deleteIncidentsLocked. rewrite load_id by done.
  set (ids := map iID _). destruct (delete_ids_cases o d ids s Ho Hs Hl) as (_ & _ & Hsub). unfold delete_ids in *.
  destruct (commitIncidentsLocked d _ s) as [s1|] eqn:E; [|by split_and!]. cbn [fst] in *. apply commit_book in E as (E1 & _).
  destruct Hs as [Hb _]. cbn [apply_store ibook] in *. rewrite E1 in *.
  destruct (applyLocked_ok o Ho (ibook s) (mkWrite [] ids [] []) Hb) as (_ & Hi & Hwd); [constructor| |].
  { intros r Hr. by apply elem_of_nil in Hr. }
  split; [rewrite Hwd; by unfold apply_windows|]. split; [done|]. intros id i Hid Hp. rewrite Hi. cbn [putIncidents delIncidents puts foldl].
  rewrite dels_lookup. assert (mem id ids = false) as ->; [|done]. apply mem_false. intros (j & Ej & Hj)%list_elem_of_fmap.
  apply list_elem_of_In, filter_In in Hj as [Hj Hm]. apply list_elem_of_In, (order_elem o Ho) in Hj; [|apply Hb].
  assert (j = i) as -> by congruence. unfold pruned in Hp. congruence.
Qed.
Lemma evaluate_sends w o d fl now : valid_order o → 0 < now → world_ok w →
  ∃ w0, world_ok w0 ∧ wLog w0 = wLog w ∧ windows (wbook w0) = windows (wbook w) ∧ incidents (wbook w0) ⊆ incidents (wbook w) ∧
    (∀ id i, incidents (wbook w) !! id = Some i → pruned now i = false → incidents (wbook w0) !! id = Some i) ∧
    let cover := maintenanceCoverAt now fl (wbook w) in
    let evs := sweep_evs fl now cover w0 o in
    let r := evaluateIncidents o d fl now (wSweep w) in
    let recoveries := flat_map (fun v => map (fun it => (recovery (kind_of (iKind (vInc v))), it)) (vRecoveries v)) evs in
    sweep_msgs r = new_msgs fl now cover evs ∧
    (∀ e, e ∈ sendOpens (flat_map (fun v => map (fun it => (iKind (vInc v), it)) (vOpens v)) evs) → e ∈ srEffects r) ∧
    (∀ e k, k ∈ kinds_of recoveries → e ∈ sendRecoveries k fl (of_kind k recoveries) → e ∈ srEffects r).
Proof.
  intros Ho Hnow Hw. unfold evaluateIncidents.
  set (due := incidentPruneEvery <=? _). set (st := if due then _ else _). set (prunedAt := if due then now else swPrunedAt (wSweep w)).
  assert (world_ok (with_store st w)) as Hw'.
  { unfold st. destruct due; [by apply world_delete|by apply world_id]. }
  assert (windows (ibook st) = windows (wbook w) ∧ incidents (ibook st) ⊆ incidents (wbook w) ∧
    ∀ id i, incidents (wbook w) !! id = Some i → pruned now i = false → incidents (ibook st) !! id = Some i) as (P1 & P2 & P3).
  { unfold st. destruct due; [|by split_and!]. apply prune_keeps; [done|apply Hw|apply Hw]. }
  exists (with_store st w). split; [done|]. split; [done|]. split; [done|]. split; [done|]. split; [done|].
  assert (loaded st) as Hl by apply (wo_loaded _ Hw').
  rewrite load_id by done. clearbody st prunedAt. set (w0 := with_store st w) in *.
  assert (maintenanceCoverAt now fl (ibook st) = maintenanceCoverAt now fl (wbook w)) as ->.
  { unfold maintenanceCoverAt, MaintenanceWindows. by rewrite P1. }
  set (cover := maintenanceCoverAt now fl (wbook w)).
  change (IncidentsWhere o is_candidate (ibook st)) with (sweep_cands w0 o).
  destruct (sweep_cands w0 o) as [|c cs] eqn:Ec.
  { cbn [length Nat.eqb]. assert (sweep_evs fl now cover w0 o = []) as -> by (unfold sweep_evs; by rewrite Ec).
    split_and!; [done|done|]. intros e k Hk. by apply kinds_of_elem in Hk as [it Hk%elem_of_nil]. }
  rewrite <- Ec. assert ((length (sweep_cands w0 o) =? 0)%nat = false) as -> by (by rewrite Ec). clear c cs Ec.
  rewrite (omap_results (eval_one fl now cover)). change (omap (eval_one fl now cover) (sweep_cands w0 o)) with (sweep_evs fl now cover w0 o).
  destruct (escalateIncidents fl now _) as [eff touched] eqn:Ee. cbv zeta. unfold sweep_msgs. cbn [srEvs srEscalated srEffects].
  rewrite (escalated_msgs fl now cover (sweep_evs fl now cover w0 o) Hnow). split_and!; [done| |].
  - intros e He. apply elem_of_app. by left.
  - intros e k Hk He. rewrite !elem_of_app. right. right. left. apply list_elem_of_In, in_flat_map. exists k.
    by rewrite <- !list_elem_of_In.
Qed.

Lemma log_positive w : reachable w → Forall (fun e => 0 < e.1) (wLog w).
Proof.
  induction 1 as [|w c _ IH (_ & Hnow & _)]; [constructor|]. destruct c as [o d now op]. cbn [wcNow] in Hnow.
  destruct op; try exact IH; apply Forall_app; (split; [exact IH|]).
  - apply Forall_forall. intros e (m & -> & _)%list_elem_of_fmap. exact Hnow.
  - apply Forall_forall. intros e (m & -> & _)%list_elem_of_fmap. exact Hnow.
Qed.
(** The candidate behind a message. *)
Lemma message_source w o d fl now m : valid_order o → 0 < now → world_ok w →
  m ∈ sweep_msgs (evaluateIncidents o d fl now (wSweep w)) →
  ∃ i p v, incidents (wbook w) !! about m = Some i ∧ iID i = about m ∧
    ev_post now (maintenanceCoverAt now fl (wbook w)) i p v ∧
    (m ∈ ev_msgs v ∨ inc_told m = false).
Proof.
  intros Ho Hnow Hw Hm. destruct (evaluate_sends w o d fl now Ho Hnow Hw) as (w0 & Hw0 & _ & _ & Hsub & _ & E & _ & _).
  rewrite E in Hm. set (cover := maintenanceCoverAt now fl (wbook w)) in *. set (evs := sweep_evs fl now cover w0 o) in *.
  assert (m ∈ said (about m) (new_msgs fl now cover evs)) as Hs.
  { apply list_elem_of_In, filter_In. split; [by apply list_elem_of_In|]. by apply bool_decide_eq_true. }
  destruct (decide (about m ∈ map (fun v => iID (vInc v)) evs)) as [Hin|Hn].
  2: { unfold evs in *. rewrite sweep_silent in Hs by done. by apply elem_of_nil in Hs. }
  apply list_elem_of_fmap in Hin as (v & Ev & Hv). rewrite Ev in Hs. unfold evs in Hs, Hv. rewrite sweep_said in Hs by done.
  pose proof (sweep_ev fl now cover w0 o Ho Hw0 v Hv) as (i & p & Hi & _ & _ & Hp). pose proof (ep_id _ _ _ _ _ Hp) as Ei.
  exists i, p, v. rewrite Ev, Ei. split_and!; [by eapply lookup_weaken|done|done|].
  apply elem_of_app in Hs as [Hs|Hs]; [by left|right]. by apply list_elem_of_fmap in Hs as (k & -> & _).
Qed.

(** C9. Over any run from an empty incident table — openings, resolutions,
    acknowledgements, undos, snoozes, sweeps, adoptions of old pages,
    deletions and maintenance windows in any order, with any disk failures,
    and restarts at which the sidecar holds the incident records memory holds
    and is read — a recovery message about an incident is only ever sent when
    the last thing the phone was told about that incident is that it is open.
    A restart while a refused write is still missing from the sidecar is not
    part of such a run. *)
Theorem recovery_answers_open w id before_ t after_ :
  reachable w → wLog w = before_ ++ (t, MRecovery id) :: after_ → last (story id before_) = Some true.
Proof.
  intros Hr E. pose proof (wo_story _ (reachable_ok w Hr) id) as Hs. rewrite E, story_app in Hs. unfold story in Hs at 2.
  cbn in Hs. rewrite bool_decide_eq_true_2 in Hs by done. by eapply Hs.
Qed.
(** Over any run, an incident is escalated to a rule at most once, also
    when it is snoozed, acknowledged and reopened in between. *)
Theorem escalated_once w id rule l1 t l2 t' l3 :
  reachable w → wLog w ≠ l1 ++ (t, MEscalate id rule) :: l2 ++ (t', MEscalate id rule) :: l3.
Proof.
  intros Hr E. pose proof (wo_once _ (reachable_ok w Hr)) as Hn. rewrite E in Hn.
  rewrite fmap_app, fmap_cons, fmap_app, fmap_cons, List.filter_app in Hn. apply NoDup_app in Hn as (_ & _ & Hn).
  cbn in Hn. apply NoDup_cons in Hn as [Hn _]. apply Hn. rewrite List.filter_app. apply elem_of_app. right. left.
Qed.
(** A flapping incident is heard of at most once an hour: whatever a
    sweep says about an incident that is flapping comes at least an hour
    after the last thing said about it, escalations apart. *)
Theorem flapping_messages_spaced w o d fl now i t m0 m :
  reachable w → valid_order o → 0 < now →
  incidents (wbook w) !! about m = Some i → iFlapping i = true →
  last (List.filter (fun e => (about e.2 =?? about m) && inc_told e.2) (wLog w)) = Some (t, m0) →
  m ∈ sweep_msgs (evaluateIncidents o d fl now (wSweep w)) → inc_told m = true →
  incidentDampEvery <= time_sub now t.
Proof.
  intros Hr Ho Hnow Hi Hf Hlast Hm Htold. pose proof (reachable_ok w Hr) as Hw.
  destruct (message_source w o d fl now m Ho Hnow Hw Hm) as (i' & p & v & Hi' & Eid & Hp & Hsrc).
  assert (i' = i) as -> by congruence. destruct Hsrc as [Hsrc|]; [|congruence].
  assert (iNotifiedAt i = t) as <-.
  { eapply (ro_last _ _ (wo_recs _ Hw _ _ Hi)). by rewrite Eid. }
  assert (iNotifiedAt i ≠ 0) as Hnz.
  { apply last_Some_elem_of, list_elem_of_In, filter_In in Hlast as [Hlast _]. apply list_elem_of_In in Hlast.
    pose proof (log_positive w Hr) as Hpos. rewrite Forall_forall in Hpos. apply Hpos in Hlast. cbn in Hlast. lia. }
  assert (damped_ok now i) as Hd.
  { pose proof (ep_sent _ _ _ _ _ Hp) as Hs. apply ev_post_msgs in Hp. destruct p; cbn in Hs; [|tauto..].
    rewrite Hp in Hsrc. by apply elem_of_nil in Hsrc. }
  by destruct (Hd Hf).
Qed.

(** The evaluation of a record that is still there after the prune. *)
Lemma ev_of_candidate fl now cover w0 o i v :
  valid_order o → world_ok w0 → incidents (wbook w0) !! iID i = Some i → is_candidate i = true →
  eval_one fl now cover i = Some v → v ∈ sweep_evs fl now cover w0 o.
Proof. intros Ho Hw0 Hi Hc Hv. apply list_elem_of_omap. exists i. split; [|done]. by apply (cand_elem w0 o Ho Hw0). Qed.
(** C15. Nothing owed is forgotten: the first sweep that may speak does.  Of
    an incident that is open and not announced, whose node and monitor are
    there, outside maintenance windows, not snoozed and not damped, the sweep
    sends the opening message; of one that is over while the phone still
    says open, every rule that takes the event is sent the recovery or shown
    as having missed the opening, windows and snoozes notwithstanding, and
    with no rules the recovery goes to every channel. *)
Theorem owed_messages_are_sent w o d fl now id i :
  reachable w → valid_order o → 0 < now → incidents (wbook w) !! id = Some i → watched now fl i → incidentFlapDamped i now = false →
  let effs := srEffects (evaluateIncidents o d fl now (wSweep w)) in
  let et := recovery (kind_of (iKind i)) in
  (iState i = IncidentStateOpen → iNotified i ≠ IncidentNotifiedOpen →
   maintenanceCoverAt now fl (wbook w) (iNodeID i) = None → iSnoozedUntil i <= now →
   ∃ title body ids, Send (iKind i) title body ids ∈ effs ∧ id ∈ ids) ∧
  (iState i = IncidentStateResolved → iNotified i = IncidentNotifiedOpen → pruned now i = false →
   (∀ rule, rule ∈ flRules fl → notifyRuleMatches rule et = true → rule_told effs et rule id ∨ rule_withheld effs et rule id) ∧
   (flRules fl = [] → ∃ title body ids, Send et title body ids ∈ effs ∧ id ∈ ids)).
Proof.
  intros Hr Ho Hnow Hi Hwt Hd. cbv zeta. pose proof (reachable_ok w Hr) as Hw. pose proof (ro_ok _ _ (wo_recs _ Hw _ _ Hi)) as Hok.
  destruct (wo_store _ Hw) as [Hb _]. destruct (ok_ids _ Hb _ _ Hi) as [Eid _]. fold (wbook w) in *.
  destruct (evaluate_sends w o d fl now Ho Hnow Hw) as (w0 & Hw0 & _ & _ & _ & Hkeep & _ & Hopens & Hrecs).
  set (cover := maintenanceCoverAt now fl (wbook w)) in *. split.
  - intros Hst Hn Hc Hsn. destruct (eval_one_sends_open now cover fl i) as (v & Hv & Hp); [lia|done..|].
    assert (Active i = true) as Ha by (apply Active_state; by left).
    pose proof (ep_sent _ _ _ _ _ Hp) as ((out & Eo & Eout) & _). pose proof (ep_kind _ _ _ _ _ Hp) as Ek.
    destruct (opens_carry (flat_map (fun v => map (fun it => (iKind (vInc v), it)) (vOpens v)) (sweep_evs fl now cover w0 o)) (iKind i) out)
      as (title & body & ids & He & Hin).
    { apply list_elem_of_In, in_flat_map. exists v. split.
      - apply list_elem_of_In. eapply ev_of_candidate; [done|done| | |exact Hv].
        + rewrite Eid. apply Hkeep; [done|]. unfold pruned. by rewrite Ha.
        + unfold is_candidate. by rewrite Ha.
      - rewrite Eo, Ek. by left. }
    exists title, body, ids. split; [by apply Hopens|]. by rewrite <- Eid, <- Eout.
  - intros Hst Hn Hpr. assert (Active i = false) as Ha by (unfold Active; by rewrite Hst).
    destruct (io_resolved _ Hok Ha) as [Hor _]. rewrite (bool_decide_eq_true_2 _ Hn) in Hor.
    destruct (eval_one_sends_recovery now cover fl i) as (v & Hv & Hp); [done..|].
    pose proof (ep_sent _ _ _ _ _ Hp) as (_ & _ & (out & Eo & Eout) & _). pose proof (ep_kind _ _ _ _ _ Hp) as Ek.
    set (et := recovery (kind_of (iKind i))). set (recs := flat_map _ _) in Hrecs.
    assert ((et, out) ∈ recs) as Hin.
    { apply list_elem_of_In, in_flat_map. exists v. split.
      - apply list_elem_of_In. eapply ev_of_candidate; [done|done| | |exact Hv].
        + rewrite Eid. by apply Hkeep.
        + unfold is_candidate. rewrite Hor. by rewrite orb_true_r.
      - rewrite Eo, Ek. by left. }
    assert (et ∈ kinds_of recs) as Hk by (apply kinds_of_elem; eauto).
    assert (out ∈ of_kind et recs) as Hit by (by apply of_kind_elem).
    assert (ogID out = id) as <- by congruence. split.
    + intros rule Hrule Hm. destruct (recoveries_split et fl (of_kind et recs) rule out Hrule Hm Hit) as [HT HW].
      destruct (decide ((ogID out, nrID rule) ∈ missed_rules et fl (of_kind et recs))) as [Hmi|Hmi].
      * right. apply HW in Hmi as (name & title & body & ids & ? & ?). exists name, title, body, ids. split; [done|]. by eapply Hrecs.
      * left. apply HT in Hmi as (title & body & ids & ? & [He|He]); exists title, body, ids; (split; [done|]); [left|right]; by eapply Hrecs.
    + intros Hnr. destruct (messages_carry et (of_kind et recs) out Hit) as (title & body & ids & E & Hid).
      exists title, body, ids. split; [|done]. apply (Hrecs _ et Hk). unfold sendRecoveries.
      destruct (length (of_kind et recs) =? 0)%nat eqn:El.
      { apply Nat.eqb_eq, nil_length_inv in El. rewrite El in Hit. by apply elem_of_nil in Hit. }
      unfold missed_rules. rewrite Hnr. cbn [length Nat.eqb orb]. rewrite E. by left.
Qed.
(** A recovery goes to exactly the rules its opening message reached:
    every rule that takes the event is sent the recovery of an incident when
    the opening was not withdrawn from it, and otherwise gets a withheld row
    in the Sent log and no message. *)
Theorem recovery_follows_opening et fl items rule it :
  rule ∈ flRules fl → notifyRuleMatches rule et = true → it ∈ items →
  let effs := sendRecoveries et fl items in
  (rule_told effs et rule (ogID it) ↔ (ogID it, nrID rule) ∉ missed_rules et fl items) ∧
  (rule_withheld effs et rule (ogID it) ↔ (ogID it, nrID rule) ∈ missed_rules et fl items).
Proof. apply recoveries_split. Qed.
End world.

(** ** Runs *)
#[export] Instance Incident_eq_dec : EqDecision Incident.
Proof. solve_decision. Defined.
#[export] Instance settled_dec s : Decision (settled s).
Proof. apply _. Defined.

Module StoryDemo.
Import IncidentDemo.
#[local] Instance demo_text : IncidentText := {| stamp := fun _ => "2026-01-01T00:00:00Z" |}.
#[local] Instance demo_quote : Quote := {| quote := fun s => s |}.

Definition fresh_b (id : string) (w : world) : bool :=
  match incidents (wbook w) !! id with None => true | Some _ => false end && forallb (fun e => negb (about e.2 =?? id)) (wLog w).
Definition at_ (c : time * wop) : wcall := mkWCall ranged up c.1 c.2.
Fixpoint run_ok (w : world) (cs : list (time * wop)) : bool :=
  match cs with
  | [] => true
  | c :: cs =>
    (0 <? c.1) && match c.2 with
      | WOpen id _ _ => fresh_b id w | WAdopt _ => false
      | WRestart => bool_decide (settled (swStore (wSweep w))) | _ => true
      end && run_ok (wstep w (at_ c)) cs
  end.
Lemma run_reachable w cs : reachable w → run_ok w cs = true → reachable (foldl (fun w c => wstep w (at_ c)) w cs).
Proof.
  revert w. induction cs as [|[now op] cs IH]; intros w Hw; [done|]. cbn [run_ok foldl fst snd].
  intros [[Hn Hop]%andb_true_iff Hr]%andb_true_iff. apply IH; [|done]. apply reach_step; [done|].
  split; [apply ranged_valid|]. split; [by apply Z.ltb_lt|]. cbn. destruct op; try done.
  2: { split; [|done]. by apply bool_decide_eq_true in Hop. }
  unfold fresh_b in Hop. apply andb_true_iff in Hop as [H1 H2]. split; [by destruct (incidents (wbook w) !! newID)|].
  intros e He. rewrite forallb_forall in H2. apply list_elem_of_In, H2, negb_true_iff in He. by apply bool_decide_eq_false in He.
Qed.
Definition boot : world := mkWorld (mkSweep (mkIStore empty_book true (Some (mkHot ∅ ∅))) 0) [].
Lemma boot_reachable : reachable boot.
Proof. apply reach_boot; [|by right|done]. split; [|done]. apply book_ok_indexes, empty_indexes. Qed.

Definition sig : incidentSignal := mkSignal EventNodeOffline "n1" "" "edge-1" 1 (mkMsg "offline" "edge-1 is offline" "edge-1").
Definition back : incidentMessage := mkMsg "online" "edge-1 is back" "edge-1".
Definition key : string := incidentKey EventNodeOffline "n1" "".
Definition rule : NotifyRule := mkNotifyRule "r1" "phone" [].
Definition fl : fleet := mkFleet [mkNode "n1" [] "" None] [] ∅ [rule] ∅ [].
Definition m_ (n : Z) : time := n * minute.
Definition opening : list (time * wop) := [(m_ 100, WOpen "inc_1" sig [])].
Definition story_run : list (time * wop) :=
  opening ++ [(m_ 101, WSweep fl); (m_ 140, WSweep fl); (m_ 145, WRestart); (m_ 150, WResolve key back); (m_ 151, WSweep fl)].
Definition flap_run : list (time * wop) :=
  opening ++ [(m_ 101, WSweep fl); (m_ 102, WResolve key back); (m_ 103, WOpen "inc_2" sig []); (m_ 104, WResolve key back);
    (m_ 105, WOpen "inc_3" sig []); (m_ 106, WResolve key back); (m_ 107, WOpen "inc_4" sig []); (m_ 108, WResolve key back)].
Definition w_open : world := foldl (fun w c => wstep w (at_ c)) boot opening.
Definition w_story : world := foldl (fun w c => wstep w (at_ c)) boot story_run.
Definition w_flap : world := foldl (fun w c => wstep w (at_ c)) boot flap_run.
Definition flapping : Incident := Eval vm_compute in default zero_incident (incidents (wbook w_flap) !! "inc_1").
Definition opened_one : Incident := Eval vm_compute in default zero_incident (incidents (wbook w_open) !! "inc_1").
Lemma story_reachable : reachable w_story.
Proof. apply run_reachable; [apply boot_reachable|vm_compute; reflexivity]. Qed.
Lemma flap_reachable : reachable w_flap.
Proof. apply run_reachable; [apply boot_reachable|vm_compute; reflexivity]. Qed.
Lemma open_reachable : reachable w_open.
Proof. apply run_reachable; [apply boot_reachable|vm_compute; reflexivity]. Qed.

Lemma recovery_answers_open_witness :
  wLog w_story = [(m_ 101, MOpen "inc_1"); (m_ 140, MEscalate "inc_1" "r1"); (m_ 151, MRecovery "inc_1")] ∧
  last (story "inc_1" [(m_ 101, MOpen "inc_1"); (m_ 140, MEscalate "inc_1" "r1")]) = Some true.
Proof.
  split; [vm_compute; reflexivity|].
  apply (recovery_answers_open w_story "inc_1" _ (m_ 151) [] story_reachable). vm_compute. reflexivity.
Defined.
Lemma escalated_once_witness :
  (m_ 140, MEscalate "inc_1" "r1") ∈ wLog w_story ∧
  wLog w_story ≠ [] ++ (m_ 140, MEscalate "inc_1" "r1") :: [] ++ (m_ 151, MEscalate "inc_1" "r1") :: [].
Proof.
  split.
  - assert (wLog w_story = [(m_ 101, MOpen "inc_1"); (m_ 140, MEscalate "inc_1" "r1"); (m_ 151, MRecovery "inc_1")]) as ->
      by (vm_compute; reflexivity). right. left.
  - apply (escalated_once w_story "inc_1" "r1" [] (m_ 140) [] (m_ 151) [] story_reachable).
Defined.
Lemma flapping_messages_spaced_witness :
  MRecovery "inc_1" ∈ sweep_msgs (evaluateIncidents ranged up fl (m_ 170) (wSweep w_flap)) ∧
  incidentDampEvery <= time_sub (m_ 170) (m_ 101).
Proof.
  assert (MRecovery "inc_1" ∈ sweep_msgs (evaluateIncidents ranged up fl (m_ 170) (wSweep w_flap))) as Hm.
  { assert (sweep_msgs (evaluateIncidents ranged up fl (m_ 170) (wSweep w_flap)) = [MRecovery "inc_1"]) as ->
      by (vm_compute; reflexivity). left. }
  split; [exact Hm|].
  apply (flapping_messages_spaced w_flap ranged up fl (m_ 170) flapping (m_ 101) (MOpen "inc_1") (MRecovery "inc_1"));
    [apply flap_reachable|apply ranged_valid|reflexivity|vm_compute; reflexivity|reflexivity|vm_compute; reflexivity|exact Hm|reflexivity].
Defined.
Lemma owed_messages_are_sent_witness :
  ∃ title body ids, Send (iKind opened_one) title body ids ∈ srEffects (evaluateIncidents ranged up fl (m_ 101) (wSweep w_open)) ∧
    "inc_1" ∈ ids.
Proof.
  refine (proj1 (owed_messages_are_sent w_open ranged up fl (m_ 101) "inc_1" opened_one _ _ _ _ _ _) _ _ _ _);
    [apply open_reachable|apply ranged_valid|reflexivity|vm_compute; reflexivity|vm_compute; reflexivity|reflexivity|
     reflexivity|discriminate|vm_compute; reflexivity|apply Z.leb_le; reflexivity].
Defined.
Definition out : incidentOutgoing := mkOutgoing "inc_1" "edge-1" back ["r1"].
Lemma recovery_follows_opening_witness :
  rule_withheld (sendRecoveries EventNodeOnline fl [out]) EventNodeOnline rule "inc_1" ∧
  ¬ rule_told (sendRecoveries EventNodeOnline fl [out]) EventNodeOnline rule "inc_1".
Proof.
  destruct (recovery_follows_opening EventNodeOnline fl [out] rule out) as [HT HW]; [left|reflexivity|left|].
  assert ((ogID out, nrID rule) ∈ missed_rules EventNodeOnline fl [out]) as Hm.
  { assert (missed_rules EventNodeOnline fl [out] = [("inc_1", "r1")]) as -> by (vm_compute; reflexivity). left. }
  split; [apply HW; exact Hm|]. intros Ht. apply HT in Ht. apply Ht. exact Hm.
Defined.
End StoryDemo.
