(* ===== verification/PathDegraded.v ===== *)
(** * Degraded paths (internal/server/monitor_degraded.go, internal/store/monitor_degraded.go)

    Once a minute the evaluator judges every monitored path and moves its
    record: found once is pending (memory only), found often enough in a row is
    degraded (stored), absent while degraded starts clearing, found again stops
    it, and absent for long enough leaves.  A transition the store does not
    take is not made in memory either.  A degraded record may open an
    incident, which is closed when the record leaves or is dropped; of the
    incidents the model keeps which are open in memory and which are stored
    open, since a refused incident write changes memory and not the disk.

    What an evaluation reads (the paths with their states, the windows and
    baselines its judgement compares) and what the disk answers are arguments;
    the judgement itself, on floating point medians and losses, is one of
    them.  The thresholds of the state machine are the SDK's. *)

From Stdlib Require Import ZArith Lia Ascii.
From stdpp Require Import gmap strings.
From S2P Require Import Prelude GoStr.

Local Open Scope Z_scope.

Class PathSdk := {
  PathDegradedEnterAfter : Z;
  PathDegradedLeaveAfter : duration;
  MonitorTypeTLS : string;
  PathStateUp : string; PathStateUnknown : string;
  MonitorAlertDownAndDegraded : string;
  (** The evidence of an arm of the judgement. *)
  LossEvidence : Type; LatencyEvidence : Type;
}.
(** Both thresholds are positive, and the first is a Go int. *)
Class PathSdkLaws `{PathSdk} := {
  enter_positive : 1 <= PathDegradedEnterAfter;
  enter_width : PathDegradedEnterAfter <= int64_max;
  leave_positive : 0 < PathDegradedLeaveAfter;
}.

(** ** Records and entries *)

Record MonitorPair := mkPair { pMonitorID : string; pNodeID : string }.
#[export] Instance MonitorPair_eq_dec : EqDecision MonitorPair.
Proof. solve_decision. Defined.
#[export] Instance MonitorPair_countable : Countable MonitorPair.
Proof.
  apply (inj_countable' (fun p => (pMonitorID p, pNodeID p)) (fun '(m, n) => mkPair m n)). by intros [].
Defined.

Section records.
Context `{PathSdk}.

Record PathDegradedRecord := mkRecord {
  Since : time; EnteredAt : time; ClearSince : time; Quiet : bool; Reason : string; EvaluatedAt : time;
  Loss : option LossEvidence; Latency : option LatencyEvidence }.
Definition Clearing (r : PathDegradedRecord) : bool := negb (is_zero (ClearSince r)).
Record pathDegradedEntry := mkEntry {
  pending : bool; found : Z; rec : PathDegradedRecord; wouldOpen : bool; subject : string }.
Inductive pathDegradedStep := stepNone | stepEnter | stepStartClearing | stepStopClearing | stepLeave.

(** What the judgement of one pair found, and the state of its path. *)
Record verdict := mkVerdict {
  vFound : bool; vReason : string; vLoss : option LossEvidence; vLatency : option LatencyEvidence; vQuiet : bool }.

Definition evidence (v : verdict) (now : time) (r : PathDegradedRecord) : PathDegradedRecord :=
  mkRecord (Since r) (EnteredAt r) (ClearSince r) (Quiet r) (vReason v) now (vLoss v) (vLatency v).
Definition entered (v : verdict) (now : time) (r : PathDegradedRecord) : PathDegradedRecord :=
  mkRecord (Since r) now (ClearSince r) (vQuiet v) (Reason r) (EvaluatedAt r) (Loss r) (Latency r).
Definition with_clear (t : time) (r : PathDegradedRecord) : PathDegradedRecord :=
  mkRecord (Since r) (EnteredAt r) t (Quiet r) (Reason r) (EvaluatedAt r) (Loss r) (Latency r).
Definition zero_record (since : time) : PathDegradedRecord := mkRecord since zero_time zero_time false "" zero_time None None.

Definition stepPathDegraded (e : option pathDegradedEntry) (v : verdict) (now : time)
  : option pathDegradedEntry * pathDegradedStep :=
  match e with
  | None =>
    if negb (vFound v) then (None, stepNone) else
    let r := evidence v now (zero_record now) in
    if 1 <? PathDegradedEnterAfter then (Some (mkEntry true 1 r false ""), stepNone)
    else (Some (mkEntry false 1 (entered v now r) false ""), stepEnter)
  | Some e =>
    if pending e then
      if negb (vFound v) then (None, stepNone) else
      let n := wrap64 (found e + 1) in
      let r := evidence v now (rec e) in
      if n <? PathDegradedEnterAfter then (Some (mkEntry true n r (wouldOpen e) (subject e)), stepNone)
      else (Some (mkEntry false n (entered v now r) false (subject e)), stepEnter)
    else if negb (Clearing (rec e)) then
      if vFound v then (Some (mkEntry false (found e) (evidence v now (rec e)) (wouldOpen e) (subject e)), stepNone)
      else (Some (mkEntry false (found e) (with_clear now (rec e)) (wouldOpen e) (subject e)), stepStartClearing)
    else if vFound v then
      (Some (mkEntry false (found e) (evidence v now (with_clear zero_time (rec e))) (wouldOpen e) (subject e)), stepStopClearing)
    else if PathDegradedLeaveAfter <=? time_sub now (ClearSince (rec e)) then (None, stepLeave)
    else (Some e, stepNone)
  end.

(** ** The store's records *)

(** The path.degraded incidents, as far as open and resolved go (the records
    in full are those of Incidents.v and IncidentEval.v).  A row is
    its pair and its id: [openRows] are the rows memory holds open, [active]
    is the index by key that [ActiveIncident] reads, and [storedOpen] are the
    rows the hot store holds open.  A put changes memory even when the disk
    refuses it ([PutIncidents]); a delete does not. *)
Definition incidentRow : Type := MonitorPair * string.
Record openBook := mkBook {
  active : gmap MonitorPair string; openRows : gset incidentRow; storedOpen : gset incidentRow }.
Definition empty_book : openBook := mkBook ∅ ∅ ∅.
Definition putOpen (ok : bool) (row : incidentRow) (b : openBook) : openBook :=
  mkBook (<[row.1 := row.2]> (active b)) ({[row]} ∪ openRows b) (if ok then {[row]} ∪ storedOpen b else storedOpen b).
Definition putResolved (ok : bool) (row : incidentRow) (b : openBook) : openBook :=
  mkBook (if bool_decide (active b !! row.1 = Some row.2) then delete row.1 (active b) else active b) (openRows b ∖ {[row]}) (if ok then storedOpen b ∖ {[row]} else storedOpen b).
(** [openIncident] and [resolveIncident]: an open on a key already open, and a
    resolve with none open, change nothing. *)
Definition openIncident (ok : bool) (id : string) (pr : MonitorPair) (b : openBook) : openBook :=
  match active b !! pr with Some _ => b | None => putOpen ok (pr, id) b end.
Definition resolveIncident (ok : bool) (pr : MonitorPair) (b : openBook) : openBook :=
  match active b !! pr with Some id => putResolved ok (pr, id) b | None => b end.
Definition deleteIncidents (ok : bool) (keep : MonitorPair → Prop) `{∀ p, Decision (keep p)} (b : openBook) : openBook :=
  if ok then mkBook (filter (fun kv => keep kv.1) (active b)) (filter (fun r => keep r.1) (openRows b))
                    (filter (fun r => keep r.1) (storedOpen b))
  else b.
(** What a sweep of the incidents writes back: [rows], of which it closes
    those in [closed]; a batch with an open row whose key another row has is
    refused before anything changes. *)
Definition sweepPut (ok : bool) (rows : list incidentRow) (closed : gset incidentRow) (b : openBook) : openBook :=
  let stays r := bool_decide (r ∈ openRows b) && negb (bool_decide (r ∈ closed)) in
  if existsb (fun r => stays r && bool_decide (is_Some (active b !! r.1)) && negb (bool_decide (active b !! r.1 = Some r.2))) rows
  then b
  else fold_left (fun b r => if stays r then putOpen ok r b else putResolved ok r b) rows b.
(** A start reads the stored rows and indexes them in the order a map is
    ranged over. *)
Definition loadIncidents (order : list incidentRow → list incidentRow) (b : openBook) : openBook :=
  mkBook (list_to_map (order (elements (storedOpen b)))) (storedOpen b) (storedOpen b).

(** [sHot]: records and incidents are in the hot store and survive a restart. *)
Record pathStore := mkPathStore {
  records : gmap MonitorPair PathDegradedRecord; sMonitors : gset string; sNodes : gset string; sHot : bool;
  incidents : openBook }.
Definition with_records (m : gmap MonitorPair PathDegradedRecord) (s : pathStore) : pathStore :=
  mkPathStore m (sMonitors s) (sNodes s) (sHot s) (incidents s).
Definition with_incidents (b : openBook) (s : pathStore) : pathStore :=
  mkPathStore (records s) (sMonitors s) (sNodes s) (sHot s) b.
(** Without the hot store there is nothing to refuse a write. *)
Definition taken (ok : bool) (s : pathStore) : bool := ok || negb (sHot s).
Definition ids_invalid (s : string) : bool := mem "/"%char (bytes_of s) || mem Ascii.zero (bytes_of s).
Definition validMonitorPair (pair : MonitorPair) : bool :=
  negb ((pMonitorID pair =?? "") || ids_invalid (pMonitorID pair) || ids_invalid (pNodeID pair)).
Definition monitorPairExistsLocked (s : pathStore) (pair : MonitorPair) : bool :=
  bool_decide (pMonitorID pair ∈ sMonitors s) && ((pNodeID pair =?? "") || bool_decide (pNodeID pair ∈ sNodes s)).

(** The deletes of a monitor and of a node, as far as records and incidents
    go, with what the disk answers: whether the hot store takes the delete of
    the history, whether the state is committed, whether the incidents go. *)
Inductive storeDelete :=
| DelMonitor (id : string) (hotOk committed incidentsOk : bool)
| DelNode (id : string) (hotOk committed incidentsOk : bool).
Definition keep_pairs (keep : MonitorPair → Prop) `{∀ p, Decision (keep p)} (m : gmap MonitorPair PathDegradedRecord) :=
  filter (fun kv => keep kv.1) m.
Definition DeleteMonitor (id : string) (hotOk committed incidentsOk : bool) (s : pathStore) : pathStore :=
  if negb (bool_decide (id ∈ sMonitors s)) then s else
  if sHot s && negb hotOk then s else
  mkPathStore (keep_pairs (fun p => pMonitorID p ≠ id) (records s)) (sMonitors s ∖ {[id]}) (sNodes s) (sHot s)
    (deleteIncidents (committed && taken incidentsOk s) (fun p => pMonitorID p ≠ id) (incidents s)).
Definition DeleteNode (id : string) (hotOk committed incidentsOk : bool) (s : pathStore) : pathStore :=
  if negb (bool_decide (id ∈ sNodes s)) then s else
  if sHot s && negb hotOk then s else
  let s := if sHot s then with_records (keep_pairs (fun p => pNodeID p ≠ id) (records s)) s else s in
  if negb committed then s else
  mkPathStore (keep_pairs (fun p => pNodeID p ≠ id) (records s)) (sMonitors s) (sNodes s ∖ {[id]}) (sHot s)
    (deleteIncidents (taken incidentsOk s) (fun p => pNodeID p ≠ id) (incidents s)).
Definition run_delete (s : pathStore) (d : storeDelete) : pathStore :=
  match d with
  | DelMonitor id h c i => DeleteMonitor id h c i s
  | DelNode id h c i => DeleteNode id h c i s
  end.
Definition run_deletes : list storeDelete → pathStore → pathStore := fun ds s => fold_left run_delete ds s.

(** What happens while a record is written: the deletes that run between the
    first look and the write and between the write and the second look,
    whether the disk takes the write, and the removal that may follow. *)
Record diskAnswer := mkAnswer {
  daBefore : list storeDelete; daWrite : bool; daAfter : list storeDelete; daUndo : bool }.
Definition PutPathDegradedRecord (d : diskAnswer) (pair : MonitorPair) (r : PathDegradedRecord) (s : pathStore)
  : pathStore * bool :=
  if negb (validMonitorPair pair) then (s, false) else
  if negb (monitorPairExistsLocked s pair) then (s, true) else
  if negb (sHot s) then (with_records (<[pair := r]> (records s)) s, true) else
  let s := run_deletes (daBefore d) s in
  if negb (daWrite d) then (s, false) else
  let s := run_deletes (daAfter d) (with_records (<[pair := r]> (records s)) s) in
  if monitorPairExistsLocked s pair then (s, true)
  else if daUndo d then (with_records (delete pair (records s)) s, true)
  else (s, false).
Definition DeletePathDegradedRecord (d : diskAnswer) (pair : MonitorPair) (s : pathStore) : pathStore * bool :=
  if sHot s && negb (daWrite d) then (s, false) else (with_records (delete pair (records s)) s, true).

Definition writePathDegradedStep (d : diskAnswer) (pair : MonitorPair) (step : pathDegradedStep)
    (next : option pathDegradedEntry) (s : pathStore) : pathStore * bool :=
  match step, next with
  | stepLeave, _ => DeletePathDegradedRecord d pair s
  | stepNone, _ => (s, true)
  | _, Some e => PutPathDegradedRecord d pair (rec e) s
  | _, None => (s, true)
  end.

(** ** One evaluation *)

Record checkPolicy := mkCheckPolicy { alert : string; after : Z }.
Definition pagesDegraded (p : checkPolicy) : bool := alert p =?? MonitorAlertDownAndDegraded.
(** A path as the evaluation sees it; [peState] and [peWhy] are the path's
    state before degradation, [peSubject] how it reads in a message. *)
Record monitorInfo := mkMonitor { mType : string; mEnabled : bool; mPolicy : checkPolicy }.
Record pathEntry := mkPath {
  peMonitorID : string; peSource : string; hasCheck : bool; monitor : option monitorInfo; paused : bool;
  notProbeable : bool; gate : string; peState : string; peWhy : string; peSubject : string }.
Definition pair_of (e : pathEntry) : MonitorPair := mkPair (peMonitorID e) (peSource e).
Definition pathDegradedEligible (e : pathEntry) : bool :=
  hasCheck e && match monitor e with Some mon => negb (mType mon =?? MonitorTypeTLS) && mEnabled mon | None => false end &&
  negb (peSource e =?? "") && negb (paused e) && (gate e =?? "") && negb (notProbeable e).

(** The eligible paths, the first of each pair. *)
Definition judgedPaths (entries : list pathEntry) : list pathEntry :=
  (fix go seen l := match l with
   | [] => []
   | e :: l => if pathDegradedEligible e && negb (mem (pair_of e) seen) then e :: go (pair_of e :: seen) l else go seen l
   end) [] entries.

Inductive signal :=
| SigOpen (pair : MonitorPair) (subject : string) (since : time)
| SigResolve (pair : MonitorPair)
| SigDropped (pair : MonitorPair) (reason : string).

(** [evDuring]: the deletes that run before a pair is judged; [evIncident]:
    whether the disk takes the incident the pair's signal writes, and the row
    an open writes (the key's last one within the flap window, or a new one). *)
Record evalInput := mkEval {
  evNow : time; evPaths : list pathEntry; evReadsOk : bool;
  evJudge : MonitorPair → bool * string * option LossEvidence * option LatencyEvidence;
  evDuring : MonitorPair → list storeDelete; evDisk : MonitorPair → diskAnswer; evIncident : MonitorPair → bool * string }.
Record evaluator := mkEvaluator { entries : gmap MonitorPair pathDegradedEntry; store : pathStore }.

(** A write the disk refuses is logged; memory has changed. *)
Definition signal_incident (i : evalInput) (s : pathStore) (sg : signal) : pathStore :=
  with_incidents (match sg with
    | SigOpen pr _ _ => openIncident (taken (evIncident i pr).1 s) (evIncident i pr).2 pr (incidents s)
    | SigResolve pr | SigDropped pr _ => resolveIncident (taken (evIncident i pr).1 s) pr (incidents s)
    end) s.

Definition dropReason (paths : list pathEntry) (pair : MonitorPair) : string :=
  match List.find (fun e => negb (pathDegradedEligible e) && hasCheck e && (pair_of e =?? pair)) paths with
  | Some ue => if (peState ue =?? PathStateUnknown) && negb (peWhy ue =?? "")
               then "it reads unknown (" +:+ peWhy ue +:+ ")" else "it is no longer measured"
  | None => "it is no longer measured"
  end.
Definition dropEntry (i : evalInput) (judged : list MonitorPair) (ev : evaluator) (pr : MonitorPair) : evaluator :=
  match entries ev !! pr with
  | None => ev
  | Some e =>
    if mem pr judged then ev else
    if pending e then mkEvaluator (delete pr (entries ev)) (store ev) else
    match DeletePathDegradedRecord (evDisk i pr) pr (store ev) with
    | (_, false) => ev
    | (s, true) =>
      mkEvaluator (delete pr (entries ev)) (signal_incident i s (SigDropped pr (dropReason (evPaths i) pr)))
    end
  end.

(** The signal of a judged pair after its step. *)
Definition judged_signal (p : pathEntry) (step : pathDegradedStep) (next : option pathDegradedEntry) : option signal :=
  let up := peState p =?? PathStateUp in
  let pages := match monitor p with Some mon => pagesDegraded (mPolicy mon) | None => false end in
  match step, next with
  | stepLeave, _ => Some (SigResolve (pair_of p))
  | _, Some e => if negb (pending e) && negb (Clearing (rec e)) && negb (Quiet (rec e)) && pages && up
                 then Some (SigOpen (pair_of p) (peSubject p) (Since (rec e))) else None
  | _, None => None
  end.
Definition mark_pending (p : pathEntry) (e : pathDegradedEntry) : pathDegradedEntry :=
  let up := peState p =?? PathStateUp in
  let pages := match monitor p with Some mon => pagesDegraded (mPolicy mon) | None => false end in
  if pending e then mkEntry true (found e) (rec e) (pages && up) (peSubject p) else e.
Definition judgeEntry (i : evalInput) (ev : evaluator) (p : pathEntry) : evaluator :=
  let pair := pair_of p in
  let s := run_deletes (evDuring i pair) (store ev) in
  let '(fnd, reason, loss, latency) := evJudge i pair in
  let prior := entries ev !! pair in
  let '(next, step) := stepPathDegraded prior (mkVerdict fnd reason loss latency (negb (peState p =?? PathStateUp))) (evNow i) in
  let '(s, ok) := writePathDegradedStep (evDisk i pair) pair step next s in
  let next := if ok then next else prior in
  let step := if ok then step else stepNone in
  let m := match next with None => delete pair (entries ev) | Some e => <[pair := mark_pending p e]> (entries ev) end in
  mkEvaluator m (match judged_signal p step next with Some sg => signal_incident i s sg | None => s end).

Definition evaluatePathDegraded (i : evalInput) (ev : evaluator) : evaluator :=
  if negb (evReadsOk i) then ev else
  let judged := judgedPaths (evPaths i) in
  fold_left (judgeEntry i) judged (fold_left (dropEntry i (pair_of <$> judged)) (map_to_list (entries ev)).*1 ev).

(** A start reads records and incidents back; without the hot store there are
    none. *)
Definition loadPathDegraded (order : list incidentRow → list incidentRow) (s : pathStore) : evaluator :=
  let s := if sHot s then with_incidents (loadIncidents order (incidents s)) s
           else with_incidents empty_book (with_records ∅ s) in
  mkEvaluator ((fun r => mkEntry false 0 r false "") <$> records s) s.

(** What happens to the evaluator and the store: evaluations, starts, deletes,
    sweeps of the incidents, and monitors and nodes that are added.  A sweep
    deletes the incidents of pairs that are gone, then writes. *)
Inductive event :=
| Evaluate (i : evalInput) | Restart (order : list incidentRow → list incidentRow) | Remove (d : storeDelete)
| Sweep (goneOk ok : bool) (rows : list incidentRow) (closed : gset incidentRow) | AddMonitor (id : string) | AddNode (id : string).
Definition evaluateIncidents (goneOk ok : bool) (rows : list incidentRow) (closed : gset incidentRow) (s : pathStore) : pathStore :=
  with_incidents (sweepPut (taken ok s) rows closed
    (deleteIncidents (taken goneOk s) (fun p => monitorPairExistsLocked s p = true) (incidents s))) s.
Definition on_event (ev : evaluator) (x : event) : evaluator :=
  match x with
  | Evaluate i => evaluatePathDegraded i ev
  | Restart order => loadPathDegraded order (store ev)
  | Remove d => mkEvaluator (entries ev) (run_delete (store ev) d)
  | Sweep goneOk ok rows closed => mkEvaluator (entries ev) (evaluateIncidents goneOk ok rows closed (store ev))
  | AddMonitor id => let s := store ev in
      mkEvaluator (entries ev) (mkPathStore (records s) ({[id]} ∪ sMonitors s) (sNodes s) (sHot s) (incidents s))
  | AddNode id => let s := store ev in
      mkEvaluator (entries ev) (mkPathStore (records s) (sMonitors s) ({[id]} ∪ sNodes s) (sHot s) (incidents s))
  end.
End records.

(** ** The state machine and the history it stands for *)

Section history.
Context `{PathSdkLaws}.

(** The judgements of one pair in the order they were made. *)
Definition sample : Type := verdict * time.
Definition seen (x : sample) : bool := vFound x.1.
Definition after_history (hist : list sample) : option pathDegradedEntry :=
  fold_left (fun e x => (stepPathDegraded e x.1 x.2).1) hist None.

(** The list is empty or ends in a sample with [seen x = b]. *)
Definition ends (b : bool) (l : list sample) : Prop := l = [] ∨ ∃ l' x, l = l' ++ [x] ∧ seen x = b.
(** No spell of absence in [l], counted from its first sample, lasted long
    enough to leave. *)
Definition no_long_absence (l : list sample) : Prop :=
  ∀ a x spell y b, l = a ++ x :: spell ++ b → ends true a → Forall (fun z => seen z = false) (x :: spell) →
    last (x :: spell) = Some y → time_sub y.2 x.2 < PathDegradedLeaveAfter.
(** At some point the condition was found often enough in a row, and it was
    not absent for long enough since. *)
Definition degraded_by (hist : list sample) : Prop :=
  ∃ before run since, hist = before ++ run ++ since ∧ Z.of_nat (length run) = PathDegradedEnterAfter ∧
    Forall (fun z => seen z = true) run ∧ no_long_absence since.

Lemma time_sub_diag t : time_sub t t = 0.
Proof. unfold time_sub, int64_min, int64_max. lia. Qed.
Lemma last_snoc_eq {A} (l : list A) x y : last (l ++ [x]) = Some y → y = x.
Proof. rewrite last_snoc. congruence. Qed.
Lemma snoc_cases {A} (l : list A) : l = [] ∨ ∃ l' x, l = l' ++ [x].
Proof. destruct l as [|x l] using rev_ind; eauto. Qed.

Lemma absence_mono l x : no_long_absence (l ++ [x]) → no_long_absence l.
Proof.
  intros Hn a y spell z b -> Ha Hs Hz. eapply (Hn a y spell z (b ++ [x])); try done.
  by rewrite <- app_assoc, <- app_comm_cons, <- app_assoc.
Qed.
Lemma absence_found l x : seen x = true → no_long_absence l → no_long_absence (l ++ [x]).
Proof.
  intros Hx Hn a y spell z b E Ha Hs Hz. destruct (snoc_cases b) as [->|(b' & w & ->)].
  - exfalso. rewrite app_nil_r in E. destruct (snoc_cases spell) as [->|(s' & w & ->)].
    + apply app_inj_tail in E as [_ <-]. apply Forall_cons in Hs as [Hy _]. congruence.
    + rewrite app_comm_cons, app_assoc in E. apply app_inj_tail in E as [_ <-].
      rewrite Forall_cons, Forall_app, Forall_singleton in Hs. destruct Hs as (_ & _ & Hw). congruence.
  - rewrite !app_comm_cons, !app_assoc in E. apply app_inj_tail in E as [-> <-].
    eapply (Hn a y spell z b'); try done. by rewrite <- app_assoc.
Qed.

Definition run_ends (l : list sample) : Prop :=
  ∃ p run, l = p ++ run ∧ Z.of_nat (length run) = PathDegradedEnterAfter ∧ Forall (fun z => seen z = true) run.
Lemma degraded_found h x : seen x = true → degraded_by (h ++ [x]) ↔ degraded_by h ∨ run_ends (h ++ [x]).
Proof.
  intros Hx. split.
  - intros (p & run & s & E & Hl & Hr & Hn). destruct (snoc_cases s) as [->|(s' & w & ->)].
    + right. exists p, run. by rewrite app_nil_r in E.
    + left. rewrite !app_assoc in E. apply app_inj_tail in E as [-> <-]. exists p, run, s'.
      rewrite <- app_assoc. split_and!; try done. by eapply absence_mono.
  - intros [(p & run & s & -> & Hl & Hr & Hn)|(p & run & E & Hl & Hr)].
    + exists p, run, (s ++ [x]). rewrite !app_assoc. split_and!; try done. by apply absence_found.
    + exists p, run, []. rewrite app_nil_r. split_and!; try done. intros a y spell z b E'. by destruct a.
Qed.

(** Where a prefix ends in a found sample, an absent tail starts there. *)
Lemma absent_inner c k t : ends true (c ++ k) → Forall (fun z => seen z = false) (k ++ t) → k = [].
Proof.
  intros He Hf. destruct (snoc_cases k) as [->|(k' & w & ->)]; [done|]. exfalso.
  apply Forall_app in Hf as [Hf _]. apply Forall_app in Hf as [_ Hw]. rewrite Forall_singleton in Hw.
  destruct He as [He|(l & v & He & Hv)]; [by destruct c, k'|].
  rewrite app_assoc in He. apply app_inj_tail in He as [_ ->]. congruence.
Qed.
Lemma absent_tail_unique a t c u : a ++ t = c ++ u → ends true a → ends true c →
  Forall (fun z => seen z = false) t → Forall (fun z => seen z = false) u → t = u.
Proof.
  intros E Ha Hc Ht Hu. apply app_eq_inv in E as [(k & -> & ->)|(k & -> & ->)].
  - by rewrite (absent_inner _ _ _ Ha Hu).
  - by rewrite (absent_inner _ _ _ Hc Ht).
Qed.
Lemma ends_suffix b a k : ends b (a ++ k) → ends b k.
Proof.
  intros He. destruct (snoc_cases k) as [->|(k' & w & ->)]; [by left|]. right. exists k', w. split; [done|].
  destruct He as [He|(l & v & He & Hv)]; [by destruct a, k'|].
  rewrite app_assoc in He. by apply app_inj_tail in He as [_ ->].
Qed.
(** The run that entered ends in a found sample, so an absent tail lies
    after it. *)
Lemma since_tail p run s q t : p ++ run ++ s = q ++ t → run ≠ [] → Forall (fun z => seen z = true) run →
  Forall (fun z => seen z = false) t → ends true q → ∃ a, s = a ++ t ∧ ends true a.
Proof.
  intros E Hne Hr Ht Hq. assert (ends true (p ++ run)) as Hp.
  { destruct (snoc_cases run) as [->|(r' & v & ->)]; [done|]. right. exists (p ++ r'), v. rewrite <- app_assoc.
    split; [done|]. apply Forall_app in Hr as [_ Hv]. by rewrite Forall_singleton in Hv. }
  rewrite app_assoc in E. apply app_eq_inv in E as [(k & Ek & ->)|(k & -> & ->)].
  - rewrite Ek in Hp. rewrite (absent_inner _ _ _ Hp Ht). exists []. split; [done|by left].
  - exists k. split; [done|]. by eapply ends_suffix.
Qed.
Lemma run_nonempty (run : list sample) : Z.of_nat (length run) = PathDegradedEnterAfter → run ≠ [].
Proof. intros Hl ->. pose proof enter_positive. cbn in Hl. lia. Qed.

(** An absent sample [x] after the absent spell [t]. *)
Definition spell_time (t : list sample) (x : sample) : time := match t with [] => x.2 | f :: _ => f.2 end.
Lemma absence_absent a t x : seen x = false → Forall (fun z => seen z = false) t → ends true a →
  no_long_absence (a ++ t ++ [x]) ↔
  no_long_absence (a ++ t) ∧ time_sub x.2 (spell_time t x) < PathDegradedLeaveAfter.
Proof.
  intros Hx Ht Ha. assert (Forall (fun z => seen z = false) (t ++ [x])) as Htx
    by (by rewrite Forall_app, Forall_singleton).
  assert (∃ f spell, t ++ [x] = f :: spell ∧ f.2 = spell_time t x) as (f & spell & Hsp & <-)
    by (destruct t; simplify_eq/=; eauto).
  assert (last (f :: spell) = Some x) as Hlast by (by rewrite <- Hsp, last_snoc). split.
  - intros Hn. split; [rewrite app_assoc in Hn; by eapply absence_mono|].
    eapply (Hn a f spell x []); try done; [by rewrite app_nil_r, Hsp|by rewrite <- Hsp].
  - intros [Hn Hlt] c y sp z b E Hc Hs Hz. destruct (snoc_cases b) as [->|(b' & w & ->)].
    + rewrite app_nil_r in E. pose proof (absent_tail_unique _ _ _ _ E Ha Hc Htx Hs) as E2.
      rewrite <- E2, last_snoc in Hz. rewrite Hsp in E2. by simplify_eq.
    + rewrite app_assoc, !app_comm_cons, !app_assoc in E. apply app_inj_tail in E as [E <-].
      eapply (Hn c y sp z b'); try done. by rewrite E, <- app_assoc.
Qed.
Lemma degraded_absent_mono h x : seen x = false → degraded_by (h ++ [x]) → degraded_by h.
Proof.
  intros Hx (p & run & s & E & Hl & Hr & Hn). destruct (snoc_cases s) as [->|(s' & w & ->)].
  - exfalso. rewrite app_nil_r in E. pose proof (run_nonempty run Hl).
    destruct (snoc_cases run) as [->|(r' & v & ->)]; [done|].
    rewrite app_assoc in E. apply app_inj_tail in E as [_ <-].
    apply Forall_app in Hr as [_ Hv]. rewrite Forall_singleton in Hv. congruence.
  - rewrite !app_assoc in E. apply app_inj_tail in E as [-> <-]. exists p, run, s'.
    rewrite <- app_assoc. split_and!; try done. by eapply absence_mono.
Qed.
Lemma degraded_absent q t x : seen x = false → Forall (fun z => seen z = false) t → ends true q →
  degraded_by (q ++ t ++ [x]) → time_sub x.2 (spell_time t x) < PathDegradedLeaveAfter.
Proof.
  intros Hx Ht Hq (p & run & s & E & Hl & Hr & Hn). assert (Forall (fun z => seen z = false) (t ++ [x])) as Htx
    by (by rewrite Forall_app, Forall_singleton). symmetry in E.
  destruct (since_tail _ _ _ _ _ E (run_nonempty run Hl) Hr Htx Hq) as (a & -> & Ha).
  by apply absence_absent in Hn as [_ ?].
Qed.
Lemma run_short p run : ends false p → Z.of_nat (length run) < PathDegradedEnterAfter → ¬ run_ends (p ++ run).
Proof.
  intros Hp Hl (p' & run' & E & Hl' & Hr). apply app_eq_inv in E as [(k & -> & ->)|(k & -> & ->)].
  - destruct (snoc_cases k) as [->|(k' & w & ->)]; [cbn in Hl'; lia|].
    destruct Hp as [Hp|(l & v & Hp & Hv)]; [by destruct p', k'|].
    rewrite app_assoc in Hp. apply app_inj_tail in Hp as [_ ->].
    apply Forall_app in Hr as [Hr _]. apply Forall_app in Hr as [_ Hw]. rewrite Forall_singleton in Hw. congruence.
  - rewrite length_app in Hl. lia.
Qed.

(** The episode an entry stands for: [run ++ [x]] is the found run that
    entered, from its first found sample on, and nothing was degraded before
    [x]. *)
Definition episode (h : list sample) (r : PathDegradedRecord) : Prop :=
  ∃ before run x since, h = before ++ (run ++ [x]) ++ since ∧ ends false before ∧
    Z.of_nat (length (run ++ [x])) = PathDegradedEnterAfter ∧ Forall (fun z => seen z = true) (run ++ [x]) ∧
    no_long_absence since ∧ ¬ degraded_by (before ++ run) ∧
    snd <$> head (run ++ [x]) = Some (Since r) ∧ EnteredAt r = x.2 ∧ Quiet r = vQuiet x.1.
(** The record counts the absent spell the history ends in from its first
    sample, and nothing when it ends in a found one. *)
Definition clears (h : list sample) (r : PathDegradedRecord) : Prop :=
  ∃ q t, h = q ++ t ∧ ends true q ∧ Forall (fun z => seen z = false) t ∧
    ClearSince r = match t with [] => zero_time | f :: _ => f.2 end.
Definition pending_run (h : list sample) (e : pathDegradedEntry) : Prop :=
  ∃ p run, h = p ++ run ∧ ends false p ∧ Forall (fun z => seen z = true) run ∧
    Z.of_nat (length run) = found e ∧ found e < PathDegradedEnterAfter ∧ snd <$> head run = Some (Since (rec e)) ∧
    ClearSince (rec e) = zero_time.
Definition stands_for (h : list sample) (e : option pathDegradedEntry) : Prop :=
  match e with
  | None => ¬ degraded_by h ∧ ends false h
  | Some e => if pending e then ¬ degraded_by h ∧ pending_run h e else episode h (rec e) ∧ clears h (rec e)
  end.

Lemma episode_degraded h r : episode h r → degraded_by h.
Proof. intros (p & run & x & s & -> & _ & Hl & Hr & Hn & _). by exists p, (run ++ [x]), s. Qed.
Lemma episode_ext h r r' : Since r' = Since r → EnteredAt r' = EnteredAt r → Quiet r' = Quiet r → episode h r → episode h r'.
Proof. unfold episode. by intros -> -> ->. Qed.
Lemma episode_found h x r : seen x = true → episode h r → episode (h ++ [x]) r.
Proof.
  intros Hx (p & run & y & s & -> & Hp & Hl & Hr & Hn & Hb & Hs1 & He1 & Hq1). exists p, run, y, (s ++ [x]).
  rewrite <- !app_assoc. split_and!; try done. by apply absence_found.
Qed.
Lemma episode_absent q t x r : seen x = false → Forall (fun z => seen z = false) t → ends true q →
  time_sub x.2 (spell_time t x) < PathDegradedLeaveAfter → episode (q ++ t) r → episode (q ++ t ++ [x]) r.
Proof.
  intros Hx Ht Hq Hlt (p & run & y & s & E & Hp & Hl & Hr & Hn & Hb & Hs1 & He1 & Hq1). symmetry in E.
  destruct (since_tail _ _ _ _ _ E (run_nonempty _ Hl) Hr Ht Hq) as (a & -> & Ha).
  exists p, run, y, (a ++ t ++ [x]). rewrite app_assoc, <- E, <- !app_assoc. split_and!; try done.
  by apply absence_absent.
Qed.

Lemma ends_snoc b (h : list sample) x : seen x = b → ends b (h ++ [x]).
Proof. right. by exists h, x. Qed.
Lemma clears_found h x r : seen x = true → ClearSince r = zero_time → clears (h ++ [x]) r.
Proof. intros Hx Hz. exists (h ++ [x]), []. rewrite app_nil_r. split_and!; try done. by apply ends_snoc. Qed.
Lemma clearing_spell h r : Forall (fun x => is_zero x.2 = false) h → clears h r →
  if Clearing r then ∃ q f t, h = q ++ f :: t ∧ ends true q ∧ Forall (fun z => seen z = false) (f :: t) ∧ ClearSince r = f.2
  else ends true h ∧ ClearSince r = zero_time.
Proof.
  intros Hz (q & [|f t] & -> & Hq & Ht & Hc); unfold Clearing; rewrite Hc.
  - by rewrite app_nil_r.
  - apply Forall_app in Hz as [_ Hz]. apply Forall_cons in Hz as [-> _]. by exists q, f, t.
Qed.

(** Entering: the run reaches the threshold with [x]. *)
Lemma enters p run x r : ends false p → Forall (fun z => seen z = true) run → seen x = true →
  Z.of_nat (length run) + 1 = PathDegradedEnterAfter → ¬ degraded_by (p ++ run) →
  snd <$> head (run ++ [x]) = Some (Since r) → EnteredAt r = x.2 → Quiet r = vQuiet x.1 → episode (p ++ run ++ [x]) r.
Proof.
  intros Hp Hr Hx Hl Hd Hs He Hq. exists p, run, x, []. rewrite app_nil_r, length_app, Forall_app, Forall_singleton. cbn.
  split_and!; try done; [lia|]. intros a y spell z b E. by destruct a.
Qed.
Lemma stays_pending p run x : ends false p → seen x = true → ¬ degraded_by (p ++ run) →
  Z.of_nat (length run) + 1 < PathDegradedEnterAfter → ¬ degraded_by ((p ++ run) ++ [x]).
Proof.
  intros Hp Hx Hd Hl. rewrite degraded_found by done. intros [?|Hr]; [done|].
  rewrite <- app_assoc in Hr. revert Hr. apply run_short; [done|]. rewrite length_app. cbn. lia.
Qed.
Lemma head_snoc {A} (l : list A) x y : head l = Some y → head (l ++ [x]) = Some y.
Proof. by destruct l. Qed.

Lemma step_absent h x e : seen x = false → is_zero x.2 = false → Forall (fun y => is_zero y.2 = false) h →
  stands_for h e → stands_for (h ++ [x]) (stepPathDegraded e x.1 x.2).1.
Proof.
  intros Hx Hx0 H0' He. unfold stepPathDegraded. unfold seen in Hx. rewrite Hx.
  pose proof (degraded_absent_mono h x Hx) as Hm. pose proof (ends_snoc false h x Hx) as Hend.
  unfold stands_for in He. destruct e as [e|]; [|cbn; split; [tauto|done]]. destruct (pending e) eqn:Hp; [cbn; split; [tauto|done]|].
  destruct He as [He Hc]. apply clearing_spell in Hc; [|done]. destruct (Clearing (rec e)) eqn:Hcl; cbn [negb].
  - destruct Hc as (q & f & t & -> & Hq & Ht & Hs). rewrite Hs.
    destruct (Z.leb_spec PathDegradedLeaveAfter (time_sub x.2 f.2)).
    + cbn. split; [|done]. rewrite <- app_assoc. intros Hd. apply degraded_absent in Hd; try done. cbn in Hd. lia.
    + cbn [fst stands_for]. rewrite Hp, <- app_assoc. split; [by apply episode_absent|]. exists q, (f :: t ++ [x]).
      rewrite app_comm_cons, Forall_app, Forall_singleton. done.
  - destruct Hc as [Hq Hz]. cbn. split.
    + apply (episode_ext _ (rec e)); try done. rewrite <- (app_nil_r h) in He |- *. rewrite <- app_assoc.
      apply episode_absent; try done. cbn. rewrite time_sub_diag. apply leave_positive.
    + exists h, [x]. rewrite Forall_singleton. done.
Qed.
Lemma step_found h x e : seen x = true → Forall (fun y => is_zero y.2 = false) h →
  stands_for h e → stands_for (h ++ [x]) (stepPathDegraded e x.1 x.2).1.
Proof.
  intros Hx H0' He. pose proof Hx as Hf. unfold seen in Hf. unfold stepPathDegraded. rewrite Hf. cbn [negb].
  destruct e as [e|].
  - unfold stands_for in He. destruct (pending e) eqn:Hp.
    + destruct He as (Hd & p & run & -> & He & Hr & Hl & Hlt & Hs & Hc). pose proof enter_width.
      assert (snd <$> head (run ++ [x]) = Some (Since (rec e))) as Hs'.
      { apply fmap_Some in Hs as (y & Hy & Hs). rewrite (head_snoc _ _ _ Hy), Hs. done. }
      rewrite wrap64_id by (unfold int64_min; lia).
      destruct (Z.ltb_spec (found e + 1) PathDegradedEnterAfter).
      * cbn. split; [apply stays_pending; try done; lia|]. exists p, (run ++ [x]).
        rewrite <- app_assoc, Forall_app, Forall_singleton, length_app. split_and!; try done; cbn; lia.
      * cbn. split; [|by apply clears_found]. rewrite <- app_assoc. apply enters; try done. lia.
    + destruct He as [He Hc]. apply clearing_spell in Hc; [|done].
      assert (episode (h ++ [x]) (rec e)) as He' by (by apply episode_found).
      destruct (Clearing (rec e)); cbn; (split; [by apply (episode_ext _ (rec e))|apply clears_found; [done|]]); [done|]. apply Hc.
  - destruct He as [Hd He]. rewrite <- (app_nil_r h) in Hd. pose proof enter_positive.
    destruct (Z.ltb_spec 1 PathDegradedEnterAfter); cbn.
    + split; [rewrite <- (app_nil_r h); apply stays_pending; try done|]. exists h, [x]. rewrite Forall_singleton. done.
    + split; [|by apply clears_found]. apply (enters h [] x); try done. cbn. lia.
Qed.

Lemma after_history_stands h : Forall (fun x => is_zero x.2 = false) h → stands_for h (after_history h).
Proof.
  induction h as [|x h IH] using rev_ind; intros Hz.
  - cbn. split; [|by left]. intros (p & run & s & E & Hl & _). symmetry in E. apply app_nil in E as [_ E].
    apply app_nil in E as [-> _]. by eapply run_nonempty.
  - apply Forall_app in Hz as [Hz Hx]. rewrite Forall_singleton in Hx. unfold after_history. rewrite fold_left_app. cbn.
    destruct (seen x) eqn:Hs; [apply step_found|apply step_absent]; auto.
Qed.

(** C28. The state machine of a path decides its whole history: after any
    sequence of judgements at non-zero times the path holds a degraded or
    clearing record exactly when the condition was at some point found
    EnterAfter times in a row and has not, since, been absent over any spell
    of LeaveAfter or more.  The record's Since is the time of the first
    judgement of the found run that entered (a run preceded by nothing or by
    an absent judgement), EnteredAt and Quiet are those of the judgement that
    completed it, and ClearSince is the first judgement of the absent spell
    the history ends in, or zero when the last one found the condition. *)
Theorem degraded_iff_history hist : Forall (fun x => is_zero x.2 = false) hist →
  (degraded_by hist ↔ ∃ e, after_history hist = Some e ∧ pending e = false) ∧
  (∀ e, after_history hist = Some e → pending e = false → episode hist (rec e) ∧ clears hist (rec e)).
Proof.
  intros Hz. pose proof (after_history_stands hist Hz) as Hs. destruct (after_history hist) as [e|]; cbn in Hs.
  - destruct (pending e) eqn:Hp.
    + split; [|intros ? [= <-]; congruence]. split; [tauto|]. intros (? & [= <-] & ?); congruence.
    + split; [|by intros ? [= <-]]. split; [by exists e|]. intros _. by eapply episode_degraded, Hs.
  - split; [|done]. split; [tauto|]. by intros (? & ? & _).
Qed.
End history.

(** ** Memory follows the store *)

Section follow.
Context `{PathSdk}.

(** A stored record and the entry that holds it agree on what the record is
    about; its evidence is newer in memory. *)
Definition same_core (a b : PathDegradedRecord) : Prop :=
  Since a = Since b ∧ EnteredAt a = EnteredAt b ∧ ClearSince a = ClearSince b ∧ Quiet a = Quiet b.
Definition held (e : option pathDegradedEntry) : bool := match e with Some e => negb (pending e) | None => false end.
Notation live s p := (monitorPairExistsLocked s p = true).
(** No record of a pair whose monitor or node is gone. *)
Definition no_orphan (s : pathStore) (p : MonitorPair) : Prop := monitorPairExistsLocked s p = false → records s !! p = None.
(** Memory holds one row per key open, the one the index names. *)
Definition indexed (b : openBook) : Prop := ∀ p id, (p, id) ∈ openRows b ↔ active b !! p = Some id.
Definition openIncidents (s : pathStore) : gset MonitorPair := dom (active (incidents s)).

(** [s'] is [s] with some monitors and nodes gone, records and all. *)
Definition trimmed (s s' : pathStore) : Prop :=
  sHot s' = sHot s ∧ (∀ p, no_orphan s p → no_orphan s' p) ∧
  (∀ p, live s' p → live s p ∧ records s' !! p = records s !! p) ∧
  (indexed (incidents s) → indexed (incidents s')) ∧ openIncidents s' ⊆ openIncidents s.
#[local] Instance trimmed_preorder : PreOrder trimmed.
Proof.
  split; [intros s; unfold trimmed; naive_solver|]. intros a b c (Hh & Ho & Hr & Hx & Hi) (Hh' & Ho' & Hr' & Hx' & Hi').
  split_and!; [congruence|auto| |auto|set_solver]. intros p Hp. destruct (Hr' p Hp) as [Hp' ->]. by apply Hr.
Qed.

Lemma live_spec s p : live s p ↔ pMonitorID p ∈ sMonitors s ∧ (pNodeID p = "" ∨ pNodeID p ∈ sNodes s).
Proof.
  unfold monitorPairExistsLocked. rewrite andb_true_iff, orb_true_iff, !bool_decide_eq_true. done.
Qed.
Lemma keep_pairs_lookup (keep : MonitorPair → Prop) `{∀ p, Decision (keep p)} m p :
  keep_pairs keep m !! p = if decide (keep p) then m !! p else None.
Proof. unfold keep_pairs. rewrite map_lookup_filter. destruct (m !! p); cbn; repeat case_guard || case_decide; done. Qed.





Lemma same_core_refl r : same_core r r.
Proof. done. Qed.


Lemma judged_signal_cases p step next :
  match judged_signal p step next with
  | Some sg => sg = SigResolve (pair_of p) ∧ step = stepLeave ∨ held next = true ∧ ∃ subj since, sg = SigOpen (pair_of p) subj since
  | None => step ≠ stepLeave
  end.
Proof.
  unfold judged_signal. destruct step; try (by left); destruct next as [e|]; try done; cbn [held];
    destruct (negb (pending e)); cbn [andb]; try done; match goal with |- context [if ?c then _ else _] => destruct c end;
    try done; right; (split; [done|]); by eexists _, _.
Qed.
Lemma fold_left_keeps {A B} (P : A → Prop) (f : A → B → A) l a : (∀ a b, P a → P (f a b)) → P a → P (fold_left f l a).
Proof. intros Hf. revert a. induction l as [|b l IH]; cbn; auto. Qed.



Definition fresh_start (monitors nodes : gset string) (hot : bool) : evaluator :=
  loadPathDegraded id (mkPathStore ∅ monitors nodes hot empty_book).


(** ** An incident whose resolution was refused *)

(** Nothing about [p] differs between [s] and [s']. *)
Definition same_rows (p : MonitorPair) (b b' : openBook) : Prop :=
  active b' !! p = active b !! p ∧
  ∀ id, ((p, id) ∈ openRows b' ↔ (p, id) ∈ openRows b) ∧ ((p, id) ∈ storedOpen b' ↔ (p, id) ∈ storedOpen b).
Definition aside (p : MonitorPair) (s s' : pathStore) : Prop :=
  sHot s' = sHot s ∧ (live s p → live s' p) ∧ records s' !! p = records s !! p ∧ same_rows p (incidents s) (incidents s').
#[local] Instance aside_preorder p : PreOrder (aside p).
Proof.
  split; [done|]. intros a b c (Hh & Hl & Hr & Ha & Hi) (Hh' & Hl' & Hr' & Ha' & Hi').
  split_and!; [congruence|auto|congruence|]. split; [congruence|]. intros id.
  destruct (Hi id), (Hi' id). tauto.
Qed.
Definition spares_delete (p : MonitorPair) (d : storeDelete) : Prop :=
  match d with DelMonitor id _ _ _ => id ≠ pMonitorID p | DelNode id _ _ _ => id ≠ pNodeID p end.

Lemma delete_rows ok (keep : MonitorPair → Prop) `{∀ q, Decision (keep q)} p b : keep p → same_rows p b (deleteIncidents ok keep b).
Proof.
  intros Hk. unfold deleteIncidents. destruct ok; [|done]. split; cbn.
  - rewrite map_lookup_filter. destruct (active b !! p); cbn; [|done]. by case_guard.
  - intros id. rewrite !elem_of_filter. cbn. tauto.
Qed.
Lemma delete_aside p d s : spares_delete p d → aside p s (run_delete s d).
Proof.
  destruct d as [id h c i|id h c i]; cbn; intros Hne; [unfold DeleteMonitor|unfold DeleteNode];
    case_bool_decide; cbn [negb]; [|done| |done]; destruct (sHot s) eqn:Hh, h; cbn [andb negb]; try done.
  1-3: split_and!; cbn; try done; [rewrite !live_spec; cbn; set_solver|rewrite keep_pairs_lookup, decide_True; done|].
  1-3: by apply delete_rows.
  all: destruct c; cbn [negb]; try done.
  all: split_and!; cbn; try done; try (rewrite !live_spec; cbn; set_solver);
    try (rewrite !keep_pairs_lookup, !decide_True; done); by apply delete_rows.
Qed.
Lemma deletes_aside p ds s : Forall (spares_delete p) ds → aside p s (run_deletes ds s).
Proof.
  revert s. induction ds as [|d ds IH]; intros s Hs; [done|]. apply Forall_cons in Hs as [Hd Hs]. cbn.
  etransitivity; [by apply delete_aside|by apply IH].
Qed.
Lemma records_aside p pr s r : p ≠ pr →
  aside p s (with_records (<[pr := r]> (records s)) s) ∧ aside p s (with_records (delete pr (records s)) s).
Proof.
  intros Hne. split; (split_and!; [done|done| |done]); cbn; [by rewrite lookup_insert_ne|by rewrite lookup_delete_ne].
Qed.
Lemma write_aside d p pr step next s : Forall (spares_delete p) (daBefore d) → Forall (spares_delete p) (daAfter d) → p ≠ pr →
  aside p s (writePathDegradedStep d pr step next s).1.
Proof.
  intros Hb Ha Hne. assert (∀ r, aside p s (PutPathDegradedRecord d pr r s).1) as Hput.
  { intros r. unfold PutPathDegradedRecord. destruct (negb _); [done|]. destruct (negb _); [done|].
    destruct (negb _); [by apply records_aside|]. pose proof (deletes_aside p _ s Hb) as H1.
    set (s1 := run_deletes (daBefore d) s) in *. destruct (negb _); [done|].
    assert (aside p s1 (with_records (<[pr := r]> (records s1)) s1)) as H2 by (by apply records_aside).
    set (s2 := with_records _ s1) in *. pose proof (deletes_aside p _ s2 Ha) as H3. set (s3 := run_deletes (daAfter d) s2) in *.
    assert (aside p s s3) as H4 by (etransitivity; [exact H1|]; by etransitivity).
    destruct (monitorPairExistsLocked s3 pr); [done|]. destruct (daUndo d); [|done]. cbn [fst].
    etransitivity; [exact H4|]. by apply (records_aside p pr s3 r). }
  assert (aside p s (DeletePathDegradedRecord d pr s).1) as Hdel.
  { unfold DeletePathDegradedRecord. destruct (_ && _); [done|]. by apply (records_aside p pr s (zero_record zero_time)). }
  unfold writePathDegradedStep. destruct step, next; cbn; try done; apply Hput.
Qed.
Lemma signal_aside i p s sg : (match sg with SigOpen q _ _ | SigResolve q | SigDropped q _ => q ≠ p end) →
  aside p s (signal_incident i s sg).
Proof.
  intros Hne. split_and!; try done. unfold signal_incident.
  assert (∀ q id ok b, q ≠ p → same_rows p b (putOpen ok (q, id) b) ∧ same_rows p b (putResolved ok (q, id) b)) as Hput.
  { intros q id ok b Hq. split; (split; cbn; [|intros id'; destruct ok; set_solver]).
    - by rewrite lookup_insert_ne.
    - case_bool_decide; [by rewrite lookup_delete_ne|done]. }
  destruct sg as [q ? ?|q|q ?]; cbn; unfold openIncident, resolveIncident;
    destruct (active (incidents s) !! q); try done; by apply Hput.
Qed.

(** [p] has no entry and no record, and the hot store holds its incident
    [id] open; [back]: the server has read it again. *)
Definition book_open (p : MonitorPair) (id : string) (b : openBook) : Prop :=
  (p, id) ∈ openRows b ∧ ∃ id', active b !! p = Some id' ∧ (p, id') ∈ openRows b.
Definition lost (back : bool) (p : MonitorPair) (id : string) (ev : evaluator) : Prop :=
  sHot (store ev) = true ∧ live (store ev) p ∧ entries ev !! p = None ∧ records (store ev) !! p = None ∧
  (p, id) ∈ storedOpen (incidents (store ev)) ∧ (back = true → book_open p id (incidents (store ev))).
(** Evaluations that do not find [p], deletes of other monitors and nodes,
    additions, restarts, and sweeps that do not close [p]'s incident and do
    not write its resolved row before a restart. *)
Definition spares (back : bool) (p : MonitorPair) (id : string) (x : event) : Prop :=
  match x with
  | Evaluate i => (evJudge i p).1.1.1 = false ∧
      ∀ q, Forall (spares_delete p) (evDuring i q) ∧ Forall (spares_delete p) (daBefore (evDisk i q)) ∧
           Forall (spares_delete p) (daAfter (evDisk i q))
  | Restart order => ∀ l, order l ≡ₚ l
  | Remove d => spares_delete p d
  | Sweep _ ok rows closed => (∀ id', (p, id') ∉ closed) ∧ (back = false → ok = true → (p, id) ∉ rows)
  | AddMonitor _ | AddNode _ => True
  end.

Lemma lost_aside back p id m m' s s' : aside p s s' → (m !! p = None → m' !! p = None) →
  lost back p id (mkEvaluator m s) → lost back p id (mkEvaluator m' s').
Proof.
  intros (Hh & Hl & Hr & Ha & Hi) Hm (Bh & Bl & Be & Br & Bs & Bo). cbn in *. split_and!; cbn; auto; [congruence|congruence|by apply Hi|].
  intros Hb. destruct (Bo Hb) as (H1 & id' & H2 & H3). split; [by apply Hi|]. exists id'. rewrite Ha. split; [done|by apply Hi].
Qed.
Lemma drop_lost i judged back p id ev pr : lost back p id ev → lost back p id (dropEntry i judged ev pr).
Proof.
  intros Hb. unfold dropEntry. destruct (entries ev !! pr) as [e|] eqn:Ee; [|done].
  assert (pr ≠ p) as Hne by (intros ->; destruct Hb as (_ & _ & Hb & _); congruence).
  destruct (mem pr judged); [done|]. destruct ev as [m s]. cbn [entries store] in *. destruct (pending e).
  - apply (lost_aside back p id m _ s s); [reflexivity|by rewrite lookup_delete_ne|exact Hb].
  - unfold DeletePathDegradedRecord. destruct (sHot s && negb (daWrite (evDisk i pr))); [done|].
    apply (lost_aside back p id m _ s); [|by rewrite lookup_delete_ne|exact Hb].
    etransitivity; [by apply (records_aside p pr s (rec e)), not_eq_sym|by apply signal_aside].
Qed.
Lemma judge_lost i back p id ev pe : spares back p id (Evaluate i) → lost back p id ev → lost back p id (judgeEntry i ev pe).
Proof.
  intros [Hj Hq] Hb. unfold judgeEntry. set (pr := pair_of pe) in *. destruct (Hq pr) as (Hd0 & Hd1 & Hd2).
  destruct ev as [m s]. cbn [entries store]. pose proof (deletes_aside p _ s Hd0) as Ha0.
  set (s0 := run_deletes (evDuring i pr) s) in *. destruct (decide (p = pr)) as [<-|Hne].
  - destruct (evJudge i p) as [[[fnd reason] loss] latency]. cbn in Hj. subst fnd.
    destruct Hb as (Bh & Bl & Be & Brest). cbn in Be. rewrite Be. cbn.
    apply (lost_aside back p id m _ s); [exact Ha0|by rewrite lookup_delete_eq|exact (conj Bh (conj Bl (conj Be Brest)))].
  - destruct (evJudge i pr) as [[[fnd reason] loss] latency]. destruct (stepPathDegraded _ _ _) as [next step].
    pose proof (write_aside (evDisk i pr) p pr step next s0 Hd1 Hd2 Hne) as Hw.
    destruct (writePathDegradedStep _ _ _ _ _) as [s1 ok]. cbn [fst] in Hw.
    set (next' := if ok then next else _). set (step' := if ok then step else _).
    eapply (lost_aside back p id m); [|by destruct next'; rewrite ?lookup_delete_ne, ?lookup_insert_ne by done|exact Hb].
    etransitivity; [exact Ha0|]. etransitivity; [exact Hw|].
    pose proof (judged_signal_cases pe step' next') as Hc. destruct (judged_signal pe step' next') as [sg|]; [|done].
    apply signal_aside. fold pr in Hc. destruct Hc as [[-> _]|[_ (? & ? & ->)]]; by apply not_eq_sym.
Qed.
(** A batch of rows, [stays] those of them that are written open. *)
Definition rows_kept (back : bool) (p : MonitorPair) (id : string) (b b' : openBook) : Prop :=
  (p, id) ∈ storedOpen b' ∧ (back = true → (p, id) ∈ openRows b' ∧
    ∃ id', active b' !! p = Some id' ∧ (p, id') ∈ openRows b ∧ (p, id') ∈ openRows b').
Lemma put_kept back p id ok (stays : incidentRow → bool) r b b' : (∀ r, stays r = true → r ∈ openRows b) →
  (∀ id', (p, id') ∈ openRows b → stays (p, id') = true) → (back = true → (p, id) ∈ openRows b) →
  (back = false → ok = true → r ≠ (p, id)) →
  rows_kept back p id b b' → rows_kept back p id b (if stays r then putOpen ok r b' else putResolved ok r b').
Proof.
  intros Hs1 Hs2 Hin Hr [Hs Ho]. destruct r as [q id0]. destruct (stays (q, id0)) eqn:E.
  - apply Hs1 in E. split; [cbn; destruct ok; set_solver|]. intros Hback.
    destruct (Ho Hback) as (H1 & id' & H2 & H3 & H4). split; [cbn; set_solver|]. cbn.
    destruct (decide (q = p)) as [->|Hne].
    + exists id0. rewrite lookup_insert_eq. set_solver.
    + exists id'. rewrite lookup_insert_ne by done. set_solver.
  - assert (∀ id', (p, id') ∈ openRows b → (p, id') ≠ (q, id0)) as Hno by (intros id' Hid [= <- <-]; rewrite Hs2 in E; done).
    split; [|intros Hback; destruct (Ho Hback) as (H1 & id' & H2 & H3 & H4); split; [|exists id'; split_and!; [|done|]]].
    + cbn. destruct ok; [|done]. apply elem_of_difference. split; [done|]. rewrite elem_of_singleton.
      destruct back; [by apply Hno, Hin|]. intros ?. by apply (Hr eq_refl eq_refl).
    + cbn. apply elem_of_difference. split; [done|]. rewrite elem_of_singleton. by apply Hno, Hin.
    + cbn. case_bool_decide as Hq; [|done]. destruct (decide (q = p)) as [->|Hne]; [|by rewrite lookup_delete_ne].
      exfalso. rewrite H2 in Hq. injection Hq as ->. by apply (Hno id0).
    + cbn. apply elem_of_difference. split; [done|]. rewrite elem_of_singleton. by apply Hno.
Qed.
Lemma puts_kept back p id ok (stays : incidentRow → bool) rows b b' : (∀ r, stays r = true → r ∈ openRows b) →
  (∀ id', (p, id') ∈ openRows b → stays (p, id') = true) → (back = true → (p, id) ∈ openRows b) →
  (back = false → ok = true → (p, id) ∉ rows) → rows_kept back p id b b' →
  rows_kept back p id b (fold_left (fun b' r => if stays r then putOpen ok r b' else putResolved ok r b') rows b').
Proof.
  intros Hs1 Hs2 Hin. revert b'. induction rows as [|r rows IH]; intros b' Hrows Hk; [done|]. cbn [fold_left].
  apply IH; [intros; set_solver|]. apply put_kept; try done. intros H1 H2 ->. apply (Hrows H1 H2). set_solver.
Qed.
Lemma sweep_lost back p id goneOk ok rows closed m s : spares back p id (Sweep goneOk ok rows closed) →
  lost back p id (mkEvaluator m s) → lost back p id (mkEvaluator m (evaluateIncidents goneOk ok rows closed s)).
Proof.
  intros [Hc Hrows] Hl. assert (live s p) as Hp by apply Hl. unfold evaluateIncidents.
  apply (lost_aside back p id m m s (with_incidents (deleteIncidents (taken goneOk s)
    (fun q => monitorPairExistsLocked s q = true) (incidents s)) s)) in Hl; [|split_and!; try done; by apply delete_rows|done].
  set (b := deleteIncidents _ _ _) in *. destruct Hl as (Bh & Bl & Be & Br & Bs & Bo). cbn [store entries sHot records incidents with_incidents] in *.
  assert (taken ok s = ok) as -> by (unfold taken; rewrite Bh; by destruct ok).
  unfold sweepPut. cbv zeta.
  match goal with |- context [if ?c then _ else _] => destruct c; [exact (conj Bh (conj Bl (conj Be (conj Br (conj Bs Bo)))))|] end.
  match goal with |- context [fold_left ?f rows b] => assert (rows_kept back p id b (fold_left f rows b)) as [Hs Ho] end.
  { apply puts_kept; [| |intros Hback; apply (Bo Hback)|done|].
    - intros r Hr. apply andb_true_iff in Hr as [Hr _]. by apply bool_decide_eq_true in Hr.
    - intros id' Hid. by rewrite bool_decide_eq_true_2, bool_decide_eq_false_2.
    - split; [done|]. intros Hback. destruct (Bo Hback) as (H1 & id' & H2 & H3). eauto 6. }
  split_and!; try done. intros Hback. destruct (Ho Hback) as (H1 & id' & H2 & _ & H3). split; [done|]. by exists id'.
Qed.
Lemma restart_lost back p id order ev : (∀ l, order l ≡ₚ l) → lost back p id ev → lost true p id (loadPathDegraded order (store ev)).
Proof.
  intros Hord (Bh & Bl & Be & Br & Bs & _). unfold loadPathDegraded. rewrite Bh. split_and!; try done; cbn.
  - by rewrite lookup_fmap, Br.
  - intros _. split; [done|]. cbn. destruct (list_to_map (order (elements (storedOpen (incidents (store ev))))) !! p) as [id'|] eqn:E.
    + exists id'. split; [done|]. apply elem_of_list_to_map_2 in E. by rewrite Hord, elem_of_elements in E.
    + apply not_elem_of_list_to_map in E. destruct E. rewrite Hord. apply list_elem_of_fmap. exists (p, id).
      by rewrite elem_of_elements.
Qed.
Lemma event_lost back p id ev x : spares back p id x → lost back p id ev →
  lost back p id (on_event ev x) ∧ (∀ order, x = Restart order → lost true p id (on_event ev x)).
Proof.
  intros Hx Hl. split; [|intros order ->; by eapply restart_lost].
  destruct x as [i|order|d|goneOk ok rows closed|id0|id0]; cbn [on_event].
  - unfold evaluatePathDegraded. destruct (evReadsOk i); [|done]. cbn [negb].
    apply fold_left_keeps; [intros; by apply judge_lost|]. apply fold_left_keeps; [intros; by apply drop_lost|done].
  - destruct (restart_lost back p id order ev Hx Hl) as (H1 & H2 & H3 & H4 & H5 & H6). by split_and!; auto.
  - destruct ev as [m s]. apply (lost_aside back p id m m s); [by apply delete_aside|done|done].
  - destruct ev as [m s]. by apply sweep_lost.
  - destruct ev as [m s]. apply (lost_aside back p id m m s); [|done|done]. split_and!; try done.
    rewrite !live_spec. cbn. set_solver.
  - destruct ev as [m s]. apply (lost_aside back p id m m s); [|done|done]. split_and!; try done.
    rewrite !live_spec. cbn. set_solver.
Qed.
Lemma events_lost back p id xs ev : Forall (spares back p id) xs → lost back p id ev → lost back p id (fold_left on_event xs ev).
Proof.
  intros Hxs. revert ev. induction Hxs as [|x xs Hx _ IH]; intros ev Hb; [done|]. cbn [fold_left]. apply IH. by apply event_lost.
Qed.

(** C39. A resolution the disk refuses comes back with a restart and is then
    never made up for.  When an evaluation finds a clearing path over, deletes
    its record and the disk refuses the resolved incident, the running server
    has the incident resolved, with neither entry nor record.  But let the
    server restart before a sweep writes that row again, with any evaluations
    that judge the path healthy, sweeps, additions and deletes of other
    monitors and nodes before it: the incident is open again, with no record
    behind it, and stays open through any number of further restarts, sweeps
    and evaluations that judge the path healthy, as long as no sweep closes it
    for its check's own settings. *)
Theorem refused_resolution_returns i p id e pe ev :
  pair_of pe = p → sHot (store ev) = true → monitorPairExistsLocked (store ev) p = true →
  entries ev !! p = Some e → pending e = false → Clearing (rec e) = true → (evJudge i p).1.1.1 = false →
  PathDegradedLeaveAfter <= time_sub (evNow i) (ClearSince (rec e)) →
  evDuring i p = [] → daWrite (evDisk i p) = true → (evIncident i p).1 = false →
  active (incidents (store ev)) !! p = Some id → (p, id) ∈ storedOpen (incidents (store ev)) →
  let ev1 := judgeEntry i ev pe in
  (active (incidents (store ev1)) !! p = None ∧ (p, id) ∉ openRows (incidents (store ev1)) ∧
   entries ev1 !! p = None ∧ records (store ev1) !! p = None) ∧
  ∀ xs order ys, Forall (spares false p id) xs → (∀ l, order l ≡ₚ l) → Forall (spares true p id) ys →
  let ev2 := fold_left on_event (xs ++ Restart order :: ys) ev1 in
  (p, id) ∈ openRows (incidents (store ev2)) ∧ is_Some (active (incidents (store ev2)) !! p) ∧
  entries ev2 !! p = None ∧ records (store ev2) !! p = None.
Proof.
  intros Hp Hh Hlv He Hpe Hcl Hj Ht Hd Hw Hi Ha Hs ev1.
  assert (ev1 = mkEvaluator (delete p (entries ev)) (with_incidents (putResolved false (p, id) (incidents (store ev)))
    (with_records (delete p (records (store ev))) (store ev)))) as E.
  { unfold ev1, judgeEntry. rewrite Hp, Hd. cbn [run_deletes fold_left].
    destruct (evJudge i p) as [[[fnd reason] loss] latency]. cbn in Hj. subst fnd. rewrite He. cbn [stepPathDegraded].
    rewrite Hpe, Hcl. cbn [negb vFound]. rewrite (proj2 (Z.leb_le _ _) Ht).
    cbn [writePathDegradedStep]. unfold DeletePathDegradedRecord. rewrite Hw, andb_false_r. cbn [judged_signal].
    unfold signal_incident, resolveIncident, taken. rewrite Hp. cbn [incidents with_records sHot]. by rewrite Ha, Hi, Hh. }
  assert (lost false p id ev1) as Hlost.
  { rewrite E. split_and!; try done; cbn; by rewrite lookup_delete_eq. }
  split.
  - destruct Hlost as (_ & _ & H1 & H2 & _). split_and!; [..|done|done]; rewrite E; cbn.
    + rewrite bool_decide_eq_true_2 by done. apply lookup_delete_eq.
    + set_solver.
  - intros xs order ys Hxs Hord Hys ev2. unfold ev2. rewrite fold_left_app. cbn [fold_left].
    assert (lost true p id (fold_left on_event ys (on_event (fold_left on_event xs ev1) (Restart order))))
      as (_ & _ & H1 & H2 & _ & H3).
    { apply events_lost; [done|]. eapply restart_lost; [done|]. by apply events_lost. }
    destruct (H3 eq_refl) as (H4 & id' & H5 & _). by rewrite H5.
Qed.
End follow.

Module DegradedDemo.
#[local] Instance sdk : PathSdk := {|
  PathDegradedEnterAfter := 2; PathDegradedLeaveAfter := 10 * minute; MonitorTypeTLS := "tls";
  PathStateUp := "up"; PathStateUnknown := "unknown"; MonitorAlertDownAndDegraded := "down_and_degraded";
  LossEvidence := unit; LatencyEvidence := unit |}.
#[local] Instance laws : PathSdkLaws.
Proof. split; vm_compute; congruence. Defined.

Definition pr : MonitorPair := mkPair "m1" "n1".
Definition path : pathEntry :=
  mkPath "m1" "n1" true (Some (mkMonitor "icmp" true (mkCheckPolicy "down_and_degraded" 3))) false false "" "up" "" "n1 to n2".
Definition calm_disk : diskAnswer := mkAnswer [] true [] true.
(** The evaluation of minute [t]; [found]: it finds the path degraded. *)
Definition at_minute (t : Z) (found incident : bool) : event :=
  Evaluate (mkEval (t * minute) [path] true (fun _ => (found, "degraded_loss", Some (), None)) (fun _ => [])
    (fun _ => calm_disk) (fun _ => (incident, "inc1"))).
Definition verdict_of (found : bool) : verdict := mkVerdict found "degraded_loss" (Some ()) None false.
Definition start : evaluator := fresh_start {["m1"]} {["n1"]} true.

(** Found twice, absent from minute 3 on. *)
Definition episode_run : list event := [at_minute 1 true true; at_minute 2 true true; at_minute 3 false true].
Lemma degraded_iff_history_witness :
  degraded_by [(verdict_of true, 60); (verdict_of true, 120); (verdict_of false, 180)] ∧
  Forall (fun x : sample => is_zero x.2 = false) [(verdict_of true, 60); (verdict_of true, 120); (verdict_of false, 180)].
Proof.
  assert (Forall (fun x : sample => is_zero x.2 = false)
    [(verdict_of true, 60); (verdict_of true, 120); (verdict_of false, 180)]) as Hz by (by repeat constructor).
  split; [|exact Hz]. apply (degraded_iff_history _ Hz). eexists. split; vm_compute; reflexivity.
Defined.


(** The resolution at minute 13 is refused; the sweep that follows is refused
    too, and the server restarts. *)
Definition clearing : evaluator := Eval vm_compute in fold_left on_event episode_run start.
Definition leaving : evalInput :=
  mkEval (13 * minute) [path] true (fun _ => (false, "", None, None)) (fun _ => []) (fun _ => calm_disk) (fun _ => (false, "")).
Definition clearing_entry : pathDegradedEntry :=
  Eval vm_compute in default (mkEntry true 0 (zero_record 0) false "") (entries clearing !! pr).
Definition before : list event := [at_minute 14 false true; Sweep true false [(pr, "inc1")] ∅].
Definition afterwards : list event := [at_minute 15 false true; Sweep true true [(pr, "inc1")] ∅; Restart id; at_minute 16 false true].
Lemma spares_minute back t b : spares back pr "inc1" (at_minute t false b).
Proof. split; [done|]. intros q. split_and!; constructor. Qed.
Lemma refused_resolution_returns_witness :
  (pr, "inc1") ∉ openRows (incidents (store (judgeEntry leaving clearing path))) ∧
  (pr, "inc1") ∈ openRows (incidents (store (fold_left on_event (before ++ Restart id :: afterwards) (judgeEntry leaving clearing path)))).
Proof.
  destruct (refused_resolution_returns leaving pr "inc1" clearing_entry path clearing) as [(_ & H1 & _) H2];
    [reflexivity|reflexivity|vm_compute; reflexivity|vm_compute; reflexivity|reflexivity|vm_compute; reflexivity|reflexivity
    |apply Z.leb_le; vm_compute; reflexivity|reflexivity|reflexivity|reflexivity|vm_compute; reflexivity
    |apply (bool_decide_eq_true_1 _); vm_compute; reflexivity|].
  split; [exact H1|].
  assert (Forall (spares false pr "inc1") before) as Hb
    by (repeat apply Forall_cons_2; [apply spares_minute|split; [intros ?; apply not_elem_of_empty|done]|apply Forall_nil_2]).
  assert (Forall (spares true pr "inc1") afterwards) as Ha
    by (repeat apply Forall_cons_2; [apply spares_minute|split; [intros ?; apply not_elem_of_empty|done]
      |exact (fun l => reflexivity l)|apply spares_minute|apply Forall_nil_2]).
  exact (proj1 (H2 before id afterwards Hb (fun l => reflexivity l) Ha)).
Defined.

(** What [memory_follows_store] excludes does break it: a node deleted and
    added again before the next evaluation, a node delete that is not
    committed, and a removal refused after a delete; the restart after a
    refused resolution is [refused_resolution_returns]. *)
Definition deleted_in_write : event :=
  Evaluate (mkEval (2 * minute) [path] true (fun _ => (true, "degraded_loss", Some (), None)) (fun _ => [])
    (fun _ => mkAnswer [DelNode "n1" true true true] true [] false) (fun _ => (true, "inc1"))).
Definition shows (ev : evaluator) : bool * bool * bool :=
  (monitorPairExistsLocked (store ev) pr, held (entries ev !! pr), bool_decide (is_Some (records (store ev) !! pr))).
Lemma follow_gaps :
  shows (fold_left on_event (episode_run ++ [Remove (DelNode "n1" true true true); AddNode "n1"]) start) = (true, true, false) ∧
  shows (fold_left on_event (episode_run ++ [Remove (DelNode "n1" true false true)]) start) = (true, true, false) ∧
  shows (fold_left on_event [at_minute 1 true true; deleted_in_write] start) = (false, false, true).
Proof. split_and!; vm_compute; reflexivity. Qed.
End DegradedDemo.
