(* ===== verification/Clock.v ===== *)
(** * Calendar dates, sortable instants and quiet hours

    What the notification code uses of Go's [time] package: the civil date of
    an instant, [Format] with the outbox key layout, [time.Date] and
    [Time.In] in a location, and on top of them [parseClockMinute] and
    [quietHoursEnd] of [server/server_notify_outbox.go].

    A location is the offset from UTC, in seconds, in force at each instant
    ([zone]); the zone database itself is data outside the repository.
    [date_in] follows [time.Date]: the wall clock is read as if it were UTC,
    the offset found there is tried, and when it is not the offset in force
    at the resulting instant the one that is in force there is used. *)

From Stdlib Require Import ZArith Lia Ascii.
From stdpp Require Import gmap strings sorting list_numbers.
From S2P Require Import Prelude GoStr.

Local Open Scope Z_scope.

(** ** Civil dates

    Days are counted from January 1 of year 1, the day of Go's zero time. *)

Record civil := mkCivil { cYear : Z; cMonth : Z; cDay : Z }.
#[export] Instance civil_eq_dec : EqDecision civil.
Proof. solve_decision. Defined.

(** Days before March 1 of year [y], from March 1 of year 0. *)
Definition march (y : Z) : Z := 365 * y + y / 4 - y / 100 + y / 400.
(** The year that starts on March 1 and holds day [z], for the days of one
    400-year era. *)
Definition year_of_era (doe : Z) : Z :=
  (doe - doe / 1460 + doe / 36524 - doe / 146096) / 365.
Definition march_year (z : Z) : Z := year_of_era (z mod 146097) + 400 * (z / 146097).
Definition month_start (mp : Z) : Z := (153 * mp + 2) / 5.
Definition month_index (doy : Z) : Z := (5 * doy + 2) / 153.

Definition civil_of_days (n : Z) : civil :=
  let z := n + 306 in
  let y := march_year z in
  let doy := z - march y in
  let mp := month_index doy in
  mkCivil (if mp <? 10 then y else y + 1) (if mp <? 10 then mp + 3 else mp - 9)
    (doy - month_start mp + 1).
(** The day of a date whose day of the month may be out of range, as
    [time.Date] normalises it. *)
Definition days_of_civil (c : civil) : Z :=
  let y := if cMonth c <=? 2 then cYear c - 1 else cYear c in
  let mp := if cMonth c <=? 2 then cMonth c + 9 else cMonth c - 3 in
  march y + month_start mp + cDay c - 1 - 306.

(** ** Formatting *)

Definition day_ns : Z := 86400 * second.
Definition day_of (t : time) : Z := t / day_ns.
Definition ns_of_day (t : time) : Z := t mod day_ns.

Definition digit (n : Z) : ascii := ascii_of_N (48 + Z.to_N (n mod 10)).
Fixpoint digits (w : nat) (n : Z) : string :=
  match w with O => "" | S w => digits w (n / 10) +:+ str1 (digit n) end.
(** [appendInt]: a sign, zero padding to [w] digits, and more digits when the
    number needs them. *)
Definition appendInt (w : nat) (n : Z) : string :=
  (if n <? 0 then "-" else "") +:+
  let a := Z.abs n in if a <? 10 ^ Z.of_nat w then digits w a else dec_of_N (Z.to_N a).

(** [t.UTC().Format("2006-01-02T15:04:05.000000000Z")] *)
Definition format_key (t : time) : string :=
  let c := civil_of_days (day_of t) in
  let s := ns_of_day t in
  appendInt 4 (cYear c) +:+ "-" +:+ appendInt 2 (cMonth c) +:+ "-" +:+ appendInt 2 (cDay c) +:+ "T" +:+
  appendInt 2 (s / (3600 * second)) +:+ ":" +:+ appendInt 2 (s / minute mod 60) +:+ ":" +:+
  appendInt 2 (s / second mod 60) +:+ "." +:+ appendInt 9 (s mod second) +:+ "Z".

Example format_zero : format_key 0 = "0001-01-01T00:00:00.000000000Z".
Proof. vm_compute. reflexivity. Qed.
Example format_leap : format_key (time_add (730178 * day_ns) (13 * 3600 * second + 7 * minute + 9 * second + 5)) =
  "2000-02-29T13:07:09.000000005Z".
Proof. vm_compute. reflexivity. Qed.

(** ** Wall clocks *)

Definition zone : Type := time → Z.
(** The wall clock at [t], read as an instant of UTC. *)
Definition wall (z : zone) (t : time) : time := t + z t * second.
(** [time.Date]: the instant whose wall clock is [ns] into day [n]. *)
Definition date_in (z : zone) (n ns : Z) : time :=
  let unix := n * day_ns + ns in
  let offset := z unix in
  if offset =? 0 then unix else unix - z (unix - offset * second) * second.
(** [t.AddDate(0, 0, 1)] *)
Definition next_day (z : zone) (t : time) : time :=
  let c := civil_of_days (day_of (wall z t)) in
  date_in z (days_of_civil (mkCivil (cYear c) (cMonth c) (cDay c + 1))) (ns_of_day (wall z t)).

(** [time.Parse("15:04", v)] of a value of five bytes. *)
Definition digit_val (c : ascii) : Z := code c - 48.
Definition parseClockMinute (v : string) : option Z :=
  match v with
  | String a (String b (String ":" (String c (String d "")))) =>
    let h := 10 * digit_val a + digit_val b in
    let m := 10 * digit_val c + digit_val d in
    if is_digit a && is_digit b && is_digit c && is_digit d && (h <? 24) && (m <? 60)
    then Some (h * 60 + m) else None
  | _ => None
  end.

Record NotifyQuietHours := mkQuiet { qStart : string; qEnd : string; qTimeZone : string }.

Definition quietHoursEnd (load : string → option zone) (qh : option NotifyQuietHours) (at_ : time) : option time :=
  match qh with
  | None => None
  | Some qh =>
    match parseClockMinute (qStart qh), parseClockMinute (qEnd qh), load (qTimeZone qh) with
    | Some start, Some end_, Some loc =>
      if start =? end_ then None else
      let local := wall loc at_ in
      let date t := days_of_civil (civil_of_days (day_of (wall loc t))) in
      let midnight := date_in loc (days_of_civil (civil_of_days (day_of local))) 0 in
      let minute_ := ns_of_day local / (3600 * second) * 60 + ns_of_day local / minute mod 60 in
      let clock day m := date_in loc (date day) (m / 60 * 3600 * second + m mod 60 * minute) in
      if start <? end_ then
        if (start <=? minute_) && (minute_ <? end_) then Some (clock midnight end_) else None
      else if start <=? minute_ then Some (clock (next_day loc midnight) end_)
      else if minute_ <? end_ then Some (clock midnight end_)
      else None
    | _, _, _ => None
    end
  end.

(** ** The calendar is monotone *)

Lemma year_of_era_spec d : 0 <= d < 146097 →
  0 <= year_of_era d < 400 ∧ march (year_of_era d) <= d < march (year_of_era d + 1).
Proof.
  intros H. unfold year_of_era, march.
  Z.to_euclidean_division_equations. lia.
Qed.

Lemma march_shift y e : march (y + 400 * e) = march y + 146097 * e.
Proof.
  unfold march. replace (y + 400 * e) with (y + (100 * e) * 4) at 2 by lia.
  replace (y + 400 * e) with (y + (4 * e) * 100) at 2 by lia.
  replace (y + 400 * e) with (y + e * 400) at 2 by lia.
  rewrite !Z.div_add by lia. lia.
Qed.

Lemma march_year_spec z : march (march_year z) <= z < march (march_year z + 1).
Proof.
  unfold march_year.
  pose proof (Z.div_mod z 146097 ltac:(lia)) as Hz.
  pose proof (Z.mod_pos_bound z 146097 ltac:(lia)) as Hb.
  destruct (year_of_era_spec _ Hb) as [_ H].
  rewrite march_shift.
  replace (year_of_era (z mod 146097) + 400 * (z / 146097) + 1)
    with (year_of_era (z mod 146097) + 1 + 400 * (z / 146097)) by lia.
  rewrite march_shift. lia.
Qed.

Lemma march_step y : 365 <= march (y + 1) - march y <= 366.
Proof. unfold march. Z.to_euclidean_division_equations. lia. Qed.

Lemma march_mono y y' : y <= y' → march y <= march y'.
Proof. unfold march. intros. Z.to_euclidean_division_equations. lia. Qed.

Lemma month_index_spec d : 0 <= d < 366 →
  0 <= month_index d < 12 ∧ month_start (month_index d) <= d < month_start (month_index d + 1).
Proof. intros. unfold month_index, month_start. Z.to_euclidean_division_equations. lia. Qed.

Lemma month_start_mono a b : a <= b → month_start a <= month_start b.
Proof. unfold month_start. intros. Z.to_euclidean_division_equations. lia. Qed.

Lemma month_start_step a : 30 <= month_start (a + 1) - month_start a <= 31.
Proof. unfold month_start. Z.to_euclidean_division_equations. lia. Qed.

Definition civil_lt (a b : civil) : Prop :=
  cYear a < cYear b ∨ cYear a = cYear b ∧
    (cMonth a < cMonth b ∨ cMonth a = cMonth b ∧ cDay a < cDay b).

(** The parts of a day: its March year, month index and day of the month. *)
Lemma civil_parts n : ∃ y mp d, 0 <= mp < 12 ∧ 1 <= d <= 31 ∧ n + 306 = march y + month_start mp + d - 1 ∧
  n + 306 < march (y + 1) ∧ d <= month_start (mp + 1) - month_start mp ∧
  civil_of_days n = mkCivil (if mp <? 10 then y else y + 1) (if mp <? 10 then mp + 3 else mp - 9) d.
Proof.
  pose proof (march_year_spec (n + 306)) as Hy.
  pose proof (march_step (march_year (n + 306))) as Hs.
  destruct (month_index_spec (n + 306 - march (march_year (n + 306)))) as [Hm Hd]; [lia|].
  pose proof (month_start_step (month_index (n + 306 - march (march_year (n + 306))))) as Hms.
  eexists _, _, _. split_and!; [..|reflexivity]; lia.
Qed.

Lemma civil_range n : 1 <= cMonth (civil_of_days n) <= 12 ∧ 1 <= cDay (civil_of_days n) <= 31.
Proof.
  destruct (civil_parts n) as (y & mp & d & Hm & Hd & _ & _ & _ & ->). cbn.
  destruct (Z.ltb_spec mp 10); lia.
Qed.

Lemma days_civil n : days_of_civil (civil_of_days n) = n.
Proof.
  destruct (civil_parts n) as (y & mp & d & Hm & Hd & E & _ & _ & ->).
  unfold days_of_civil. cbn [cYear cMonth cDay].
  destruct (Z.ltb_spec mp 10); [rewrite (proj2 (Z.leb_gt _ _)) by lia|rewrite (proj2 (Z.leb_le _ _)) by lia].
  - replace (mp + 3 - 3) with mp by lia. lia.
  - replace (mp - 9 + 9) with mp by lia. replace (y + 1 - 1) with y by lia. lia.
Qed.

Lemma civil_mono n m : n < m → civil_lt (civil_of_days n) (civil_of_days m).
Proof.
  intros Hlt.
  destruct (civil_parts n) as (y1 & p1 & d1 & Hm1 & Hd1 & E1 & L1 & K1 & ->).
  destruct (civil_parts m) as (y2 & p2 & d2 & Hm2 & Hd2 & E2 & L2 & K2 & ->).
  assert (y1 <= y2). { destruct (Z.le_gt_cases y1 y2); [done|].
    pose proof (march_mono (y2 + 1) y1 ltac:(lia)).
    pose proof (month_start_mono 0 p1 ltac:(lia)). change (month_start 0) with 0 in *. lia. }
  assert (y1 = y2 → p1 <= p2) as Hp.
  { intros ->. destruct (Z.le_gt_cases p1 p2); [done|].
    pose proof (month_start_mono (p2 + 1) p1 ltac:(lia)). lia. }
  assert (y1 = y2 → p1 = p2 → d1 < d2) as Hd by (intros -> ->; lia).
  unfold civil_lt. cbn [cYear cMonth cDay].
  destruct (Z.ltb_spec p1 10), (Z.ltb_spec p2 10);
    destruct (decide (y1 = y2)) as [->|]; try lia;
    specialize (Hp eq_refl); destruct (decide (p1 = p2)) as [->|]; try specialize (Hd eq_refl eq_refl); lia.
Qed.

(** ** Keys sort as instants *)

Lemma str_compare_app_eq p b d : String.compare (p +:+ b) (p +:+ d) = String.compare b d.
Proof.
  induction p as [|c p IH]; [done|].
  change (match Ascii.compare c c with Eq => String.compare (p +:+ b) (p +:+ d) | r => r end = String.compare b d).
  unfold Ascii.compare. by rewrite N.compare_refl.
Qed.

Lemma str_compare_app_lt a b c d : String.length a = String.length c →
  String.compare a c = Lt → String.compare (a +:+ b) (c +:+ d) = Lt.
Proof.
  revert c. induction a as [|x a IH]; intros [|y c] Hl Hc; try done.
  change (match Ascii.compare x y with Eq => String.compare (a +:+ b) (c +:+ d) | r => r end = Lt).
  cbn [String.compare] in Hc. destruct (Ascii.compare x y); [|done|done].
  apply IH; [|done]. injection Hl as Hl. done.
Qed.

Lemma str_compare_refl s : String.compare s s = Eq.
Proof. induction s as [|c s IH]; [done|]. cbn. unfold Ascii.compare. by rewrite N.compare_refl. Qed.

Lemma length_digits w n : String.length (digits w n) = w.
Proof. revert n. induction w as [|w IH]; intros n; [done|]. cbn. rewrite str_length_app, IH. cbn. lia. Qed.

Lemma digit_lt a b : a mod 10 < b mod 10 → Ascii.compare (digit a) (digit b) = Lt.
Proof.
  intros H. unfold Ascii.compare, digit.
  pose proof (Z.mod_pos_bound a 10 ltac:(lia)). pose proof (Z.mod_pos_bound b 10 ltac:(lia)).
  rewrite !N_ascii_embedding by lia. apply N.compare_lt_iff. lia.
Qed.

Lemma digits_lt w a b : 0 <= a → a < b < 10 ^ Z.of_nat w →
  String.compare (digits w a) (digits w b) = Lt.
Proof.
  revert a b. induction w as [|w IH]; intros a b Ha Hb; [cbn in Hb; lia|].
  replace (10 ^ Z.of_nat (S w)) with (10 * 10 ^ Z.of_nat w) in Hb
    by (rewrite Nat2Z.inj_succ, Z.pow_succ_r by lia; done).
  cbn [digits]. destruct (Z.lt_ge_cases (a / 10) (b / 10)) as [Hlt|Hge].
  - apply str_compare_app_lt; [by rewrite !length_digits|]. apply IH; [apply Z.div_pos; lia|].
    split; [done|]. apply Z.div_lt_upper_bound; lia.
  - assert (a / 10 = b / 10) as -> by (pose proof (Z.div_le_mono a b 10 ltac:(lia) ltac:(lia)); lia).
    rewrite str_compare_app_eq. unfold str1. cbn [String.compare].
    rewrite digit_lt; [done|]. pose proof (Z.div_mod a 10). pose proof (Z.div_mod b 10). lia.
Qed.

(** A key field of [w] digits: fixed width, and it sorts as its number. *)
Lemma appendInt_digits w n : 0 <= n < 10 ^ Z.of_nat w → appendInt w n = digits w n.
Proof.
  intros H. unfold appendInt. rewrite (proj2 (Z.ltb_ge n 0)) by lia.
  rewrite Z.abs_eq by lia. rewrite (proj2 (Z.ltb_lt _ _)) by lia. done.
Qed.

Lemma field_lt w a b s t : 0 <= a → a < b → b < 10 ^ Z.of_nat w →
  String.compare (appendInt w a +:+ s) (appendInt w b +:+ t) = Lt.
Proof.
  intros. rewrite !appendInt_digits by lia. apply str_compare_app_lt; [by rewrite !length_digits|].
  apply digits_lt; lia.
Qed.

(** The instants whose year takes four digits. *)
Definition year_10000 : time := 3652059 * day_ns.
Definition keyable (t : time) : bool := (0 <=? t) && (t <? year_10000).

Lemma keyable_year t : keyable t = true → 0 <= cYear (civil_of_days (day_of t)) < 10000.
Proof.
  unfold keyable, day_of. intros H. go_bool. destruct H as [H0 H1].
  assert (0 <= t / day_ns < 3652059) as Hd.
  { unfold year_10000, day_ns, second in *. Z.to_euclidean_division_equations. lia. }
  pose proof (civil_mono (t / day_ns) 3652059 ltac:(lia)) as Hl.
  pose proof (civil_mono (-1) (t / day_ns) ltac:(lia)) as Hg.
  replace (civil_of_days 3652059) with (mkCivil 10000 1 1) in Hl by reflexivity.
  replace (civil_of_days (-1)) with (mkCivil 0 12 31) in Hg by reflexivity.
  pose proof (civil_range (t / day_ns)). unfold civil_lt in Hl, Hg. cbn [cYear cMonth cDay] in Hl, Hg. lia.
Qed.

Ltac field_eq := rewrite str_compare_app_eq.

Lemma clock_lt s s' : 0 <= s → s < s' < day_ns → ∀ x y,
  String.compare
   (appendInt 2 (s / (3600 * second)) +:+ ":" +:+ appendInt 2 (s / minute mod 60) +:+ ":" +:+
    appendInt 2 (s / second mod 60) +:+ "." +:+ appendInt 9 (s mod second) +:+ x)
   (appendInt 2 (s' / (3600 * second)) +:+ ":" +:+ appendInt 2 (s' / minute mod 60) +:+ ":" +:+
    appendInt 2 (s' / second mod 60) +:+ "." +:+ appendInt 9 (s' mod second) +:+ y) = Lt.
Proof.
  intros H0 H1 x y.
  assert (0 <= s / (3600 * second) <= s' / (3600 * second) ∧ s' / (3600 * second) < 24) as Hh
    by (unfold day_ns, second in *; Z.to_euclidean_division_equations; lia).
  destruct (Z.lt_ge_cases (s / (3600 * second)) (s' / (3600 * second))); [apply field_lt; cbn; lia|].
  assert (s / (3600 * second) = s' / (3600 * second)) as Eh by lia. rewrite Eh.
  do 2 field_eq.
  assert (0 <= s / minute mod 60 <= s' / minute mod 60 ∧ s' / minute mod 60 < 60) as Hm
    by (unfold minute, day_ns, second in *; Z.to_euclidean_division_equations; lia).
  destruct (Z.lt_ge_cases (s / minute mod 60) (s' / minute mod 60)); [apply field_lt; cbn; lia|].
  assert (s / minute mod 60 = s' / minute mod 60) as Em by lia. rewrite Em. do 2 field_eq.
  assert (0 <= s / second mod 60 <= s' / second mod 60 ∧ s' / second mod 60 < 60) as Hs
    by (unfold minute, day_ns, second in *; Z.to_euclidean_division_equations; lia).
  destruct (Z.lt_ge_cases (s / second mod 60) (s' / second mod 60)); [apply field_lt; cbn; lia|].
  assert (s / second mod 60 = s' / second mod 60) as Es by lia. rewrite Es. do 2 field_eq.
  apply field_lt; [apply Z.mod_pos_bound; done| |].
  - unfold minute, day_ns, second in *. Z.to_euclidean_division_equations; lia.
  - unfold second. pose proof (Z.mod_pos_bound s' 1000000000). cbn. lia.
Qed.

Lemma format_key_lt t u x y : keyable t = true → keyable u = true → t < u →
  String.compare (format_key t +:+ x) (format_key u +:+ y) = Lt.
Proof.
  intros Ht Hu Hlt. unfold format_key. rewrite !str_app_assoc.
  apply keyable_year in Ht, Hu.
  pose proof (civil_range (day_of t)) as Rt. pose proof (civil_range (day_of u)) as Ru.
  destruct (Z.lt_ge_cases (day_of t) (day_of u)) as [Hd|Hd].
  - apply civil_mono in Hd. unfold civil_lt in Hd.
    destruct (civil_of_days (day_of t)) as [y1 m1 d1], (civil_of_days (day_of u)) as [y2 m2 d2].
    cbn [cYear cMonth cDay] in *.
    destruct (Z.lt_ge_cases y1 y2); [apply field_lt; cbn; lia|].
    assert (y1 = y2) as -> by lia. do 2 field_eq.
    destruct (Z.lt_ge_cases m1 m2); [apply field_lt; cbn; lia|].
    assert (m1 = m2) as -> by lia. do 2 field_eq. apply field_lt; cbn; lia.
  - assert (day_of t = day_of u) as E.
    { unfold day_of in *. pose proof (Z.div_le_mono t u day_ns ltac:(done) ltac:(lia)). lia. }
    rewrite E. do 6 field_eq. apply clock_lt; unfold ns_of_day.
    + apply Z.mod_pos_bound. done.
    + unfold day_of in E. pose proof (Z.div_mod t day_ns ltac:(done)). pose proof (Z.div_mod u day_ns ltac:(done)).
      pose proof (Z.mod_pos_bound u day_ns ltac:(done)). nia.
Qed.

Lemma format_key_compare t u x y : keyable t = true → keyable u = true →
  String.compare (format_key t +:+ x) (format_key u +:+ y) =
  match t ?= u with Eq => String.compare x y | r => r end.
Proof.
  intros Ht Hu. destruct (Z.compare_spec t u) as [->|H|H].
  - apply str_compare_app_eq.
  - by apply format_key_lt.
  - rewrite String.compare_antisym, format_key_lt by done. done.
Qed.

(** ** Quiet hours *)

Example clock_parses : parseClockMinute "22:05" = Some 1325 ∧ parseClockMinute "9:05" = None ∧
  parseClockMinute "24:00" = None ∧ parseClockMinute "09:60" = None.
Proof. done. Qed.

Definition minute_of_day (z : zone) (t : time) : Z := ns_of_day (wall z t) / minute.
(** The daily window, past midnight when its end is not after its start. *)
Definition in_window (start end_ m : Z) : bool :=
  if start <? end_ then (start <=? m) && (m <? end_) else (start <=? m) || (m <? end_).

(** The clock of the zone is not changed within four days of [t]. *)
Definition steady (z : zone) (t : time) : Prop :=
  -86400 <= z t <= 86400 ∧ ∀ u, t - 4 * day_ns <= u <= t + 4 * day_ns → z u = z t.

Lemma minute_of_day_hm s : s / (3600 * second) * 60 + s / minute mod 60 = s / minute.
Proof.
  unfold minute. replace (3600 * second) with (60 * second * 60) by lia.
  rewrite <- Z.div_div by (unfold second; lia). pose proof (Z.div_mod (s / (60 * second)) 60). lia.
Qed.

Lemma date_in_steady z t n ns : steady z t →
  t - 2 * day_ns <= n * day_ns + ns - z t * second <= t + 2 * day_ns →
  date_in z n ns = n * day_ns + ns - z t * second.
Proof.
  intros [Hz Hs] Hr. unfold date_in.
  assert (z (n * day_ns + ns) = z t) as E1 by (apply Hs; unfold day_ns, second in *; lia).
  rewrite E1. destruct (Z.eqb_spec (z t) 0) as [E0|E0]; [rewrite E0; lia|].
  rewrite (Hs (n * day_ns + ns - z t * second)); [done|]. unfold day_ns, second in *; lia.
Qed.

Lemma wall_steady z t u : steady z t → t - 4 * day_ns <= u <= t + 4 * day_ns → wall z u = u + z t * second.
Proof. intros [_ Hs] Hu. unfold wall. by rewrite Hs. Qed.

Lemma is_digit_val c : is_digit c = true → 0 <= digit_val c <= 9.
Proof.
  unfold is_digit, in_range, digit_val. intros [H1 H2]%andb_true_iff.
  apply Z.leb_le in H1, H2. change (code "0") with 48 in H1. change (code "9") with 57 in H2. lia.
Qed.

Lemma parseClockMinute_range v m : parseClockMinute v = Some m → 0 <= m < 1440.
Proof.
  unfold parseClockMinute.
  repeat match goal with |- context [match ?x with _ => _ end] => destruct x eqn:? end; try discriminate.
  intros [= <-].
  repeat match goal with H : _ && _ = true |- _ => apply andb_true_iff in H as [H ?] end.
  repeat match goal with H : is_digit _ = true |- _ => apply is_digit_val in H end.
  go_bool. lia.
Qed.

Lemma days_next_day c : days_of_civil (mkCivil (cYear c) (cMonth c) (cDay c + 1)) = days_of_civil c + 1.
Proof. unfold days_of_civil. cbn [cYear cMonth cDay]. lia. Qed.

Lemma clock_ns m : 0 <= m → m / 60 * 3600 * second + m mod 60 * minute = m * minute.
Proof. intros. unfold minute. pose proof (Z.div_mod m 60). lia. Qed.

(** What a window's end comes to while the zone's clock is steady. *)
Lemma quietHoursEnd_steady load qh at_ start end_ loc :
  parseClockMinute (qStart qh) = Some start → parseClockMinute (qEnd qh) = Some end_ →
  load (qTimeZone qh) = Some loc → start ≠ end_ → steady loc at_ →
  quietHoursEnd load (Some qh) at_ =
    let d := day_of (wall loc at_) in
    let m := minute_of_day loc at_ in
    let off := loc at_ * second in
    if in_window start end_ m then
      Some ((if (start <? end_) || (m <? start) then d else d + 1) * day_ns + end_ * minute - off)
    else None.
Proof.
  intros Hs He Hl Hne Hst. unfold quietHoursEnd. rewrite Hs, He, Hl.
  rewrite (proj2 (Z.eqb_neq start end_) Hne). cbv zeta.
  rewrite minute_of_day_hm. fold (minute_of_day loc at_).
  apply parseClockMinute_range in Hs, He.
  set (m := minute_of_day loc at_). set (d := day_of (wall loc at_)).
  rewrite !days_civil. fold d.
  assert (wall loc at_ = at_ + loc at_ * second) as Hw by done.
  assert (d * day_ns <= at_ + loc at_ * second < (d + 1) * day_ns) as Hd.
  { unfold d, day_of. rewrite Hw. pose proof (Z.div_mod (at_ + loc at_ * second) day_ns ltac:(done)).
    pose proof (Z.mod_pos_bound (at_ + loc at_ * second) day_ns ltac:(done)). lia. }
  assert (end_ * minute < day_ns ∧ 0 <= end_ * minute) as He' by (unfold minute, day_ns, second; lia).
  assert (0 < day_ns) by done.
  rewrite (date_in_steady loc at_ d 0) by (done || lia).
  assert (wall loc (d * day_ns + 0 - loc at_ * second) = d * day_ns) as Hwm.
  { rewrite (wall_steady _ _ _ Hst) by lia. lia. }
  unfold next_day. rewrite Hwm, days_next_day, !days_civil. unfold day_of, ns_of_day.
  rewrite !Z.div_mul, !Z.mod_mul by done.
  rewrite (date_in_steady loc at_ (d + 1) 0) by (done || lia).
  rewrite (wall_steady loc at_) by (done || lia).
  replace ((d + 1) * day_ns + 0 - loc at_ * second + loc at_ * second) with ((d + 1) * day_ns) by lia.
  rewrite !Z.div_mul, !clock_ns by (done || lia).
  rewrite !(date_in_steady loc at_) by (done || lia).
  unfold in_window.
  destruct (Z.ltb_spec start end_), (Z.leb_spec start m), (Z.ltb_spec m end_), (Z.ltb_spec m start); cbn [andb orb];
    done || lia.
Qed.

Lemma minute_window_day (d lo hi W : Z) :
  d * day_ns + lo * minute <= W < d * day_ns + hi * minute → 0 <= lo → hi <= 1440 →
  lo <= W mod day_ns / minute < hi.
Proof.
  intros H Hlo Hhi.
  assert (W / day_ns = d) as <-.
  { unfold minute, day_ns, second in *. Z.to_euclidean_division_equations. lia. }
  unfold minute, day_ns, second in *. Z.to_euclidean_division_equations. lia.
Qed.

Lemma minute_of_steady loc at_ t : steady loc at_ → at_ <= t <= at_ + day_ns →
  minute_of_day loc t = (t + loc at_ * second) mod day_ns / minute.
Proof.
  intros Hst Ht. unfold minute_of_day. rewrite (wall_steady _ _ _ Hst); [done|].
  assert (0 < day_ns) by done. lia.
Qed.

(** Quiet hours hold a message exactly to the end of the window: while the
    zone's clock is not changed, [quietHoursEnd] answers an instant exactly
    when the local time is inside the window, and the instant is the first one
    outside it, at most a day away. *)
Theorem quiet_hours_exact load qh at_ start end_ loc :
  parseClockMinute (qStart qh) = Some start → parseClockMinute (qEnd qh) = Some end_ →
  load (qTimeZone qh) = Some loc → start ≠ end_ → steady loc at_ →
  match quietHoursEnd load (Some qh) at_ with
  | Some u =>
      in_window start end_ (minute_of_day loc at_) = true ∧ at_ < u <= at_ + day_ns ∧
      (∀ t, at_ <= t < u → in_window start end_ (minute_of_day loc t) = true) ∧
      in_window start end_ (minute_of_day loc u) = false
  | None => in_window start end_ (minute_of_day loc at_) = false
  end.
Proof.
  intros Hs He Hl Hne Hst.
  rewrite (quietHoursEnd_steady load qh at_ start end_ loc) by done. cbv zeta.
  destruct (in_window start end_ (minute_of_day loc at_)) eqn:Hin; [|done].
  apply parseClockMinute_range in Hs, He.
  set (d := day_of (wall loc at_)). set (off := loc at_ * second).
  set (m := minute_of_day loc at_) in *.
  assert (d * day_ns + m * minute <= at_ + off < d * day_ns + (m + 1) * minute ∧ 0 <= m < 1440) as [Hat Hm].
  { unfold d, m, day_of, minute_of_day, ns_of_day, wall. fold off.
    unfold minute, day_ns, second. Z.to_euclidean_division_equations. lia. }
  set (e := if (start <? end_) || (m <? start) then d else d + 1).
  assert (at_ + off < e * day_ns + end_ * minute <= at_ + off + day_ns ∧
    (e = d ∧ m < end_ ∧ (start < end_ → start <= m) ∨ e = d + 1 ∧ end_ < start <= m)) as [Hu Hcase].
  { unfold e, in_window in *. unfold minute, day_ns, second in *.
    destruct (Z.ltb_spec start end_), (Z.ltb_spec m start); cbn [orb] in *; go_bool; lia. }
  split; [done|]. split; [lia|]. split.
  - intros t Ht. rewrite (minute_of_steady loc at_) by (done || lia). fold off.
    unfold in_window. destruct Hcase as [(-> & ? & ?)|[-> ?]].
    + assert (m <= (t + off) mod day_ns / minute < end_) by (apply (minute_window_day d); lia).
      destruct (Z.ltb_spec start end_); go_bool; lia.
    + rewrite (proj2 (Z.ltb_ge start end_)) by lia. go_bool.
      destruct (Z.lt_ge_cases (t + off) ((d + 1) * day_ns)).
      * left. assert (m <= (t + off) mod day_ns / minute < 1440); [|lia].
        apply (minute_window_day d); [|lia..]. unfold minute, day_ns, second in *. lia.
      * right. assert (0 <= (t + off) mod day_ns / minute < end_); [|lia].
        apply (minute_window_day (d + 1)); lia.
  - rewrite (minute_of_steady loc at_) by (done || lia). fold off.
    replace (e * day_ns + end_ * minute - off + off) with (e * day_ns + end_ * minute) by lia.
    assert (end_ <= (e * day_ns + end_ * minute) mod day_ns / minute < end_ + 1)
      by (apply (minute_window_day e); unfold minute, second; lia).
    unfold in_window. destruct (Z.ltb_spec start end_); go_bool; lia.
Qed.

Definition shanghai : zone := fun _ => 8 * 3600.
Definition one_zone (name : string) (z : zone) (s : string) : option zone := if s =?? name then Some z else None.

Definition late : time := 739000 * day_ns + 15 * 3600 * second.
Lemma quiet_hours_exact_witness :
  match quietHoursEnd (one_zone "Asia/Shanghai" shanghai) (Some (mkQuiet "22:00" "07:00" "Asia/Shanghai")) late with
  | Some u =>
      in_window 1320 420 (minute_of_day shanghai late) = true ∧ late < u <= late + day_ns ∧
      (∀ t, late <= t < u → in_window 1320 420 (minute_of_day shanghai t) = true) ∧
      in_window 1320 420 (minute_of_day shanghai u) = false
  | None => in_window 1320 420 (minute_of_day shanghai late) = false
  end.
Proof.
  apply (quiet_hours_exact (one_zone "Asia/Shanghai" shanghai)); [reflexivity..|discriminate|].
  split; [unfold shanghai; lia|]. intros; reflexivity.
Defined.

(** In a zone west of Greenwich that turns its clocks forward at midnight
    (America/Santiago on 7 September 2025, 04:00 UTC), [time.Date] places the
    missing midnight of that day at 23:00 of the day before, and the end of
    the window is computed on that day. *)
Definition santiago_shift : time := days_of_civil (mkCivil 2025 9 7) * day_ns + 4 * 3600 * second.
Definition santiago : zone := fun t => if t <? santiago_shift then - (4 * 3600) else - (3 * 3600).

(** On the night the clocks go forward at midnight, the hold ends before
    it begins: at 03:00 local time, inside a 22:00 to 07:00 window, the
    instant [quietHoursEnd] holds the message until is nineteen hours in the
    past. *)
Theorem quiet_hours_lost_at_midnight_shift :
  let at_ := santiago_shift + 2 * 3600 * second in
  let qh := mkQuiet "22:00" "07:00" "America/Santiago" in
  minute_of_day santiago at_ = 180 ∧ in_window 1320 420 180 = true ∧
  quietHoursEnd (one_zone "America/Santiago" santiago) (Some qh) at_ = Some (at_ - 19 * 3600 * second).
Proof. vm_compute. auto. Qed.
