(* ===== verification/Outbox.v ===== *)
(** * The notification outbox ([internal/store/notify_outbox.go])

    One record per message and channel with a receipt per attempt, the health
    of each channel and the queued lines of the alert digest, with the
    indexes the store keeps beside them, the bounds it evicts to, and the
    mirror on the bolt hot store ([store/bolt_notify_outbox.go]).

    Rows are kept by id; the order of the outbox is the sorted list of row
    keys, an instant in a sortable layout followed by the id.  Maps are
    ranged over in an order the operation is given ([rorder]).  A record read
    back from bolt is the record written (JSON round trip of the struct), and
    a value handed out is a copy, so records are values here. *)

From Stdlib Require Import ZArith Lia Ascii.
From stdpp Require Import gmap strings sorting.
From S2P Require Import Prelude GoStr Incidents Clock.

Local Open Scope Z_scope.

Definition NotifyOutcomePlanned : string := "planned".
Definition NotifyOutcomeSent : string := "sent".
Definition NotifyOutcomeFailed : string := "failed".
Definition NotifyOutcomeNoRoute : string := "no_route".
Definition NotifyOutcomeSuppressed : string := "suppressed".
Definition MaxNotifyDeliveries : Z := 1000.
Definition NotifyDeliveryFloorPerSource : Z := 50.
Definition MaxNotifyNoRouteDeliveries : Z := 100.
Definition NotifyNoRouteCollapseWindow : duration := hour.
Definition notifyNoRoutePersistEvery : duration := minute.
Definition MaxNotifyBodyBytes : nat := 4096.
Definition maxNotifyDigestLines : Z := 500.

Record NotifyAttempt := mkAttempt { atAt : time; atOK : bool; atKind : string; atStatus : Z; atDurationMS : Z }.
Record NotifyDelivery := mkDelivery {
  ndID : string; ndEventID : string; ndEventType : string; ndSource : string; ndSourceID : string;
  ndSourceRef : string; ndRuleID : string; ndRuleName : string; ndChannelID : string;
  ndChannelName : string; ndChannelKind : string; ndRole : string; ndFallbackFor : string;
  ndFallbackOf : string; ndOutcome : string; ndReason : string; ndAttempts : list NotifyAttempt;
  ndNextAttemptAt : time; ndRedriven : bool; ndTitle : string; ndBody : string; ndTruncated : bool;
  ndCreatedAt : time; ndSettledAt : time; ndRepeats : Z; ndLastSeenAt : time; ndBarkLevel : string;
  ndHeldUntil : time; ndIncidentIDs : list string }.
Definition with_ndOutcome (v : string) (d : NotifyDelivery) : NotifyDelivery :=
  mkDelivery (ndID d) (ndEventID d) (ndEventType d) (ndSource d) (ndSourceID d) (ndSourceRef d) (ndRuleID d)
    (ndRuleName d) (ndChannelID d) (ndChannelName d) (ndChannelKind d) (ndRole d) (ndFallbackFor d)
    (ndFallbackOf d) v (ndReason d) (ndAttempts d) (ndNextAttemptAt d) (ndRedriven d) (ndTitle d) (ndBody d)
    (ndTruncated d) (ndCreatedAt d) (ndSettledAt d) (ndRepeats d) (ndLastSeenAt d) (ndBarkLevel d)
    (ndHeldUntil d) (ndIncidentIDs d).
Definition with_ndReason (v : string) (d : NotifyDelivery) : NotifyDelivery :=
  mkDelivery (ndID d) (ndEventID d) (ndEventType d) (ndSource d) (ndSourceID d) (ndSourceRef d) (ndRuleID d)
    (ndRuleName d) (ndChannelID d) (ndChannelName d) (ndChannelKind d) (ndRole d) (ndFallbackFor d)
    (ndFallbackOf d) (ndOutcome d) v (ndAttempts d) (ndNextAttemptAt d) (ndRedriven d) (ndTitle d) (ndBody d)
    (ndTruncated d) (ndCreatedAt d) (ndSettledAt d) (ndRepeats d) (ndLastSeenAt d) (ndBarkLevel d)
    (ndHeldUntil d) (ndIncidentIDs d).
Definition with_ndAttempts (v : list NotifyAttempt) (d : NotifyDelivery) : NotifyDelivery :=
  mkDelivery (ndID d) (ndEventID d) (ndEventType d) (ndSource d) (ndSourceID d) (ndSourceRef d) (ndRuleID d)
    (ndRuleName d) (ndChannelID d) (ndChannelName d) (ndChannelKind d) (ndRole d) (ndFallbackFor d)
    (ndFallbackOf d) (ndOutcome d) (ndReason d) v (ndNextAttemptAt d) (ndRedriven d) (ndTitle d) (ndBody d)
    (ndTruncated d) (ndCreatedAt d) (ndSettledAt d) (ndRepeats d) (ndLastSeenAt d) (ndBarkLevel d)
    (ndHeldUntil d) (ndIncidentIDs d).
Definition with_ndNextAttemptAt (v : time) (d : NotifyDelivery) : NotifyDelivery :=
  mkDelivery (ndID d) (ndEventID d) (ndEventType d) (ndSource d) (ndSourceID d) (ndSourceRef d) (ndRuleID d)
    (ndRuleName d) (ndChannelID d) (ndChannelName d) (ndChannelKind d) (ndRole d) (ndFallbackFor d)
    (ndFallbackOf d) (ndOutcome d) (ndReason d) (ndAttempts d) v (ndRedriven d) (ndTitle d) (ndBody d)
    (ndTruncated d) (ndCreatedAt d) (ndSettledAt d) (ndRepeats d) (ndLastSeenAt d) (ndBarkLevel d)
    (ndHeldUntil d) (ndIncidentIDs d).
Definition with_ndRedriven (v : bool) (d : NotifyDelivery) : NotifyDelivery :=
  mkDelivery (ndID d) (ndEventID d) (ndEventType d) (ndSource d) (ndSourceID d) (ndSourceRef d) (ndRuleID d)
    (ndRuleName d) (ndChannelID d) (ndChannelName d) (ndChannelKind d) (ndRole d) (ndFallbackFor d)
    (ndFallbackOf d) (ndOutcome d) (ndReason d) (ndAttempts d) (ndNextAttemptAt d) v (ndTitle d) (ndBody d)
    (ndTruncated d) (ndCreatedAt d) (ndSettledAt d) (ndRepeats d) (ndLastSeenAt d) (ndBarkLevel d)
    (ndHeldUntil d) (ndIncidentIDs d).
Definition with_ndTitle (v : string) (d : NotifyDelivery) : NotifyDelivery :=
  mkDelivery (ndID d) (ndEventID d) (ndEventType d) (ndSource d) (ndSourceID d) (ndSourceRef d) (ndRuleID d)
    (ndRuleName d) (ndChannelID d) (ndChannelName d) (ndChannelKind d) (ndRole d) (ndFallbackFor d)
    (ndFallbackOf d) (ndOutcome d) (ndReason d) (ndAttempts d) (ndNextAttemptAt d) (ndRedriven d) v (ndBody d)
    (ndTruncated d) (ndCreatedAt d) (ndSettledAt d) (ndRepeats d) (ndLastSeenAt d) (ndBarkLevel d)
    (ndHeldUntil d) (ndIncidentIDs d).
Definition with_ndBody (v : string) (d : NotifyDelivery) : NotifyDelivery :=
  mkDelivery (ndID d) (ndEventID d) (ndEventType d) (ndSource d) (ndSourceID d) (ndSourceRef d) (ndRuleID d)
    (ndRuleName d) (ndChannelID d) (ndChannelName d) (ndChannelKind d) (ndRole d) (ndFallbackFor d)
    (ndFallbackOf d) (ndOutcome d) (ndReason d) (ndAttempts d) (ndNextAttemptAt d) (ndRedriven d) (ndTitle d) v
    (ndTruncated d) (ndCreatedAt d) (ndSettledAt d) (ndRepeats d) (ndLastSeenAt d) (ndBarkLevel d)
    (ndHeldUntil d) (ndIncidentIDs d).
Definition with_ndTruncated (v : bool) (d : NotifyDelivery) : NotifyDelivery :=
  mkDelivery (ndID d) (ndEventID d) (ndEventType d) (ndSource d) (ndSourceID d) (ndSourceRef d) (ndRuleID d)
    (ndRuleName d) (ndChannelID d) (ndChannelName d) (ndChannelKind d) (ndRole d) (ndFallbackFor d)
    (ndFallbackOf d) (ndOutcome d) (ndReason d) (ndAttempts d) (ndNextAttemptAt d) (ndRedriven d) (ndTitle d)
    (ndBody d) v (ndCreatedAt d) (ndSettledAt d) (ndRepeats d) (ndLastSeenAt d) (ndBarkLevel d) (ndHeldUntil d)
    (ndIncidentIDs d).
Definition with_ndSettledAt (v : time) (d : NotifyDelivery) : NotifyDelivery :=
  mkDelivery (ndID d) (ndEventID d) (ndEventType d) (ndSource d) (ndSourceID d) (ndSourceRef d) (ndRuleID d)
    (ndRuleName d) (ndChannelID d) (ndChannelName d) (ndChannelKind d) (ndRole d) (ndFallbackFor d)
    (ndFallbackOf d) (ndOutcome d) (ndReason d) (ndAttempts d) (ndNextAttemptAt d) (ndRedriven d) (ndTitle d)
    (ndBody d) (ndTruncated d) (ndCreatedAt d) v (ndRepeats d) (ndLastSeenAt d) (ndBarkLevel d) (ndHeldUntil d)
    (ndIncidentIDs d).
Definition with_ndRepeats (v : Z) (d : NotifyDelivery) : NotifyDelivery :=
  mkDelivery (ndID d) (ndEventID d) (ndEventType d) (ndSource d) (ndSourceID d) (ndSourceRef d) (ndRuleID d)
    (ndRuleName d) (ndChannelID d) (ndChannelName d) (ndChannelKind d) (ndRole d) (ndFallbackFor d)
    (ndFallbackOf d) (ndOutcome d) (ndReason d) (ndAttempts d) (ndNextAttemptAt d) (ndRedriven d) (ndTitle d)
    (ndBody d) (ndTruncated d) (ndCreatedAt d) (ndSettledAt d) v (ndLastSeenAt d) (ndBarkLevel d)
    (ndHeldUntil d) (ndIncidentIDs d).
Definition with_ndLastSeenAt (v : time) (d : NotifyDelivery) : NotifyDelivery :=
  mkDelivery (ndID d) (ndEventID d) (ndEventType d) (ndSource d) (ndSourceID d) (ndSourceRef d) (ndRuleID d)
    (ndRuleName d) (ndChannelID d) (ndChannelName d) (ndChannelKind d) (ndRole d) (ndFallbackFor d)
    (ndFallbackOf d) (ndOutcome d) (ndReason d) (ndAttempts d) (ndNextAttemptAt d) (ndRedriven d) (ndTitle d)
    (ndBody d) (ndTruncated d) (ndCreatedAt d) (ndSettledAt d) (ndRepeats d) v (ndBarkLevel d) (ndHeldUntil d)
    (ndIncidentIDs d).
Definition zero_delivery : NotifyDelivery :=
  mkDelivery "" "" "" "" "" "" "" "" "" "" "" "" "" "" "" "" [] 0 false "" "" false 0 0 0 0 "" 0 [].


Definition Unsent (d : NotifyDelivery) : bool :=
  (ndOutcome d =?? NotifyOutcomeNoRoute) || (ndOutcome d =?? NotifyOutcomeSuppressed).
Definition sourceKey (d : NotifyDelivery) : string := ndSource d +:+ "/" +:+ ndSourceID d.
Definition noRouteKey (d : NotifyDelivery) : string :=
  ndOutcome d +:+ "/" +:+ ndSource d +:+ "/" +:+ ndSourceID d +:+ "/" +:+ ndEventType d +:+ "/" +:+ ndReason d.
Definition Settled (d : NotifyDelivery) : bool := negb (ndOutcome d =?? NotifyOutcomePlanned).

Definition ClampNotifyText (title body : string) : string * string * bool :=
  let '(t, cutTitle) := TruncateUTF8 title MaxNotifyTitleBytes in
  let '(b, cutBody) := TruncateUTF8 body MaxNotifyBodyBytes in
  (t, b, cutTitle || cutBody).
Definition clampNotifyDelivery (d : NotifyDelivery) : NotifyDelivery :=
  let '(t, b, cut) := ClampNotifyText (ndTitle d) (ndBody d) in
  with_ndTruncated (ndTruncated d || cut) (with_ndBody b (with_ndTitle t d)).
Definition clampNotifyDeliveries : list NotifyDelivery → list NotifyDelivery := map clampNotifyDelivery.

Record NotifyChannelHealth := mkHealth {
  hChannelID : string; hLastAttemptAt : time; hLastOKAt : time; hLastFailureAt : time; hLastFailureKind : string;
  hLastStatusCode : Z; hConsecutiveFailures : Z; hFailingSince : time; hAnnounced : bool; hAnnouncedAt : time;
  hLastFallbackAt : time; hLastFallbackChannelID : string; hFallbacks : Z }.
Record NotifyDigestLine := mkDigestLine {
  dlKey : string; dlEventType : string; dlSortKey : string; dlTitle : string; dlBody : string; dlLine : string;
  dlQueuedAt : time }.

(** ** The outbox and its indexes *)

Record notifyOutbox := mkOutbox {
  rows : gmap string NotifyDelivery; row_order : list string;
  health : gmap string NotifyChannelHealth; digest : gmap string NotifyDigestLine;
  byEvent : gmap string (gset string); unsettled : gset string;
  noRouteLatest : gmap string string; noRouteWritten : gmap string time }.
Definition empty_outbox : notifyOutbox := mkOutbox ∅ [] ∅ ∅ ∅ ∅ ∅ ∅.
(** An order in which Go ranges over the rows. *)
Definition rorder : Type := gmap string NotifyDelivery → list NotifyDelivery.
Definition valid_rorder (r : rorder) : Prop := ∀ m, r m ≡ₚ (map_to_list m).*2.

Definition notifyDeliveryKey (d : NotifyDelivery) : string := format_key (ndCreatedAt d) +:+ "/" +:+ ndID d.
Definition notifyDeliveryBefore (a b : NotifyDelivery) : bool :=
  if negb (ndCreatedAt a =? ndCreatedAt b) then before (ndCreatedAt a) (ndCreatedAt b)
  else String.ltb (ndID a) (ndID b).
(** What follows the last slash. *)
Fixpoint after_slash (best key : string) : string :=
  match key with
  | "" => best
  | String c key => after_slash (if c =?? "/"%char then key else best) key
  end.
Definition idFromNotifyKey (key : string) : string := after_slash key key.
Definition row_at (o : notifyOutbox) (key : string) : NotifyDelivery :=
  default zero_delivery (rows o !! idFromNotifyKey key).

Definition with_rows (m : gmap string NotifyDelivery) (o : notifyOutbox) : notifyOutbox :=
  mkOutbox m (row_order o) (health o) (digest o) (byEvent o) (unsettled o) (noRouteLatest o) (noRouteWritten o).
Definition with_written (m : gmap string time) (o : notifyOutbox) : notifyOutbox :=
  mkOutbox (rows o) (row_order o) (health o) (digest o) (byEvent o) (unsettled o) (noRouteLatest o) m.

Definition rebuildOrder (r : rorder) (o : notifyOutbox) : notifyOutbox :=
  mkOutbox (rows o) (sort_strings (map notifyDeliveryKey (r (rows o)))) (health o) (digest o) (byEvent o) (unsettled o)
    (noRouteLatest o) (noRouteWritten o).
Definition indexLocked (d : NotifyDelivery) (o : notifyOutbox) : notifyOutbox :=
  let latest :=
    if Unsent d then
      let key := noRouteKey d in
      match rows o !! default "" (noRouteLatest o !! key) with
      | Some cur =>
        if negb (after (ndCreatedAt cur) (ndCreatedAt d)) then <[key := ndID d]> (noRouteLatest o) else noRouteLatest o
      | None => <[key := ndID d]> (noRouteLatest o)
      end
    else noRouteLatest o in
  mkOutbox (rows o) (row_order o) (health o) (digest o)
    (<[ndEventID d := {[ndID d]} ∪ default ∅ (byEvent o !! ndEventID d)]> (byEvent o))
    (if Settled d then unsettled o ∖ {[ndID d]} else {[ndID d]} ∪ unsettled o) latest (noRouteWritten o).
Definition unindexLocked (d : NotifyDelivery) (o : notifyOutbox) : notifyOutbox :=
  let events :=
    match byEvent o !! ndEventID d with
    | None => byEvent o
    | Some ids =>
      let ids := ids ∖ {[ndID d]} in
      if ids =?? ∅ then delete (ndEventID d) (byEvent o) else <[ndEventID d := ids]> (byEvent o)
    end in
  mkOutbox (rows o) (row_order o) (health o) (digest o) events (unsettled o ∖ {[ndID d]})
    (if default "" (noRouteLatest o !! noRouteKey d) =?? ndID d then delete (noRouteKey d) (noRouteLatest o)
     else noRouteLatest o) (noRouteWritten o).
Definition reindex (r : rorder) (o : notifyOutbox) : notifyOutbox :=
  rebuildOrder r (foldl (fun o d => indexLocked d o)
    (mkOutbox (rows o) (row_order o) (health o) (digest o) ∅ ∅ ∅ (noRouteWritten o)) (r (rows o))).

(** ** Eviction *)

(** Unsent rows, oldest first, until neither bound is exceeded. *)
Fixpoint take_unsent (o : notifyOutbox) (added : list string) (keys : list string) (excess excessNoRoute : Z)
  : list NotifyDelivery * Z :=
  match keys with
  | [] => ([], excess)
  | key :: keys =>
    if (excess <=? 0) && (excessNoRoute <=? 0) then ([], excess) else
    let d := row_at o key in
    if negb (Unsent d) || mem (ndID d) added then take_unsent o added keys excess excessNoRoute
    else let '(vs, e) := take_unsent o added keys (excess - 1) (excessNoRoute - 1) in (d :: vs, e)
  end.
Definition count_of (m : gmap string Z) (k : string) : Z := default 0 (m !! k).
Record picked := mkPicked { pkVictims : list NotifyDelivery; pkTaken : list string; pkPerSource : gmap string Z; pkExcess : Z }.
(** Settled deliveries, oldest first, of sources above the floor when it is
    respected. *)
Definition pick_one (o : notifyOutbox) (added : list string) (respectFloor : bool) (p : picked) (key : string) : picked :=
  if pkExcess p <=? 0 then p else
  let d := row_at o key in
  if mem (ndID d) (pkTaken p) || mem (ndID d) added || negb (Settled d) || Unsent d then p else
  if respectFloor && (count_of (pkPerSource p) (sourceKey d) <=? NotifyDeliveryFloorPerSource) then p else
  mkPicked (pkVictims p ++ [d]) (ndID d :: pkTaken p)
    (<[sourceKey d := count_of (pkPerSource p) (sourceKey d) - 1]> (pkPerSource p)) (pkExcess p - 1).
Definition pick (o : notifyOutbox) (added : list string) (respectFloor : bool) (p : picked) : picked :=
  foldl (pick_one o added respectFloor) p (row_order o).
Definition is_new (o : notifyOutbox) (d : NotifyDelivery) : bool :=
  match rows o !! ndID d with Some _ => false | None => true end.
Definition count_if (p : NotifyDelivery → bool) (l : list NotifyDelivery) : Z := Z.of_nat (length (List.filter p l)).
Definition bump (m : gmap string Z) (d : NotifyDelivery) : gmap string Z :=
  <[sourceKey d := count_of m (sourceKey d) + 1]> m.
Definition evictionLocked (r : rorder) (adding : list NotifyDelivery) (o : notifyOutbox) : list NotifyDelivery :=
  let added := map ndID adding in
  let newRows := count_if (is_new o) adding in
  let newNoRoute := count_if (fun d => is_new o d && Unsent d) adding in
  let excess := Z.of_nat (size (rows o)) + newRows - MaxNotifyDeliveries in
  if (excess <=? 0) && (newNoRoute =? 0) then [] else
  let noRoute := newNoRoute + count_if Unsent (r (rows o)) in
  let perSource := foldl bump (foldl bump ∅ (List.filter (fun d => negb (Unsent d)) (r (rows o))))
                     (List.filter (fun d => is_new o d && negb (Unsent d)) adding) in
  let excessNoRoute := noRoute - MaxNotifyNoRouteDeliveries in
  if (excess <=? 0) && (excessNoRoute <=? 0) then [] else
  let '(victims, excess) := take_unsent o added (row_order o) excess excessNoRoute in
  pkVictims (pick o added false (pick o added true (mkPicked victims (map ndID victims) perSource excess))).

(** ** One transaction's worth of changes *)

Record notifyOutboxWrite := mkOutWrite {
  putRows : list NotifyDelivery; delRows : list NotifyDelivery; putHealth : list NotifyChannelHealth; delHealth : list string;
  putDigest : list NotifyDigestLine; delDigest : list string }.
Definition outwrite_empty (w : notifyOutboxWrite) : bool :=
  ((length (putRows w) =? 0) && (length (delRows w) =? 0) && (length (putHealth w) =? 0) &&
   (length (delHealth w) =? 0) && (length (putDigest w) =? 0) && (length (delDigest w) =? 0))%nat.

(** Outbox and whether the order is to be rebuilt. *)
Definition delete_row (a : notifyOutbox * bool) (d : NotifyDelivery) : notifyOutbox * bool :=
  let '(o, reorder) := a in
  match rows o !! ndID d with
  | None => a
  | Some prev =>
    let o := unindexLocked prev o in
    (with_written (delete (ndID d) (noRouteWritten o)) (with_rows (delete (ndID d) (rows o)) o), true)
  end.
Definition put_row (a : notifyOutbox * bool) (d : NotifyDelivery) : notifyOutbox * bool :=
  let '(o, reorder) := a in
  let prev := rows o !! ndID d in
  let o := match prev with Some prev => unindexLocked prev o | None => o end in
  let moved := match prev with Some prev => negb (ndCreatedAt prev =? ndCreatedAt d) | None => true end in
  (indexLocked d (with_rows (<[ndID d := d]> (rows o)) o), reorder || moved).
Definition apply_health (w : notifyOutboxWrite) (m : gmap string NotifyChannelHealth) : gmap string NotifyChannelHealth :=
  foldl (fun m h => <[hChannelID h := h]> m) (foldl (fun m id => delete id m) m (delHealth w)) (putHealth w).
Definition apply_digest (w : notifyOutboxWrite) (m : gmap string NotifyDigestLine) : gmap string NotifyDigestLine :=
  foldl (fun m l => <[dlKey l := l]> m) (foldl (fun m key => delete key m) m (delDigest w)) (putDigest w).
Definition applyLocked (r : rorder) (w : notifyOutboxWrite) (o : notifyOutbox) : notifyOutbox :=
  let '(o, reorder) := foldl put_row (foldl delete_row (o, false) (delRows w)) (putRows w) in
  let o := if reorder then rebuildOrder r o else o in
  mkOutbox (rows o) (row_order o) (apply_health w (health o)) (apply_digest w (digest o)) (byEvent o) (unsettled o)
    (noRouteLatest o) (noRouteWritten o).

(** ** The hot store *)

(** The three buckets; deliveries are under their keys. *)
Record hotOutbox := mkHotOutbox {
  bkDeliveries : gmap string NotifyDelivery; bkHealth : gmap string NotifyChannelHealth; bkDigest : gmap string NotifyDigestLine }.
Definition WriteNotifyOutbox (w : notifyOutboxWrite) (h : hotOutbox) : hotOutbox :=
  mkHotOutbox (foldl (fun m d => <[notifyDeliveryKey d := d]> m)
                 (foldl (fun m d => delete (notifyDeliveryKey d) m) (bkDeliveries h) (delRows w)) (putRows w))
    (apply_health w (bkHealth h)) (apply_digest w (bkDigest h)).
(** A bucket's records in the order of their keys. *)
Definition bucket {A} (m : gmap string A) : list A :=
  omap (fun k => m !! k) (sort_strings (map fst (map_to_list m))).
Definition LoadNotifyOutbox (h : hotOutbox) : list NotifyDelivery * list NotifyChannelHealth * list NotifyDigestLine :=
  (bucket (bkDeliveries h), bucket (bkHealth h), bucket (bkDigest h)).
(** Records kept unless memory already has one of the same name. *)
Definition keep_new {A} (name : A → string) (m : gmap string A) (l : list A) : gmap string A :=
  foldl (fun m a => match m !! name a with Some _ => m | None => <[name a := a]> m end) m l.

(** [hotDB] is the sidecar when it is on, [fromHot] whether the outbox was
    read from it. *)
Record ostore := mkOStore { outbox : notifyOutbox; fromHot : bool; hotDB : option hotOutbox }.
Inductive outError := ErrOutboxWrite.

Definition notifyOutboxLocked (r : rorder) (d : disk) (s : ostore) : ostore :=
  match hotDB s with
  | None => s
  | Some h =>
    if fromHot s then s else
    let o := outbox s in
    let '(rs, hs, ls) := if reads d then LoadNotifyOutbox h else ([], [], []) in
    let carry := mkOutWrite (r (rows o)) [] ((map_to_list (health o)).*2) [] ((map_to_list (digest o)).*2) [] in
    let o := reindex r (mkOutbox (keep_new ndID (rows o) rs) (row_order o) (keep_new hChannelID (health o) hs)
                          (keep_new dlKey (digest o) ls) ∅ ∅ ∅ (noRouteWritten o)) in
    mkOStore o true (Some (if outwrite_empty carry then h else if writes d then WriteNotifyOutbox carry h else h))
  end.
Definition commitNotifyOutboxLocked (d : disk) (w : notifyOutboxWrite) (s : ostore) : res outError ostore :=
  match hotDB s with
  | None => Ok s
  | Some h =>
    if outwrite_empty w then Ok s else
    if writes d then Ok (mkOStore (outbox s) (fromHot s) (Some (WriteNotifyOutbox w h))) else Err ErrOutboxWrite
  end.
Definition with_outbox (o : notifyOutbox) (s : ostore) : ostore := mkOStore o (fromHot s) (hotDB s).
(** Write, then memory; nothing moves when the write is refused. *)
Definition commit_apply (r : rorder) (d : disk) (w : notifyOutboxWrite) (s : ostore) : ostore * option outError :=
  match commitNotifyOutboxLocked d w s with
  | Err e => (s, Some e)
  | Ok s => (with_outbox (applyLocked r w (outbox s)) s, None)
  end.

(** ** Operations *)

Definition put_rows_write (r : rorder) (rs : list NotifyDelivery) (o : notifyOutbox) : notifyOutboxWrite :=
  mkOutWrite rs (evictionLocked r rs o) [] [] [] [].
Definition RecordNotifyDeliveries (r : rorder) (d : disk) (rs : list NotifyDelivery) (s : ostore) : ostore * option outError :=
  match rs with
  | [] => (s, None)
  | _ =>
    let rs := clampNotifyDeliveries rs in
    let s := notifyOutboxLocked r d s in
    commit_apply r d (put_rows_write r rs (outbox s)) s
  end.

Definition fold_repeat (row first : NotifyDelivery) : NotifyDelivery :=
  with_ndTruncated (ndTruncated row) (with_ndBody (ndBody row) (with_ndTitle (ndTitle row)
    (with_ndLastSeenAt (ndCreatedAt row) (with_ndRepeats (ndRepeats first + 1) first)))).
(** The row a repeat folds into. *)
Definition folds_into (o : notifyOutbox) (row : NotifyDelivery) : option NotifyDelivery :=
  match noRouteLatest o !! noRouteKey row with
  | None => None
  | Some id =>
    match rows o !! id with
    | None => None
    | Some first =>
      if negb (before (ndCreatedAt row) (ndCreatedAt first)) &&
         (time_sub (ndCreatedAt row) (ndCreatedAt first) <? NotifyNoRouteCollapseWindow) then Some first else None
    end
  end.
Definition recordNotifyUnsent (r : rorder) (d : disk) (row : NotifyDelivery) (s : ostore) : ostore * option outError :=
  let row := clampNotifyDelivery row in
  let row := if is_zero (ndSettledAt row) then with_ndSettledAt (ndCreatedAt row) row else row in
  let s := notifyOutboxLocked r d s in
  let o := outbox s in
  let written id s := with_outbox (with_written (<[id := ndCreatedAt row]> (noRouteWritten (outbox s))) (outbox s)) s in
  match folds_into o row with
  | Some first =>
    let id := default "" (noRouteLatest o !! noRouteKey row) in
    let next := fold_repeat row first in
    if match noRouteWritten o !! id with
       | Some w => time_sub (ndCreatedAt row) w <? notifyNoRoutePersistEvery
       | None => false
       end
    then (with_outbox (with_rows (<[id := next]> (rows o)) o) s, None)
    else
      match commit_apply r d (mkOutWrite [next] [] [] [] [] []) s with
      | (s, Some e) => (s, Some e)
      | (s, None) => (written id s, None)
      end
  | None =>
    match commit_apply r d (put_rows_write r [row] o) s with
    | (s, Some e) => (s, Some e)
    | (s, None) => (written (ndID row) s, None)
    end
  end.
Definition RecordNotifyNoRoute (r : rorder) (d : disk) (row : NotifyDelivery) (s : ostore) : ostore * option outError :=
  recordNotifyUnsent r d (with_ndOutcome NotifyOutcomeNoRoute row) s.
Definition RecordNotifySuppressed (r : rorder) (d : disk) (row : NotifyDelivery) (s : ostore) : ostore * option outError :=
  recordNotifyUnsent r d (with_ndOutcome NotifyOutcomeSuppressed row) s.

Definition PutNotifyDelivery (r : rorder) (d : disk) (row : NotifyDelivery) (h : option NotifyChannelHealth) (s : ostore)
  : ostore * option outError :=
  let row := clampNotifyDelivery row in
  let s := notifyOutboxLocked r d s in
  commit_apply r d (mkOutWrite [row] (evictionLocked r [row] (outbox s)) (option_list h) [] [] []) s.

Definition deleteNotifyChannelHealthLocked (r : rorder) (d : disk) (channelID : string) (s : ostore) : ostore * option outError :=
  let s := notifyOutboxLocked r d s in
  match health (outbox s) !! channelID with
  | None => (s, None)
  | Some _ => commit_apply r d (mkOutWrite [] [] [] [channelID] [] []) s
  end.
Definition QueueNotifyDigestLine (r : rorder) (d : disk) (line : NotifyDigestLine) (s : ostore) : ostore * option outError :=
  let s := notifyOutboxLocked r d s in
  let q := digest (outbox s) in
  let del :=
    if maxNotifyDigestLines <=? Z.of_nat (size q) then
      take (size q - Z.to_nat maxNotifyDigestLines + 1) (sort_strings (map fst (map_to_list q)))
    else [] in
  commit_apply r d (mkOutWrite [] [] [] [] [line] del) s.
Definition RemoveNotifyDigestLines (r : rorder) (d : disk) (keys : list string) (s : ostore) : ostore * option outError :=
  match keys with
  | [] => (s, None)
  | _ => commit_apply r d (mkOutWrite [] [] [] [] [] keys) (notifyOutboxLocked r d s)
  end.
Definition NotifyDigestLines (o : notifyOutbox) : list NotifyDigestLine := bucket (digest o).

(** ** Reads *)

Fixpoint str_contains (s sub : string) : bool :=
  has_prefix s sub || match s with "" => false | String _ s => str_contains s sub end.
Record NotifyDeliveryFilter := mkFilter {
  fOutcome : string; fChannelID : string; fEventType : string; fEventID : string; fSource : string; fSourceID : string;
  fQuery : string; fLimit : Z }.

Section reads.
(** [strings.ToLower] *)
Variable lower : string → string.
Definition notifyDeliveryMatches (d : NotifyDelivery) (query : string) : bool :=
  existsb (fun field => str_contains (lower field) query)
    [ndTitle d; ndBody d; ndEventType d; ndChannelName d; ndRuleName d].
Definition unless_empty (want have : string) : bool := negb (negb (want =?? "") && negb (have =?? want)).
Definition filter_passes (f : NotifyDeliveryFilter) (query : string) (d : NotifyDelivery) : bool :=
  unless_empty (fOutcome f) (ndOutcome d) && unless_empty (fChannelID f) (ndChannelID d) &&
  unless_empty (fEventType f) (ndEventType d) && unless_empty (fEventID f) (ndEventID d) &&
  unless_empty (fSource f) (ndSource d) && unless_empty (fSourceID f) (ndSourceID d) &&
  negb (negb (query =?? "") && negb (notifyDeliveryMatches d query)).
(** The newest rows first, until the limit is reached; [n] rows are out. *)
Fixpoint collect (o : notifyOutbox) (f : NotifyDeliveryFilter) (query : string) (n : Z) (keys : list string) : list NotifyDelivery :=
  match keys with
  | [] => []
  | key :: keys =>
    if (0 <? fLimit f) && (fLimit f <=? n) then [] else
    let d := row_at o key in
    if filter_passes f query d then d :: collect o f query (n + 1) keys else collect o f query n keys
  end.
Definition NotifyDeliveries (f : NotifyDeliveryFilter) (o : notifyOutbox) : list NotifyDelivery :=
  let query := lower (trim_space (fQuery f)) in
  let candidates :=
    if fEventID f =?? "" then row_order o
    else sort_strings (map (fun id => notifyDeliveryKey (default zero_delivery (rows o !! id)))
                         (elements (default ∅ (byEvent o !! fEventID f)))) in
  collect o f query 0 (reverse candidates).
End reads.

Definition row_le (a b : NotifyDelivery) : Prop := notifyDeliveryBefore b a = false.
#[export] Instance row_le_dec : RelDecision row_le.
Proof. intros a b. unfold row_le. apply _. Defined.
Definition UnsettledNotifyDeliveries (o : notifyOutbox) : list NotifyDelivery :=
  merge_sort row_le (map (fun id => default zero_delivery (rows o !! id)) (elements (unsettled o))).
Definition NotifyUnsettledCount (source sourceID : string) (o : notifyOutbox) : Z :=
  Z.of_nat (length (List.filter (fun id => let d := default zero_delivery (rows o !! id) in
    (ndSource d =?? source) && (ndSourceID d =?? sourceID)) (elements (unsettled o)))).
Definition get_delivery (id : string) (o : notifyOutbox) : option NotifyDelivery := rows o !! id.
Definition get_health (channelID : string) (o : notifyOutbox) : option NotifyChannelHealth := health o !! channelID.

(** ** Keys *)

Definition slash : ascii := "/"%char.
Definition row_ok (d : NotifyDelivery) : bool := negb (mem slash (bytes_of (ndID d))) && keyable (ndCreatedAt d).

Lemma after_slash_none best s : slash ∉ bytes_of s → after_slash best s = best.
Proof.
  revert best. induction s as [|c s IH]; intros best H; [done|]. cbn [after_slash bytes_of] in *.
  rewrite not_elem_of_cons in H. rewrite bool_decide_eq_false_2 by (intros ->; by destruct H).
  apply IH. apply H.
Qed.

Lemma after_slash_app best p s : slash ∉ bytes_of s → after_slash best (p +:+ "/" +:+ s) = s.
Proof.
  revert best. induction p as [|c p IH]; intros best H.
  - change (after_slash (if slash =?? "/"%char then s else best) s = s).
    rewrite bool_decide_eq_true_2 by done. by apply after_slash_none.
  - change (after_slash (if c =?? "/"%char then p +:+ "/" +:+ s else best) (p +:+ "/" +:+ s) = s). by apply IH.
Qed.

Lemma idFromNotifyKey_key d : row_ok d = true → idFromNotifyKey (notifyDeliveryKey d) = ndID d.
Proof.
  intros H. unfold idFromNotifyKey, notifyDeliveryKey. apply after_slash_app.
  apply andb_true_iff in H as [H _]. apply negb_true_iff, mem_false in H. done.
Qed.

Lemma key_compare a b : row_ok a = true → row_ok b = true →
  String.compare (notifyDeliveryKey a) (notifyDeliveryKey b) =
  match ndCreatedAt a ?= ndCreatedAt b with Eq => String.compare (ndID a) (ndID b) | c => c end.
Proof.
  intros [_ Ha]%andb_true_iff [_ Hb]%andb_true_iff. unfold notifyDeliveryKey.
  rewrite format_key_compare by done. rewrite str_compare_app_eq. done.
Qed.

(** Rows sort as their keys do. *)
Lemma before_key a b : row_ok a = true → row_ok b = true →
  notifyDeliveryBefore a b = String.ltb (notifyDeliveryKey a) (notifyDeliveryKey b).
Proof.
  intros Ha Hb. unfold String.ltb, notifyDeliveryBefore. rewrite key_compare by done. unfold before.
  destruct (Z.compare_spec (ndCreatedAt a) (ndCreatedAt b)) as [E|E|E].
  - rewrite E, Z.eqb_refl. cbn. done.
  - rewrite (proj2 (Z.eqb_neq _ _)) by lia. cbn. apply Z.ltb_lt. done.
  - rewrite (proj2 (Z.eqb_neq _ _)) by lia. cbn. apply Z.ltb_ge. lia.
Qed.

Lemma row_le_key a b : row_ok a = true → row_ok b = true →
  row_le a b ↔ String.le (notifyDeliveryKey a) (notifyDeliveryKey b).
Proof.
  intros Ha Hb. unfold row_le. rewrite before_key by done. unfold String.ltb, String.le, String.leb.
  rewrite (String.compare_antisym (notifyDeliveryKey a)).
  destruct (String.compare (notifyDeliveryKey b) (notifyDeliveryKey a)); cbn; split; done || (intros; by apply I).
Qed.

(** ** The invariant of the outbox

    [indexed m o]: the indexes of [o] are exact for the rows [m]. *)

Record indexed (m : gmap string NotifyDelivery) (o : notifyOutbox) : Prop := {
  ix_event : ∀ e id, id ∈ default ∅ (byEvent o !! e) ↔ ∃ d, m !! id = Some d ∧ ndEventID d = e;
  ix_event_ne : ∀ e ids, byEvent o !! e = Some ids → ids ≠ ∅;
  ix_unsettled : ∀ id, id ∈ unsettled o ↔ ∃ d, m !! id = Some d ∧ Settled d = false;
  ix_latest : ∀ k id, noRouteLatest o !! k = Some id →
    ∃ d, m !! id = Some d ∧ Unsent d = true ∧ noRouteKey d = k }.

Lemma indexed_empty o : byEvent o = ∅ → unsettled o = ∅ → noRouteLatest o = ∅ → indexed ∅ o.
Proof.
  intros E1 E2 E3. split.
  - intros e id. rewrite E1, lookup_empty. cbn. split; [set_solver|]. intros (d & H & _). by rewrite lookup_empty in H.
  - intros e ids. by rewrite E1, lookup_empty.
  - intros id. rewrite E2. split; [set_solver|]. intros (d & H & _). by rewrite lookup_empty in H.
  - intros k id. by rewrite E3, lookup_empty.
Qed.

Lemma lookup_insert_ex (m : gmap string NotifyDelivery) d id (P : NotifyDelivery → Prop) : m !! ndID d = None →
  (∃ x, <[ndID d := d]> m !! id = Some x ∧ P x) ↔ (id = ndID d ∧ P d) ∨ ∃ x, m !! id = Some x ∧ P x.
Proof.
  intros Hn. destruct (decide (id = ndID d)) as [->|Hne].
  - rewrite lookup_insert_eq, Hn. naive_solver.
  - rewrite lookup_insert_ne by done. naive_solver.
Qed.

Lemma lookup_delete_ex (m : gmap string NotifyDelivery) k id (P : NotifyDelivery → Prop) :
  (∃ x, delete k m !! id = Some x ∧ P x) ↔ id ≠ k ∧ ∃ x, m !! id = Some x ∧ P x.
Proof.
  destruct (decide (id = k)) as [->|Hne].
  - rewrite lookup_delete_eq. naive_solver.
  - rewrite lookup_delete_ne by done. naive_solver.
Qed.

Lemma indexed_index m o d : indexed m o → m !! ndID d = None →
  indexed (<[ndID d := d]> m) (indexLocked d o).
Proof.
  intros [He Hne Hu Hl] Hn. split; cbn [indexLocked byEvent unsettled noRouteLatest].
  - intros e id. rewrite lookup_insert_ex by done.
    destruct (decide (e = ndEventID d)) as [->|Hee].
    + rewrite lookup_insert_eq. simpl. rewrite elem_of_union, elem_of_singleton, He.
      naive_solver.
    + rewrite lookup_insert_ne by done. rewrite He. naive_solver.
  - intros e ids. destruct (decide (e = ndEventID d)) as [->|Hee].
    + rewrite lookup_insert_eq. intros [= <-]. set_solver.
    + rewrite lookup_insert_ne by done. apply Hne.
  - intros id. rewrite lookup_insert_ex by done. destruct (Settled d) eqn:Es.
    + rewrite elem_of_difference, elem_of_singleton, Hu. split; [naive_solver|].
      intros [[_ ?]|(x & Hx & Hs)]; [done|]. split; [eauto|]. intros ->. congruence.
    + rewrite elem_of_union, elem_of_singleton, Hu. naive_solver.
  - intros k id Hk. rewrite lookup_insert_ex by done.
    assert (noRouteLatest o !! k = Some id ∨ Unsent d = true ∧ k = noRouteKey d ∧ id = ndID d) as [Hold|(Hd & -> & ->)].
    { destruct (Unsent d); [|by left].
      assert (<[noRouteKey d := ndID d]> (noRouteLatest o) !! k = Some id →
        noRouteLatest o !! k = Some id ∨ true = true ∧ k = noRouteKey d ∧ id = ndID d) as Hins.
      { destruct (decide (k = noRouteKey d)) as [->|Hkk].
        - rewrite lookup_insert_eq. intros [= ->]. auto.
        - rewrite lookup_insert_ne by done. auto. }
      destruct (rows o !! _); [destruct (negb _)|]; auto. }
    + right. by apply Hl.
    + left. done.
Qed.

Lemma indexed_unindex m o d : indexed m o → (∀ id x, m !! id = Some x → ndID x = id) → m !! ndID d = Some d →
  indexed (delete (ndID d) m) (unindexLocked d o).
Proof.
  intros [He Hne Hu Hl] Hid Hd. split; cbn [unindexLocked byEvent unsettled noRouteLatest].
  - intros e id. rewrite lookup_delete_ex, <- He.
    assert (ndID d ∈ default ∅ (byEvent o !! ndEventID d)) as Hin by (apply He; eauto).
    destruct (byEvent o !! ndEventID d) as [ids|] eqn:E; [|set_solver].
    assert (∀ e', e' ≠ ndEventID d → ndID d ∉ default ∅ (byEvent o !! e')) as Hother.
    { intros e' Hee Hx. apply He in Hx as (x & Hx & <-). congruence. }
    destruct (decide (e = ndEventID d)) as [->|Hee].
    + rewrite E. simpl.
      destruct (bool_decide_reflect (ids ∖ {[ndID d]} = ∅)) as [Hz|Hz].
      * rewrite lookup_delete_eq. cbn. set_solver.
      * rewrite lookup_insert_eq. cbn. set_solver.
    + assert ((if ids ∖ {[ndID d]} =?? ∅ then delete (ndEventID d) (byEvent o)
               else <[ndEventID d:=ids ∖ {[ndID d]}]> (byEvent o)) !! e = byEvent o !! e) as ->.
      { destruct (_ =?? _); [by rewrite lookup_delete_ne|by rewrite lookup_insert_ne]. }
      specialize (Hother e Hee). split; [|naive_solver]. intros Hx. split; [|done]. intros ->. done.
  - intros e ids'. destruct (byEvent o !! ndEventID d) as [ids|] eqn:E; [|apply Hne].
    destruct (bool_decide_reflect (ids ∖ {[ndID d]} = ∅)) as [Hz|Hz].
    + destruct (decide (e = ndEventID d)) as [->|Hee]; [by rewrite lookup_delete_eq|].
      rewrite lookup_delete_ne by done. apply Hne.
    + destruct (decide (e = ndEventID d)) as [->|Hee]; [rewrite lookup_insert_eq; by intros [= <-]|].
      rewrite lookup_insert_ne by done. apply Hne.
  - intros id. rewrite elem_of_difference, elem_of_singleton, Hu, lookup_delete_ex. naive_solver.
  - intros k id Hk. rewrite lookup_delete_ex.
    destruct (bool_decide_reflect (default "" (noRouteLatest o !! noRouteKey d) = ndID d)) as [E|E].
    + apply lookup_delete_Some in Hk as [Hkk Hk]. destruct (Hl _ _ Hk) as (x & Hx & Hux & Hxk).
      split; [|eauto]. intros ->. congruence.
    + destruct (Hl _ _ Hk) as (x & Hx & Hux & Hxk). split; [|eauto]. intros ->.
      assert (x = d) as -> by congruence. rewrite Hxk, Hk in E. done.
Qed.

Lemma indexed_ext m o o' : byEvent o' = byEvent o → unsettled o' = unsettled o → noRouteLatest o' = noRouteLatest o →
  indexed m o → indexed m o'.
Proof. intros E1 E2 E3 [He Hne Hu Hl]. split; rewrite ?E1, ?E2, ?E3; done. Qed.

Definition rows_ok (m : gmap string NotifyDelivery) : Prop :=
  ∀ id d, m !! id = Some d → ndID d = id ∧ row_ok d = true.
Definition keys_of (m : gmap string NotifyDelivery) : list string :=
  sort_strings (map_to_list (notifyDeliveryKey <$> m)).*2.

Record outbox_ok (o : notifyOutbox) : Prop := {
  ob_rows : rows_ok (rows o);
  ob_index : indexed (rows o) o;
  ob_order : row_order o = keys_of (rows o);
  ob_written : ∀ id t, noRouteWritten o !! id = Some t → is_Some (rows o !! id) }.

Lemma rows_ok_insert m d : rows_ok m → row_ok d = true → rows_ok (<[ndID d := d]> m).
Proof. intros Hm Hd id x [[<- <-]|[? ?]]%lookup_insert_Some; [done|]. by apply Hm. Qed.
Lemma rows_ok_delete m k : rows_ok m → rows_ok (delete k m).
Proof. intros Hm id x [_ Hx]%lookup_delete_Some. by apply Hm. Qed.

Lemma keys_rebuild r m : valid_rorder r → sort_strings (map notifyDeliveryKey (r m)) = keys_of m.
Proof.
  intros Hr. apply sort_strings_ext. rewrite (Hr m), map_to_list_fmap, <- !list_fmap_compose. done.
Qed.
Lemma keys_of_same m d prev : m !! ndID d = Some prev → notifyDeliveryKey d = notifyDeliveryKey prev →
  keys_of (<[ndID d := d]> m) = keys_of m.
Proof.
  intros Hp E. unfold keys_of. rewrite fmap_insert, E, insert_id; [done|]. by rewrite lookup_fmap, Hp.
Qed.

(** Inside a transaction: the order is exact unless it is to be rebuilt. *)
Record apply_ok (a : notifyOutbox * bool) : Prop := {
  ap_rows : rows_ok (rows a.1);
  ap_index : indexed (rows a.1) a.1;
  ap_order : a.2 = false → row_order a.1 = keys_of (rows a.1);
  ap_written : ∀ id t, noRouteWritten a.1 !! id = Some t → is_Some (rows a.1 !! id) }.

Lemma delete_row_ok a d : apply_ok a → apply_ok (delete_row a d).
Proof.
  destruct a as [o b]. intros Ha. pose proof Ha as [Hr Hi Ho Hw]. cbn [fst snd] in *. unfold delete_row.
  destruct (rows o !! ndID d) as [prev|] eqn:E; [|done].
  destruct (Hr _ _ E) as [Hid _]. split; cbn.
  - by apply rows_ok_delete.
  - rewrite <- Hid in E. apply (indexed_unindex _ _ _ Hi (fun id x Hx => proj1 (Hr id x Hx))) in E.
    rewrite Hid in E. by apply (indexed_ext _ (unindexLocked prev o)).
  - done.
  - intros id t [Hne Ht]%lookup_delete_Some. rewrite lookup_delete_ne by done. by eapply Hw.
Qed.

Lemma put_row_ok a d : apply_ok a → row_ok d = true → apply_ok (put_row a d).
Proof.
  destruct a as [o b]. intros [Hr Hi Ho Hw] Hd. cbn [fst snd] in *. unfold put_row.
  assert (∀ id t, noRouteWritten o !! id = Some t → is_Some (<[ndID d := d]> (rows o) !! id)) as Hw'.
  { intros id t Ht. destruct (decide (id = ndID d)) as [->|Hne]; [by rewrite lookup_insert_eq|].
    rewrite lookup_insert_ne by done. by eapply Hw. }
  destruct (rows o !! ndID d) as [prev|] eqn:E.
  - destruct (Hr _ _ E) as [Hid _]. split; cbn.
    + by apply rows_ok_insert.
    + rewrite <- insert_delete_eq. apply (indexed_index _ (with_rows _ (unindexLocked prev o))); [|by rewrite lookup_delete_eq].
      rewrite <- Hid in E. pose proof (indexed_unindex _ _ _ Hi (fun id x Hx => proj1 (Hr id x Hx)) E) as H.
      rewrite Hid in H. by apply (indexed_ext _ (unindexLocked prev o)).
    + intros [Hb Hm]%orb_false_iff. apply negb_false_iff, Z.eqb_eq in Hm.
      rewrite (keys_of_same _ _ _ E); [by apply Ho|]. unfold notifyDeliveryKey. by rewrite Hm, Hid.
    + done.
  - split; cbn.
    + by apply rows_ok_insert.
    + apply (indexed_index _ (with_rows _ o)); [|done]. by apply (indexed_ext _ o).
    + rewrite orb_true_r. done.
    + done.
Qed.

Lemma foldl_ok {A} (f : notifyOutbox * bool → A → notifyOutbox * bool) (l : list A) a :
  (∀ a x, x ∈ l → apply_ok a → apply_ok (f a x)) → apply_ok a → apply_ok (foldl f a l).
Proof.
  revert a. induction l as [|x l IH]; intros a Hf Ha; [done|]. cbn. apply IH.
  - intros b y Hy. apply Hf. by right.
  - apply Hf; [by left|done].
Qed.

Lemma outbox_ok_apply o : outbox_ok o → apply_ok (o, false).
Proof. intros [Hr Hi Ho Hw]. by split. Qed.

Lemma outbox_applied_ok r w o : valid_rorder r → outbox_ok o → (∀ d, d ∈ putRows w → row_ok d = true) →
  outbox_ok (applyLocked r w o).
Proof.
  intros Hr Ho Hp. unfold applyLocked.
  assert (apply_ok (foldl put_row (foldl delete_row (o, false) (delRows w)) (putRows w))) as Ha.
  { apply foldl_ok; [intros a d Hd Ha; apply put_row_ok; auto|].
    apply foldl_ok; [intros a d _ Ha; by apply delete_row_ok|]. by apply outbox_ok_apply. }
  destruct (foldl put_row _ _) as [o' b]. destruct Ha as [Hrw Hi Hord Hw]. cbn [fst snd] in *.
  destruct b; split; cbn; try done; try by apply (indexed_ext _ o').
  - by apply keys_rebuild.
  - by apply Hord.
Qed.

(** ** Memory and the hot store

    What a restart may lose: the count, last instant and latest text of an
    unsent row, written at most once a minute. *)

Definition erase (d : NotifyDelivery) : NotifyDelivery :=
  if Unsent d then
    with_ndTruncated false (with_ndBody "" (with_ndTitle "" (with_ndLastSeenAt 0 (with_ndRepeats 0 d))))
  else d.

Lemma erase_id d : ndID (erase d) = ndID d.
Proof. unfold erase. by destruct (Unsent d). Qed.
Lemma erase_key d : notifyDeliveryKey (erase d) = notifyDeliveryKey d.
Proof. unfold erase, notifyDeliveryKey. by destruct (Unsent d). Qed.
Lemma erase_outcome d : ndOutcome (erase d) = ndOutcome d.
Proof. unfold erase. by destruct (Unsent d). Qed.
Lemma erase_event d : ndEventID (erase d) = ndEventID d.
Proof. unfold erase. by destruct (Unsent d). Qed.
Lemma erase_settled d : Settled (erase d) = Settled d.
Proof. unfold Settled. by rewrite erase_outcome. Qed.
Lemma erase_row_ok d : row_ok (erase d) = row_ok d.
Proof. unfold row_ok, erase. by destruct (Unsent d). Qed.
Lemma erase_fold row first : Unsent first = true → erase (fold_repeat row first) = erase first.
Proof.
  intros H. assert (Unsent (fold_repeat row first) = true) as H' by done. unfold erase. rewrite H, H'.
  destruct row, first. reflexivity.
Qed.

(** The bucket holds exactly the rows, each under its key. *)
Definition mirrors (m bk : gmap string NotifyDelivery) : Prop :=
  ∀ k x, erase <$> bk !! k = Some x ↔ k = notifyDeliveryKey x ∧ erase <$> m !! ndID x = Some x.

Lemma delivery_key_inj a b : row_ok a = true → row_ok b = true → notifyDeliveryKey a = notifyDeliveryKey b → ndID a = ndID b.
Proof. intros Ha Hb E. rewrite <- (idFromNotifyKey_key a), <- (idFromNotifyKey_key b), E by done. done. Qed.

Lemma rows_ok_erase m id x : rows_ok m → erase <$> m !! id = Some x → ndID x = id ∧ row_ok x = true.
Proof.
  intros Hm H. destruct (m !! id) as [d|] eqn:E; [|done]. injection H as <-.
  rewrite erase_id, erase_row_ok. by apply Hm.
Qed.

Lemma mirrors_insert m bk d : mirrors m bk → rows_ok m → row_ok d = true →
  (∀ p, m !! ndID d = Some p → notifyDeliveryKey p = notifyDeliveryKey d) →
  mirrors (<[ndID d := d]> m) (<[notifyDeliveryKey d := d]> bk).
Proof.
  intros Hs Hm Hd Hst k x.
  destruct (decide (k = notifyDeliveryKey d)) as [->|Hk].
  - rewrite lookup_insert_eq. cbn. split.
    + intros [= <-]. rewrite erase_key, erase_id, lookup_insert_eq. done.
    + intros [Ek Hx]. pose proof (rows_ok_erase _ _ _ (rows_ok_insert _ _ Hm Hd) Hx) as [_ Hok].
      pose proof (delivery_key_inj _ _ Hd Hok Ek) as Eid. rewrite <- Eid, lookup_insert_eq in Hx. done.
  - rewrite lookup_insert_ne by done. rewrite (Hs k x). split; intros [-> Hx]; (split; [done|]).
    + rewrite lookup_insert_ne; [done|]. intros E. rewrite <- E in Hx.
      destruct (m !! ndID d) as [p|] eqn:Ep; [|done]. injection Hx as <-.
      apply Hk. rewrite erase_key. by apply Hst.
    + destruct (decide (ndID x = ndID d)) as [E|E].
      * rewrite E, lookup_insert_eq in Hx. injection Hx as <-. by rewrite erase_key in Hk.
      * rewrite lookup_insert_ne in Hx by done. done.
Qed.

Lemma mirrors_delete m bk v : mirrors m bk → rows_ok m → row_ok v = true →
  (∀ p, m !! ndID v = Some p → notifyDeliveryKey p = notifyDeliveryKey v) →
  mirrors (delete (ndID v) m) (delete (notifyDeliveryKey v) bk).
Proof.
  intros Hs Hm Hv Hst k x.
  destruct (decide (k = notifyDeliveryKey v)) as [->|Hk].
  - rewrite lookup_delete_eq. split; [done|]. intros [E Hx].
    pose proof (rows_ok_erase _ _ _ (rows_ok_delete _ _ Hm) Hx) as [_ Hokx].
    pose proof (delivery_key_inj _ _ Hv Hokx E) as E'. by rewrite <- E', lookup_delete_eq in Hx.
  - rewrite lookup_delete_ne by done. rewrite (Hs k x). split; intros [-> Hx]; (split; [done|]).
    + rewrite lookup_delete_ne; [done|]. intros E. rewrite <- E in Hx.
      destruct (m !! ndID v) as [p|] eqn:Hp; [|done]. injection Hx as <-.
      apply Hk. rewrite erase_key. by apply Hst.
    + destruct (decide (ndID x = ndID v)) as [E|E]; [by rewrite E, lookup_delete_eq in Hx|].
      by rewrite lookup_delete_ne in Hx.
Qed.

Lemma mirrors_erase m m' bk : erase <$> m' = erase <$> m → mirrors m bk → mirrors m' bk.
Proof. intros E Hs k x. rewrite (Hs k x), <- !lookup_fmap, E. done. Qed.

Definition put_rows (m : gmap string NotifyDelivery) (ds : list NotifyDelivery) : gmap string NotifyDelivery :=
  foldl (fun m d => <[ndID d := d]> m) m ds.
Definition del_rows (m : gmap string NotifyDelivery) (ds : list NotifyDelivery) : gmap string NotifyDelivery :=
  foldl (fun m d => delete (ndID d) m) m ds.

Lemma rows_delete_fold ds a : rows (foldl delete_row a ds).1 = del_rows (rows a.1) ds.
Proof.
  revert a. induction ds as [|d ds IH]; intros [o b]; [done|]. cbn [foldl]. rewrite IH. unfold del_rows.
  cbn [foldl]. f_equal. unfold delete_row. destruct (rows o !! ndID d) eqn:E; cbn; [done|].
  by rewrite delete_id.
Qed.
Lemma rows_put_fold ds a : rows (foldl put_row a ds).1 = put_rows (rows a.1) ds.
Proof.
  revert a. induction ds as [|d ds IH]; intros [o b]; [done|]. cbn [foldl]. rewrite IH. unfold put_rows.
  cbn [foldl]. f_equal. unfold put_row. by destruct (rows o !! ndID d).
Qed.
Lemma rows_apply r w o : rows (applyLocked r w o) = put_rows (del_rows (rows o) (delRows w)) (putRows w).
Proof.
  unfold applyLocked. pose proof (rows_put_fold (putRows w) (foldl delete_row (o, false) (delRows w))) as H.
  rewrite rows_delete_fold in H. cbn [fst] in H.
  destruct (foldl put_row _ _) as [o' b]. cbn [fst] in H. by destruct b.
Qed.

Lemma del_rows_ok m ds : rows_ok m → rows_ok (del_rows m ds).
Proof. revert m. induction ds as [|d ds IH]; intros m Hm; [done|]. cbn. by apply IH, rows_ok_delete. Qed.
Lemma del_rows_Some m ds id p : del_rows m ds !! id = Some p → m !! id = Some p.
Proof.
  revert m. induction ds as [|d ds IH]; intros m H; [exact H|]. cbn in H. apply IH in H.
  by apply lookup_delete_Some in H as [_ H].
Qed.

(** A row keeps the instant it was created at. *)
Definition stable (m : gmap string NotifyDelivery) (ds : list NotifyDelivery) : Prop :=
  ∀ d, d ∈ ds → (∀ p, m !! ndID d = Some p → notifyDeliveryKey p = notifyDeliveryKey d) ∧
    (∀ d', d' ∈ ds → ndID d' = ndID d → notifyDeliveryKey d' = notifyDeliveryKey d).

Lemma mirrors_dels m bk ds : mirrors m bk → rows_ok m → stable m ds → (∀ d, d ∈ ds → row_ok d = true) →
  mirrors (del_rows m ds) (foldl (fun b d => delete (notifyDeliveryKey d) b) bk ds).
Proof.
  revert m bk. induction ds as [|d ds IH]; intros m bk Hs Hm Hst Hok; [exact Hs|]. cbn. apply IH.
  - apply mirrors_delete; try done; [apply Hok; by left|]. exact (proj1 (Hst d ltac:(by left))).
  - by apply rows_ok_delete.
  - intros x Hx. split.
    + intros p [_ Hp]%lookup_delete_Some. exact (proj1 (Hst x ltac:(by right)) p Hp).
    + intros d' Hd'. exact (proj2 (Hst x ltac:(by right)) d' ltac:(by right)).
  - intros x Hx. apply Hok. by right.
Qed.
Lemma mirrors_puts m bk ds : mirrors m bk → rows_ok m → stable m ds → (∀ d, d ∈ ds → row_ok d = true) →
  mirrors (put_rows m ds) (foldl (fun b d => <[notifyDeliveryKey d := d]> b) bk ds).
Proof.
  revert m bk. induction ds as [|d ds IH]; intros m bk Hs Hm Hst Hok; [exact Hs|].
  assert (row_ok d = true) as Hd by (apply Hok; by left). cbn. apply IH.
  - apply mirrors_insert; try done. exact (proj1 (Hst d ltac:(by left))).
  - by apply rows_ok_insert.
  - intros x Hx. split.
    + intros p [[E <-]|[_ Hp]]%lookup_insert_Some.
      * exact (proj2 (Hst x ltac:(by right)) d ltac:(by left) E).
      * exact (proj1 (Hst x ltac:(by right)) p Hp).
    + intros d' Hd'. exact (proj2 (Hst x ltac:(by right)) d' ltac:(by right)).
  - intros x Hx. apply Hok. by right.
Qed.

Lemma elem_of_bucket {A} (m : gmap string A) x : x ∈ bucket m ↔ ∃ k, m !! k = Some x.
Proof.
  unfold bucket. rewrite list_elem_of_omap. split; [naive_solver|]. intros [k Hk]. exists k. split; [|done].
  rewrite elem_of_sort_strings. apply list_elem_of_fmap. exists (k, x). split; [done|]. by apply elem_of_map_to_list.
Qed.

Lemma keep_new_spec {A} (name : A → string) m l n x : (∀ a b, a ∈ l → b ∈ l → name a = name b → a = b) →
  keep_new name m l !! n = Some x ↔ m !! n = Some x ∨ m !! n = None ∧ x ∈ l ∧ name x = n.
Proof.
  revert m. induction l as [|a l IH]; intros m Hinj; cbn [keep_new foldl].
  - split; [by left|]. intros [?|(_ & H & _)]; [done|]. by apply not_elem_of_nil in H.
  - assert (∀ b c, b ∈ l → c ∈ l → name b = name c → b = c) as Hinj'
      by (intros b c Hb Hc; apply Hinj; by right).
    change (foldl _ ?m0 l) with (keep_new name m0 l). rewrite (IH _ Hinj'). destruct (m !! name a) as [y|] eqn:E.
    + split; intros [?|(? & Hx & Hn)]; auto; [right; by split_and!; [|right|]|].
      apply elem_of_cons in Hx as [->|Hx]; [congruence|]. auto.
    + rewrite lookup_insert_Some, lookup_insert_None, elem_of_cons.
      destruct (decide (name a = n)) as [<-|Hn]; [|naive_solver].
      rewrite E. split; [naive_solver|]. intros [?|(_ & [->|Hx] & Hnx)]; [done|auto|].
      left. left. split; [done|]. symmetry. apply Hinj; [by right|by left|done].
Qed.

Lemma keep_new_bucket {A} (name : A → string) m : (∀ k x, m !! k = Some x → name x = k) →
  keep_new name ∅ (bucket m) = m.
Proof.
  intros Hk. apply map_eq. intros k. apply option_eq. intros x. rewrite keep_new_spec, lookup_empty, elem_of_bucket.
  - split; [|naive_solver]. intros [?|(_ & [k' Hk'] & <-)]; [done|]. by rewrite (Hk _ _ Hk').
  - intros a b [ka Ha]%elem_of_bucket [kb Hb]%elem_of_bucket E.
    rewrite (Hk _ _ Ha), (Hk _ _ Hb) in E. congruence.
Qed.

Lemma mirrors_lookup m bk k d : mirrors m bk → bk !! k = Some d →
  k = notifyDeliveryKey d ∧ erase <$> m !! ndID d = Some (erase d).
Proof.
  intros Hs Hk. pose proof (proj1 (Hs k (erase d))) as H. rewrite Hk, erase_key, erase_id in H. by apply H.
Qed.

(** What is read back: the rows, up to the counts of unsent ones. *)
Lemma load_mirrors m bk : mirrors m bk → rows_ok m →
  let m' := keep_new ndID ∅ (bucket bk) in rows_ok m' ∧ erase <$> m' = erase <$> m.
Proof.
  intros Hs Hm m'.
  assert (∀ id d, m' !! id = Some d ↔ (∃ k, bk !! k = Some d) ∧ ndID d = id) as Hl.
  { intros id d. unfold m'. rewrite keep_new_spec, lookup_empty, elem_of_bucket; [naive_solver|].
    intros a b [ka Ha]%elem_of_bucket [kb Hb]%elem_of_bucket E.
    destruct (mirrors_lookup _ _ _ _ Hs Ha) as [-> Hea], (mirrors_lookup _ _ _ _ Hs Hb) as [-> Heb].
    rewrite E, Heb in Hea. injection Hea as Hea.
    rewrite <- (erase_key a), <- Hea, erase_key in Ha. congruence. }
  split.
  - intros id d [[k Hk] Hid]%Hl. split; [done|].
    destruct (mirrors_lookup _ _ _ _ Hs Hk) as [_ He]. apply rows_ok_erase in He as [_ He]; [|done].
    by rewrite erase_row_ok in He.
  - apply map_eq. intros id. rewrite !lookup_fmap. apply option_eq. intros x. split.
    + intros Hx. destruct (m' !! id) as [d|] eqn:E; [|done]. injection Hx as <-. apply Hl in E as [[k Hk] <-].
      by destruct (mirrors_lookup _ _ _ _ Hs Hk) as [_ He].
    + intros Hx. destruct (rows_ok_erase _ _ _ Hm Hx) as [Hid _]. rewrite <- Hid in Hx |- *.
      pose proof (proj2 (Hs (notifyDeliveryKey x) x) (conj eq_refl Hx)) as Hbk.
      destruct (bk !! notifyDeliveryKey x) as [d|] eqn:E; [|done]. injection Hbk as <-.
      rewrite erase_id. rewrite (proj2 (Hl (ndID d) d)) by eauto. done.
Qed.

Lemma foldl_index_fields l o : rows (foldl (fun o d => indexLocked d o) o l) = rows o ∧
  health (foldl (fun o d => indexLocked d o) o l) = health o ∧
  digest (foldl (fun o d => indexLocked d o) o l) = digest o ∧
  noRouteWritten (foldl (fun o d => indexLocked d o) o l) = noRouteWritten o.
Proof. revert o. induction l as [|d l IH]; intros o; [done|]. cbn [foldl]. by destruct (IH (indexLocked d o)) as (-> & -> & -> & ->). Qed.

Lemma indexed_foldl l m o : indexed m o → NoDup (map ndID l) → (∀ d, d ∈ l → m !! ndID d = None) →
  indexed (put_rows m l) (foldl (fun o d => indexLocked d o) o l).
Proof.
  revert m o. induction l as [|d l IH]; intros m o Hi Hnd Hn; [exact Hi|]. cbn.
  apply NoDup_cons in Hnd as [Hd Hnd]. apply IH; [|done|].
  - apply indexed_index; [done|]. apply Hn. by left.
  - intros x Hx. rewrite lookup_insert_ne; [apply Hn; by right|]. intros E. apply Hd. rewrite E.
    by apply list_elem_of_fmap_2.
Qed.

Lemma put_rows_Some m l id d : NoDup (map ndID l) →
  put_rows m l !! id = Some d ↔ (d ∈ l ∧ ndID d = id) ∨ (id ∉ map ndID l ∧ m !! id = Some d).
Proof.
  revert m. induction l as [|x l IH]; intros m Hnd.
  - cbn. split; [intros H; right; split; [apply not_elem_of_nil|exact H]|].
    intros [[H _]|[_ H]]; [by apply not_elem_of_nil in H|exact H].
  - apply NoDup_cons in Hnd as [Hx Hnd]. change (put_rows m (x :: l)) with (put_rows (<[ndID x := x]> m) l).
    rewrite (IH _ Hnd). cbn [map]. rewrite !elem_of_cons, lookup_insert_Some.
    split.
    + intros [[Hd E]|[Hn [[E <-]|[E Hm]]]]; [left; auto..|]. right. split; [|done]. intros [?|?]; by subst.
    + intros [[[->|Hd] E]|[Hn Hm]]; [|left; auto|].
      * right. subst id. auto.
      * right. split; [by intros ?; apply Hn; right|]. right. split; [|done]. intros <-. apply Hn. by left.
Qed.

Lemma rorder_elem r m d : valid_rorder r → d ∈ r m ↔ ∃ id, m !! id = Some d.
Proof.
  intros Hr. rewrite (Hr m), list_elem_of_fmap. split.
  - intros ([id x] & -> & Hx). apply elem_of_map_to_list in Hx. eauto.
  - intros [id Hid]. exists (id, d). split; [done|]. by apply elem_of_map_to_list.
Qed.

Lemma rorder_ids r m : valid_rorder r → (∀ id d, m !! id = Some d → ndID d = id) → map ndID (r m) ≡ₚ (map_to_list m).*1.
Proof.
  intros Hr Hm. change (map ndID (r m)) with (ndID <$> r m). rewrite (Hr m), <- list_fmap_compose.
  erewrite list_fmap_ext; [done|]. intros i [id d] Hi. cbn. apply Hm, elem_of_map_to_list.
  by eapply list_elem_of_lookup_2.
Qed.

Lemma put_rows_values r m : valid_rorder r → (∀ id d, m !! id = Some d → ndID d = id) →
  put_rows ∅ (r m) = m ∧ NoDup (map ndID (r m)).
Proof.
  intros Hr Hm. assert (NoDup (map ndID (r m))) as Hnd.
  { rewrite (rorder_ids _ _ Hr Hm). apply NoDup_fst_map_to_list. }
  split; [|done]. apply map_eq. intros id. apply option_eq. intros d.
  rewrite put_rows_Some, lookup_empty, (rorder_elem _ _ _ Hr) by done. split.
  - intros [[[id' Hd] <-]|[_ ?]]; [|done]. by rewrite (Hm _ _ Hd).
  - intros Hd. left. split; [eauto|]. by apply Hm.
Qed.

Lemma outbox_reindex_ok r o : valid_rorder r → rows_ok (rows o) → noRouteWritten o = ∅ → outbox_ok (reindex r o) ∧
  rows (reindex r o) = rows o ∧ health (reindex r o) = health o ∧ digest (reindex r o) = digest o.
Proof.
  intros Hr Hm Hw. destruct (put_rows_values r (rows o) Hr (fun id d H => proj1 (Hm id d H))) as [Hput Hnd].
  set (o0 := mkOutbox (rows o) (row_order o) (health o) (digest o) ∅ ∅ ∅ (noRouteWritten o)).
  destruct (foldl_index_fields (r (rows o)) o0) as (E1 & E2 & E3 & E4).
  unfold reindex. fold o0. split.
  - split; cbn.
    + by rewrite E1.
    + rewrite E1. cbn. rewrite <- Hput at 1. eapply indexed_ext; [..|apply (indexed_foldl _ ∅ o0)]; try done.
      by apply indexed_empty.
    + rewrite E1. by apply keys_rebuild.
    + rewrite E4. cbn. rewrite Hw. intros id t H. by rewrite lookup_empty in H.
  - cbn. by rewrite E1, E2, E3.
Qed.

(** ** What eviction takes *)

Lemma order_row o key : outbox_ok o → key ∈ row_order o →
  rows o !! ndID (row_at o key) = Some (row_at o key) ∧ notifyDeliveryKey (row_at o key) = key ∧ row_ok (row_at o key) = true.
Proof.
  intros [Hr _ Ho _] Hk. rewrite Ho in Hk. unfold keys_of in Hk.
  rewrite elem_of_sort_strings, list_elem_of_fmap in Hk. destruct Hk as ([id k] & -> & Hk).
  apply elem_of_map_to_list in Hk. rewrite lookup_fmap in Hk. destruct (rows o !! id) as [d|] eqn:E; [|done].
  injection Hk as <-. destruct (Hr _ _ E) as [Hid Hok]. change ((id, notifyDeliveryKey d).2) with (notifyDeliveryKey d).
  assert (row_at o (notifyDeliveryKey d) = d) as -> by (unfold row_at; by rewrite idFromNotifyKey_key, Hid, E).
  by rewrite Hid.
Qed.

Lemma row_in_order o id d : outbox_ok o → rows o !! id = Some d →
  notifyDeliveryKey d ∈ row_order o ∧ row_at o (notifyDeliveryKey d) = d.
Proof.
  intros [Hr _ Ho _] Hd. destruct (Hr _ _ Hd) as [Hid Hok]. split.
  - rewrite Ho. unfold keys_of. rewrite elem_of_sort_strings. apply list_elem_of_fmap. exists (id, notifyDeliveryKey d).
    split; [done|]. apply elem_of_map_to_list. by rewrite lookup_fmap, Hd.
  - unfold row_at. by rewrite idFromNotifyKey_key, Hid, Hd.
Qed.

(** Which rows the unsent pass may take, and what it leaves. *)
Lemma take_unsent_spec o added keys excess en vs e' :
  take_unsent o added keys excess en = (vs, e') →
  (∀ v, v ∈ vs → (∃ key, key ∈ keys ∧ v = row_at o key) ∧ Unsent v = true ∧ ndID v ∉ added) ∧
  e' = excess - Z.of_nat (length vs) ∧
  (0 < e' ∨ 0 < en - Z.of_nat (length vs) →
    ∀ key, key ∈ keys → Unsent (row_at o key) = true → ndID (row_at o key) ∉ added → row_at o key ∈ vs).
Proof.
  revert excess en vs e'. induction keys as [|key keys IH]; intros excess en vs e' H; cbn [take_unsent] in H.
  - injection H as <- <-. split_and!; [|cbn; lia|].
    + intros v Hv. by apply not_elem_of_nil in Hv.
    + intros _ key Hk. by apply not_elem_of_nil in Hk.
  - destruct ((excess <=? 0) && (en <=? 0)) eqn:Estop.
    { injection H as <- <-. go_bool. split_and!; [|cbn; lia|cbn; lia].
      intros v Hv. by apply not_elem_of_nil in Hv. }
    destruct (negb (Unsent (row_at o key)) || mem (ndID (row_at o key)) added) eqn:Eskip.
    + destruct (IH _ _ _ _ H) as (H1 & H2 & H3). split_and!; [|done|].
      * intros v Hv. destruct (H1 v Hv) as [(k & Hk & Hv') Hrest]. split; [|done]. exists k. split; [by right|done].
      * intros He k Hk Hu Ha. apply elem_of_cons in Hk as [->|Hk]; [|by apply H3].
        apply orb_true_iff in Eskip as [Es|Es]; [by rewrite Hu in Es|]. by apply mem_spec in Es.
    + apply orb_false_iff in Eskip as [Eu Ea]. apply negb_false_iff in Eu. apply mem_false in Ea.
      destruct (take_unsent o added keys (excess - 1) (en - 1)) as [vs' e''] eqn:E. injection H as <- <-.
      destruct (IH _ _ _ _ E) as (H1 & H2 & H3). cbn [length].
      split_and!; [|lia|].
      * intros v [->|Hv]%elem_of_cons; [split; [|done]; exists key; split; [by left|done]|].
        destruct (H1 v Hv) as [(k & Hk & Hv') Hrest]. split; [|done]. exists k. split; [by right|done].
      * intros He k [->|Hk]%elem_of_cons Hu Ha; [by left|]. right. apply H3; [lia|done..].
Qed.

Definition of_source (s : string) (d : NotifyDelivery) : bool := sourceKey d =?? s.
Lemma count_if_cons p d l : count_if p (d :: l) = (if p d then 1 else 0) + count_if p l.
Proof. unfold count_if. cbn [List.filter]. destruct (p d); cbn [length]; lia. Qed.
Lemma count_if_app p l k : count_if p (l ++ k) = count_if p l + count_if p k.
Proof. unfold count_if. rewrite List.filter_app, length_app. lia. Qed.
Lemma count_if_nonneg p l : 0 <= count_if p l.
Proof. unfold count_if. lia. Qed.
Lemma count_if_perm p l k : l ≡ₚ k → count_if p l = count_if p k.
Proof.
  unfold count_if. intros H. f_equal. induction H; cbn; [done|..].
  - destruct (p x); cbn; lia.
  - destruct (p x), (p y); cbn; lia.
  - lia.
Qed.

(** A row the passes over settled deliveries may take. *)
Definition evictable (added taken : list string) (d : NotifyDelivery) : Prop :=
  Settled d = true ∧ Unsent d = false ∧ ndID d ∉ added ∧ ndID d ∉ taken.

Record pick_post (o : notifyOutbox) (added keys : list string) (fl : bool) (p p' : picked) (new : list NotifyDelivery) : Prop := {
  pp_victims : pkVictims p' = pkVictims p ++ new;
  pp_excess : pkExcess p' = pkExcess p - Z.of_nat (length new);
  pp_taken : ∀ x, x ∈ pkTaken p' ↔ x ∈ map ndID new ∨ x ∈ pkTaken p;
  pp_count : ∀ s, count_of (pkPerSource p') s = count_of (pkPerSource p) s - count_if (of_source s) new;
  pp_nodup : NoDup (map ndID new);
  pp_new : ∀ v, v ∈ new → (∃ key, key ∈ keys ∧ v = row_at o key) ∧ evictable added (pkTaken p) v;
  pp_full : 0 < pkExcess p' → ∀ key, key ∈ keys → evictable added (pkTaken p) (row_at o key) →
    ndID (row_at o key) ∈ map ndID new ∨
    fl = true ∧ count_of (pkPerSource p') (sourceKey (row_at o key)) <= NotifyDeliveryFloorPerSource;
  pp_idle : pkExcess p <= 0 → new = [];
  pp_floor : fl = true → ∀ s, 0 < count_if (of_source s) new → NotifyDeliveryFloorPerSource <= count_of (pkPerSource p') s }.

Lemma count_of_insert m k k' z : count_of (<[k := z]> m) k' = if k =?? k' then z else count_of m k'.
Proof.
  unfold count_of. destruct (bool_decide_reflect (k = k')) as [->|Hne];
    [by rewrite lookup_insert_eq|by rewrite lookup_insert_ne].
Qed.

Lemma pick_spec o added keys fl p : ∃ new, pick_post o added keys fl p (foldl (pick_one o added fl) p keys) new.
Proof.
  revert p. induction keys as [|key keys IH]; intros p; cbn [foldl].
  - exists []. split; cbn; try done; try set_solver.
    + by rewrite app_nil_r.
    + lia.
    + intros s. unfold count_if. cbn. lia.
    + constructor.
  - destruct (IH (pick_one o added fl p key)) as [new [H1 H2 H3 H4 H5 H6 H7 H9 H8]].
    set (d := row_at o key) in *. set (p' := foldl _ _ _) in *.
    assert ((pick_one o added fl p key = p ∧
             (0 < pkExcess p → evictable added (pkTaken p) d →
                fl = true ∧ count_of (pkPerSource p) (sourceKey d) <= NotifyDeliveryFloorPerSource)) ∨
            pick_one o added fl p key = mkPicked (pkVictims p ++ [d]) (ndID d :: pkTaken p)
              (<[sourceKey d := count_of (pkPerSource p) (sourceKey d) - 1]> (pkPerSource p)) (pkExcess p - 1) ∧
            evictable added (pkTaken p) d ∧ 0 < pkExcess p ∧
            (fl = true → NotifyDeliveryFloorPerSource < count_of (pkPerSource p) (sourceKey d))) as [[E Hskip]|(E & Hev & Hpos & Hfl)].
    { unfold pick_one. fold d. destruct (Z.leb_spec (pkExcess p) 0); [left; split; [done|lia]|].
      destruct (mem (ndID d) (pkTaken p) || mem (ndID d) added || negb (Settled d) || Unsent d) eqn:Es.
      - left. split; [done|]. intros _ (Hs & Hu & Ha & Ht). apply mem_false in Ha, Ht. by rewrite Hs, Hu, Ha, Ht in Es.
      - go_bool. destruct Es as [[[Et Ea] Es] Eu]. apply mem_false in Et, Ea.
        destruct (fl && _) eqn:Ef.
        + left. split; [done|]. intros _ _. go_bool. done.
        + right. split; [done|]. split; [done|]. split; [lia|]. intros ->. cbn in Ef. lia. }
    + rewrite E in *. exists new. split; try done.
      * intros v Hv. destruct (H6 v Hv) as [(k & Hk & ->) ?]. split; [|done]. exists k. split; [by right|done].
      * intros Hx k [->|Hk]%elem_of_cons Hev; [|by apply H7]. fold d in Hev |- *. right.
        destruct Hskip as [Hf Hc]; [lia|done|]. split; [done|]. rewrite H4.
        pose proof (count_if_nonneg (of_source (sourceKey d)) new). lia.
    + rewrite E in *. cbn [pkVictims pkTaken pkPerSource pkExcess] in *. exists (d :: new). split.
      * rewrite H1. by rewrite <- app_assoc.
      * cbn [length]. lia.
      * intros x. rewrite H3. cbn [map]. rewrite !elem_of_cons. tauto.
      * intros s. rewrite H4, count_of_insert, count_if_cons. unfold of_source at 2.
        destruct (bool_decide_reflect (sourceKey d = s)) as [->|]; lia.
      * cbn [map]. constructor; [|done]. intros (v & Hv & Hin)%list_elem_of_fmap.
        destruct (H6 v Hin) as [_ (_ & _ & _ & Ht)]. apply Ht. rewrite <- Hv. by left.
      * intros v [->|Hv]%elem_of_cons; [split; [exists key; split; [by left|done]|done]|].
        destruct (H6 v Hv) as [(k & Hk & ->) (? & ? & ? & Ht)].
        split; [exists k; split; [by right|done]|]. split_and!; try done. intros Hn. apply Ht. by right.
      * intros Hx k [->|Hk]%elem_of_cons Hev'; [left; fold d; by left|].
        destruct (decide (ndID (row_at o k) = ndID d)) as [Ei|Ei]; [left; rewrite Ei; by left|].
        destruct (H7 Hx k Hk) as [Hin|Hc].
        { destruct Hev' as (? & ? & ? & ?). split_and!; try done. by rewrite not_elem_of_cons. }
        -- left. by right.
        -- by right.
      * lia.
      * intros Hf s. rewrite count_if_cons. destruct (of_source s d) eqn:Eo.
        -- intros _. destruct (decide (0 < count_if (of_source s) new)) as [Hp|Hp]; [by apply H8|].
           rewrite H4, count_of_insert. unfold of_source in Eo. rewrite bool_decide_eq_true in Eo. subst s.
           rewrite bool_decide_eq_true_2 by done. pose proof (Hfl Hf).
           pose proof (count_if_nonneg (of_source (sourceKey d)) new). lia.
        -- apply H8. done.
Qed.

Lemma delivery_order_ids o : outbox_ok o → map (fun key => ndID (row_at o key)) (row_order o) ≡ₚ (map_to_list (rows o)).*1.
Proof.
  intros Hok. rewrite (ob_order _ Hok). unfold keys_of.
  change (map (fun key => ndID (row_at o key))) with (fmap (M := list) (fun key => ndID (row_at o key))).
  rewrite sort_strings_perm, map_to_list_fmap, <- !list_fmap_compose.
  erewrite list_fmap_ext; [done|]. intros i [id d] Hi. cbn [compose fst snd prod_map].
  assert (rows o !! id = Some d) as Hd by (apply elem_of_map_to_list; by eapply list_elem_of_lookup_2).
  unfold compose, prod_map. cbn [fst snd]. rewrite (proj2 (row_in_order _ _ _ Hok Hd)).
  by apply (ob_rows _ Hok).
Qed.
Lemma order_ids_NoDup o : outbox_ok o → NoDup (map (fun key => ndID (row_at o key)) (row_order o)).
Proof. intros H. rewrite (delivery_order_ids _ H). apply NoDup_fst_map_to_list. Qed.

Lemma take_unsent_NoDup o added keys excess en vs e' : NoDup (map (fun key => ndID (row_at o key)) keys) →
  take_unsent o added keys excess en = (vs, e') → NoDup (map ndID vs).
Proof.
  revert excess en vs e'. induction keys as [|key keys IH]; intros excess en vs e' Hnd H; cbn [take_unsent] in H.
  - injection H as <- <-. constructor.
  - destruct (_ && _); [injection H as <- <-; constructor|].
    cbn [map] in Hnd. apply NoDup_cons in Hnd as [Hk Hnd].
    destruct (_ || _); [by eapply IH|].
    destruct (take_unsent o added keys (excess - 1) (en - 1)) as [vs' e''] eqn:E. injection H as <- <-.
    cbn [map]. constructor; [|by eapply IH].
    intros (v & Hv & Hin)%list_elem_of_fmap. destruct (take_unsent_spec _ _ _ _ _ _ _ E) as [H1 _].
    destruct (H1 v Hin) as [(k & Hkk & ->) _]. apply Hk. rewrite Hv. apply list_elem_of_fmap. eauto.
Qed.

Definition deliveries_of (s : string) : list NotifyDelivery → Z := count_if (fun d => negb (Unsent d) && of_source s d).

Lemma count_bump l m s : count_of (foldl bump m l) s = count_of m s + count_if (of_source s) l.
Proof.
  revert m. induction l as [|d l IH]; intros m; cbn [foldl]; [unfold count_if; cbn; lia|].
  rewrite IH, count_if_cons. unfold bump. rewrite count_of_insert. unfold of_source at 2.
  destruct (bool_decide_reflect (sourceKey d = s)) as [->|]; lia.
Qed.
Lemma count_if_filter p q l : count_if p (List.filter q l) = count_if (fun d => q d && p d) l.
Proof.
  induction l as [|d l IH]; [done|]. rewrite count_if_cons. cbn [List.filter].
  destruct (q d); [rewrite count_if_cons|]; rewrite IH; cbn; lia.
Qed.

Lemma count_if_none p l : (∀ d, d ∈ l → p d = false) → count_if p l = 0.
Proof.
  induction l as [|d l IH]; intros H; [done|]. rewrite count_if_cons, H, IH; [done| |by left].
  intros x Hx. apply H. by right.
Qed.
Lemma count_if_ext p q l : (∀ d, d ∈ l → p d = q d) → count_if p l = count_if q l.
Proof.
  induction l as [|d l IH]; intros H; [done|]. rewrite !count_if_cons, (H d), IH; [done| |by left].
  intros x Hx. apply H. by right.
Qed.
Lemma count_if_all p l : (∀ d, d ∈ l → p d = true) → count_if p l = Z.of_nat (length l).
Proof.
  induction l as [|d l IH]; intros H; [done|]. rewrite count_if_cons, H, IH; [cbn [length]; lia| |by left].
  intros x Hx. apply H. by right.
Qed.
Lemma Unsent_Settled d : Unsent d = true → Settled d = true.
Proof.
  unfold Unsent, Settled. intros H. apply negb_true_iff, bool_decide_eq_false. intros E. by rewrite E in H.
Qed.

(** The three passes together. *)
Record evict_post (r : rorder) (adding : list NotifyDelivery) (o : notifyOutbox) (V : list NotifyDelivery) : Prop := {
  ev_row : ∀ v, v ∈ V → rows o !! ndID v = Some v ∧ Settled v = true ∧ ndID v ∉ map ndID adding ∧ row_ok v = true;
  ev_nodup : NoDup (map ndID V);
  ev_total : Z.of_nat (size (rows o)) + count_if (is_new o) adding - Z.of_nat (length V) <= MaxNotifyDeliveries ∨
    ∀ id d, rows o !! id = Some d → Settled d = true → id ∉ map ndID adding → id ∈ map ndID V;
  ev_unsent : 0 < count_if (fun d => is_new o d && Unsent d) adding →
    count_if (fun d => is_new o d && Unsent d) adding + count_if Unsent (r (rows o)) - count_if Unsent V <= MaxNotifyNoRouteDeliveries ∨
    ∀ id d, rows o !! id = Some d → Unsent d = true → id ∉ map ndID adding → id ∈ map ndID V;
  ev_floor : ∀ s,
    let left s := deliveries_of s (r (rows o)) + deliveries_of s (List.filter (is_new o) adding) - deliveries_of s V in
    0 < deliveries_of s V → left s < NotifyDeliveryFloorPerSource →
    ∀ id d, rows o !! id = Some d → Settled d = true → Unsent d = false → id ∉ map ndID adding → id ∉ map ndID V →
      left (sourceKey d) <= NotifyDeliveryFloorPerSource }.

Lemma evict_nothing r adding o : Z.of_nat (size (rows o)) + count_if (is_new o) adding - MaxNotifyDeliveries <= 0 →
  (0 < count_if (fun d => is_new o d && Unsent d) adding →
    count_if (fun d => is_new o d && Unsent d) adding + count_if Unsent (r (rows o)) - MaxNotifyNoRouteDeliveries <= 0) →
  evict_post r adding o [].
Proof.
  intros H1 H2. split.
  - intros v Hv. by apply not_elem_of_nil in Hv.
  - constructor.
  - left. cbn. lia.
  - intros H. left. specialize (H2 H). change (count_if Unsent []) with 0. lia.
  - intros s left Hd. by change (deliveries_of s []) with 0 in Hd.
Qed.

Lemma deliveries_of_pick s l added taken : (∀ v, v ∈ l → evictable added taken v) →
  deliveries_of s l = count_if (of_source s) l.
Proof. intros H. apply count_if_ext. intros d Hd. destruct (H d Hd) as (_ & -> & _). done. Qed.

Lemma passes_post r adding o vs e0 e new1 new2 p1 p2 en ps : outbox_ok o →
  let added := map ndID adding in
  e0 = Z.of_nat (size (rows o)) + count_if (is_new o) adding - MaxNotifyDeliveries →
  en = count_if (fun d => is_new o d && Unsent d) adding + count_if Unsent (r (rows o)) - MaxNotifyNoRouteDeliveries →
  (∀ s, count_of ps s = deliveries_of s (r (rows o)) + deliveries_of s (List.filter (is_new o) adding)) →
  take_unsent o added (row_order o) e0 en = (vs, e) →
  pick_post o added (row_order o) true (mkPicked vs (map ndID vs) ps e) p1 new1 →
  pick_post o added (row_order o) false p1 p2 new2 →
  evict_post r adding o (vs ++ new1 ++ new2).
Proof.
  intros Hok added He0 Hen Hps Htake [A1 A2 A3 A4 A5 A6 A7 A9 A8] [B1 B2 B3 B4 B5 B6 B7 B9 B8].
  cbn [pkVictims pkTaken pkPerSource pkExcess] in *.
  pose proof (take_unsent_spec _ _ _ _ _ _ _ Htake) as (T1 & T2 & T3).
  pose proof (take_unsent_NoDup _ _ _ _ _ _ _ (order_ids_NoDup _ Hok) Htake) as T4.
  assert (∀ v, v ∈ vs → Unsent v = true) as Hun by (intros v Hv; by apply T1).
  assert (∀ s, deliveries_of s (vs ++ new1 ++ new2) = count_if (of_source s) new1 + count_if (of_source s) new2) as Hdel.
  { intros s. unfold deliveries_of. rewrite !count_if_app.
    rewrite (count_if_none _ vs) by (intros d Hd; by rewrite (Hun d Hd)).
    change (count_if (fun d => negb (Unsent d) && of_source s d)) with (deliveries_of s).
    rewrite (deliveries_of_pick s new1 added (map ndID vs)) by (intros v Hv; apply (A6 v Hv)).
    rewrite (deliveries_of_pick s new2 added (pkTaken p1)) by (intros v Hv; apply (B6 v Hv)). lia. }
  assert (∀ s, count_of (pkPerSource p2) s = deliveries_of s (r (rows o)) + deliveries_of s (List.filter (is_new o) adding) -
     deliveries_of s (vs ++ new1 ++ new2)) as Hleft.
  { intros s. rewrite B4, A4, Hdel, Hps. lia. }
  split.
  - intros v Hv. assert ((∃ key, key ∈ row_order o ∧ v = row_at o key) ∧ Settled v = true ∧ ndID v ∉ added) as ((k & Hk & Ev) & Hs & Ha).
    { apply elem_of_app in Hv as [Hv|[Hv|Hv]%elem_of_app].
      - destruct (T1 v Hv) as (? & ? & ?). split_and!; [done|by apply Unsent_Settled|done].
      - destruct (A6 v Hv) as (? & ? & ? & ? & ?). done.
      - destruct (B6 v Hv) as (? & ? & ? & ? & ?). done. }
    destruct (order_row o k Hok Hk) as (H1 & _ & H2). by subst v.
  - rewrite !map_app. apply NoDup_app. split; [done|]. split.
    + intros x (v & -> & Hv)%list_elem_of_fmap [Hx|Hx]%elem_of_app; apply list_elem_of_fmap in Hx as (u & Hu & Hin).
      * destruct (A6 u Hin) as (_ & _ & _ & _ & Ht). apply Ht. rewrite <- Hu. by apply list_elem_of_fmap_2.
      * destruct (B6 u Hin) as (_ & _ & _ & _ & Ht). apply Ht, A3. right. rewrite <- Hu. by apply list_elem_of_fmap_2.
    + apply NoDup_app. split; [done|]. split; [|done].
      intros x Hx (u & Hu & Hin)%list_elem_of_fmap. destruct (B6 u Hin) as (_ & _ & _ & _ & Ht).
      apply Ht, A3. left. by rewrite <- Hu.
  - destruct (Z.le_gt_cases (pkExcess p2) 0) as [Hz|Hz]; [left; rewrite !length_app; lia|]. right.
    intros id d Hd Hs Ha. destruct (row_in_order _ _ _ Hok Hd) as [Hk Ek].
    assert (ndID d = id) as Hid by (by apply (ob_rows _ Hok)). subst id. rewrite !map_app, !elem_of_app.
    destruct (Unsent d) eqn:Eu.
    { left. apply list_elem_of_fmap_2. rewrite <- Ek. apply T3; rewrite ?Ek; try done. left. lia. }
    destruct (decide (ndID d ∈ pkTaken p1)) as [Ht|Ht]; [apply A3 in Ht; tauto|].
    right. right. destruct (B7 Hz _ Hk) as [Hin|[? _]]; [by rewrite Ek|by rewrite Ek in Hin|done].
  - intros _. destruct (Z.le_gt_cases en (Z.of_nat (length vs))) as [Hz|Hz].
    + left. rewrite count_if_app, (count_if_all _ vs Hun). pose proof (count_if_nonneg Unsent (new1 ++ new2)). lia.
    + right. intros id d Hd Hu Ha. destruct (row_in_order _ _ _ Hok Hd) as [Hk Ek].
      assert (ndID d = id) as Hid by (by apply (ob_rows _ Hok)). subst id. rewrite map_app, elem_of_app. left.
      apply list_elem_of_fmap_2. rewrite <- Ek. apply T3; rewrite ?Ek; try done. right. lia.
  - intros s left0 Hv Hlt id d Hd Hs Hu Ha Hn. unfold left0 in *. rewrite <- Hleft in Hlt |- *.
    destruct (row_in_order _ _ _ Hok Hd) as [Hk Ek].
    assert (ndID d = id) as Hid by (by apply (ob_rows _ Hok)). subst id.
    rewrite !map_app, !not_elem_of_app in Hn. destruct Hn as (N1 & N2 & N3).
    assert (0 < pkExcess p1) as Hx1.
    { destruct (Z.le_gt_cases (pkExcess p1) 0) as [Hz|]; [|done]. exfalso.
      rewrite B4 in Hlt. rewrite Hdel in Hv. rewrite (B9 Hz) in *. change (count_if (of_source s) []) with 0 in *.
      pose proof (A8 eq_refl s). lia. }
    rewrite B4. pose proof (count_if_nonneg (of_source (sourceKey d)) new2).
    destruct (A7 Hx1 _ Hk) as [Hin|[_ Hc]]; [by rewrite Ek|by rewrite Ek in Hin|]. rewrite Ek in Hc. lia.
Qed.

Lemma eviction_spec r adding o : outbox_ok o → evict_post r adding o (evictionLocked r adding o).
Proof.
  intros Hok. unfold evictionLocked. cbv zeta.
  destruct ((_ <=? 0) && (_ =? 0)) eqn:E1; [apply evict_nothing; go_bool; lia|].
  destruct ((_ <=? 0) && (_ <=? 0)) eqn:E2; [apply evict_nothing; go_bool; lia|].
  destruct (take_unsent _ _ _ _ _) as [vs e] eqn:Et.
  set (ps := foldl bump _ _). unfold pick.
  destruct (pick_spec o (map ndID adding) (row_order o) true (mkPicked vs (map ndID vs) ps e)) as [new1 P1].
  destruct (pick_spec o (map ndID adding) (row_order o) false
    (foldl (pick_one o (map ndID adding) true) (mkPicked vs (map ndID vs) ps e) (row_order o))) as [new2 P2].
  rewrite (pp_victims _ _ _ _ _ _ _ P2), (pp_victims _ _ _ _ _ _ _ P1). cbn [pkVictims]. rewrite <- app_assoc.
  eapply passes_post; [done|reflexivity|reflexivity| |exact Et|exact P1|exact P2].
  intros s. unfold ps. rewrite !count_bump, !count_if_filter. unfold count_of at 1. rewrite lookup_empty. cbn [default].
  unfold deliveries_of. rewrite count_if_filter.
  rewrite (count_if_ext (fun d => is_new o d && negb (Unsent d) && of_source s d) (fun d => is_new o d && (negb (Unsent d) && of_source s d)));
    [done|]. intros d _. by rewrite andb_assoc.
Qed.

Definition count_rows (p : NotifyDelivery → bool) (m : gmap string NotifyDelivery) : Z := count_if p (map_to_list m).*2.

Lemma count_rows_insert p m k d : m !! k = None → count_rows p (<[k := d]> m) = (if p d then 1 else 0) + count_rows p m.
Proof.
  intros H. unfold count_rows. rewrite (count_if_perm p _ (d :: (map_to_list m).*2)).
  - apply count_if_cons.
  - by rewrite (map_to_list_insert m k d H).
Qed.
Lemma count_rows_delete p m k d : m !! k = Some d → count_rows p (delete k m) = count_rows p m - (if p d then 1 else 0).
Proof.
  intros H. rewrite <- (insert_delete_id m k d H) at 2. rewrite count_rows_insert by apply lookup_delete_eq. lia.
Qed.
Lemma count_rows_size m : Z.of_nat (size m) = count_rows (fun _ => true) m.
Proof. unfold count_rows. rewrite count_if_all by done. by rewrite length_fmap, length_map_to_list. Qed.
Lemma count_rows_rorder p r m : valid_rorder r → count_if p (r m) = count_rows p m.
Proof. intros Hr. apply count_if_perm, Hr. Qed.

Lemma del_rows_lookup m ds id : id ∉ map ndID ds → del_rows m ds !! id = m !! id.
Proof.
  revert m. induction ds as [|d ds IH]; intros m H; [done|]. cbn in H. apply not_elem_of_cons in H as [Hd H].
  change (del_rows m (d :: ds)) with (del_rows (delete (ndID d) m) ds). rewrite (IH _ H). by rewrite lookup_delete_ne.
Qed.
Lemma del_rows_gone m ds id : id ∈ map ndID ds → del_rows m ds !! id = None.
Proof.
  revert m. induction ds as [|d ds IH]; intros m H; [by apply not_elem_of_nil in H|].
  change (del_rows m (d :: ds)) with (del_rows (delete (ndID d) m) ds).
  destruct (decide (id ∈ map ndID ds)) as [Hi|Hi]; [by apply IH|].
  rewrite del_rows_lookup by done. apply elem_of_cons in H as [->|H]; [apply lookup_delete_eq|done].
Qed.
Lemma count_del_rows p m V : NoDup (map ndID V) → (∀ v, v ∈ V → m !! ndID v = Some v) →
  count_rows p (del_rows m V) = count_rows p m - count_if p V.
Proof.
  revert m. induction V as [|v V IH]; intros m Hnd HV; [cbn; unfold count_if; cbn; lia|].
  apply NoDup_cons in Hnd as [Hv Hnd]. change (del_rows m (v :: V)) with (del_rows (delete (ndID v) m) V).
  rewrite IH, (count_rows_delete p m _ v), count_if_cons; [lia|apply HV; by left|done|].
  intros u Hu. rewrite lookup_delete_ne; [apply HV; by right|]. intros E. apply Hv. rewrite E. by apply list_elem_of_fmap_2.
Qed.
Lemma count_put_rows p m ds : NoDup (map ndID ds) → (∀ d, d ∈ ds → m !! ndID d = None) →
  count_rows p (put_rows m ds) = count_rows p m + count_if p ds.
Proof.
  revert m. induction ds as [|d ds IH]; intros m Hnd Hn; [cbn; unfold count_if; cbn; lia|].
  apply NoDup_cons in Hnd as [Hd Hnd]. change (put_rows m (d :: ds)) with (put_rows (<[ndID d := d]> m) ds).
  rewrite IH, count_rows_insert, count_if_cons; [lia|apply Hn; by left|done|].
  intros u Hu. rewrite lookup_insert_ne; [apply Hn; by right|]. intros E. apply Hd. rewrite E. by apply list_elem_of_fmap_2.
Qed.

(** ** Bounds *)

(** The outbox has been read from the hot store when there is one. *)
Definition loaded (s : ostore) : bool := match hotDB s with None => true | Some _ => fromHot s end.

Lemma loaded_id r d s : loaded s = true → notifyOutboxLocked r d s = s.
Proof. unfold loaded, notifyOutboxLocked. by destruct (hotDB s) as [h|]; [intros ->|]. Qed.

Lemma commit_apply_None r d w s s' : commit_apply r d w s = (s', None) → outbox s' = applyLocked r w (outbox s).
Proof.
  unfold commit_apply, commitNotifyOutboxLocked.
  repeat case_match; intros [= <-]; simplify_eq/=; done.
Qed.
Lemma commit_apply_Some r d w s s' e : commit_apply r d w s = (s', Some e) → s' = s.
Proof. unfold commit_apply. case_match; by intros [= <-]. Qed.

Lemma clamp_fields d : ndID (clampNotifyDelivery d) = ndID d ∧ ndCreatedAt (clampNotifyDelivery d) = ndCreatedAt d ∧
  ndOutcome (clampNotifyDelivery d) = ndOutcome d ∧ ndEventID (clampNotifyDelivery d) = ndEventID d.
Proof. unfold clampNotifyDelivery. by destruct (ClampNotifyText _ _) as [[t b] c]. Qed.
Lemma clamp_row_ok d : row_ok (clampNotifyDelivery d) = row_ok d.
Proof. unfold row_ok. destruct (clamp_fields d) as (-> & -> & _). done. Qed.
Lemma clamp_ids rs : map ndID (clampNotifyDeliveries rs) = map ndID rs.
Proof.
  unfold clampNotifyDeliveries. rewrite map_map. apply map_ext. intros d. apply clamp_fields.
Qed.

Lemma put_fresh_rows r rs o : outbox_ok o → NoDup (map ndID rs) → (∀ d, d ∈ rs → rows o !! ndID d = None) →
  let w := put_rows_write r rs o in let V := evictionLocked r rs o in
  (∀ p, count_rows p (rows (applyLocked r w o)) = count_rows p (rows o) - count_if p V + count_if p rs) ∧
  (∀ id d, rows (applyLocked r w o) !! id = Some d ↔ d ∈ rs ∧ ndID d = id ∨ rows o !! id = Some d ∧ id ∉ map ndID V).
Proof.
  intros Hok Hnd Hn w V. destruct (eviction_spec r rs o Hok) as [Ev Vnd _ _ _]. fold V in Ev, Vnd.
  assert (∀ d, d ∈ rs → del_rows (rows o) V !! ndID d = None) as Hn'.
  { intros d Hd. destruct (del_rows (rows o) V !! ndID d) as [x|] eqn:E; [|done].
    apply del_rows_Some in E. rewrite (Hn d Hd) in E. done. }
  assert (rows (applyLocked r w o) = put_rows (del_rows (rows o) V) rs) as E by apply rows_apply.
  rewrite E. split.
  - intros p. rewrite count_put_rows, count_del_rows; [lia|done| |done|done]. intros v Hv. by apply Ev.
  - intros id d. rewrite put_rows_Some by done. split; (intros [H|[H1 H2]]; [by left|]).
    + right. destruct (decide (id ∈ map ndID V)) as [Hv|Hv]; [by rewrite del_rows_gone in H2|].
      by rewrite del_rows_lookup in H2.
    + right. split; [|by rewrite del_rows_lookup]. intros (x & -> & Hx)%list_elem_of_fmap. by rewrite (Hn x Hx) in H1.
Qed.

Lemma count_new_fresh p o rs : (∀ d, d ∈ rs → rows o !! ndID d = None) →
  count_if (fun d => is_new o d && p d) rs = count_if p rs.
Proof. intros H. apply count_if_ext. intros d Hd. unfold is_new. by rewrite (H d Hd). Qed.
Lemma filter_new_fresh o rs : (∀ d, d ∈ rs → rows o !! ndID d = None) → List.filter (is_new o) rs = rs.
Proof.
  induction rs as [|d rs IH]; intros H; [done|]. cbn [List.filter]. unfold is_new at 1.
  rewrite (H d) by left. f_equal. apply IH. intros x Hx. apply H. by right.
Qed.

(** Storing a batch of new deliveries keeps the outbox within its bounds
    without dropping what is owed a send: every message of the batch and
    every unsettled row is kept; the outbox ends at no more than a thousand
    rows unless nothing but unsettled rows and the batch is left; and a
    source is cut below fifty deliveries only when no settled delivery is
    left of any source holding more than fifty. *)
Theorem outbox_bounds r d rs s s' : valid_rorder r → loaded s = true → outbox_ok (outbox s) →
  NoDup (map ndID rs) → (∀ x, x ∈ rs → rows (outbox s) !! ndID x = None) → rs ≠ [] →
  RecordNotifyDeliveries r d rs s = (s', None) →
  let m := rows (outbox s) in let m' := rows (outbox s') in
  (∀ x, x ∈ rs → m' !! ndID x = Some (clampNotifyDelivery x)) ∧
  (∀ id x, m !! id = Some x → Settled x = false → m' !! id = Some x) ∧
  (Z.of_nat (size m') <= MaxNotifyDeliveries ∨
    ∀ id x, m' !! id = Some x → id ∈ map ndID rs ∨ Settled x = false) ∧
  (∀ id x, m !! id = Some x → m' !! id = None → Unsent x = false →
    let held k := count_rows (fun x => negb (Unsent x) && of_source k x) m' in
    held (sourceKey x) < NotifyDeliveryFloorPerSource →
    ∀ id' y, m' !! id' = Some y → Settled y = true → Unsent y = false → id' ∉ map ndID rs →
      held (sourceKey y) <= NotifyDeliveryFloorPerSource).
Proof.
  intros Hr Hl Hok Hnd Hn Hne Hrec m m'.
  assert (commit_apply r d (put_rows_write r (clampNotifyDeliveries rs) (outbox s)) s = (s', None)) as Hc.
  { destruct rs; [done|]. unfold RecordNotifyDeliveries in Hrec. rewrite loaded_id in Hrec by done. exact Hrec. }
  apply commit_apply_None in Hc.
  set (cs := clampNotifyDeliveries rs) in *.
  assert (NoDup (map ndID cs)) as Hnd' by (unfold cs; by rewrite clamp_ids).
  assert (∀ c, c ∈ cs → rows (outbox s) !! ndID c = None) as Hn'.
  { intros c (x & -> & Hx)%list_elem_of_fmap. rewrite (proj1 (clamp_fields x)). by apply Hn. }
  destruct (put_fresh_rows r cs (outbox s) Hok Hnd' Hn') as [Hcount Hlook].
  rewrite <- Hc in Hcount, Hlook. fold m m' in Hcount, Hlook.
  destruct (eviction_spec r cs (outbox s) Hok) as [Ev Vnd Et _ Ef].
  set (V := evictionLocked r cs (outbox s)) in *.
  rewrite filter_new_fresh in Ef by done.
  assert (∀ k, count_rows (fun x => negb (Unsent x) && of_source k x) m' =
    deliveries_of k (r m) + deliveries_of k cs - deliveries_of k V) as Hheld.
  { intros k. rewrite Hcount. unfold deliveries_of. rewrite (count_rows_rorder _ _ _ Hr). lia. }
  split_and!.
  - intros x Hx. apply Hlook. left. split; [by apply list_elem_of_fmap_2|]. apply clamp_fields.
  - intros id x Hx Hs. apply Hlook. right. split; [done|]. intros (v & -> & Hv)%list_elem_of_fmap.
    destruct (Ev v Hv) as (Hm & Hsv & _). fold m in Hm. congruence.
  - destruct Et as [Et|Et].
    + left. rewrite count_rows_size, Hcount, <- count_rows_size. rewrite (count_if_all _ V), (count_if_all _ cs) by done.
      rewrite (count_if_ext _ (fun d => is_new (outbox s) d && true)) in Et by (intros; by rewrite andb_true_r).
      rewrite count_new_fresh, (count_if_all _ cs) in Et by done. fold m in Et. lia.
    + right. intros id x [[Hx <-]|[Hx Hv]]%Hlook.
      * left. unfold cs in Hx. rewrite <- (clamp_ids rs). by apply list_elem_of_fmap_2.
      * right. destruct (Settled x) eqn:Es; [|done]. exfalso. apply Hv, (Et id x Hx Es).
        intros (c & -> & Hc')%list_elem_of_fmap. specialize (Hn' c Hc'). fold m in Hn'. congruence.
  - intros id x Hx Hgone Hu held Hlt id' y Hy Hsy Huy Hid'. unfold held in *. rewrite Hheld in Hlt |- *.
    assert (id ∈ map ndID V) as Hv.
    { destruct (decide (id ∈ map ndID V)) as [|Hv]; [done|].
      rewrite (proj2 (Hlook id x)) in Hgone by (right; done). done. }
    assert (x ∈ V) as HxV.
    { apply list_elem_of_fmap in Hv as (v & -> & Hv). destruct (Ev v Hv) as (Hm & _). fold m in Hm.
      assert (v = x) as <- by congruence. done. }
    apply Hlook in Hy as [[Hy <-]|[Hy Hyv]].
    { exfalso. apply Hid'. rewrite <- (clamp_ids rs). by apply list_elem_of_fmap_2. }
    refine (Ef (sourceKey x) _ Hlt id' y Hy Hsy Huy _ Hyv); [|unfold cs; by rewrite clamp_ids].
    unfold deliveries_of. apply list_elem_of_split in HxV as (l1 & l2 & ->). rewrite count_if_app, count_if_cons.
    rewrite Hu. unfold of_source at 2. rewrite bool_decide_eq_true_2 by done. cbn [andb negb].
    pose proof (count_if_nonneg (fun d => negb (Unsent d) && of_source (sourceKey x) d) l1).
    pose proof (count_if_nonneg (fun d => negb (Unsent d) && of_source (sourceKey x) d) l2). lia.
Qed.

(** ** Runs

    The operations the server calls, with any transaction refused. *)

Inductive outOp :=
| OpRecord (rs : list NotifyDelivery)
| OpNoRoute (row : NotifyDelivery)
| OpSuppressed (row : NotifyDelivery)
| OpPut (row : NotifyDelivery) (h : option NotifyChannelHealth)
| OpForgetHealth (channelID : string)
| OpQueue (line : NotifyDigestLine)
| OpUnqueue (keys : list string).
Definition run_op (r : rorder) (d : disk) (op : outOp) (s : ostore) : ostore * option outError :=
  match op with
  | OpRecord rs => RecordNotifyDeliveries r d rs s
  | OpNoRoute row => RecordNotifyNoRoute r d row s
  | OpSuppressed row => RecordNotifySuppressed r d row s
  | OpPut row h => PutNotifyDelivery r d row h s
  | OpForgetHealth id => deleteNotifyChannelHealthLocked r d id s
  | OpQueue line => QueueNotifyDigestLine r d line s
  | OpUnqueue keys => RemoveNotifyDigestLines r d keys s
  end.
Definition op_rows (op : outOp) : list NotifyDelivery :=
  match op with OpRecord rs => rs | OpNoRoute row | OpSuppressed row | OpPut row _ => [row] | _ => [] end.
(** Ids without a slash, instants with a four-digit year, and a row that is
    already stored keeps the instant it was created at. *)
Definition op_ok (r : rorder) (d : disk) (s : ostore) (op : outOp) : Prop :=
  (∀ x, x ∈ op_rows op → row_ok x = true) ∧ stable (rows (outbox (notifyOutboxLocked r d s))) (op_rows op).

Record hot_wf (h : hotOutbox) : Prop := {
  hw_rows : ∃ m, rows_ok m ∧ mirrors m (bkDeliveries h);
  hw_health : ∀ k x, bkHealth h !! k = Some x → hChannelID x = k;
  hw_digest : ∀ k x, bkDigest h !! k = Some x → dlKey x = k }.
Record synced (s : ostore) (h : hotOutbox) : Prop := {
  sy_hot : hotDB s = Some h;
  sy_from : fromHot s = true;
  sy_ok : outbox_ok (outbox s);
  sy_rows : mirrors (rows (outbox s)) (bkDeliveries h);
  sy_health : health (outbox s) = bkHealth h;
  sy_digest : digest (outbox s) = bkDigest h;
  sy_wf : hot_wf h }.
Definition fresh_store (h : hotOutbox) : ostore := mkOStore empty_outbox false (Some h).
Definition store_inv (s : ostore) : Prop := (∃ h, synced s h) ∨ ∃ h, s = fresh_store h ∧ hot_wf h.

Lemma rorder_empty r : valid_rorder r → r ∅ = [].
Proof. intros Hr. apply Permutation_nil_r. rewrite (Hr ∅). by rewrite map_to_list_empty. Qed.

Lemma load_synced r d h : valid_rorder r → reads d = true → hot_wf h →
  synced (notifyOutboxLocked r d (fresh_store h)) h ∧
  ∀ m, rows_ok m → mirrors m (bkDeliveries h) → erase <$> rows (outbox (notifyOutboxLocked r d (fresh_store h))) = erase <$> m.
Proof.
  intros Hr Hd Hw. pose proof Hw as [(m & Hm & Hs) Hh Hg]. unfold notifyOutboxLocked, fresh_store.
  cbn [hotDB fromHot outbox empty_outbox rows row_order health digest noRouteWritten]. rewrite Hd. unfold LoadNotifyOutbox.
  rewrite (rorder_empty r Hr), !map_to_list_empty. cbn [outwrite_empty putRows delRows putHealth delHealth putDigest delDigest length fmap list_fmap].
  change ((0 =? 0)%nat) with true. cbn [andb].
  set (o := mkOutbox (keep_new ndID ∅ (bucket (bkDeliveries h))) _ _ _ _ _ _ _).
  destruct (load_mirrors m (bkDeliveries h) Hs Hm) as [Hrows Herase].
  destruct (outbox_reindex_ok r o Hr Hrows eq_refl) as (Hok & E1 & E2 & E3).
  split.
  - split; cbn [hotDB fromHot outbox]; try done.
    + rewrite E1. cbn [rows o]. by apply (mirrors_erase m).
    + rewrite E2. cbn [health o]. by apply keep_new_bucket.
    + rewrite E3. cbn [digest o]. by apply keep_new_bucket.
  - intros m' Hm' Hs'. cbn [outbox]. rewrite E1. cbn [rows o].
    exact (proj2 (load_mirrors m' (bkDeliveries h) Hs' Hm')).
Qed.

Lemma apply_keyed {A} (name : A → string) (m : gmap string A) dels puts : (∀ k x, m !! k = Some x → name x = k) →
  ∀ k x, foldl (fun m a => <[name a := a]> m) (foldl (fun m id => delete id m) m dels) puts !! k = Some x → name x = k.
Proof.
  intros Hm. assert (∀ k x, foldl (fun m id => delete id m) m dels !! k = Some x → name x = k) as Hd.
  { revert m Hm. induction dels as [|y dels IH]; intros m Hm; [exact Hm|]. cbn. apply IH.
    intros k x [_ H]%lookup_delete_Some. by apply Hm. }
  clear Hm. revert Hd. generalize (foldl (fun m id => delete id m) m dels). intros m' Hm'. revert m' Hm'.
  induction puts as [|y puts IH]; intros m' Hm'; [exact Hm'|]. cbn. apply IH.
  intros k x [[<- <-]|[_ H]]%lookup_insert_Some; [done|]. by apply Hm'.
Qed.

Lemma delete_fold_maps ds a : health (foldl delete_row a ds).1 = health a.1 ∧ digest (foldl delete_row a ds).1 = digest a.1.
Proof.
  revert a. induction ds as [|d ds IH]; intros [o b]; [done|]. cbn [foldl]. destruct (IH (delete_row (o, b) d)) as [-> ->].
  unfold delete_row. by destruct (rows o !! ndID d).
Qed.
Lemma put_fold_maps ds a : health (foldl put_row a ds).1 = health a.1 ∧ digest (foldl put_row a ds).1 = digest a.1.
Proof.
  revert a. induction ds as [|d ds IH]; intros [o b]; [done|]. cbn [foldl]. destruct (IH (put_row (o, b) d)) as [-> ->].
  unfold put_row. by destruct (rows o !! ndID d).
Qed.
Lemma apply_maps r w o : health (applyLocked r w o) = apply_health w (health o) ∧
  digest (applyLocked r w o) = apply_digest w (digest o).
Proof.
  unfold applyLocked. destruct (put_fold_maps (putRows w) (foldl delete_row (o, false) (delRows w))) as [E1 E2].
  destruct (delete_fold_maps (delRows w) (o, false)) as [E3 E4]. rewrite E3 in E1. rewrite E4 in E2.
  destruct (foldl put_row _ _) as [o' b]. cbn [fst] in *. destruct b; cbn; by rewrite E1, E2.
Qed.

Lemma stable_rows m ds : (∀ d, d ∈ ds → m !! ndID d = Some d) → stable m ds.
Proof. intros H d Hd. specialize (H d Hd) as Hdm. split; [|intros d' Hd' E; specialize (H d' Hd'); rewrite E in H]; intros; congruence. Qed.

Lemma commit_synced r d w s h : valid_rorder r → synced s h →
  (∀ x, x ∈ putRows w → row_ok x = true) → stable (rows (outbox s)) (putRows w) →
  (∀ v, v ∈ delRows w → rows (outbox s) !! ndID v = Some v) → ∃ h', synced (commit_apply r d w s).1 h'.
Proof.
  intros Hr [Hhot Hfrom Hok Hrows Hhe Hdi Hwf] Hp Hst Hdel.
  unfold commit_apply, commitNotifyOutboxLocked. rewrite Hhot.
  assert (outwrite_empty w = true → synced (with_outbox (applyLocked r w (outbox s)) s) h) as Hemp.
  { intros E. unfold outwrite_empty in E.
    repeat match type of E with _ && _ = true => let E' := fresh in apply andb_true_iff in E as [E E'] end.
    assert (putRows w = [] ∧ delRows w = [] ∧ putHealth w = [] ∧ delHealth w = [] ∧ putDigest w = [] ∧ delDigest w = [])
      as (E1 & E2 & E3 & E4 & E5 & E6)
      by (repeat match goal with H : (length _ =? 0)%nat = true |- _ => apply Nat.eqb_eq, nil_length_inv in H end; done).
    split; try done; cbn [with_outbox outbox].
    - apply outbox_applied_ok; [done..|]. exact Hp.
    - rewrite rows_apply, E1, E2. exact Hrows.
    - unfold applyLocked, apply_health. rewrite E1, E2, E3, E4. exact Hhe.
    - unfold applyLocked, apply_digest. rewrite E1, E2, E5, E6. exact Hdi. }
  destruct (outwrite_empty w) eqn:E; [eexists; by apply Hemp|].
  destruct (writes d); [|by exists h].
  exists (WriteNotifyOutbox w h).
  assert (mirrors (rows (applyLocked r w (outbox s))) (bkDeliveries (WriteNotifyOutbox w h))) as Hmir.
  { rewrite rows_apply. cbn [WriteNotifyOutbox bkDeliveries].
    apply mirrors_puts; [|by apply del_rows_ok, (ob_rows _ Hok)| |done].
    - apply mirrors_dels; [done|apply (ob_rows _ Hok)|by apply stable_rows|].
      intros v Hv. by apply (ob_rows _ Hok _ _ (Hdel v Hv)).
    - intros x Hx. split; [|exact (proj2 (Hst x Hx))]. intros p Hpx%del_rows_Some. exact (proj1 (Hst x Hx) p Hpx). }
  assert (outbox_ok (applyLocked r w (outbox s))) as Hok' by (by apply outbox_applied_ok).
  destruct (apply_maps r w (outbox s)) as [Hah Had].
  split; cbn [fst with_outbox outbox hotDB fromHot];
    [reflexivity|exact Hfrom|exact Hok'|exact Hmir|rewrite Hah, Hhe; reflexivity|rewrite Had, Hdi; reflexivity|].
  split; [eexists; split; [exact (ob_rows _ Hok')|exact Hmir]|..]; cbn [WriteNotifyOutbox bkHealth bkDigest];
    apply apply_keyed, Hwf.
Qed.

Lemma load_inv r d s : valid_rorder r → reads d = true → store_inv s → ∃ h, synced (notifyOutboxLocked r d s) h.
Proof.
  intros Hr Hd [[h Hs]|(h & -> & Hw)].
  - exists h. rewrite loaded_id; [done|]. unfold loaded. by rewrite (sy_hot _ _ Hs), (sy_from _ _ Hs).
  - exists h. by apply load_synced.
Qed.

Lemma with_written_ok o id t : outbox_ok o → is_Some (rows o !! id) → outbox_ok (with_written (<[id := t]> (noRouteWritten o)) o).
Proof.
  intros [H1 H2 H3 H4] Hid. split; try done.
  - by eapply indexed_ext; [..|exact H2].
  - intros k u Hk. cbn in Hk |- *. apply lookup_insert_Some in Hk as [[<- _]|[_ Hk]]; [done|]. by eapply H4.
Qed.
Lemma synced_written s h id t : synced s h → is_Some (rows (outbox s) !! id) →
  synced (with_outbox (with_written (<[id := t]> (noRouteWritten (outbox s))) (outbox s)) s) h.
Proof.
  intros [Hhot Hfrom Hok Hrows Hhe Hdi Hwf] Hid. split; try done. by apply with_written_ok.
Qed.

(** A repeat counted in memory only changes what a restart may lose. *)
Lemma fold_mem_ok o first row : outbox_ok o → rows o !! ndID first = Some first →
  outbox_ok (with_rows (<[ndID first := fold_repeat row first]> (rows o)) o).
Proof.
  intros Hok Hf.
  assert (∀ id x, <[ndID first := fold_repeat row first]> (rows o) !! id = Some x →
    ∃ y, rows o !! id = Some y ∧ (x = y ∨ x = fold_repeat row y)) as Hto.
  { intros id x [[<- <-]|[_ H]]%lookup_insert_Some; eauto. }
  assert (∀ id y, rows o !! id = Some y → ∃ x, <[ndID first := fold_repeat row first]> (rows o) !! id = Some x ∧
    (x = y ∨ x = fold_repeat row y)) as Hfrom'.
  { intros id y Hy. destruct (decide (id = ndID first)) as [->|Hne].
    - rewrite lookup_insert_eq. assert (y = first) as -> by congruence. eauto.
    - rewrite lookup_insert_ne by done. eauto. }
  destruct Hok as [H1 [I1 I2 I3 I4] H3 H4]. split; cbn [with_rows rows row_order noRouteWritten].
  - apply (rows_ok_insert _ (fold_repeat row first)); [done|]. by apply (H1 _ _ Hf).
  - split; cbn [with_rows byEvent unsettled noRouteLatest].
    + intros e id. rewrite I1. split; intros (x & Hx & <-).
      * destruct (Hfrom' _ _ Hx) as (y & Hy & [->| ->]); eauto.
      * destruct (Hto _ _ Hx) as (y & Hy & [->| ->]); eauto.
    + done.
    + intros id. rewrite I3. split; intros (x & Hx & Hs).
      * destruct (Hfrom' _ _ Hx) as (y & Hy & [->| ->]); eauto.
      * destruct (Hto _ _ Hx) as (y & Hy & [->| ->]); eauto.
    + intros k id Hk. destruct (I4 k id Hk) as (x & Hx & Hux & Hkx).
      destruct (Hfrom' _ _ Hx) as (y & Hy & [->| ->]); eauto.
  - rewrite H3. symmetry. by apply (keys_of_same _ (fold_repeat row first) first).
  - intros id t Ht. destruct (H4 id t Ht) as [x Hx]. destruct (Hfrom' _ _ Hx) as (y & Hy & _). eauto.
Qed.
Lemma synced_fold s h first row : synced s h → rows (outbox s) !! ndID first = Some first → Unsent first = true →
  synced (with_outbox (with_rows (<[ndID first := fold_repeat row first]> (rows (outbox s))) (outbox s)) s) h.
Proof.
  intros [Hhot Hfrom Hok Hrows Hhe Hdi Hwf] Hf Hu.
  split; try done; cbn [with_outbox with_rows outbox rows]; [by apply fold_mem_ok|].
  apply (mirrors_erase (rows (outbox s))); [|done]. rewrite fmap_insert, erase_fold by done.
  apply insert_id. by rewrite lookup_fmap, Hf.
Qed.

Lemma folds_into_spec o row first : outbox_ok o → folds_into o row = Some first →
  rows o !! ndID first = Some first ∧ noRouteLatest o !! noRouteKey row = Some (ndID first) ∧ Unsent first = true ∧
  noRouteKey first = noRouteKey row ∧ ndCreatedAt first <= ndCreatedAt row ∧
  ndCreatedAt row < ndCreatedAt first + NotifyNoRouteCollapseWindow.
Proof.
  intros Hok H. unfold folds_into in H. destruct (noRouteLatest o !! noRouteKey row) as [id|] eqn:El; [|done].
  destruct (rows o !! id) as [x|] eqn:Ex; [|done].
  destruct (_ && _) eqn:Ec; [|done]. injection H as <-.
  destruct (ix_latest _ _ (ob_index _ Hok) _ _ El) as (y & Hy & Hu & Hk).
  assert (y = x) as -> by congruence. destruct (ob_rows _ Hok _ _ Ex) as [Hid _]. rewrite Hid.
  unfold before, time_sub, NotifyNoRouteCollapseWindow, hour, minute, second, int64_min, int64_max in *. go_bool.
  split_and!; try done; lia.
Qed.

Lemma put_rows_write_synced r d rs s h he : valid_rorder r → synced s h → (∀ x, x ∈ rs → row_ok x = true) →
  stable (rows (outbox s)) rs →
  ∃ h', synced (commit_apply r d (mkOutWrite rs (evictionLocked r rs (outbox s)) he [] [] []) s).1 h'.
Proof.
  intros Hr Hs Hok Hst. eapply commit_synced; [done|done|exact Hok|exact Hst|].
  intros v Hv. by apply (eviction_spec r rs (outbox s) (sy_ok _ _ Hs)).
Qed.

Lemma stable_map (f : NotifyDelivery → NotifyDelivery) m rs :
  (∀ d, ndID (f d) = ndID d ∧ notifyDeliveryKey (f d) = notifyDeliveryKey d) → stable m rs → stable m (map f rs).
Proof.
  intros Hf Hst d (x & -> & Hx)%list_elem_of_fmap. destruct (Hf x) as [-> ->]. split.
  - exact (proj1 (Hst x Hx)).
  - intros d' (y & -> & Hy)%list_elem_of_fmap. destruct (Hf y) as [-> ->]. by apply (proj2 (Hst x Hx)).
Qed.
Lemma clamp_key d : ndID (clampNotifyDelivery d) = ndID d ∧ notifyDeliveryKey (clampNotifyDelivery d) = notifyDeliveryKey d.
Proof. unfold notifyDeliveryKey. destruct (clamp_fields d) as (-> & -> & _). done. Qed.

(** The row [recordNotifyUnsent] stores. *)
Definition unsent_row (row : NotifyDelivery) : NotifyDelivery :=
  let row := clampNotifyDelivery row in
  if is_zero (ndSettledAt row) then with_ndSettledAt (ndCreatedAt row) row else row.
Lemma unsent_row_fields row : ndID (unsent_row row) = ndID row ∧ notifyDeliveryKey (unsent_row row) = notifyDeliveryKey row ∧
  row_ok (unsent_row row) = row_ok row ∧ ndOutcome (unsent_row row) = ndOutcome row.
Proof.
  destruct (clamp_fields row) as (E1 & E2 & E3 & _). unfold unsent_row, notifyDeliveryKey, row_ok.
  destruct (is_zero _); cbn; by rewrite E1, E2, E3.
Qed.

Lemma unsent_synced r d row s h : valid_rorder r → synced s h → row_ok row = true → stable (rows (outbox s)) [row] →
  ∃ h', synced (recordNotifyUnsent r d row s).1 h'.
Proof.
  intros Hr Hs Hok Hst. unfold recordNotifyUnsent. cbv zeta. fold (unsent_row row). set (u := unsent_row row).
  assert (loaded s = true) as Hl by (unfold loaded; by rewrite (sy_hot _ _ Hs), (sy_from _ _ Hs)).
  rewrite (loaded_id r d s Hl).
  destruct (unsent_row_fields row) as (E1 & E2 & E3 & _). fold u in E1, E2, E3.
  destruct (folds_into (outbox s) u) as [first|] eqn:Ef.
  - destruct (folds_into_spec _ _ _ (sy_ok _ _ Hs) Ef) as (Hrow & Hlat & Hun & _ & _). rewrite Hlat.
    cbn [default]. destruct (match noRouteWritten (outbox s) !! ndID first with Some _ => _ | None => _ end).
    + exists h. by apply (synced_fold s h first u).
    + set (w := mkOutWrite [fold_repeat u first] [] [] [] [] []).
      destruct (commit_synced r d w s h Hr Hs) as [h' Hs'].
      * intros x [->|Hx]%elem_of_cons; [|by apply not_elem_of_nil in Hx]. by apply (ob_rows _ (sy_ok _ _ Hs) _ _ Hrow).
      * intros x [->|Hx]%elem_of_cons; [|by apply not_elem_of_nil in Hx]. split.
        -- intros p Hp. cbn in Hp. assert (p = first) as -> by congruence. done.
        -- intros y [->|Hy]%elem_of_cons; [done|by apply not_elem_of_nil in Hy].
      * intros v Hv. by apply not_elem_of_nil in Hv.
      * destruct (commit_apply r d w s) as [s' [e|]] eqn:Ec; [by exists h'|]. exists h'.
        apply synced_written; [done|]. rewrite (commit_apply_None _ _ _ _ _ Ec), rows_apply. cbn.
        by rewrite lookup_insert_eq.
  - destruct (put_rows_write_synced r d [u] s h [] Hr Hs) as [h' Hs'].
    + intros x [->|Hx]%elem_of_cons; [congruence|by apply not_elem_of_nil in Hx].
    + apply (stable_map unsent_row _ [row]); [|done]. intros x. by destruct (unsent_row_fields x) as (-> & -> & _).
    + unfold put_rows_write. destruct (commit_apply r d _ s) as [s' [e|]] eqn:Ec; [by exists h'|]. exists h'.
      apply synced_written; [done|]. rewrite (commit_apply_None _ _ _ _ _ Ec), rows_apply. cbn.
      by rewrite lookup_insert_eq.
Qed.

Lemma with_outcome_stable m o row : stable m [row] → stable m [with_ndOutcome o row].
Proof. apply (stable_map (with_ndOutcome o) m [row]). done. Qed.
Lemma nothing_synced r d he dh pd dd s h : valid_rorder r → synced s h →
  ∃ h', synced (commit_apply r d (mkOutWrite [] [] he dh pd dd) s).1 h'.
Proof.
  intros Hr Hs. apply (commit_synced r d _ s h Hr Hs); intros x Hx; by apply not_elem_of_nil in Hx.
Qed.

Lemma run_op_inv r d op s : valid_rorder r → reads d = true → store_inv s → op_ok r d s op →
  store_inv (run_op r d op s).1.
Proof.
  intros Hr Hd Hinv [Hok Hst]. destruct (load_inv r d s Hr Hd Hinv) as [h Hs].
  assert (∀ s', (∃ h', synced s' h') → store_inv s') as Hleft by (intros s' ?; by left).
  assert (notifyOutboxLocked r d (notifyOutboxLocked r d s) = notifyOutboxLocked r d s) as Hidem.
  { apply loaded_id. unfold loaded. by rewrite (sy_hot _ _ Hs), (sy_from _ _ Hs). }
  destruct op as [rs|row|row|row he|id|line|keys]; cbn [run_op op_rows] in *.
  - destruct rs as [|x rs]; [done|]. apply Hleft. unfold RecordNotifyDeliveries.
    apply (put_rows_write_synced r d (clampNotifyDeliveries (x :: rs)) _ h []); [done|done| |].
    + intros c (y & -> & Hy)%list_elem_of_fmap. rewrite clamp_row_ok. by apply Hok.
    + apply stable_map; [apply clamp_key|done].
  - apply Hleft. unfold RecordNotifyNoRoute, recordNotifyUnsent. rewrite <- Hidem.
    apply (unsent_synced r d (with_ndOutcome NotifyOutcomeNoRoute row) _ h); [done|done| |by apply with_outcome_stable].
    apply (Hok row). by left.
  - apply Hleft. unfold RecordNotifySuppressed, recordNotifyUnsent. rewrite <- Hidem.
    apply (unsent_synced r d (with_ndOutcome NotifyOutcomeSuppressed row) _ h); [done|done| |by apply with_outcome_stable].
    apply (Hok row). by left.
  - apply Hleft. unfold PutNotifyDelivery.
    apply (put_rows_write_synced r d [clampNotifyDelivery row] _ h (option_list he)); [done|done| |].
    + intros c [->|Hc]%elem_of_cons; [|by apply not_elem_of_nil in Hc]. rewrite clamp_row_ok. apply Hok. by left.
    + apply (stable_map clampNotifyDelivery _ [row]); [apply clamp_key|done].
  - apply Hleft. unfold deleteNotifyChannelHealthLocked. cbv zeta.
    destruct (health _ !! id); [by apply (nothing_synced _ _ _ _ _ _ _ h)|by exists h].
  - apply Hleft. by apply (nothing_synced _ _ _ _ _ _ _ h).
  - destruct keys as [|k keys]; [done|]. apply Hleft. by apply (nothing_synced _ _ _ _ _ _ _ h).
Qed.

(** What a process goes through: operations, and restarts that keep only
    what the hot store holds. *)
Definition empty_hot : hotOutbox := mkHotOutbox ∅ ∅ ∅.
Inductive out_run (r : rorder) : ostore → Prop :=
| run_boot : out_run r (fresh_store empty_hot)
| run_step s d op : out_run r s → reads d = true → op_ok r d s op → out_run r (run_op r d op s).1
| run_restart s h : out_run r s → hotDB s = Some h → out_run r (fresh_store h).

Lemma out_run_inv r s : valid_rorder r → out_run r s → store_inv s.
Proof.
  intros Hr. induction 1 as [|s d op _ IH Hd Hop|s h _ IH Hh].
  - right. exists empty_hot. split; [done|]. split.
    + exists ∅. split; [intros id x H; by rewrite lookup_empty in H|]. intros k x. cbn. rewrite !lookup_empty. naive_solver.
    + intros k x H. cbn in H. by rewrite lookup_empty in H.
    + intros k x H. cbn in H. by rewrite lookup_empty in H.
  - by apply run_op_inv.
  - right. exists h. split; [done|]. destruct IH as [[h' Hs]|(h' & -> & Hw)].
    + assert (h' = h) as -> by (pose proof (sy_hot _ _ Hs); congruence). apply Hs.
    + cbn in Hh. congruence.
Qed.

(** The outbox survives a restart: after any run of operations, with any
    of their writes refused by the disk and any number of restarts, what a
    restart reads back is what memory held (rows, channel health, digest
    queue, and so the deliveries still owed a send), except for the repeat
    count, last instant and text of an unsent row. *)
Theorem outbox_survives_restart r d s h : valid_rorder r → out_run r s → reads d = true → hotDB s = Some h →
  let before := outbox (notifyOutboxLocked r d s) in
  let after := outbox (notifyOutboxLocked r d (fresh_store h)) in
  erase <$> rows after = erase <$> rows before ∧ health after = health before ∧ digest after = digest before ∧
  unsettled after = unsettled before.
Proof.
  intros Hr Hrun Hd Hh before after.
  pose proof (out_run_inv r s Hr Hrun) as Hinv. destruct (load_inv r d s Hr Hd Hinv) as [h1 Hs1].
  assert (h1 = h) as ->.
  { destruct Hinv as [[h2 Hs2]|(h2 & -> & Hw)].
    - rewrite loaded_id in Hs1 by (unfold loaded; by rewrite (sy_hot _ _ Hs2), (sy_from _ _ Hs2)).
      pose proof (sy_hot _ _ Hs1). congruence.
    - cbn in Hh. assert (h2 = h) as -> by congruence. destruct (load_synced r d h Hr Hd Hw) as [Hs3 _].
      pose proof (sy_hot _ _ Hs1). pose proof (sy_hot _ _ Hs3). congruence. }
  destruct (load_synced r d h Hr Hd (sy_wf _ _ Hs1)) as [Hs2 Hload].
  pose proof (Hload _ (ob_rows _ (sy_ok _ _ Hs1)) (sy_rows _ _ Hs1)) as Hrows. fold before after in Hrows.
  split_and!; [done|..].
  - unfold before, after. by rewrite (sy_health _ _ Hs1), (sy_health _ _ Hs2).
  - unfold before, after. by rewrite (sy_digest _ _ Hs1), (sy_digest _ _ Hs2).
  - pose proof (ix_unsettled _ _ (ob_index _ (sy_ok _ _ Hs1))) as U1.
    pose proof (ix_unsettled _ _ (ob_index _ (sy_ok _ _ Hs2))) as U2. fold before in U1. fold after in U2.
    apply set_eq. intros id. rewrite U1, U2. apply (f_equal (fun m => m !! id)) in Hrows. rewrite !lookup_fmap in Hrows.
    destruct (rows after !! id) as [a|], (rows before !! id) as [b|]; try done.
    injection Hrows as Hrows. assert (Settled a = Settled b) as E by (by rewrite <- (erase_settled a), Hrows, erase_settled).
    split; intros (x & [= <-] & Hx); eexists; (split; [done|]); congruence.
Qed.

(** ** Reads against the rows *)

Lemma row_le_alt a b : row_le a b ↔
  ndCreatedAt a < ndCreatedAt b ∨ ndCreatedAt a = ndCreatedAt b ∧ String.le (ndID a) (ndID b).
Proof.
  unfold row_le, notifyDeliveryBefore, before. destruct (Z.eqb_spec (ndCreatedAt b) (ndCreatedAt a)) as [E|E]; cbn [negb].
  - unfold String.ltb, String.le, String.leb. rewrite (String.compare_antisym (ndID a)).
    destruct (String.compare (ndID b) (ndID a)); cbn; split; intros H;
      try done; try (right; split; [lia|exact I]); destruct H as [?|[_ []]]; lia.
  - rewrite Z.ltb_ge. lia.
Qed.
#[export] Instance row_le_trans : Transitive row_le.
Proof.
  intros a b c. rewrite !row_le_alt. intros [H1|[H1 L1]] [H2|[H2 L2]]; [lia..|]. right. split; [lia|]. by etrans.
Qed.
#[export] Instance row_le_total : Total row_le.
Proof.
  intros a b. rewrite !row_le_alt. destruct (Z.lt_trichotomy (ndCreatedAt a) (ndCreatedAt b)) as [H|[H|H]]; [tauto| |tauto].
  destruct (total String.le (ndID a) (ndID b)); auto.
Qed.

(** The rows themselves, oldest first. *)
Definition sorted_rows (o : notifyOutbox) : list NotifyDelivery := merge_sort row_le (map_to_list (rows o)).*2.

Lemma values_elem (m : gmap string NotifyDelivery) d : d ∈ (map_to_list m).*2 ↔ ∃ id, m !! id = Some d.
Proof.
  rewrite list_elem_of_fmap. split.
  - intros ([id x] & -> & Hx). apply elem_of_map_to_list in Hx. eauto.
  - intros [id Hid]. exists (id, d). split; [done|]. by apply elem_of_map_to_list.
Qed.

(** A list of rows sorted as rows are is sorted by key. *)
Lemma keys_sorted l : (∀ d, d ∈ l → row_ok d = true) → StronglySorted row_le l →
  StronglySorted String.le (map notifyDeliveryKey l).
Proof.
  intros Hl. induction 1 as [|d l Hs IH Hall]; cbn; constructor.
  - apply IH. intros x Hx. apply Hl. by right.
  - apply Forall_forall. intros k (x & -> & Hx)%list_elem_of_fmap. rewrite Forall_forall in Hall.
    apply row_le_key; [apply Hl; by left|apply Hl; by right|by apply Hall].
Qed.

Lemma filter_sorted {A} (R : A → A → Prop) p l : StronglySorted R l → StronglySorted R (List.filter p l).
Proof.
  induction 1 as [|d l Hs IH Hall]; cbn [List.filter]; [constructor|]. destruct (p d); [|done]. constructor; [done|].
  apply Forall_forall. intros x Hx. rewrite Forall_forall in Hall. apply Hall.
  rewrite list_elem_of_In, filter_In in Hx. rewrite list_elem_of_In. tauto.
Qed.

Lemma rows_value_ok o d : outbox_ok o → (∃ id, rows o !! id = Some d) → rows o !! ndID d = Some d ∧ row_ok d = true.
Proof. intros Hok [id Hd]. destruct (ob_rows _ Hok _ _ Hd) as [-> ?]. done. Qed.

Lemma sorted_rows_spec o d : d ∈ sorted_rows o ↔ ∃ id, rows o !! id = Some d.
Proof. unfold sorted_rows. rewrite merge_sort_Permutation. apply values_elem. Qed.

Lemma map_row_at o l : outbox_ok o → (∀ d, d ∈ l → ∃ id, rows o !! id = Some d) → map (row_at o) (map notifyDeliveryKey l) = l.
Proof.
  intros Hok. induction l as [|d l IH]; intros Hl; [done|]. cbn [map]. f_equal.
  - destruct (Hl d) as [id Hid]; [by left|]. by apply (row_in_order _ _ _ Hok Hid).
  - apply IH. intros x Hx. apply Hl. by right.
Qed.

Lemma map_order o : outbox_ok o → row_order o = map notifyDeliveryKey (sorted_rows o).
Proof.
  intros Hok. apply (StronglySorted_unique String.le).
  - rewrite (ob_order _ Hok). apply sort_strings_sorted.
  - apply keys_sorted; [|apply (StronglySorted_merge_sort row_le)].
    intros d Hd%sorted_rows_spec. by apply (rows_value_ok o).
  - rewrite (ob_order _ Hok). unfold keys_of, sorted_rows.
    change (map notifyDeliveryKey) with (fmap (M := list) notifyDeliveryKey).
    rewrite sort_strings_perm, merge_sort_Permutation, map_to_list_fmap, <- !list_fmap_compose. done.
Qed.

Lemma event_order o e : outbox_ok o →
  sort_strings (map (fun id => notifyDeliveryKey (default zero_delivery (rows o !! id))) (elements (default ∅ (byEvent o !! e)))) =
  map notifyDeliveryKey (List.filter (fun d => ndEventID d =?? e) (sorted_rows o)).
Proof.
  intros Hok. set (E := List.filter _ _).
  assert (∀ d, d ∈ E ↔ rows o !! ndID d = Some d ∧ ndEventID d = e) as HE.
  { intros d. unfold E. rewrite list_elem_of_In, filter_In, <- list_elem_of_In, sorted_rows_spec, bool_decide_eq_true.
    split; intros [H ?]; (split; [|done]); [by apply (rows_value_ok o d Hok)|eauto]. }
  apply (StronglySorted_unique String.le).
  - apply sort_strings_sorted.
  - apply keys_sorted.
    + intros d [Hd _]%HE. by apply (ob_rows _ Hok _ _ Hd).
    + apply filter_sorted, (StronglySorted_merge_sort row_le).
  - rewrite sort_strings_perm.
    rewrite <- (map_map (fun id => default zero_delivery (rows o !! id)) notifyDeliveryKey).
    apply Permutation_map, NoDup_Permutation.
    + apply (NoDup_fmap_2_strong (fun id => default zero_delivery (rows o !! id))); [|apply NoDup_elements].
      intros x y Hx Hy. rewrite !elem_of_elements, !(ix_event _ _ (ob_index _ Hok)) in *.
      destruct Hx as (a & Ha & _), Hy as (b & Hb & _). rewrite Ha, Hb. cbn. intros ->.
      destruct (ob_rows _ Hok _ _ Ha) as [<- _], (ob_rows _ Hok _ _ Hb) as [<- _]. done.
    + unfold E. apply NoDup_ListNoDup, List.NoDup_filter, NoDup_ListNoDup. unfold sorted_rows. rewrite merge_sort_Permutation.
      apply (NoDup_fmap_1 ndID). rewrite <- list_fmap_compose. erewrite list_fmap_ext; [apply NoDup_fst_map_to_list|].
      intros i [id d] Hi. cbn. apply (ob_rows _ Hok), elem_of_map_to_list. by eapply list_elem_of_lookup_2.
    + intros d. rewrite HE. split.
      * intros (id & -> & Hid)%list_elem_of_fmap. rewrite elem_of_elements, (ix_event _ _ (ob_index _ Hok)) in Hid.
        destruct Hid as (x & Hx & He). rewrite Hx. cbn. destruct (ob_rows _ Hok _ _ Hx) as [-> _]. done.
      * intros [Hd He]. apply list_elem_of_fmap. exists (ndID d). rewrite Hd. split; [done|].
        apply elem_of_elements, (ix_event _ _ (ob_index _ Hok)). eauto.
Qed.

Lemma filter_reverse {A} (p : A → bool) l : List.filter p (reverse l) = reverse (List.filter p l).
Proof.
  induction l as [|x l IH]; [done|]. rewrite reverse_cons, List.filter_app, IH. cbn [List.filter].
  destruct (p x); [by rewrite reverse_cons|by rewrite app_nil_r].
Qed.
Lemma filter_filter_imp {A} (p q : A → bool) l : (∀ x, p x = true → q x = true) →
  List.filter p (List.filter q l) = List.filter p l.
Proof.
  intros H. induction l as [|x l IH]; [done|]. cbn [List.filter]. destruct (q x) eqn:Eq; cbn [List.filter]; rewrite IH; [done|].
  destruct (p x) eqn:Ep; [|done]. rewrite (H x Ep) in Eq. done.
Qed.

Definition take_limit (f : NotifyDeliveryFilter) (l : list NotifyDelivery) : list NotifyDelivery :=
  if 0 <? fLimit f then take (Z.to_nat (fLimit f)) l else l.

Lemma collect_spec lower o f query n keys : 0 <= n →
  collect lower o f query n keys =
  let l := List.filter (filter_passes lower f query) (map (row_at o) keys) in
  if 0 <? fLimit f then take (Z.to_nat (fLimit f - n)) l else l.
Proof.
  cbv zeta. revert n. induction keys as [|key keys IH]; intros n Hn; cbn [collect map List.filter].
  - by destruct (0 <? fLimit f); [rewrite take_nil|].
  - destruct (Z.ltb_spec 0 (fLimit f)) as [Hl|Hl]; cbn [andb].
    + destruct (Z.leb_spec (fLimit f) n); [by replace (Z.to_nat (fLimit f - n)) with O by lia|].
      destruct (filter_passes lower f query (row_at o key)); rewrite IH by lia.
      * replace (Z.to_nat (fLimit f - n)) with (S (Z.to_nat (fLimit f - (n + 1)))) by lia. done.
      * done.
    + destruct (filter_passes lower f query (row_at o key)); rewrite IH by lia; done.
Qed.

Lemma NotifyDeliveries_rows lower f o : outbox_ok o →
  NotifyDeliveries lower f o =
  take_limit f (List.filter (filter_passes lower f (lower (trim_space (fQuery f)))) (reverse (sorted_rows o))).
Proof.
  intros Hok. unfold NotifyDeliveries, take_limit. cbv zeta. rewrite collect_spec by done. cbv zeta.
  replace (fLimit f - 0) with (fLimit f) by lia.
  enough (List.filter (filter_passes lower f (lower (trim_space (fQuery f))))
    (map (row_at o) (reverse (if fEventID f =?? "" then row_order o
      else sort_strings (map (fun id => notifyDeliveryKey (default zero_delivery (rows o !! id)))
        (elements (default ∅ (byEvent o !! fEventID f))))))) =
    List.filter (filter_passes lower f (lower (trim_space (fQuery f)))) (reverse (sorted_rows o))) as -> by done.
  change (map (row_at o)) with (fmap (M := list) (row_at o)). rewrite fmap_reverse.
  change (fmap (M := list) (row_at o)) with (map (row_at o)).
  destruct (bool_decide_reflect (fEventID f = "")) as [_|He].
  - rewrite (map_order o Hok), map_row_at; [done|done|]. intros d Hd. by apply sorted_rows_spec.
  - rewrite (event_order o _ Hok), map_row_at; [|done|].
    + rewrite !filter_reverse. f_equal. apply filter_filter_imp. intros d Hd.
      unfold filter_passes, unless_empty in Hd. go_bool.
      destruct Hd as ((((((_ & _) & _) & [?|?]) & _) & _) & _); [done|]. done.
    + intros d Hd. rewrite list_elem_of_In, filter_In, <- list_elem_of_In in Hd. destruct Hd as [Hd _].
      by apply sorted_rows_spec.
Qed.

(** The indexed read is the plain one: [NotifyDeliveries] answers the
    rows that pass the filter, newest first by creation instant and id, cut
    to the limit, whether it walks the stored order or the event's index. *)
Theorem NotifyDeliveries_scan lower f o : outbox_ok o →
  NotifyDeliveries lower f o =
  take_limit f (List.filter (filter_passes lower f (lower (trim_space (fQuery f)))) (reverse (sorted_rows o))).
Proof. apply NotifyDeliveries_rows. Qed.

Lemma sorted_ext o l k : outbox_ok o → (∀ d, d ∈ l → ∃ id, rows o !! id = Some d) → StronglySorted row_le l →
  StronglySorted row_le k → l ≡ₚ k → l = k.
Proof.
  intros Hok Hl Sl Sk Hp.
  assert (∀ d, d ∈ k → ∃ id, rows o !! id = Some d) as Hk by (intros d Hd; apply Hl; by rewrite Hp).
  rewrite <- (map_row_at o l), <- (map_row_at o k) by done. f_equal.
  apply (StronglySorted_unique String.le).
  - apply keys_sorted; [|done]. intros d Hd. by apply (rows_value_ok o), Hl.
  - apply keys_sorted; [|done]. intros d Hd. by apply (rows_value_ok o), Hk.
  - by apply Permutation_map.
Qed.

(** The deliveries owed a send are the unsettled rows, oldest first. *)
Lemma UnsettledNotifyDeliveries_scan o : outbox_ok o →
  UnsettledNotifyDeliveries o = List.filter (fun d => negb (Settled d)) (sorted_rows o).
Proof.
  intros Hok.
  assert (∀ d, d ∈ UnsettledNotifyDeliveries o ↔ rows o !! ndID d = Some d ∧ Settled d = false) as HU.
  { intros d. unfold UnsettledNotifyDeliveries. rewrite merge_sort_Permutation.
    change (d ∈ (fun id => default zero_delivery (rows o !! id)) <$> elements (unsettled o) ↔ rows o !! ndID d = Some d ∧ Settled d = false).
    rewrite list_elem_of_fmap. split.
    - intros (id & -> & Hid). rewrite elem_of_elements, (ix_unsettled _ _ (ob_index _ Hok)) in Hid.
      destruct Hid as (x & Hx & Hs). rewrite Hx. cbn. destruct (ob_rows _ Hok _ _ Hx) as [-> _]. done.
    - intros [Hd Hs]. exists (ndID d). rewrite Hd. split; [done|].
      apply elem_of_elements, (ix_unsettled _ _ (ob_index _ Hok)). eauto. }
  apply (sorted_ext o); [done| | | |].
  - intros d Hd%HU. destruct Hd. eauto.
  - apply (StronglySorted_merge_sort row_le).
  - apply filter_sorted, (StronglySorted_merge_sort row_le).
  - apply NoDup_Permutation.
    + unfold UnsettledNotifyDeliveries. rewrite merge_sort_Permutation.
      apply (NoDup_fmap_2_strong (fun id => default zero_delivery (rows o !! id))); [|apply NoDup_elements].
      intros x y Hx Hy. rewrite !elem_of_elements, !(ix_unsettled _ _ (ob_index _ Hok)) in *.
      destruct Hx as (a & Ha & _), Hy as (b & Hb & _). rewrite Ha, Hb. cbn. intros ->.
      destruct (ob_rows _ Hok _ _ Ha) as [<- _], (ob_rows _ Hok _ _ Hb) as [<- _]. done.
    + apply NoDup_ListNoDup, List.NoDup_filter, NoDup_ListNoDup. unfold sorted_rows. rewrite merge_sort_Permutation.
      apply (NoDup_fmap_1 ndID). rewrite <- list_fmap_compose. erewrite list_fmap_ext; [apply NoDup_fst_map_to_list|].
      intros i [id d] Hi. cbn. apply (ob_rows _ Hok), elem_of_map_to_list. by eapply list_elem_of_lookup_2.
    + intros d. rewrite HU, list_elem_of_In, filter_In, <- list_elem_of_In, sorted_rows_spec, negb_true_iff.
      split; intros [H ?]; (split; [|done]); [eauto|by apply (rows_value_ok o d Hok)].
Qed.

(** An event nobody was sent is never dropped silently: it is counted on
    the row its repeats of the last hour share (same outcome, source, event
    type and reason), or it gets a row of its own, and then no more than a
    hundred such rows are kept. *)
Theorem unsent_event_counted r d row s s' : valid_rorder r → loaded s = true → outbox_ok (outbox s) →
  rows (outbox s) !! ndID row = None → Unsent row = true → recordNotifyUnsent r d row s = (s', None) →
  let u := unsent_row row in
  (∃ first, rows (outbox s) !! ndID first = Some first ∧ Unsent first = true ∧ noRouteKey first = noRouteKey u ∧
     ndCreatedAt first <= ndCreatedAt row < ndCreatedAt first + NotifyNoRouteCollapseWindow ∧
     rows (outbox s') = <[ndID first := fold_repeat u first]> (rows (outbox s))) ∨
  (rows (outbox s') !! ndID row = Some u ∧ count_rows Unsent (rows (outbox s')) <= MaxNotifyNoRouteDeliveries).
Proof.
  intros Hr Hl Hok Hn Hu. unfold recordNotifyUnsent. cbv zeta. fold (unsent_row row).
  set (u := unsent_row row). rewrite (loaded_id r d s Hl).
  destruct (unsent_row_fields row) as (E1 & E2 & E3 & E4). fold u in E1, E2, E3, E4.
  assert (Unsent u = true) as Huu by (unfold Unsent in *; by rewrite E4).
  assert (ndCreatedAt u = ndCreatedAt row) as Ec.
  { unfold u, unsent_row. destruct (clamp_fields row) as (_ & Ec & _). by destruct (is_zero _). }
  destruct (folds_into (outbox s) u) as [first|] eqn:Ef.
  - destruct (folds_into_spec _ _ _ Hok Ef) as (Hrow & Hlat & Hun & Hk & H1 & H2). rewrite Hlat. cbn [default].
    intros H. left. exists first. rewrite Ec in H1, H2. split_and!; try done.
    destruct (match noRouteWritten (outbox s) !! ndID first with Some _ => _ | None => _ end).
    + injection H as <-. done.
    + destruct (commit_apply r d _ s) as [s2 [e|]] eqn:Eca; [done|]. injection H as <-.
      cbn [with_outbox with_written outbox rows]. rewrite (commit_apply_None _ _ _ _ _ Eca), rows_apply. done.
  - intros H. right. destruct (commit_apply r d _ s) as [s2 [e|]] eqn:Eca; [done|]. injection H as <-.
    cbn [with_outbox with_written outbox rows]. rewrite (commit_apply_None _ _ _ _ _ Eca).
    assert (∀ x, x ∈ [u] → rows (outbox s) !! ndID x = None) as Hfresh.
    { intros x [->|Hx]%elem_of_cons; [by rewrite E1|by apply not_elem_of_nil in Hx]. }
    destruct (put_fresh_rows r [u] (outbox s) Hok (NoDup_singleton _) Hfresh) as [Hcount Hlook].
    split; [apply Hlook; left; by split; [left|]|].
    rewrite Hcount. destruct (eviction_spec r [u] (outbox s) Hok) as [Ev Vnd _ Eu _].
    set (V := evictionLocked r [u] (outbox s)) in *.
    rewrite count_new_fresh, (count_rows_rorder _ _ _ Hr) in Eu by done.
    rewrite count_if_cons, Huu in Eu |- *. change (count_if Unsent []) with 0 in *.
    destruct Eu as [Eu|Eu]; [lia|lia|].
    assert (count_rows Unsent (rows (outbox s)) - count_if Unsent V = 0) as E0.
    { rewrite <- count_del_rows by (done || intros v Hv; by apply Ev). apply count_if_none.
      intros x [id Hx]%values_elem. destruct (Unsent x) eqn:Eux; [|done]. exfalso.
      assert (id ∉ map ndID V) as Hv by (intros Hv; by rewrite del_rows_gone in Hx).
      rewrite del_rows_lookup in Hx by done. apply Hv, (Eu id x Hx Eux).
      cbn [map]. rewrite list_elem_of_singleton, E1. intros ->. congruence. }
    unfold MaxNotifyNoRouteDeliveries. lia.
Qed.

(** ** Concrete outboxes *)

Module OutboxDemo.
Definition values : rorder := fun m => (map_to_list m).*2.
Definition up : disk := mkDisk true true.
Definition day1 : time := 739000 * day_ns.
Definition planned (id event channel : string) (at_ : time) : NotifyDelivery :=
  mkDelivery id event "node.offline" "server" "" "" "r1" "Nights" channel "Phone" "bark" "primary" "" "" NotifyOutcomePlanned ""
    [] at_ false "Down" "n1 is down" false at_ 0 0 0 "" 0 [].
Definition unrouted (id : string) (at_ : time) : NotifyDelivery :=
  with_ndReason "no enabled channel" (with_ndOutcome NotifyOutcomeNoRoute (planned id "evt_u" "" at_)).
Definition row1 : NotifyDelivery := planned "nd_1" "evt_1" "c1" day1.
Definition row2 : NotifyDelivery := planned "nd_2" "evt_1" "c2" day1.
Definition s0 : ostore := fresh_store empty_hot.
Definition s1 : ostore := (run_op values up (OpRecord [row1]) s0).1.
Definition s2 : ostore := (run_op values up (OpPut (with_ndOutcome NotifyOutcomeSent row1) None) s1).1.

Lemma values_valid : valid_rorder values.
Proof. intros m. done. Qed.

Lemma single_ok d s x : row_ok x = true →
  rows (outbox (notifyOutboxLocked values d s)) !! ndID x = None ∨
  (∃ p, rows (outbox (notifyOutboxLocked values d s)) !! ndID x = Some p ∧ notifyDeliveryKey p = notifyDeliveryKey x) →
  op_ok values d s (OpRecord [x]).
Proof.
  intros Hx Hr. split; cbn [op_rows].
  - intros y [->|Hy]%elem_of_cons; [done|by apply not_elem_of_nil in Hy].
  - intros y [->|Hy]%elem_of_cons; [|by apply not_elem_of_nil in Hy]. split.
    + intros p Hp. destruct Hr as [Hr|(q & Hq & Ek)]; [congruence|]. congruence.
    + intros z [->|Hz]%elem_of_cons; [done|by apply not_elem_of_nil in Hz].
Qed.

Lemma run1 : out_run values s1.
Proof. apply run_step; [apply run_boot|done|]. apply single_ok; [by vm_compute|left; by vm_compute]. Qed.
Lemma run2 : out_run values s2.
Proof.
  apply run_step; [apply run1|done|].
  apply (single_ok up s1 (with_ndOutcome NotifyOutcomeSent row1)); [by vm_compute|right].
  exists row1. by vm_compute.
Qed.
Lemma s1_ok : outbox_ok (outbox s1).
Proof.
  destruct (out_run_inv values s1 values_valid run1) as [[h Hs]|(h & E & _)]; [apply Hs|].
  apply (f_equal fromHot) in E. vm_compute in E. discriminate E.
Qed.
End OutboxDemo.

Lemma outbox_bounds_witness :
  rows (outbox (RecordNotifyDeliveries OutboxDemo.values OutboxDemo.up [OutboxDemo.row2] OutboxDemo.s1).1) !! "nd_1"
  = Some OutboxDemo.row1.
Proof.
  refine (proj1 (proj2 (outbox_bounds OutboxDemo.values OutboxDemo.up [OutboxDemo.row2] OutboxDemo.s1 _
    OutboxDemo.values_valid _ OutboxDemo.s1_ok (NoDup_singleton _) _ _ _)) "nd_1" OutboxDemo.row1 _ _);
    [by vm_compute| |discriminate|by vm_compute|by vm_compute|by vm_compute].
  intros x [->|Hx]%elem_of_cons; [by vm_compute|by apply not_elem_of_nil in Hx].
Defined.

Lemma outbox_survives_restart_witness :
  unsettled (outbox (notifyOutboxLocked OutboxDemo.values OutboxDemo.up
    (fresh_store (default empty_hot (hotDB OutboxDemo.s2))))) =
  unsettled (outbox (notifyOutboxLocked OutboxDemo.values OutboxDemo.up OutboxDemo.s2)).
Proof.
  refine (proj2 (proj2 (proj2 (outbox_survives_restart OutboxDemo.values OutboxDemo.up OutboxDemo.s2
    (default empty_hot (hotDB OutboxDemo.s2)) OutboxDemo.values_valid OutboxDemo.run2 eq_refl _)))).
  by vm_compute.
Defined.

Lemma NotifyDeliveries_scan_witness :
  NotifyDeliveries id (mkFilter "" "" "" "evt_1" "" "" "" 5) (outbox OutboxDemo.s1) =
  take_limit (mkFilter "" "" "" "evt_1" "" "" "" 5) (List.filter (filter_passes id (mkFilter "" "" "" "evt_1" "" "" "" 5)
    (trim_space "")) (reverse (sorted_rows (outbox OutboxDemo.s1)))).
Proof. apply (NotifyDeliveries_scan id), OutboxDemo.s1_ok. Defined.

Definition unrouted3 : NotifyDelivery := OutboxDemo.unrouted "nd_3" OutboxDemo.day1.
Definition counted : ostore := (recordNotifyUnsent OutboxDemo.values OutboxDemo.up unrouted3 OutboxDemo.s1).1.
Lemma unsent_event_counted_witness :
  (∃ first, rows (outbox OutboxDemo.s1) !! ndID first = Some first ∧ Unsent first = true ∧ noRouteKey first = noRouteKey (unsent_row unrouted3) ∧
     ndCreatedAt first <= ndCreatedAt unrouted3 < ndCreatedAt first + NotifyNoRouteCollapseWindow ∧
     rows (outbox counted) = <[ndID first := fold_repeat (unsent_row unrouted3) first]> (rows (outbox OutboxDemo.s1))) ∨
  (rows (outbox counted) !! ndID unrouted3 = Some (unsent_row unrouted3) ∧ count_rows Unsent (rows (outbox counted)) <= MaxNotifyNoRouteDeliveries).
Proof.
  apply (unsent_event_counted OutboxDemo.values OutboxDemo.up _ OutboxDemo.s1);
    [apply OutboxDemo.values_valid|by vm_compute|apply OutboxDemo.s1_ok|by vm_compute..].
Defined.
