(* ===== verification/Delivery.v ===== *)
(** * Notification delivery ([internal/server/notify_outbox.go],
      [notify_channel_fallback.go], [server_notify_outbox.go])

    An event is planned into one delivery per rule and channel and stored in
    the outbox of Outbox.v; a drainer starts what is due, an attempt sends
    once and records the receipt together with its channel's health, and a
    failure may hand the message to a fallback channel.

    The plain functions of the source come first: classifying a send error,
    routing and rendering, health, fallbacks, withdrawal, the start-up
    reconciliation.  [server] then is the state the goroutines share and
    [step] what each of them does between two points where another may run:
    a delivery in flight is queued, sending (with the row and channel it
    read), or working through what is left to do after its receipt.
    Configuration, incidents, the clock, fresh ids and whether the disk
    accepts a write are arguments of every step. *)

From Stdlib Require Import ZArith Lia Ascii.
From stdpp Require Import gmap strings sorting.
From S2P Require Import Prelude GoStr Incidents IncidentEval Clock Outbox.

Local Open Scope Z_scope.

(** ** Send errors *)

Definition notifyKindNetwork : string := "network".
Definition notifyKindTimeout : string := "timeout".
Definition notifyKindUpstream4xx : string := "upstream_4xx".
Definition notifyKindUpstream5xx : string := "upstream_5xx".
Definition notifyKindRateLimited : string := "rate_limited".
Definition notifyKindConfigInvalid : string := "config_invalid".
Definition notifyKindUnknown : string := "unknown".

(** What [errors.As], [errors.Is] and [Error] find in a send error: a config
    error, an upstream status, an exceeded deadline, a network error and
    whether it is a timeout, a URL error, and the text. *)
Record sendError := mkSendError {
  seConfig : bool; seStatus : option Z; seDeadline : bool; seNet : option bool; seURL : bool; seText : string }.
Definition redactSendError (err : option sendError) : string * Z * bool :=
  match err with
  | None => ("", 0, false)
  | Some e =>
    if seConfig e then (notifyKindConfigInvalid, 0, false) else
    match seStatus e with
    | Some st =>
      if st =? 429 then (notifyKindRateLimited, st, true)
      else if 500 <=? st then (notifyKindUpstream5xx, st, true)
      else if 400 <=? st then (notifyKindUpstream4xx, st, false)
      else (notifyKindUnknown, st, false)
    | None =>
      if seDeadline e then (notifyKindTimeout, 0, true)
      else if match seNet e with Some timeout => timeout | None => false end then (notifyKindTimeout, 0, true)
      else if existsb (str_contains (seText e)) ["blocked address"; "unsupported scheme"; "missing host"; "invalid url"]
      then (notifyKindConfigInvalid, 0, false)
      else if seURL e || match seNet e with Some _ => true | None => false end then (notifyKindNetwork, 0, true)
      else (notifyKindUnknown, 0, true)
    end
  end.
Definition notifyFailureSentence (kind : string) (status attempts : Z) : string :=
  let what :=
    if mem kind [notifyKindUpstream4xx; notifyKindUpstream5xx; notifyKindRateLimited] then "upstream status " +:+ dec_of_Z status
    else if kind =?? notifyKindTimeout then "timed out"
    else if kind =?? notifyKindNetwork then "network error"
    else if kind =?? notifyKindConfigInvalid then "channel config refused"
    else "send failed" in
  if 1 <? attempts then what +:+ " after " +:+ dec_of_Z attempts +:+ " attempts" else what.

(** ** Templates ([renderWebhookTemplate]) *)

Fixpoint str_index (s sub : string) : option nat :=
  if has_prefix s sub then Some 0%nat
  else match s with "" => None | String _ s => S <$> str_index s sub end.
Fixpoint render_go (fuel : nat) (vars : gmap string string) (t : string) : string :=
  match fuel with
  | O => ""
  | S fuel =>
    if t =?? "" then "" else
    match str_index t "{{" with
    | None => t
    | Some start =>
      let rest := str_drop (start + 2) t in
      match str_index rest "}}" with
      | None => t
      | Some end_ =>
        let name := trim_space (str_take end_ rest) in
        str_take start t +:+
        match vars !! name with Some value => value | None => "{{" +:+ str_take end_ rest +:+ "}}" end +:+
        render_go fuel vars (str_drop (end_ + 2) rest)
      end
    end
  end.
Definition renderNotifyTemplate (tmpl fallback : string) (vars : gmap string string) : string :=
  let tmpl := trim_space tmpl in
  if tmpl =?? "" then fallback else render_go (S (String.length tmpl)) vars tmpl.

(** ** Routing *)

Record NotifyChannel := mkChannel {
  ncID : string; ncName : string; ncKind : string; ncEnabled : bool; ncConfig : gmap string string }.
(** A rule with its channels and templates. *)
Record RouteRule := mkRoute {
  rtRule : NotifyRule; rtChannelIDs : list string; rtTitleTemplate : string; rtBodyTemplate : string }.
Record DeliveryOptions := mkDeliveryOptions { doFallback : string; doQuietHours : option NotifyQuietHours }.
(** What the operator configured: every channel, the enabled rules, the
    options beside rules and channels, and the time zones the server knows. *)
Record config := mkConfig {
  cfChannels : list NotifyChannel; cfRules : list RouteRule; cfRuleOptions : gmap string DeliveryOptions;
  cfChannelFallback : gmap string string; cfZones : string → option zone }.
Definition EnabledNotifyChannels (cf : config) : list NotifyChannel := List.filter ncEnabled (cfChannels cf).

Record notifyTarget := mkTarget {
  tgRuleID : string; tgRuleName : string; tgChannel : NotifyChannel; tgTitle : string; tgBody : string;
  tgTruncated : bool; tgHeldUntil : time }.
Definition broadcast_targets (title body : string) (channels : list NotifyChannel) (exclude : string) : list notifyTarget :=
  map (fun c => mkTarget "" "" c title body false 0) (List.filter (fun c => negb (ncID c =?? exclude)) channels).
(** [channelsByID]: the last channel of an id. *)
Definition channel_by_id (channels : list NotifyChannel) (id : string) : option NotifyChannel :=
  foldl (fun acc c => if ncID c =?? id then Some c else acc) None channels.
Fixpoint rule_targets (channels : list NotifyChannel) (exclude : string) (mk : NotifyChannel → notifyTarget)
  (seen ids : list string) : list notifyTarget :=
  match ids with
  | [] => []
  | id :: ids =>
    if mem id seen || (id =?? exclude) then rule_targets channels exclude mk seen ids
    else match channel_by_id channels id with
         | None => rule_targets channels exclude mk (id :: seen) ids
         | Some c => mk c :: rule_targets channels exclude mk (id :: seen) ids
         end
  end.
Definition planNotifyTargets (eventType title body : string) (channels : list NotifyChannel) (rules : list RouteRule)
  (exclude : string) (fanOutIfUnrouted : bool) : list notifyTarget :=
  match channels with
  | [] => []
  | _ =>
    match rules with
    | [] => broadcast_targets title body channels exclude
    | _ =>
      let vars : gmap string string := {[ "event_type" := eventType; "title" := title; "body" := body ]} in
      let out := flat_map (fun rule =>
        if negb (notifyRuleMatches (rtRule rule) eventType) then [] else
        rule_targets channels exclude (fun c => mkTarget (nrID (rtRule rule)) (nrName (rtRule rule)) c
          (renderNotifyTemplate (rtTitleTemplate rule) title vars) (renderNotifyTemplate (rtBodyTemplate rule) body vars)
          false 0) [] (rtChannelIDs rule)) rules in
      if (length out =? 0)%nat && fanOutIfUnrouted then broadcast_targets title body channels exclude else out
    end
  end.

Record notifyEnqueue := mkEnqueue {
  hwSource : string; hwSourceID : string; hwSourceRef : string; hwExclude : string; hwFanOut : bool; hwBroadcast : bool;
  hwOnlyRule : option RouteRule; hwBarkLevel : string; hwIncidentIDs : list string }.
Record notifyPlan := mkPlan {
  plEventID : string; plEventType : string; plTitle : string; plBody : string; plTruncated : bool;
  plHow : notifyEnqueue; plTargets : list notifyTarget; plNoRoute : string; plAt : time }.

Definition EventSSHCompromiseSuspected : string := "ssh.compromise_suspected".
Definition notifyEventSeverity (eventType : string) : string :=
  match incidentKinds !! eventType with
  | Some k => severity k
  | None =>
    match incidentRecoveryOf !! eventType with
    | Some open => severity (kind_of open)
    | None => if eventType =?? EventSSHCompromiseSuspected then incidentSeverityCritical else incidentSeverityWarning
    end
  end.
Definition quiet_of (cf : config) (ruleID : string) : option NotifyQuietHours :=
  match cfRuleOptions cf !! ruleID with Some o => doQuietHours o | None => None end.
(** A target bounded, and held when its rule is in quiet hours. *)
Definition bound_target (cf : config) (critical : bool) (at_ : time) (t : notifyTarget) : notifyTarget :=
  let '(title, body, cut) := ClampNotifyText (tgTitle t) (tgBody t) in
  let held :=
    if critical || (tgRuleID t =?? "") then tgHeldUntil t
    else match quietHoursEnd (cfZones cf) (quiet_of cf (tgRuleID t)) at_ with Some until => until | None => tgHeldUntil t end in
  mkTarget (tgRuleID t) (tgRuleName t) (tgChannel t) title body cut held.
Definition planNotifyEvent (cf : config) (now : time) (eventID eventType title body : string) (how : notifyEnqueue) : notifyPlan :=
  let channels := EnabledNotifyChannels cf in
  let rules :=
    match hwOnlyRule how with
    | Some rule => [rule]
    | None => if hwBroadcast how then [] else cfRules cf
    end in
  let targets := planNotifyTargets eventType title body channels rules (hwExclude how) (hwFanOut how) in
  let critical := negb (hwBarkLevel how =?? "") || (notifyEventSeverity eventType =?? incidentSeverityCritical) in
  let targets := map (bound_target cf critical now) targets in
  let '(t, b, cut) := ClampNotifyText title body in
  let others := length (List.filter (fun c => negb (ncID c =?? hwExclude how)) channels) in
  let noRoute :=
    if negb (length targets =? 0)%nat then ""
    else if (others =? 0)%nat && negb (hwExclude how =?? "") then "no other enabled channel"
    else if (others =? 0)%nat then "no enabled channel"
    else "no enabled rule routes this event type" in
  mkPlan eventID eventType t b cut how targets noRoute now.

Definition NotifyRolePrimary : string := "primary".
Definition NotifyRoleFallback : string := "fallback".
Definition NotifyRoleTest : string := "test".
Definition NotifySourceServer : string := "server".
Definition NotifySourceWebhook : string := "webhook".
Definition NotifySourceOperator : string := "operator".

Section delivery.
Context `{IncidentText}.
(** [strings.ToLower], used by the outbox's text search only, and
    [strconv.Quote], used in the text of a channel test only. *)
Variable lower : string → string.
Variable quote : string → string.

Definition no_route_row (id : string) (plan : notifyPlan) : NotifyDelivery :=
  mkDelivery id (plEventID plan) (plEventType plan) (hwSource (plHow plan)) (hwSourceID (plHow plan)) (hwSourceRef (plHow plan))
    "" "" "" "" "" "" "" "" NotifyOutcomeNoRoute (plNoRoute plan) [] 0 false (plTitle plan) (plBody plan) (plTruncated plan)
    (plAt plan) (plAt plan) 0 0 "" 0 [].
Definition target_row (plan : notifyPlan) (id : string) (t : notifyTarget) : NotifyDelivery :=
  let how := plHow plan in
  let held := negb (is_zero (tgHeldUntil t)) in
  mkDelivery id (plEventID plan) (plEventType plan) (hwSource how) (hwSourceID how) (hwSourceRef how)
    (tgRuleID t) (tgRuleName t) (ncID (tgChannel t)) (ncName (tgChannel t)) (ncKind (tgChannel t)) NotifyRolePrimary "" ""
    NotifyOutcomePlanned (if held then "held by the rule's quiet hours until " +:+ stamp (tgHeldUntil t) else "")
    [] (if held then tgHeldUntil t else plAt plan) false (tgTitle t) (tgBody t) (tgTruncated t)
    (plAt plan) 0 0 0 (if ncKind (tgChannel t) =?? "bark" then hwBarkLevel how else "")
    (if held then tgHeldUntil t else 0) (hwIncidentIDs how).
(** [ids] are fresh, one per target. *)
Definition plan_rows (plan : notifyPlan) (ids : list string) : list NotifyDelivery := zip_with (target_row plan) ids (plTargets plan).
(** The store, and the targets sent without the outbox when it refuses the
    rows. *)
Definition commitNotifyPlan (r : rorder) (d : disk) (noRouteID : string) (ids : list string) (plan : notifyPlan) (s : ostore)
  : ostore * list notifyTarget :=
  match plTargets plan with
  | [] => ((RecordNotifyNoRoute r d (no_route_row noRouteID plan) s).1, [])
  | ts =>
    match RecordNotifyDeliveries r d (plan_rows plan ids) s with
    | (s, Some _) => (s, ts)
    | (s, None) => (s, [])
    end
  end.

(** ** Channel health *)

Definition notifyChannelFailingAfter : Z := 3.
Definition notifyChannelFailingWindow : duration := 15 * minute.
Definition notifyChannelFailingEvery : duration := hour.
Definition zero_health (channelID : string) : NotifyChannelHealth := mkHealth channelID 0 0 0 "" 0 0 0 false 0 0 "" 0.
Definition nextNotifyHealth (h : NotifyChannelHealth) (a : NotifyAttempt) (counted : bool) (runStart : time) : NotifyChannelHealth :=
  if atOK a then
    mkHealth (hChannelID h) (atAt a) (atAt a) (hLastFailureAt h) (hLastFailureKind h) (hLastStatusCode h) 0 0 (hAnnounced h)
      (hAnnouncedAt h) (hLastFallbackAt h) (hLastFallbackChannelID h) (hFallbacks h)
  else
    let fresh := (hConsecutiveFailures h =? 0) || is_zero (hFailingSince h) in
    let start := if is_zero runStart || after runStart (atAt a) then atAt a else runStart in
    mkHealth (hChannelID h) (atAt a) (hLastOKAt h) (atAt a) (atKind a) (atStatus a)
      (if counted then hConsecutiveFailures h + 1 else hConsecutiveFailures h)
      (if counted && fresh then start else hFailingSince h)
      (hAnnounced h) (hAnnouncedAt h) (hLastFallbackAt h) (hLastFallbackChannelID h) (hFallbacks h).
Definition notifyChannelFailing (h : NotifyChannelHealth) (now : time) : bool :=
  (notifyChannelFailingAfter <=? hConsecutiveFailures h) ||
  ((0 <? hConsecutiveFailures h) && negb (is_zero (hFailingSince h)) &&
   (notifyChannelFailingWindow <=? time_sub now (hFailingSince h))).
Definition with_announced (b : bool) (at_ : time) (h : NotifyChannelHealth) : NotifyChannelHealth :=
  mkHealth (hChannelID h) (hLastAttemptAt h) (hLastOKAt h) (hLastFailureAt h) (hLastFailureKind h) (hLastStatusCode h)
    (hConsecutiveFailures h) (hFailingSince h) b at_ (hLastFallbackAt h) (hLastFallbackChannelID h) (hFallbacks h).
(** Health, whether to announce the channel failing, whether to announce it
    recovered. *)
Definition notifyHealthTransition (prev h : NotifyChannelHealth) (now : time) : NotifyChannelHealth * bool * bool :=
  if (hConsecutiveFailures h =? 0) && is_zero (hFailingSince h) then
    if hAnnounced prev then (with_announced false (hAnnouncedAt h) h, false, true) else (h, false, false)
  else if negb (notifyChannelFailing h now) then (h, false, false)
  else if hAnnounced h && (time_sub now (hAnnouncedAt h) <? notifyChannelFailingEvery) then (h, false, false)
  else (with_announced true now h, true, false).
Definition health_of (o : notifyOutbox) (channelID : string) : NotifyChannelHealth :=
  match health o !! channelID with
  | Some h => mkHealth channelID (hLastAttemptAt h) (hLastOKAt h) (hLastFailureAt h) (hLastFailureKind h) (hLastStatusCode h)
                (hConsecutiveFailures h) (hFailingSince h) (hAnnounced h) (hAnnouncedAt h) (hLastFallbackAt h)
                (hLastFallbackChannelID h) (hFallbacks h)
  | None => zero_health channelID
  end.
Definition notifyChannelByID (cf : config) (channelID : string) : option NotifyChannel :=
  List.find (fun c => ncID c =?? channelID) (cfChannels cf).
Definition notifyChannelLabel (c : NotifyChannel) : string :=
  if negb (trim_space (ncName c) =?? "") then trim_space (ncName c) else ncID c.
Definition withBarkLevel (c : NotifyChannel) (level : string) : NotifyChannel :=
  mkChannel (ncID c) (ncName c) (ncKind c) (ncEnabled c) (<["level" := level]> (ncConfig c)).
Definition describeNotifyFailure (h : NotifyChannelHealth) : string :=
  let k := hLastFailureKind h in
  if k =?? notifyKindUpstream4xx then
    "the endpoint refused it (HTTP " +:+ dec_of_Z (hLastStatusCode h) +:+ "); the key, token or chat id is likely wrong"
  else if k =?? notifyKindUpstream5xx then "the endpoint answered HTTP " +:+ dec_of_Z (hLastStatusCode h)
  else if k =?? notifyKindRateLimited then "the endpoint is rate limiting (HTTP 429)"
  else if k =?? notifyKindTimeout then "the endpoint did not answer in time"
  else if k =?? notifyKindNetwork then "the endpoint could not be reached"
  else if k =?? notifyKindConfigInvalid then "the channel's settings are refused"
  else "the send failed".
Definition EventNotifyChannelFailing : string := "notify.channel_failing".
Definition EventNotifyChannelOK : string := "notify.channel_ok".
Definition server_event (exclude : string) : notifyEnqueue :=
  mkEnqueue NotifySourceServer "" "" exclude true false None "" [].
(** Event type, title, body and routing of the two announcements. *)
Definition announceNotifyChannelFailing (c : NotifyChannel) (h : NotifyChannelHealth) : string * string * string * notifyEnqueue :=
  let name := notifyChannelLabel c in
  (EventNotifyChannelFailing, "Lattice notification channel failing: " +:+ name,
   name +:+ " (" +:+ ncKind c +:+ ") has failed " +:+ dec_of_Z (hConsecutiveFailures h) +:+ " deliveries in a row since " +:+
   stamp (hFailingSince h) +:+ ": " +:+ describeNotifyFailure h +:+
   ". Alerts routed only to it are not arriving. Check its settings, then send a test from Notifications.",
   server_event (ncID c)).
Definition announceNotifyChannelOK (c : NotifyChannel) (prev : NotifyChannelHealth) (at_ : time) : string * string * string * notifyEnqueue :=
  let name := notifyChannelLabel c in
  (EventNotifyChannelOK, "Lattice notification channel recovered: " +:+ name,
   if is_zero (hFailingSince prev) then name +:+ " (" +:+ ncKind c +:+ ") delivered again at " +:+ stamp at_ +:+ "."
   else name +:+ " (" +:+ ncKind c +:+ ") delivered again at " +:+ stamp at_ +:+ " after failing since " +:+
        stamp (hFailingSince prev) +:+ ".",
   server_event "").

(** ** One attempt *)

Definition notifyRetryDelays : list duration := [5 * second; 30 * second; 2 * minute].
Definition attempt_of (at_ : time) (ms : Z) (err : option sendError) : NotifyAttempt :=
  let '(kind, status, _) := redactSendError err in
  mkAttempt at_ (match err with None => true | Some _ => false end) kind status ms.
Definition settle (outcome reason : string) (at_ : time) (row : NotifyDelivery) : NotifyDelivery :=
  with_ndNextAttemptAt 0 (with_ndSettledAt at_ (with_ndReason reason (with_ndOutcome outcome row))).
Definition attempted (err : option sendError) (a : NotifyAttempt) (row : NotifyDelivery) : NotifyDelivery :=
  let row := with_ndAttempts (ndAttempts row ++ [a]) row in
  let n := length (ndAttempts row) in
  let '(kind, status, transient) := redactSendError err in
  match err with
  | None => settle NotifyOutcomeSent "" (atAt a) row
  | Some _ =>
    if transient && (n <=? length notifyRetryDelays)%nat then
      with_ndReason (notifyFailureSentence kind status (Z.of_nat n) +:+ ", retrying")
        (with_ndNextAttemptAt (time_add (atAt a) (default 0 (notifyRetryDelays !! (n - 1)%nat))) row)
    else settle NotifyOutcomeFailed (notifyFailureSentence kind status (Z.of_nat n)) (atAt a) row
  end.
(** The receipt and the health written with it, and the announcements. *)
Definition receipt (err : option sendError) (a : NotifyAttempt) (row : NotifyDelivery) (c : NotifyChannel) (o : notifyOutbox)
  : NotifyDelivery * NotifyChannelHealth * bool * bool :=
  let row := attempted err a row in
  let prev := health_of o (ncID c) in
  let first := match ndAttempts row with x :: _ => atAt x | [] => 0 end in
  let '(h, announce, recovered) :=
    notifyHealthTransition prev (nextNotifyHealth prev a (ndOutcome row =?? NotifyOutcomeFailed) first) (atAt a) in
  (row, h, announce, recovered).

(** ** Messages quiet hours held *)

Definition notifyWithdrawnRecovery : string :=
  "withdrawn when quiet hours ended: the open message it answers was withdrawn too".
Definition heldIncidentMessage (row : NotifyDelivery) : bool :=
  negb (is_zero (ndHeldUntil row)) && (length (ndAttempts row) =? 0)%nat && negb (length (ndIncidentIDs row) =? 0)%nat.
Definition still_open (b : incidentBook) (now : time) (incidentID : string) : bool :=
  match get_incident incidentID b with
  | Some i => (iState i =?? IncidentStateOpen) && negb (after (iSnoozedUntil i) now)
  | None => false
  end.
(** The latest open of the incident on the row's rule and channel was
    withdrawn; [opens] are newest first. *)
Definition open_withdrawn (row : NotifyDelivery) (opens : list NotifyDelivery) (incidentID : string) : bool :=
  match List.find (fun o => negb (negb (ndRuleID o =?? ndRuleID row) || (ndID o =?? ndID row) ||
                     after (ndCreatedAt o) (ndCreatedAt row) || negb (mem incidentID (ndIncidentIDs o)))) opens with
  | Some o => ndOutcome o =?? NotifyOutcomeSuppressed
  | None => false
  end.
Definition heldIncidentWithdrawal (b : incidentBook) (now : time) (o : notifyOutbox) (row : NotifyDelivery) : string :=
  if negb (heldIncidentMessage row) then "" else
  match incidentKinds !! ndEventType row with
  | Some _ => if existsb (still_open b now) (ndIncidentIDs row) then "" else notifyWithdrawnOpen
  | None =>
    match incidentRecoveryOf !! ndEventType row with
    | None => ""
    | Some open =>
      let opens := NotifyDeliveries lower (mkFilter "" (ndChannelID row) open "" "" "" "" 0) o in
      if forallb (open_withdrawn row opens) (ndIncidentIDs row) then notifyWithdrawnRecovery else ""
    end
  end.

(** ** Fallbacks *)

Definition notifyEventIsCritical (eventType : string) : bool :=
  mem eventType [EventServiceDown; EventSSHCompromiseSuspected; EventNodeOffline].
Definition newline2 : string := str1 newline +:+ str1 newline.
Definition notifyFallbackBodyWith (body sentence : string) : string * bool :=
  let '(base, cut) := TruncateUTF8 body (MaxNotifyBodyBytes - String.length sentence) in
  let '(out, cutAll) := TruncateUTF8 (base +:+ sentence) MaxNotifyBodyBytes in
  (out, cut || cutAll).
Definition notifyFallbackBody (body failed : string) : string * bool :=
  notifyFallbackBodyWith body (newline2 +:+ "Sent through the fallback channel because " +:+ failed +:+ " did not deliver it.").
Definition notifyChannelFallbackBody (body failed : string) (settled : bool) : string * bool :=
  let why := if settled then failed +:+ " did not deliver this critical alert"
             else failed +:+ " failed to deliver this critical alert and is still retrying" in
  notifyFallbackBodyWith body (newline2 +:+ "Sent through the fallback channel because " +:+ why +:+ ".").
Definition event_rows (o : notifyOutbox) (eventID : string) : list NotifyDelivery :=
  NotifyDeliveries lower (mkFilter "" "" "" eventID "" "" "" 0) o.
Definition join_comma (l : list string) : string :=
  match l with [] => "" | x :: l => foldl (fun acc y => acc +:+ ", " +:+ y) x l end.
(** The scan of the rule's siblings: [None] when the fallback is not due. *)
Fixpoint failed_primaries (ruleID : string) (sibs : list NotifyDelivery) (bark : string) (failed : list string)
  : option (string * list string) :=
  match sibs with
  | [] => Some (bark, failed)
  | sib :: sibs =>
    if negb (ndRuleID sib =?? ruleID) then failed_primaries ruleID sibs bark failed else
    let bark := if negb (ndBarkLevel sib =?? "") then ndBarkLevel sib else bark in
    if (ndRole sib =?? NotifyRoleFallback) && (ndFallbackOf sib =?? "") then None
    else if negb (ndRole sib =?? NotifyRolePrimary) then failed_primaries ruleID sibs bark failed
    else if negb (Settled sib) || (ndOutcome sib =?? NotifyOutcomeSent) then None
    else failed_primaries ruleID sibs bark (failed ++ [ndChannelName sib])
  end.
Definition fallback_of_rule (cf : config) (ruleID : string) : string :=
  match cfRuleOptions cf !! ruleID with Some o => doFallback o | None => "" end.
Definition planNotifyFallback (cf : config) (now : time) (newID : string) (row : NotifyDelivery) (o : notifyOutbox)
  : option NotifyDelivery :=
  if negb (ndOutcome row =?? NotifyOutcomeFailed) || negb (ndRole row =?? NotifyRolePrimary) || (ndRuleID row =?? "") then None else
  let fb := fallback_of_rule cf (ndRuleID row) in
  if fb =?? "" then None else
  match failed_primaries (ndRuleID row) (event_rows o (ndEventID row)) "" [] with
  | None => None
  | Some (bark, failed) =>
    if existsb (fun sib => ndChannelID sib =?? fb) (event_rows o (ndEventID row)) then None else
    let names := join_comma (sort_strings failed) in
    let '(body, cut) := notifyFallbackBody (ndBody row) names in
    let '(cname, ckind) := match notifyChannelByID cf fb with Some c => (ncName c, ncKind c) | None => ("", "") end in
    Some (mkDelivery newID (ndEventID row) (ndEventType row) (ndSource row) (ndSourceID row) (ndSourceRef row)
      (ndRuleID row) (ndRuleName row) fb cname ckind NotifyRoleFallback names "" NotifyOutcomePlanned "" [] now false
      (ndTitle row) body (ndTruncated row || cut) now 0 0 0 (if ckind =?? "bark" then bark else "") 0 (ndIncidentIDs row))
  end.
Definition planNotifyChannelFallback (cf : config) (now : time) (newID : string) (row : NotifyDelivery) (c : NotifyChannel)
  (o : notifyOutbox) : option (NotifyDelivery * NotifyChannelHealth) :=
  if negb (ndRole row =?? NotifyRolePrimary) || negb (notifyEventIsCritical (ndEventType row)) then None else
  let fb := default "" (cfChannelFallback cf !! ncID c) in
  if (fb =?? "") || (fb =?? ncID c) then None else
  match notifyChannelByID cf fb with
  | None => None
  | Some fallback =>
    if negb (ncEnabled fallback) then None else
    if existsb (fun sib => ndChannelID sib =?? fb) (event_rows o (ndEventID row)) then None else
    let failed := if ndChannelName row =?? "" then notifyChannelLabel c else ndChannelName row in
    let '(body, cut) := notifyChannelFallbackBody (ndBody row) failed (Settled row) in
    let next := mkDelivery newID (ndEventID row) (ndEventType row) (ndSource row) (ndSourceID row) (ndSourceRef row)
      (ndRuleID row) (ndRuleName row) (ncID fallback) (ncName fallback) (ncKind fallback) NotifyRoleFallback failed (ndID row)
      NotifyOutcomePlanned "" [] now false (ndTitle row) body (ndTruncated row || cut) now 0 0 0 "" 0 [] in
    let h := health_of o (ncID c) in
    Some (next, mkHealth (ncID c) (hLastAttemptAt h) (hLastOKAt h) (hLastFailureAt h) (hLastFailureKind h) (hLastStatusCode h)
      (hConsecutiveFailures h) (hFailingSince h) (hAnnounced h) (hAnnouncedAt h) now (ncID fallback) (hFallbacks h + 1))
  end.

(** ** Inbound webhooks *)

(** The record to settle: webhook, record, outcome, reason, sends that went
    out. *)
Definition settleNotifyWebhookCounts (webhookID recordID : string) (delivered failed : Z)
  : option (string * string * string * string * Z) :=
  if (webhookID =?? "") || (recordID =?? "") then None else
  let '(outcome, reason) :=
    if (delivered =? 0) && (0 <? failed) then ("failed", "all " +:+ dec_of_Z failed +:+ " channel sends failed")
    else if 0 <? failed then
      ("partial", dec_of_Z failed +:+ " of " +:+ dec_of_Z (delivered + failed) +:+ " channel sends failed")
    else ("accepted", "") in
  Some (webhookID, recordID, outcome, reason, delivered).
Definition settleNotifyWebhookRecord (o : notifyOutbox) (row : NotifyDelivery) : option (string * string * string * string * Z) :=
  if negb (ndSource row =?? NotifySourceWebhook) || (ndSourceID row =?? "") || (ndSourceRef row =?? "") then None else
  let sibs := event_rows o (ndEventID row) in
  if existsb (fun sib => ndOutcome sib =?? NotifyOutcomePlanned) sibs then None else
  let count x := Z.of_nat (length (List.filter (fun sib => ndOutcome sib =?? x) sibs)) in
  settleNotifyWebhookCounts (ndSourceID row) (ndSourceRef row) (count NotifyOutcomeSent) (count NotifyOutcomeFailed).

(** ** Start-up *)

Definition notifyRedriveHorizon : duration := 15 * minute.
Definition due_at (row : NotifyDelivery) : time :=
  if after (ndHeldUntil row) (ndCreatedAt row) then ndHeldUntil row else ndCreatedAt row.
Definition still_held (now : time) (row : NotifyDelivery) : bool :=
  after (due_at row) now && (length (ndAttempts row) =? 0)%nat.
Definition reconciled (now : time) (row : NotifyDelivery) : NotifyDelivery :=
  if (ndRole row =?? NotifyRoleTest) || (notifyRedriveHorizon <? time_sub now (due_at row)) then
    settle NotifyOutcomeFailed "interrupted by restart, not retried" now row
  else
    with_ndReason "redriven after restart" (with_ndRedriven true
      (if before (ndNextAttemptAt row) now then with_ndNextAttemptAt now row else row)).
(** The store and how many rows wait for a send. *)
Definition reconcileNotifyOutbox (r : rorder) (d : disk) (now : time) (s : ostore) : ostore * Z :=
  let s := notifyOutboxLocked r d s in
  let pending := UnsettledNotifyDeliveries (outbox s) in
  let held := Z.of_nat (length (List.filter (still_held now) pending)) in
  let changed := map (reconciled now) (List.filter (fun row => negb (still_held now row)) pending) in
  let redrive := Z.of_nat (length (List.filter (fun row => negb (Settled row)) changed)) in
  match changed with
  | [] => (s, held)
  | _ => ((RecordNotifyDeliveries r d changed s).1, redrive + held)
  end.
(** The webhook records settled with the rows the restart settled, one per
    event. *)
Definition reconcile_webhooks (o : notifyOutbox) (changed : list NotifyDelivery) : list (string * string * string * string * Z) :=
  omap (settleNotifyWebhookRecord o)
    (foldl (fun acc row => if Settled row && negb (mem (ndEventID row) (map ndEventID acc)) then acc ++ [row] else acc) [] changed).

(** ** The server *)

(** What an attempt still has to do once its receipt is written. *)
Inductive followup :=
| Announce (ev : string * string * string * notifyEnqueue)
| ChannelFallback (row : NotifyDelivery) (c : NotifyChannel)
| RuleFallback (row : NotifyDelivery)
| WebhookRecord (row : NotifyDelivery).
Inductive phase :=
| Queued
| Sending (row : NotifyDelivery) (c : NotifyChannel)
| Todo (fs : list followup).
(** What happened, newest first. *)
Inductive logged :=
| LSend (row : NotifyDelivery) (c : NotifyChannel)
| LSettled (id outcome : string)
| LFailing (channelID : string) (at_ : time)
| LRecovered (channelID : string) (at_ : time)
| LUnrecorded (ts : list notifyTarget)
| LWebhook (w : string * string * string * string * Z).
Record server := mkServer { svStore : ostore; svInflight : gmap string phase; svLog : list logged }.
(** What a step is given: the range order, the disk, the configuration and
    the incidents of the moment, the clock, and fresh ids. *)
Record env := mkEnv {
  eRange : rorder; eDisk : disk; eConf : config; eBook : incidentBook; eNow : time; eEventID : string; eNewID : string;
  eNewIDs : list string }.

Definition with_store (st : ostore) (s : server) : server := mkServer st (svInflight s) (svLog s).
Definition note (l : list logged) (s : server) : server := mkServer (svStore s) (svInflight s) (l ++ svLog s).
Definition set_phase (id : string) (ph : phase) (s : server) : server :=
  mkServer (svStore s) (match ph with Todo [] => delete id (svInflight s) | _ => <[id := ph]> (svInflight s) end) (svLog s).
Definition done_with (id : string) (s : server) : server := set_phase id (Todo []) s.

(** *** The drainer *)

Definition held_key (row : NotifyDelivery) : string := ndRuleID row +:+ str1 (byte_of 0) +:+ ndChannelID row.
(** The deliveries started and when the next one falls due, or zero. *)
Fixpoint drain_go (now : time) (inflight : gmap string phase) (turn : list string) (next : time) (rs : list NotifyDelivery)
  : list string * time :=
  match rs with
  | [] => ([], next)
  | row :: rs =>
    let held := negb (is_zero (ndHeldUntil row)) in
    if held && mem (held_key row) turn then drain_go now inflight turn next rs else
    let turn := if held then held_key row :: turn else turn in
    match inflight !! ndID row with
    | Some _ => drain_go now inflight turn next rs
    | None =>
      if after (ndNextAttemptAt row) now then
        drain_go now inflight turn
          (if is_zero next || before (ndNextAttemptAt row) next then ndNextAttemptAt row else next) rs
      else let '(ids, next) := drain_go now (<[ndID row := Queued]> inflight) turn next rs in (ndID row :: ids, next)
    end
  end.
Definition drainNotifyOutbox (now : time) (s : server) : server * time :=
  let '(ids, next) := drain_go now (svInflight s) [] 0 (UnsettledNotifyDeliveries (outbox (svStore s))) in
  (mkServer (svStore s) (foldl (fun m id => <[id := Queued]> m) (svInflight s) ids) (svLog s), next).

(** *** An attempt *)

Definition settled_note (row : NotifyDelivery) (res : ostore * option outError) : list logged :=
  match res.2 with None => if Settled row then [LSettled (ndID row) (ndOutcome row)] else [] | Some _ => [] end.
(** Write a row (and a health) and note it when it settles. *)
Definition put_row_step (e : env) (row : NotifyDelivery) (h : option NotifyChannelHealth) (s : server) : server :=
  let res := PutNotifyDelivery (eRange e) (eDisk e) row h (svStore s) in
  note (settled_note row res) (with_store res.1 s).
(** The first half of [attemptNotifyDelivery], up to the send. *)
Definition start_attempt (e : env) (id : string) (s : server) : server :=
  match svInflight s !! id with
  | Some Queued =>
    let o := outbox (svStore s) in
    match get_delivery id o with
    | None => done_with id s
    | Some row =>
      if Settled row then done_with id s else
      let reason := heldIncidentWithdrawal (eBook e) (eNow e) o row in
      if negb (reason =?? "") then
        done_with id (put_row_step e (settle NotifyOutcomeSuppressed reason (eNow e) row) None s)
      else
      match notifyChannelByID (eConf e) (ndChannelID row) with
      | None =>
        let row := settle NotifyOutcomeFailed "channel deleted before delivery" (eNow e) row in
        set_phase id (Todo [RuleFallback row; WebhookRecord row]) (put_row_step e row None s)
      | Some c =>
        if negb (ncEnabled c) then
          let row := settle NotifyOutcomeFailed "channel disabled before delivery" (eNow e) row in
          set_phase id (Todo [ChannelFallback row c; RuleFallback row; WebhookRecord row]) (put_row_step e row None s)
        else
          let c := if negb (ndBarkLevel row =?? "") && (ncKind c =?? "bark") then withBarkLevel c (ndBarkLevel row) else c in
          set_phase id (Sending row c) (note [LSend row c] s)
      end
    end
  | _ => s
  end.
(** The second half: the receipt and the health, under one lock. *)
Definition record_attempt (e : env) (id : string) (err : option sendError) (at_ ms : Z) (s : server) : server :=
  match svInflight s !! id with
  | Some (Sending row c) =>
    let '(row, h, announce, recovered) := receipt err (attempt_of at_ ms err) row c (outbox (svStore s)) in
    let prev := health_of (outbox (svStore s)) (ncID c) in
    let fs := (if announce then [Announce (announceNotifyChannelFailing c h)] else []) ++
              (if recovered then [Announce (announceNotifyChannelOK c prev at_)] else []) ++
              (match err with Some _ => [ChannelFallback row c] | None => [] end) ++
              (if Settled row then [RuleFallback row; WebhookRecord row] else []) in
    set_phase id (Todo fs)
      (note ((if announce then [LFailing (ncID c) at_] else []) ++ (if recovered then [LRecovered (ncID c) at_] else []))
        (put_row_step e row (Some h) s))
  | _ => s
  end.
(** [enqueueNotifyEvent]. *)
Definition enqueue (e : env) (ev : string * string * string * notifyEnqueue) (s : server) : server :=
  let '(eventType, title, body, how) := ev in
  let plan := planNotifyEvent (eConf e) (eNow e) (eEventID e) eventType title body how in
  let '(st, ts) := commitNotifyPlan (eRange e) (eDisk e) (eNewID e) (eNewIDs e) plan (svStore s) in
  note (match ts with [] => [] | _ => [LUnrecorded ts] end) (with_store st s).
Definition follow (e : env) (f : followup) (s : server) : server :=
  let o := outbox (svStore s) in
  match f with
  | Announce ev => enqueue e ev s
  | ChannelFallback row c =>
    match planNotifyChannelFallback (eConf e) (eNow e) (eNewID e) row c o with
    | Some (next, h) => with_store (PutNotifyDelivery (eRange e) (eDisk e) next (Some h) (svStore s)).1 s
    | None => s
    end
  | RuleFallback row =>
    match planNotifyFallback (eConf e) (eNow e) (eNewID e) row o with
    | Some next => with_store (RecordNotifyDeliveries (eRange e) (eDisk e) [next] (svStore s)).1 s
    | None => s
    end
  | WebhookRecord row =>
    match settleNotifyWebhookRecord o row with Some w => note [LWebhook w] s | None => s end
  end.
Definition follow_next (e : env) (id : string) (s : server) : server :=
  match svInflight s !! id with
  | Some (Todo (f :: fs)) => set_phase id (Todo fs) (follow e f s)
  | _ => s
  end.

(** An operator's test of a channel ([sendNotifyChannelTest]), once the send
    has been answered; the announcement it may owe is left to do. *)
Definition test_row (id eventID : string) (c : NotifyChannel) (now at_ : time) (err : option sendError) (a : NotifyAttempt) : NotifyDelivery :=
  let '(kind, status, _) := redactSendError err in
  let ok := match err with None => true | Some _ => false end in
  mkDelivery id eventID "notify.test" NotifySourceOperator "" "" "" "" (ncID c) (ncName c) (ncKind c) NotifyRoleTest "" ""
    (if ok then NotifyOutcomeSent else NotifyOutcomeFailed) (if ok then "" else notifyFailureSentence kind status 1) [a] 0 false
    "Lattice test" ("Test message for the " +:+ ncKind c +:+ " channel " +:+ quote (notifyChannelLabel c) +:+
      ", sent from Notifications at " +:+ stamp now +:+ ". If you can read this, the channel works.") false now at_ 0 0 "" 0 [].
Definition test_channel (e : env) (c : NotifyChannel) (err : option sendError) (at_ ms : Z) (s : server) : server :=
  let a := attempt_of at_ ms err in
  let row := test_row (eNewID e) (eEventID e) c (eNow e) at_ err a in
  let prev := health_of (outbox (svStore s)) (ncID c) in
  let h := nextNotifyHealth prev a false 0 in
  let '(h, recovered) := if atOK a then let '(h, _, rec) := notifyHealthTransition prev h at_ in (h, rec) else (h, false) in
  set_phase (eNewID e) (Todo (if recovered then [Announce (announceNotifyChannelOK c prev at_)] else []))
    (note (if recovered then [LRecovered (ncID c) at_] else [])
      (with_store (PutNotifyDelivery (eRange e) (eDisk e) row (Some h) (svStore s)).1 s)).

Inductive action :=
| ADrain
| AStart (id : string)
| ARecord (id : string) (err : option sendError) (at_ ms : Z)
| AFollow (id : string)
| AEnqueue (ev : string * string * string * notifyEnqueue)
| ATest (c : NotifyChannel) (err : option sendError) (at_ ms : Z).
Definition step (e : env) (a : action) (s : server) : server :=
  match a with
  | ADrain => (drainNotifyOutbox (eNow e) s).1
  | AStart id => start_attempt e id s
  | ARecord id err at_ ms => record_attempt e id err at_ ms s
  | AFollow id => follow_next e id s
  | AEnqueue ev => enqueue e ev s
  | ATest c err at_ ms => test_channel e c err at_ ms s
  end.
End delivery.
