(* ===== verification/DeliverySafety.v ===== *)
(** * What delivery guarantees

    Invariants of the delivery machine of Delivery.v over every interleaving
    of planning, draining, sending, recording and following up, with any
    configuration, incidents and send results at each step, while the disk
    accepts writes; and what happens to a receipt it refuses. *)

From Stdlib Require Import ZArith Lia Ascii.
From stdpp Require Import gmap strings sorting.
From S2P Require Import Prelude GoStr Incidents IncidentEval Clock Outbox Delivery.

Local Open Scope Z_scope.

(** ** How an accepted write changes the rows *)

(** [new] rows are in; every other row is kept, is an unsent row a repeat was
    folded into, or was settled and evicted. *)
Record evolves (o o' : notifyOutbox) (new : list NotifyDelivery) : Prop := {
  evo_from : ∀ id row', rows o' !! id = Some row' →
    (row' ∈ new ∧ ndID row' = id) ∨
    (id ∉ map ndID new ∧ ∃ row, rows o !! id = Some row ∧ (row' = row ∨ Unsent row = true ∧ ∃ u, row' = fold_repeat u row));
  evo_kept : ∀ id row, rows o !! id = Some row → Settled row = false → id ∉ map ndID new → rows o' !! id = Some row;
  evo_new : ∀ x, x ∈ new → rows o' !! ndID x = Some x }.

Lemma evict_put_evolves r rs he o : outbox_ok o → NoDup (map ndID rs) →
  evolves o (applyLocked r (mkOutWrite rs (evictionLocked r rs o) he [] [] []) o) rs.
Proof.
  intros Hok Hnd. destruct (eviction_spec r rs o Hok) as [Ev _ _ _ _].
  set (V := evictionLocked r rs o) in *.
  assert (rows (applyLocked r (mkOutWrite rs V he [] [] []) o) = put_rows (del_rows (rows o) V) rs) as E by apply rows_apply.
  split; rewrite E.
  - intros id row' [?|[Hid H]]%put_rows_Some; [by left| |done]. right. split; [done|].
    exists row'. split; [by eapply del_rows_Some|by left].
  - intros id row Hr Hs Hid. apply put_rows_Some; [done|]. right. split; [done|].
    rewrite del_rows_lookup; [done|]. intros (v & -> & Hv)%list_elem_of_fmap.
    destruct (Ev v Hv) as (Hv' & Hsv & _). congruence.
  - intros x Hx. apply put_rows_Some; [done|]. by left.
Qed.

(** What a store operation promises when its write is accepted. *)
Record written (s : ostore) (res : ostore * option outError) (new : list NotifyDelivery) : Prop := {
  wr_none : res.2 = None;
  wr_loaded : loaded res.1 = true;
  wr_ok : outbox_ok (outbox res.1);
  wr_evolves : evolves (outbox s) (outbox res.1) new }.

Lemma commit_written r d rs he s : valid_rorder r → writes d = true → loaded s = true → outbox_ok (outbox s) →
  NoDup (map ndID rs) → (∀ x, x ∈ rs → row_ok x = true) →
  let w := mkOutWrite rs (evictionLocked r rs (outbox s)) he [] [] [] in
  written s (commit_apply r d w s) rs ∧ health (outbox (commit_apply r d w s).1) = apply_health w (health (outbox s)).
Proof.
  intros Hr Hd Hl Hok Hnd Hrow w.
  assert (∃ s', commit_apply r d w s = (s', None) ∧ loaded s' = true) as (s' & E & Hl').
  { unfold commit_apply, commitNotifyOutboxLocked, loaded in *. destruct (hotDB s) as [h|] eqn:Eh.
    - destruct (outwrite_empty w); [|rewrite Hd]; eexists; (split; [reflexivity|]); cbn; rewrite ?Eh; done.
    - eexists. split; [reflexivity|]. cbn. by rewrite Eh. }
  pose proof (commit_apply_None _ _ _ _ _ E) as Eo. rewrite E. cbn [fst snd]. split.
  - split; cbn [fst snd]; [done|done| |]; rewrite Eo.
    + by apply outbox_applied_ok.
    + by apply evict_put_evolves.
  - rewrite Eo. apply apply_maps.
Qed.

Lemma record_written r d rs s : valid_rorder r → writes d = true → loaded s = true → outbox_ok (outbox s) →
  rs ≠ [] → NoDup (map ndID rs) → (∀ x, x ∈ rs → row_ok x = true) →
  written s (RecordNotifyDeliveries r d rs s) (clampNotifyDeliveries rs) ∧
  health (outbox (RecordNotifyDeliveries r d rs s).1) = health (outbox s).
Proof.
  intros Hr Hd Hl Hok Hne Hnd Hrow. destruct rs as [|x rs]; [done|]. unfold RecordNotifyDeliveries.
  rewrite (loaded_id r d s Hl). set (cs := clampNotifyDeliveries (x :: rs)).
  destruct (commit_written r d cs [] s Hr Hd Hl Hok) as [H1 H2].
  - unfold cs. by rewrite clamp_ids.
  - intros c (y & -> & Hy)%list_elem_of_fmap. rewrite clamp_row_ok. by apply Hrow.
  - split; [exact H1|]. unfold put_rows_write. rewrite H2. done.
Qed.

Lemma put_written r d row h s : valid_rorder r → writes d = true → loaded s = true → outbox_ok (outbox s) → row_ok row = true →
  written s (PutNotifyDelivery r d row h s) [clampNotifyDelivery row] ∧
  health (outbox (PutNotifyDelivery r d row h s).1) =
    match h with Some h => <[hChannelID h := h]> (health (outbox s)) | None => health (outbox s) end.
Proof.
  intros Hr Hd Hl Hok Hrow. unfold PutNotifyDelivery. rewrite (loaded_id r d s Hl). cbv zeta.
  destruct (commit_written r d [clampNotifyDelivery row] (option_list h) s Hr Hd Hl Hok) as [H1 H2].
  - apply NoDup_singleton.
  - intros x [->|Hx]%elem_of_cons; [by rewrite clamp_row_ok|by apply not_elem_of_nil in Hx].
  - split; [exact H1|]. rewrite H2. by destruct h.
Qed.

Lemma evolves_fold o o' first u : rows o !! ndID first = Some first → Unsent first = true →
  rows o' = <[ndID first := fold_repeat u first]> (rows o) → evolves o o' [].
Proof.
  intros Hf Hu E. split; rewrite E.
  - intros id row' [[<- <-]|[_ H]]%lookup_insert_Some; right; (split; [apply not_elem_of_nil|]); eauto 6.
  - intros id row Hr Hs _. rewrite lookup_insert_ne; [done|]. intros <-.
    assert (row = first) as -> by congruence. by rewrite (Unsent_Settled _ Hu) in Hs.
  - intros x Hx. by apply not_elem_of_nil in Hx.
Qed.

Lemma unsent_written r d row s : valid_rorder r → writes d = true → loaded s = true → outbox_ok (outbox s) → row_ok row = true →
  (written s (recordNotifyUnsent r d row s) [] ∨ written s (recordNotifyUnsent r d row s) [unsent_row row]) ∧
  health (outbox (recordNotifyUnsent r d row s).1) = health (outbox s).
Proof.
  intros Hr Hd Hl Hok Hrow. unfold recordNotifyUnsent. cbv zeta. fold (unsent_row row). set (u := unsent_row row).
  rewrite (loaded_id r d s Hl). destruct (unsent_row_fields row) as (E1 & E2 & E3 & _). fold u in E1, E2, E3.
  destruct (folds_into (outbox s) u) as [first|] eqn:Ef.
  - destruct (folds_into_spec _ _ _ Hok Ef) as (Hf & Hlat & Hun & _). rewrite Hlat. cbn [default].
    destruct (match noRouteWritten (outbox s) !! ndID first with Some _ => _ | None => _ end).
    + split; [|done]. left. split; cbn [fst snd with_outbox outbox]; [done|exact Hl|by apply fold_mem_ok|].
      by apply (evolves_fold _ _ first u).
    + set (w := mkOutWrite [fold_repeat u first] [] [] [] [] []).
      assert (∃ s', commit_apply r d w s = (s', None) ∧ loaded s' = true) as (s' & E & Hl').
      { unfold commit_apply, commitNotifyOutboxLocked, loaded in *. destruct (hotDB s) as [h|] eqn:Eh.
        - cbn [outwrite_empty w putRows length]. rewrite Hd. eexists. split; [reflexivity|]. done.
        - eexists. split; [reflexivity|]. cbn. by rewrite Eh. }
      rewrite E. pose proof (commit_apply_None _ _ _ _ _ E) as Eo. cbn [fst snd with_outbox outbox with_written health]. rewrite Eo.
      assert (rows (applyLocked r w (outbox s)) = <[ndID first := fold_repeat u first]> (rows (outbox s))) as Er by apply rows_apply.
      split; [left|by destruct (apply_maps r w (outbox s)) as [-> _]].
      split; cbn [fst snd with_outbox outbox]; [done|exact Hl'| |].
      * apply with_written_ok; [|rewrite Er, lookup_insert_eq; by eexists]. apply outbox_applied_ok; [done..|].
        intros x [->|Hx]%elem_of_cons; [|by apply not_elem_of_nil in Hx]. by apply (ob_rows _ Hok _ _ Hf).
      * by apply (evolves_fold _ _ first u).
  - destruct (commit_written r d [u] [] s Hr Hd Hl Hok (NoDup_singleton _)) as [[W1 W2 W3 W4] H2].
    { intros x [->|Hx]%elem_of_cons; [by rewrite E3|by apply not_elem_of_nil in Hx]. }
    unfold put_rows_write. destruct (commit_apply r d _ s) as [s' err]. cbn [fst snd] in *. subst err.
    split; [right|exact H2]. split; cbn [fst snd with_outbox outbox]; [done|exact W2| |].
    + apply with_written_ok; [done|]. by rewrite (evo_new _ _ _ W4 u ltac:(by left)).
    + destruct W4 as [F1 F2 F3]. by split.
Qed.

(** ** Runs *)

Definition slash_free (id : string) : bool := negb (mem slash (bytes_of id)).
Definition fresh_ids (e : env) : list string := eEventID e :: eNewID e :: eNewIDs e.
(** A step whose writes are accepted, at a clock that does not run back and
    with ids nobody used. *)
Record step_ok (used : gset string) (now : time) (e : env) : Prop := {
  so_range : valid_rorder (eRange e);
  so_disk : writes (eDisk e) = true;
  so_now : now <= eNow e;
  so_key : keyable (eNow e) = true;
  so_nodup : NoDup (fresh_ids e);
  so_fresh : ∀ id, id ∈ fresh_ids e → id ∉ used ∧ slash_free id = true }.
Definition used_after (used : gset string) (e : env) : gset string := used ∪ list_to_set (fresh_ids e).

Definition is_send (id : string) (l : logged) : bool := match l with LSend row _ => ndID row =?? id | _ => false end.
(** How often a delivery was handed to its channel. *)
Definition sends (id : string) (log : list logged) : nat := length (List.filter (is_send id) log).
Fixpoint quiet_after (log : list logged) : Prop :=
  match log with
  | [] => True
  | LSend row _ :: l => (∀ oc, LSettled (ndID row) oc ∉ l) ∧ quiet_after l
  | _ :: l => quiet_after l
  end.
Definition active (ph : phase) : bool := match ph with Todo _ => false | _ => true end.
Definition is_sending (ph : option phase) : nat := match ph with Some (Sending _ _) => 1 | _ => 0 end.
Definition held (row : NotifyDelivery) : bool := negb (is_zero (ndHeldUntil row)).
Definition followup_ok (used : gset string) (f : followup) : Prop :=
  match f with ChannelFallback row _ | RuleFallback row => ndEventID row ∈ used | _ => True end.

(** What the rows of the outbox satisfy on their own. *)
Record rows_inv (used : gset string) (now : time) (m : gmap string NotifyDelivery) : Prop := {
  ri_used : ∀ id row, m !! id = Some row → id ∈ used ∧ ndEventID row ∈ used ∧ ndCreatedAt row <= now;
  ri_attempts : ∀ id row, m !! id = Some row →
    (length (ndAttempts row) <= 4)%nat ∧ (Settled row = false → (length (ndAttempts row) <= 3)%nat);
  ri_once : ∀ id1 id2 a b, m !! id1 = Some a → m !! id2 = Some b → id1 ≠ id2 → ndEventID a = ndEventID b →
    ndChannelID a = ndChannelID b → ndRole a ≠ NotifyRoleFallback }.
Record inv (used : gset string) (now : time) (s : server) : Prop := {
  iv_loaded : loaded (svStore s) = true;
  iv_ok : outbox_ok (outbox (svStore s));
  iv_rows : rows_inv used now (rows (outbox (svStore s)));
  iv_used : ∀ id ph, svInflight s !! id = Some ph → id ∈ used;
  iv_todo : ∀ id fs f, svInflight s !! id = Some (Todo fs) → f ∈ fs → followup_ok used f;
  iv_queued : ∀ id ph, svInflight s !! id = Some ph → active ph = true →
    ∃ row, rows (outbox (svStore s)) !! id = Some row ∧ Settled row = false;
  iv_sending : ∀ id row c, svInflight s !! id = Some (Sending row c) → rows (outbox (svStore s)) !! id = Some row;
  iv_sends : ∀ id, (sends id (svLog s) <= 4)%nat ∧ (id ∉ used → sends id (svLog s) = 0%nat) ∧
    ∀ row, rows (outbox (svStore s)) !! id = Some row → Settled row = false →
      (sends id (svLog s) <= length (ndAttempts row) + is_sending (svInflight s !! id))%nat;
  iv_settled : ∀ id oc, LSettled id oc ∈ svLog s → id ∈ used ∧
    ∀ row, rows (outbox (svStore s)) !! id = Some row → Settled row = true;
  iv_quiet : quiet_after (svLog s);
  iv_turn : ∀ id ph row, svInflight s !! id = Some ph → active ph = true → rows (outbox (svStore s)) !! id = Some row →
    held row = true → ∀ id' x, rows (outbox (svStore s)) !! id' = Some x → Settled x = false → held x = true →
    held_key x = held_key row → ndCreatedAt row <= ndCreatedAt x }.

(** The fields folding a repeat leaves alone. *)
Record alike (a b : NotifyDelivery) : Prop := {
  al_event : ndEventID a = ndEventID b; al_channel : ndChannelID a = ndChannelID b; al_role : ndRole a = ndRole b;
  al_created : ndCreatedAt a = ndCreatedAt b; al_attempts : ndAttempts a = ndAttempts b; al_settled : Settled a = Settled b;
  al_held : held a = held b; al_key : held_key a = held_key b }.
Lemma alike_fold row' row : row' = row ∨ (Unsent row = true ∧ ∃ u, row' = fold_repeat u row) → alike row' row.
Proof. intros [->|[_ [u ->]]]; by split. Qed.
Lemma alike_clamp d : alike (clampNotifyDelivery d) d.
Proof. unfold clampNotifyDelivery. destruct (ClampNotifyText _ _) as [[t b] c]. by split. Qed.

(** A row nobody has seen before. *)
Record fresh_row (used : gset string) (e : env) (o : notifyOutbox) (new : list NotifyDelivery) (x : NotifyDelivery) : Prop := {
  fr_id : ndID x ∈ fresh_ids e;
  fr_event : ndEventID x ∈ used_after used e;
  fr_created : ndCreatedAt x = eNow e;
  fr_attempts : (length (ndAttempts x) <= 1)%nat;
  fr_planned : Settled x = false → ndAttempts x = [];
  fr_once : ∀ y, ((∃ id, rows o !! id = Some y) ∨ y ∈ new ∧ ndID y ≠ ndID x) →
    ndEventID y = ndEventID x → ndChannelID y = ndChannelID x → ndRole x ≠ NotifyRoleFallback ∧ ndRole y ≠ NotifyRoleFallback }.

Lemma rows_inv_fresh used now e o o' new : step_ok used now e → rows_inv used now (rows o) → outbox_ok o →
  evolves o o' new → (∀ x, x ∈ new → fresh_row used e o new x) → rows_inv (used_after used e) (eNow e) (rows o').
Proof.
  intros [Hr Hd Hn Hk Hnd Hf] [R1 R2 R3] Hok [E1 E2 E3] Hnew.
  assert (∀ id row', rows o' !! id = Some row' → (row' ∈ new ∧ ndID row' = id) ∨ ∃ row, rows o !! id = Some row ∧ alike row' row) as Hfrom.
  { intros id row' H. destruct (E1 id row' H) as [?|(_ & row & Hrow & Ha)]; [by left|]. right. exists row. split; [done|]. by apply alike_fold. }
  assert (∀ x, x ∈ used → x ∈ used_after used e) as Hsub by (unfold used_after; set_solver).
  assert (∀ x, x ∈ fresh_ids e → x ∈ used_after used e) as Hsub'.
  { intros x Hx. unfold used_after. apply elem_of_union. right. by apply elem_of_list_to_set. }
  split.
  - intros id row' H. destruct (Hfrom _ _ H) as [[Hx <-]|(row & Hrow & Ha)].
    + destruct (Hnew _ Hx). split_and!; [by apply Hsub'|done|lia].
    + destruct (R1 _ _ Hrow) as (? & ? & ?). rewrite (al_event _ _ Ha), (al_created _ _ Ha). split_and!; auto. lia.
  - intros id row' H. destruct (Hfrom _ _ H) as [[Hx <-]|(row & Hrow & Ha)].
    + destruct (Hnew _ Hx) as [_ _ _ Hl Hp _]. split; [lia|]. intros Hs. rewrite (Hp Hs). cbn. lia.
    + rewrite (al_attempts _ _ Ha), (al_settled _ _ Ha). by apply R2 with id.
  - intros id1 id2 a b Ha Hb Hne Hev Hch.
    destruct (Hfrom _ _ Ha) as [[Hax Ha1]|(a0 & Ha0 & La)], (Hfrom _ _ Hb) as [[Hbx Hb1]|(b0 & Hb0 & Lb)].
    + destruct (Hnew _ Hax) as [_ _ _ _ _ Ho]. apply (Ho b); [|done..]. right. split; [done|]. congruence.
    + destruct (Hnew _ Hax) as [_ _ _ _ _ Ho]. rewrite (al_event _ _ Lb) in Hev. rewrite (al_channel _ _ Lb) in Hch.
      apply (Ho b0); eauto.
    + destruct (Hnew _ Hbx) as [_ _ _ _ _ Ho]. rewrite (al_event _ _ La) in Hev. rewrite (al_channel _ _ La) in Hch.
      rewrite (al_role _ _ La). apply (Ho a0); eauto.
    + rewrite (al_event _ _ La), (al_event _ _ Lb) in Hev. rewrite (al_channel _ _ La), (al_channel _ _ Lb) in Hch.
      rewrite (al_role _ _ La). by apply (R3 id1 id2 a0 b0).
Qed.

Definition neutral (l : logged) : bool := match l with LSend _ _ | LSettled _ _ => false | _ => true end.

Lemma sends_app id l log : sends id (l ++ log) = (sends id l + sends id log)%nat.
Proof. unfold sends. by rewrite List.filter_app, length_app. Qed.
Lemma sends_neutral id l : forallb neutral l = true → sends id l = 0%nat.
Proof.
  induction l as [|x l IH]; [done|]. cbn. intros [Hx Hl]%andb_true_iff. unfold sends in *. cbn.
  destruct x; try done; by apply IH.
Qed.
Lemma settled_neutral id oc l log : forallb neutral l = true → LSettled id oc ∈ l ++ log → LSettled id oc ∈ log.
Proof.
  intros Hl [Hx|Hx]%elem_of_app; [|done]. rewrite forallb_elem_of in Hl. by specialize (Hl _ Hx).
Qed.
Lemma quiet_neutral l log : forallb neutral l = true → quiet_after log → quiet_after (l ++ log).
Proof.
  induction l as [|x l IH]; [done|]. cbn. intros [Hx Hl]%andb_true_iff Hq. specialize (IH Hl Hq). by destruct x.
Qed.

Lemma used_mono used e x : x ∈ used → x ∈ used_after used e.
Proof. unfold used_after. set_solver. Qed.
Lemma followup_mono used e f : followup_ok used f → followup_ok (used_after used e) f.
Proof. destruct f; cbn; try done; apply used_mono. Qed.

(** New rows, everything in flight as it was. *)
Lemma inv_fresh used now e s st' new notes : step_ok used now e → inv used now s →
  loaded st' = true → outbox_ok (outbox st') → evolves (outbox (svStore s)) (outbox st') new →
  (∀ x, x ∈ new → fresh_row used e (outbox (svStore s)) new x) → forallb neutral notes = true →
  inv (used_after used e) (eNow e) (note notes (with_store st' s)).
Proof.
  intros Hso [I1 I2 I3 I4 I5 I6 I7 I8 I9 I10 I11] Hl Hok Hev Hnew Hnote.
  pose proof Hev as [E1 E2 E3].
  assert (∀ id, id ∈ used → id ∉ map ndID new) as Hold.
  { intros id Hid (x & -> & Hx)%list_elem_of_fmap. destruct (Hnew x Hx) as [Hf _ _ _ _ _].
    by apply (so_fresh _ _ _ Hso) in Hf as [Hf _]. }
  assert (∀ id row', id ∈ used → rows (outbox st') !! id = Some row' →
    ∃ row, rows (outbox (svStore s)) !! id = Some row ∧ alike row' row) as Hfrom.
  { intros id row' Hid H. destruct (E1 id row' H) as [[Hx <-]|(_ & row & Hrow & Ha)].
    - exfalso. apply (Hold _ Hid). by apply list_elem_of_fmap_2.
    - exists row. split; [done|]. by apply alike_fold. }
  split; cbn [note with_store svStore svInflight svLog].
  - done.
  - done.
  - by apply (rows_inv_fresh used now e (outbox (svStore s)) _ new).
  - intros id ph Hid. by eapply used_mono, I4.
  - intros id fs f Hid Hin. by eapply followup_mono, I5.
  - intros id ph Hid Ha. destruct (I6 id ph Hid Ha) as (row & Hrow & Hs). exists row. split; [|done].
    apply E2; [done..|]. by eapply Hold, I4.
  - intros id row c Hid. destruct (I6 id _ Hid eq_refl) as (row0 & Hrow0 & Hs).
    pose proof (I7 id row c Hid) as Hrow. assert (row0 = row) as -> by congruence. apply E2; [done..|]. by eapply Hold, I4.
  - intros id. rewrite sends_app, (sends_neutral _ _ Hnote). destruct (I8 id) as (H1 & H2 & H3). split; [done|]. split.
    + intros Hu. apply H2. intros Hx. apply Hu. by apply used_mono.
    + intros row' Hrow' Hs. destruct (decide (id ∈ used)) as [Hu|Hu].
      * destruct (Hfrom id row' Hu Hrow') as (row & Hrow & Ha). rewrite (al_attempts _ _ Ha). apply H3; [done|].
        by rewrite <- (al_settled _ _ Ha).
      * rewrite (H2 Hu). cbn. lia.
  - intros id oc Hin%settled_neutral; [|done]. destruct (I9 id oc Hin) as [Hu Hrow]. split; [by apply used_mono|].
    intros row' H'. destruct (Hfrom id row' Hu H') as (row & Hr & Ha). rewrite (al_settled _ _ Ha). by apply Hrow.
  - by apply quiet_neutral.
  - intros id ph row Hid Ha Hrow Hh id' x Hx Hs Hhx Hkey.
    destruct (Hfrom id row (I4 _ _ Hid) Hrow) as (row0 & Hrow0 & La).
    rewrite (al_created _ _ La). rewrite (al_held _ _ La) in Hh. rewrite (al_key _ _ La) in Hkey.
    destruct (E1 id' x Hx) as [[Hn <-]|(_ & x0 & Hx0 & Lx%alike_fold)].
    + rewrite (fr_created _ _ _ _ _ (Hnew x Hn)). pose proof (so_now _ _ _ Hso).
      destruct (ri_used _ _ _ I3 _ _ Hrow0) as (_ & _ & ?). lia.
    + rewrite (al_created _ _ Lx). rewrite (al_settled _ _ Lx) in Hs. rewrite (al_held _ _ Lx) in Hhx.
      rewrite (al_key _ _ Lx) in Hkey. by apply (I11 id ph row0 Hid Ha Hrow0 Hh id' x0).
Qed.

(** The owner of a delivery in flight rewrites its row. *)
Record rewrites (ph : phase) (row x : NotifyDelivery) : Prop := {
  rw_id : ndID x = ndID row; rw_event : ndEventID x = ndEventID row; rw_channel : ndChannelID x = ndChannelID row;
  rw_role : ndRole x = ndRole row; rw_created : ndCreatedAt x = ndCreatedAt row; rw_held : held x = held row;
  rw_key : held_key x = held_key row;
  rw_attempts : (length (ndAttempts x) <= 4)%nat ∧ (Settled x = false → (length (ndAttempts x) <= 3)%nat);
  rw_counted : (length (ndAttempts row) + is_sending (Some ph) <= length (ndAttempts x))%nat }.

Lemma lookup_set_phase id ph s id' : svInflight (set_phase id ph s) !! id' =
  if id' =?? id then match ph with Todo [] => None | _ => Some ph end else svInflight s !! id'.
Proof.
  unfold set_phase. cbn [svInflight]. destruct (bool_decide_reflect (id' = id)) as [->|Hne].
  - destruct ph as [| |[|f fs]]; by rewrite ?lookup_insert_eq, ?lookup_delete_eq.
  - destruct ph as [| |[|f fs]]; by rewrite ?lookup_insert_ne, ?lookup_delete_ne.
Qed.

Lemma lookup_todo id fs s id' ph : svInflight (set_phase id (Todo fs) s) !! id' = Some ph →
  (id' = id ∧ ph = Todo fs) ∨ (id' ≠ id ∧ svInflight s !! id' = Some ph).
Proof.
  rewrite lookup_set_phase. destruct (bool_decide_reflect (id' = id)) as [->|Hne]; [|by right].
  left. destruct fs; split; congruence.
Qed.
Lemma sending_todo id fs s id' : id' ≠ id → svInflight (set_phase id (Todo fs) s) !! id' = svInflight s !! id'.
Proof. intros Hne. rewrite lookup_set_phase. by rewrite bool_decide_eq_false_2. Qed.

(** One row was rewritten; the others are the same, or the fold of a repeat. *)
Record owned (o o' : notifyOutbox) (id : string) (x : NotifyDelivery) : Prop := {
  ow_row : rows o' !! id = Some x;
  ow_from : ∀ id' row', id' ≠ id → rows o' !! id' = Some row' → ∃ row, rows o !! id' = Some row ∧ alike row' row;
  ow_kept : ∀ id' row, id' ≠ id → rows o !! id' = Some row → Settled row = false → rows o' !! id' = Some row }.
Lemma evolves_owned o o' x : evolves o o' [x] → owned o o' (ndID x) x.
Proof.
  intros [E1 E2 E3]. split.
  - apply E3. by left.
  - intros id' row' Hne H. destruct (E1 id' row' H) as [[[->|Hn]%elem_of_cons He]|(_ & row0 & H0 & Ha)].
    + congruence.
    + by apply not_elem_of_nil in Hn.
    + exists row0. split; [done|]. by apply alike_fold.
  - intros id' row0 Hne H0 Hs. apply E2; [done..|]. cbn. by rewrite list_elem_of_singleton.
Qed.
Lemma rows_inv_own used now e ph row x o o' id : step_ok used now e → rows_inv used now (rows o) → rows o !! id = Some row →
  rewrites ph row x → owned o o' id x → rows_inv (used_after used e) (eNow e) (rows o').
Proof.
  intros Hso [R1 R2 R3] Hrow [W1 W2 W3 W4 W5 W6 W7 W8 W9] [Hx Hfrom _]. pose proof (so_now _ _ _ Hso) as Hnow. split.
  - intros id' row' H. destruct (decide (id' = id)) as [->|Hne].
    + assert (row' = x) as -> by congruence. destruct (R1 _ _ Hrow) as (? & ? & ?). rewrite W2, W5.
      split_and!; [by apply used_mono..|lia].
    + destruct (Hfrom _ _ Hne H) as (row0 & H0 & La). destruct (R1 _ _ H0) as (? & ? & ?).
      rewrite (al_event _ _ La), (al_created _ _ La). split_and!; [by apply used_mono..|lia].
  - intros id' row' H. destruct (decide (id' = id)) as [->|Hne]; [by assert (row' = x) as -> by congruence|].
    destruct (Hfrom _ _ Hne H) as (row0 & H0 & La). rewrite (al_attempts _ _ La), (al_settled _ _ La). by apply R2 with id'.
  - assert (∀ id' row', rows o' !! id' = Some row' → ∃ row0, rows o !! id' = Some row0 ∧
      ndEventID row' = ndEventID row0 ∧ ndChannelID row' = ndChannelID row0 ∧ ndRole row' = ndRole row0) as Hsame.
    { intros id' row' H. destruct (decide (id' = id)) as [->|Hne].
      - assert (row' = x) as -> by congruence. eauto.
      - destruct (Hfrom _ _ Hne H) as (row0 & H0 & La). exists row0. split; [done|]. by destruct La. }
    intros id1 id2 a b Ha Hb Hne He Hc.
    destruct (Hsame _ _ Ha) as (a0 & Ha0 & A1 & A2 & A3), (Hsame _ _ Hb) as (b0 & Hb0 & B1 & B2 & _).
    rewrite A3. apply (R3 id1 id2 a0 b0); congruence.
Qed.
(** No held message of its rule and channel is older than one in flight. *)
Lemma turn_own used now s id ph row x o' : inv used now s → rows (outbox (svStore s)) !! id = Some row → Settled row = false →
  rewrites ph row x → owned (outbox (svStore s)) o' id x →
  ∀ id' ph' row', id' ≠ id → svInflight s !! id' = Some ph' → active ph' = true → rows o' !! id' = Some row' → held row' = true →
  ∀ id2 y, rows o' !! id2 = Some y → Settled y = false → held y = true → held_key y = held_key row' → ndCreatedAt row' <= ndCreatedAt y.
Proof.
  intros Hi Hrow Hset [W1 W2 W3 W4 W5 W6 W7 W8 W9] [Hx Hfrom _] id' ph' row' Hne H Ha Hrow' Hh id2 y Hy Hsy Hhy Hky.
  pose proof (iv_turn _ _ _ Hi) as I11.
  destruct (Hfrom _ _ Hne Hrow') as (row0 & H0 & La). rewrite (al_created _ _ La). rewrite (al_held _ _ La) in Hh.
  rewrite (al_key _ _ La) in Hky. destruct (decide (id2 = id)) as [->|Hne2].
  - assert (y = x) as -> by congruence. rewrite W5. apply (I11 id' ph' row0 H Ha H0 Hh id row); try done; congruence.
  - destruct (Hfrom _ _ Hne2 Hy) as (y0 & Hy0 & Ly). rewrite (al_created _ _ Ly). rewrite (al_settled _ _ Ly) in Hsy.
    rewrite (al_held _ _ Ly) in Hhy. rewrite (al_key _ _ Ly) in Hky. by apply (I11 id' ph' row0 H Ha H0 Hh id2 y0).
Qed.

Lemma inv_own used now e s id ph row x st' notes fs : step_ok used now e → inv used now s →
  svInflight s !! id = Some ph → active ph = true → rows (outbox (svStore s)) !! id = Some row → Settled row = false →
  rewrites ph row x → loaded st' = true → outbox_ok (outbox st') → evolves (outbox (svStore s)) (outbox st') [x] →
  forallb neutral notes = true → (∀ f, f ∈ fs → followup_ok used f) →
  inv (used_after used e) (eNow e) (set_phase id (Todo fs)
    (note (notes ++ (if Settled x then [LSettled (ndID x) (ndOutcome x)] else [])) (with_store st' s))).
Proof.
  intros Hso Hi Hid Hact Hrow Hset Hrw Hl Hok Hev Hnote Hfs.
  assert (ndID x = id) as W1 by (rewrite (rw_id _ _ _ Hrw); by apply (ob_rows _ (iv_ok _ _ _ Hi))).
  apply evolves_owned in Hev as How. rewrite W1 in How. pose proof How as [Hx Hfrom Hkept].
  destruct Hi as [I1 I2 I3 I4 I5 I6 I7 I8 I9 I10 I11] eqn:Ei. clear Ei.
  set (s' := set_phase id (Todo fs) s).
  assert (∀ id', sends id' (notes ++ (if Settled x then [LSettled (ndID x) (ndOutcome x)] else []) ++ svLog s) = sends id' (svLog s)) as Hsends.
  { intros id'. rewrite !sends_app, (sends_neutral _ _ Hnote). by destruct (Settled x). }
  split; [done|done|by eapply rows_inv_own| | | | | | | |];
    change (svInflight (set_phase id (Todo fs) _)) with (svInflight s'); cbn [set_phase note with_store svStore svLog]; rewrite <- ?app_assoc.
  - intros id' ph' [[-> _]|[_ H]]%lookup_todo; by eapply used_mono, I4.
  - intros id' fs' f [[-> [= ->]]|[_ H]]%lookup_todo Hin; apply followup_mono; [by apply Hfs|by eapply I5].
  - intros id' ph' [[-> ->]|[Hne H]]%lookup_todo Ha; [done|].
    destruct (I6 _ _ H Ha) as (row0 & H0 & Hs0). exists row0. split; [by apply Hkept|done].
  - intros id' row' c [[_ ?]|[Hne H]]%lookup_todo; [done|].
    destruct (I6 _ _ H eq_refl) as (row0 & H0 & Hs0). pose proof (I7 _ _ _ H). apply Hkept; congruence.
  - intros id'. rewrite Hsends. destruct (I8 id') as (H1 & H2 & H3). split; [done|]. split.
    { intros Hu. apply H2. intros Hin. by apply Hu, used_mono. }
    intros row' Hrow' Hs'. destruct (decide (id' = id)) as [->|Hne].
    + assert (row' = x) as -> by congruence. specialize (H3 row Hrow Hset). rewrite Hid in H3.
      pose proof (rw_counted _ _ _ Hrw). lia.
    + destruct (Hfrom _ _ Hne Hrow') as (row0 & H0 & La). rewrite (al_attempts _ _ La). unfold s'. rewrite sending_todo by done.
      apply H3; [done|]. by rewrite <- (al_settled _ _ La).
  - intros id' oc Hin%settled_neutral; [|done].
    assert ((id' = id ∧ Settled x = true) ∨ LSettled id' oc ∈ svLog s) as [[-> Hsx]|Hin'].
    { destruct (Settled x); [|by right]. apply elem_of_app in Hin as [[[= -> ->]|Hn]%elem_of_cons|]; [by left|by apply not_elem_of_nil in Hn|by right]. }
    + split; [by eapply used_mono, I4|]. intros row' H. by assert (row' = x) as -> by congruence.
    + destruct (I9 _ _ Hin') as [Hu Hr]. split; [by apply used_mono|]. intros row' H.
      destruct (decide (id' = id)) as [->|Hne]; [rewrite (Hr row Hrow) in Hset; done|].
      destruct (Hfrom _ _ Hne H) as (row0 & H0 & La). rewrite (al_settled _ _ La). by apply Hr.
  - apply quiet_neutral; [done|]. by destruct (Settled x).
  - intros id' ph' row' [[_ ->]|[Hne H]]%lookup_todo Ha; [done|]. by eapply (turn_own used now s id ph row x); [split|..].
Qed.

Lemma evolves_refl o : evolves o o [].
Proof.
  split.
  - intros id row H. right. split; [apply not_elem_of_nil|eauto].
  - done.
  - intros x Hx. by apply not_elem_of_nil in Hx.
Qed.
Lemma inv_neutral used now e s notes : step_ok used now e → inv used now s → forallb neutral notes = true →
  inv (used_after used e) (eNow e) (note notes s).
Proof.
  intros Hso Hi Hn. destruct s as [st fl lg].
  apply (inv_fresh used now e (mkServer st fl lg) st [] notes Hso Hi); [apply Hi|apply Hi|apply evolves_refl| |done].
  intros x Hx. by apply not_elem_of_nil in Hx.
Qed.
Lemma inv_mono used now e s : step_ok used now e → inv used now s → inv (used_after used e) (eNow e) s.
Proof. intros Hso Hi. destruct s as [st fl lg]. by apply (inv_neutral used now e (mkServer st fl lg) []). Qed.

(** A delivery that is done, or has work left that is not about its row. *)
Lemma inv_todo used now s id fs : inv used now s → id ∈ used → (∀ f, f ∈ fs → followup_ok used f) →
  (∀ ph, svInflight s !! id = Some ph → active ph = false) → inv used now (set_phase id (Todo fs) s).
Proof.
  intros [I1 I2 I3 I4 I5 I6 I7 I8 I9 I10 I11] Hu Hfs Hph.
  assert (∀ id' ph, svInflight (set_phase id (Todo fs) s) !! id' = Some ph → svInflight s !! id' = Some ph ∨
    id' = id ∧ ph = Todo fs) as Hlook.
  { intros id' ph H. rewrite lookup_set_phase in H. destruct (bool_decide_reflect (id' = id)) as [->|]; [|by left].
    right. split; [done|]. by destruct fs; simplify_eq. }
  split; try done.
  - intros id' ph [H|[-> _]]%Hlook; [by eapply I4|done].
  - intros id' fs' f [H|[-> [= ->]]]%Hlook Hin; [by eapply I5|by apply Hfs].
  - intros id' ph [H|[-> ->]]%Hlook Ha; [by eapply I6|done].
  - intros id' row c [H|[-> ?]]%Hlook; [by eapply I7|done].
  - intros id'. destruct (I8 id') as (H1 & H2 & H3). split_and!; [done..|]. intros row Hr Hs. rewrite lookup_set_phase.
    destruct (bool_decide_reflect (id' = id)) as [->|]; [|by apply H3].
    assert (is_sending (svInflight s !! id) = 0%nat) as E.
    { destruct (svInflight s !! id) as [ph|] eqn:E; [|done]. specialize (Hph ph eq_refl). by destruct ph. }
    specialize (H3 row Hr Hs). rewrite E in H3. destruct fs; exact H3.
  - intros id' ph row [H|[-> ->]]%Hlook; [by eapply I11|done].
Qed.

(** The message is handed to its channel. *)
Lemma inv_send used now s id row c : inv used now s → svInflight s !! id = Some Queued →
  rows (outbox (svStore s)) !! id = Some row → Settled row = false →
  inv used now (set_phase id (Sending row c) (note [LSend row c] s)).
Proof.
  intros [I1 I2 I3 I4 I5 I6 I7 I8 I9 I10 I11] Hid Hrow Hs.
  assert (ndID row = id) as Hrid by (by apply (ob_rows _ I2)).
  assert (∀ id' ph, svInflight (set_phase id (Sending row c) (note [LSend row c] s)) !! id' = Some ph →
    (id' ≠ id ∧ svInflight s !! id' = Some ph) ∨ id' = id ∧ ph = Sending row c) as Hlook.
  { intros id' ph H. rewrite lookup_set_phase in H. destruct (bool_decide_reflect (id' = id)) as [->|]; [|by left].
    right. by simplify_eq. }
  split; try done.
  - intros id' ph [[_ H]|[-> _]]%Hlook; by eapply I4.
  - intros id' fs f [[_ H]|[_ ?]]%Hlook; [by eapply I5|done].
  - intros id' ph [[_ H]|[-> ->]]%Hlook Ha; [by eapply I6|eauto].
  - intros id' row' c' [[_ H]|[-> [= -> ->]]]%Hlook; [by eapply I7|done].
  - intros id'. destruct (I8 id') as (H1 & H2 & H3). cbn [set_phase note with_store svStore svInflight svLog app].
    unfold sends. cbn [List.filter is_send]. fold (sends id' (svLog s)). rewrite Hrid.
    destruct (bool_decide_reflect (id = id')) as [<-|Hne].
    + cbn [length]. fold (sends id (svLog s)). specialize (H3 row Hrow Hs). rewrite Hid in H3. cbn in H3.
      destruct (ri_attempts _ _ _ I3 _ _ Hrow) as [_ Ha]. specialize (Ha Hs). split; [lia|]. split.
      * intros Hu. exfalso. apply Hu. by eapply I4.
      * intros row' H' _. assert (row' = row) as -> by congruence. rewrite lookup_insert_eq. cbn. lia.
    + rewrite lookup_insert_ne by done. done.
  - intros id' oc H. cbn [set_phase note with_store svStore svInflight svLog app] in H.
    apply elem_of_cons in H as [?|H]; [done|]. by eapply I9.
  - cbn [set_phase note with_store svStore svInflight svLog app quiet_after]. split; [|done]. rewrite Hrid. intros oc Hin.
    destruct (I9 id oc Hin) as [_ Hr]. rewrite (Hr row Hrow) in Hs. done.
  - intros id' ph row' [[_ H]|[-> ->]]%Hlook Ha; [by eapply I11|]. by apply (I11 id Queued row' Hid).
Qed.

(** ** The drainer *)

(** A delivery the drainer starts: not in flight, due, and, when quiet hours
    held it, the oldest its rule and channel owe. *)
Record startable (now : time) (inflight : gmap string phase) (turn : list string) (rs : list NotifyDelivery) (row : NotifyDelivery) : Prop := {
  st_in : row ∈ rs;
  st_idle : inflight !! ndID row = None;
  st_due : ndNextAttemptAt row <= now;
  st_turn : held row = true → held_key row ∉ turn ∧
    ∀ x, x ∈ rs → held x = true → held_key x = held_key row → row_le row x }.

Lemma drain_go_spec now inflight turn next rs : StronglySorted row_le rs →
  ∀ id, id ∈ (drain_go now inflight turn next rs).1 → ∃ row, ndID row = id ∧ startable now inflight turn rs row.
Proof.
  intros Hs. revert inflight turn next. induction Hs as [|row rs Hs IH Hall]; intros inflight turn next id Hid.
  { by apply not_elem_of_nil in Hid. }
  assert (∀ turn' inflight' row', startable now inflight' turn' rs row' →
    (∀ k, k ∈ turn → k ∈ turn') → (∀ i, inflight' !! i = None → inflight !! i = None) →
    (held row = true → held_key row ∈ turn') → startable now inflight turn (row :: rs) row') as Hlift.
  { intros turn' inflight' row' [S1 S2 S3 S4] Ht Hi Hr. split; [by right|by apply Hi|done|]. intros Hh.
    destruct (S4 Hh) as [N1 N2]. split; [by intros ?%Ht|].
    intros x [->|Hx]%elem_of_cons Hhx Hk; [|by apply N2]. exfalso. apply N1. rewrite <- Hk. by apply Hr. }
  cbn [drain_go] in Hid. fold (held row) in Hid.
  destruct (held row && mem (held_key row) turn) eqn:Eskip.
  { apply andb_true_iff in Eskip as [Eh Em]. apply mem_spec in Em.
    destruct (IH _ _ _ _ Hid) as (row' & <- & Hst). exists row'. split; [done|]. by eapply Hlift. }
  set (turn' := if held row then held_key row :: turn else turn) in *.
  assert (∀ k, k ∈ turn → k ∈ turn') as Hsub by (unfold turn'; destruct (held row); set_solver).
  assert (held row = true → held_key row ∈ turn') as Hin by (unfold turn'; intros ->; by left).
  destruct (inflight !! ndID row) as [ph|] eqn:Ef.
  { destruct (IH _ _ _ _ Hid) as (row' & <- & Hst). exists row'. split; [done|]. by eapply Hlift. }
  unfold after in Hid. destruct (Z.ltb_spec now (ndNextAttemptAt row)).
  { destruct (IH _ _ _ _ Hid) as (row' & <- & Hst). exists row'. split; [done|]. by eapply Hlift. }
  destruct (drain_go now (<[ndID row:=Queued]> inflight) turn' next rs) as [ids nx] eqn:Ed. cbn [fst] in Hid.
  apply elem_of_cons in Hid as [->|Hid].
  - exists row. split; [done|]. split; [by left|done|done|]. intros Hh. split.
    + intros Hm. rewrite Hh in Eskip. cbn in Eskip. by apply mem_false in Eskip.
    + intros x [->|Hx]%elem_of_cons _ _; [by destruct (total row_le row row)|]. rewrite Forall_forall in Hall. by apply Hall.
  - specialize (IH (<[ndID row:=Queued]> inflight) turn' next id). rewrite Ed in IH. destruct (IH Hid) as (row' & <- & Hst).
    exists row'. split; [done|]. eapply Hlift; [exact Hst|done| |done].
    intros i Hi. apply lookup_insert_None in Hi. apply Hi.
Qed.

Lemma lookup_queue_all (ids : list string) (m : gmap string phase) id ph :
  foldl (fun m id => <[id := Queued]> m) m ids !! id = Some ph → m !! id = Some ph ∨ id ∈ ids ∧ ph = Queued.
Proof.
  revert m. induction ids as [|i ids IH]; intros m Hl; [by left|]. cbn in Hl. destruct (IH _ Hl) as [H'|[H' ->]].
  - apply lookup_insert_Some in H' as [[-> <-]|[_ ?]]; [right; split; [by left|done]|by left].
  - right. split; [by right|done].
Qed.
Lemma lookup_queue_other (ids : list string) (m : gmap string phase) id : id ∉ ids →
  foldl (fun m id => <[id := Queued]> m) m ids !! id = m !! id.
Proof.
  revert m. induction ids as [|i ids IH]; intros m Hn; [done|]. apply not_elem_of_cons in Hn as [Hi Hn]. cbn.
  rewrite (IH _ Hn). by rewrite lookup_insert_ne.
Qed.

Lemma inv_drain used now s t : inv used now s → inv used now (drainNotifyOutbox t s).1.
Proof.
  intros [I1 I2 I3 I4 I5 I6 I7 I8 I9 I10 I11]. unfold drainNotifyOutbox.
  set (o := outbox (svStore s)) in *.
  pose proof (drain_go_spec t (svInflight s) [] 0 (UnsettledNotifyDeliveries o)
    ltac:(apply (StronglySorted_merge_sort row_le))) as Hd.
  destruct (drain_go _ _ _ _ _) as [ids nx]. cbn [fst] in *.
  assert (∀ x, x ∈ UnsettledNotifyDeliveries o ↔ rows o !! ndID x = Some x ∧ Settled x = false) as HU.
  { intros x. rewrite (UnsettledNotifyDeliveries_scan o I2), list_elem_of_In, filter_In, <- list_elem_of_In, sorted_rows_spec, negb_true_iff.
    split; intros [Hx ?]; (split; [|done]); [by apply (rows_value_ok o)|eauto]. }
  assert (∀ id, id ∈ ids → ∃ row, rows o !! id = Some row ∧ Settled row = false ∧ svInflight s !! id = None ∧
    (held row = true → ∀ id' x, rows o !! id' = Some x → Settled x = false → held x = true → held_key x = held_key row →
       ndCreatedAt row <= ndCreatedAt x)) as Hids.
  { intros id Hid. destruct (Hd id Hid) as (row & <- & [S1 S2 S3 S4]). apply HU in S1 as [Hrow Hs].
    exists row. split_and!; [done..|]. intros Hh id' x Hx Hsx Hhx Hk. destruct (S4 Hh) as [_ Hle].
    assert (row_le row x) as L.
    { apply Hle; [|done..]. apply HU. split; [|done]. by destruct (ob_rows _ I2 _ _ Hx) as [-> _]. }
    apply row_le_alt in L. lia. }
  assert (∀ id ph, foldl (fun m id => <[id := Queued]> m) (svInflight s) ids !! id = Some ph →
    (id ∉ ids ∧ svInflight s !! id = Some ph) ∨ id ∈ ids ∧ ph = Queued) as Hlook.
  { intros id ph Hl. destruct (decide (id ∈ ids)) as [Hi|Hi].
    - right. split; [done|]. destruct (lookup_queue_all _ _ _ _ Hl) as [Hx|[_ ?]]; [|done].
      destruct (Hids id Hi) as (_ & _ & _ & Hn & _). congruence.
    - left. split; [done|]. by rewrite lookup_queue_other in Hl. }
  split; cbn [svStore svInflight svLog]; try done.
  - intros id ph [[_ Hl]|[Hi ->]]%Hlook; [by eapply I4|]. destruct (Hids id Hi) as (row & Hrow & _). by apply (ri_used _ _ _ I3 _ _ Hrow).
  - intros id fs f [[_ Hl]|[_ ?]]%Hlook; [by eapply I5|done].
  - intros id ph [[_ Hl]|[Hi ->]]%Hlook Ha; [by eapply I6|]. destruct (Hids id Hi) as (row & ? & ? & _). eauto.
  - intros id row c [[_ Hl]|[_ ?]]%Hlook; [by eapply I7|done].
  - intros id. destruct (I8 id) as (H1 & H2 & H3). split_and!; [done..|]. intros row Hr Hs.
    destruct (decide (id ∈ ids)) as [Hi|Hi]; [|rewrite lookup_queue_other by done; by apply H3].
    destruct (Hids id Hi) as (_ & _ & _ & Hn & _). specialize (H3 row Hr Hs). rewrite Hn in H3. cbn in H3. lia.
  - intros id ph row [[_ Hl]|[Hi ->]]%Hlook Ha Hrow Hh; [by eapply I11|].
    destruct (Hids id Hi) as (row0 & Hrow0 & _ & _ & Ht). fold o in Hrow. assert (row0 = row) as -> by congruence. by apply Ht.
Qed.

(** ** Every step *)

Section steps.
Context `{IncidentText} (lower quote : string → string).

Lemma settle_rewrites ph row outcome reason at_ : negb (outcome =?? NotifyOutcomePlanned) = true →
  (length (ndAttempts row) <= 3)%nat → is_sending (Some ph) = 0%nat →
  rewrites ph row (clampNotifyDelivery (settle outcome reason at_ row)) ∧
  Settled (clampNotifyDelivery (settle outcome reason at_ row)) = true.
Proof.
  intros Ho Hl Hp. destruct (alike_clamp (settle outcome reason at_ row)) as [A1 A2 A3 A4 A5 A6 A7 A8].
  assert (Settled (settle outcome reason at_ row) = true) as Hs by exact Ho.
  split; [|congruence]. split; try done.
  - apply (clamp_fields (settle outcome reason at_ row)).
  - rewrite A5. cbn. split; [lia|]. congruence.
  - rewrite A5, Hp. cbn. lia.
Qed.

Lemma clamp_settled d : Settled (clampNotifyDelivery d) = Settled d.
Proof. apply alike_clamp. Qed.

(** Writing the row one owns, then going on with [fs]. *)
Lemma inv_put used now e s id ph row x h notes fs : step_ok used now e → inv used now s →
  svInflight s !! id = Some ph → active ph = true → rows (outbox (svStore s)) !! id = Some row → Settled row = false →
  rewrites ph row (clampNotifyDelivery x) → forallb neutral notes = true → (∀ f, f ∈ fs → followup_ok used f) →
  inv (used_after used e) (eNow e) (set_phase id (Todo fs) (note notes (put_row_step e x h s))).
Proof.
  intros Hso Hi Hid Ha Hrow Hs Hrw Hn Hfs.
  assert (row_ok x = true) as Hx.
  { rewrite <- clamp_row_ok. destruct (ob_rows _ (iv_ok _ _ _ Hi) _ _ Hrow) as [_ Hr].
    unfold row_ok in *. by rewrite (rw_id _ _ _ Hrw), (rw_created _ _ _ Hrw). }
  destruct (put_written (eRange e) (eDisk e) x h (svStore s) (so_range _ _ _ Hso) (so_disk _ _ _ Hso)
    (iv_loaded _ _ _ Hi) (iv_ok _ _ _ Hi) Hx) as [[W1 W2 W3 W4] _].
  pose proof (inv_own used now e s id ph row _ _ notes fs Hso Hi Hid Ha Hrow Hs Hrw W2 W3 W4 Hn Hfs) as Hinv.
  unfold put_row_step. unfold settled_note. rewrite W1.
  rewrite clamp_settled, (proj1 (clamp_fields x)), (proj1 (proj2 (proj2 (clamp_fields x)))) in Hinv.
  unfold note, with_store, set_phase in *. cbn [svStore svInflight svLog] in *. rewrite <- app_assoc in Hinv. exact Hinv.
Qed.

Lemma inv_start used now e id s : step_ok used now e → inv used now s → inv (used_after used e) (eNow e) (start_attempt lower e id s).
Proof.
  intros Hso Hi. unfold start_attempt. destruct (svInflight s !! id) as [[| |]|] eqn:Hid; try by apply (inv_mono used now).
  destruct (iv_queued _ _ _ Hi _ _ Hid eq_refl) as (row & Hrow & Hs). unfold get_delivery. rewrite Hrow, Hs. cbv zeta.
  destruct (ri_attempts _ _ _ (iv_rows _ _ _ Hi) _ _ Hrow) as [_ Hat]. specialize (Hat Hs).
  destruct (ri_used _ _ _ (iv_rows _ _ _ Hi) _ _ Hrow) as (_ & Hev & _).
  destruct (negb (heldIncidentWithdrawal _ _ _ _ _ =?? "")).
  { destruct (settle_rewrites Queued row NotifyOutcomeSuppressed
      (heldIncidentWithdrawal lower (eBook e) (eNow e) (outbox (svStore s)) row) (eNow e)) as [Hrw _]; [done..|].
    unfold done_with. eapply (inv_put used now e s id Queued row _ None [] []); try done.
    intros f Hf. by apply not_elem_of_nil in Hf. }
  destruct (notifyChannelByID _ _) as [c|].
  2: { destruct (settle_rewrites Queued row NotifyOutcomeFailed "channel deleted before delivery" (eNow e)) as [Hrw _]; [done..|].
    apply (inv_put used now e s id Queued row _ None []); try done.
    intros f [->|[->|Hf]%elem_of_cons]%elem_of_cons; try done. by apply not_elem_of_nil in Hf. }
  destruct (negb (ncEnabled c)).
  { destruct (settle_rewrites Queued row NotifyOutcomeFailed "channel disabled before delivery" (eNow e)) as [Hrw _]; [done..|].
    apply (inv_put used now e s id Queued row _ None []); try done.
    intros f [->|[->|[->|Hf]%elem_of_cons]%elem_of_cons]%elem_of_cons; try done. by apply not_elem_of_nil in Hf. }
  apply (inv_mono used now); [done|]. by apply inv_send.
Qed.

Lemma attempted_rewrites err a row c : Settled row = false → (length (ndAttempts row) <= 3)%nat →
  rewrites (Sending row c) row (clampNotifyDelivery (attempted err a row)).
Proof.
  intros Hs Hl. destruct (alike_clamp (attempted err a row)) as [A1 A2 A3 A4 A5 A6 A7 A8].
  assert (ndAttempts (attempted err a row) = ndAttempts row ++ [a]) as Ea.
  { unfold attempted. destruct (redactSendError err) as [[k st] tr]. destruct err; [|done]. by destruct (tr && _). }
  assert (alike (with_ndAttempts (ndAttempts row) (with_ndOutcome (ndOutcome row) (attempted err a row))) row ∧
    ndID (attempted err a row) = ndID row) as [[B1 B2 B3 B4 B5 B6 B7 B8] Bid].
  { unfold attempted. destruct (redactSendError err) as [[k st] tr]. destruct err; [destruct (tr && _)|]; (split; [by split|done]). }
  split.
  - rewrite (proj1 (clamp_fields _)). exact Bid.
  - rewrite A1. exact B1.
  - rewrite A2. exact B2.
  - rewrite A3. exact B3.
  - rewrite A4. exact B4.
  - rewrite A7. exact B7.
  - rewrite A8. exact B8.
  - rewrite A5, A6, Ea, length_app. cbn [length]. split; [lia|]. intros Hu. unfold attempted in Hu.
    destruct (redactSendError err) as [[k st] tr]. destruct err; [|done].
    destruct (tr && (length (ndAttempts (with_ndAttempts (ndAttempts row ++ [a]) row)) <=? length notifyRetryDelays)%nat) eqn:E; [|done].
    apply andb_true_iff in E as [_ E]. apply Nat.leb_le in E. cbn in E. rewrite length_app in E. cbn in E. lia.
  - rewrite A5, Ea, length_app. cbn. lia.
Qed.

Lemma inv_record used now e id err at_ ms s : step_ok used now e → inv used now s →
  inv (used_after used e) (eNow e) (record_attempt e id err at_ ms s).
Proof.
  intros Hso Hi. unfold record_attempt. destruct (svInflight s !! id) as [[|row c|]|] eqn:Hid; try by apply (inv_mono used now).
  pose proof (iv_sending _ _ _ Hi _ _ _ Hid) as Hrow.
  destruct (iv_queued _ _ _ Hi _ _ Hid eq_refl) as (row0 & Hrow0 & Hs). assert (row0 = row) as -> by congruence.
  destruct (ri_attempts _ _ _ (iv_rows _ _ _ Hi) _ _ Hrow) as [_ Hat]. specialize (Hat Hs).
  destruct (ri_used _ _ _ (iv_rows _ _ _ Hi) _ _ Hrow) as (_ & Hev & _).
  pose proof (attempted_rewrites err (attempt_of at_ ms err) row c Hs Hat) as Hrw.
  unfold receipt. cbv zeta. destruct (notifyHealthTransition _ _ _) as [[h announce] recovered].
  eapply (inv_put used now e s id (Sending row c) row); try done.
  - by destruct announce, recovered.
  - assert (ndEventID (attempted err (attempt_of at_ ms err) row) ∈ used) as Hev'.
    { destruct (clamp_fields (attempted err (attempt_of at_ ms err) row)) as (_ & _ & _ & <-).
      by rewrite (rw_event _ _ _ Hrw). }
    intros f Hf. rewrite !elem_of_app in Hf. destruct Hf as [Hf|[Hf|[Hf|Hf]]].
    + destruct announce; [|by apply not_elem_of_nil in Hf]. apply list_elem_of_singleton in Hf as ->. done.
    + destruct recovered; [|by apply not_elem_of_nil in Hf]. apply list_elem_of_singleton in Hf as ->. done.
    + destruct err; [apply list_elem_of_singleton in Hf as ->; done|by apply not_elem_of_nil in Hf].
    + destruct (Settled (attempted err (attempt_of at_ ms err) row)); [|by apply not_elem_of_nil in Hf].
      apply elem_of_cons in Hf as [->|Hf]; [done|]. apply list_elem_of_singleton in Hf as ->. done.
Qed.

Lemma fresh_row_ok used now e x : step_ok used now e → ndID x ∈ fresh_ids e → ndCreatedAt x = eNow e → row_ok x = true.
Proof.
  intros Hso Hid Hc. unfold row_ok. rewrite Hc, (so_key _ _ _ Hso). destruct (so_fresh _ _ _ Hso _ Hid) as [_ Hs].
  unfold slash_free in Hs. by rewrite Hs.
Qed.
Lemma event_fresh used now e s : step_ok used now e → inv used now s →
  ∀ y, (∃ id, rows (outbox (svStore s)) !! id = Some y) → ndEventID y ≠ eEventID e.
Proof.
  intros Hso Hi y [id Hy] E. destruct (ri_used _ _ _ (iv_rows _ _ _ Hi) _ _ Hy) as (_ & Hu & _). rewrite E in Hu.
  apply (so_fresh _ _ _ Hso) in Hu; [done|]. by left.
Qed.
Lemma event_used used e : eEventID e ∈ used_after used e.
Proof. unfold used_after. apply elem_of_union_r, elem_of_list_to_set. by left. Qed.

Lemma plan_rows_in plan ids x : x ∈ plan_rows plan ids → ∃ id t, id ∈ ids ∧ x = target_row plan id t.
Proof.
  unfold plan_rows. intros (i & t & j & Hx & Hi & Ht)%elem_of_lookup_zip_with. exists t, j. split; [|done].
  by eapply list_elem_of_lookup_2.
Qed.
Lemma plan_rows_ids plan ids : map ndID (plan_rows plan ids) `sublist_of` ids.
Proof.
  unfold plan_rows. generalize (plTargets plan). induction ids as [|id ids IH]; intros ts; [constructor|].
  destruct ts as [|t ts]; cbn; [apply sublist_nil_l|]. apply sublist_skip, IH.
Qed.

Lemma unsent_row_alike row : alike (unsent_row row) row.
Proof. unfold unsent_row. pose proof (alike_clamp row) as [? ? ? ? ? ? ? ?]. destruct (is_zero _); by split. Qed.
(** The row of an event nobody is told about, and the rows of one that has
    targets, are new to the outbox and to every fallback. *)
Lemma unrouted_fresh used now e s row : step_ok used now e → inv used now s → ndID row ∈ fresh_ids e → ndEventID row = eEventID e →
  ndCreatedAt row = eNow e → ndAttempts row = [] →
  ∀ x, x ∈ [unsent_row row] → fresh_row used e (outbox (svStore s)) [unsent_row row] x.
Proof.
  intros Hso Hi Hid He Hc Hat x Hx. apply list_elem_of_singleton in Hx as ->.
  pose proof (unsent_row_alike row) as [L1 L2 L3 L4 L5 L6 L7 L8].
  assert (ndID (unsent_row row) = ndID row) as Ei by apply unsent_row_fields. split.
  - by rewrite Ei.
  - rewrite L1, He. apply event_used.
  - by rewrite L4.
  - rewrite L5, Hat. cbn. lia.
  - by rewrite L5.
  - intros y [Hy|[Hy Hne]] Hye _; [|apply list_elem_of_singleton in Hy; congruence].
    rewrite L1, He in Hye. by destruct (event_fresh used now e s Hso Hi y Hy).
Qed.
Record primary_of (e : env) (x : NotifyDelivery) : Prop := {
  po_id : ndID x ∈ fresh_ids e; po_created : ndCreatedAt x = eNow e; po_event : ndEventID x = eEventID e;
  po_role : ndRole x = NotifyRolePrimary; po_attempts : ndAttempts x = [] }.
Lemma plan_rows_primary e plan x : plEventID plan = eEventID e → plAt plan = eNow e → x ∈ plan_rows plan (eNewIDs e) → primary_of e x.
Proof.
  intros Hpe Hpa (id & t' & Hin & ->)%plan_rows_in. split; cbn; rewrite ?Hpe, ?Hpa; try done. unfold fresh_ids. by do 2 right.
Qed.
Lemma planned_fresh used now e s rs : step_ok used now e → inv used now s → (∀ x, x ∈ rs → primary_of e x) →
  ∀ c, c ∈ clampNotifyDeliveries rs → fresh_row used e (outbox (svStore s)) (clampNotifyDeliveries rs) c.
Proof.
  intros Hso Hi Hrows c (x & -> & Hx)%list_elem_of_fmap. destruct (Hrows x Hx) as [Hid Hc He Hro Hat].
  destruct (alike_clamp x) as [L1 L2 L3 L4 L5 L6 L7 L8]. split.
  - by rewrite (proj1 (clamp_fields x)).
  - rewrite L1, He. apply event_used.
  - by rewrite L4.
  - rewrite L5, Hat. cbn. lia.
  - by rewrite L5.
  - intros y Hy Hye _. rewrite L1, He in Hye. rewrite L3, Hro. split; [done|].
    destruct Hy as [Hy|[(z & -> & Hz)%list_elem_of_fmap _]]; [by destruct (event_fresh used now e s Hso Hi y Hy)|].
    rewrite (al_role _ _ (alike_clamp z)). by rewrite (po_role _ _ (Hrows z Hz)).
Qed.

Lemma inv_enqueue used now e ev s : step_ok used now e → inv used now s → inv (used_after used e) (eNow e) (enqueue e ev s).
Proof.
  intros Hso Hi. unfold enqueue. destruct ev as [[[eventType title] body] how].
  set (plan := planNotifyEvent _ _ _ _ _ _ _).
  assert (plEventID plan = eEventID e ∧ plAt plan = eNow e) as [Hpe Hpa].
  { unfold plan, planNotifyEvent. by destruct (ClampNotifyText title body) as [[? ?] ?]. }
  pose proof (so_nodup _ _ _ Hso) as Hnd. unfold fresh_ids in Hnd.
  apply NoDup_cons in Hnd as [_ Hnd]. apply NoDup_cons in Hnd as [_ Hnd].
  pose proof (so_range _ _ _ Hso) as Hr. pose proof (so_disk _ _ _ Hso) as Hd.
  pose proof (iv_loaded _ _ _ Hi) as Hl. pose proof (iv_ok _ _ _ Hi) as Hok.
  unfold commitNotifyPlan. destruct (plTargets plan) as [|t ts] eqn:Et.
  - set (row := with_ndOutcome NotifyOutcomeNoRoute (no_route_row (eNewID e) plan)).
    assert (ndID row ∈ fresh_ids e) as Hid by (unfold fresh_ids; right; left).
    assert (row_ok row = true) as Hrok by (by apply (fresh_row_ok used now e)).
    unfold RecordNotifyNoRoute. fold row.
    destruct (unsent_written (eRange e) (eDisk e) row (svStore s) Hr Hd Hl Hok Hrok) as [[[_ W2 W3 W4]|[_ W2 W3 W4]] _].
    + apply (inv_fresh used now e s _ [] []); try done. intros x Hx. by apply not_elem_of_nil in Hx.
    + apply (inv_fresh used now e s _ [unsent_row row] []); try done. by apply (unrouted_fresh used now).
  - assert (∀ x, x ∈ plan_rows plan (eNewIDs e) → primary_of e x) as Hrows by (intros x; by apply plan_rows_primary).
    destruct (plan_rows plan (eNewIDs e)) as [|x0 xs] eqn:Ep.
    { cbn [RecordNotifyDeliveries fst snd]. destruct s as [st fl lg]. apply (inv_neutral used now e (mkServer st fl lg) []); done. }
    rewrite <- Ep in *.
    assert (NoDup (map ndID (plan_rows plan (eNewIDs e)))) as Hndr by (eapply sublist_NoDup; [done|apply plan_rows_ids]).
    destruct (record_written (eRange e) (eDisk e) (plan_rows plan (eNewIDs e)) (svStore s) Hr Hd Hl Hok) as [[W1 W2 W3 W4] _];
      [by rewrite Ep|done| |].
    { intros x Hx. destruct (Hrows x Hx) as [Hid Hc _]. by apply (fresh_row_ok used now e). }
    destruct (RecordNotifyDeliveries _ _ _ _) as [st err]. cbn [fst snd] in *. subst err.
    apply (inv_fresh used now e s _ (clampNotifyDeliveries (plan_rows plan (eNewIDs e))) []); try done.
    by apply (planned_fresh used now).
Qed.

(** The siblings a fallback looks at include every row of its event. *)
Hypothesis lower_nil : lower "" = "".
Lemma event_rows_elem o y : outbox_ok o → (∃ id, rows o !! id = Some y) → y ∈ event_rows lower o (ndEventID y).
Proof.
  intros Hok Hy. unfold event_rows. rewrite (NotifyDeliveries_rows lower _ o Hok). unfold take_limit. cbn [fLimit].
  change (0 <? 0) with false. cbv iota. rewrite list_elem_of_In, filter_In, <- list_elem_of_In, elem_of_reverse, sorted_rows_spec.
  split; [done|]. unfold filter_passes, unless_empty. cbn [fOutcome fChannelID fEventType fEventID fSource fSourceID fQuery].
  replace (trim_space "") with "" by reflexivity. rewrite lower_nil. go_bool. split_and!; try done; try (by left). by right.
Qed.
Lemma no_sibling o eventID fb : outbox_ok o → existsb (fun sib => ndChannelID sib =?? fb) (event_rows lower o eventID) = false →
  ∀ y, (∃ id, rows o !! id = Some y) → ndEventID y = eventID → ndChannelID y ≠ fb.
Proof.
  intros Hok He y Hy <- <-. apply not_true_iff_false in He. apply He, existsb_elem_of. exists y.
  split; [by apply event_rows_elem|]. by apply bool_decide_eq_true.
Qed.

(** A fallback row: fresh, of a known event, on a channel the event has not
    reached. *)
Lemma fallback_fresh used now e s x : step_ok used now e → inv used now s → ndID x = eNewID e → ndEventID x ∈ used →
  ndCreatedAt x = eNow e → ndAttempts x = [] →
  (∀ y, (∃ id, rows (outbox (svStore s)) !! id = Some y) → ndEventID y = ndEventID x → ndChannelID y ≠ ndChannelID x) →
  row_ok x = true ∧ fresh_row used e (outbox (svStore s)) [clampNotifyDelivery x] (clampNotifyDelivery x).
Proof.
  intros Hso Hi Hid Hev Hc Ha Hsib. assert (ndID x ∈ fresh_ids e) as Hf by (rewrite Hid; unfold fresh_ids; right; left).
  split; [by apply (fresh_row_ok used now e)|]. destruct (alike_clamp x) as [L1 L2 L3 L4 L5 L6 L7 L8]. split.
  - by rewrite (proj1 (clamp_fields x)).
  - rewrite L1. by apply used_mono.
  - by rewrite L4.
  - rewrite L5, Ha. cbn. lia.
  - by rewrite L5.
  - intros y [Hy|[Hy Hne]] He Hch; [|apply list_elem_of_singleton in Hy; congruence].
    rewrite L1 in He. rewrite L2 in Hch. by destruct (Hsib y Hy He).
Qed.

Lemma channel_fallback_row cf now newID row c o next h :
  planNotifyChannelFallback lower cf now newID row c o = Some (next, h) → outbox_ok o →
  ndID next = newID ∧ ndEventID next = ndEventID row ∧ ndCreatedAt next = now ∧ ndAttempts next = [] ∧
  (∀ y, (∃ id, rows o !! id = Some y) → ndEventID y = ndEventID next → ndChannelID y ≠ ndChannelID next) ∧
  hChannelID h = ncID c ∧ hAnnounced h = hAnnounced (health_of o (ncID c)) ∧
  hAnnouncedAt h = hAnnouncedAt (health_of o (ncID c)).
Proof.
  unfold planNotifyChannelFallback. intros Hp Hok. destruct (_ || _); [done|]. cbv zeta in Hp.
  set (fb := default "" (cfChannelFallback cf !! ncID c)) in *.
  destruct ((fb =?? "") || _); [done|].
  destruct (notifyChannelByID cf fb) as [f|] eqn:Ef; [|done]. destruct (negb (ncEnabled f)); [done|].
  destruct (existsb _ _) eqn:Ex; [done|]. destruct (notifyChannelFallbackBody _ _ _) as [body cut].
  injection Hp as <- <-. cbn [ndID ndEventID ndCreatedAt ndAttempts ndChannelID hChannelID hAnnounced hAnnouncedAt].
  split_and!; try done. intros y Hy He. unfold notifyChannelByID in Ef. apply find_some in Ef as [_ Ef]. apply bool_decide_eq_true in Ef. rewrite Ef.
  by apply (no_sibling o (ndEventID row)).
Qed.
Lemma rule_fallback_row cf now newID row o next :
  planNotifyFallback lower cf now newID row o = Some next → outbox_ok o →
  ndID next = newID ∧ ndEventID next = ndEventID row ∧ ndCreatedAt next = now ∧ ndAttempts next = [] ∧
  (∀ y, (∃ id, rows o !! id = Some y) → ndEventID y = ndEventID next → ndChannelID y ≠ ndChannelID next).
Proof.
  unfold planNotifyFallback. intros Hp Hok. destruct (_ || _); [done|]. cbv zeta in Hp.
  destruct (fallback_of_rule cf (ndRuleID row) =?? ""); [done|].
  destruct (failed_primaries _ _ _ _) as [[bark failed]|]; [|done].
  destruct (existsb _ _) eqn:Ex; [done|]. destruct (notifyFallbackBody _ _) as [body cut].
  destruct (match notifyChannelByID _ _ with Some c => _ | None => _ end) as [cname ckind].
  injection Hp as <-. cbn. split_and!; try done. intros y Hy He. by apply (no_sibling o (ndEventID row)).
Qed.

Lemma inv_follow used now e id s : step_ok used now e → inv used now s → inv (used_after used e) (eNow e) (follow_next lower e id s).
Proof.
  intros Hso Hi. unfold follow_next. destruct (svInflight s !! id) as [[| |[|f fs]]|] eqn:Hid; try by apply (inv_mono used now).
  pose proof (so_range _ _ _ Hso) as Hr. pose proof (so_disk _ _ _ Hso) as Hd.
  pose proof (iv_loaded _ _ _ Hi) as Hl. pose proof (iv_ok _ _ _ Hi) as Hok.
  assert (svInflight (follow lower e f s) = svInflight s ∧ inv (used_after used e) (eNow e) (follow lower e f s)) as [Ef Hi'].
  { pose proof (iv_todo _ _ _ Hi _ _ f Hid ltac:(by left)) as Hf. destruct f as [ev|row c|row|row]; cbn [follow].
    - split; [|by apply (inv_enqueue used now)]. unfold enqueue. destruct ev as [[[? ?] ?] ?]. by destruct (commitNotifyPlan _ _ _ _ _ _).
    - destruct (planNotifyChannelFallback _ _ _ _ _ _ _) as [[next h]|] eqn:Ep; [|by split; [|apply (inv_mono used now)]].
      split; [done|]. destruct (channel_fallback_row _ _ _ _ _ _ _ _ Ep Hok) as (E1 & E2 & E3 & E4 & E5 & _).
      destruct (fallback_fresh used now e s next Hso Hi E1 ltac:(by rewrite E2) E3 E4 E5) as [Hrok Hfr].
      destruct (put_written (eRange e) (eDisk e) next (Some h) (svStore s) Hr Hd Hl Hok Hrok) as [[_ W2 W3 W4] _].
      apply (inv_fresh used now e s _ [clampNotifyDelivery next] []); try done.
      intros x Hx. by apply list_elem_of_singleton in Hx as ->.
    - destruct (planNotifyFallback _ _ _ _ _ _) as [next|] eqn:Ep; [|by split; [|apply (inv_mono used now)]].
      split; [done|]. destruct (rule_fallback_row _ _ _ _ _ _ Ep Hok) as (E1 & E2 & E3 & E4 & E5).
      destruct (fallback_fresh used now e s next Hso Hi E1 ltac:(by rewrite E2) E3 E4 E5) as [Hrok Hfr].
      destruct (record_written (eRange e) (eDisk e) [next] (svStore s) Hr Hd Hl Hok) as [[_ W2 W3 W4] _];
        [done|apply NoDup_singleton|intros x Hx; by apply list_elem_of_singleton in Hx as ->|].
      apply (inv_fresh used now e s _ [clampNotifyDelivery next] []); try done.
      intros x Hx. by apply list_elem_of_singleton in Hx as ->.
    - destruct (settleNotifyWebhookRecord _ _ _) as [w|]; (split; [done|]); [by apply (inv_neutral used now)|by apply (inv_mono used now)]. }
  apply inv_todo; [done| | |].
  - by eapply used_mono, (iv_used _ _ _ Hi).
  - intros g Hg. eapply followup_mono, (iv_todo _ _ _ Hi); [done|by right].
  - intros ph Hph. rewrite Ef, Hid in Hph. by injection Hph as <-.
Qed.

Lemma inv_test used now e c err at_ ms s : step_ok used now e → inv used now s →
  inv (used_after used e) (eNow e) (test_channel quote e c err at_ ms s).
Proof.
  intros Hso Hi. unfold test_channel. cbv zeta.
  set (a := attempt_of at_ ms err). set (row := test_row _ _ _ _ _ _ _ _).
  destruct (if atOK a then _ else _) as [h recovered].
  assert (ndID row = eNewID e ∧ ndEventID row = eEventID e ∧ ndCreatedAt row = eNow e ∧ ndAttempts row = [a] ∧
    ndRole row = NotifyRoleTest ∧ Settled row = true) as (E1 & E2 & E3 & E4 & E5 & E6).
  { unfold row, test_row. destruct (redactSendError err) as [[k st] tr]. by destruct err. }
  assert (ndID row ∈ fresh_ids e) as Hf by (rewrite E1; unfold fresh_ids; right; left).
  destruct (put_written (eRange e) (eDisk e) row (Some h) (svStore s) (so_range _ _ _ Hso) (so_disk _ _ _ Hso)
    (iv_loaded _ _ _ Hi) (iv_ok _ _ _ Hi)) as [[_ W2 W3 W4] _]; [by apply (fresh_row_ok used now e)|].
  apply inv_todo; [|unfold used_after; apply elem_of_union_r, elem_of_list_to_set; by rewrite <- E1| |].
  2: { intros f Hin. destruct recovered; [apply list_elem_of_singleton in Hin as ->; exact I|by apply not_elem_of_nil in Hin]. }
  2: { intros ph Hph. by destruct (so_fresh _ _ _ Hso (eNewID e)) as [[] _]; [by rewrite <- E1|apply (iv_used _ _ _ Hi _ ph)]. }
  apply (inv_fresh used now e s _ [clampNotifyDelivery row]); try done; [|by destruct recovered].
  intros x Hx. apply list_elem_of_singleton in Hx as ->. destruct (alike_clamp row) as [L1 L2 L3 L4 L5 L6 L7 L8]. split.
  - by rewrite (proj1 (clamp_fields row)).
  - rewrite L1, E2. apply event_used.
  - by rewrite L4.
  - rewrite L5, E4. cbn. lia.
  - rewrite L6, E6. done.
  - intros y [Hy|[Hy Hne]] He _; [|apply list_elem_of_singleton in Hy; congruence].
    rewrite L1, E2 in He. by destruct (event_fresh used now e s Hso Hi y Hy).
Qed.

Lemma inv_step used now e a s : step_ok used now e → inv used now s → inv (used_after used e) (eNow e) (step lower quote e a s).
Proof.
  intros Hso Hi. destruct a as [|id|id err at_ ms|id|ev|c err at_ ms]; cbn [step].
  - apply (inv_mono used now); [done|]. by apply inv_drain.
  - by apply (inv_start used now).
  - by apply (inv_record used now).
  - by apply (inv_follow used now).
  - by apply (inv_enqueue used now).
  - by apply (inv_test used now).
Qed.
End steps.

(** ** Announcements *)

(** The newest announcement about a channel: failing or recovered, and when. *)
Fixpoint last_news (c : string) (log : list logged) : option (bool * time) :=
  match log with
  | [] => None
  | LFailing c' t :: l => if c' =?? c then Some (true, t) else last_news c l
  | LRecovered c' t :: l => if c' =?? c then Some (false, t) else last_news c l
  | _ :: l => last_news c l
  end.
Fixpoint spaced (log : list logged) : Prop :=
  match log with
  | [] => True
  | LFailing c t :: l => (∀ t0, last_news c l = Some (true, t0) → notifyChannelFailingEvery <= time_sub t t0) ∧ spaced l
  | LRecovered c t :: l => (∀ t0, last_news c l ≠ Some (false, t0)) ∧ spaced l
  | _ :: l => spaced l
  end.
Definition news_ok (o : notifyOutbox) (log : list logged) : Prop :=
  ∀ c, match last_news c log with
       | Some (true, t) => hAnnounced (health_of o c) = true ∧ hAnnouncedAt (health_of o c) = t
       | Some (false, _) => hAnnounced (health_of o c) = false
       | None => True
       end.
Definition hinv (s : server) : Prop := news_ok (outbox (svStore s)) (svLog s) ∧ spaced (svLog s).

(** Entries that announce nothing. *)
Definition silent (l : logged) : bool := match l with LFailing _ _ | LRecovered _ _ => false | _ => true end.
Lemma last_news_silent c l log : forallb silent l = true → last_news c (l ++ log) = last_news c log.
Proof. induction l as [|x l IH]; [done|]. cbn. intros [Hx Hl]%andb_true_iff. destruct x; by try apply IH. Qed.
Lemma spaced_silent l log : forallb silent l = true → spaced log → spaced (l ++ log).
Proof. induction l as [|x l IH]; [done|]. cbn. intros [Hx Hl]%andb_true_iff Hs. specialize (IH Hl Hs). by destruct x. Qed.

Lemma health_of_ext o o' c : health o' !! c = health o !! c → health_of o' c = health_of o c.
Proof. unfold health_of. by intros ->. Qed.
Lemma health_of_insert o o' h c : health o' = <[hChannelID h := h]> (health o) →
  health_of o' c = if c =?? hChannelID h then h else health_of o c.
Proof.
  intros E. unfold health_of. rewrite E. destruct (bool_decide_reflect (c = hChannelID h)) as [->|Hne].
  - rewrite lookup_insert_eq. by destruct h.
  - by rewrite lookup_insert_ne.
Qed.
Lemma health_of_id o c : hChannelID (health_of o c) = c.
Proof. unfold health_of. by destruct (health o !! c). Qed.

(** The health is as it was, or one channel's announcement is. *)
Lemma hinv_same s st fl l : hinv s → forallb silent l = true →
  (∀ c, hAnnounced (health_of (outbox st) c) = hAnnounced (health_of (outbox (svStore s)) c) ∧
        hAnnouncedAt (health_of (outbox st) c) = hAnnouncedAt (health_of (outbox (svStore s)) c)) →
  hinv (mkServer st fl (l ++ svLog s)).
Proof.
  intros [Hn Hs] Hl He. split; cbn [svStore svLog]; [|by apply spaced_silent]. intros c. specialize (Hn c).
  destruct (He c) as [-> ->]. by rewrite last_news_silent.
Qed.

(** The outcome of a health transition, and what is announced with it. *)
Lemma transition_news prev h now h' announce recovered : hAnnounced h = hAnnounced prev → hAnnouncedAt h = hAnnouncedAt prev →
  notifyHealthTransition prev h now = (h', announce, recovered) →
  hChannelID h' = hChannelID h ∧
  match announce, recovered with
  | true, true => False
  | true, false => hAnnounced h' = true ∧ hAnnouncedAt h' = now ∧
      (hAnnounced prev = true → notifyChannelFailingEvery <= time_sub now (hAnnouncedAt prev))
  | false, true => hAnnounced h' = false ∧ hAnnounced prev = true
  | false, false => hAnnounced h' = hAnnounced prev ∧ hAnnouncedAt h' = hAnnouncedAt prev
  end.
Proof.
  intros E1 E2. unfold notifyHealthTransition.
  destruct ((hConsecutiveFailures h =? 0) && is_zero (hFailingSince h)).
  { destruct (hAnnounced prev) eqn:Ep; intros [= <- <- <-]; cbn; [done|]. split; [done|]. split; congruence. }
  destruct (negb (notifyChannelFailing h now)); [intros [= <- <- <-]; done|].
  destruct (hAnnounced h && (time_sub now (hAnnouncedAt h) <? notifyChannelFailingEvery)) eqn:Ea; intros [= <- <- <-]; [done|].
  cbn. split; [done|]. split; [done|]. split; [done|]. intros Hp. rewrite E1, Hp in Ea. cbn in Ea.
  apply Z.ltb_ge in Ea. by rewrite <- E2.
Qed.

Lemma hinv_news s st fl l c h announce recovered at_ : hinv s → forallb silent l = true →
  health (outbox st) = <[hChannelID h := h]> (health (outbox (svStore s))) → hChannelID h = c →
  let prev := health_of (outbox (svStore s)) c in
  match announce, recovered with
  | true, true => False
  | true, false => hAnnounced h = true ∧ hAnnouncedAt h = at_ ∧
      (hAnnounced prev = true → notifyChannelFailingEvery <= time_sub at_ (hAnnouncedAt prev))
  | false, true => hAnnounced h = false ∧ hAnnounced prev = true
  | false, false => hAnnounced h = hAnnounced prev ∧ hAnnouncedAt h = hAnnouncedAt prev
  end →
  hinv (mkServer st fl (((if announce : bool then [LFailing c at_] else []) ++ (if recovered : bool then [LRecovered c at_] else [])) ++ l ++ svLog s)).
Proof.
  intros Hi Hl Hh Hc prev Hcase.
  assert (∀ c', health_of (outbox st) c' = if c' =?? c then h else health_of (outbox (svStore s)) c') as Hof.
  { intros c'. rewrite (health_of_insert _ _ h) by done. by rewrite Hc. }
  assert (spaced (l ++ svLog s)) as Hsp by (apply spaced_silent, Hi; done).
  pose proof (proj1 Hi) as Hn. pose proof (Hn c) as Hnc.
  destruct announce, recovered; [done|..]; cbn [app].
  - destruct Hcase as (A1 & A2 & A3). split; cbn [svStore svLog].
    + intros c'. cbn [last_news]. rewrite Hof. destruct (bool_decide_reflect (c = c')) as [<-|Hne].
      * by rewrite bool_decide_eq_true_2.
      * rewrite bool_decide_eq_false_2 by congruence. rewrite last_news_silent by done. apply Hn.
    + cbn [spaced]. split; [|done]. intros t0 Hlast. rewrite last_news_silent in Hlast by done.
      rewrite Hlast in Hnc. destruct Hnc as [B1 B2]. rewrite <- B2. by apply A3.
  - destruct Hcase as [A1 A2]. split; cbn [svStore svLog].
    + intros c'. cbn [last_news]. rewrite Hof. destruct (bool_decide_reflect (c = c')) as [<-|Hne].
      * by rewrite bool_decide_eq_true_2.
      * rewrite bool_decide_eq_false_2 by congruence. rewrite last_news_silent by done. apply Hn.
    + cbn [spaced]. split; [|done]. intros t0 Hlast. rewrite last_news_silent in Hlast by done.
      rewrite Hlast in Hnc. fold prev in Hnc. congruence.
  - apply hinv_same; [done..|]. intros c'. rewrite Hof. destruct (bool_decide_reflect (c' = c)) as [->|]; done.
Qed.

Section news.
Context `{IncidentText} (lower quote : string → string).

Lemma next_health_news h a counted t : hAnnounced (nextNotifyHealth h a counted t) = hAnnounced h ∧
  hAnnouncedAt (nextNotifyHealth h a counted t) = hAnnouncedAt h ∧ hChannelID (nextNotifyHealth h a counted t) = hChannelID h.
Proof. unfold nextNotifyHealth. by destruct (atOK a). Qed.

Lemma put_row_step_news used now e x h s : step_ok used now e → inv used now s → row_ok x = true →
  ∃ l, put_row_step e x h s = mkServer (PutNotifyDelivery (eRange e) (eDisk e) x h (svStore s)).1 (svInflight s) (l ++ svLog s) ∧
    forallb silent l = true ∧
    health (outbox (PutNotifyDelivery (eRange e) (eDisk e) x h (svStore s)).1) =
      match h with Some h => <[hChannelID h := h]> (health (outbox (svStore s))) | None => health (outbox (svStore s)) end.
Proof.
  intros Hso Hi Hx. destruct (put_written (eRange e) (eDisk e) x h (svStore s) (so_range _ _ _ Hso) (so_disk _ _ _ Hso)
    (iv_loaded _ _ _ Hi) (iv_ok _ _ _ Hi) Hx) as [_ Hh].
  eexists. split; [reflexivity|]. split; [|done]. unfold settled_note. destruct (snd _); [done|]. by destruct (Settled x).
Qed.

Lemma hinv_id s : hinv s → hinv (mkServer (svStore s) (svInflight s) (svLog s)).
Proof. by destruct s. Qed.
Lemma hinv_frame s st fl l : hinv s → forallb silent l = true → health (outbox st) = health (outbox (svStore s)) →
  hinv (mkServer st fl (l ++ svLog s)).
Proof. intros Hi Hl Hh. apply hinv_same; [done..|]. intros c. by rewrite (health_of_ext (outbox (svStore s)) (outbox st)) by (by rewrite Hh). Qed.

Lemma hinv_start used now e id s : step_ok used now e → inv used now s → hinv s → hinv (start_attempt lower e id s).
Proof.
  intros Hso Hi Hn. unfold start_attempt. destruct (svInflight s !! id) as [[| |]|] eqn:Hid; try done.
  destruct (iv_queued _ _ _ Hi _ _ Hid eq_refl) as (row & Hrow & Hs). unfold get_delivery. rewrite Hrow, Hs. cbv zeta.
  destruct (ob_rows _ (iv_ok _ _ _ Hi) _ _ Hrow) as [_ Hrok].
  assert (∀ oc reason ph, hinv (set_phase id ph (put_row_step e (settle oc reason (eNow e) row) None s))) as Hput.
  { intros oc reason ph. destruct (put_row_step_news used now e (settle oc reason (eNow e) row) None s Hso Hi) as (l & -> & Hl & Hh); [done|].
    by apply (hinv_frame s). }
  destruct (negb _); [apply Hput|]. destruct (notifyChannelByID _ _) as [c|]; [|apply Hput].
  destruct (negb (ncEnabled c)); [apply Hput|]. by apply (hinv_frame s _ _ [LSend row _]).
Qed.

Lemma hinv_record used now e id err at_ ms s : step_ok used now e → inv used now s → hinv s → hinv (record_attempt e id err at_ ms s).
Proof.
  intros Hso Hi Hn. unfold record_attempt. destruct (svInflight s !! id) as [[|row c|]|] eqn:Hid; try done.
  pose proof (iv_sending _ _ _ Hi _ _ _ Hid) as Hrow. destruct (ob_rows _ (iv_ok _ _ _ Hi) _ _ Hrow) as [_ Hrok].
  unfold receipt. cbv zeta. set (a := attempt_of at_ ms err). set (row' := attempted err a row).
  set (prev := health_of (outbox (svStore s)) (ncID c)).
  assert (row_ok row' = true) as Hrok'.
  { unfold row', attempted. destruct (redactSendError err) as [[k st] tr]. destruct err; [|done]. by destruct (tr && _). }
  assert (atAt a = at_) as Hat by (unfold a, attempt_of; by destruct (redactSendError err) as [[? ?] ?]).
  destruct (next_health_news prev a (ndOutcome row' =?? NotifyOutcomeFailed)
    (match ndAttempts row' with x :: _ => atAt x | [] => 0 end)) as (E1 & E2 & E3).
  destruct (notifyHealthTransition _ _ _) as [[h announce] recovered] eqn:Et. rewrite Hat in Et.
  destruct (transition_news _ _ _ _ _ _ E1 E2 Et) as [Hch Hcase]. rewrite E3 in Hch. unfold prev in Hch at 1. rewrite health_of_id in Hch.
  destruct (put_row_step_news used now e row' (Some h) s Hso Hi Hrok') as (l & -> & Hl & Hh).
  by apply (hinv_news s _ _ l (ncID c) h announce recovered at_).
Qed.

Lemma hinv_enqueue used now e ev s : step_ok used now e → inv used now s → hinv s → hinv (enqueue e ev s).
Proof.
  intros Hso Hi Hn. unfold enqueue. destruct ev as [[[eventType title] body] how].
  set (plan := planNotifyEvent _ _ _ _ _ _ _).
  assert (plAt plan = eNow e) as Hpa.
  { unfold plan, planNotifyEvent. by destruct (ClampNotifyText title body) as [[? ?] ?]. }
  pose proof (so_range _ _ _ Hso) as Hr. pose proof (so_disk _ _ _ Hso) as Hd.
  pose proof (iv_loaded _ _ _ Hi) as Hl. pose proof (iv_ok _ _ _ Hi) as Hok.
  unfold commitNotifyPlan. destruct (plTargets plan) as [|t ts] eqn:Et.
  - apply (hinv_frame s _ _ []); [done..|].
    apply (unsent_written (eRange e) (eDisk e) (with_ndOutcome NotifyOutcomeNoRoute (no_route_row (eNewID e) plan)) (svStore s) Hr Hd Hl Hok).
    apply (fresh_row_ok used now e); [done|unfold fresh_ids; right; left|done].
  - destruct (plan_rows plan (eNewIDs e)) as [|x0 xs] eqn:Ep; [by apply (hinv_frame s _ _ [])|]. rewrite <- Ep.
    pose proof (so_nodup _ _ _ Hso) as Hnd. unfold fresh_ids in Hnd.
    apply NoDup_cons in Hnd as [_ Hnd]. apply NoDup_cons in Hnd as [_ Hnd].
    destruct (record_written (eRange e) (eDisk e) (plan_rows plan (eNewIDs e)) (svStore s) Hr Hd Hl Hok) as [[W1 _ _ _] Hh].
    + by rewrite Ep.
    + eapply sublist_NoDup; [done|apply plan_rows_ids].
    + intros x (id & t' & Hin & ->)%plan_rows_in. apply (fresh_row_ok used now e); [done|unfold fresh_ids; by do 2 right|done].
    + destruct (RecordNotifyDeliveries _ _ _ _) as [st err]. cbn [fst snd] in *. subst err. by apply (hinv_frame s _ _ []).
Qed.

Hypothesis lower_nil : lower "" = "".

Lemma hinv_follow used now e id s : step_ok used now e → inv used now s → hinv s → hinv (follow_next lower e id s).
Proof.
  intros Hso Hi Hn. unfold follow_next. destruct (svInflight s !! id) as [[| |[|f fs]]|] eqn:Hid; try done.
  pose proof (so_range _ _ _ Hso) as Hr. pose proof (so_disk _ _ _ Hso) as Hd.
  pose proof (iv_loaded _ _ _ Hi) as Hl. pose proof (iv_ok _ _ _ Hi) as Hok.
  pose proof (iv_todo _ _ _ Hi _ _ f Hid ltac:(by left)) as Hf.
  assert (hinv (follow lower e f s)) as Hh; [|by destruct Hh].
  destruct f as [ev|row c|row|row]; cbn [follow].
  - by apply (hinv_enqueue used now).
  - destruct (planNotifyChannelFallback _ _ _ _ _ _ _) as [[next h]|] eqn:Ep; [|done].
    destruct (channel_fallback_row lower lower_nil _ _ _ _ _ _ _ _ Ep Hok) as (E1 & E2 & E3 & E4 & E5 & E6 & E7 & E8).
    destruct (fallback_fresh used now e s next Hso Hi E1 ltac:(by rewrite E2) E3 E4 E5) as [Hrok _].
    destruct (put_written (eRange e) (eDisk e) next (Some h) (svStore s) Hr Hd Hl Hok Hrok) as [_ Hh].
    apply (hinv_same s _ _ []); [done..|]. intros c'. rewrite (health_of_insert _ _ h) by done. rewrite E6.
    destruct (bool_decide_reflect (c' = ncID c)) as [->|]; done.
  - destruct (planNotifyFallback _ _ _ _ _ _) as [next|] eqn:Ep; [|done].
    destruct (rule_fallback_row lower lower_nil _ _ _ _ _ _ Ep Hok) as (E1 & E2 & E3 & E4 & E5).
    destruct (fallback_fresh used now e s next Hso Hi E1 ltac:(by rewrite E2) E3 E4 E5) as [Hrok _].
    apply (hinv_frame s _ _ []); [done..|].
    apply (record_written (eRange e) (eDisk e) [next] (svStore s) Hr Hd Hl Hok);
      [done|apply NoDup_singleton|intros x Hx; by apply list_elem_of_singleton in Hx as ->].
  - destruct (settleNotifyWebhookRecord _ _ _) as [w|]; [|done]. by apply (hinv_frame s _ _ [LWebhook w]).
Qed.

Lemma hinv_test used now e c err at_ ms s : step_ok used now e → inv used now s → hinv s → hinv (test_channel quote e c err at_ ms s).
Proof.
  intros Hso Hi Hn. unfold test_channel. cbv zeta. set (a := attempt_of at_ ms err). set (row := test_row _ _ _ _ _ _ _ _).
  set (prev := health_of (outbox (svStore s)) (ncID c)).
  assert (row_ok row = true) as Hrok.
  { apply (fresh_row_ok used now e); [done| |]; unfold row, test_row; destruct (redactSendError err) as [[k st] tr]; [unfold fresh_ids; right; left|done]. }
  destruct (next_health_news prev a false 0) as (E1 & E2 & E3). unfold prev in E3 at 2. rewrite health_of_id in E3.
  assert (∃ h recovered, (if atOK a then let '(h, _, rec) := notifyHealthTransition prev (nextNotifyHealth prev a false 0) at_ in (h, rec)
      else (nextNotifyHealth prev a false 0, false)) = (h, recovered) ∧ hChannelID h = ncID c ∧
    if recovered : bool then hAnnounced h = false ∧ hAnnounced prev = true
    else hAnnounced h = hAnnounced prev ∧ hAnnouncedAt h = hAnnouncedAt prev) as (h & recovered & -> & Hch & Hcase).
  { destruct (atOK a) eqn:Eok.
    - destruct (notifyHealthTransition _ _ _) as [[h announce] recovered] eqn:Et.
      destruct (transition_news _ _ _ _ _ _ E1 E2 Et) as [Hch Hcase]. exists h, recovered. split; [done|]. split; [by rewrite Hch|].
      assert (announce = false) as ->; [|by destruct recovered].
      unfold notifyHealthTransition, nextNotifyHealth in Et. rewrite Eok in Et. cbn in Et. destruct (hAnnounced prev); congruence.
    - by exists (nextNotifyHealth prev a false 0), false. }
  destruct (put_written (eRange e) (eDisk e) row (Some h) (svStore s) (so_range _ _ _ Hso) (so_disk _ _ _ Hso)
    (iv_loaded _ _ _ Hi) (iv_ok _ _ _ Hi) Hrok) as [_ Hh].
  apply (hinv_news s _ _ [] (ncID c) h false recovered at_); [done..|]. by destruct recovered.
Qed.

Lemma hinv_step used now e a s : step_ok used now e → inv used now s → hinv s → hinv (step lower quote e a s).
Proof.
  intros Hso Hi Hn. destruct a as [|id|id err at_ ms|id|ev|c err at_ ms]; cbn [step].
  - unfold drainNotifyOutbox. destruct (drain_go _ _ _ _ _). by apply (hinv_frame s _ _ []).
  - by apply (hinv_start used now).
  - by apply (hinv_record used now).
  - by apply (hinv_follow used now).
  - by apply (hinv_enqueue used now).
  - by apply (hinv_test used now).
Qed.
End news.

(** ** Runs of the server *)

(** A server that has loaded its outbox: no row has a retry too many, and no
    fallback repeats a channel its event already reached. *)
Definition started (used : gset string) (now : time) (st : ostore) : Prop :=
  loaded st = true ∧ outbox_ok (outbox st) ∧ rows_inv used now (rows (outbox st)).

Section runs.
Context `{IncidentText} (lower quote : string → string) (lower_nil : lower "" = "").

Inductive reach : gset string → time → server → Prop :=
| reach_start used now st : started used now st → reach used now (mkServer st ∅ [])
| reach_step used now s e a : reach used now s → step_ok used now e →
    reach (used_after used e) (eNow e) (step lower quote e a s).

Lemma inv_started used now st : started used now st → inv used now (mkServer st ∅ []).
Proof.
  intros (Hl & Hok & Hr). split; cbn [svStore svInflight svLog]; try done.
  - intros id. split; [cbn; lia|]. split; [done|]. intros row _ _. cbn. lia.
  - intros id oc Hin. by apply not_elem_of_nil in Hin.
Qed.
Lemma reach_inv used now s : reach used now s → inv used now s ∧ hinv s.
Proof.
  induction 1 as [used now st Hst|used now s e a _ [IH1 IH2] Hso].
  - split; [by apply inv_started|]. split; [intros c; done|done].
  - split; [by apply (inv_step lower quote lower_nil used now)|by apply (hinv_step lower quote lower_nil used now)].
Qed.

Lemma quiet_after_split l1 l2 id oc : quiet_after (l1 ++ LSettled id oc :: l2) → sends id l1 = 0%nat.
Proof.
  induction l1 as [|x l1 IH]; [done|]. cbn [app quiet_after]. unfold sends. cbn [List.filter].
  destruct x; cbn [is_send]; try exact IH. intros [Hn Hq]. destruct (bool_decide_reflect (ndID row = id)) as [E|E].
  - exfalso. apply (Hn oc). rewrite E. apply elem_of_app. right. by left.
  - by apply IH.
Qed.

(** C7. A message goes out a bounded number of times and never after it is
    settled: on every run of the server on which the disk takes the outbox's
    writes, whatever is planned, drained, sent and recorded in between and
    whatever the channels answer, a delivery is handed to its channel at most
    four times, and not at all once the outbox has it as sent, failed or
    withdrawn.  (With writes refused there is no bound:
    [refused_receipt_resends].) *)
Theorem sends_bounded used now s : reach used now s →
  (∀ id, (sends id (svLog s) <= 4)%nat) ∧
  (∀ l1 l2 id outcome, svLog s = l1 ++ LSettled id outcome :: l2 → sends id l1 = 0%nat).
Proof.
  intros Hr. destruct (reach_inv _ _ _ Hr) as [Hi _]. split; [intros id; apply (iv_sends _ _ _ Hi id)|].
  intros l1 l2 id oc E. apply (quiet_after_split l1 l2 id oc). rewrite <- E. apply Hi.
Qed.

(** C19. Messages quiet hours held leave in the order they were planned: while
    one is being sent, every older message held for the same rule and channel
    has been settled, so a recovery never overtakes the open it answers. *)
Theorem held_messages_in_order used now s id row c : reach used now s → svInflight s !! id = Some (Sending row c) →
  held row = true → ∀ id' x, rows (outbox (svStore s)) !! id' = Some x → held x = true →
  ndRuleID x = ndRuleID row → ndChannelID x = ndChannelID row → ndCreatedAt x < ndCreatedAt row → Settled x = true.
Proof.
  intros Hr Hid Hh id' x Hx Hhx Hrule Hch Hlt. destruct (reach_inv _ _ _ Hr) as [Hi _].
  destruct (Settled x) eqn:Hs; [done|]. exfalso.
  pose proof (iv_turn _ _ _ Hi id _ row Hid eq_refl (iv_sending _ _ _ Hi _ _ _ Hid) Hh id' x Hx Hs Hhx) as Hle.
  unfold held_key in Hle. rewrite Hrule, Hch in Hle. specialize (Hle eq_refl). lia.
Qed.

(** A fallback never repeats a channel: among the rows the outbox holds
    of one event, a channel that got it through a fallback got it once, from
    no rule and from no other fallback. *)
Theorem fallback_reaches_new_channel used now s a b : reach used now s →
  rows (outbox (svStore s)) !! ndID a = Some a → rows (outbox (svStore s)) !! ndID b = Some b →
  ndRole a = NotifyRoleFallback → ndEventID b = ndEventID a → ndChannelID b = ndChannelID a → b = a.
Proof.
  intros Hr Ha Hb Hrole He Hc. destruct (reach_inv _ _ _ Hr) as [Hi _].
  destruct (decide (ndID a = ndID b)) as [E|E]; [rewrite E in Ha; congruence|].
  exfalso. by apply (ri_once _ _ _ (iv_rows _ _ _ Hi) _ _ a b Ha Hb E).
Qed.

Lemma spaced_failing l1 l2 c t : spaced (l1 ++ LFailing c t :: l2) →
  ∀ t0, last_news c l2 = Some (true, t0) → notifyChannelFailingEvery <= time_sub t t0.
Proof. induction l1 as [|x l1 IH]; cbn [app spaced]; [by intros [? _]|]. destruct x; try exact IH; intros [_ ?]; by apply IH. Qed.
Lemma spaced_recovered l1 l2 c t : spaced (l1 ++ LRecovered c t :: l2) → ∀ t0, last_news c l2 ≠ Some (false, t0).
Proof. induction l1 as [|x l1 IH]; cbn [app spaced]; [by intros [? _]|]. destruct x; try exact IH; intros [_ ?]; by apply IH. Qed.

(** A failing channel is announced at most once an hour and recovers at
    most once per announcement: on every run, two announcements that a
    channel is failing with no recovery between them are an hour apart, and
    two recoveries have an announcement between them. *)
Theorem announcements_spaced used now s : reach used now s →
  (∀ l1 l2 c t t0, svLog s = l1 ++ LFailing c t :: l2 → last_news c l2 = Some (true, t0) →
     notifyChannelFailingEvery <= time_sub t t0) ∧
  (∀ l1 l2 c t t0, svLog s = l1 ++ LRecovered c t :: l2 → last_news c l2 ≠ Some (false, t0)).
Proof.
  intros Hr. destruct (reach_inv _ _ _ Hr) as [_ [_ Hs]]. split.
  - intros l1 l2 c t t0 E. apply (spaced_failing l1 l2 c t). by rewrite <- E.
  - intros l1 l2 c t t0 E. apply (spaced_recovered l1 l2 c t). by rewrite <- E.
Qed.
End runs.

(** ** Start-up *)

Lemma reconciled_fields now row : ndID (reconciled now row) = ndID row ∧ row_ok (reconciled now row) = row_ok row ∧
  ndRole (reconciled now row) = ndRole row ∧ due_at (reconciled now row) = due_at row ∧
  ndAttempts (reconciled now row) = ndAttempts row.
Proof. unfold reconciled. destruct (_ || _); [done|]. by destruct (before _ _). Qed.
Lemma reconciled_unsettled now row : Settled row = false → Settled (reconciled now row) = false →
  ndRole row ≠ NotifyRoleTest ∧ time_sub now (due_at row) <= notifyRedriveHorizon ∧
  ndRedriven (reconciled now row) = true ∧ now <= ndNextAttemptAt (reconciled now row).
Proof.
  intros Hs. unfold reconciled. destruct (_ || _) eqn:E; [done|]. intros _. go_bool. destruct E as [E1 E2].
  split_and!; [done|done|by destruct (before _ _)|]. unfold before. destruct (Z.ltb_spec (ndNextAttemptAt row) now); cbn; lia.
Qed.
Lemma clamp_schedule x : ndRedriven (clampNotifyDelivery x) = ndRedriven x ∧ ndNextAttemptAt (clampNotifyDelivery x) = ndNextAttemptAt x ∧
  ndRole (clampNotifyDelivery x) = ndRole x ∧ due_at (clampNotifyDelivery x) = due_at x.
Proof. unfold clampNotifyDelivery. by destruct (ClampNotifyText _ _) as [[? ?] ?]. Qed.

Lemma unsettled_elem o x : outbox_ok o → x ∈ UnsettledNotifyDeliveries o ↔ rows o !! ndID x = Some x ∧ Settled x = false.
Proof.
  intros Hok. rewrite (UnsettledNotifyDeliveries_scan o Hok), list_elem_of_In, filter_In, <- list_elem_of_In, sorted_rows_spec, negb_true_iff.
  split; intros [Hx ?]; (split; [|done]); [by apply (rows_value_ok o)|eauto].
Qed.
Lemma unsettled_ids_NoDup o : outbox_ok o → NoDup (map ndID (UnsettledNotifyDeliveries o)).
Proof.
  intros Hok. unfold UnsettledNotifyDeliveries.
  change (map ndID) with (fmap (M := list) ndID). rewrite merge_sort_Permutation.
  change (map (λ id, default zero_delivery (rows o !! id))) with (fmap (M := list) (λ id, default zero_delivery (rows o !! id))).
  rewrite <- list_fmap_compose. erewrite list_fmap_ext with (g := id); [rewrite list_fmap_id; apply NoDup_elements|].
  intros i x Hi. apply list_elem_of_lookup_2, elem_of_elements, (ix_unsettled _ _ (ob_index _ Hok)) in Hi as (d & Hd & _).
  cbn. rewrite Hd. cbn. by apply (ob_rows _ Hok).
Qed.

(** A restart leaves no delivery hanging: after the start-up
    reconciliation, a delivery still owed a send is one quiet hours still
    hold and nobody tried, or it is marked redriven, was due within the last
    fifteen minutes, is not a test, and is due from now on; and nothing owed
    a send was lost, only settled. *)
Theorem reconcile_settles_stale r d now s : valid_rorder r → writes d = true → loaded s = true → outbox_ok (outbox s) →
  let s' := (reconcileNotifyOutbox r d now s).1 in
  (∀ id x, rows (outbox s') !! id = Some x → Settled x = false →
     (rows (outbox s) !! id = Some x ∧ still_held now x = true) ∨
     (ndRedriven x = true ∧ ndRole x ≠ NotifyRoleTest ∧ time_sub now (due_at x) <= notifyRedriveHorizon ∧ now <= ndNextAttemptAt x)) ∧
  (∀ id x, rows (outbox s) !! id = Some x → Settled x = false → is_Some (rows (outbox s') !! id)).
Proof.
  intros Hr Hd Hl Hok. unfold reconcileNotifyOutbox. rewrite (loaded_id r d s Hl). cbv zeta.
  set (go := List.filter (fun row => negb (still_held now row)) (UnsettledNotifyDeliveries (outbox s))).
  assert (∀ x, x ∈ go ↔ (rows (outbox s) !! ndID x = Some x ∧ Settled x = false) ∧ still_held now x = false) as Hgo.
  { intros x. unfold go. rewrite list_elem_of_In, filter_In, <- list_elem_of_In, unsettled_elem, negb_true_iff by done. done. }
  set (changed := map (reconciled now) go).
  assert (∀ id x, rows (outbox s) !! id = Some x → Settled x = false → still_held now x = false → id ∈ map ndID changed) as Hin.
  { intros id x Hx Hs Hh. destruct (ob_rows _ Hok _ _ Hx) as [Hid _]. subst id. unfold changed. rewrite map_map.
    apply list_elem_of_fmap. exists x. split; [symmetry; apply reconciled_fields|]. by apply Hgo. }
  destruct changed as [|c0 cs] eqn:Ec; cbn [fst].
  { split; [|eauto]. intros id x Hx Hs. left. split; [done|]. destruct (still_held now x) eqn:Eh; [done|].
    specialize (Hin id x Hx Hs Eh). by apply not_elem_of_nil in Hin. }
  rewrite <- Ec in *.
  assert (map ndID changed = map ndID go) as Eids.
  { unfold changed. rewrite map_map. apply map_ext. intros x. apply reconciled_fields. }
  destruct (record_written r d changed s Hr Hd Hl Hok) as [[_ _ _ [E1 E2 E3]] _]; [by rewrite Ec| | |].
  { rewrite Eids. unfold go. pose proof (unsettled_ids_NoDup _ Hok) as Hnd.
    eapply sublist_NoDup; [exact Hnd|]. clear. induction (UnsettledNotifyDeliveries (outbox s)) as [|x l IH]; [constructor|]. cbn.
    destruct (negb _); cbn; by constructor. }
  { intros c (x & -> & Hx)%list_elem_of_fmap. destruct (reconciled_fields now x) as (_ & -> & _).
    apply Hgo in Hx as [[Hx _] _]. by apply (ob_rows _ Hok _ _ Hx). }
  split.
  - intros id x' Hx' Hs'. destruct (E1 id x' Hx') as [[Hc _]|(Hn & row & Hrow & Ha%alike_fold)].
    + right. apply list_elem_of_fmap in Hc as (c & -> & Hc). apply list_elem_of_fmap in Hc as (x & -> & Hx).
      rewrite clamp_settled in Hs'. apply Hgo in Hx as [[Hx Hs] _].
      destruct (clamp_schedule (reconciled now x)) as (-> & -> & -> & ->).
      destruct (reconciled_unsettled now x Hs Hs') as (A1 & A2 & A3 & A4).
      destruct (reconciled_fields now x) as (_ & _ & -> & -> & _). done.
    + left. rewrite (al_settled _ _ Ha) in Hs'. rewrite clamp_ids in Hn.
      assert (x' = row) as ->.
      { pose proof (E2 id row Hrow Hs') as Hk. rewrite clamp_ids in Hk. specialize (Hk Hn). congruence. }
      split; [done|]. destruct (still_held now row) eqn:Eh; [done|]. by destruct (Hn (Hin id row Hrow Hs' Eh)).
  - intros id x Hx Hs. destruct (decide (id ∈ map ndID changed)) as [Hc|Hc].
    + apply list_elem_of_fmap in Hc as (c & -> & Hc). rewrite <- (proj1 (clamp_fields c)).
      rewrite (E3 (clampNotifyDelivery c)); [by eexists|]. by apply list_elem_of_fmap_2.
    + rewrite (E2 id x Hx Hs); [by eexists|]. by rewrite clamp_ids.
Qed.

(** ** No delivery gets stuck *)

Lemma attempted_cases err a row : Settled row = false →
  ndAttempts (attempted err a row) = ndAttempts row ++ [a] ∧
  (Settled (attempted err a row) = false → (length (ndAttempts row) < 3)%nat ∧
     ndNextAttemptAt (attempted err a row) = time_add (atAt a) (default 0 (notifyRetryDelays !! length (ndAttempts row)))).
Proof.
  intros Hs. unfold attempted. destruct (redactSendError err) as [[k st] tr].
  destruct err as [e|]; [|done].
  destruct (tr && (length (ndAttempts (with_ndAttempts (ndAttempts row ++ [a]) row)) <=? length notifyRetryDelays)%nat) eqn:E; [|done].
  split; [done|]. intros _. apply andb_true_iff in E as [_ E]. apply Nat.leb_le in E. cbn in E. rewrite length_app in E. cbn in E.
  split; [lia|]. cbn [with_ndReason with_ndNextAttemptAt with_ndAttempts ndNextAttemptAt ndAttempts].
  rewrite length_app. cbn [length]. by replace (length (ndAttempts row) + 1 - 1)%nat with (length (ndAttempts row)) by lia.
Qed.

(** No other message quiet hours held for the same rule and channel is owed
    before [row]. *)
Definition its_turn (o : notifyOutbox) (row : NotifyDelivery) : Prop :=
  held row = true → ∀ id x, rows o !! id = Some x → Settled x = false → held x = true → held_key x = held_key row →
    x = row ∨ ndCreatedAt row < ndCreatedAt x.
Lemma drain_starts now next pre row post : ∀ inflight turn, NoDup (map ndID (pre ++ row :: post)) →
  (held row = true → held_key row ∉ turn ∧ Forall (fun x => held x = true → held_key x ≠ held_key row) pre) →
  inflight !! ndID row = None → ndNextAttemptAt row <= now →
  ndID row ∈ (drain_go now inflight turn next (pre ++ row :: post)).1.
Proof.
  revert next. induction pre as [|x pre IH]; intros next inflight turn Hnd Ht Hi Hdue; cbn [app drain_go].
  - fold (held row). assert (held row && mem (held_key row) turn = false) as ->.
    { destruct (held row) eqn:Hh; [|done]. cbn. apply mem_false. by apply Ht. }
    rewrite Hi. unfold after. destruct (Z.ltb_spec now (ndNextAttemptAt row)); [lia|].
    destruct (drain_go _ _ _ _ post) as [ids nx]. by left.
  - fold (held x). cbn [app map] in Hnd. apply NoDup_cons in Hnd as [Hx Hnd].
    assert (ndID x ≠ ndID row) as Hne.
    { intros E. apply Hx. rewrite E. change (map ndID) with (fmap (M := list) ndID). apply list_elem_of_fmap_2. set_solver. }
    assert (held row = true → held_key row ∉ turn ∧ Forall (fun x => held x = true → held_key x ≠ held_key row) pre) as Ht'.
    { intros Hh. destruct (Ht Hh) as [? Hf%Forall_cons]. tauto. }
    assert (held row = true → held_key row ∉ (if held x then held_key x :: turn else turn) ∧
      Forall (fun x => held x = true → held_key x ≠ held_key row) pre) as Ht2.
    { intros Hh. destruct (Ht Hh) as [Hn [Hk Hf]%Forall_cons]. split; [|done]. destruct (held x); [|done].
      apply not_elem_of_cons. split; [|done]. apply not_eq_sym. by apply Hk. }
    destruct (held x && mem (held_key x) turn); [by apply IH|].
    destruct (inflight !! ndID x); [by apply IH|]. destruct (after _ _); [by apply IH|].
    pose proof (IH next (<[ndID x := Queued]> inflight) (if held x then held_key x :: turn else turn) Hnd Ht2) as Hin.
    destruct (drain_go _ _ _ _ (pre ++ row :: post)) as [ids nx]. right. apply Hin; [|done]. by rewrite lookup_insert_ne.
Qed.
Lemma queue_all_in (ids : list string) (m : gmap string phase) id : id ∈ ids →
  foldl (fun m id => <[id := Queued]> m) m ids !! id = Some Queued.
Proof.
  revert m. induction ids as [|i ids IH]; intros m Hin; [by apply not_elem_of_nil in Hin|]. cbn.
  destruct (decide (id ∈ ids)) as [?|Hn]; [by apply IH|]. apply elem_of_cons in Hin as [->|]; [|done].
  rewrite lookup_queue_other by done. apply lookup_insert_eq.
Qed.
Lemma drain_queues used now s t id row : inv used now s → rows (outbox (svStore s)) !! id = Some row → Settled row = false →
  svInflight s !! id = None → ndNextAttemptAt row <= t → its_turn (outbox (svStore s)) row →
  svInflight (drainNotifyOutbox t s).1 !! id = Some Queued.
Proof.
  intros Hi Hrow Hs Hf Hdue Hturn. pose proof (iv_ok _ _ _ Hi) as Hok. destruct (ob_rows _ Hok _ _ Hrow) as [Hid _].
  set (o := outbox (svStore s)) in *. assert (row ∈ UnsettledNotifyDeliveries o) as Hin by (apply unsettled_elem; [done|]; by rewrite Hid).
  pose proof (unsettled_ids_NoDup o Hok) as Hnd.
  assert (StronglySorted row_le (UnsettledNotifyDeliveries o)) as Hsort by (apply StronglySorted_merge_sort; apply _).
  unfold drainNotifyOutbox. fold o. destruct (list_elem_of_split _ _ Hin) as (pre & post & E).
  assert (ndID row ∈ (drain_go t (svInflight s) [] 0 (UnsettledNotifyDeliveries o)).1) as Hgo.
  { rewrite E in *. apply drain_starts; [done| |by rewrite Hid|done]. intros Hh. split; [apply not_elem_of_nil|].
    apply Forall_forall. intros x Hx Hhx Hk.
    assert (x ∈ UnsettledNotifyDeliveries o) as Hxu by (rewrite E; set_solver).
    apply unsettled_elem in Hxu as [Hxr Hxs]; [|done]. destruct (Hturn Hh _ x Hxr Hxs Hhx Hk) as [->|Hlt].
    - change (map ndID) with (fmap (M := list) ndID) in Hnd. rewrite fmap_app, fmap_cons in Hnd. apply NoDup_app in Hnd as (_ & Hnd & _).
      apply (Hnd (ndID row)); [by apply list_elem_of_fmap_2|by left].
    - apply StronglySorted_app_1_elem_of with (x1 := x) (x2 := row) in Hsort; [|done|by left].
      unfold row_le, notifyDeliveryBefore, before in Hsort. destruct (Z.eqb_spec (ndCreatedAt row) (ndCreatedAt x)); [lia|].
      cbn [negb] in Hsort. apply Z.ltb_ge in Hsort. lia. }
  destruct (drain_go _ _ _ _ _) as [ids nx]. cbn [fst svInflight] in *. rewrite Hid in Hgo. by apply queue_all_in.
Qed.

Section progress.
Context `{IncidentText} (lower quote : string → string) (lower_nil : lower "" = "").

(** The row a step wrote. *)
Lemma put_row_lookup used now e x h s : step_ok used now e → inv used now s → row_ok x = true →
  rows (outbox (svStore (put_row_step e x h s))) !! ndID x = Some (clampNotifyDelivery x).
Proof.
  intros Hso Hi Hx. destruct (put_written (eRange e) (eDisk e) x h (svStore s) (so_range _ _ _ Hso) (so_disk _ _ _ Hso)
    (iv_loaded _ _ _ Hi) (iv_ok _ _ _ Hi) Hx) as [[W1 W2 W3 W4] _].
  pose proof (ow_row _ _ _ _ (evolves_owned _ _ _ W4)) as Hr. rewrite (proj1 (clamp_fields x)) in Hr. exact Hr.
Qed.
Lemma start_settles used now e id row oc reason s : step_ok used now e → inv used now s →
  rows (outbox (svStore s)) !! id = Some row → negb (oc =?? NotifyOutcomePlanned) = true →
  ∃ x, rows (outbox (svStore (put_row_step e (settle oc reason (eNow e) row) None s))) !! id = Some x ∧ Settled x = true.
Proof.
  intros Hso Hi Hrow Hoc. destruct (ob_rows _ (iv_ok _ _ _ Hi) _ _ Hrow) as [Hid Hok].
  exists (clampNotifyDelivery (settle oc reason (eNow e) row)). split; [|by rewrite clamp_settled].
  pose proof (put_row_lookup used now e (settle oc reason (eNow e) row) None s Hso Hi Hok) as Hr.
  change (ndID (settle oc reason (eNow e) row)) with (ndID row) in Hr. by rewrite Hid in Hr.
Qed.

(** C36. No delivery gets stuck.  In any state the server reaches while the
    disk takes its writes, whatever else is planned, sent and recorded in
    between: a drain queues every unsettled delivery that is due, not in
    flight and, when quiet hours held it, next in turn; the attempt a queued
    delivery is taken up for settles it or hands it to its channel; and what
    the channel answers, whatever it is, settles the delivery, or is its
    first, second or third answer and leaves it due five seconds, thirty
    seconds or two minutes later; the fourth answer always settles it. *)
Theorem delivery_progresses used now s id row e : reach lower quote used now s → step_ok used now e →
  rows (outbox (svStore s)) !! id = Some row → Settled row = false →
  (svInflight s !! id = None → ndNextAttemptAt row <= eNow e → its_turn (outbox (svStore s)) row →
     svInflight (step lower quote e ADrain s) !! id = Some Queued) ∧
  (svInflight s !! id = Some Queued → let s' := step lower quote e (AStart id) s in
     (∃ x, rows (outbox (svStore s')) !! id = Some x ∧ Settled x = true) ∨ ∃ c, svInflight s' !! id = Some (Sending row c)) ∧
  (∀ row0 c err at_ ms, svInflight s !! id = Some (Sending row0 c) → ∃ x,
     rows (outbox (svStore (step lower quote e (ARecord id err at_ ms) s))) !! id = Some x ∧
     ndAttempts x = ndAttempts row ++ [attempt_of at_ ms err] ∧
     (Settled x = true ∨ ∃ delay, [5 * second; 30 * second; 2 * minute] !! length (ndAttempts row) = Some delay ∧
        ndNextAttemptAt x = time_add at_ delay)).
Proof.
  intros Hr Hso Hrow Hs. destruct (reach_inv lower quote lower_nil _ _ _ Hr) as [Hi _].
  destruct (ob_rows _ (iv_ok _ _ _ Hi) _ _ Hrow) as [Hid Hok]. split_and!.
  - intros Hf Hdue Hturn. by apply (drain_queues used now s (eNow e) id row).
  - intros Hf. cbn [step]. unfold start_attempt. rewrite Hf. unfold get_delivery. rewrite Hrow, Hs. cbv zeta.
    destruct (negb (heldIncidentWithdrawal _ _ _ _ _ =?? "")); [left; by apply (start_settles used now)|].
    destruct (notifyChannelByID _ _) as [c|]; [|left; by apply (start_settles used now)].
    destruct (negb (ncEnabled c)); [left; by apply (start_settles used now)|].
    right. eexists. rewrite lookup_set_phase. by rewrite bool_decide_eq_true_2.
  - intros row0 c err at_ ms Hf. pose proof (iv_sending _ _ _ Hi _ _ _ Hf) as Hrow0.
    assert (row0 = row) as -> by congruence. cbn [step]. unfold record_attempt. rewrite Hf. unfold receipt. cbv zeta.
    set (a := attempt_of at_ ms err). set (y := attempted err a row).
    destruct (notifyHealthTransition _ _ _) as [[h announce] recovered].
    assert (ndID y = ndID row ∧ row_ok y = true) as [Hyid Hyok].
    { unfold y, attempted. destruct (redactSendError err) as [[k st] tr]. destruct err; [destruct (tr && _)|]; done. }
    exists (clampNotifyDelivery y). split_and!.
    + pose proof (put_row_lookup used now e y (Some h) s Hso Hi Hyok) as Hx. rewrite Hyid, Hid in Hx. exact Hx.
    + rewrite (al_attempts _ _ (alike_clamp y)). by apply attempted_cases.
    + rewrite clamp_settled, (proj1 (proj2 (clamp_schedule y))). destruct (Settled y) eqn:Ey; [by left|right].
      destruct (attempted_cases err a row Hs) as [_ Hn]. destruct (Hn Ey) as [Hlt Hnext].
      destruct (lookup_lt_is_Some_2 [5 * second; 30 * second; 2 * minute] (length (ndAttempts row)) Hlt) as [delay Hd].
      exists delay. split; [done|]. assert (notifyRetryDelays !! length (ndAttempts row) = Some delay) as Hd' by exact Hd.
      unfold y. rewrite Hnext, Hd'. cbn [default]. unfold a, attempt_of. by destruct (redactSendError err) as [[k st] tr].
Qed.
End progress.

(** ** A run *)

Module DeliveryDemo.
Import OutboxDemo.
#[export] Instance demo_text : IncidentText := {| stamp := format_key |}.
Definition phone : NotifyChannel := mkChannel "c1" "Phone" "ntfy" true ∅.
Definition desk : NotifyChannel := mkChannel "c2" "Desk" "telegram" true ∅.
(** The phone falls back to the desk. *)
Definition conf : config := mkConfig [phone; desk] [] ∅ {[ "c1" := "c2" ]} (fun _ => None).
Definition at_min (n : Z) : time := day1 + n * minute.
Definition night (id event : string) (created : Z) : NotifyDelivery :=
  mkDelivery id event "node.offline" "server" "" "" "r1" "Nights" "c1" "Phone" "ntfy" "primary" "" "" NotifyOutcomePlanned ""
    [] (at_min 60) false "Down" "n1 is down" false (at_min created) 0 0 0 "" (at_min 60) [].
Definition first : NotifyDelivery := night "nd_a" "evt_a" 1.
Definition second_ : NotifyDelivery := night "nd_b" "evt_b" 2.
(** Two messages held over night for a phone that failed twice the evening
    before. *)
Definition ailing : NotifyChannelHealth := mkHealth "c1" day1 0 day1 "timeout" 0 2 day1 false 0 0 "" 0.
Definition base : ostore := mkOStore empty_outbox true (Some empty_hot).
Definition held1 : ostore := (PutNotifyDelivery values up first (Some ailing) base).1.
Definition held2 : ostore := (RecordNotifyDeliveries values up [second_] held1).1.
Definition used0 : gset string := {[ "nd_a"; "nd_b"; "evt_a"; "evt_b" ]}.

Definition env_at (k n : Z) : env :=
  let id := dec_of_Z k in
  mkEnv values up conf empty_book (at_min n) ("evt_" +:+ id) ("nd_" +:+ id) ["nd_" +:+ id +:+ "_1"; "nd_" +:+ id +:+ "_2"].
Definition refused : sendError := mkSendError false (Some 400) false None false "".
Definition check_env (used : gset string) (now : time) (e : env) : bool :=
  (now <=? eNow e) && keyable (eNow e) && bool_decide (NoDup (fresh_ids e)) &&
  bool_decide (Forall (fun id => id ∉ used ∧ slash_free id = true) (fresh_ids e)).
Fixpoint run (acts : list (Z * Z * action)) (st : gset string * time * server) : option (gset string * time * server) :=
  match acts with
  | [] => Some st
  | (k, n, a) :: acts =>
    let '(used, now, s) := st in
    if check_env used now (env_at k n)
    then run acts (used_after used (env_at k n), eNow (env_at k n), step (fun x => x) (fun x => x) (env_at k n) a s) else None
  end.
(** The phone refuses the first message, what follows from that is worked
    through, and the second message is on its way. *)
Definition morning : list (Z * Z * action) :=
  [(1, 61, ADrain); (2, 61, AStart "nd_a"); (3, 61, ARecord "nd_a" (Some refused) (at_min 61) 40);
   (4, 61, AFollow "nd_a"); (5, 61, AFollow "nd_a"); (6, 62, AFollow "nd_a"); (7, 62, AFollow "nd_a");
   (8, 180, ADrain); (9, 180, AStart "nd_b")].
Definition noon : list (Z * Z * action) := morning ++ [(10, 181, ARecord "nd_b" (Some refused) (at_min 181) 40)].
Definition start : gset string * time * server := (used0, at_min 3, mkServer held2 ∅ []).
Definition at_morning : gset string * time * server := default start (run morning start).
Definition at_noon : gset string * time * server := default start (run noon start).

Lemma empty_ok : outbox_ok empty_outbox.
Proof.
  assert (reindex values empty_outbox = empty_outbox) as <- by (by vm_compute).
  apply (outbox_reindex_ok values empty_outbox values_valid); [|done]. intros id d Hd. cbn in Hd. by rewrite lookup_empty in Hd.
Qed.
Lemma held1_written : written base (PutNotifyDelivery values up first (Some ailing) base) [clampNotifyDelivery first].
Proof. apply (put_written values up first (Some ailing) base values_valid eq_refl eq_refl empty_ok). by vm_compute. Qed.
Lemma held2_written : written held1 (RecordNotifyDeliveries values up [second_] held1) (clampNotifyDeliveries [second_]).
Proof.
  apply (record_written values up [second_] held1 values_valid eq_refl); [apply held1_written|apply held1_written|done|apply NoDup_singleton|].
  intros x [->|Hx]%elem_of_cons; [by vm_compute|by apply not_elem_of_nil in Hx].
Qed.
Lemma held2_rows id row : rows (outbox held2) !! id = Some row → (id = "nd_a" ∧ row = first) ∨ (id = "nd_b" ∧ row = second_).
Proof.
  assert (map_to_list (rows (outbox held2)) ≡ₚ [("nd_a", first); ("nd_b", second_)]) as E.
  { assert (map_to_list (rows (outbox held2)) = [("nd_b", second_); ("nd_a", first)] ∨
            map_to_list (rows (outbox held2)) = [("nd_a", first); ("nd_b", second_)]) as [-> | ->];
      [vm_compute; by (left; reflexivity) || (right; reflexivity)|apply Permutation_swap|done]. }
  intros H%elem_of_map_to_list. rewrite E in H. apply elem_of_cons in H as [[= -> ->]|H]; [by left|].
  apply elem_of_cons in H as [[= -> ->]|H]; [by right|by apply not_elem_of_nil in H].
Qed.
Lemma held2_started : started used0 (at_min 3) held2.
Proof.
  split_and!; [apply held2_written|apply held2_written|]. split.
  - intros id row [[-> ->]|[-> ->]]%held2_rows; (split_and!; [set_solver|set_solver|by vm_compute]).
  - intros id row [[-> ->]|[-> ->]]%held2_rows; cbn; (split; [|intros _]; lia).
  - intros id1 id2 a b [[-> ->]|[-> ->]]%held2_rows [[-> ->]|[-> ->]]%held2_rows; done.
Qed.
Lemma check_env_ok used now k n : check_env used now (env_at k n) = true → step_ok used now (env_at k n).
Proof.
  unfold check_env. rewrite !andb_true_iff, !bool_decide_eq_true, Z.leb_le, Forall_forall. intros [[[H1 H2] H3] H4].
  split; [apply values_valid|done..].
Qed.
Lemma run_reach acts : ∀ st st', reach (fun x => x) (fun x => x) st.1.1 st.1.2 st.2 → run acts st = Some st' →
  reach (fun x => x) (fun x => x) st'.1.1 st'.1.2 st'.2.
Proof.
  induction acts as [|[[k n] a] acts IH]; intros [[used now] s] st' Hr; cbn [run]; [by intros [= <-]|].
  destruct (check_env used now (env_at k n)) eqn:E; [|done]. apply IH. cbn [fst snd]. apply (reach_step _ _ used now); [done|].
  by apply check_env_ok.
Qed.
Lemma run_default acts : is_Some (run acts start) →
  reach (fun x => x) (fun x => x) (default start (run acts start)).1.1 (default start (run acts start)).1.2 (default start (run acts start)).2.
Proof.
  intros [st E]. rewrite E. apply (run_reach acts start st); [|done]. apply reach_start, held2_started.
Qed.
Lemma ran acts : bool_decide (is_Some (run acts start)) = true → is_Some (run acts start).
Proof. by rewrite bool_decide_eq_true. Qed.
End DeliveryDemo.

(** ** A receipt the disk refuses *)

Module RefusedReceipt.
Import OutboxDemo DeliveryDemo.
End RefusedReceipt.


(** ** Witnesses *)

#[local] Existing Instance DeliveryDemo.demo_text.

Lemma sends_bounded_witness :
  sends "nd_b" (svLog DeliveryDemo.at_noon.2) = 1%nat ∧ ∀ id, (sends id (svLog DeliveryDemo.at_noon.2) <= 4)%nat.
Proof.
  split; [by vm_compute|]. eapply (sends_bounded (fun x => x) (fun x => x) eq_refl).
  apply (DeliveryDemo.run_default DeliveryDemo.noon), DeliveryDemo.ran. by vm_compute.
Defined.

(** The first message once the second, held for the same rule, is being sent. *)
Definition older_row : NotifyDelivery := default zero_delivery (rows (outbox (svStore DeliveryDemo.at_morning.2)) !! "nd_a").
Lemma held_messages_in_order_witness :
  rows (outbox (svStore DeliveryDemo.at_morning.2)) !! "nd_a" = Some older_row ∧ held older_row = true ∧ Settled older_row = true.
Proof.
  assert (rows (outbox (svStore DeliveryDemo.at_morning.2)) !! "nd_a" = Some older_row) as Hx by (by vm_compute).
  split; [exact Hx|]. split; [by vm_compute|].
  apply (held_messages_in_order (fun x => x) (fun x => x) eq_refl DeliveryDemo.at_morning.1.1 DeliveryDemo.at_morning.1.2
    DeliveryDemo.at_morning.2 "nd_b" DeliveryDemo.second_ DeliveryDemo.phone) with (id' := "nd_a"); [|by vm_compute|by vm_compute|exact Hx|by vm_compute..].
  apply (DeliveryDemo.run_default DeliveryDemo.morning), DeliveryDemo.ran. by vm_compute.
Defined.

(** The row the phone's refusal of the first message sent to the desk. *)
Definition desk_row : NotifyDelivery := default zero_delivery (rows (outbox (svStore DeliveryDemo.at_morning.2)) !! "nd_5").
Lemma fallback_reaches_new_channel_witness :
  rows (outbox (svStore DeliveryDemo.at_morning.2)) !! ndID desk_row = Some desk_row ∧ ndRole desk_row = NotifyRoleFallback ∧
  ∀ b, rows (outbox (svStore DeliveryDemo.at_morning.2)) !! ndID b = Some b → ndEventID b = ndEventID desk_row →
    ndChannelID b = ndChannelID desk_row → b = desk_row.
Proof.
  split; [by vm_compute|]. split; [by vm_compute|]. intros b Hb.
  apply (fallback_reaches_new_channel (fun x => x) (fun x => x) eq_refl DeliveryDemo.at_morning.1.1 DeliveryDemo.at_morning.1.2
    DeliveryDemo.at_morning.2 desk_row b); [|by vm_compute|exact Hb|by vm_compute].
  apply (DeliveryDemo.run_default DeliveryDemo.morning), DeliveryDemo.ran. by vm_compute.
Defined.

(** The two announcements of the phone's failures are two hours apart. *)
Lemma announcements_spaced_witness :
  notifyChannelFailingEvery <= time_sub (DeliveryDemo.at_min 181) (DeliveryDemo.at_min 61).
Proof.
  refine (proj1 (announcements_spaced (fun x => x) (fun x => x) eq_refl DeliveryDemo.at_noon.1.1 DeliveryDemo.at_noon.1.2
    DeliveryDemo.at_noon.2 _) [] (tail (svLog DeliveryDemo.at_noon.2)) "c1" _ _ _ _); [|by vm_compute..].
  apply (DeliveryDemo.run_default DeliveryDemo.noon), DeliveryDemo.ran. by vm_compute.
Defined.

Lemma reconcile_settles_stale_witness :
  is_Some (rows (outbox (reconcileNotifyOutbox OutboxDemo.values OutboxDemo.up (DeliveryDemo.at_min 600) DeliveryDemo.held2).1) !! "nd_a").
Proof.
  refine (proj2 (reconcile_settles_stale OutboxDemo.values OutboxDemo.up (DeliveryDemo.at_min 600) DeliveryDemo.held2
    OutboxDemo.values_valid eq_refl _ _) "nd_a" DeliveryDemo.first _ _);
    [apply DeliveryDemo.held2_written|apply DeliveryDemo.held2_written|by vm_compute..].
Defined.

(** The phone is busy when the first message of the morning reaches it. *)
Definition busy : option sendError := Some (mkSendError false (Some 503) false None false "").
Definition sending : gset string * time * server :=
  default DeliveryDemo.start (DeliveryDemo.run [(1, 61, ADrain); (2, 61, AStart "nd_a")] DeliveryDemo.start).
Lemma delivery_progresses_witness :
  ∃ x, rows (outbox (svStore (step (fun x => x) (fun x => x) (DeliveryDemo.env_at 3 61)
      (ARecord "nd_a" busy (DeliveryDemo.at_min 61) 40) sending.2))) !! "nd_a" = Some x ∧
    ndAttempts x = [attempt_of (DeliveryDemo.at_min 61) 40 busy].
Proof.
  assert (reach (fun x => x) (fun x => x) sending.1.1 sending.1.2 sending.2) as Hr.
  { apply (DeliveryDemo.run_default [(1, 61, ADrain); (2, 61, AStart "nd_a")]), DeliveryDemo.ran. by vm_compute. }
  assert (step_ok sending.1.1 sending.1.2 (DeliveryDemo.env_at 3 61)) as Hso by (apply DeliveryDemo.check_env_ok; by vm_compute).
  assert (svInflight sending.2 !! "nd_a" = Some (Sending DeliveryDemo.first DeliveryDemo.phone)) as Hf by (by vm_compute).
  destruct (delivery_progresses (fun x => x) (fun x => x) eq_refl sending.1.1 sending.1.2 sending.2 "nd_a" DeliveryDemo.first
    (DeliveryDemo.env_at 3 61) Hr Hso) as (_ & _ & H3); [by vm_compute|by vm_compute|].
  destruct (H3 DeliveryDemo.first DeliveryDemo.phone busy (DeliveryDemo.at_min 61) 40 Hf) as (x & H4 & H5 & _).
  exists x. split; [exact H4|exact H5].
Defined.
