(* ===== verification/Versions.v ===== *)
(** * Version ranges, server floors and agent releases

    internal/plugin/versionrange.go, internal/plugin/serverfloor.go and the
    version order of internal/store/task_attempts.go.  The regular expressions
    of the source are written as the deterministic matchers they denote. *)

From Stdlib Require Import ZArith Lia Ascii.
From S2P Require Import Prelude GoStr.

Local Open Scope Z_scope.

(** ** [strconv.Atoi] *)

(** Value and error flag; out of range clamps, as [ParseInt] does. *)
Definition all_digits (s : string) : bool := forallb is_digit (bytes_of s).
Definition atoi (s : string) : Z * bool :=
  let '(neg, d) := match s with
                   | String "-" r => (true, r)
                   | String "+" r => (false, r)
                   | _ => (false, s)
                   end in
  if (d =?? "") || negb (all_digits d) then (0, true) else
  let v := Z.of_N (dec_value_go 0 d) in
  let v := if neg then - v else v in
  if v <? int64_min then (int64_min, true)
  else if int64_max <? v then (int64_max, true)
  else (v, false).

Example atoi_ex : atoi "007" = (7, false) ∧ atoi "-1" = (-1, false) ∧ atoi "1a" = (0, true)
  ∧ atoi "9223372036854775808" = (int64_max, true).
Proof. vm_compute. done. Qed.

(** ** Comparing versions *)

Definition splitVersion (v : string) : list Z * string :=
  let v := trim_space (trim_prefix v "v") in
  let '(v, prerelease) :=
    match index_byte v "-" with
    | Some i => (str_take i v, str_drop (S i) v)
    | None => (v, "")
    end in
  ((fun part => (atoi part).1) <$> split v ".", prerelease).

(** The numeric core, the shorter one padded with zeros. *)
Fixpoint cmpCore (ca cb : list Z) : Z :=
  match ca, cb with
  | [], [] => 0
  | x :: ca, [] => if x =? 0 then cmpCore ca [] else if x <? 0 then -1 else 1
  | [], y :: cb' =>
    (fix zeros (l : list Z) : Z :=
       match l with
       | [] => 0
       | y :: l => if 0 =? y then zeros l else if 0 <? y then -1 else 1
       end) cb
  | x :: ca, y :: cb => if x =? y then cmpCore ca cb else if x <? y then -1 else 1
  end.

Definition string_compare (a b : string) : Z :=
  match String.compare a b with Lt => -1 | Eq => 0 | Gt => 1 end.

(** One pair of prerelease segments; [0] continues with the next. *)
Definition cmpSegment (a b : string) : Z :=
  if a =?? b then 0 else
  let '(na, erra) := atoi a in
  let '(nb, errb) := atoi b in
  match erra, errb with
  | false, false => if na =? nb then 0 else if na <? nb then -1 else 1
  | false, true => -1
  | true, false => 1
  | true, true => string_compare a b
  end.

Fixpoint cmpSegments (sa sb : list string) : Z :=
  match sa, sb with
  | [], [] => 0
  | [], _ :: _ => -1
  | _ :: _, [] => 1
  | a :: sa, b :: sb => if cmpSegment a b =? 0 then cmpSegments sa sb else cmpSegment a b
  end.

Definition compareVersions (a b : string) : Z :=
  let '(ca, pa) := splitVersion a in
  let '(cb, pb) := splitVersion b in
  let c := cmpCore ca cb in
  if negb (c =? 0) then c
  else if (pa =?? "") && (pb =?? "") then 0
  else if pa =?? "" then 1
  else if pb =?? "" then -1
  else cmpSegments (split pa ".") (split pb ".").

(** ** Comparator sets *)

Inductive comparator := CEq | CNe | CGe | CLe | CGt | CLt.

(** The longest prefix of digits, and the rest. *)
Fixpoint span (p : ascii → bool) (s : string) : string * string :=
  match s with
  | "" => ("", "")
  | String c r => if p c then let '(d, r') := span p r in (String c d, r') else ("", s)
  end.

Definition regex_space (c : ascii) : bool :=
  mem c [byte_of 9; byte_of 10; byte_of 12; byte_of 13; byte_of 32].
Definition pre_byte (c : ascii) : bool :=
  is_digit c || is_upper c || is_lower c || (c =?? "."%char) || (c =?? "-"%char).

(** [[0-9]+(?:\.[0-9]+){0,groups}(?:-[0-9A-Za-z.-]+)?$] *)
Fixpoint match_version (groups : nat) (s : string) : bool :=
  let '(d, rest) := span is_digit s in
  if d =?? "" then false else
  match rest with
  | "" => true
  | String c r =>
    if c =?? "-"%char then negb (r =?? "") && forallb pre_byte (bytes_of r)
    else if c =?? "."%char then match groups with O => false | S g => match_version g r end
    else false
  end.

Definition match_op (s : string) : comparator * string :=
  if has_prefix s ">=" then (CGe, str_drop 2 s)
  else if has_prefix s "<=" then (CLe, str_drop 2 s)
  else if has_prefix s "==" then (CEq, str_drop 2 s)
  else if has_prefix s "!=" then (CNe, str_drop 2 s)
  else if has_prefix s "=" then (CEq, str_drop 1 s)
  else if has_prefix s ">" then (CGt, str_drop 1 s)
  else if has_prefix s "<" then (CLt, str_drop 1 s)
  else (CEq, s).

Definition versionComparatorRe (term : string) : option (comparator * string) :=
  let '(op, s) := match_op term in
  let want := (span regex_space s).2 in
  if match_version 2 want then Some (op, want) else None.

Definition holds (op : comparator) (cmp : Z) : bool :=
  match op with
  | CEq => cmp =? 0
  | CNe => negb (cmp =? 0)
  | CGe => negb (cmp <? 0)
  | CLe => negb (0 <? cmp)
  | CGt => negb (cmp <=? 0)
  | CLt => negb (0 <=? cmp)
  end.

Definition terms (rangeExpr : string) : list string :=
  fields_func rangeExpr (fun c => (c =?? ","%char) || (c =?? " "%char)).

Definition versionInRange (version rangeExpr : string) : bool :=
  let rangeExpr := trim_space rangeExpr in
  if (rangeExpr =?? "") || (rangeExpr =?? "*") then true else
  forallb (fun term =>
    match versionComparatorRe term with
    | None => false
    | Some (op, want) => holds op (compareVersions version want)
    end) (terms rangeExpr).
Definition VersionInRange := versionInRange.

(** [Err term] names the first comparator that does not parse. *)
Fixpoint first_invalid (ts : list string) : res string unit :=
  match ts with
  | [] => Ok tt
  | t :: ts => match versionComparatorRe t with None => Err t | Some _ => first_invalid ts end
  end.
Definition validVersionRange (rangeExpr : string) : res string unit :=
  let rangeExpr := trim_space rangeExpr in
  if (rangeExpr =?? "") || (rangeExpr =?? "*") then Ok tt else first_invalid (terms rangeExpr).

Example range_ex :
  versionInRange "v0.8.1" ">=0.8.0-alpha.5, <0.9" = true ∧
  versionInRange "0.8.0-alpha.4" ">=0.8.0-alpha.5" = false ∧
  versionInRange "0.9.0-rc.1" "<0.9" = true ∧ versionInRange "1.0" "= 1" = false.
Proof. vm_compute. done. Qed.

(** ** Server floors *)

(** [[0-9]+\.[0-9]+\.[0-9]+]: the matched text and the rest. *)
Definition match_triple (s : string) : option (string * string) :=
  let '(a, r) := span is_digit s in
  match r with
  | String "." r =>
    let '(b, r) := span is_digit r in
    match r with
    | String "." r =>
      let '(c, r) := span is_digit r in
      if (a =?? "") || (b =?? "") || (c =?? "") then None
      else Some (a +:+ "." +:+ b +:+ "." +:+ c, r)
    | _ => None
    end
  | _ => None
  end.

Definition match_release (s : string) : option string :=
  match match_triple (trim_prefix s "v") with Some (v, "") => Some v | _ => None end.
Definition match_channel (prefix sep name s : string) : option string :=
  if negb (has_prefix s prefix) then None else
  match match_triple (str_drop (String.length prefix) s) with
  | Some (v, r) =>
    if negb (has_prefix r sep) then None else
    let n := str_drop (String.length sep) r in
    if negb (n =?? "") && all_digits n then Some (v +:+ name +:+ n) else None
  | None => None
  end.

Definition ServerSemver (tag : string) : option string :=
  let t := trim_space tag in
  match match_release t with
  | Some v => Some v
  | None =>
    match match_channel "alpha-" "a" "-alpha." t with
    | Some v => Some v
    | None => match_channel "beta-" "b" "-beta." t
    end
  end.

Example semver_ex : ServerSemver "alpha-0.2.2a147" = Some "0.2.2-alpha.147" ∧
  ServerSemver "beta-0.2.2b3" = Some "0.2.2-beta.3" ∧ ServerSemver "v0.2.3" = Some "0.2.3" ∧
  ServerSemver "dev" = None ∧ ServerSemver "vv0.2.3" = None.
Proof. vm_compute. done. Qed.

Record Manifest := mkManifest {
  CompatibilityServer : option string;
  MinServer : string;
}.

Definition floor_range (floor : string) : string :=
  match floor with
  | String c _ => if is_digit c then ">=" +:+ floor else floor
  | "" => floor
  end.

(** [Err range] names the floor that is not met. *)
Fixpoint checkFloors (serverVersion : string) (floors : list string) : res string unit :=
  match floors with
  | [] => Ok tt
  | floor :: floors =>
    let floor := trim_space floor in
    if (floor =?? "") || (floor =?? "*") then checkFloors serverVersion floors else
    let rangeExpr := floor_range floor in
    match validVersionRange rangeExpr with
    | Err _ => checkFloors serverVersion floors
    | Ok _ =>
      if negb (versionInRange serverVersion rangeExpr) then Err rangeExpr
      else checkFloors serverVersion floors
    end
  end.
Definition checkServerFloor (m : Manifest) (serverVersion : string) : res string unit :=
  if serverVersion =?? "" then Ok tt else
  checkFloors serverVersion
    (match CompatibilityServer m with Some s => [s] | None => [] end ++ [MinServer m]).

(** ** Agent releases (internal/store/task_attempts.go) *)

(** [^v?([0-9]+)\.([0-9]+)\.([0-9]+)(?:-(alpha|beta|rc)\.([0-9]+))?$]: the
    five capture groups. *)
Definition agentVersionPattern (raw : string) : option (string * string * string * string * string) :=
  let '(a, r) := span is_digit (trim_prefix raw "v") in
  match r with
  | String "." r =>
    let '(b, r) := span is_digit r in
    match r with
    | String "." r =>
      let '(c, r) := span is_digit r in
      if (a =?? "") || (b =?? "") || (c =?? "") then None else
      let suffix name := 
        if has_prefix r ("-" +:+ name +:+ ".") then
          let n := str_drop (String.length name + 2) r in
          if negb (n =?? "") && all_digits n then Some (a, b, c, name, n) else None
        else None in
      if r =?? "" then Some (a, b, c, "", "")
      else match suffix "alpha" with
           | Some m => Some m
           | None => match suffix "beta" with Some m => Some m | None => suffix "rc" end
           end
    | _ => None
    end
  | _ => None
  end.

Definition rank (name : string) : Z :=
  if name =?? "alpha" then 0 else if name =?? "beta" then 1 else if name =?? "rc" then 2 else 3.

Definition parseAgentVersionParts (raw : string) : option (list Z) :=
  match agentVersionPattern raw with
  | None => None
  | Some (a, b, c, name, n) =>
    let '(va, ea) := atoi a in
    let '(vb, eb) := atoi b in
    let '(vc, ec) := atoi c in
    if ea || eb || ec then None else
    if n =?? "" then Some [va; vb; vc; rank name; 0] else
    let '(vn, en) := atoi n in
    if en then None else Some [va; vb; vc; rank name; vn]
  end.

Fixpoint cmpParts (l r : list Z) : Z :=
  match l, r with
  | x :: l, y :: r => if y <? x then 1 else if x <? y then -1 else cmpParts l r
  | _, _ => 0
  end.

(** [None] is "not comparable". *)
Definition CompareAgentVersions (a b : string) : option Z :=
  match parseAgentVersionParts a, parseAgentVersionParts b with
  | Some l, Some r => Some (cmpParts l r)
  | _, _ => None
  end.

Example agent_ex : CompareAgentVersions "v1.2.3-rc.2" "1.2.3" = Some (-1) ∧
  CompareAgentVersions "1.2.3-beta.10" "1.2.3-beta.9" = Some 1 ∧
  CompareAgentVersions "1.2.3 " "1.2.3" = None.
Proof. vm_compute. done. Qed.

(** ** Comparisons as total preorders *)

Class PreCmp {A} (cmp : A → A → Z) : Prop := {
  cmp_anti : ∀ x y, cmp x y = - cmp y x;
  cmp_trans : ∀ x y z, cmp x y <= 0 → cmp y z <= 0 → cmp x z <= 0;
}.

Lemma cmp_refl {A} (cmp : A → A → Z) `{!PreCmp cmp} x : cmp x x = 0.
Proof. pose proof (cmp_anti x x). lia. Qed.
Lemma cmp_trans_lt {A} (cmp : A → A → Z) `{!PreCmp cmp} x y z :
  cmp x y < 0 → cmp y z <= 0 → cmp x z < 0.
Proof.
  intros H1 H2. pose proof (cmp_trans x y z). pose proof (cmp_trans y z x).
  pose proof (cmp_anti x y). pose proof (cmp_anti x z). lia.
Qed.
Lemma cmp_trans_lt_r {A} (cmp : A → A → Z) `{!PreCmp cmp} x y z :
  cmp x y <= 0 → cmp y z < 0 → cmp x z < 0.
Proof.
  intros H1 H2. pose proof (cmp_trans x y z). pose proof (cmp_trans z x y).
  pose proof (cmp_anti y z). pose proof (cmp_anti x z). lia.
Qed.

Definition lex (c1 c2 : Z) : Z := if c1 =? 0 then c2 else c1.
Definition sgn_cmp (x y : Z) : Z := if x =? y then 0 else if x <? y then -1 else 1.

Instance sgn_cmp_pre : PreCmp sgn_cmp.
Proof.
  unfold sgn_cmp. split; intros x y; [|intros z]; repeat case_match; go_bool; lia.
Qed.

(** Lexicographic products and inverse images of comparisons. *)
Lemma lex_anti (c1 c2 d1 d2 : Z) : c1 = - d1 → (c1 = 0 → c2 = - d2) → lex c1 c2 = - lex d1 d2.
Proof. unfold lex. intros. repeat case_match; go_bool; lia. Qed.

Lemma lex_trans {A} (cmp : A → A → Z) `{!PreCmp cmp} x y z (c2xy c2yz c2xz : Z) :
  (c2xy <= 0 → c2yz <= 0 → c2xz <= 0) →
  lex (cmp x y) c2xy <= 0 → lex (cmp y z) c2yz <= 0 → lex (cmp x z) c2xz <= 0.
Proof.
  intros H2. unfold lex.
  pose proof (cmp_trans x y z). pose proof (cmp_trans_lt cmp x y z).
  pose proof (cmp_trans_lt_r cmp x y z). pose proof (cmp_trans z y x).
  pose proof (cmp_anti x y). pose proof (cmp_anti y z). pose proof (cmp_anti x z).
  repeat case_match; go_bool; lia.
Qed.

Lemma lex_pre {A B} (c1 : A → A → Z) (c2 : B → B → Z) `{!PreCmp c1, !PreCmp c2} :
  PreCmp (fun x y : A * B => lex (c1 x.1 y.1) (c2 x.2 y.2)).
Proof.
  split.
  - intros x y. apply lex_anti; [apply cmp_anti|]. intros _. apply cmp_anti.
  - intros x y z. apply lex_trans; [done|]. apply cmp_trans.
Qed.

Lemma map_pre {A B} (f : A → B) (cmp : B → B → Z) `{!PreCmp cmp} :
  PreCmp (fun x y => cmp (f x) (f y)).
Proof. split; intros; [apply cmp_anti|by eapply cmp_trans]. Qed.

Lemma pre_ext {A} (c1 c2 : A → A → Z) : (∀ x y, c1 x y = c2 x y) → PreCmp c2 → PreCmp c1.
Proof. intros H [H1 H2]. split; [intros x y|intros x y z]; rewrite !H; [apply H1|apply H2]. Qed.

(** ** The components of the order *)

Definition hd0 (l : list Z) : Z := default 0 (head l).

Lemma cmpCore_nil_l cb :
  cmpCore [] cb = match cb with [] => 0 | y :: cb => lex (sgn_cmp 0 y) (cmpCore [] cb) end.
Proof.
  destruct cb as [|y cb]; [done|]. unfold lex, sgn_cmp. cbn -[Z.eqb Z.ltb].
  destruct (0 =? y); [|by destruct (0 <? y)]. by destruct cb.
Qed.

Lemma cmpCore_unfold ca cb : cmpCore ca cb = lex (sgn_cmp (hd0 ca) (hd0 cb)) (cmpCore (tail ca) (tail cb)).
Proof.
  destruct ca as [|x ca], cb as [|y cb]; [done|by rewrite cmpCore_nil_l| |];
    unfold hd0, lex, sgn_cmp; cbn -[Z.eqb Z.ltb]; repeat case_match; go_bool; done || lia.
Qed.

Instance cmpCore_pre : PreCmp cmpCore.
Proof.
  split.
  - intros ca cb. remember (max (length ca) (length cb)) as n eqn:Hn.
    assert (max (length ca) (length cb) <= n)%nat as Hm by lia. clear Hn. revert ca cb Hm.
    induction n as [|n IH]; intros ca cb Hm.
    + destruct ca, cb; cbn in Hm; [done|lia..].
    + rewrite (cmpCore_unfold ca), (cmpCore_unfold cb). apply lex_anti; [apply cmp_anti|].
      intros _. apply IH. destruct ca, cb; cbn in *; lia.
  - intros ca cb cc. remember (max (length ca) (max (length cb) (length cc))) as n eqn:Hn.
    assert (max (length ca) (max (length cb) (length cc)) <= n)%nat as Hm by lia. clear Hn.
    revert ca cb cc Hm. induction n as [|n IH]; intros ca cb cc Hm.
    + destruct ca, cb, cc; cbn in Hm; [done|lia..].
    + rewrite (cmpCore_unfold ca cb), (cmpCore_unfold cb cc), (cmpCore_unfold ca cc).
      apply lex_trans; [apply _|]. apply IH. destruct ca, cb, cc; cbn in *; lia.
Qed.

Instance string_compare_pre : PreCmp string_compare.
Proof.
  split.
  - intros x y. unfold string_compare. rewrite (String.compare_antisym x y).
    by destruct (String.compare y x).
  - intros x y z. assert (∀ a b, string_compare a b <= 0 ↔ String.le a b) as Hle.
    { intros a b. unfold string_compare, String.le, String.leb. destruct (String.compare a b); cbn; split; done. }
    rewrite !Hle. intros. by etrans.
Qed.

(** A prerelease segment is a number or text, numbers first. *)
Definition seg_key (s : string) : Z + string :=
  let '(n, err) := atoi s in if err then inr s else inl n.
Definition cmp_key (k l : Z + string) : Z :=
  match k, l with
  | inl n, inl m => sgn_cmp n m
  | inl _, inr _ => -1
  | inr _, inl _ => 1
  | inr s, inr t => string_compare s t
  end.

Instance cmp_key_pre : PreCmp cmp_key.
Proof.
  split.
  - intros [|] [|]; cbn; [apply cmp_anti|done|done|apply cmp_anti].
  - intros [|] [|] [|]; cbn; try lia; apply cmp_trans.
Qed.

Lemma cmpSegment_key a b : cmpSegment a b = cmp_key (seg_key a) (seg_key b).
Proof.
  unfold cmpSegment. case_bool_decide as E; [subst; by rewrite cmp_refl by apply _|].
  unfold seg_key. destruct (atoi a) as [na []], (atoi b) as [nb []]; done.
Qed.

Instance cmpSegment_pre : PreCmp cmpSegment.
Proof. eapply pre_ext; [exact cmpSegment_key|]. apply map_pre, _. Qed.

Instance cmpSegments_pre : PreCmp cmpSegments.
Proof.
  assert (∀ a sa b sb, cmpSegments (a :: sa) (b :: sb) = lex (cmpSegment a b) (cmpSegments sa sb)) as E
    by done.
  split.
  - intros sa. induction sa as [|a sa IH]; intros [|b sb]; [done..|]. rewrite !E.
    apply lex_anti; [apply cmp_anti|]. intros _. apply IH.
  - intros sa. induction sa as [|a sa IH]; intros [|b sb] [|c sc]; try (cbn; lia).
    rewrite !E. apply lex_trans; [apply _|]. apply IH.
Qed.

Definition cmp_pre (pa pb : string) : Z :=
  if (pa =?? "") && (pb =?? "") then 0
  else if pa =?? "" then 1
  else if pb =?? "" then -1
  else cmpSegments (split pa ".") (split pb ".").

Instance cmp_pre_pre : PreCmp cmp_pre.
Proof.
  split; intros x y; [|intros z]; unfold cmp_pre; repeat case_bool_decide; cbn [andb]; try lia.
  - apply cmp_anti.
  - apply cmp_trans.
Qed.

Instance compareVersions_pre : PreCmp compareVersions.
Proof.
  eapply (pre_ext _ (fun a b => lex (cmpCore (splitVersion a).1 (splitVersion b).1)
                                    (cmp_pre (splitVersion a).2 (splitVersion b).2))).
  - intros a b. unfold compareVersions, lex, cmp_pre.
    destruct (splitVersion a), (splitVersion b). cbn [fst snd]. by destruct (cmpCore _ _ =? 0).
  - apply (@map_pre _ _ splitVersion (fun x y => lex (cmpCore x.1 y.1) (cmp_pre x.2 y.2))).
    apply lex_pre; apply _.
Qed.

(** Version comparison is a total preorder on arbitrary strings: swapping
    the arguments negates the result, and it is transitive, with prerelease
    segments, padded cores, overlong numbers and malformed text included. *)
Theorem compareVersions_preorder :
  (∀ a b, compareVersions a b = - compareVersions b a) ∧
  (∀ a b c, compareVersions a b <= 0 → compareVersions b c <= 0 → compareVersions a c <= 0).
Proof. split; [apply cmp_anti|apply cmp_trans]. Qed.

(** ** Ranges *)

Definition is_any (rangeExpr : string) : bool :=
  (trim_space rangeExpr =?? "") || (trim_space rangeExpr =?? "*").
Definition bounded_below (op : comparator) : bool := match op with CGe | CGt => true | _ => false end.
Definition terms_sat (p : comparator → bool) (rangeExpr : string) : Prop :=
  ∀ t op want, t ∈ terms (trim_space rangeExpr) → versionComparatorRe t = Some (op, want) → p op = true.

Lemma versionInRange_spec v r :
  versionInRange v r = true ↔
  is_any r = true ∨
  ∀ t, t ∈ terms (trim_space r) →
    ∃ op want, versionComparatorRe t = Some (op, want) ∧ holds op (compareVersions v want) = true.
Proof.
  unfold versionInRange. fold (is_any r). destruct (is_any r); [naive_solver|].
  rewrite forallb_elem_of. split.
  - intros H. right. intros t Ht. specialize (H t Ht).
    destruct (versionComparatorRe t) as [[op want]|]; [by eauto|done].
  - intros [?|H]; [done|]. intros t Ht. by destruct (H t Ht) as (op & want & -> & ?).
Qed.

(** A range without [!=] is an interval: a version between two versions in
    the range is in the range. *)
Theorem range_convex lo v hi r :
  terms_sat (fun op => match op with CNe => false | _ => true end) r →
  versionInRange lo r = true → versionInRange hi r = true →
  compareVersions lo v <= 0 → compareVersions v hi <= 0 → versionInRange v r = true.
Proof.
  intros Hop Hlo Hhi H1 H2. rewrite versionInRange_spec in *.
  destruct Hlo as [?|Hlo]; [by left|]. destruct Hhi as [?|Hhi]; [by left|]. right. intros t Ht.
  destruct (Hlo t Ht) as (op & want & He & Hl). destruct (Hhi t Ht) as (op' & want' & He' & Hh).
  rewrite He in He'. injection He' as <- <-. specialize (Hop _ _ _ Ht He).
  exists op, want. split; [done|].
  pose proof (cmp_trans lo v want). pose proof (cmp_trans v hi want).
  pose proof (cmp_trans want lo v). pose proof (cmp_trans_lt_r _ v hi want).
  pose proof (cmp_trans_lt _ want lo v).
  pose proof (cmp_anti want v). pose proof (cmp_anti want lo). pose proof (cmp_anti want hi).
  destruct op; cbn in *; go_bool; lia || done.
Qed.

Lemma versionInRange_upward v v' r :
  terms_sat bounded_below r → versionInRange v r = true → compareVersions v v' <= 0 →
  versionInRange v' r = true.
Proof.
  intros Hop Hin Hle. rewrite versionInRange_spec in *. destruct Hin as [?|Hin]; [by left|]. right.
  intros t Ht. destruct (Hin t Ht) as (op & want & He & Hh). exists op, want. split; [done|].
  specialize (Hop _ _ _ Ht He).
  pose proof (cmp_trans want v v'). pose proof (cmp_trans_lt _ want v v').
  pose proof (cmp_anti want v). pose proof (cmp_anti want v').
  destruct op; cbn in *; go_bool; lia || done.
Qed.

(** Upgrading the server never breaks a floor: if every floor of a manifest
    that parses uses only lower bounds (a bare version counts as one) and the
    running server meets them, so does every later version. *)
Theorem upgrade_keeps_floor m v v' :
  (∀ floor, floor ∈ match CompatibilityServer m with Some s => [s] | None => [] end ++ [MinServer m] →
     terms_sat bounded_below (floor_range (trim_space floor))) →
  v ≠ "" → compareVersions v v' <= 0 →
  checkServerFloor m v = Ok tt → checkServerFloor m v' = Ok tt.
Proof.
  intros Hf Hv Hle. unfold checkServerFloor. rewrite bool_decide_eq_false_2 by done.
  case_bool_decide; [done|]. revert Hf. generalize (match CompatibilityServer m with Some s => [s] | None => [] end ++ [MinServer m]).
  intros floors. induction floors as [|f floors IH]; intros Hf; cbn; [done|].
  assert (checkFloors v floors = Ok tt → checkFloors v' floors = Ok tt) as IH'.
  { apply IH. intros floor Hin. apply Hf. by right. }
  destruct (_ || _); [done|]. destruct (validVersionRange _); [|done].
  destruct (versionInRange v _) eqn:E; [|done]. cbn.
  rewrite (versionInRange_upward v v'); [done| |done..]. apply Hf. left.
Qed.

Lemma compareVersions_preorder_witness : compareVersions "1.2-rc.1" "1.3" <= 0.
Proof.
  apply (proj2 compareVersions_preorder "1.2-rc.1" "1.2" "1.3"); vm_compute; discriminate.
Defined.

Lemma range_convex_witness : versionInRange "0.8.5" ">=0.8.0-alpha.5,<0.9" = true.
Proof.
  apply (range_convex "0.8.0" "0.8.5" "0.8.9").
  - intros t op want Ht. revert op want.
    apply (Forall_forall (fun t => ∀ op want, versionComparatorRe t = Some (op, want) →
      match op with CNe => false | _ => true end = true) (terms (trim_space ">=0.8.0-alpha.5,<0.9"))); [|done].
    vm_compute. repeat constructor; by intros op want [= <- <-].
  - vm_compute. reflexivity.
  - vm_compute. reflexivity.
  - vm_compute. discriminate.
  - vm_compute. discriminate.
Defined.

Lemma upgrade_keeps_floor_witness :
  checkServerFloor (mkManifest (Some "0.2.2-alpha.147") "*") "0.2.2" = Ok tt.
Proof.
  apply (upgrade_keeps_floor _ "0.2.2-alpha.150").
  - intros floor Hin t op want Ht. revert op want.
    apply elem_of_cons in Hin as [->|Hin%list_elem_of_singleton].
    + apply (Forall_forall (fun t => ∀ op want, versionComparatorRe t = Some (op, want) →
        bounded_below op = true) (terms (trim_space (floor_range (trim_space "0.2.2-alpha.147"))))); [|done].
      vm_compute. repeat constructor; by intros op want [= <- <-].
    + subst. apply (Forall_forall (fun t => ∀ op want, versionComparatorRe t = Some (op, want) →
        bounded_below op = true) (terms (trim_space (floor_range (trim_space "*"))))); [|done].
      vm_compute. repeat constructor; by intros op want [= <- <-].
  - discriminate.
  - vm_compute. discriminate.
  - vm_compute. reflexivity.
Defined.

(** ** Agent releases *)

Lemma cmpParts_anti l r : length l = length r → cmpParts l r = - cmpParts r l.
Proof.
  revert r. induction l as [|x l IH]; intros [|y r] H; cbn in *; try done.
  specialize (IH r ltac:(lia)). repeat case_match; go_bool; lia.
Qed.

Lemma parts_length raw l : parseAgentVersionParts raw = Some l → length l = 5%nat.
Proof. unfold parseAgentVersionParts. intros H. repeat case_match; by simplify_eq. Qed.

Lemma CompareAgentVersions_anti a b c :
  CompareAgentVersions a b = Some c → CompareAgentVersions b a = Some (- c).
Proof.
  unfold CompareAgentVersions.
  destruct (parseAgentVersionParts a) as [l|] eqn:Ea; [|done].
  destruct (parseAgentVersionParts b) as [r|] eqn:Eb; [|done].
  intros [= <-]. f_equal. apply cmpParts_anti.
  by rewrite (parts_length _ _ Ea), (parts_length _ _ Eb).
Qed.
