(* ===== verification/StoreState.v ===== *)
(** * The shared state of the store (internal/store)

    The parts of the store's [State] that the task and line-chain operations
    read and write, with the records they are made of.  Types of the SDK keep
    the fields the source reads; the SDK's constants and JSON encodings are the
    class [Sdk].  A record update [x.F = v] of the source is [with_F v x]. *)

From Stdlib Require Import ZArith Lia.
From S2P Require Import Prelude GoStr Sha Groups.

Local Open Scope Z_scope.

Record TaskLease := mkLease {
  leLeaseID : string;
  leStartedAt : time;
}.
Record Task := mkTask {
  tID : string;
  tTargets : list string;
  tStatus : string;
  tApprovalID : string;
  RerunOfTaskID : string;
  tCreatedAt : time;
  TimeoutSec : Z;
  TargetLeases : gmap string TaskLease;
  LeasedBy : string;
  tLeaseID : string;
  tStartedAt : time;
  tFinishedAt : time;
  Script : string;
  tActorID : string;
  tTokenID : string;
}.
Definition with_tStatus (v : string) (t : Task) : Task :=
  mkTask (tID t) (tTargets t) v (tApprovalID t) (RerunOfTaskID t) (tCreatedAt t) (TimeoutSec t)
    (TargetLeases t) (LeasedBy t) (tLeaseID t) (tStartedAt t) (tFinishedAt t) (Script t)
    (tActorID t) (tTokenID t).
Definition with_tCreatedAt (v : time) (t : Task) : Task :=
  mkTask (tID t) (tTargets t) (tStatus t) (tApprovalID t) (RerunOfTaskID t) v (TimeoutSec t)
    (TargetLeases t) (LeasedBy t) (tLeaseID t) (tStartedAt t) (tFinishedAt t) (Script t)
    (tActorID t) (tTokenID t).
Definition with_TargetLeases (v : gmap string TaskLease) (t : Task) : Task :=
  mkTask (tID t) (tTargets t) (tStatus t) (tApprovalID t) (RerunOfTaskID t) (tCreatedAt t)
    (TimeoutSec t) v (LeasedBy t) (tLeaseID t) (tStartedAt t) (tFinishedAt t) (Script t)
    (tActorID t) (tTokenID t).
Definition with_LeasedBy (v : string) (t : Task) : Task :=
  mkTask (tID t) (tTargets t) (tStatus t) (tApprovalID t) (RerunOfTaskID t) (tCreatedAt t)
    (TimeoutSec t) (TargetLeases t) v (tLeaseID t) (tStartedAt t) (tFinishedAt t) (Script t)
    (tActorID t) (tTokenID t).
Definition with_tLeaseID (v : string) (t : Task) : Task :=
  mkTask (tID t) (tTargets t) (tStatus t) (tApprovalID t) (RerunOfTaskID t) (tCreatedAt t)
    (TimeoutSec t) (TargetLeases t) (LeasedBy t) v (tStartedAt t) (tFinishedAt t) (Script t)
    (tActorID t) (tTokenID t).
Definition with_tStartedAt (v : time) (t : Task) : Task :=
  mkTask (tID t) (tTargets t) (tStatus t) (tApprovalID t) (RerunOfTaskID t) (tCreatedAt t)
    (TimeoutSec t) (TargetLeases t) (LeasedBy t) (tLeaseID t) v (tFinishedAt t) (Script t)
    (tActorID t) (tTokenID t).
Definition with_tFinishedAt (v : time) (t : Task) : Task :=
  mkTask (tID t) (tTargets t) (tStatus t) (tApprovalID t) (RerunOfTaskID t) (tCreatedAt t)
    (TimeoutSec t) (TargetLeases t) (LeasedBy t) (tLeaseID t) (tStartedAt t) v (Script t)
    (tActorID t) (tTokenID t).
Record TaskResult := mkTaskResult {
  rTaskID : string;
  rNodeID : string;
  rLeaseID : string;
  rExitCode : Z;
  rError : string;
  rFinishedAt : time;
  rOutput : string;
}.
Definition with_rLeaseID (v : string) (r : TaskResult) : TaskResult :=
  mkTaskResult (rTaskID r) (rNodeID r) v (rExitCode r) (rError r) (rFinishedAt r) (rOutput r).
Definition with_rFinishedAt (v : time) (r : TaskResult) : TaskResult :=
  mkTaskResult (rTaskID r) (rNodeID r) (rLeaseID r) (rExitCode r) (rError r) v (rOutput r).

(** Durable replay receipts and per-target lease history. *)
Record TaskResultReceipt := mkReceipt {
  rcTaskID : string;
  rcNodeID : string;
  rcLeaseID : string;
  rcDigest : string;
}.
Record TaskTargetState := mkTargetState {
  tgTaskID : string;
  tgNodeID : string;
  Attempts : Z;
  StalledReason : string;
  StalledAt : time;
}.
Definition zero_target : TaskTargetState := mkTargetState "" "" 0 "" 0.
Record TaskExecContext := mkExecContext {
  xcTaskID : string;
  xcNodeID : string;
}.

Record Approval := mkApproval {
  aID : string;
  aPlugin : string;
  aService : string;
  aMethod : string;
  aAction : string;
  aPlan : string;
  aNodeID : string;
  aTargets : list string;
  aStatus : string;
  aStale : bool;
  aStaleCode : string;
  aReason : string;
  aArtifactDigest : string;
  aRequestSHA256 : string;
  aPluginVersion : string;
  aCreatedAt : time;
  aUpdatedAt : time;
}.
Definition with_aStatus (v : string) (a : Approval) : Approval :=
  mkApproval (aID a) (aPlugin a) (aService a) (aMethod a) (aAction a) (aPlan a) (aNodeID a)
    (aTargets a) v (aStale a) (aStaleCode a) (aReason a) (aArtifactDigest a) (aRequestSHA256 a)
    (aPluginVersion a) (aCreatedAt a) (aUpdatedAt a).
Definition with_aStale (v : bool) (a : Approval) : Approval :=
  mkApproval (aID a) (aPlugin a) (aService a) (aMethod a) (aAction a) (aPlan a) (aNodeID a)
    (aTargets a) (aStatus a) v (aStaleCode a) (aReason a) (aArtifactDigest a) (aRequestSHA256 a)
    (aPluginVersion a) (aCreatedAt a) (aUpdatedAt a).
Definition with_aStaleCode (v : string) (a : Approval) : Approval :=
  mkApproval (aID a) (aPlugin a) (aService a) (aMethod a) (aAction a) (aPlan a) (aNodeID a)
    (aTargets a) (aStatus a) (aStale a) v (aReason a) (aArtifactDigest a) (aRequestSHA256 a)
    (aPluginVersion a) (aCreatedAt a) (aUpdatedAt a).
Definition with_aReason (v : string) (a : Approval) : Approval :=
  mkApproval (aID a) (aPlugin a) (aService a) (aMethod a) (aAction a) (aPlan a) (aNodeID a)
    (aTargets a) (aStatus a) (aStale a) (aStaleCode a) v (aArtifactDigest a) (aRequestSHA256 a)
    (aPluginVersion a) (aCreatedAt a) (aUpdatedAt a).
Definition with_aCreatedAt (v : time) (a : Approval) : Approval :=
  mkApproval (aID a) (aPlugin a) (aService a) (aMethod a) (aAction a) (aPlan a) (aNodeID a)
    (aTargets a) (aStatus a) (aStale a) (aStaleCode a) (aReason a) (aArtifactDigest a)
    (aRequestSHA256 a) (aPluginVersion a) v (aUpdatedAt a).
Definition with_aUpdatedAt (v : time) (a : Approval) : Approval :=
  mkApproval (aID a) (aPlugin a) (aService a) (aMethod a) (aAction a) (aPlan a) (aNodeID a)
    (aTargets a) (aStatus a) (aStale a) (aStaleCode a) (aReason a) (aArtifactDigest a)
    (aRequestSHA256 a) (aPluginVersion a) (aCreatedAt a) v.
Definition zero_approval : Approval :=
  mkApproval "" "" "" "" "" "" "" [] "" false "" "" "" "" "" 0 0.

Record NodeGuardBinding := mkBinding {
  bNodeID : string;
  bVersion : Z;
  Managed : bool;
  LastPlanSHA : string;
  bCreatedAt : time;
  bUpdatedAt : time;
}.
Definition with_bVersion (v : Z) (b : NodeGuardBinding) : NodeGuardBinding :=
  mkBinding (bNodeID b) v (Managed b) (LastPlanSHA b) (bCreatedAt b) (bUpdatedAt b).
Definition with_bCreatedAt (v : time) (b : NodeGuardBinding) : NodeGuardBinding :=
  mkBinding (bNodeID b) (bVersion b) (Managed b) (LastPlanSHA b) v (bUpdatedAt b).
Definition with_bUpdatedAt (v : time) (b : NodeGuardBinding) : NodeGuardBinding :=
  mkBinding (bNodeID b) (bVersion b) (Managed b) (LastPlanSHA b) (bCreatedAt b) v.
Record DNSDeployment := mkDNSDeployment {
  dnStatus : string;
  dnLastError : string;
  dnUpdatedAt : time;
}.

(** ** Line chains (internal/store/line_chain.go) *)

Record LineChainDefinition := mkDefinition {
  ldSourceLineUUID : string;
  ldSourceNodeID : string;
  ldSourceLineHashID : string;
  ldSourceInboundTag : string;
  ldTargetLineUUID : string;
  ldTargetNodeID : string;
  ldTargetDefinitionDigest : string;
  ldTargetPublicMaterialDigest : string;
  ldTargetCredentialDigest : string;
  ldOutboundTag : string;
  ldFragmentPath : string;
  ldFragmentSHA256 : string;
  ldSidecarPatchSHA256 : string;
  ldArtifactSHA256 : string;
  ldApprovalID : string;
  ldTaskID : string;
  ldActorID : string;
  ldTokenID : string;
  ldAuditTargetLineUUID : string;
  ldStatus : string;
  ldDriftCode : string;
  ldGeneration : Z;
  ldObservationRevision : Z;
  ldCreatedAt : time;
  ldUpdatedAt : time;
}.
Definition with_ldApprovalID (v : string) (d : LineChainDefinition) : LineChainDefinition :=
  mkDefinition (ldSourceLineUUID d) (ldSourceNodeID d) (ldSourceLineHashID d)
    (ldSourceInboundTag d) (ldTargetLineUUID d) (ldTargetNodeID d) (ldTargetDefinitionDigest d)
    (ldTargetPublicMaterialDigest d) (ldTargetCredentialDigest d) (ldOutboundTag d)
    (ldFragmentPath d) (ldFragmentSHA256 d) (ldSidecarPatchSHA256 d) (ldArtifactSHA256 d) v
    (ldTaskID d) (ldActorID d) (ldTokenID d) (ldAuditTargetLineUUID d) (ldStatus d)
    (ldDriftCode d) (ldGeneration d) (ldObservationRevision d) (ldCreatedAt d) (ldUpdatedAt d).
Definition with_ldTaskID (v : string) (d : LineChainDefinition) : LineChainDefinition :=
  mkDefinition (ldSourceLineUUID d) (ldSourceNodeID d) (ldSourceLineHashID d)
    (ldSourceInboundTag d) (ldTargetLineUUID d) (ldTargetNodeID d) (ldTargetDefinitionDigest d)
    (ldTargetPublicMaterialDigest d) (ldTargetCredentialDigest d) (ldOutboundTag d)
    (ldFragmentPath d) (ldFragmentSHA256 d) (ldSidecarPatchSHA256 d) (ldArtifactSHA256 d)
    (ldApprovalID d) v (ldActorID d) (ldTokenID d) (ldAuditTargetLineUUID d) (ldStatus d)
    (ldDriftCode d) (ldGeneration d) (ldObservationRevision d) (ldCreatedAt d) (ldUpdatedAt d).
Definition with_ldActorID (v : string) (d : LineChainDefinition) : LineChainDefinition :=
  mkDefinition (ldSourceLineUUID d) (ldSourceNodeID d) (ldSourceLineHashID d)
    (ldSourceInboundTag d) (ldTargetLineUUID d) (ldTargetNodeID d) (ldTargetDefinitionDigest d)
    (ldTargetPublicMaterialDigest d) (ldTargetCredentialDigest d) (ldOutboundTag d)
    (ldFragmentPath d) (ldFragmentSHA256 d) (ldSidecarPatchSHA256 d) (ldArtifactSHA256 d)
    (ldApprovalID d) (ldTaskID d) v (ldTokenID d) (ldAuditTargetLineUUID d) (ldStatus d)
    (ldDriftCode d) (ldGeneration d) (ldObservationRevision d) (ldCreatedAt d) (ldUpdatedAt d).
Definition with_ldTokenID (v : string) (d : LineChainDefinition) : LineChainDefinition :=
  mkDefinition (ldSourceLineUUID d) (ldSourceNodeID d) (ldSourceLineHashID d)
    (ldSourceInboundTag d) (ldTargetLineUUID d) (ldTargetNodeID d) (ldTargetDefinitionDigest d)
    (ldTargetPublicMaterialDigest d) (ldTargetCredentialDigest d) (ldOutboundTag d)
    (ldFragmentPath d) (ldFragmentSHA256 d) (ldSidecarPatchSHA256 d) (ldArtifactSHA256 d)
    (ldApprovalID d) (ldTaskID d) (ldActorID d) v (ldAuditTargetLineUUID d) (ldStatus d)
    (ldDriftCode d) (ldGeneration d) (ldObservationRevision d) (ldCreatedAt d) (ldUpdatedAt d).
Definition with_ldAuditTargetLineUUID (v : string) (d : LineChainDefinition) : LineChainDefinition :=
  mkDefinition (ldSourceLineUUID d) (ldSourceNodeID d) (ldSourceLineHashID d)
    (ldSourceInboundTag d) (ldTargetLineUUID d) (ldTargetNodeID d) (ldTargetDefinitionDigest d)
    (ldTargetPublicMaterialDigest d) (ldTargetCredentialDigest d) (ldOutboundTag d)
    (ldFragmentPath d) (ldFragmentSHA256 d) (ldSidecarPatchSHA256 d) (ldArtifactSHA256 d)
    (ldApprovalID d) (ldTaskID d) (ldActorID d) (ldTokenID d) v (ldStatus d) (ldDriftCode d)
    (ldGeneration d) (ldObservationRevision d) (ldCreatedAt d) (ldUpdatedAt d).
Definition with_ldStatus (v : string) (d : LineChainDefinition) : LineChainDefinition :=
  mkDefinition (ldSourceLineUUID d) (ldSourceNodeID d) (ldSourceLineHashID d)
    (ldSourceInboundTag d) (ldTargetLineUUID d) (ldTargetNodeID d) (ldTargetDefinitionDigest d)
    (ldTargetPublicMaterialDigest d) (ldTargetCredentialDigest d) (ldOutboundTag d)
    (ldFragmentPath d) (ldFragmentSHA256 d) (ldSidecarPatchSHA256 d) (ldArtifactSHA256 d)
    (ldApprovalID d) (ldTaskID d) (ldActorID d) (ldTokenID d) (ldAuditTargetLineUUID d) v
    (ldDriftCode d) (ldGeneration d) (ldObservationRevision d) (ldCreatedAt d) (ldUpdatedAt d).
Definition with_ldDriftCode (v : string) (d : LineChainDefinition) : LineChainDefinition :=
  mkDefinition (ldSourceLineUUID d) (ldSourceNodeID d) (ldSourceLineHashID d)
    (ldSourceInboundTag d) (ldTargetLineUUID d) (ldTargetNodeID d) (ldTargetDefinitionDigest d)
    (ldTargetPublicMaterialDigest d) (ldTargetCredentialDigest d) (ldOutboundTag d)
    (ldFragmentPath d) (ldFragmentSHA256 d) (ldSidecarPatchSHA256 d) (ldArtifactSHA256 d)
    (ldApprovalID d) (ldTaskID d) (ldActorID d) (ldTokenID d) (ldAuditTargetLineUUID d)
    (ldStatus d) v (ldGeneration d) (ldObservationRevision d) (ldCreatedAt d) (ldUpdatedAt d).
Definition with_ldGeneration (v : Z) (d : LineChainDefinition) : LineChainDefinition :=
  mkDefinition (ldSourceLineUUID d) (ldSourceNodeID d) (ldSourceLineHashID d)
    (ldSourceInboundTag d) (ldTargetLineUUID d) (ldTargetNodeID d) (ldTargetDefinitionDigest d)
    (ldTargetPublicMaterialDigest d) (ldTargetCredentialDigest d) (ldOutboundTag d)
    (ldFragmentPath d) (ldFragmentSHA256 d) (ldSidecarPatchSHA256 d) (ldArtifactSHA256 d)
    (ldApprovalID d) (ldTaskID d) (ldActorID d) (ldTokenID d) (ldAuditTargetLineUUID d)
    (ldStatus d) (ldDriftCode d) v (ldObservationRevision d) (ldCreatedAt d) (ldUpdatedAt d).
Definition with_ldObservationRevision (v : Z) (d : LineChainDefinition) : LineChainDefinition :=
  mkDefinition (ldSourceLineUUID d) (ldSourceNodeID d) (ldSourceLineHashID d)
    (ldSourceInboundTag d) (ldTargetLineUUID d) (ldTargetNodeID d) (ldTargetDefinitionDigest d)
    (ldTargetPublicMaterialDigest d) (ldTargetCredentialDigest d) (ldOutboundTag d)
    (ldFragmentPath d) (ldFragmentSHA256 d) (ldSidecarPatchSHA256 d) (ldArtifactSHA256 d)
    (ldApprovalID d) (ldTaskID d) (ldActorID d) (ldTokenID d) (ldAuditTargetLineUUID d)
    (ldStatus d) (ldDriftCode d) (ldGeneration d) v (ldCreatedAt d) (ldUpdatedAt d).
Definition with_ldCreatedAt (v : time) (d : LineChainDefinition) : LineChainDefinition :=
  mkDefinition (ldSourceLineUUID d) (ldSourceNodeID d) (ldSourceLineHashID d)
    (ldSourceInboundTag d) (ldTargetLineUUID d) (ldTargetNodeID d) (ldTargetDefinitionDigest d)
    (ldTargetPublicMaterialDigest d) (ldTargetCredentialDigest d) (ldOutboundTag d)
    (ldFragmentPath d) (ldFragmentSHA256 d) (ldSidecarPatchSHA256 d) (ldArtifactSHA256 d)
    (ldApprovalID d) (ldTaskID d) (ldActorID d) (ldTokenID d) (ldAuditTargetLineUUID d)
    (ldStatus d) (ldDriftCode d) (ldGeneration d) (ldObservationRevision d) v (ldUpdatedAt d).
Definition with_ldUpdatedAt (v : time) (d : LineChainDefinition) : LineChainDefinition :=
  mkDefinition (ldSourceLineUUID d) (ldSourceNodeID d) (ldSourceLineHashID d)
    (ldSourceInboundTag d) (ldTargetLineUUID d) (ldTargetNodeID d) (ldTargetDefinitionDigest d)
    (ldTargetPublicMaterialDigest d) (ldTargetCredentialDigest d) (ldOutboundTag d)
    (ldFragmentPath d) (ldFragmentSHA256 d) (ldSidecarPatchSHA256 d) (ldArtifactSHA256 d)
    (ldApprovalID d) (ldTaskID d) (ldActorID d) (ldTokenID d) (ldAuditTargetLineUUID d)
    (ldStatus d) (ldDriftCode d) (ldGeneration d) (ldObservationRevision d) (ldCreatedAt d) v.
Definition zero_definition : LineChainDefinition :=
  mkDefinition "" "" "" "" "" "" "" "" "" "" "" "" "" "" "" "" "" "" "" "" "" 0 0 0 0.

Record LineChainAttempt := mkAttempt {
  laApprovalID : string;
  laOperation : string;
  laSourceLineUUID : string;
  laSourceNodeID : string;
  laCandidateTargetLineUUID : string;
  laCandidateTargetNodeID : string;
  laBaseGeneration : Z;
  laBaseArtifactSHA256 : string;
  laCandidateArtifactSHA256 : string;
  laCandidateDefinition : LineChainDefinition;
  laRequestSHA256 : string;
  laPlanGraphRevision : Z;
  laQueuedGraphRevision : Z;
  laFirstLeaseGraphRevision : Z;
  laIssuedTaskID : string;
  laIssuedLeaseID : string;
  laIssuedScriptSHA256 : string;
  laIssuedArtifactSHA256 : string;
  laStatus : string;
  laLastErrorCode : string;
  laLastError : string;
  laCreatedAt : time;
  laUpdatedAt : time;
}.
Definition with_laQueuedGraphRevision (v : Z) (a : LineChainAttempt) : LineChainAttempt :=
  mkAttempt (laApprovalID a) (laOperation a) (laSourceLineUUID a) (laSourceNodeID a)
    (laCandidateTargetLineUUID a) (laCandidateTargetNodeID a) (laBaseGeneration a)
    (laBaseArtifactSHA256 a) (laCandidateArtifactSHA256 a) (laCandidateDefinition a)
    (laRequestSHA256 a) (laPlanGraphRevision a) v (laFirstLeaseGraphRevision a)
    (laIssuedTaskID a) (laIssuedLeaseID a) (laIssuedScriptSHA256 a) (laIssuedArtifactSHA256 a)
    (laStatus a) (laLastErrorCode a) (laLastError a) (laCreatedAt a) (laUpdatedAt a).
Definition with_laFirstLeaseGraphRevision (v : Z) (a : LineChainAttempt) : LineChainAttempt :=
  mkAttempt (laApprovalID a) (laOperation a) (laSourceLineUUID a) (laSourceNodeID a)
    (laCandidateTargetLineUUID a) (laCandidateTargetNodeID a) (laBaseGeneration a)
    (laBaseArtifactSHA256 a) (laCandidateArtifactSHA256 a) (laCandidateDefinition a)
    (laRequestSHA256 a) (laPlanGraphRevision a) (laQueuedGraphRevision a) v (laIssuedTaskID a)
    (laIssuedLeaseID a) (laIssuedScriptSHA256 a) (laIssuedArtifactSHA256 a) (laStatus a)
    (laLastErrorCode a) (laLastError a) (laCreatedAt a) (laUpdatedAt a).
Definition with_laIssuedTaskID (v : string) (a : LineChainAttempt) : LineChainAttempt :=
  mkAttempt (laApprovalID a) (laOperation a) (laSourceLineUUID a) (laSourceNodeID a)
    (laCandidateTargetLineUUID a) (laCandidateTargetNodeID a) (laBaseGeneration a)
    (laBaseArtifactSHA256 a) (laCandidateArtifactSHA256 a) (laCandidateDefinition a)
    (laRequestSHA256 a) (laPlanGraphRevision a) (laQueuedGraphRevision a)
    (laFirstLeaseGraphRevision a) v (laIssuedLeaseID a) (laIssuedScriptSHA256 a)
    (laIssuedArtifactSHA256 a) (laStatus a) (laLastErrorCode a) (laLastError a) (laCreatedAt a)
    (laUpdatedAt a).
Definition with_laIssuedLeaseID (v : string) (a : LineChainAttempt) : LineChainAttempt :=
  mkAttempt (laApprovalID a) (laOperation a) (laSourceLineUUID a) (laSourceNodeID a)
    (laCandidateTargetLineUUID a) (laCandidateTargetNodeID a) (laBaseGeneration a)
    (laBaseArtifactSHA256 a) (laCandidateArtifactSHA256 a) (laCandidateDefinition a)
    (laRequestSHA256 a) (laPlanGraphRevision a) (laQueuedGraphRevision a)
    (laFirstLeaseGraphRevision a) (laIssuedTaskID a) v (laIssuedScriptSHA256 a)
    (laIssuedArtifactSHA256 a) (laStatus a) (laLastErrorCode a) (laLastError a) (laCreatedAt a)
    (laUpdatedAt a).
Definition with_laIssuedScriptSHA256 (v : string) (a : LineChainAttempt) : LineChainAttempt :=
  mkAttempt (laApprovalID a) (laOperation a) (laSourceLineUUID a) (laSourceNodeID a)
    (laCandidateTargetLineUUID a) (laCandidateTargetNodeID a) (laBaseGeneration a)
    (laBaseArtifactSHA256 a) (laCandidateArtifactSHA256 a) (laCandidateDefinition a)
    (laRequestSHA256 a) (laPlanGraphRevision a) (laQueuedGraphRevision a)
    (laFirstLeaseGraphRevision a) (laIssuedTaskID a) (laIssuedLeaseID a) v
    (laIssuedArtifactSHA256 a) (laStatus a) (laLastErrorCode a) (laLastError a) (laCreatedAt a)
    (laUpdatedAt a).
Definition with_laIssuedArtifactSHA256 (v : string) (a : LineChainAttempt) : LineChainAttempt :=
  mkAttempt (laApprovalID a) (laOperation a) (laSourceLineUUID a) (laSourceNodeID a)
    (laCandidateTargetLineUUID a) (laCandidateTargetNodeID a) (laBaseGeneration a)
    (laBaseArtifactSHA256 a) (laCandidateArtifactSHA256 a) (laCandidateDefinition a)
    (laRequestSHA256 a) (laPlanGraphRevision a) (laQueuedGraphRevision a)
    (laFirstLeaseGraphRevision a) (laIssuedTaskID a) (laIssuedLeaseID a)
    (laIssuedScriptSHA256 a) v (laStatus a) (laLastErrorCode a) (laLastError a) (laCreatedAt a)
    (laUpdatedAt a).
Definition with_laStatus (v : string) (a : LineChainAttempt) : LineChainAttempt :=
  mkAttempt (laApprovalID a) (laOperation a) (laSourceLineUUID a) (laSourceNodeID a)
    (laCandidateTargetLineUUID a) (laCandidateTargetNodeID a) (laBaseGeneration a)
    (laBaseArtifactSHA256 a) (laCandidateArtifactSHA256 a) (laCandidateDefinition a)
    (laRequestSHA256 a) (laPlanGraphRevision a) (laQueuedGraphRevision a)
    (laFirstLeaseGraphRevision a) (laIssuedTaskID a) (laIssuedLeaseID a)
    (laIssuedScriptSHA256 a) (laIssuedArtifactSHA256 a) v (laLastErrorCode a) (laLastError a)
    (laCreatedAt a) (laUpdatedAt a).
Definition with_laLastErrorCode (v : string) (a : LineChainAttempt) : LineChainAttempt :=
  mkAttempt (laApprovalID a) (laOperation a) (laSourceLineUUID a) (laSourceNodeID a)
    (laCandidateTargetLineUUID a) (laCandidateTargetNodeID a) (laBaseGeneration a)
    (laBaseArtifactSHA256 a) (laCandidateArtifactSHA256 a) (laCandidateDefinition a)
    (laRequestSHA256 a) (laPlanGraphRevision a) (laQueuedGraphRevision a)
    (laFirstLeaseGraphRevision a) (laIssuedTaskID a) (laIssuedLeaseID a)
    (laIssuedScriptSHA256 a) (laIssuedArtifactSHA256 a) (laStatus a) v (laLastError a)
    (laCreatedAt a) (laUpdatedAt a).
Definition with_laLastError (v : string) (a : LineChainAttempt) : LineChainAttempt :=
  mkAttempt (laApprovalID a) (laOperation a) (laSourceLineUUID a) (laSourceNodeID a)
    (laCandidateTargetLineUUID a) (laCandidateTargetNodeID a) (laBaseGeneration a)
    (laBaseArtifactSHA256 a) (laCandidateArtifactSHA256 a) (laCandidateDefinition a)
    (laRequestSHA256 a) (laPlanGraphRevision a) (laQueuedGraphRevision a)
    (laFirstLeaseGraphRevision a) (laIssuedTaskID a) (laIssuedLeaseID a)
    (laIssuedScriptSHA256 a) (laIssuedArtifactSHA256 a) (laStatus a) (laLastErrorCode a) v
    (laCreatedAt a) (laUpdatedAt a).
Definition with_laCreatedAt (v : time) (a : LineChainAttempt) : LineChainAttempt :=
  mkAttempt (laApprovalID a) (laOperation a) (laSourceLineUUID a) (laSourceNodeID a)
    (laCandidateTargetLineUUID a) (laCandidateTargetNodeID a) (laBaseGeneration a)
    (laBaseArtifactSHA256 a) (laCandidateArtifactSHA256 a) (laCandidateDefinition a)
    (laRequestSHA256 a) (laPlanGraphRevision a) (laQueuedGraphRevision a)
    (laFirstLeaseGraphRevision a) (laIssuedTaskID a) (laIssuedLeaseID a)
    (laIssuedScriptSHA256 a) (laIssuedArtifactSHA256 a) (laStatus a) (laLastErrorCode a)
    (laLastError a) v (laUpdatedAt a).
Definition with_laUpdatedAt (v : time) (a : LineChainAttempt) : LineChainAttempt :=
  mkAttempt (laApprovalID a) (laOperation a) (laSourceLineUUID a) (laSourceNodeID a)
    (laCandidateTargetLineUUID a) (laCandidateTargetNodeID a) (laBaseGeneration a)
    (laBaseArtifactSHA256 a) (laCandidateArtifactSHA256 a) (laCandidateDefinition a)
    (laRequestSHA256 a) (laPlanGraphRevision a) (laQueuedGraphRevision a)
    (laFirstLeaseGraphRevision a) (laIssuedTaskID a) (laIssuedLeaseID a)
    (laIssuedScriptSHA256 a) (laIssuedArtifactSHA256 a) (laStatus a) (laLastErrorCode a)
    (laLastError a) (laCreatedAt a) v.
Definition zero_attempt : LineChainAttempt :=
  mkAttempt "" "" "" "" "" "" 0 "" "" zero_definition "" 0 0 0 "" "" "" "" "" "" "" 0 0.

Record AuditEvent := mkAuditEvent {
  evID : string;
  evAt : time;
  evActorID : string;
  evTokenID : string;
  evNodeID : string;
  evAction : string;
  evScope : string;
  evDecision : string;
  evReason : string;
  evMetadata : gmap string string;
}.

(** Nodes with the agent version they report, the update policy's record of
    the version it applied, and the security groups bound to a node group. *)
Record StoredNode := mkStoredNode {
  snNode : Node;
  AgentVersion : string;
}.

Record State := mkState {
  Tasks : gmap string Task;
  Results : list TaskResult;
  TaskResultReceipts : gmap string TaskResultReceipt;
  TaskTargetStates : gmap string TaskTargetState;
  TaskExecContexts : gmap string TaskExecContext;
  Approvals : gmap string Approval;
  GuardBindings : gmap string NodeGuardBinding;
  DNSDeployments : gmap string DNSDeployment;
  Nodes : gmap string StoredNode;
  stGroups : gmap string Group;
  NodeGroupGuardBindings : gmap string (list string);
  LastAppliedVersions : gmap string string;
  LineChainDefinitions : gmap string LineChainDefinition;
  LineChainAttempts : gmap string LineChainAttempt;
  LineChainGraphRevision : Z;
  LineChainAuditEvidence : gmap string AuditEvent;
}.
Definition with_Tasks (v : gmap string Task) (s : State) : State :=
  mkState v (Results s) (TaskResultReceipts s) (TaskTargetStates s) (TaskExecContexts s)
    (Approvals s) (GuardBindings s) (DNSDeployments s) (Nodes s) (stGroups s)
    (NodeGroupGuardBindings s) (LastAppliedVersions s) (LineChainDefinitions s)
    (LineChainAttempts s) (LineChainGraphRevision s) (LineChainAuditEvidence s).
Definition with_Results (v : list TaskResult) (s : State) : State :=
  mkState (Tasks s) v (TaskResultReceipts s) (TaskTargetStates s) (TaskExecContexts s)
    (Approvals s) (GuardBindings s) (DNSDeployments s) (Nodes s) (stGroups s)
    (NodeGroupGuardBindings s) (LastAppliedVersions s) (LineChainDefinitions s)
    (LineChainAttempts s) (LineChainGraphRevision s) (LineChainAuditEvidence s).
Definition with_TaskResultReceipts (v : gmap string TaskResultReceipt) (s : State) : State :=
  mkState (Tasks s) (Results s) v (TaskTargetStates s) (TaskExecContexts s) (Approvals s)
    (GuardBindings s) (DNSDeployments s) (Nodes s) (stGroups s) (NodeGroupGuardBindings s)
    (LastAppliedVersions s) (LineChainDefinitions s) (LineChainAttempts s)
    (LineChainGraphRevision s) (LineChainAuditEvidence s).
Definition with_TaskTargetStates (v : gmap string TaskTargetState) (s : State) : State :=
  mkState (Tasks s) (Results s) (TaskResultReceipts s) v (TaskExecContexts s) (Approvals s)
    (GuardBindings s) (DNSDeployments s) (Nodes s) (stGroups s) (NodeGroupGuardBindings s)
    (LastAppliedVersions s) (LineChainDefinitions s) (LineChainAttempts s)
    (LineChainGraphRevision s) (LineChainAuditEvidence s).
Definition with_TaskExecContexts (v : gmap string TaskExecContext) (s : State) : State :=
  mkState (Tasks s) (Results s) (TaskResultReceipts s) (TaskTargetStates s) v (Approvals s)
    (GuardBindings s) (DNSDeployments s) (Nodes s) (stGroups s) (NodeGroupGuardBindings s)
    (LastAppliedVersions s) (LineChainDefinitions s) (LineChainAttempts s)
    (LineChainGraphRevision s) (LineChainAuditEvidence s).
Definition with_Approvals (v : gmap string Approval) (s : State) : State :=
  mkState (Tasks s) (Results s) (TaskResultReceipts s) (TaskTargetStates s) (TaskExecContexts s)
    v (GuardBindings s) (DNSDeployments s) (Nodes s) (stGroups s) (NodeGroupGuardBindings s)
    (LastAppliedVersions s) (LineChainDefinitions s) (LineChainAttempts s)
    (LineChainGraphRevision s) (LineChainAuditEvidence s).
Definition with_GuardBindings (v : gmap string NodeGuardBinding) (s : State) : State :=
  mkState (Tasks s) (Results s) (TaskResultReceipts s) (TaskTargetStates s) (TaskExecContexts s)
    (Approvals s) v (DNSDeployments s) (Nodes s) (stGroups s) (NodeGroupGuardBindings s)
    (LastAppliedVersions s) (LineChainDefinitions s) (LineChainAttempts s)
    (LineChainGraphRevision s) (LineChainAuditEvidence s).
Definition with_DNSDeployments (v : gmap string DNSDeployment) (s : State) : State :=
  mkState (Tasks s) (Results s) (TaskResultReceipts s) (TaskTargetStates s) (TaskExecContexts s)
    (Approvals s) (GuardBindings s) v (Nodes s) (stGroups s) (NodeGroupGuardBindings s)
    (LastAppliedVersions s) (LineChainDefinitions s) (LineChainAttempts s)
    (LineChainGraphRevision s) (LineChainAuditEvidence s).
Definition with_LineChainDefinitions (v : gmap string LineChainDefinition) (s : State) : State :=
  mkState (Tasks s) (Results s) (TaskResultReceipts s) (TaskTargetStates s) (TaskExecContexts s)
    (Approvals s) (GuardBindings s) (DNSDeployments s) (Nodes s) (stGroups s)
    (NodeGroupGuardBindings s) (LastAppliedVersions s) v (LineChainAttempts s)
    (LineChainGraphRevision s) (LineChainAuditEvidence s).
Definition with_LineChainAttempts (v : gmap string LineChainAttempt) (s : State) : State :=
  mkState (Tasks s) (Results s) (TaskResultReceipts s) (TaskTargetStates s) (TaskExecContexts s)
    (Approvals s) (GuardBindings s) (DNSDeployments s) (Nodes s) (stGroups s)
    (NodeGroupGuardBindings s) (LastAppliedVersions s) (LineChainDefinitions s) v
    (LineChainGraphRevision s) (LineChainAuditEvidence s).
Definition with_LineChainGraphRevision (v : Z) (s : State) : State :=
  mkState (Tasks s) (Results s) (TaskResultReceipts s) (TaskTargetStates s) (TaskExecContexts s)
    (Approvals s) (GuardBindings s) (DNSDeployments s) (Nodes s) (stGroups s)
    (NodeGroupGuardBindings s) (LastAppliedVersions s) (LineChainDefinitions s)
    (LineChainAttempts s) v (LineChainAuditEvidence s).
Definition with_LineChainAuditEvidence (v : gmap string AuditEvent) (s : State) : State :=
  mkState (Tasks s) (Results s) (TaskResultReceipts s) (TaskTargetStates s) (TaskExecContexts s)
    (Approvals s) (GuardBindings s) (DNSDeployments s) (Nodes s) (stGroups s)
    (NodeGroupGuardBindings s) (LastAppliedVersions s) (LineChainDefinitions s)
    (LineChainAttempts s) (LineChainGraphRevision s) v.

(** ** The SDK

    Status values and the JSON encodings of results and audit events.  The
    statuses of a task are distinct and none is the store's own 'stalled', and
    those of an approval are distinct. *)
Class Sdk := {
  TaskQueued : string;
  TaskLeased : string;
  TaskFinished : string;
  TaskFailed : string;
  TaskCancelled : string;
  ApprovalPending : string;
  ApprovalApproved : string;
  ApprovalRejected : string;
  ApprovalApplied : string;
  DNSStatusApplying : string;
  DNSStatusFailed : string;
  marshal_result : TaskResult → string;
  marshal_audit : AuditEvent → string;
}.
Class SdkLaws {sdk : Sdk} := {
  task_statuses_distinct :
    NoDup [TaskQueued; TaskLeased; TaskFinished; TaskFailed; TaskCancelled];
  task_statuses_foreign :
    Forall (fun s => s ≠ "" ∧ s ≠ "stalled") [TaskQueued; TaskLeased; TaskFinished; TaskFailed; TaskCancelled];
  approval_statuses_distinct :
    NoDup [ApprovalPending; ApprovalApproved; ApprovalRejected; ApprovalApplied];
}.

(** An instance, for the examples. *)
Definition demo_sdk : Sdk :=
  Build_Sdk "queued" "leased" "finished" "failed" "cancelled"
    "pending" "approved" "rejected" "applied" "applying" "failed"
    (fun r => rTaskID r +:+ "/" +:+ rNodeID r +:+ "/" +:+ dec_of_Z (rExitCode r) +:+ "/" +:+ rError r +:+ "/" +:+ rOutput r)
    (fun e => evID e).
Lemma demo_sdk_laws : @SdkLaws demo_sdk.
Proof.
  split; first [apply (bool_decide_unpack _); vm_compute; exact I].
Qed.

Definition empty_state : State :=
  mkState ∅ [] ∅ ∅ ∅ ∅ ∅ ∅ ∅ ∅ ∅ ∅ ∅ ∅ 0 ∅.

(** ** Persistence

    A staged state is written by an atomic rename.  It is not committed, or
    committed, or committed with the directory sync unconfirmed; the live
    state changes exactly when it is committed. *)
Inductive persist := PersistOk | PersistUnsynced | PersistFailed.
Definition committed (p : persist) : bool :=
  match p with PersistFailed => false | _ => true end.
Definition persist_error (p : persist) : bool :=
  match p with PersistOk => false | _ => true end.
Definition publish (p : persist) (live staged : State) : State :=
  if committed p then staged else live.

(** ** Keys and digests *)

Definition taskResultReceiptKey (taskID nodeID : string) : string :=
  sha256_hex (taskID +:+ String (byte_of 0) nodeID).

Definition taskResultReceipt `{Sdk} (r : TaskResult) : TaskResultReceipt :=
  mkReceipt (rTaskID r) (rNodeID r) (rLeaseID r) (sha256_hex (marshal_result (with_rLeaseID "" r))).
