(* ===== verification/Tasks.v ===== *)
(** * Tasks (internal/store/store.go and task_attempts.go)

    The predicates that decide whether a target may be handed a task, the
    aggregate status of a task, and the operations on results, receipts and
    task management.  Delivery itself is in TaskLeases. *)

From Stdlib Require Import ZArith Lia.
From S2P Require Import Prelude GoStr Sha Groups StoreState.

Local Open Scope Z_scope.

Definition maxTaskResults : nat := 2000.
Definition MaxTaskLeaseAttempts : Z := 3.
Definition TaskStalledAgentLostReason : string := "agent lost during run three times".
Definition TaskStalled : string := "stalled".
Definition TaskPending : string := "pending".
Definition taskLeaseSafetyMargin : duration := 5 * minute.

Definition contains (values : list string) (value : string) : bool :=
  existsb (fun v => v =?? value) values.
Definition uniqueStrings (l : list string) : list string := dedup l.

Inductive taskError :=
| ErrTaskNotFound
| ErrTaskNotCancelable
| ErrTaskDurableProtected
| ErrTaskLease
| ErrTaskTransition
| ErrGuardVersionConflict
| ErrTaskPersist.

Definition errTaskPersist (p : persist) : option taskError :=
  if persist_error p then Some ErrTaskPersist else None.

(** ** Lease predicates *)

Definition taskLeaseMatches (task : Task) (nodeID leaseID : string) : bool :=
  if leaseID =?? "" then false else
  let single := (LeasedBy task =?? nodeID) && negb (tLeaseID task =?? "") && (tLeaseID task =?? leaseID) in
  match TargetLeases task !! nodeID with
  | Some lease => if negb (leLeaseID lease =?? "") then leLeaseID lease =?? leaseID else single
  | None => single
  end.

(** [time.Duration(timeoutSec)*time.Second+taskLeaseSafetyMargin] in 64-bit
    arithmetic. *)
Definition taskLeaseExpiredAt (startedAt : time) (timeoutSec : Z) (now : time) : bool :=
  if is_zero startedAt then false else
  let timeoutSec := if timeoutSec <=? 0 then 900 else timeoutSec in
  wrap64 (wrap64 (timeoutSec * second) + taskLeaseSafetyMargin) <? time_sub now startedAt.

Definition taskTargetLeaseStart (t : Task) (nodeID : string) : option time :=
  let single := if (LeasedBy t =?? nodeID) && negb (tLeaseID t =?? "") then Some (tStartedAt t) else None in
  match TargetLeases t !! nodeID with
  | Some lease => if negb (leLeaseID lease =?? "") then Some (leStartedAt lease) else single
  | None => single
  end.

Definition targetState (states : gmap string TaskTargetState) (taskID nodeID : string) : TaskTargetState :=
  default zero_target (states !! taskResultReceiptKey taskID nodeID).
Definition taskTargetStalled (states : gmap string TaskTargetState) (taskID nodeID : string) : bool :=
  negb (StalledReason (targetState states taskID nodeID) =?? "").

Definition taskPastQueueDeadline (t : Task) (now : time) (deadline : duration) : bool :=
  if (deadline <=? 0) || is_zero (tCreatedAt t) then false
  else deadline <? time_sub now (tCreatedAt t).

Definition answersTarget (t : Task) (nodeID : string) (r : TaskResult) : bool :=
  (rTaskID r =?? tID t) && (rNodeID r =?? nodeID).

Section Tasks.
Context {sdk : Sdk}.

Definition openStatus (t : Task) : bool :=
  (tStatus t =?? TaskQueued) || (tStatus t =?? TaskLeased).

(** [now] is read when the poll starts; [clock] is the clock [taskLeaseExpired]
    reads for itself. *)
Definition taskCanLeaseTarget (t : Task) (nodeID : string) (results : list TaskResult)
    (targets : gmap string TaskTargetState) (now clock : time) (deadline : duration) : bool :=
  if negb (contains (tTargets t) nodeID) then false else
  if negb (openStatus t) then false else
  if taskPastQueueDeadline t now deadline || taskTargetStalled targets (tID t) nodeID then false else
  if existsb (answersTarget t nodeID) results then false else
  if match TargetLeases t !! nodeID with
     | Some lease => negb (leLeaseID lease =?? "") && negb (taskLeaseExpiredAt (leStartedAt lease) (TimeoutSec t) clock)
     | None => false
     end then false else
  if (LeasedBy t =?? nodeID) && negb (tLeaseID t =?? "") &&
     negb (taskLeaseExpiredAt (tStartedAt t) (TimeoutSec t) clock) then false else
  true.

Definition taskTargetAwaitingResult (t : Task) (nodeID : string) (results : list TaskResult)
    (receipts : gmap string TaskResultReceipt) (targets : gmap string TaskTargetState)
    (now : time) (deadline : duration) : bool :=
  if negb (contains (tTargets t) nodeID) || negb (openStatus t) then false else
  if taskPastQueueDeadline t now deadline || taskTargetStalled targets (tID t) nodeID then false else
  if existsb (answersTarget t nodeID) results then false else
  match receipts !! taskResultReceiptKey (tID t) nodeID with
  | Some _ => false
  | None => true
  end.

(** ** Aggregate status *)

Definition failedResult (r : TaskResult) : bool :=
  negb (rError r =?? "") || negb (rExitCode r =? 0).

(** Keep the result of a node unless a later one is already kept. *)
Definition keepLatest (latest : gmap string TaskResult) (r : TaskResult) : gmap string TaskResult :=
  match latest !! rNodeID r with
  | Some prev => if after (rFinishedAt r) (rFinishedAt prev) then <[rNodeID r := r]> latest else latest
  | None => <[rNodeID r := r]> latest
  end.
Definition latestResults (keep : TaskResult → bool) (results : list TaskResult) : gmap string TaskResult :=
  foldl (fun latest r => if keep r then keepLatest latest r else latest) ∅ results.

Definition taskAggregateStatus (now : time) (t : Task) (results : list TaskResult) : string * time :=
  match tTargets t with
  | [] => (TaskFinished, now)
  | _ =>
    let latest := latestResults
      (fun r => (rTaskID r =?? tID t) && contains (tTargets t) (rNodeID r)) results in
    if (size latest <? length (uniqueStrings (tTargets t)))%nat then (TaskLeased, zero_time) else
    let rs := (map_to_list latest).*2 in
    let finishedAt := foldl (fun at_ r => if after (rFinishedAt r) at_ then rFinishedAt r else at_) zero_time rs in
    (if existsb failedResult rs then TaskFailed else TaskFinished, finishedAt)
  end.

(** ** Progress *)

Record TaskTargetProgress := mkProgress {
  pgStatus : string;
  pgAttempts : Z;
  LeaseAge : duration;
  LeaseLive : bool;
  pgStalledReason : string;
  Answered : bool;
  AnsweredFailure : bool;
}.
Record TaskProgressView := mkProgressView {
  Stalled : bool;
  pgTargets : gmap string TaskTargetProgress;
}.

(** One target's entry and whether it still owes a result. *)
Definition targetProgress (t : Task) (now : time) (states : gmap string TaskTargetState)
    (answered : gmap string TaskResult) (target : string) : TaskTargetProgress * bool :=
  let record := targetState states (tID t) target in
  let lease := taskTargetLeaseStart t target in
  let age := match lease with Some s => time_sub now s | None => 0 end in
  let live := match lease with
              | Some s => negb (is_zero s) && negb (taskLeaseExpiredAt s (TimeoutSec t) now)
              | None => false
              end in
  let attempts := match lease with
                  | Some _ => if Attempts record =? 0 then 1 else Attempts record
                  | None => Attempts record
                  end in
  let entry status ans fail := mkProgress status attempts age live (StalledReason record) ans fail in
  match answered !! target with
  | Some r => (entry (if failedResult r then TaskFailed else TaskFinished) true (failedResult r), false)
  | None =>
    if negb (StalledReason record =?? "") then (entry TaskStalled false false, true)
    else if live then (entry TaskLeased false false, true)
    else match lease with
         | Some _ => (entry TaskStalled false false, true)
         | None => (entry TaskQueued false false, true)
         end
  end.

Definition TaskProgress (id : string) (now : time) (st : State) : option TaskProgressView :=
  match Tasks st !! id with
  | None => None
  | Some t =>
    if negb (tStatus t =?? TaskLeased) then None else
    let answered := latestResults (fun r => rTaskID r =?? tID t) (Results st) in
    let entries := (fun target => (target, targetProgress t now (TaskTargetStates st) answered target))
                     <$> uniqueStrings (tTargets t) in
    let owing := existsb (fun '(_, (_, o)) => o) entries in
    let targets := list_to_map ((fun '(target, (e, _)) => (target, e)) <$> entries) in
    let running := existsb (fun '(_, e) => pgStatus e =?? TaskLeased) (map_to_list targets) in
    Some (mkProgressView (if running then false else owing) targets)
  end.

Definition TaskProgressStalled (id : string) (now : time) (st : State) : bool :=
  match TaskProgress id now st with Some p => Stalled p | None => false end.

(** ** Results *)

(** Append and keep the most recent [maxTaskResults]. *)
Definition appendResult (results : list TaskResult) (r : TaskResult) : list TaskResult :=
  let all := results ++ [r] in
  drop (length all - maxTaskResults) all.

Definition resultKey (r : TaskResult) : string := taskResultReceiptKey (rTaskID r) (rNodeID r).

Definition AddTaskResultWithContext (now : time) (p : persist) (r : TaskResult)
    (ctx : option TaskExecContext) (st : State) : State * option taskError :=
  let staged := with_Results (appendResult (Results st) (with_rLeaseID "" r)) st in
  let staged :=
    match Tasks st !! rTaskID r with
    | None => staged
    | Some t =>
      let '(status, finished) := taskAggregateStatus now t (Results staged) in
      with_Tasks (<[tID t := with_tFinishedAt finished (with_tStatus status t)]> (Tasks st)) staged
    end in
  let addCtx := match ctx with
                | Some c => negb (xcTaskID c =?? "") && negb (xcNodeID c =?? "")
                | None => false
                end in
  let staged :=
    if addCtx || negb (size (TaskExecContexts st) =? 0)%nat then
      let live := resultKey <$> Results staged in
      let next := base.filter (fun '(k, _) => k ∈ live) (TaskExecContexts st) in
      let next := match ctx with
                  | Some c => if addCtx then <[taskResultReceiptKey (xcTaskID c) (xcNodeID c) := c]> next else next
                  | None => next
                  end in
      with_TaskExecContexts next staged
    else staged in
  (publish p st staged, errTaskPersist p).
Definition AddTaskResult (now : time) (p : persist) (r : TaskResult) (st : State) :=
  AddTaskResultWithContext now p r None st.

Definition CompleteNetGuardTaskResult (now : time) (p : persist) (r : TaskResult)
    (approval : Approval) (binding : NodeGuardBinding) (st : State) :
    State * (bool * option taskError) :=
  match Tasks st !! rTaskID r with
  | None => (st, (false, Some ErrTaskNotFound))
  | Some task =>
    if (tApprovalID task =?? "") || negb (tApprovalID task =?? aID approval) ||
       negb (contains (tTargets task) (rNodeID r))
    then (st, (false, Some ErrTaskNotFound)) else
    if negb (tStatus task =?? TaskLeased) || negb (taskLeaseMatches task (rNodeID r) (rLeaseID r))
    then (st, (false, Some ErrTaskLease)) else
    match Approvals st !! aID approval with
    | None => (st, (false, Some ErrTaskNotFound))
    | Some current =>
      if negb (aNodeID current =?? rNodeID r) then (st, (false, Some ErrTaskNotFound)) else
      if negb (aStatus current =?? ApprovalApproved) || negb (aPlugin current =?? aPlugin approval) ||
         negb (aAction current =?? aAction approval) || negb (aPlan current =?? aPlan approval)
      then (st, (false, Some ErrTaskTransition)) else
      match GuardBindings st !! bNodeID binding with
      | None => (st, (false, Some ErrGuardVersionConflict))
      | Some currentBinding =>
        if negb (bNodeID binding =?? rNodeID r) then (st, (false, Some ErrGuardVersionConflict)) else
        if negb (bVersion binding =? bVersion currentBinding)
        then (st, (false, Some ErrGuardVersionConflict)) else
        let stored := with_rLeaseID "" r in
        let stored := if is_zero (rFinishedAt stored) then with_rFinishedAt now stored else stored in
        let approval := with_aUpdatedAt now (with_aCreatedAt (aCreatedAt current) approval) in
        let binding := with_bUpdatedAt now (with_bVersion (wrap64 (bVersion binding + 1))
                         (with_bCreatedAt (bCreatedAt currentBinding) binding)) in
        let results := appendResult (Results st) stored in
        let '(status, finished) := taskAggregateStatus now task results in
        let staged :=
          with_TaskResultReceipts
            (<[taskResultReceiptKey (rTaskID r) (rNodeID r) :=
                 taskResultReceipt (with_rLeaseID (rLeaseID r) stored)]> (TaskResultReceipts st))
          (with_GuardBindings (<[bNodeID binding := binding]> (GuardBindings st))
          (with_Approvals (<[aID approval := approval]> (Approvals st))
          (with_Tasks (<[tID task := with_tFinishedAt finished (with_tStatus status task)]> (Tasks st))
          (with_Results results st)))) in
        (publish p st staged, (committed p, errTaskPersist p))
      end
    end
  end.

(** ** Receipts *)

Definition receiptMatches (receipt : TaskResultReceipt) (r : TaskResult) : bool :=
  let candidate := taskResultReceipt r in
  (rcLeaseID receipt =?? rcLeaseID candidate) && (rcDigest receipt =?? rcDigest candidate).

(** [(matches, found)] *)
Definition TaskResultReceiptMatches (r : TaskResult) (st : State) : bool * bool :=
  match TaskResultReceipts st !! taskResultReceiptKey (rTaskID r) (rNodeID r), Tasks st !! rTaskID r with
  | Some receipt, Some _ => (receiptMatches receipt r, true)
  | _, _ => (false, false)
  end.

(** [(matches, found, err)]; [durable] is the outcome of confirming the state
    file's directory. *)
Definition ConfirmTaskResultReplay (durable : bool) (r : TaskResult) (st : State) :
    bool * bool * option taskError :=
  match TaskResultReceipts st !! taskResultReceiptKey (rTaskID r) (rNodeID r), Tasks st !! rTaskID r with
  | Some receipt, Some _ =>
    if negb (receiptMatches receipt r) then (false, true, None)
    else if negb durable then (false, true, Some ErrTaskPersist)
    else (true, true, None)
  | _, _ => (false, false, None)
  end.

(** ** Task management *)

(** [Save] writes the live state, which is changed whatever the outcome. *)
Definition CreateTask (now : time) (p : persist) (t : Task) (st : State) : State * option taskError :=
  let t := if is_zero (tCreatedAt t) then with_tCreatedAt now t else t in
  let t := if tStatus t =?? "" then with_tStatus TaskQueued t else t in
  (with_Tasks (<[tID t := t]> (Tasks st)) st, errTaskPersist p).

Definition lineChainApproval (a : Approval) : bool :=
  (aPlugin a =?? "singbox-linechain") && (aService a =?? "network/lines") &&
  ((aMethod a =?? "chain_set_apply") || (aMethod a =?? "chain_remove_apply")) &&
  has_prefix (aAction a) "apply-line-chain:".

Definition lineChainTaskLocked (st : State) (task : Task) : bool :=
  if tApprovalID task =?? "" then false else
  match Approvals st !! tApprovalID task with
  | Some a => lineChainApproval a
  | None => false
  end.
Definition TaskUsesLineChainProtocol (id : string) (st : State) : bool :=
  match Tasks st !! id with Some t => lineChainTaskLocked st t | None => false end.

Definition CancelTask (now : time) (p : persist) (id : string) (st : State) :
    State * res taskError Task * option taskError :=
  match Tasks st !! id with
  | None => (st, Err ErrTaskNotFound, None)
  | Some t =>
    if lineChainTaskLocked st t then (st, Err ErrTaskDurableProtected, None) else
    if negb (tStatus t =?? TaskQueued) && negb (tStatus t =?? TaskLeased) && negb (tStatus t =?? TaskPending)
    then (st, Err ErrTaskNotCancelable, None) else
    let t := with_tFinishedAt now (with_tStatus TaskCancelled t) in
    (with_Tasks (<[id := t]> (Tasks st)) st, Ok t, errTaskPersist p)
  end.

Definition DeleteTask (p : persist) (id : string) (st : State) : State * option taskError :=
  match Tasks st !! id with
  | None => (st, Some ErrTaskNotFound)
  | Some task =>
    if lineChainTaskLocked st task then (st, Some ErrTaskDurableProtected) else
    (with_Results (List.filter (fun r => negb (rTaskID r =?? id)) (Results st))
      (with_TaskTargetStates (base.filter (fun '(_, g) => tgTaskID g ≠ id) (TaskTargetStates st))
        (with_TaskResultReceipts (base.filter (fun '(_, c) => rcTaskID c ≠ id) (TaskResultReceipts st))
          (with_Tasks (delete id (Tasks st)) st))), errTaskPersist p)
  end.

(** ** Latest results *)

Lemma contains_spec l x : contains l x = true ↔ x ∈ l.
Proof. apply existsb_eq_elem. Qed.

Lemma latestResults_snoc keep rs r :
  latestResults keep (rs ++ [r]) =
  if keep r then keepLatest (latestResults keep rs) r else latestResults keep rs.
Proof. unfold latestResults. by rewrite foldl_app. Qed.

Lemma keepLatest_ne latest r n : rNodeID r ≠ n → keepLatest latest r !! n = latest !! n.
Proof.
  intros Hn. unfold keepLatest. destruct (latest !! rNodeID r); [destruct (after _ _)|];
    by rewrite ?lookup_insert_ne.
Qed.

Lemma keepLatest_eq latest r :
  ∃ r', keepLatest latest r !! rNodeID r = Some r' ∧
    ((r' = r ∧ ∀ prev, latest !! rNodeID r = Some prev → rFinishedAt prev <= rFinishedAt r) ∨
     (latest !! rNodeID r = Some r' ∧ rFinishedAt r <= rFinishedAt r')).
Proof.
  unfold keepLatest, after. destruct (latest !! rNodeID r) as [prev|] eqn:E.
  - destruct (rFinishedAt prev <? rFinishedAt r) eqn:Ea; go_bool.
    + rewrite lookup_insert_eq. eexists. split; [done|]. left. split; [done|]. intros ? [= <-]. lia.
    + rewrite E. eauto.
  - rewrite lookup_insert_eq. eexists. split; [done|]. by left.
Qed.

(** A node has a kept result exactly when it has a result. *)
Lemma latestResults_is_Some keep rs n :
  is_Some (latestResults keep rs !! n) ↔ ∃ r, r ∈ rs ∧ keep r = true ∧ rNodeID r = n.
Proof.
  induction rs as [|x rs IH] using rev_ind.
  - split; [by intros [? ?]|]. set_solver.
  - rewrite latestResults_snoc. setoid_rewrite elem_of_app. setoid_rewrite list_elem_of_singleton.
    destruct (keep x) eqn:Hk; [destruct (decide (rNodeID x = n)) as [<-|Hn]|].
    + destruct (keepLatest_eq (latestResults keep rs) x) as (r' & -> & _).
      split; [|by eauto]. intros _. exists x. auto.
    + rewrite keepLatest_ne, IH by done. split; intros (r & Hr & ? & ?); [by eauto|].
      exists r. destruct Hr as [?| ->]; [by eauto|done].
    + rewrite IH. split; intros (r & Hr & ? & ?); [by eauto|].
      exists r. destruct Hr as [?| ->]; [by eauto|congruence].
Qed.

(** The kept result of a node is one of its results, and none finished
    later. *)
Lemma latestResults_Some keep rs n r :
  latestResults keep rs !! n = Some r →
  r ∈ rs ∧ keep r = true ∧ rNodeID r = n ∧
  ∀ r', r' ∈ rs → keep r' = true → rNodeID r' = n → rFinishedAt r' <= rFinishedAt r.
Proof.
  revert r. induction rs as [|x rs IH] using rev_ind; intros r; [done|].
  rewrite latestResults_snoc. setoid_rewrite elem_of_app. setoid_rewrite list_elem_of_singleton.
  destruct (keep x) eqn:Hk; [destruct (decide (rNodeID x = n)) as [<-|Hne]|].
  - destruct (keepLatest_eq (latestResults keep rs) x) as (r1 & -> & Hcase). intros [= <-].
    destruct Hcase as [[-> Hprev]|[Hprev Hle]].
    + split_and!; auto. intros r' [Hr'|Hr'] Hk' Hn; [|by subst].
      destruct (latestResults keep rs !! rNodeID x) as [prev|] eqn:E.
      * destruct (IH _ eq_refl) as (_ & _ & _ & Hmax).
        specialize (Hmax _ Hr' Hk' Hn). specialize (Hprev _ eq_refl). lia.
      * exfalso. eapply (is_Some_None (A := TaskResult)). rewrite <- E.
        apply latestResults_is_Some. eauto.
    + destruct (IH _ Hprev) as (? & ? & ? & Hmax). split_and!; auto.
      intros r' [?|Hr'] ? ?; [by apply Hmax|by subst].
  - rewrite keepLatest_ne by done. intros H. destruct (IH _ H) as (? & ? & ? & Hmax).
    split_and!; auto. intros r' [?|Hr'] ? ?; [by apply Hmax|by subst].
  - intros H. destruct (IH _ H) as (? & ? & ? & Hmax).
    split_and!; auto. intros r' [?|Hr'] ? ?; [by apply Hmax|subst; congruence].
Qed.

(** ** Aggregate status *)

Definition answered (t : Task) (results : list TaskResult) (n : string) : Prop :=
  ∃ r, r ∈ results ∧ rTaskID r = tID t ∧ rNodeID r = n.
Definition relevant (t : Task) (r : TaskResult) : bool :=
  (rTaskID r =?? tID t) && contains (tTargets t) (rNodeID r).

Lemma relevant_spec t r : relevant t r = true ↔ rTaskID r = tID t ∧ rNodeID r ∈ tTargets t.
Proof. unfold relevant. rewrite andb_true_iff, bool_decide_eq_true, contains_spec. done. Qed.

Lemma dom_latest t results :
  dom (latestResults (relevant t) results) ⊆ (list_to_set (tTargets t) : gset string).
Proof.
  intros n (r & Hr)%elem_of_dom. apply latestResults_Some in Hr as (_ & Hk & <- & _).
  apply relevant_spec in Hk as [_ Hk]. by apply elem_of_list_to_set.
Qed.

Lemma length_unique l : length (uniqueStrings l) = size (list_to_set l : gset string).
Proof.
  unfold uniqueStrings. rewrite <- (size_list_to_set (C := gset string) (dedup l))
    by apply NoDup_dedup.
  f_equal. apply set_eq. intros x. by rewrite !elem_of_list_to_set, elem_of_dedup.
Qed.

Lemma some_missing t results :
  (size (latestResults (relevant t) results) <? length (uniqueStrings (tTargets t)))%nat = true ↔
  ∃ n, n ∈ tTargets t ∧ ¬ answered t results n.
Proof.
  rewrite Nat.ltb_lt, length_unique, <- size_dom.
  pose proof (dom_latest t results) as Hsub. split.
  - intros Hlt. destruct (set_choose_or_empty
      ((list_to_set (tTargets t) : gset string) ∖ dom (latestResults (relevant t) results)))
      as [[n Hn]|Hempty].
    + exists n. rewrite elem_of_difference, elem_of_list_to_set, elem_of_dom,
        latestResults_is_Some in Hn.
      destruct Hn as [Hin Hno]. split; [done|]. intros (r & ? & ? & <-). apply Hno.
      exists r. by rewrite relevant_spec.
    + apply subseteq_size in Hsub as _. exfalso.
      assert ((list_to_set (tTargets t) : gset string) ⊆ dom (latestResults (relevant t) results))
        as Hsub' by set_solver.
      apply subseteq_size in Hsub'. lia.
  - intros (n & Hin & Hno). apply subset_size. split; [done|]. intros Hsub'.
    assert (n ∈ dom (latestResults (relevant t) results)) as Hd
      by (by apply Hsub', elem_of_list_to_set).
    apply elem_of_dom, latestResults_is_Some in Hd as (r & ? & Hk & <-).
    apply relevant_spec in Hk as [? ?]. apply Hno. by exists r.
Qed.

Lemma elem_of_latest keep rs r :
  r ∈ (map_to_list (latestResults keep rs)).*2 ↔ ∃ n, latestResults keep rs !! n = Some r.
Proof.
  rewrite list_elem_of_fmap. split.
  - intros ([n r'] & -> & H%elem_of_map_to_list). eauto.
  - intros (n & H%elem_of_map_to_list). exists (n, r). eauto.
Qed.

Lemma foldl_finished_ub (rs : list TaskResult) z :
  z <= foldl (fun at_ r => if after (rFinishedAt r) at_ then rFinishedAt r else at_) z rs ∧
  ∀ r, r ∈ rs → rFinishedAt r <=
    foldl (fun at_ r => if after (rFinishedAt r) at_ then rFinishedAt r else at_) z rs.
Proof.
  revert z. induction rs as [|x rs IH]; intros z; cbn; [split; [lia|set_solver]|].
  specialize (IH (if after (rFinishedAt x) z then rFinishedAt x else z)) as [H1 H2].
  unfold after in *. destruct (z <? rFinishedAt x) eqn:E; go_bool;
    (split; [lia|]); intros r [->|Hr]%elem_of_cons; auto; lia.
Qed.

Context {laws : SdkLaws}.

Lemma task_statuses :
  TaskLeased ≠ TaskFinished ∧ TaskLeased ≠ TaskFailed ∧ TaskFinished ≠ TaskFailed ∧
  TaskLeased ≠ TaskCancelled ∧ TaskQueued ≠ TaskCancelled ∧ TaskLeased ≠ TaskStalled ∧
  TaskQueued ≠ TaskLeased ∧ TaskQueued ≠ TaskFinished ∧ TaskQueued ≠ TaskFailed.
Proof.
  pose proof task_statuses_distinct as H. pose proof task_statuses_foreign as Hf.
  rewrite !NoDup_cons, !not_elem_of_cons in H. rewrite !Forall_cons in Hf. naive_solver.
Qed.

Lemma all_answered t results :
  (size (latestResults (relevant t) results) <? length (uniqueStrings (tTargets t)))%nat = false →
  ∀ n, n ∈ tTargets t → answered t results n.
Proof.
  intros Em n Hin.
  destruct (decide (Exists (fun r => rTaskID r = tID t ∧ rNodeID r = n) results)) as [He|Hne].
  - apply Exists_exists in He as (r & ? & ? & ?). by exists r.
  - exfalso. apply not_true_iff_false in Em. apply Em, some_missing. exists n.
    split; [done|]. intros (r & ? & ? & ?). apply Hne, Exists_exists. eauto.
Qed.

Lemma aggregate_leased now t results :
  tTargets t ≠ [] →
  (taskAggregateStatus now t results).1 = TaskLeased ↔ ∃ n, n ∈ tTargets t ∧ ¬ answered t results n.
Proof.
  intros Hne. unfold taskAggregateStatus. destruct (tTargets t) as [|n0 ns] eqn:Et; [done|].
  rewrite <- Et. fold (relevant t). destruct task_statuses as (N1 & N2 & _).
  destruct (_ <? _)%nat eqn:Em; cbn [fst].
  - apply some_missing in Em. naive_solver.
  - pose proof (all_answered _ _ Em). destruct (existsb _ _); cbn; naive_solver.
Qed.

(** Aggregate status of a task with targets: it stays leased exactly while
    some target has not answered; once all have, it is failed exactly when the
    latest result of some target failed and finished otherwise, and the
    finishing time is not before that of any latest result. *)
Theorem aggregate_status_spec now t results :
  tTargets t ≠ [] →
  let '(status, finished) := taskAggregateStatus now t results in
  let latest n r := latestResults (relevant t) results !! n = Some r in
  (status = TaskLeased ↔ ∃ n, n ∈ tTargets t ∧ ¬ answered t results n) ∧
  (status = TaskFailed ↔ (∀ n, n ∈ tTargets t → answered t results n) ∧
                         ∃ n r, latest n r ∧ failedResult r = true) ∧
  (status = TaskFinished ↔ (∀ n, n ∈ tTargets t → answered t results n) ∧
                           ∀ n r, latest n r → failedResult r = false) ∧
  (status ≠ TaskLeased → ∀ n r, latest n r → rFinishedAt r <= finished).
Proof.
  intros Hne. unfold taskAggregateStatus. destruct (tTargets t) as [|n0 ns] eqn:Et; [done|].
  rewrite <- Et. fold (relevant t).
  destruct task_statuses as (N1 & N2 & N3 & _).
  destruct (_ <? _)%nat eqn:Em.
  - apply some_missing in Em as (n & Hin & Hno). split_and!; [naive_solver| | |done].
    + split; [congruence|]. intros [H _]. by destruct Hno; apply H.
    + split; [congruence|]. intros [H _]. by destruct Hno; apply H.
  - assert (∀ n, n ∈ tTargets t → answered t results n) as Hall by (by apply all_answered).
    assert (¬ ∃ n, n ∈ tTargets t ∧ ¬ answered t results n) as Hnot by naive_solver.
    set (rs := (map_to_list (latestResults (relevant t) results)).*2).
    assert (existsb failedResult rs = true ↔
            ∃ n r, latestResults (relevant t) results !! n = Some r ∧ failedResult r = true) as Hf.
    { rewrite existsb_elem_of. split.
      - intros (r & (n & Hr)%elem_of_latest & Hfr). by exists n, r.
      - intros (n & r & Hr & Hfr). exists r. split; [apply elem_of_latest; by exists n|done]. }
    split_and!.
    + destruct (existsb failedResult rs); naive_solver.
    + rewrite <- Hf. destruct (existsb failedResult rs); naive_solver.
    + destruct (existsb failedResult rs) eqn:Eb; split; try congruence.
      * intros [_ H]. destruct (proj1 Hf eq_refl) as (n & r & Hr & Hfr).
        rewrite (H _ _ Hr) in Hfr. done.
      * intros _. split; [done|]. intros n r Hr. apply not_true_iff_false. intros Hfr.
        enough (false = true) by done. apply Hf. eauto.
    + intros _ n r Hr. apply foldl_finished_ub, elem_of_latest. eauto.
Qed.

(** ** Recording results *)

Lemma appendResult_suffix rs r : ∃ k, appendResult rs r = drop k rs ++ [r].
Proof.
  unfold appendResult. rewrite length_app. cbn [length].
  exists (length rs + 1 - maxTaskResults)%nat. rewrite drop_app_le; [done|].
  unfold maxTaskResults. lia.
Qed.
Lemma length_appendResult rs r : (length (appendResult rs r) <= maxTaskResults)%nat.
Proof. unfold appendResult. rewrite length_drop. lia. Qed.
Lemma elem_of_appendResult_last rs r : r ∈ appendResult rs r.
Proof. destruct (appendResult_suffix rs r) as [k ->]. set_solver. Qed.
Lemma elem_of_appendResult rs r x : x ∈ appendResult rs r → x ∈ rs ∨ x = r.
Proof.
  destruct (appendResult_suffix rs r) as [k ->].
  rewrite elem_of_app, list_elem_of_singleton. intros [H|H]; [left|by right].
  rewrite <- (take_drop k rs). set_solver.
Qed.

Lemma AddTaskResult_results now p r ctx st :
  Results (AddTaskResultWithContext now p r ctx st).1 =
  if committed p then appendResult (Results st) (with_rLeaseID "" r) else Results st.
Proof.
  unfold AddTaskResultWithContext, publish. destruct (committed p); [|done].
  destruct (Tasks st !! rTaskID r) as [t|]; [destruct (taskAggregateStatus _ _ _)|];
    cbn [fst]; destruct (_ || _); done.
Qed.

(** Retention: recording a result keeps at most [maxTaskResults] results,
    the new one among them with its lease id removed, and after a committed
    write every execution context on file belongs to a retained result or is
    the one just recorded. *)
Theorem result_history_bounded now p r ctx st :
  committed p = true →
  let st' := (AddTaskResultWithContext now p r ctx st).1 in
  (length (Results st') <= maxTaskResults)%nat ∧
  with_rLeaseID "" r ∈ Results st' ∧
  (∀ k c, TaskExecContexts st' !! k = Some c →
     k ∈ resultKey <$> Results st' ∨
     (ctx = Some c ∧ k = taskResultReceiptKey (xcTaskID c) (xcNodeID c))).
Proof.
  intros Hc st'. pose proof (AddTaskResult_results now p r ctx st) as Hr. rewrite Hc in Hr.
  split; [unfold st'; rewrite Hr; apply length_appendResult|].
  split; [unfold st'; rewrite Hr; apply elem_of_appendResult_last|].
  intros k c. unfold st'. rewrite Hr. unfold AddTaskResultWithContext, publish. rewrite Hc.
  set (upd := match Tasks st !! rTaskID r with Some _ => _ | None => _ end).
  assert (TaskExecContexts upd = TaskExecContexts st ∧
          Results upd = appendResult (Results st) (with_rLeaseID "" r)) as [Hx Hres].
  { unfold upd. destruct (Tasks st !! rTaskID r); [destruct (taskAggregateStatus _ _ _)|]; done. }
  clearbody upd. cbn [fst]. set (addCtx := match ctx with Some _ => _ | None => _ end).
  assert (∀ (m : gmap string TaskExecContext) c',
    base.filter (fun '(k, _) => k ∈ resultKey <$> Results upd) m !! k = Some c' →
    k ∈ resultKey <$> appendResult (Results st) (with_rLeaseID "" r)) as Hflt.
  { intros m c' [_ H]%map_lookup_filter_Some. by rewrite <- Hres. }
  destruct (addCtx || _) eqn:Eb.
  - cbn [TaskExecContexts with_TaskExecContexts].
    destruct ctx as [c0|]; [destruct addCtx|]; [|by intros ?%Hflt; left..].
    destruct (decide (taskResultReceiptKey (xcTaskID c0) (xcNodeID c0) = k)) as [<-|Hk].
    + rewrite lookup_insert_eq. intros [= <-]. by right.
    + rewrite lookup_insert_ne by done. intros ?%Hflt. by left.
  - rewrite Hx. apply orb_false_iff in Eb as [_ Eb].
    apply negb_false_iff, Nat.eqb_eq, map_size_empty_iff in Eb. by rewrite Eb.
Qed.

(** A run of recorded results. *)
Definition recordAll (now : time) (rs : list TaskResult) (st : State) : State :=
  foldl (fun st r => (AddTaskResult now PersistOk r st).1) st rs.

Lemma recordAll_results now rs st :
  (length (Results st) <= maxTaskResults)%nat →
  Results (recordAll now rs st) =
  drop (length (Results st) + length rs - maxTaskResults) (Results st ++ (with_rLeaseID "" <$> rs)).
Proof.
  revert st. induction rs as [|r rs IH]; intros st Hl.
  - cbn. rewrite app_nil_r. replace (_ + 0 - _)%nat with 0%nat by lia. done.
  - cbn [recordAll foldl]. unfold recordAll in IH.
    pose proof (AddTaskResult_results now PersistOk r None st) as Hr. cbn [committed] in Hr.
    rewrite IH; unfold AddTaskResult; rewrite Hr; [|apply length_appendResult].
    unfold appendResult. set (l := Results st ++ [with_rLeaseID "" r]).
    assert (length l = S (length (Results st))) as Hlen by (unfold l; rewrite length_app; cbn; lia).
    replace (Results st ++ (with_rLeaseID "" <$> r :: rs)) with (l ++ (with_rLeaseID "" <$> rs))
      by (unfold l; rewrite <- app_assoc; done).
    rewrite length_drop, Hlen, <- drop_app_le, drop_drop by lia. f_equal. cbn [length]. lia.
Qed.

(** The retention bound re-opens answered targets: once [maxTaskResults]
    further results of other tasks are recorded, the result that closed a
    target is gone, and with it the only thing that kept the lease gate shut.
    If the task is still open (another target has not answered) and the
    target's lease has run out, the gate offers the task to it again. *)
Theorem answered_target_leasable_again recorded now clock deadline st t n rs :
  length rs = maxTaskResults → Forall (fun r => rTaskID r ≠ tID t) rs →
  (length (Results st) <= maxTaskResults)%nat →
  openStatus t = true → n ∈ tTargets t →
  taskPastQueueDeadline t now deadline = false →
  taskTargetStalled (TaskTargetStates st) (tID t) n = false →
  (∀ s, taskTargetLeaseStart t n = Some s → taskLeaseExpiredAt s (TimeoutSec t) clock = true) →
  (LeasedBy t = n → taskLeaseExpiredAt (tStartedAt t) (TimeoutSec t) clock = true) →
  taskCanLeaseTarget t n (Results (recordAll recorded rs st)) (TaskTargetStates st)
    now clock deadline = true.
Proof.
  intros Hlen Hother Hl Hopen Hin Hdl Hst Hexp Hby. unfold taskCanLeaseTarget.
  apply contains_spec in Hin. rewrite Hin, Hopen, Hdl, Hst. cbn [negb orb].
  assert (existsb (answersTarget t n) (Results (recordAll recorded rs st)) = false) as ->.
  { rewrite recordAll_results, Hlen by done. rewrite drop_app_ge by (rewrite <- Hlen; lia).
    apply not_true_iff_false. rewrite existsb_elem_of. intros (x & Hx & Ha).
    apply list_elem_of_lookup in Hx as [i Hx]. rewrite lookup_drop in Hx.
    apply list_elem_of_lookup_2 in Hx.
    apply list_elem_of_fmap in Hx as (r & -> & Hr). rewrite Forall_forall in Hother.
    specialize (Hother r Hr). unfold answersTarget in Ha. go_bool. destruct Ha. done. }
  assert ((LeasedBy t =?? n) && negb (tLeaseID t =?? "") &&
          negb (taskLeaseExpiredAt (tStartedAt t) (TimeoutSec t) clock) = false) as ->.
  { case_bool_decide as Hb; [|done]. rewrite (Hby Hb). apply andb_false_r. }
  unfold taskTargetLeaseStart in Hexp. destruct (TargetLeases t !! n) as [lease|]; [|done].
  destruct (negb (leLeaseID lease =?? "")); [|done]. by rewrite (Hexp _ eq_refl).
Qed.

(** Cancelling does not stick against a result already past the lease
    check: the cancel is recorded, then the late result recomputes the status
    from the results alone, and a task with another unanswered target is
    leased again. *)
Theorem late_result_reopens_cancelled now now' st t r n :
  Tasks st !! rTaskID r = Some t → tID t = rTaskID r → lineChainTaskLocked st t = false →
  openStatus t = true → n ∈ tTargets t → n ≠ rNodeID r → ¬ answered t (Results st) n →
  let '(st1, _, _) := CancelTask now PersistOk (rTaskID r) st in
  let st2 := (AddTaskResult now' PersistOk r st1).1 in
  (∃ t1, Tasks st1 !! rTaskID r = Some t1 ∧ tStatus t1 = TaskCancelled) ∧
  (∃ t2, Tasks st2 !! rTaskID r = Some t2 ∧ tStatus t2 = TaskLeased).
Proof.
  intros Ht Hid Hlc Hopen Hin Hne Hno. unfold CancelTask. rewrite Ht, Hlc.
  unfold openStatus in Hopen. apply orb_true_iff in Hopen.
  assert (negb (tStatus t =?? TaskQueued) && negb (tStatus t =?? TaskLeased) &&
          negb (tStatus t =?? TaskPending) = false) as ->.
  { by destruct Hopen as [-> | ->]; cbn; rewrite ?andb_false_r. }
  cbn [Tasks with_Tasks]. set (t1 := with_tFinishedAt now (with_tStatus TaskCancelled t)).
  split; [exists t1; by rewrite lookup_insert_eq|].
  unfold AddTaskResult, AddTaskResultWithContext, publish. cbn [committed Tasks with_Tasks].
  rewrite lookup_insert_eq. cbn [Results with_Results with_Tasks].
  pose proof (aggregate_leased now' t1 (appendResult (Results st) (with_rLeaseID "" r))) as Hleased.
  destruct (taskAggregateStatus now' t1 _) as [status fin]. cbn [fst] in Hleased.
  specialize (Hleased ltac:(cbn; by destruct (tTargets t); [set_solver|])).
  assert (status = TaskLeased) as ->.
  { apply Hleased. exists n. split; [done|]. intros (x & Hx & Hxt & Hxn).
    apply elem_of_appendResult in Hx as [Hx|Hx]; [|by subst].
    apply Hno. exists x. done. }
  eexists. cbn [fst orb negb]. change (tID t1) with (tID t). rewrite Hid.
  destruct (negb _); cbn [Tasks with_TaskExecContexts with_Tasks];
    (split; [apply lookup_insert_eq|done]).
Qed.

(** ** Durable results *)

(** What a committed completion wrote. *)
Lemma complete_netguard_inv now p r approval binding st st' err :
  CompleteNetGuardTaskResult now p r approval binding st = (st', (true, err)) →
  rFinishedAt r ≠ 0 →
  ∃ task status fin, Tasks st !! rTaskID r = Some task ∧
    taskAggregateStatus now task (appendResult (Results st) (with_rLeaseID "" r)) = (status, fin) ∧
    Tasks st' = <[tID task := with_tFinishedAt fin (with_tStatus status task)]> (Tasks st) ∧
    TaskResultReceipts st' !! resultKey r = Some (taskResultReceipt r).
Proof.
  intros H Hfin. assert (is_zero (rFinishedAt r) = false) as Hz by (by apply Z.eqb_neq).
  unfold CompleteNetGuardTaskResult in H. cbn [rFinishedAt with_rLeaseID] in H. rewrite Hz in H.
  destruct (Tasks st !! rTaskID r) as [task|] eqn:Ht; [|done].
  repeat (case_match; try discriminate). simplify_eq. unfold publish.
  match goal with Hc : committed p = true |- _ => rewrite Hc end.
  match goal with Ha : taskAggregateStatus _ _ _ = (?s, ?f) |- _ => exists task, s, f end.
  split_and!; [done..|].
  cbn [TaskResultReceipts with_TaskResultReceipts]. unfold resultKey. rewrite lookup_insert_eq.
  by destruct r.
Qed.

Lemma single_target_closed now t results r n :
  tTargets t = [n] → r ∈ results → rTaskID r = tID t → rNodeID r = n →
  (taskAggregateStatus now t results).1 ≠ TaskLeased.
Proof.
  intros Ht Hr Hid Hn. rewrite aggregate_leased by (by rewrite Ht). intros (m & Hm & Hno).
  rewrite Ht in Hm. apply list_elem_of_singleton in Hm as ->. apply Hno. by exists r.
Qed.

(** Durable completion is exactly once: after a committed completion of a
    single-target task, replaying the very same result is recognised as a
    replay and acknowledged; a result under another lease id is reported as a
    conflict; and completing again is refused because the task is no longer
    leased. *)
Theorem durable_completion_once now now' p p' r r' approval approval' binding binding' st st' err task :
  CompleteNetGuardTaskResult now p r approval binding st = (st', (true, err)) →
  rFinishedAt r ≠ 0 → Tasks st !! rTaskID r = Some task → tID task = rTaskID r →
  tTargets task = [rNodeID r] → rTaskID r' = rTaskID r → rNodeID r' = rNodeID r →
  rLeaseID r' ≠ rLeaseID r →
  ConfirmTaskResultReplay true r st' = (true, true, None) ∧
  ConfirmTaskResultReplay true r' st' = (false, true, None) ∧
  ∃ e, CompleteNetGuardTaskResult now' p' r approval' binding' st' = (st', (false, Some e)).
Proof.
  intros H Hfin Ht Hid Htg Ht' Hn' Hl'.
  destruct (complete_netguard_inv _ _ _ _ _ _ _ _ H Hfin) as (task' & status & fin & Ht2 & Hagg & Htasks & Hrc).
  rewrite Ht in Ht2. injection Ht2 as <-.
  assert (Tasks st' !! rTaskID r = Some (with_tFinishedAt fin (with_tStatus status task))) as Hnew.
  { by rewrite Htasks, Hid, lookup_insert_eq. }
  unfold resultKey in Hrc.
  split; [|split].
  - unfold ConfirmTaskResultReplay. rewrite Hrc, Hnew. unfold receiptMatches.
    by rewrite !bool_decide_eq_true_2.
  - unfold ConfirmTaskResultReplay. rewrite Ht', Hn', Hrc, Hnew. unfold receiptMatches.
    cbn [taskResultReceipt rcLeaseID]. by rewrite bool_decide_eq_false_2.
  - unfold CompleteNetGuardTaskResult. rewrite Hnew. destruct (_ || _); [eauto|].
    assert (status ≠ TaskLeased) as Hs.
    { replace status with (taskAggregateStatus now task
        (appendResult (Results st) (with_rLeaseID "" r))).1 by (by rewrite Hagg).
      eapply single_target_closed; [done|apply elem_of_appendResult_last|done..]. }
    cbn [tStatus with_tFinishedAt with_tStatus]. rewrite bool_decide_eq_false_2 by done. eauto.
Qed.

(** ** Progress *)

Definition hasResult (t : Task) (st : State) (n : string) : bool :=
  existsb (answersTarget t n) (Results st).
Definition liveLease (t : Task) (now : time) (n : string) : bool :=
  match taskTargetLeaseStart t n with
  | Some s => negb (is_zero s) && negb (taskLeaseExpiredAt s (TimeoutSec t) now)
  | None => false
  end.

Lemma hasResult_latest t st n :
  hasResult t st n = match latestResults (fun r => rTaskID r =?? tID t) (Results st) !! n with
                     | Some _ => true | None => false end.
Proof.
  apply eq_true_iff_eq. unfold hasResult. rewrite existsb_elem_of.
  transitivity (is_Some (latestResults (fun r => rTaskID r =?? tID t) (Results st) !! n)).
  - rewrite latestResults_is_Some. unfold answersTarget.
    setoid_rewrite andb_true_iff. by setoid_rewrite bool_decide_eq_true.
  - destruct (_ !! n); split; [done|by eauto|by intros [? ?]|done].
Qed.

Lemma targetProgress_owing t now st n :
  (targetProgress t now (TaskTargetStates st)
     (latestResults (fun r => rTaskID r =?? tID t) (Results st)) n).2 = negb (hasResult t st n).
Proof.
  rewrite hasResult_latest. unfold targetProgress. destruct (latestResults _ _ !! n); [done|].
  destruct (negb _); [done|]. destruct (taskTargetLeaseStart t n); [destruct (_ && _)|]; done.
Qed.

Lemma targetProgress_running t now st n :
  pgStatus (targetProgress t now (TaskTargetStates st)
     (latestResults (fun r => rTaskID r =?? tID t) (Results st)) n).1 = TaskLeased ↔
  hasResult t st n = false ∧ taskTargetStalled (TaskTargetStates st) (tID t) n = false ∧
  liveLease t now n = true.
Proof.
  rewrite hasResult_latest. unfold targetProgress, liveLease, taskTargetStalled.
  destruct task_statuses as (N1 & N2 & N3 & N4 & N5 & N6 & N7 & _).
  destruct (latestResults _ _ !! n) as [r|].
  - cbn. destruct (failedResult r); naive_solver.
  - destruct (negb _); [cbn; naive_solver|].
    destruct (taskTargetLeaseStart t n); [destruct (_ && _)|]; cbn; naive_solver.
Qed.

(** The entry a target gets, and the two questions asked of all of them. *)
Definition entryOf (t : Task) (now : time) (st : State) : string → TaskTargetProgress * bool :=
  targetProgress t now (TaskTargetStates st)
    (latestResults (fun r => rTaskID r =?? tID t) (Results st)).

Lemma elem_of_unique n l : n ∈ uniqueStrings l ↔ n ∈ l.
Proof. apply elem_of_dedup. Qed.

Lemma some_owing t now st :
  existsb (fun '(_, (_, o)) => o)
    ((fun n => (n, entryOf t now st n)) <$> uniqueStrings (tTargets t)) = true ↔
  ∃ n, n ∈ tTargets t ∧ hasResult t st n = false.
Proof.
  assert (∀ n, (let '(_, o) := entryOf t now st n in o) = negb (hasResult t st n)) as E.
  { intros n. rewrite <- (targetProgress_owing t now st n). fold (entryOf t now st).
    by destruct (entryOf t now st n). }
  rewrite existsb_elem_of. split.
  - intros (x & (n & -> & Hn)%list_elem_of_fmap & Hx). exists n. rewrite elem_of_unique in Hn.
    rewrite E in Hx. by apply negb_true_iff in Hx.
  - intros (n & Hn & Hx). exists (n, entryOf t now st n). rewrite E, Hx. split; [|done].
    apply list_elem_of_fmap. exists n. by rewrite elem_of_unique.
Qed.

Lemma some_running t now st :
  existsb (fun '(_, e) => pgStatus e =?? TaskLeased)
    (map_to_list (list_to_map ((fun '(n, (e, _)) => (n, e)) <$>
      ((fun n => (n, entryOf t now st n)) <$> uniqueStrings (tTargets t))) :
      gmap string TaskTargetProgress)) = true ↔
  ∃ n, n ∈ tTargets t ∧ pgStatus (entryOf t now st n).1 = TaskLeased.
Proof.
  rewrite <- list_fmap_compose.
  rewrite (list_fmap_ext _ (fun n => (n, (entryOf t now st n).1))).
  2:{ intros i n _. cbn. by destruct (entryOf t now st n). }
  rewrite existsb_elem_of. split.
  - intros ([n e] & Hin & He). rewrite elem_of_map_to_list in Hin.
    apply elem_of_list_to_map_2, list_elem_of_fmap in Hin as (n' & [= -> ->] & Hn).
    rewrite elem_of_unique in Hn. exists n'. split; [done|]. by apply bool_decide_eq_true in He.
  - intros (n & Hn & He). exists (n, (entryOf t now st n).1). rewrite elem_of_map_to_list.
    split; [|by apply bool_decide_eq_true]. apply elem_of_list_to_map_1.
    + rewrite <- list_fmap_compose, list_fmap_id. apply NoDup_dedup.
    + apply list_elem_of_fmap. exists n. by rewrite elem_of_unique.
Qed.

(** The progress view tells the truth about a leased task: it is called
    stalled exactly when some target still owes a result and no target that
    owes one and has not been given up on holds a live lease. *)
Theorem progress_stalled_spec id now st t :
  Tasks st !! id = Some t → tStatus t = TaskLeased →
  TaskProgressStalled id now st = true ↔
  (∃ n, n ∈ tTargets t ∧ hasResult t st n = false) ∧
  (∀ n, n ∈ tTargets t → hasResult t st n = false →
     taskTargetStalled (TaskTargetStates st) (tID t) n = false → liveLease t now n = false).
Proof.
  intros Ht Hs. unfold TaskProgressStalled, TaskProgress. rewrite Ht, Hs.
  rewrite bool_decide_eq_true_2 by done. cbn [negb Stalled].
  fold (entryOf t now st). rewrite <- (some_owing t now st).
  pose proof (some_running t now st) as Hr. destruct (existsb _ (map_to_list _)).
  - split; [done|]. intros [_ H]. destruct (proj1 Hr eq_refl) as (n & Hn & Hp).
    apply targetProgress_running in Hp as (? & ? & Hl). by rewrite H in Hl.
  - split; [|by intros [? _]]. intros Hx. split; [done|].
    intros n Hn H1 H2. apply not_true_iff_false. intros H3. enough (false = true) by done.
    apply Hr. exists n. split; [done|]. by apply targetProgress_running.
Qed.

End Tasks.

(** ** Concrete runs *)

Module TaskDemo.
#[export] Existing Instance demo_sdk.
#[export] Existing Instance demo_sdk_laws.

(** A task with two targets: the first answered, the second never did. *)
Definition t2 : Task :=
  mkTask "t1" ["n1"; "n2"] "leased" "" "" 1 60 {["n1" := mkLease "lease_1" 2]} "n2" "lease_2" 3 0 "run" "" "".
Definition r1 : TaskResult := mkTaskResult "t1" "n1" "lease_1" 0 "" 9 "ok".
Definition st2 : State := with_Results [r1] (with_Tasks {["t1" := t2]} empty_state).
Definition other : TaskResult := mkTaskResult "t9" "n1" "lease_9" 0 "" 20 "".
Definition later : time := 3600 * second.

(** A durable task, its approval and its binding. *)
Definition t3 : Task :=
  mkTask "t3" ["n1"] "leased" "p3" "" 1 60 {["n1" := mkLease "lease_3" 2]} "n1" "lease_3" 2 0 "run" "" "".
Definition p3 (status : string) : Approval :=
  mkApproval "p3" "nft" "" "" "apply" "plan" "n1" [] status false "" "" "" "" "" 1 1.
Definition b3 : NodeGuardBinding := mkBinding "n1" 4 true "" 1 1.
Definition r3 (lease : string) : TaskResult := mkTaskResult "t3" "n1" lease 0 "" 9 "ok".
Definition st3 : State :=
  with_GuardBindings {["n1" := b3]} (with_Approvals {["p3" := p3 "approved"]}
    (with_Tasks {["t3" := t3]} empty_state)).
Definition run3 := CompleteNetGuardTaskResult 10 PersistOk (r3 "lease_3") (p3 "applied") b3 st3.
Lemma run3_ok : run3 = (run3.1, (true, None)).
Proof. vm_compute. reflexivity. Qed.

Lemma n2_unanswered : ¬ answered t2 (Results st2) "n2".
Proof. intros (r & Hr%list_elem_of_singleton & _ & Hn). by subst. Qed.
End TaskDemo.
Import (hints) TaskDemo.

Lemma aggregate_status_spec_witness :
  (taskAggregateStatus 5%Z TaskDemo.t2 [TaskDemo.r1]).1 = TaskLeased ↔
  ∃ n, n ∈ tTargets TaskDemo.t2 ∧ ¬ answered TaskDemo.t2 [TaskDemo.r1] n.
Proof.
  pose proof (aggregate_status_spec 5%Z TaskDemo.t2 [TaskDemo.r1] ltac:(discriminate)) as H.
  destruct (taskAggregateStatus 5%Z TaskDemo.t2 [TaskDemo.r1]) as [status fin]. exact (proj1 H).
Defined.

Lemma result_history_bounded_witness :
  (length (Results (AddTaskResultWithContext 5%Z PersistUnsynced TaskDemo.other
     (Some (mkExecContext "t9" "n1")) TaskDemo.st2).1) <= maxTaskResults)%nat.
Proof.
  apply (result_history_bounded 5%Z PersistUnsynced TaskDemo.other (Some (mkExecContext "t9" "n1"))
    TaskDemo.st2 eq_refl).
Defined.

Lemma answered_target_leasable_again_witness :
  taskCanLeaseTarget TaskDemo.t2 "n1"
    (Results (recordAll 30%Z (replicate maxTaskResults TaskDemo.other) TaskDemo.st2))
    (TaskTargetStates TaskDemo.st2) TaskDemo.later TaskDemo.later 0%Z = true.
Proof.
  apply (answered_target_leasable_again 30%Z TaskDemo.later TaskDemo.later 0%Z TaskDemo.st2 TaskDemo.t2 "n1"
    (replicate maxTaskResults TaskDemo.other)).
  - apply length_replicate.
  - apply Forall_replicate. discriminate.
  - cbn. unfold maxTaskResults. lia.
  - reflexivity.
  - left.
  - reflexivity.
  - vm_compute. reflexivity.
  - intros s [= <-]. vm_compute. reflexivity.
  - discriminate.
Defined.

Lemma late_result_reopens_cancelled_witness :
  let '(st1, _, _) := CancelTask 7%Z PersistOk "t1" TaskDemo.st2 in
  let st2 := (AddTaskResult 8%Z PersistOk TaskDemo.r1 st1).1 in
  (∃ t1, Tasks st1 !! "t1" = Some t1 ∧ tStatus t1 = TaskCancelled) ∧
  (∃ t2, Tasks st2 !! "t1" = Some t2 ∧ tStatus t2 = TaskLeased).
Proof.
  refine (late_result_reopens_cancelled 7%Z 8%Z TaskDemo.st2 TaskDemo.t2 TaskDemo.r1 "n2"
    _ _ _ _ _ _ _); [vm_compute; reflexivity..|right; left|discriminate|apply TaskDemo.n2_unanswered].
Defined.

Lemma durable_completion_once_witness :
  ConfirmTaskResultReplay true (TaskDemo.r3 "lease_3") TaskDemo.run3.1 = (true, true, None).
Proof.
  apply (durable_completion_once 10%Z 11%Z PersistOk PersistOk (TaskDemo.r3 "lease_3") (TaskDemo.r3 "lease_4")
    (TaskDemo.p3 "applied") (TaskDemo.p3 "applied") TaskDemo.b3 TaskDemo.b3 TaskDemo.st3 TaskDemo.run3.1
    None TaskDemo.t3 TaskDemo.run3_ok); [discriminate|reflexivity..|discriminate].
Defined.

Lemma progress_stalled_spec_witness :
  TaskProgressStalled "t1" TaskDemo.later TaskDemo.st2 = true ↔
  (∃ n, n ∈ tTargets TaskDemo.t2 ∧ hasResult TaskDemo.t2 TaskDemo.st2 n = false) ∧
  (∀ n, n ∈ tTargets TaskDemo.t2 → hasResult TaskDemo.t2 TaskDemo.st2 n = false →
     taskTargetStalled (TaskTargetStates TaskDemo.st2) "t1" n = false →
     liveLease TaskDemo.t2 TaskDemo.later n = false).
Proof.
  refine (progress_stalled_spec "t1" TaskDemo.later TaskDemo.st2 TaskDemo.t2 _ _); reflexivity.
Defined.
