(* ===== verification/LineChain.v ===== *)
(** * Line chains (internal/store/line_chain.go)

    A chain edge goes from a source line to the target line its traffic is
    forwarded to.  Committed edges are definitions, reserved ones are attempts
    that are applying.  Every operation stages a state and publishes it when
    it is committed; the audit and validation callbacks are arguments. *)

From Stdlib Require Import ZArith Lia.
From S2P Require Import Prelude GoStr Sha Groups StoreState Tasks.

Local Open Scope Z_scope.

Definition LineChainOperationSet : string := "set".
Definition LineChainOperationRemove : string := "remove".
Definition LineChainStatusPlanned : string := "planned".
Definition LineChainStatusApplying : string := "applying".
Definition LineChainStatusAppliedUnobserved : string := "applied_unobserved".
Definition LineChainStatusConverged : string := "converged".
Definition LineChainStatusDrifted : string := "drifted".
Definition LineChainStatusFailed : string := "failed".

Inductive lcError :=
| ErrLineChainRevisionConflict
| ErrLineChainCycle
| ErrLineChainSourceBusy (source approval : string)
| ErrLineChainAttemptNotFound
| ErrTaskTransitionConflict
| ErrTaskLeaseMismatch
| ErrAttemptIDsRequired
| ErrUnsupportedOperation
| ErrSetNeedsTarget
| ErrRemoveCarriesTarget
| ErrApprovalMismatch
| ErrAuditIncomplete
| ErrAuditConflict (id : string)
| ErrClassifier
| ErrPersist.

Definition errPersist (p : persist) : option lcError :=
  if persist_error p then Some ErrPersist else None.

(** ** The graph *)

Definition applying (a : LineChainAttempt) : bool :=
  (laStatus a =?? LineChainStatusApplying) && negb (laCandidateTargetLineUUID a =?? "").

(** The adjacency lists, built by ranging over the two maps in some order. *)
Definition addEdge (edges : gmap string (list string)) (source target : string) :
    gmap string (list string) :=
  <[source := default [] (edges !! source) ++ [target]]> edges.
Definition chainEdges (definitions : list (string * LineChainDefinition))
    (attempts : list (string * LineChainAttempt)) : gmap string (list string) :=
  let edges := foldl (fun edges '(source, d) =>
    if negb (ldTargetLineUUID d =?? "") then addEdge edges source (ldTargetLineUUID d) else edges)
    ∅ definitions in
  foldl (fun edges '(_, a) =>
    if applying a then addEdge edges (laSourceLineUUID a) (laCandidateTargetLineUUID a) else edges)
    edges attempts.

(** Depth-first search with the colours of the source: [1] on the stack, [2]
    finished.  [None] is fuel exhaustion. *)
Fixpoint visitTargets (visit : gmap string Z → string → option (bool * gmap string Z))
    (node : string) (targets : list string) (state : gmap string Z) :
    option (bool * gmap string Z) :=
  match targets with
  | [] => Some (false, <[node := 2]> state)
  | target :: targets =>
    match visit state target with
    | None => None
    | Some (true, state) => Some (true, state)
    | Some (false, state) => visitTargets visit node targets state
    end
  end.
Fixpoint visit (fuel : nat) (edges : gmap string (list string))
    (state : gmap string Z) (node : string) : option (bool * gmap string Z) :=
  match fuel with
  | O => None
  | S fuel =>
    let colour := default 0 (state !! node) in
    if colour =? 1 then Some (true, state)
    else if colour =? 2 then Some (false, state)
    else visitTargets (visit fuel edges) node (default [] (edges !! node)) (<[node := 1]> state)
  end.

Fixpoint visitAll (fuel : nat) (edges : gmap string (list string))
    (state : gmap string Z) (nodes : list string) : option bool :=
  match nodes with
  | [] => Some false
  | node :: nodes =>
    match visit fuel edges state node with
    | None => None
    | Some (true, _) => Some true
    | Some (false, state) => visitAll fuel edges state nodes
    end
  end.

(** Every node of the graph: sources and targets. *)
Definition graphNodes (edges : gmap string (list string)) : gset string :=
  dom edges ∪ list_to_set (concat (map_to_list edges).*2).
Definition hasCycleIn (edges : gmap string (list string)) : bool :=
  default true
    (visitAll (S (S (size (graphNodes edges)))) edges ∅ (sort_strings (map_to_list edges).*1)).
Definition lineChainGraphHasCycle (definitions : gmap string LineChainDefinition)
    (attempts : gmap string LineChainAttempt) : bool :=
  hasCycleIn (chainEdges (map_to_list definitions) (map_to_list attempts)).

(** ** Audit evidence *)

Section Ops.
Context {sdk : Sdk}.

Fixpoint freeze (evidence : gmap string AuditEvent) (audits : list AuditEvent) :
    res lcError (gmap string AuditEvent) :=
  match audits with
  | [] => Ok evidence
  | event :: audits =>
    fail_if (evID event =?? "") || is_zero (evAt event) || (evDecision event =?? "") with ErrAuditIncomplete ;
    match evidence !! evID event with
    | Some existing =>
      fail_if negb (marshal_audit existing =?? marshal_audit event) with ErrAuditConflict (evID event) ;
      freeze evidence audits
    | None => freeze (<[evID event := event]> evidence) audits
    end
  end.
Definition stageLineChainAuditEvidence (staged current : State) (audits : list AuditEvent) :
    res lcError State :=
  evidence ← freeze (LineChainAuditEvidence current) audits;
  mret (with_LineChainAuditEvidence evidence staged).

(** ** Planning *)

Definition validateLineChainAttempt (a : LineChainAttempt) : res lcError unit :=
  fail_if (trim_space (laApprovalID a) =?? "") || (trim_space (laSourceLineUUID a) =?? "")
    with ErrAttemptIDsRequired ;
  fail_if negb (laOperation a =?? LineChainOperationSet) && negb (laOperation a =?? LineChainOperationRemove)
    with ErrUnsupportedOperation ;
  fail_if (laOperation a =?? LineChainOperationSet) && (trim_space (laCandidateTargetLineUUID a) =?? "")
    with ErrSetNeedsTarget ;
  fail_if (laOperation a =?? LineChainOperationRemove) && negb (trim_space (laCandidateTargetLineUUID a) =?? "")
    with ErrRemoveCarriesTarget ;
  fail_if laSourceLineUUID a =?? laCandidateTargetLineUUID a with ErrLineChainCycle ;
  Ok tt.

Definition definitionOf (st : State) (source : string) : LineChainDefinition :=
  default zero_definition (LineChainDefinitions st !! source).
Definition baseMatches (st : State) (a : LineChainAttempt) : bool :=
  (ldGeneration (definitionOf st (laSourceLineUUID a)) =? laBaseGeneration a) &&
  (ldArtifactSHA256 (definitionOf st (laSourceLineUUID a)) =?? laBaseArtifactSHA256 a).

(** The loop over existing attempts: the first active one of the source
    answers. *)
Fixpoint activeAttempt (a : LineChainAttempt) (order : list (string * LineChainAttempt)) :
    option (res lcError LineChainAttempt) :=
  match order with
  | [] => None
  | (approvalID, current) :: order =>
    if negb (laSourceLineUUID current =?? laSourceLineUUID a) || (laStatus current =?? LineChainStatusFailed)
    then activeAttempt a order
    else if (laRequestSHA256 current =?? laRequestSHA256 a) && (laOperation current =?? laOperation a) &&
            (laCandidateTargetLineUUID current =?? laCandidateTargetLineUUID a)
    then Some (Ok current)
    else Some (Err (ErrLineChainSourceBusy (laSourceLineUUID a) approvalID))
  end.

Definition dropFailed (source : string) (attempts : gmap string LineChainAttempt) :
    gmap string LineChainAttempt :=
  base.filter (fun '(_, prior) =>
    ¬ (laSourceLineUUID prior = source ∧ laStatus prior = LineChainStatusFailed)) attempts.

Definition plannedAttempt (now : time) (a : LineChainAttempt) : LineChainAttempt :=
  let a := with_laStatus LineChainStatusPlanned a in
  let a := if is_zero (laCreatedAt a) then with_laCreatedAt now a else a in
  with_laUpdatedAt now a.

(** Results carry the attempt, the "already planned" flag and the error, as
    the source returns them together. *)
Definition planLineChainLocked (now : time) (p : persist) (order : list (string * LineChainAttempt))
    (a : LineChainAttempt) (approval : option Approval) (audits : list AuditEvent) (st : State) :
    State * (LineChainAttempt * bool * option lcError) :=
  match validateLineChainAttempt a with
  | Err e => (st, (zero_attempt, false, Some e))
  | Ok _ =>
    if negb (laPlanGraphRevision a =? LineChainGraphRevision st)
    then (st, (zero_attempt, false, Some ErrLineChainRevisionConflict)) else
    if negb (baseMatches st a)
    then (st, (zero_attempt, false, Some ErrLineChainRevisionConflict)) else
    match activeAttempt a order with
    | Some (Ok current) => (st, (current, true, None))
    | Some (Err e) => (st, (zero_attempt, false, Some e))
    | None =>
      let a := plannedAttempt now a in
      let staged := with_LineChainAttempts
        (<[laApprovalID a := a]> (dropFailed (laSourceLineUUID a) (LineChainAttempts st))) st in
      let withApproval : res lcError State :=
        match approval with
        | None => Ok staged
        | Some ap =>
          fail_if negb (aID ap =?? laApprovalID a) || negb (aStatus ap =?? ApprovalPending)
            with ErrApprovalMismatch ;
          Ok (with_Approvals (<[aID ap := ap]> (Approvals st)) staged)
        end in
      match staged ← withApproval; stageLineChainAuditEvidence staged st audits with
      | Err e => (st, (zero_attempt, false, Some e))
      | Ok staged => (publish p st staged, (a, false, errPersist p))
      end
    end
  end.

(** ** Reservation, rejection and approval *)

Definition reserved (now : time) (revision : Z) (a : LineChainAttempt) : LineChainAttempt :=
  with_laUpdatedAt now (with_laQueuedGraphRevision (wrapu64 (revision + 1))
    (with_laStatus LineChainStatusApplying a)).

Definition ReserveLineChain (now : time) (p : persist) (approvalID : string) (expectedRevision : Z)
    (st : State) : State * (LineChainAttempt * option lcError) :=
  if negb (LineChainGraphRevision st =? expectedRevision)
  then (st, (zero_attempt, Some ErrLineChainRevisionConflict)) else
  match LineChainAttempts st !! approvalID with
  | None => (st, (zero_attempt, Some ErrLineChainAttemptNotFound))
  | Some a =>
    if negb (laStatus a =?? LineChainStatusPlanned) || negb (laPlanGraphRevision a =? expectedRevision)
    then (st, (zero_attempt, Some ErrLineChainAttemptNotFound)) else
    let a := reserved now expectedRevision a in
    let attempts := <[approvalID := a]> (LineChainAttempts st) in
    if lineChainGraphHasCycle (LineChainDefinitions st) attempts
    then (st, (zero_attempt, Some ErrLineChainCycle)) else
    let staged := with_LineChainGraphRevision (wrapu64 (expectedRevision + 1))
                    (with_LineChainAttempts attempts st) in
    (publish p st staged, (a, errPersist p))
  end.

Definition cancelFor (approvalID : string) (t : Task) : Task :=
  if tApprovalID t =?? approvalID then with_tStatus TaskCancelled t else t.

Definition rejectLineChainApprovalLocked (now : time) (p : persist) (approvalID : string) (stale : bool)
    (staleCode reason : string) (audits : list AuditEvent) (st : State) :
    State * (bool * option lcError) :=
  match Approvals st !! approvalID, LineChainAttempts st !! approvalID with
  | Some ap, Some a =>
    if negb (aStatus ap =?? ApprovalPending) then (st, (false, Some ErrTaskTransitionConflict)) else
    if negb (laStatus a =?? LineChainStatusPlanned) || negb (laQueuedGraphRevision a =? 0)
       || negb (laIssuedLeaseID a =?? "")
    then (st, (false, Some ErrTaskTransitionConflict)) else
    let ap := with_aUpdatedAt now (with_aReason reason (with_aStaleCode staleCode
                (with_aStale stale (with_aStatus ApprovalRejected ap)))) in
    let a := with_laUpdatedAt now (with_laLastError reason (with_laLastErrorCode staleCode
               (with_laStatus LineChainStatusFailed a))) in
    let staged := with_Tasks (cancelFor approvalID <$> Tasks st)
      (with_LineChainAttempts (<[approvalID := a]> (LineChainAttempts st))
        (with_Approvals (<[approvalID := ap]> (Approvals st)) st)) in
    match stageLineChainAuditEvidence staged st audits with
    | Err e => (st, (false, Some e))
    | Ok staged => (publish p st staged, (committed p, errPersist p))
    end
  | _, _ => (st, (false, Some ErrTaskTransitionConflict))
  end.

Definition RejectLineChainApprovalStale now p approvalID staleCode reason audits st :=
  rejectLineChainApprovalLocked now p approvalID true staleCode reason audits st.
Definition RejectLineChainApproval now p approvalID reason audits st :=
  rejectLineChainApprovalLocked now p approvalID false "approval_rejected" reason audits st.

(** A refusal that also retires the candidate. *)
Definition rejectStale (now : time) (p : persist) (approvalID code reason : string)
    (failureAudits : list AuditEvent) (e : lcError) (st : State) :
    State * (LineChainAttempt * bool * option lcError) :=
  let '(st, (c, err)) := rejectLineChainApprovalLocked now p approvalID true code reason failureAudits st in
  (st, (zero_attempt, c, match err with Some e' => Some e' | None => Some e end)).

Definition approvalUnchanged (current approval : Approval) : bool :=
  (aStatus current =?? ApprovalPending) && (aStatus approval =?? ApprovalApproved) &&
  (aPlugin current =?? aPlugin approval) && (aService current =?? aService approval) &&
  (aMethod current =?? aMethod approval) && (aAction current =?? aAction approval) &&
  (aPlan current =?? aPlan approval) && (aRequestSHA256 current =?? aRequestSHA256 approval).

Definition taskBound (task : Task) (approval : Approval) (a : LineChainAttempt) : bool :=
  negb (tID task =?? "") && (tApprovalID task =?? aID approval) &&
  (tTargets task =?? [laSourceNodeID a]) &&
  negb (trim_space (Script task) =?? "") && negb (aArtifactDigest approval =?? "") &&
  (aArtifactDigest approval =?? laCandidateArtifactSHA256 a).

Definition queuedTask (at_ : time) (task : Task) : Task :=
  let task := if is_zero (tCreatedAt task) then with_tCreatedAt at_ task else task in
  if tStatus task =?? "" then with_tStatus TaskQueued task else task.

Definition ApproveLineChain (now : time) (p : persist) (approval : Approval) (task : Task)
    (audits : list AuditEvent) (st : State) : State * (LineChainAttempt * bool * option lcError) :=
  let failureAudits := drop 1 audits in
  let audits := take 1 audits in
  match Approvals st !! aID approval with
  | None => (st, (zero_attempt, false, Some ErrTaskTransitionConflict))
  | Some currentApproval =>
    if negb (approvalUnchanged currentApproval approval)
    then (st, (zero_attempt, false, Some ErrTaskTransitionConflict)) else
    match LineChainAttempts st !! aID approval with
    | None => (st, (zero_attempt, false, Some ErrLineChainRevisionConflict))
    | Some a =>
      if negb (laStatus a =?? LineChainStatusPlanned)
      then (st, (zero_attempt, false, Some ErrLineChainRevisionConflict)) else
      if negb (laPlanGraphRevision a =? LineChainGraphRevision st)
      then rejectStale now p (aID approval) "line_chain_inputs_changed"
             "line chain graph revision changed while queueing" failureAudits
             ErrLineChainRevisionConflict st else
      if negb (baseMatches st a)
      then rejectStale now p (aID approval) "line_chain_inputs_changed"
             "line chain baseline changed while queueing" failureAudits
             ErrLineChainRevisionConflict st else
      if negb (taskBound task approval a)
      then (st, (zero_attempt, false, Some ErrTaskTransitionConflict)) else
      if existsb (fun '(_, t) => tApprovalID t =?? aID approval) (map_to_list (Tasks st))
      then (st, (zero_attempt, false, Some ErrTaskTransitionConflict)) else
      let a := reserved now (LineChainGraphRevision st) a in
      let attempts := <[aID approval := a]> (LineChainAttempts st) in
      if lineChainGraphHasCycle (LineChainDefinitions st) attempts
      then rejectStale now p (aID approval) "line_chain_cycle"
             "line chain candidate would create a cycle" failureAudits ErrLineChainCycle st else
      let approval := with_aUpdatedAt (laUpdatedAt a) (with_aCreatedAt (aCreatedAt currentApproval) approval) in
      let task := queuedTask (laUpdatedAt a) task in
      let staged := with_Tasks (<[tID task := task]> (Tasks st))
        (with_Approvals (<[aID approval := approval]> (Approvals st))
          (with_LineChainGraphRevision (laQueuedGraphRevision a)
            (with_LineChainAttempts attempts st))) in
      match stageLineChainAuditEvidence staged st audits with
      | Err e => (st, (zero_attempt, false, Some e))
      | Ok staged => (publish p st staged, (a, committed p, errPersist p))
      end
    end
  end.
(** ** Completion *)

Definition approvalFrozen (stored approval : Approval) : bool :=
  (aStatus stored =?? ApprovalApproved) && lineChainApproval stored &&
  (aAction stored =?? aAction approval) && (aPlan stored =?? aPlan approval) &&
  (aArtifactDigest stored =?? aArtifactDigest approval) &&
  (aRequestSHA256 stored =?? aRequestSHA256 approval) && (aNodeID stored =?? aNodeID approval) &&
  (aPluginVersion stored =?? aPluginVersion approval) &&
  (length (aTargets stored) =? length (aTargets approval))%nat.

Definition attemptIssued (a : LineChainAttempt) (task : Task) (stored : Approval) (r : TaskResult)
    (approval : Approval) : bool :=
  (laStatus a =?? LineChainStatusApplying) && (laIssuedTaskID a =?? tID task) &&
  (laIssuedLeaseID a =?? rLeaseID r) && (laApprovalID a =?? aID approval) &&
  (laSourceNodeID a =?? rNodeID r) && (laIssuedScriptSHA256 a =?? sha256_hex (Script task)) &&
  (laIssuedArtifactSHA256 a =?? aArtifactDigest stored) &&
  (laCandidateArtifactSHA256 a =?? aArtifactDigest stored).

Definition validDriftCode (code : string) : bool :=
  (code =?? "inputs_changed") || (code =?? "target_missing") || (code =?? "source_missing").
Definition stickyLineChainDriftCode := validDriftCode.

Definition terminalValid (success : bool) (terminalStatus errorCode terminalError : string) : bool :=
  negb (512 <? String.length terminalError)%nat &&
  (if success
   then ((terminalStatus =?? LineChainStatusAppliedUnobserved) && (errorCode =?? "")) ||
        ((terminalStatus =?? LineChainStatusDrifted) && validDriftCode errorCode)
   else (errorCode =?? "host_apply_failed") && negb (terminalError =?? "")).

(** The definition a successful result promotes. *)
Definition promoted (now : time) (st : State) (a : LineChainAttempt) (approvalID : string) (task : Task)
    (terminalStatus errorCode : string) : LineChainDefinition :=
  let d := laCandidateDefinition a in
  let prior := definitionOf st (laSourceLineUUID a) in
  let d := with_ldApprovalID approvalID d in
  let d := with_ldTaskID (tID task) d in
  let d := with_ldActorID (tActorID task) d in
  let d := with_ldTokenID (tTokenID task) d in
  let d := with_ldAuditTargetLineUUID
    (if ldTargetLineUUID d =?? "" then ldTargetLineUUID prior else ldTargetLineUUID d) d in
  let d := with_ldGeneration (wrapu64 (laBaseGeneration a + 1)) d in
  let d := with_ldCreatedAt (if is_zero (ldCreatedAt prior) then now else ldCreatedAt prior) d in
  with_ldDriftCode errorCode (with_ldStatus terminalStatus (with_ldUpdatedAt now d)).

(** [classify] is the classifier applied to the current snapshot: [None] when
    the caller passes no classifier, [Some (Err _)] when it fails. *)
Definition completeLineChainTaskResultLocked (now : time) (p : persist) (r : TaskResult) (approval : Approval)
    (terminalStatus errorCode terminalError : string)
    (classify : option (State → LineChainAttempt → res lcError (string * string)))
    (auditFor : option (string → string → AuditEvent)) (audits : list AuditEvent) (st : State) :
    State * (bool * option lcError) :=
  match Tasks st !! rTaskID r with
  | None => (st, (false, Some ErrTaskLeaseMismatch))
  | Some task =>
    if negb (tApprovalID task =?? aID approval) || negb (taskLeaseMatches task (rNodeID r) (rLeaseID r))
    then (st, (false, Some ErrTaskLeaseMismatch)) else
    match Approvals st !! aID approval with
    | None => (st, (false, Some ErrTaskTransitionConflict))
    | Some stored =>
      if negb (approvalFrozen stored approval) then (st, (false, Some ErrTaskTransitionConflict)) else
      match LineChainAttempts st !! aID approval with
      | None => (st, (false, Some ErrTaskTransitionConflict))
      | Some a =>
        if negb (attemptIssued a task stored r approval) then (st, (false, Some ErrTaskTransitionConflict)) else
        if negb ((aTargets stored =?? [laSourceNodeID a]) && (aTargets approval =?? [laSourceNodeID a]))
        then (st, (false, Some ErrTaskTransitionConflict)) else
        let success := (rExitCode r =? 0) && (rError r =?? "") in
        match (match classify with
               | Some c => if success then c st a else Ok (terminalStatus, errorCode)
               | None => Ok (terminalStatus, errorCode)
               end) with
        | Err e => (st, (false, Some e))
        | Ok (terminalStatus, errorCode) =>
          let audits := audits ++ match auditFor with Some f => [f terminalStatus errorCode] | None => [] end in
          if negb (terminalValid success terminalStatus errorCode terminalError)
          then (st, (false, Some ErrTaskTransitionConflict)) else
          let storedR := with_rLeaseID "" r in
          let storedR := if is_zero (rFinishedAt storedR) then with_rFinishedAt now storedR else storedR in
          let results := appendResult (Results st) storedR in
          let '(status, finished) := taskAggregateStatus now task results in
          let approval := with_aUpdatedAt now stored in
          let '(approval, definitions, attempts) :=
            if success then
              (with_aReason "" (with_aStatus ApprovalApplied approval),
               <[laSourceLineUUID a := promoted now st a (aID approval) task terminalStatus errorCode]>
                 (LineChainDefinitions st),
               delete (aID approval) (LineChainAttempts st))
            else
              (with_aReason "execution failed; fresh plan required" (with_aStatus ApprovalApproved approval),
               LineChainDefinitions st,
               <[aID approval := with_laUpdatedAt now (with_laLastError terminalError
                  (with_laLastErrorCode errorCode (with_laStatus LineChainStatusFailed a)))]>
                 (LineChainAttempts st)) in
          let staged :=
            with_TaskResultReceipts
              (<[taskResultReceiptKey (rTaskID r) (rNodeID r) :=
                   taskResultReceipt (with_rLeaseID (rLeaseID r) storedR)]> (TaskResultReceipts st))
            (with_LineChainGraphRevision (wrapu64 (LineChainGraphRevision st + 1))
            (with_Approvals (<[aID approval := approval]> (Approvals st))
            (with_LineChainDefinitions definitions
            (with_LineChainAttempts attempts
            (with_Tasks (<[tID task := with_tFinishedAt finished (with_tStatus status task)]> (Tasks st))
            (with_Results results st)))))) in
          match stageLineChainAuditEvidence staged st audits with
          | Err e => (st, (false, Some e))
          | Ok staged => (publish p st staged, (committed p, errPersist p))
          end
        end
      end
    end
  end.

Definition CompleteLineChainTaskResult now p r approval terminalStatus errorCode terminalError audits st :=
  completeLineChainTaskResultLocked now p r approval terminalStatus errorCode terminalError None None audits st.
Definition CompleteLineChainTaskResultClassified now p r approval terminalError classifier auditFor st :=
  completeLineChainTaskResultLocked now p r approval LineChainStatusAppliedUnobserved "host_apply_failed"
    terminalError (Some classifier) (Some auditFor) [] st.

(** ** Observation *)

Record LineChainObservation := mkObservation {
  obOutboundTag : string;
  DownstreamLineUUID : string;
}.

Definition observedStatus (d : LineChainDefinition) (o : LineChainObservation) : string * string :=
  if ldTargetLineUUID d =?? "" then
    if (obOutboundTag o =?? "") && (DownstreamLineUUID o =?? "")
    then (LineChainStatusConverged, "") else (LineChainStatusDrifted, "remove_artifacts_present")
  else if (obOutboundTag o =?? ldOutboundTag d) && (DownstreamLineUUID o =?? ldTargetLineUUID d)
  then (LineChainStatusConverged, "") else (LineChainStatusDrifted, "observed_mismatch").

(** One observation: the definitions, the audits and whether anything
    changed. *)
Definition reconcileOne (now : time) (auditFor : option (LineChainDefinition → option AuditEvent))
    (acc : gmap string LineChainDefinition * list AuditEvent * bool)
    (ob : string * LineChainObservation) : gmap string LineChainDefinition * list AuditEvent * bool :=
  let '(definitions, audits, changed) := acc in
  match definitions !! ob.1 with
  | None => acc
  | Some d =>
    if (ldStatus d =?? LineChainStatusDrifted) && stickyLineChainDriftCode (ldDriftCode d) then acc else
    let '(status, driftCode) := observedStatus d ob.2 in
    if (ldStatus d =?? status) && (ldDriftCode d =?? driftCode) then acc else
    let d := with_ldObservationRevision (wrapu64 (ldObservationRevision d + 1))
      (with_ldUpdatedAt now (with_ldDriftCode driftCode (with_ldStatus status d))) in
    (<[ob.1 := d]> definitions,
     audits ++ match auditFor ≫= (fun f => f d) with Some e => [e] | None => [] end,
     true)
  end.

(** [observations] lists the map in the order it is ranged over. *)
Definition ReconcileLineChainsWithAudits (now : time) (p : persist)
    (observations : list (string * LineChainObservation))
    (auditFor : option (LineChainDefinition → option AuditEvent)) (st : State) :
    State * (bool * option lcError) :=
  let '(definitions, audits, changed) :=
    foldl (reconcileOne now auditFor) (LineChainDefinitions st, [], false) observations in
  if negb changed then (st, (false, None)) else
  match stageLineChainAuditEvidence (with_LineChainDefinitions definitions st) st audits with
  | Err e => (st, (false, Some e))
  | Ok staged => (publish p st staged, (committed p, errPersist p))
  end.
End Ops.

(** ** Cycle detection is exact *)

Section Cycles.
Variable edges : gmap string (list string).

Definition edge (x y : string) : Prop := ∃ ts, edges !! x = Some ts ∧ y ∈ ts.
Definition cyclic : Prop := ∃ x, tc edge x x.

Lemma edge_targets x y : y ∈ default [] (edges !! x) ↔ edge x y.
Proof.
  unfold edge. destruct (edges !! x) as [ts|]; cbn; [naive_solver|].
  split; [set_solver|]. by intros (ts & ? & _).
Qed.

Notation safe := (Acc (fun y x => edge x y)).

Lemma safe_no_cycle x : safe x → ¬ tc edge x x.
Proof.
  induction 1 as [x _ IH]. intros Hc.
  assert (∃ y, edge x y ∧ rtc edge y x) as (y & Hxy & Hyx).
  { inversion Hc; subst; [by exists x; split; [|apply rtc_refl]|]. eauto using tc_rtc. }
  apply (IH y Hxy). eapply tc_rtc_l; [exact Hyx|by apply tc_once].
Qed.

(** Finished nodes reach no cycle. *)
Record colouring (state : gmap string Z) : Prop := {
  colours : ∀ x c, state !! x = Some c → c = 1 ∨ c = 2;
  finished_safe : ∀ x, state !! x = Some 2 → safe x;
}.

(** What a visit does when it finds no cycle: the node is finished, the nodes
    on the stack are the same, and no colour is lost. *)
Record explored (state state' : gmap string Z) : Prop := {
  ex_colouring : colouring state';
  ex_stack : ∀ x, state' !! x = Some 1 ↔ state !! x = Some 1;
  ex_dom : dom state ⊆ dom state';
}.

Definition visit_ok (v : gmap string Z → string → option (bool * gmap string Z)) : Prop :=
  ∀ state node b state', v state node = Some (b, state') → colouring state →
  if b then (∀ x, state !! x = Some 1 → tc edge x node) → cyclic
  else explored state state' ∧ state' !! node = Some 2.

Lemma explored_trans s1 s2 s3 : explored s1 s2 → explored s2 s3 → explored s1 s3.
Proof.
  intros [_ H2 H3] [H4 H5 H6]. split; [done| |by etrans]. intros x. by rewrite H5, H2.
Qed.

Lemma visitTargets_ok v node targets state b state' :
  visit_ok v → visitTargets v node targets state = Some (b, state') → colouring state →
  state !! node = Some 1 → (∀ t, t ∈ targets → edge node t) →
  if b then (∀ x, state !! x = Some 1 → rtc edge x node) → cyclic
  else ∃ state1, explored state state1 ∧ state' = <[node := 2]> state1 ∧
       ∀ t, t ∈ targets → safe t.
Proof.
  intros Hv. revert state. induction targets as [|t targets IH]; intros state; cbn.
  - intros [= <- <-] Hc Hn _. exists state. split; [|split; [done|set_solver]]. by split.
  - intros Hr Hc Hn He. destruct (v state t) as [[b1 s1]|] eqn:E; [|done].
    specialize (Hv _ _ _ _ E Hc). destruct b1.
    + simplify_eq. intros Hs. apply Hv. intros x Hx.
      eapply tc_rtc_l; [by apply Hs|]. apply tc_once, He. left.
    + destruct Hv as [Hx Ht]. specialize (IH s1 Hr (ex_colouring _ _ Hx)).
      assert (s1 !! node = Some 1) as Hn1 by (by apply (ex_stack _ _ Hx)).
      specialize (IH Hn1 ltac:(set_solver)). destruct b.
      * intros Hs. apply IH. intros x Hx1. by apply Hs, (ex_stack _ _ Hx).
      * destruct IH as (s2 & Hx2 & -> & Hsafe). exists s2. split; [by eapply explored_trans|].
        split; [done|]. intros t' [->|?]%elem_of_cons; [|by apply Hsafe].
        by apply (finished_safe _ (ex_colouring _ _ Hx)).
Qed.

Lemma colouring_push state node :
  colouring state → state !! node = None → colouring (<[node := 1]> state).
Proof.
  intros [H1 H2] Hn. split.
  - intros x c. destruct (decide (node = x)) as [->|?];
      [rewrite lookup_insert_eq; naive_solver|rewrite lookup_insert_ne by done; apply H1].
  - intros x. destruct (decide (node = x)) as [->|?];
      [rewrite lookup_insert_eq; done|rewrite lookup_insert_ne by done; apply H2].
Qed.

Lemma explored_finish state state1 node :
  state !! node = None → explored (<[node := 1]> state) state1 → safe node →
  explored state (<[node := 2]> state1).
Proof.
  intros Hn [[H1 H2] H3 H4] Hs. split; [split|..].
  - intros x c. destruct (decide (node = x)) as [->|?];
      [rewrite lookup_insert_eq; naive_solver|rewrite lookup_insert_ne by done; apply H1].
  - intros x. destruct (decide (node = x)) as [->|?];
      [done|rewrite lookup_insert_ne by done; apply H2].
  - intros x. destruct (decide (node = x)) as [->|?].
    + rewrite lookup_insert_eq, Hn. done.
    + rewrite lookup_insert_ne by done. rewrite H3. by rewrite lookup_insert_ne.
  - rewrite dom_insert in *. set_solver.
Qed.

Lemma white_None state node :
  colouring state → (default 0 (state !! node) =? 1) = false →
  (default 0 (state !! node) =? 2) = false → state !! node = None.
Proof.
  intros Hc E1 E2. destruct (state !! node) as [c|] eqn:E; [|done]. cbn in *. go_bool.
  destruct (colours _ Hc _ _ E); done.
Qed.

Lemma visit_correct fuel : visit_ok (visit fuel edges).
Proof.
  induction fuel as [|fuel IH]; intros state node b state' Hr Hc; [done|]. cbn in Hr.
  destruct (default 0 (state !! node) =? 1) eqn:E1; [|destruct (default 0 (state !! node) =? 2) eqn:E2].
  - simplify_eq. intros Hs. exists node. apply Hs.
    destruct (state' !! node); cbn in E1; [|done]. go_bool. by subst.
  - simplify_eq. destruct (state' !! node) eqn:E; cbn in E2; [|done]. go_bool. subst.
    split; [|done]. by split.
  - pose proof (white_None _ _ Hc E1 E2) as Hn.
    pose proof (visitTargets_ok _ _ _ _ _ _ IH Hr (colouring_push _ _ Hc Hn)
      (lookup_insert_eq _ _ _) (fun t => proj1 (edge_targets node t))) as H.
    destruct b.
    + intros Hs. apply H. intros x. destruct (decide (node = x)) as [->|?]; [done|].
      rewrite lookup_insert_ne by done. intros Hx. by apply tc_rtc, Hs.
    + destruct H as (s1 & Hx & -> & Hsafe). split; [|apply lookup_insert_eq].
      apply explored_finish; [done..|]. constructor. intros t Ht. by apply Hsafe, edge_targets.
Qed.

(** The fuel is enough: every nested visit colours a new node of a set closed
    under edges. *)
Variable U : gset string.
Hypothesis U_closed : ∀ x y, x ∈ U → edge x y → y ∈ U.

Definition uncoloured (state : gmap string Z) : nat := size (U ∖ dom state).

Lemma uncoloured_mono s s' : dom s ⊆ dom s' → (uncoloured s' <= uncoloured s)%nat.
Proof. intros H. unfold uncoloured. apply (subseteq_size (C := gset string)). set_solver. Qed.

Lemma uncoloured_push state node :
  node ∈ U → state !! node = None → (uncoloured (<[node := 1%Z]> state) < uncoloured state)%nat.
Proof.
  intros Hu Hn. unfold uncoloured. apply (subset_size (C := gset string)).
  apply not_elem_of_dom in Hn. rewrite dom_insert. set_solver.
Qed.

Lemma visitTargets_fuel fuel node targets state :
  (∀ state node, node ∈ U → colouring state → (uncoloured state < fuel)%nat →
     is_Some (visit fuel edges state node)) →
  colouring state → (uncoloured state < fuel)%nat → (∀ t, t ∈ targets → t ∈ U) →
  is_Some (visitTargets (visit fuel edges) node targets state).
Proof.
  intros Hv. revert state. induction targets as [|t targets IH]; intros state Hc Hm Ht; cbn; [by eauto|].
  destruct (Hv state t) as [[b s1] E]; [set_solver|done..|]. rewrite E.
  pose proof (visit_correct fuel _ _ _ _ E Hc) as Hx. destruct b; [by eauto|].
  destruct Hx as [Hx _]. apply IH; [apply Hx| |set_solver].
  pose proof (uncoloured_mono _ _ (ex_dom _ _ Hx)). lia.
Qed.

Lemma visit_fuel fuel state node :
  node ∈ U → colouring state → (uncoloured state < fuel)%nat →
  is_Some (visit fuel edges state node).
Proof.
  revert state node. induction fuel as [|fuel IH]; intros state node Hu Hc Hm; [lia|]. cbn.
  destruct (_ =? 1) eqn:E1; [by eauto|]. destruct (_ =? 2) eqn:E2; [by eauto|].
  pose proof (white_None _ _ Hc E1 E2) as Hn. pose proof (uncoloured_push _ _ Hu Hn).
  apply visitTargets_fuel; [done|by apply colouring_push|lia|].
  intros t Ht. by eapply U_closed, edge_targets.
Qed.

Lemma visitAll_spec fuel nodes state :
  colouring state → (∀ x, state !! x ≠ Some 1) → (∀ x, x ∈ nodes → x ∈ U) →
  (uncoloured state < fuel)%nat →
  ∃ b, visitAll fuel edges state nodes = Some b ∧
    if b then cyclic else ∀ x, x ∈ nodes → safe x.
Proof.
  revert state. induction nodes as [|n nodes IH]; intros state Hc Hs Hu Hm; cbn.
  - exists false. split; [done|]. set_solver.
  - destruct (visit_fuel fuel state n) as [[b s1] E]; [set_solver|done..|]. rewrite E.
    pose proof (visit_correct fuel _ _ _ _ E Hc) as Hx. destruct b.
    + exists true. split; [done|]. apply Hx. intros x Hx1. by destruct (Hs x).
    + destruct Hx as [Hx Hn]. destruct (IH s1) as (b & -> & Hb).
      * apply Hx.
      * intros x Hx1. by apply (ex_stack _ _ Hx), Hs in Hx1.
      * set_solver.
      * pose proof (uncoloured_mono _ _ (ex_dom _ _ Hx)). lia.
      * exists b. split; [done|]. destruct b; [done|].
        intros x [->|?]%elem_of_cons; [|by apply Hb].
        by apply (finished_safe _ (ex_colouring _ _ Hx)).
Qed.
End Cycles.

Lemma graphNodes_closed edges x y : edge edges x y → x ∈ graphNodes edges ∧ y ∈ graphNodes edges.
Proof.
  intros (ts & Hx & Hy). unfold graphNodes. rewrite !elem_of_union. split.
  - left. apply elem_of_dom. eauto.
  - right. rewrite elem_of_list_to_set. apply list_elem_of_In, List.in_concat.
    exists ts. split; [|by apply list_elem_of_In]. apply list_elem_of_In, list_elem_of_fmap.
    exists (x, ts). split; [done|]. by apply elem_of_map_to_list.
Qed.

(** The search decides whether the graph has a cycle, whatever the order of
    the adjacency lists. *)
Lemma hasCycleIn_spec edges : hasCycleIn edges = true ↔ cyclic edges.
Proof.
  unfold hasCycleIn.
  destruct (visitAll_spec edges (graphNodes edges)
    (fun x y _ H => proj2 (graphNodes_closed edges x y H))
    (S (S (size (graphNodes edges)))) (sort_strings (map_to_list edges).*1) ∅) as (b & -> & Hb).
  - split; intros x; [intros c|]; by rewrite lookup_empty.
  - intros x. by rewrite lookup_empty.
  - intros x. rewrite elem_of_sort_strings, list_elem_of_fmap.
    intros ([y ts] & -> & Hy%elem_of_map_to_list). unfold graphNodes.
    apply elem_of_union. left. apply elem_of_dom. eauto.
  - unfold uncoloured. rewrite dom_empty_L, difference_empty_L. lia.
  - cbn. destruct b; [done|]. split; [done|]. intros (x & Hx). exfalso.
    apply (safe_no_cycle edges x); [|done]. apply Hb.
    assert (∃ y, edge edges x y) as (y & ts & Hts & _).
    { inversion Hx; eauto. }
    rewrite elem_of_sort_strings, list_elem_of_fmap. exists (x, ts). split; [done|].
    by apply elem_of_map_to_list.
Qed.

(** ** The edges of a store *)

(** A committed edge or a reserved one. *)
Definition chain_edge (definitions : gmap string LineChainDefinition)
    (attempts : gmap string LineChainAttempt) (x y : string) : Prop :=
  (∃ d, definitions !! x = Some d ∧ ldTargetLineUUID d = y ∧ y ≠ "") ∨
  (∃ k a, attempts !! k = Some a ∧ applying a = true ∧ laSourceLineUUID a = x ∧
     laCandidateTargetLineUUID a = y).

Lemma edge_addEdge edges s t x y : edge (addEdge edges s t) x y ↔ edge edges x y ∨ (x = s ∧ y = t).
Proof.
  unfold edge, addEdge. destruct (decide (s = x)) as [->|Hne].
  - rewrite lookup_insert_eq. split.
    + intros (ts & [= <-] & Hy). apply elem_of_app in Hy as [Hy|Hy%list_elem_of_singleton]; [left|by right].
      destruct (edges !! x) as [ts|]; cbn in Hy; [by eauto|set_solver].
    + intros [(ts & Hx & Hy)|[_ ->]]; eexists; (split; [done|]); apply elem_of_app;
        [left; by rewrite Hx|right; by apply list_elem_of_singleton].
  - rewrite lookup_insert_ne by done. split; [by left|]. intros [?|[-> _]]; done.
Qed.

Lemma edge_fold {A} (f : A → option (string * string)) (l : list A) edges x y :
  edge (foldl (fun edges z => match f z with Some (s, t) => addEdge edges s t | None => edges end) edges l) x y ↔
  edge edges x y ∨ ∃ z, z ∈ l ∧ f z = Some (x, y).
Proof.
  revert edges. induction l as [|z l IH]; intros edges; cbn; [set_solver|].
  rewrite IH. destruct (f z) as [[s t]|] eqn:E; [rewrite edge_addEdge|];
    setoid_rewrite elem_of_cons; naive_solver.
Qed.

Definition def_edge (z : string * LineChainDefinition) : option (string * string) :=
  if negb (ldTargetLineUUID z.2 =?? "") then Some (z.1, ldTargetLineUUID z.2) else None.
Definition att_edge (z : string * LineChainAttempt) : option (string * string) :=
  if applying z.2 then Some (laSourceLineUUID z.2, laCandidateTargetLineUUID z.2) else None.

Lemma foldl_ext_fun {A B} (f g : A → B → A) l a :
  (∀ a b, f a b = g a b) → foldl f a l = foldl g a l.
Proof. intros H. revert a. induction l as [|b l IH]; intros a; cbn; [done|]. by rewrite H. Qed.

Lemma edge_chainEdges ds atts x y :
  edge (chainEdges ds atts) x y ↔
  (∃ z, z ∈ ds ∧ def_edge z = Some (x, y)) ∨ (∃ z, z ∈ atts ∧ att_edge z = Some (x, y)).
Proof.
  unfold chainEdges.
  erewrite (foldl_ext_fun _ _ atts) by
    (intros e [k a]; instantiate (1 := fun e z => match att_edge z with
       Some (s, t) => addEdge e s t | None => e end); unfold att_edge; cbn; by destruct (applying a)).
  erewrite (foldl_ext_fun _ _ ds) by
    (intros e [k d]; instantiate (1 := fun e z => match def_edge z with
       Some (s, t) => addEdge e s t | None => e end); unfold def_edge; cbn; by destruct (negb _)).
  rewrite !edge_fold. enough (¬ edge ∅ x y) by naive_solver. by intros (ts & ? & _).
Qed.

Lemma edge_chain definitions attempts ds atts x y :
  ds ≡ₚ map_to_list definitions → atts ≡ₚ map_to_list attempts →
  edge (chainEdges ds atts) x y ↔ chain_edge definitions attempts x y.
Proof.
  intros Hd Ha. rewrite edge_chainEdges. setoid_rewrite Hd. setoid_rewrite Ha. unfold chain_edge.
  apply Morphisms_Prop.or_iff_morphism; split.
  - intros ([k d] & Hk%elem_of_map_to_list & He). unfold def_edge in He. cbn in He.
    case_bool_decide; simplify_eq/=. eauto.
  - intros (d & Hk & Ht & Hne). exists (x, d). rewrite elem_of_map_to_list. split; [done|].
    unfold def_edge. cbn. rewrite bool_decide_eq_false_2 by congruence. cbn. by rewrite Ht.
  - intros ([k a] & Hk%elem_of_map_to_list & He). unfold att_edge in He. cbn in He.
    destruct (applying a) eqn:E; simplify_eq. eauto 10.
  - intros (k & a & Hk & Hap & Hs & Ht). exists (k, a). rewrite elem_of_map_to_list. split; [done|].
    unfold att_edge. cbn. by rewrite Hap, Hs, Ht.
Qed.

Definition acyclic definitions attempts : Prop := ∀ x, ¬ tc (chain_edge definitions attempts) x x.

Lemma tc_mono (R S : string → string → Prop) x y : (∀ x y, R x y → S x y) → tc R x y → tc S x y.
Proof. intros H. induction 1; [by apply tc_once, H|eapply tc_l; eauto]. Qed.

(** Cycle detection is exact: for whatever order the two maps are ranged
    in, the search ends within its fuel and reports a cycle exactly when the
    committed and reserved edges contain one. *)
Theorem cycle_detection_exact definitions attempts ds atts :
  ds ≡ₚ map_to_list definitions → atts ≡ₚ map_to_list attempts →
  hasCycleIn (chainEdges ds atts) = true ↔ ∃ x, tc (chain_edge definitions attempts) x x.
Proof.
  intros Hd Ha. rewrite hasCycleIn_spec. unfold cyclic.
  split; intros (x & Hx); exists x; eapply tc_mono; try exact Hx;
    intros a b; by rewrite (edge_chain definitions attempts).
Qed.

Lemma no_cycle_acyclic definitions attempts :
  lineChainGraphHasCycle definitions attempts = false → acyclic definitions attempts.
Proof.
  intros H x Hx. apply not_true_iff_false in H. apply H.
  unfold lineChainGraphHasCycle. rewrite hasCycleIn_spec. exists x.
  eapply tc_mono; [|exact Hx]. intros a b. by rewrite (edge_chain definitions attempts).
Qed.

(** ** The invariant *)

(** A candidate definition carries the target the attempt reserves. *)
Definition consistent (a : LineChainAttempt) : Prop :=
  ldTargetLineUUID (laCandidateDefinition a) = laCandidateTargetLineUUID a.
Definition active (a : LineChainAttempt) : Prop := laStatus a ≠ LineChainStatusFailed.

Definition approvals_keyed (m : gmap string Approval) : Prop := ∀ k ap, m !! k = Some ap → aID ap = k.

Record lc_inv (st : State) : Prop := {
  inv_acyclic : acyclic (LineChainDefinitions st) (LineChainAttempts st);
  inv_consistent : ∀ k a, LineChainAttempts st !! k = Some a → consistent a;
  inv_single : ∀ k1 k2 a1 a2,
    LineChainAttempts st !! k1 = Some a1 → LineChainAttempts st !! k2 = Some a2 →
    active a1 → active a2 → laSourceLineUUID a1 = laSourceLineUUID a2 → k1 = k2;
  inv_approval_ids : approvals_keyed (Approvals st);
}.

Lemma approvals_keyed_insert m k ap : approvals_keyed m → aID ap = k → approvals_keyed (<[k := ap]> m).
Proof.
  intros H Hk k' ap'. destruct (decide (k = k')) as [->|?].
  - rewrite lookup_insert_eq. by intros [= <-].
  - rewrite lookup_insert_ne by done. apply H.
Qed.

Lemma acyclic_shrink d a d' a' :
  acyclic d a → (∀ x y, chain_edge d' a' x y → chain_edge d a x y) → acyclic d' a'.
Proof. intros H Hs x Hx. by eapply H, tc_mono. Qed.

Lemma lc_inv_publish p st staged : lc_inv st → lc_inv staged → lc_inv (publish p st staged).
Proof. intros ? ?. unfold publish. by destruct (committed p). Qed.

(** States that agree on the line chains. *)
Lemma lc_inv_same st st' :
  LineChainDefinitions st' = LineChainDefinitions st →
  LineChainAttempts st' = LineChainAttempts st → approvals_keyed (Approvals st') →
  lc_inv st → lc_inv st'.
Proof. intros Hd Ha Hap [H1 H2 H3 H4]. split; rewrite ?Hd, ?Ha; done. Qed.

Lemma stage_chains `{Sdk} staged current audits st' :
  stageLineChainAuditEvidence staged current audits = Ok st' →
  LineChainDefinitions st' = LineChainDefinitions staged ∧
  LineChainAttempts st' = LineChainAttempts staged ∧
  LineChainGraphRevision st' = LineChainGraphRevision staged ∧
  Tasks st' = Tasks staged ∧ Approvals st' = Approvals staged ∧
  TaskResultReceipts st' = TaskResultReceipts staged.
Proof. unfold stageLineChainAuditEvidence. intros Hs. by ok_inv. Qed.

Lemma lc_inv_staged `{Sdk} staged current audits st' :
  stageLineChainAuditEvidence staged current audits = Ok st' → lc_inv staged → lc_inv st'.
Proof.
  intros (? & ? & _ & _ & Ha & _)%stage_chains Hi. apply (lc_inv_same staged); [done..| |done].
  rewrite Ha. apply Hi.
Qed.

(** Replacing one attempt by one of the same source and candidate that is not
    a new edge. *)
Lemma lc_inv_replace st st' k a a' :
  lc_inv st → LineChainAttempts st !! k = Some a →
  LineChainDefinitions st' = LineChainDefinitions st →
  LineChainAttempts st' = <[k := a']> (LineChainAttempts st) →
  laSourceLineUUID a' = laSourceLineUUID a →
  laCandidateTargetLineUUID a' = laCandidateTargetLineUUID a →
  laCandidateDefinition a' = laCandidateDefinition a →
  (active a' → active a) → approvals_keyed (Approvals st') →
  acyclic (LineChainDefinitions st) (<[k := a']> (LineChainAttempts st)) →
  lc_inv st'.
Proof.
  intros [H1 H2 H3 H4] Hk Hd Ha Hs Hc Hcd Hact Hids Hacy. split; rewrite ?Hd, ?Ha; [done|..|done].
  - intros k' b. destruct (decide (k = k')) as [->|?].
    + rewrite lookup_insert_eq. intros [= <-]. unfold consistent. rewrite Hcd, Hc. by eapply H2.
    + rewrite lookup_insert_ne by done. apply H2.
  - intros k1 k2 a1 a2. destruct (decide (k = k1)) as [<-|?], (decide (k = k2)) as [<-|?];
      rewrite ?lookup_insert_eq, ?lookup_insert_ne by done; [done|..].
    + intros [= <-] ? ? ? Hss. eapply H3; eauto. congruence.
    + intros ? [= <-] ? ? Hss. eapply H3; eauto. congruence.
    + apply H3.
Qed.

(** Turning an attempt into one that is not applying only removes an edge. *)
Lemma acyclic_retire d atts k a' :
  acyclic d atts → applying a' = false → acyclic d (<[k := a']> atts).
Proof.
  intros H Ha. eapply acyclic_shrink; [exact H|]. intros x y [?|(k' & b & Hk & Hap & ?)]; [by left|].
  right. destruct (decide (k = k')) as [->|?].
  - rewrite lookup_insert_eq in Hk. injection Hk as <-. congruence.
  - rewrite lookup_insert_ne in Hk by done. eauto.
Qed.

Section Preservation.
Context {sdk : Sdk}.

Lemma activeAttempt_None a order :
  activeAttempt a order = None →
  ∀ k b, (k, b) ∈ order → active b → laSourceLineUUID b ≠ laSourceLineUUID a.
Proof.
  induction order as [|[k b] order IH]; cbn; intros H k' b' Hin Hact; [set_solver|].
  destruct (negb (laSourceLineUUID b =?? laSourceLineUUID a) || (laStatus b =?? LineChainStatusFailed)) eqn:E.
  - apply elem_of_cons in Hin as [[= -> ->]|Hin]; [|by eapply IH].
    go_bool. by destruct E.
  - destruct (_ && _); done.
Qed.

Lemma plan_preserves now p order a approval audits st :
  lc_inv st → order ≡ₚ map_to_list (LineChainAttempts st) → consistent a →
  lc_inv (planLineChainLocked now p order a approval audits st).1.
Proof.
  intros Hi Ho Hc. unfold planLineChainLocked. destruct (validateLineChainAttempt a); [|done].
  destruct (negb _); [done|]. destruct (negb _); [done|].
  destruct (activeAttempt a order) as [[|]|] eqn:Ea; [done..|]. cbv zeta.
  set (a' := plannedAttempt now a).
  assert (laSourceLineUUID a' = laSourceLineUUID a ∧ consistent a' ∧ applying a' = false)
    as (Hs & Hc' & Hap).
  { unfold a', plannedAttempt, consistent, applying. destruct (is_zero _); done. }
  set (staged := with_LineChainAttempts _ st).
  assert (lc_inv staged) as Hst.
  { split; cbn [staged LineChainDefinitions LineChainAttempts with_LineChainAttempts].
    - apply acyclic_retire; [|done]. eapply acyclic_shrink; [apply Hi|].
      intros x y [?|(k & b & [Hk _]%map_lookup_filter_Some & ?)]; [by left|right; eauto].
    - intros k b. destruct (decide (laApprovalID a' = k)) as [<-|?].
      + rewrite lookup_insert_eq. by intros [= <-].
      + rewrite lookup_insert_ne by done. intros [Hk _]%map_lookup_filter_Some. by eapply Hi.
    - assert (∀ k b, dropFailed (laSourceLineUUID a') (LineChainAttempts st) !! k = Some b →
        active b → laSourceLineUUID b ≠ laSourceLineUUID a') as Hno.
      { intros k b [Hk _]%map_lookup_filter_Some Hact. rewrite Hs. eapply activeAttempt_None; [done| |done].
        rewrite Ho. by apply elem_of_map_to_list. }
      intros k1 k2 b1 b2.
      destruct (decide (laApprovalID a' = k1)) as [<-|?], (decide (laApprovalID a' = k2)) as [<-|?];
        rewrite ?lookup_insert_eq, ?lookup_insert_ne by done; [done|..].
      + intros [= <-] Hk2 _ Hact Hss. by destruct (Hno _ _ Hk2 Hact).
      + intros Hk1 [= <-] Hact _ Hss. by destruct (Hno _ _ Hk1 Hact).
      + intros [H1 _]%map_lookup_filter_Some [H2 _]%map_lookup_filter_Some. by apply (inv_single _ Hi).
    - apply Hi. }
  destruct (_ ≫= _) as [staged'|] eqn:Es; [|done]. apply lc_inv_publish; [done|].
  destruct approval as [ap|]; cbn in Es.
  - unfold guard_err in Es. destruct (_ || _); [done|]. cbn in Es. eapply lc_inv_staged; [done|].
    eapply lc_inv_same; [..|exact Hst]; [done..|]. apply approvals_keyed_insert; [apply Hi|done].
  - by eapply lc_inv_staged.
Qed.

Lemma reserve_preserves now p k rev st :
  lc_inv st → lc_inv (ReserveLineChain now p k rev st).1.
Proof.
  intros Hi. unfold ReserveLineChain. destruct (negb _); [done|].
  destruct (LineChainAttempts st !! k) as [a|] eqn:Hk; [|done].
  destruct (negb (laStatus a =?? LineChainStatusPlanned)) eqn:Hp; [done|]. cbn [orb].
  destruct (negb (laPlanGraphRevision a =? rev)); [done|].
  destruct (lineChainGraphHasCycle _ _) eqn:Ec; [done|]. apply lc_inv_publish; [done|].
  go_bool. eapply lc_inv_replace; try done; [by intros _; unfold active; rewrite Hp|apply Hi|].
  by apply no_cycle_acyclic.
Qed.

Lemma reject_preserves now p k stale code reason audits st :
  lc_inv st → lc_inv (rejectLineChainApprovalLocked now p k stale code reason audits st).1.
Proof.
  intros Hi. unfold rejectLineChainApprovalLocked.
  destruct (Approvals st !! k) as [ap|] eqn:Hap; [|done].
  destruct (LineChainAttempts st !! k) as [a|] eqn:Hk; [|done].
  destruct (negb _); [done|]. destruct (_ || _); [done|].
  destruct (stageLineChainAuditEvidence _ _ _) as [staged|] eqn:Es; [|done]. apply lc_inv_publish; [done|].
  eapply lc_inv_staged; [done|]. eapply lc_inv_replace; try done.
  - apply approvals_keyed_insert; [apply Hi|]. exact (inv_approval_ids _ Hi _ _ Hap).
  - apply acyclic_retire; [apply Hi|done].
Qed.

Lemma rejectStale_state now p k code reason audits e st :
  (rejectStale now p k code reason audits e st).1 =
  (rejectLineChainApprovalLocked now p k true code reason audits st).1.
Proof. unfold rejectStale. by destruct (rejectLineChainApprovalLocked _ _ _ _ _ _ _ _) as [? []]. Qed.

Lemma approve_preserves now p ap task audits st :
  lc_inv st → lc_inv (ApproveLineChain now p ap task audits st).1.
Proof.
  intros Hi. unfold ApproveLineChain. destruct (Approvals st !! aID ap) as [cur|]; [|done].
  destruct (negb (approvalUnchanged _ _)); [done|].
  destruct (LineChainAttempts st !! aID ap) as [a|] eqn:Hk; [|done].
  destruct (negb (laStatus a =?? LineChainStatusPlanned)) eqn:Hp; [done|].
  destruct (negb (laPlanGraphRevision a =? _)); [rewrite rejectStale_state; by apply reject_preserves|].
  destruct (negb (baseMatches st a)); [rewrite rejectStale_state; by apply reject_preserves|].
  destruct (negb (taskBound _ _ _)); [done|]. destruct (existsb _ _); [done|].
  destruct (lineChainGraphHasCycle _ _) eqn:Ec; [rewrite rejectStale_state; by apply reject_preserves|].
  destruct (stageLineChainAuditEvidence _ _ _) as [staged|] eqn:Es; [|done]. apply lc_inv_publish; [done|].
  eapply lc_inv_staged; [done|]. go_bool.
  eapply lc_inv_replace; try done; [by intros _; unfold active; rewrite Hp| |].
  - apply approvals_keyed_insert; [apply Hi|done].
  - by apply no_cycle_acyclic.
Qed.

(** A successful completion turns a reserved edge into a committed one. *)
Lemma promote_preserves st st' now k a task status code :
  lc_inv st → LineChainAttempts st !! k = Some a → laStatus a = LineChainStatusApplying →
  LineChainDefinitions st' = <[laSourceLineUUID a := promoted now st a k task status code]> (LineChainDefinitions st) →
  LineChainAttempts st' = delete k (LineChainAttempts st) → approvals_keyed (Approvals st') → lc_inv st'.
Proof.
  intros Hi Hk Hst Hd Ha Hids. split; rewrite ?Hd, ?Ha.
  - eapply acyclic_shrink; [apply Hi|]. intros x y [(d & Hx & Ht & Hne)|(k' & b & Hk' & ?)].
    + destruct (decide (laSourceLineUUID a = x)) as [<-|?].
      * rewrite lookup_insert_eq in Hx. simplify_eq. right. exists k, a.
        cbn in Hne |- *. pose proof (inv_consistent _ Hi _ _ Hk) as Hcons. unfold consistent in Hcons.
        split_and!; [done| |done|done]. unfold applying. rewrite Hst, <- Hcons.
        rewrite bool_decide_eq_true_2, bool_decide_eq_false_2; done.
      * rewrite lookup_insert_ne in Hx by done. left. eauto.
    + apply lookup_delete_Some in Hk' as [_ Hk']. right. eauto.
  - intros k' b [_ Hb]%lookup_delete_Some. by eapply Hi.
  - intros k1 k2 a1 a2 [_ H1]%lookup_delete_Some [_ H2]%lookup_delete_Some. by apply (inv_single _ Hi).
  - exact Hids.
Qed.

(** What a completion does when it is not refused: the two outcomes. *)
Lemma complete_cases now p r ap ts ec te cl af audits st st' c err :
  completeLineChainTaskResultLocked now p r ap ts ec te cl af audits st = (st', (c, err)) →
  (st' = st ∧ c = false) ∨
  ∃ task stored a ts' ec', Tasks st !! rTaskID r = Some task ∧
    Approvals st !! aID ap = Some stored ∧ LineChainAttempts st !! aID ap = Some a ∧
    laStatus a = LineChainStatusApplying ∧ laIssuedLeaseID a = rLeaseID r ∧ c = true ∧
    LineChainGraphRevision st' = wrapu64 (LineChainGraphRevision st + 1) ∧
    ((rExitCode r = 0 ∧ rError r = "" ∧
      (∃ stored', aStatus stored' = ApprovalApplied ∧ aID stored' = aID stored ∧
         Approvals st' = <[aID stored := stored']> (Approvals st)) ∧
      LineChainDefinitions st' = <[laSourceLineUUID a := promoted now st a (aID stored) task ts' ec']>
        (LineChainDefinitions st) ∧
      LineChainAttempts st' = delete (aID stored) (LineChainAttempts st)) ∨
     (¬ (rExitCode r = 0 ∧ rError r = "") ∧
      (∃ stored', aID stored' = aID stored ∧ Approvals st' = <[aID stored := stored']> (Approvals st)) ∧
      LineChainDefinitions st' = LineChainDefinitions st ∧
      ∃ a', LineChainAttempts st' = <[aID stored := a']> (LineChainAttempts st) ∧
        laStatus a' = LineChainStatusFailed ∧ laSourceLineUUID a' = laSourceLineUUID a ∧
        laCandidateTargetLineUUID a' = laCandidateTargetLineUUID a ∧
        laCandidateDefinition a' = laCandidateDefinition a)).
Proof.
  unfold completeLineChainTaskResultLocked.
  destruct (Tasks st !! rTaskID r) as [task|]; [|by intros [= <- <-]; left].
  destruct (_ || _); [by intros [= <- <-]; left|].
  destruct (Approvals st !! aID ap) as [stored|] eqn:Hap; [|by intros [= <- <-]; left].
  destruct (negb (approvalFrozen _ _)); [by intros [= <- <-]; left|].
  destruct (LineChainAttempts st !! aID ap) as [a|] eqn:Hk; [|by intros [= <- <-]; left].
  destruct (negb (attemptIssued a task stored r ap)) eqn:Hiss; [by intros [= <- <-]; left|].
  destruct (negb (_ && _)); [by intros [= <- <-]; left|].
  destruct (match cl with Some _ => _ | None => _ end) as [[ts' ec']|]; [|by intros [= <- <-]; left].
  destruct (negb (terminalValid _ _ _ _)); [by intros [= <- <-]; left|].
  destruct (taskAggregateStatus _ _ _) as [status fin].
  assert (laStatus a = LineChainStatusApplying ∧ laIssuedLeaseID a = rLeaseID r) as [Hst Hl].
  { unfold attemptIssued in Hiss. go_bool. intuition. }
  destruct ((rExitCode r =? 0) && (rError r =?? "")) eqn:Esucc;
    (destruct (stageLineChainAuditEvidence _ _ _) as [staged|] eqn:Es; [|by intros [= <- <-]; left]);
    apply stage_chains in Es as (Hd & Ha & Hg & _ & Hq & _);
    unfold publish; (destruct (committed p); [|by intros [= <- <-]; left]); intros [= <- <- <-]; right;
    exists task, stored, a, ts', ec'; rewrite Hd, Ha, Hg, Hq; split_and!; try done.
  - left. apply andb_true_iff in Esucc as [E1 E2]. go_bool. split_and!; [done..| |done|done].
    eexists. split; [|split]; [..|done]; done.
  - right. split_and!.
    + intros [E1 E2]. rewrite E1, E2 in Esucc. done.
    + eexists. split; [|done]. done.
    + done.
    + eexists. split; [done|]. done.
Qed.

Lemma complete_preserves now p r ap ts ec te cl af audits st :
  lc_inv st → lc_inv (completeLineChainTaskResultLocked now p r ap ts ec te cl af audits st).1.
Proof.
  intros Hi. destruct (completeLineChainTaskResultLocked _ _ _ _ _ _ _ _ _ _ _) as [st' [c err]] eqn:E.
  apply complete_cases in E as [[-> _]|(task & stored & a & ts' & ec' & _ & Hap & Hk & Hst & _ & _ & _ & Hcase)];
    [done|]. cbn [fst]. pose proof (inv_approval_ids _ Hi _ _ Hap) as Hid. rewrite Hid in Hcase.
  assert (∀ stored', aID stored' = aID ap → approvals_keyed (<[aID ap := stored']> (Approvals st))) as Hkey.
  { intros. apply approvals_keyed_insert; [apply Hi|done]. }
  destruct Hcase as [(_ & _ & (s' & _ & Hs' & Hq) & Hd & Ha)|(_ & (s' & Hs' & Hq) & Hd & a' & Ha & Hf & ? & ? & ?)].
  - eapply promote_preserves; [done..|]. rewrite Hq. by apply Hkey.
  - eapply lc_inv_replace; try done.
    + rewrite Hq. by apply Hkey.
    + apply acyclic_retire; [apply Hi|]. unfold applying. by rewrite Hf.
Qed.

Lemma reconcile_targets now af obs definitions audits changed :
  let '(definitions', _, _) := foldl (reconcileOne now af) (definitions, audits, changed) obs in
  ∀ k d', definitions' !! k = Some d' →
  ∃ d, definitions !! k = Some d ∧ ldTargetLineUUID d = ldTargetLineUUID d'.
Proof.
  revert definitions audits changed. induction obs as [|[k o] obs IH]; intros definitions audits changed;
    cbn [foldl]; [by eauto|].
  assert (∃ definitions1 audits1 changed1,
    reconcileOne now af (definitions, audits, changed) (k, o) = (definitions1, audits1, changed1) ∧
    ∀ k' d', definitions1 !! k' = Some d' → ∃ d, definitions !! k' = Some d ∧ ldTargetLineUUID d = ldTargetLineUUID d')
    as (d1 & a1 & c1 & -> & Hstep).
  { unfold reconcileOne. cbn [fst]. destruct (definitions !! k) as [d|] eqn:Hd; [|by eauto 10].
    destruct (_ && _); [by eauto 10|]. destruct (observedStatus d _) as [status code].
    destruct (_ && _); [by eauto 10|]. eexists _, _, _. split; [done|].
    intros k' d'. destruct (decide (k = k')) as [<-|?].
    - rewrite lookup_insert_eq. intros [= <-]. by exists d.
    - rewrite lookup_insert_ne by done. eauto. }
  specialize (IH d1 a1 c1). destruct (foldl _ _ obs) as [[d2 a2] c2].
  intros k' d' H. destruct (IH _ _ H) as (d & Hd & Ht). destruct (Hstep _ _ Hd) as (d0 & ? & ?).
  exists d0. split; [done|congruence].
Qed.

Lemma reconcile_preserves now p obs af st :
  lc_inv st → lc_inv (ReconcileLineChainsWithAudits now p obs af st).1.
Proof.
  intros Hi. unfold ReconcileLineChainsWithAudits.
  pose proof (reconcile_targets now af obs (LineChainDefinitions st) [] false) as Ht.
  destruct (foldl _ _ obs) as [[ds audits] changed]. destruct (negb changed); [done|].
  destruct (stageLineChainAuditEvidence _ _ _) as [staged|] eqn:Es; [|done].
  apply lc_inv_publish; [done|]. eapply lc_inv_staged; [done|].
  split; cbn [LineChainDefinitions LineChainAttempts Approvals with_LineChainDefinitions]; [|apply Hi..].
  eapply acyclic_shrink; [apply Hi|]. intros x y [(d' & Hd & <- & Hne)|?]; [left|by right].
  destruct (Ht _ _ Hd) as (d & ? & ?). exists d. by split_and!; [|congruence..].
Qed.

(** ** Reachable states *)

Inductive lc_step (st : State) : State → Prop :=
| step_plan now p order a approval audits :
    order ≡ₚ map_to_list (LineChainAttempts st) → consistent a →
    lc_step st (planLineChainLocked now p order a approval audits st).1
| step_reserve now p k rev : lc_step st (ReserveLineChain now p k rev st).1
| step_reject now p k stale code reason audits :
    lc_step st (rejectLineChainApprovalLocked now p k stale code reason audits st).1
| step_approve now p ap task audits : lc_step st (ApproveLineChain now p ap task audits st).1
| step_complete now p r ap ts ec te cl af audits :
    lc_step st (completeLineChainTaskResultLocked now p r ap ts ec te cl af audits st).1
| step_reconcile now p obs af : lc_step st (ReconcileLineChainsWithAudits now p obs af st).1.

(** C1. The chain graph stays acyclic: from a store that satisfies the
    invariant, whatever sequence of plans, reservations, rejections,
    approvals, completions and reconciliations runs, with whatever persistence
    outcomes, the committed and reserved edges never form a cycle, a source has
    at most one active attempt, and each attempt's candidate definition
    carries the target it reserves.  A plan must come with a candidate
    definition for its own target, which the store does not check. *)
Theorem line_chains_acyclic st st' : lc_inv st → rtc lc_step st st' → lc_inv st'.
Proof.
  intros Hi. induction 1 as [|st st1 st2 Hstep _ IH]; [done|]. apply IH.
  destruct Hstep; [apply plan_preserves|apply reserve_preserves|apply reject_preserves
    |apply approve_preserves|apply complete_preserves|apply reconcile_preserves]; done.
Qed.

(** ** Approval and completion *)

Context {laws : SdkLaws}.

(** A committed approval reserved the edge, queued the task and moved the
    revision. *)
Lemma approve_success now p ap task audits st st' a err :
  ApproveLineChain now p ap task audits st = (st', (a, true, err)) →
  laStatus a = LineChainStatusApplying →
  ∃ a0, LineChainAttempts st !! aID ap = Some a0 ∧ a = reserved now (LineChainGraphRevision st) a0 ∧
    laPlanGraphRevision a0 = LineChainGraphRevision st ∧ laStatus a0 = LineChainStatusPlanned ∧
    tTargets task = [laSourceNodeID a0] ∧ tApprovalID task = aID ap ∧
    (∀ k t, Tasks st !! k = Some t → tApprovalID t ≠ aID ap) ∧
    LineChainAttempts st' = <[aID ap := a]> (LineChainAttempts st) ∧
    LineChainGraphRevision st' = wrapu64 (LineChainGraphRevision st + 1) ∧
    Tasks st' = <[tID task := queuedTask now task]> (Tasks st) ∧
    (aStatus ap = ApprovalApproved ∧ ∃ ap', aStatus ap' = ApprovalApproved ∧
       Approvals st' = <[aID ap := ap']> (Approvals st)).
Proof.
  intros H Hs. unfold ApproveLineChain in H.
  assert (∀ p code reason au e st0 a' c err', rejectStale now p (aID ap) code reason au e st0 = (st', (a', c, err')) →
    a' = zero_attempt) as Hrs.
  { intros *. unfold rejectStale. destruct (rejectLineChainApprovalLocked _ _ _ _ _ _ _ _) as [? []].
    by intros [= _ <-]. }
  destruct (Approvals st !! aID ap) as [cur|]; [|done].
  destruct (negb (approvalUnchanged _ _)) eqn:Hun; [done|].
  destruct (LineChainAttempts st !! aID ap) as [a0|] eqn:Hk; [|done].
  destruct (negb (laStatus a0 =?? LineChainStatusPlanned)) eqn:Hp; [done|].
  destruct (negb (laPlanGraphRevision a0 =? _)) eqn:Hr; [apply Hrs in H; by subst|].
  destruct (negb (baseMatches st a0)); [apply Hrs in H; by subst|].
  destruct (negb (taskBound _ _ _)) eqn:Hb; [done|].
  destruct (existsb _ _) eqn:He; [done|].
  destruct (lineChainGraphHasCycle _ _); [apply Hrs in H; by subst|].
  destruct (stageLineChainAuditEvidence _ _ _) as [staged|] eqn:Es; [|done].
  apply stage_chains in Es as (_ & Ha & Hg & Ht & Hq & _). unfold publish in H.
  destruct (committed p) eqn:Hc; [|done]. injection H as <- <- _.
  unfold approvalUnchanged, taskBound in *. go_bool. destruct_and!.
  exists a0. rewrite Ha, Hg, Ht, Hq. split_and!; try done.
  - intros k t Hkt Hta. apply not_true_iff_false in He. apply He, existsb_elem_of.
    exists (k, t). rewrite elem_of_map_to_list, bool_decide_eq_true. done.
  - unfold queuedTask. by destruct (is_zero _); cbn; destruct (_ =?? "").
  - eexists. split; [|done]. done.
Qed.

(** Plans made at one revision exclude each other: once a plan is approved,
    every other approval planned at the same revision is refused, and its
    reservation too. *)
Theorem approval_is_exclusive now now' p p' ap1 ap2 task1 task2 audits1 audits2 st st1 a1 a2 err :
  0 <= LineChainGraphRevision st < 2 ^ 64 →
  ApproveLineChain now p ap1 task1 audits1 st = (st1, (a1, true, err)) →
  laStatus a1 = LineChainStatusApplying →
  aID ap2 ≠ aID ap1 → LineChainAttempts st !! aID ap2 = Some a2 →
  laPlanGraphRevision a2 = LineChainGraphRevision st →
  (∃ e, (ReserveLineChain now' p' (aID ap2) (laPlanGraphRevision a2) st1).2.2 = Some e) ∧
  (∃ e, (ApproveLineChain now' p' ap2 task2 audits2 st1).2.2 = Some e).
Proof.
  intros Hrange H Hs Hne Hk2 Hr2.
  destruct (approve_success _ _ _ _ _ _ _ _ _ H Hs)
    as (a0 & _ & _ & _ & _ & _ & _ & _ & Ha & Hg & _).
  assert (LineChainGraphRevision st1 ≠ LineChainGraphRevision st) as Hneq.
  { rewrite Hg. unfold wrapu64. intros E.
    destruct (decide (LineChainGraphRevision st + 1 = 2 ^ 64)) as [E'|?].
    - rewrite E', Z_mod_same_full in E. lia.
    - rewrite Z.mod_small in E; lia. }
  assert (LineChainAttempts st1 !! aID ap2 = Some a2) as Hk by (by rewrite Ha, lookup_insert_ne).
  split.
  - unfold ReserveLineChain. rewrite Hr2. destruct (LineChainGraphRevision st1 =? _) eqn:E; [|eauto].
    apply Z.eqb_eq in E. done.
  - unfold ApproveLineChain. destruct (Approvals st1 !! aID ap2); [|eauto].
    destruct (negb (approvalUnchanged _ _)); [eauto|]. rewrite Hk.
    destruct (negb (laStatus a2 =?? LineChainStatusPlanned)); [eauto|].
    rewrite Hr2. destruct (LineChainGraphRevision st =? _) eqn:E; [apply Z.eqb_eq in E; congruence|].
    cbn [negb]. unfold rejectStale.
    destruct (rejectLineChainApprovalLocked _ _ _ _ _ _ _ _) as [? [? [|]]]; cbn; eauto.
Qed.

(** Approving is one transition: on success the attempt is applying and
    bound to the next revision, exactly one task carries the approval, targeted
    at the source node, and the approval is approved; when the write is not
    committed nothing changed. *)
Theorem approval_transition now p ap task audits st :
  (committed p = false → (ApproveLineChain now p ap task audits st).1 = st) ∧
  ∀ st' a err, ApproveLineChain now p ap task audits st = (st', (a, true, err)) →
  laStatus a = LineChainStatusApplying →
  LineChainAttempts st' !! aID ap = Some a ∧
  laQueuedGraphRevision a = LineChainGraphRevision st' ∧
  (∃ ap', Approvals st' !! aID ap = Some ap' ∧ aStatus ap' = ApprovalApproved) ∧
  (∀ k t, Tasks st' !! k = Some t → tApprovalID t = aID ap ↔ k = tID task) ∧
  (∃ t, Tasks st' !! tID task = Some t ∧ tTargets t = [laSourceNodeID a] ∧ tStatus t ≠ "").
Proof.
  split.
  - intros Hc. unfold ApproveLineChain, rejectStale, rejectLineChainApprovalLocked, publish.
    rewrite Hc. by repeat case_match; simplify_eq/=.
  - intros st' a err H Hs.
    destruct (approve_success _ _ _ _ _ _ _ _ _ H Hs) as
      (a0 & _ & -> & _ & _ & Htg & Hta & Hno & Ha & Hg & Ht & _ & ap' & Hap & Hq).
    assert (∀ now, tApprovalID (queuedTask now task) = tApprovalID task ∧
                   tTargets (queuedTask now task) = tTargets task) as Hqt.
    { intros n. unfold queuedTask. by destruct (is_zero _); cbn; destruct (_ =?? ""). }
    rewrite Ha, Hg, Ht, Hq. split_and!.
    + apply lookup_insert_eq.
    + done.
    + exists ap'. by rewrite lookup_insert_eq.
    + intros k t. destruct (decide (tID task = k)) as [<-|Hne].
      * rewrite lookup_insert_eq. intros [= <-]. destruct (Hqt now) as [-> _]. done.
      * rewrite lookup_insert_ne by done. intros Hk. split; [by intros ?%(Hno _ _ Hk)|by intros ->].
    + exists (queuedTask now task). rewrite lookup_insert_eq. destruct (Hqt now) as [_ ->].
      split_and!; [done..|]. pose proof task_statuses_foreign as Hf.
      apply Forall_cons in Hf as [[Hf _] _].
      unfold queuedTask. destruct (is_zero _); cbn; case_bool_decide; done.
Qed.

(** Promotion happens once: a committed successful completion installs the
    attempt's candidate as the source's definition, one generation above the
    base, and consumes the attempt; any later completion for the same approval
    is refused and changes nothing. *)
Theorem completion_promotes_once now p r ap ts ec te cl af audits st st' err :
  lc_inv st →
  completeLineChainTaskResultLocked now p r ap ts ec te cl af audits st = (st', (true, err)) →
  rExitCode r = 0 → rError r = "" →
  (∃ a d, LineChainAttempts st !! aID ap = Some a ∧
     LineChainDefinitions st' !! laSourceLineUUID a = Some d ∧
     ldTargetLineUUID d = laCandidateTargetLineUUID a ∧
     ldGeneration d = wrapu64 (laBaseGeneration a + 1)) ∧
  LineChainAttempts st' !! aID ap = None ∧
  ∀ now' p' r' ap' ts' ec' te' cl' af' audits', aID ap' = aID ap →
    ∃ e, completeLineChainTaskResultLocked now' p' r' ap' ts' ec' te' cl' af' audits' st' =
         (st', (false, Some e)).
Proof.
  intros Hi H Hx He.
  apply complete_cases in H as [[_ ?]|(task & stored & a & ts0 & ec0 & _ & Hap & Hk & _ & _ & _ & _ & Hcase)];
    [done|].
  destruct Hcase as [(_ & _ & _ & Hd & Ha)|(Hn & _)]; [|by destruct Hn].
  rewrite (inv_approval_ids _ Hi _ _ Hap) in *.
  assert (LineChainAttempts st' !! aID ap = None) as Hnone by (rewrite Ha; apply lookup_delete_eq).
  split; [|split; [done|]].
  - eexists a, _. split; [done|]. rewrite Hd, lookup_insert_eq. split; [done|].
    split; [|done]. exact (inv_consistent _ Hi _ _ Hk).
  - intros now' p' r' ap' ts' ec' te' cl' af' audits' Hid. unfold completeLineChainTaskResultLocked.
    rewrite Hid, Hnone. repeat (case_match; try done); eauto.
Qed.
End Preservation.

(** ** Concrete runs *)

Module Demo.
#[export] Existing Instance demo_sdk.
#[export] Existing Instance demo_sdk_laws.

Definition candidate (target : string) : LineChainDefinition :=
  mkDefinition "" "" "" "" target "" "" "" "" "" "" "" "" "art" "" "" "" "" "" "" "" 0 0 0 0.
Definition attempt (id source target : string) : LineChainAttempt :=
  mkAttempt id LineChainOperationSet source "node1" target "node2" 0 "" "art" (candidate target)
    "req" 7 0 0 "" "" "" "" LineChainStatusPlanned "" "" 1 1.
Definition approval (id status : string) : Approval :=
  mkApproval id "singbox-linechain" "network/lines" "chain_set_apply" "apply-line-chain:x" "plan"
    "node1" ["node1"] status false "" "" "art" "req" "1" 1 1.
Definition task (id ap : string) : Task :=
  mkTask id ["node1"] "" ap "" 1 60 ∅ "" "" 0 0 "run" "" "".

(** Two plans at revision 7, one from A to B and one from B to A. *)
Definition st0 : State :=
  with_LineChainGraphRevision 7
  (with_Approvals {["p1" := approval "p1" "pending"; "p2" := approval "p2" "pending"]}
  (with_LineChainAttempts {["p1" := attempt "p1" "A" "B"; "p2" := attempt "p2" "B" "A"]} empty_state)).
Definition run1 := ApproveLineChain 5 PersistOk (approval "p1" "approved") (task "t1" "p1") [] st0.

Lemma run1_ok : run1 = (run1.1, (run1.2.1.1, true, None)).
Proof. vm_compute. reflexivity. Qed.

(** An issued attempt whose task is leased. *)
Definition issued : LineChainAttempt :=
  with_laIssuedArtifactSHA256 "art" (with_laIssuedScriptSHA256 (sha256_hex "run")
    (with_laIssuedLeaseID "lease_1" (with_laIssuedTaskID "t1"
      (with_laStatus LineChainStatusApplying (attempt "p1" "A" "B"))))).
Definition leasedTask : Task :=
  mkTask "t1" ["node1"] "leased" "p1" "" 1 60 {["node1" := mkLease "lease_1" 2]} "node1" "lease_1" 2 0
    "run" "" "".
Definition st1 : State :=
  with_Tasks {["t1" := leasedTask]} (with_Approvals {["p1" := approval "p1" "approved"]}
    (with_LineChainAttempts {["p1" := issued]} empty_state)).
Definition result : TaskResult := mkTaskResult "t1" "node1" "lease_1" 0 "" 9 "".
Definition run2 := completeLineChainTaskResultLocked 10 PersistOk result (approval "p1" "approved")
  LineChainStatusAppliedUnobserved "" "" None None [] st1.

Lemma run2_ok : run2 = (run2.1, (true, None)).
Proof. vm_compute. reflexivity. Qed.

Lemma inv_empty : lc_inv empty_state.
Proof. split; [by apply no_cycle_acyclic; vm_compute|done..]. Qed.

Lemma inv_st1 : lc_inv st1.
Proof.
  split; cbn [st1 LineChainAttempts Approvals with_Tasks with_Approvals with_LineChainAttempts].
  - apply no_cycle_acyclic. vm_compute. reflexivity.
  - by intros k a [<- <-]%lookup_singleton_Some.
  - intros k1 k2 a1 a2 [<- _]%lookup_singleton_Some [<- _]%lookup_singleton_Some. done.
  - by intros k a [<- <-]%lookup_singleton_Some.
Qed.
End Demo.
Import (hints) Demo.

Lemma cycle_detection_exact_witness :
  hasCycleIn (chainEdges (map_to_list {["A" := Demo.candidate "B"]}) []) = true ↔
  ∃ x, tc (chain_edge {["A" := Demo.candidate "B"]} ∅) x x.
Proof.
  apply (cycle_detection_exact {["A" := Demo.candidate "B"]} ∅
    (map_to_list {["A" := Demo.candidate "B"]}) []); [reflexivity|].
  by rewrite map_to_list_empty.
Defined.

Lemma line_chains_acyclic_witness :
  lc_inv (planLineChainLocked 3 PersistOk [] (with_laCreatedAt 0 Demo.issued) None [] empty_state).1.
Proof.
  apply (line_chains_acyclic empty_state); [apply Demo.inv_empty|].
  apply rtc_once, step_plan; [|reflexivity].
  change (LineChainAttempts empty_state) with (∅ : gmap string LineChainAttempt).
  by rewrite map_to_list_empty.
Defined.

Lemma approval_is_exclusive_witness :
  (∃ e, (ReserveLineChain 6 PersistOk "p2" 7 Demo.run1.1).2.2 = Some e) ∧
  (∃ e, (ApproveLineChain 6 PersistOk (Demo.approval "p2" "approved") (Demo.task "t2" "p2") []
           Demo.run1.1).2.2 = Some e).
Proof.
  apply (approval_is_exclusive 5 6 PersistOk PersistOk (Demo.approval "p1" "approved")
    (Demo.approval "p2" "approved") (Demo.task "t1" "p1") (Demo.task "t2" "p2") [] []
    Demo.st0 Demo.run1.1 Demo.run1.2.1.1 (Demo.attempt "p2" "B" "A") None).
  - split; vm_compute; congruence.
  - apply Demo.run1_ok.
  - vm_compute. reflexivity.
  - discriminate.
  - vm_compute. reflexivity.
  - reflexivity.
Defined.

Lemma approval_transition_witness :
  LineChainAttempts Demo.run1.1 !! "p1" = Some Demo.run1.2.1.1.
Proof.
  destruct (approval_transition 5 PersistOk (Demo.approval "p1" "approved") (Demo.task "t1" "p1") []
    Demo.st0) as [_ H].
  apply (H _ _ _ Demo.run1_ok). vm_compute. reflexivity.
Defined.

Lemma completion_promotes_once_witness : LineChainAttempts Demo.run2.1 !! "p1" = None.
Proof.
  apply (completion_promotes_once 10 PersistOk Demo.result (Demo.approval "p1" "approved")
    LineChainStatusAppliedUnobserved "" "" None None [] Demo.st1 Demo.run2.1 None
    Demo.inv_st1 Demo.run2_ok eq_refl eq_refl).
Defined.
