(* ===== verification/Stitch.v ===== *)
(** * Hop paths (internal/tracestitch/tracestitch.go)

    [Stitch] joins the connection records of one flow across machines along
    the declared chain edges.  Records are named by their position in the
    sorted input, as in the source; the arrays indexed by position are
    functions of it, [visited] is the set of positions already folded, and
    [walk] is the loop of [fold], on fuel that the number of records bounds.
    The record, its key and the names of the confidence levels are the SDK's:
    [TraceSdk] holds what the file uses of them. *)

From Stdlib Require Import ZArith Lia Ascii.
From stdpp Require Import gmap strings.
From S2P Require Import Prelude GoStr Sha IpAddr IpNet.

Local Open Scope Z_scope.

(** ** Records *)

Record ConnRecord := mkConn {
  crNodeID : string; crCoreGeneration : Z; crLogID : Z; crStartedAt : time; crLineUUID : string; crUserID : string;
  crSrcIP : string; crDstHost : string; crDstPort : Z }.
#[export] Instance ConnRecord_eq_dec : EqDecision ConnRecord.
Proof. solve_decision. Defined.
Class TraceSdk := {
  ConnRecordKey : Type;
  ConnRecordKey_eq_dec :: EqDecision ConnRecordKey;
  kNodeID : ConnRecordKey → string;
  kCoreGeneration : ConnRecordKey → Z;
  kLogID : ConnRecordKey → Z;
  KeyOf : ConnRecord → ConnRecordKey;
  HopConfidenceExact : string; HopConfidenceInferred : string; HopConfidenceAmbiguous : string; HopConfidenceNone : string;
}.
(** The levels are four different names. *)
Class TraceLaws `{TraceSdk} : Prop :=
  levels_distinct : NoDup [""; HopConfidenceExact; HopConfidenceInferred; HopConfidenceAmbiguous; HopConfidenceNone].

Record Edge := mkEdge { SourceLineUUID : string; TargetLineUUID : string }.
#[export] Instance Edge_eq_dec : EqDecision Edge.
Proof. solve_decision. Defined.
#[export] Instance Edge_countable : Countable Edge.
Proof. by refine (inj_countable' (fun e => (SourceLineUUID e, TargetLineUUID e)) (fun p => mkEdge p.1 p.2) _); intros []. Defined.
Record Options := mkOptions { oWindow : duration; oNodePublicIPs : gmap string (list string) }.
Definition DefaultWindow : duration := 3 * second.

(** ** Stable sorting *)

Fixpoint insert_by {A} (le : A → A → bool) (x : A) (l : list A) : list A :=
  match l with
  | [] => [x]
  | y :: l' => if le x y then x :: l else y :: insert_by le x l'
  end.
(** [slices.SortStableFunc]: equal elements stay in the order they came in. *)
Definition stable_sort {A} (le : A → A → bool) (l : list A) : list A := foldr (insert_by le) [] l.

Section stitch.
Context `{TraceSdk} `{GoCase}.

Definition compareKey (a b : ConnRecordKey) : comparison :=
  match String.compare (kNodeID a) (kNodeID b) with
  | Eq => match kCoreGeneration a ?= kCoreGeneration b with
          | Eq => kLogID a ?= kLogID b
          | c => c
          end
  | c => c
  end.
Definition compareRecord (a b : ConnRecord) : comparison :=
  match crStartedAt a ?= crStartedAt b with Eq => compareKey (KeyOf a) (KeyOf b) | c => c end.
Definition not_gt (c : comparison) : bool := match c with Gt => false | _ => true end.
Definition record_le (a b : ConnRecord) : bool := not_gt (compareRecord a b).

(** ** Evidence *)

Definition canonicalIP (value : string) : string :=
  let value := trim_space value in
  if value =?? "" then ""
  else match ParseAddrZone value with
       | Some (a, zone) => let u := Unmap a in AddrString u +:+ (if Is4 u || (zone =?? "") then "" else "%" +:+ zone)
       | None => ToLower value
       end.
Definition buildEdgeSet (edges : list Edge) : gset Edge :=
  list_to_set (omap (fun e =>
    let source := trim_space (SourceLineUUID e) in
    let target := trim_space (TargetLineUUID e) in
    if (source =?? "") || (target =?? "") || (source =?? target) then None else Some (mkEdge source target)) edges).
(** The map is ranged over in any order: the sets of names that trim to the
    same one are joined, so the order does not matter. *)
Definition add_node (out : gmap string (gset string)) (ni : string * list string) : gmap string (gset string) :=
  let node := trim_space ni.1 in
  if node =?? "" then out
  else <[node := default ∅ (out !! node) ∪ list_to_set (List.filter (fun c => negb (c =?? "")) (map canonicalIP ni.2))]> out.
Definition buildNodeIPs (raw : gmap string (list string)) : gmap string (gset string) := foldl add_node ∅ (map_to_list raw).
Definition dstKeyOf (r : ConnRecord) : option (string * Z) :=
  let host := ToLower (trim_space (crDstHost r)) in
  if (host =?? "") || (crDstPort r <=? 0) then None else Some (host, crDstPort r).
Definition edgeAllows (edgeSet : gset Edge) (up down : ConnRecord) : bool :=
  let source := trim_space (crLineUUID up) in
  let target := trim_space (crLineUUID down) in
  if (source =?? "") || (target =?? "") then false else bool_decide (mkEdge source target ∈ edgeSet).
Definition withinWindow (up down : ConnRecord) (window : duration) : bool :=
  if is_zero (crStartedAt up) || is_zero (crStartedAt down) then false
  else if before (crStartedAt down) (crStartedAt up) then false
  else negb (after (crStartedAt down) (time_add (crStartedAt up) window)).
Definition dialedFrom (nodeIPs : gmap string (gset string)) (upstreamNodeID downstreamSrcIP : string) : bool :=
  match nodeIPs !! trim_space upstreamNodeID with
  | None => false
  | Some ips => let src := canonicalIP downstreamSrcIP in if src =?? "" then false else bool_decide (src ∈ ips)
  end.
Definition flowEvidence (up down : ConnRecord) (nodeIPs : gmap string (gset string)) : bool :=
  if negb (dialedFrom nodeIPs (crNodeID up) (crSrcIP down)) then false
  else match dstKeyOf up, dstKeyOf down with Some u, Some d => u =?? d | _, _ => false end.

(** ** Candidates *)

Definition push {K} `{Countable K} (k : K) (p : nat) (m : gmap K (list nat)) : gmap K (list nat) :=
  <[k := default [] (m !! k) ++ [p]]> m.
Definition index_one (rec : nat → ConnRecord) (ix : gmap string (list nat) * gmap (string * Z) (list nat)) (p : nat)
  : gmap string (list nat) * gmap (string * Z) (list nat) :=
  let r := rec p in
  let id := trim_space (crUserID r) in
  ((if negb (id =?? "") then push id p ix.1 else ix.1),
   match dstKeyOf r with Some key => push key p ix.2 | None => ix.2 end).
Definition buildIndexes (n : nat) (rec : nat → ConnRecord) : gmap string (list nat) * gmap (string * Z) (list nat) :=
  foldl (index_one rec) (∅, ∅) (seq 0 n).
Definition candidatesFor (p : nat) (rec : nat → ConnRecord) (edgeSet : gset Edge) (nodeIPs : gmap string (gset string))
  (byUser : gmap string (list nat)) (byDst : gmap (string * Z) (list nat)) (window : duration) : list nat * string :=
  let up := rec p in
  if (trim_space (crLineUUID up) =?? "") || is_zero (crStartedAt up) then ([], HopConfidenceNone) else
  let sameUser := List.filter (fun q => negb (q =?? p) && (edgeAllows edgeSet up (rec q) && withinWindow up (rec q) window) &&
    flowEvidence up (rec q) nodeIPs) (default [] (byUser !! trim_space (crUserID up))) in
  if (length sameUser =? 1)%nat then (sameUser, HopConfidenceInferred)
  else if (1 <? length sameUser)%nat then (merge_sort le sameUser, HopConfidenceAmbiguous) else
  match dstKeyOf up with
  | None => ([], HopConfidenceNone)
  | Some key =>
    let inferred := List.filter (fun q => negb (q =?? p) && (edgeAllows edgeSet up (rec q) && withinWindow up (rec q) window) &&
      dialedFrom nodeIPs (crNodeID up) (crSrcIP (rec q))) (default [] (byDst !! key)) in
    if (length inferred =? 0)%nat then ([], HopConfidenceNone) else (merge_sort le inferred, HopConfidenceInferred)
  end.
Definition confidenceRank (c : string) : Z :=
  if c =?? HopConfidenceExact then 3 else if c =?? HopConfidenceInferred then 2 else if c =?? HopConfidenceAmbiguous then 1 else 0.
Definition weakerConfidence (have add : string) : string :=
  if have =?? "" then add else if confidenceRank add <? confidenceRank have then add else have.

(** ** Folding *)

Section fold.
(** The arrays [candidates] and [kinds] as [candidatesFor] fills them. *)
Variables (n : nat) (candidates : nat → list nat) (found : nat → string).

Definition choice (p : nat) : option nat := match candidates p with [q] => Some q | _ => None end.
Definition claims (q : nat) : nat := length (List.filter (fun p => choice p =?? Some q) (seq 0 n)).
Definition accepted (p : nat) : bool := match choice p with Some q => negb (1 <? claims q)%nat | None => false end.
Definition kind (p : nat) : string :=
  match candidates p with
  | [] => HopConfidenceNone
  | [q] => if (1 <? claims q)%nat then HopConfidenceAmbiguous else found p
  | _ => HopConfidenceAmbiguous
  end.
Definition inbound (q : nat) : bool := existsb (fun p => accepted p && (choice p =?? Some q)) (seq 0 n).

Record folded := mkFolded { fdPath : list nat; fdConf : string; fdPending : list nat }.
(** The loop of [fold] at [cur]: [None] when the fuel runs out. *)
Fixpoint walk (fuel : nat) (visited : gset nat) (path : list nat) (conf : string) (cur : nat) : option (gset nat * folded) :=
  match fuel with
  | O => None
  | S fuel =>
    let stop := Some (visited, mkFolded path (if conf =?? "" then HopConfidenceNone else conf) []) in
    if kind cur =?? HopConfidenceAmbiguous then Some (visited, mkFolded path HopConfidenceAmbiguous (candidates cur)) else
    if negb (accepted cur) then stop else
    match choice cur with
    | None => stop
    | Some next =>
      if bool_decide (next ∈ visited) then stop
      else walk fuel ({[next]} ∪ visited) (path ++ [next]) (weakerConfidence conf (kind cur)) next
    end
  end.
Definition fold_at (head : nat) (s : gset nat * list folded) : option (gset nat * list folded) :=
  '(visited, f) ← walk (S n) ({[head]} ∪ s.1) [head] "" head; Some (visited, s.2 ++ [f]).
Fixpoint pass (skip : gset nat → nat → bool) (ps : list nat) (s : gset nat * list folded) : option (gset nat * list folded) :=
  match ps with
  | [] => Some s
  | p :: ps => s ← (if skip s.1 p then Some s else fold_at p s); pass skip ps s
  end.
Definition first_skip (visited : gset nat) (p : nat) : bool := inbound p || bool_decide (p ∈ visited).
Definition second_skip (visited : gset nat) (p : nat) : bool := bool_decide (p ∈ visited).
Definition fold_all : option (list folded) :=
  s ← pass first_skip (seq 0 n) (∅, []);
  '(_, fs) ← pass second_skip (seq 0 n) s;
  Some fs.
End fold.

(** ** The whole *)

Record HopPath := mkHop { hpID : string; hpConfidence : string; hpRecordKeys : list ConnRecordKey; hpCandidates : list ConnRecordKey }.
Definition hopPathID (keys : list ConnRecordKey) : string :=
  let nul := str1 (byte_of 0) in
  "hp_" +:+ str_take 16 (sha256_hex (String.concat "" (map (fun k =>
    kNodeID k +:+ nul +:+ dec_of_Z (kCoreGeneration k) +:+ nul +:+ dec_of_Z (kLogID k) +:+ str1 newline) keys))).
Definition hop_of (rec : nat → ConnRecord) (f : folded) : HopPath :=
  let keys := map (fun p => KeyOf (rec p)) (fdPath f) in
  mkHop (hopPathID keys) (fdConf f) keys
    (if fdConf f =?? HopConfidenceAmbiguous then map (fun p => KeyOf (rec p)) (fdPending f) else []).
Definition head_le (x y : HopPath) : bool :=
  match hpRecordKeys x, hpRecordKeys y with
  | a :: _, b :: _ => not_gt (compareKey a b)
  | _, _ => true
  end.
Definition zero_record : ConnRecord := mkConn "" 0 0 zero_time "" "" "" "" 0.
Definition rec_at (rs : list ConnRecord) (p : nat) : ConnRecord := default zero_record (rs !! p).
Definition effective_window (opts : Options) : duration := if oWindow opts <=? 0 then DefaultWindow else oWindow opts.
(** What [candidatesFor] answers for every position of the sorted records. *)
Definition all_candidates (rs : list ConnRecord) (edges : list Edge) (opts : Options) : list (list nat * string) :=
  let n := length rs in
  let '(byUser, byDst) := buildIndexes n (rec_at rs) in
  map (fun p => candidatesFor p (rec_at rs) (buildEdgeSet edges) (buildNodeIPs (oNodePublicIPs opts)) byUser byDst (effective_window opts))
    (seq 0 n).
Definition cands_at (cs : list (list nat * string)) (p : nat) : list nat := match cs !! p with Some c => c.1 | None => [] end.
Definition kind_at (cs : list (list nat * string)) (p : nat) : string := match cs !! p with Some c => c.2 | None => "" end.
Definition stitch_folds (rs : list ConnRecord) (edges : list Edge) (opts : Options) : option (list folded) :=
  let cs := all_candidates rs edges opts in
  fold_all (length rs) (cands_at cs) (kind_at cs).
Definition Stitch (records : list ConnRecord) (edges : list Edge) (opts : Options) : option (list HopPath) :=
  if (length records =? 0)%nat then Some [] else
  let rs := stable_sort record_le records in
  fs ← stitch_folds rs edges opts;
  Some (stable_sort head_le (map (hop_of (rec_at rs)) fs)).
End stitch.

(** ** Sorting *)

Lemma insert_by_perm {A} le (x : A) l : insert_by le x l ≡ₚ x :: l.
Proof. induction l as [|y l IH]; cbn; [done|]. destruct (le x y); [done|]. rewrite IH. constructor. Qed.
Lemma stable_sort_perm {A} le (l : list A) : stable_sort le l ≡ₚ l.
Proof. induction l as [|x l IH]; cbn; [done|]. rewrite insert_by_perm. by rewrite <- IH at 2. Qed.
Lemma insert_by_sorted {A} (le : A → A → bool) x l :
  (∀ a b, le a b = false → le b a = true) → (∀ a b c, le a b = true → le b c = true → le a c = true) →
  StronglySorted (fun a b => le a b = true) l → StronglySorted (fun a b => le a b = true) (insert_by le x l).
Proof.
  intros Htot Htr. induction 1 as [|y l Hl IH Hy]; cbn; [by repeat constructor|].
  destruct (le x y) eqn:E.
  - constructor; [by constructor|]. constructor; [done|]. rewrite Forall_forall in *. eauto.
  - constructor; [done|]. apply Forall_forall. intros z Hz. rewrite insert_by_perm in Hz. apply elem_of_cons in Hz as [->|Hz]; [by apply Htot|].
    rewrite Forall_forall in Hy. by apply Hy.
Qed.
Lemma stable_sort_sorted {A} (le : A → A → bool) l :
  (∀ a b, le a b = false → le b a = true) → (∀ a b c, le a b = true → le b c = true → le a c = true) →
  StronglySorted (fun a b => le a b = true) (stable_sort le l).
Proof. intros Htot Htr. induction l as [|x l IH]; cbn; [constructor|]. by apply insert_by_sorted. Qed.
Lemma seq_sorted i n : StronglySorted Nat.le (seq i n).
Proof.
  revert i. induction n as [|n IH]; intros i; cbn; [constructor|]. constructor; [done|].
  apply Forall_forall. intros x Hx. apply elem_of_seq in Hx. unfold Nat.le. lia.
Qed.
Lemma filter_seq_sorted p i n : StronglySorted Nat.le (List.filter p (seq i n)).
Proof.
  induction (seq_sorted i n) as [|x l Hl IH Hx]; cbn; [constructor|]. destruct (p x); [|done]. constructor; [done|].
  rewrite Forall_forall in *. intros y Hy%list_elem_of_In%filter_In. destruct Hy as [Hy%list_elem_of_In _]. auto.
Qed.
Lemma merge_sort_filter p i n : merge_sort le (List.filter p (seq i n)) = List.filter p (seq i n).
Proof.
  apply (StronglySorted_unique Nat.le); [apply (StronglySorted_merge_sort Nat.le)|apply filter_seq_sorted|apply merge_sort_Permutation].
Qed.
Lemma filter_filter_andb {A} (p q : A → bool) l : List.filter p (List.filter q l) = List.filter (fun x => q x && p x) l.
Proof. induction l as [|x l IH]; cbn; [done|]. destruct (q x); cbn; [destruct (p x); by rewrite IH|done]. Qed.

Lemma filter_ext_all {A} (f g : A → bool) l : (∀ x, f x = g x) → List.filter f l = List.filter g l.
Proof. intros E. induction l as [|x l IH]; cbn; [done|]. by rewrite E, IH. Qed.
Lemma filter_all_false {A} (f : A → bool) l : (∀ x, f x = false) → List.filter f l = [].
Proof. intros E. induction l as [|x l IH]; cbn; [done|]. by rewrite E. Qed.

(** Three-way comparisons that order by a preorder. *)
Record good_cmp {A} (c : A → A → comparison) : Prop := {
  gc_opp : ∀ x y, c y x = CompOpp (c x y);
  gc_trans : ∀ x y z, not_gt (c x y) = true → not_gt (c y z) = true → not_gt (c x z) = true;
  gc_eq : ∀ x y z, c x y = Eq → c x z = c y z }.
Definition lex {A} (c d : A → A → comparison) (x y : A) : comparison := match c x y with Eq => d x y | r => r end.
Lemma good_on {A B} (f : A → B) c : good_cmp c → good_cmp (fun x y => c (f x) (f y)).
Proof. intros [G1 G2 G3]. split; eauto. Qed.
Lemma good_lex {A} (c d : A → A → comparison) : good_cmp c → good_cmp d → good_cmp (lex c d).
Proof.
  intros [O1 T1 E1] [O2 T2 E2]. unfold lex. split.
  - intros x y. rewrite (O1 x y). destruct (c x y); cbn; [apply O2|done..].
  - intros x y z Hxy Hyz. destruct (c x y) eqn:Exy; [rewrite (E1 x y z Exy); destruct (c y z); by eauto| |done].
    assert (c x z = Lt) as ->; [|done]. destruct (c y z) eqn:Eyz; [| |done].
    + assert (c z y = Eq) as Ezy by (by rewrite (O1 y z), Eyz). pose proof (E1 z y x Ezy) as E. rewrite (O1 x z), (O1 x y), Exy in E. by destruct (c x z).
    + pose proof (T1 x y z) as Ht. rewrite Exy, Eyz in Ht. specialize (Ht eq_refl eq_refl). destruct (c x z) eqn:Exz; [|done|done].
      pose proof (E1 x z y Exz) as E. rewrite Exy, (O1 y z), Eyz in E. done.
  - intros x y z Hxy. destruct (c x y) eqn:Exy; [|done|done]. rewrite (E1 x y z Exy). destruct (c y z); [|done|done]. by apply E2.
Qed.
Lemma good_Z : good_cmp Z.compare.
Proof.
  split.
  - intros x y. by rewrite Z.compare_antisym.
  - intros x y z. destruct (Z.compare_spec x y), (Z.compare_spec y z), (Z.compare_spec x z); subst; try done; lia.
  - by intros x y z ->%Z.compare_eq.
Qed.
Lemma good_string : good_cmp String.compare.
Proof.
  split.
  - intros x y. apply String.compare_antisym.
  - intros x y z. pose proof (transitivity (R := String.le) (x := x) (y := y) (z := z)) as Ht. unfold String.le, String.leb in Ht.
    destruct (String.compare x y), (String.compare y z), (String.compare x z); cbn in *; tauto.
  - by intros x y z ->%String.compare_eq_iff.
Qed.

(** Two sorted lists of the same elements are one when no two different
    elements compare equal. *)
Lemma sorted_unique {A} (c : A → A → comparison) l k : good_cmp c → (∀ a b, a ∈ l → b ∈ l → c a b = Eq → a = b) → l ≡ₚ k →
  StronglySorted (fun a b => not_gt (c a b) = true) l → StronglySorted (fun a b => not_gt (c a b) = true) k → l = k.
Proof.
  intros Hg. revert k. induction l as [|x l IH]; intros k Heq Hp Hl Hk; [by apply Permutation_nil_l in Hp as ->|].
  destruct k as [|y k]; [by apply Permutation_nil_r in Hp|].
  apply StronglySorted_inv in Hl as [Hl Hx]. apply StronglySorted_inv in Hk as [Hk Hy]. rewrite Forall_forall in Hx, Hy.
  assert (x = y) as ->.
  { assert (x ∈ y :: k) as [->|Hxk]%elem_of_cons by (rewrite <- Hp; by left); [done|].
    assert (y ∈ x :: l) as [->|Hyl]%elem_of_cons by (rewrite Hp; by left); [done|].
    specialize (Hx y Hyl). specialize (Hy x Hxk). apply Heq; [by left|by right|].
    rewrite (gc_opp _ Hg x y) in Hy. by destruct (c x y). }
  f_equal. apply IH; [intros a b Ha Hb; apply Heq; by right|by apply Permutation_cons_inv in Hp|done|done].
Qed.
Lemma sorted_by {A} (c : A → A → comparison) l : good_cmp c → StronglySorted (fun a b => not_gt (c a b) = true) (stable_sort (fun a b => not_gt (c a b)) l).
Proof.
  intros Hg. apply (stable_sort_sorted (fun a b => not_gt (c a b))).
  - intros a b. rewrite (gc_opp _ Hg a b). by destruct (c a b).
  - intros x y z. apply (gc_trans _ Hg).
Qed.

Section proofs.
Context `{TraceSdk} `{GoCase}.

(** ** The indexes *)

Lemma push_lookup {K} `{Countable K} (k k' : K) p m :
  default [] (push k p m !! k') = default [] (m !! k') ++ (if decide (k' = k) then [p] else []).
Proof.
  unfold push. destruct (decide (k' = k)) as [->|Hne]; [by rewrite lookup_insert_eq|].
  by rewrite lookup_insert_ne, app_nil_r.
Qed.
Lemma index_spec_go rec ps : ∀ ix, let ix' := foldl (index_one rec) ix ps in
  (∀ id, id ≠ "" → default [] (ix'.1 !! id) = default [] (ix.1 !! id) ++ List.filter (fun p => trim_space (crUserID (rec p)) =?? id) ps) ∧
  ix'.1 !! "" = ix.1 !! "" ∧
  (∀ key, default [] (ix'.2 !! key) = default [] (ix.2 !! key) ++ List.filter (fun p => dstKeyOf (rec p) =?? Some key) ps).
Proof.
  induction ps as [|p ps IH]; intros ix; cbn [foldl]; cbv zeta; [cbn; split_and!; intros; by rewrite ?app_nil_r|].
  destruct (IH (index_one rec ix p)) as (I1 & I2 & I3). unfold index_one in *. cbn [fst snd] in *. split_and!.
  - intros id Hid. rewrite I1 by done. cbn [List.filter].
    destruct (bool_decide_reflect (trim_space (crUserID (rec p)) = "")) as [E|E]; cbn [negb].
    + rewrite (bool_decide_eq_false_2 (trim_space (crUserID (rec p)) = id)) by congruence. done.
    + rewrite push_lookup, <- (assoc_L (++)). f_equal.
      destruct (decide (id = trim_space (crUserID (rec p)))) as [->|Hne].
      * by rewrite bool_decide_eq_true_2.
      * by rewrite bool_decide_eq_false_2.
  - rewrite I2. destruct (bool_decide_reflect (trim_space (crUserID (rec p)) = "")) as [E|E]; [done|]. cbn [negb].
    unfold push. by rewrite lookup_insert_ne.
  - intros key. rewrite I3. cbn [List.filter]. destruct (dstKeyOf (rec p)) as [k|] eqn:Ek.
    + rewrite push_lookup, <- (assoc_L (++)). f_equal. destruct (decide (key = k)) as [->|Hne].
      * by rewrite bool_decide_eq_true_2.
      * rewrite bool_decide_eq_false_2 by congruence. done.
    + by rewrite bool_decide_eq_false_2.
Qed.
Lemma buildIndexes_spec n rec :
  (∀ id, default [] ((buildIndexes n rec).1 !! id) = List.filter (fun p => negb (id =?? "") && (trim_space (crUserID (rec p)) =?? id)) (seq 0 n)) ∧
  (∀ key, default [] ((buildIndexes n rec).2 !! key) = List.filter (fun p => dstKeyOf (rec p) =?? Some key) (seq 0 n)).
Proof.
  destruct (index_spec_go rec (seq 0 n) (∅, ∅)) as (I1 & I2 & I3). split.
  - intros id. destruct (bool_decide_reflect (id = "")) as [->|Hid]; cbn [negb andb].
    + unfold buildIndexes. rewrite I2. cbn [fst]. rewrite lookup_empty. symmetry. by apply filter_all_false.
    + unfold buildIndexes. rewrite I1 by done. done.
  - intros key. unfold buildIndexes. by rewrite I3.
Qed.

(** ** Candidates without indexes *)

(** [down] may be where the flow of [up] went on. *)
Definition evident (edgeSet : gset Edge) (nodeIPs : gmap string (gset string)) (window : duration) (up down : ConnRecord) : bool :=
  edgeAllows edgeSet up down && withinWindow up down window && flowEvidence up down nodeIPs.
Definition same_user (up down : ConnRecord) : bool :=
  negb (trim_space (crUserID up) =?? "") && (trim_space (crUserID down) =?? trim_space (crUserID up)).
(** The plain search: all records with evidence, or those of the same user
    when there are any. *)
Definition plain_candidates (n : nat) (rec : nat → ConnRecord) edgeSet nodeIPs window (p : nat) : list nat :=
  let all := List.filter (fun q => negb (q =?? p) && evident edgeSet nodeIPs window (rec p) (rec q)) (seq 0 n) in
  let mine := List.filter (fun q => same_user (rec p) (rec q)) all in
  match mine with [] => all | _ => mine end.
Definition plain_kind (n : nat) (rec : nat → ConnRecord) edgeSet nodeIPs window (p : nat) : string :=
  let all := List.filter (fun q => negb (q =?? p) && evident edgeSet nodeIPs window (rec p) (rec q)) (seq 0 n) in
  match List.filter (fun q => same_user (rec p) (rec q)) all with
  | _ :: _ :: _ => HopConfidenceAmbiguous
  | _ => match all with [] => HopConfidenceNone | _ => HopConfidenceInferred end
  end.
Lemma candidates_plain n rec edgeSet nodeIPs window p :
  candidatesFor p rec edgeSet nodeIPs (buildIndexes n rec).1 (buildIndexes n rec).2 window =
  (plain_candidates n rec edgeSet nodeIPs window p, plain_kind n rec edgeSet nodeIPs window p).
Proof.
  destruct (buildIndexes_spec n rec) as [Iu Id]. unfold candidatesFor, plain_candidates, plain_kind. rewrite Iu.
  set (all := List.filter (fun q => negb (q =?? p) && evident edgeSet nodeIPs window (rec p) (rec q)) (seq 0 n)).
  destruct ((trim_space (crLineUUID (rec p)) =?? "") || is_zero (crStartedAt (rec p))) eqn:E0.
  { assert (all = []) as ->; [|done]. apply filter_all_false. intros q. unfold evident, edgeAllows, withinWindow.
    apply orb_true_iff in E0 as [->| ->]; cbn; by rewrite ?andb_false_r. }
  set (mine := List.filter (fun q => same_user (rec p) (rec q)) all).
  match goal with |- context [List.filter ?f (List.filter ?g (seq 0 n))] =>
    assert (List.filter f (List.filter g (seq 0 n)) = mine) as Em end.
  { unfold mine, all. rewrite !filter_filter_andb. apply filter_ext_all. intros q. unfold evident, same_user.
    destruct (negb (q =?? p)), (edgeAllows _ _ _), (withinWindow _ _ _), (flowEvidence _ _ _), (negb (_ =?? "")), (_ =?? trim_space _); done. }
  rewrite Em.
  destruct mine as [|m1 [|m2 ms]] eqn:Emine; cbn [length Nat.eqb Nat.ltb Nat.leb].
  2: { f_equal. destruct all; [done|done]. }
  2: { f_equal. rewrite <- Emine. unfold mine, all. by rewrite filter_filter_andb, merge_sort_filter. }
  destruct (dstKeyOf (rec p)) as [key|] eqn:Ek.
  2: { assert (all = []) as ->; [|done]. apply filter_all_false. intros q. unfold evident, flowEvidence. rewrite Ek.
       destruct (dialedFrom _ _ _); cbn [negb]; by rewrite ?andb_false_r. }
  rewrite Id. match goal with |- context [List.filter ?f (List.filter ?g (seq 0 n))] =>
    assert (List.filter f (List.filter g (seq 0 n)) = all) as -> end.
  { unfold all. rewrite filter_filter_andb. apply filter_ext_all. intros q. unfold evident, flowEvidence. rewrite Ek.
    destruct (negb (q =?? p)), (edgeAllows _ _ _), (withinWindow _ _ _), (dialedFrom _ _ _); cbn; rewrite ?andb_false_r, ?andb_true_r; try done.
    destruct (dstKeyOf (rec q)) as [k|]; [|done]. apply bool_decide_ext. split; congruence. }
  destruct all as [|x l] eqn:Eall; [done|]. cbn [length Nat.eqb]. rewrite <- Eall. unfold all. by rewrite merge_sort_filter.
Qed.
End proofs.

(** ** Folding *)

Section folding.
Context `{TraceSdk} `{!TraceLaws} `{GoCase}.
Variables (n : nat) (candidates : nat → list nat) (found : nat → string).
Hypothesis in_range : ∀ p q, q ∈ candidates p → (q < n)%nat.
Hypothesis found_sole : ∀ p q, candidates p = [q] → found p = HopConfidenceInferred.
Notation choice := (choice candidates).
Notation accepted := (accepted n candidates).
Notation kind := (kind n candidates found).
Notation inbound := (inbound n candidates).

Lemma levels : HopConfidenceInferred ≠ "" ∧ HopConfidenceInferred ≠ HopConfidenceAmbiguous ∧ HopConfidenceNone ≠ HopConfidenceAmbiguous ∧
  HopConfidenceNone ≠ HopConfidenceInferred.
Proof. pose proof levels_distinct as Hd. rewrite !NoDup_cons in Hd. set_solver. Qed.
Lemma choice_in p q : choice p = Some q → candidates p = [q].
Proof. unfold Stitch.choice. destruct (candidates p) as [|x [|]]; intros [=]; by subst. Qed.
Lemma accepted_kind p : accepted p = true → ∃ q, choice p = Some q ∧ (q < n)%nat ∧ kind p = HopConfidenceInferred.
Proof.
  unfold Stitch.accepted, Stitch.kind. destruct (choice p) as [q|] eqn:E; [|done]. apply choice_in in E. rewrite E.
  intros Hc%negb_true_iff. exists q. rewrite Hc. split; [done|]. split; [apply (in_range p); rewrite E; by left|]. by apply (found_sole p q).
Qed.
(** No other record's only candidate is the one an accepted record goes on to. *)
Lemma accepted_unique p p' q : (p < n)%nat → (p' < n)%nat → accepted p = true → choice p = Some q → choice p' = Some q → p' = p.
Proof.
  intros Hp Hp' Ha Hc Hc'. destruct (decide (p' = p)) as [|Hne]; [done|]. exfalso. unfold Stitch.accepted in Ha. rewrite Hc in Ha.
  apply negb_true_iff, Nat.ltb_ge in Ha. unfold claims in Ha.
  assert (p :: [p'] ⊆+ List.filter (fun x => choice x =?? Some q) (seq 0 n)) as Hs.
  { apply NoDup_submseteq; [apply NoDup_cons; split; [set_solver|apply NoDup_singleton]|]. intros x Hx.
    rewrite list_elem_of_In, filter_In, <- list_elem_of_In, elem_of_seq. rewrite bool_decide_eq_true.
    apply elem_of_cons in Hx as [->|Hx%list_elem_of_singleton]; [split; [lia|done]|subst; split; [lia|done]]. }
  apply submseteq_length in Hs. cbn in Hs. lia.
Qed.

(** [ext] is where the flow goes on after [cur]. *)
Fixpoint chained (cur : nat) (ext : list nat) : Prop :=
  match ext with [] => True | q :: ext => accepted cur = true ∧ choice cur = Some q ∧ chained q ext end.
(** How a path that ends at [cur] is reported when [visited] is folded. *)
Definition ends (visited : gset nat) (alone : bool) (cur : nat) (f : folded) : Prop :=
  (kind cur = HopConfidenceAmbiguous ∧ fdConf f = HopConfidenceAmbiguous ∧ fdPending f = candidates cur) ∨
  (kind cur ≠ HopConfidenceAmbiguous ∧ fdConf f = (if alone then HopConfidenceNone else HopConfidenceInferred) ∧ fdPending f = [] ∧
    (accepted cur = true → ∃ next, choice cur = Some next ∧ next ∈ visited)).
Lemma last_cons_default (x d : nat) l : List.last (x :: l) d = List.last l x.
Proof. revert x d. induction l as [|y l IH]; intros x d; [done|]. change (List.last (y :: l) d = List.last (y :: l) x). by rewrite !IH. Qed.
Definition all_positions : gset nat := list_to_set (seq 0 n).
Lemma walk_spec fuel : ∀ visited path conf cur, (size (all_positions ∖ visited) < fuel)%nat →
  conf = "" ∨ conf = HopConfidenceInferred →
  ∃ ext f, walk n candidates found fuel visited path conf cur = Some (list_to_set ext ∪ visited, f) ∧
    fdPath f = path ++ ext ∧ NoDup ext ∧ (∀ x, x ∈ ext → x ∉ visited ∧ (x < n)%nat) ∧ chained cur ext ∧
    ends (list_to_set ext ∪ visited) (bool_decide (conf = "" ∧ ext = [])) (List.last ext cur) f.
Proof.
  destruct levels as (L1 & L2 & L3 & L4).
  induction fuel as [|fuel IH]; intros visited path conf cur Hf Hconf; [lia|]. cbn [walk].
  assert (∀ f, fdPath f = path → (ends visited (bool_decide (conf = "" ∧ @nil nat = [])) cur f) →
    ∃ ext f', Some (visited, f) = Some (list_to_set ext ∪ visited, f') ∧ fdPath f' = path ++ ext ∧ NoDup ext ∧
      (∀ x, x ∈ ext → x ∉ visited ∧ (x < n)%nat) ∧ chained cur ext ∧
      ends (list_to_set ext ∪ visited) (bool_decide (conf = "" ∧ ext = [])) (List.last ext cur) f') as Hstop.
  { intros f Hp He. exists [], f. cbn [list_to_set List.last chained]. rewrite app_nil_r, (left_id_L ∅ (∪)).
    split_and!; try done; [apply NoDup_nil_2|set_solver]. }
  assert (∀ b : bool, b = bool_decide (conf = "" ∧ @nil nat = []) →
    (if b then HopConfidenceNone else HopConfidenceInferred) = (if conf =?? "" then HopConfidenceNone else conf)) as Hc.
  { intros b ->. destruct Hconf as [->| ->]; [by rewrite !bool_decide_eq_true_2|]. rewrite !bool_decide_eq_false_2; [done|done|naive_solver]. }
  destruct (bool_decide_reflect (kind cur = HopConfidenceAmbiguous)) as [Ek|Ek]; [apply Hstop; [done|by left]|].
  destruct (accepted cur) eqn:Ea; cbn [negb].
  2: { apply Hstop; [done|]. right. split_and!; [done| |done|congruence]. cbn [fdConf]. by rewrite <- (Hc _ eq_refl). }
  destruct (accepted_kind cur Ea) as (next & En & Hn & Hk). rewrite En, Hk.
  destruct (bool_decide_reflect (next ∈ visited)) as [Hv|Hv].
  { apply Hstop; [done|]. right. split_and!; [done| |done|eauto]. cbn [fdConf]. by rewrite <- (Hc _ eq_refl). }
  assert (weakerConfidence conf HopConfidenceInferred = HopConfidenceInferred) as ->.
  { unfold weakerConfidence. destruct Hconf as [->| ->]; [done|]. rewrite bool_decide_eq_false_2 by done. by destruct (_ <? _). }
  destruct (IH ({[next]} ∪ visited) (path ++ [next]) HopConfidenceInferred next) as (ext & f & -> & Hpath & Hnd & Hext & Hch & Hend); [|by right|].
  { assert (all_positions ∖ visited = {[next]} ∪ all_positions ∖ ({[next]} ∪ visited)) as E.
    { assert (next ∈ all_positions) by (unfold all_positions; rewrite elem_of_list_to_set, elem_of_seq; lia).
      apply set_eq. intros x. destruct (decide (x = next)) as [->|]; set_solver. }
    rewrite E, size_union, size_singleton in Hf by set_solver. lia. }
  exists (next :: ext), f. cbn [list_to_set chained]. rewrite last_cons_default.
  assert (list_to_set ext ∪ ({[next]} ∪ visited) = {[next]} ∪ list_to_set ext ∪ visited) as <- by set_solver.
  split_and!; try done.
  - rewrite Hpath, <- (assoc_L (++)). done.
  - apply NoDup_cons. split; [|done]. intros Hin. destruct (Hext next Hin). set_solver.
  - intros x [->|Hx]%elem_of_cons; [done|]. destruct (Hext x Hx). split; [set_solver|done].
  - rewrite bool_decide_eq_false_2 in Hend by naive_solver. rewrite bool_decide_eq_false_2 by naive_solver. done.
Qed.

Record fold_inv (visited : gset nat) (fs : list folded) : Prop := {
  fi_nodup : NoDup (concat (map fdPath fs));
  fi_visited : ∀ x, x ∈ visited ↔ x ∈ concat (map fdPath fs);
  fi_range : ∀ x, x ∈ visited → (x < n)%nat;
  fi_shape : ∀ f, f ∈ fs → ∃ head ext, fdPath f = head :: ext ∧ chained head ext ∧ ends visited (bool_decide (ext = [])) (List.last ext head) f }.
Lemma ends_mono v v' alone cur f : v ⊆ v' → ends v alone cur f → ends v' alone cur f.
Proof. intros Hv [He|(E1 & E2 & E3 & E4)]; [by left|right]. split_and!; try done. intros Ha. destruct (E4 Ha) as (next & ? & ?). eauto. Qed.
Lemma fold_at_inv head visited fs : (head < n)%nat → head ∉ visited → fold_inv visited fs →
  ∃ v f ext, fold_at n candidates found head (visited, fs) = Some (v, fs ++ [f]) ∧ fold_inv v (fs ++ [f]) ∧ {[head]} ∪ visited ⊆ v ∧ fdPath f = head :: ext.
Proof.
  intros Hh Hv [I1 I2 I3 I4]. unfold fold_at. cbn [fst snd].
  destruct (walk_spec (S n) ({[head]} ∪ visited) [head] "" head) as (ext & f & -> & Hp & Hnd & Hext & Hch & Hend); [|by left|].
  { assert (size (all_positions ∖ ({[head]} ∪ visited)) <= size all_positions)%nat; [apply subseteq_size; set_solver|].
    assert (size all_positions <= n)%nat; [|lia]. unfold all_positions. rewrite size_list_to_set by apply NoDup_seq. by rewrite length_seq. }
  set (v := list_to_set ext ∪ ({[head]} ∪ visited)) in *. exists v, f, ext. split; [done|]. split; [|split; [set_solver|done]].
  assert (fdPath f = head :: ext) as Hp' by done.
  assert (∀ x, x ∈ v ↔ x ∈ concat (map fdPath fs) ++ head :: ext) as Hvis.
  { intros x. unfold v. rewrite !elem_of_union, elem_of_list_to_set, elem_of_singleton, I2, elem_of_app, elem_of_cons. tauto. }
  split.
  - rewrite map_app, concat_app. cbn. rewrite app_nil_r, Hp'. apply NoDup_app. split_and!; [done| |].
    + intros x Hx%I2 [->|Hx']%elem_of_cons; [done|]. destruct (Hext x Hx'). set_solver.
    + apply NoDup_cons. split; [|done]. intros Hx. destruct (Hext _ Hx). set_solver.
  - intros x. rewrite map_app, concat_app. cbn. by rewrite app_nil_r, Hp'.
  - intros x. unfold v. rewrite !elem_of_union, elem_of_list_to_set, elem_of_singleton. intros [Hx|[->|Hx]]; [by apply Hext|done|by apply I3].
  - intros g [Hg|Hg%list_elem_of_singleton]%elem_of_app.
    + destruct (I4 g Hg) as (h & e & ? & ? & ?). exists h, e. split_and!; try done. eapply ends_mono; [|done]. set_solver.
    + subst g. exists head, ext. split_and!; try done. erewrite bool_decide_ext; [exact Hend|]. naive_solver.
Qed.
Lemma pass_inv (skip : gset nat → nat → bool) ps : (∀ v p, p ∈ v → skip v p = true) → (∀ v v' p, v ⊆ v' → skip v p = true → skip v' p = true) →
  (∀ p, p ∈ ps → (p < n)%nat) → ∀ visited fs, fold_inv visited fs →
  ∃ v fs', pass n candidates found skip ps (visited, fs) = Some (v, fs') ∧ fold_inv v fs' ∧ visited ⊆ v ∧ (∀ p, p ∈ ps → skip v p = true) ∧
    (∀ f, f ∈ fs' → f ∈ fs ∨ ∃ u head ext, fdPath f = head :: ext ∧ skip u head = false).
Proof.
  intros Hin Hmono. induction ps as [|p ps IH]; intros Hps visited fs Hi; cbn [pass fst].
  { exists visited, fs. split_and!; try done; [set_solver|auto]. }
  destruct (skip visited p) eqn:Es; cbn [mbind option_bind].
  - destruct (IH (fun q Hq => Hps q (list_elem_of_further q p ps Hq)) visited fs Hi) as (v & fs' & E & Hi' & Hv & Hs & Hh).
    exists v, fs'. split_and!; try done. intros q [->|Hq]%elem_of_cons; [by apply (Hmono visited)|by apply Hs].
  - destruct (fold_at_inv p visited fs) as (v1 & f & ext & E1 & Hi1 & Hv1 & Hp1); [apply Hps; by left| |done|].
    { intros Hx. by rewrite (Hin visited p Hx) in Es. }
    rewrite E1. cbn [mbind option_bind].
    destruct (IH (fun q Hq => Hps q (list_elem_of_further q p ps Hq)) v1 (fs ++ [f]) Hi1) as (v & fs' & E & Hi' & Hv & Hs & Hh).
    exists v, fs'. split_and!; try done; [set_solver| |].
    + intros q [->|Hq]%elem_of_cons; [apply Hin; set_solver|by apply Hs].
    + intros g Hg. destruct (Hh g Hg) as [Hg'|]; [|by right]. apply elem_of_app in Hg' as [|Hg'%list_elem_of_singleton]; [by left|]. subst g. eauto 6.
Qed.
Lemma first_skip_in v p : p ∈ v → first_skip n candidates v p = true.
Proof. intros Hp. unfold first_skip. by rewrite (bool_decide_eq_true_2 (p ∈ v)), orb_true_r. Qed.
Lemma first_skip_mono v v' p : v ⊆ v' → first_skip n candidates v p = true → first_skip n candidates v' p = true.
Proof. unfold first_skip. rewrite !orb_true_iff, !bool_decide_eq_true. set_solver. Qed.
Lemma second_skip_in v p : p ∈ v → second_skip v p = true.
Proof. apply bool_decide_eq_true_2. Qed.
Lemma second_skip_mono v v' p : v ⊆ v' → second_skip v p = true → second_skip v' p = true.
Proof. unfold second_skip. rewrite !bool_decide_eq_true. set_solver. Qed.
Lemma fold_inv_start : fold_inv ∅ [].
Proof. split; cbn; [apply NoDup_nil_2|set_solver..]. Qed.

(** The two passes: every position is folded once, and what is left to the
    second pass has a record it follows on. *)
Lemma fold_all_spec : ∃ v1 fs1 v fs, pass n candidates found (first_skip n candidates) (seq 0 n) (∅, []) = Some (v1, fs1) ∧
  fold_all n candidates found = Some fs ∧ pass n candidates found second_skip (seq 0 n) (v1, fs1) = Some (v, fs) ∧
  fold_inv v1 fs1 ∧ fold_inv v fs ∧ (∀ p, (p < n)%nat → p ∈ v) ∧ (∀ p, (p < n)%nat → inbound p = false → p ∈ v1) ∧
  (∀ f, f ∈ fs1 → ∃ head ext, fdPath f = head :: ext ∧ inbound head = false).
Proof.
  destruct (pass_inv (first_skip n candidates) (seq 0 n)) with (visited := ∅ : gset nat) (fs := @nil folded)
    as (v1 & fs1 & E1 & Hi1 & _ & Hs1 & Hh1); [apply first_skip_in|apply first_skip_mono|intros p Hp; apply elem_of_seq in Hp; lia|apply fold_inv_start|].
  destruct (pass_inv second_skip (seq 0 n)) with (visited := v1) (fs := fs1)
    as (v & fs & E & Hi & _ & Hs & _); [apply second_skip_in|apply second_skip_mono|intros p Hp; apply elem_of_seq in Hp; lia|done|].
  exists v1, fs1, v, fs. unfold fold_all. rewrite E1. cbn [mbind option_bind]. rewrite E. split_and!; try done.
  - intros p Hp. specialize (Hs p). unfold second_skip in Hs. rewrite bool_decide_eq_true in Hs. apply Hs, elem_of_seq. lia.
  - intros p Hp Hib. specialize (Hs1 p). unfold first_skip in Hs1. rewrite Hib in Hs1. cbn in Hs1. rewrite bool_decide_eq_true in Hs1.
    apply Hs1, elem_of_seq. lia.
  - intros f Hf. destruct (Hh1 f Hf) as [Hf'|(u & head & ext & Hp & Hsk)]; [by apply elem_of_nil in Hf'|]. exists head, ext. split; [done|].
    unfold first_skip in Hsk. by apply orb_false_iff in Hsk as [? _].
Qed.

(** [b] comes right after [a]. *)
Definition follows (a b : nat) (l : list nat) : Prop := ∃ l1 l2, l = l1 ++ a :: b :: l2.
Lemma follows_in a b l : follows a b l → a ∈ l ∧ b ∈ l.
Proof. intros (l1 & l2 & ->). set_solver. Qed.
Lemma chained_follows head ext a b : chained head ext → follows a b (head :: ext) → accepted a = true ∧ choice a = Some b.
Proof.
  revert head. induction ext as [|q ext IH]; intros head Hc (l1 & l2 & E).
  - destruct l1 as [|? [|]]; cbn in E; discriminate.
  - destruct Hc as (Ha & Hq & Hc). destruct l1 as [|x l1]; cbn in E; [by simplify_eq|]. injection E as _ E.
    apply (IH q Hc). by exists l1, l2.
Qed.
Lemma path_next a head ext : a ∈ head :: ext → a = List.last ext head ∨ ∃ b, follows a b (head :: ext).
Proof.
  revert head. induction ext as [|q ext IH]; intros head [->|Ha]%elem_of_cons; [by left|by apply elem_of_nil in Ha|right; exists q; by exists [], ext|].
  rewrite last_cons_default. destruct (IH q Ha) as [?|(b & l1 & l2 & E)]; [by left|right; exists b]. exists (head :: l1), l2. cbn. by rewrite E.
Qed.
Lemma path_prev a head ext : a ∈ ext → ∃ b, follows b a (head :: ext).
Proof.
  revert head. induction ext as [|q ext IH]; intros head; [by intros ?%elem_of_nil|]. intros [->|Ha]%elem_of_cons; [exists head; by exists [], ext|].
  destruct (IH q Ha) as (b & l1 & l2 & E). exists b, (head :: l1), l2. cbn. by rewrite E.
Qed.
Lemma last_in (head : nat) ext : List.last ext head ∈ head :: ext.
Proof. revert head. induction ext as [|y ext IH]; intros head; [by left|]. rewrite last_cons_default. right. apply IH. Qed.
Lemma last_not_followed a b head ext : NoDup (head :: ext) → follows a b (head :: ext) → a ≠ List.last ext head.
Proof.
  revert head. induction ext as [|q ext IH]; intros head Hnd (l1 & l2 & E) Ha.
  - destruct l1 as [|? [|]]; cbn in E; discriminate.
  - apply NoDup_cons in Hnd as [Hh Hnd]. rewrite last_cons_default in Ha. destruct l1 as [|x l1]; cbn in E; [injection E as Ex _|injection E as _ E].
    + apply Hh. rewrite Ex, Ha. apply last_in.
    + apply (IH q Hnd); [by exists l1, l2|done].
Qed.
Lemma in_paths (fs : list folded) x : x ∈ concat (map fdPath fs) ↔ ∃ f, f ∈ fs ∧ x ∈ fdPath f.
Proof.
  rewrite list_elem_of_In, in_concat. split.
  - intros (l & (f & <- & Hf)%in_map_iff & Hx). exists f. by rewrite !list_elem_of_In.
  - intros (f & Hf & Hx). exists (fdPath f). split; [by apply in_map, list_elem_of_In|by apply list_elem_of_In].
Qed.
Lemma same_path (fs : list folded) f g x : NoDup (concat (map fdPath fs)) → f ∈ fs → g ∈ fs → x ∈ fdPath f → x ∈ fdPath g → f = g.
Proof.
  induction fs as [|h fs IH]; [by intros _ ?%elem_of_nil|]. cbn. intros (Hh & Hd & Hn)%NoDup_app.
  assert (∀ k, k ∈ fs → x ∈ fdPath k → x ∈ concat (map fdPath fs)) as Hc by (intros k Hk Hx; apply in_paths; eauto).
  intros [->|Hf]%elem_of_cons [->|Hg]%elem_of_cons Hxf Hxg; [done| | |by apply IH]; exfalso; eapply Hd; eauto.
Qed.
Lemma path_nodup (fs : list folded) f : NoDup (concat (map fdPath fs)) → f ∈ fs → NoDup (fdPath f).
Proof. induction fs as [|h fs IH]; [by intros _ ?%elem_of_nil|]. cbn. intros (? & ? & ?)%NoDup_app [->|?]%elem_of_cons; [done|by apply IH]. Qed.
Lemma inbound_spec q : inbound q = true ↔ ∃ p, (p < n)%nat ∧ accepted p = true ∧ choice p = Some q.
Proof.
  unfold Stitch.inbound. rewrite existsb_elem_of. setoid_rewrite elem_of_seq. split.
  - intros (p & Hp & [Ha Hc%bool_decide_eq_true]%andb_true_iff). exists p. split_and!; [lia|done..].
  - intros (p & Hp & Ha & Hc). exists p. split; [lia|]. by rewrite Ha, bool_decide_eq_true_2.
Qed.
(** A decided join is in the path when no path starts at its end. *)
Lemma successor_folded v fs p q : fold_inv v fs → (∀ f, f ∈ fs → ∃ head ext, fdPath f = head :: ext ∧ inbound head = false) →
  p ∈ v → accepted p = true → choice p = Some q → ∃ f, f ∈ fs ∧ follows p q (fdPath f).
Proof.
  intros [I1 I2 I3 I4] Hheads Hp Ha Hc. pose proof (I3 p Hp) as Hpn. apply I2, in_paths in Hp as (f & Hf & Hp). destruct (I4 f Hf) as (head & ext & Ep & Hch & Hend).
  rewrite Ep in Hp. destruct (path_next p head ext Hp) as [Hlast|(b & Hb)].
  2: { exists f. split; [done|]. rewrite Ep. destruct (chained_follows head ext p b Hch Hb) as [_ E]. congruence. }
  exfalso. destruct (accepted_kind p Ha) as (q' & Hq' & _ & Hk). rewrite <- Hlast in Hend.
  destruct levels as (_ & L2 & _). destruct Hend as [[E _]|(_ & _ & _ & Hv)]; [congruence|]. destruct (Hv Ha) as (nx & Hnx & Hin).
  assert (nx = q) as -> by congruence. apply I2, in_paths in Hin as (g & Hg & Hin). destruct (Hheads g Hg) as (h & e & Eg & Hib).
  rewrite Eg in Hin. apply elem_of_cons in Hin as [->|Hin].
  { assert (inbound h = true) by (apply inbound_spec; eauto). congruence. }
  destruct (path_prev q h e Hin) as (p' & Hfol). destruct (I4 g Hg) as (h' & e' & Eg' & Hch' & _). rewrite Eg in Eg'. injection Eg' as <- <-.
  destruct (chained_follows h e p' q Hch' Hfol) as [Ha' Hc'].
  assert (p' < n)%nat as Hp'n.
  { apply I3, I2, in_paths. exists g. split; [done|]. rewrite Eg. exact (proj1 (follows_in _ _ _ Hfol)). }
  assert (p' = p) as -> by (by apply (accepted_unique p p' q)).
  assert (g = f) as ->. { apply (same_path fs g f p I1 Hg Hf); [rewrite Eg; exact (proj1 (follows_in _ _ _ Hfol))|by rewrite Ep]. }
  rewrite Eg in Ep. injection Ep as -> ->. apply (last_not_followed p q head ext); [rewrite <- Eg; by apply (path_nodup fs)|done|done].
Qed.
Lemma pass_idle skip ps v fs : (∀ p, p ∈ ps → skip v p = true) → pass n candidates found skip ps (v, fs) = Some (v, fs).
Proof. induction ps as [|p ps IH]; intros Hs; [done|]. cbn [pass fst]. rewrite Hs by left. cbn. apply IH. intros q Hq. apply Hs. by right. Qed.
Definition decided (a b : nat) : Prop := (a < n)%nat ∧ accepted a = true ∧ choice a = Some b.
Lemma decided_spec a b : decided a b ↔ (a < n)%nat ∧ candidates a = [b] ∧ ∀ c, (c < n)%nat → candidates c = [b] → c = a.
Proof.
  unfold decided. split.
  - intros (Ha & Hacc & Hc). split_and!; [done|by apply choice_in|]. intros c Hcn Ec. apply (accepted_unique a c b); try done.
    unfold Stitch.choice. by rewrite Ec.
  - intros (Ha & Hc & Hu). assert (choice a = Some b) as Hcb by (unfold Stitch.choice; by rewrite Hc). split_and!; try done.
    unfold Stitch.accepted. rewrite Hcb. apply negb_true_iff, Nat.ltb_ge. unfold claims.
    assert (List.filter (fun x => choice x =?? Some b) (seq 0 n) ⊆+ [a]) as Hs%submseteq_length; [|done].
    apply NoDup_submseteq; [apply NoDup_ListNoDup, List.NoDup_filter, NoDup_ListNoDup, NoDup_seq|]. intros x.
    rewrite list_elem_of_In, filter_In, <- list_elem_of_In, elem_of_seq, bool_decide_eq_true. intros [Hx Hcx%choice_in].
    apply list_elem_of_singleton, Hu; [lia|done].
Qed.

(** Without a cycle of decided joins the first pass folds everything, and the
    paths are exactly the decided joins. *)
Hypothesis no_cycle : ∀ x, ¬ tc decided x x.
Lemma decided_range a b : decided a b → (a < n)%nat ∧ (b < n)%nat.
Proof. intros (Ha & _ & Hc). split; [done|]. apply (in_range a). rewrite (choice_in a b Hc). by left. Qed.
Lemma decided_wf x : sn (flip decided) x.
Proof.
  assert (∀ a b, tc (flip decided) a b → tc decided b a ∧ (b < n)%nat) as Hflip.
  { induction 1 as [a b Hd|a b c Hd _ [IH Hc]]; [split; [by apply tc_once|by apply decided_range in Hd as [? _]]|].
    split; [|done]. eapply tc_r; [done|exact Hd]. }
  apply tc_finite_sn.
  - intros a [Ha _]%Hflip. by apply (no_cycle a).
  - exists (seq 0 n). intros y [_ Hy]%Hflip. apply elem_of_seq. lia.
Qed.
Lemma first_pass_all v fs p : fold_inv v fs → (∀ f, f ∈ fs → ∃ head ext, fdPath f = head :: ext ∧ inbound head = false) →
  (∀ p, (p < n)%nat → inbound p = false → p ∈ v) → (p < n)%nat → p ∈ v.
Proof.
  intros Hi Hh Hv. induction (decided_wf p) as [p _ IH]. intros Hp. destruct (inbound p) eqn:Eb; [|by apply Hv].
  apply inbound_spec in Eb as (p' & Hp' & Ha & Hc).
  destruct (successor_folded v fs p' p Hi Hh) as (f & Hf & Hfol); [apply IH; done|done|done|].
  apply (fi_visited _ _ Hi), in_paths. exists f. split; [done|]. exact (proj2 (follows_in _ _ _ Hfol)).
Qed.
Lemma fold_all_exact : ∃ v fs, fold_all n candidates found = Some fs ∧ fold_inv v fs ∧ ∀ a b, (∃ f, f ∈ fs ∧ follows a b (fdPath f)) ↔ decided a b.
Proof.
  destruct fold_all_spec as (v1 & fs1 & v & fs & E1 & E & E2 & Hi1 & Hi & Hall & Hv1 & Hh).
  assert (∀ p, (p < n)%nat → p ∈ v1) as Hall1 by (intros p; by apply (first_pass_all v1 fs1)).
  rewrite pass_idle in E2. 2: { intros p Hp%elem_of_seq. apply second_skip_in, Hall1. lia. }
  injection E2 as -> ->. exists v, fs. split; [done|]. split; [done|]. intros a b. split.
  - intros (f & Hf & Hfol). destruct (fi_shape _ _ Hi f Hf) as (head & ext & Ep & Hch & _). rewrite Ep in Hfol.
    destruct (chained_follows head ext a b Hch Hfol) as [Ha Hc]. split; [|done]. apply (fi_range _ _ Hi), (fi_visited _ _ Hi), in_paths.
    exists f. split; [done|]. rewrite Ep. exact (proj1 (follows_in _ _ _ Hfol)).
  - intros (Ha & Hacc & Hc). apply (successor_folded v fs); try done. by apply Hall.
Qed.
(** A path ends where the flow cannot be followed, and says which way. *)
Definition reported (l : nat) (f : folded) : Prop :=
  (candidates l ≠ [] ∧ fdConf f = HopConfidenceAmbiguous ∧ fdPending f = candidates l) ∨
  (candidates l = [] ∧ fdConf f = (if (length (fdPath f) =? 1)%nat then HopConfidenceNone else HopConfidenceInferred) ∧ fdPending f = []).
Lemma path_end v fs f : fold_inv v fs → (∀ a b, (∃ f, f ∈ fs ∧ follows a b (fdPath f)) ↔ decided a b) → f ∈ fs →
  ∃ l, last (fdPath f) = Some l ∧ (l < n)%nat ∧ (∀ b, ¬ decided l b) ∧ reported l f.
Proof.
  destruct levels as (_ & _ & L3 & _). intros Hi Hd Hf. destruct (fi_shape _ _ Hi f Hf) as (head & ext & Ep & Hch & Hend). set (l := List.last ext head) in *.
  assert (last (fdPath f) = Some l) as Hlast.
  { rewrite Ep. unfold l. clear. revert head. induction ext as [|x ext IH]; intros head; [done|]. rewrite last_cons_default. exact (IH x). }
  assert (l < n)%nat as Hl.
  { apply (fi_range _ _ Hi), (fi_visited _ _ Hi), in_paths. exists f. split; [done|]. rewrite Ep. apply last_in. }
  exists l. split; [done|]. split; [done|].
  assert (∀ b, ¬ decided l b) as Hnone.
  { intros b Hb. pose proof Hb as (g & Hg & Hfol)%Hd. pose proof (fi_nodup _ _ Hi) as Hnd.
    assert (g = f) as ->. { apply (same_path fs g f l Hnd Hg Hf); [exact (proj1 (follows_in _ _ _ Hfol))|rewrite Ep; apply last_in]. }
    rewrite Ep in Hfol. apply (last_not_followed l b head ext); [rewrite <- Ep; by apply (path_nodup fs)|done|done]. }
  split; [done|]. destruct Hend as [(Hk & Hc & Hp)|(Hk & Hc & Hp & _)].
  - left. split_and!; try done. intros E. unfold Stitch.kind in Hk. rewrite E in Hk. done.
  - right. split_and!; [|rewrite Hc, Ep|done].
    + unfold Stitch.kind in Hk. destruct (candidates l) as [|x [|]] eqn:Ec; [done| |done].
      destruct (1 <? claims n candidates x)%nat eqn:E; [done|]. exfalso. apply (Hnone x). split_and!; [done| |].
      * unfold Stitch.accepted, Stitch.choice. rewrite Ec. by rewrite E.
      * unfold Stitch.choice. by rewrite Ec.
    + by destruct ext.
Qed.
End folding.

(** ** What a caller can rely on *)

Section theorems.
Context `{TraceSdk} `{!TraceLaws} `{GoCase}.

Section one.
Variables (rs : list ConnRecord) (edges : list Edge) (opts : Options).
Notation n := (length rs).
Notation cs := (all_candidates rs edges opts).
Definition plain_at (p : nat) : list nat :=
  plain_candidates n (rec_at rs) (buildEdgeSet edges) (buildNodeIPs (oNodePublicIPs opts)) (effective_window opts) p.
Definition plain_kind_at (p : nat) : string :=
  plain_kind n (rec_at rs) (buildEdgeSet edges) (buildNodeIPs (oNodePublicIPs opts)) (effective_window opts) p.
Lemma all_candidates_at p : (p < n)%nat → cs !! p = Some (plain_at p, plain_kind_at p).
Proof.
  intros Hp. unfold all_candidates. destruct (buildIndexes n (rec_at rs)) as [byUser byDst] eqn:E.
  rewrite list_lookup_fmap, lookup_seq_lt by done. cbn [fmap option_fmap option_map]. f_equal. cbn [Nat.add].
  pose proof (candidates_plain n (rec_at rs) (buildEdgeSet edges) (buildNodeIPs (oNodePublicIPs opts)) (effective_window opts) p) as Hp'.
  rewrite E in Hp'. exact Hp'.
Qed.
Lemma all_candidates_out p : (n <= p)%nat → cs !! p = None.
Proof.
  intros Hp. unfold all_candidates. destruct (buildIndexes n (rec_at rs)). rewrite list_lookup_fmap, lookup_seq_ge by done. done.
Qed.
Lemma cands_plain p : cands_at cs p = if (p <? n)%nat then plain_at p else [].
Proof.
  unfold cands_at. destruct (Nat.ltb_spec p n); [by rewrite all_candidates_at|by rewrite all_candidates_out].
Qed.
Lemma plain_in p q : q ∈ plain_at p → (q < n)%nat ∧ q ≠ p ∧
  evident (buildEdgeSet edges) (buildNodeIPs (oNodePublicIPs opts)) (effective_window opts) (rec_at rs p) (rec_at rs q) = true.
Proof.
  unfold plain_at, plain_candidates. set (all := List.filter _ (seq 0 n)).
  assert (∀ q, q ∈ all → (q < n)%nat ∧ q ≠ p ∧
    evident (buildEdgeSet edges) (buildNodeIPs (oNodePublicIPs opts)) (effective_window opts) (rec_at rs p) (rec_at rs q) = true) as Hall.
  { intros x. unfold all. rewrite list_elem_of_In, filter_In, <- list_elem_of_In, elem_of_seq, andb_true_iff, negb_true_iff, bool_decide_eq_false.
    intros (? & ? & ?). split_and!; [lia|done..]. }
  set (mine := List.filter _ all). intros Hq. apply Hall. destruct mine as [|m ms] eqn:Em; [done|].
  rewrite <- Em in Hq. unfold mine in Hq. rewrite list_elem_of_In, filter_In, <- list_elem_of_In in Hq. exact (proj1 Hq).
Qed.
Lemma cands_range p q : q ∈ cands_at cs p → (q < n)%nat.
Proof. rewrite cands_plain. destruct (p <? n)%nat; [by intros [? _]%plain_in|by intros ?%elem_of_nil]. Qed.
Lemma cands_sole p q : cands_at cs p = [q] → kind_at cs p = HopConfidenceInferred.
Proof.
  intros E. pose proof E as E'. rewrite cands_plain in E'. destruct (Nat.ltb_spec p n) as [Hp|]; [|done].
  unfold kind_at. rewrite all_candidates_at by done. cbn [snd]. revert E'. unfold plain_at, plain_candidates, plain_kind_at, plain_kind.
  set (all := List.filter _ (seq 0 n)). set (mine := List.filter _ all) at 1. fold mine. destruct mine as [|m1 [|m2 ms]] eqn:Em.
  - by intros ->.
  - intros _. destruct all; [done|done].
  - done.
Qed.
End one.

Lemma good_key : good_cmp compareKey.
Proof.
  apply (good_lex (fun a b => String.compare (kNodeID a) (kNodeID b)) (lex (fun a b => kCoreGeneration a ?= kCoreGeneration b) (fun a b => kLogID a ?= kLogID b)));
    [apply (good_on kNodeID), good_string|]. apply good_lex; [apply (good_on kCoreGeneration), good_Z|apply (good_on kLogID), good_Z].
Qed.
Lemma good_record : good_cmp compareRecord.
Proof.
  apply (good_lex (fun a b => crStartedAt a ?= crStartedAt b) (fun a b => compareKey (KeyOf a) (KeyOf b)));
    [apply (good_on crStartedAt), good_Z|apply (good_on KeyOf), good_key].
Qed.
(** The answer is a function of the set of records: handed the same
    records in another order, the stitcher gives the same paths in the same
    order, unless two different records share the start instant and the key. *)
Theorem stitch_order_independent records records' edges opts : records ≡ₚ records' →
  (∀ a b, a ∈ records → b ∈ records → compareRecord a b = Eq → a = b) → Stitch records edges opts = Stitch records' edges opts.
Proof.
  intros Hp Heq. unfold Stitch. rewrite Hp. assert (stable_sort record_le records = stable_sort record_le records') as ->; [|done].
  apply (sorted_unique compareRecord); [apply good_record| | |apply sorted_by, good_record..].
  - intros a b. rewrite !(stable_sort_perm record_le). apply Heq.
  - by rewrite !(stable_sort_perm record_le).
Qed.

(** C33. The stitcher answers on every input, and every record is in exactly
    one of its paths: the keys of the paths, put together, are the keys of the
    records, however the edges, addresses and times lie, cyclic edges
    included. *)
Theorem stitch_partition records edges opts :
  ∃ out, Stitch records edges opts = Some out ∧ concat (map hpRecordKeys out) ≡ₚ map KeyOf records ∧ Forall (fun h => hpRecordKeys h ≠ []) out.
Proof.
  unfold Stitch. destruct records as [|r records]; [exists []; cbn; by repeat constructor|]. cbn [length Nat.eqb].
  set (rs := stable_sort record_le (r :: records)).
  destruct (fold_all_spec (length rs) (cands_at (all_candidates rs edges opts)) (kind_at (all_candidates rs edges opts))
    (cands_range rs edges opts) (cands_sole rs edges opts)) as (v1 & fs1 & v & fs & _ & E & _ & _ & Hi & Hall & _).
  unfold stitch_folds. rewrite E. cbn [mbind option_bind]. eexists. split; [done|].
  assert (concat (map fdPath fs) ≡ₚ seq 0 (length rs)) as Hp.
  { apply NoDup_Permutation; [apply Hi|apply NoDup_seq|]. intros x. rewrite <- (fi_visited _ _ _ _ _ Hi), elem_of_seq. split.
    - intros Hx%(fi_range _ _ _ _ _ Hi). lia.
    - intros [_ Hx]. by apply Hall. }
  split.
  - rewrite (stable_sort_perm head_le). rewrite map_map. cbn [hop_of hpRecordKeys].
    assert (concat (map (fun f => map (fun p => KeyOf (rec_at rs p)) (fdPath f)) fs) = map (fun p => KeyOf (rec_at rs p)) (concat (map fdPath fs))) as ->
      by (rewrite concat_map, map_map; done).
    rewrite Hp, <- (stable_sort_perm record_le (r :: records)). fold rs.
    rewrite <- (map_map (rec_at rs) KeyOf). assert (map (rec_at rs) (seq 0 (length rs)) = rs) as ->; [|done]. apply list_eq. intros i. rewrite list_lookup_fmap.
    destruct (decide (i < length rs)%nat) as [Hlt|Hge]; [|rewrite lookup_seq_ge, lookup_ge_None_2 by lia; done].
    rewrite lookup_seq_lt by done. destruct (lookup_lt_is_Some_2 rs i Hlt) as [x Hx]. rewrite Hx. cbn [fmap option_fmap option_map Nat.add]. unfold rec_at. by rewrite Hx.
  - apply Forall_forall. intros h. rewrite (stable_sort_perm head_le). intros (f & -> & Hf)%list_elem_of_fmap.
    destruct (fi_shape _ _ _ _ _ Hi f Hf) as (head & ext & Ep & _). cbn. by rewrite Ep.
Qed.

(** C14. Along edges without a cycle, the paths are exactly the joins the
    evidence decides: one record comes right after another in a path just
    when it is the only record the other can have flowed into (the edge is
    declared, it started within the window, it was dialled from an address of
    the other's node and has the same destination; of these the ones of the
    same user when there are any) and no third record can only have flowed
    there.  A path ends where nothing is decided: at a record with no
    candidate, or at a fork, which makes the path ambiguous and whose branches
    it lists. *)
Theorem joins_exact rs edges opts : (∀ l, ¬ tc (fun a b => mkEdge a b ∈ buildEdgeSet edges) l l) →
  ∃ fs, stitch_folds rs edges opts = Some fs ∧
  (∀ a b, (∃ f, f ∈ fs ∧ follows a b (fdPath f)) ↔
     (a < length rs)%nat ∧ plain_at rs edges opts a = [b] ∧ ∀ c, (c < length rs)%nat → plain_at rs edges opts c = [b] → c = a) ∧
  (∀ f, f ∈ fs → ∃ l, last (fdPath f) = Some l ∧
     ((plain_at rs edges opts l ≠ [] ∧ fdConf f = HopConfidenceAmbiguous ∧ fdPending f = plain_at rs edges opts l) ∨
      (plain_at rs edges opts l = [] ∧ fdConf f = (if (length (fdPath f) =? 1)%nat then HopConfidenceNone else HopConfidenceInferred) ∧ fdPending f = []))).
Proof.
  intros Hac. set (cands := cands_at (all_candidates rs edges opts)). set (kinds := kind_at (all_candidates rs edges opts)).
  assert (∀ p, (p < length rs)%nat → cands p = plain_at rs edges opts p) as Hplain.
  { intros p Hp. unfold cands. rewrite cands_plain. by destruct (Nat.ltb_spec p (length rs)); [|lia]. }
  assert (∀ a b, tc (decided (length rs) cands) a b → tc (fun x y => mkEdge x y ∈ buildEdgeSet edges)
    (trim_space (crLineUUID (rec_at rs a))) (trim_space (crLineUUID (rec_at rs b)))) as Hlift.
  { assert (∀ a b, decided (length rs) cands a b → mkEdge (trim_space (crLineUUID (rec_at rs a))) (trim_space (crLineUUID (rec_at rs b))) ∈ buildEdgeSet edges) as Hstep.
    { intros a b (Ha & _ & Hc%choice_in). rewrite (Hplain a Ha) in Hc. assert (b ∈ plain_at rs edges opts a) as Hin by (rewrite Hc; by left).
      apply plain_in in Hin as (_ & _ & Hev). unfold evident, edgeAllows in Hev. apply andb_true_iff in Hev as [[Hev _]%andb_true_iff _].
      destruct (_ || _); [done|]. by apply bool_decide_eq_true in Hev. }
    induction 1 as [a b Hd|a b c Hd _ IH]; [by apply tc_once, Hstep|]. eapply tc_l; [|exact IH]. by apply Hstep. }
  destruct (fold_all_exact (length rs) cands kinds (cands_range rs edges opts) (cands_sole rs edges opts)) as (v & fs & E & Hi & Hd).
  { intros x Hx%Hlift. by apply (Hac _ Hx). }
  exists fs. split; [exact E|]. split.
  - intros a b. rewrite Hd, decided_spec by (exact (cands_range rs edges opts) || exact (cands_sole rs edges opts)). split; intros (Ha & Hc & Hu).
    + rewrite (Hplain a Ha) in Hc. split_and!; try done. intros c Hlt. rewrite <- (Hplain c Hlt). by apply Hu.
    + rewrite <- (Hplain a Ha) in Hc. split_and!; try done. intros c Hlt. rewrite (Hplain c Hlt). by apply Hu.
  - intros f Hf. destruct (path_end (length rs) cands kinds (cands_range rs edges opts) (cands_sole rs edges opts) v fs f Hi Hd Hf) as (l & Hl & Hlt & _ & Hr). exists l. split; [done|].
    unfold reported in Hr. rewrite (Hplain l Hlt) in Hr. exact Hr.
Qed.
End theorems.

(** ** Examples *)

Module StitchDemo.
#[export] Instance sdk : TraceSdk := {|
  ConnRecordKey := string * Z * Z; kNodeID := fun k => k.1.1; kCoreGeneration := fun k => k.1.2; kLogID := fun k => k.2;
  KeyOf := fun r => (crNodeID r, crCoreGeneration r, crLogID r);
  HopConfidenceExact := "exact"; HopConfidenceInferred := "inferred"; HopConfidenceAmbiguous := "ambiguous"; HopConfidenceNone := "none" |}.
#[export] Instance go_case : GoCase := Build_GoCase to_lower to_upper.
Lemma laws : TraceLaws.
Proof. unfold TraceLaws. apply (bool_decide_unpack _). by vm_compute. Qed.
Definition at_ms (ms : Z) : time := 1000 * second + ms * 1000000.
Definition conn (node line user src host : string) (id ms : Z) : ConnRecord := mkConn node 1 id (at_ms ms) line user src host 443.
Definition entry : ConnRecord := conn "a" "l1" "u1" "192.0.2.9" "Example.org" 7 0.
Definition exit_ : ConnRecord := conn "b" "l2" "u1" "::ffff:198.51.100.1" "example.org" 9 40.
Definition stray : ConnRecord := conn "b" "l2" "u2" "203.0.113.5" "example.org" 3 20.
Definition edges : list Edge := [mkEdge "l1" "l2"].
Definition opts : Options := mkOptions 0 {[ "a" := ["198.51.100.1"] ]}.
(** The exit names the entry's address in its IPv4-mapped form and the host in
    another case; the stray was dialled from elsewhere. *)
Example two_hops : Stitch [stray; exit_; entry] edges opts =
  Some [mkHop (hopPathID [KeyOf entry; KeyOf exit_]) "inferred" [KeyOf entry; KeyOf exit_] []; mkHop (hopPathID [KeyOf stray]) "none" [KeyOf stray] []].
Proof. by vm_compute. Qed.
Lemma edges_acyclic l : ¬ tc (fun a b => mkEdge a b ∈ buildEdgeSet edges) l l.
Proof.
  assert (∀ a b, mkEdge a b ∈ buildEdgeSet edges → a = "l1" ∧ b = "l2") as He.
  { intros a b Hin. change (buildEdgeSet edges) with ({[mkEdge "l1" "l2"]} ∪ ∅ : gset Edge) in Hin. set_solver. }
  assert (∀ a b, tc (fun a b => mkEdge a b ∈ buildEdgeSet edges) a b → a = "l1" ∧ b = "l2") as Ht.
  { induction 1 as [a b Hab|a b c Hab _ [IH _]]; [by apply He|]. apply He in Hab as [_ ->]. discriminate. }
  intros [-> Hb]%Ht. discriminate.
Qed.
End StitchDemo.

#[local] Existing Instance StitchDemo.sdk.
#[local] Existing Instance StitchDemo.go_case.
Lemma stitch_order_independent_witness :
  Stitch [StitchDemo.exit_; StitchDemo.entry] StitchDemo.edges StitchDemo.opts = Stitch [StitchDemo.entry; StitchDemo.exit_] StitchDemo.edges StitchDemo.opts.
Proof.
  apply stitch_order_independent; [constructor|]. intros a b Ha Hb.
  repeat (apply elem_of_cons in Ha as [->|Ha]); repeat (apply elem_of_cons in Hb as [->|Hb]);
    try (by apply elem_of_nil in Ha); try (by apply elem_of_nil in Hb); (reflexivity || (intros Hc; vm_compute in Hc; discriminate)).
Defined.

Lemma stitch_partition_witness :
  ∃ out, Stitch [StitchDemo.stray; StitchDemo.exit_; StitchDemo.entry] StitchDemo.edges StitchDemo.opts = Some out ∧
    concat (map hpRecordKeys out) ≡ₚ map KeyOf [StitchDemo.stray; StitchDemo.exit_; StitchDemo.entry].
Proof.
  destruct (@stitch_partition StitchDemo.sdk StitchDemo.laws StitchDemo.go_case [StitchDemo.stray; StitchDemo.exit_; StitchDemo.entry] StitchDemo.edges
    StitchDemo.opts) as (out & E & Hp & _). exists out. split; [exact E|exact Hp].
Defined.

Lemma joins_exact_witness :
  ∃ fs, stitch_folds [StitchDemo.entry; StitchDemo.stray; StitchDemo.exit_] StitchDemo.edges StitchDemo.opts = Some fs ∧
    ∃ f, f ∈ fs ∧ follows 0 2 (fdPath f).
Proof.
  destruct (@joins_exact StitchDemo.sdk StitchDemo.laws StitchDemo.go_case [StitchDemo.entry; StitchDemo.stray; StitchDemo.exit_] StitchDemo.edges
    StitchDemo.opts StitchDemo.edges_acyclic) as (fs & E & Hj & _). exists fs. split; [exact E|]. apply Hj. split_and!; [cbn; lia|by vm_compute|].
  intros c Hc. cbn in Hc. destruct c as [|[|[|c]]]; [done|by vm_compute|by vm_compute|lia].
Defined.
