(* ===== verification/TraceHops.v ===== *)
(** * Record pages and the hop view ([internal/tracestore/query.go],
      [internal/server/server_trace_timeline.go])

    [QueryRecords] is one keyset page over the table of connection records:
    [Row] has the columns a filter looks at, [row_cmp] is the ordering tuple of
    the primary key, and a cursor is the tuple it encodes (its text form is
    left out).  [handleTraceHops] is the handler behind the hop view, from the
    authorization to the answer, over the rows of the table, the listed nodes
    and the declared chains of StoreState.v; the table does not change while it
    pages. *)

From Stdlib Require Import ZArith Lia Ascii.
From stdpp Require Import gmap strings.
From S2P Require Import Prelude GoStr Rbac StoreState LineChain Stitch.

Local Open Scope Z_scope.

(** ** Pages *)

Definition unix_epoch : time := 62135596800 * second.
(** [t.UTC().UnixNano()] *)
Definition nanos (t : time) : Z := wrap64 (t - unix_epoch).
Definition counterSQL (v : Z) : Z := wrap64 v.

Record Row := mkRow {
  rwRecord : ConnRecord; rwCloseReason : string; rwUserKind : string; rwStalled : bool; rwOpen : bool; rwSessions : list string }.
Record cursor := mkCursor { cuStartedAt : Z; cuNodeID : string; cuCoreGeneration : Z; cuLogID : Z }.
Record Filter := mkTraceFilter {
  tfSince : time; tfUntil : time; tfNodeIDs : list string; tfUserIDs : list string; tfLineUUIDs : list string; tfSessionIDs : list string;
  tfDstContains : string; tfCloseReasons : list string; tfUserKinds : list string; tfOnlyStalled : bool; tfIncludeOpen : bool; tfLimit : Z;
  tfCursor : option cursor }.
Record RecordPage := mkPage { pgRecords : list ConnRecord; pgNextCursor : option cursor }.
Definition DefaultQueryLimit : Z := 200.
Definition MaxQueryLimit : Z := 1000.

(** [inClause]: blank values are dropped, and without a value left there is no
    clause, so no constraint. *)
Definition inClause (values : list string) (column : string) : bool :=
  let args := List.filter (fun v => negb (trim_space v =?? "")) values in
  if (length args =? 0)%nat then true else mem column args.
(** The columns of the ordering tuple. *)
Definition key_of (r : Row) : cursor :=
  mkCursor (nanos (crStartedAt (rwRecord r))) (crNodeID (rwRecord r)) (counterSQL (crCoreGeneration (rwRecord r))) (crLogID (rwRecord r)).
Definition cursor_cmp (a b : cursor) : comparison :=
  match cuStartedAt a ?= cuStartedAt b with
  | Eq => match String.compare (cuNodeID a) (cuNodeID b) with
          | Eq => match cuCoreGeneration a ?= cuCoreGeneration b with
                  | Eq => cuLogID a ?= cuLogID b
                  | c => c
                  end
          | c => c
          end
  | c => c
  end.
(** The text of [haystack] holds [needle], ASCII letters of either case. *)
Fixpoint like (needle haystack : string) : bool :=
  has_prefix (to_lower haystack) (to_lower needle) || match haystack with "" => false | String _ rest => like needle rest end.
Definition where_ (f : Filter) (r : Row) : bool :=
  let rec := rwRecord r in
  (is_zero (tfSince f) || (nanos (tfSince f) <=? nanos (crStartedAt rec))) &&
  (is_zero (tfUntil f) || (nanos (crStartedAt rec) <=? nanos (tfUntil f))) &&
  inClause (tfNodeIDs f) (crNodeID rec) && inClause (tfUserIDs f) (crUserID rec) && inClause (tfLineUUIDs f) (crLineUUID rec) &&
  inClause (tfCloseReasons f) (rwCloseReason r) && inClause (tfUserKinds f) (rwUserKind r) &&
  (let needle := trim_space (tfDstContains f) in (needle =?? "") || like needle (crDstHost rec)) &&
  (negb (tfOnlyStalled f) || rwStalled r) && (tfIncludeOpen f || negb (rwOpen r)) &&
  (let args := List.filter (fun v => negb (trim_space v =?? "")) (tfSessionIDs f) in
   (length args =? 0)%nat || existsb (fun s => mem s args) (rwSessions r)) &&
  match tfCursor f with Some c => match cursor_cmp (key_of r) c with Lt => true | _ => false end | None => true end.
Definition effective_limit (f : Filter) : nat :=
  let limit := if tfLimit f <=? 0 then DefaultQueryLimit else tfLimit f in
  Z.to_nat (if MaxQueryLimit <? limit then MaxQueryLimit else limit).
(** [ORDER BY started_at DESC, node_id DESC, core_generation DESC, log_id DESC] *)
Definition row_order (a b : Row) : comparison := cursor_cmp (key_of b) (key_of a).
Definition QueryRecords (f : Filter) (rows : list Row) : RecordPage :=
  let limit := effective_limit f in
  let got := take (S limit) (stable_sort (fun a b => not_gt (row_order a b)) (List.filter (where_ f) rows)) in
  if (limit <? length got)%nat
  then mkPage (map rwRecord (take limit got)) (key_of <$> (got !! (limit - 1)%nat))
  else mkPage (map rwRecord got) None.
(** [RecordByKey]: the newest of the rows with the key. *)
Definition RecordByKey (nodeID : string) (coreGeneration logID : Z) (startedAt : time) (rows : list Row) : option ConnRecord :=
  rwRecord <$> head (stable_sort (fun a b => nanos (crStartedAt (rwRecord b)) <=? nanos (crStartedAt (rwRecord a)))
    (List.filter (fun r => (crNodeID (rwRecord r) =?? nodeID) && (counterSQL (crCoreGeneration (rwRecord r)) =? counterSQL coreGeneration) &&
       (crLogID (rwRecord r) =? logID) && (is_zero startedAt || (nanos (crStartedAt (rwRecord r)) =? nanos startedAt))) rows)).

(** ** The hop view *)

Record traceNode := mkTraceNode { tnID : string; tnPublicIP : string; tnPublicIPv6 : string }.
Definition visibleNodeIDs (p : Principal) (scope : string) (requested : list string) (nodes : list traceNode) : list string :=
  if (0 <? length requested)%nat then List.filter (fun n => Allows p scope n) requested
  else List.filter (fun n => Allows p scope n) (map tnID nodes).
Definition edge_lt (a b : Edge) : bool :=
  if SourceLineUUID a =?? SourceLineUUID b then not_gt (String.compare (TargetLineUUID a) (TargetLineUUID b))
  else not_gt (String.compare (SourceLineUUID a) (SourceLineUUID b)).
Definition traceChainEdges (definitions : gmap string LineChainDefinition) : list Edge :=
  stable_sort edge_lt (omap (fun kd => let d := kd.2 in
    if (ldSourceLineUUID d =?? "") || (ldTargetLineUUID d =?? "") then None else Some (mkEdge (ldSourceLineUUID d) (ldTargetLineUUID d)))
    (map_to_list definitions)).
Definition traceNodePublicIPs (nodes : list traceNode) : gmap string (list string) :=
  foldl (fun out n =>
    let ips := List.filter (fun ip => negb (ip =?? "")) [trim_space (tnPublicIP n); trim_space (tnPublicIPv6 n)] in
    if (0 <? length ips)%nat then <[tnID n := ips]> out else out) ∅ nodes.
Definition traceHopMaxPages : nat := 20.
Definition with_tfCursor (c : option cursor) (f : Filter) : Filter :=
  mkTraceFilter (tfSince f) (tfUntil f) (tfNodeIDs f) (tfUserIDs f) (tfLineUUIDs f) (tfSessionIDs f) (tfDstContains f) (tfCloseReasons f)
    (tfUserKinds f) (tfOnlyStalled f) (tfIncludeOpen f) (tfLimit f) c.
(** The paging loop: what it collected and whether it reached the end. *)
Fixpoint collect_pages (pages : nat) (f : Filter) (rows : list Row) : list ConnRecord * bool :=
  match pages with
  | O => ([], false)
  | S pages =>
    let got := QueryRecords f rows in
    match pgNextCursor got with
    | None => (pgRecords got, true)
    | Some c => let '(rest, complete) := collect_pages pages (with_tfCursor (Some c) f) rows in (pgRecords got ++ rest, complete)
    end
  end.

Section hops.
Context `{TraceSdk} `{GoCase}.

Inductive hopsReply :=
| HopsForbidden
| HopsBadRequest
| HopsNotFound
| HopsOK (path : HopPath) (records candidates : list ConnRecord) (complete : bool).
(** Later records of one key replace earlier ones in [byKey]. *)
Definition by_key (rs : list ConnRecord) (k : ConnRecordKey) : option ConnRecord :=
  List.find (fun r => KeyOf r =?? k) (reverse rs).
Definition hop_filter (p : Principal) (nodes : list traceNode) (anchor : ConnRecord) : Filter :=
  mkTraceFilter (time_add (crStartedAt anchor) (- DefaultWindow)) (time_add (crStartedAt anchor) DefaultWindow)
    (visibleNodeIDs p "log:read" [] nodes) [] [] [] "" [] [] false true MaxQueryLimit None.
(** The path [Stitch] puts the anchor in, over the records collected. *)
Definition anchor_path (records : list ConnRecord) (edges : list Edge) (opts : Options) (anchor : ConnRecord) : HopPath :=
  default (mkHop "" HopConfidenceNone [KeyOf anchor] [])
    (List.find (fun h => mem (KeyOf anchor) (hpRecordKeys h)) (default [] (Stitch records edges opts))).
Definition handleTraceHops (p : Principal) (nodes : list traceNode) (definitions : gmap string LineChainDefinition) (rows : list Row)
  (node_id : string) (generation log_id : Z) (started_at : time) : hopsReply :=
  if negb (Allows p "log:read" "") then HopsForbidden else
  let nodeID := trim_space node_id in
  if nodeID =?? "" then HopsBadRequest else
  if negb (Allows p "log:read" nodeID) then HopsForbidden else
  match RecordByKey nodeID generation log_id started_at rows with
  | None => HopsNotFound
  | Some anchor =>
    let '(records, complete) := collect_pages traceHopMaxPages (hop_filter p nodes anchor) rows in
    let path := anchor_path records (traceChainEdges definitions) (mkOptions DefaultWindow (traceNodePublicIPs nodes)) anchor in
    HopsOK (mkHop (hpID path) (if complete then hpConfidence path else HopConfidenceAmbiguous) (hpRecordKeys path) (hpCandidates path))
      (omap (by_key records) (hpRecordKeys path)) (omap (by_key records) (hpCandidates path)) complete
  end.
End hops.

(** ** Paging *)

Lemma good_cursor : good_cmp cursor_cmp.
Proof.
  apply (good_lex (fun a b => cuStartedAt a ?= cuStartedAt b) (lex (fun a b => String.compare (cuNodeID a) (cuNodeID b))
    (lex (fun a b => cuCoreGeneration a ?= cuCoreGeneration b) (fun a b => cuLogID a ?= cuLogID b))));
    [apply (good_on cuStartedAt), good_Z|]. apply good_lex; [apply (good_on cuNodeID), good_string|].
  apply good_lex; [apply (good_on cuCoreGeneration), good_Z|apply (good_on cuLogID), good_Z].
Qed.
Lemma cursor_cmp_eq a b : cursor_cmp a b = Eq → a = b.
Proof.
  unfold cursor_cmp. destruct a as [t n g i], b as [t' n' g' i']. cbn. destruct (Z.compare_spec t t'); [|done|done].
  destruct (String.compare n n') eqn:En; [|done|done]. apply String.compare_eq_iff in En. destruct (Z.compare_spec g g'); [|done|done].
  destruct (Z.compare_spec i i'); [|done|done]. by subst.
Qed.
Lemma good_row_order : good_cmp row_order.
Proof.
  destruct good_cursor as [G1 G2 G3]. unfold row_order. split; [intros x y; apply G1|intros x y z Hx Hy; exact (G2 _ _ _ Hy Hx)|].
  intros x y z E%cursor_cmp_eq. by rewrite E.
Qed.
Definition below (c : cursor) (r : Row) : bool := match cursor_cmp (key_of r) c with Lt => true | _ => false end.
(** Rows with their own keys, as the primary key of the table makes them. *)
Definition keyed (rows : list Row) : Prop := NoDup rows ∧ ∀ a b, a ∈ rows → b ∈ rows → key_of a = key_of b → a = b.
Definition matching (f : Filter) (rows : list Row) : list Row := stable_sort (fun a b => not_gt (row_order a b)) (List.filter (where_ f) rows).
Lemma keyed_filter p rows : keyed rows → keyed (List.filter p rows).
Proof.
  intros [Hn Hk]. split; [by apply NoDup_ListNoDup, List.NoDup_filter, NoDup_ListNoDup|]. intros a b.
  rewrite !list_elem_of_In, !filter_In, <- !list_elem_of_In. intros [? _] [? _]. by apply Hk.
Qed.
Lemma keyed_perm rows rows' : rows ≡ₚ rows' → keyed rows → keyed rows'.
Proof. intros Hp [Hn Hk]. split; [by rewrite <- Hp|]. intros a b. rewrite <- !Hp. apply Hk. Qed.
Lemma matching_keyed f rows : keyed rows → keyed (matching f rows).
Proof. intros Hk. eapply keyed_perm; [symmetry; apply stable_sort_perm|by apply keyed_filter]. Qed.
Lemma below_drop l i x : keyed l → StronglySorted (fun a b => not_gt (row_order a b) = true) l → l !! i = Some x →
  List.filter (below (key_of x)) l = drop (S i) l.
Proof.
  revert i. induction l as [|y l IH]; intros i [Hn Hk] Hs Hx; [done|]. apply NoDup_cons in Hn as [Hy Hn].
  apply StronglySorted_inv in Hs as [Hs Hall]. rewrite Forall_forall in Hall.
  assert (keyed l) as Hkl by (split; [done|]; intros a b Ha Hb; apply Hk; by right).
  destruct i as [|i]; cbn in Hx.
  - injection Hx as ->. cbn [List.filter drop]. unfold below at 1.
    assert (cursor_cmp (key_of x) (key_of x) ≠ Lt) as Hrefl.
    { intros E. pose proof (gc_opp _ good_cursor (key_of x) (key_of x)) as Ho. by rewrite E in Ho. }
    assert (List.filter (below (key_of x)) l = l) as ->; [|by destruct (cursor_cmp (key_of x) (key_of x))].
    apply forallb_filter_id, forallb_elem_of. intros z Hz. specialize (Hall z Hz). unfold below, row_order in *.
    destruct (cursor_cmp (key_of z) (key_of x)) eqn:E; [|done|done]. apply cursor_cmp_eq in E. exfalso. apply Hy.
    rewrite <- (Hk z x); [done|by right|by left|done].
  - cbn [List.filter drop]. rewrite (IH i Hkl Hs Hx). unfold below.
    assert (cursor_cmp (key_of y) (key_of x) ≠ Lt) as Hlt; [|by destruct (cursor_cmp (key_of y) (key_of x))].
    intros E. apply list_elem_of_lookup_2 in Hx. specialize (Hall x Hx). unfold row_order in Hall.
    by rewrite (gc_opp _ good_cursor (key_of y) (key_of x)), E in Hall.
Qed.
Lemma where_next f c r x : where_ f x = true → below (key_of x) r = true → c = key_of x →
  where_ (with_tfCursor (Some c) f) r = where_ f r.
Proof.
  intros Hx Hb ->. unfold where_. cbn [with_tfCursor tfSince tfUntil tfNodeIDs tfUserIDs tfLineUUIDs tfSessionIDs tfDstContains tfCloseReasons tfUserKinds
    tfOnlyStalled tfIncludeOpen tfLimit tfCursor]. fold (below (key_of x) r). rewrite Hb. f_equal.
  destruct (tfCursor f) as [c|] eqn:Ec; [|done]. unfold where_ in Hx. rewrite Ec in Hx. apply andb_true_iff in Hx as [_ Hx].
  unfold below in Hb. destruct (cursor_cmp (key_of r) (key_of x)) eqn:E1; [done| |done]. destruct (cursor_cmp (key_of x) c) eqn:E2; [done| |done].
  pose proof (gc_trans _ good_cursor (key_of r) (key_of x) c) as Ht. rewrite E1, E2 in Ht. specialize (Ht eq_refl eq_refl).
  destruct (cursor_cmp (key_of r) c) eqn:E3; [|done|done]. apply cursor_cmp_eq in E3. rewrite <- E3, (gc_opp _ good_cursor (key_of r) (key_of x)), E1 in E2. done.
Qed.
Lemma elem_of_matching f rows x : x ∈ matching f rows ↔ x ∈ rows ∧ where_ f x = true.
Proof.
  unfold matching. rewrite (stable_sort_perm (fun a b => not_gt (row_order a b))), list_elem_of_In, filter_In, <- list_elem_of_In. done.
Qed.
Lemma filter_permutation {A} (p : A → bool) l k : l ≡ₚ k → List.filter p l ≡ₚ List.filter p k.
Proof.
  induction 1 as [|x l k _ IH|x y l|l k m _ IH1 _ IH2]; cbn; [done|destruct (p x); by rewrite IH|destruct (p x), (p y); try done; constructor|by rewrite IH1].
Qed.
Lemma matching_next f rows i x : keyed rows → matching f rows !! i = Some x →
  matching (with_tfCursor (Some (key_of x)) f) rows = drop (S i) (matching f rows).
Proof.
  intros Hk Hx. pose proof (matching_keyed f rows Hk) as Hkm. pose proof (sorted_by row_order (List.filter (where_ f) rows) good_row_order) as Hs.
  rewrite <- (below_drop (matching f rows) i x Hkm Hs Hx).
  assert (where_ f x = true) as Hwx by (by apply list_elem_of_lookup_2, elem_of_matching in Hx as [_ ?]).
  assert (List.filter (where_ (with_tfCursor (Some (key_of x)) f)) rows = List.filter (below (key_of x)) (List.filter (where_ f) rows)) as E.
  { rewrite filter_filter_andb. apply filter_ext_all. intros r. destruct (below (key_of x) r) eqn:Eb.
    - by rewrite andb_true_r, (where_next f _ r x).
    - rewrite andb_false_r. unfold where_. cbn [with_tfCursor tfCursor]. fold (below (key_of x) r). by rewrite Eb, andb_false_r. }
  apply (sorted_unique row_order); [apply good_row_order| | |apply sorted_by, good_row_order|].
  - intros a b [Ha _]%elem_of_matching [Hb _]%elem_of_matching Ec%cursor_cmp_eq. by apply (proj2 Hk).
  - unfold matching at 1. rewrite (stable_sort_perm (fun a b => not_gt (row_order a b))), E.
    symmetry. apply filter_permutation, stable_sort_perm.
  - unfold matching. clear -Hs. induction Hs as [|y l Hl IH Hy]; cbn [List.filter]; [constructor|]. destruct (below _ y); [|done]. constructor; [done|].
    rewrite Forall_forall in *. intros z Hz. apply Hy. rewrite list_elem_of_In, filter_In in Hz. apply list_elem_of_In. exact (proj1 Hz).
Qed.

(** C34. Paging reads each matching record once: on a table whose rows have
    their own primary keys, the pages a caller gets by following the cursors
    are the matching records, newest first, cut into pages of the limit; the
    loop says it is complete exactly when the pages it may take hold them
    all. *)
Theorem pages_exact pages f rows : keyed rows → (0 < pages)%nat →
  collect_pages pages f rows =
    (map rwRecord (take (pages * effective_limit f) (matching f rows)), bool_decide (length (matching f rows) <= pages * effective_limit f)%nat).
Proof.
  intros Hk. assert (0 < effective_limit f)%nat as Hlim.
  { unfold effective_limit, MaxQueryLimit, DefaultQueryLimit. destruct (Z.leb_spec (tfLimit f) 0); [cbn; lia|]. destruct (Z.ltb_spec 1000 (tfLimit f)); lia. }
  set (limit := effective_limit f) in *. revert Hlim. remember (effective_limit f) as lim eqn:El in limit. subst limit. revert f El.
  induction pages as [|pages IH]; intros f El Hlim Hp; [lia|]. cbn [collect_pages]. unfold QueryRecords. rewrite <- El.
  fold (matching f rows). set (M := matching f rows). destruct (Nat.ltb_spec lim (length (take (S lim) M))) as [Hlong|Hshort].
  - rewrite length_take in Hlong. cbn [pgNextCursor pgRecords]. rewrite lookup_take_lt by lia.
    destruct (lookup_lt_is_Some_2 M (lim - 1)) as [x Hx]; [lia|]. rewrite Hx. cbn [fmap option_fmap option_map].
    rewrite take_take, Nat.min_l by lia.
    assert (matching (with_tfCursor (Some (key_of x)) f) rows = drop lim M) as Em.
    { rewrite (matching_next f rows (lim - 1) x Hk Hx). fold M. f_equal. lia. }
    destruct pages as [|pages]; [cbn [collect_pages]; rewrite app_nil_r, Nat.mul_1_l, bool_decide_eq_false_2 by lia; done|].
    rewrite (IH (with_tfCursor (Some (key_of x)) f)) by (done || lia). rewrite Em, length_drop. f_equal.
    + rewrite <- map_app. f_equal. rewrite <- (take_drop lim M) at 3. rewrite take_app_ge by (rewrite length_take; lia). f_equal.
      rewrite length_take, Nat.min_l by lia. f_equal. lia.
    + apply bool_decide_ext. lia.
  - rewrite length_take in Hshort. cbn [pgNextCursor pgRecords]. rewrite take_ge by lia. rewrite bool_decide_eq_true_2 by nia.
    rewrite take_ge by nia. done.
Qed.

(** ** Who sees what *)

Section hop_theorems.
Context `{TraceSdk} `{GoCase}.

Lemma collected_in pages rows r : ∀ f, r ∈ (collect_pages pages f rows).1 →
  ∃ row, row ∈ rows ∧ rwRecord row = r ∧ inClause (tfNodeIDs f) (crNodeID r) = true.
Proof.
  induction pages as [|pages IH]; intros f; cbn [collect_pages]; [by intros ?%elem_of_nil|].
  assert (r ∈ pgRecords (QueryRecords f rows) → ∃ row, row ∈ rows ∧ rwRecord row = r ∧ inClause (tfNodeIDs f) (crNodeID r) = true) as Hpage.
  { intros Hr. assert (∃ row, row ∈ matching f rows ∧ rwRecord row = r) as (row & [Hin Hw]%elem_of_matching & <-).
    { unfold QueryRecords in Hr. fold (matching f rows) in Hr. destruct (_ <? _)%nat in Hr; cbn [pgRecords] in Hr;
        apply list_elem_of_fmap in Hr as (row & -> & Hrow); exists row; (split; [|done]);
        repeat (apply elem_of_take in Hrow as (? & Hrow & _); apply list_elem_of_lookup_2 in Hrow); done. }
    exists row. split; [done|]. split; [done|]. unfold where_ in Hw. rewrite !andb_true_iff in Hw. tauto. }
  destruct (pgNextCursor (QueryRecords f rows)) as [c|]; [|exact Hpage].
  specialize (IH (with_tfCursor (Some c) f)). destruct (collect_pages pages (with_tfCursor (Some c) f) rows) as [rest complete]. cbn [fst] in *.
  intros [Hr|Hr]%elem_of_app; [by apply Hpage|by apply IH].
Qed.
Lemma by_key_in rs k r : by_key rs k = Some r → r ∈ rs.
Proof. unfold by_key. intros [Hin _]%List.find_some. by rewrite <- list_elem_of_In, elem_of_reverse in Hin. Qed.
Lemma visible_in p scope nodes n : inClause (visibleNodeIDs p scope [] nodes) n = true →
  (∃ m, m ∈ nodes ∧ trim_space (tnID m) ≠ "" ∧ Allows p scope (tnID m) = true) → Allows p scope n = true.
Proof.
  unfold inClause, visibleNodeIDs. cbn [length Nat.ltb Nat.leb]. set (args := List.filter _ (List.filter _ _)).
  intros Hn (m & Hm & Hb & Ha). assert (tnID m ∈ args) as Hin.
  { unfold args. rewrite list_elem_of_In, !filter_In, <- list_elem_of_In. split_and!; [|done|by rewrite bool_decide_eq_false_2].
    apply list_elem_of_fmap. eauto. }
  destruct args as [|a l] eqn:Eargs; [by apply elem_of_nil in Hin|]. cbn [length Nat.eqb] in Hn. apply mem_spec in Hn.
  rewrite <- Eargs in Hn. unfold args in Hn. by rewrite list_elem_of_In, !filter_In in Hn; destruct Hn as [[_ ?] _].
Qed.

(** C23. The hop view shows nothing of nodes the caller may not read: for a
    caller who may read the logs of at least one listed node, every record in
    the answer, on the path or among the candidates, is of a node the caller
    may read. *)
Theorem hops_confined p nodes definitions rows node_id generation log_id started_at path records candidates complete :
  (∃ n, n ∈ nodes ∧ trim_space (tnID n) ≠ "" ∧ Allows p "log:read" (tnID n) = true) →
  handleTraceHops p nodes definitions rows node_id generation log_id started_at = HopsOK path records candidates complete →
  ∀ r, r ∈ records ++ candidates → Allows p "log:read" (crNodeID r) = true.
Proof.
  intros Hvis. unfold handleTraceHops. destruct (negb (Allows p "log:read" "")); [done|]. cbv zeta.
  destruct (trim_space node_id =?? ""); [done|]. destruct (negb (Allows p "log:read" (trim_space node_id))); [done|].
  destruct (RecordByKey _ _ _ _ _) as [anchor|]; [|done].
  pose proof (collected_in traceHopMaxPages rows) as Hin. destruct (collect_pages traceHopMaxPages (hop_filter p nodes anchor) rows) as [rs c] eqn:Ec.
  intros [= _ <- <- _] r Hr. assert (r ∈ rs) as Hrs.
  { apply elem_of_app in Hr as [Hr|Hr]; apply list_elem_of_omap in Hr as (k & _ & Hk); by apply by_key_in in Hk. }
  destruct (Hin r (hop_filter p nodes anchor)) as (_ & _ & _ & Hclause); [by rewrite Ec|]. by apply (visible_in p "log:read" nodes).
Qed.

(** The declared edges have no cycle when the store keeps its chains acyclic
    and under identifiers without surrounding space. *)
Lemma declared_edges_acyclic st : lc_inv st →
  (∀ k d, LineChainDefinitions st !! k = Some d →
     ldSourceLineUUID d = k ∧ trim_space k = k ∧ trim_space (ldTargetLineUUID d) = ldTargetLineUUID d) →
  ∀ l, ¬ tc (fun a b => mkEdge a b ∈ buildEdgeSet (traceChainEdges (LineChainDefinitions st))) l l.
Proof.
  intros Hinv Hk l Hl. apply (inv_acyclic st Hinv l). eapply tc_mono; [|exact Hl]. intros a b He. left.
  unfold buildEdgeSet in He. rewrite elem_of_list_to_set, list_elem_of_omap in He. destruct He as (e & He & Hab).
  unfold traceChainEdges in He. rewrite (stable_sort_perm edge_lt), list_elem_of_omap in He. destruct He as ([k d] & Hd%elem_of_map_to_list & E). cbn in E.
  destruct (_ || _) eqn:Eb in E; [done|]. injection E as <-. cbn [SourceLineUUID TargetLineUUID] in Hab. destruct (Hk k d Hd) as (Hs & Ht & Ht').
  rewrite Hs, Ht, Ht' in Hab. destruct (_ || _ || _) eqn:Ec in Hab; [done|]. injection Hab as -> <-. exists d. split_and!; try done.
  go_bool. tauto.
Qed.
End hop_theorems.

(** ** Examples *)

Module HopsDemo.
Definition with_line (source target : string) : LineChainDefinition :=
  mkDefinition source "" "" "" target "" "" "" "" "" "" "" "" "" "" "" "" "" "" "" "" 0 0 0 0.
Definition at_ms (ms : Z) : time := unix_epoch + 1000 * second + ms * 1000000.
Definition conn (node line src : string) (id ms : Z) : ConnRecord := mkConn node 1 id (at_ms ms) line "" src "example.org" 443.
Definition row (r : ConnRecord) : Row := mkRow r "" "" false false [].
Definition chains : gmap string LineChainDefinition := {[ "l1" := with_line "l1" "l2"; "l2" := with_line "l2" "l3" ]}.
Definition node (id ip : string) : traceNode := mkTraceNode id ip "".
Definition reader (nodes : list string) : Principal := mkPrincipal "op" "" ["log:read"] nodes.
Definition records_of (r : @hopsReply StitchDemo.sdk) : list ConnRecord := match r with HopsOK _ rs cs _ => rs ++ cs | _ => [] end.
Definition confidence_of (r : @hopsReply StitchDemo.sdk) : string := match r with HopsOK h _ _ c => hpConfidence h +:+ (if c then " complete" else " partial") | _ => "" end.

(** A flow from node a to node b, which has been deleted since. *)
Definition entry : ConnRecord := conn "a" "l1" "192.0.2.9" 7 0.
Definition exit_ : ConnRecord := conn "b" "l2" "198.51.100.1" 9 40.
Definition table : list Row := [row entry; row exit_].

(** Three hops, and a second connection the middle hop may have gone on to,
    within its window and outside the anchor's. *)
Definition first : ConnRecord := conn "a" "l1" "192.0.2.9" 1 0.
Definition second_ : ConnRecord := conn "b" "l2" "198.51.100.1" 2 2000.
Definition third : ConnRecord := conn "c" "l3" "198.51.100.2" 3 2900.
Definition other : ConnRecord := conn "c" "l3" "198.51.100.2" 4 4000.
Definition busy : list Row := map row [first; second_; third; other].
Definition fleet : list traceNode := [node "a" "198.51.100.1"; node "b" "198.51.100.2"; node "c" "198.51.100.3"].
Lemma table_keyed : keyed table.
Proof.
  split.
  - unfold table. apply NoDup_cons. split; [|apply NoDup_singleton]. rewrite list_elem_of_singleton. discriminate.
  - intros x y [->|[->|[]%elem_of_nil]%elem_of_cons]%elem_of_cons [->|[->|[]%elem_of_nil]%elem_of_cons]%elem_of_cons E; try done; vm_compute in E; discriminate.
Qed.
End HopsDemo.

#[local] Existing Instance StitchDemo.sdk.
#[local] Existing Instance StitchDemo.go_case.

(** Without a listed node to read, the hop view has no bound at all: a
    caller whose allowlist names only a deleted node asks for a connection
    that node recorded, and is shown the record of another node the caller
    may not read. *)
Theorem hops_leak_after_delete :
  let p := HopsDemo.reader ["b"] in
  let answer := handleTraceHops p [HopsDemo.node "a" "198.51.100.1"] HopsDemo.chains HopsDemo.table "b" 1 9 0 in
  Allows p "log:read" "a" = false ∧ HopsDemo.entry ∈ HopsDemo.records_of answer ∧ crNodeID HopsDemo.entry = "a".
Proof. cbv zeta. split_and!; [done| |done]. apply (bool_decide_unpack _). by vm_compute. Qed.

(** The hop view calls a fork a join: the records are read up to three
    seconds after the anchor, but a later hop may go on for three seconds
    more, so an answer that calls itself complete follows one of two
    connections the flow may have taken, where the whole table leaves the hop
    open. *)
Theorem hop_window_hides_fork :
  let p := HopsDemo.reader [] in
  HopsDemo.confidence_of (handleTraceHops p HopsDemo.fleet HopsDemo.chains HopsDemo.busy "a" 1 1 0) = "inferred complete" ∧
  HopsDemo.records_of (handleTraceHops p HopsDemo.fleet HopsDemo.chains HopsDemo.busy "a" 1 1 0) = [HopsDemo.first; HopsDemo.second_; HopsDemo.third] ∧
  (hpConfidence <$> (Stitch (map rwRecord HopsDemo.busy) (traceChainEdges HopsDemo.chains)
    (mkOptions DefaultWindow (traceNodePublicIPs HopsDemo.fleet)) ≫= head)) = Some "ambiguous".
Proof. cbv zeta. split_and!; by vm_compute. Qed.

Lemma pages_exact_witness :
  collect_pages 1 (hop_filter (HopsDemo.reader []) HopsDemo.fleet HopsDemo.exit_) HopsDemo.table = ([HopsDemo.exit_; HopsDemo.entry], true).
Proof.
  rewrite (pages_exact 1 (hop_filter (HopsDemo.reader []) HopsDemo.fleet HopsDemo.exit_) HopsDemo.table HopsDemo.table_keyed); [by vm_compute|lia].
Defined.

Definition fleet_answer : hopsReply := handleTraceHops (HopsDemo.reader ["a"; "b"]) HopsDemo.fleet HopsDemo.chains HopsDemo.busy "a" 1 1 0.
Lemma hops_confined_witness :
  HopsDemo.records_of fleet_answer = [HopsDemo.first; HopsDemo.second_] ∧
  ∀ r, r ∈ HopsDemo.records_of fleet_answer → Allows (HopsDemo.reader ["a"; "b"]) "log:read" (crNodeID r) = true.
Proof.
  split; [by vm_compute|]. destruct fleet_answer as [| | |path records candidates complete] eqn:E; try (vm_compute in E; discriminate).
  apply (hops_confined (HopsDemo.reader ["a"; "b"]) HopsDemo.fleet HopsDemo.chains HopsDemo.busy "a" 1 1 0 path records candidates complete); [|exact E].
  exists (HopsDemo.node "a" "198.51.100.1"). split_and!; [by left|by vm_compute|by vm_compute].
Defined.
