(* ===== verification/TaskLeases.v ===== *)
(** * Task delivery (internal/store/store.go, task_attempts.go, guard_writers.go)

    A poll of one node: redelivery of durable leases, fresh leases, the
    re-lease limit, the guard-owner check, the line-chain first-lease check,
    and the commit.  Decoders of plan texts and payloads are the class
    [LeaseEnv]; the clock, the random tokens, the validator of the caller and
    the outcome of the write are arguments. *)

From Stdlib Require Import ZArith Lia.
From S2P Require Import Prelude GoStr Sha Versions Groups StoreState Tasks LineChain.

Local Open Scope Z_scope.

Definition GuardWriterNetGuard : string := "netguard".
Definition GuardWriterBeacon : string := "beacon".
Definition GuardWriterSelfDNS : string := "selfdns".
Definition GuardWriterLegacyFirewall : string := "legacy_firewall".
Definition NetGuardApplyAction : string := "apply-ruleset:netguard-v1".
Definition ApprovalStaleGuardOwnerChanged : string := "guard_owner_changed".
Definition DurableProtocolNetGuardV1 : string := "netguard-v1".
Definition DurableProtocolLineChainV2 : string := "linechain-e3-v2".
Definition AgentUpdatePlugin : string := "agentupdate".
Definition AgentUpdateActionPrefix : string := "update-agent:".

Record BeaconPlan := mkBeaconPlan { bpKind : string; bpNodeID : string; bpNetGuard : option string }.

(** Decoders of the plan formats: [selfdns.ParseApprovalPlan] (its ruleset),
    [selfdns.DeploymentIDOf], the JSON of a beacon plan and of an agent-update
    payload, the SDK's names of the beacon plugin, and the order in which a
    map of group bindings is ranged over. *)
Class LeaseEnv := {
  parseSelfDNSPlan : string → option string;
  selfDNSDeploymentID : string → option string;
  parseBeaconPlan : string → option BeaconPlan;
  decodeUpdatePayload : string → option string;
  BeaconApprovalPlugin : string;
  BeaconPlanKind : string;
  rangeBindings : gmap string (list string) → list (string * list string);
}.

(** ** Writers of the guard table *)

Record GuardWrite := mkGuardWrite { gwKind : string; gwRuleset : string }.
Definition NetGuardSide (w : GuardWrite) : bool :=
  (gwKind w =?? GuardWriterNetGuard) || (gwKind w =?? GuardWriterBeacon).

Record GuardWriterTask := mkWriterTask {
  wtApprovalID : string; wtTaskID : string; wtKind : string; wtLeased : bool; wtRerun : bool }.
Record GuardSupersession := mkSupersession {
  gsNodeID : string; gsApprovalID : string; gsTaskID : string; gsKind : string; gsReason : string;
  gsActorID : string; gsTokenID : string; gsAt : time }.

(** [utf8.RuneStart]: not a continuation byte. *)
Definition runeStart (c : Ascii.ascii) : bool := negb ((128 <=? code c) && (code c <? 192)).
Fixpoint back_to_rune (s : string) (n : nat) : nat :=
  match n with
  | O => O
  | S m => match String.get n s with
           | Some c => if runeStart c then n else back_to_rune s m
           | None => n
           end
  end.
Definition truncateRunes (s : string) (n : nat) : string :=
  if (String.length s <=? n)%nat then s else str_take (back_to_rune s n) s.

Section Delivery.
Context {sdk : Sdk} {env : LeaseEnv}.

Definition GuardWriteOf (a : Approval) : option GuardWrite :=
  if aPlugin a =?? "nft" then
    if aAction a =?? NetGuardApplyAction then Some (mkGuardWrite GuardWriterNetGuard (aPlan a))
    else Some (mkGuardWrite GuardWriterLegacyFirewall (aPlan a))
  else if aPlugin a =?? "selfdns" then
    match parseSelfDNSPlan (aPlan a) with
    | None => Some (mkGuardWrite GuardWriterSelfDNS "")
    | Some ruleset => if ruleset =?? "" then None else Some (mkGuardWrite GuardWriterSelfDNS ruleset)
    end
  else if aPlugin a =?? BeaconApprovalPlugin then
    if negb (aAction a =?? BeaconPlanKind) then None else
    match parseBeaconPlan (aPlan a) with
    | None => None
    | Some plan =>
      if negb (bpKind plan =?? BeaconPlanKind) || negb (bpNodeID plan =?? aNodeID a) then None else
      match bpNetGuard plan with None => None | Some r => Some (mkGuardWrite GuardWriterBeacon r) end
    end
  else None.

(** [(approval, write, rerun, ok)] of the source; [None] is [ok = false] with
    zero values, except that a known approval that writes nothing keeps its
    approval. *)
Definition guardWriteOfTaskLocked (st : State) (t : Task) : Approval * GuardWrite * bool * bool :=
  let none := (zero_approval, mkGuardWrite "" "", false, false) in
  let rerun := (tApprovalID t =?? "") && negb (RerunOfTaskID t =?? "") in
  let approvalID :=
    if rerun then match Tasks st !! RerunOfTaskID t with Some o => tApprovalID o | None => "" end
    else tApprovalID t in
  if approvalID =?? "" then none else
  match Approvals st !! approvalID with
  | None => none
  | Some a =>
    if negb rerun && negb (aStatus a =?? ApprovalApproved) then none else
    match GuardWriteOf a with
    | Some w => (a, w, rerun, true)
    | None => (a, mkGuardWrite "" "", rerun, false)
    end
  end.

Definition netGuardCoverageLocked (st : State) (nodeID : string) : bool * string :=
  let managed := match GuardBindings st !! nodeID with Some b => Managed b | None => false end in
  match Nodes st !! nodeID with
  | None => (managed, "")
  | Some node =>
    (managed, foldl (fun viaGroup '(groupID, securityGroupIDs) =>
      match securityGroupIDs with
      | [] => viaGroup
      | _ =>
        match stGroups st !! groupID with
        | None => viaGroup
        | Some g =>
          if negb (Contains g (snNode node)) then viaGroup
          else if (viaGroup =?? "") || (String.ltb (GroupName g) viaGroup) then GroupName g else viaGroup
        end
      end) "" (rangeBindings (NodeGroupGuardBindings st)))
  end.

(** Oldest first, ties by id. *)
Definition task_le (x y : string * Task) : Prop :=
  tCreatedAt x.2 < tCreatedAt y.2 ∨ (tCreatedAt x.2 = tCreatedAt y.2 ∧ String.le (tID x.2) (tID y.2)).
#[global] Instance task_le_dec x y : Decision (task_le x y).
Proof. unfold task_le. apply _. Defined.
Definition sortTasks (l : list (string * Task)) : list (string * Task) := merge_sort task_le l.

Definition guardWritersInFlightLocked (st : State) (nodeID : string) (now : time) (deadline : duration) :
    list GuardWriterTask :=
  let tasks := List.filter (fun '(_, t) =>
    (negb (tApprovalID t =?? "") || negb (RerunOfTaskID t =?? "")) &&
    taskTargetAwaitingResult t nodeID (Results st) (TaskResultReceipts st) (TaskTargetStates st) now deadline)
    (map_to_list (Tasks st)) in
  omap (fun '(_, t) =>
    let '(a, w, rerun, ok) := guardWriteOfTaskLocked st t in
    if negb ok || (negb rerun && negb (aNodeID a =?? nodeID)) then None else
    let leased := match taskTargetLeaseStart t nodeID with
                  | Some start => negb (taskLeaseExpiredAt start (TimeoutSec t) now)
                  | None => false
                  end in
    Some (mkWriterTask (aID a) (tID t) (gwKind w) leased rerun)) (sortTasks tasks).

Definition supersedeManaged : string :=
  "NetGuard took over this node's firewall after this plan was approved, and it is the only writer of lattice_guard there, so the task was not run; plan the change in NetGuard".
Definition supersedeGroup : string :=
  "this node joined a node group whose security groups NetGuard applies, so this plan, approved before that, was not run; adopt the node in NetGuard or take it out of the group, then plan again".
Definition supersedeRerun : string :=
  "a NetGuard apply is not rerun from its stored script, which would replace the table with an old compile; plan the node again".
Definition supersedeBeacon : string :=
  "NetGuard no longer manages this node, so the beacon plan's NetGuard rules were not applied; plan the beacon again".

(** [(supersede, hold)] *)
Definition guardOwnerAtLeaseLocked (st : State) (t : Task) (nodeID : string) (now : time) (deadline : duration) :
    string * bool :=
  let '(_, w, rerun, ok) := guardWriteOfTaskLocked st t in
  if negb ok then ("", false) else
  let '(managed, viaGroup) := netGuardCoverageLocked st nodeID in
  if negb (NetGuardSide w) && managed then (supersedeManaged, false)
  else if negb (NetGuardSide w) && negb (viaGroup =?? "") then (supersedeGroup, false)
  else if NetGuardSide w && rerun then (supersedeRerun, false)
  else if (gwKind w =?? GuardWriterBeacon) && negb managed then (supersedeBeacon, false)
  else ("", existsb (fun other =>
    negb (wtTaskID other =?? tID t) && wtLeased other &&
    negb (Bool.eqb (NetGuardSide (mkGuardWrite (wtKind other) "")) (NetGuardSide w)))
    (guardWritersInFlightLocked st nodeID now deadline)).

(** ** Superseded agent updates *)

Definition agentUpdateTargetVersion (a : Approval) : option string :=
  if negb (has_prefix (aAction a) AgentUpdateActionPrefix) then None else
  match decodeUpdatePayload (trim_prefix (aAction a) AgentUpdateActionPrefix) with
  | None => None
  | Some v => let v := trim_space v in if v =?? "" then None else Some v
  end.

Definition newestCandidate (target : string) (newest candidate : string) : string :=
  let candidate := trim_space candidate in
  if candidate =?? "" then newest else
  match CompareAgentVersions target candidate with
  | None => newest
  | Some c =>
    if 0 <=? c then newest
    else if newest =?? "" then candidate
    else match CompareAgentVersions candidate newest with
         | Some c => if 0 <? c then candidate else newest
         | None => newest
         end
  end.

Definition agentUpdateSuperseded (st : State) (t : Task) (nodeID : string) : option string :=
  if tApprovalID t =?? "" then None else
  match Approvals st !! tApprovalID t with
  | None => None
  | Some a =>
    if negb (aPlugin a =?? AgentUpdatePlugin) then None else
    match agentUpdateTargetVersion a with
    | None => None
    | Some target =>
      let reported := match Nodes st !! nodeID with Some n => AgentVersion n | None => "" end in
      let applied := default "" (LastAppliedVersions st !! nodeID) in
      let newest := foldl (newestCandidate target) "" [reported; applied] in
      if newest =?? "" then None else Some ("superseded by " +:+ newest)
    end
  end.

(** ** Delivery *)

Record TaskDelivery := mkDelivery { dvTask : Task; DurableResult : bool; DurableProtocol : string }.

Inductive leaseError := LeaseConflict | LeaseToken | LeaseAudit | LeaseNotDurable | LeasePersist.

(** The validator of the caller: an error text, or none. *)
Definition validator : Type := State → Approval → LineChainAttempt → Task → option string.

Record poll := mkPoll {
  plNode : string; plLimit : Z; plPlugin : string; plAction : string;
  plAllowed : bool; plLineChainAllowed : bool; plValidate : option validator;
  plNow : time; plClock : time; plDeadline : duration;
}.

(** What the closures of the source share. *)
Record acc := mkAcc {
  staged : State;
  out : list TaskDelivery;
  stateChanged : bool;
  lineChainStaled : gset string;
  lineChainAuditErr : bool;
  superseded : list GuardSupersession;
  tokens : list (option string);
}.
Definition with_staged (s : State) (c : acc) : acc :=
  mkAcc s (out c) (stateChanged c) (lineChainStaled c) (lineChainAuditErr c) (superseded c) (tokens c).
Definition changed_ (c : acc) : acc :=
  mkAcc (staged c) (out c) true (lineChainStaled c) (lineChainAuditErr c) (superseded c) (tokens c).

Definition gated (pl : poll) (st : State) (t : Task) : string * bool :=
  if (plPlugin pl =?? "") || (plAction pl =?? "") || (tApprovalID t =?? "") then ("", true) else
  match Approvals st !! tApprovalID t with
  | None => ("", false)
  | Some a =>
    if lineChainApproval a then
      (DurableProtocolLineChainV2,
       plLineChainAllowed pl && (aStatus a =?? ApprovalApproved) && (aNodeID a =?? plNode pl) &&
       match LineChainAttempts st !! aID a with
       | Some at_ => (laStatus at_ =?? LineChainStatusApplying) && (laSourceNodeID at_ =?? plNode pl)
       | None => false
       end)
    else if negb (aPlugin a =?? plPlugin pl) || negb (aAction a =?? plAction pl) then ("", true)
    else
      (DurableProtocolNetGuardV1,
       plAllowed pl && (aStatus a =?? ApprovalApproved) && (aNodeID a =?? plNode pl) &&
       match GuardBindings st !! plNode pl with
       | Some b => equal_fold (LastPlanSHA b) (sha256_hex (aPlan a))
       | None => false
       end)
  end.

(** Redelivery of leases of the durable protocols. *)
Fixpoint redeliver (pl : poll) (st : State) (ids : list (string * Task)) (out : list TaskDelivery) :
    res leaseError (list TaskDelivery) :=
  match ids with
  | [] => Ok out
  | (_, t) :: ids =>
    if plLimit pl <=? Z.of_nat (length out) then Ok out else
    let '(protocol, current) := gated pl st t in
    if (protocol =?? "") || negb current ||
       negb (taskTargetAwaitingResult t (plNode pl) (Results st) (TaskResultReceipts st)
               (TaskTargetStates st) (plNow pl) (plDeadline pl))
    then redeliver pl st ids out else
    let single :=
      if (LeasedBy t =?? plNode pl) && negb (tLeaseID t =?? "")
      then redeliver pl st ids (out ++ [mkDelivery (with_tStatus TaskLeased t) true protocol])
      else redeliver pl st ids out in
    match TargetLeases t !! plNode pl with
    | Some lease =>
      if leLeaseID lease =?? "" then single else
      if (protocol =?? DurableProtocolLineChainV2) &&
         (let a := default zero_attempt (LineChainAttempts st !! tApprovalID t) in
          let ap := default zero_approval (Approvals st !! tApprovalID t) in
          negb (laIssuedTaskID a =?? tID t) || negb (laIssuedLeaseID a =?? leLeaseID lease) ||
          negb (laIssuedScriptSHA256 a =?? sha256_hex (Script t)) ||
          negb (laIssuedArtifactSHA256 a =?? aArtifactDigest ap))
      then Err LeaseConflict
      else
        let redelivered := with_tStartedAt (leStartedAt lease) (with_LeasedBy (plNode pl)
          (with_tLeaseID (leLeaseID lease) (with_tStatus TaskLeased t))) in
        redeliver pl st ids (out ++ [mkDelivery redelivered true protocol])
    | None => single
    end
  end.

Definition lineChainFirstLeaseFailureAudit (ap : Approval) (task : Task) (at_ : time) (reason : string) :
    AuditEvent :=
  let code := "line_chain_inputs_changed" in
  let nul := str1 (byte_of 0) in
  let digest := sha256_hex ("failed" +:+ nul +:+ aID ap +:+ nul +:+ tID task +:+ nul +:+ code) in
  mkAuditEvent ("audit_linechain_" +:+ str_take 32 digest) at_ (tActorID task) (tTokenID task) (aNodeID ap)
    "linechain.failed" "network:apply" "deny" reason
    {["approval_id" := aID ap; "task_id" := tID task; "artifact_sha256" := aArtifactDigest ap;
      "error_code" := code]}.

Definition staleLineChain (pl : poll) (t : Task) (cause : string) (c : acc) : acc :=
  let s := staged c in
  let ap := default zero_approval (Approvals s !! tApprovalID t) in
  let ap := with_aUpdatedAt (plNow pl) (with_aReason "line chain inputs changed after approval"
    (with_aStaleCode "line_chain_inputs_changed" (with_aStale true (with_aStatus ApprovalRejected ap)))) in
  let t := with_tStatus TaskCancelled t in
  let a := default zero_attempt (LineChainAttempts s !! tApprovalID t) in
  let a := with_laLastError (str_take 512 cause) (with_laUpdatedAt (plNow pl)
    (with_laLastErrorCode "line_chain_inputs_changed" (with_laStatus LineChainStatusFailed a))) in
  let s := with_LineChainAttempts (<[tApprovalID t := a]> (LineChainAttempts s))
    (with_Tasks (<[tID t := t]> (Tasks s)) (with_Approvals (<[aID ap := ap]> (Approvals s)) s)) in
  match stageLineChainAuditEvidence s s [lineChainFirstLeaseFailureAudit ap t (plNow pl) (laLastError a)] with
  | Err _ => mkAcc s (out c) (stateChanged c) (lineChainStaled c) true (superseded c) (tokens c)
  | Ok s =>
    mkAcc (with_LineChainGraphRevision (wrapu64 (LineChainGraphRevision s + 1)) s) (out c) true
      ({[tID t]} ∪ lineChainStaled c) (lineChainAuditErr c) (superseded c) (tokens c)
  end.

Definition supersedeGuardWriter (pl : poll) (t : Task) (reason : string) (c : acc) : acc :=
  let s := staged c in
  let '(ap, w, rerun, _) := guardWriteOfTaskLocked s t in
  let s :=
    if rerun then s else
    let ap := with_aUpdatedAt (plNow pl) (with_aReason (truncateRunes reason 240)
      (with_aStaleCode ApprovalStaleGuardOwnerChanged (with_aStale true (with_aStatus ApprovalRejected ap)))) in
    let s := with_Approvals (<[aID ap := ap]> (Approvals s)) s in
    match selfDNSDeploymentID (aAction ap) with
    | Some depID =>
      if negb (aPlugin ap =?? "selfdns") then s else
      match DNSDeployments s !! depID with
      | Some dep =>
        if dnStatus dep =?? DNSStatusApplying
        then with_DNSDeployments
               (<[depID := mkDNSDeployment DNSStatusFailed (aReason ap) (plNow pl)]> (DNSDeployments s)) s
        else s
      | None => s
      end
    | None => s
    end in
  let t := with_tFinishedAt (plNow pl) (with_tStatus TaskCancelled t) in
  mkAcc (with_Tasks (<[tID t := t]> (Tasks s)) s) (out c) true (lineChainStaled c) (lineChainAuditErr c)
    (superseded c ++ [mkSupersession (plNode pl) (aID ap) (tID t) (gwKind w) reason (tActorID t) (tTokenID t)
                        (plNow pl)])
    (tokens c).

(** The first-lease check of a line-chain task: the error text, or none. *)
Definition firstLeaseError (pl : poll) (st : State) (c : acc) (t : Task) : option string :=
  let s := staged c in
  let a := default zero_attempt (LineChainAttempts s !! tApprovalID t) in
  let d := definitionOf s (laSourceLineUUID a) in
  if negb (ldGeneration d =? laBaseGeneration a) || negb (ldArtifactSHA256 d =?? laBaseArtifactSHA256 a) ||
     lineChainGraphHasCycle (LineChainDefinitions s) (LineChainAttempts s)
  then Some "line chain graph revision conflict"
  else match plValidate pl with
       | None => Some "line chain first lease validator is required"
       | Some v => v st (default zero_approval (Approvals s !! tApprovalID t)) a t
       end.

(** Write the lease of [t] and append the delivery. *)
Definition grant (pl : poll) (id : string) (t : Task) (protocol : string) (c : acc) : res leaseError acc :=
  match tokens c with
  | Some secret :: rest =>
    let leaseID := "lease_" +:+ secret in
    let t := with_TargetLeases (<[plNode pl := mkLease leaseID (plNow pl)]> (TargetLeases t)) t in
    let t := with_tLeaseID leaseID (with_LeasedBy (plNode pl) (with_tStatus TaskLeased t)) in
    let t := if is_zero (tStartedAt t) then with_tStartedAt (plNow pl) t else t in
    let s := with_Tasks (<[id := t]> (Tasks (staged c))) (staged c) in
    let s :=
      if protocol =?? DurableProtocolLineChainV2 then
        let a := default zero_attempt (LineChainAttempts s !! tApprovalID t) in
        let a := with_laIssuedArtifactSHA256
                   (aArtifactDigest (default zero_approval (Approvals s !! tApprovalID t)))
          (with_laIssuedScriptSHA256 (sha256_hex (Script t))
            (with_laIssuedLeaseID leaseID (with_laIssuedTaskID (tID t) a))) in
        with_LineChainAttempts (<[tApprovalID t := a]> (LineChainAttempts s)) s
      else s in
    let leased := with_tStartedAt (plNow pl) t in
    Ok (mkAcc s (out c ++ [mkDelivery leased (negb (protocol =?? "")) protocol]) true
          (lineChainStaled c) (lineChainAuditErr c) (superseded c) rest)
  | _ => Err LeaseToken
  end.

(** The re-lease decision: the attempt counter before this lease, or the
    reason to give up on the target. *)
Definition countAttempt (s : State) (t : Task) (nodeID : string) : Z * option string :=
  let target := targetState (TaskTargetStates s) (tID t) nodeID in
  match taskTargetLeaseStart t nodeID with
  | None => (Attempts target, None)
  | Some _ =>
    let attempts := if Attempts target =? 0 then 1 else Attempts target in
    (attempts,
     match agentUpdateSuperseded s t nodeID with
     | Some reason => Some reason
     | None => if MaxTaskLeaseAttempts <=? attempts then Some TaskStalledAgentLostReason else None
     end)
  end.

Definition leaseOne (pl : poll) (st : State) (wantGated : bool) (id : string) (c : acc) : res leaseError acc :=
  if bool_decide (id ∈ lineChainStaled c) then Ok c else
  match Tasks (staged c) !! id with
  | None => Ok c
  | Some t =>
    let '(protocol, current) := gated pl st t in
    let isGated := negb (protocol =?? "") in
    if negb current || negb (Bool.eqb isGated wantGated) ||
       negb (taskCanLeaseTarget t (plNode pl) (Results st) (TaskTargetStates (staged c))
               (plNow pl) (plClock pl) (plDeadline pl))
    then Ok c else
    let '(reason, hold) := guardOwnerAtLeaseLocked (staged c) t (plNode pl) (plNow pl) (plDeadline pl) in
    if negb (reason =?? "") then Ok (supersedeGuardWriter pl t reason c)
    else if hold then Ok c else
    let key := taskResultReceiptKey (tID t) (plNode pl) in
    let target := targetState (TaskTargetStates (staged c)) (tID t) (plNode pl) in
    match countAttempt (staged c) t (plNode pl) with
    | (attempts, Some stallReason) =>
      Ok (changed_ (with_staged (with_TaskTargetStates
            (<[key := mkTargetState (tID t) (plNode pl) attempts stallReason (plNow pl)]>
               (TaskTargetStates (staged c))) (staged c)) c))
    | (attempts, None) =>
      let c := with_staged (with_TaskTargetStates
        (<[key := mkTargetState (tID t) (plNode pl) (wrap64 (attempts + 1)) (StalledReason target) (StalledAt target)]>
           (TaskTargetStates (staged c))) (staged c)) c in
      if protocol =?? DurableProtocolLineChainV2 then
        match firstLeaseError pl st c t with
        | Some e => Ok (staleLineChain pl t e c)
        | None =>
          let a := default zero_attempt (LineChainAttempts (staged c) !! tApprovalID t) in
          let a := with_laUpdatedAt (plNow pl)
            (with_laFirstLeaseGraphRevision (LineChainGraphRevision (staged c)) a) in
          grant pl id t protocol (with_staged (with_LineChainAttempts
            (<[tApprovalID t := a]> (LineChainAttempts (staged c))) (staged c)) c)
        end
      else grant pl id t protocol c
    end
  end.

Fixpoint leaseFresh (pl : poll) (st : State) (wantGated : bool) (ids : list string) (c : acc) :
    res leaseError acc :=
  match ids with
  | [] => Ok c
  | id :: ids =>
    if plLimit pl <=? Z.of_nat (length (out c)) then Ok c else
    c ← leaseOne pl st wantGated id c; leaseFresh pl st wantGated ids c
  end.

Definition onlyGenericTaskDeliveries (ds : list TaskDelivery) : bool :=
  match ds with [] => false | _ => forallb (fun d => negb (DurableResult d)) ds end.

Definition pollResult : Type := option (list TaskDelivery) * option leaseError.

(** [durable] is the outcome of confirming the state file's directory. *)
Definition leaseTaskDeliveries (pl : poll) (durable : bool) (p : persist) (toks : list (option string))
    (st : State) (sup : list GuardSupersession) : State * list GuardSupersession * pollResult :=
  let ids := sortTasks (map_to_list (Tasks st)) in
  match redeliver pl st ids [] with
  | Err e => (st, sup, (None, Some e))
  | Ok (d :: ds) =>
    if durable then (st, sup, (Some (d :: ds), None)) else (st, sup, (None, Some LeaseNotDurable))
  | Ok [] =>
    let c0 := mkAcc st [] false ∅ false [] toks in
    match leaseFresh pl st true ids.*1 c0 with
    | Err e => (st, sup, (None, Some e))
    | Ok c1 =>
      match (if (length (out c1) =? 0)%nat && negb (stateChanged c1)
             then leaseFresh pl st false ids.*1 c1 else Ok c1) with
      | Err e => (st, sup, (None, Some e))
      | Ok c =>
        if lineChainAuditErr c then (st, sup, (None, Some LeaseAudit)) else
        if negb (stateChanged c) then
          match out c with
          | [] => (st, sup, (Some [], None))
          | _ => if durable then (st, sup, (Some (out c), None)) else (st, sup, (None, Some LeaseNotDurable))
          end
        else if negb (committed p) then (st, sup, (None, Some LeasePersist)) else
        let sup := sup ++ superseded c in
        if persist_error p then
          (staged c, sup, (if onlyGenericTaskDeliveries (out c) then Some (out c) else None, Some LeasePersist))
        else (staged c, sup, (Some (out c), None))
      end
    end
  end.

(** ** What one step of a poll can do *)

Definition eligible (pl : poll) (st : State) (w : bool) (c : acc) (t : Task) (protocol : string) : Prop :=
  gated pl st t = (protocol, true) ∧ negb (protocol =?? "") = w ∧
  taskCanLeaseTarget t (plNode pl) (Results st) (TaskTargetStates (staged c))
    (plNow pl) (plClock pl) (plDeadline pl) = true.

(** The target's record after this lease is counted. *)
Definition counted (pl : poll) (t : Task) (attempts : Z) (c : acc) : acc :=
  let target := targetState (TaskTargetStates (staged c)) (tID t) (plNode pl) in
  with_staged (with_TaskTargetStates
    (<[taskResultReceiptKey (tID t) (plNode pl) :=
         mkTargetState (tID t) (plNode pl) (wrap64 (attempts + 1)) (StalledReason target) (StalledAt target)]>
       (TaskTargetStates (staged c))) (staged c)) c.
Definition stalled (pl : poll) (t : Task) (attempts : Z) (reason : string) (c : acc) : acc :=
  changed_ (with_staged (with_TaskTargetStates
    (<[taskResultReceiptKey (tID t) (plNode pl) :=
         mkTargetState (tID t) (plNode pl) attempts reason (plNow pl)]>
       (TaskTargetStates (staged c))) (staged c)) c).
Definition firstLeased (pl : poll) (t : Task) (c : acc) : acc :=
  let a := default zero_attempt (LineChainAttempts (staged c) !! tApprovalID t) in
  with_staged (with_LineChainAttempts (<[tApprovalID t :=
    with_laUpdatedAt (plNow pl) (with_laFirstLeaseGraphRevision (LineChainGraphRevision (staged c)) a)]>
      (LineChainAttempts (staged c))) (staged c)) c.

Inductive outcome (pl : poll) (id : string) (t : Task) (protocol : string) (c : acc) : acc → Prop :=
| out_supersede reason :
    reason ≠ "" → outcome pl id t protocol c (supersedeGuardWriter pl t reason c)
| out_stall attempts reason :
    countAttempt (staged c) t (plNode pl) = (attempts, Some reason) →
    outcome pl id t protocol c (stalled pl t attempts reason c)
| out_stale attempts e :
    countAttempt (staged c) t (plNode pl) = (attempts, None) →
    protocol = DurableProtocolLineChainV2 →
    outcome pl id t protocol c (staleLineChain pl t e (counted pl t attempts c))
| out_grant attempts c' :
    countAttempt (staged c) t (plNode pl) = (attempts, None) →
    protocol ≠ DurableProtocolLineChainV2 →
    grant pl id t protocol (counted pl t attempts c) = Ok c' → outcome pl id t protocol c c'
| out_grant_chain attempts c' :
    countAttempt (staged c) t (plNode pl) = (attempts, None) →
    protocol = DurableProtocolLineChainV2 →
    grant pl id t protocol (firstLeased pl t (counted pl t attempts c)) = Ok c' →
    outcome pl id t protocol c c'.

Lemma leaseOne_cases pl st w id c c' :
  leaseOne pl st w id c = Ok c' →
  c' = c ∨ ∃ t protocol, Tasks (staged c) !! id = Some t ∧ eligible pl st w c t protocol ∧
    outcome pl id t protocol c c'.
Proof.
  unfold leaseOne. destruct (bool_decide (id ∈ _)); [by intros [= <-]; left|].
  destruct (Tasks (staged c) !! id) as [t|] eqn:Ht; [|by intros [= <-]; left].
  destruct (gated pl st t) as [protocol current] eqn:Hg. destruct current; [|by intros [= <-]; left].
  cbn [negb orb]. destruct (Bool.eqb _ w) eqn:Hw; [|by intros [= <-]; left]. apply Bool.eqb_prop in Hw.
  destruct (taskCanLeaseTarget _ _ _ _ _ _ _) eqn:Hc; [|by intros [= <-]; left]. cbn [negb orb].
  destruct (guardOwnerAtLeaseLocked _ _ _ _ _) as [reason hold].
  assert (eligible pl st w c t protocol) as He by (by split).
  destruct (bool_decide (reason = "")) eqn:Hr; cbn [negb].
  2:{ apply bool_decide_eq_false in Hr. intros [= <-]. right. exists t, protocol.
      split_and!; [done..|by constructor]. }
  destruct hold; [by intros [= <-]; left|].
  destruct (countAttempt _ _ _) as [attempts [reason'|]] eqn:Hca.
  - intros [= <-]. right. exists t, protocol. split_and!; [done..|by apply out_stall].
  - destruct (bool_decide (protocol = DurableProtocolLineChainV2)) eqn:Hp; go_bool.
    + destruct (firstLeaseError _ _ _ _) as [e|]; intros H; right; exists t, protocol; (split_and!; [done..|]).
      * simplify_eq. by apply out_stale.
      * by eapply out_grant_chain.
    + intros H. right. exists t, protocol. split_and!; [done..|]. by eapply out_grant.
Qed.

(** A property every step preserves holds at the end of the loop. *)
Lemma leaseFresh_ind pl st w (P : acc → Prop) ids c c' :
  (∀ id t protocol c c', P c → Tasks (staged c) !! id = Some t → eligible pl st w c t protocol →
     outcome pl id t protocol c c' → P c') →
  P c → leaseFresh pl st w ids c = Ok c' → P c'.
Proof.
  intros Hstep. revert c. induction ids as [|id ids IH]; intros c HP; cbn; [by intros [= <-]|].
  destruct (_ <=? _); [by intros [= <-]|].
  destruct (leaseOne pl st w id c) as [c1|] eqn:E; [|done]. cbn. apply IH.
  apply leaseOne_cases in E as [->|(t & protocol & Ht & He & Ho)]; [done|]. by eapply Hstep.
Qed.

Lemma grant_inv pl id t protocol c c' :
  grant pl id t protocol c = Ok c' →
  ∃ secret t', 
    Tasks (staged c') = <[id := t']> (Tasks (staged c)) ∧
    TargetLeases t' = <[plNode pl := mkLease ("lease_" +:+ secret) (plNow pl)]> (TargetLeases t) ∧
    tID t' = tID t ∧ tTargets t' = tTargets t ∧ tStatus t' = TaskLeased ∧ tApprovalID t' = tApprovalID t ∧
    tLeaseID t' = "lease_" +:+ secret ∧ LeasedBy t' = plNode pl ∧
    out c' = out c ++ [mkDelivery (with_tStartedAt (plNow pl) t') (negb (protocol =?? "")) protocol] ∧
    TaskTargetStates (staged c') = TaskTargetStates (staged c) ∧ stateChanged c' = true.
Proof.
  unfold grant. destruct (tokens c) as [|[secret|] rest]; [done| |done].
  destruct (is_zero _), (bool_decide (protocol = DurableProtocolLineChainV2)); intros [= <-];
    eexists secret, _; split_and!; reflexivity.
Qed.

(** Fields no step touches. *)
Lemma staleLineChain_tasks pl t e c :
  ∃ t', Tasks (staged (staleLineChain pl t e c)) = <[tID t := t']> (Tasks (staged c)) ∧
    tID t' = tID t ∧ tTargets t' = tTargets t ∧ tStatus t' = TaskCancelled ∧
    TargetLeases t' = TargetLeases t ∧
    TaskTargetStates (staged (staleLineChain pl t e c)) = TaskTargetStates (staged c) ∧
    out (staleLineChain pl t e c) = out c.
Proof.
  exists (with_tStatus TaskCancelled t). unfold staleLineChain.
  destruct (stageLineChainAuditEvidence _ _ _) as [s|] eqn:Es; [|done].
  unfold stageLineChainAuditEvidence in Es. ok_inv. done.
Qed.

Lemma supersede_tasks pl t reason c :
  ∃ t', Tasks (staged (supersedeGuardWriter pl t reason c)) = <[tID t := t']> (Tasks (staged c)) ∧
    tID t' = tID t ∧ tTargets t' = tTargets t ∧ tStatus t' = TaskCancelled ∧
    TargetLeases t' = TargetLeases t ∧
    TaskTargetStates (staged (supersedeGuardWriter pl t reason c)) = TaskTargetStates (staged c) ∧
    out (supersedeGuardWriter pl t reason c) = out c.
Proof.
  exists (with_tFinishedAt (plNow pl) (with_tStatus TaskCancelled t)). unfold supersedeGuardWriter.
  destruct (guardWriteOfTaskLocked _ _) as [[[ap w] rerun] ok].
  destruct rerun; [done|]. cbn [staged out].
  destruct (selfDNSDeploymentID _); [|done]. destruct (negb _); [done|].
  destruct (DNSDeployments _ !! _); [|done]. by destruct (_ =?? _).
Qed.

(** ** Runs of a poll *)

Definition start (st : State) (toks : list (option string)) : acc := mkAcc st [] false ∅ false [] toks.
Definition pollIDs (st : State) : list (string * Task) := sortTasks (map_to_list (Tasks st)).

(** The accumulator at the end of the fresh phase. *)
Definition fresh_run (pl : poll) (st : State) (toks : list (option string)) (c : acc) : Prop :=
  leaseFresh pl st true (pollIDs st).*1 (start st toks) = Ok c ∨
  ∃ c1, leaseFresh pl st true (pollIDs st).*1 (start st toks) = Ok c1 ∧ out c1 = [] ∧
        leaseFresh pl st false (pollIDs st).*1 c1 = Ok c.

Lemma fresh_run_ind pl st toks (P : acc → Prop) c :
  P (start st toks) →
  (∀ w id t protocol c c', P c → Tasks (staged c) !! id = Some t → eligible pl st w c t protocol →
     outcome pl id t protocol c c' → P c') →
  fresh_run pl st toks c → P c.
Proof.
  intros H0 Hstep [H|(c1 & H1 & _ & H2)].
  - by eapply leaseFresh_ind; [intros *; apply (Hstep true)|exact H0|exact H].
  - eapply leaseFresh_ind; [intros *; apply (Hstep false)| |exact H2].
    by eapply leaseFresh_ind; [intros *; apply (Hstep true)|exact H0|exact H1].
Qed.

Lemma outcome_changed pl id t protocol c c' :
  outcome pl id t protocol c c' → (stateChanged c = false → out c = []) → stateChanged c' = false → out c' = [].
Proof.
  intros Ho Hc. destruct Ho as [reason _|attempts reason _|attempts e _ _|attempts c' _ _ Hg|attempts c' _ _ Hg].
  - unfold supersedeGuardWriter. by destruct (guardWriteOfTaskLocked _ _) as [[[]]].
  - done.
  - destruct (staleLineChain_tasks pl t e (counted pl t attempts c)) as (? & _ & _ & _ & _ & _ & _ & ->).
    unfold staleLineChain. destruct (stageLineChainAuditEvidence _ _ _); [done|exact Hc].
  - apply grant_inv in Hg as (? & ? & _ & _ & _ & _ & _ & _ & _ & _ & _ & _ & ->). done.
  - apply grant_inv in Hg as (? & ? & _ & _ & _ & _ & _ & _ & _ & _ & _ & _ & ->). done.
Qed.

(** Every poll either leaves the store alone, delivering nothing or
    redelivering durable leases, or publishes a fresh run. *)
Lemma poll_cases pl durable p toks st sup st' sup' ds err :
  leaseTaskDeliveries pl durable p toks st sup = (st', sup', (ds, err)) →
  (st' = st ∧ (ds = None ∨ ds = Some [] ∨
     ∃ l, redeliver pl st (pollIDs st) [] = Ok l ∧ ds = Some l)) ∨
  (committed p = true ∧ ∃ c, fresh_run pl st toks c ∧ st' = staged c ∧ (ds = None ∨ ds = Some (out c))).
Proof.
  unfold leaseTaskDeliveries. fold (pollIDs st). fold (start st toks).
  destruct (redeliver pl st (pollIDs st) []) as [[|d l]|] eqn:Er.
  2:{ destruct durable; intros [= <- _ <- _]; left; eauto 10. }
  2:{ intros [= <- _ <- _]; left; eauto. }
  destruct (leaseFresh pl st true _ _) as [c1|] eqn:E1; [|intros [= <- _ <- _]; left; by eauto].
  assert (∀ c, (if (length (out c1) =? 0)%nat && negb (stateChanged c1)
     then leaseFresh pl st false (pollIDs st).*1 c1 else Ok c1) = Ok c → fresh_run pl st toks c) as Hrun.
  { intros c. destruct ((length (out c1) =? 0)%nat && _) eqn:Eb; intros H; [right|left; congruence].
    apply andb_true_iff in Eb as [Eb _]. apply Nat.eqb_eq, nil_length_inv in Eb. eauto. }
  destruct (if _ && _ then _ else _) as [c|] eqn:E2; [|intros [= <- _ <- _]; left; by eauto].
  specialize (Hrun c eq_refl).
  destruct (lineChainAuditErr c); [intros [= <- _ <- _]; left; by eauto|].
  destruct (stateChanged c) eqn:Ec; cbn [negb].
  - destruct (committed p) eqn:Ep; cbn [negb]; [|intros [= <- _ <- _]; left; by eauto].
    destruct (persist_error p); intros [= <- _ <- _]; right; (split; [done|]); exists c;
      (split; [done|]); (split; [done|]); [destruct (onlyGenericTaskDeliveries _)|]; by eauto.
  - assert (out c = []) as ->.
    { revert Ec. eapply (fresh_run_ind pl st toks (fun c => stateChanged c = false → out c = []) c);
        [done| |done]. intros w id t protocol c2 c' HP _ _ Ho. by eapply outcome_changed. }
    intros [= <- _ <- _]; left; by eauto.
Qed.

(** ** Soundness of a delivery *)

Lemma canLease_inv t n results targets now clock deadline :
  taskCanLeaseTarget t n results targets now clock deadline = true →
  n ∈ tTargets t ∧ openStatus t = true ∧ taskPastQueueDeadline t now deadline = false ∧
  taskTargetStalled targets (tID t) n = false ∧ existsb (answersTarget t n) results = false ∧
  (∀ lease, TargetLeases t !! n = Some lease → leLeaseID lease ≠ "" →
     taskLeaseExpiredAt (leStartedAt lease) (TimeoutSec t) clock = true).
Proof.
  unfold taskCanLeaseTarget. intros H.
  destruct (contains (tTargets t) n) eqn:Hc; [|done]. destruct (openStatus t); [|done].
  destruct (taskPastQueueDeadline _ _ _); [done|]. destruct (taskTargetStalled _ _ _); [done|].
  destruct (existsb _ _); [done|]. cbn [negb orb] in H. split_and!; [by apply contains_spec|done..|].
  intros lease Hl Hne. rewrite Hl in H. rewrite bool_decide_eq_false_2 in H by done.
  by destruct (taskLeaseExpiredAt (leStartedAt lease) _ _).
Qed.

Lemma awaiting_inv t n results receipts targets now deadline :
  taskTargetAwaitingResult t n results receipts targets now deadline = true →
  n ∈ tTargets t ∧ openStatus t = true ∧ taskPastQueueDeadline t now deadline = false ∧
  taskTargetStalled targets (tID t) n = false ∧ existsb (answersTarget t n) results = false.
Proof.
  unfold taskTargetAwaitingResult. intros H.
  destruct (contains (tTargets t) n) eqn:Hc; [|done]. destruct (openStatus t); [|done].
  destruct (taskPastQueueDeadline _ _ _); [done|]. destruct (taskTargetStalled _ _ _); [done|].
  destruct (existsb _ _); [done|]. split_and!; [by apply contains_spec|done..].
Qed.

(** Giving up on a target is for good. *)
Definition stalls_kept (st st' : State) : Prop :=
  ∀ taskID n, taskTargetStalled (TaskTargetStates st) taskID n = true →
    taskTargetStalled (TaskTargetStates st') taskID n = true.

Lemma stalled_insert (m : gmap string TaskTargetState) k g taskID n :
  (StalledReason (default zero_target (m !! k)) ≠ "" → StalledReason g ≠ "") →
  taskTargetStalled m taskID n = true → taskTargetStalled (<[k := g]> m) taskID n = true.
Proof.
  unfold taskTargetStalled, targetState. intros Hg Hs. go_bool.
  destruct (decide (k = taskResultReceiptKey taskID n)) as [->|?].
  - rewrite lookup_insert_eq. by apply Hg.
  - by rewrite lookup_insert_ne.
Qed.

Lemma countAttempt_reason s t n attempts reason :
  countAttempt s t n = (attempts, Some reason) → reason ≠ "".
Proof.
  unfold countAttempt, agentUpdateSuperseded. intros H. repeat case_match; simplify_eq; done.
Qed.

Lemma counted_stalls pl t attempts c : stalls_kept (staged c) (staged (counted pl t attempts c)).
Proof. intros taskID n Hs. apply stalled_insert; [|done]. done. Qed.

Lemma outcome_stalls pl id t protocol c c' :
  outcome pl id t protocol c c' → stalls_kept (staged c) (staged c').
Proof.
  intros Ho taskID n Hs.
  destruct Ho as [reason _|attempts reason Hc|attempts e _ _|attempts c' _ _ Hg|attempts c' _ _ Hg].
  - by destruct (supersede_tasks pl t reason c) as (? & _ & _ & _ & _ & _ & -> & _).
  - apply stalled_insert; [|done]. intros _. by eapply countAttempt_reason.
  - destruct (staleLineChain_tasks pl t e (counted pl t attempts c)) as (? & _ & _ & _ & _ & _ & -> & _).
    by apply counted_stalls.
  - apply grant_inv in Hg as (? & ? & _ & _ & _ & _ & _ & _ & _ & _ & _ & -> & _). by apply counted_stalls.
  - apply grant_inv in Hg as (? & ? & _ & _ & _ & _ & _ & _ & _ & _ & _ & -> & _). by apply counted_stalls.
Qed.

(** What holds of every delivered task. *)
Record deliverable (pl : poll) (st : State) (d : TaskDelivery) : Prop := {
  dl_target : plNode pl ∈ tTargets (dvTask d);
  dl_lease : tLeaseID (dvTask d) ≠ "";
  dl_open : tStatus (dvTask d) = TaskLeased;
  dl_unanswered : ∀ r, r ∈ Results st → rTaskID r = tID (dvTask d) → rNodeID r ≠ plNode pl;
  dl_not_stalled : taskTargetStalled (TaskTargetStates st) (tID (dvTask d)) (plNode pl) = false;
  dl_gate : DurableResult d = true → ∃ a, Approvals st !! tApprovalID (dvTask d) = Some a ∧
    aStatus a = ApprovalApproved ∧ aNodeID a = plNode pl;
}.

Lemma unanswered_spec t n results :
  existsb (answersTarget t n) results = false →
  ∀ r, r ∈ results → rTaskID r = tID t → rNodeID r ≠ n.
Proof.
  intros H r Hr Ht Hn. apply not_true_iff_false in H. apply H, existsb_elem_of. exists r.
  split; [done|]. unfold answersTarget. by rewrite !bool_decide_eq_true_2.
Qed.

Lemma gated_durable pl st t protocol :
  gated pl st t = (protocol, true) → protocol ≠ "" →
  ∃ a, Approvals st !! tApprovalID t = Some a ∧ aStatus a = ApprovalApproved ∧ aNodeID a = plNode pl.
Proof.
  unfold gated. intros H Hne. destruct (_ || _); [naive_solver|].
  destruct (Approvals st !! tApprovalID t) as [a|]; [|done].
  destruct (lineChainApproval a); [injection H as <- H|destruct (_ || _); [naive_solver|injection H as <- H]];
    go_bool; destruct_and!; eauto.
Qed.

Lemma grant_deliverable pl st w id t protocol c0 c c' :
  stalls_kept st (staged c0) → eligible pl st w c0 t protocol →
  (∀ d, d ∈ out c → deliverable pl st d) → grant pl id t protocol c = Ok c' →
  ∀ d, d ∈ out c' → deliverable pl st d.
Proof.
  intros Hs (Hg & Hw & Hc) HP (secret & t' & _ & _ & Hid & Htg & Hst & Hap & Hl & _ & -> & _ & _)%grant_inv d Hd.
  apply elem_of_app in Hd as [Hd|Hd%list_elem_of_singleton]; [by apply HP|]. subst d.
  apply canLease_inv in Hc as (Hin & _ & _ & Hns & Hans & _). split; cbn.
  - by rewrite Htg.
  - by rewrite Hl.
  - done.
  - rewrite Hid. by apply unanswered_spec.
  - rewrite Hid. apply not_true_iff_false. intros H. rewrite (Hs _ _ H) in Hns. done.
  - rewrite Hap. intros Hd. eapply gated_durable; [done|]. by go_bool.
Qed.

Lemma redeliver_deliverable pl st ids l ds :
  (∀ d, d ∈ l → deliverable pl st d ∧ DurableResult d = true) →
  redeliver pl st ids l = Ok ds → ∀ d, d ∈ ds → deliverable pl st d ∧ DurableResult d = true.
Proof.
  revert l. induction ids as [|[id t] ids IH]; intros l Hl; cbn; [by intros [= <-]|].
  destruct (_ <=? _); [by intros [= <-]|].
  destruct (gated pl st t) as [protocol current] eqn:Hg.
  destruct (bool_decide (protocol = "")) eqn:Hp; [by apply IH|]. destruct current; [|by apply IH].
  destruct (taskTargetAwaitingResult _ _ _ _ _ _ _) eqn:Ha; [|by apply IH]. cbn [negb orb].
  apply awaiting_inv in Ha as (Hin & _ & _ & Hns & Hans). apply bool_decide_eq_false in Hp.
  assert (∀ t', tTargets t' = tTargets t → tID t' = tID t → tApprovalID t' = tApprovalID t →
    tStatus t' = TaskLeased → tLeaseID t' ≠ "" → ∀ d, d ∈ l ++ [mkDelivery t' true protocol] →
    deliverable pl st d ∧ DurableResult d = true) as Hadd.
  { intros t' E1 E2 E3 E4 E5 d Hd. apply elem_of_app in Hd as [Hd|Hd%list_elem_of_singleton]; [by apply Hl|].
    subst d. split; [|done]. split; cbn; rewrite ?E1, ?E2, ?E3; [done..| |done|].
    - by apply unanswered_spec.
    - intros _. by eapply gated_durable. }
  assert ((if (LeasedBy t =?? plNode pl) && negb (tLeaseID t =?? "")
           then redeliver pl st ids (l ++ [mkDelivery (with_tStatus TaskLeased t) true protocol])
           else redeliver pl st ids l) = Ok ds → ∀ d, d ∈ ds → deliverable pl st d ∧ DurableResult d = true)
    as Hsingle.
  { destruct (_ && _) eqn:E; [|by apply IH]. apply IH. apply andb_true_iff in E as [_ E]. go_bool.
    by apply Hadd. }
  destruct (TargetLeases t !! plNode pl) as [lease|]; [|done].
  destruct (bool_decide (leLeaseID lease = "")) eqn:El; [done|]. apply bool_decide_eq_false in El.
  match goal with |- (if ?b then _ else _) = _ → _ => destruct b; [done|] end.
  apply IH. by apply Hadd.
Qed.

Lemma outcome_deliverable pl st w id t protocol c c' :
  stalls_kept st (staged c) ∧ (∀ d, d ∈ out c → deliverable pl st d) →
  eligible pl st w c t protocol → outcome pl id t protocol c c' →
  stalls_kept st (staged c') ∧ (∀ d, d ∈ out c' → deliverable pl st d).
Proof.
  intros [Hs Hd] He Ho. split.
  - intros x n H. eapply outcome_stalls; [done|]. by apply Hs.
  - destruct Ho as [reason _|attempts reason Hc|attempts e _ _|attempts c' _ _ Hg|attempts c' _ _ Hg].
    + by destruct (supersede_tasks pl t reason c) as (? & _ & _ & _ & _ & _ & _ & ->).
    + done.
    + by destruct (staleLineChain_tasks pl t e (counted pl t attempts c)) as (? & _ & _ & _ & _ & _ & _ & ->).
    + exact (grant_deliverable pl st w id t protocol c (counted pl t attempts c) c' Hs He Hd Hg).
    + exact (grant_deliverable pl st w id t protocol c (firstLeased pl t (counted pl t attempts c))
        c' Hs He Hd Hg).
Qed.

(** C2. Every task a poll hands out, fresh or redelivered, is one the node owes:
    the node is a target, the delivery carries a lease, no result of that node
    is on file and the store has not given up on the target; a durable
    delivery moreover stems from an approval that is approved for that very
    node.  Giving up on a target survives every poll. *)
Theorem deliveries_sound pl durable p toks st sup st' sup' ds err :
  leaseTaskDeliveries pl durable p toks st sup = (st', sup', (Some ds, err)) →
  (∀ d, d ∈ ds → deliverable pl st d) ∧ stalls_kept st st'.
Proof.
  intros [[-> H]|(_ & c & Hrun & -> & H)]%poll_cases.
  - split; [|by intros ? ?]. destruct H as [?|[H|(l & Hr & H)]]; [done| |]; simplify_eq; [set_solver|].
    intros d Hd. eapply (redeliver_deliverable pl st _ []) in Hd as [? _]; [done|set_solver|done].
  - eapply (fresh_run_ind pl st toks (fun c => stalls_kept st (staged c) ∧
      ∀ d, d ∈ out c → deliverable pl st d)) in Hrun as [Hs Hd].
    + split; [|done]. destruct H; [done|]. by simplify_eq.
    + split; [by intros ? ?|set_solver].
    + intros w id t protocol c1 c' HP _ He Ho. by eapply outcome_deliverable.
Qed.

(** ** A live lease is exclusive *)

Definition tasks_keyed (st : State) : Prop := ∀ id t, Tasks st !! id = Some t → tID t = id.

Lemma tasks_keyed_insert st st' id t :
  tasks_keyed st → Tasks st' = <[id := t]> (Tasks st) → tID t = id → tasks_keyed st'.
Proof.
  intros Hk Hst Ht id' t'. rewrite Hst. destruct (decide (id = id')) as [<-|?].
  - rewrite lookup_insert_eq. by intros [= <-].
  - rewrite lookup_insert_ne by done. apply Hk.
Qed.

(** A step changes at most the task it looks at, and keeps its identity. *)
Lemma outcome_task pl id t protocol c c' :
  outcome pl id t protocol c c' → tID t = id → Tasks (staged c) !! id = Some t →
  ∃ t', Tasks (staged c') = <[id := t']> (Tasks (staged c)) ∧ tID t' = id ∧ tTargets t' = tTargets t ∧
    (out c' = out c ∨ ∃ d, out c' = out c ++ [d] ∧ tID (dvTask d) = id).
Proof.
  intros Ho Hid Ht.
  destruct Ho as [reason _|attempts reason Hc|attempts e _ _|attempts c' _ _ Hg|attempts c' _ _ Hg].
  - destruct (supersede_tasks pl t reason c) as (t' & -> & ? & ? & _ & _ & _ & ->).
    exists t'. rewrite Hid. split_and!; [done|congruence|done|by left].
  - exists t. split_and!; [|done|done|by left]. symmetry. by apply insert_id.
  - destruct (staleLineChain_tasks pl t e (counted pl t attempts c)) as (t' & -> & ? & ? & _ & _ & _ & ->).
    exists t'. rewrite Hid. split_and!; [done|congruence|done|by left].
  - apply grant_inv in Hg as (? & t' & -> & _ & ? & ? & _ & _ & _ & _ & -> & _ & _).
    exists t'. split_and!; [done|congruence|done|]. right. eexists. split; [done|]. cbn. congruence.
  - apply grant_inv in Hg as (? & t' & -> & _ & ? & ? & _ & _ & _ & _ & -> & _ & _).
    exists t'. split_and!; [done|congruence|done|]. right. eexists. split; [done|]. cbn. congruence.
Qed.

Lemma outcome_keyed pl id t protocol c c' :
  outcome pl id t protocol c c' → Tasks (staged c) !! id = Some t → tasks_keyed (staged c) →
  tasks_keyed (staged c').
Proof.
  intros Ho Ht Hk. destruct (outcome_task _ _ _ _ _ _ Ho (Hk _ _ Ht) Ht) as (t' & Hs & Hid & _).
  by eapply tasks_keyed_insert.
Qed.

Lemma elem_of_pollIDs st x : x ∈ pollIDs st ↔ Tasks st !! x.1 = Some x.2.
Proof.
  unfold pollIDs, sortTasks. rewrite merge_sort_Permutation. destruct x. by rewrite elem_of_map_to_list.
Qed.

(** Redelivery repeats the lease on record. *)
Lemma redeliver_lease pl st ids l ds :
  redeliver pl st ids l = Ok ds → ∀ d, d ∈ ds →
  d ∈ l ∨ ∃ id t, (id, t) ∈ ids ∧ tID (dvTask d) = tID t ∧
    ∀ lease, TargetLeases t !! plNode pl = Some lease → leLeaseID lease ≠ "" →
      tLeaseID (dvTask d) = leLeaseID lease.
Proof.
  revert l. induction ids as [|[id t] ids IH]; intros l; cbn; [intros [= <-]; by left|].
  destruct (_ <=? _); [intros [= <-]; by left|].
  destruct (gated pl st t) as [protocol current].
  assert (∀ l', redeliver pl st ids l' = Ok ds → ∀ d, d ∈ ds → d ∈ l' ∨
    ∃ id' t', (id', t') ∈ (id, t) :: ids ∧ tID (dvTask d) = tID t' ∧
    ∀ lease, TargetLeases t' !! plNode pl = Some lease → leLeaseID lease ≠ "" →
      tLeaseID (dvTask d) = leLeaseID lease) as IH'.
  { intros l' H d Hd. destruct (IH l' H d Hd) as [?|(id' & t' & ? & ?)]; [by left|right].
    exists id', t'. split; [by right|done]. }
  assert (∀ d0, tID (dvTask d0) = tID t →
    (∀ lease, TargetLeases t !! plNode pl = Some lease → leLeaseID lease ≠ "" →
      tLeaseID (dvTask d0) = leLeaseID lease) →
    redeliver pl st ids (l ++ [d0]) = Ok ds → ∀ d, d ∈ ds → d ∈ l ∨
    ∃ id' t', (id', t') ∈ (id, t) :: ids ∧ tID (dvTask d) = tID t' ∧
    ∀ lease, TargetLeases t' !! plNode pl = Some lease → leLeaseID lease ≠ "" →
      tLeaseID (dvTask d) = leLeaseID lease) as Hadd.
  { intros d0 E1 E2 H d Hd. destruct (IH' _ H d Hd) as [Hin|?]; [|by right].
    apply elem_of_app in Hin as [?| ->%list_elem_of_singleton]; [by left|right].
    exists id, t. split; [left|done]. }
  destruct (_ || _); [by apply IH'|].
  destruct (TargetLeases t !! plNode pl) as [lease|] eqn:El.
  - destruct (bool_decide (leLeaseID lease = "")) eqn:Ee; go_bool.
    + destruct (_ && _); [|by apply IH']. apply Hadd; [done|]. intros lease' [= <-]. done.
    + match goal with |- (if ?b then _ else _) = _ → _ => destruct b; [done|] end.
      apply Hadd; [done|]. by intros lease' [= <-].
  - destruct (_ && _); [|by apply IH']. by apply Hadd.
Qed.

(** A step touches no lease but the polling node's. *)
Lemma outcome_lease pl id t protocol c c' n :
  outcome pl id t protocol c c' → tID t = id → Tasks (staged c) !! id = Some t → n ≠ plNode pl →
  ∀ id' t', Tasks (staged c) !! id' = Some t' → ∃ t'', Tasks (staged c') !! id' = Some t'' ∧ TargetLeases t'' !! n = TargetLeases t' !! n.
Proof.
  intros Ho Hid Ht Hn id' t' Ht'.
  assert (∀ t2 m, m = <[id := t2]> (Tasks (staged c)) → TargetLeases t2 !! n = TargetLeases t !! n →
    ∃ t'', m !! id' = Some t'' ∧ TargetLeases t'' !! n = TargetLeases t' !! n) as Hgo.
  { intros t2 m -> E. destruct (decide (id = id')) as [<-|Hne].
    - exists t2. rewrite lookup_insert_eq. split; [done|congruence].
    - exists t'. by rewrite lookup_insert_ne. }
  destruct Ho as [reason _|attempts reason Hc|attempts e _ _|attempts c' _ _ Hg|attempts c' _ _ Hg].
  - destruct (supersede_tasks pl t reason c) as (t2 & E & _ & _ & _ & El & _ & _). rewrite Hid in E. apply (Hgo t2); [done|by rewrite El].
  - by exists t'.
  - destruct (staleLineChain_tasks pl t e (counted pl t attempts c)) as (t2 & E & _ & _ & _ & El & _ & _).
    rewrite Hid in E. apply (Hgo t2); [done|by rewrite El].
  - apply grant_inv in Hg as (? & t2 & E & El & _). apply (Hgo t2); [done|]. by rewrite El, lookup_insert_ne.
  - apply grant_inv in Hg as (? & t2 & E & El & _). apply (Hgo t2); [done|]. by rewrite El, lookup_insert_ne.
Qed.
Lemma own_polls_keep_lease pl durable p toks st sup st' sup' ds err id t lease :
  leaseTaskDeliveries pl durable p toks st sup = (st', sup', (ds, err)) →
  tasks_keyed st → Tasks st !! id = Some t →
  TargetLeases t !! plNode pl = Some lease → leLeaseID lease ≠ "" →
  taskLeaseExpiredAt (leStartedAt lease) (TimeoutSec t) (plClock pl) = false →
  Tasks st' !! id = Some t ∧
  ∀ l d, ds = Some l → d ∈ l → tID (dvTask d) = id → tLeaseID (dvTask d) = leLeaseID lease.
Proof.
  intros H Hk Ht Hl Hne Hlive.
  apply poll_cases in H as [[-> H]|(_ & c & Hrun & -> & H)].
  - split; [done|]. intros l d -> Hd Hid. destruct H as [?|[H|(l' & Hr & H)]]; [done| |]; simplify_eq;
      [set_solver|].
    destruct (redeliver_lease _ _ _ _ _ Hr d Hd) as [?|(id' & t' & Hin & Hd' & Hlease)]; [set_solver|].
    apply elem_of_pollIDs in Hin. cbn in Hin. pose proof (Hk _ _ Hin). simplify_eq.
    assert (t' = t) as -> by congruence. by apply Hlease.
  - eapply (fresh_run_ind pl st toks (fun c => tasks_keyed (staged c) ∧ Tasks (staged c) !! id = Some t ∧
      ∀ d, d ∈ out c → tID (dvTask d) ≠ id)) in Hrun as (_ & Hc & Hd).
    + split; [done|]. intros l d -> Hin Hid. destruct H; [done|]. simplify_eq. by destruct (Hd d Hin).
    + split_and!; [done..|set_solver].
    + clear Hrun. intros w id' t' protocol c1 c2 (Hk1 & Ht1 & Hd1) Ht' He Ho.
      split; [by eapply outcome_keyed|].
      destruct (decide (id' = id)) as [->|Hnid].
      { exfalso. simplify_eq. destruct He as (_ & _ & He). apply canLease_inv in He as (_ & _ & _ & _ & _ & He).
        by rewrite (He _ Hl Hne) in Hlive. }
      destruct (outcome_task _ _ _ _ _ _ Ho (Hk1 _ _ Ht') Ht') as (t'' & -> & _ & _ & Hout).
      split; [by rewrite lookup_insert_ne|]. intros d Hd Hid.
      destruct Hout as [Eo|(d' & Eo & Hd')]; rewrite Eo in Hd; [by apply (Hd1 d)|].
      apply elem_of_app in Hd as [Hd| ->%list_elem_of_singleton]; [by apply (Hd1 d)|congruence].
Qed.
(** No poll of another node touches the lease. *)
Lemma other_polls_keep_lease pl durable p toks st sup st' sup' ds err id t n lease :
  leaseTaskDeliveries pl durable p toks st sup = (st', sup', (ds, err)) →
  tasks_keyed st → Tasks st !! id = Some t → TargetLeases t !! n = Some lease → n ≠ plNode pl →
  ∃ t', Tasks st' !! id = Some t' ∧ TargetLeases t' !! n = Some lease.
Proof.
  intros H Hk Ht Hl Hn. apply poll_cases in H as [[-> _]|(_ & c & Hrun & -> & _)]; [by exists t|].
  eapply (fresh_run_ind pl st toks (fun c => tasks_keyed (staged c) ∧
    ∃ t', Tasks (staged c) !! id = Some t' ∧ TargetLeases t' !! n = Some lease)) in Hrun as [_ Hc]; [done| |].
  - split; [done|]. by exists t.
  - clear Hrun. intros w id' t' protocol c1 c2 (Hk1 & t1 & Ht1 & Hl1) Ht' He Ho. split; [by eapply outcome_keyed|].
    destruct (outcome_lease _ _ _ _ _ _ n Ho (Hk1 _ _ Ht') Ht' Hn id t1 Ht1) as (t2 & H2 & E2).
    exists t2. split; [done|congruence].
Qed.

(** C18. A live lease is exclusive: while the lease a node holds on a task has
    not run out, no poll of that node, under any gate and with any outcome of
    the write, changes the task or hands it out under another lease, it can
    only be handed out again under the same one; and a poll of another node,
    which may lease the same task for its own target or end the task, leaves
    this node's lease as it is. *)
Theorem live_lease_is_exclusive pl durable p toks st sup st' sup' ds err id t n lease :
  leaseTaskDeliveries pl durable p toks st sup = (st', sup', (ds, err)) →
  tasks_keyed st → Tasks st !! id = Some t →
  TargetLeases t !! n = Some lease → leLeaseID lease ≠ "" →
  taskLeaseExpiredAt (leStartedAt lease) (TimeoutSec t) (plClock pl) = false →
  (n = plNode pl → Tasks st' !! id = Some t ∧
     ∀ l d, ds = Some l → d ∈ l → tID (dvTask d) = id → tLeaseID (dvTask d) = leLeaseID lease) ∧
  ∃ t', Tasks st' !! id = Some t' ∧ TargetLeases t' !! n = Some lease.
Proof.
  intros H Hk Ht Hl Hne Hlive. destruct (decide (n = plNode pl)) as [->|Hn].
  - pose proof (own_polls_keep_lease _ _ _ _ _ _ _ _ _ _ _ _ _ H Hk Ht Hl Hne Hlive) as [H1 H2].
    split; [done|]. by exists t.
  - split; [done|]. by eapply other_polls_keep_lease.
Qed.

(** ** Batches *)

Lemma outcome_out pl st w id t protocol c c' :
  eligible pl st w c t protocol → outcome pl id t protocol c c' →
  out c' = out c ∨ ∃ d, out c' = out c ++ [d] ∧ DurableResult d = w.
Proof.
  intros (_ & <- & _) Ho.
  destruct Ho as [reason _|attempts reason Hc|attempts e _ _|attempts c' _ _ Hg|attempts c' _ _ Hg].
  - destruct (supersede_tasks pl t reason c) as (? & _ & _ & _ & _ & _ & _ & ->). by left.
  - by left.
  - destruct (staleLineChain_tasks pl t e (counted pl t attempts c)) as (? & _ & _ & _ & _ & _ & _ & ->). by left.
  - apply grant_inv in Hg as (? & t' & _ & _ & _ & _ & _ & _ & _ & _ & -> & _). right. by eexists.
  - apply grant_inv in Hg as (? & t' & _ & _ & _ & _ & _ & _ & _ & _ & -> & _). right. by eexists.
Qed.

Lemma leaseFresh_batch pl st w ids c c' :
  leaseFresh pl st w ids c = Ok c' → out c = [] →
  (∀ d, d ∈ out c' → DurableResult d = w) ∧ Z.of_nat (length (out c')) <= Z.max 0 (plLimit pl).
Proof.
  intros H Hc. assert (∀ c, (∀ d, d ∈ out c → DurableResult d = w) →
    Z.of_nat (length (out c)) <= Z.max 0 (plLimit pl) → leaseFresh pl st w ids c = Ok c' →
    (∀ d, d ∈ out c' → DurableResult d = w) ∧ Z.of_nat (length (out c')) <= Z.max 0 (plLimit pl)) as Hgen.
  { clear. induction ids as [|id ids IH]; intros c Hd Hl; cbn; [by intros [= <-]|].
    destruct (plLimit pl <=? _) eqn:El; [by intros [= <-]|]. go_bool.
    destruct (leaseOne pl st w id c) as [c1|] eqn:E1; [|done]. cbn.
    apply leaseOne_cases in E1 as [->|(t & protocol & _ & He & Ho)]; [by apply IH|].
    destruct (outcome_out _ _ _ _ _ _ _ _ He Ho) as [Eo|(d & Eo & Ed)]; apply IH; rewrite Eo; [done..| |].
    - intros d' [?| ->%list_elem_of_singleton]%elem_of_app; auto.
    - rewrite length_app. cbn [length]. lia. }
  apply (Hgen c); [rewrite Hc; set_solver|rewrite Hc; cbn; lia|done].
Qed.

Lemma redeliver_limit pl st ids l ds :
  Z.of_nat (length l) <= Z.max 0 (plLimit pl) → redeliver pl st ids l = Ok ds →
  Z.of_nat (length ds) <= Z.max 0 (plLimit pl).
Proof.
  revert l. induction ids as [|[id t] ids IH]; intros l Hl; cbn; [by intros [= <-]|].
  destruct (plLimit pl <=? _) eqn:El; [by intros [= <-]|]. go_bool.
  assert (∀ d, Z.of_nat (length (l ++ [d])) <= Z.max 0 (plLimit pl)) as Hadd.
  { intros d. rewrite length_app. cbn [length]. lia. }
  destruct (gated pl st t) as [protocol current]. destruct (_ || _); [by apply IH|].
  destruct (TargetLeases t !! plNode pl) as [lease|]; [|destruct (_ && _); by apply IH].
  destruct (bool_decide (leLeaseID lease = "")); [destruct (_ && _); by apply IH|].
  match goal with |- (if ?b then _ else _) = _ → _ => destruct b; [done|] end. by apply IH.
Qed.

Lemma onlyGeneric_spec l :
  onlyGenericTaskDeliveries l = true → ∀ d, d ∈ l → DurableResult d = false.
Proof.
  unfold onlyGenericTaskDeliveries. destruct l as [|d0 l]; [done|]. rewrite forallb_elem_of.
  intros H d Hd. by apply negb_true_iff, H.
Qed.

(** Batches are homogeneous and bounded: a poll returns at most [limit]
    deliveries, all durable or all generic, and when the commit is not
    confirmed durable only generic ones; when the write is not committed the
    store is unchanged and nothing fresh is handed out. *)
Theorem batches_homogeneous pl durable p toks st sup st' sup' ds err :
  leaseTaskDeliveries pl durable p toks st sup = (st', sup', (Some ds, err)) →
  (∃ b, ∀ d, d ∈ ds → DurableResult d = b) ∧
  Z.of_nat (length ds) <= Z.max 0 (plLimit pl) ∧
  (err ≠ None → ∀ d, d ∈ ds → DurableResult d = false) ∧
  (committed p = false → st' = st ∧ ∀ d, d ∈ ds → DurableResult d = true).
Proof.
  intros H. assert (err ≠ None → ∀ d, d ∈ ds → DurableResult d = false) as Herr.
  { revert H. unfold leaseTaskDeliveries. intros H Hne.
    repeat (case_match; simplify_eq/=; try done); by apply onlyGeneric_spec. }
  apply poll_cases in H as [[-> H]|(Hc & c & Hrun & -> & H)].
  - destruct H as [?|[H|(l & Hr & H)]]; [done| |]; simplify_eq.
    + split; [exists true; set_solver|]. split; [cbn; lia|]. split; [done|]. set_solver.
    + assert (∀ d, d ∈ l → DurableResult d = true) as Hd.
      { intros d Hd. eapply (redeliver_deliverable pl st _ []) in Hd as [_ ?]; [done|set_solver|done]. }
      split; [by exists true|]. split; [by eapply redeliver_limit; [|exact Hr]; cbn; lia|]. done.
  - destruct H as [|H]; [done|]. simplify_eq.
    assert ((∃ b, ∀ d, d ∈ out c → DurableResult d = b) ∧
            Z.of_nat (length (out c)) <= Z.max 0 (plLimit pl)) as [Hb Hlim].
    { destruct Hrun as [Hr|(c1 & _ & Hr1 & Hr)]; apply leaseFresh_batch in Hr as [? ?]; eauto. }
    split_and!; [done..|]. congruence.
Qed.

(** ** The re-lease limit *)

(** The keys of the targets on file do not collide. *)
Definition keys_distinct (st : State) : Prop :=
  ∀ id1 id2 t1 t2 n1 n2, Tasks st !! id1 = Some t1 → Tasks st !! id2 = Some t2 →
    n1 ∈ tTargets t1 → n2 ∈ tTargets t2 →
    taskResultReceiptKey (tID t1) n1 = taskResultReceiptKey (tID t2) n2 → id1 = id2 ∧ n1 = n2.

Definition onRecord (t : Task) (n : string) : Prop :=
  ∃ lease, TargetLeases t !! n = Some lease ∧ leLeaseID lease ≠ "".

(** Attempts are within the limit, and a counted target of an open task that
    was not given up on has a lease on record. *)
Record attempts_inv (st : State) : Prop := {
  at_keyed : tasks_keyed st;
  at_keys : keys_distinct st;
  at_bound : ∀ id t n, Tasks st !! id = Some t → n ∈ tTargets t →
    0 <= Attempts (targetState (TaskTargetStates st) (tID t) n) <= MaxTaskLeaseAttempts;
  at_leased : ∀ id t n, Tasks st !! id = Some t → n ∈ tTargets t → openStatus t = true →
    0 < Attempts (targetState (TaskTargetStates st) (tID t) n) →
    taskTargetStalled (TaskTargetStates st) (tID t) n = false → onRecord t n;
}.

Lemma onRecord_start t n : onRecord t n → is_Some (taskTargetLeaseStart t n).
Proof.
  intros (lease & Hl & Hne). unfold taskTargetLeaseStart. rewrite Hl, bool_decide_eq_false_2 by done.
  cbn. eauto.
Qed.

Lemma countAttempt_bound s t n attempts reason :
  countAttempt s t n = (attempts, reason) →
  0 <= Attempts (targetState (TaskTargetStates s) (tID t) n) <= MaxTaskLeaseAttempts →
  (0 < Attempts (targetState (TaskTargetStates s) (tID t) n) → is_Some (taskTargetLeaseStart t n)) →
  0 <= attempts <= MaxTaskLeaseAttempts ∧
  (reason = None → attempts < MaxTaskLeaseAttempts) ∧
  (reason ≠ None → is_Some (taskTargetLeaseStart t n)).
Proof.
  unfold countAttempt, MaxTaskLeaseAttempts. intros H Hb Hl.
  destruct (taskTargetLeaseStart t n) as [s0|] eqn:E.
  - assert (0 <= attempts <= 3) as Ha by (injection H as <- _; case_match; go_bool; lia).
    split_and!; [lia|lia| |by eauto]. intros ->. injection H as -> H.
    destruct (agentUpdateSuperseded s t n); [done|]. destruct (3 <=? attempts) eqn:E3; [done|]. go_bool. lia.
  - injection H as <- <-. split_and!; [lia|lia| |done]. intros _.
    destruct (decide (0 < Attempts (targetState (TaskTargetStates s) (tID t) n))) as [Hp|]; [|lia].
    by destruct (Hl Hp).
Qed.

(** The record of one key is [g], the others are as before. *)
Definition recorded (s s' : State) (k : string) (g : TaskTargetState) : Prop :=
  ∀ taskID m, targetState (TaskTargetStates s') taskID m =
    if decide (k = taskResultReceiptKey taskID m) then g else targetState (TaskTargetStates s) taskID m.

Lemma recorded_insert s s' k g :
  TaskTargetStates s' = <[k := g]> (TaskTargetStates s) → recorded s s' k g.
Proof.
  intros H taskID m. unfold targetState. rewrite H. case_decide as E.
  - by rewrite E, lookup_insert_eq.
  - by rewrite lookup_insert_ne.
Qed.
Lemma recorded_same s s' taskID n :
  TaskTargetStates s' = TaskTargetStates s →
  recorded s s' (taskResultReceiptKey taskID n) (targetState (TaskTargetStates s) taskID n).
Proof.
  intros H taskID' m. rewrite H. case_decide as E; [|done]. unfold targetState. by rewrite E.
Qed.

(** One write of a target's record, with the task it belongs to. *)
Lemma attempts_inv_update s s' id t t' n g :
  attempts_inv s → Tasks s !! id = Some t → n ∈ tTargets t →
  Tasks s' = <[id := t']> (Tasks s) → tID t' = tID t → tTargets t' = tTargets t →
  recorded s s' (taskResultReceiptKey (tID t) n) g →
  0 <= Attempts g <= MaxTaskLeaseAttempts →
  (openStatus t' = true → StalledReason g = "" → onRecord t' n) →
  (∀ m, onRecord t m → onRecord t' m) →
  (openStatus t' = true → openStatus t = true) →
  attempts_inv s'.
Proof.
  intros Hi Ht Hn Hts Hid Htg Htt Hb Hl Hm Ho.
  assert (∀ id1 t1, Tasks s' !! id1 = Some t1 → ∃ t0, Tasks s !! id1 = Some t0 ∧ tID t1 = tID t0 ∧
    tTargets t1 = tTargets t0 ∧ (id1 = id → t1 = t' ∧ t0 = t) ∧ (id1 ≠ id → t1 = t0)) as Hback.
  { intros id1 t1. rewrite Hts. destruct (decide (id = id1)) as [<-|?].
    - rewrite lookup_insert_eq. intros [= <-]. by exists t.
    - rewrite lookup_insert_ne by done. intros H1. exists t1. by split_and!. }
  assert (∀ id1 t1 m, Tasks s' !! id1 = Some t1 → m ∈ tTargets t1 →
    (id1 = id ∧ m = n ∧ targetState (TaskTargetStates s') (tID t1) m = g) ∨
    (¬ (id1 = id ∧ m = n) ∧
     targetState (TaskTargetStates s') (tID t1) m = targetState (TaskTargetStates s) (tID t1) m)) as Hst.
  { intros id1 t1 m H1 Hm1. destruct (Hback _ _ H1) as (t0 & H0 & Ei & Et & _).
    rewrite Htt. case_decide as Ek.
    - left. rewrite Ei in Ek. rewrite Et in Hm1.
      destruct (at_keys _ Hi _ _ _ _ _ _ Ht H0 Hn Hm1 Ek) as [-> ->]. done.
    - right. split; [|done]. intros [-> ->].
      rewrite Ht in H0. injection H0 as <-. congruence. }
  split.
  - intros id1 t1 H1. destruct (Hback _ _ H1) as (t0 & H0 & -> & _). by apply (at_keyed _ Hi).
  - intros id1 id2 t1 t2 n1 n2 H1 H2 Hn1 Hn2 Hk.
    destruct (Hback _ _ H1) as (u1 & Hu1 & E1 & F1 & _). destruct (Hback _ _ H2) as (u2 & Hu2 & E2 & F2 & _).
    rewrite E1, E2 in Hk. rewrite F1 in Hn1. rewrite F2 in Hn2. by eapply (at_keys _ Hi).
  - intros id1 t1 m H1 Hm1. destruct (Hst _ _ _ H1 Hm1) as [(_ & _ & ->)|[_ ->]]; [done|].
    destruct (Hback _ _ H1) as (t0 & H0 & -> & F & _). rewrite F in Hm1. by eapply (at_bound _ Hi).
  - intros id1 t1 m H1 Hm1 Ho1 Hp Hns. destruct (Hback _ _ H1) as (t0 & H0 & E & F & Hsame & Hdiff).
    destruct (Hst _ _ _ H1 Hm1) as [(-> & -> & Heq)|[Hne Heq]]; unfold taskTargetStalled in Hns.
    + destruct (Hsame eq_refl) as [-> _]. rewrite Heq in Hns. go_bool. by apply Hl.
    + rewrite Heq, E in Hp, Hns. rewrite F in Hm1. destruct (decide (id1 = id)) as [->|Hd].
      * destruct (Hsame eq_refl) as [-> ->]. apply Hm. eapply (at_leased _ Hi); eauto.
      * rewrite (Hdiff Hd) in *. by eapply (at_leased _ Hi).
Qed.

Lemma onRecord_granted t t' n m leaseID now :
  TargetLeases t' = <[n := mkLease leaseID now]> (TargetLeases t) → leaseID ≠ "" →
  m = n ∨ onRecord t m → onRecord t' m.
Proof.
  intros Hl Hne Hm. unfold onRecord. rewrite Hl. destruct (decide (n = m)) as [<-|Hd].
  - rewrite lookup_insert_eq. eauto.
  - rewrite lookup_insert_ne by done. destruct Hm; [congruence|done].
Qed.

Context {laws : SdkLaws}.

(** A closed task keeps the bound whatever was counted. *)
Lemma attempts_inv_close s s' id t t' n g :
  attempts_inv s → Tasks s !! id = Some t → n ∈ tTargets t →
  Tasks s' = <[id := t']> (Tasks s) → tID t' = tID t → tTargets t' = tTargets t →
  tStatus t' = TaskCancelled → TargetLeases t' = TargetLeases t →
  recorded s s' (taskResultReceiptKey (tID t) n) g →
  0 <= Attempts g <= MaxTaskLeaseAttempts → attempts_inv s'.
Proof.
  intros Hi Ht Hn Hts Hid Htg Hs Hle Htt Hb.
  assert (openStatus t' = false) as Ho.
  { unfold openStatus. rewrite Hs. destruct task_statuses as (_ & _ & _ & N4 & N5 & _).
    by rewrite !bool_decide_eq_false_2 by congruence. }
  eapply (attempts_inv_update s s' id t t' n g); try done; try (rewrite Ho; done).
  intros m (lease & ? & ?). exists lease. by rewrite Hle.
Qed.

Lemma wrap64_attempts z : 0 <= z <= MaxTaskLeaseAttempts → wrap64 z = z.
Proof. unfold MaxTaskLeaseAttempts. intros. apply wrap64_id. unfold int64_min, int64_max. lia. Qed.

Lemma outcome_attempts pl st w id t protocol c c' :
  attempts_inv (staged c) → Tasks (staged c) !! id = Some t → eligible pl st w c t protocol →
  outcome pl id t protocol c c' → attempts_inv (staged c').
Proof.
  intros Hi Ht (_ & _ & Hc) Ho.
  apply canLease_inv in Hc as (Hin & Hopen & _ & Hns & _ & _).
  pose proof (at_keyed _ Hi _ _ Ht) as Hid.
  pose proof (at_bound _ Hi _ _ _ Ht Hin) as Hb.
  assert (∀ attempts reason, countAttempt (staged c) t (plNode pl) = (attempts, reason) →
    0 <= attempts <= MaxTaskLeaseAttempts ∧ (reason = None → attempts < MaxTaskLeaseAttempts)) as Hca.
  { intros attempts reason H. eapply countAttempt_bound in H as (? & ? & _); [done|done|].
    intros Hp. apply onRecord_start. by eapply (at_leased _ Hi). }
  assert (∀ attempts, 0 <= attempts → attempts < MaxTaskLeaseAttempts →
    0 <= wrap64 (attempts + 1) <= MaxTaskLeaseAttempts) as Hw.
  { intros a ? ?. rewrite wrap64_attempts by lia. lia. }
  assert (∀ attempts c1 c', countAttempt (staged c) t (plNode pl) = (attempts, None) →
    Tasks (staged c1) = Tasks (staged c) →
    TaskTargetStates (staged c1) = TaskTargetStates (staged (counted pl t attempts c)) →
    grant pl id t protocol c1 = Ok c' → attempts_inv (staged c')) as Hgrant.
  { intros attempts c1 c2 Hr Et Es Hg. destruct (Hca _ _ Hr) as [? Hlt]. specialize (Hlt eq_refl).
    apply grant_inv in Hg as (secret & t' & E1 & E2 & E3 & E4 & E5 & _ & _ & _ & _ & E6 & _).
    rewrite Et in E1. rewrite Es in E6.
    eapply (attempts_inv_update _ _ id t t' (plNode pl)); [done..|apply recorded_insert; exact E6| | | |done].
    - cbn. apply Hw; lia.
    - intros _ _. by eapply onRecord_granted; [done..|left].
    - intros m Hm. by eapply onRecord_granted; [done..|right]. }
  destruct Ho as [reason _|attempts reason Hr|attempts e Hr _|attempts c' Hr _ Hg|attempts c' Hr _ Hg].
  - destruct (supersede_tasks pl t reason c) as (t' & E1 & E2 & E3 & E4 & E5 & E6 & _). rewrite Hid in E1.
    eapply (attempts_inv_close _ _ id t t' (plNode pl)); [done..|by apply recorded_same|done].
  - destruct (Hca _ _ Hr) as [? _]. 
    eapply (attempts_inv_update _ _ id t t (plNode pl)); [done|done|done| |done|done|by apply recorded_insert; reflexivity|..].
    + symmetry. by apply insert_id.
    + done.
    + intros _ Hs. by apply countAttempt_reason in Hr.
    + done.
    + done.
  - destruct (Hca _ _ Hr) as [? Hlt]. specialize (Hlt eq_refl).
    destruct (staleLineChain_tasks pl t e (counted pl t attempts c)) as (t' & E1 & E2 & E3 & E4 & E5 & E6 & _).
    rewrite Hid in E1.
    eapply (attempts_inv_close _ _ id t t' (plNode pl)); [done..|apply recorded_insert; exact E6|].
    cbn. apply Hw; lia.
  - by eapply Hgrant; [done| | |done].
  - by eapply Hgrant; [done| | |done].
Qed.

(** The re-lease limit holds: polls keep the number of times a target was
    handed a task within [MaxTaskLeaseAttempts], whatever the writes' outcomes;
    a target past the limit is stalled instead of leased. *)
Theorem attempts_bounded pl durable p toks st sup :
  attempts_inv st → attempts_inv (leaseTaskDeliveries pl durable p toks st sup).1.1.
Proof.
  intros Hi. destruct (leaseTaskDeliveries pl durable p toks st sup) as [[st' sup'] [ds err]] eqn:E.
  apply poll_cases in E as [[-> _]|(_ & c & Hrun & -> & _)]; [done|]. cbn [fst].
  eapply (fresh_run_ind pl st toks (fun c => attempts_inv (staged c))) in Hrun; [done|done|].
  intros w id t protocol c1 c2 HP Ht He Ho. by eapply outcome_attempts.
Qed.

(** ** Line chains *)

(** Rewriting an attempt without touching its edge or status. *)
Lemma lc_inv_touch s s' k a a' :
  lc_inv s → LineChainAttempts s !! k = Some a →
  LineChainDefinitions s' = LineChainDefinitions s →
  LineChainAttempts s' = <[k := a']> (LineChainAttempts s) → approvals_keyed (Approvals s') →
  laSourceLineUUID a' = laSourceLineUUID a → laCandidateTargetLineUUID a' = laCandidateTargetLineUUID a →
  laCandidateDefinition a' = laCandidateDefinition a → laStatus a' = laStatus a → lc_inv s'.
Proof.
  intros Hi Hk Hd Ha Hap E1 E2 E3 E4. eapply lc_inv_replace; try done.
  - unfold active. by rewrite E4.
  - eapply acyclic_shrink; [apply Hi|]. intros x y [?|(k' & b & Hk' & Hb & ? & ?)]; [by left|right].
    destruct (decide (k = k')) as [<-|?].
    + rewrite lookup_insert_eq in Hk'. injection Hk' as <-. exists k, a.
      unfold applying in *. rewrite E4, E2 in Hb. split_and!; [done..|congruence|congruence].
    + rewrite lookup_insert_ne in Hk' by done. eauto 10.
Qed.

(** A failed attempt may be written anywhere. *)
Lemma lc_inv_fail s s' k a' :
  lc_inv s → LineChainDefinitions s' = LineChainDefinitions s →
  LineChainAttempts s' = <[k := a']> (LineChainAttempts s) → approvals_keyed (Approvals s') →
  consistent a' → laStatus a' = LineChainStatusFailed → lc_inv s'.
Proof.
  intros Hi Hd Ha Hap Hc Hf. split; rewrite ?Hd, ?Ha; [| | |done].
  - apply acyclic_retire; [apply Hi|]. unfold applying. by rewrite Hf.
  - intros k' b. destruct (decide (k = k')) as [<-|?]; [rewrite lookup_insert_eq; by intros [= <-]|].
    rewrite lookup_insert_ne by done. apply Hi.
  - intros k1 k2 a1 a2. destruct (decide (k = k1)) as [<-|?], (decide (k = k2)) as [<-|?];
      rewrite ?lookup_insert_eq, ?lookup_insert_ne by done; [done|..].
    + intros [= <-] _ Hx. by destruct Hx.
    + intros _ [= <-] _ Hx. by destruct Hx.
    + apply (inv_single _ Hi).
Qed.

Lemma gated_chain pl st t :
  gated pl st t = (DurableProtocolLineChainV2, true) → approvals_keyed (Approvals st) →
  is_Some (LineChainAttempts st !! tApprovalID t).
Proof.
  unfold gated. intros H Hk. destruct (_ || _); [done|].
  destruct (Approvals st !! tApprovalID t) as [a|] eqn:Ea; [|done].
  destruct (lineChainApproval a).
  - injection H as H. rewrite (Hk _ _ Ea) in H. destruct (LineChainAttempts st !! _); [by eauto|].
    by rewrite andb_false_r in H.
  - destruct (_ || _); done.
Qed.

Lemma supersede_lc pl t reason c :
  lc_inv (staged c) → lc_inv (staged (supersedeGuardWriter pl t reason c)) ∧
  LineChainAttempts (staged (supersedeGuardWriter pl t reason c)) = LineChainAttempts (staged c).
Proof.
  intros Hi. unfold supersedeGuardWriter. destruct (guardWriteOfTaskLocked _ _) as [[[ap w] rerun] ok].
  cbn [staged]. destruct rerun.
  - split; [|done]. by eapply lc_inv_same; [..|exact Hi]; [..|apply Hi].
  - assert (approvals_keyed (<[aID ap := with_aUpdatedAt (plNow pl) (with_aReason (truncateRunes reason 240)
      (with_aStaleCode ApprovalStaleGuardOwnerChanged (with_aStale true (with_aStatus ApprovalRejected ap))))]>
      (Approvals (staged c)))) as Hk by (apply approvals_keyed_insert; [apply Hi|done]).
    destruct (selfDNSDeploymentID _); [destruct (negb _); [|destruct (DNSDeployments _ !! _); [destruct (_ =?? _)|]]|];
      (split; [|done]); by eapply lc_inv_same; [..|exact Hi].
Qed.

Lemma stale_lc pl t e c :
  lc_inv (staged c) → lc_inv (staged (staleLineChain pl t e c)) ∧
  dom (LineChainAttempts (staged c)) ⊆ dom (LineChainAttempts (staged (staleLineChain pl t e c))).
Proof.
  intros Hi. unfold staleLineChain. set (ap := with_aUpdatedAt _ _). set (a := with_laLastError _ _).
  set (s := with_LineChainAttempts _ _).
  assert (lc_inv s) as Hs.
  { eapply (lc_inv_fail (staged c) s _ a); [done..| | |done].
    - apply approvals_keyed_insert; [apply Hi|done].
    - unfold a, consistent. cbn. destruct (LineChainAttempts (staged c) !! tApprovalID t) as [b|] eqn:E; [|done].
      exact (inv_consistent _ Hi _ _ E). }
  assert (dom (LineChainAttempts (staged c)) ⊆ dom (LineChainAttempts s)) as Hd.
  { cbn. rewrite dom_insert. set_solver. }
  clearbody s. destruct (stageLineChainAuditEvidence _ _ _) as [s1|] eqn:Es; [|done].
  cbn [staged]. pose proof (lc_inv_staged _ _ _ _ Es Hs) as Hs1.
  apply stage_chains in Es as (_ & Ea & _). cbn. rewrite Ea. split; [|done].
  by eapply lc_inv_same; [..|exact Hs1]; [..|apply Hs1].
Qed.

Lemma grant_lc pl id t protocol c c' :
  lc_inv (staged c) → grant pl id t protocol c = Ok c' →
  (protocol = DurableProtocolLineChainV2 → is_Some (LineChainAttempts (staged c) !! tApprovalID t)) →
  lc_inv (staged c') ∧ dom (LineChainAttempts (staged c)) ⊆ dom (LineChainAttempts (staged c')).
Proof.
  intros Hi Hg Hp. unfold grant in Hg. destruct (tokens c) as [|[secret|] rest]; [done| |done].
  set (t' := if is_zero _ then _ else _) in Hg.
  assert (tApprovalID t' = tApprovalID t) as Ht by (unfold t'; by destruct (is_zero _)). clearbody t'.
  injection Hg as <-. cbn [staged].
  destruct (bool_decide (protocol = DurableProtocolLineChainV2)) eqn:Eb; go_bool.
  - destruct (Hp Eb) as [a Ha]. split.
    + eapply (lc_inv_touch (staged c) _ (tApprovalID t') a); [done|by rewrite Ht|done|done|apply Hi|..];
        cbn; by rewrite Ht, Ha.
    + cbn. rewrite dom_insert. set_solver.
  - split; [|done]. by eapply lc_inv_same; [..|exact Hi]; [..|apply Hi].
Qed.

Lemma outcome_lc pl st w id t protocol c c' :
  approvals_keyed (Approvals st) →
  lc_inv (staged c) ∧ dom (LineChainAttempts st) ⊆ dom (LineChainAttempts (staged c)) →
  eligible pl st w c t protocol → outcome pl id t protocol c c' →
  lc_inv (staged c') ∧ dom (LineChainAttempts st) ⊆ dom (LineChainAttempts (staged c')).
Proof.
  intros Hk [Hi Hd] (Hg & _ & _) Ho.
  assert (∀ attempts, lc_inv (staged (counted pl t attempts c))) as Hcnt.
  { intros. by eapply lc_inv_same; [..|exact Hi]; [..|apply Hi]. }
  destruct Ho as [reason _|attempts reason _|attempts e _ _|attempts c' _ Hne Hgr|attempts c' _ -> Hgr].
  - destruct (supersede_lc pl t reason c Hi) as [? ->]. done.
  - split; [|done]. by eapply lc_inv_same; [..|exact Hi]; [..|apply Hi].
  - destruct (stale_lc pl t e _ (Hcnt attempts)) as [? Hd']. split; [done|]. by etrans.
  - destruct (grant_lc _ _ _ _ _ _ (Hcnt attempts) Hgr) as [? Hd']; [done|]. split; [done|]. by etrans.
  - assert (is_Some (LineChainAttempts (staged c) !! tApprovalID t)) as [a Ha].
    { apply elem_of_dom, Hd, elem_of_dom. by eapply gated_chain. }
    assert (lc_inv (staged (firstLeased pl t (counted pl t attempts c))) ∧
      LineChainAttempts (staged (firstLeased pl t (counted pl t attempts c))) !! tApprovalID t ≠ None ∧
      dom (LineChainAttempts (staged c)) ⊆
        dom (LineChainAttempts (staged (firstLeased pl t (counted pl t attempts c))))) as (H1 & H2 & H3).
    { split_and!.
      - eapply (lc_inv_touch (staged c) _ (tApprovalID t) a); [done|done|done|done|apply Hi|..]; cbn; by rewrite Ha.
      - cbn. by rewrite lookup_insert_eq.
      - cbn. rewrite dom_insert. set_solver. }
    destruct (grant_lc _ _ _ _ _ _ H1 Hgr) as [? Hd'].
    + intros _. by apply not_eq_None_Some.
    + split; [done|]. by etrans; [|etrans].
Qed.

(** Delivery keeps the chain graph sound: a poll, with its first-lease
    checks, stale rejections and issued leases, preserves the line-chain
    invariant, so the acyclicity of the graph extends to every interleaving of
    polls with the chain operations. *)
Theorem polls_keep_chains pl durable p toks st sup :
  lc_inv st → lc_inv (leaseTaskDeliveries pl durable p toks st sup).1.1.
Proof.
  intros Hi. destruct (leaseTaskDeliveries pl durable p toks st sup) as [[st' sup'] [ds err]] eqn:E.
  apply poll_cases in E as [[-> _]|(_ & c & Hrun & -> & _)]; [done|]. cbn [fst].
  eapply (fresh_run_ind pl st toks (fun c => lc_inv (staged c) ∧
    dom (LineChainAttempts st) ⊆ dom (LineChainAttempts (staged c)))) in Hrun as [? _]; [done|done|].
  intros w id t protocol c1 c2 HP _ He Ho. eapply outcome_lc; [apply Hi|done..].
Qed.

(** ** Superseded updates *)

Definition outranks (target version : string) : Prop :=
  trim_space version ≠ "" ∧ ∃ c, CompareAgentVersions target (trim_space version) = Some c ∧ c < 0.

Lemma newestCandidate_nonempty target newest version :
  newestCandidate target newest version ≠ "" ↔ newest ≠ "" ∨ outranks target version.
Proof.
  unfold newestCandidate, outranks. case_bool_decide as E; [naive_solver|].
  destruct (CompareAgentVersions target (trim_space version)) as [c|] eqn:Ec; [|naive_solver].
  destruct (0 <=? c) eqn:Ez; go_bool; [split; [by left|]; intros [?|(_ & ? & [= <-] & ?)]; [done|lia]|].
  case_bool_decide; [naive_solver|].
  destruct (CompareAgentVersions _ newest) as [c'|]; [destruct (0 <? c')|]; naive_solver.
Qed.

(** An agent update is never re-leased into a downgrade: for a task filed by
    an agent-update approval, a dead lease leads to giving up on the target
    exactly when the version the node reports or the version an update policy
    applied is newer than the task's, or the attempts are used up. *)
Theorem update_not_rereleased st t n a target :
  tApprovalID t ≠ "" → Approvals st !! tApprovalID t = Some a → aPlugin a = AgentUpdatePlugin →
  agentUpdateTargetVersion a = Some target → is_Some (taskTargetLeaseStart t n) →
  is_Some (countAttempt st t n).2 ↔
  outranks target (match Nodes st !! n with Some node => AgentVersion node | None => "" end) ∨
  outranks target (default "" (LastAppliedVersions st !! n)) ∨
  MaxTaskLeaseAttempts <= Attempts (targetState (TaskTargetStates st) (tID t) n).
Proof.
  intros Hne Ha Hp Ht [s0 Hs]. unfold countAttempt. rewrite Hs. cbn [snd].
  unfold agentUpdateSuperseded. rewrite bool_decide_eq_false_2, Ha, Hp, Ht by done.
  rewrite bool_decide_eq_true_2 by done. cbn [negb foldl].
  set (reported := match Nodes st !! n with Some _ => _ | None => _ end).
  set (applied := default "" _). set (g := targetState _ _ _).
  assert (newestCandidate target (newestCandidate target "" reported) applied ≠ "" ↔
          outranks target reported ∨ outranks target applied) as Hn.
  { rewrite !newestCandidate_nonempty. naive_solver. }
  assert (MaxTaskLeaseAttempts <=? (if Attempts g =? 0 then 1 else Attempts g) =
          (MaxTaskLeaseAttempts <=? Attempts g)) as ->.
  { unfold MaxTaskLeaseAttempts. destruct (Attempts g =? 0) eqn:E; [|done]. go_bool. by rewrite E. }
  destruct (bool_decide (newestCandidate _ _ applied = "")) eqn:E; go_bool.
  - destruct (MaxTaskLeaseAttempts <=? Attempts g) eqn:Em; go_bool.
    + split; [|by eauto]. intros _. by right; right.
    + split; [by intros [? ?]|]. intros [?|[?|?]]; [exfalso; apply Hn; auto..|lia].
  - split; [|by eauto]. intros _. apply Hn in E. tauto.
Qed.
End Delivery.

(** ** Concrete polls *)

#[local] Existing Instance demo_sdk.
#[local] Existing Instance demo_sdk_laws.
Module PollDemo.
#[export] Instance env : LeaseEnv :=
  Build_LeaseEnv (fun _ => Some "") (fun _ => None) (fun _ => None) (fun s => Some s)
    "beacon" "beacon-plan" map_to_list.

Definition pl (limit : Z) (clock : time) : poll :=
  mkPoll "n1" limit "nft" NetGuardApplyAction true true None clock clock 0.
Definition fresh : Task := mkTask "t1" ["n1"] "queued" "" "" 1 60 ∅ "" "" 0 0 "run" "" "".
Definition held : Task :=
  mkTask "t2" ["n1"] "leased" "" "" 2 60 {["n1" := mkLease "lease_a" 5]} "n1" "lease_a" 5 0 "run" "" "".
Definition st : State := with_Tasks {["t1" := fresh; "t2" := held]} empty_state.
Definition run := leaseTaskDeliveries (pl 3 100) true PersistOk [Some "b"] st [].

Definition ds : list TaskDelivery := default [] run.2.1.
Lemma run_ok : run = (run.1.1, run.1.2, (Some ds, None)).
Proof. vm_compute. reflexivity. Qed.
(** The queued task is handed out; the one under a live lease is not. *)
Example run_delivers : (fun d => (tID (dvTask d), tLeaseID (dvTask d), DurableResult d)) <$> ds
  = [("t1", "lease_b", false)].
Proof. vm_compute. reflexivity. Qed.

Lemma st_cases id t : Tasks st !! id = Some t → (id = "t1" ∧ t = fresh) ∨ (id = "t2" ∧ t = held).
Proof.
  change (Tasks st) with (<["t1" := fresh]> ({["t2" := held]} : gmap string Task)).
  intros [[<- <-]|[_ [<- <-]%lookup_singleton_Some]]%lookup_insert_Some; auto.
Qed.
Lemma st_keyed : tasks_keyed st.
Proof. intros id t [[-> ->]|[-> ->]]%st_cases; done. Qed.
Lemma st_keys : keys_distinct st.
Proof.
  assert (taskResultReceiptKey "t1" "n1" ≠ taskResultReceiptKey "t2" "n1") as Hne.
  { apply (bool_decide_unpack _). vm_compute. exact I. }
  intros id1 id2 t1 t2 n1 n2 [[-> ->]|[-> ->]]%st_cases [[-> ->]|[-> ->]]%st_cases
    ->%list_elem_of_singleton ->%list_elem_of_singleton Hk;
    [split; reflexivity|destruct (Hne Hk)|destruct (Hne (eq_sym Hk))|split; reflexivity].
Qed.
Lemma st_attempts : attempts_inv st.
Proof.
  split; [apply st_keyed|apply st_keys| |].
  - intros id t n _ _. cbn. unfold targetState. rewrite lookup_empty. done.
  - intros id t n _ _ _ H. cbn in H. unfold targetState in H. rewrite lookup_empty in H. done.
Qed.
Definition update : Approval :=
  mkApproval "p1" AgentUpdatePlugin "" "" "update-agent:1.2.0" "" "n1" [] "approved" false "" "" "" "" "" 1 1.
Definition updating : Task :=
  mkTask "t2" ["n1"] "leased" "p1" "" 2 60 {["n1" := mkLease "lease_a" 5]} "n1" "lease_a" 5 0 "run" "" "".
Definition st_update : State := with_Approvals {["p1" := update]} st.
End PollDemo.
Import (hints) Demo PollDemo.

Lemma deliveries_sound_witness :
  (∀ d, d ∈ PollDemo.ds → deliverable (PollDemo.pl 3 100) PollDemo.st d) ∧
  stalls_kept PollDemo.st PollDemo.run.1.1.
Proof. exact (deliveries_sound _ true PersistOk [Some "b"] _ [] _ _ _ _ PollDemo.run_ok). Defined.

Lemma live_lease_is_exclusive_witness :
  Tasks PollDemo.run.1.1 !! "t2" = Some PollDemo.held ∧
  ∃ t', Tasks PollDemo.run.1.1 !! "t2" = Some t' ∧ TargetLeases t' !! "n1" = Some (mkLease "lease_a" 5).
Proof.
  destruct (live_lease_is_exclusive (PollDemo.pl 3 100) true PersistOk [Some "b"] PollDemo.st [] _ _ _ _ "t2"
    PollDemo.held "n1" (mkLease "lease_a" 5) PollDemo.run_ok PollDemo.st_keyed) as [H1 H2];
    [vm_compute; reflexivity|vm_compute; reflexivity|discriminate|vm_compute; reflexivity|].
  split; [apply H1; reflexivity|exact H2].
Defined.

Lemma batches_homogeneous_witness : (∃ b, ∀ d, d ∈ PollDemo.ds → DurableResult d = b).
Proof.
  apply (batches_homogeneous (PollDemo.pl 3 100) true PersistOk [Some "b"] PollDemo.st [] _ _ _ _
    PollDemo.run_ok).
Defined.

Lemma attempts_bounded_witness : attempts_inv PollDemo.run.1.1.
Proof.
  exact (attempts_bounded (PollDemo.pl 3 100) true PersistOk [Some "b"] PollDemo.st [] PollDemo.st_attempts).
Defined.

Lemma polls_keep_chains_witness :
  lc_inv (leaseTaskDeliveries (PollDemo.pl 3 100) true PersistOk [Some "b"] Demo.st1 []).1.1.
Proof. exact (polls_keep_chains (PollDemo.pl 3 100) true PersistOk [Some "b"] Demo.st1 [] Demo.inv_st1). Defined.

Lemma update_not_rereleased_witness :
  is_Some (countAttempt PollDemo.st_update PollDemo.updating "n1").2 ↔
  outranks "1.2.0" "" ∨ outranks "1.2.0" "" ∨ MaxTaskLeaseAttempts <= 0.
Proof.
  refine (update_not_rereleased PollDemo.st_update PollDemo.updating "n1" PollDemo.update "1.2.0" _ _ _ _ _);
    [discriminate|vm_compute; reflexivity|reflexivity|vm_compute; reflexivity|].
  eexists. vm_compute. reflexivity.
Defined.
