(* ===== verification/PluginBroker.v ===== *)
(** * The plugin broker ([internal/plugin/broker.go], [host_store_schedule.go],
      [kv_compare.go], [operation.go], [rpc.go], [invoke_budget.go])

    A plugin runs in a child process and reaches the server through host
    calls only.  The broker checks each one against the capabilities the
    verified manifest declares, pins storage keys to the plugin's own
    namespace, checks an approved operation's grant, and hands the rest to the
    server's host services.

    The host services are a record of operations on a world [W] of the
    host's own; what the broker promises is proved here for every such record,
    and PluginHost.v gives the server's.  A service the server did not wire
    in, or an optional half a host does not offer, is [None].  The decoded
    parameters of a host call are a [hostCall]; malformed ones never reach the
    broker. *)

From Stdlib Require Import ZArith Lia Ascii.
From stdpp Require Import gmap strings.
From S2P Require Import Prelude GoStr Utf8 Sha.

Local Open Scope Z_scope.

(** ** Invocation budgets *)

Definition DefaultInvokeTimeoutMS : Z := 10000.
Definition DefaultInvokeStdoutBytes : Z := 2 ^ 20.
Definition DefaultInvokeStderrBytes : Z := 2 ^ 20.
Definition DefaultInvokeHostCalls : Z := 64.
Definition HostMaxInvokeTimeoutMS : Z := 30000.
Definition HostMaxInvokeStdoutBytes : Z := 8 * 2 ^ 20.
Definition HostMaxInvokeStderrBytes : Z := 2 ^ 20.
Definition HostMaxInvokeHostCalls : Z := 512.
Definition DefaultInvokeHTTPResponseBytes : Z := 256 * 2 ^ 10.
Definition HostMaxInvokeHTTPResponseBytes : Z := 8 * 2 ^ 20.

Record InvokeBudgetSpec := mkBudgetSpec {
  bsTimeoutMS : Z; bsStdoutBytes : Z; bsStderrBytes : Z; bsHostCalls : Z; bsHTTPResponseBytes : Z }.
Inductive budgetError :=
| MissingField
| ExplicitZero
| NotPositive (field : string)
| OverMaximum (field : string).
(** The decoded JSON object: absent fields are [None]. *)
Record rawBudget := mkRawBudget {
  rbTimeoutMS : option Z; rbStdoutBytes : option Z; rbStderrBytes : option Z; rbHostCalls : option Z; rbHTTPResponseBytes : option Z }.
Definition UnmarshalJSON (raw : rawBudget) : res budgetError InvokeBudgetSpec :=
  match rbTimeoutMS raw, rbStdoutBytes raw, rbStderrBytes raw, rbHostCalls raw with
  | Some t, Some o, Some e, Some h =>
    match rbHTTPResponseBytes raw with
    | Some b => if b <=? 0 then Err ExplicitZero else Ok (mkBudgetSpec t o e h b)
    | None => Ok (mkBudgetSpec t o e h 0)
    end
  | _, _, _, _ => Err MissingField
  end.
(** What a budget encodes to: the four fields, and the fifth when it is not
    zero ([omitempty]). *)
Definition MarshalJSON (b : InvokeBudgetSpec) : rawBudget :=
  mkRawBudget (Some (bsTimeoutMS b)) (Some (bsStdoutBytes b)) (Some (bsStderrBytes b)) (Some (bsHostCalls b))
    (if bsHTTPResponseBytes b =? 0 then None else Some (bsHTTPResponseBytes b)).
Definition DefaultInvokeBudgetSpec : InvokeBudgetSpec :=
  mkBudgetSpec DefaultInvokeTimeoutMS DefaultInvokeStdoutBytes DefaultInvokeStderrBytes DefaultInvokeHostCalls 0.
Definition validateInvokeBudgetPositive (b : InvokeBudgetSpec) : option budgetError :=
  if bsTimeoutMS b <=? 0 then Some (NotPositive "timeout_ms")
  else if bsStdoutBytes b <=? 0 then Some (NotPositive "stdout_bytes")
  else if bsStderrBytes b <=? 0 then Some (NotPositive "stderr_bytes")
  else if bsHostCalls b <? 0 then Some (NotPositive "host_calls")
  else if bsHTTPResponseBytes b <? 0 then Some (NotPositive "http_response_bytes")
  else None.
Definition ValidateInvokeBudgetSpec (b : InvokeBudgetSpec) : option budgetError :=
  match validateInvokeBudgetPositive b with
  | Some err => Some err
  | None =>
    if HostMaxInvokeTimeoutMS <? bsTimeoutMS b then Some (OverMaximum "timeout_ms")
    else if HostMaxInvokeStdoutBytes <? bsStdoutBytes b then Some (OverMaximum "stdout_bytes")
    else if HostMaxInvokeStderrBytes <? bsStderrBytes b then Some (OverMaximum "stderr_bytes")
    else if HostMaxInvokeHostCalls <? bsHostCalls b then Some (OverMaximum "host_calls")
    else if HostMaxInvokeHTTPResponseBytes <? bsHTTPResponseBytes b then Some (OverMaximum "http_response_bytes")
    else None
  end.
Definition clampInvokeBudget (b : InvokeBudgetSpec) : InvokeBudgetSpec :=
  let cap max v := if max <? v then max else v in
  mkBudgetSpec (cap HostMaxInvokeTimeoutMS (bsTimeoutMS b)) (cap HostMaxInvokeStdoutBytes (bsStdoutBytes b))
    (cap HostMaxInvokeStderrBytes (bsStderrBytes b)) (cap HostMaxInvokeHostCalls (bsHostCalls b))
    (cap HostMaxInvokeHTTPResponseBytes (bsHTTPResponseBytes b)).
Definition millisecond : duration := 1000000.
Record ResolvedInvokeBudget := mkBudget {
  rvTimeout : duration; rvStdoutBytes : Z; rvStderrBytes : Z; rvHostCalls : Z; rvHTTPResponseBytes : Z; rvDeclared : bool }.
Definition ResolveInvokeBudget (spec : option InvokeBudgetSpec) (defaults : InvokeBudgetSpec) : ResolvedInvokeBudget :=
  let b := clampInvokeBudget (default defaults spec) in
  let pos dflt v := if v <=? 0 then dflt else v in
  mkBudget (wrap64 (pos DefaultInvokeTimeoutMS (bsTimeoutMS b) * millisecond)) (pos DefaultInvokeStdoutBytes (bsStdoutBytes b))
    (pos DefaultInvokeStderrBytes (bsStderrBytes b)) (if bsHostCalls b <? 0 then 0 else bsHostCalls b)
    (pos DefaultInvokeHTTPResponseBytes (bsHTTPResponseBytes b)) (match spec with Some _ => true | None => false end).

(** ** Errors and data *)

Inductive hostError :=
| ErrCapabilityDenied (pluginID capability : string)
| ErrHostServiceUnavailable (what : string)
| ErrGenerationRevoked
| ErrCanceled
| ErrKVConflict
| ErrRPCDenied (caller service : string)
| ErrRPCNoService (service : string)
| ErrRPCOwnerInactive (service owner : string)
| ErrRPCNoMethod (service method : string)
| ErrBlocked (why : string)
| ErrRefused (why : string).

Record HostHTTPRequest := mkHTTPRequest {
  hqMethod : string; hqURL : string; hqHeader : gmap string string; hqBody : string; hqResponseLimit : Z }.
Record HostHTTPResponse := mkHTTPResponse { hpStatusCode : Z; hpHeader : gmap string string; hpBody : string }.
Record HostLogEntry := mkLogEntry { leID : string; leLevel : string; leMessage : string; leFields : gmap string string }.
Record HostCallEvent := mkCallEvent {
  heID : string; heAction : string; heCapability : string; heDecision : string; heReason : option hostError }.
Record HostTaskRequest := mkTaskRequest {
  htPluginID : string; htApprovalID : string; htNodeID : string; htInterpreter : string; htScript : string; htTimeoutSec : Z }.
Record OperationGrant := mkGrant {
  ogApprovalID : string; ogPluginID : string; ogPlanSHA256 : string; ogTargets : list string; ogRemaining : Z }.
Definition AllowsTarget (g : OperationGrant) (nodeID : string) : bool := existsb (fun t => t =?? nodeID) (ogTargets g).
Record TaskSchedule := mkSchedule { tsID : string; tsService : string; tsMethod : string; tsCron : string; tsPayload : string }.
(** [RPCGrant]: service, then method. *)
Definition RPCGrant : Type := gmap string (gset string).

(** What the SDK fixes: names, the bound on a schedule's id, the shape check
    of a schedule and the digest of a stored value. *)
Class PluginSdk := {
  CapabilityTaskSchedule : string;
  HostMethodTaskSchedule : string;
  HostMethodTaskUnschedule : string;
  MaxTaskScheduleIDBytes : Z;
  scheduleValidate : TaskSchedule → option hostError;
  sdkKVValueDigest : string → string;
}.

Definition capHTTPEgress : string := "http:egress".
Definition capHTTPOperatorTarget : string := "http:operator-target".
Definition capKVRead : string := "kv:read".
Definition capKVWrite : string := "kv:write".
Definition capLogWrite : string := "log:write".
Definition capNotifySend : string := "notify:send".
Definition capRPCCall : string := "rpc:call".
Definition capRPCExpose : string := "rpc:expose".
Definition capSecretRead : string := "secret:read".
Definition capSecretWrite : string := "secret:write".
Definition capTaskRun : string := "task:run".
Definition kvBucketPrefix : string := "plugin:".
Definition secretBucketPrefix : string := "pluginsecret:".
Definition secretMaxValueBytes : Z := 64 * 1024.
Definition logMaxMessageBytes : nat := 8192.
Definition logMaxFields : nat := 32.
Definition logTruncatedSuffix : string := "...[truncated]".
Definition maxOperationScriptSize : Z := 64 * 1024.

(** ** Host services *)

Section broker.
Context {W : Type}.

Record KVHost := mkKVHost {
  kvGet : string → W → res hostError (option string);
  kvPut : string → string → W → W * option hostError;
  kvPutIfMatch : option (string → string → string → W → W * option hostError);
  kvDelete : option (string → W → W * option hostError) }.
Record SecretHost := mkSecretHost {
  scGet : string → W → res hostError (option string);
  scPut : string → string → W → W * option hostError;
  scDelete : string → W → W * option hostError }.
Record TaskScheduleHost := mkScheduleHost {
  shSchedule : string → TaskSchedule → W → W * option hostError;
  shUnschedule : string → string → W → W * res hostError bool }.
Record TaskHost := mkTaskHost {
  thEnqueue : HostTaskRequest → W → W * res hostError string;
  thSchedule : option TaskScheduleHost }.
Definition HTTPDoer : Type := HostHTTPRequest → W → W * res hostError HostHTTPResponse.
Definition RPCGranted : Type := string → RPCGrant → string → string → string → W → W * res hostError string.
(** The guards answer from what they resolve. *)
Record HostServices := mkServices {
  hsKV : option KVHost; hsSecret : option SecretHost; hsTask : option TaskHost;
  hsNotify : option (string → string → string → W → W * option hostError);
  hsHTTP : option HTTPDoer; hsOperatorHTTP : option HTTPDoer;
  hsLog : option (HostLogEntry → W → W * option hostError);
  hsAudit : option (HostCallEvent → W → W);
  hsRPC : option (option RPCGranted);
  hsGuardURL : string → W → option string;
  hsGuardOperatorURL : string → W → option string;
  (** [outbound.GuardOperatorTargetBinding base target] *)
  hsTargetBinding : string → string → option string }.

Record Broker := mkBroker {
  pluginID : string; capabilities : gset string; services : HostServices; rpcGrant : RPCGrant }.
Definition kvBucket (b : Broker) : string := kvBucketPrefix +:+ pluginID b.
Definition secretBucket (b : Broker) : string := secretBucketPrefix +:+ pluginID b.
Definition HasCapability (b : Broker) (cap : string) : bool := bool_decide (cap ∈ capabilities b).
Definition CanExposeRPC (b : Broker) : bool := HasCapability b capRPCExpose.

(** What the host binds to one invocation, and never shows the child. *)
Record invocation := mkInvocation {
  ivTargets : list string; ivGrant : option OperationGrant; ivService : string; ivMethod : string; ivHTTPResponseBytes : Z }.

Definition record (b : Broker) (ev : HostCallEvent) (w : W) : W :=
  match hsAudit (services b) with Some f => f ev w | None => w end.
(** [revoked]: whether the plugin's generation has been revoked by now. *)
Definition require (b : Broker) (revoked : bool) (action cap : string) (w : W) : W * option hostError :=
  if revoked then (w, Some ErrGenerationRevoked)
  else if HasCapability b cap then (record b (mkCallEvent (pluginID b) action cap "allow" None) w, None)
  else let err := ErrCapabilityDenied (pluginID b) cap in
       (record b (mkCallEvent (pluginID b) action cap "deny" (Some err)) w, Some err).

Definition has_slash (s : string) : bool := existsb (fun c => mem c ["/"%char; "\"%char]) (bytes_of s).
Definition scopedKVKey (b : Broker) (key : string) : res hostError string :=
  fail_if key =?? "" with ErrRefused "plugin kv key must not be empty" ;
  fail_if has_slash key with ErrRefused "plugin kv key must not contain a slash" ;
  Ok (kvBucket b +:+ "/" +:+ key).
Definition scopedSecretKey (b : Broker) (key : string) : res hostError string :=
  fail_if key =?? "" with ErrRefused "plugin secret key must not be empty" ;
  fail_if has_slash key with ErrRefused "plugin secret key must not contain a slash" ;
  Ok (secretBucket b +:+ "/" +:+ key).

(** A call's answer. *)
Definition answer (A : Type) : Type := (W * res hostError A)%type.
Definition checked {A} (b : Broker) (revoked : bool) (action cap : string) (k : W → answer A) (w : W) : answer A :=
  match require b revoked action cap w with
  | (w, Some err) => (w, Err err)
  | (w, None) => k w
  end.
Definition unit_of (x : W * option hostError) : answer unit :=
  match x with (w, Some err) => (w, Err err) | (w, None) => (w, Ok tt) end.

(** ** Storage *)

Definition KVGet (b : Broker) (revoked : bool) (key : string) : W → answer (option string) :=
  checked b revoked "kv.get" capKVRead (fun w =>
    match hsKV (services b) with
    | None => (w, Err (ErrHostServiceUnavailable "kv"))
    | Some kv => match scopedKVKey b key with Err err => (w, Err err) | Ok scoped => (w, kvGet kv scoped w) end
    end).
Definition KVPut (b : Broker) (revoked : bool) (key value : string) : W → answer unit :=
  checked b revoked "kv.put" capKVWrite (fun w =>
    match hsKV (services b) with
    | None => (w, Err (ErrHostServiceUnavailable "kv"))
    | Some kv => match scopedKVKey b key with Err err => (w, Err err) | Ok scoped => unit_of (kvPut kv scoped value w) end
    end).
Definition validKVDigest (digest : string) : bool :=
  (String.length digest =? 64)%nat && forallb is_hex_lower (bytes_of digest).
Definition KVPutIfMatch (b : Broker) (revoked : bool) (key value ifMatch : string) : W → answer unit :=
  checked b revoked "kv.put" capKVWrite (fun w =>
    if negb (ifMatch =?? "") && negb (validKVDigest ifMatch)
    then (w, Err (ErrRefused "kv.put if_match must be empty or a lowercase hex sha256")) else
    match hsKV (services b) ≫= kvPutIfMatch with
    | None => (w, Err (ErrHostServiceUnavailable "kv compare-and-swap"))
    | Some put => match scopedKVKey b key with Err err => (w, Err err) | Ok scoped => unit_of (put scoped value ifMatch w) end
    end).
Definition KVDelete (b : Broker) (revoked : bool) (key : string) : W → answer unit :=
  checked b revoked "kv.delete" capKVWrite (fun w =>
    match hsKV (services b) ≫= kvDelete with
    | None => (w, Err (ErrHostServiceUnavailable "kv delete"))
    | Some del => match scopedKVKey b key with Err err => (w, Err err) | Ok scoped => unit_of (del scoped w) end
    end).
Definition SecretGet (b : Broker) (revoked : bool) (key : string) : W → answer (option string) :=
  checked b revoked "secret.get" capSecretRead (fun w =>
    match hsSecret (services b) with
    | None => (w, Err (ErrHostServiceUnavailable "secret"))
    | Some sc => match scopedSecretKey b key with Err err => (w, Err err) | Ok scoped => (w, scGet sc scoped w) end
    end).
Definition SecretPut (b : Broker) (revoked : bool) (key value : string) : W → answer unit :=
  checked b revoked "secret.put" capSecretWrite (fun w =>
    match hsSecret (services b) with
    | None => (w, Err (ErrHostServiceUnavailable "secret"))
    | Some sc =>
      if secretMaxValueBytes <? Z.of_nat (String.length value) then (w, Err (ErrRefused "plugin secret value exceeds 65536 bytes")) else
      match scopedSecretKey b key with Err err => (w, Err err) | Ok scoped => unit_of (scPut sc scoped value w) end
    end).
Definition SecretDelete (b : Broker) (revoked : bool) (key : string) : W → answer unit :=
  checked b revoked "secret.delete" capSecretWrite (fun w =>
    match hsSecret (services b) with
    | None => (w, Err (ErrHostServiceUnavailable "secret"))
    | Some sc => match scopedSecretKey b key with Err err => (w, Err err) | Ok scoped => unit_of (scDelete sc scoped w) end
    end).

(** ** Tasks and approved operations *)

(** The grant bound to the invocation after the call, and the answer. *)
Definition with_ogRemaining (n : Z) (g : OperationGrant) : OperationGrant :=
  mkGrant (ogApprovalID g) (ogPluginID g) (ogPlanSHA256 g) (ogTargets g) n.
Definition BindOperation (grant : option OperationGrant) (bound : option OperationGrant) : res hostError (option OperationGrant) :=
  match grant with
  | None => Ok bound
  | Some g =>
    fail_if (ogApprovalID g =?? "") || (ogPlanSHA256 g =?? "") || (length (ogTargets g) =? 0)%nat
      with ErrRefused "operation grant must bind an approval, a plan hash, and targets" ;
    Ok (Some g)
  end.
Definition TaskEnqueue (b : Broker) (revoked : bool) (grant : option OperationGrant) (req : HostTaskRequest) (w : W)
  : option OperationGrant * answer string :=
  match require b revoked "task.enqueue" capTaskRun w with
  | (w, Some err) => (grant, (w, Err err))
  | (w, None) =>
    match hsTask (services b) with
    | None => (grant, (w, Err (ErrHostServiceUnavailable "task")))
    | Some task =>
      match grant with
      | None => (grant, (w, Err (ErrRefused "task.enqueue requires an approved operation; plan and approve it first")))
      | Some g =>
        if negb (ogPluginID g =?? pluginID b) then (grant, (w, Err (ErrRefused "operation grant belongs to another plugin"))) else
        if ogRemaining g <=? 0 then (grant, (w, Err (ErrRefused "operation grant is exhausted"))) else
        if negb (AllowsTarget g (htNodeID req)) then (grant, (w, Err (ErrRefused "node is not among the approved targets"))) else
        if maxOperationScriptSize <? Z.of_nat (String.length (htScript req))
        then (grant, (w, Err (ErrRefused "task script exceeds 65536 bytes"))) else
        (Some (with_ogRemaining (wrap64 (ogRemaining g - 1)) g),
         thEnqueue task (mkTaskRequest (pluginID b) (ogApprovalID g) (htNodeID req) (htInterpreter req) (htScript req)
           (htTimeoutSec req)) w)
      end
    end
  end.

Context `{PluginSdk} `{GoCase}.

Definition TaskSchedule_ (b : Broker) (revoked : bool) (s : TaskSchedule) : W → answer unit :=
  checked b revoked HostMethodTaskSchedule CapabilityTaskSchedule (fun w =>
    match hsTask (services b) ≫= thSchedule with
    | None => (w, Err (ErrHostServiceUnavailable "task schedule"))
    | Some host =>
      match scheduleValidate s with
      | Some err => (w, Err err)
      | None =>
        if negb (has_prefix (tsService s) (pluginID b +:+ "/"))
        then (w, Err (ErrRefused "task schedule service is not one of this plugin's own services"))
        else unit_of (shSchedule host (pluginID b) s w)
      end
    end).
Definition TaskUnschedule (b : Broker) (revoked : bool) (id : string) : W → answer bool :=
  checked b revoked HostMethodTaskUnschedule CapabilityTaskSchedule (fun w =>
    match hsTask (services b) ≫= thSchedule with
    | None => (w, Err (ErrHostServiceUnavailable "task schedule"))
    | Some host =>
      if (trim_space id =?? "") || (MaxTaskScheduleIDBytes <? Z.of_nat (String.length id))
      then (w, Err (ErrRefused "task schedule id is invalid"))
      else shUnschedule host (pluginID b) id w
    end).

(** ** Messages, HTTP, logs *)

Definition Notify (b : Broker) (revoked : bool) (title body : string) : W → answer unit :=
  checked b revoked "notify.send" capNotifySend (fun w =>
    match hsNotify (services b) with
    | None => (w, Err (ErrHostServiceUnavailable "notify"))
    | Some send => unit_of (send (pluginID b) title body w)
    end).
Definition invocationHTTPResponseLimit (iv : invocation) : Z :=
  if ivHTTPResponseBytes iv <=? 0 then DefaultInvokeHTTPResponseBytes
  else Z.min (ivHTTPResponseBytes iv) HostMaxInvokeHTTPResponseBytes.
Definition HTTPDo (b : Broker) (revoked : bool) (iv : invocation) (req : HostHTTPRequest) : W → answer HostHTTPResponse :=
  checked b revoked "http.do" capHTTPEgress (fun w =>
    match hsHTTP (services b) with
    | None => (w, Err (ErrHostServiceUnavailable "http"))
    | Some do_ =>
      match hsGuardURL (services b) (hqURL req) w with
      | Some why => (w, Err (ErrBlocked why))
      | None => do_ (mkHTTPRequest (hqMethod req) (hqURL req) (hqHeader req) (hqBody req) (invocationHTTPResponseLimit iv)) w
      end
    end).
Definition operatorHTTPArtifactService : string := "artifact".
Definition operatorHTTPRestoreMethod : string := "restore".
Definition operatorHTTPDeleteMethod : string := "delete".
Definition operatorHTTPLegacyGET (service method : string) : bool :=
  (service =?? "latticenet.sub-store/subscription") && (method =?? "migrate").
(** [strings.CutPrefix] *)
Definition cut_prefix (s p : string) : string * bool :=
  if has_prefix s p then (str_drop (String.length p) s, true) else (s, false).
Definition operatorHTTPVerbAllowed (b : Broker) (iv : invocation) (method : string) : res hostError string :=
  let verb := ToUpper (trim_space method) in
  let verb := if verb =?? "" then "GET" else verb in
  if mem verb ["PUT"; "POST"; "PATCH"] then Ok verb else
  let '(short, own) := cut_prefix (ivService iv) (pluginID b +:+ "/") in
  if verb =?? "GET" then
    if own && (short =?? operatorHTTPArtifactService) && (ivMethod iv =?? operatorHTTPRestoreMethod) then Ok verb
    else if operatorHTTPLegacyGET (ivService iv) (ivMethod iv) && own then Ok verb
    else Err (ErrRefused "http.operator.do admits GET only on artifact.restore")
  else if verb =?? "DELETE" then
    if own && (short =?? operatorHTTPArtifactService) && (ivMethod iv =?? operatorHTTPDeleteMethod) then Ok verb
    else Err (ErrRefused "http.operator.do admits DELETE only on artifact.delete")
  else Err (ErrRefused "http.operator.do does not admit the method").
Definition operatorTargetBound (b : Broker) (iv : invocation) (target : string) : option hostError :=
  if existsb (fun base => match hsTargetBinding (services b) base target with None => true | Some _ => false end) (ivTargets iv)
  then None else Some (ErrRefused "operator target is not bound to this invocation").
Definition HTTPOperatorDo (b : Broker) (revoked : bool) (iv : invocation) (req : HostHTTPRequest) : W → answer HostHTTPResponse :=
  checked b revoked "http.operator.do" capHTTPOperatorTarget (fun w =>
    let deny err w := record b (mkCallEvent (pluginID b) "http.operator.do" capHTTPOperatorTarget "deny" (Some err)) w in
    match hsOperatorHTTP (services b) with
    | None => (w, Err (ErrHostServiceUnavailable "operator http"))
    | Some do_ =>
      match operatorHTTPVerbAllowed b iv (hqMethod req) with
      | Err err => (deny err w, Err err)
      | Ok verb =>
        match operatorTargetBound b iv (hqURL req) with
        | Some err => (deny err w, Err err)
        | None =>
          match hsGuardOperatorURL (services b) (hqURL req) w with
          | Some why => (w, Err (ErrBlocked why))
          | None => do_ (mkHTTPRequest verb (hqURL req) (hqHeader req) (hqBody req) (invocationHTTPResponseLimit iv)) w
          end
        end
      end
    end).
Definition BindOperatorTargets (guard : string → option string) (targets bound : list string) : res hostError (list string) :=
  match targets with
  | [] => Ok bound
  | _ =>
    fail_if (4 <? length targets)%nat with ErrRefused "too many invocation-bound operator targets" ;
    fail_if existsb (fun t => match guard t with Some _ => true | None => false end) targets
      with ErrRefused "invalid invocation-bound operator target" ;
    Ok (dedup targets)
  end.

Definition validLogLevels : list string := ["debug"; "info"; "warn"; "error"].
Definition normalizeLogLevel (level : string) : string :=
  let lvl := ToLower (trim_space level) in if mem lvl validLogLevels then lvl else "info".
(** [utf8.RuneStart]: not a continuation byte. *)
Definition RuneStart (c : ascii) : bool := negb (cont c).
Fixpoint rune_cut (message : list ascii) (cut : nat) : nat :=
  match cut with
  | O => O
  | S n => if match message !! cut with Some c => negb (RuneStart c) | None => false end then rune_cut message n else cut
  end.
Definition boundLogMessage (message : string) : string :=
  if (String.length message <=? logMaxMessageBytes)%nat then message
  else str_take (rune_cut (bytes_of message) logMaxMessageBytes) message +:+ logTruncatedSuffix.
Definition boundLogFields (fields : gmap string string) : gmap string string :=
  if (size fields <=? logMaxFields)%nat then fields
  else let keys := take logMaxFields (sort_strings (map fst (map_to_list fields))) in
       filter (fun kv => kv.1 ∈ keys) fields.
Definition Log (b : Broker) (revoked : bool) (level message : string) (fields : gmap string string) : W → answer unit :=
  checked b revoked "log.write" capLogWrite (fun w =>
    match hsLog (services b) with
    | None => (w, Err (ErrHostServiceUnavailable "log"))
    | Some write =>
      unit_of (write (mkLogEntry (pluginID b) (normalizeLogLevel level) (boundLogMessage message) (boundLogFields fields)) w)
    end).

(** ** Calls between plugins *)

Definition RPCCall (b : Broker) (revoked : bool) (service method request : string) : W → answer string :=
  checked b revoked "rpc.call" capRPCCall (fun w =>
    match hsRPC (services b) with
    | None => (w, Err (ErrHostServiceUnavailable "rpc"))
    | Some None => (w, Err (ErrHostServiceUnavailable "generation-scoped rpc grants unsupported"))
    | Some (Some call) =>
      match call (pluginID b) (rpcGrant b) service method request w with
      | (w, Ok resp) => (w, Ok resp)
      | (w, Err err) =>
        (match err with
         | ErrRPCDenied _ _ =>
           record b (mkCallEvent (pluginID b) ("rpc.call:" +:+ service +:+ "/" +:+ method) capRPCCall "deny" (Some err)) w
         | _ => w
         end, Err err)
      end
    end).

(** ** Dispatch *)

Inductive hostCall :=
| CallRPC (service method request : string)
| CallHTTP (req : HostHTTPRequest)
| CallOperatorHTTP (req : HostHTTPRequest)
| CallKVGet (key : string)
| CallKVPut (key value : string) (ifMatch : option string)
| CallKVDelete (key : string)
| CallTaskEnqueue (req : HostTaskRequest)
| CallSecretGet (key : string)
| CallSecretPut (key value : string)
| CallSecretDelete (key : string)
| CallNotify (title body : string)
| CallLog (level message : string) (fields : gmap string string)
| CallSchedule (s : TaskSchedule)
| CallUnschedule (id : string)
| CallUnknown (method : string).
Inductive hostReply :=
| ReplyNone
| ReplyRPC (resp : string)
| ReplyHTTP (resp : HostHTTPResponse)
| ReplyKV (ok : bool) (value : string) (sha256 : string)
| ReplySecret (ok : bool) (value : string)
| ReplyTask (id : string)
| ReplyRemoved (removed : bool).
Definition reply {A} (f : A → hostReply) (x : answer A) : answer hostReply :=
  match x with (w, Ok a) => (w, Ok (f a)) | (w, Err err) => (w, Err err) end.
Definition kv_reply (v : option string) : hostReply :=
  match v with Some v => ReplyKV true v (sdkKVValueDigest v) | None => ReplyKV false "" "" end.
Definition secret_reply (v : option string) : hostReply :=
  match v with Some v => ReplySecret true v | None => ReplySecret false "" end.
Definition with_ivGrant (g : option OperationGrant) (iv : invocation) : invocation :=
  mkInvocation (ivTargets iv) g (ivService iv) (ivMethod iv) (ivHTTPResponseBytes iv).
(** How a call finds the plugin's authority: the invocation canceled, the
    generation revoked when the call is acquired, or by the time the broker
    looks again. *)
Record moment := mkMoment { moCanceled : bool; moRevokedFirst : bool; moRevokedThen : bool }.
Definition dispatchHostCall (b : Broker) (m : moment) (iv : invocation) (call : hostCall) (w : W) : invocation * answer hostReply :=
  if moCanceled m then (iv, (w, Err ErrCanceled)) else
  if moRevokedFirst m then (iv, (w, Err ErrGenerationRevoked)) else
  let r := moRevokedThen m in
  match call with
  | CallRPC service method request => (iv, reply ReplyRPC (RPCCall b r service method request w))
  | CallHTTP req => (iv, reply ReplyHTTP (HTTPDo b r iv req w))
  | CallOperatorHTTP req => (iv, reply ReplyHTTP (HTTPOperatorDo b r iv req w))
  | CallKVGet key => (iv, reply kv_reply (KVGet b r key w))
  | CallKVPut key value (Some ifMatch) => (iv, reply (fun _ => ReplyNone) (KVPutIfMatch b r key value ifMatch w))
  | CallKVPut key value None => (iv, reply (fun _ => ReplyNone) (KVPut b r key value w))
  | CallKVDelete key => (iv, reply (fun _ => ReplyNone) (KVDelete b r key w))
  | CallTaskEnqueue req =>
    let '(g, a) := TaskEnqueue b r (ivGrant iv) (mkTaskRequest "" "" (htNodeID req) (htInterpreter req) (htScript req) (htTimeoutSec req)) w in
    (with_ivGrant g iv, reply ReplyTask a)
  | CallSecretGet key => (iv, reply secret_reply (SecretGet b r key w))
  | CallSecretPut key value => (iv, reply (fun _ => ReplyNone) (SecretPut b r key value w))
  | CallSecretDelete key => (iv, reply (fun _ => ReplyNone) (SecretDelete b r key w))
  | CallNotify title body => (iv, reply (fun _ => ReplyNone) (Notify b r title body w))
  | CallLog level message fields => (iv, reply (fun _ => ReplyNone) (Log b r level message fields w))
  | CallSchedule s => (iv, reply (fun _ => ReplyNone) (TaskSchedule_ b r s w))
  | CallUnschedule id => (iv, reply ReplyRemoved (TaskUnschedule b r id w))
  | CallUnknown method => (iv, (w, Err (ErrRefused "unsupported host_call method")))
  end.
(** The child's frames of one invocation: host calls, each answered before the
    next is read, up to the budget.  [true] when the budget ended it.  Between
    two calls the rest of the server may change the world. *)
Fixpoint serve (b : Broker) (limit : Z) (count : Z) (iv : invocation) (calls : list (moment * (W → W) * hostCall)) (w : W)
  : invocation * W * list (res hostError hostReply) * bool :=
  match calls with
  | [] => (iv, w, [], false)
  | (m, others, call) :: calls =>
    let count := count + 1 in
    if limit <? count then (iv, w, [], true) else
    let '(iv, (w, r)) := dispatchHostCall b m iv call (others w) in
    let '(iv, w, rs, cut) := serve b limit count iv calls w in
    (iv, w, r :: rs, cut)
  end.
End broker.
Arguments KVHost : clear implicits.
Arguments SecretHost : clear implicits.
Arguments TaskHost : clear implicits.
Arguments TaskScheduleHost : clear implicits.
Arguments HostServices : clear implicits.
Arguments Broker : clear implicits.
Arguments answer : clear implicits.

(** ** The registry of plugin services *)

Section registry.
Context {W : Type}.
Record rpcService := mkRPCService {
  rsOwner : string; rsVersion : string; rsMethods : gset string; rsHandler : string → string → W → W * res hostError string }.
Record RPCRegistry := mkRegistry {
  rgServices : gmap string rpcService; rgGrants : gmap string (gmap string (gset string)); rgOwnerActive : option (string → bool) }.
Definition NewRPCRegistry : RPCRegistry := mkRegistry ∅ ∅ None.
Definition Register (owner service version : string) (methods : list string)
  (handler : option (string → string → W → W * res hostError string)) (r : RPCRegistry) : res hostError RPCRegistry :=
  fail_if (owner =?? "") || (service =?? "") with ErrRefused "owner and service are required" ;
  match handler with
  | None => Err (ErrRefused "handler is required")
  | Some handler =>
    fail_if (length methods =? 0)%nat with ErrRefused "at least one method is required" ;
    fail_if mem "" methods with ErrRefused "method name must not be empty" ;
    Ok (mkRegistry (<[service := mkRPCService owner version (list_to_set methods) handler]> (rgServices r)) (rgGrants r) (rgOwnerActive r))
  end.
Definition Unregister (service : string) (r : RPCRegistry) : RPCRegistry :=
  mkRegistry (delete service (rgServices r)) (delete service (rgGrants r)) (rgOwnerActive r).
Definition AllowMethods (caller service : string) (methods : list string) (r : RPCRegistry) : RPCRegistry :=
  let set : gset string := list_to_set (List.filter (fun m => negb (m =?? "")) methods) in
  mkRegistry (rgServices r) (<[service := <[caller := set]> (default ∅ (rgGrants r !! service))]> (rgGrants r)) (rgOwnerActive r).
Definition Allow (caller service : string) (r : RPCRegistry) : RPCRegistry := AllowMethods caller service ["*"] r.
Definition Revoke (caller service : string) (r : RPCRegistry) : RPCRegistry :=
  match rgGrants r !! service with
  | Some set => mkRegistry (rgServices r) (<[service := delete caller set]> (rgGrants r)) (rgOwnerActive r)
  | None => r
  end.
Definition Owns (owner service : string) (r : RPCRegistry) : bool :=
  match rgServices r !! service with Some svc => rsOwner svc =?? owner | None => false end.
Definition owner_active (r : RPCRegistry) (owner : string) : bool :=
  match rgOwnerActive r with Some f => f owner | None => true end.
Definition serviceIfActive (r : RPCRegistry) (service : string) : res hostError rpcService :=
  match rgServices r !! service with
  | None => Err (ErrRPCNoService service)
  | Some svc => if owner_active r (rsOwner svc) then Ok svc else Err (ErrRPCOwnerInactive service (rsOwner svc))
  end.
Definition CallOperator (r : RPCRegistry) (service method request : string) (w : W) : W * res hostError string :=
  match serviceIfActive r service with
  | Err err => (w, Err err)
  | Ok svc => if bool_decide (method ∈ rsMethods svc) then rsHandler svc method request w else (w, Err (ErrRPCNoMethod service method))
  end.
Definition granted (methods : gset string) (method : string) : bool :=
  bool_decide (method ∈ methods) || bool_decide ("*" ∈ methods).
Definition Call (r : RPCRegistry) (caller service method request : string) (w : W) : W * res hostError string :=
  let svc := rgServices r !! service in
  let owns := match svc with Some svc => caller =?? rsOwner svc | None => false end in
  let allowed := owns || match rgGrants r !! service ≫= (fun g => g !! caller) with Some ms => granted ms method | None => false end in
  if negb allowed then (w, Err (ErrRPCDenied caller service)) else
  match svc with
  | None => (w, Err (ErrRPCNoService service))
  | Some svc =>
    if negb (owner_active r (rsOwner svc)) then (w, Err (ErrRPCOwnerInactive service (rsOwner svc)))
    else if negb (bool_decide (method ∈ rsMethods svc)) then (w, Err (ErrRPCNoMethod service method))
    else rsHandler svc method request w
  end.
Definition CallGranted (r : RPCRegistry) (caller : string) (grant : RPCGrant) (service method request : string) (w : W)
  : W * res hostError string :=
  if negb (granted (default ∅ (grant !! service)) method) then (w, Err (ErrRPCDenied caller service)) else
  match rgServices r !! service with
  | None => (w, Err (ErrRPCNoService service))
  | Some svc =>
    if negb (owner_active r (rsOwner svc)) then (w, Err (ErrRPCOwnerInactive service (rsOwner svc)))
    else if negb (bool_decide (method ∈ rsMethods svc)) then (w, Err (ErrRPCNoMethod service method))
    else rsHandler svc method request w
  end.
End registry.
Arguments rpcService : clear implicits.
Arguments RPCRegistry : clear implicits.

(** ** The authority of a generation *)

(** [auDrained] is the channel [drained] points at, named by number, and
    [auClosed] the channels that are closed. *)
Record authority := mkAuthority { auRevoked : bool; auActive : Z; auDrained : nat; auClosed : gset nat }.
Definition newGenerationAuthority : authority := mkAuthority false 0 0 {[ 0%nat ]}.
Definition acquire (a : authority) : res hostError authority :=
  if auRevoked a then Err ErrGenerationRevoked else
  let ch := if auActive a =? 0 then S (auDrained a) else auDrained a in
  Ok (mkAuthority false (auActive a + 1) ch (auClosed a)).
(** Closing a closed channel panics. *)
Definition release (a : authority) : option authority :=
  let n := auActive a - 1 in
  if n =? 0 then if bool_decide (auDrained a ∈ auClosed a) then None
                 else Some (mkAuthority (auRevoked a) n (auDrained a) ({[ auDrained a ]} ∪ auClosed a))
  else Some (mkAuthority (auRevoked a) n (auDrained a) (auClosed a)).
Definition revoke (a : authority) : authority := mkAuthority true (auActive a) (auDrained a) (auClosed a).

(** Goroutines around one authority: host calls between acquiring and
    releasing it, and revocations ([revokeAuthority]: revoke, read the
    channel, then wait on it) that are waiting or have come back. *)
Record auth_world := mkAuthWorld { awAuth : authority; awCalls : nat; awWaiting : list nat; awDone : bool }.
Inductive auth_step : auth_world → auth_world → Prop :=
| step_acquire a a' n ws d : acquire a = Ok a' → auth_step (mkAuthWorld a n ws d) (mkAuthWorld a' (S n) ws d)
| step_release a a' n ws d : release a = Some a' → auth_step (mkAuthWorld a (S n) ws d) (mkAuthWorld a' n ws d)
| step_revoke a n ws d : auth_step (mkAuthWorld a n ws d) (mkAuthWorld (revoke a) n ws d)
| step_wait a n ws d : auRevoked a = true → auth_step (mkAuthWorld a n ws d) (mkAuthWorld a n (auDrained a :: ws) d)
| step_return a n ws d ch : ch ∈ ws → ch ∈ auClosed a → auth_step (mkAuthWorld a n ws d) (mkAuthWorld a n ws true).
Inductive auth_reach : auth_world → Prop :=
| auth_start : auth_reach (mkAuthWorld newGenerationAuthority 0 [] false)
| auth_next s s' : auth_reach s → auth_step s s' → auth_reach s'.

Record auth_inv (s : auth_world) : Prop := {
  ai_active : auActive (awAuth s) = Z.of_nat (awCalls s);
  ai_drained : auDrained (awAuth s) ∈ auClosed (awAuth s) ↔ awCalls s = 0%nat;
  ai_closed : ∀ ch, ch ∈ auClosed (awAuth s) → (ch <= auDrained (awAuth s))%nat;
  ai_waiting : ∀ ch, ch ∈ awWaiting s → auRevoked (awAuth s) = true ∧ ch = auDrained (awAuth s);
  ai_done : awDone s = true → auRevoked (awAuth s) = true ∧ awCalls s = 0%nat }.
Lemma auth_reach_inv s : auth_reach s → auth_inv s.
Proof.
  induction 1 as [|s s' _ [I1 I2 I3 I4 I5] Hs]; [split; cbn; try set_solver; done|].
  destruct Hs as [a a' n ws d E|a a' n ws d E|a n ws d|a n ws d Hr|a n ws d ch Hw Hc]; cbn [awAuth awCalls awWaiting awDone] in *.
  - unfold acquire in E. destruct (auRevoked a) eqn:Er; [done|]. injection E as <-. split; cbn [awAuth awCalls awWaiting awDone auActive auDrained auClosed auRevoked].
    + lia.
    + split; [|done]. intros Hin. exfalso. destruct (Z.eqb_spec (auActive a) 0) as [E0|E0].
      * apply I3 in Hin. lia.
      * apply I2 in Hin. lia.
    + intros ch Hch. apply I3 in Hch. destruct (_ =? _); lia.
    + intros ch Hch. destruct (I4 ch Hch). congruence.
    + intros Hd. destruct (I5 Hd). congruence.
  - unfold release in E. destruct (Z.eqb_spec (auActive a - 1) 0) as [E0|E0].
    + destruct (bool_decide_reflect (auDrained a ∈ auClosed a)) as [|Hn]; [done|]. injection E as <-.
      split; cbn [awAuth awCalls awWaiting awDone auActive auDrained auClosed auRevoked].
      * lia.
      * split; [intros _; lia|set_solver].
      * intros ch Hch. apply elem_of_union in Hch as [->%elem_of_singleton|Hch]; [lia|by apply I3].
      * done.
      * intros Hd. destruct (I5 Hd). lia.
    + injection E as <-. split; cbn [awAuth awCalls awWaiting awDone auActive auDrained auClosed auRevoked]; try done; try lia.
      * rewrite I2. lia.
      * intros Hd. destruct (I5 Hd). lia.
  - split; cbn [awAuth awCalls awWaiting awDone revoke auActive auDrained auClosed auRevoked]; try done.
    + intros ch Hch. split; [done|]. by apply I4.
    + intros Hd. split; [done|]. by apply I5.
  - split; cbn [awAuth awCalls awWaiting awDone]; try done. intros ch [->|Hch]%elem_of_cons; [done|by apply I4].
  - split; cbn [awAuth awCalls awWaiting awDone]; try done. intros _. destruct (I4 ch Hw) as [Hr ->]. split; [done|]. by apply I2.
Qed.

(** C22. Revoking a generation stops it for good: on every interleaving of host
    calls and revocations, once a revocation has come back no host call of the
    generation is under way, no later one gets its authority, and no release
    ever closes the drained channel a second time. *)
Theorem revocation_drains s : auth_reach s →
  (awDone s = true → awCalls s = 0%nat ∧ ∀ s', rtc auth_step s s' → awCalls s' = 0%nat ∧ ∀ a', acquire (awAuth s') ≠ Ok a') ∧
  (awCalls s ≠ 0%nat → is_Some (release (awAuth s))).
Proof.
  intros Hr. pose proof (auth_reach_inv s Hr) as Hi. split.
  - intros Hd. split; [exact (proj2 (ai_done _ Hi Hd))|]. intros s' Hss.
    assert (auth_reach s' ∧ awDone s' = true) as [Hr' Hd'].
    { clear Hi. induction Hss as [s|s t s' Hst _ IH]; [done|]. apply IH; [by apply (auth_next s)|]. by destruct Hst. }
    destruct (ai_done _ (auth_reach_inv s' Hr') Hd') as [Hrv Hc]. split; [done|]. intros a'. unfold acquire. by rewrite Hrv.
  - intros Hc. unfold release. destruct (Z.eqb_spec (auActive (awAuth s) - 1) 0); [|by eexists].
    destruct (bool_decide_reflect (auDrained (awAuth s) ∈ auClosed (awAuth s))) as [Hin|]; [|by eexists].
    by apply (ai_drained _ Hi) in Hin.
Qed.

(** ** Budgets *)

(** The budgets validation accepts. *)
Record valid_budget (s : InvokeBudgetSpec) : Prop := {
  vb_timeout : 0 < bsTimeoutMS s <= HostMaxInvokeTimeoutMS; vb_stdout : 0 < bsStdoutBytes s <= HostMaxInvokeStdoutBytes;
  vb_stderr : 0 < bsStderrBytes s <= HostMaxInvokeStderrBytes; vb_calls : 0 <= bsHostCalls s <= HostMaxInvokeHostCalls;
  vb_http : 0 <= bsHTTPResponseBytes s <= HostMaxInvokeHTTPResponseBytes }.
Ltac split_ifs := repeat match goal with
  | |- context [if ?x <=? ?y then _ else _] => destruct (Z.leb_spec x y)
  | |- context [if ?x <? ?y then _ else _] => destruct (Z.ltb_spec x y)
  | |- context [if ?x =? ?y then _ else _] => destruct (Z.eqb_spec x y) end.
Lemma validate_spec s : ValidateInvokeBudgetSpec s = None ↔ valid_budget s.
Proof.
  unfold ValidateInvokeBudgetSpec, validateInvokeBudgetPositive. split.
  - split_ifs; try done; intros _; split; lia.
  - intros [? ? ? ? ?]. split_ifs; try done; lia.
Qed.
Lemma clamp_valid s : valid_budget s → clampInvokeBudget s = s.
Proof. intros [? ? ? ? ?]. destruct s. unfold clampInvokeBudget. cbn in *. f_equal; split_ifs; lia. Qed.
Lemma clamp_bounded s : let c := clampInvokeBudget s in
  bsTimeoutMS c <= HostMaxInvokeTimeoutMS ∧ bsStdoutBytes c <= HostMaxInvokeStdoutBytes ∧
  bsStderrBytes c <= HostMaxInvokeStderrBytes ∧ bsHostCalls c <= HostMaxInvokeHostCalls ∧
  bsHTTPResponseBytes c <= HostMaxInvokeHTTPResponseBytes.
Proof.
  unfold clampInvokeBudget. cbn [bsTimeoutMS bsStdoutBytes bsStderrBytes bsHostCalls bsHTTPResponseBytes].
  split_and!; split_ifs; lia.
Qed.
Ltac budget_consts := unfold HostMaxInvokeTimeoutMS, HostMaxInvokeStdoutBytes, HostMaxInvokeStderrBytes, HostMaxInvokeHTTPResponseBytes,
  HostMaxInvokeHostCalls, DefaultInvokeTimeoutMS, DefaultInvokeStdoutBytes, DefaultInvokeStderrBytes, DefaultInvokeHTTPResponseBytes,
  second, millisecond, int64_min, int64_max in *.

(** Whatever a manifest declares and whatever the defaults are, the budget
    an invocation runs under is positive and within the host's maxima; a
    budget that passes validation is taken as written. *)
Theorem resolved_budget_bounded spec defaults :
  let b := ResolveInvokeBudget spec defaults in
  0 < rvTimeout b <= 30 * second ∧ 0 < rvStdoutBytes b <= HostMaxInvokeStdoutBytes ∧
  0 < rvStderrBytes b <= HostMaxInvokeStderrBytes ∧ 0 <= rvHostCalls b <= HostMaxInvokeHostCalls ∧
  0 < rvHTTPResponseBytes b <= HostMaxInvokeHTTPResponseBytes ∧
  (∀ s, spec = Some s → ValidateInvokeBudgetSpec s = None →
     b = mkBudget (bsTimeoutMS s * millisecond) (bsStdoutBytes s) (bsStderrBytes s) (bsHostCalls s)
           (if bsHTTPResponseBytes s =? 0 then DefaultInvokeHTTPResponseBytes else bsHTTPResponseBytes s) true).
Proof.
  cbv zeta. unfold ResolveInvokeBudget. cbn [rvTimeout rvStdoutBytes rvStderrBytes rvHostCalls rvHTTPResponseBytes].
  destruct (clamp_bounded (default defaults spec)) as (C1 & C2 & C3 & C4 & C5).
  split_and!; try (split_ifs; rewrite ?wrap64_id; budget_consts; lia).
  intros s -> Hv%validate_spec. cbn [default id]. unfold default, id. rewrite (clamp_valid s Hv). destruct Hv.
  f_equal; split_ifs; rewrite ?wrap64_id; budget_consts; lia.
Qed.

(** A signed budget means what its bytes say: every budget validation
    accepts decodes from its own encoding, and a decoded budget encodes to the
    object it came from. *)
Theorem budget_roundtrip s raw : ValidateInvokeBudgetSpec s = None →
  UnmarshalJSON (MarshalJSON s) = Ok s ∧ (UnmarshalJSON raw = Ok s → MarshalJSON s = raw).
Proof.
  intros Hv%validate_spec. destruct Hv as [_ _ _ _ Hh]. split.
  - unfold UnmarshalJSON, MarshalJSON. destruct s as [t o e h b]. cbn in *.
    destruct (Z.eqb_spec b 0) as [->|Hb]; [done|]. destruct (Z.leb_spec b 0); [lia|done].
  - unfold UnmarshalJSON, MarshalJSON. destruct raw as [[t|] [o|] [e|] [h|] [b|]]; try done; cbn.
    + destruct (Z.leb_spec b 0); [done|]. intros [= <-]. cbn. destruct (Z.eqb_spec b 0); [lia|done].
    + by intros [= <-].
Qed.

(** ** Capabilities *)

Section gate.
Context {W : Type} `{PluginSdk} `{GoCase}.
Implicit Types (b : Broker W) (w : W).

(** The action a call is audited under and the capability it needs. *)
Definition needs (call : hostCall) : option (string * string) :=
  match call with
  | CallRPC _ _ _ => Some ("rpc.call", capRPCCall)
  | CallHTTP _ => Some ("http.do", capHTTPEgress)
  | CallOperatorHTTP _ => Some ("http.operator.do", capHTTPOperatorTarget)
  | CallKVGet _ => Some ("kv.get", capKVRead)
  | CallKVPut _ _ _ => Some ("kv.put", capKVWrite)
  | CallKVDelete _ => Some ("kv.delete", capKVWrite)
  | CallTaskEnqueue _ => Some ("task.enqueue", capTaskRun)
  | CallSecretGet _ => Some ("secret.get", capSecretRead)
  | CallSecretPut _ _ => Some ("secret.put", capSecretWrite)
  | CallSecretDelete _ => Some ("secret.delete", capSecretWrite)
  | CallNotify _ _ => Some ("notify.send", capNotifySend)
  | CallLog _ _ _ => Some ("log.write", capLogWrite)
  | CallSchedule _ => Some (HostMethodTaskSchedule, CapabilityTaskSchedule)
  | CallUnschedule _ => Some (HostMethodTaskUnschedule, CapabilityTaskSchedule)
  | CallUnknown _ => None
  end.
Lemma require_denied b action cap w : cap ∉ capabilities b →
  require b false action cap w = (record b (mkCallEvent (pluginID b) action cap "deny" (Some (ErrCapabilityDenied (pluginID b) cap))) w,
    Some (ErrCapabilityDenied (pluginID b) cap)).
Proof. intros Hc. unfold require, HasCapability. by rewrite bool_decide_eq_false_2. Qed.
Lemma checked_denied {A} b action cap (k : W → answer W A) w : cap ∉ capabilities b →
  checked b false action cap k w = (record b (mkCallEvent (pluginID b) action cap "deny" (Some (ErrCapabilityDenied (pluginID b) cap))) w,
    Err (ErrCapabilityDenied (pluginID b) cap)).
Proof. intros Hc. unfold checked. by rewrite require_denied. Qed.
Lemma with_ivGrant_id iv : with_ivGrant (ivGrant iv) iv = iv.
Proof. by destruct iv. Qed.

(** A plugin cannot use what its manifest does not declare, and a revoked
    generation can use nothing: on a host call without its capability the only
    thing that happens is the record of the denial, and on one that finds the
    generation revoked or the invocation canceled nothing happens at all, no
    matter what the host services do when they are called. *)
Theorem host_call_needs_capability b m iv call w :
  (∀ action cap, needs call = Some (action, cap) → cap ∉ capabilities b → m = mkMoment false false false →
     dispatchHostCall b m iv call w = (iv, (record b (mkCallEvent (pluginID b) action cap "deny" (Some (ErrCapabilityDenied (pluginID b) cap))) w,
       Err (ErrCapabilityDenied (pluginID b) cap)))) ∧
  (m ≠ mkMoment false false false → ∃ err, dispatchHostCall b m iv call w = (iv, (w, Err err))).
Proof.
  split.
  - intros action cap Hn Hc ->. unfold dispatchHostCall. cbn [moCanceled moRevokedFirst moRevokedThen].
    destruct call as [| | | |key value [ifMatch|]| |req| | | | | | | |]; cbn [needs] in Hn; simplify_eq;
      try (unfold RPCCall, HTTPDo, HTTPOperatorDo, KVGet, KVPut, KVPutIfMatch, KVDelete, SecretGet, SecretPut, SecretDelete, Notify, Log,
             TaskSchedule_, TaskUnschedule; by rewrite checked_denied).
    unfold TaskEnqueue. rewrite require_denied by done. by rewrite with_ivGrant_id.
  - intros Hm. unfold dispatchHostCall. destruct m as [c r1 r2]. cbn [moCanceled moRevokedFirst moRevokedThen].
    destruct c; [eauto|]. destruct r1; [eauto|]. destruct r2; [|by destruct Hm].
    destruct call as [| | | |key value [ifMatch|]| |req| | | | | | | |]; try (by eexists).
    unfold TaskEnqueue. cbn [require]. rewrite with_ivGrant_id. by eexists.
Qed.

(** The answers a host call may give without reaching a host service. *)
Definition audited b (w w' : W) : Prop := w' = w ∨ (∃ ev, w' = record b ev w) ∨ ∃ ev ev', w' = record b ev (record b ev' w).
Lemma require_audited b r action cap w : audited b w (require b r action cap w).1.
Proof. unfold require, audited. destruct r; [by left|]. destruct (HasCapability b cap); right; left; by eexists. Qed.

Lemma operator_verbs b iv method verb : operatorHTTPVerbAllowed b iv method = Ok verb →
  verb ∈ ["PUT"; "POST"; "PATCH"] ∨
  verb = "GET" ∧ (ivService iv = pluginID b +:+ "/artifact" ∧ ivMethod iv = "restore" ∨
                  ivService iv = "latticenet.sub-store/subscription" ∧ ivMethod iv = "migrate") ∨
  verb = "DELETE" ∧ ivService iv = pluginID b +:+ "/artifact" ∧ ivMethod iv = "delete".
Proof.
  intros Ev. unfold operatorHTTPVerbAllowed in Ev. cbv zeta in Ev. set (v := if ToUpper _ =?? "" then _ else _) in Ev.
  destruct (mem v _) eqn:Em; [left; injection Ev as <-; by apply mem_spec in Em|]. right.
  unfold cut_prefix in Ev. destruct (has_prefix (ivService iv) (pluginID b +:+ "/")) eqn:Ep;
    [|rewrite ?andb_false_r in Ev; cbn [andb] in Ev; by destruct (v =?? "GET"), (v =?? "DELETE")].
  apply has_prefix_spec in Ep as [rest Ep]. rewrite Ep, str_drop_app, <- Ep in Ev.
  assert (rest = "artifact" → ivService iv = pluginID b +:+ "/artifact") as Hart by (intros ->; by rewrite Ep, str_app_assoc).
  destruct (bool_decide_reflect (v = "GET")) as [->|_].
  + left. unfold operatorHTTPLegacyGET, operatorHTTPArtifactService, operatorHTTPRestoreMethod in Ev.
    destruct (true && (rest =?? "artifact") && (ivMethod iv =?? "restore")) eqn:E1.
    { injection Ev as <-. split; [done|]. left. go_bool. destruct E1 as [[_ E1] E2]. auto. }
    destruct ((ivService iv =?? "latticenet.sub-store/subscription") && (ivMethod iv =?? "migrate") && true) eqn:E2; [|done].
    injection Ev as <-. split; [done|]. right. go_bool. tauto.
  + right. destruct (bool_decide_reflect (v = "DELETE")) as [->|_]; [|done].
    unfold operatorHTTPArtifactService, operatorHTTPDeleteMethod in Ev.
    destruct (true && (rest =?? "artifact") && (ivMethod iv =?? "delete")) eqn:E1; [|done].
    injection Ev as <-. go_bool. destruct E1 as [[_ E1] E2]. auto.
Qed.

(** An operator target is reached only as the operator bound it: when the
    private HTTP host is called at all, the URL lies under one of the base
    URLs bound to the invocation and passed the operator guard, the verb is a
    write, a read only from artifact.restore (or the one legacy import), a
    delete only from artifact.delete, and the response is bounded by 8 MiB;
    otherwise nothing but audit records happens. *)
Theorem operator_http_confined b r iv req w :
  (∃ w' err, audited b w w' ∧ HTTPOperatorDo b r iv req w = (w', Err err)) ∨
  (∃ w' do_ verb limit, audited b w w' ∧ hsOperatorHTTP (services b) = Some do_ ∧
     HTTPOperatorDo b r iv req w = do_ (mkHTTPRequest verb (hqURL req) (hqHeader req) (hqBody req) limit) w' ∧
     capHTTPOperatorTarget ∈ capabilities b ∧
     (∃ base, base ∈ ivTargets iv ∧ hsTargetBinding (services b) base (hqURL req) = None) ∧
     hsGuardOperatorURL (services b) (hqURL req) w' = None ∧ 0 < limit <= HostMaxInvokeHTTPResponseBytes ∧
     (verb ∈ ["PUT"; "POST"; "PATCH"] ∨
      verb = "GET" ∧ (ivService iv = pluginID b +:+ "/artifact" ∧ ivMethod iv = "restore" ∨
                      ivService iv = "latticenet.sub-store/subscription" ∧ ivMethod iv = "migrate") ∨
      verb = "DELETE" ∧ ivService iv = pluginID b +:+ "/artifact" ∧ ivMethod iv = "delete")).
Proof.
  unfold HTTPOperatorDo, checked. pose proof (require_audited b r "http.operator.do" capHTTPOperatorTarget w) as Ha.
  destruct (require b r "http.operator.do" capHTTPOperatorTarget w) as [w1 [err|]] eqn:Er; cbn [fst] in Ha; [by left; exists w1, err|].
  assert (capHTTPOperatorTarget ∈ capabilities b ∧ ∃ ev, w1 = record b ev w) as [Hcap [ev Hw1]].
  { unfold require, HasCapability in Er. destruct r; [done|]. destruct (bool_decide_reflect (capHTTPOperatorTarget ∈ capabilities b)); [|done].
    split; [done|]. injection Er as <-. by eexists. }
  assert (∀ ev', audited b w (record b ev' w1)) as Hdeny by (intros ev'; right; right; rewrite Hw1; by eexists _, _).
  assert (∀ w2 (err : hostError), audited b w w2 → (∃ w' err', audited b w w' ∧ (w2, Err (A := HostHTTPResponse) (E := hostError) err) = (w', Err err'))) as Hleft by eauto.
  destruct (hsOperatorHTTP (services b)) as [do_|] eqn:Edo; [|left; by apply Hleft].
  destruct (operatorHTTPVerbAllowed b iv (hqMethod req)) as [verb|err] eqn:Ev; [|left; by apply Hleft].
  destruct (operatorTargetBound b iv (hqURL req)) as [err|] eqn:Et; [left; by apply Hleft|].
  destruct (hsGuardOperatorURL (services b) (hqURL req) w1) as [why|] eqn:Eg; [left; by apply Hleft|].
  right. exists w1, do_, verb, (invocationHTTPResponseLimit iv). split_and!; try done.
  - unfold operatorTargetBound in Et. destruct (existsb _ _) eqn:Eb; [|done].
    apply existsb_elem_of in Eb as (base & Hin & Hb). exists base. split; [done|]. by destruct (hsTargetBinding _ _ _).
  - unfold invocationHTTPResponseLimit. split_ifs; budget_consts; lia.
  - unfold invocationHTTPResponseLimit. split_ifs; budget_consts; lia.
  - by apply (operator_verbs b iv (hqMethod req)).
Qed.

Lemma serve_bounded b limit : ∀ calls count iv w, 0 <= count <= limit →
  let '(_, _, rs, cut) := serve b limit count iv calls w in
  count + Z.of_nat (length rs) <= limit ∧ (length rs <= length calls)%nat ∧ (cut = false → length rs = length calls).
Proof.
  induction calls as [|[[m others] call] calls IH]; intros count iv w Hc; cbn [serve].
  - cbn. split_and!; lia.
  - cbv zeta. destruct (Z.ltb_spec limit (count + 1)); [cbn; split_and!; [lia|lia|done]|].
    destruct (dispatchHostCall b m iv call (others w)) as [iv' [w' r]]. specialize (IH (count + 1) iv' w').
    destruct (serve b limit (count + 1) iv' calls w') as [[[iv'' w''] rs] cut]. cbn [length].
    destruct IH as (B1 & B2 & B3); [lia|]. split_and!; [lia|lia|]. intros Hcut. by rewrite B3.
Qed.
End gate.

(** ** Grants between plugins *)

Section grants.
Context {W : Type}.

(** A call another plugin was not granted is refused in the same words
    whatever is registered, so it reveals nothing about the callee; one that
    is granted runs the handler exactly when the service is registered, its
    owner active and the method exposed. *)
Theorem rpc_grant_decides (r : RPCRegistry W) caller (grant : RPCGrant) service method request w :
  (granted (default ∅ (grant !! service)) method = false →
     ∀ r', CallGranted r' caller grant service method request w = (w, Err (ErrRPCDenied caller service))) ∧
  (granted (default ∅ (grant !! service)) method = true →
     match rgServices r !! service with
     | Some svc => if owner_active r (rsOwner svc) && bool_decide (method ∈ rsMethods svc)
                   then CallGranted r caller grant service method request w = rsHandler svc method request w
                   else ∃ err, CallGranted r caller grant service method request w = (w, Err err)
     | None => CallGranted r caller grant service method request w = (w, Err (ErrRPCNoService service))
     end).
Proof.
  unfold CallGranted. split; intros ->; [done|]. cbn [negb]. destruct (rgServices r !! service) as [svc|]; [|done].
  destruct (owner_active r (rsOwner svc)); cbn [negb andb]; [|eauto]. destruct (bool_decide _); cbn [negb]; eauto.
Qed.

(** Granting further methods replaces the ones granted before. *)
Lemma grants_replace (r : RPCRegistry W) caller service a b request w svc : a ≠ "" → b ≠ "" → a ≠ b → b ≠ "*" →
  rgServices r !! service = Some svc → caller ≠ rsOwner svc →
  Call (AllowMethods caller service [b] (AllowMethods caller service [a] r)) caller service a request w = (w, Err (ErrRPCDenied caller service)).
Proof.
  intros Ha Hb Hab Hstar Hs Hown. unfold Call, AllowMethods. cbn [rgServices rgGrants rgOwnerActive]. rewrite Hs.
  rewrite bool_decide_eq_false_2 by done. cbn [orb]. rewrite lookup_insert_eq. cbn [mbind option_bind]. rewrite lookup_insert_eq.
  cbn [List.filter]. rewrite (bool_decide_eq_false_2 (b = "")) by done. cbn [negb]. unfold granted.
  rewrite (bool_decide_eq_false_2 (a ∈ list_to_set [b])), (bool_decide_eq_false_2 ("*" ∈ list_to_set [b]));
    [done|rewrite elem_of_list_to_set, list_elem_of_singleton; congruence..].
Qed.
End grants.

(** ** Examples *)

Module BrokerDemo.
Definition sdk : PluginSdk := Build_PluginSdk "task:schedule" "task.schedule" "task.unschedule" 64 (fun _ => None) sha256_hex.
Definition case_ : GoCase := Build_GoCase (fun s => s) (fun s => s).
(** A host that keeps the audit trail and the keys it was asked to write. *)
Definition kv : KVHost (list HostCallEvent * list string) :=
  mkKVHost (fun _ _ => Ok None) (fun key _ w => ((w.1, key :: w.2), None)) None None.
Definition host : HostServices (list HostCallEvent * list string) :=
  mkServices (Some kv) None None None None None None (Some (fun ev w => (ev :: w.1, w.2))) None (fun _ _ => None) (fun _ _ => None) (fun _ _ => None).
Definition reader : Broker (list HostCallEvent * list string) := mkBroker "p" {[ capKVRead ]} host ∅.
Definition budget : InvokeBudgetSpec := mkBudgetSpec 2000 4096 4096 8 0.
Definition registry : RPCRegistry nat := mkRegistry {[ "s" := mkRPCService "q" "1" {[ "m" ]} (fun _ request w => (S w, Ok request)) ]} ∅ None.
Definition grant : RPCGrant := {[ "s" := {[ "m" ]} ]}.

(** One call is under way when the generation is revoked; the revocation
    returns after the call has. *)
Definition drained : auth_world :=
  mkAuthWorld (mkAuthority true 0 1 ({[ 1%nat ]} ∪ {[ 0%nat ]})) 0 [1%nat] true.
Lemma drained_reached : auth_reach drained.
Proof.
  eapply auth_next; [|apply (step_return _ 0 [1%nat] false 1); [by left|set_solver]].
  eapply auth_next; [|by apply (step_release (mkAuthority true 1 1 {[ 0%nat ]}))].
  eapply auth_next; [|by apply (step_wait (mkAuthority true 1 1 {[ 0%nat ]}) 1 [] false)].
  eapply auth_next; [|exact (step_revoke (mkAuthority false 1 1 {[ 0%nat ]}) 1 [] false)].
  eapply auth_next; [|by apply (step_acquire newGenerationAuthority _ 0 [] false)]. apply auth_start.
Qed.
End BrokerDemo.

Lemma revocation_drains_witness :
  awCalls BrokerDemo.drained = 0%nat ∧ ∀ s', rtc auth_step BrokerDemo.drained s' → awCalls s' = 0%nat ∧ ∀ a', acquire (awAuth s') ≠ Ok a'.
Proof. exact (proj1 (revocation_drains BrokerDemo.drained BrokerDemo.drained_reached) eq_refl). Defined.

Lemma resolved_budget_bounded_witness :
  ResolveInvokeBudget (Some BrokerDemo.budget) DefaultInvokeBudgetSpec = mkBudget (2 * second) 4096 4096 8 (256 * 2 ^ 10) true.
Proof.
  destruct (resolved_budget_bounded (Some BrokerDemo.budget) DefaultInvokeBudgetSpec) as (_ & _ & _ & _ & _ & H).
  exact (H BrokerDemo.budget eq_refl eq_refl).
Defined.

Lemma budget_roundtrip_witness : UnmarshalJSON (MarshalJSON BrokerDemo.budget) = Ok BrokerDemo.budget.
Proof. exact (proj1 (budget_roundtrip BrokerDemo.budget (MarshalJSON BrokerDemo.budget) eq_refl)). Defined.

Lemma host_call_needs_capability_witness :
  (@dispatchHostCall _ BrokerDemo.sdk BrokerDemo.case_ BrokerDemo.reader (mkMoment false false false) (mkInvocation [] None "" "" 0)
     (CallKVPut "k" "v" None) ([], [])).2.1 =
  ([mkCallEvent "p" "kv.put" capKVWrite "deny" (Some (ErrCapabilityDenied "p" capKVWrite))], []).
Proof.
  rewrite (proj1 (@host_call_needs_capability _ BrokerDemo.sdk BrokerDemo.case_ BrokerDemo.reader (mkMoment false false false) (mkInvocation [] None "" "" 0)
    (CallKVPut "k" "v" None) ([], [])) "kv.put" capKVWrite eq_refl); [done| |done].
  apply (bool_decide_unpack _). by vm_compute.
Defined.

Lemma rpc_grant_decides_witness :
  CallGranted BrokerDemo.registry "p" BrokerDemo.grant "s" "m" "hi" 0%nat = (1%nat, Ok "hi") ∧
  CallGranted BrokerDemo.registry "p" BrokerDemo.grant "s" "other" "hi" 0%nat = (0%nat, Err (ErrRPCDenied "p" "s")).
Proof.
  split.
  - exact (proj2 (rpc_grant_decides BrokerDemo.registry "p" BrokerDemo.grant "s" "m" "hi" 0%nat) eq_refl).
  - exact (proj1 (rpc_grant_decides BrokerDemo.registry "p" BrokerDemo.grant "s" "other" "hi" 0%nat) eq_refl BrokerDemo.registry).
Defined.
