(* ===== verification/PluginHost.v ===== *)
(** * The server behind the plugin broker ([internal/server/plugin_host.go],
      [plugin_host_store.go], [server_plugin_operation.go],
      [internal/store/kv_compare.go] and the key-value part of [store.go])

    [world] is what host calls reach: the plugins' key-value entries and
    secrets, the task state of StoreState.v, the notification outbox of
    Outbox.v, and the audit records, log lines and HTTP requests made so far;
    [env] holds what the moment decides, the clock, the outcome of a save, a
    fresh task id, the network.  [pluginHostServices] is the record of host
    services PluginBroker.v is given, and [executePluginOperation] the one
    path that runs a plugin with an approved operation's grant. *)

From Stdlib Require Import ZArith Lia Ascii.
From stdpp Require Import gmap strings.
From S2P Require Import Prelude GoStr Sha Rbac Incidents IncidentEval Clock Outbox Delivery StoreState Tasks PluginBroker.

Local Open Scope Z_scope.

(** ** Stored entries *)

Record KVEntry := mkKV { keBucket : string; keKey : string; keValue : string; keUpdatedAt : time }.
Definition kv_id (bucket key : string) : string := bucket +:+ "/" +:+ key.
Notation KVMap := (gmap string KVEntry) (only parsing).
(** The map after a staged change, and whether the save reported an error;
    with the hot store a write is committed exactly when it succeeds. *)
Definition publish_kv (p : persist) (live staged : KVMap) : KVMap * bool := (if committed p then staged else live, persist_error p).
Definition PutKV (now : time) (p : persist) (bucket key value : string) (m : KVMap) : KVMap * bool :=
  publish_kv p m (<[kv_id bucket key := mkKV bucket key value now]> m).
Definition DeleteKV (p : persist) (bucket key : string) (m : KVMap) : KVMap * bool :=
  publish_kv p m (delete (kv_id bucket key) m).
Definition KVValueDigest (value : string) : string := sha256_hex value.
Inductive kvOutcome := KVDone (failed : bool) | KVRefused.
Definition PutKVIfMatch (now : time) (p : persist) (bucket key value ifMatch : string) (m : KVMap) : KVMap * kvOutcome :=
  let refuse :=
    match m !! kv_id bucket key with
    | Some current => (ifMatch =?? "") || negb (KVValueDigest (keValue current) =?? ifMatch)
    | None => negb (ifMatch =?? "")
    end in
  if refuse then (m, KVRefused)
  else let '(m, failed) := publish_kv p m (<[kv_id bucket key := mkKV bucket key value now]> m) in (m, KVDone failed).
Definition MaxPluginSecretsPerBucket : Z := 256.
Definition bucket_count (bucket : string) (m : KVMap) : Z :=
  Z.of_nat (length (List.filter (fun e => keBucket e =?? bucket) (map_to_list m).*2)).
(** Secrets are changed in memory and then saved, whatever the save says;
    [None] when the vault is full. *)
Definition PutPluginSecret (now : time) (p : persist) (bucket key value : string) (m : KVMap) : option (KVMap * bool) :=
  let id := kv_id bucket key in
  if match m !! id with None => MaxPluginSecretsPerBucket <=? bucket_count bucket m | Some _ => false end then None
  else Some (<[id := mkKV bucket key value now]> m, persist_error p).
Definition DeletePluginSecret (p : persist) (bucket key : string) (m : KVMap) : KVMap * bool :=
  (delete (kv_id bucket key) m, persist_error p).

(** ** Key names *)

(** Control characters are single bytes, so bytes stand for runes. *)
Definition validateStorageName (value : string) : bool :=
  negb (value =?? "") && (String.length value <=? 256)%nat && negb (has_slash value) &&
  forallb (fun c => negb ((code c <? 32) || (code c =? 127))) (bytes_of value).
(** [strings.Cut] at the first slash. *)
Definition cut_slash (s : string) : option (string * string) :=
  match index_byte s "/"%char with
  | Some i => Some (str_take i s, str_drop (S i) s)
  | None => None
  end.
Definition split_key (prefix key : string) : res hostError (string * string) :=
  match cut_slash key with
  | None => Err (ErrRefused "plugin key must be bucket/key")
  | Some (bucket, entryKey) =>
    let '(plugin, ok) := cut_prefix bucket prefix in
    fail_if negb ok with ErrRefused "plugin bucket must be namespaced to the plugin" ;
    fail_if negb (validateStorageName plugin) with ErrRefused "plugin id" ;
    fail_if negb (validateStorageName bucket) with ErrRefused "bucket" ;
    fail_if negb (validateStorageName entryKey) with ErrRefused "key" ;
    Ok (bucket, entryKey)
  end.
Definition splitPluginKVKey : string → res hostError (string * string) := split_key kvBucketPrefix.
Definition splitPluginSecretKey : string → res hostError (string * string) := split_key secretBucketPrefix.

(** ** Which nodes a capability may act on ([capabilities.go]) *)

Record capabilitySpec := mkCapSpec { csMutates : bool; csEnforced : bool; csDerive : option (string → option bool) }.
Record NodeCapability := mkNodeCap { ncState : string; ncReason : string }.
Definition CapabilityExcluded : string := "excluded".
Definition CapabilityEnrolled : string := "enrolled".
(** The compiled-in table, the operator's records and policies, and which
    plugins are loaded. *)
Record gate := mkGate {
  gtSpecs : gmap string capabilitySpec; gtRecords : gmap (string * string) NodeCapability; gtPolicies : gmap string bool;
  gtLoaded : string → bool }.
Definition capabilitySpecFor (g : gate) (capability : string) : option capabilitySpec :=
  match gtSpecs g !! capability with
  | Some spec => Some spec
  | None => if capability =?? "" then None else if gtLoaded g capability then Some (mkCapSpec true false None) else None
  end.
Definition capabilityEnforced (g : gate) (capability : string) : bool :=
  match gtPolicies g !! capability with
  | Some enforced => enforced
  | None => match capabilitySpecFor g capability with Some spec => csEnforced spec | None => false end
  end.
Definition resolveCapabilityScope (g : gate) (nodeID capability : string) : bool :=
  match capabilitySpecFor g capability with
  | None => true
  | Some spec =>
    let fallback :=
      match csDerive spec with
      | Some derive => match derive nodeID with Some enrolled => enrolled | None => negb (csMutates spec) end
      | None => negb (csMutates spec)
      end in
    match gtRecords g !! (nodeID, capability) with
    | Some r => if ncState r =?? CapabilityExcluded then false else if ncState r =?? CapabilityEnrolled then true else fallback
    | None => fallback
    end
  end.
Definition resolveNodeCapability (g : gate) (nodeID capability : string) : bool :=
  if match gtRecords g !! (nodeID, capability) with Some r => ncState r =?? CapabilityExcluded | None => false end then false
  else if negb (capabilityEnforced g capability) then true
  else resolveCapabilityScope g nodeID capability.

(** ** The world *)

Record env := mkHostEnv {
  enNow : time; enSave : persist; enTaskID : string;
  enExecDisabled : bool; enGate : gate;
  enRange : rorder; enDisk : disk; enConf : config; enEventID : string; enRowID : string; enRowIDs : list string;
  (** what the network answers a guarded ([false]) or an operator ([true]) request *)
  enExchange : bool → HostHTTPRequest → res hostError HostHTTPResponse;
  enGuard : string → option string; enOperatorGuard : string → option string }.
Record world := mkWorld {
  wKV : KVMap; wSecrets : KVMap; wState : State; wOutbox : ostore; wAudit : list HostCallEvent; wLog : list HostLogEntry;
  wHTTP : list (bool * HostHTTPRequest); wEnv : env }.
Definition with_wKV (m : KVMap) (w : world) : world :=
  mkWorld m (wSecrets w) (wState w) (wOutbox w) (wAudit w) (wLog w) (wHTTP w) (wEnv w).
Definition with_wSecrets (m : KVMap) (w : world) : world :=
  mkWorld (wKV w) m (wState w) (wOutbox w) (wAudit w) (wLog w) (wHTTP w) (wEnv w).
Definition with_wState (s : State) (w : world) : world :=
  mkWorld (wKV w) (wSecrets w) s (wOutbox w) (wAudit w) (wLog w) (wHTTP w) (wEnv w).
Definition with_wOutbox (s : ostore) (w : world) : world :=
  mkWorld (wKV w) (wSecrets w) (wState w) s (wAudit w) (wLog w) (wHTTP w) (wEnv w).
Definition with_wAudit (l : list HostCallEvent) (w : world) : world :=
  mkWorld (wKV w) (wSecrets w) (wState w) (wOutbox w) l (wLog w) (wHTTP w) (wEnv w).
Definition with_wLog (l : list HostLogEntry) (w : world) : world :=
  mkWorld (wKV w) (wSecrets w) (wState w) (wOutbox w) (wAudit w) l (wHTTP w) (wEnv w).
Definition with_wHTTP (l : list (bool * HostHTTPRequest)) (w : world) : world :=
  mkWorld (wKV w) (wSecrets w) (wState w) (wOutbox w) (wAudit w) (wLog w) l (wEnv w).
Definition failed_error (failed : bool) : option hostError := if failed then Some (ErrRefused "persist failed") else None.

(** ** Storage hosts *)

Definition host_Get (key : string) (w : world) : res hostError (option string) :=
  match splitPluginKVKey key with
  | Err err => Err err
  | Ok (bucket, entryKey) => Ok (keValue <$> wKV w !! kv_id bucket entryKey)
  end.
Definition host_Put (key value : string) (w : world) : world * option hostError :=
  match splitPluginKVKey key with
  | Err err => (w, Some err)
  | Ok (bucket, entryKey) =>
    let '(m, failed) := PutKV (enNow (wEnv w)) (enSave (wEnv w)) bucket entryKey value (wKV w) in (with_wKV m w, failed_error failed)
  end.
Definition host_PutIfMatch (key value ifMatch : string) (w : world) : world * option hostError :=
  match splitPluginKVKey key with
  | Err err => (w, Some err)
  | Ok (bucket, entryKey) =>
    match PutKVIfMatch (enNow (wEnv w)) (enSave (wEnv w)) bucket entryKey value ifMatch (wKV w) with
    | (m, KVRefused) => (with_wKV m w, Some PluginBroker.ErrKVConflict)
    | (m, KVDone failed) => (with_wKV m w, failed_error failed)
    end
  end.
Definition host_Delete (key : string) (w : world) : world * option hostError :=
  match splitPluginKVKey key with
  | Err err => (w, Some err)
  | Ok (bucket, entryKey) =>
    let '(m, failed) := DeleteKV (enSave (wEnv w)) bucket entryKey (wKV w) in (with_wKV m w, failed_error failed)
  end.
Definition secret_Get (key : string) (w : world) : res hostError (option string) :=
  match splitPluginSecretKey key with
  | Err err => Err err
  | Ok (bucket, entryKey) => Ok (keValue <$> wSecrets w !! kv_id bucket entryKey)
  end.
Definition secret_Put (key value : string) (w : world) : world * option hostError :=
  match splitPluginSecretKey key with
  | Err err => (w, Some err)
  | Ok (bucket, entryKey) =>
    match PutPluginSecret (enNow (wEnv w)) (enSave (wEnv w)) bucket entryKey value (wSecrets w) with
    | None => (w, Some (ErrRefused "plugin secret bucket holds the maximum of 256 entries"))
    | Some (m, failed) => (with_wSecrets m w, failed_error failed)
    end
  end.
Definition secret_Delete (key : string) (w : world) : world * option hostError :=
  match splitPluginSecretKey key with
  | Err err => (w, Some err)
  | Ok (bucket, entryKey) =>
    let '(m, failed) := DeletePluginSecret (enSave (wEnv w)) bucket entryKey (wSecrets w) in (with_wSecrets m w, failed_error failed)
  end.

(** ** The task host *)

(** [strings.Fields]: the words between white space. *)
Definition starts_white (s : string) : bool := existsb (has_prefix s) white_runes.
Fixpoint take_word (s : string) : string * string :=
  match s with
  | "" => ("", "")
  | String c rest => if starts_white s then ("", s) else let '(word, rest) := take_word rest in (String c word, rest)
  end.
Fixpoint fields_go_white (fuel : nat) (s : string) : list string :=
  match fuel with
  | O => []
  | S fuel =>
    let s := trim_left s in
    if s =?? "" then [] else let '(word, rest) := take_word s in word :: fields_go_white fuel rest
  end.
Definition Fields (s : string) : list string := fields_go_white (S (String.length s)) s.
Definition agentKillingCommands : list string :=
  ["systemctl stop lattice-agent"; "systemctl restart lattice-agent"; "launchctl kickstart -k system/net.lattice.agent"].
(** Up to the first separator, redirection or comment. *)
Fixpoint cut_any (cs : list ascii) (s : string) : string :=
  match s with "" => "" | String c rest => if mem c cs then "" else String c (cut_any cs rest) end.
Definition first_command (script : string) : string :=
  default "" (List.find (fun line => negb ((line =?? "") || has_prefix line "#")) (map trim_space (split script newline))).
Fixpoint words_match (want fields : list string) : bool :=
  match want, fields with
  | [], _ => true
  | [w], f :: _ => trim_suffix f ".service" =?? w
  | w :: want, f :: fields => (f =?? w) && words_match want fields
  | _, [] => false
  end.
Definition scriptFirstCommandKillsAgent (script : string) : bool :=
  let first := first_command script in
  if first =?? "" then false
  else existsb (fun pattern => words_match (Fields pattern) (Fields (cut_any [";"; "&"; "|"; "#"; "<"; ">"]%char first))) agentKillingCommands.
Definition maxTaskTimeoutSec : Z := 600.
Definition maxTaskOutputLimit : Z := 256 * 1024.
Definition maxTaskScriptBytes : Z := 64 * 1024.
Definition allowedTaskInterpreters : list string := ["sh"; "bash"; "python3"; "node"].
Definition validateTaskCreate (interpreter script : string) (timeoutSec outputLimit : Z) : bool :=
  mem interpreter allowedTaskInterpreters && negb ((timeoutSec <=? 0) || (maxTaskTimeoutSec <? timeoutSec)) &&
  negb ((outputLimit <=? 0) || (maxTaskOutputLimit <? outputLimit)) && (Z.of_nat (String.length script) <=? maxTaskScriptBytes) &&
  negb (scriptFirstCommandKillsAgent script).
Definition pluginTaskOutputLimit : Z := 64 * 1024.
Definition pluginTaskDefaultTimeoutSec : Z := 300.

Section host.
Context `{Sdk} `{PluginSdk} `{GoCase} `{IncidentText}.

(** [queueTask]: no capability is named, so the approval's plugin is the one
    that must be allowed on every target. *)
Definition queueTask (task : Task) (w : world) : world * option hostError :=
  let e := wEnv w in
  if enExecDisabled e then (w, Some (ErrRefused "task execution is disabled by server fleet kill switch")) else
  let capability :=
    if tApprovalID task =?? "" then ""
    else match Approvals (wState w) !! tApprovalID task with Some a => aPlugin a | None => "" end in
  if negb (capability =?? "") && negb (forallb (fun n => resolveNodeCapability (enGate e) n capability) (tTargets task))
  then (w, Some (ErrRefused "capability refused")) else
  let '(st, err) := CreateTask (enNow e) (enSave e) task (wState w) in
  (with_wState st w, match err with Some _ => Some (ErrRefused "persist failed") | None => None end).
Definition task_Enqueue (req : HostTaskRequest) (w : world) : world * res hostError string :=
  let e := wEnv w in
  let timeout := if htTimeoutSec req <=? 0 then pluginTaskDefaultTimeoutSec else htTimeoutSec req in
  let task := mkTask (enTaskID e) [htNodeID req] TaskQueued (htApprovalID req) "" (enNow e) timeout ∅ "" "" 0 0 (htScript req)
    ("plugin:" +:+ htPluginID req) "" in
  if negb (validateTaskCreate (htInterpreter req) (htScript req) timeout pluginTaskOutputLimit)
  then (w, Err (ErrRefused "plugin task rejected")) else
  match queueTask task w with
  | (w, Some err) => (w, Err err)
  | (w, None) => (with_wAudit (mkCallEvent (htPluginID req) "plugin.task.enqueue" "task:run" "allow" None :: wAudit w) w, Ok (enTaskID e))
  end.

(** ** Messages, logs, HTTP *)

Definition MaxNotifyUnsettledPerSource : Z := 200.
Definition NotifySourcePlugin : string := "plugin".
Definition pluginNotifyEventType (id : string) : string := if id =?? "" then "plugin.message" else "plugin." +:+ id +:+ ".message".
Definition notify_Send (plugin title body : string) (w : world) : world * option hostError :=
  let e := wEnv w in
  let st := notifyOutboxLocked (enRange e) (enDisk e) (wOutbox w) in
  if MaxNotifyUnsettledPerSource <=? NotifyUnsettledCount NotifySourcePlugin plugin (outbox st)
  then (with_wOutbox st w, Some (ErrRefused "too many of this plugin's notifications are still being delivered")) else
  let plan := planNotifyEvent (enConf e) (enNow e) (enEventID e) (pluginNotifyEventType plugin) title body
    (mkEnqueue NotifySourcePlugin plugin "" "" false true None "" []) in
  let '(st, _) := commitNotifyPlan (enRange e) (enDisk e) (enRowID e) (enRowIDs e) plan st in
  (with_wOutbox st w, match plTargets plan with [] => Some (ErrRefused "no enabled notification channel") | _ => None end).
Definition pluginHTTPRequestLimit : Z := 256 * 1024.
Definition pluginHTTPResponseLimitFor (req : HostHTTPRequest) : Z :=
  if hqResponseLimit req <=? 0 then DefaultInvokeHTTPResponseBytes else Z.min (hqResponseLimit req) HostMaxInvokeHTTPResponseBytes.
Definition doHTTP (operator : bool) (req : HostHTTPRequest) (w : world) : world * res hostError HostHTTPResponse :=
  if pluginHTTPRequestLimit <? Z.of_nat (String.length (hqBody req))
  then (w, Err (ErrRefused "plugin http request body exceeds size limit")) else
  let method := if trim_space (hqMethod req) =?? "" then "GET" else trim_space (hqMethod req) in
  let req := mkHTTPRequest method (hqURL req) (hqHeader req) (hqBody req) (hqResponseLimit req) in
  let w := with_wHTTP ((operator, req) :: wHTTP w) w in
  match enExchange (wEnv w) operator req with
  | Err err => (w, Err err)
  | Ok resp =>
    if pluginHTTPResponseLimitFor req <? Z.of_nat (String.length (hpBody resp))
    then (w, Err (ErrRefused "plugin http response exceeds the method's byte budget")) else (w, Ok resp)
  end.
Definition host_Write (entry : HostLogEntry) (w : world) : world * option hostError := (with_wLog (entry :: wLog w) w, None).
Definition RecordHostCall (ev : HostCallEvent) (w : world) : world := with_wAudit (ev :: wAudit w) w.

(** [binding] is [outbound.GuardOperatorTargetBinding]; scheduling is left to
    [schedule]. *)
Definition pluginHostServices (rpc : RPCRegistry world) (schedule : option (TaskScheduleHost world)) (binding : string → string → option string)
  : HostServices world :=
  mkServices (Some (mkKVHost host_Get host_Put (Some host_PutIfMatch) (Some host_Delete)))
    (Some (mkSecretHost secret_Get secret_Put secret_Delete))
    (Some (mkTaskHost task_Enqueue schedule)) (Some notify_Send) (Some (doHTTP false)) (Some (doHTTP true)) (Some host_Write)
    (Some RecordHostCall) (Some (Some (CallGranted rpc))) (fun url w => enGuard (wEnv w) url) (fun url w => enOperatorGuard (wEnv w) url) binding.

(** ** Approved operations *)

Record Loaded := mkLoaded {
  ldID : string; ldVersion : string; ldArtifactDigest : string; ldInterfaces : list (string * string); ldBroker : Broker world }.
Definition BackingRuntime : string := "runtime".
Definition EffectiveBacking (backing : string) : string := if backing =?? "" then BackingRuntime else backing.
(** The backing of the first contract of a service. *)
Definition InterfaceFor (l : Loaded) (service : string) : option string := snd <$> List.find (fun c => c.1 =?? service) (ldInterfaces l).
Definition fold_byte (c : ascii) : ascii := if is_upper c then lower_byte c else c.
Definition equalFoldHex (a b : string) : bool :=
  (String.length a =? String.length b)%nat && negb (a =?? "") && (map fold_byte (bytes_of a) =?? map fold_byte (bytes_of b)).
Definition approvalPlanSHA (a : Approval) : string := sha256_hex (aPlan a).
Definition pluginOperationMaxTasks : Z := 32.
Definition operation_grant (a : Approval) : OperationGrant :=
  mkGrant (aID a) (aPlugin a) (approvalPlanSHA a) (aTargets a) pluginOperationMaxTasks.
(** Every check before the plugin is run. *)
Definition operation_admitted (loaded : option Loaded) (active : bool) (p : Principal) (parsed : bool) (a : Approval) : res hostError Loaded :=
  match loaded with
  | None => Err (ErrRefused "plugin is no longer loaded")
  | Some l =>
    fail_if negb active with ErrRefused "plugin is not active" ;
    fail_if negb (ldVersion l =?? aPluginVersion a) with ErrRefused "plugin version has changed since this approval" ;
    fail_if negb (equalFoldHex (ldArtifactDigest l) (aArtifactDigest a)) with ErrRefused "artifact digest has changed since this approval" ;
    fail_if negb (match InterfaceFor l (aService a) with Some backing => EffectiveBacking backing =?? BackingRuntime | None => false end)
      with ErrRefused "service is not runtime-backed" ;
    fail_if (length (aTargets a) =? 0)%nat with ErrRefused "approval has no bound targets" ;
    fail_if negb (forallb (fun n => Allows p "network:apply" n) (aTargets a)) with ErrRefused "forbidden" ;
    fail_if negb parsed with ErrRefused "parse operation plan" ;
    Ok l
  end.
(** [loaded] is what [loadedPlugin] finds, [active] whether the installation
    is active, [parsed] whether the stored plan decodes, [calls] what the
    child does with its invocation and [answered] whether it reports success. *)
Definition executePluginOperation (loaded : option Loaded) (active : bool) (p : Principal) (parsed : bool) (a : Approval)
  (defaults : InvokeBudgetSpec) (calls : list (moment * (world → world) * hostCall)) (answered : bool) (w : world) : world * res hostError unit :=
  match operation_admitted loaded active p parsed a with
  | Err err => (w, Err err)
  | Ok l =>
    match BindOperation (Some (operation_grant a)) None with
    | Err err => (w, Err err)
    | Ok grant =>
      let budget := ResolveInvokeBudget None defaults in
      let iv := mkInvocation [] grant "" "" (rvHTTPResponseBytes budget) in
      let '(_, w, _, cut) := serve (ldBroker l) (rvHostCalls budget) 0 iv calls w in
      if cut then (w, Err (ErrRefused "plugin exceeded host-call limit"))
      else if negb answered then (w, Err (ErrRefused "plugin refused to execute the approved plan")) else
      (with_wAudit (mkCallEvent (aPlugin a) "plugin.operation.execute" "network:apply" "allow" None :: wAudit w) w, Ok tt)
    end
  end.
End host.

(** ** What a host call leaves alone *)

Section frames.
Context `{Sdk} `{PluginSdk} `{GoCase} `{IncidentText}.

(** Every answer but that of a call to another plugin or to the scheduler. *)
Definition own_call (call : hostCall) : bool :=
  match call with CallRPC _ _ _ | CallSchedule _ | CallUnschedule _ => false | _ => true end.

(** A part of the world the audit trail is not in. *)
Definition unaudited {A} (f : world → A) : Prop := ∀ ev w, f (RecordHostCall ev w) = f w.
Lemma unaudited_kv : unaudited wKV. Proof. done. Qed.
Lemma unaudited_secrets : unaudited wSecrets. Proof. done. Qed.
Lemma unaudited_state : unaudited wState. Proof. done. Qed.
Lemma unaudited_env : unaudited wEnv. Proof. done. Qed.

Context (rpc : RPCRegistry world) (schedule : option (TaskScheduleHost world)) (binding : string → string → option string).
Let svc := pluginHostServices rpc schedule binding.

Lemma require_frame {A} (f : world → A) b r action cap w : services b = svc → unaudited f → f (require b r action cap w).1 = f w.
Proof.
  intros Hs Hf. unfold require, record. rewrite Hs. cbn [svc pluginHostServices hsAudit]. destruct r; [done|].
  destruct (HasCapability b cap); apply Hf.
Qed.
Lemma checked_frame {A B} (f : world → A) b r action cap (k : world → answer world B) w : services b = svc → unaudited f →
  (∀ w, f (k w).1 = f w) → f (checked b r action cap k w).1 = f w.
Proof.
  intros Hs Hf Hk. unfold checked. pose proof (require_frame f b r action cap w Hs Hf) as Hr.
  destruct (require b r action cap w) as [w1 [err|]]; cbn [fst] in *; [done|]. by rewrite Hk.
Qed.
Lemma reply_world {A} (g : A → hostReply) (x : answer world A) : (reply g x).1 = x.1.
Proof. by destruct x as [w [a|err]]. Qed.
Lemma unit_of_world (x : world * option hostError) : (unit_of x).1 = x.1.
Proof. by destruct x as [w [err|]]. Qed.
End frames.

(** ** Namespaces *)

Definition slashes (l : list ascii) : nat := length (List.filter (fun c => bool_decide (c = "/"%char)) l).
Lemma slashes_app l k : slashes (l ++ k) = (slashes l + slashes k)%nat.
Proof. unfold slashes. by rewrite List.filter_app, length_app. Qed.
Lemma slashes_none l : slashes l = 0%nat ↔ "/"%char ∉ l.
Proof.
  unfold slashes. induction l as [|c l IH]; cbn [List.filter]; [split; [intros _ []%not_elem_of_nil|done]|].
  destruct (bool_decide_reflect (c = "/"%char)) as [->|Hc]; cbn [length].
  - split; [done|]. intros []. by left.
  - rewrite IH, not_elem_of_cons. split; [by split|tauto].
Qed.
Lemma has_slash_none s : has_slash s = false → "/"%char ∉ bytes_of s.
Proof.
  intros Hs Hin. unfold has_slash in Hs. apply not_true_iff_false in Hs. apply Hs, existsb_elem_of. exists "/"%char. split; [done|].
  apply mem_spec. by left.
Qed.
Lemma kv_id_inj b1 k1 b2 k2 : "/"%char ∉ bytes_of b1 → "/"%char ∉ bytes_of b2 → kv_id b1 k1 = kv_id b2 k2 → b1 = b2 ∧ k1 = k2.
Proof. intros H1 H2 E. by apply (sep_inj "/"%char). Qed.

(** A bucket and a key without a slash are told from their id whatever other
    buckets and keys there are: the server's own buckets have slashes. *)
Definition flat (bucket key : string) : Prop := "/"%char ∉ bytes_of bucket ∧ "/"%char ∉ bytes_of key.
Lemma flat_inj b1 k1 b2 k2 : flat b1 k1 → kv_id b1 k1 = kv_id b2 k2 → b1 = b2 ∧ k1 = k2.
Proof.
  intros [Hb Hk] E. apply kv_id_inj; [done| |done]. apply slashes_none. apply slashes_none in Hb, Hk.
  apply (f_equal bytes_of), (f_equal slashes) in E. unfold kv_id in E. rewrite !bytes_of_app, !slashes_app in E.
  change (slashes (bytes_of "/")) with 1%nat in E. lia.
Qed.

(** A key the broker pinned is either refused or taken apart as it was put
    together, and then the plugin's id and the key have no slash. *)
Lemma split_scoped prefix id key b k : "/"%char ∉ bytes_of prefix →
  split_key prefix (kv_id (prefix +:+ id) key) = Ok (b, k) →
  b = prefix +:+ id ∧ k = key ∧ flat (prefix +:+ id) key.
Proof.
  intros Hp. unfold split_key, cut_slash. destruct (index_byte _ _) as [i|] eqn:Ei; [|done].
  apply index_byte_Some in Ei as (E & En & _). set (s := kv_id _ _) in *.
  destruct (cut_prefix (str_take i s) prefix) as [plugin ok]. unfold guard_err.
  destruct ok; cbn [negb]; [|done]. destruct (validateStorageName plugin); cbn [negb]; [|done].
  destruct (validateStorageName (str_take i s)); cbn [negb]; [|done].
  destruct (validateStorageName (str_drop (S i) s)) eqn:Ek; cbn [negb]; [|done]. intros [= <- <-].
  assert ("/"%char ∉ bytes_of (str_drop (S i) s)) as Hk.
  { unfold validateStorageName in Ek. go_bool. apply has_slash_none. tauto. }
  apply index_byte_None in En.
  assert ("/"%char ∉ bytes_of (prefix +:+ id)) as Hb.
  { apply slashes_none. apply (f_equal bytes_of), (f_equal slashes) in E. unfold s at 1, kv_id in E.
    rewrite !bytes_of_app, !slashes_app in E. rewrite !bytes_of_app, !slashes_app.
    change (slashes (bytes_of (String "/"%char (str_drop (S i) s)))) with (S (slashes (bytes_of (str_drop (S i) s)))) in E.
    change (slashes (bytes_of "/")) with 1%nat in E.
    apply slashes_none in En, Hk. lia. }
  destruct (kv_id_inj (prefix +:+ id) key (str_take i s) (str_drop (S i) s) Hb En) as [E1 E2]; [exact E|].
  rewrite <- E2 in Hk. split_and!; [done|done|by split].
Qed.

(** Entries are filed under their own bucket and key, as every write of the
    store files them. *)
Definition kv_wf (m : KVMap) : Prop := ∀ id e, m !! id = Some e → id = kv_id (keBucket e) (keKey e).
Definition own (bucket : string) (m : KVMap) : KVMap := filter (fun ie => keBucket ie.2 = bucket) m.

Lemma kv_wf_insert bucket key e m : kv_wf m → keBucket e = bucket → keKey e = key →
  kv_wf (<[kv_id bucket key := e]> m).
Proof.
  intros Hm <- <- id e' He'. destruct (decide (id = kv_id (keBucket e) (keKey e))) as [->|Hne].
  - rewrite lookup_insert_eq in He'. by injection He' as <-.
  - rewrite lookup_insert_ne in He' by done. by apply Hm.
Qed.
Lemma kv_wf_delete id m : kv_wf m → kv_wf (delete id m).
Proof. intros Hm id' e He. apply lookup_delete_Some in He as [_ He]. by apply Hm. Qed.
Lemma own_lookup bucket key m : kv_wf m → flat bucket key → own bucket m !! kv_id bucket key = m !! kv_id bucket key.
Proof.
  intros Hm Hb. unfold own. destruct (m !! kv_id bucket key) as [e|] eqn:E.
  - apply map_lookup_filter_Some. split; [done|]. cbn. by destruct (flat_inj _ _ _ _ Hb (Hm _ _ E)) as [<- _].
  - apply map_lookup_filter_None. by left.
Qed.
Lemma own_insert bucket key e m : kv_wf m → keBucket e = bucket →
  own bucket (<[kv_id bucket key := e]> m) = <[kv_id bucket key := e]> (own bucket m).
Proof. intros Hm He. unfold own. by rewrite map_filter_insert_True. Qed.
Lemma own_delete bucket id m : own bucket (delete id m) = delete id (own bucket m).
Proof. unfold own. apply map_filter_delete. Qed.
Lemma own_insert_other bucket other key e m : kv_wf m → flat bucket key → keBucket e = bucket → other ≠ bucket →
  own other (<[kv_id bucket key := e]> m) = own other m.
Proof.
  intros Hm Hb He Hne. unfold own. rewrite map_filter_insert_False by (cbn; congruence). rewrite map_filter_delete.
  apply delete_id. apply map_lookup_filter_None. destruct (m !! kv_id bucket key) as [e'|] eqn:E; [|by left].
  right. intros e'' [= <-]. cbn. by destruct (flat_inj _ _ _ _ Hb (Hm _ _ E)) as [<- _].
Qed.
Lemma own_delete_other bucket other key m : kv_wf m → flat bucket key → other ≠ bucket →
  own other (delete (kv_id bucket key) m) = own other m.
Proof.
  intros Hm Hb Hne. rewrite own_delete. apply delete_id. unfold own. apply map_lookup_filter_None.
  destruct (m !! kv_id bucket key) as [e'|] eqn:E; [|by left].
  right. intros e'' [= <-]. cbn. by destruct (flat_inj _ _ _ _ Hb (Hm _ _ E)) as [<- _].
Qed.
Lemma bucket_count_own bucket m : bucket_count bucket m = Z.of_nat (size (own bucket m)).
Proof.
  unfold bucket_count, own. f_equal. rewrite <- length_map_to_list.
  assert (∀ l : list (string * KVEntry), length (List.filter (fun e => keBucket e =?? bucket) l.*2) =
    length (filter (fun ie => keBucket ie.2 = bucket) l)) as Hl.
  { induction l as [|[i e] l IH]; [done|]. rewrite fmap_cons. cbn [snd List.filter]. rewrite filter_cons. cbn [snd].
    destruct (bool_decide_reflect (keBucket e = bucket)) as [Hb|Hb]; destruct (decide _); cbn [length]; congruence. }
  rewrite Hl. apply Permutation_length. rewrite map_filter_alt. symmetry. apply map_to_list_to_map.
  eapply sublist_NoDup; [|apply fmap_sublist, sublist_filter]. apply NoDup_fst_map_to_list.
Qed.

(** What a host call of one plugin keeps of the others' entries. *)
Record stays (mine : string) (m m' : KVMap) : Prop := {
  st_wf : kv_wf m → kv_wf m';
  st_own : kv_wf m → ∀ other, other ≠ mine → own other m' = own other m }.
Lemma stays_refl mine m : stays mine m m.
Proof. by split. Qed.
Lemma stays_insert mine key e m : flat mine key → keBucket e = mine → keKey e = key → stays mine m (<[kv_id mine key := e]> m).
Proof. intros Hb He Hk. split; [intros Hm; by apply kv_wf_insert|]. intros Hm other Hne. by apply own_insert_other. Qed.
Lemma stays_delete mine key m : flat mine key → stays mine m (delete (kv_id mine key) m).
Proof. intros Hb. split; [intros Hm; by apply kv_wf_delete|]. intros Hm other Hne. by apply own_delete_other. Qed.
Lemma stays_publish mine m m' p : stays mine m m' → stays mine m (publish_kv p m m').1.
Proof. intros Hs. unfold publish_kv. cbn [fst]. by destruct (committed p). Qed.

Lemma slash_free_kv : "/"%char ∉ bytes_of kvBucketPrefix.
Proof. apply (bool_decide_unpack _). by vm_compute. Qed.
Lemma slash_free_secret : "/"%char ∉ bytes_of secretBucketPrefix.
Proof. apply (bool_decide_unpack _). by vm_compute. Qed.

(** The writes of the two storage hosts, as changes of their map. *)
Inductive kv_change := ChPut (value : string) | ChPutIfMatch (value ifMatch : string) | ChDelete.
Definition host_change (c : kv_change) (key : string) (w : world) : world * option hostError :=
  match c with
  | ChPut value => host_Put key value w
  | ChPutIfMatch value ifMatch => host_PutIfMatch key value ifMatch w
  | ChDelete => host_Delete key w
  end.
Definition map_change (c : kv_change) (e : env) (bucket key : string) (m : KVMap) : KVMap * option hostError :=
  match c with
  | ChPut value => let '(m, f) := PutKV (enNow e) (enSave e) bucket key value m in (m, failed_error f)
  | ChPutIfMatch value ifMatch =>
    match PutKVIfMatch (enNow e) (enSave e) bucket key value ifMatch m with
    | (m, KVRefused) => (m, Some PluginBroker.ErrKVConflict)
    | (m, KVDone f) => (m, failed_error f)
    end
  | ChDelete => let '(m, f) := DeleteKV (enSave e) bucket key m in (m, failed_error f)
  end.
Lemma host_change_map c key w : host_change c key w =
  match splitPluginKVKey key with
  | Err err => (w, Some err)
  | Ok (bucket, entryKey) => let '(m, err) := map_change c (wEnv w) bucket entryKey (wKV w) in (with_wKV m w, err)
  end.
Proof.
  destruct c as [value|value ifMatch|]; cbn [host_change map_change]; unfold host_Put, host_PutIfMatch, host_Delete;
    destruct (splitPluginKVKey key) as [[bucket entryKey]|err]; try done.
  by destruct (PutKVIfMatch _ _ _ _ _ _ _) as [m [f|]].
Qed.
Lemma map_change_stays c e bucket key m : flat bucket key → stays bucket m (map_change c e bucket key m).1.
Proof.
  intros Hb. destruct c as [value|value ifMatch|]; cbn [map_change]; unfold PutKV, DeleteKV, PutKVIfMatch.
  - destruct (publish_kv _ _ _) as [m' f] eqn:E. cbn [fst]. assert (m' = (m', f).1) as -> by done. rewrite <- E.
    by apply stays_publish, stays_insert.
  - destruct (match m !! kv_id bucket key with Some _ => _ | None => _ end); [apply stays_refl|].
    destruct (publish_kv _ _ _) as [m' f] eqn:E. cbn [fst]. assert (m' = (m', f).1) as -> by done. rewrite <- E.
    by apply stays_publish, stays_insert.
  - destruct (publish_kv _ _ _) as [m' f] eqn:E. cbn [fst]. assert (m' = (m', f).1) as -> by done. rewrite <- E.
    by apply stays_publish, stays_delete.
Qed.
Lemma map_change_own c e bucket key m1 m2 : kv_wf m1 → kv_wf m2 → flat bucket key → own bucket m1 = own bucket m2 →
  (map_change c e bucket key m1).2 = (map_change c e bucket key m2).2 ∧
  own bucket (map_change c e bucket key m1).1 = own bucket (map_change c e bucket key m2).1.
Proof.
  intros W1 W2 Hb E.
  assert (m1 !! kv_id bucket key = m2 !! kv_id bucket key) as El by (rewrite <- (own_lookup bucket key m1), <- (own_lookup bucket key m2), E; done).
  destruct c as [value|value ifMatch|]; cbn [map_change]; unfold PutKV, DeleteKV, PutKVIfMatch, publish_kv.
  - split; [done|]. cbn [fst]. destruct (committed _); [|done]. by rewrite !own_insert, E.
  - rewrite El. destruct (match m2 !! kv_id bucket key with Some _ => _ | None => _ end); [done|].
    split; [done|]. cbn [fst]. destruct (committed _); [|done]. by rewrite !own_insert, E.
  - split; [done|]. cbn [fst]. destruct (committed _); [|done]. by rewrite !own_delete, E.
Qed.

Inductive sc_change := ScPut (value : string) | ScDelete.
Definition vault_change (c : sc_change) (key : string) (w : world) : world * option hostError :=
  match c with ScPut value => secret_Put key value w | ScDelete => secret_Delete key w end.
Definition vault_map (c : sc_change) (e : env) (bucket key : string) (m : KVMap) : KVMap * option hostError :=
  match c with
  | ScPut value =>
    match PutPluginSecret (enNow e) (enSave e) bucket key value m with
    | None => (m, Some (ErrRefused "plugin secret bucket holds the maximum of 256 entries"))
    | Some (m, f) => (m, failed_error f)
    end
  | ScDelete => let '(m, f) := DeletePluginSecret (enSave e) bucket key m in (m, failed_error f)
  end.
Lemma with_wSecrets_id w : with_wSecrets (wSecrets w) w = w.
Proof. by destruct w. Qed.
Lemma vault_change_map c key w : vault_change c key w =
  match splitPluginSecretKey key with
  | Err err => (w, Some err)
  | Ok (bucket, entryKey) => let '(m, err) := vault_map c (wEnv w) bucket entryKey (wSecrets w) in (with_wSecrets m w, err)
  end.
Proof.
  destruct c as [value|]; cbn [vault_change vault_map]; unfold secret_Put, secret_Delete;
    destruct (splitPluginSecretKey key) as [[bucket entryKey]|err]; try done.
  destruct (PutPluginSecret _ _ _ _ _ _) as [[m f]|]; [done|]. by rewrite with_wSecrets_id.
Qed.
Lemma vault_map_stays c e bucket key m : flat bucket key → stays bucket m (vault_map c e bucket key m).1.
Proof.
  intros Hb. destruct c as [value|]; cbn [vault_map]; unfold PutPluginSecret, DeletePluginSecret.
  - destruct (match m !! kv_id bucket key with Some _ => _ | None => _ end); [apply stays_refl|]. by apply stays_insert.
  - by apply stays_delete.
Qed.
Lemma vault_map_own c e bucket key m1 m2 : kv_wf m1 → kv_wf m2 → flat bucket key → own bucket m1 = own bucket m2 →
  (vault_map c e bucket key m1).2 = (vault_map c e bucket key m2).2 ∧
  own bucket (vault_map c e bucket key m1).1 = own bucket (vault_map c e bucket key m2).1.
Proof.
  intros W1 W2 Hb E.
  assert (m1 !! kv_id bucket key = m2 !! kv_id bucket key) as El by (rewrite <- (own_lookup bucket key m1), <- (own_lookup bucket key m2), E; done).
  destruct c as [value|]; cbn [vault_map]; unfold PutPluginSecret, DeletePluginSecret.
  - rewrite El, !bucket_count_own, E. destruct (match m2 !! kv_id bucket key with Some _ => _ | None => _ end); [done|].
    split; [done|]. cbn [fst]. by rewrite !own_insert, E.
  - split; [done|]. cbn [fst]. by rewrite !own_delete, E.
Qed.

(** ** Isolation *)

Section isolation.
Context `{Sdk} `{PluginSdk} `{GoCase} `{IncidentText}.
Context (rpc : RPCRegistry world) (schedule : option (TaskScheduleHost world)) (binding : string → string → option string).
Implicit Types (b : Broker world) (w : world).

(** Two worlds a plugin cannot tell apart by its storage. *)
Record agree b w1 w2 : Prop := {
  ag_wf : kv_wf (wKV w1) ∧ kv_wf (wKV w2) ∧ kv_wf (wSecrets w1) ∧ kv_wf (wSecrets w2);
  ag_kv : own (kvBucket b) (wKV w1) = own (kvBucket b) (wKV w2);
  ag_secrets : own (secretBucket b) (wSecrets w1) = own (secretBucket b) (wSecrets w2);
  ag_env : wEnv w1 = wEnv w2 }.
Definition same_answer {A} b (x y : answer world A) : Prop := x.2 = y.2 ∧ agree b x.1 y.1.

Lemma agree_checked {A} b r action cap (k : world → answer world A) w1 w2 : services b = pluginHostServices rpc schedule binding →
  (∀ w1 w2, agree b w1 w2 → same_answer b (k w1) (k w2)) → agree b w1 w2 →
  same_answer b (checked b r action cap k w1) (checked b r action cap k w2).
Proof.
  intros Hs Hk Ha. unfold checked, require, record. rewrite Hs. cbn [pluginHostServices hsAudit].
  destruct r; [by split|]. destruct (HasCapability b cap); [|split; [done|]; by destruct Ha; split].
  apply Hk. by destruct Ha; split.
Qed.
Lemma agree_reply {A} b (f : A → hostReply) (x y : answer world A) : same_answer b x y → same_answer b (reply f x) (reply f y).
Proof. destruct x as [w1 [a1|e1]], y as [w2 [a2|e2]]; intros [E Ha]; cbn in *; split; cbn; congruence || done. Qed.
Lemma agree_unit b (x y : world * option hostError) : x.2 = y.2 → agree b x.1 y.1 → same_answer b (unit_of x) (unit_of y).
Proof. destruct x as [w1 [e1|]], y as [w2 [e2|]]; cbn; intros E Ha; split; cbn; congruence || done. Qed.

Lemma agree_change b c key w1 w2 : agree b w1 w2 →
  same_answer b (unit_of (host_change c (kv_id (kvBucket b) key) w1)) (unit_of (host_change c (kv_id (kvBucket b) key) w2)).
Proof.
  intros Ha. pose proof Ha as [(W1 & W2 & W3 & W4) E1 E2 E3].
  assert (∀ w, host_change c (kv_id (kvBucket b) key) w = match splitPluginKVKey (kv_id (kvBucket b) key) with
    | Err err => (w, Some err) | Ok _ => let '(m, err) := map_change c (wEnv w) (kvBucket b) key (wKV w) in (with_wKV m w, err) end) as Hc.
  { intros w. rewrite host_change_map. destruct (splitPluginKVKey _) as [[bu ek]|err] eqn:Es; [|done].
    by apply split_scoped in Es as (-> & -> & _); [|apply slash_free_kv]. }
  rewrite !Hc. destruct (splitPluginKVKey _) as [[bu ek]|err] eqn:Es; [|by apply agree_unit].
  apply split_scoped in Es as (_ & _ & Hb); [|apply slash_free_kv]. fold (kvBucket b) in Hb. rewrite E3.
  destruct (map_change_own c (wEnv w2) (kvBucket b) key (wKV w1) (wKV w2) W1 W2 Hb E1) as [A1 A2].
  pose proof (map_change_stays c (wEnv w2) (kvBucket b) key (wKV w1) Hb) as S1.
  pose proof (map_change_stays c (wEnv w2) (kvBucket b) key (wKV w2) Hb) as S2.
  destruct (map_change c (wEnv w2) (kvBucket b) key (wKV w1)) as [m1 e1], (map_change c (wEnv w2) (kvBucket b) key (wKV w2)) as [m2 e2].
  cbn [fst snd] in *. apply agree_unit; [done|]. cbn [fst]. split; cbn [with_wKV wKV wSecrets wEnv]; try done.
  split_and!; [by apply S1|by apply S2|done..].
Qed.
Lemma agree_vault b c key w1 w2 : agree b w1 w2 →
  same_answer b (unit_of (vault_change c (kv_id (secretBucket b) key) w1)) (unit_of (vault_change c (kv_id (secretBucket b) key) w2)).
Proof.
  intros Ha. pose proof Ha as [(W1 & W2 & W3 & W4) E1 E2 E3].
  assert (∀ w, vault_change c (kv_id (secretBucket b) key) w = match splitPluginSecretKey (kv_id (secretBucket b) key) with
    | Err err => (w, Some err) | Ok _ => let '(m, err) := vault_map c (wEnv w) (secretBucket b) key (wSecrets w) in (with_wSecrets m w, err) end) as Hc.
  { intros w. rewrite vault_change_map. destruct (splitPluginSecretKey _) as [[bu ek]|err] eqn:Es; [|done].
    by apply split_scoped in Es as (-> & -> & _); [|apply slash_free_secret]. }
  rewrite !Hc. destruct (splitPluginSecretKey _) as [[bu ek]|err] eqn:Es; [|by apply agree_unit].
  apply split_scoped in Es as (_ & _ & Hb); [|apply slash_free_secret]. fold (secretBucket b) in Hb. rewrite E3.
  destruct (vault_map_own c (wEnv w2) (secretBucket b) key (wSecrets w1) (wSecrets w2) W3 W4 Hb E2) as [A1 A2].
  pose proof (vault_map_stays c (wEnv w2) (secretBucket b) key (wSecrets w1) Hb) as S1.
  pose proof (vault_map_stays c (wEnv w2) (secretBucket b) key (wSecrets w2) Hb) as S2.
  destruct (vault_map c (wEnv w2) (secretBucket b) key (wSecrets w1)) as [m1 e1], (vault_map c (wEnv w2) (secretBucket b) key (wSecrets w2)) as [m2 e2].
  cbn [fst snd] in *. apply agree_unit; [done|]. cbn [fst]. split; cbn [with_wSecrets wKV wSecrets wEnv]; try done.
  split_and!; [done|done|by apply S1|by apply S2].
Qed.
Lemma agree_get b key w1 w2 : agree b w1 w2 → host_Get (kv_id (kvBucket b) key) w1 = host_Get (kv_id (kvBucket b) key) w2.
Proof.
  intros [(W1 & W2 & _) E1 _ _]. unfold host_Get. destruct (splitPluginKVKey _) as [[bu ek]|err] eqn:Es; [|done].
  apply split_scoped in Es as (-> & -> & Hb); [|apply slash_free_kv]. fold (kvBucket b) in *.
  by rewrite <- (own_lookup (kvBucket b) key (wKV w1)), <- (own_lookup (kvBucket b) key (wKV w2)), E1.
Qed.
Lemma agree_secret b key w1 w2 : agree b w1 w2 → secret_Get (kv_id (secretBucket b) key) w1 = secret_Get (kv_id (secretBucket b) key) w2.
Proof.
  intros [(_ & _ & W1 & W2) _ E1 _]. unfold secret_Get. destruct (splitPluginSecretKey _) as [[bu ek]|err] eqn:Es; [|done].
  apply split_scoped in Es as (-> & -> & Hb); [|apply slash_free_secret]. fold (secretBucket b) in *.
  by rewrite <- (own_lookup (secretBucket b) key (wSecrets w1)), <- (own_lookup (secretBucket b) key (wSecrets w2)), E1.
Qed.

Definition storage_call (call : hostCall) : bool :=
  match call with
  | CallKVGet _ | CallKVPut _ _ _ | CallKVDelete _ | CallSecretGet _ | CallSecretPut _ _ | CallSecretDelete _ => true
  | _ => false
  end.

(** C13. A plugin learns nothing of another plugin's stored data: in two worlds
    that hold the same entries and secrets under its own id, whatever other
    plugins, operators and the server itself store beside them, buckets with
    slashes included, each of its storage calls gets the same answer, and
    afterwards its own entries and secrets are still the same. *)
Theorem plugin_storage_noninterference b m iv call w1 w2 : services b = pluginHostServices rpc schedule binding →
  storage_call call = true → agree b w1 w2 →
  let '(_, (w1', r1)) := dispatchHostCall b m iv call w1 in
  let '(_, (w2', r2)) := dispatchHostCall b m iv call w2 in
  r1 = r2 ∧ agree b w1' w2'.
Proof.
  intros Hs Hc Ha. unfold dispatchHostCall. destruct (moCanceled m); [done|]. destruct (moRevokedFirst m); [done|].
  assert (∀ (x y : answer world hostReply), same_answer b x y → let '(w1', r1) := x in let '(w2', r2) := y in r1 = r2 ∧ agree b w1' w2') as Hdone.
  { intros [? ?] [? ?] Hx. exact Hx. }
  destruct call as [| | |key|key value [ifMatch|]|key| |key|key value|key| | | | |]; try discriminate Hc; cbv zeta; cbn [storage_call] in Hc; apply Hdone, agree_reply;
    (apply agree_checked; [exact Hs| |exact Ha]); clear w1 w2 Ha; intros w1 w2 Ha; rewrite Hs;
    cbn [pluginHostServices hsKV hsSecret mbind option_bind kvPutIfMatch kvDelete kvGet kvPut scGet scPut scDelete].
  - unfold scopedKVKey, guard_err. destruct (key =?? ""); [by split|]. destruct (has_slash key); [by split|].
    split; [|done]. exact (agree_get b key w1 w2 Ha).
  - destruct (_ && _); [by split|]. unfold scopedKVKey, guard_err. destruct (key =?? ""); [by split|]. destruct (has_slash key); [by split|].
    exact (agree_change b (ChPutIfMatch value ifMatch) key w1 w2 Ha).
  - unfold scopedKVKey, guard_err. destruct (key =?? ""); [by split|]. destruct (has_slash key); [by split|].
    exact (agree_change b (ChPut value) key w1 w2 Ha).
  - unfold scopedKVKey, guard_err. destruct (key =?? ""); [by split|]. destruct (has_slash key); [by split|].
    exact (agree_change b ChDelete key w1 w2 Ha).
  - unfold scopedSecretKey, guard_err. destruct (key =?? ""); [by split|]. destruct (has_slash key); [by split|].
    split; [|done]. exact (agree_secret b key w1 w2 Ha).
  - destruct (_ <? _); [by split|]. unfold scopedSecretKey, guard_err. destruct (key =?? ""); [by split|]. destruct (has_slash key); [by split|].
    exact (agree_vault b (ScPut value) key w1 w2 Ha).
  - unfold scopedSecretKey, guard_err. destruct (key =?? ""); [by split|]. destruct (has_slash key); [by split|].
    exact (agree_vault b ScDelete key w1 w2 Ha).
Qed.
End isolation.

Section writes.
Context `{Sdk} `{PluginSdk} `{GoCase} `{IncidentText}.
Context (rpc : RPCRegistry world) (schedule : option (TaskScheduleHost world)) (binding : string → string → option string).
Implicit Types (b : Broker world) (w : world).

Record confined b w w' : Prop := {
  cf_kv : stays (kvBucket b) (wKV w) (wKV w');
  cf_secrets : stays (secretBucket b) (wSecrets w) (wSecrets w') }.
Lemma confined_same b w w' : wKV w' = wKV w → wSecrets w' = wSecrets w → confined b w w'.
Proof. intros E1 E2. split; [rewrite E1|rewrite E2]; apply stays_refl. Qed.
Lemma confined_checked {A} b r action cap (k : world → answer world A) w : services b = pluginHostServices rpc schedule binding →
  (∀ w, confined b w (k w).1) → confined b w (checked b r action cap k w).1.
Proof.
  intros Hs Hk. unfold checked, require, record. rewrite Hs. cbn [pluginHostServices hsAudit].
  destruct r; [by apply confined_same|]. destruct (HasCapability b cap); [|by apply confined_same].
  destruct (Hk (RecordHostCall (mkCallEvent (pluginID b) action cap "allow" None) w)) as [K1 K2]. by split.
Qed.
Lemma confined_change b c key w : confined b w (unit_of (host_change c (kv_id (kvBucket b) key) w)).1.
Proof.
  rewrite unit_of_world, host_change_map. destruct (splitPluginKVKey _) as [[bu ek]|err] eqn:Es; [|by apply confined_same].
  apply split_scoped in Es as (-> & -> & Hb); [|apply slash_free_kv]. fold (kvBucket b) in *.
  pose proof (map_change_stays c (wEnv w) (kvBucket b) key (wKV w) Hb) as S1.
  destruct (map_change _ _ _ _ _) as [m' e']. split; [exact S1|apply stays_refl].
Qed.
Lemma confined_vault b c key w : confined b w (unit_of (vault_change c (kv_id (secretBucket b) key) w)).1.
Proof.
  rewrite unit_of_world, vault_change_map. destruct (splitPluginSecretKey _) as [[bu ek]|err] eqn:Es; [|by apply confined_same].
  apply split_scoped in Es as (-> & -> & Hb); [|apply slash_free_secret]. fold (secretBucket b) in *.
  pose proof (vault_map_stays c (wEnv w) (secretBucket b) key (wSecrets w) Hb) as S1.
  destruct (vault_map _ _ _ _ _) as [m' e']. split; [apply stays_refl|exact S1].
Qed.

(** A host service that leaves storage and tasks alone. *)
Definition harmless {A} (x : world * A) w : Prop := wKV x.1 = wKV w ∧ wSecrets x.1 = wSecrets w ∧ wState x.1 = wState w.
Lemma harmless_http operator req w : harmless (doHTTP operator req w) w.
Proof. unfold doHTTP, harmless. destruct (_ <? _); [done|]. destruct (enExchange _ _ _); [|done]. by destruct (_ <? _). Qed.
Lemma harmless_notify plugin title body w : harmless (notify_Send plugin title body w) w.
Proof. unfold notify_Send, harmless. cbv zeta. destruct (_ <=? _); [done|]. by destruct (commitNotifyPlan _ _ _ _ _ _). Qed.
Lemma task_storage req w : wKV (task_Enqueue req w).1 = wKV w ∧ wSecrets (task_Enqueue req w).1 = wSecrets w.
Proof.
  unfold task_Enqueue, queueTask. cbv zeta. destruct (negb (validateTaskCreate _ _ _ _)); [done|]. destruct (enExecDisabled _); [done|].
  destruct (_ && _); [done|]. destruct (CreateTask _ _ _ _) as [st [err|]]; done.
Qed.
Lemma harmless_operator b r iv req w : services b = pluginHostServices rpc schedule binding → harmless (HTTPOperatorDo b r iv req w) w.
Proof.
  intros Hs. unfold HTTPOperatorDo, checked, require, record. rewrite Hs. cbn [pluginHostServices hsAudit hsOperatorHTTP hsGuardOperatorURL].
  destruct r; [done|]. destruct (HasCapability _ _); [|done]. destruct (operatorHTTPVerbAllowed _ _ _); [|done].
  destruct (operatorTargetBound _ _ _); [done|]. destruct (enOperatorGuard _ _); [done|]. exact (harmless_http true _ _).
Qed.

Lemma harmless_do b r iv req w : services b = pluginHostServices rpc schedule binding → harmless (HTTPDo b r iv req w) w.
Proof.
  intros Hs. unfold HTTPDo, checked, require, record. rewrite Hs. cbn [pluginHostServices hsAudit hsHTTP hsGuardURL].
  destruct r; [done|]. destruct (HasCapability _ _); [|done]. destruct (enGuard _ _); [done|]. exact (harmless_http false _ _).
Qed.
Lemma harmless_message b r title body w : services b = pluginHostServices rpc schedule binding → harmless (Notify b r title body w) w.
Proof.
  intros Hs. unfold Notify, checked, require, record. rewrite Hs. cbn [pluginHostServices hsAudit hsNotify].
  destruct r; [done|]. destruct (HasCapability _ _); [|done]. unfold harmless. rewrite unit_of_world. exact (harmless_notify _ _ _ _).
Qed.
Lemma harmless_log b r level msg fields w : services b = pluginHostServices rpc schedule binding → harmless (Log b r level msg fields w) w.
Proof.
  intros Hs. unfold Log, checked, require, record. rewrite Hs. cbn [pluginHostServices hsAudit hsLog].
  destruct r; [done|]. by destruct (HasCapability _ _).
Qed.
(** What an enqueue does, refused or not. *)
Inductive enqueued b (g : option OperationGrant) (req : HostTaskRequest) w : option OperationGrant * answer world string → Prop :=
| enq_refused w' err : harmless (w', err) w → enqueued b g req w (g, (w', Err err))
| enq_run g0 w' r : g = Some g0 → capTaskRun ∈ capabilities b → ogPluginID g0 = pluginID b → 0 < ogRemaining g0 →
    AllowsTarget g0 (htNodeID req) = true → Z.of_nat (String.length (htScript req)) <= maxOperationScriptSize →
    harmless (w', tt) w → wEnv w' = wEnv w →
    r = task_Enqueue (mkTaskRequest (pluginID b) (ogApprovalID g0) (htNodeID req) (htInterpreter req) (htScript req) (htTimeoutSec req)) w' →
    enqueued b g req w (Some (with_ogRemaining (wrap64 (ogRemaining g0 - 1)) g0), r).
Lemma enqueue_cases b r g req w : services b = pluginHostServices rpc schedule binding → enqueued b g req w (TaskEnqueue b r g req w).
Proof.
  intros Hs. unfold TaskEnqueue, require, record. rewrite Hs. cbn [pluginHostServices hsAudit hsTask thEnqueue].
  destruct r; [by apply enq_refused|]. unfold HasCapability. destruct (bool_decide_reflect (capTaskRun ∈ capabilities b)); [|by apply enq_refused].
  destruct g as [g|]; [|by apply enq_refused].
  destruct (bool_decide_reflect (ogPluginID g = pluginID b)); cbn [negb]; [|by apply enq_refused].
  destruct (Z.leb_spec (ogRemaining g) 0); [by apply enq_refused|].
  destruct (AllowsTarget g (htNodeID req)) eqn:Ea; cbn [negb]; [|by apply enq_refused].
  destruct (Z.ltb_spec maxOperationScriptSize (Z.of_nat (String.length (htScript req)))); [by apply enq_refused|].
  by apply (enq_run b (Some g) req w g (RecordHostCall (mkCallEvent (pluginID b) "task.enqueue" capTaskRun "allow" None) w)).
Qed.
Lemma confined_harmless {A} b (x : world * A) w : harmless x w → confined b w x.1.
Proof. intros (E1 & E2 & _). by apply confined_same. Qed.

(** A storage call whose key is refused changes nothing. *)
Ltac scoped key := unfold scopedKVKey, scopedSecretKey, guard_err; destruct (key =?? ""); [by apply confined_same|];
  destruct (has_slash key); [by apply confined_same|].
Lemma storage_confined b r w : services b = pluginHostServices rpc schedule binding →
  (∀ key, confined b w (KVGet b r key w).1) ∧ (∀ key v, confined b w (KVPut b r key v w).1) ∧
  (∀ key v i, confined b w (KVPutIfMatch b r key v i w).1) ∧ (∀ key, confined b w (KVDelete b r key w).1) ∧
  (∀ key, confined b w (SecretGet b r key w).1) ∧ (∀ key v, confined b w (SecretPut b r key v w).1) ∧
  (∀ key, confined b w (SecretDelete b r key w).1).
Proof.
  intros Hs. split_and!; intros key; intros; (apply confined_checked; [exact Hs|]); clear w; intros w; rewrite Hs;
    cbn [pluginHostServices hsKV hsSecret mbind option_bind kvPutIfMatch kvDelete kvGet kvPut scGet scPut scDelete].
  - scoped key. by apply confined_same.
  - scoped key. exact (confined_change b (ChPut v) key w).
  - destruct (_ && _); [by apply confined_same|]. scoped key. exact (confined_change b (ChPutIfMatch v i) key w).
  - scoped key. exact (confined_change b ChDelete key w).
  - scoped key. by apply confined_same.
  - destruct (_ <? _); [by apply confined_same|]. scoped key. exact (confined_vault b (ScPut v) key w).
  - scoped key. exact (confined_vault b ScDelete key w).
Qed.

(** A plugin's writes stay under its own id: a host call, whatever its
    keys and parameters, changes no stored entry and no secret of another
    bucket, be it another plugin's or the operator's; and entries stay filed
    under the bucket and key they name. *)
Theorem plugin_writes_confined b m iv call w : services b = pluginHostServices rpc schedule binding → own_call call = true →
  let w' := (dispatchHostCall b m iv call w).2.1 in
  kv_wf (wKV w) → kv_wf (wSecrets w) →
  kv_wf (wKV w') ∧ kv_wf (wSecrets w') ∧
  (∀ other, other ≠ kvBucket b → own other (wKV w') = own other (wKV w)) ∧
  (∀ other, other ≠ secretBucket b → own other (wSecrets w') = own other (wSecrets w)).
Proof.
  intros Hs Hc w' Wk Ws.
  assert (confined b w w') as [[K1 K2] [K3 K4]]; [|split_and!; [by apply K1|by apply K3|by apply K2|by apply K4]].
  unfold w', dispatchHostCall. clear w'. destruct (moCanceled m); [by apply confined_same|]. destruct (moRevokedFirst m); [by apply confined_same|].
  cbv zeta. destruct (storage_confined b (moRevokedThen m) w Hs) as (S1 & S2 & S3 & S4 & S5 & S6 & S7).
  destruct call as [|req|req|key|key value [ifMatch|]|key|req|key|key value|key|title body|level msg fields| | |]; try discriminate Hc;
    cbn [snd]; rewrite ?reply_world; auto.
  - by apply confined_harmless, harmless_do.
  - by apply confined_harmless, harmless_operator.
  - set (q := mkTaskRequest _ _ _ _ _ _). destruct (enqueue_cases b (moRevokedThen m) (ivGrant iv) q w Hs) as [w' err Hh|g0 w' r Eg Hcap Hid Hrem Ht Hsz Hh He ->];
      cbn [snd]; rewrite reply_world; [exact (confined_harmless b _ w Hh)|].
    destruct Hh as (E1 & E2 & _). set (q' := mkTaskRequest _ _ _ _ _ _). destruct (task_storage q' w') as [T1 T2]. apply confined_same; cbn in *; congruence.
  - by apply confined_harmless, harmless_message.
  - by apply confined_harmless, harmless_log.
  - by apply confined_same.
Qed.
End writes.

(** ** Approved operations *)

Section operations.
Context `{Sdk} `{PluginSdk} `{GoCase} `{IncidentText}.
Context (rpc : RPCRegistry world) (schedule : option (TaskScheduleHost world)) (binding : string → string → option string).
Implicit Types (b : Broker world) (w : world).
Notation tasks w := (StoreState.Tasks (wState w)).

(** A task a grant covers. *)
Record approved_task (plugin approval : string) (targets : list string) (t : Task) : Prop := {
  at_target : ∃ n, tTargets t = [n] ∧ n ∈ targets;
  at_approval : tApprovalID t = approval;
  at_actor : tActorID t = "plugin:" +:+ plugin;
  at_status : tStatus t = TaskQueued;
  at_timeout : 0 < TimeoutSec t <= maxTaskTimeoutSec;
  at_script : Z.of_nat (String.length (Script t)) <= maxTaskScriptBytes ∧ scriptFirstCommandKillsAgent (Script t) = false }.
Lemma task_created req w (Hq : TaskQueued ≠ "") : tasks (task_Enqueue req w).1 = tasks w ∨
  ∃ t, tasks (task_Enqueue req w).1 = <[tID t := t]> (tasks w) ∧
    approved_task (htPluginID req) (htApprovalID req) [htNodeID req] t.
Proof.
  unfold task_Enqueue. cbv zeta. set (timeout := if htTimeoutSec req <=? 0 then _ else _).
  destruct (validateTaskCreate _ _ _ _) eqn:Ev; cbn [negb]; [|by left].
  unfold queueTask. cbv zeta. destruct (enExecDisabled _); [by left|]. destruct (_ && _); [by left|].
  destruct (CreateTask _ _ _ _) as [st err] eqn:Ec. unfold CreateTask in Ec. cbv zeta in Ec.
  set (t := if is_zero _ then _ else _) in Ec.
  assert (tTargets t = [htNodeID req] ∧ tApprovalID t = htApprovalID req ∧ tActorID t = "plugin:" +:+ htPluginID req ∧
    tStatus t = TaskQueued ∧ TimeoutSec t = timeout ∧ Script t = htScript req) as (U1 & U2 & U3 & U4 & U5 & U6)
    by (unfold t; by destruct (is_zero _)).
  rewrite U4, bool_decide_eq_false_2 in Ec by done. right. exists t. split; [injection Ec as <- <-; by destruct (errTaskPersist _)|].
  unfold validateTaskCreate in Ev. go_bool. destruct Ev as [[[[_ E2] _] E4] E5]. split; rewrite ?U1, ?U2, ?U3, ?U4, ?U5, ?U6; try done.
  - exists (htNodeID req). split; [done|]. by left.
Qed.

Lemma dispatch_tasks b m iv call w : services b = pluginHostServices rpc schedule binding → own_call call = true → TaskQueued ≠ "" →
  let '(iv', (w', _)) := dispatchHostCall b m iv call w in
  (tasks w' = tasks w ∧ (ivGrant iv' = ivGrant iv ∨ ∃ g, ivGrant iv = Some g ∧ 0 < ogRemaining g ∧ ivGrant iv' = Some (with_ogRemaining (wrap64 (ogRemaining g - 1)) g))) ∨
  (∃ g t, ivGrant iv = Some g ∧ 0 < ogRemaining g ∧ ivGrant iv' = Some (with_ogRemaining (wrap64 (ogRemaining g - 1)) g) ∧
     tasks w' = <[tID t := t]> (tasks w) ∧ ogPluginID g = pluginID b ∧ approved_task (pluginID b) (ogApprovalID g) (ogTargets g) t).
Proof.
  intros Hs Hc Hq.
  assert (∀ A (x : answer world A) (f : A → hostReply), wState x.1 = wState w →
    let '(iv', (w', _)) := (iv, reply f x) in (tasks w' = tasks w ∧ (ivGrant iv' = ivGrant iv ∨ ∃ g, ivGrant iv = Some g ∧ 0 < ogRemaining g ∧ ivGrant iv' = Some (with_ogRemaining (wrap64 (ogRemaining g - 1)) g))) ∨
    (∃ g t, ivGrant iv = Some g ∧ 0 < ogRemaining g ∧ ivGrant iv' = Some (with_ogRemaining (wrap64 (ogRemaining g - 1)) g) ∧
       tasks w' = <[tID t := t]> (tasks w) ∧ ogPluginID g = pluginID b ∧ approved_task (pluginID b) (ogApprovalID g) (ogTargets g) t)) as Hsame.
  { intros A [w' [a|err]] f E; cbn in *; left; (split; [by rewrite E|by left]). }
  unfold dispatchHostCall. destruct (moCanceled m); [by left; split; [|left]|]. destruct (moRevokedFirst m); [by left; split; [|left]|].
  cbv zeta. set (r := moRevokedThen m).
  assert (∀ A action cap (k : world → answer world A), (∀ w, wState (k w).1 = wState w) → wState (checked b r action cap k w).1 = wState w) as Hck
    by (intros A action cap k Hk; by apply (checked_frame rpc schedule binding)).
  assert (∀ c key w, wState (unit_of (host_change c key w)).1 = wState w) as Hkv.
  { intros c key w0. rewrite unit_of_world, host_change_map. destruct (splitPluginKVKey key) as [[? ?]|]; [|done]. by destruct (map_change _ _ _ _ _). }
  assert (∀ c key w, wState (unit_of (vault_change c key w)).1 = wState w) as Hvt.
  { intros c key w0. rewrite unit_of_world, vault_change_map. destruct (splitPluginSecretKey key) as [[? ?]|]; [|done]. by destruct (vault_map _ _ _ _ _). }
  destruct call as [|req|req|key|key value [ifMatch|]|key|req|key|key value|key|title body|level msg fields| | |]; try discriminate Hc;
    try (by left; split; [|left]); try (apply Hsame).
  - by apply (harmless_do rpc schedule binding b r iv req w Hs).
  - by apply (harmless_operator rpc schedule binding b r iv req w Hs).
  - apply Hck. intros w0. rewrite Hs. cbn [pluginHostServices hsKV]. by destruct (scopedKVKey b key).
  - apply Hck. intros w0. rewrite Hs. destruct (_ && _); [done|]. cbn [pluginHostServices hsKV mbind option_bind kvPutIfMatch]. destruct (scopedKVKey b key); [|done]. apply (Hkv (ChPutIfMatch value ifMatch)).
  - apply Hck. intros w0. rewrite Hs. cbn [pluginHostServices hsKV kvPut]. destruct (scopedKVKey b key); [|done]. apply (Hkv (ChPut value)).
  - apply Hck. intros w0. rewrite Hs. cbn [pluginHostServices hsKV mbind option_bind kvDelete]. destruct (scopedKVKey b key); [|done]. apply (Hkv ChDelete).
  - set (q := mkTaskRequest _ _ _ _ _ _). destruct (enqueue_cases rpc schedule binding b r (ivGrant iv) q w Hs) as [w' err Hh|g0 w' x Eg Hcap Hid Hrem Ht Hsz Hh He ->].
    + left. split; [|by left]. destruct Hh as (_ & _ & Est). cbn in *. by rewrite Est.
    + set (q' := mkTaskRequest _ _ _ _ _ _). destruct Hh as (_ & _ & Est). cbn [fst] in Est. destruct (task_created q' w' Hq) as [E|(t & E & Hap)].
      * destruct (task_Enqueue q' w') as [w2 [id|err]]; cbn in *; left; (split; [by rewrite E, Est|right; eauto]).
      * destruct Hap as [(n & T1 & ->%list_elem_of_singleton) T2 T3 T4 T5 T6].
        assert (approved_task (pluginID b) (ogApprovalID g0) (ogTargets g0) t).
        { split; try done. exists (htNodeID q'). split; [done|]. unfold AllowsTarget in Ht. apply existsb_elem_of in Ht as (n' & Hn' & E'). by apply bool_decide_eq_true in E' as ->. }
        destruct (task_Enqueue q' w') as [w2 [id|err]]; cbn in *; right; exists g0, t; split_and!; try done; by rewrite E, Est.
  - apply Hck. intros w0. rewrite Hs. cbn [pluginHostServices hsSecret]. by destruct (scopedSecretKey b key).
  - apply Hck. intros w0. rewrite Hs. cbn [pluginHostServices hsSecret scPut]. destruct (_ <? _); [done|]. destruct (scopedSecretKey b key); [|done]. apply (Hvt (ScPut value)).
  - apply Hck. intros w0. rewrite Hs. cbn [pluginHostServices hsSecret scDelete]. destruct (scopedSecretKey b key); [|done]. apply (Hvt ScDelete).
  - by apply (harmless_message rpc schedule binding b r title body w Hs).
  - by apply (harmless_log rpc schedule binding b r level msg fields w Hs).
Qed.

(** What happens around a host call creates no task of its own. *)
Definition quiet_call (c : moment * (world → world) * hostCall) : Prop :=
  own_call c.2 = true ∧ ∀ w, tasks (c.1.2 w) = tasks w.
(** The tasks created since [w]. *)
Definition created w w' : gset string := dom (tasks w') ∖ dom (tasks w).
Lemma created_trans w w1 w2 : (size (created w w2) <= size (created w w1) + size (created w1 w2))%nat.
Proof.
  unfold created. set (d := dom (tasks w)). set (d1 := dom (tasks w1)). set (d2 := dom (tasks w2)).
  etrans; [apply (subseteq_size _ ((d1 ∖ d) ∪ (d2 ∖ d1)))|].
  - intros x [Hx Hn]%elem_of_difference. apply elem_of_union. destruct (decide (x ∈ d1)); [left|right]; by apply elem_of_difference.
  - rewrite size_union_alt. apply Nat.add_le_mono_l, subseteq_size. intros x [Hx _]%elem_of_difference. done.
Qed.

Lemma serve_tasks b limit : services b = pluginHostServices rpc schedule binding → TaskQueued ≠ "" →
  ∀ calls count iv w g, Forall quiet_call calls → ivGrant iv = Some g → 0 <= ogRemaining g < 2 ^ 63 →
  let w' := (serve b limit count iv calls w).1.1.2 in
  (∀ id t, tasks w' !! id = Some t → tasks w !! id = Some t ∨ (ogPluginID g = pluginID b ∧ approved_task (pluginID b) (ogApprovalID g) (ogTargets g) t)) ∧
  Z.of_nat (size (created w w')) <= ogRemaining g.
Proof.
  intros Hs Hq. induction calls as [|[[m others] call] calls IH]; intros count iv w g Hf Hg Hrem; cbn [serve].
  { cbn. split; [by left|]. unfold created. rewrite difference_diag_L, size_empty. lia. }
  apply Forall_cons in Hf as [[Hc Ho] Hf]. cbn [fst snd] in Hc, Ho. cbv zeta. destruct (limit <? count + 1).
  { cbn. split; [by left|]. unfold created. rewrite difference_diag_L, size_empty. lia. }
  pose proof (dispatch_tasks b m iv call (others w) Hs Hc Hq) as Hd.
  destruct (dispatchHostCall b m iv call (others w)) as [iv1 [w1 r]]. rewrite Ho in Hd.
  assert (∃ g1, ivGrant iv1 = Some g1 ∧ ogPluginID g1 = ogPluginID g ∧ ogApprovalID g1 = ogApprovalID g ∧ ogTargets g1 = ogTargets g ∧
    0 <= ogRemaining g1 < 2 ^ 63 ∧
    (∀ id t, tasks w1 !! id = Some t → tasks w !! id = Some t ∨ (ogPluginID g = pluginID b ∧ approved_task (pluginID b) (ogApprovalID g) (ogTargets g) t)) ∧
    Z.of_nat (size (created w w1)) + ogRemaining g1 <= ogRemaining g) as (g1 & G1 & G2 & G3 & G4 & G5 & G6 & G7).
  { assert (∀ g', 0 < ogRemaining g' → g' = g → wrap64 (ogRemaining g' - 1) = ogRemaining g - 1) as Hw.
    { intros g' Hp ->. apply wrap64_id. unfold int64_min, int64_max. lia. }
    destruct Hd as [[E [Eg|(g' & Eg & Hp & Eg')]]|(g' & t & Eg & Hp & Eg' & E & Hid & Hap)].
    - exists g. rewrite Eg. split_and!; try done; try lia; [rewrite E; by left|]. unfold created. rewrite E, difference_diag_L, size_empty. lia.
    - assert (g' = g) as -> by congruence. eexists. split; [exact Eg'|]. cbn [with_ogRemaining ogPluginID ogApprovalID ogTargets ogRemaining].
      rewrite (Hw g Hp eq_refl). split_and!; try done; try lia; [rewrite E; by left|]. unfold created. rewrite E, difference_diag_L, size_empty. lia.
    - assert (g' = g) as -> by congruence. eexists. split; [exact Eg'|]. cbn [with_ogRemaining ogPluginID ogApprovalID ogTargets ogRemaining].
      rewrite (Hw g Hp eq_refl). split_and!; try done; try lia.
      + intros id t'. rewrite E. destruct (decide (id = tID t)) as [->|Hne]; [rewrite lookup_insert_eq; intros [= <-]; by right|].
        rewrite lookup_insert_ne by done. by left.
      + assert (size (created w w1) <= 1)%nat; [|lia]. unfold created. rewrite E, dom_insert_L.
        etrans; [apply (subseteq_size _ ({[tID t]} : gset string)); set_solver|]. by rewrite size_singleton. }
  specialize (IH (count + 1) iv1 w1 g1 Hf G1 G5). destruct (serve b limit (count + 1) iv1 calls w1) as [[[iv2 w2] rs] cut]. cbn [fst snd] in *.
  destruct IH as [I1 I2]. rewrite G2, G3, G4 in I1. split.
  - intros id t Ht. destruct (I1 id t Ht) as [Ht1|]; [|by right]. by apply G6.
  - pose proof (created_trans w w1 w2). lia.
Qed.

(** C8. An approved operation reaches what was approved and nothing else: if
    any of the plugin's loaded version, artifact, activity or backing, or the
    approver's rights on any target, is not what the approval bound, running
    it changes nothing; otherwise, whatever host calls the plugin makes other
    than RPC to other services and changes of its schedule, and as long as
    nobody else creates tasks meanwhile, every task created runs on one
    approved target the approver may apply to, carries the approval and the
    plugin's name, is within the bounds an operator's task has, and there are
    at most 32 of them. *)
Theorem approved_operation_confined loaded active p parsed a defaults calls answered w :
  TaskQueued ≠ "" → Forall quiet_call calls → (∀ l, loaded = Some l → services (ldBroker l) = pluginHostServices rpc schedule binding) →
  let w' := (executePluginOperation loaded active p parsed a defaults calls answered w).1 in
  w' = w ∨
  ((∃ l, loaded = Some l ∧ active = true ∧ ldVersion l = aPluginVersion a ∧ equalFoldHex (ldArtifactDigest l) (aArtifactDigest a) = true) ∧
   (∀ id t, tasks w' !! id = Some t → tasks w !! id = Some t ∨
      (approved_task (aPlugin a) (aID a) (aTargets a) t ∧ ∀ n, n ∈ tTargets t → Allows p "network:apply" n = true)) ∧
   (size (created w w') <= 32)%nat).
Proof.
  intros Hq Hf Hsvc. cbv zeta. unfold executePluginOperation.
  destruct (operation_admitted loaded active p parsed a) as [l|err] eqn:Ea; [|by left].
  assert (loaded = Some l ∧ active = true ∧ ldVersion l = aPluginVersion a ∧ equalFoldHex (ldArtifactDigest l) (aArtifactDigest a) = true ∧
    ∀ n, n ∈ aTargets a → Allows p "network:apply" n = true) as (-> & -> & Hv & Hdig & Hall).
  { unfold operation_admitted in Ea. destruct loaded as [l0|]; [|done]. ok_inv. go_bool. split_and!; try done. by apply forallb_elem_of. }
  destruct (BindOperation _ None) as [grant|err] eqn:Eb; [|by left].
  assert (grant = Some (operation_grant a)) as -> by (unfold BindOperation, guard_err in Eb; destruct (_ || _); congruence).
  set (budget := ResolveInvokeBudget None defaults). set (iv := mkInvocation _ _ _ _ _).
  pose proof (serve_tasks (ldBroker l) (rvHostCalls budget) (Hsvc l eq_refl) Hq calls 0 iv w (operation_grant a) Hf eq_refl) as Hserve.
  destruct (serve (ldBroker l) (rvHostCalls budget) 0 iv calls w) as [[[iv' w'] rs] cut]. cbn [fst snd] in Hserve.
  destruct Hserve as [H1' H2']; [cbn; unfold pluginOperationMaxTasks; lia|]. right. split; [eauto|].
  assert (∀ x : world, wState x = wState w' →
    (∀ id t, tasks x !! id = Some t → tasks w !! id = Some t ∨ (approved_task (aPlugin a) (aID a) (aTargets a) t ∧ ∀ n, n ∈ tTargets t → Allows p "network:apply" n = true)) ∧
    (size (created w x) <= 32)%nat) as Hx.
  { intros x Ex. unfold created. rewrite Ex. split; [|unfold created in H2'; cbn in H2'; unfold pluginOperationMaxTasks in H2'; lia].
    intros id t Ht. destruct (H1' id t Ht) as [|[Hid Hap]]; [by left|]. right. cbn in Hid, Hap. rewrite <- Hid in Hap. split; [done|].
    destruct Hap as [(n & -> & Hn) _ _ _ _ _]. intros n' ->%list_elem_of_singleton. by apply Hall. }
  destruct cut; [by apply Hx|]. destruct answered; by apply Hx.
Qed.
End operations.

(** ** Conditional writes *)

(** A write to the key-value map by anyone: the bucket, key, clock and save of
    it, and what it wants. *)
Record kv_event := mkKVEvent { evBucket : string; evKey : string; evNow : time; evSave : persist; evWhat : kv_change }.
Definition kv_run1 (m : KVMap) (e : kv_event) : KVMap :=
  match evWhat e with
  | ChPut value => (PutKV (evNow e) (evSave e) (evBucket e) (evKey e) value m).1
  | ChPutIfMatch value ifMatch => (PutKVIfMatch (evNow e) (evSave e) (evBucket e) (evKey e) value ifMatch m).1
  | ChDelete => (DeleteKV (evSave e) (evBucket e) (evKey e) m).1
  end.
Definition kv_run (m : KVMap) (es : list kv_event) : KVMap := foldl kv_run1 m es.
(** What an event leaves at an id it may write. *)
Definition writes_at (id : string) (e : kv_event) : option (option string) :=
  if kv_id (evBucket e) (evKey e) =?? id then
    match evWhat e with ChPut value | ChPutIfMatch value _ => Some (Some value) | ChDelete => Some None end
  else None.
Lemma kv_run1_at id m e : (kv_run1 m e !! id = m !! id) ∨ writes_at id e = Some (keValue <$> kv_run1 m e !! id).
Proof.
  unfold kv_run1, writes_at, PutKV, PutKVIfMatch, DeleteKV, publish_kv. destruct (bool_decide_reflect (kv_id (evBucket e) (evKey e) = id)) as [<-|Hne].
  - destruct (evWhat e) as [value|value ifMatch|]; cbn [fst].
    + destruct (committed _); [right; by rewrite lookup_insert_eq|by left].
    + destruct (match m !! _ with Some _ => _ | None => _ end); [by left|]. cbn [fst]. destruct (committed _); [right; by rewrite lookup_insert_eq|by left].
    + destruct (committed _); [right; by rewrite lookup_delete_eq|by left].
  - left. destruct (evWhat e) as [value|value ifMatch|]; cbn [fst].
    + destruct (committed _); [by rewrite lookup_insert_ne|done].
    + destruct (match m !! _ with Some _ => _ | None => _ end); [done|]. cbn [fst]. destruct (committed _); [by rewrite lookup_insert_ne|done].
    + destruct (committed _); [by rewrite lookup_delete_ne|done].
Qed.
Lemma kv_run_at id es : ∀ m, (kv_run m es !! id = m !! id) ∨ ∃ e, e ∈ es ∧ writes_at id e = Some (keValue <$> kv_run m es !! id).
Proof.
  induction es as [|e es IH]; intros m; [by left|]. cbn [kv_run foldl]. change (foldl kv_run1 (kv_run1 m e) es) with (kv_run (kv_run1 m e) es).
  destruct (IH (kv_run1 m e)) as [E|(e' & Hin & E)]; [|right; exists e'; split; [by right|done]].
  destruct (kv_run1_at id m e) as [E1|E1]; [left; congruence|]. right. exists e. split; [by left|]. by rewrite E.
Qed.
Lemma matched now p bucket key value ifMatch m m' f : PutKVIfMatch now p bucket key value ifMatch m = (m', KVDone f) →
  match keValue <$> m !! kv_id bucket key with Some v => ifMatch ≠ "" ∧ sha256_hex v = ifMatch | None => ifMatch = "" end ∧
  (committed p = true → keValue <$> m' !! kv_id bucket key = Some value).
Proof.
  unfold PutKVIfMatch, publish_kv. intros E. destruct (m !! kv_id bucket key) as [cur|] eqn:Ec; cbn [fmap option_fmap option_map].
  - destruct ((ifMatch =?? "") || _) eqn:Eb; [done|]. go_bool. destruct Eb as [E1 E2]. injection E as <- <-. split; [done|].
    intros ->. by rewrite lookup_insert_eq.
  - destruct (negb _) eqn:Eb; [done|]. go_bool. injection E as <- <-. split; [done|]. intros ->. by rewrite lookup_insert_eq.
Qed.

(** C32. Conditional writes lose no update: when two writers both pass the
    compare-and-swap of a key with the same digest, whatever other writes of
    any plugin or operator fall in between, the value with that digest was
    written again after the first of them (by it or by a write in between), or,
    for a create, the key was deleted in between; never did the second
    overwrite a value it had not read. *)
Theorem conditional_writes_lose_nothing m bucket key d now1 p1 v1 m1 f1 es now2 p2 v2 m2 f2 :
  PutKVIfMatch now1 p1 bucket key v1 d m = (m1, KVDone f1) → committed p1 = true →
  PutKVIfMatch now2 p2 bucket key v2 d (kv_run m1 es) = (m2, KVDone f2) →
  if d =?? "" then ∃ e, e ∈ es ∧ writes_at (kv_id bucket key) e = Some None
  else sha256_hex v1 = d ∨ ∃ e v, e ∈ es ∧ writes_at (kv_id bucket key) e = Some (Some v) ∧ sha256_hex v = d.
Proof.
  intros H1 Hp H2. apply matched in H1 as [_ H1]. specialize (H1 Hp). apply matched in H2 as [H2 _].
  destruct (kv_run_at (kv_id bucket key) es m1) as [E|(e & Hin & E)].
  - rewrite E, H1 in H2. destruct H2 as [Hd H2]. rewrite bool_decide_eq_false_2 by done. by left.
  - destruct (keValue <$> kv_run m1 es !! kv_id bucket key) as [v|] eqn:Ev.
    + destruct H2 as [Hd H2]. rewrite bool_decide_eq_false_2 by done. right. eauto.
    + subst d. cbn. rewrite bool_decide_eq_true_2 by done. eauto.
Qed.

(** ** Examples *)

Module PluginDemo.
#[export] Instance sdk : Sdk := demo_sdk.
#[export] Instance plugin_sdk : PluginSdk :=
  Build_PluginSdk "task:schedule" "task.schedule" "task.unschedule" 64 (fun _ => None) sha256_hex.
#[export] Instance go_case : GoCase := Build_GoCase to_lower to_upper.
#[export] Instance text : IncidentText := {| stamp := format_key |}.

Definition no_gate : gate := mkGate ∅ ∅ ∅ (fun _ => false).
Definition no_conf : config := mkConfig [] [] ∅ ∅ (fun _ => None).
Definition moment_env (task : string) : env :=
  mkHostEnv (100 * second) PersistOk task false no_gate OutboxDemo.values OutboxDemo.up no_conf "evt_1" "nd_1" []
    (fun _ _ => Ok (mkHTTPResponse 200 ∅ "ok")) (fun _ => None) (fun _ => None).
Definition entry (bucket key value : string) : string * KVEntry := (kv_id bucket key, mkKV bucket key value 0).
Definition kv1 : gmap string KVEntry := list_to_map [entry "plugin:a" "k" "mine"; entry "plugin:b" "k" "theirs"; entry "ops" "k" "operator"; entry "vpnmeta/lineuuid" "u1" "line"].
Definition kv2 : gmap string KVEntry := list_to_map [entry "plugin:a" "k" "mine"; entry "plugin:b" "z" "other"].
Definition world_of (kv : gmap string KVEntry) (task : string) : world := mkWorld kv ∅ empty_state OutboxDemo.s0 [] [] [] (moment_env task).
Definition services_ : HostServices world := pluginHostServices NewRPCRegistry None (fun base url => if has_prefix url base then None else Some "outside").
Definition broker (caps : list string) : Broker world := mkBroker "a" (list_to_set caps) services_ ∅.
Definition now_ : moment := mkMoment false false false.
Definition plain : invocation := mkInvocation [] None "" "" 0.

Definition check_wf (m : gmap string KVEntry) : bool :=
  forallb (fun ie => ie.1 =?? kv_id (keBucket ie.2) (keKey ie.2)) (map_to_list m).
Lemma check_wf_ok m : check_wf m = true → kv_wf m.
Proof.
  unfold check_wf. rewrite forallb_elem_of. intros Hc id e He. apply elem_of_map_to_list in He. specialize (Hc _ He). cbn in Hc.
  by apply bool_decide_eq_true in Hc.
Qed.

(** The approval of an operation on two nodes. *)
Definition digest : string := sha256_hex "artifact".
Definition approval : Approval :=
  mkApproval "ap1" "a" "a/svc" "plan" "a/svc/plan" "{}" "n1" ["n1"; "n2"] "approved" false "" "" digest "" "1.0" 0 0.
Definition loaded : Loaded := mkLoaded "a" "1.0" digest [("a/svc", "")] (broker [capTaskRun]).
Definition operator : Principal := mkPrincipal "op" "" ["network:apply"] ["n1"; "n2"].
Definition queue (node : string) : hostCall := CallTaskEnqueue (mkTaskRequest "" "" node "sh" "uptime" 0).
Definition set_task (id : string) (w : world) : world :=
  mkWorld (wKV w) (wSecrets w) (wState w) (wOutbox w) (wAudit w) (wLog w) (wHTTP w) (moment_env id).
(** The plugin queues work on an approved node, on a stranger, and again. *)
Definition calls : list (moment * (world → world) * hostCall) :=
  [(now_, set_task "t1", queue "n1"); (now_, set_task "t2", queue "n9"); (now_, set_task "t3", queue "n2")].
Definition after_ : world := (executePluginOperation (Some loaded) true operator true approval DefaultInvokeBudgetSpec calls true (world_of kv1 "t0")).1.
(** Two conditional writes with the same digest, the value restored in between. *)
Definition mine : string := sha256_hex "mine".
Definition between : list kv_event := [mkKVEvent "plugin:a" "k" 7 PersistOk (ChPut "mine")].
Definition first : gmap string KVEntry := (PutKVIfMatch 5 PersistOk "plugin:a" "k" "next" mine kv1).1.
Definition second_ : gmap string KVEntry := (PutKVIfMatch 9 PersistOk "plugin:a" "k" "last" mine (kv_run first between)).1.
Lemma calls_quiet : Forall (quiet_call) calls.
Proof. repeat constructor. Qed.
End PluginDemo.

#[local] Existing Instance PluginDemo.sdk.
#[local] Existing Instance PluginDemo.plugin_sdk.
#[local] Existing Instance PluginDemo.go_case.
#[local] Existing Instance PluginDemo.text.

Lemma plugin_storage_noninterference_witness :
  (dispatchHostCall (PluginDemo.broker [capKVRead]) PluginDemo.now_ PluginDemo.plain (CallKVGet "k") (PluginDemo.world_of PluginDemo.kv1 "t")).2.2 =
  (dispatchHostCall (PluginDemo.broker [capKVRead]) PluginDemo.now_ PluginDemo.plain (CallKVGet "k") (PluginDemo.world_of PluginDemo.kv2 "t")).2.2 ∧
  (dispatchHostCall (PluginDemo.broker [capKVRead]) PluginDemo.now_ PluginDemo.plain (CallKVGet "k") (PluginDemo.world_of PluginDemo.kv2 "t")).2.2 =
  Ok (ReplyKV true "mine" (sha256_hex "mine")).
Proof.
  pose proof (plugin_storage_noninterference NewRPCRegistry None (fun base url => if has_prefix url base then None else Some "outside")
    (PluginDemo.broker [capKVRead]) PluginDemo.now_ PluginDemo.plain (CallKVGet "k") (PluginDemo.world_of PluginDemo.kv1 "t")
    (PluginDemo.world_of PluginDemo.kv2 "t") eq_refl eq_refl) as Hni.
  assert (agree (PluginDemo.broker [capKVRead]) (PluginDemo.world_of PluginDemo.kv1 "t") (PluginDemo.world_of PluginDemo.kv2 "t")) as Ha.
  { split; [|by vm_compute|by vm_compute|done]. split_and!; apply PluginDemo.check_wf_ok; by vm_compute. }
  specialize (Hni Ha).
  destruct (dispatchHostCall _ _ _ _ (PluginDemo.world_of PluginDemo.kv1 "t")) as [iv1 [w1 r1]] eqn:E1.
  destruct (dispatchHostCall _ _ _ _ (PluginDemo.world_of PluginDemo.kv2 "t")) as [iv2 [w2 r2]] eqn:E2.
  destruct Hni as [Hr _]. split; [exact Hr|]. apply (f_equal (fun x => x.2.2)) in E2. cbn [snd] in E2 |- *. rewrite <- E2. by vm_compute.
Defined.

Lemma plugin_writes_confined_witness :
  own "plugin:b" (wKV (dispatchHostCall (PluginDemo.broker [capKVWrite]) PluginDemo.now_ PluginDemo.plain (CallKVDelete "k")
    (PluginDemo.world_of PluginDemo.kv1 "t")).2.1) = own "plugin:b" PluginDemo.kv1.
Proof.
  refine (proj1 (proj2 (proj2 (plugin_writes_confined NewRPCRegistry None (fun base url => if has_prefix url base then None else Some "outside")
    (PluginDemo.broker [capKVWrite]) PluginDemo.now_ PluginDemo.plain (CallKVDelete "k") (PluginDemo.world_of PluginDemo.kv1 "t") eq_refl eq_refl _ _)))
    "plugin:b" _); [apply PluginDemo.check_wf_ok; by vm_compute..|discriminate].
Defined.

Lemma approved_operation_confined_witness :
  (map_to_list (StoreState.Tasks (wState PluginDemo.after_))).*1 ≡ₚ ["t1"; "t3"] ∧
  ∀ t, StoreState.Tasks (wState PluginDemo.after_) !! "t1" = Some t → approved_task "a" "ap1" ["n1"; "n2"] t.
Proof.
  split; [apply (bool_decide_unpack _); by vm_compute|]. intros t Ht.
  destruct (approved_operation_confined NewRPCRegistry None (fun base url => if has_prefix url base then None else Some "outside")
    (Some PluginDemo.loaded) true PluginDemo.operator true PluginDemo.approval DefaultInvokeBudgetSpec PluginDemo.calls true
    (PluginDemo.world_of PluginDemo.kv1 "t0")) as [E|(_ & Hall & _)].
  - discriminate.
  - apply PluginDemo.calls_quiet.
  - by intros l [= <-].
  - exfalso. fold PluginDemo.after_ in E. rewrite E in Ht. discriminate Ht.
  - destruct (Hall "t1" t Ht) as [Hold|[Hap _]]; [discriminate Hold|exact Hap].
Defined.

Lemma conditional_writes_lose_nothing_witness :
  ∃ e v, e ∈ PluginDemo.between ∧ writes_at "plugin:a/k" e = Some (Some v) ∧ sha256_hex v = PluginDemo.mine.
Proof.
  assert (PutKVIfMatch 5 PersistOk "plugin:a" "k" "next" PluginDemo.mine PluginDemo.kv1 = (PluginDemo.first, KVDone false)) as H1 by (by vm_compute).
  assert (PutKVIfMatch 9 PersistOk "plugin:a" "k" "last" PluginDemo.mine (kv_run PluginDemo.first PluginDemo.between) =
    (PluginDemo.second_, KVDone false)) as H2 by (by vm_compute).
  pose proof (conditional_writes_lose_nothing PluginDemo.kv1 "plugin:a" "k" PluginDemo.mine 5 PersistOk "next" PluginDemo.first false
    PluginDemo.between 9 PersistOk "last" PluginDemo.second_ false H1 eq_refl H2) as Hn.
  assert ((PluginDemo.mine =?? "") = false) as Ed by (by vm_compute). rewrite Ed in Hn. destruct Hn as [Hbad|Hn]; [|exact Hn].
  exfalso. assert ((sha256_hex "next" =?? PluginDemo.mine) = false) as En by (by vm_compute). apply bool_decide_eq_false in En. by destruct En.
Defined.
