(* ===== verification/Approvals.v ===== *)
(** * Decisions on approvals (internal/server/server.go, internal/server/server_approval_policy.go)

    A plan becomes an approval; an operator or an automatic rule approves it,
    an operator rejects it, and approving may queue the task that applies it.
    The decision path reads the row, checks it, and writes it back: those are
    separate acquisitions of the store lock, so other requests run in between.
    The requests under way are threads of a world, and a step is what one of
    them does under one acquisition.

    The model covers the approvals core applies by a task of its own, the
    NetGuard ones included.  Line chains, plugin operations, Sub-Store,
    mirror and beacon plans are decided by code of their own and are not
    submitted here.  What the freshness checks, script renderers and the disk
    answer are arguments. *)

From Stdlib Require Import ZArith Lia.
From stdpp Require Import gmap strings.
From S2P Require Import Prelude GoStr Sha.

Local Open Scope Z_scope.

Class ApprovalSdk := {
  ApprovalPending : string; ApprovalApproved : string; ApprovalRejected : string;
  AgentMirrorsApprovalPlugin : string; BeaconApprovalPlugin : string; BeaconPlanKind : string;
}.
Class ApprovalSdkLaws `{ApprovalSdk} := {
  approved_not_pending : ApprovalApproved ≠ ApprovalPending;
  rejected_not_pending : ApprovalRejected ≠ ApprovalPending;
  approved_not_rejected : ApprovalApproved ≠ ApprovalRejected;
}.

Definition subStorePlanApprovalPlugin : string := "substore-plan".
Definition singBoxLineUserPlugin : string := "singbox-lineuser".
Definition singBoxManagedLinePlugin : string := "singbox-managedline".
Definition agentUpdatePlugin : string := "agentupdate".
Definition sshGuardPlugin : string := "sshguard".
Definition lineChainPlugin : string := "singbox-linechain".
Definition proxyCorePlugin : string := "proxycore".
Definition witnessPlugin : string := "controlplane-witness".
Definition witnessConfigureAction : string := "witness-configure:v1".
Definition witnessRemoveAction : string := "witness-remove:v1".
Definition netGuardApprovalAction : string := "apply-ruleset:netguard-v1".
Definition approvalPolicyActorPrefix : string := "policy:".

Record Approval := mkApproval {
  aID : string; aNodeID : string; aPlugin : string; aAction : string; aService : string; aMethod : string; aPlan : string;
  aActorID : string; aApprovedBy : string; aStatus : string; aReason : string; aCreatedAt : time; aUpdatedAt : time }.
Definition decided (status by_ : string) (a : Approval) : Approval :=
  mkApproval (aID a) (aNodeID a) (aPlugin a) (aAction a) (aService a) (aMethod a) (aPlan a)
    (aActorID a) by_ status (aReason a) (aCreatedAt a) (aUpdatedAt a).
Definition with_aReason (r : string) (a : Approval) : Approval :=
  mkApproval (aID a) (aNodeID a) (aPlugin a) (aAction a) (aService a) (aMethod a) (aPlan a)
    (aActorID a) (aApprovedBy a) (aStatus a) r (aCreatedAt a) (aUpdatedAt a).
Definition stamped (created updated : time) (a : Approval) : Approval :=
  mkApproval (aID a) (aNodeID a) (aPlugin a) (aAction a) (aService a) (aMethod a) (aPlan a)
    (aActorID a) (aApprovedBy a) (aStatus a) (aReason a) created updated.
Record Task := mkTask { tID : string; tApprovalID : string; tActorID : string; tTargets : list string }.

Section decisions.
Context `{ApprovalSdk}.

(** ** Automatic rules *)

Record approvalAutoRule := mkRule {
  Name : string; Writer : string; rPlugin : string; ActionPrefix : string; Queue : bool; DailyCap : Z }.
(** [json.Unmarshal] of a non-empty text is the argument. *)
Inductive ruleError := BadJSON | MissingName | NegativeCap | NoMatcher.
Definition trim_name (r : approvalAutoRule) : approvalAutoRule :=
  mkRule (trim_space (Name r)) (Writer r) (rPlugin r) (ActionPrefix r) (Queue r) (DailyCap r).
Definition check_rule (r : approvalAutoRule) : option ruleError :=
  if Name r =?? "" then Some MissingName else
  if DailyCap r <? 0 then Some NegativeCap else
  if (Writer r =?? "") && (rPlugin r =?? "") && (ActionPrefix r =?? "") then Some NoMatcher else None.
Fixpoint check_rules (rules : list approvalAutoRule) : ruleError + list approvalAutoRule :=
  match rules with
  | [] => inr []
  | r :: rules =>
    let r := trim_name r in
    match check_rule r with
    | Some err => inl err
    | None => match check_rules rules with inl err => inl err | inr l => inr (r :: l) end
    end
  end.
Definition parseApprovalAutoRules (unmarshal : string → option (list approvalAutoRule)) (raw : string)
  : ruleError + list approvalAutoRule :=
  let raw := trim_space raw in
  if raw =?? "" then inr [] else
  match unmarshal raw with None => inl BadJSON | Some rules => check_rules rules end.

Definition approvalPluginsNamedOnly (plugin : string) : bool :=
  (plugin =?? subStorePlanApprovalPlugin) || (plugin =?? AgentMirrorsApprovalPlugin).
Definition matches (r : approvalAutoRule) (a : Approval) : bool :=
  if (rPlugin r =?? "") && approvalPluginsNamedOnly (aPlugin a) then false else
  if negb (Writer r =?? "") && negb (Writer r =?? aActorID a) then false else
  if negb (rPlugin r =?? "") && negb (rPlugin r =?? aPlugin a) then false else
  if negb (ActionPrefix r =?? "") && negb (has_prefix (aAction a) (ActionPrefix r)) then false
  else true.
Definition actor_of (r : approvalAutoRule) : string := approvalPolicyActorPrefix +:+ Name r.

(** ** The store *)

Record approvalStore := mkStore { approvals : gmap string Approval; tasks : gmap string Task; anchors : gmap string string }.
Definition UpsertApproval (now : time) (a : Approval) (s : approvalStore) : approvalStore :=
  let a := stamped (if is_zero (aCreatedAt a) then now else aCreatedAt a) now a in
  mkStore (<[aID a := a]> (approvals s)) (tasks s) (anchors s).
Definition CreateTask (t : Task) (s : approvalStore) : approvalStore :=
  mkStore (approvals s) (<[tID t := t]> (tasks s)) (anchors s).
(** [MutateApproval] with the rejection of a stale update. *)
Definition rejectIfCurrent (can : Approval → bool) (now : time) (reason id : string) (s : approvalStore) : approvalStore :=
  match approvals s !! id with
  | None => s
  | Some a =>
    if negb (can a) then s else
    mkStore (<[id := stamped (if is_zero (aCreatedAt a) then now else aCreatedAt a) now
                       (with_aReason reason (decided ApprovalRejected (aApprovedBy a) a))]> (approvals s)) (tasks s) (anchors s)
  end.
Inductive guardRefusal := TransitionConflict | VersionConflict | NotCommitted.
Definition ApproveNetGuard (now : time) (committed : bool) (a : Approval) (task : option Task) (s : approvalStore)
  : approvalStore * option guardRefusal :=
  match approvals s !! aID a with
  | None => (s, Some TransitionConflict)
  | Some cur =>
    if negb ((aStatus cur =?? ApprovalPending) && (aNodeID cur =?? aNodeID a) && (aPlugin cur =?? aPlugin a) &&
             (aAction cur =?? aAction a) && (aPlan cur =?? aPlan a)) then (s, Some TransitionConflict) else
    let sha := default "" (anchors s !! aNodeID a) in
    if (sha =?? "") || negb (equal_fold sha (sha256_hex (aPlan a))) then (s, Some VersionConflict) else
    if match task with
       | Some t => (tID t =?? "") || negb (tApprovalID t =?? aID a) || negb (tTargets t =?? [aNodeID a]) ||
                   bool_decide (is_Some (tasks s !! tID t))
       | None => false end then (s, Some TransitionConflict) else
    if negb committed then (s, Some NotCommitted) else
    (mkStore (<[aID a := stamped (aCreatedAt cur) now a]> (approvals s))
       (match task with Some t => <[tID t := t]> (tasks s) | None => tasks s end) (anchors s), None)
  end.

(** ** What the decision path checks *)

Definition isNetGuardApproval (a : Approval) : bool := (aPlugin a =?? "nft") && (aAction a =?? netGuardApprovalAction).
Definition isWitnessApproval (a : Approval) : bool :=
  (aPlugin a =?? witnessPlugin) && ((aAction a =?? witnessConfigureAction) || (aAction a =?? witnessRemoveAction)).
Definition isPluginOperationApproval (a : Approval) : bool := negb (aService a =?? "") && negb (aMethod a =?? "").
(** The approvals core applies by a task of its own. *)
Definition core_applied (a : Approval) : bool :=
  negb (aPlugin a =?? lineChainPlugin) && negb (aPlugin a =?? subStorePlanApprovalPlugin) &&
  negb (aPlugin a =?? AgentMirrorsApprovalPlugin) &&
  negb ((aPlugin a =?? BeaconApprovalPlugin) && (aAction a =?? BeaconPlanKind)) &&
  (negb (isPluginOperationApproval a) || (aPlugin a =?? singBoxManagedLinePlugin) || (aPlugin a =?? singBoxLineUserPlugin)).
Definition approvalRequiresPlanHash (a : Approval) : bool :=
  mem (aPlugin a) ["nft"; "nftpolicy"; "wireguard"; "cftunnel"; "selfdns"; proxyCorePlugin; agentUpdatePlugin; sshGuardPlugin; witnessPlugin] ||
  negb (trim_space (aPlan a) =?? "").

(** What the checks outside this file answer, in the order they are asked. *)
Record answers := mkAnswers {
  anCapability : bool; anDurable : bool; anPolicyCurrent : bool; anGuardCurrent : bool; anManaged : bool;
  anGroupCovered : bool; anDNSOwner : bool; anDNSWrites : bool; anInFlight : bool; anProxyCurrent : bool;
  anLineUser : bool; anManagedLine : bool; anUpdateCurrent : bool; anUpdateStale : bool; anWitnessCurrent : bool;
  anWitnessCapability : bool; anGuardCapability : bool; anTasksDisabled : bool; anScript : bool;
  anReason : string }.
Inductive refusal := Forbidden | Internal | HashRequired | PlanChanged | Stale | MustQueue | InFlight | NotCapable | TasksDisabled.
Inductive verdict :=
| Refuse (r : refusal)          (* nothing is written *)
| Done                          (* already decided *)
| RejectStale                   (* the snapshot is written back rejected *)
| RejectCurrent                 (* the current row is rejected if it still may be *)
| Proceed.
Definition guardWrites (e : answers) (a : Approval) : bool :=
  (aPlugin a =?? "nft") || ((aPlugin a =?? "selfdns") && anDNSWrites e).
Definition approve_checks (e : answers) (a : Approval) (queueApply : bool) (planSHA256 : string) : verdict :=
  let pending := aStatus a =?? ApprovalPending in
  if pending && negb (aNodeID a =?? "") && negb (anCapability e) then Refuse Forbidden else
  if negb pending then (if anDurable e then Done else Refuse Internal) else
  if approvalRequiresPlanHash a && (planSHA256 =?? "") then Refuse HashRequired else
  if negb (planSHA256 =?? "") && negb (equal_fold planSHA256 (sha256_hex (aPlan a))) then Refuse PlanChanged else
  if (aPlugin a =?? "nftpolicy") && negb (anPolicyCurrent e) then Refuse Stale else
  if isNetGuardApproval a && negb (anGuardCurrent e) then Refuse Stale else
  if (aPlugin a =?? "nft") && negb (isNetGuardApproval a) && (anManaged e || anGroupCovered e) then Refuse Stale else
  if (aPlugin a =?? "selfdns") && negb (anDNSOwner e) then Refuse Stale else
  if guardWrites e a && anInFlight e then Refuse InFlight else
  if (aPlugin a =?? proxyCorePlugin) && negb (anProxyCurrent e) then Refuse Stale else
  if negb queueApply && ((aPlugin a =?? singBoxLineUserPlugin) || (aPlugin a =?? singBoxManagedLinePlugin)) then Refuse MustQueue else
  if (aPlugin a =?? singBoxLineUserPlugin) && negb (anLineUser e) then Refuse Stale else
  if (aPlugin a =?? singBoxManagedLinePlugin) && negb (anManagedLine e) then Refuse Stale else
  if (aPlugin a =?? agentUpdatePlugin) && negb (anUpdateCurrent e) then
    (if anUpdateStale e then RejectCurrent else Refuse Stale) else
  if isWitnessApproval a && negb queueApply then Refuse MustQueue else
  if isWitnessApproval a && negb (anWitnessCurrent e) then RejectStale else
  if isWitnessApproval a && (aAction a =?? witnessConfigureAction) && negb (anWitnessCapability e) then Refuse NotCapable else
  if queueApply && isNetGuardApproval a && negb (anGuardCapability e) then Refuse NotCapable else
  if queueApply && anTasksDisabled e then Refuse TasksDisabled else
  if queueApply && mem (aPlugin a) ["selfdns"; proxyCorePlugin; agentUpdatePlugin; witnessPlugin] && negb (anScript e)
  then Refuse Stale else Proceed.

(** ** Requests under way *)

(** Where a request stands: before the policy lock, with its row read and
    not yet written, written and about to queue the task, about to write a
    rejection. *)
Inductive stage := AwaitPolicy | Deciding | Queueing | Rejecting.
Record thread := mkThread {
  thActor : string; thQueue : bool; thSHA : string; thSnap : Approval; thStage : stage }.
(** What a decision did: the row written approved (under which hash), the row
    written rejected by an operator. *)
Inductive entry := Approved (id actor sha : string) | RejectedBy (id actor : string).
Record world := mkWorld { st : approvalStore; threads : gmap nat thread; policy : option nat; log : list entry }.

(** The end of a request releases the policy lock it holds. *)
Definition finish (i : nat) (w : world) : world :=
  mkWorld (st w) (delete i (threads w)) (if policy w =?? Some i then None else policy w) (log w).
Definition with_st (s : approvalStore) (w : world) : world := mkWorld s (threads w) (policy w) (log w).
Definition logged (x : entry) (w : world) : world := mkWorld (st w) (threads w) (policy w) (log w ++ [x]).
Definition set_thread (i : nat) (t : thread) (w : world) : world := mkWorld (st w) (<[i := t]> (threads w)) (policy w) (log w).

(** The rows an actor approved that were created on the day of [now]. *)
Definition day_of (t : time) : Z := t / (1440 * minute).
Definition countPolicyApprovalsToday (actor : string) (now : time) (s : approvalStore) : Z :=
  Z.of_nat (size (filter (fun kv : string * Approval => aApprovedBy kv.2 = actor ∧ day_of (aCreatedAt kv.2) = day_of now)
                         (approvals s))).

Inductive action :=
| Submit (i : nat) (a : Approval) (now : time) (saved : bool)
| Evaluate (i : nat) (now : time)
| ReadApprove (i : nat) (id actor : string) (queue : bool) (sha : string)
| ReadReject (i : nat) (id actor : string)
| Decide (i : nat) (e : answers) (now : time) (saved : bool) (taskID : string) (can : Approval → bool)
| QueueTask (i : nat) (taskID : string) (allowed : bool)
| WriteReject (i : nat) (now : time)
| Anchor (nodeID sha : string).

Definition task_of (taskID actor : string) (a : Approval) : Task := mkTask taskID (aID a) actor [aNodeID a].

Section rules.
Context (rules : list approvalAutoRule).

(** [submitApproval]: a fresh row is stored; with rules configured it goes on
    to the policy. *)
Definition submitApproval (i : nat) (a : Approval) (now : time) (saved : bool) (w : world) : world :=
  let s := UpsertApproval now a (st w) in
  let w := with_st s w in
  if negb saved then w else
  let stored := default a (approvals s !! aID a) in
  if negb (aStatus stored =?? ApprovalPending) || (length rules =? 0)%nat then w
  else set_thread i (mkThread "" false "" stored AwaitPolicy) w.
(** Under the policy lock: the first rule that matches, and its cap. *)
Definition evaluateApprovalAutoRules (i : nat) (t : thread) (now : time) (w : world) : world :=
  match List.find (fun r => matches r (thSnap t)) rules with
  | None => finish i w
  | Some r =>
    if (0 <? DailyCap r) && (DailyCap r <=? countPolicyApprovalsToday (actor_of r) now (st w)) then finish i w
    else mkWorld (st w) (<[i := mkThread (actor_of r) (Queue r) (sha256_hex (aPlan (thSnap t))) (thSnap t) Deciding]> (threads w))
           (Some i) (log w)
  end.
(** [approveApprovalCore] up to and including the write of the row.  Of a
    NetGuard approval the task is queued in the same transaction. *)
Definition approveApprovalCore (i : nat) (t : thread) (e : answers) (now : time) (saved : bool) (taskID : string)
    (can : Approval → bool) (w : world) : world :=
  let a := thSnap t in
  match approve_checks e a (thQueue t) (thSHA t) with
  | Refuse _ | Done => finish i w
  | RejectStale => finish i (with_st (UpsertApproval now (with_aReason (anReason e) (decided ApprovalRejected (aApprovedBy a) a)) (st w)) w)
  | RejectCurrent =>
    if can a then finish i (with_st (rejectIfCurrent can now (anReason e) (aID a) (st w)) w) else finish i w
  | Proceed =>
    let a' := decided ApprovalApproved (thActor t) a in
    if isNetGuardApproval a then
      match ApproveNetGuard now saved a' (if thQueue t then Some (task_of taskID (thActor t) a) else None) (st w) with
      | (_, Some _) => finish i w
      | (s, None) => finish i (logged (Approved (aID a) (thActor t) (thSHA t)) (with_st s w))
      end
    else
      let w := logged (Approved (aID a) (thActor t) (thSHA t)) (with_st (UpsertApproval now a' (st w)) w) in
      if saved && thQueue t then set_thread i (mkThread (thActor t) true (thSHA t) a' Queueing) w else finish i w
  end.
Definition queueTask (i : nat) (t : thread) (taskID : string) (allowed : bool) (w : world) : world :=
  if allowed then finish i (with_st (CreateTask (task_of taskID (thActor t) (thSnap t)) (st w)) w) else finish i w.
Definition handleRejectApproval (i : nat) (t : thread) (now : time) (w : world) : world :=
  let a := thSnap t in
  if negb (aStatus a =?? ApprovalPending) then finish i w else
  finish i (logged (RejectedBy (aID a) (thActor t))
    (with_st (UpsertApproval now (decided ApprovalRejected (aApprovedBy a) a) (st w)) w)).

(** One acquisition of the store lock by one request.  Approval ids, request
    numbers and task ids are fresh, and operators are not named like
    rules. *)
Definition wstep (w : world) (x : action) : option world :=
  match x with
  | Submit i a now saved =>
    if bool_decide (threads w !! i = None) && bool_decide (approvals (st w) !! aID a = None) && core_applied a &&
       (aStatus a =?? ApprovalPending) && (aApprovedBy a =?? "") && negb (is_zero now)
    then Some (submitApproval i a now saved w) else None
  | Evaluate i now =>
    match threads w !! i with
    | Some t => match thStage t, policy w with
                | AwaitPolicy, None => Some (evaluateApprovalAutoRules i t now w) | _, _ => None end
    | None => None
    end
  | ReadApprove i id actor queue sha =>
    if bool_decide (threads w !! i = None) && negb (has_prefix actor approvalPolicyActorPrefix) then
      match approvals (st w) !! id with
      | Some a => Some (set_thread i (mkThread actor queue (trim_space sha) a Deciding) w) | None => Some w end
    else None
  | ReadReject i id actor =>
    if bool_decide (threads w !! i = None) && negb (has_prefix actor approvalPolicyActorPrefix) then
      match approvals (st w) !! id with
      | Some a => Some (set_thread i (mkThread actor false "" a Rejecting) w) | None => Some w end
    else None
  | Decide i e now saved taskID can =>
    match threads w !! i with
    | Some t => match thStage t with
                | Deciding => if bool_decide (tasks (st w) !! taskID = None)
                              then Some (approveApprovalCore i t e now saved taskID can w) else None
                | _ => None end
    | None => None
    end
  | QueueTask i taskID allowed =>
    match threads w !! i with
    | Some t => match thStage t with
                | Queueing => if bool_decide (tasks (st w) !! taskID = None)
                              then Some (queueTask i t taskID allowed w) else None
                | _ => None end
    | None => None
    end
  | WriteReject i now =>
    match threads w !! i with
    | Some t => match thStage t with Rejecting => Some (handleRejectApproval i t now w) | _ => None end
    | None => None
    end
  | Anchor nodeID sha => Some (with_st (mkStore (approvals (st w)) (tasks (st w)) (<[nodeID := sha]> (anchors (st w)))) w)
  end.
Definition run (w : world) (xs : list action) : option world :=
  fold_left (fun w x => match w with Some w => wstep w x | None => None end) xs (Some w).
Definition empty_world : world := mkWorld (mkStore ∅ ∅ ∅) ∅ None [].
End rules.
End decisions.

(** ** Decisions along every interleaving *)

Section sound.
Context `{ApprovalSdkLaws} (rules : list approvalAutoRule).

(** What no decision changes of an approval. *)
Definition static (a b : Approval) : Prop :=
  aID a = aID b ∧ aNodeID a = aNodeID b ∧ aPlugin a = aPlugin b ∧ aAction a = aAction b ∧ aService a = aService b ∧
  aMethod a = aMethod b ∧ aPlan a = aPlan b ∧ aActorID a = aActorID b ∧ aCreatedAt a = aCreatedAt b.
#[local] Instance static_equiv : Equivalence static.
Proof.
  split; [intros a; by repeat split|intros a b (? & ? & ? & ? & ? & ? & ? & ? & ?); by repeat split|].
  intros a b c (? & ? & ? & ? & ? & ? & ? & ? & ?) (? & ? & ? & ? & ? & ? & ? & ? & ?). repeat split; congruence.
Qed.
(** The hash the decider gave is that of the plan, or none was asked for. *)
Definition hash_ok (sha : string) (a : Approval) : Prop :=
  if sha =?? "" then approvalRequiresPlanHash a = false else equal_fold sha (sha256_hex (aPlan a)) = true.
Definition pending (a : Approval) : Prop := aStatus a = ApprovalPending.

(** A row stays, keeps what it is about, and is not pending again. *)
Definition evolves (s s' : approvalStore) : Prop :=
  ∀ id a, approvals s !! id = Some a → ∃ a', approvals s' !! id = Some a' ∧ static a a' ∧ (pending a' → pending a).
#[local] Instance evolves_refl : Reflexive evolves.
Proof. intros s id a Ha. by exists a. Qed.

Definition row_ok (id : string) (a : Approval) : Prop :=
  aID a = id ∧ core_applied a = true ∧ is_zero (aCreatedAt a) = false ∧ (pending a → aApprovedBy a = "").
Definition thread_ok (w : world) (t : thread) : Prop :=
  (∃ a, approvals (st w) !! aID (thSnap t) = Some a ∧ static (thSnap t) a ∧ (pending a → pending (thSnap t))) ∧
  (pending (thSnap t) → aApprovedBy (thSnap t) = "") ∧
  match thStage t with
  | Queueing => isNetGuardApproval (thSnap t) = false ∧ hash_ok (thSHA t) (thSnap t) ∧
                Approved (aID (thSnap t)) (thActor t) (thSHA t) ∈ log w
  | AwaitPolicy => pending (thSnap t)
  | _ => True
  end.
Definition task_ok (w : world) (k : Task) : Prop :=
  ∃ a sha, approvals (st w) !! tApprovalID k = Some a ∧ Approved (aID a) (tActorID k) sha ∈ log w ∧ hash_ok sha a ∧
    tTargets k = [aNodeID a] ∧ (isNetGuardApproval a = true → ¬ pending a).
Definition once (w : world) : Prop :=
  ∀ id id' k k' a, tasks (st w) !! id = Some k → tasks (st w) !! id' = Some k' → tApprovalID k = tApprovalID k' →
    approvals (st w) !! tApprovalID k = Some a → isNetGuardApproval a = true → id = id'.
Definition sound (w : world) : Prop :=
  (∀ id a, approvals (st w) !! id = Some a → row_ok id a) ∧ (∀ i t, threads w !! i = Some t → thread_ok w t) ∧
  (∀ id k, tasks (st w) !! id = Some k → task_ok w k) ∧ once w.

Lemma static_guard a b : static a b → isNetGuardApproval a = isNetGuardApproval b.
Proof. unfold isNetGuardApproval. by intros (_ & _ & -> & -> & _). Qed.
Lemma static_core a b : static a b → core_applied a = core_applied b.
Proof. unfold core_applied, isPluginOperationApproval. by intros (_ & _ & -> & -> & -> & -> & _). Qed.
Lemma static_hash sha a b : static a b → hash_ok sha a → hash_ok sha b.
Proof.
  unfold hash_ok, approvalRequiresPlanHash. intros (_ & _ & Hp & _ & _ & _ & Hpl & _). rewrite Hp, Hpl. done.
Qed.
Lemma static_matches r a b : static a b → matches r a = matches r b.
Proof. unfold matches. by intros (_ & _ & -> & -> & _ & _ & _ & -> & _). Qed.

Lemma thread_ok_evolves w w' t : evolves (st w) (st w') → (∀ x, x ∈ log w → x ∈ log w') → thread_ok w t → thread_ok w' t.
Proof.
  intros He Hl ((a & Ha & Hs & Hp) & Hb & Hst). destruct (He _ _ Ha) as (a' & Ha' & Hs' & Hp').
  split; [exists a'; split_and!; [done|by etransitivity|auto]|]. split; [done|]. destruct (thStage t); naive_solver.
Qed.
Lemma task_ok_evolves w w' k : evolves (st w) (st w') → (∀ x, x ∈ log w → x ∈ log w') → task_ok w k → task_ok w' k.
Proof.
  intros He Hl (a & sha & Ha & Hin & Hh & Ht & Hg). destruct (He _ _ Ha) as (a' & Ha' & Hs & Hp).
  exists a', sha. split_and!; auto.
  - destruct Hs as [<- _]. auto.
  - by eapply static_hash.
  - destruct Hs as (_ & <- & _). done.
  - rewrite <- (static_guard _ _ Hs). intros Hng Hp'. apply Hg; auto.
Qed.

(** [a] replaces a row it stands for, decided. *)
Definition rewrites (s : approvalStore) (a : Approval) : Prop :=
  ∃ a0, approvals s !! aID a = Some a0 ∧ static a0 a ∧ ¬ pending a.
Lemma rewrite_evolves s s' a : rewrites s a → approvals s' = <[aID a := a]> (approvals s) → evolves s s'.
Proof.
  intros (a0 & Ha0 & Hs & Hp) E id b Hb. rewrite E, lookup_insert. case_decide as Hid; [|by exists b].
  subst id. simplify_eq. by exists a.
Qed.
Lemma rewrite_rows s s' a : rewrites s a → approvals s' = <[aID a := a]> (approvals s) →
  (∀ id b, approvals s !! id = Some b → row_ok id b) → ∀ id b, approvals s' !! id = Some b → row_ok id b.
Proof.
  intros (a0 & Ha0 & Hs & Hp) E Hr id b. rewrite E, lookup_insert. case_decide; [|apply Hr]. intros [= <-]. subst id.
  destruct (Hr _ _ Ha0) as (Hid & Hc & Hz & _). split_and!; [done|by rewrite <- (static_core _ _ Hs)| |done].
  destruct Hs as (_ & _ & _ & _ & _ & _ & _ & _ & <-). done.
Qed.
Lemma upsert_row now a s : is_zero (aCreatedAt a) = false →
  approvals (UpsertApproval now a s) = <[aID a := stamped (aCreatedAt a) now a]> (approvals s) ∧
  tasks (UpsertApproval now a s) = tasks s.
Proof. intros Hz. unfold UpsertApproval. by rewrite Hz. Qed.
(** What a thread writes back is a row it stands for. *)
Lemma snap_rewrites w t now status by_ : (∀ id a, approvals (st w) !! id = Some a → row_ok id a) → thread_ok w t →
  status ≠ ApprovalPending → is_zero (aCreatedAt (thSnap t)) = false ∧
  ∀ reason, rewrites (st w) (stamped (aCreatedAt (thSnap t)) now (with_aReason reason (decided status by_ (thSnap t)))).
Proof.
  intros Hr ((a & Ha & Hs & _) & _) Hst. destruct (Hr _ _ Ha) as (_ & _ & Hz & _). split.
  - destruct Hs as (_ & _ & _ & _ & _ & _ & _ & _ & ->). done.
  - intros reason. exists a. cbn. split_and!; [done|by symmetry|done].
Qed.

Lemma once_same w w' : tasks (st w') = tasks (st w) → evolves (st w) (st w') →
  (∀ id k, tasks (st w) !! id = Some k → task_ok w k) → once w → once w'.
Proof.
  intros Et He Ht Ho id id' k k' a Hk Hk' Heq Ha Hg. rewrite Et in Hk, Hk'. destruct (Ht _ _ Hk) as (b & _ & Hb & _).
  destruct (He _ _ Hb) as (b' & Hb' & Hs & _). simplify_eq. eapply Ho; try done. by rewrite (static_guard _ _ Hs).
Qed.
Lemma once_add w w' tid k : tasks (st w') = <[tid := k]> (tasks (st w)) → evolves (st w) (st w') →
  (∀ id k, tasks (st w) !! id = Some k → task_ok w k) → once w →
  (∀ b, approvals (st w) !! tApprovalID k = Some b → isNetGuardApproval b = true → pending b) → once w'.
Proof.
  intros Et He Ht Ho Hnew id id' k1 k2 a Hk1 Hk2 Heq Ha Hg. rewrite Et, lookup_insert in Hk1, Hk2.
  assert (∀ i j, tasks (st w) !! i = Some j → tApprovalID j = tApprovalID k → tApprovalID k1 = tApprovalID k → False) as Hold.
  { intros i j Hj Ej Ek. destruct (Ht _ _ Hj) as (b & _ & Hb & _ & _ & _ & Hng). destruct (He _ _ Hb) as (b' & Hb' & Hs & _).
    rewrite Ej in Hb, Hb'. rewrite Ek in Ha. simplify_eq. rewrite <- (static_guard _ _ Hs) in Hg. by apply Hng; auto. }
  destruct (decide (tid = id)) as [<-|Hn1], (decide (tid = id')) as [<-|Hn2]; [done| | |].
  - simplify_eq. exfalso. by eapply Hold.
  - simplify_eq. exfalso. by eapply Hold.
  - destruct (Ht _ _ Hk1) as (b & _ & Hb & _). destruct (He _ _ Hb) as (b' & Hb' & Hs & _). simplify_eq.
    eapply Ho; try done. by rewrite (static_guard _ _ Hs).
Qed.

(** A step that writes rows the threads stand for and leaves the tasks. *)
Lemma sound_change w w' : sound w → evolves (st w) (st w') → (∀ x, x ∈ log w → x ∈ log w') →
  (∀ id a, approvals (st w') !! id = Some a → row_ok id a) →
  (∀ i t, threads w' !! i = Some t → threads w !! i = Some t ∨ thread_ok w' t) →
  tasks (st w') = tasks (st w) → sound w'.
Proof.
  intros (Hr & Hth & Ht & Ho) He Hl Hr' Hth' Et. split_and!; [done| | |by eapply once_same].
  - intros i t Hi. destruct (Hth' i t Hi) as [?|?]; [|done]. by eapply thread_ok_evolves; eauto.
  - intros id k Hk. rewrite Et in Hk. by eapply task_ok_evolves; eauto.
Qed.
Lemma finish_threads i w j t : threads (finish i w) !! j = Some t → threads w !! j = Some t.
Proof. cbn. rewrite lookup_delete. case_decide; [done|]. done. Qed.
Lemma sound_finish i w : sound w → sound (finish i w).
Proof.
  intros Hw. apply (sound_change w); try done; try (by destruct Hw). intros j t Hj. left. by eapply finish_threads.
Qed.

Lemma thread_restage w t t' : thread_ok w t → thSnap t' = thSnap t → thStage t' = Deciding → thread_ok w t'.
Proof. unfold thread_ok. intros (Ha & Hb & _) -> ->. done. Qed.
Lemma submit_sound i a now saved w w' : sound w → wstep rules w (Submit i a now saved) = Some w' → sound w'.
Proof.
  intros Hw. cbn. destruct (_ && _) eqn:Hg; [|done]. intros [= <-].
  rewrite !andb_true_iff, !bool_decide_eq_true, negb_true_iff in Hg. destruct Hg as [[[[[Hi Hf] Hc] Hp] Hb] Hn].
  set (a' := stamped (if is_zero (aCreatedAt a) then now else aCreatedAt a) now a).
  assert (row_ok (aID a) a') as Hrow.
  { split_and!; [done|done|cbn; by destruct (is_zero (aCreatedAt a)) eqn:Ez|done]. }
  assert (sound (with_st (UpsertApproval now a (st w)) w)) as Hs.
  { apply (sound_change w); try done; [| |by left].
    - intros id b Hb'. exists b. split; [|done]. cbn. rewrite lookup_insert_ne; [done|]. intros <-. cbn in Hb'. congruence.
    - intros id b. cbn. rewrite lookup_insert. case_decide; [intros [= <-]; by subst id|]. apply Hw. }
  unfold submitApproval. destruct saved; [|done]. cbn [negb]. fold a'.
  assert (default a (approvals (UpsertApproval now a (st w)) !! aID a) = a') as -> by (cbn; by rewrite lookup_insert_eq).
  destruct (_ || _); [done|]. eapply sound_change; try done; [by apply Hs|].
  intros j t. cbn. rewrite lookup_insert. case_decide; [|by left]. intros [= <-]. right. cbn. split_and!; try done.
  exists a'. cbn. by rewrite lookup_insert_eq.
Qed.
Lemma evaluate_sound i now w w' : sound w → wstep rules w (Evaluate i now) = Some w' → sound w'.
Proof.
  intros Hw. cbn. destruct (threads w !! i) as [t|] eqn:Ht; [|done]. destruct (thStage t) eqn:Hs, (policy w); try done.
  intros [= <-]. unfold evaluateApprovalAutoRules. destruct (List.find _ _) as [r|]; [|by apply sound_finish].
  destruct (_ && _); [by apply sound_finish|]. apply (sound_change w); try done; [by apply Hw|].
  intros j t'. cbn. rewrite lookup_insert. case_decide; [|by left]. intros [= <-]. right.
  eapply (thread_restage _ t); try done. apply (thread_ok_evolves w); [done|done|]. by eapply Hw.
Qed.
Lemma read_sound i id actor queue sha stg w a : (stg = Deciding ∨ stg = Rejecting) → sound w → approvals (st w) !! id = Some a →
  sound (set_thread i (mkThread actor queue sha a stg) w).
Proof.
  intros Hstg Hw Ha. apply (sound_change w); try done; [by apply Hw|]. intros j t. cbn. rewrite lookup_insert.
  case_decide; [|by left]. intros [= <-]. right. destruct (proj1 Hw _ _ Ha) as (Hid & _ & _ & Hb). split_and!; cbn.
  - exists a. by rewrite Hid.
  - done.
  - by destruct Hstg as [-> | ->].
Qed.
(** A row written back by a thread. *)
Lemma rewrite_sound w w' a : sound w → rewrites (st w) a → approvals (st w') = <[aID a := a]> (approvals (st w)) →
  tasks (st w') = tasks (st w) → (∀ x, x ∈ log w → x ∈ log w') →
  (∀ i t, threads w' !! i = Some t → threads w !! i = Some t ∨ thread_ok w' t) → sound w'.
Proof.
  intros Hw Hr E Et Hl Hth. apply (sound_change w); try done; [by eapply rewrite_evolves|].
  eapply rewrite_rows; try done. apply Hw.
Qed.
Lemma reject_sound i t now reason w log' : sound w → threads w !! i = Some t → (∀ x, x ∈ log w → x ∈ log') →
  sound (finish i (mkWorld (UpsertApproval now (with_aReason reason (decided ApprovalRejected (aApprovedBy (thSnap t)) (thSnap t))) (st w))
    (threads w) (policy w) log')).
Proof.
  intros Hw Ht Hl. destruct (snap_rewrites w t now ApprovalRejected (aApprovedBy (thSnap t))) as [Hz Hr];
    [apply Hw|by eapply Hw|apply rejected_not_pending|].
  destruct (upsert_row now (with_aReason reason (decided ApprovalRejected (aApprovedBy (thSnap t)) (thSnap t))) (st w) Hz) as [E1 E2].
  apply (rewrite_sound w _ _ Hw (Hr reason)); [exact E1|exact E2|exact Hl|].
  intros j t' Hj. left. by apply finish_threads in Hj.
Qed.

Lemma checks_pending e a queue sha : approve_checks e a queue sha ≠ Done → (∀ r, approve_checks e a queue sha ≠ Refuse r) →
  pending a ∧ hash_ok sha a.
Proof.
  unfold approve_checks, pending, hash_ok. intros Hd Hr. case_bool_decide as Hp; cbn [negb andb] in *.
  2: { destruct (anDurable e); [done|by destruct (Hr Internal)]. }
  split; [done|]. destruct (_ && negb (anCapability e)); [by destruct (Hr Forbidden)|].
  case_bool_decide as Hs; cbn [negb andb] in *; rewrite ?andb_true_r in *.
  - destruct (approvalRequiresPlanHash a); [by destruct (Hr HashRequired)|done].
  - rewrite andb_false_r in *. destruct (equal_fold sha _); [done|by destruct (Hr PlanChanged)].
Qed.
Lemma guard_commit now committed a task s s' : ApproveNetGuard now committed a task s = (s', None) →
  ∃ cur, approvals s !! aID a = Some cur ∧ pending cur ∧
    approvals s' = <[aID a := stamped (aCreatedAt cur) now a]> (approvals s) ∧
    tasks s' = match task with Some t => <[tID t := t]> (tasks s) | None => tasks s end.
Proof.
  unfold ApproveNetGuard. destruct (approvals s !! aID a) as [cur|]; [|done].
  case_bool_decide as Hp; cbn [negb andb]; [|done]. intros E. exists cur.
  repeat (match type of E with (if ?c then _ else _) = _ => destruct c; [done|] end). injection E as <-. done.
Qed.
Lemma restamp_rewrites w t now cur by_ : sound w → thread_ok w t → approvals (st w) !! aID (thSnap t) = Some cur →
  rewrites (st w) (stamped (aCreatedAt cur) now (decided ApprovalApproved by_ (thSnap t))).
Proof.
  intros Hw ((a & Ha & Hs & _) & _) Hcur. simplify_eq. exists a. cbn. split_and!; [done| |apply approved_not_pending].
  destruct Hs as (? & ? & ? & ? & ? & ? & ? & ? & ?). by repeat split.
Qed.
Lemma elem_snoc {A} (l : list A) x y : y ∈ l → y ∈ l ++ [x].
Proof. set_solver. Qed.

Lemma guard_sound w t now cur s taskID : sound w → thread_ok w t → isNetGuardApproval (thSnap t) = true →
  hash_ok (thSHA t) (thSnap t) → tasks (st w) !! taskID = None →
  approvals (st w) !! aID (decided ApprovalApproved (thActor t) (thSnap t)) = Some cur → pending cur →
  approvals s = <[aID (decided ApprovalApproved (thActor t) (thSnap t)) :=
    stamped (aCreatedAt cur) now (decided ApprovalApproved (thActor t) (thSnap t))]> (approvals (st w)) →
  tasks s = match (if thQueue t then Some (task_of taskID (thActor t) (thSnap t)) else None) with
            | Some k => <[tID k := k]> (tasks (st w)) | None => tasks (st w) end →
  sound (logged (Approved (aID (thSnap t)) (thActor t) (thSHA t)) (with_st s w)).
Proof.
  intros Hw Hok Hg Hh Hfresh Hcur Hpc Ea Et. pose proof (restamp_rewrites w t now cur (thActor t) Hw Hok Hcur) as Hr.
  set (a1 := stamped (aCreatedAt cur) now _) in *. set (w1 := logged _ _).
  pose proof (rewrite_evolves (st w) s a1 Hr Ea) as Hev.
  assert (∀ x, x ∈ log w → x ∈ log w1) as Hl by (intros; by apply elem_snoc).
  destruct (thQueue t); [|by eapply (rewrite_sound w); eauto]. cbn in Et.
  destruct Hw as (Hrow & Hth & Ht & Ho). split_and!.
  - by eapply rewrite_rows.
  - intros j t' Hj. eapply (thread_ok_evolves w w1); eauto.
  - intros id k. cbn. rewrite Et, lookup_insert. case_decide; [|intros; by eapply (task_ok_evolves w w1); eauto].
    intros [= <-]. exists a1, (thSHA t). cbn. rewrite Ea. cbn. rewrite lookup_insert_eq. split_and!; try done.
    + set_solver.
    + intros _. apply approved_not_pending.
  - eapply (once_add w w1); eauto. cbn. intros b Hb _. cbn in Hcur. simplify_eq. done.
Qed.
Lemma decide_sound i e now saved taskID can w w' : sound w → wstep rules w (Decide i e now saved taskID can) = Some w' → sound w'.
Proof.
  intros Hw. cbn. destruct (threads w !! i) as [t|] eqn:Ht; [|done]. destruct (thStage t); try done.
  case_bool_decide as Hfresh; [|done]. intros [= <-]. unfold approveApprovalCore.
  pose proof (proj1 (proj2 Hw) _ _ Ht) as Hok. pose proof (checks_pending e (thSnap t) (thQueue t) (thSHA t)) as Hchk.
  destruct (approve_checks e _ _ _) as [r| | | |]; try (by apply sound_finish).
  - by apply (reject_sound i t now (anReason e) w (log w)).
  - destruct (can (thSnap t)); apply sound_finish; [|done]. unfold rejectIfCurrent. destruct (approvals (st w) !! aID (thSnap t)) as [cur|] eqn:Hcur; [|by destruct w].
    destruct (can cur); cbn [negb]; [|by destruct w].
    destruct (proj1 Hw _ _ Hcur) as (Hid & _ & Hz & _). rewrite Hz.
    apply (rewrite_sound w _ (stamped (aCreatedAt cur) now (with_aReason (anReason e) (decided ApprovalRejected (aApprovedBy cur) cur))));
      [done| |by cbn; rewrite Hid|done|done|by left].
    exists cur. cbn. rewrite Hid. split_and!; [done|by repeat split|apply rejected_not_pending].
  - destruct Hchk as [Hp Hh]; [done..|]. destruct (isNetGuardApproval (thSnap t)) eqn:Hg.
    + destruct (ApproveNetGuard _ _ _ _ _) as [s [r|]] eqn:E; [by apply sound_finish|]. apply sound_finish.
      apply guard_commit in E as (cur & Hcur & Hpc & Ea & Et). by eapply guard_sound.
    + set (a' := decided ApprovalApproved (thActor t) (thSnap t)).
      destruct (snap_rewrites w t now ApprovalApproved (thActor t)) as [Hz Hr]; [apply Hw|done|apply approved_not_pending|].
      specialize (Hr (aReason (thSnap t))). change (with_aReason _ _) with a' in Hr.
      destruct (upsert_row now a' (st w) Hz) as [E1 E2].
      destruct (saved && thQueue t).
      * eapply (rewrite_sound w); [done|exact Hr|exact E1|exact E2|intros; by apply elem_snoc|].
        intros j t'. cbn [threads set_thread logged with_st]. rewrite lookup_insert. case_decide; [|by left]. intros [= <-]. right.
        split; [|split; [by intros ?%approved_not_pending|cbn; split_and!; [done|done|set_solver]]].
        exists (stamped (aCreatedAt (thSnap t)) now a'). cbn [st logged with_st set_thread]. rewrite E1. cbn.
        by rewrite lookup_insert_eq.
      * apply sound_finish. eapply (rewrite_sound w); [done|exact Hr|exact E1|exact E2|intros; by apply elem_snoc|by left].
Qed.

Lemma queue_sound i taskID allowed w w' : sound w → wstep rules w (QueueTask i taskID allowed) = Some w' → sound w'.
Proof.
  intros Hw. cbn. destruct (threads w !! i) as [t|] eqn:Ht; [|done]. destruct (thStage t) eqn:Hs; try done.
  case_bool_decide as Hfresh; [|done]. intros [= <-]. unfold queueTask. destruct allowed; [|by apply sound_finish].
  apply sound_finish. destruct Hw as (Hr & Hth & Htk & Ho). pose proof (Hth _ _ Ht) as ((a & Ha & Hst & _) & _ & Hq).
  rewrite Hs in Hq. destruct Hq as (Hg & Hh & Hin). set (k := task_of taskID (thActor t) (thSnap t)).
  split_and!; [done|done| |].
  - intros id k'. cbn. rewrite lookup_insert. case_decide; [|apply Htk]. intros [= <-]. exists a, (thSHA t). cbn.
    rewrite <- (static_guard _ _ Hst). split_and!; [done| |by eapply static_hash| |congruence].
    + destruct Hst as [<- _]. done.
    + destruct Hst as (_ & -> & _). done.
  - apply (once_add w _ taskID k); [done|by intros id b Hb; exists b|done|done|]. cbn. intros b Hb. assert (b = a) as -> by congruence.
    rewrite <- (static_guard _ _ Hst). congruence.
Qed.
Lemma step_sound w x w' : sound w → wstep rules w x = Some w' → sound w'.
Proof.
  destruct x as [i a now saved|i now|i id actor queue sha|i id actor|i e now saved taskID can|i taskID allowed|i now|n sha].
  - apply submit_sound.
  - apply evaluate_sound.
  - intros Hw. cbn. destruct (_ && _); [|done]. destruct (approvals (st w) !! id) as [a|] eqn:Ha; intros [= <-]; [|done].
    eapply read_sound; eauto.
  - intros Hw. cbn. destruct (_ && _); [|done]. destruct (approvals (st w) !! id) as [a|] eqn:Ha; intros [= <-]; [|done].
    eapply read_sound; eauto.
  - apply decide_sound.
  - apply queue_sound.
  - intros Hw. cbn. destruct (threads w !! i) as [t|] eqn:Ht; [|done]. destruct (thStage t); try done. intros [= <-].
    unfold handleRejectApproval. destruct (negb _); [by apply sound_finish|].
    apply (reject_sound i t now (aReason (thSnap t)) w); [done|done|]. intros; by apply elem_snoc.
  - intros Hw [= <-]. apply (sound_change w); try done; [by intros id b Hb; exists b|apply Hw|by left].
Qed.
Lemma run_snoc xs x w w' : run rules w (xs ++ [x]) = Some w' → ∃ w1, run rules w xs = Some w1 ∧ wstep rules w1 x = Some w'.
Proof. unfold run. rewrite fold_left_app. cbn. destruct (fold_left _ xs _) as [w1|]; [|done]. by exists w1. Qed.
Lemma decisions_sound xs w : run rules empty_world xs = Some w → sound w.
Proof.
  revert w. induction xs as [|x xs IH] using rev_ind; intros w Hr.
  - injection Hr as <-. by split_and!.
  - apply run_snoc in Hr as (w1 & H1 & H2). eapply step_sound; eauto.
Qed.

(** C6. Along every interleaving of submissions, automatic and manual
    approvals, rejections and anchor changes, each task that exists applies an
    approval that was decided by the task's actor with a hash of exactly the
    stored plan (or, for an approval that asks for none, without one) and
    targets that approval's node; and a NetGuard approval has at most one
    task, however many requests decide it at once. *)
Theorem tasks_bound_to_plans xs w : run rules empty_world xs = Some w →
  (∀ id k, tasks (st w) !! id = Some k → ∃ a sha, approvals (st w) !! tApprovalID k = Some a ∧
    Approved (aID a) (tActorID k) sha ∈ log w ∧ hash_ok sha a ∧ tTargets k = [aNodeID a]) ∧
  (∀ id id' k k' a, tasks (st w) !! id = Some k → tasks (st w) !! id' = Some k' → tApprovalID k = tApprovalID k' →
    approvals (st w) !! tApprovalID k = Some a → isNetGuardApproval a = true → id = id').
Proof.
  intros Hr. destruct (decisions_sound xs w Hr) as (_ & _ & Ht & Ho). split; [|exact Ho].
  intros id k Hk. destruct (Ht id k Hk) as (a & sha & ? & ? & ? & ? & _). by exists a, sha.
Qed.

(** ** Automatic rules *)

Notation is_policy actor := (has_prefix actor approvalPolicyActorPrefix = true).
(** The rule an automatic decision is credited to is the first that matches
    the approval, and the hash is of its plan. *)
Definition by_rule (actor sha : string) (a : Approval) : Prop :=
  ∃ r, List.find (fun r => matches r a) rules = Some r ∧ actor = actor_of r ∧ sha = sha256_hex (aPlan a).
Definition ruled (w : world) : Prop :=
  (∀ i t, threads w !! i = Some t → thStage t = Deciding → is_policy (thActor t) →
     policy w = Some i ∧ by_rule (thActor t) (thSHA t) (thSnap t)) ∧
  (∀ id actor sha, Approved id actor sha ∈ log w → is_policy actor →
     ∃ a, approvals (st w) !! id = Some a ∧ by_rule actor sha a).

Lemma static_by_rule actor sha a b : static a b → by_rule actor sha a → by_rule actor sha b.
Proof.
  intros Hs (r & Hf & Ha & Hh). exists r. split_and!; [|done|].
  - rewrite <- Hf. clear Hf. induction rules as [|r' l IH]; [done|]. cbn. by rewrite (static_matches r' _ _ Hs), IH.
  - destruct Hs as (_ & _ & _ & _ & _ & _ & <- & _). done.
Qed.
(** Only the decision itself adds to the log of approvals. *)
Definition logs (w w' : world) : Prop :=
  ∀ id actor sha, Approved id actor sha ∈ log w' → Approved id actor sha ∈ log w ∨
    ∃ i t, threads w !! i = Some t ∧ thStage t = Deciding ∧ id = aID (thSnap t) ∧ actor = thActor t ∧ sha = thSHA t.
Lemma ruled_change w w' : sound w → ruled w → evolves (st w) (st w') → logs w w' →
  (∀ i t, threads w' !! i = Some t → thStage t = Deciding → is_policy (thActor t) →
     (threads w !! i = Some t ∧ (policy w = Some i → policy w' = Some i)) ∨
     policy w' = Some i ∧ by_rule (thActor t) (thSHA t) (thSnap t)) → ruled w'.
Proof.
  intros (_ & Hok & _) (Hth & Hlog) He Hl Hth'. split.
  - intros i t Hi Hs Hp. destruct (Hth' i t Hi Hs Hp) as [[Hi' Hpol]|?]; [|done]. destruct (Hth i t Hi' Hs Hp). auto.
  - intros id actor sha Hin Hp. destruct (Hl id actor sha Hin) as [Hin'|(i & t & Hi & Hs & -> & -> & ->)].
    + destruct (Hlog _ _ _ Hin' Hp) as (a & Ha & Hb). destruct (He _ _ Ha) as (a' & Ha' & Hs & _).
      exists a'. split; [done|]. by eapply static_by_rule.
    + destruct (Hok i t Hi) as ((a & Ha & Hst & _) & _). destruct (He _ _ Ha) as (a' & Ha' & Hs' & _).
      exists a'. split; [done|]. eapply static_by_rule; [|by apply (Hth i t)]. by etransitivity.
Qed.

(** The rows of a day that carry an identity. *)
Definition credited (A : string) (d : Z) (kv : string * Approval) : Prop := aApprovedBy kv.2 = A ∧ day_of (aCreatedAt kv.2) = d.
#[local] Instance credited_dec A d kv : Decision (credited A d kv).
Proof. unfold credited. apply _. Defined.
Definition cnt (A : string) (d : Z) (s : approvalStore) : nat := size (filter (credited A d) (approvals s)).
Lemma count_cnt A now s : countPolicyApprovalsToday A now s = Z.of_nat (cnt A (day_of now) s).
Proof. unfold countPolicyApprovalsToday, cnt. do 2 f_equal. Qed.
Lemma size_filter_delete A d (m : gmap string Approval) id : (size (filter (credited A d) (delete id m)) ≤ size (filter (credited A d) m))%nat.
Proof. apply map_subseteq_size. rewrite map_filter_delete. apply delete_subseteq. Qed.
Lemma cnt_insert A d s s' id a : approvals s' = <[id := a]> (approvals s) →
  (cnt A d s' ≤ cnt A d s + if decide (credited A d (id, a)) then 1 else 0)%nat.
Proof.
  intros E. unfold cnt. rewrite E, map_filter_insert. case_decide.
  - destruct (filter (credited A d) (approvals s) !! id) eqn:El; [rewrite map_size_insert_Some by eauto|rewrite map_size_insert_None by done]; lia.
  - pose proof (size_filter_delete A d (approvals s) id). lia.
Qed.
Lemma cnt_same A d s s' id a a0 : approvals s' = <[id := a]> (approvals s) → approvals s !! id = Some a0 →
  (credited A d (id, a) → credited A d (id, a0)) → (cnt A d s' ≤ cnt A d s)%nat.
Proof.
  intros E Ha0 Hc. unfold cnt. rewrite E, map_filter_insert. case_decide as Hd.
  - rewrite map_size_insert_Some; [done|]. exists a0. apply map_lookup_filter_Some. auto.
  - apply size_filter_delete.
Qed.

(** What every step but the evaluation of rules does. *)
Definition spends (w w' : world) : Prop := ∀ A d, A ≠ "" → (cnt A d (st w') ≤ cnt A d (st w))%nat ∨
  (cnt A d (st w') ≤ cnt A d (st w) + 1)%nat ∧ ∃ i t, threads w !! i = Some t ∧ thStage t = Deciding ∧ thActor t = A ∧
    day_of (aCreatedAt (thSnap t)) = d ∧ ∀ t', threads w' !! i = Some t' → thStage t' ≠ Deciding.
Definition quiet_threads (w w' : world) : Prop := ∀ i t, threads w' !! i = Some t → thStage t = Deciding → is_policy (thActor t) →
  threads w !! i = Some t ∧ (policy w = Some i → policy w' = Some i).
Definition shape (w w' : world) : Prop := evolves (st w) (st w') ∧ logs w w' ∧ quiet_threads w w' ∧ spends w w'.

Lemma logs_same w w' : log w' = log w → logs w w'.
Proof. intros E id actor sha. rewrite E. by left. Qed.
Lemma quiet_finish i w w' : threads w' = threads w → policy w' = policy w → quiet_threads w (finish i w').
Proof.
  intros Et Ep j t. cbn. rewrite lookup_delete. case_decide as Hd; [done|]. rewrite Et, Ep. intros Hj _ _. split; [done|].
  intros ->. case_bool_decide; congruence.
Qed.
Lemma quiet_set i t w w' : threads w' = threads w → policy w' = policy w → (thStage t = Deciding → ¬ is_policy (thActor t)) →
  quiet_threads w (set_thread i t w').
Proof.
  intros Et Ep Hn j t'. cbn. rewrite lookup_insert, Et, Ep. case_decide; [|done]. intros [= <-] Hs Hp. by destruct (Hn Hs).
Qed.
Lemma spends_same w w' : approvals (st w') = approvals (st w) → spends w w'.
Proof. intros E A d _. left. unfold cnt. by rewrite E. Qed.
Lemma shape_finish i w : shape w (finish i w).
Proof. split_and!; [done|by apply logs_same|by apply quiet_finish|by apply spends_same]. Qed.

Lemma upsert_spends_blank w w' id a : approvals (st w') = <[id := a]> (approvals (st w)) → aApprovedBy a = "" → spends w w'.
Proof.
  intros E Hb A d HA. left. pose proof (cnt_insert A d _ _ _ _ E). destruct (decide _) as [[Hc _]|]; [cbn in Hc; congruence|lia].
Qed.
Lemma logs_rejected w w' x : log w' = log w ++ [x] → (∃ id actor, x = RejectedBy id actor) → logs w w'.
Proof. intros E (id & actor & ->) id' actor' sha'. rewrite E. left. set_solver. Qed.
Lemma reject_shape i t now reason w log' : sound w → threads w !! i = Some t → pending (thSnap t) →
  (log' = log w ∨ ∃ id actor, log' = log w ++ [RejectedBy id actor]) →
  shape w (finish i (mkWorld (UpsertApproval now (with_aReason reason (decided ApprovalRejected (aApprovedBy (thSnap t)) (thSnap t))) (st w))
    (threads w) (policy w) log')).
Proof.
  intros Hw Ht Hp Hl. destruct (snap_rewrites w t now ApprovalRejected (aApprovedBy (thSnap t))) as [Hz Hr];
    [apply Hw|by eapply Hw|apply rejected_not_pending|].
  destruct (upsert_row now (with_aReason reason (decided ApprovalRejected (aApprovedBy (thSnap t)) (thSnap t))) (st w) Hz) as [E1 _].
  split_and!.
  - exact (rewrite_evolves _ _ _ (Hr reason) E1).
  - destruct Hl as [->|(id & actor & ->)]; [by apply logs_same|]. eapply logs_rejected; eauto.
  - by apply quiet_finish.
  - eapply upsert_spends_blank; [exact E1|]. cbn. by apply (proj1 (proj2 Hw) _ _ Ht).
Qed.
Lemma submit_shape i a now saved w w' : wstep rules w (Submit i a now saved) = Some w' → shape w w'.
Proof.
  cbn. destruct (_ && _) eqn:Hg; [|done]. intros [= <-].
  rewrite !andb_true_iff, !bool_decide_eq_true in Hg. destruct Hg as [[[[[Hi Hf] _] _] Hb] _].
  assert (shape w (with_st (UpsertApproval now a (st w)) w)) as Hs.
  { split_and!; [|by apply logs_same|by intros j t ?|by eapply upsert_spends_blank].
    intros id b Hb'. exists b. split; [|done]. cbn. rewrite lookup_insert_ne; [done|]. intros <-. cbn in Hb'. congruence. }
  unfold submitApproval. destruct saved; [|done]. cbn [negb]. destruct (_ || _); [done|].
  destruct Hs as (He & Hl & _). split_and!; [exact He|exact Hl|by apply quiet_set|by eapply upsert_spends_blank].
Qed.
Lemma commit_shape i t w w1 now cur : sound w → threads w !! i = Some t → thStage t = Deciding →
  approvals (st w) !! aID (thSnap t) = Some cur →
  approvals (st w1) = <[aID (thSnap t) := stamped (aCreatedAt cur) now (decided ApprovalApproved (thActor t) (thSnap t))]> (approvals (st w)) →
  log w1 = log w ++ [Approved (aID (thSnap t)) (thActor t) (thSHA t)] → quiet_threads w w1 →
  (∀ t', threads w1 !! i = Some t' → thStage t' ≠ Deciding) → shape w w1.
Proof.
  intros Hw Ht Hs Hcur E El Hq Hst. pose proof (proj1 (proj2 Hw) _ _ Ht) as Hok.
  pose proof (restamp_rewrites w t now cur (thActor t) Hw Hok Hcur) as Hr. split_and!; [|  |done|].
  - exact (rewrite_evolves _ _ _ Hr E).
  - intros id actor sha. rewrite El, elem_of_app, list_elem_of_singleton. intros [?|[= -> -> ->]]; [by left|]. right. by exists i, t.
  - intros A d HA. pose proof (cnt_insert A d _ _ _ _ E) as Hc.
    destruct (decide _) as [[HA' Hd]|]; [|left; lia]. right. split; [done|]. exists i, t. cbn in HA', Hd. split_and!; try done.
    destruct Hok as ((a & Ha & Hsa & _) & _). simplify_eq.
    destruct Hsa as (_ & _ & _ & _ & _ & _ & _ & _ & ->). done.
Qed.
Lemma mutate_shape i can now reason id w : sound w → shape w (finish i (with_st (rejectIfCurrent can now reason id (st w)) w)).
Proof.
  intros Hw. unfold rejectIfCurrent. destruct (approvals (st w) !! id) as [cur|] eqn:Hcur; [|by destruct w; apply shape_finish].
  destruct (can cur); cbn [negb]; [|by destruct w; apply shape_finish].
  destruct (proj1 Hw _ _ Hcur) as (Hid & _ & Hz & _). rewrite Hz.
  set (a1 := stamped _ _ _). split_and!; [|by apply logs_same|by apply quiet_finish|].
  - apply (rewrite_evolves _ _ a1); [|cbn; by rewrite Hid]. exists cur. cbn. rewrite Hid.
    split_and!; [done|by repeat split|apply rejected_not_pending].
  - intros A d _. left. by apply (cnt_same A d _ _ id a1 cur).
Qed.
Lemma decide_shape i e now saved taskID can w w' : sound w → wstep rules w (Decide i e now saved taskID can) = Some w' → shape w w'.
Proof.
  intros Hw. cbn. destruct (threads w !! i) as [t|] eqn:Ht; [|done]. destruct (thStage t) eqn:Hs; try done.
  case_bool_decide; [|done]. intros [= <-]. unfold approveApprovalCore. pose proof (proj1 (proj2 Hw) _ _ Ht) as Hok.
  pose proof (checks_pending e (thSnap t) (thQueue t) (thSHA t)) as Hchk.
  destruct (approve_checks e _ _ _) as [r| | | |]; try (by apply shape_finish).
  - apply (reject_shape i t now (anReason e) w (log w)); auto. by apply Hchk.
  - destruct (can (thSnap t)); [by apply mutate_shape|by apply shape_finish].
  - assert (∀ w1 : world, ∀ t', threads (finish i w1) !! i = Some t' → thStage t' ≠ Deciding) as Hgone.
    { intros w1 t'. cbn. by rewrite lookup_delete_eq. }
    destruct (isNetGuardApproval (thSnap t)).
    + destruct (ApproveNetGuard _ _ _ _ _) as [s [r|]] eqn:E; [by apply shape_finish|].
      apply guard_commit in E as (cur & Hcur & _ & Ea & _). apply (commit_shape i t w _ now cur); try done; [by apply quiet_finish|apply Hgone].
    + destruct (snap_rewrites w t now ApprovalApproved (thActor t)) as [Hz _]; [apply Hw|done|apply approved_not_pending|].
      destruct (upsert_row now (decided ApprovalApproved (thActor t) (thSnap t)) (st w) Hz) as [E1 _].
      destruct Hok as ((a & Ha & Hsa & _) & _).
      assert (aCreatedAt (thSnap t) = aCreatedAt a) as Hca by apply Hsa.
      cbn [aCreatedAt aID decided] in E1. rewrite Hca in E1.
      destruct (saved && thQueue t); apply (commit_shape i t w _ now a); try done.
      * by apply quiet_set.
      * cbn. rewrite lookup_insert_eq. by intros t' [= <-].
      * by apply quiet_finish.
      * apply Hgone.
Qed.
Lemma step_shape w x w' : (∀ i now, x ≠ Evaluate i now) → sound w → wstep rules w x = Some w' → shape w w'.
Proof.
  destruct x as [i a now saved|i now|i id actor queue sha|i id actor|i e now saved taskID can|i taskID allowed|i now|n sha];
    intros Hx Hw.
  - apply submit_shape.
  - by destruct (Hx i now).
  - cbn. destruct (_ && _) eqn:Hg; [|done]. apply andb_true_iff in Hg as [_ Hg]. apply negb_true_iff in Hg.
    destruct (approvals (st w) !! id) as [a|]; intros [= <-]; (split_and!; [done|by apply logs_same| |by apply spends_same]).
    + apply quiet_set; [done|done|]. cbn. congruence.
    + by intros j t ?.
  - cbn. destruct (_ && _) eqn:Hg; [|done].
    destruct (approvals (st w) !! id) as [a|]; intros [= <-]; (split_and!; [done|by apply logs_same| |by apply spends_same]).
    + by apply quiet_set.
    + by intros j t ?.
  - by apply decide_shape.
  - cbn. destruct (threads w !! i) as [t|] eqn:Ht; [|done]. destruct (thStage t); try done. case_bool_decide; [|done].
    intros [= <-]. unfold queueTask. destruct allowed; [|by apply shape_finish].
    split_and!; [by intros id b Hb; exists b|by apply logs_same|by apply quiet_finish|by apply spends_same].
  - cbn. destruct (threads w !! i) as [t|] eqn:Ht; [|done]. destruct (thStage t); try done. intros [= <-].
    unfold handleRejectApproval. case_bool_decide as Hp; cbn [negb]; [|by apply shape_finish].
    apply (reject_shape i t now (aReason (thSnap t)) w); eauto.
  - intros [= <-]. split_and!; [by intros id b Hb; exists b|by apply logs_same|by intros j t ?|by apply spends_same].
Qed.

Lemma actor_is_policy r : is_policy (actor_of r).
Proof. reflexivity. Qed.
Lemma shape_ruled w w' : sound w → ruled w → shape w w' → ruled w'.
Proof. intros Hw Hr (He & Hl & Hq & _). apply (ruled_change w); auto. Qed.
Lemma evaluate_ruled i now w w' : sound w → ruled w → wstep rules w (Evaluate i now) = Some w' → ruled w'.
Proof.
  intros Hw Hr. cbn. destruct (threads w !! i) as [t|] eqn:Ht; [|done]. destruct (thStage t) eqn:Hs; try done.
  destruct (policy w) eqn:Hpol; [done|]. intros [= <-]. unfold evaluateApprovalAutoRules.
  destruct (List.find _ _) as [r|] eqn:Hf; [|by eapply shape_ruled, shape_finish].
  destruct (_ && _); [by eapply shape_ruled, shape_finish|]. apply (ruled_change w); [done|done|done|by apply logs_same|].
  intros j t'. cbn. rewrite lookup_insert. case_decide as Hij.
  - intros [= <-] _ _. right. subst j. split; [done|]. by exists r.
  - intros Hj Hsj Hp. destruct (proj1 Hr j t' Hj Hsj Hp) as [? _]. congruence.
Qed.

(** No more than [c] rows of a day carry the identity [A], and there is room
    for the decision under way. *)
Definition capped (A : string) (c : Z) (w : world) : Prop :=
  (∀ d, Z.of_nat (cnt A d (st w)) ≤ c) ∧
  ∀ i t, threads w !! i = Some t → thStage t = Deciding → thActor t = A →
    Z.of_nat (cnt A (day_of (aCreatedAt (thSnap t))) (st w)) < c.
Lemma shape_capped A c w w' : is_policy A → A ≠ "" → ruled w → shape w w' → capped A c w → capped A c w'.
Proof.
  intros HA HA0 [Hr _] (_ & _ & Hq & Hsp) [Hc Hd]. split.
  - intros d. destruct (Hsp A d HA0) as [Hle|[Hle (i & t & Hi & Hs & Hact & Hday & _)]]; [specialize (Hc d); lia|].
    specialize (Hd i t Hi Hs Hact). rewrite Hday in Hd. lia.
  - intros j t Hj Hs Hact. destruct (Hq j t Hj Hs) as [Hj' _]; [by rewrite Hact|]. pose proof (Hd j t Hj' Hs Hact) as Hlt.
    destruct (Hsp A (day_of (aCreatedAt (thSnap t))) HA0) as [Hle|[_ (i & t' & Hi & Hs' & Hact' & _ & Hgone)]]; [lia|].
    destruct (Hr i t' Hi Hs') as [Hpi _]; [by rewrite Hact'|]. destruct (Hr j t Hj' Hs) as [Hpj _]; [by rewrite Hact|].
    assert (i = j) as -> by congruence. by destruct (Hgone t Hj).
Qed.
Lemma evaluate_capped A c i now w w' : is_policy A → A ≠ "" → ruled w →
  (∀ r, r ∈ rules → actor_of r = A → 0 < DailyCap r ≤ c) →
  (∀ t, threads w !! i = Some t → day_of (aCreatedAt (thSnap t)) = day_of now) →
  wstep rules w (Evaluate i now) = Some w' → capped A c w → capped A c w'.
Proof.
  intros HA HA0 Hr Hcap Hprompt. cbn. destruct (threads w !! i) as [t|] eqn:Ht; [|done]. destruct (thStage t); try done.
  destruct (policy w); [done|]. intros [= <-] Hc. unfold evaluateApprovalAutoRules.
  destruct (List.find _ _) as [r|] eqn:Hf; [|by eapply shape_capped; eauto using shape_finish].
  destruct (_ && _) eqn:Hroom; [by eapply shape_capped; eauto using shape_finish|].
  split; [apply Hc|]. intros j t'. cbn. rewrite lookup_insert. case_decide; [|apply Hc]. intros [= <-] _ Hact. cbn in *.
  apply List.find_some in Hf as [Hin _]. apply list_elem_of_In in Hin. specialize (Hcap r Hin Hact).
  rewrite (Hprompt t eq_refl). rewrite count_cnt, Hact in Hroom.
  destruct (Z.ltb_spec 0 (DailyCap r)); [|lia]. cbn in Hroom. apply Z.leb_gt in Hroom. lia.
Qed.

(** Rules are evaluated on the day the approval was created. *)
Definition prompt (w : world) (x : action) : bool :=
  match x with
  | Evaluate i now => match threads w !! i with Some t => day_of (aCreatedAt (thSnap t)) =? day_of now | None => true end
  | _ => true
  end.
Fixpoint prompt_run (w : world) (xs : list action) : bool :=
  match xs with
  | [] => true
  | x :: xs => prompt w x && match wstep rules w x with Some w' => prompt_run w' xs | None => true end
  end.
Lemma run_cons w x xs w' : run rules w (x :: xs) = Some w' → ∃ w1, wstep rules w x = Some w1 ∧ run rules w1 xs = Some w'.
Proof.
  unfold run. cbn. destruct (wstep rules w x) as [w1|]; [by exists w1|]. intros E. exfalso. induction xs as [|y xs IH]; [done|auto].
Qed.
Lemma is_evaluate x : (∃ i now, x = Evaluate i now) ∨ ∀ i now, x ≠ Evaluate i now.
Proof. destruct x; try (right; done). left. by eexists _, _. Qed.
Lemma run_ruled xs w w' : run rules w xs = Some w' → sound w → ruled w → ruled w'.
Proof.
  revert w. induction xs as [|x xs IH]; intros w Hr Hw Hru; [by injection Hr as <-|].
  apply run_cons in Hr as (w1 & H1 & H2). apply (IH w1 H2); [by eapply step_sound|].
  destruct (is_evaluate x) as [(i & now & ->)|Hx]; [by eapply evaluate_ruled|]. eapply shape_ruled; eauto. by eapply step_shape.
Qed.
Lemma run_capped A c xs w w' : is_policy A → A ≠ "" → (∀ r, r ∈ rules → actor_of r = A → 0 < DailyCap r ≤ c) →
  run rules w xs = Some w' → prompt_run w xs = true → sound w → ruled w → capped A c w → capped A c w'.
Proof.
  intros HA HA0 Hcap. revert w. induction xs as [|x xs IH]; intros w Hr Hp Hw Hru Hc; [by injection Hr as <-|].
  apply run_cons in Hr as (w1 & H1 & H2). cbn [prompt_run] in Hp. rewrite H1 in Hp. apply andb_true_iff in Hp as [Hp1 Hp2].
  apply (IH w1 H2 Hp2); [by eapply step_sound| |];
    (destruct (is_evaluate x) as [(i & now & ->)|Hx]; [|pose proof (step_shape w x w1 Hx Hw H1) as Hsh]).
  - by eapply evaluate_ruled.
  - by eapply shape_ruled.
  - eapply evaluate_capped; eauto. cbn in Hp1. intros t Ht. rewrite Ht in Hp1. by apply Z.eqb_eq.
  - by eapply shape_capped.
Qed.

(** C20. What automatic rules decide.  Along every interleaving, each approval
    credited to a rule's identity was decided by the first rule that matches
    the approval, bound to the hash of exactly its plan; and when rules are
    evaluated on the day an approval is created, no more rows of any one day
    carry a rule's identity than the caps of the rules of that name allow,
    whatever requests run beside it. *)
Theorem auto_rules_governed xs w : run rules empty_world xs = Some w →
  (∀ id actor sha, Approved id actor sha ∈ log w → has_prefix actor approvalPolicyActorPrefix = true →
     ∃ a r, approvals (st w) !! id = Some a ∧ List.find (fun r => matches r a) rules = Some r ∧
       actor = actor_of r ∧ sha = sha256_hex (aPlan a)) ∧
  (∀ r c, (∀ r', r' ∈ rules → actor_of r' = actor_of r → 0 < DailyCap r' ≤ c) → 0 ≤ c → prompt_run empty_world xs = true →
     ∀ now, countPolicyApprovalsToday (actor_of r) now (st w) ≤ c).
Proof.
  assert (sound empty_world) as Hs by (by split_and!). assert (ruled empty_world) as Hr0.
  { split; [done|]. intros id actor sha Hin. by apply not_elem_of_nil in Hin. }
  intros Hr. split.
  - intros id actor sha Hin Hp. destruct (proj2 (run_ruled _ _ _ Hr Hs Hr0) id actor sha Hin Hp) as (a & Ha & r & ? & ? & ?).
    by exists a, r.
  - intros r c Hcap Hc0 Hp now. rewrite count_cnt. revert now.
    assert (capped (actor_of r) c empty_world) as Hc 
      by (split; [intros d; unfold cnt; cbn; rewrite map_filter_empty, map_size_empty; lia|done]).
    destruct (run_capped (actor_of r) c xs _ w (actor_is_policy r) ltac:(done) Hcap Hr Hp Hs Hr0 Hc) as [Hle _]. auto.
Qed.
End sound.

Module DecisionDemo.
#[local] Instance sdk : ApprovalSdk := {|
  ApprovalPending := "pending"; ApprovalApproved := "approved"; ApprovalRejected := "rejected";
  AgentMirrorsApprovalPlugin := "agent.mirrors"; BeaconApprovalPlugin := "beacon"; BeaconPlanKind := "node.beacon" |}.
#[local] Instance laws : ApprovalSdkLaws.
Proof. split; done. Qed.

Definition noon : time := 1000 * (1440 * minute) + 720 * minute.
Definition plan_of (id plugin action writer : string) : Approval :=
  mkApproval id "n1" plugin action "" "" "ruleset" writer "" "pending" "" noon noon.
Definition sha : string := Eval vm_compute in sha256_hex "ruleset".
Definition yes : answers :=
  mkAnswers true true true true false false true false false true true true true false true true true false true "".
Definition nightly : approvalAutoRule := mkRule "nightly" "bot" "" "" true 1.
Definition decide (i : nat) (task : string) : action := Decide i yes noon true task (fun _ => true).

(** Two plans of the bot on one day, and an operator's decision in between:
    the rule approves the first and leaves the second. *)
Definition day_run : list action :=
  [ Submit 0 (plan_of "a1" "wireguard" "apply" "bot") noon true; Submit 1 (plan_of "a2" "wireguard" "apply" "bot") noon true;
    Submit 2 (plan_of "a3" "nft" netGuardApprovalAction "alice") noon true; Evaluate 0 noon; Anchor "n1" sha;
    ReadApprove 3 "a3" "bob" true sha; ReadApprove 4 "a3" "carol" true sha; decide 0 "t0"; decide 3 "t3"; decide 4 "t4";
    QueueTask 0 "t1" true; Evaluate 1 noon; Evaluate 2 noon ].
Definition day_world : world := default empty_world (run [nightly] empty_world day_run).
Lemma day_ran : run [nightly] empty_world day_run = Some day_world.
Proof. vm_compute. reflexivity. Qed.
Lemma day_prompt : prompt_run [nightly] empty_world day_run = true.
Proof. vm_compute. reflexivity. Qed.

Lemma tasks_bound_to_plans_witness :
  (tID <$> tasks (st day_world)) = {["t1" := "t1"; "t3" := "t3"]} ∧
  ∀ id k, tasks (st day_world) !! id = Some k → ∃ a sha, approvals (st day_world) !! tApprovalID k = Some a ∧
    Approved (aID a) (tActorID k) sha ∈ log day_world ∧ hash_ok sha a ∧ tTargets k = [aNodeID a].
Proof. split; [vm_compute; reflexivity|]. apply (tasks_bound_to_plans [nightly] day_run day_world day_ran). Defined.
Lemma auto_rules_governed_witness :
  prompt_run [nightly] empty_world day_run = true ∧ countPolicyApprovalsToday "policy:nightly" noon (st day_world) ≤ 1.
Proof.
  split; [exact day_prompt|].
  apply (proj2 (auto_rules_governed [nightly] day_run day_world day_ran) nightly 1); [|lia|exact day_prompt].
  intros r Hr _. apply list_elem_of_singleton in Hr as ->. cbn. lia.
Defined.

(** ** What the decision path does not guard against *)

Definition submitted : list action := [Submit 0 (plan_of "a1" "wireguard" "apply" "alice") noon true].
(** The approval is read, then rejected, then written approved and queued. *)
Definition rejected_run : list action :=
  submitted ++ [ReadApprove 1 "a1" "bob" true sha; ReadReject 2 "a1" "carol"; WriteReject 2 noon; decide 1 "t0"; QueueTask 1 "t1" true].
(** Two operators approve the same plan at once. *)
Definition double_run : list action :=
  submitted ++ [ReadApprove 1 "a1" "bob" true sha; ReadApprove 2 "a1" "carol" true sha; decide 1 "t0"; decide 2 "t0";
                QueueTask 1 "t1" true; QueueTask 2 "t2" true].
(** A rejection written over an approval whose task is queued. *)
Definition overwritten_run : list action :=
  submitted ++ [ReadReject 2 "a1" "carol"; ReadApprove 1 "a1" "bob" true sha; decide 1 "t0"; QueueTask 1 "t1" true; WriteReject 2 noon].
Definition outcome (xs : list action) : option (option string * gmap string string * list entry) :=
  (fun w => (aStatus <$> approvals (st w) !! "a1", tApprovalID <$> tasks (st w), log w)) <$> run [] empty_world xs.
Example late_runs :
  outcome rejected_run = Some (Some "approved", {["t1" := "a1"]}, [RejectedBy "a1" "carol"; Approved "a1" "bob" sha]) ∧
  outcome double_run = Some (Some "approved", {["t1" := "a1"; "t2" := "a1"]}, [Approved "a1" "bob" sha; Approved "a1" "carol" sha]) ∧
  outcome overwritten_run = Some (Some "rejected", {["t1" := "a1"]}, [Approved "a1" "bob" sha; RejectedBy "a1" "carol"]).
Proof. split_and!; vm_compute; reflexivity. Qed.
End DecisionDemo.
